(* ===== verification/_CoqProject ===== *)
-Q . S2P
Prelude.v
BitSet.v
IntrusiveList.v
Units.v
Buddy.v
Superblock.v
SlotMap.v
WheelConfig.v
Wheel.v
Timers.v
Chunk.v
Ownership.v
Pool.v
PoolSafety.v
PoolTheorems.v
Handle.v
SlotPool.v
Token.v
SlotState.v
Anomaly.v
SlotTable.v
Completion.v
Registry.v
Flow.v
RegistryInv.v
CompletionSpec.v
DriverSteps.v
DriverSafety.v
OpLifecycle.v
DriverDemo.v
TakeRace.v
DriverApi.v
UringBase.v
RingDemo.v
FileTable.v
UringNet.v
UringOp.v
UringHooks.v
UringDriver.v
SlotInfo.v
OpFuture.v
UringOps.v
OpFutureSpec.v
OpPhases.v
UringFrame.v
UringInv.v
UringOpSafety.v
UringState.v
UringAccept.v
UringCancel.v
UringSubmit.v
UringFlush.v
UringComplete.v
UringTimers.v
UringDrive.v
UringSafety.v
UringFuture.v
UringDemo.v
UringOpDemo.v
RioRegistry.v
RioState.v
RioOwn.v
RioSafety.v
RioDemo.v
ChannelCommon.v
Spsc.v
Oneshot.v
Mpmc.v
MpmcSafety.v
Interleave.v
Wakers.v
AsyncMutex.v
RwLock.v
SyncMpmc.v
SyncOneshot.v
Task.v
TaskSafety.v
TaskQueue.v
TaskWake.v
TaskMemory.v
