(* ===== verification/Prelude.v ===== *)
(** * Verification of the Veloq asynchronous runtime

    Veloq is a thread-per-core asynchronous runtime in Rust (src/crates).  A
    driver submits operations to the kernel (io_uring or IOCP) and hands their
    completions to futures; buffers for the operations come from a slot pool,
    timers from a hierarchical wheel.  This library models the parts that carry
    that logic as executable definitions over [Z] and lists, and proves what
    makes each of them correct.

    ** Conventions

    A call returns [outcome]: [Ret] with a value, or [Fault] with the reason (a
    panic, undefined behaviour, an endless spin, or fuel that ran out).
    Machine integers are [Z] in their range: [arith] is the checked arithmetic
    of a debug build, [wrapping_add] and [wrap] the wrapping one, [checked] the
    [checked_*] family.  [result] is Rust's [Result], [vec_get] and [vec_set]
    indexing with its panic.  Shared mutable state is passed explicitly; code
    that other threads interleave with is a step relation over atomic accesses.

    ** The buffer side (crate veloq-buf, with veloq-intrusive-linklist and veloq-std)

    - [IntrusiveList]: generic.rs; nodes in a heap, list, cursors, drop guards.
    - [BitSet]: collections/bitset.rs.
    - [Units], [Superblock]: heap/units.rs; sizes and indices, the superblock's
      bit mask and state as a step relation over threads.
    - [Buddy]: heap/buddy.rs; free lists in the managed memory.
    - [Chunk], [Ownership]: heap/pool.rs; chunks, shards, who holds a block.
    - [Pool], [PoolSafety], [PoolTheorems]: heap/pool.rs and heap/cache.rs; the
      pool with its growth and the thread caches.
    - [Handle]: buffer/handle.rs, range.rs, common.rs; the packed buffer handle.
    - [SlotPool]: buffer/slot_pool.rs; requests by size, the references a
      buffer holds on its pool.

    Theorems: live blocks and buffers are disjoint in every history; allocation
    succeeds exactly when a free aligned run exists; frees of live buffers
    succeed, others are refused without a change; calls return; a buffer is
    freed as it was allocated and never outlives its pool; the list refines a
    sequence and the bit set a set.

    ** The timer wheel (crate veloq-wheel)

    - [WheelConfig]: config.rs; [SlotMap]: the slotmap crate as an interface
      with a model of it; [Wheel]: wheel.rs and task.rs.
    - [Timers]: an abstract timer service and the refinement theorem; one
      advance is exact, cancellation is final, next_timeout in its good cases.

    ** The driver core (crate driver/core)

    - [Token]: completion/token.rs, event.rs; 64-bit tokens and dispatch.
    - [SlotState], [SlotTable]: slot/core.rs, slot/table.rs; state word, cells,
      free list, counters, clean-up guards.
    - [Anomaly]: completion/types; anomalies and diagnostics.
    - [Completion]: completion/table.rs, packet.rs; recording and polling.
    - [Registry]: driver/registry.rs, slot.rs; allocation, views, submission.
    - [Flow]: completion/flow.rs, routing.rs, cancel.rs; the backend is the
      class [CompletionBackendHooks].
    - [RegistryInv], [CompletionSpec], [DriverSteps]: the invariant
      of free lists and slots, and that each call keeps it.
    - [DriverSafety], [OpLifecycle]: every sequence of calls is safe; an
      operation's life from allocation to the polled record.
    - [DriverDemo]: a small backend on which the theorems are applied.
    - [TakeRace]: a poll as its atomic accesses, next to a running driver.

    ** The io_uring driver (crates driver/core and driver/backend/uring)

    The io_uring crate, the kernel, the clock and eventfd are the class
    [IoUring] with its documented laws.  The driver sees an operation as payloads
    of the class [UringPayloads] and a table of functions, and its theorems
    need only unsigned chunk numbers of it; the actual operations are an instance.
    - [DriverApi]: core driver.rs, completion/cancel.rs; requests and answers.
    - [UringBase]: error.rs, config.rs; errors, handles, the kernel's interface.
    - [RingDemo]: a small kernel that has all the laws.
    - [FileTable]: driver/registration.rs; the registered descriptors.  They
      refine a map of descriptors, the kernel's table mirrors the driver's but for
      the places that closes run by the kernel have emptied, and every owned
      descriptor is closed once.
    - [UringOp], [UringHooks]: op.rs, diagnostics.rs, driver/completion.rs; what
      a slot holds, and how a completion finishes an operation in it.
    - [UringDriver]: driver.rs, driver/submission.rs, lifecycle.rs and
      completion.rs; submission, backlog, waker, chunks, timers, cancellation,
      completions and [drive].
    - [SlotInfo], [UringFrame], [UringInv], [UringState]: the parts of the
      invariant, where each operation is, and frame rules.
    - [UringAccept], [UringCancel], [UringSubmit], [UringFlush],
      [UringComplete], [UringTimers], [UringDrive]: every function of the driver
      returns and keeps the invariant.
    - [UringSafety]: any sequence of calls of the application, its futures and
      other threads.  What the kernel works on belongs to an operation that
      keeps its memory, no operation is forgotten while [drive] succeeds, the
      state is well-formed, and a late cancellation drops completions.
    - [UringDemo]: these theorems on concrete runs, and three bad ones.
    - [UringNet]: net.rs; addresses as bytes, their round trip, socket calls.
    - [UringOps]: core op/types.rs and op/payload.rs, op/submit, op/spec; the 23
      operations: payloads, entries, completions and the table of each.
    - [UringOpSafety], [UringOpDemo]: payloads stay paired with their operation,
      an entry stays in its buffer and aims at the file it was given, refusals
      are exactly the bad arguments, opened descriptors are not lost, addresses
      survive; a receive from registration to result on the small kernel.

    ** The futures of operations (crate driver/core)

    - [OpFuture]: op.rs, op/future.rs, the reserved slot of driver.rs; how an
      operation is submitted, polled and dropped, over any [Driver].
    - [OpFutureSpec]: [DriverContract], what a driver promises to futures, and
      the theorems from it alone: the first poll submits or gives the payload
      back with the driver's error, a result is taken once, a dropped future
      abandons its operation.
    - [OpPhases]: where the slot of a token is in its life, for any registry.
    - [UringFuture]: the io_uring driver keeps the contract
      in every state it reaches, and a read on the small kernel.

    ** The RIO backend (crate driver/backend/iocp)

    Receives and sends on Windows go through registered I/O.  Its extension table
    is the class [RioTable] over a state of Windows; the class [RioLaws] is its
    documented behaviour, and what a caller owes it.
    - [RioRegistry]: rio/core/registry.rs, registry/buffer.rs, registry/addr.rs,
      request.rs, submit_ops/dispatch.rs; registered chunks and heap buffers with
      their leases, address slots, the contexts of requests.
    - [RioState]: rio.rs, rio/core/submit_txn.rs, submit_ops.rs, rio/runtime.rs,
      control_flow.rs, lifecycle.rs; a submission as a transaction, completions as
      hooks of the driver core, sockets in flight, the shutdown.
    - [RioOwn]: the laws, and the invariants of each table: who holds a lease, a
      slot, a context.
    - [RioSafety]: the invariant of the backend is kept by submissions and their
      rollback, completions, registrations, closes and the drain.
    - [RioDemo]: buffers stay registered while the kernel uses them, a submission
      is atomic, processing settles what completed, dropping returns; a small
      Windows with the laws.

    ** The single-threaded channels (crate veloq-local)

    - [ChannelCommon]: common.rs; capacities, errors, waker cells.
    - [Spsc]: spsc.rs; the ring of possibly uninitialised cells.  The bounded
      channel refines a queue; growth keeps the items only before the first
      receive.
    - [Oneshot]: oneshot.rs; the contract of one value in every history.
    - [Mpmc], [MpmcSafety]: mpmc.rs, mpsc.rs; waiting futures.  Items are
      delivered once and in order, no wake-up is lost while woken futures are
      polled, and the channel with one receiver is the general one.

    ** What threads share (crates veloq-waker and veloq-sync)

    - [Interleave]: threads as schedules of atomic accesses; reachable states,
      invariants, concrete schedules.
    - [Wakers]: atomic.rs, mwsr.rs, common.rs; the waker cells.
      No waker is used after it is gone or leaked, no wake-up is lost,
      registration is wait-free; all with one registering task.
    - [AsyncMutex]: mutex.rs; [RwLock]: rwlock.rs.  The locks
      exclude in every interleaving; both can leave a task asleep for ever.
    - [SyncMpmc]: mpmc.rs; the channel between threads.  No
      waker is used after its future is gone, and by the replies of the calls
      what was received is what was sent, in order; a sender can sleep for ever.
    - [SyncOneshot]: oneshot.rs; one value between two
      threads.  The cell is never accessed from both sides, the value arrives,
      comes back or is dropped exactly once, no wake-up is lost, and every call
      is wait-free.

    ** The runtime (crate veloq-runtime)

    - [Task]: task/header.rs, task.rs, task/nodes.rs, scope/join.rs; one task
      with the queues that refer to it, its wakers, the workers that poll it,
      its join handle and the scope that owns its memory.
    - [TaskSafety]: it is polled by one thread at a time and has one result.
    - [TaskQueue]: the reference count counts the queues and the workers.
    - [TaskWake]: a wake of a live task is followed by a poll; the memory outlives
      the wakes.
    - [TaskMemory]: when the memory is safe, and runs where it is not.

    ** Fuel and bounds

    Loops over links run on fuel: the number of nodes, slots or orders of the
    structure, which the theorems show to be enough under the invariant
    ([OutOfFuel] is a fault, and the theorems exclude faults); the backlog of the
    io_uring driver is flushed with a unit for each of its entries.  The
    completion queue of RIO is read with a unit more than the kernel has requests, of
    which there are fewer than [rio_peak] when another is submitted, and the
    drain of a dropped backend with [drain_fuel]: its waits end after five seconds,
    of which each sleep takes a millisecond.  Widths are those of a 64-bit target.

    ** What goes wrong

    Some theorems show a run with an undesired result: a superblock returned
    twice, overlapping shards, a thread cache that outlives its pool, a timer
    wheel that oversleeps or is late, a kernel completion that is lost after
    the generation left 15 bits, a poll that takes another operation's record,
    an allocation that misses a free slot, a ring that reads cells it never
    wrote, a wake-up lost with a cancelled future, a waker cell that two
    registrations corrupt, a mutex whose waiter is not woken, a reader-writer
    lock that nobody can acquire any more, a task that is read after it was
    freed or acknowledged twice, a join handle whose node is linked a second
    time, completions dropped behind a cancellation that
    came too late, a timer that expires when it is set, a waker that is never
    armed again, a one-shot state that is split twice, a RIO backend whose drop
    panics while a connect holds its socket.

    ** Not modelled

    The IOCP driver around RIO (the completion port, its polling, the operations
    on files: calls of Windows), the context driver that forwards to a driver of
    the thread, the scheduler and the scopes of the runtime, the front end, mpsc.rs
    of veloq-sync, and the shims over threads, clocks and thread locals.  Memory
    orderings are not modelled: interleavings are sequentially consistent. *)

From stdpp Require Export base tactics option list numbers gmap fin_maps.
From Stdlib Require Export ZArith Lia.

#[global] Set Default Goal Selector "!".
#[global] Open Scope Z_scope.

(** ** Outcomes of Rust code

    A call returns a value, or the thread panics, or the code has undefined
    behaviour (an invalid dereference, [unwrap_unchecked] on [None]). *)

Inductive fault : Type :=
  | AssertFailed
  | IndexOutOfBounds
  | DivideByZero
  | ExpectFailed
  | ArithmeticOverflow
  | ExplicitPanic
  | InvalidPointer
  | UnwrapUnchecked
  | SpinsForever
  | UninitRead
  | OutOfFuel.

Inductive outcome (A : Type) : Type :=
  | Ret (a : A)
  | Fault (f : fault).
Arguments Ret {A} _.
Arguments Fault {A} _.

#[global] Instance outcome_ret : MRet outcome := fun A a => Ret a.
#[global] Instance outcome_bind : MBind outcome :=
  fun A B f m => match m with Ret a => f a | Fault e => Fault e end.

(** Rust's [Result]. *)
Inductive result (T E : Type) : Type :=
  | Ok (t : T)
  | Err (e : E).
Arguments Ok {T E} _.
Arguments Err {T E} _.

#[global] Instance fault_eq_dec : EqDecision fault.
Proof. solve_decision. Defined.

Definition assert (b : bool) : outcome unit :=
  if b then Ret tt else Fault AssertFailed.

(** [Option::expect] / [Result::expect]. *)
Definition expect {A} (o : option A) : outcome A :=
  match o with Some a => Ret a | None => Fault ExpectFailed end.

(** [Option::unwrap_unchecked]: undefined behaviour on [None]. *)
Definition unwrap_unchecked {A} (o : option A) : outcome A :=
  match o with Some a => Ret a | None => Fault UnwrapUnchecked end.

(** ** Vectors: indexing and indexed assignment panic out of range *)

Definition vec_get {A} (l : list A) (i : Z) : outcome A :=
  if i <? 0 then Fault IndexOutOfBounds else
  match l !! Z.to_nat i with
  | Some x => Ret x
  | None => Fault IndexOutOfBounds
  end.

Definition vec_set {A} (l : list A) (i : Z) (x : A) : outcome (list A) :=
  if (i <? 0) || (Z.of_nat (length l) <=? i) then Fault IndexOutOfBounds
  else Ret (<[Z.to_nat i := x]> l).

(** ** Machine integers

    Values of [u8], [u32], [u64] and [usize] (64 bits on the targets of the
    runtime) are integers of [Z] in range.  [wrapping_*] operations reduce
    modulo the width; the plain operators panic on overflow, as in a build
    with overflow checks. *)

Definition U8 : Z := 8.
Definition U16 : Z := 16.
Definition U32 : Z := 32.
Definition U64 : Z := 64.
Definition USIZE_BITS : Z := 64.
Definition USIZE_MAX : Z := 2 ^ 64 - 1.
Definition U64_MAX : Z := 2 ^ 64 - 1.
Definition U32_MAX : Z := 2 ^ 32 - 1.

Definition in_width (w x : Z) : Prop := 0 <= x < 2 ^ w.

Definition wrap (w x : Z) : Z := x mod 2 ^ w.
Definition wrapping_add (w a b : Z) : Z := wrap w (a + b).
Definition wrapping_sub (w a b : Z) : Z := wrap w (a - b).
Definition wrapping_mul (w a b : Z) : Z := wrap w (a * b).

Definition checked (w x : Z) : option Z :=
  if (0 <=? x) && (x <? 2 ^ w) then Some x else None.
Definition arith (w x : Z) : outcome Z :=
  match checked w x with Some y => Ret y | None => Fault ArithmeticOverflow end.

Definition saturating_sub (a b : Z) : Z := Z.max 0 (a - b).

(** [!x] at width [w]. *)
Definition bitnot (w x : Z) : Z := Z.lxor x (2 ^ w - 1).

Definition is_power_of_two (x : Z) : bool := (0 <? x) && (x =? 2 ^ Z.log2 x).

Definition leading_zeros (w x : Z) : Z :=
  if x =? 0 then w else w - 1 - Z.log2 x.

Fixpoint ctz_pos (p : positive) : Z :=
  match p with xO q => 1 + ctz_pos q | _ => 0 end.

Definition trailing_zeros (w x : Z) : Z :=
  match x with Zpos p => ctz_pos p | _ => w end.

(** [a % b] and [a / b] panic on a zero divisor; [is_multiple_of] does not. *)
Definition rem (a b : Z) : outcome Z :=
  if b =? 0 then Fault DivideByZero else Ret (a mod b).
Definition quot (a b : Z) : outcome Z :=
  if b =? 0 then Fault DivideByZero else Ret (a / b).
Definition is_multiple_of (a b : Z) : bool :=
  if b =? 0 then a =? 0 else a mod b =? 0.

Definition div_ceil (a b : Z) : Z := (a + b - 1) / b.
Definition next_power_of_two (x : Z) : Z := if x <=? 1 then 1 else 2 ^ Z.log2_up x.

(** ** Automation *)

Create HintDb veloq.

(** Split the comparisons of the code into propositions. *)
Ltac case_ltb :=
  match goal with
  | |- context [?a <? ?b] => destruct (Z.ltb_spec a b)
  | |- context [?a <=? ?b] => destruct (Z.leb_spec a b)
  | |- context [?a =? ?b] => destruct (Z.eqb_spec a b)
  | H : context [?a <? ?b] |- _ => destruct (Z.ltb_spec a b)
  | H : context [?a <=? ?b] |- _ => destruct (Z.leb_spec a b)
  | H : context [?a =? ?b] |- _ => destruct (Z.eqb_spec a b)
  end.

(** Destruct existentials and conjunctions in the context. *)
Ltac deex :=
  repeat match goal with
  | H : exists x, _ |- _ => let y := fresh x in destruct H as [y H]
  | H : _ /\ _ |- _ => destruct H
  end.

(** [lia] with quotients and remainders replaced by their equations. *)
Ltac dlia := Z.div_mod_to_equations; nia.

(** ** The outcome monad *)

Lemma bind_ret {A B} (a : A) (f : A -> outcome B) : mbind f (Ret a) = f a.
Proof. done. Qed.

Lemma bind_Ret_inv {A B} (m : outcome A) (f : A -> outcome B) b :
  mbind f m = Ret b <-> exists a, m = Ret a /\ f a = Ret b.
Proof. destruct m; cbn; naive_solver. Qed.

(** Invert a computation that returned. *)
Ltac inv_ret :=
  repeat match goal with
  | H : mbind _ _ = Ret _ |- _ =>
      let a := fresh "r" in
      apply bind_Ret_inv in H; destruct H as [a [? H]]
  | H : Ret _ = Ret _ |- _ => injection H as H
  | H : Fault _ = Ret _ |- _ => discriminate H
  end; subst.

(** ** Vectors *)

Lemma vec_get_Ret {A} (l : list A) i x :
  vec_get l i = Ret x <-> 0 <= i /\ l !! Z.to_nat i = Some x.
Proof.
  unfold vec_get. case_ltb; [split; [done | lia] |].
  destruct (l !! Z.to_nat i); naive_solver.
Qed.

Lemma vec_get_lookup {A} (l : list A) i x :
  0 <= i -> l !! Z.to_nat i = Some x -> vec_get l i = Ret x.
Proof. intros. by apply vec_get_Ret. Qed.

Lemma vec_get_in_range {A} (l : list A) i :
  0 <= i < Z.of_nat (length l) ->
  exists x, vec_get l i = Ret x /\ l !! Z.to_nat i = Some x.
Proof.
  intros Hi. destruct (lookup_lt_is_Some_2 l (Z.to_nat i)) as [x Hx]; [lia |].
  exists x. split; [| done]. by apply vec_get_lookup; [lia |].
Qed.

Lemma vec_set_in_range {A} (l : list A) i x :
  0 <= i < Z.of_nat (length l) -> vec_set l i x = Ret (<[Z.to_nat i := x]> l).
Proof. intros. unfold vec_set. repeat case_ltb; done || lia. Qed.

(** ** Masks, powers of two and bit scans *)

Lemma pow2_pos k : 0 <= k -> 0 < 2 ^ k.
Proof. intros. apply Z.pow_pos_nonneg; lia. Qed.
#[export] Hint Resolve pow2_pos : veloq.

Lemma land_mask x k : 0 <= k -> Z.land x (2 ^ k - 1) = x mod 2 ^ k.
Proof. intros. rewrite <- Z.land_ones by done. by rewrite Z.ones_equiv, Z.sub_1_r. Qed.

Lemma is_power_of_two_spec x :
  is_power_of_two x = true <-> exists k, 0 <= k /\ x = 2 ^ k.
Proof.
  unfold is_power_of_two. rewrite andb_true_iff, Z.ltb_lt, Z.eqb_eq. split.
  - intros [? Hx]. exists (Z.log2 x). split; [apply Z.log2_nonneg | done].
  - intros (k & Hk & ->). split; [auto with veloq |]. by rewrite Z.log2_pow2.
Qed.

Lemma ctz_pos_spec p :
  0 <= ctz_pos p /\ Z.testbit (Zpos p) (ctz_pos p) = true /\
  forall j, 0 <= j < ctz_pos p -> Z.testbit (Zpos p) j = false.
Proof.
  induction p as [p IH | p IH |]; cbn [ctz_pos].
  - split_and!; [lia | done | lia].
  - destruct IH as (H0 & H1 & H2).
    assert (Hs : forall j, 0 <= j -> Z.testbit (Zpos p~0) (1 + j) = Z.testbit (Zpos p) j).
    { intros j Hj. replace (1 + j) with (Z.succ j) by lia.
      change (Zpos p~0) with (2 * Zpos p). by apply Z.testbit_even_succ. }
    split_and!; [lia | by rewrite Hs |]. intros j Hj.
    destruct (decide (j = 0)) as [-> | Hn]; [done |].
    replace j with (1 + (j - 1)) by lia. rewrite Hs by lia. apply H2. lia.
  - split_and!; [lia | done | lia].
Qed.

Lemma trailing_zeros_spec w x : 0 < x ->
  0 <= trailing_zeros w x /\ Z.testbit x (trailing_zeros w x) = true /\
  forall j, 0 <= j < trailing_zeros w x -> Z.testbit x j = false.
Proof. intros Hx. destruct x as [| p | p]; try lia. apply ctz_pos_spec. Qed.

Lemma testbit_range x w j : 0 <= x < 2 ^ w -> 0 <= w <= j -> Z.testbit x j = false.
Proof.
  intros Hx Hj. destruct (decide (x = 0)) as [-> | ?]; [apply Z.testbit_0_l |].
  apply Z.bits_above_log2; [lia |].
  assert (Z.log2 x < w) by (apply Z.log2_lt_pow2; lia). lia.
Qed.

Lemma testbit_pow2 k j : 0 <= k -> Z.testbit (2 ^ k) j = (k =? j).
Proof. intros. by apply Z.pow2_bits_eqb. Qed.

(** A non-negative number all of whose bits from [w] on are clear is in range. *)
Lemma bits_bounded x w :
  0 <= w -> 0 <= x -> (forall j, w <= j -> Z.testbit x j = false) -> x < 2 ^ w.
Proof.
  intros Hw Hx Hb. destruct (Z.lt_ge_cases x (2 ^ w)) as [? | Hge]; [done |].
  assert (0 < 2 ^ w) by auto with veloq.
  assert (w <= Z.log2 x) by (apply Z.log2_le_pow2; lia).
  assert (Ht : Z.testbit x (Z.log2 x) = true) by (apply Z.bit_log2; lia).
  by rewrite Hb in Ht.
Qed.

Lemma bitnot_spec w x j :
  0 <= w -> 0 <= j -> Z.testbit (bitnot w x) j = xorb (Z.testbit x j) (j <? w).
Proof.
  intros. unfold bitnot. rewrite Z.lxor_spec. f_equal.
  rewrite Z.sub_1_r, <- Z.ones_equiv. by rewrite Z.testbit_ones_nonneg by lia.
Qed.

Lemma bitnot_nonneg w x : 0 <= w -> 0 <= x -> 0 <= bitnot w x.
Proof.
  intros. unfold bitnot. apply Z.lxor_nonneg.
  assert (0 < 2 ^ w) by auto with veloq. lia.
Qed.

(** [x | (1 << k)] and [x & !(1 << k)]. *)
Lemma testbit_setbit x k j :
  0 <= k -> Z.testbit (Z.lor x (2 ^ k)) j = Z.testbit x j || (k =? j).
Proof. intros. by rewrite Z.lor_spec, testbit_pow2. Qed.

Lemma testbit_clearbit w x k j :
  0 <= k < w -> 0 <= x < 2 ^ w -> 0 <= j ->
  Z.testbit (Z.land x (bitnot w (2 ^ k))) j = Z.testbit x j && negb (k =? j).
Proof.
  intros Hk Hx Hj. rewrite Z.land_spec, bitnot_spec, testbit_pow2 by lia.
  destruct (Z.ltb_spec j w); [by destruct (k =? j) |].
  by rewrite (testbit_range x w) by lia.
Qed.

Lemma setbit_range w x k : 0 <= k < w -> 0 <= x < 2 ^ w -> 0 <= Z.lor x (2 ^ k) < 2 ^ w.
Proof.
  intros Hk Hx. assert (0 < 2 ^ k) by (apply pow2_pos; lia).
  assert (0 <= Z.lor x (2 ^ k)) by (apply Z.lor_nonneg; lia).
  split; [done |]. apply bits_bounded; [lia | done |]. intros j Hj.
  rewrite testbit_setbit by lia. rewrite (testbit_range x w) by lia.
  apply Z.eqb_neq. lia.
Qed.

Lemma clearbit_range w x y : 0 <= w -> 0 <= x < 2 ^ w -> 0 <= Z.land x y < 2 ^ w.
Proof.
  intros Hw Hx.
  assert (0 <= Z.land x y) by (apply Z.land_nonneg; lia).
  split; [done |]. apply bits_bounded; [lia | done |]. intros j Hj.
  by rewrite Z.land_spec, (testbit_range x w) by lia.
Qed.

Lemma wrap_small w x : 0 <= x < 2 ^ w -> wrap w x = x.
Proof. apply Z.mod_small. Qed.

Lemma arith_ok w x : 0 <= x < 2 ^ w -> arith w x = Ret x.
Proof.
  intros. unfold arith, checked.
  destruct (Z.leb_spec 0 x), (Z.ltb_spec x (2 ^ w)); done || lia.
Qed.

(** ** Lists *)

Lemma filter_id {A} (P : A -> Prop) `{!forall x, Decision (P x)} (l : list A) :
  Forall P l -> filter P l = l.
Proof. induction 1 as [| x l Hx _ IH]; [done |]. by rewrite filter_cons_True, IH. Qed.

(** ** Alignment to powers of two *)

Lemma pow2_split p o : 0 <= p <= o -> 2 ^ o = 2 ^ p * 2 ^ (o - p).
Proof. intros. rewrite <- Z.pow_add_r by lia. f_equal. lia. Qed.

Lemma aligned_le x p o : 0 <= p <= o -> x mod 2 ^ o = 0 -> x mod 2 ^ p = 0.
Proof.
  intros Hp Hx. assert (0 < 2 ^ p) by (apply pow2_pos; lia).
  assert (0 < 2 ^ (o - p)) by (apply pow2_pos; lia).
  apply Z.mod_divide; [lia |]. apply Z.mod_divide in Hx; [| rewrite (pow2_split p) by lia; lia].
  etrans; [| exact Hx]. rewrite (pow2_split p o) by lia. apply Z.divide_factor_l.
Qed.

Lemma aligned_unique x y s : 0 < s -> x mod s = 0 -> y mod s = 0 -> x <= y < x + s -> x = y.
Proof.
  intros Hs Hx Hy Hr.
  assert (Ex : x = s * (x / s)) by (pose proof (Z.div_mod x s); lia).
  assert (Ey : y = s * (y / s)) by (pose proof (Z.div_mod y s); lia).
  set (a := x / s) in *. set (c := y / s) in *.
  assert (c < a + 1) by nia. assert (a < c + 1) by nia. replace c with a in Ey by lia. lia.
Qed.

(** An aligned block of a larger order that meets an aligned block contains it. *)
Lemma aligned_nested j p x o y :
  0 <= o <= p -> j mod 2 ^ p = 0 -> x mod 2 ^ o = 0 ->
  j <= y < j + 2 ^ p -> x <= y < x + 2 ^ o -> j <= x /\ x + 2 ^ o <= j + 2 ^ p.
Proof.
  intros Ho Hj Hx Hy1 Hy2. apply (aligned_le _ o) in Hj; [| done].
  assert (0 < 2 ^ o) by (apply pow2_pos; lia).
  assert (0 < 2 ^ (p - o)) by (apply pow2_pos; lia).
  rewrite (pow2_split o p) in * by done.
  assert (Ej : j = 2 ^ o * (j / 2 ^ o)) by (pose proof (Z.div_mod j (2 ^ o)); lia).
  assert (Ex : x = 2 ^ o * (x / 2 ^ o)) by (pose proof (Z.div_mod x (2 ^ o)); lia).
  set (s := 2 ^ o) in *. set (a := j / s) in *. set (c := x / s) in *. set (d := 2 ^ (p - o)) in *.
  assert (a < c + 1) by nia. assert (c < a + d) by nia. nia.
Qed.

(** Halves of an aligned block are aligned. *)
Lemma aligned_half i o : 0 <= o -> i mod 2 ^ (o + 1) = 0 ->
  i mod 2 ^ o = 0 /\ (i + 2 ^ o) mod 2 ^ o = 0.
Proof.
  intros Ho Hi. apply (aligned_le _ o) in Hi; [| lia].
  assert (0 < 2 ^ o) by (apply pow2_pos; lia).
  split; [done |]. rewrite <- Z.add_mod_idemp_l, Hi, Z.add_0_l by lia.
  apply Z.mod_same. lia.
Qed.

(** Toggling the bit of the block size moves to the other half of the pair. *)
Lemma lxor_pow2 i o : 0 <= o -> 0 <= i -> i mod 2 ^ o = 0 ->
  (i mod 2 ^ (o + 1) = 0 /\ Z.lxor i (2 ^ o) = i + 2 ^ o) \/
  (exists k, k mod 2 ^ (o + 1) = 0 /\ 0 <= k /\ i = k + 2 ^ o /\ Z.lxor i (2 ^ o) = k).
Proof.
  intros Ho Hi Hm. assert (Hp : 0 < 2 ^ o) by (apply pow2_pos; lia).
  assert (E : 2 ^ (o + 1) = 2 * 2 ^ o) by (rewrite Z.pow_add_r by lia; lia).
  assert (Hnc : forall k, k mod 2 ^ (o + 1) = 0 -> Z.lxor k (2 ^ o) = k + 2 ^ o).
  { intros k Hk. symmetry. apply Z.add_nocarry_lxor, Z.bits_inj'. intros j Hj.
    rewrite Z.land_spec, testbit_pow2, Z.testbit_0_l by done.
    destruct (Z.eqb_spec o j) as [<- |]; [| apply andb_false_r].
    rewrite andb_true_r, <- (Z.mod_pow2_bits_low k (o + 1)) by lia.
    rewrite Hk. apply Z.testbit_0_l. }
  assert (Ei : i = 2 ^ o * (i / 2 ^ o)) by (pose proof (Z.div_mod i (2 ^ o)); lia).
  assert (0 <= i / 2 ^ o) by (apply Z.div_pos; lia).
  set (q := i / 2 ^ o) in *. clearbody q. subst i. clear Hm.
  destruct (Z.Even_or_Odd q) as [[r Hr] | [r Hr]].
  - left. assert (H0 : (2 ^ o * q) mod 2 ^ (o + 1) = 0).
    { rewrite E, Hr. replace (2 ^ o * (2 * r)) with (r * (2 * 2 ^ o)) by lia.
      apply Z.mod_mul. lia. }
    split; [done | by apply Hnc].
  - right. assert (0 <= r) by lia. exists (r * (2 * 2 ^ o)). assert (Hk0 : (r * (2 * 2 ^ o)) mod 2 ^ (o + 1) = 0).
    { rewrite E. apply Z.mod_mul. lia. }
    split_and!; [done | nia | rewrite Hr; nia |].
    replace (2 ^ o * q) with (r * (2 * 2 ^ o) + 2 ^ o) by (rewrite Hr; nia).
    rewrite <- Hnc by done. by rewrite Z.lxor_assoc, Z.lxor_nilpotent, Z.lxor_0_r.
Qed.
