(* ===== verification/BitSet.v ===== *)
(** * [BitSet] of veloq-std ([collections/bitset.rs]): a fixed-capacity bit set

    The bytes of the boxed slice are a list of [u8] values; the operations
    return the Rust [Result], inside the outcome of the byte indexing, which
    panics out of range.  [bitset_wf] is the type invariant under which the
    indexing never panics; [bitset_bit] is the abstract view of the set as a
    function from positions to booleans. *)

From S2P Require Import Prelude.

Inductive BitSetError : Type :=
  | OutOfBounds (index size : Z).

Record BitSet : Type := mkBitSet { bs_bits : list Z; bs_size : Z }.

Definition bitset_new (capacity : Z) : BitSet :=
  {| bs_bits := replicate (Z.to_nat (div_ceil capacity 8)) 0; bs_size := capacity |}.

Definition bitset_set (s : BitSet) (index : Z)
  : outcome (BitSet * result unit BitSetError) :=
  if bs_size s <=? index then Ret (s, Err (OutOfBounds index (bs_size s))) else
  let byte_idx := index / 8 in
  let bit_idx := index mod 8 in
  byte ← vec_get (bs_bits s) byte_idx;
  bits ← vec_set (bs_bits s) byte_idx (Z.lor byte (2 ^ bit_idx));
  Ret ({| bs_bits := bits; bs_size := bs_size s |}, Ok tt).

Definition bitset_clear (s : BitSet) (index : Z)
  : outcome (BitSet * result unit BitSetError) :=
  if bs_size s <=? index then Ret (s, Err (OutOfBounds index (bs_size s))) else
  let byte_idx := index / 8 in
  let bit_idx := index mod 8 in
  byte ← vec_get (bs_bits s) byte_idx;
  bits ← vec_set (bs_bits s) byte_idx (Z.land byte (bitnot U8 (2 ^ bit_idx)));
  Ret ({| bs_bits := bits; bs_size := bs_size s |}, Ok tt).

Definition bitset_get (s : BitSet) (index : Z) : outcome (result bool BitSetError) :=
  if bs_size s <=? index then Ret (Err (OutOfBounds index (bs_size s))) else
  let byte_idx := index / 8 in
  let bit_idx := index mod 8 in
  byte ← vec_get (bs_bits s) byte_idx;
  Ret (Ok (negb (Z.land byte (2 ^ bit_idx) =? 0))).

Definition bitset_capacity (s : BitSet) : Z := bs_size s.

(** ** Invariant and abstract view *)

Definition bitset_wf (s : BitSet) : Prop :=
  0 <= bs_size s /\
  Z.of_nat (length (bs_bits s)) = div_ceil (bs_size s) 8 /\
  Forall (in_width U8) (bs_bits s).

Definition bitset_bit (s : BitSet) (i : Z) : bool :=
  match bs_bits s !! Z.to_nat (i / 8) with
  | Some byte => Z.testbit byte (i mod 8)
  | None => false
  end.

Lemma bitset_new_wf n : 0 <= n -> bitset_wf (bitset_new n).
Proof.
  intros Hn. split_and!; cbn; [done | |].
  - rewrite length_replicate. unfold div_ceil.
    rewrite Z2Nat.id; [done |]. apply Z.div_pos; lia.
  - apply Forall_replicate. unfold in_width, U8. lia.
Qed.

Lemma bitset_new_bit n i : bitset_bit (bitset_new n) i = false.
Proof.
  unfold bitset_bit. cbn. destruct (replicate _ _ !! _) as [x |] eqn:E; [| done].
  apply lookup_replicate in E as [-> _]. apply Z.testbit_0_l.
Qed.

Lemma land_pow2_eqb x k : 0 <= k -> negb (Z.land x (2 ^ k) =? 0) = Z.testbit x k.
Proof.
  intros Hk. destruct (Z.testbit x k) eqn:E.
  - apply negb_true_iff, Z.eqb_neq. intros H0.
    assert (Z.testbit (Z.land x (2 ^ k)) k = false) by (rewrite H0; apply Z.testbit_0_l).
    rewrite Z.land_spec, testbit_pow2, E, Z.eqb_refl in H by done. done.
  - apply negb_false_iff, Z.eqb_eq, Z.bits_inj'. intros j Hj.
    rewrite Z.land_spec, testbit_pow2, Z.testbit_0_l by done.
    destruct (Z.eqb_spec k j) as [<- |]; [by rewrite E | apply andb_false_r].
Qed.

(** The byte of an in-range position exists. *)
Lemma bitset_byte s i : bitset_wf s -> 0 <= i < bs_size s ->
  0 <= i / 8 < Z.of_nat (length (bs_bits s)) /\ 0 <= i mod 8 < 8 /\
  exists byte, vec_get (bs_bits s) (i / 8) = Ret byte /\
    bs_bits s !! Z.to_nat (i / 8) = Some byte /\ in_width U8 byte.
Proof.
  intros (Hsz & Hlen & Hall) Hi.
  assert (Hr : 0 <= i / 8 < Z.of_nat (length (bs_bits s))).
  { rewrite Hlen. unfold div_ceil. dlia. }
  split; [done |]. split; [apply Z.mod_pos_bound; lia |].
  destruct (vec_get_in_range _ _ Hr) as (byte & Hg & Hl).
  exists byte. split_and!; [done | done |]. by eapply Forall_lookup_1.
Qed.

Lemma bitset_get_ok s i : bitset_wf s -> 0 <= i < bs_size s ->
  bitset_get s i = Ret (Ok (bitset_bit s i)).
Proof.
  intros Hwf Hi. destruct (bitset_byte s i Hwf Hi) as (Hr & Hm & byte & Hg & Hl & _).
  unfold bitset_get, bitset_bit. case_ltb; [lia |]. rewrite Hg, Hl. cbn.
  by rewrite land_pow2_eqb by lia.
Qed.

Lemma bitset_get_err s i : bs_size s <= i ->
  bitset_get s i = Ret (Err (OutOfBounds i (bs_size s))).
Proof. intros. unfold bitset_get. by case_ltb; [| lia]. Qed.

(** Overwriting the byte of position [i] by one that differs from it at most
    at that position changes the abstract set at [i] only. *)
Lemma bitset_update s i byte byte' :
  bitset_wf s -> 0 <= i < bs_size s ->
  bs_bits s !! Z.to_nat (i / 8) = Some byte -> in_width U8 byte' ->
  (forall j, 0 <= j < 8 -> j <> i mod 8 -> Z.testbit byte' j = Z.testbit byte j) ->
  let s' := {| bs_bits := <[Z.to_nat (i / 8) := byte']> (bs_bits s); bs_size := bs_size s |} in
  bitset_wf s' /\ bitset_bit s' i = Z.testbit byte' (i mod 8) /\
  forall j, 0 <= j -> j <> i -> bitset_bit s' j = bitset_bit s j.
Proof.
  intros Hwf Hi Hl Hb Hd s'. destruct (bitset_byte s i Hwf Hi) as (Hr & Hm & _).
  destruct Hwf as (Hsz & Hlen & Hall). split_and!.
  - split_and!; cbn; [done | by rewrite length_insert | by apply Forall_insert].
  - unfold bitset_bit; cbn. by rewrite list_lookup_insert_eq by lia.
  - intros j Hj Hne. unfold bitset_bit; cbn.
    destruct (decide (j / 8 = i / 8)) as [He | He].
    + rewrite He, list_lookup_insert_eq, Hl by lia.
      apply Hd; [apply Z.mod_pos_bound; lia |]. intros Hmod. apply Hne.
      rewrite (Z.div_mod j 8), (Z.div_mod i 8) by lia. by rewrite He, Hmod.
    + rewrite list_lookup_insert_ne; [done |]. intros Hx. apply He.
      assert (0 <= j / 8) by (apply Z.div_pos; lia). lia.
Qed.

Lemma bitset_set_ok s i : bitset_wf s -> 0 <= i < bs_size s ->
  exists s', bitset_set s i = Ret (s', Ok tt) /\ bitset_wf s' /\ bs_size s' = bs_size s /\
    bitset_bit s' i = true /\
    forall j, 0 <= j -> j <> i -> bitset_bit s' j = bitset_bit s j.
Proof.
  intros Hwf Hi. destruct (bitset_byte s i Hwf Hi) as (Hr & Hm & byte & Hg & Hl & Hb).
  unfold bitset_set. case_ltb; [lia |]. rewrite Hg. cbn. rewrite vec_set_in_range by done.
  cbn. eexists. split; [done |].
  destruct (bitset_update s i byte (Z.lor byte (2 ^ (i mod 8)))) as (H1 & H2 & H3); try done.
  - apply setbit_range; done.
  - intros j Hj Hne. rewrite testbit_setbit by lia.
    destruct (Z.eqb_spec (i mod 8) j); [congruence | apply orb_false_r].
  - split_and!; [done | done | | done]. rewrite H2, testbit_setbit by lia.
    by rewrite Z.eqb_refl, orb_true_r.
Qed.

Lemma bitset_clear_ok s i : bitset_wf s -> 0 <= i < bs_size s ->
  exists s', bitset_clear s i = Ret (s', Ok tt) /\ bitset_wf s' /\ bs_size s' = bs_size s /\
    bitset_bit s' i = false /\
    forall j, 0 <= j -> j <> i -> bitset_bit s' j = bitset_bit s j.
Proof.
  intros Hwf Hi. destruct (bitset_byte s i Hwf Hi) as (Hr & Hm & byte & Hg & Hl & Hb).
  unfold bitset_clear. case_ltb; [lia |]. rewrite Hg. cbn. rewrite vec_set_in_range by done.
  cbn. eexists. split; [done |].
  destruct (bitset_update s i byte (Z.land byte (bitnot U8 (2 ^ (i mod 8)))))
    as (H1 & H2 & H3); try done.
  - apply clearbit_range; done.
  - intros j Hj Hne. rewrite testbit_clearbit by (done || lia).
    destruct (Z.eqb_spec (i mod 8) j); [congruence | apply andb_true_r].
  - split_and!; [done | done | | done]. rewrite H2, testbit_clearbit by (done || lia).
    by rewrite Z.eqb_refl, andb_false_r.
Qed.

(** ** The set of positions it implements *)

Inductive bitset_op : Type := OpSet (i : Z) | OpClear (i : Z) | OpGet (i : Z).

Definition op_index (op : bitset_op) : Z :=
  match op with OpSet i | OpClear i | OpGet i => i end.

(** One call, with the answer of [get] or [false]. *)
Definition bitset_exec (s : BitSet) (op : bitset_op) : outcome (BitSet * result bool BitSetError) :=
  let unit_answer (r : BitSet * result unit BitSetError) :=
    (r.1, match r.2 with Ok _ => Ok false | Err e => Err e end) in
  match op with
  | OpSet i => r ← bitset_set s i; Ret (unit_answer r)
  | OpClear i => r ← bitset_clear s i; Ret (unit_answer r)
  | OpGet i => r ← bitset_get s i; Ret (s, r)
  end.

Fixpoint bitset_run (s : BitSet) (ops : list bitset_op)
    : outcome (BitSet * list (result bool BitSetError)) :=
  match ops with
  | [] => Ret (s, [])
  | op :: ops =>
      '(s, r) ← bitset_exec s op;
      '(s, rs) ← bitset_run s ops;
      Ret (s, r :: rs)
  end.

(** The same calls on a finite set. *)
Definition set_exec (capacity : Z) (X : gset Z) (op : bitset_op) : gset Z * result bool BitSetError :=
  if capacity <=? op_index op then (X, Err (OutOfBounds (op_index op) capacity)) else
  match op with
  | OpSet i => ({[i]} ∪ X, Ok false)
  | OpClear i => (X ∖ {[i]}, Ok false)
  | OpGet i => (X, Ok (bool_decide (i ∈ X)))
  end.

Fixpoint set_run (capacity : Z) (X : gset Z) (ops : list bitset_op) : list (result bool BitSetError) :=
  match ops with
  | [] => []
  | op :: ops => let '(X, r) := set_exec capacity X op in r :: set_run capacity X ops
  end.

Definition bitset_sim (capacity : Z) (s : BitSet) (X : gset Z) : Prop :=
  bitset_wf s /\ bs_size s = capacity /\ forall i, 0 <= i -> bitset_bit s i = bool_decide (i ∈ X).

Lemma bitset_exec_sim capacity s X op : bitset_sim capacity s X -> 0 <= op_index op ->
  exists s', bitset_exec s op = Ret (s', (set_exec capacity X op).2) /\
    bitset_sim capacity s' (set_exec capacity X op).1.
Proof.
  intros (Hwf & Hsz & Hbit) Hi. unfold set_exec.
  destruct (Z.leb_spec capacity (op_index op)) as [Hout | Hin].
  { exists s. destruct op as [i | i | i]; cbn in Hout |- *;
      unfold bitset_set, bitset_clear, bitset_get; rewrite Hsz, (proj2 (Z.leb_le _ _) Hout); cbn; done. }
  rewrite <- Hsz in Hin. destruct op as [i | i | i]; cbn in Hi, Hin |- *.
  - destruct (bitset_set_ok s i) as (s' & He & Hwf' & Hsz' & Hb & Hrest); [done | done |].
    exists s'. rewrite He. split; [done |]. split_and!; [done | congruence |].
    intros j Hj. destruct (decide (j = i)) as [-> | Hne].
    + rewrite Hb. symmetry. apply bool_decide_eq_true_2. set_solver.
    + rewrite Hrest, Hbit by done. apply bool_decide_ext. set_solver.
  - destruct (bitset_clear_ok s i) as (s' & He & Hwf' & Hsz' & Hb & Hrest); [done | done |].
    exists s'. rewrite He. split; [done |]. split_and!; [done | congruence |].
    intros j Hj. destruct (decide (j = i)) as [-> | Hne].
    + rewrite Hb. symmetry. apply bool_decide_eq_false_2. set_solver.
    + rewrite Hrest, Hbit by done. apply bool_decide_ext. set_solver.
  - exists s. rewrite bitset_get_ok, Hbit by done. done.
Qed.

(** A [BitSet] is a set of positions below its capacity: any sequence of
    [set], [clear] and [get] calls on a new one returns, and answers as the
    same calls on a finite set do, with [OutOfBounds] for the positions from
    the capacity on. *)
Theorem bitset_refines_set (capacity : Z) (ops : list bitset_op)
    (Hcap : 0 <= capacity) (Hidx : Forall (fun op => 0 <= op_index op) ops) :
  exists s, bitset_run (bitset_new capacity) ops = Ret (s, set_run capacity ∅ ops).
Proof.
  assert (Hsim : bitset_sim capacity (bitset_new capacity) ∅).
  { split_and!; [by apply bitset_new_wf | done |]. intros i _. by rewrite bitset_new_bit. }
  revert Hsim. generalize (bitset_new capacity) as s, (∅ : gset Z) as X.
  induction Hidx as [| op ops Hop _ IH]; intros s X Hsim; [by exists s |].
  destruct (bitset_exec_sim _ _ _ _ Hsim Hop) as (s1 & He & Hsim1). cbn [bitset_run set_run].
  destruct (set_exec capacity X op) as [X1 r]. destruct (IH _ _ Hsim1) as (s2 & He2).
  exists s2. cbn in He, He2. by rewrite He, bind_ret, He2.
Qed.

Lemma bitset_refines_set_witness :
  exists s, bitset_run (bitset_new 10) [OpSet 9; OpGet 9; OpClear 9; OpGet 9; OpSet 10] =
    Ret (s, [Ok false; Ok true; Ok false; Ok false; Err (OutOfBounds 10 10)]).
Proof.
  apply (bitset_refines_set 10 [OpSet 9; OpGet 9; OpClear 9; OpGet 9; OpSet 10]); [lia |].
  repeat constructor; cbn; lia.
Defined.
