(* ===== verification/IntrusiveList.v ===== *)
(** * veloq-intrusive-linklist: the intrusive doubly linked list

    The links embedded in the nodes form a heap from link addresses to
    [Link] records; a list is its [head], [tail] and [len] fields.  Pointer
    writes go through the heap, so that nodes shared between lists and the
    unlinking of a node reached through a pointer are modelled as they happen.
    A dereference of an address without a link is undefined behaviour
    ([InvalidPointer]).  [Link] and [ConcurrentLink] differ in the atomicity of
    the [linked] flag only; both are the record [Link] here, the list being
    used under its owner's lock.

    [dll] relates a heap and a list to the sequence of link addresses it
    represents; [list_op] with [abs_op] is the abstract specification, a plain
    sequence, which the list operations refine. *)

From S2P Require Import Prelude.

Record Link : Type := mkLink {
  link_next : option Z;
  link_prev : option Z;
  link_linked : bool
}.

Abbreviation links := (gmap Z Link).

Definition link_new : Link := mkLink None None false.

(** The [LinkNode] accessors, on the link at address [p]. *)
Definition link_deref (h : links) (p : Z) : outcome Link :=
  match h !! p with Some l => Ret l | None => Fault InvalidPointer end.

Definition link_update (f : Link -> Link) (h : links) (p : Z) : outcome links :=
  match h !! p with Some _ => Ret (alter f p h) | None => Fault InvalidPointer end.

Definition upd_next (n : option Z) (l : Link) : Link := mkLink n (link_prev l) (link_linked l).
Definition upd_prev (q : option Z) (l : Link) : Link := mkLink (link_next l) q (link_linked l).
Definition upd_linked (b : bool) (l : Link) : Link := mkLink (link_next l) (link_prev l) b.

Definition set_next (h : links) (p : Z) (n : option Z) : outcome links :=
  link_update (upd_next n) h p.
Definition set_prev (h : links) (p : Z) (q : option Z) : outcome links :=
  link_update (upd_prev q) h p.
Definition set_linked (h : links) (p : Z) (b : bool) : outcome links :=
  link_update (upd_linked b) h p.
Definition unsafe_unlink (h : links) (p : Z) : outcome links :=
  link_update (fun _ => link_new) h p.

(** The adapter maps a value's address to the address of its link and back;
    its safety contract is that the two maps are inverse on values. *)
Class GenericAdapter := {
  get_link : Z -> Z;
  get_value : Z -> Z;
  get_value_link : forall v, get_value (get_link v) = v
}.

(** [intrusive_adapter!]: the link is the field at offset [off]. *)
Definition offset_adapter (off : Z) : GenericAdapter.
Proof.
  refine {| get_link v := v + off; get_value l := l - off |}.
  intros v. lia.
Defined.

Record LinkedList : Type := mkList {
  ll_head : option Z;
  ll_tail : option Z;
  ll_len : Z
}.

Definition list_new : LinkedList := mkList None None 0.

Definition list_is_empty (l : LinkedList) : bool :=
  match ll_head l with None => true | Some _ => false end.

Definition list_len (l : LinkedList) : Z := ll_len l.

Section Operations.
Context {Ad : GenericAdapter}.

Definition push_back (h : links) (l : LinkedList) (value : Z)
  : outcome (links * LinkedList) :=
  let link_ptr := get_link value in
  link ← link_deref h link_ptr;
  if link_linked link then Fault ExplicitPanic else
  let old_tail := ll_tail l in
  h ← set_next h link_ptr None;
  h ← set_prev h link_ptr old_tail;
  h ← set_linked h link_ptr true;
  '(h, head) ← match old_tail with
               | Some tail => h ← set_next h tail (Some link_ptr); Ret (h, ll_head l)
               | None => Ret (h, Some link_ptr)
               end;
  len ← arith USIZE_BITS (ll_len l + 1);
  Ret (h, mkList head (Some link_ptr) len).

Definition push_front (h : links) (l : LinkedList) (value : Z)
  : outcome (links * LinkedList) :=
  let link_ptr := get_link value in
  link ← link_deref h link_ptr;
  if link_linked link then Fault ExplicitPanic else
  let old_head := ll_head l in
  h ← set_prev h link_ptr None;
  h ← set_next h link_ptr old_head;
  h ← set_linked h link_ptr true;
  '(h, tail) ← match old_head with
               | Some head => h ← set_prev h head (Some link_ptr); Ret (h, ll_tail l)
               | None => Ret (h, Some link_ptr)
               end;
  len ← arith USIZE_BITS (ll_len l + 1);
  Ret (h, mkList (Some link_ptr) tail len).

Definition pop_front (h : links) (l : LinkedList)
  : outcome (links * LinkedList * option Z) :=
  match ll_head l with
  | None => Ret (h, l, None)
  | Some head =>
      head_link ← link_deref h head;
      let next := link_next head_link in
      '(h, tail) ← match next with
                   | Some next_ptr => h ← set_prev h next_ptr None; Ret (h, ll_tail l)
                   | None => Ret (h, None)
                   end;
      len ← arith USIZE_BITS (ll_len l - 1);
      h ← unsafe_unlink h head;
      Ret (h, mkList next tail len, Some (get_value head))
  end.

(** A cursor is the address of the link it stands on. *)
Definition front (l : LinkedList) : option Z := ll_head l.
Definition cursor_mut_from_ptr (value : Z) : option Z := Some (get_link value).
Definition cursor_get (current : option Z) : option Z := get_value <$> current.
Definition cursor_is_null (current : option Z) : bool :=
  match current with None => true | Some _ => false end.

Definition cursor_move_next (h : links) (current : option Z) : outcome (option Z) :=
  match current with
  | Some curr => link ← link_deref h curr; Ret (link_next link)
  | None => Ret None
  end.

(** [CursorMut::remove]: the heap, the list, the cursor and the value removed. *)
Definition cursor_remove (h : links) (l : LinkedList) (current : option Z)
  : outcome (links * LinkedList * option Z * option Z) :=
  match current with
  | None => Ret (h, l, None, None)
  | Some p =>
      current_link ← link_deref h p;
      let prev := link_prev current_link in
      let next := link_next current_link in
      '(h, head) ← match prev with
                   | Some prev_ptr => h ← set_next h prev_ptr next; Ret (h, ll_head l)
                   | None => Ret (h, next)
                   end;
      '(h, tail) ← match next with
                   | Some next_ptr => h ← set_prev h next_ptr prev; Ret (h, ll_tail l)
                   | None => Ret (h, prev)
                   end;
      len ← arith USIZE_BITS (ll_len l - 1);
      h ← unsafe_unlink h p;
      Ret (h, mkList head tail len, next, Some (get_value p))
  end.

(** [GenericRemoveOnDrop::drop]. *)
Definition remove_on_drop (h : links) (l : LinkedList) (node : Z)
  : outcome (links * LinkedList) :=
  link ← link_deref h (get_link node);
  if link_linked link then
    '(h, l, _, _) ← cursor_remove h l (cursor_mut_from_ptr node); Ret (h, l)
  else Ret (h, l).

(** [Drop for GenericLinkedList]: the loop runs at most once per link. *)
Fixpoint drop_loop (fuel : nat) (h : links) (current : option Z) : outcome links :=
  match current, fuel with
  | None, _ => Ret h
  | Some _, O => Fault OutOfFuel
  | Some p, S fuel =>
      link ← link_deref h p;
      let next := link_next link in
      h ← unsafe_unlink h p;
      drop_loop fuel h next
  end.

Definition list_drop (h : links) (l : LinkedList) : outcome links :=
  drop_loop (size h) h (ll_head l).

End Operations.

(** ** Representation: the heap stores the sequence [xs] of links *)

Definition hd_or (xs : list Z) (nn : option Z) : option Z :=
  match xs with [] => nn | x :: _ => Some x end.
Definition last_or (xs : list Z) (pp : option Z) : option Z :=
  match last xs with Some x => Some x | None => pp end.

Fixpoint dseg (h : links) (pp : option Z) (xs : list Z) (nn : option Z) : Prop :=
  match xs with
  | [] => True
  | x :: xs' => h !! x = Some (mkLink (hd_or xs' nn) pp true) /\ dseg h (Some x) xs' nn
  end.

Definition dll (h : links) (l : LinkedList) (xs : list Z) : Prop :=
  NoDup xs /\ ll_head l = head xs /\ ll_tail l = last xs /\
  ll_len l = Z.of_nat (length xs) /\ dseg h None xs None.

(** ** The abstract list *)

Inductive list_op : Type :=
  | OpPushBack (v : Z)
  | OpPushFront (v : Z)
  | OpPopFront
  | OpRemove (v : Z).

Section Spec.
Context {Ad : GenericAdapter}.

(** The code of an operation: the new heap and list and the value returned. *)
Definition exec_op (h : links) (l : LinkedList) (o : list_op)
  : outcome (links * LinkedList * option Z) :=
  match o with
  | OpPushBack v => '(h, l) ← push_back h l v; Ret (h, l, None)
  | OpPushFront v => '(h, l) ← push_front h l v; Ret (h, l, None)
  | OpPopFront => pop_front h l
  | OpRemove v =>
      '(h, l, _, r) ← cursor_remove h l (cursor_mut_from_ptr v); Ret (h, l, r)
  end.

(** Its meaning on the sequence of links. *)
Definition abs_op (xs : list Z) (o : list_op) : list Z * option Z :=
  match o with
  | OpPushBack v => (xs ++ [get_link v], None)
  | OpPushFront v => (get_link v :: xs, None)
  | OpPopFront => (tail xs, get_value <$> head xs)
  | OpRemove v => (filter (.≠ get_link v) xs, Some v)
  end.

(** The safety contract of the caller: a pushed node is a live unlinked node
    and the length does not overflow; a removed node is a node of the list. *)
Definition op_pre (h : links) (xs : list Z) (o : list_op) : Prop :=
  match o with
  | OpPushBack v | OpPushFront v =>
      (exists k, h !! get_link v = Some k /\ link_linked k = false) /\
      Z.of_nat (length xs) + 1 < 2 ^ 64
  | OpPopFront => True
  | OpRemove v => get_link v ∈ xs
  end.

(** The links an operation may write, besides those of the list. *)
Definition op_node (o : list_op) : list Z :=
  match o with OpPushBack v | OpPushFront v => [get_link v] | _ => [] end.

End Spec.

(** ** Segments *)

Lemma last_or_app xs ys pp : last_or (xs ++ ys) pp = last_or ys (last_or xs pp).
Proof. unfold last_or. rewrite last_app. by destruct (last ys). Qed.

Lemma last_or_nil xs : last_or xs None = last xs.
Proof. unfold last_or. by destruct (last xs). Qed.

Lemma hd_or_nil xs : hd_or xs None = head xs.
Proof. by destruct xs. Qed.

Lemma hd_or_app xs ys nn : hd_or (xs ++ ys) nn = hd_or xs (hd_or ys nn).
Proof. by destruct xs. Qed.

Lemma dseg_app h pp xs ys nn :
  dseg h pp (xs ++ ys) nn <-> dseg h pp xs (hd_or ys nn) /\ dseg h (last_or xs pp) ys nn.
Proof.
  revert pp. induction xs as [| x xs IH]; intros pp; cbn.
  - unfold last_or; cbn. naive_solver.
  - rewrite IH, hd_or_app. unfold last_or at 2. rewrite last_cons.
    unfold last_or. destruct (last xs); naive_solver.
Qed.

Lemma dseg_frame h h' pp xs nn :
  (forall x, x ∈ xs -> h' !! x = h !! x) -> dseg h pp xs nn -> dseg h' pp xs nn.
Proof.
  revert pp. induction xs as [| x xs IH]; intros pp Hf; cbn; [done |].
  intros [Hx Hs]. split; [rewrite Hf; [done | set_solver] |].
  apply IH; [set_solver | done].
Qed.

(** A link of a segment is in the heap and linked. *)
Lemma dseg_lookup h pp xs nn x :
  dseg h pp xs nn -> x ∈ xs -> exists k, h !! x = Some k /\ link_linked k = true.
Proof.
  intros Hs (ys & zs & ->)%list_elem_of_split.
  apply dseg_app in Hs as [_ [Hx _]]. eauto.
Qed.

(** Redirecting the [next] of the last link of a segment. *)
Lemma dseg_set_next h pp xs t nn nn' :
  NoDup xs -> last xs = Some t -> dseg h pp xs nn ->
  dseg (alter (upd_next nn') t h) pp xs nn'.
Proof.
  intros Hnd (ys & ->)%last_Some Hs.
  apply NoDup_app in Hnd as (_ & Hd & _).
  apply dseg_app in Hs as [Hy [Ht _]]. apply dseg_app. split; [| split; [| done]].
  - eapply dseg_frame; [| exact Hy]. intros y Hy'. apply lookup_alter_ne. set_solver.
  - by rewrite lookup_alter_eq, Ht.
Qed.

(** Redirecting the [prev] of its first link. *)
Lemma dseg_set_prev h pp pp' x xs nn :
  NoDup (x :: xs) -> dseg h pp (x :: xs) nn ->
  dseg (alter (upd_prev pp') x h) pp' (x :: xs) nn.
Proof.
  intros [Hx Hnd]%NoDup_cons [Hh Hs]. split.
  - by rewrite lookup_alter_eq, Hh.
  - eapply dseg_frame; [| exact Hs]. intros y Hy. apply lookup_alter_ne. set_solver.
Qed.

(** A segment does not see a write to a link outside it. *)
Lemma dseg_alter h f p pp xs nn :
  p ∉ xs -> dseg h pp xs nn -> dseg (alter f p h) pp xs nn.
Proof. intros Hp. apply dseg_frame. intros x Hx. apply lookup_alter_ne. set_solver. Qed.

Lemma link_update_ok f h p k : h !! p = Some k -> link_update f h p = Ret (alter f p h).
Proof. unfold link_update. by intros ->. Qed.

Lemma link_deref_ok h p k : h !! p = Some k -> link_deref h p = Ret k.
Proof. unfold link_deref. by intros ->. Qed.

(** The three writes that initialise a pushed link, before a continuation. *)
Lemma init_link {B} h p k n q (K : links -> outcome B) :
  h !! p = Some k ->
  (h ← set_next h p n; h ← set_prev h p q; h ← set_linked h p true; K h)
  = K (<[p := mkLink n q true]> h).
Proof.
  intros Hp. unfold set_next, set_prev, set_linked, link_update.
  rewrite Hp; cbn. rewrite lookup_alter_eq, Hp; cbn.
  rewrite lookup_alter_eq, lookup_alter_eq, Hp; cbn. f_equal.
  apply map_eq. intros i. rewrite !lookup_alter, lookup_insert, Hp; cbn.
  by repeat case_decide.
Qed.

Lemma set_next_prev_comm {B} h p n q (K : links -> outcome B) :
  (h ← set_prev h p q; h ← set_next h p n; K h)
  = (h ← set_next h p n; h ← set_prev h p q; K h).
Proof.
  unfold set_next, set_prev, link_update. destruct (h !! p) eqn:Hp; cbn; [| done].
  rewrite !lookup_alter_eq, Hp; cbn. f_equal.
  apply map_eq. intros i. rewrite !lookup_alter, Hp; cbn. by repeat case_decide.
Qed.

Lemma dll_len h l xs : dll h l xs -> ll_len l = Z.of_nat (length xs).
Proof. by intros (? & ? & ? & ? & ?). Qed.

Lemma dll_intro h hd tl len xs :
  NoDup xs -> hd = head xs -> tl = last xs -> len = Z.of_nat (length xs) ->
  dseg h None xs None -> dll h (mkList hd tl len) xs.
Proof. done. Qed.

Lemma dll_empty h : dll h list_new [].
Proof. split_and!; cbn; try done. constructor. Qed.

Lemma dll_is_empty h l xs : dll h l xs -> list_is_empty l = bool_decide (xs = []).
Proof. intros (_ & Hh & _). unfold list_is_empty. rewrite Hh. by destruct xs. Qed.

Lemma dll_frame h h' l xs :
  (forall x, x ∈ xs -> h' !! x = h !! x) -> dll h l xs -> dll h' l xs.
Proof.
  intros Hf (? & ? & ? & ? & Hs). split_and!; try done. by eapply dseg_frame.
Qed.

Lemma dll_linked h l xs x : dll h l xs -> x ∈ xs ->
  exists k, h !! x = Some k /\ link_linked k = true.
Proof. intros (_ & _ & _ & _ & Hs). by eapply dseg_lookup. Qed.

(** ** The operations refine the sequence *)

Section Refinement.
Context {Ad : GenericAdapter}.

Lemma push_back_ok h l xs v k :
  dll h l xs -> h !! get_link v = Some k -> link_linked k = false ->
  Z.of_nat (length xs) + 1 < 2 ^ 64 ->
  exists h' l', push_back h l v = Ret (h', l') /\ dll h' l' (xs ++ [get_link v]) /\
    forall p, p ∉ get_link v :: xs -> h' !! p = h !! p.
Proof.
  set (x := get_link v). intros Hd Hx Hk Hlen.
  assert (Hnx : x ∉ xs).
  { intros Hin. destruct (dll_linked _ _ _ _ Hd Hin) as (k' & Hk' & ?). congruence. }
  destruct Hd as (Hnd & Hh & Ht & Hl & Hs).
  unfold push_back. fold x. rewrite (link_deref_ok _ _ _ Hx); cbn [mbind outcome_bind].
  rewrite Hk, (init_link _ _ _ _ _ _ Hx), Ht.
  assert (Hs1 : dseg (<[x := mkLink None (last xs) true]> h) None xs None).
  { eapply dseg_frame; [| exact Hs]. intros y Hy. apply lookup_insert_ne. set_solver. }
  assert (Hnd' : NoDup (xs ++ [x])).
  { apply NoDup_app. split_and!; [done | set_solver | apply NoDup_singleton]. }
  destruct (last xs) as [t |] eqn:Elast.
  - assert (t ∈ xs) by (apply last_Some in Elast as [ys ->]; set_solver).
    destruct (dseg_lookup _ _ _ _ _ Hs1 ltac:(eassumption)) as (kt & Hkt & _).
    unfold set_next. rewrite (link_update_ok _ _ _ _ Hkt); cbn [mbind outcome_bind].
    rewrite arith_ok by (rewrite Hl; unfold USIZE_BITS; lia). cbn.
    do 2 eexists. split; [done |]. split.
    + split_and!; cbn; [done | | | |].
      * rewrite Hh. by destruct xs.
      * by rewrite last_snoc.
      * rewrite Hl, length_app; cbn. lia.
      * apply dseg_app. split; [by eapply dseg_set_next |]. cbn.
        split; [| done]. rewrite lookup_alter_ne, lookup_insert_eq by set_solver.
        unfold last_or. by rewrite Elast.
    + intros p Hp. rewrite lookup_alter_ne, lookup_insert_ne; set_solver.
  - apply last_None in Elast as ->. cbn.
    rewrite arith_ok by (rewrite Hl; unfold USIZE_BITS; cbn in *; lia). cbn.
    do 2 eexists. split; [done |]. split.
    + split_and!; cbn; [done | done | done | rewrite Hl; done |]. by rewrite lookup_insert_eq.
    + intros p Hp. rewrite lookup_insert_ne; set_solver.
Qed.

Lemma push_front_ok h l xs v k :
  dll h l xs -> h !! get_link v = Some k -> link_linked k = false ->
  Z.of_nat (length xs) + 1 < 2 ^ 64 ->
  exists h' l', push_front h l v = Ret (h', l') /\ dll h' l' (get_link v :: xs) /\
    forall p, p ∉ get_link v :: xs -> h' !! p = h !! p.
Proof.
  set (x := get_link v). intros Hd Hx Hk Hlen.
  assert (Hnx : x ∉ xs).
  { intros Hin. destruct (dll_linked _ _ _ _ Hd Hin) as (k' & Hk' & ?). congruence. }
  destruct Hd as (Hnd & Hh & Ht & Hl & Hs).
  unfold push_front. fold x. rewrite (link_deref_ok _ _ _ Hx); cbn [mbind outcome_bind].
  rewrite Hk, set_next_prev_comm, (init_link _ _ _ _ _ _ Hx), Hh.
  assert (Hnd' : NoDup (x :: xs)) by (by apply NoDup_cons).
  destruct xs as [| y ys]; cbn [head].
  - cbn. rewrite arith_ok by (rewrite Hl; unfold USIZE_BITS; cbn in *; lia). cbn.
    do 2 eexists. split; [done |]. split.
    + split_and!; cbn; [done | done | done | rewrite Hl; done |]. by rewrite lookup_insert_eq.
    + intros p Hp. rewrite lookup_insert_ne; set_solver.
  - assert (Hs1 : dseg (<[x := mkLink (Some y) None true]> h) None (y :: ys) None).
    { eapply dseg_frame; [| exact Hs]. intros z Hz. apply lookup_insert_ne. set_solver. }
    destruct Hs1 as [Hy Hs1]. unfold set_prev.
    rewrite (link_update_ok _ _ _ _ Hy); cbn [mbind outcome_bind].
    rewrite arith_ok by (rewrite Hl; unfold USIZE_BITS; cbn in *; lia). cbn.
    do 2 eexists. split; [done |]. split.
    + split_and!; cbn [ll_head ll_tail ll_len]; [done | done | | |].
      * by rewrite Ht.
      * rewrite Hl. cbn. lia.
      * split; [by rewrite lookup_alter_ne, lookup_insert_eq by set_solver |].
        eapply dseg_set_prev; done.
    + intros p Hp. rewrite lookup_alter_ne, lookup_insert_ne; set_solver.
Qed.

(** Writing the freshly unlinked state to a link outside a segment. *)
Lemma unlink_ok h p k : h !! p = Some k ->
  unsafe_unlink h p = Ret (alter (fun _ => link_new) p h).
Proof. apply link_update_ok. Qed.

Lemma pop_front_nil h l : dll h l [] -> pop_front h l = Ret (h, l, None).
Proof. intros (_ & Hh & _). unfold pop_front. by rewrite Hh. Qed.

Lemma pop_front_cons h l x xs :
  dll h l (x :: xs) -> Z.of_nat (length (x :: xs)) < 2 ^ 64 ->
  exists h' l', pop_front h l = Ret (h', l', Some (get_value x)) /\ dll h' l' xs /\
    h' !! x = Some link_new /\ forall p, p ∉ x :: xs -> h' !! p = h !! p.
Proof.
  intros (Hnd & Hh & Ht & Hl & Hx & Hs) Hlen. apply NoDup_cons in Hnd as [Hnx Hnd].
  unfold pop_front. rewrite Hh; cbn [head]. rewrite (link_deref_ok _ _ _ Hx).
  cbn [mbind outcome_bind link_next].
  assert (Hsub : arith USIZE_BITS (ll_len l - 1) = Ret (Z.of_nat (length xs))).
  { rewrite Hl, arith_ok; cbn in *; [f_equal; lia | unfold USIZE_BITS; lia]. }
  destruct xs as [| y ys]; cbn [hd_or].
  - cbn. rewrite Hsub; cbn. rewrite (unlink_ok _ _ _ Hx); cbn.
    do 2 eexists. split; [done |]. split_and!; cbn; try done.
    + by rewrite lookup_alter_eq, Hx.
    + intros p Hp. apply lookup_alter_ne. set_solver.
  - destruct Hs as [Hy Hs]. unfold set_prev. rewrite (link_update_ok _ _ _ _ Hy).
    cbn [mbind outcome_bind]. rewrite Hsub; cbn [mbind outcome_bind].
    assert (Hne : y <> x) by set_solver.
    rewrite (unlink_ok _ x (mkLink (Some y) None true))
      by (rewrite lookup_alter_ne by done; exact Hx).
    do 2 eexists. split; [done |].
    split; [| split].
    + apply dll_intro; [done | done | by rewrite Ht | done |].
      apply dseg_alter; [done |]. by eapply dseg_set_prev.
    + by rewrite lookup_alter_eq, lookup_alter_ne, Hx.
    + intros p Hp. rewrite !lookup_alter_ne; set_solver.
Qed.

(** The two writes of [remove] that close the gap left by a link. *)
Lemma close_gap h ys x zs :
  NoDup (ys ++ x :: zs) -> dseg h None (ys ++ x :: zs) None ->
  exists h',
    (h ← match last ys with
         | Some q => set_next h q (head zs) | None => Ret h end;
     match head zs with Some n => set_prev h n (last ys) | None => Ret h end) = Ret h' /\
    dseg h' None (ys ++ zs) None /\ h' !! x = Some (mkLink (head zs) (last ys) true) /\
    forall p, p ∉ ys ++ zs -> h' !! p = h !! p.
Proof.
  intros Hnd Hs. apply dseg_app in Hs as [Hy [Hx Hz]].
  apply NoDup_app in Hnd as (Hndy & Hdis & [Hxz Hndz]%NoDup_cons).
  rewrite hd_or_nil, last_or_nil in Hx. cbn in Hy, Hz.
  assert (Hxy : x ∉ ys) by set_solver.
  (* the first write *)
  assert (exists h1, match last ys with
         | Some q => set_next h q (head zs) | None => Ret h end = Ret h1 /\
      dseg h1 None ys (head zs) /\ dseg h1 (Some x) zs None /\
      h1 !! x = Some (mkLink (head zs) (last ys) true) /\
      forall p, p ∉ ys -> h1 !! p = h !! p) as (h1 & E1 & Hy1 & Hz1 & Hx1 & Hf1).
  { destruct (last ys) as [q |] eqn:Eq.
    - assert (Hq : q ∈ ys) by (apply last_Some in Eq as [? ->]; set_solver).
      destruct (dseg_lookup _ _ _ _ _ Hy Hq) as (kq & Hkq & _).
      exists (alter (upd_next (head zs)) q h). unfold set_next.
      rewrite (link_update_ok _ _ _ _ Hkq). split_and!; [done | | | |].
      + by eapply dseg_set_next.
      + apply dseg_alter; [set_solver | done].
      + by rewrite lookup_alter_ne by set_solver.
      + intros p Hp. apply lookup_alter_ne. set_solver.
    - apply last_None in Eq as ->. by exists h. }
  rewrite E1; cbn [mbind outcome_bind]. destruct zs as [| z zs]; cbn [head].
  - exists h1. split; [done |]. rewrite app_nil_r. split_and!; [done | done |].
    intros p Hp. by apply Hf1.
  - destruct (dseg_lookup _ _ _ _ z Hz1) as (kz & Hkz & _); [set_solver |].
    exists (alter (upd_prev (last ys)) z h1). unfold set_prev.
    rewrite (link_update_ok _ _ _ _ Hkz). split_and!; [done | | |].
    + apply dseg_app. split; [apply dseg_alter; [set_solver | done] |].
      rewrite last_or_nil. by eapply dseg_set_prev.
    + by rewrite lookup_alter_ne by set_solver.
    + intros p Hp. rewrite lookup_alter_ne by set_solver. apply Hf1. set_solver.
Qed.

Lemma cursor_remove_ok h l ys x zs :
  dll h l (ys ++ x :: zs) -> Z.of_nat (length (ys ++ x :: zs)) < 2 ^ 64 ->
  exists h' l', cursor_remove h l (Some x) = Ret (h', l', head zs, Some (get_value x)) /\
    dll h' l' (ys ++ zs) /\ h' !! x = Some link_new /\
    forall p, p ∉ ys ++ x :: zs -> h' !! p = h !! p.
Proof.
  intros (Hnd & Hh & Ht & Hl & Hs) Hlen.
  destruct (close_gap h ys x zs Hnd Hs) as (h' & E & Hs' & Hx' & Hf).
  assert (Hx : h !! x = Some (mkLink (head zs) (last ys) true)).
  { apply dseg_app in Hs as [_ [Hx _]]. by rewrite hd_or_nil, last_or_nil in Hx. }
  apply NoDup_app in Hnd as (Hndy & Hdis & [Hxz Hndz]%NoDup_cons).
  assert (Hsub : arith USIZE_BITS (ll_len l - 1) = Ret (Z.of_nat (length (ys ++ zs)))).
  { rewrite Hl, arith_ok; rewrite !length_app in *; cbn in *; [f_equal; lia |].
    unfold USIZE_BITS. lia. }
  exists (alter (fun _ => link_new) x h'), (mkList (head (ys ++ zs)) (last (ys ++ zs))
    (Z.of_nat (length (ys ++ zs)))). split.
  - unfold cursor_remove. rewrite (link_deref_ok _ _ _ Hx).
    cbn [mbind outcome_bind link_next link_prev].
    assert (Hhd : head (ys ++ zs) = match last ys with Some _ => ll_head l | None => head zs end).
    { rewrite Hh. destruct ys as [| y ys]; [done |].
      rewrite last_cons. by destruct (last ys). }
    assert (Htl : last (ys ++ zs) = match head zs with Some _ => ll_tail l | None => last ys end).
    { rewrite Ht, !last_app, last_cons. by destruct zs as [| z zs]; [| rewrite last_cons; destruct (last zs)]. }
    rewrite Hhd, Htl. apply bind_Ret_inv in E as (h1 & E1 & E2).
    destruct (last ys) as [q |], (head zs) as [n |]; inv_ret;
      rewrite ?E1; cbn [mbind outcome_bind]; rewrite ?E2; cbn [mbind outcome_bind];
      rewrite Hsub; cbn [mbind outcome_bind]; by rewrite (unlink_ok _ _ _ Hx').
  - split; [| split].
    + apply dll_intro; [apply NoDup_app; set_solver | done.. |].
      apply dseg_alter; [set_solver | done].
    + by rewrite lookup_alter_eq, Hx'.
    + intros p Hp. rewrite lookup_alter_ne by set_solver. apply Hf. set_solver.
Qed.

(** Dropping a list unlinks every node, within the fuel of the loop. *)
Lemma drop_loop_ok fuel h pp xs :
  NoDup xs -> dseg h pp xs None -> (length xs <= fuel)%nat ->
  exists h', drop_loop fuel h (head xs) = Ret h' /\
    (forall x, x ∈ xs -> h' !! x = Some link_new) /\
    forall p, p ∉ xs -> h' !! p = h !! p.
Proof.
  revert fuel h pp. induction xs as [| x xs IH]; intros fuel h pp Hnd Hs Hf.
  { exists h. split_and!; [by destruct fuel | set_solver | done]. }
  destruct fuel as [| fuel]; [cbn in Hf; lia |].
  apply NoDup_cons in Hnd as [Hx Hnd]. destruct Hs as [Hh Hs].
  destruct (IH fuel (alter (fun _ => link_new) x h) (Some x)) as (h' & E & Hn & Hp).
  { done. } { by apply dseg_alter. } { cbn in Hf. lia. }
  exists h'. cbn [head drop_loop]. rewrite (link_deref_ok _ _ _ Hh).
  cbn [mbind outcome_bind]. rewrite (unlink_ok _ _ _ Hh). cbn [mbind outcome_bind link_next].
  rewrite hd_or_nil. split_and!; [done | |].
  - intros y [-> | Hy]%elem_of_cons; [| by apply Hn].
    by rewrite Hp, lookup_alter_eq, Hh.
  - intros p Hne. rewrite Hp, lookup_alter_ne; set_solver.
Qed.

Lemma dseg_length h pp xs nn : NoDup xs -> dseg h pp xs nn -> (length xs <= size h)%nat.
Proof.
  intros Hnd Hs. rewrite <- size_dom, <- (size_list_to_set (C := gset Z) xs) by done.
  apply subseteq_size. intros x Hx. apply elem_of_list_to_set in Hx.
  destruct (dseg_lookup _ _ _ _ _ Hs Hx) as (k & Hk & _). by apply elem_of_dom_2 in Hk.
Qed.

(** Removing an element of a duplicate-free list. *)
Lemma filter_remove (ys zs : list Z) x : NoDup (ys ++ x :: zs) ->
  filter (.≠ x) (ys ++ x :: zs) = ys ++ zs.
Proof.
  intros (_ & Hd & [Hx _]%NoDup_cons)%NoDup_app.
  rewrite filter_app, filter_cons_False by naive_solver. f_equal.
  - apply filter_id. apply Forall_forall. set_solver.
  - apply filter_id. apply Forall_forall. set_solver.
Qed.

(** One operation refines its abstract meaning, and leaves every link outside
    the list and the pushed node alone. *)
Lemma exec_op_ok h l xs o :
  dll h l xs -> Z.of_nat (length xs) < 2 ^ 64 -> op_pre h xs o ->
  exists h' l', exec_op h l o = Ret (h', l', (abs_op xs o).2) /\
    dll h' l' (abs_op xs o).1 /\
    forall p, p ∉ op_node o ++ xs -> h' !! p = h !! p.
Proof.
  intros Hd Hlen Hpre. destruct o as [v | v | | v];
    cbn [exec_op abs_op op_pre op_node fst snd] in *.
  - destruct Hpre as [(k & Hk & Hu) Hl].
    destruct (push_back_ok _ _ _ _ _ Hd Hk Hu Hl) as (h' & l' & E & ? & ?).
    exists h', l'. by rewrite E.
  - destruct Hpre as [(k & Hk & Hu) Hl].
    destruct (push_front_ok _ _ _ _ _ Hd Hk Hu Hl) as (h' & l' & E & ? & ?).
    exists h', l'. by rewrite E.
  - destruct xs as [| x xs].
    + exists h, l. by rewrite pop_front_nil.
    + destruct (pop_front_cons _ _ _ _ Hd Hlen) as (h' & l' & E & ? & _ & ?).
      exists h', l'. by rewrite E.
  - apply list_elem_of_split in Hpre as (ys & zs & ->).
    destruct (cursor_remove_ok _ _ _ _ _ Hd Hlen) as (h' & l' & E & ? & _ & ?).
    exists h', l'. unfold cursor_mut_from_ptr. rewrite E. cbn.
    rewrite get_value_link, filter_remove; [done | by destruct Hd].
Qed.

End Refinement.

(** ** Properties *)

Section Properties.
Context {Ad : GenericAdapter}.

(** The intrusive list refines a plain sequence of nodes: on a well-formed list, every
    operation (push at either end, pop, removal through a node pointer at any
    position) returns without a fault what the sequence returns, the heap
    represents the new sequence, and no link outside the list and the pushed
    node is written. *)
Theorem intrusive_list_refines_sequence (h : links) (l : LinkedList) (xs : list Z)
    (o : list_op) (Hd : dll h l xs) (Hlen : Z.of_nat (length xs) < 2 ^ 64)
    (Hpre : op_pre h xs o) :
  exists h' l', exec_op h l o = Ret (h', l', (abs_op xs o).2) /\
    dll h' l' (abs_op xs o).1 /\
    (forall p, p ∉ op_node o ++ xs -> h' !! p = h !! p).
Proof. by apply exec_op_ok. Qed.

(** Dropping a list terminates, leaves every one of its nodes unlinked
    (so that a node can be dropped or pushed again without a panic), and
    writes no other link. *)
Theorem list_drop_unlinks_all (h : links) (l : LinkedList) (xs : list Z) (Hd : dll h l xs) :
  exists h', list_drop h l = Ret h' /\
    (forall x, x ∈ xs -> h' !! x = Some link_new) /\
    (forall p, p ∉ xs -> h' !! p = h !! p).
Proof.
  destruct Hd as (Hnd & Hh & _ & _ & Hs). unfold list_drop. rewrite Hh.
  eapply drop_loop_ok; [done | done |]. by eapply dseg_length.
Qed.

(** Pushing a node that is already linked, at either end, panics and does
    nothing else: a node is never in two places. *)
Theorem push_linked_panics (h : links) (l : LinkedList) (v : Z) (k : Link)
    (Hk : h !! get_link v = Some k) (Hl : link_linked k = true) :
  push_back h l v = Fault ExplicitPanic /\ push_front h l v = Fault ExplicitPanic.
Proof. unfold push_back, push_front. rewrite (link_deref_ok _ _ _ Hk). cbn. by rewrite Hl. Qed.

(** [RemoveOnDrop] leaves the list without the guarded node whether or not
    the node was already removed from it. *)
Theorem remove_on_drop_removes (h : links) (l : LinkedList) (xs : list Z) (v : Z)
    (Hd : dll h l xs) (Hlen : Z.of_nat (length xs) < 2 ^ 64)
    (Hv : get_link v ∈ xs \/ h !! get_link v = Some link_new) :
  exists h' l', remove_on_drop h l v = Ret (h', l') /\
    dll h' l' (filter (.≠ get_link v) xs) /\ h' !! get_link v = Some link_new.
Proof.
  unfold remove_on_drop. destruct Hv as [Hv | Hv].
  - destruct (dll_linked _ _ _ _ Hd Hv) as (k & Hk & Hkl).
    apply list_elem_of_split in Hv as (ys & zs & ->).
    destruct (cursor_remove_ok _ _ _ _ _ Hd Hlen) as (h' & l' & E & Hd' & Hn & _).
    exists h', l'. rewrite (link_deref_ok _ _ _ Hk). cbn [mbind outcome_bind]. rewrite Hkl.
    unfold cursor_mut_from_ptr. rewrite E. cbn.
    rewrite filter_remove; [done | by destruct Hd].
  - exists h, l. rewrite (link_deref_ok _ _ _ Hv). cbn. split_and!; [done | | done].
    rewrite filter_id; [done |]. apply Forall_forall. intros x Hx ->.
    destruct (dll_linked _ _ _ _ Hd Hx) as (k & Hk & Hkl). naive_solver.
Qed.

End Properties.

(** Three nodes at addresses 10, 20 and 30 whose links are at offset 8, the
    first two in the list. *)
Definition ex_heap : links :=
  {[ 18 := mkLink (Some 28) None true; 28 := mkLink None (Some 18) true; 38 := link_new ]}.
Definition ex_list : LinkedList := mkList (Some 18) (Some 28) 2.

Lemma ex_dll : dll ex_heap ex_list [18; 28].
Proof.
  apply dll_intro; try done.
  apply (bool_decide_unpack _). vm_compute. exact I.
Qed.

Lemma intrusive_list_refines_sequence_witness :
  exists h' l', exec_op (Ad := offset_adapter 8) ex_heap ex_list (OpRemove 10)
    = Ret (h', l', Some 10) /\ dll h' l' [28].
Proof.
  destruct (intrusive_list_refines_sequence (Ad := offset_adapter 8)
    ex_heap ex_list [18; 28] (OpRemove 10)) as (h' & l' & E & Hd & _).
  - exact ex_dll.
  - cbn; lia.
  - cbn. set_solver.
  - exists h', l'. split; [exact E | exact Hd].
Defined.

Lemma list_drop_unlinks_all_witness :
  exists h', list_drop ex_heap ex_list = Ret h' /\ h' !! 28 = Some link_new.
Proof.
  destruct (list_drop_unlinks_all ex_heap ex_list [18; 28]) as (h' & E & Hn & _).
  - exact ex_dll.
  - exists h'. split; [exact E |]. apply Hn. set_solver.
Defined.

Lemma push_linked_panics_witness :
  push_back (Ad := offset_adapter 8) ex_heap ex_list 20 = Fault ExplicitPanic /\
  push_front (Ad := offset_adapter 8) ex_heap ex_list 20 = Fault ExplicitPanic.
Proof.
  apply (push_linked_panics (Ad := offset_adapter 8) ex_heap ex_list 20
    (mkLink None (Some 18) true)); reflexivity.
Defined.

Lemma remove_on_drop_removes_witness :
  exists h' l', remove_on_drop (Ad := offset_adapter 8) ex_heap ex_list 20 = Ret (h', l') /\
    dll h' l' [18].
Proof.
  destruct (remove_on_drop_removes (Ad := offset_adapter 8) ex_heap ex_list [18; 28] 20)
    as (h' & l' & E & Hd & _).
  - exact ex_dll.
  - cbn; lia.
  - left. cbn. set_solver.
  - exists h', l'. split; [exact E | exact Hd].
Defined.
