(* ===== verification/Units.v ===== *)
(** * veloq-buf [heap/units.rs]: sizes, indices and their conversions

    [ChunkId], [PageAlignedBytes], [SlotCount], [ShardIndex], [SlotIndex] and
    [SuperblockIndex] wrap one integer each and are integers here.  The
    superblock state machine of the same source file is in [Superblock]. *)

From S2P Require Import Prelude.

(** 2 MB: the least memory of a pool. *)
Definition MIN_THREAD_MEMORY : Z := 2 * 1024 * 1024.

(** Slots are 4 KB; a superblock is 64 of them. *)
Definition SLOT_SIZE : Z := 4096.
Definition SUPERBLOCK_ORDER : Z := 6.
Definition SUPERBLOCK_SIZE : Z := Z.shiftl 1 SUPERBLOCK_ORDER.

(** [ChunkId::from_index]: [u16::try_from]. *)
Definition chunk_id_from_index (index : Z) : option Z := checked U16 index.

(** [PageAlignedBytes::new] and [from_usize]. *)
Definition page_aligned_new (size : Z) : option Z :=
  if is_multiple_of size SLOT_SIZE then Some size else None.
Definition page_aligned_from_usize (size : Z) : option Z :=
  if size =? 0 then None else page_aligned_new size.
Definition slot_count (bytes : Z) : Z := bytes / SLOT_SIZE.

(** [SlotCount]. *)
Definition slot_count_bytes (n : Z) : outcome Z := arith USIZE_BITS (n * SLOT_SIZE).
Definition superblock_count (n : Z) : Z := n / SUPERBLOCK_SIZE.
Definition per_shard (n shard_count : Z) : outcome Z := quot n shard_count.

(** [SlotIndex]. *)
Definition slot_offset (index : Z) : Z := index * SLOT_SIZE.
Definition slot_from_offset (offset : Z) : Z := offset / SLOT_SIZE.
Definition from_shard_local (shard slots_per_shard local : Z) : Z :=
  shard * slots_per_shard + local.
Definition shard_local (index slots_per_shard : Z) : outcome (Z * Z) :=
  shard ← quot index slots_per_shard;
  local ← rem index slots_per_shard;
  Ret (shard, local).
Definition superblock_index (index : Z) : Z := index / SUPERBLOCK_SIZE.
Definition superblock_offset (index : Z) : Z := wrap U16 (index mod SUPERBLOCK_SIZE).
Definition from_superblock_offset (sb_idx offset : Z) : Z :=
  sb_idx * SUPERBLOCK_SIZE + offset.

(** [SuperblockIndex::base_slot]. *)
Definition base_slot (sb_idx : Z) : Z := sb_idx * SUPERBLOCK_SIZE.

(** ** Conversions are inverse *)

Lemma slot_offset_round i : slot_from_offset (slot_offset i) = i.
Proof. unfold slot_from_offset, slot_offset, SLOT_SIZE. apply Z.div_mul. lia. Qed.

Lemma superblock_size_val : SUPERBLOCK_SIZE = 64.
Proof. reflexivity. Qed.

Lemma superblock_round i : 0 <= i ->
  from_superblock_offset (superblock_index i) (superblock_offset i) = i.
Proof.
  intros Hi. unfold from_superblock_offset, superblock_index, superblock_offset.
  rewrite superblock_size_val, wrap_small; [| unfold U16; dlia].
  pose proof (Z.div_mod i 64). lia.
Qed.

Lemma superblock_round' sb off : 0 <= off < 64 ->
  superblock_index (from_superblock_offset sb off) = sb /\
  superblock_offset (from_superblock_offset sb off) = off.
Proof.
  intros Hoff. unfold from_superblock_offset, superblock_index, superblock_offset.
  rewrite superblock_size_val, Z.div_add_l, Z.div_small by lia.
  rewrite (Z.add_comm (sb * 64)), Z.mod_add, Z.mod_small by lia.
  rewrite wrap_small by (unfold U16; lia). lia.
Qed.

Lemma shard_round shard sps local : 0 <= local < sps ->
  shard_local (from_shard_local shard sps local) sps = Ret (shard, local).
Proof.
  intros Hl. unfold shard_local, from_shard_local, quot, rem.
  destruct (Z.eqb_spec sps 0); [lia |]. cbn.
  rewrite Z.div_add_l, (Z.add_comm (shard * sps)), Z.mod_add by lia.
  rewrite Z.div_small, Z.mod_small by lia. by rewrite Z.add_0_r.
Qed.
