(* ===== verification/Buddy.v ===== *)
(** * veloq-buf [heap/buddy.rs]: the buddy allocator

    The allocator keeps, for each order, an intrusive list ([IntrusiveList])
    of the free blocks of that order; the list nodes live in the first bytes of
    the free blocks themselves, so the memory is a separate component [mem] of
    the state: the link and the [order] byte of the [FreeNode] at an address.
    Clients overwrite the memory of the blocks they hold ([client_write]).

    [buddy_inv] is the invariant: free blocks, allocated blocks and the block
    in flight inside an operation tile the slots [0, total_slots) exactly, the
    lists, the order bytes, the bitmap of non-empty orders and the bit set of
    allocated heads describe that tiling. *)

From S2P Require Import Prelude BitSet IntrusiveList Units.

Definition MIN_ORDER : Z := 0.
Definition MAX_ORDER : Z := 18.

(** The [FreeNode] fields, by the address of the node. *)
Record mem : Type := mkMem { m_links : links; m_order : gmap Z Z }.

(** [FreeNodeAdapter]: the link is the first field of the node. *)
#[local] Instance FreeNodeAdapter : GenericAdapter.
Proof. by refine {| get_link v := v; get_value l := l |}. Defined.

Inductive BuddyError : Type := Oom | InvalidFree | DoubleFree.

Record BuddyAllocator : Type := mkBuddy {
  ba_base_ptr : Z;
  ba_free_lists : list LinkedList;
  ba_free_bitmap : Z;
  ba_allocated : BitSet;
  ba_total_slots : Z
}.

Definition ptr_from_index (b : BuddyAllocator) (index : Z) : outcome Z :=
  _ ← assert (index <? ba_total_slots b);
  Ret (ba_base_ptr b + slot_offset index).

Definition get_free_node_order (m : mem) (b : BuddyAllocator) (index : Z) : outcome Z :=
  ptr ← ptr_from_index b index;
  match m_order m !! ptr with Some o => Ret o | None => Fault InvalidPointer end.

Definition index_from_ptr (b : BuddyAllocator) (ptr : Z) : Z :=
  slot_from_offset (ptr - ba_base_ptr b).

Definition buddy_index (index order : Z) : Z := Z.lxor index (Z.shiftl 1 order).

Definition add_to_free_list (m : mem) (b : BuddyAllocator) (index order : Z)
  : outcome (mem * BuddyAllocator) :=
  node_ptr ← ptr_from_index b index;
  let links0 := <[node_ptr := link_new]> (m_links m) in
  let order0 := <[node_ptr := wrap U8 order]> (m_order m) in
  l ← vec_get (ba_free_lists b) order;
  '(links1, l) ← push_front links0 l node_ptr;
  ls ← vec_set (ba_free_lists b) order l;
  Ret (mkMem links1 order0,
       mkBuddy (ba_base_ptr b) ls (Z.lor (ba_free_bitmap b) (Z.shiftl 1 order))
         (ba_allocated b) (ba_total_slots b)).

(** Clear the bit of an order whose list became empty. *)
Definition refresh_bitmap (bitmap : Z) (l : LinkedList) (order : Z) : Z :=
  if list_is_empty l then Z.land bitmap (bitnot U32 (Z.shiftl 1 order)) else bitmap.

Definition remove_from_free_list (m : mem) (b : BuddyAllocator) (index order : Z)
  : outcome (mem * BuddyAllocator) :=
  ptr ← ptr_from_index b index;
  l ← vec_get (ba_free_lists b) order;
  '(links, l, _, _) ← cursor_remove (m_links m) l (cursor_mut_from_ptr ptr);
  ls ← vec_set (ba_free_lists b) order l;
  Ret (mkMem links (m_order m),
       mkBuddy (ba_base_ptr b) ls (refresh_bitmap (ba_free_bitmap b) l order)
         (ba_allocated b) (ba_total_slots b)).

(** [init_free_blocks]: the loop strips at least one slot per iteration. *)
Fixpoint init_loop (fuel : nat) (m : mem) (b : BuddyAllocator) (start_idx remaining : Z)
  : outcome (mem * BuddyAllocator) :=
  if 0 <? remaining then
    match fuel with
    | O => Fault OutOfFuel
    | S fuel =>
        let order_by_size := USIZE_BITS - leading_zeros USIZE_BITS remaining - 1 in
        let order := Z.min order_by_size MAX_ORDER in
        '(m, b) ← add_to_free_list m b start_idx order;
        let block_size := Z.shiftl 1 order in
        init_loop fuel m b (start_idx + block_size) (remaining - block_size)
    end
  else Ret (m, b).

Definition init_free_blocks (m : mem) (b : BuddyAllocator) (total_slots : Z)
  : outcome (mem * BuddyAllocator) :=
  init_loop (Z.to_nat total_slots) m b 0 total_slots.

Definition buddy_new (m : mem) (ptr len : Z) : outcome (mem * BuddyAllocator) :=
  _ ← assert (SLOT_SIZE <=? len);
  let total_slots := len / SLOT_SIZE in
  let free_lists := replicate (Z.to_nat (MAX_ORDER + 1)) list_new in
  init_free_blocks m
    (mkBuddy ptr free_lists 0 (bitset_new total_slots) total_slots) total_slots.

(** The split loop of [alloc]: one order per iteration. *)
Fixpoint split_loop (fuel : nat) (m : mem) (b : BuddyAllocator)
    (curr_idx curr_order order : Z) : outcome (mem * BuddyAllocator) :=
  if order <? curr_order then
    match fuel with
    | O => Fault OutOfFuel
    | S fuel =>
        let curr_order := curr_order - 1 in
        let buddy_idx := curr_idx + Z.shiftl 1 curr_order in
        '(m, b) ← add_to_free_list m b buddy_idx curr_order;
        split_loop fuel m b curr_idx curr_order order
    end
  else Ret (m, b).

Definition buddy_alloc (m : mem) (b : BuddyAllocator) (order : Z)
  : outcome (mem * BuddyAllocator * option Z) :=
  if MAX_ORDER <? order then Ret (m, b, None) else
  let search_mask := bitnot U32 (Z.shiftl 1 order - 1) in
  let candidates := Z.land (ba_free_bitmap b) search_mask in
  if candidates =? 0 then Ret (m, b, None) else
  let found_order := trailing_zeros U32 candidates in
  l ← vec_get (ba_free_lists b) found_order;
  '(links, l, popped) ← pop_front (m_links m) l;
  ptr ← unwrap_unchecked popped;
  ls ← vec_set (ba_free_lists b) found_order l;
  let m := mkMem links (m_order m) in
  let b := mkBuddy (ba_base_ptr b) ls (refresh_bitmap (ba_free_bitmap b) l found_order)
             (ba_allocated b) (ba_total_slots b) in
  let found_idx := index_from_ptr b ptr in
  '(m, b) ← split_loop (Z.to_nat (found_order - order)) m b found_idx found_order order;
  '(allocated, _) ← bitset_set (ba_allocated b) found_idx;
  Ret (m, mkBuddy (ba_base_ptr b) (ba_free_lists b) (ba_free_bitmap b) allocated
            (ba_total_slots b), Some found_idx).

(** The merge loop of [dealloc]: the index and order the block ends with. *)
Fixpoint merge_loop (fuel : nat) (m : mem) (b : BuddyAllocator) (curr_idx curr_order : Z)
  : outcome (mem * BuddyAllocator * Z * Z) :=
  if curr_order <? MAX_ORDER then
    match fuel with
    | O => Fault OutOfFuel
    | S fuel =>
        let buddy_idx := buddy_index curr_idx curr_order in
        g ← bitset_get (ba_allocated b) buddy_idx;
        if match g with Ok v => v | Err _ => true end then Ret (m, b, curr_idx, curr_order) else
        buddy_order ← get_free_node_order m b buddy_idx;
        if negb (buddy_order =? curr_order) then Ret (m, b, curr_idx, curr_order) else
        '(m, b) ← remove_from_free_list m b buddy_idx curr_order;
        let curr_idx := if buddy_idx <? curr_idx then buddy_idx else curr_idx in
        merge_loop fuel m b curr_idx (curr_order + 1)
    end
  else Ret (m, b, curr_idx, curr_order).

Definition buddy_dealloc (m : mem) (b : BuddyAllocator) (index order : Z)
  : outcome (mem * BuddyAllocator * result unit BuddyError) :=
  g ← bitset_get (ba_allocated b) index;
  match g with
  | Ok true =>
      '(allocated, _) ← bitset_clear (ba_allocated b) index;
      let b := mkBuddy (ba_base_ptr b) (ba_free_lists b) (ba_free_bitmap b) allocated
                 (ba_total_slots b) in
      '(m, b, curr_idx, curr_order) ←
        merge_loop (Z.to_nat (MAX_ORDER - order)) m b index order;
      '(m, b) ← add_to_free_list m b curr_idx curr_order;
      Ret (m, b, Ok tt)
  | Ok false => Ret (m, b, Err DoubleFree)
  | Err _ => Ret (m, b, Err InvalidFree)
  end.

Definition capacity_of (order : Z) : outcome Z :=
  arith USIZE_BITS (Z.shiftl 1 order * SLOT_SIZE).

(** ** The tiling *)

(** A block is its first slot and its order. *)
Abbreviation block := (Z * Z)%type.

Definition contains (k : block) (j : Z) : bool := (k.1 <=? j) && (j <? k.1 + 2 ^ k.2).

Fixpoint cover (ks : list block) (j : Z) : Z :=
  match ks with
  | [] => 0
  | k :: ks => (if contains k j then 1 else 0) + cover ks j
  end.

Definition block_ok (total : Z) (k : block) : Prop :=
  0 <= k.2 <= MAX_ORDER /\ 0 <= k.1 /\ k.1 + 2 ^ k.2 <= total /\ k.1 mod 2 ^ k.2 = 0.

(** The blocks are aligned, in range, and every slot is in exactly one. *)
Definition tiles (total : Z) (ks : list block) : Prop :=
  Forall (block_ok total) ks /\ forall j, 0 <= j < total -> cover ks j = 1.

(** The free blocks of one order, in list order. *)
Definition of_order (free : list block) (o : Z) : list Z :=
  fst <$> filter (fun k : block => k.2 = o) free.

Definition slot_addr (b : BuddyAllocator) (i : Z) : Z := ba_base_ptr b + slot_offset i.

(** [A]: the allocated blocks; [hole]: the blocks in flight inside an
    operation; [free]: the blocks on the free lists. *)
Record buddy_inv (m : mem) (b : BuddyAllocator) (A : gmap Z Z) (hole free : list block) : Prop := {
  bi_total : 0 < ba_total_slots b < 2 ^ 63;
  bi_lists : length (ba_free_lists b) = Z.to_nat (MAX_ORDER + 1);
  bi_dll : forall o l, 0 <= o -> ba_free_lists b !! Z.to_nat o = Some l ->
    dll (m_links m) l (slot_addr b <$> of_order free o);
  bi_order : forall i o, (i, o) ∈ free -> m_order m !! slot_addr b i = Some o;
  bi_bitmap_range : 0 <= ba_free_bitmap b < 2 ^ 32;
  bi_bitmap : forall o, 0 <= o ->
    (Z.testbit (ba_free_bitmap b) o = true <-> of_order free o <> []);
  bi_bitset : bitset_wf (ba_allocated b) /\ bs_size (ba_allocated b) = ba_total_slots b;
  bi_alloc : forall i, 0 <= i < ba_total_slots b ->
    bitset_bit (ba_allocated b) i = bool_decide (is_Some (A !! i));
  bi_tiles : tiles (ba_total_slots b) (hole ++ map_to_list A ++ free)
}.

(** No two free blocks could still be merged. *)
Definition coalesced (free : list block) : Prop :=
  forall i o, (i, o) ∈ free -> o < MAX_ORDER -> (buddy_index i o, o) ∉ free.

(** The invariant between operations. *)
Definition buddy_ok (m : mem) (b : BuddyAllocator) (A : gmap Z Z) : Prop :=
  exists free, buddy_inv m b A [] free /\ coalesced free.

(** What the holders of the allocated blocks may do to the memory. *)
Definition client_write (b : BuddyAllocator) (A : gmap Z Z) (m m' : mem) : Prop :=
  forall p, (forall i o, A !! i = Some o ->
               ~ (slot_addr b i <= p < slot_addr b i + 2 ^ o * SLOT_SIZE)) ->
    m_links m' !! p = m_links m !! p /\ m_order m' !! p = m_order m !! p.

(** ** Facts about tilings *)

Lemma cover_app ks ks' j : cover (ks ++ ks') j = cover ks j + cover ks' j.
Proof. induction ks as [| k ks IH]; cbn; [done |]. rewrite IH. lia. Qed.

Lemma cover_nonneg ks j : 0 <= cover ks j.
Proof. induction ks as [| k ks IH]; cbn; [done |]. destruct (contains k j); lia. Qed.

#[global] Instance cover_proper : Proper ((≡ₚ) ==> (=) ==> (=)) cover.
Proof.
  intros ks ks' Hp j ? <-. induction Hp; cbn; try lia.
Qed.

#[global] Instance tiles_proper total : Proper ((≡ₚ) ==> iff) (tiles total).
Proof.
  intros ks ks' Hp. unfold tiles. rewrite Hp.
  split; intros [? Hc]; (split; [done |]); intros j Hj.
  - by rewrite <- Hp, Hc.
  - by rewrite Hp, Hc.
Qed.

Lemma contains_spec k j : contains k j = true <-> k.1 <= j < k.1 + 2 ^ k.2.
Proof. unfold contains. rewrite andb_true_iff, Z.leb_le, Z.ltb_lt. done. Qed.

Lemma contains_head i o : 0 <= o -> contains (i, o) i = true.
Proof. intros Ho. apply contains_spec. cbn. pose proof (pow2_pos o Ho). lia. Qed.

Lemma cover_elem ks k j : k ∈ ks -> contains k j = true -> 1 <= cover ks j.
Proof.
  intros (k1 & k2 & ->)%list_elem_of_split Hc. rewrite cover_app. cbn. rewrite Hc.
  pose proof (cover_nonneg k1 j). pose proof (cover_nonneg k2 j). lia.
Qed.

Lemma cover_find ks j : 0 < cover ks j -> exists k, k ∈ ks /\ contains k j = true.
Proof.
  induction ks as [| k ks IH]; cbn; [lia |]. destruct (contains k j) eqn:E.
  - exists k. split; [set_solver | done].
  - intros Hc. destruct IH as (k' & ? & ?); [lia |]. exists k'. split; [set_solver | done].
Qed.

Lemma tiles_block total ks k : tiles total ks -> k ∈ ks -> block_ok total k.
Proof. intros [Hb _] Hk. by eapply Forall_forall in Hb. Qed.

(** Two blocks of a tiling do not overlap. *)
Lemma tiles_disjoint total k1 k2 ks j :
  tiles total (k1 :: ks) -> k2 ∈ ks -> contains k1 j = true -> contains k2 j = true -> False.
Proof.
  intros Ht Hk H1 H2. destruct (tiles_block _ _ k1 Ht) as (Ho & Hi & Hr & _); [set_solver |].
  destruct Ht as [_ Hc]. pose proof (cover_elem ks k2 j Hk H2).
  apply contains_spec in H1 as Hj. specialize (Hc j). cbn in Hc. rewrite H1 in Hc. lia.
Qed.

Lemma tiles_head_unique total i o ks o' :
  tiles total ((i, o) :: ks) -> (i, o') ∈ ks -> False.
Proof.
  intros Ht Hk. destruct (tiles_block _ _ (i, o) Ht) as ([? _] & _); [set_solver |].
  destruct (tiles_block _ _ (i, o') Ht) as ([? _] & _); [set_solver |].
  eapply (tiles_disjoint _ _ _ _ i Ht Hk); by apply contains_head.
Qed.

Lemma tiles_heads_NoDup total ks : tiles total ks -> NoDup ks.*1.
Proof.
  intros Ht. apply NoDup_ListNoDup.
  assert (Hsub : forall pre suf, ks = pre ++ suf -> NoDup suf.*1).
  { intros pre suf. revert pre. induction suf as [| [i o] suf IH]; intros pre Hks; cbn.
    - constructor.
    - apply NoDup_cons. split.
      + intros ([i' o'] & Hi & Hin)%list_elem_of_fmap. cbn in Hi. subst i'.
        assert (Hp : ks ≡ₚ (i, o) :: pre ++ suf) by (rewrite Hks; by rewrite Permutation_middle).
        rewrite Hp in Ht. eapply (tiles_head_unique _ _ _ _ o' Ht). set_solver.
      + apply (IH (pre ++ [(i, o)])). by rewrite <- app_assoc. }
  apply NoDup_ListNoDup. by apply (Hsub []).
Qed.

(** Splitting a block into its halves, and merging them. *)
Lemma tiles_split total i o ks :
  0 <= o -> tiles total ((i, o + 1) :: ks) -> tiles total ((i, o) :: (i + 2 ^ o, o) :: ks).
Proof.
  intros Ho Ht. destruct (tiles_block _ _ (i, o + 1) Ht) as (Hr & Hi & Hle & Hm); [set_solver |].
  cbn in *. destruct Ht as [Hb Hc]. apply Forall_cons in Hb as [_ Hb].
  pose proof (pow2_pos o Ho). assert (E : 2 ^ (o + 1) = 2 * 2 ^ o) by (rewrite Z.pow_add_r by lia; lia).
  destruct (aligned_half i o Ho Hm) as [H1 H2]. split.
  - apply Forall_cons; split; [| apply Forall_cons; split; [| done]];
      unfold block_ok, MAX_ORDER in *; cbn; split_and!; done || lia.
  - intros j Hj. specialize (Hc j Hj). cbn in Hc |- *. unfold contains in *; cbn in *.
    repeat case_ltb; cbn in *; lia.
Qed.

Lemma tiles_merge total i o ks :
  0 <= o < MAX_ORDER -> i mod 2 ^ (o + 1) = 0 ->
  tiles total ((i, o) :: (i + 2 ^ o, o) :: ks) -> tiles total ((i, o + 1) :: ks).
Proof.
  intros Ho Hm Ht. destruct (tiles_block _ _ (i, o) Ht) as (_ & Hi & _ & _); [set_solver |].
  destruct (tiles_block _ _ (i + 2 ^ o, o) Ht) as (_ & _ & Hle & _); [set_solver |].
  cbn in *. destruct Ht as [Hb Hc]. apply Forall_cons in Hb as [_ Hb].
  apply Forall_cons in Hb as [_ Hb]. pose proof (pow2_pos o ltac:(lia)).
  assert (E : 2 ^ (o + 1) = 2 * 2 ^ o) by (rewrite Z.pow_add_r by lia; lia). split.
  - apply Forall_cons. split; [| done]. unfold block_ok, MAX_ORDER in *; cbn. split_and!; done || lia.
  - intros j Hj. specialize (Hc j Hj). cbn in Hc |- *. unfold contains in *; cbn in *.
    repeat case_ltb; cbn in *; lia.
Qed.

(** The buddy of a block is the head of a block of at most the same order. *)
Lemma buddy_index_spec i o : 0 <= o -> 0 <= i -> i mod 2 ^ o = 0 ->
  (i mod 2 ^ (o + 1) = 0 /\ buddy_index i o = i + 2 ^ o) \/
  (exists k, k mod 2 ^ (o + 1) = 0 /\ 0 <= k /\ i = k + 2 ^ o /\ buddy_index i o = k).
Proof. unfold buddy_index. rewrite Z.shiftl_1_l. apply lxor_pow2. Qed.

Lemma buddy_index_involutive i o : buddy_index (buddy_index i o) o = i.
Proof. unfold buddy_index. by rewrite Z.lxor_assoc, Z.lxor_nilpotent, Z.lxor_0_r. Qed.

Lemma tiles_buddy_head total i o ks :
  tiles total ((i, o) :: ks) -> 0 <= buddy_index i o < total ->
  exists p, (buddy_index i o, p) ∈ ks /\ 0 <= p <= o.
Proof.
  intros Ht Hb. set (k := buddy_index i o) in *.
  destruct (tiles_block _ _ (i, o) Ht) as (Ho & Hi & Hr & Hm); [set_solver |]. cbn in *.
  pose proof (pow2_pos o ltac:(lia)) as Hpo.
  assert (E : 2 ^ (o + 1) = 2 * 2 ^ o) by (rewrite Z.pow_add_r by lia; lia).
  (* the aligned pair holding both blocks *)
  assert (exists x, x mod 2 ^ (o + 1) = 0 /\ x <= i < x + 2 ^ (o + 1) /\
            x <= k < x + 2 ^ (o + 1) /\ k mod 2 ^ o = 0 /\ ~ (i <= k < i + 2 ^ o))
    as (x & Hx & Hxi & Hxk & Hkm & Hno).
  { destruct (buddy_index_spec i o) as [[Hpm Hk] | (z & Hz & ? & -> & Hk)]; try lia.
    - exists i. destruct (aligned_half i o ltac:(lia) Hpm). unfold k. rewrite Hk.
      split_and!; done || lia.
    - exists z. destruct (aligned_half z o ltac:(lia) Hz). unfold k. rewrite Hk.
      split_and!; done || lia. }
  assert (Hc : 0 < cover ((i, o) :: ks) k) by (destruct Ht as [_ ->]; lia).
  destruct (cover_find _ _ Hc) as ([j p] & Hin & Hjk).
  destruct (tiles_block _ _ _ Ht Hin) as (Hp & Hj0 & _ & Hjm). cbn in *.
  apply contains_spec in Hjk. cbn in Hjk.
  apply elem_of_cons in Hin as [[= -> ->] | Hin]; [lia |].
  destruct (Z.lt_ge_cases o p) as [Hlt | Hge].
  - exfalso. destruct (aligned_nested j p x (o + 1) k) as [? ?]; try (done || lia).
    apply (tiles_disjoint _ _ _ _ i Ht Hin); apply contains_spec; cbn; lia.
  - exists p. split; [| lia]. replace k with j; [done |].
    apply (aligned_unique j k (2 ^ p)); [apply pow2_pos; lia | done | | lia].
    apply (aligned_le _ p o); [lia | done].
Qed.

Lemma tiles_length total ks : tiles total ks -> Z.of_nat (length ks) <= Z.max 0 total.
Proof.
  intros Ht. pose proof (tiles_heads_NoDup _ _ Ht) as Hnd.
  assert (Hs : ks.*1 ⊆+ seqZ 0 total).
  { apply NoDup_submseteq; [done |]. intros i ([i' o] & -> & Hin)%list_elem_of_fmap.
    destruct (tiles_block _ _ _ Ht Hin) as (Ho & Hi & Hle & _). cbn in *.
    pose proof (pow2_pos o ltac:(lia)). apply elem_of_seqZ. lia. }
  apply submseteq_length in Hs. rewrite length_fmap, length_seqZ in Hs. lia.
Qed.

(** ** Free lists by order *)

Lemma of_order_cons i o free o' :
  of_order ((i, o) :: free) o' =
  if decide (o = o') then i :: of_order free o' else of_order free o'.
Proof. unfold of_order. rewrite filter_cons. cbn. by destruct (decide (o = o')). Qed.

Lemma of_order_app f1 f2 o : of_order (f1 ++ f2) o = of_order f1 o ++ of_order f2 o.
Proof. unfold of_order. by rewrite filter_app, fmap_app. Qed.

Lemma elem_of_of_order i free o : i ∈ of_order free o <-> (i, o) ∈ free.
Proof.
  unfold of_order. rewrite list_elem_of_fmap. split.
  - intros ([i' o'] & -> & [? ?]%list_elem_of_filter). by cbn in *; subst.
  - intros Hin. exists (i, o). split; [done |]. by apply list_elem_of_filter.
Qed.

Lemma of_order_length free o : (length (of_order free o) <= length free)%nat.
Proof. unfold of_order. rewrite length_fmap. apply length_filter. Qed.

Lemma heads_unique (ks : list block) i o o' : NoDup ks.*1 -> (i, o) ∈ ks -> (i, o') ∈ ks -> o = o'.
Proof.
  intros Hnd (k1 & k2 & ->)%list_elem_of_split Hin'.
  rewrite fmap_app, fmap_cons in Hnd. apply NoDup_app in Hnd as (_ & Hd & [Hn _]%NoDup_cons).
  apply elem_of_app in Hin' as [Hin' | [[= ->] | Hin']%elem_of_cons]; [| done |].
  - destruct (Hd i); [| set_solver]. apply list_elem_of_fmap. by exists (i, o').
  - destruct Hn. apply list_elem_of_fmap. by exists (i, o').
Qed.

Lemma slot_addr_inj b i j : slot_addr b i = slot_addr b j -> i = j.
Proof. unfold slot_addr, slot_offset, SLOT_SIZE. lia. Qed.

Lemma elem_of_addrs b i free o : slot_addr b i ∈ slot_addr b <$> of_order free o <-> (i, o) ∈ free.
Proof.
  rewrite list_elem_of_fmap. split.
  - intros (j & ->%slot_addr_inj & Hj). by apply elem_of_of_order.
  - intros Hin. exists i. by rewrite elem_of_of_order.
Qed.

Section InvFacts.
Context {m : mem} {b : BuddyAllocator} {A : gmap Z Z} {hole free : list block}.
Context (Hinv : buddy_inv m b A hole free).

Lemma inv_free_NoDup : NoDup free.*1.
Proof.
  pose proof (tiles_heads_NoDup _ _ (bi_tiles _ _ _ _ _ Hinv)) as Hnd.
  rewrite !fmap_app in Hnd. apply NoDup_app in Hnd as (_ & _ & Hnd).
  by apply NoDup_app in Hnd as (_ & _ & Hnd).
Qed.

Lemma inv_free_length o : Z.of_nat (length (of_order free o)) + 1 < 2 ^ 64.
Proof.
  pose proof (of_order_length free o).
  pose proof (tiles_length _ _ (bi_tiles _ _ _ _ _ Hinv)) as Hl.
  rewrite !length_app in Hl. pose proof (bi_total _ _ _ _ _ Hinv). lia.
Qed.

Lemma inv_free_block i o : (i, o) ∈ free -> block_ok (ba_total_slots b) (i, o).
Proof. intros Hin. eapply tiles_block; [apply Hinv |]. set_solver. Qed.

Lemma inv_list o : 0 <= o <= MAX_ORDER -> exists l,
  vec_get (ba_free_lists b) o = Ret l /\ ba_free_lists b !! Z.to_nat o = Some l /\
  dll (m_links m) l (slot_addr b <$> of_order free o).
Proof.
  intros Ho. pose proof (bi_lists _ _ _ _ _ Hinv) as Hl.
  destruct (vec_get_in_range (ba_free_lists b) o) as (l & Hg & Hk).
  { rewrite Hl. unfold MAX_ORDER in *. lia. }
  exists l. split_and!; [done | done |]. apply Hinv; [lia | done].
Qed.

Lemma inv_vec_set o l : 0 <= o <= MAX_ORDER ->
  vec_set (ba_free_lists b) o l = Ret (<[Z.to_nat o := l]> (ba_free_lists b)).
Proof.
  intros Ho. apply vec_set_in_range. rewrite (bi_lists _ _ _ _ _ Hinv).
  unfold MAX_ORDER in *. lia.
Qed.

Lemma inv_ptr i o : (i, o) ∈ hole ++ map_to_list A ++ free ->
  ptr_from_index b i = Ret (slot_addr b i).
Proof.
  intros Hin. destruct (tiles_block _ _ _ (bi_tiles _ _ _ _ _ Hinv) Hin) as (Ho & Hi & Hle & _).
  cbn in *. pose proof (pow2_pos o ltac:(lia)). unfold ptr_from_index.
  destruct (Z.ltb_spec i (ba_total_slots b)); [done | lia].
Qed.

End InvFacts.

(** Replacing the list of one order keeps the invariant when the heap frames
    the other lists and the tiling is the same set of blocks. *)
Lemma inv_relist m b A hole free o links' l' order' bm' hole' free' :
  buddy_inv m b A hole free -> 0 <= o <= MAX_ORDER ->
  dll links' l' (slot_addr b <$> of_order free' o) ->
  (forall o', o' <> o -> of_order free' o' = of_order free o') ->
  (forall i o', o' <> o -> (i, o') ∈ free ->
     links' !! slot_addr b i = m_links m !! slot_addr b i) ->
  (forall i o', (i, o') ∈ free' -> order' !! slot_addr b i = Some o') ->
  0 <= bm' < 2 ^ 32 ->
  (forall o', 0 <= o' -> (Z.testbit bm' o' = true <-> of_order free' o' <> [])) ->
  hole' ++ map_to_list A ++ free' ≡ₚ hole ++ map_to_list A ++ free ->
  buddy_inv (mkMem links' order')
    (mkBuddy (ba_base_ptr b) (<[Z.to_nat o := l']> (ba_free_lists b)) bm'
       (ba_allocated b) (ba_total_slots b)) A hole' free'.
Proof.
  intros Hinv Ho Hd Hother Hframe Hord Hbr Hbm Hperm.
  pose proof (bi_lists _ _ _ _ _ Hinv) as Hlen.
  split; cbn [ba_total_slots ba_free_lists ba_free_bitmap ba_allocated m_links m_order];
    try apply Hinv; try done.
  - by rewrite length_insert.
  - intros o' l Ho' Hl. destruct (decide (o' = o)) as [-> | Hne].
    + rewrite list_lookup_insert_eq in Hl by (rewrite Hlen; unfold MAX_ORDER in *; lia).
      injection Hl as <-. exact Hd.
    + rewrite list_lookup_insert_ne in Hl by lia.
      rewrite Hother by done. eapply dll_frame; [| by apply Hinv].
      intros x (i & -> & Hi%elem_of_of_order)%list_elem_of_fmap. by eapply Hframe.
  - rewrite Hperm. apply Hinv.
Qed.

(** [add_to_free_list] puts the block in flight on its free list. *)
Lemma add_to_free_list_ok m b A i o hole free :
  buddy_inv m b A ((i, o) :: hole) free ->
  exists m' b', add_to_free_list m b i o = Ret (m', b') /\
    buddy_inv m' b' A hole ((i, o) :: free) /\
    ba_total_slots b' = ba_total_slots b /\ ba_base_ptr b' = ba_base_ptr b /\
    ba_allocated b' = ba_allocated b.
Proof.
  intros Hinv. pose proof (bi_tiles _ _ _ _ _ Hinv) as Ht. cbn in Ht.
  assert (Hnew : forall o', (i, o') ∉ free).
  { intros o' Hin. apply (tiles_head_unique _ _ _ _ o' Ht). set_solver. }
  destruct (tiles_block _ _ (i, o) Ht) as (Ho & _ & _ & _); [set_solver |]. cbn in Ho.
  destruct (inv_list Hinv o Ho) as (l & Hg & _ & Hd).
  set (p := slot_addr b i).
  assert (Hp : forall o', p ∉ slot_addr b <$> of_order free o').
  { intros o'. unfold p. rewrite elem_of_addrs. apply Hnew. }
  destruct (push_front_ok (<[p := link_new]> (m_links m)) l (slot_addr b <$> of_order free o)
              p link_new) as (links' & l' & E & Hd' & Hf).
  { eapply dll_frame; [| exact Hd]. intros x Hx. apply lookup_insert_ne.
    intros <-. by apply (Hp o). }
  { apply lookup_insert_eq. } { done. }
  { rewrite length_fmap. apply (inv_free_length Hinv). }
  cbn [get_link FreeNodeAdapter] in *.
  unfold add_to_free_list. rewrite (inv_ptr Hinv i o) by set_solver. fold p.
  cbn [mbind outcome_bind]. rewrite Hg. cbn [mbind outcome_bind]. rewrite E.
  cbn [mbind outcome_bind]. rewrite (inv_vec_set Hinv) by done. cbn [mbind outcome_bind].
  do 2 eexists. split; [reflexivity |]. split; [| done].
  eapply inv_relist; [exact Hinv | done | | | | | | |].
  - rewrite of_order_cons, decide_True by done. exact Hd'.
  - intros o' Hne. by rewrite of_order_cons, decide_False by done.
  - intros i' o' Hne Hin. rewrite Hf; [apply lookup_insert_ne |].
    + intros Heq%slot_addr_inj. subst. by apply (Hnew o').
    + rewrite elem_of_cons, elem_of_addrs. intros [Heq%slot_addr_inj | Hin'].
      * subst. by apply (Hnew o').
      * apply Hne. by eapply heads_unique; [apply (inv_free_NoDup Hinv) | |].
  - intros i' o' [[= -> ->] | Hin]%elem_of_cons.
    + unfold p. rewrite lookup_insert_eq, wrap_small; [done |]. unfold U8, MAX_ORDER in *. lia.
    + rewrite lookup_insert_ne; [by apply Hinv |].
      intros Heq%slot_addr_inj. subst. by apply (Hnew o').
  - rewrite Z.shiftl_1_l. apply setbit_range; [unfold MAX_ORDER in *; lia | apply Hinv].
  - intros o' Ho'. rewrite Z.shiftl_1_l, testbit_setbit, orb_true_iff by lia.
    rewrite (bi_bitmap _ _ _ _ _ Hinv) by done. rewrite of_order_cons, Z.eqb_eq.
    destruct (decide (o = o')); naive_solver.
  - cbn. rewrite <- !Permutation_middle. done.
Qed.

(** The bitmap after a list lost an element. *)
Lemma refresh_bitmap_ok m b A hole free o links' l' pre i post :
  buddy_inv m b A hole free -> 0 <= o <= MAX_ORDER -> free = pre ++ (i, o) :: post ->
  dll links' l' (slot_addr b <$> of_order (pre ++ post) o) ->
  0 <= refresh_bitmap (ba_free_bitmap b) l' o < 2 ^ 32 /\
  forall o', 0 <= o' ->
    (Z.testbit (refresh_bitmap (ba_free_bitmap b) l' o) o' = true <->
     of_order (pre ++ post) o' <> []).
Proof.
  intros Hinv Ho -> Hd. unfold refresh_bitmap.
  pose proof (bi_bitmap_range _ _ _ _ _ Hinv) as Hr.
  assert (Hrest : forall o', o' <> o ->
    of_order (pre ++ (i, o) :: post) o' = of_order (pre ++ post) o').
  { intros o' Hne. rewrite !of_order_app, of_order_cons, decide_False; done. }
  assert (Hin : of_order (pre ++ (i, o) :: post) o <> []).
  { rewrite of_order_app, of_order_cons, decide_True by done.
    intros [_ [=]]%app_eq_nil. }
  rewrite (dll_is_empty _ _ _ Hd). case_bool_decide as Hemp.
  - apply fmap_nil_inv in Hemp. split; [by apply clearbit_range |]. intros o' Ho'.
    rewrite Z.shiftl_1_l, testbit_clearbit by (done || (unfold U32, MAX_ORDER in *; lia)).
    rewrite andb_true_iff, negb_true_iff, Z.eqb_neq, (bi_bitmap _ _ _ _ _ Hinv) by done.
    destruct (decide (o = o')) as [<- | Hne]; [naive_solver |].
    rewrite Hrest by done. naive_solver.
  - split; [done |]. intros o' Ho'. rewrite (bi_bitmap _ _ _ _ _ Hinv) by done.
    destruct (decide (o = o')) as [<- | Hne]; [| by rewrite Hrest].
    split; [| done]. intros _ Hn. apply Hemp. by rewrite Hn.
Qed.

(** Common part of [remove_from_free_list] and of the pop in [alloc]: a block
    leaves its list and is in flight. *)
Lemma inv_unlist m b A hole pre i o post links' l' :
  buddy_inv m b A hole (pre ++ (i, o) :: post) ->
  dll links' l' (slot_addr b <$> of_order (pre ++ post) o) ->
  (forall p, p ∉ slot_addr b <$> of_order (pre ++ (i, o) :: post) o ->
     links' !! p = m_links m !! p) ->
  buddy_inv (mkMem links' (m_order m))
    (mkBuddy (ba_base_ptr b) (<[Z.to_nat o := l']> (ba_free_lists b))
       (refresh_bitmap (ba_free_bitmap b) l' o) (ba_allocated b) (ba_total_slots b))
    A ((i, o) :: hole) (pre ++ post).
Proof.
  intros Hinv Hd Hf. destruct (inv_free_block Hinv i o) as (Ho & _); [set_solver |].
  destruct (refresh_bitmap_ok _ _ _ _ _ o links' l' pre i post Hinv Ho eq_refl Hd) as [Hr Hb].
  eapply inv_relist; [exact Hinv | done | done | | | | done | done |].
  - intros o' Hne. rewrite !of_order_app, of_order_cons, decide_False; done.
  - intros i' o' Hne Hin. apply Hf. rewrite elem_of_addrs. intros Hin'. apply Hne.
    by eapply heads_unique; [apply (inv_free_NoDup Hinv) | |].
  - intros i' o' Hin. apply Hinv. set_solver.
  - rewrite <- !Permutation_middle. done.
Qed.

Lemma remove_from_free_list_ok m b A hole pre i o post :
  buddy_inv m b A hole (pre ++ (i, o) :: post) ->
  exists m' b', remove_from_free_list m b i o = Ret (m', b') /\
    buddy_inv m' b' A ((i, o) :: hole) (pre ++ post) /\
    ba_total_slots b' = ba_total_slots b /\ ba_base_ptr b' = ba_base_ptr b /\
    ba_allocated b' = ba_allocated b.
Proof.
  intros Hinv. destruct (inv_free_block Hinv i o) as (Ho & _); [set_solver |]. cbn in Ho.
  destruct (inv_list Hinv o Ho) as (l & Hg & _ & Hd).
  pose proof (inv_free_length Hinv o) as Hlen.
  assert (Hsplit : slot_addr b <$> of_order (pre ++ (i, o) :: post) o =
    (slot_addr b <$> of_order pre o) ++ slot_addr b i :: (slot_addr b <$> of_order post o)).
  { by rewrite of_order_app, of_order_cons, decide_True, fmap_app by done. }
  rewrite Hsplit in Hd.
  destruct (cursor_remove_ok (Ad := FreeNodeAdapter) _ _ _ _ _ Hd) as (links' & l' & E & Hd' & _ & Hf).
  { rewrite <- Hsplit, length_fmap. lia. }
  unfold remove_from_free_list. rewrite (inv_ptr Hinv i o) by set_solver.
  cbn [mbind outcome_bind]. rewrite Hg. cbn [mbind outcome_bind].
  unfold cursor_mut_from_ptr. cbn [get_link FreeNodeAdapter] in *. rewrite E.
  cbn [mbind outcome_bind]. rewrite (inv_vec_set Hinv) by done. cbn [mbind outcome_bind].
  do 2 eexists. split; [reflexivity |]. split; [| done].
  eapply inv_unlist; [exact Hinv | |].
  - by rewrite of_order_app, fmap_app.
  - intros p Hp. apply Hf. by rewrite <- Hsplit.
Qed.

Lemma of_order_head_split free o i xs : of_order free o = i :: xs ->
  exists pre post, free = pre ++ (i, o) :: post /\ of_order pre o = [].
Proof.
  induction free as [| [j p] free IH]; [done |]. rewrite of_order_cons.
  destruct (decide (p = o)) as [-> | Hne].
  - intros [= -> _]. by exists [], free.
  - intros (pre & post & -> & Hp)%IH. exists ((j, p) :: pre), post. split; [done |].
    by rewrite of_order_cons, decide_False.
Qed.

Lemma inv_hole m b A hole hole' free :
  buddy_inv m b A hole free -> tiles (ba_total_slots b) (hole' ++ map_to_list A ++ free) ->
  buddy_inv m b A hole' free.
Proof. intros Hinv Ht. split; try apply Hinv. exact Ht. Qed.

(** Changing the allocated bit of the block in flight. *)
Lemma inv_set_allocated m b A i o hole free alloc' :
  buddy_inv m b A ((i, o) :: hole) free ->
  bitset_wf alloc' -> bs_size alloc' = ba_total_slots b -> bitset_bit alloc' i = true ->
  (forall j, 0 <= j -> j <> i -> bitset_bit alloc' j = bitset_bit (ba_allocated b) j) ->
  A !! i = None /\
  buddy_inv m (mkBuddy (ba_base_ptr b) (ba_free_lists b) (ba_free_bitmap b) alloc'
                 (ba_total_slots b)) (<[i := o]> A) hole free.
Proof.
  intros Hinv Hwf Hsz Hbit Hother. pose proof (bi_tiles _ _ _ _ _ Hinv) as Ht. cbn in Ht.
  assert (HA : A !! i = None).
  { destruct (A !! i) as [o' |] eqn:EA; [| done]. exfalso.
    apply (tiles_head_unique _ _ _ _ o' Ht). apply elem_of_map_to_list in EA. set_solver. }
  split; [done |]. split; cbn; try apply Hinv; [done | |].
  - intros j Hj. destruct (decide (j = i)) as [-> | Hne].
    + rewrite Hbit, lookup_insert_eq. done.
    + rewrite Hother, lookup_insert_ne by (done || lia). by apply Hinv.
  - rewrite map_to_list_insert by done. cbn. by rewrite <- Permutation_middle.
Qed.

Lemma inv_clear_allocated m b A i o hole free alloc' :
  buddy_inv m b A hole free -> A !! i = Some o ->
  bitset_wf alloc' -> bs_size alloc' = ba_total_slots b -> bitset_bit alloc' i = false ->
  (forall j, 0 <= j -> j <> i -> bitset_bit alloc' j = bitset_bit (ba_allocated b) j) ->
  buddy_inv m (mkBuddy (ba_base_ptr b) (ba_free_lists b) (ba_free_bitmap b) alloc'
                 (ba_total_slots b)) (delete i A) ((i, o) :: hole) free.
Proof.
  intros Hinv HA Hwf Hsz Hbit Hother. split; cbn; try apply Hinv; [done | |].
  - intros j Hj. destruct (decide (j = i)) as [-> | Hne].
    + by rewrite Hbit, lookup_delete_eq.
    + rewrite Hother, lookup_delete_ne by (done || lia). by apply Hinv.
  - pose proof (bi_tiles _ _ _ _ _ Hinv) as Ht.
    rewrite <- (map_to_list_delete A i o HA) in Ht. cbn in Ht.
    by rewrite <- Permutation_middle in Ht.
Qed.

Lemma coalesced_cons k o free :
  0 <= o -> coalesced free -> (o < MAX_ORDER -> (buddy_index k o, o) ∉ free) ->
  coalesced ((k, o) :: free).
Proof.
  intros Ho Hc Hn i p Hin Hp Hb.
  assert (Hne : forall x, buddy_index x p <> x).
  { intros x Hx. unfold buddy_index in Hx. rewrite Z.shiftl_1_l in Hx.
    assert (Ez : Z.lxor x (Z.lxor x (2 ^ p)) = 0) by (rewrite Hx; apply Z.lxor_nilpotent).
    rewrite <- Z.lxor_assoc, Z.lxor_nilpotent, Z.lxor_0_l in Ez.
    destruct (decide (0 <= p)) as [Hp0 | Hp0].
    - pose proof (pow2_pos p Hp0). lia.
    - apply elem_of_cons in Hin as [[= -> ->] | Hin]; [lia |].
      apply elem_of_cons in Hb as [[= ? ->] | Hb]; [lia |]. by apply (Hc i p). }
  apply elem_of_cons in Hin as [[= -> ->] | Hin];
    apply elem_of_cons in Hb as [Hb | Hb].
  - injection Hb as Hb. by apply (Hne k).
  - by apply Hn.
  - injection Hb as Hb <-. subst. apply Hn; [done |]. by rewrite buddy_index_involutive.
  - by apply (Hc i p).
Qed.

(** The split loop leaves the left part of the requested order in flight. *)
Lemma split_loop_ok n m b A i o hole free :
  0 <= o -> buddy_inv m b A ((i, o + Z.of_nat n) :: hole) free -> coalesced free ->
  exists m' b' free', split_loop n m b i (o + Z.of_nat n) o = Ret (m', b') /\
    buddy_inv m' b' A ((i, o) :: hole) free' /\ coalesced free' /\
    ba_total_slots b' = ba_total_slots b /\ ba_base_ptr b' = ba_base_ptr b /\
    ba_allocated b' = ba_allocated b.
Proof.
  revert m b free. induction n as [| n IH]; intros m b free Ho Hinv Hco.
  { exists m, b, free. rewrite Z.add_0_r in *. cbn. by rewrite Z.ltb_irrefl. }
  cbn [split_loop]. destruct (Z.ltb_spec o (o + Z.of_nat (S n))); [| lia].
  set (c := o + Z.of_nat n). replace (o + Z.of_nat (S n) - 1) with c by lia.
  replace (o + Z.of_nat (S n)) with (c + 1) in * by lia.
  assert (Hc : 0 <= c) by lia.
  pose proof (bi_tiles _ _ _ _ _ Hinv) as Ht. cbn in Ht.
  destruct (tiles_block _ _ (i, c + 1) Ht) as (_ & Hi & _ & Hm); [set_solver |]. cbn in *.
  apply tiles_split in Ht as Ht'; [| done].
  assert (Hinv' : buddy_inv m b A ((i + 2 ^ c, c) :: (i, c) :: hole) free).
  { eapply inv_hole; [exact Hinv |]. cbn. by rewrite perm_swap. }
  rewrite Z.shiftl_1_l.
  destruct (add_to_free_list_ok _ _ _ _ _ _ _ Hinv') as (m1 & b1 & E1 & Hinv1 & Et & Eb & Ea).
  rewrite E1. cbn [mbind outcome_bind].
  destruct (IH m1 b1 ((i + 2 ^ c, c) :: free)) as (m2 & b2 & free2 & E2 & ? & ? & ? & ? & ?); [done | exact Hinv1 | |].
  - apply coalesced_cons; [done | done |]. intros _ Hin.
    assert (Hb : buddy_index (i + 2 ^ c) c = i).
    { destruct (buddy_index_spec i c) as [[_ Hk] | (z & Hz & ? & Hi' & Hk)];
        try (done || lia || by apply aligned_half).
      - rewrite <- Hk. apply buddy_index_involutive.
      - exfalso. assert (E : 2 ^ (c + 1) = 2 * 2 ^ c) by (rewrite Z.pow_add_r by lia; lia).
        pose proof (pow2_pos c Hc). pose proof (aligned_unique z i (2 ^ (c + 1))). lia. }
    rewrite Hb in Hin. apply (tiles_head_unique _ _ _ _ c Ht). set_solver.
  - exists m2, b2, free2. split_and!; congruence || done.
Qed.

Lemma split_loop_ok' m b A i co o hole free :
  0 <= o <= co -> buddy_inv m b A ((i, co) :: hole) free -> coalesced free ->
  exists m' b' free', split_loop (Z.to_nat (co - o)) m b i co o = Ret (m', b') /\
    buddy_inv m' b' A ((i, o) :: hole) free' /\ coalesced free' /\
    ba_total_slots b' = ba_total_slots b /\ ba_base_ptr b' = ba_base_ptr b /\
    ba_allocated b' = ba_allocated b.
Proof.
  intros Ho Hinv Hco. pose proof (split_loop_ok (Z.to_nat (co - o)) m b A i o hole free) as Hs.
  replace (o + Z.of_nat (Z.to_nat (co - o))) with co in Hs by lia. apply Hs; done || lia.
Qed.

(** The head of the buddy of the block in flight, when it is not allocated, is
    a free block whose order byte is its order. *)
Lemma inv_buddy_free m b A i o free :
  buddy_inv m b A [(i, o)] free -> 0 <= buddy_index i o < ba_total_slots b ->
  bitset_bit (ba_allocated b) (buddy_index i o) = false ->
  exists p, (buddy_index i o, p) ∈ free /\
    get_free_node_order m b (buddy_index i o) = Ret p.
Proof.
  intros Hinv Hr Hbit. pose proof (bi_tiles _ _ _ _ _ Hinv) as Ht. cbn in Ht.
  rewrite (bi_alloc _ _ _ _ _ Hinv) in Hbit by done. apply bool_decide_eq_false in Hbit.
  destruct (tiles_buddy_head _ _ _ _ Ht Hr) as (p & [Hin | Hin]%elem_of_app & _).
  - exfalso. apply Hbit. apply elem_of_map_to_list in Hin. by exists p.
  - exists p. split; [done |]. unfold get_free_node_order.
    rewrite (inv_ptr Hinv _ p) by set_solver. cbn [mbind outcome_bind].
    by rewrite (bi_order _ _ _ _ _ Hinv _ _ Hin).
Qed.

(** Merging the block in flight with its free buddy. *)
Lemma inv_merge m b A i o free :
  buddy_inv m b A [(buddy_index i o, o); (i, o)] free -> 0 <= o < MAX_ORDER ->
  buddy_inv m b A
    [(if buddy_index i o <? i then buddy_index i o else i, o + 1)] free.
Proof.
  intros Hinv Ho. eapply inv_hole; [exact Hinv |].
  pose proof (bi_tiles _ _ _ _ _ Hinv) as Ht. cbn in Ht |- *.
  destruct (tiles_block _ _ (i, o) Ht) as (_ & Hi & _ & Hm); [set_solver |]. cbn in *.
  pose proof (pow2_pos o ltac:(lia)).
  destruct (buddy_index_spec i o) as [[Hpm Hk] | (z & Hz & ? & -> & Hk)]; try lia;
    rewrite Hk in *.
  - destruct (Z.ltb_spec (i + 2 ^ o) i); [lia |]. apply tiles_merge; [done | done |].
    by rewrite perm_swap.
  - destruct (Z.ltb_spec z (z + 2 ^ o)); [| lia]. by apply tiles_merge.
Qed.

Lemma merge_loop_ok n m b A i o free :
  0 <= o -> o + Z.of_nat n = MAX_ORDER -> buddy_inv m b A [(i, o)] free -> coalesced free ->
  exists m' b' i' o' free', merge_loop n m b i o = Ret (m', b', i', o') /\
    buddy_inv m' b' A [(i', o')] free' /\ coalesced free' /\
    (o' < MAX_ORDER -> (buddy_index i' o', o') ∉ free') /\ 0 <= o' /\
    ba_total_slots b' = ba_total_slots b /\ ba_base_ptr b' = ba_base_ptr b /\
    ba_allocated b' = ba_allocated b.
Proof.
  revert m b i o free. induction n as [| n IH]; intros m b i o free Ho Hn Hinv Hco.
  { exists m, b, i, o, free. cbn [merge_loop].
    destruct (Z.ltb_spec o MAX_ORDER); [lia |]. split_and!; done || lia. }
  cbn [merge_loop]. destruct (Z.ltb_spec o MAX_ORDER) as [Hlt | ?]; [| lia].
  set (k := buddy_index i o). pose proof (bi_tiles _ _ _ _ _ Hinv) as Ht. cbn in Ht.
  destruct (bi_bitset _ _ _ _ _ Hinv) as [Hwf Hsz].
  assert (Hk0 : 0 <= k).
  { destruct (tiles_block _ _ (i, o) Ht) as (_ & Hi & _ & Hm); [set_solver |]. cbn in *.
    pose proof (pow2_pos o Ho).
    destruct (buddy_index_spec i o) as [[? Hk] | (z & ? & ? & ? & Hk)]; unfold k; lia. }
  (* leaving the loop *)
  assert (Hstop : (k, o) ∉ free -> exists m' b' i' o' free',
    @Ret (mem * BuddyAllocator * Z * Z) (m, b, i, o) = Ret (m', b', i', o') /\
    buddy_inv m' b' A [(i', o')] free' /\ coalesced free' /\
    (o' < MAX_ORDER -> (buddy_index i' o', o') ∉ free') /\ 0 <= o' /\
    ba_total_slots b' = ba_total_slots b /\ ba_base_ptr b' = ba_base_ptr b /\
    ba_allocated b' = ba_allocated b).
  { intros Hk. exists m, b, i, o, free. split_and!; done. }
  destruct (Z.lt_ge_cases k (ba_total_slots b)) as [Hkt | Hkt].
  2: { rewrite bitset_get_err by lia. cbn. apply Hstop. intros Hin.
       destruct (inv_free_block Hinv _ _ Hin) as (? & _ & Hle & _). cbn in Hle.
       pose proof (pow2_pos o Ho). lia. }
  rewrite bitset_get_ok by (done || lia). cbn [mbind outcome_bind].
  destruct (bitset_bit (ba_allocated b) k) eqn:Ebit.
  { apply Hstop. intros Hin. rewrite (bi_alloc _ _ _ _ _ Hinv) in Ebit by lia.
    apply bool_decide_eq_true in Ebit as [p Hp]. apply elem_of_map_to_list in Hp.
    pose proof (tiles_heads_NoDup _ _ Ht) as Hnd.
    rewrite fmap_cons, fmap_app in Hnd. apply NoDup_cons in Hnd as [_ Hnd].
    apply NoDup_app in Hnd as (_ & Hd & _). apply (Hd k); apply list_elem_of_fmap.
    - by exists (k, p). - by exists (k, o). }
  destruct (inv_buddy_free _ _ _ _ _ _ Hinv) as (p & Hin & Hg); [unfold k in *; lia | done |].
  fold k in Hin, Hg. rewrite Hg. cbn [mbind outcome_bind].
  destruct (Z.eqb_spec p o) as [-> | Hne]; cbn [negb].
  2: { apply Hstop. intros Hin'. apply Hne.
       by eapply heads_unique; [apply (inv_free_NoDup Hinv) | |]. }
  apply list_elem_of_split in Hin as (pre & post & ->).
  destruct (remove_from_free_list_ok _ _ _ _ _ _ _ _ Hinv) as (m1 & b1 & E1 & Hinv1 & Et & Eb & Ea).
  rewrite E1. cbn [mbind outcome_bind].
  destruct (IH m1 b1 (if k <? i then k else i) (o + 1) (pre ++ post))
    as (m2 & b2 & i2 & o2 & free2 & E2 & ? & ? & ? & ? & ? & ? & ?); [lia | lia | | |].
  - by apply inv_merge.
  - intros j q Hj Hq Hj'. apply (Hco j q); [set_solver | done | set_solver].
  - exists m2, b2, i2, o2, free2. split_and!; congruence || done.
Qed.

(** ** Allocation *)

Lemma candidates_spec m b A hole free order :
  buddy_inv m b A hole free -> 0 <= order <= MAX_ORDER ->
  forall j, 0 <= j ->
  Z.testbit (Z.land (ba_free_bitmap b) (bitnot U32 (Z.shiftl 1 order - 1))) j = true <->
  order <= j /\ of_order free j <> [].
Proof.
  intros Hinv Ho j Hj. rewrite Z.land_spec, andb_true_iff, (bi_bitmap _ _ _ _ _ Hinv) by done.
  rewrite bitnot_spec by (unfold U32; lia).
  rewrite Z.shiftl_1_l, Z.sub_1_r, <- Z.ones_equiv, Z.testbit_ones_nonneg by lia.
  assert (Hj32 : of_order free j <> [] -> j < 32).
  { intros Hne. destruct (of_order free j) as [| x xs] eqn:E; [done |].
    assert (Hx : (x, j) ∈ free) by (apply elem_of_of_order; rewrite E; set_solver).
    destruct (inv_free_block Hinv _ _ Hx) as ([_ ?] & _). unfold MAX_ORDER in *. cbn in *. lia. }
  unfold U32. repeat case_ltb; cbn; naive_solver lia.
Qed.

(** [alloc] on an order for which a large enough block is free. *)
Lemma buddy_alloc_some m b A free order :
  buddy_inv m b A [] free -> coalesced free -> 0 <= order <= MAX_ORDER ->
  (exists i o, (i, o) ∈ free /\ order <= o) ->
  exists m' b' i, buddy_alloc m b order = Ret (m', b', Some i) /\
    A !! i = None /\ buddy_ok m' b' (<[i := order]> A) /\
    ba_total_slots b' = ba_total_slots b /\ ba_base_ptr b' = ba_base_ptr b.
Proof.
  intros Hinv Hco Ho (i0 & o0 & Hin0 & Ho0).
  set (cand := Z.land (ba_free_bitmap b) (bitnot U32 (Z.shiftl 1 order - 1))).
  pose proof (candidates_spec _ _ _ _ _ order Hinv Ho) as Hcand. fold cand in Hcand.
  assert (Hc0 : 0 < cand).
  { assert (0 <= cand) by (unfold cand; apply Z.land_nonneg; left; apply Hinv).
    destruct (decide (cand = 0)) as [E0 | ?]; [| lia].
    assert (Ht : Z.testbit cand o0 = true).
    { apply Hcand; [lia |]. split; [done |]. intros E. apply elem_of_of_order in Hin0.
      rewrite E in Hin0. set_solver. }
    rewrite E0, Z.testbit_0_l in Ht. done. }
  destruct (trailing_zeros_spec U32 cand Hc0) as (Hf0 & Hft & _).
  set (fo := trailing_zeros U32 cand) in *.
  apply Hcand in Hft as [Hfo Hne]; [| done].
  destruct (of_order free fo) as [| i xs] eqn:Eo; [done |].
  apply of_order_head_split in Eo as Hs. destruct Hs as (pre & post & -> & Hpre).
  destruct (inv_free_block Hinv i fo) as (Hfr & Hi & Hle & _); [set_solver |]. cbn in *.
  destruct (inv_list Hinv fo Hfr) as (l & Hg & _ & Hd).
  pose proof (inv_free_length Hinv fo) as Hlen.
  assert (Hxs : of_order post fo = xs).
  { rewrite of_order_app, of_order_cons, Hpre, decide_True in Eo by done. by injection Eo. }
  rewrite Eo in Hd, Hlen. rewrite fmap_cons in Hd.
  destruct (pop_front_cons (Ad := FreeNodeAdapter) _ _ _ _ Hd) as (links' & l' & E & Hd' & _ & Hf).
  { rewrite <- fmap_cons, length_fmap. lia. }
  assert (Hinv1 := inv_unlist _ _ _ _ _ _ _ _ links' l' Hinv).
  rewrite of_order_app, Hpre, Hxs, Eo in Hinv1. specialize (Hinv1 Hd' Hf).
  assert (Hco1 : coalesced (pre ++ post)).
  { intros j q Hj Hq Hj'. apply (Hco j q); [set_solver | done | set_solver]. }
  destruct (split_loop_ok' _ _ _ _ _ order _ _ (conj (proj1 Ho) Hfo) Hinv1 Hco1)
    as (m2 & b2 & free2 & E2 & Hinv2 & Hco2 & Et2 & Eb2 & Ea2). cbn in Et2, Eb2, Ea2.
  destruct (bi_bitset _ _ _ _ _ Hinv2) as [Hwf2 Hsz2].
  pose proof (pow2_pos fo Hf0).
  destruct (bitset_set_ok (ba_allocated b2) i Hwf2 ltac:(lia)) as (al & E3 & Hwf3 & Hsz3 & Hb3 & Ho3).
  destruct (inv_set_allocated _ _ _ _ _ _ _ al Hinv2 Hwf3 ltac:(lia) Hb3 Ho3) as [HA Hinv3].
  unfold buddy_alloc. destruct (Z.ltb_spec MAX_ORDER order); [lia |]. fold cand.
  destruct (Z.eqb_spec cand 0); [lia |]. fold fo. rewrite Hg. cbn [mbind outcome_bind].
  rewrite E. cbn [mbind outcome_bind unwrap_unchecked get_value FreeNodeAdapter].
  rewrite (inv_vec_set Hinv) by done. cbn [mbind outcome_bind].
  assert (Hidx : index_from_ptr (mkBuddy (ba_base_ptr b) (<[Z.to_nat fo := l']> (ba_free_lists b))
     (refresh_bitmap (ba_free_bitmap b) l' fo) (ba_allocated b) (ba_total_slots b))
     (slot_addr b i) = i).
  { unfold index_from_ptr, slot_addr. cbn [ba_base_ptr].
    replace (ba_base_ptr b + slot_offset i - ba_base_ptr b) with (slot_offset i) by lia.
    apply slot_offset_round. }
  rewrite Hidx, E2. cbn [mbind outcome_bind]. rewrite E3. cbn [mbind outcome_bind].
  do 3 eexists. split; [reflexivity |]. split_and!; [done | by exists free2 | done | done].
Qed.

Lemma buddy_alloc_none m b A free order :
  buddy_inv m b A [] free -> 0 <= order ->
  (forall i o, (i, o) ∈ free -> o < order) -> buddy_alloc m b order = Ret (m, b, None).
Proof.
  intros Hinv Ho Hnone. unfold buddy_alloc.
  destruct (Z.ltb_spec MAX_ORDER order) as [? | Hle]; [done |].
  pose proof (candidates_spec _ _ _ _ _ order Hinv ltac:(lia)) as Hcand.
  set (cand := Z.land _ _) in *. replace cand with 0; [done |]. symmetry.
  apply Z.bits_inj'. intros j Hj. rewrite Z.testbit_0_l.
  apply not_true_iff_false. intros [Hoj Hne]%Hcand; [| done].
  destruct (of_order free j) as [| x xs] eqn:E; [done |].
  assert (Hx : (x, j) ∈ free) by (apply elem_of_of_order; rewrite E; set_solver).
  apply Hnone in Hx. lia.
Qed.

(** ** Deallocation *)

Lemma buddy_dealloc_ok m b A i o :
  buddy_ok m b A -> A !! i = Some o ->
  exists m' b', buddy_dealloc m b i o = Ret (m', b', Ok tt) /\
    buddy_ok m' b' (delete i A) /\
    ba_total_slots b' = ba_total_slots b /\ ba_base_ptr b' = ba_base_ptr b.
Proof.
  intros (free & Hinv & Hco) HA.
  destruct (tiles_block _ _ (i, o) (bi_tiles _ _ _ _ _ Hinv)) as (Ho & Hi & Hle & _).
  { apply elem_of_map_to_list in HA. set_solver. }
  cbn in *. pose proof (pow2_pos o ltac:(lia)).
  destruct (bi_bitset _ _ _ _ _ Hinv) as [Hwf Hsz].
  assert (Hir : 0 <= i < bs_size (ba_allocated b)) by lia.
  destruct (bitset_clear_ok (ba_allocated b) i Hwf Hir) as (al & E & Hwf' & Hsz' & Hb' & Ho').
  pose proof (inv_clear_allocated _ _ _ _ _ _ _ al Hinv HA Hwf' ltac:(lia) Hb' Ho') as Hinv1.
  destruct (merge_loop_ok (Z.to_nat (MAX_ORDER - o)) _ _ _ _ o _ (proj1 Ho) ltac:(lia) Hinv1 Hco)
    as (m2 & b2 & i2 & o2 & free2 & E2 & Hinv2 & Hco2 & Hn2 & Hp2 & Et2 & Eb2 & _).
  destruct (add_to_free_list_ok _ _ _ _ _ _ _ Hinv2) as (m3 & b3 & E3 & Hinv3 & Et3 & Eb3 & _).
  cbn in Et2, Eb2. unfold buddy_dealloc. rewrite bitset_get_ok by (done || lia).
  cbn [mbind outcome_bind]. rewrite (bi_alloc _ _ _ _ _ Hinv) by lia.
  rewrite bool_decide_true by (by rewrite HA).
  rewrite E. cbn [mbind outcome_bind]. rewrite E2. cbn [mbind outcome_bind].
  rewrite E3. cbn [mbind outcome_bind]. exists m3, b3. split; [done |].
  split_and!; [| congruence | congruence].
  exists ((i2, o2) :: free2). split; [done |]. by apply coalesced_cons.
Qed.

Lemma buddy_dealloc_double m b A i o :
  buddy_ok m b A -> 0 <= i < ba_total_slots b -> A !! i = None ->
  buddy_dealloc m b i o = Ret (m, b, Err DoubleFree).
Proof.
  intros (free & Hinv & _) Hi HA. destruct (bi_bitset _ _ _ _ _ Hinv) as [Hwf Hsz].
  unfold buddy_dealloc. rewrite bitset_get_ok by (done || lia). cbn [mbind outcome_bind].
  rewrite (bi_alloc _ _ _ _ _ Hinv), bool_decide_false; [done | by rewrite HA | lia].
Qed.

Lemma buddy_dealloc_invalid m b A i o :
  buddy_ok m b A -> ba_total_slots b <= i ->
  buddy_dealloc m b i o = Ret (m, b, Err InvalidFree).
Proof.
  intros (free & Hinv & _) Hi. destruct (bi_bitset _ _ _ _ _ Hinv) as [_ Hsz].
  unfold buddy_dealloc. by rewrite bitset_get_err by lia.
Qed.

(** ** Initialisation *)

(** A region not yet given to the lists, as blocks of one slot. *)
Definition units (s n : Z) : list block := (fun j => (j, 0)) <$> seqZ s n.

Lemma cover_units s n j : cover (units s n) j = if (s <=? j) && (j <? s + n) then 1 else 0.
Proof.
  unfold units. destruct (Z.le_gt_cases 0 n) as [Hn | Hn].
  2: { rewrite seqZ_nil by lia. cbn. repeat case_ltb; cbn; lia. }
  rewrite <- (Z2Nat.id n) by done. generalize (Z.to_nat n) as k. clear Hn n.
  intros k. revert s. induction k as [| k IH]; intros s.
  - rewrite seqZ_nil by lia. cbn [fmap list_fmap cover]. repeat case_ltb; cbn; lia.
  - rewrite seqZ_cons by lia. rewrite fmap_cons. cbn [cover].
    replace (Z.pred (Z.of_nat (S k))) with (Z.of_nat k) by lia.
    rewrite IH. unfold contains; cbn [fst snd]. change (2 ^ 0) with 1.
    repeat case_ltb; cbn; lia.
Qed.

Lemma tiles_units_block total s n o ks :
  0 <= o <= MAX_ORDER -> 2 ^ o <= n -> s mod 2 ^ o = 0 -> 0 <= s -> s + n <= total ->
  tiles total (units s n ++ ks) ->
  tiles total ((s, o) :: units (s + 2 ^ o) (n - 2 ^ o) ++ ks).
Proof.
  intros Ho Hn Hs H0 Hle [Hb Hc]. apply Forall_app in Hb as [Hu Hb].
  pose proof (pow2_pos o ltac:(lia)). split.
  - apply Forall_cons. split; [unfold block_ok; cbn; split_and!; done || lia |].
    apply Forall_app. split; [| done]. apply Forall_forall. intros k Hk.
    apply (proj1 (Forall_forall _ _) Hu). unfold units in *.
    apply list_elem_of_fmap in Hk as (j & -> & Hj%elem_of_seqZ). apply list_elem_of_fmap.
    exists j. split; [done |]. apply elem_of_seqZ. lia.
  - intros j Hj. specialize (Hc j Hj). cbn [cover]. rewrite cover_app, cover_units in Hc |- *.
    unfold contains; cbn [fst snd]. repeat case_ltb; cbn in *; lia.
Qed.

(** The alignment kept by the loop: the start is aligned to [2 ^ p], and less
    than [2 ^ p] slots remain unless the maximal order is still in use. *)
Definition init_state (start remaining p : Z) (free : list block) : Prop :=
  0 <= p <= MAX_ORDER /\ 0 <= start /\ start mod 2 ^ p = 0 /\
  (p = MAX_ORDER \/ remaining < 2 ^ p) /\ (forall i o, (i, o) ∈ free -> p <= o).

Lemma init_state_order start remaining p free :
  init_state start remaining p free -> 0 < remaining ->
  let o := Z.min (Z.log2 remaining) MAX_ORDER in
  0 <= o <= MAX_ORDER /\ 2 ^ o <= remaining /\ start mod 2 ^ o = 0 /\
  (o < MAX_ORDER -> forall i, (i, o) ∉ free) /\
  exists p', init_state (start + 2 ^ o) (remaining - 2 ^ o) p' ((start, o) :: free).
Proof.
  intros (Hp & Hs & Ha & Hr & Hf) Hrem o. unfold MAX_ORDER in *.
  destruct (Z.log2_spec remaining Hrem) as [Hl1 Hl2].
  pose proof (Z.log2_nonneg remaining) as Hl0.
  assert (Hop : o <= p).
  { destruct Hr as [-> | Hr]; [lia |]. apply Z.log2_lt_pow2 in Hr; lia. }
  assert (Ho : 0 <= o <= 18) by lia.
  assert (Hle : 2 ^ o <= remaining).
  { etrans; [| exact Hl1]. apply Z.pow_le_mono_r; lia. }
  assert (Hao : start mod 2 ^ o = 0) by (by apply (aligned_le _ o p); [lia |]).
  pose proof (pow2_pos o ltac:(lia)).
  split_and!; [lia | lia | done | done | |].
  - intros Hlt i Hin. apply Hf in Hin. destruct Hr as [-> | Hr]; [lia |].
    apply Z.log2_lt_pow2 in Hr; lia.
  - exists o. unfold init_state, MAX_ORDER. split_and!; [lia | lia | lia | | |].
    + rewrite <- Z.add_mod_idemp_l, Hao, Z.add_0_l by lia. apply Z.mod_same. lia.
    + destruct (decide (o = 18)); [by left | right].
      replace o with (Z.log2 remaining) in * by lia. rewrite Z.pow_succ_r in Hl2 by lia. lia.
    + intros i o' [[= -> ->] | Hin]%elem_of_cons; [lia |]. apply Hf in Hin. lia.
Qed.

Lemma init_loop_ok fuel m b start remaining p free :
  (Z.to_nat remaining <= fuel)%nat -> 0 <= remaining ->
  start + remaining = ba_total_slots b ->
  buddy_inv m b ∅ (units start remaining) free -> coalesced free ->
  init_state start remaining p free ->
  exists m' b', init_loop fuel m b start remaining = Ret (m', b') /\ buddy_ok m' b' ∅ /\
    ba_total_slots b' = ba_total_slots b /\ ba_base_ptr b' = ba_base_ptr b.
Proof.
  revert m b start remaining p free.
  induction fuel as [| fuel IH]; intros m b start remaining p free Hfuel Hr Htot Hinv Hco Hst.
  { replace remaining with 0 in * by lia. exists m, b. cbn. split_and!; try done.
    exists free. split; [| done]. exact Hinv. }
  cbn [init_loop]. destruct (Z.ltb_spec 0 remaining) as [Hpos | ?].
  2: { replace remaining with 0 in * by lia. exists m, b. split_and!; try done.
       exists free. split; [| done]. exact Hinv. }
  destruct (init_state_order _ _ _ _ Hst Hpos) as (Ho & Hle & Ha & Hn & p' & Hst').
  set (o := Z.min (Z.log2 remaining) MAX_ORDER) in *.
  assert (Eo : Z.min (USIZE_BITS - leading_zeros USIZE_BITS remaining - 1) MAX_ORDER = o).
  { unfold o, leading_zeros. destruct (Z.eqb_spec remaining 0); [lia |].
    unfold USIZE_BITS. f_equal. lia. }
  rewrite Eo. rewrite Z.shiftl_1_l.
  assert (Hinv1 : buddy_inv m b ∅ ((start, o) :: units (start + 2 ^ o) (remaining - 2 ^ o)) free).
  { eapply inv_hole; [exact Hinv |]. cbn.
    pose proof (bi_tiles _ _ _ _ _ Hinv) as Ht. cbn in Ht.
    apply tiles_units_block; try done; [apply Hst | lia]. }
  destruct (add_to_free_list_ok _ _ _ _ _ _ _ Hinv1) as (m1 & b1 & E1 & Hinv2 & Et & Eb & _).
  rewrite E1. cbn [mbind outcome_bind]. pose proof (pow2_pos o ltac:(lia)).
  destruct (IH m1 b1 (start + 2 ^ o) (remaining - 2 ^ o) p' ((start, o) :: free))
    as (m2 & b2 & E2 & ? & ? & ?); try done; try lia.
  - apply coalesced_cons; [lia | done |]. intros Hlt. by apply Hn.
  - exists m2, b2. split_and!; congruence || done.
Qed.

Lemma buddy_new_ok m ptr len :
  SLOT_SIZE <= len < 2 ^ 64 ->
  exists m' b, buddy_new m ptr len = Ret (m', b) /\ buddy_ok m' b ∅ /\
    ba_total_slots b = len / SLOT_SIZE /\ ba_base_ptr b = ptr.
Proof.
  intros Hlen. unfold buddy_new. destruct (Z.leb_spec SLOT_SIZE len); [| lia].
  cbn [assert mbind outcome_bind]. set (total := len / SLOT_SIZE).
  assert (Ht : 0 < total < 2 ^ 63) by (unfold total, SLOT_SIZE in *; dlia).
  set (b0 := mkBuddy _ _ _ _ _). unfold init_free_blocks.
  destruct (init_loop_ok (Z.to_nat total) m b0 0 total MAX_ORDER []) as (m' & b & E & ? & ? & ?);
    try done; try lia.
  - split; cbn; try done.
    + intros o l Ho Hl. apply lookup_replicate in Hl as [-> _]. apply dll_empty.
    + set_solver.
    + intros o Ho. by rewrite Z.testbit_0_l.
    + split; [apply bitset_new_wf; lia | done].
    + intros i Hi. by rewrite bitset_new_bit, lookup_empty.
    + rewrite map_to_list_empty, !app_nil_r. split.
      * apply Forall_forall. intros k (j & -> & Hj%elem_of_seqZ)%list_elem_of_fmap.
        unfold block_ok, MAX_ORDER. cbn. rewrite Z.mod_1_r. lia.
      * intros j Hj. rewrite cover_units. repeat case_ltb; cbn; lia.
  - intros i o. set_solver.
  - unfold init_state, MAX_ORDER. split_and!; try done; [by left | set_solver].
  - exists m', b. by rewrite E.
Qed.

(** ** Memory held by clients *)

Lemma buddy_client_write m m' b A :
  buddy_ok m b A -> client_write b A m m' -> buddy_ok m' b A.
Proof.
  intros (free & Hinv & Hco) Hw. exists free. split; [| done].
  assert (Hout : forall i o, (i, o) ∈ free ->
    m_links m' !! slot_addr b i = m_links m !! slot_addr b i /\
    m_order m' !! slot_addr b i = m_order m !! slot_addr b i).
  { intros i o Hin. apply Hw. intros i' o' HA Hr.
    pose proof (bi_tiles _ _ _ _ _ Hinv) as Ht. cbn in Ht.
    apply elem_of_map_to_list in HA.
    destruct (inv_free_block Hinv _ _ Hin) as ([Ho _] & _). cbn in Ho.
    apply list_elem_of_split in Hin as (f1 & f2 & ->).
    assert (Hp : map_to_list A ++ f1 ++ (i, o) :: f2 ≡ₚ (i, o) :: map_to_list A ++ f1 ++ f2).
    { by rewrite <- !Permutation_middle. }
    rewrite Hp in Ht. apply (tiles_disjoint _ _ (i', o') _ i Ht); [set_solver | |].
    - by apply contains_head.
    - apply contains_spec. cbn. unfold slot_addr, slot_offset, SLOT_SIZE in Hr. lia. }
  split; try apply Hinv.
  - intros o l Ho Hl. eapply dll_frame; [| by apply Hinv].
    intros x (i & -> & Hi%elem_of_of_order)%list_elem_of_fmap. by eapply Hout.
  - intros i o Hin. rewrite (proj2 (Hout i o Hin)). by apply Hinv.
Qed.

(** ** Free runs *)

(** An aligned run of [2 ^ o] slots none of which is in an allocated block. *)
Definition free_run (A : gmap Z Z) (total i o : Z) : Prop :=
  block_ok total (i, o) /\
  forall i' o', A !! i' = Some o' -> i' + 2 ^ o' <= i \/ i + 2 ^ o <= i'.

(** In a coalesced state a free run lies inside one free block. *)
Lemma free_run_in_block m b A free n i :
  buddy_inv m b A [] free -> coalesced free ->
  free_run A (ba_total_slots b) i (Z.of_nat n) ->
  exists j p, (j, p) ∈ free /\ Z.of_nat n <= p /\ contains (j, p) i = true.
Proof.
  intros Hinv Hco. revert i. induction n as [| n IH]; intros i (Hb & Hd).
  - destruct Hb as (Ho & Hi & Hle & _). cbn in *. change (2 ^ 0) with 1 in *.
    pose proof (bi_tiles _ _ _ _ _ Hinv) as Ht. cbn in Ht.
    assert (Hc : 0 < cover (map_to_list A ++ free) i) by (destruct Ht as [_ ->]; lia).
    destruct (cover_find _ _ Hc) as ([j p] & [Hin | Hin]%elem_of_app & Hji).
    + exfalso. apply contains_spec in Hji. cbn in Hji.
      apply elem_of_map_to_list, Hd in Hin. lia.
    + exists j, p. destruct (inv_free_block Hinv _ _ Hin) as ([? _] & _). cbn in *.
      split_and!; done || lia.
  - set (o := Z.of_nat n) in *. replace (Z.of_nat (S n)) with (o + 1) in * by lia.
    assert (Ho : 0 <= o) by lia. pose proof (pow2_pos o Ho).
    assert (E : 2 ^ (o + 1) = 2 * 2 ^ o) by (rewrite Z.pow_add_r by lia; lia).
    destruct Hb as (Hr & Hi & Hle & Hm). cbn in Hr, Hi, Hle, Hm.
    destruct (aligned_half i o Ho Hm) as [Hm1 Hm2].
    destruct (IH i) as (j1 & p1 & Hin1 & Hp1 & Hc1).
    { split; [unfold block_ok, MAX_ORDER in *; cbn; split_and!; done || lia |].
      intros i' o' [? | ?]%Hd; lia. }
    destruct (IH (i + 2 ^ o)) as (j2 & p2 & Hin2 & Hp2 & Hc2).
    { split; [unfold block_ok, MAX_ORDER in *; cbn; split_and!; done || lia |].
      intros i' o' [? | ?]%Hd; lia. }
    apply contains_spec in Hc1, Hc2. cbn in Hc1, Hc2.
    destruct (inv_free_block Hinv _ _ Hin1) as (_ & _ & _ & Ha1). cbn in Ha1.
    destruct (inv_free_block Hinv _ _ Hin2) as (_ & _ & _ & Ha2). cbn in Ha2.
    destruct (decide (o + 1 <= p1)) as [? | Hn1].
    { exists j1, p1. split_and!; [done | done |]. by apply contains_spec. }
    destruct (decide (o + 1 <= p2)) as [? | Hn2].
    { exists j2, p2. split_and!; [done | done |]. apply contains_spec. cbn.
      destruct (aligned_nested j2 p2 i (o + 1) (i + 2 ^ o)); try done; lia. }
    exfalso. replace p1 with o in * by lia. replace p2 with o in * by lia.
    assert (j1 = i) as -> by (apply (aligned_unique j1 i (2 ^ o)); done || lia).
    assert (j2 = i + 2 ^ o) as -> by (apply (aligned_unique j2 (i + 2 ^ o) (2 ^ o)); done || lia).
    apply (Hco i o Hin1); [unfold MAX_ORDER in *; lia |].
    destruct (buddy_index_spec i o) as [[_ ->] | (z & Hz & ? & Ei & _)]; try done; try lia.
    exfalso. pose proof (aligned_unique z i (2 ^ (o + 1))). lia.
Qed.

(** A free block of at least the order starts with a free run. *)
Lemma block_free_run m b A free i o p :
  buddy_inv m b A [] free -> (i, p) ∈ free -> 0 <= o <= p ->
  free_run A (ba_total_slots b) i o.
Proof.
  intros Hinv Hin Ho. destruct (inv_free_block Hinv _ _ Hin) as (Hp & Hi & Hle & Hm). cbn in *.
  assert (2 ^ o <= 2 ^ p) by (apply Z.pow_le_mono_r; lia).
  split; [unfold block_ok; cbn; split_and!; try lia; by apply (aligned_le _ o p) |].
  intros i' o' HA. destruct (Z.le_gt_cases (i' + 2 ^ o') i) as [? | H1]; [by left |].
  destruct (Z.le_gt_cases (i + 2 ^ o) i') as [? | H2]; [by right | exfalso].
  pose proof (bi_tiles _ _ _ _ _ Hinv) as Ht. cbn in Ht.
  apply elem_of_map_to_list in HA as HA'.
  destruct (tiles_block _ _ (i', o') Ht) as ([? _] & _); [set_solver |]. cbn in *.
  apply list_elem_of_split in Hin as (f1 & f2 & ->).
  assert (Hpm : map_to_list A ++ f1 ++ (i, p) :: f2 ≡ₚ (i, p) :: map_to_list A ++ f1 ++ f2).
  { by rewrite <- !Permutation_middle. }
  rewrite Hpm in Ht. pose proof (pow2_pos o' ltac:(lia)). pose proof (pow2_pos o ltac:(lia)).
  apply (tiles_disjoint _ _ (i', o') _ (Z.max i i') Ht); [set_solver | |];
    apply contains_spec; cbn; lia.
Qed.

(** The allocated blocks are in range and pairwise disjoint. *)
Lemma buddy_ok_disjoint m b A i1 o1 i2 o2 :
  buddy_ok m b A -> A !! i1 = Some o1 -> A !! i2 = Some o2 -> i1 <> i2 ->
  i1 + 2 ^ o1 <= i2 \/ i2 + 2 ^ o2 <= i1.
Proof.
  intros (free & Hinv & _) H1 H2 Hne.
  pose proof (bi_tiles _ _ _ _ _ Hinv) as Ht. cbn in Ht.
  rewrite <- (map_to_list_delete A i1 o1 H1) in Ht. cbn in Ht.
  assert (Hin : (i2, o2) ∈ map_to_list (delete i1 A)).
  { apply elem_of_map_to_list. by rewrite lookup_delete_ne. }
  destruct (tiles_block _ _ (i1, o1) Ht) as ([? _] & _); [set_solver |].
  destruct (tiles_block _ _ (i2, o2) Ht) as ([? _] & _); [set_solver |]. cbn in *.
  destruct (Z.le_gt_cases (i1 + 2 ^ o1) i2) as [? | Ha]; [by left |].
  destruct (Z.le_gt_cases (i2 + 2 ^ o2) i1) as [? | Hb]; [by right | exfalso].
  pose proof (pow2_pos o1 ltac:(lia)). pose proof (pow2_pos o2 ltac:(lia)).
  apply (tiles_disjoint _ _ (i2, o2) _ (Z.max i1 i2) Ht); [set_solver | |];
    apply contains_spec; cbn; lia.
Qed.

Lemma buddy_ok_block m b A i o :
  buddy_ok m b A -> A !! i = Some o -> block_ok (ba_total_slots b) (i, o).
Proof.
  intros (free & Hinv & _) H1. eapply tiles_block; [apply Hinv |].
  apply elem_of_map_to_list in H1. set_solver.
Qed.

(** ** Runs of the allocator *)

(** The states reachable from initialisation by allocations, frees of live
    blocks at their order, and writes of clients to the blocks they hold. *)
Inductive buddy_reach (m0 : mem) (ptr len : Z) : mem -> BuddyAllocator -> gmap Z Z -> Prop :=
  | reach_new m b :
      buddy_new m0 ptr len = Ret (m, b) -> buddy_reach m0 ptr len m b ∅
  | reach_alloc m b A order m' b' i :
      buddy_reach m0 ptr len m b A -> 0 <= order ->
      buddy_alloc m b order = Ret (m', b', Some i) ->
      buddy_reach m0 ptr len m' b' (<[i := order]> A)
  | reach_dealloc m b A i o m' b' r :
      buddy_reach m0 ptr len m b A -> A !! i = Some o ->
      buddy_dealloc m b i o = Ret (m', b', r) ->
      buddy_reach m0 ptr len m' b' (delete i A)
  | reach_write m b A m' :
      buddy_reach m0 ptr len m b A -> client_write b A m m' ->
      buddy_reach m0 ptr len m' b A.

(** The result of [alloc] in both cases. *)
Lemma buddy_alloc_cases m b A order : buddy_ok m b A -> 0 <= order ->
  (order <= MAX_ORDER /\ exists m' b' i, buddy_alloc m b order = Ret (m', b', Some i) /\
     A !! i = None /\ buddy_ok m' b' (<[i := order]> A) /\
     ba_total_slots b' = ba_total_slots b /\ ba_base_ptr b' = ba_base_ptr b) \/
  (buddy_alloc m b order = Ret (m, b, None) /\
   forall i, ~ free_run A (ba_total_slots b) i order).
Proof.
  intros (free & Hinv & Hco) Ho.
  destruct (decide (Exists (fun k : block => order <= k.2) free)) as [Hex | Hno].
  - left. apply Exists_exists in Hex as ([i o] & Hin & Hio). cbn in Hio.
    destruct (inv_free_block Hinv _ _ Hin) as ([_ ?] & _). cbn in *. split; [lia |].
    apply (buddy_alloc_some _ _ _ free); [done | done | lia |]. by exists i, o.
  - right.
    assert (Hlt : forall i o, (i, o) ∈ free -> o < order).
    { intros i o Hin. apply Z.nle_gt. intros Hle. apply Hno, Exists_exists. by exists (i, o). }
    split; [by apply (buddy_alloc_none _ _ A free) |]. intros i Hrun.
    replace order with (Z.of_nat (Z.to_nat order)) in Hrun by lia.
    destruct (free_run_in_block _ _ _ _ _ _ Hinv Hco Hrun) as (j & p & Hin & Hp & _).
    apply Hlt in Hin. lia.
Qed.

Lemma buddy_reach_ok m0 ptr len m b A :
  SLOT_SIZE <= len < 2 ^ 64 -> buddy_reach m0 ptr len m b A ->
  buddy_ok m b A /\ ba_total_slots b = len / SLOT_SIZE /\ ba_base_ptr b = ptr.
Proof.
  intros Hlen. induction 1 as [m b E | m b A order m' b' i _ IH Ho E
    | m b A i o m' b' r _ IH HA E | m b A m' _ IH Hw].
  - destruct (buddy_new_ok m0 ptr len Hlen) as (m' & b' & E' & ? & ? & ?). rewrite E in E'.
    by injection E' as <- <-.
  - destruct IH as (Hok & ? & ?).
    destruct (buddy_alloc_cases _ _ _ order Hok Ho) as [(_ & m2 & b2 & i2 & E2 & ? & ? & ? & ?) | [E2 _]];
      rewrite E in E2; [| done]. injection E2 as <- <- <-. split_and!; congruence || done.
  - destruct IH as (Hok & ? & ?).
    destruct (buddy_dealloc_ok _ _ _ _ _ Hok HA) as (m2 & b2 & E2 & ? & ? & ?).
    rewrite E in E2. injection E2 as <- <- _. split_and!; congruence || done.
  - destruct IH as (Hok & ? & ?). split_and!; [by eapply buddy_client_write | done | done].
Qed.

(** ** Properties *)

Section Properties.
Context (m0 : mem) (ptr len : Z).
Context (Hlen : SLOT_SIZE <= len < 2 ^ 64).

(** C4 In every state reachable from [BuddyAllocator::new] by allocations,
    frees of live blocks and client writes inside live blocks, each live block
    is aligned to its size and inside the region, and two live blocks never
    overlap. *)
Theorem buddy_live_blocks_disjoint (m : mem) (b : BuddyAllocator) (A : gmap Z Z)
    (Hreach : buddy_reach m0 ptr len m b A) (i1 o1 : Z) (H1 : A !! i1 = Some o1) :
  block_ok (len / SLOT_SIZE) (i1, o1) /\
  (forall i2 o2, A !! i2 = Some o2 -> i1 <> i2 -> i1 + 2 ^ o1 <= i2 \/ i2 + 2 ^ o2 <= i1).
Proof.
  destruct (buddy_reach_ok _ _ _ _ _ _ Hlen Hreach) as (Hok & <- & _). split.
  - by eapply buddy_ok_block.
  - intros i2 o2 H2 Hne. by eapply buddy_ok_disjoint.
Qed.

(** C27 [alloc] succeeds exactly when an aligned run of [2^order] slots outside
    the live blocks exists; it then returns such a run, which becomes live, and
    otherwise it returns [None] and changes nothing.  It never faults. *)
Theorem buddy_alloc_iff_free_run (m : mem) (b : BuddyAllocator) (A : gmap Z Z)
    (Hreach : buddy_reach m0 ptr len m b A) (order : Z) (Ho : 0 <= order) :
  (exists m' b' i, buddy_alloc m b order = Ret (m', b', Some i) /\
     free_run A (len / SLOT_SIZE) i order /\
     buddy_reach m0 ptr len m' b' (<[i := order]> A)) \/
  (buddy_alloc m b order = Ret (m, b, None) /\
   forall i, ~ free_run A (len / SLOT_SIZE) i order).
Proof.
  destruct (buddy_reach_ok _ _ _ _ _ _ Hlen Hreach) as (Hok & <- & _).
  destruct (buddy_alloc_cases _ _ _ _ Hok Ho) as [(_ & m' & b' & i & E & HA & Hok' & Et & _) | ?];
    [left | by right].
  exists m', b', i. split; [done |]. split; [| by eapply reach_alloc].
  split; [rewrite <- Et; eapply buddy_ok_block; [exact Hok' | apply lookup_insert_eq] |].
  intros i' o' HA'. assert (i <> i') by congruence.
  destruct (buddy_ok_disjoint _ _ _ i order i' o' Hok') as [? | ?]; auto.
  - apply lookup_insert_eq.
  - by rewrite lookup_insert_ne.
Qed.

(** [dealloc] of a live block at its order returns [Ok] without a fault and
    the block is no longer live; on a slot that is not the head of a live block
    it returns [DoubleFree], on a slot out of range [InvalidFree], and changes
    nothing. *)
Theorem buddy_dealloc_cases (m : mem) (b : BuddyAllocator) (A : gmap Z Z)
    (Hreach : buddy_reach m0 ptr len m b A) (i o : Z) (Hi : 0 <= i) :
  match A !! i with
  | Some o' => o = o' -> exists m' b', buddy_dealloc m b i o = Ret (m', b', Ok tt) /\
      buddy_reach m0 ptr len m' b' (delete i A)
  | None => buddy_dealloc m b i o =
      Ret (m, b, Err (if i <? len / SLOT_SIZE then DoubleFree else InvalidFree))
  end.
Proof.
  destruct (buddy_reach_ok _ _ _ _ _ _ Hlen Hreach) as (Hok & <- & _).
  destruct (A !! i) as [o' |] eqn:HA.
  - intros ->. destruct (buddy_dealloc_ok _ _ _ _ _ Hok HA) as (m' & b' & E & _).
    exists m', b'. split; [done |]. by eapply reach_dealloc.
  - destruct (Z.ltb_spec i (ba_total_slots b)).
    + by eapply buddy_dealloc_double.
    + by eapply buddy_dealloc_invalid.
Qed.

(** No fragmentation survives the last free: whenever no block is live, an
    allocation of any order up to [MAX_ORDER] that fits the region succeeds,
    whatever allocations and frees came before. *)
Theorem buddy_coalesces_completely (m : mem) (b : BuddyAllocator)
    (Hreach : buddy_reach m0 ptr len m b ∅) (order : Z) (Ho : 0 <= order <= MAX_ORDER)
    (Hfit : 2 ^ order <= len / SLOT_SIZE) :
  exists m' b' i, buddy_alloc m b order = Ret (m', b', Some i).
Proof.
  destruct (buddy_reach_ok _ _ _ _ _ _ Hlen Hreach) as (Hok & Et & _).
  destruct (buddy_alloc_cases _ _ _ order Hok (proj1 Ho)) as [(_ & m' & b' & i & E & _) | [_ Hno]].
  - by exists m', b', i.
  - exfalso. apply (Hno 0). rewrite Et.
    split; [unfold block_ok; cbn; split_and!; try lia; apply Z.mod_0_l; pose proof (pow2_pos order); lia |].
    intros i' o' HA. by rewrite lookup_empty in HA.
Qed.

End Properties.

(** A region of seven slots on zeroed bookkeeping, and its first states. *)
Definition ex_mem : mem := mkMem ∅ ∅.
Definition ex_len : Z := 7 * SLOT_SIZE.
Definition ex_new : mem * BuddyAllocator :=
  match buddy_new ex_mem 0 ex_len with
  | Ret s => s
  | Fault _ => (ex_mem, mkBuddy 0 [] 0 (bitset_new 0) 0)
  end.
Definition ex_one : mem * BuddyAllocator :=
  match buddy_alloc ex_new.1 ex_new.2 1 with
  | Ret (m, b, _) => (m, b)
  | Fault _ => ex_new
  end.

Lemma ex_len_ok : SLOT_SIZE <= ex_len < 2 ^ 64.
Proof. split; [vm_compute; discriminate | reflexivity]. Qed.

Lemma ex_new_reach : buddy_reach ex_mem 0 ex_len ex_new.1 ex_new.2 ∅.
Proof. apply reach_new. vm_compute. reflexivity. Qed.

Lemma ex_one_reach : buddy_reach ex_mem 0 ex_len ex_one.1 ex_one.2 {[4 := 1]}.
Proof.
  apply (reach_alloc _ _ _ ex_new.1 ex_new.2 ∅ 1 _ _ 4 ex_new_reach); [lia |].
  vm_compute. reflexivity.
Qed.

Lemma buddy_live_blocks_disjoint_witness : block_ok 7 (4, 1).
Proof.
  apply (buddy_live_blocks_disjoint ex_mem 0 ex_len ex_len_ok
           ex_one.1 ex_one.2 {[4 := 1]} ex_one_reach 4 1).
  reflexivity.
Defined.

Lemma buddy_alloc_iff_free_run_witness :
  exists m' b' i, buddy_alloc ex_one.1 ex_one.2 2 = Ret (m', b', Some i) /\
    free_run {[4 := 1]} 7 i 2.
Proof.
  destruct (buddy_alloc_iff_free_run ex_mem 0 ex_len ex_len_ok
           ex_one.1 ex_one.2 {[4 := 1]} ex_one_reach 2 ltac:(lia))
    as [(m' & b' & i & E & Hf & _) | [E _]].
  - exists m', b', i. split; [exact E | exact Hf].
  - exfalso. vm_compute in E. discriminate E.
Defined.

Lemma buddy_dealloc_cases_witness :
  exists m' b', buddy_dealloc ex_one.1 ex_one.2 4 1 = Ret (m', b', Ok tt).
Proof.
  destruct (buddy_dealloc_cases ex_mem 0 ex_len ex_len_ok
           ex_one.1 ex_one.2 {[4 := 1]} ex_one_reach 4 1 ltac:(lia) eq_refl)
    as (m' & b' & E & _).
  exists m', b'. exact E.
Defined.

Lemma buddy_coalesces_completely_witness :
  exists m' b' i, buddy_alloc ex_new.1 ex_new.2 2 = Ret (m', b', Some i).
Proof.
  apply (buddy_coalesces_completely ex_mem 0 ex_len ex_len_ok
           ex_new.1 ex_new.2 ex_new_reach 2).
  - unfold MAX_ORDER. lia.
  - vm_compute. discriminate.
Defined.
