(* ===== verification/Superblock.v ===== *)
(** * veloq-buf [heap/units.rs]: the superblock state

    A superblock is 64 slots handed out one by one from an atomic bit mask
    ([free_mask], 1 = free).  A thread holds it as its active allocation
    buffer; it goes back to the buddy allocator when it is empty and inactive,
    and two operations decide that: [free_one], on the thread that frees the
    last slot, and [set_inactive], on the thread that retires it.

    The first part gives the operations as they run without interference; the
    pool model uses them.  The second part gives each atomic access as one step
    of a transition system over any number of threads ([sb_step]), with the
    sequentially consistent order the code asks for.  The ghost field [cf_held]
    is the set of slots handed out and not yet freed, [cf_returns] counts the
    operations that reported the superblock eligible for return. *)

From S2P Require Import Prelude Units.

Record SuperblockState : Type := mkSb { sb_free_mask : Z; sb_is_active : bool }.

Definition sb_new : SuperblockState := mkSb 0 false.
Definition sb_init (s : SuperblockState) : SuperblockState := mkSb U64_MAX true.

(** [old & !(1 << idx)]. *)
Definition take_slot (old idx : Z) : Z := Z.land old (bitnot U64 (Z.shiftl 1 idx)).

Definition alloc_one (s : SuperblockState) : SuperblockState * option Z :=
  let old := sb_free_mask s in
  if old =? 0 then (s, None) else
  let idx := trailing_zeros U64 old in
  (mkSb (take_slot old idx) (sb_is_active s), Some idx).

Definition free_one (s : SuperblockState) (idx : Z) : SuperblockState * bool :=
  let mask := Z.shiftl 1 idx in
  let new_mask := Z.lor (sb_free_mask s) mask in
  (mkSb new_mask (sb_is_active s),
   if new_mask =? U64_MAX then negb (sb_is_active s) else false).

Definition set_inactive (s : SuperblockState) : SuperblockState * bool :=
  (mkSb (sb_free_mask s) false, sb_free_mask s =? U64_MAX).

(** ** The atomic steps *)

(** Where a thread stands inside an operation. *)
Inductive sb_pc : Type :=
  | PcIdle
  | PcAllocCas (old : Z)      (* [alloc_one]: about to compare-and-exchange *)
  | PcFreeCheck               (* [free_one]: saw the full mask, about to load [is_active] *)
  | PcRetireCheck.            (* [set_inactive]: stored [false], about to load the mask *)

Record sb_config : Type := mkCf {
  cf_sb : SuperblockState;
  cf_pcs : gmap nat sb_pc;
  cf_held : gset Z;
  cf_returns : nat
}.

Definition pc_of (c : sb_config) (t : nat) : sb_pc := default PcIdle (cf_pcs c !! t).

(** Thread [t] moves to [pc] with shared state [s], held slots [h]; [r] tells
    whether the operation just returned [true] from a retirement check. *)
Definition cf_move (c : sb_config) (t : nat) (pc : sb_pc) (s : SuperblockState)
    (h : gset Z) (r : bool) : sb_config :=
  mkCf s (<[t := pc]> (cf_pcs c)) h (if r then S (cf_returns c) else cf_returns c).

Inductive sb_step : sb_config -> sb_config -> Prop :=
  | step_alloc_load c t :
      (* load [free_mask]; return [None] on 0 *)
      pc_of c t = PcIdle ->
      sb_step c (cf_move c t
        (if sb_free_mask (cf_sb c) =? 0 then PcIdle else PcAllocCas (sb_free_mask (cf_sb c)))
        (cf_sb c) (cf_held c) false)
  | step_alloc_cas_ok c t old idx :
      (* [compare_exchange_weak] succeeds: return [Some idx] *)
      pc_of c t = PcAllocCas old -> sb_free_mask (cf_sb c) = old ->
      idx = trailing_zeros U64 old ->
      sb_step c (cf_move c t PcIdle
        (mkSb (take_slot old idx) (sb_is_active (cf_sb c))) ({[idx]} ∪ cf_held c) false)
  | step_alloc_cas_fail c t old :
      (* it fails, perhaps spuriously: retry with the value seen *)
      pc_of c t = PcAllocCas old ->
      sb_step c (cf_move c t
        (if sb_free_mask (cf_sb c) =? 0 then PcIdle else PcAllocCas (sb_free_mask (cf_sb c)))
        (cf_sb c) (cf_held c) false)
  | step_free_or c t idx :
      (* [fetch_or] of a slot the caller holds *)
      pc_of c t = PcIdle -> idx ∈ cf_held c ->
      sb_step c (cf_move c t
        (if Z.lor (sb_free_mask (cf_sb c)) (Z.shiftl 1 idx) =? U64_MAX
         then PcFreeCheck else PcIdle)
        (mkSb (Z.lor (sb_free_mask (cf_sb c)) (Z.shiftl 1 idx)) (sb_is_active (cf_sb c)))
        (cf_held c ∖ {[idx]}) false)
  | step_free_check c t :
      (* load [is_active]; return its negation *)
      pc_of c t = PcFreeCheck ->
      sb_step c (cf_move c t PcIdle (cf_sb c) (cf_held c) (negb (sb_is_active (cf_sb c))))
  | step_retire_store c t :
      (* store [is_active = false] *)
      pc_of c t = PcIdle -> sb_is_active (cf_sb c) = true ->
      sb_step c (cf_move c t PcRetireCheck (mkSb (sb_free_mask (cf_sb c)) false)
        (cf_held c) false)
  | step_retire_check c t :
      (* load [free_mask]; return whether it is full *)
      pc_of c t = PcRetireCheck ->
      sb_step c (cf_move c t PcIdle (cf_sb c) (cf_held c)
        (sb_free_mask (cf_sb c) =? U64_MAX)).

(** A superblock just taken from the buddy allocator ([init]). *)
Definition cf_start : sb_config := mkCf (sb_init sb_new) ∅ ∅ 0.

Inductive sb_reach : sb_config -> Prop :=
  | sb_reach_start : sb_reach cf_start
  | sb_reach_step c c' : sb_reach c -> sb_step c c' -> sb_reach c'.

(** ** The mask and the slots handed out *)

Definition mask_ok (mask : Z) (held : gset Z) : Prop :=
  0 <= mask < 2 ^ 64 /\
  (forall i, i ∈ held -> 0 <= i < 64) /\
  forall i, 0 <= i < 64 -> (Z.testbit mask i = true <-> i ∉ held).

Lemma mask_ok_init : mask_ok U64_MAX ∅.
Proof.
  split; [unfold U64_MAX; lia |]. split; [set_solver |]. intros i Hi.
  unfold U64_MAX. rewrite Z.sub_1_r, <- Z.ones_equiv, Z.testbit_ones_nonneg by lia.
  destruct (Z.ltb_spec i 64); [set_solver | lia].
Qed.

Lemma mask_ok_full mask held : mask_ok mask held -> (mask = U64_MAX <-> held = ∅).
Proof.
  intros (Hr & Hh & Hb). split.
  - intros ->. apply set_eq. intros i. split; [| set_solver]. intros Hi.
    apply Hh in Hi as Hir. destruct mask_ok_init as (_ & _ & Hi0).
    apply (Hb i Hir) in Hi; [done |]. by apply Hi0; [| set_solver].
  - intros ->. apply Z.bits_inj'. intros j Hj. destruct mask_ok_init as (_ & _ & Hi0).
    destruct (Z.lt_ge_cases j 64) as [Hlt | Hge].
    + apply eq_bool_prop_intro. rewrite !Is_true_true. rewrite Hb, Hi0 by lia. done.
    + rewrite !(testbit_range _ 64) by (done || (unfold U64_MAX; lia)). done.
Qed.

Lemma trailing_zeros_slot mask held : mask_ok mask held -> mask <> 0 ->
  let idx := trailing_zeros U64 mask in
  0 <= idx < 64 /\ idx ∉ held /\ mask_ok (take_slot mask idx) ({[idx]} ∪ held).
Proof.
  intros (Hr & Hh & Hb) Hne idx.
  destruct (trailing_zeros_spec U64 mask) as (H0 & Ht & _); [lia |]. fold idx in H0, Ht.
  assert (Hi : 0 <= idx < 64).
  { split; [done |]. apply Z.nle_gt. intros Hge. by rewrite (testbit_range mask 64) in Ht. }
  split; [done |]. split; [by apply Hb |]. unfold take_slot. rewrite Z.shiftl_1_l.
  split; [by apply clearbit_range |]. split; [set_solver |]. intros i Hii.
  rewrite testbit_clearbit by (done || (unfold U64; lia)).
  rewrite andb_true_iff, negb_true_iff, Z.eqb_neq, (Hb i) by done. set_solver.
Qed.

Lemma mask_ok_free mask held idx : mask_ok mask held -> idx ∈ held ->
  mask_ok (Z.lor mask (Z.shiftl 1 idx)) (held ∖ {[idx]}).
Proof.
  intros (Hr & Hh & Hb) Hin. pose proof (Hh _ Hin). rewrite Z.shiftl_1_l.
  split; [by apply setbit_range |]. split; [set_solver |]. intros i Hi.
  rewrite testbit_setbit, orb_true_iff, Z.eqb_eq, (Hb i) by lia. 
  destruct (decide (idx = i)); set_solver.
Qed.

(** ** Invariants of the transition system *)

Definition pending (c : sb_config) : Prop :=
  exists t, pc_of c t = PcFreeCheck \/ pc_of c t = PcRetireCheck.

Record sb_inv (c : sb_config) : Prop := {
  si_mask : mask_ok (sb_free_mask (cf_sb c)) (cf_held c);
  si_cas : forall t old, pc_of c t = PcAllocCas old -> old <> 0;
  si_return : sb_is_active (cf_sb c) = false -> sb_free_mask (cf_sb c) = U64_MAX ->
    (0 < cf_returns c)%nat \/ pending c
}.

Lemma pc_of_move c t pc s h r t' :
  pc_of (cf_move c t pc s h r) t' = if decide (t = t') then pc else pc_of c t'.
Proof.
  unfold pc_of, cf_move; cbn. rewrite lookup_insert. by destruct (decide (t = t')).
Qed.

(** A check still pending before a step of a thread that was not in a check. *)
Lemma pending_move c t pc s h r :
  pc_of c t <> PcFreeCheck -> pc_of c t <> PcRetireCheck ->
  pending c -> pending (cf_move c t pc s h r).
Proof.
  intros Hf Hr [t' Ht']. exists t'. rewrite pc_of_move. destruct (decide (t = t')) as [<- |]; [| done].
  by destruct Ht'.
Qed.

(** A full mask is not the result of taking a slot. *)
Lemma take_slot_not_full mask held : mask_ok mask held -> mask <> 0 ->
  take_slot mask (trailing_zeros U64 mask) <> U64_MAX.
Proof.
  intros Hm Hne E. destruct (trailing_zeros_slot _ _ Hm Hne) as (_ & _ & Hm').
  pose proof (proj1 (mask_ok_full _ _ Hm') E). set_solver.
Qed.

Lemma sb_inv_step c c' : sb_inv c -> sb_step c c' -> sb_inv c'.
Proof.
  intros [Hm Hc Hr] Hs.
  inversion Hs as [? t Hp | ? t old idx Hp Ho Hi | ? t old Hp | ? t idx Hp Hin | ? t Hp
                  | ? t Hp Ha | ? t Hp]; subst; split; cbn [cf_sb cf_held cf_move cf_returns
    sb_free_mask sb_is_active]; try done.
  all: try (intros t' o; rewrite pc_of_move; destruct (decide (t = t')); [| by apply Hc]).
  - destruct (Z.eqb_spec (sb_free_mask (cf_sb c)) 0); naive_solver.
  - intros Ha Hf. destruct (Hr Ha Hf) as [? | ?]; [by left | right].
    apply pending_move; congruence.
  - apply trailing_zeros_slot; [done |]. by eapply Hc.
  - done.
  - intros _ Hf. exfalso. eapply take_slot_not_full; [exact Hm | by eapply Hc | done].
  - destruct (Z.eqb_spec (sb_free_mask (cf_sb c)) 0); naive_solver.
  - intros Ha Hf. destruct (Hr Ha Hf) as [? | ?]; [by left | right].
    apply pending_move; congruence.
  - by apply mask_ok_free.
  - destruct (_ =? _); done.
  - intros Ha Hf. rewrite Hf. right. exists t. rewrite pc_of_move, decide_True by done. by left.
  - done.
  - intros Ha Hf. rewrite Ha. left. cbn. lia.
  - done.
  - intros _ Hf. right. exists t. rewrite pc_of_move, decide_True by done. by right.
  - done.
  - intros Ha Hf. rewrite Hf, Z.eqb_refl. left. lia.
Qed.

Lemma sb_reach_inv c : sb_reach c -> sb_inv c.
Proof.
  induction 1 as [| c c' _ IH Hs]; [| by eapply sb_inv_step].
  split; cbn; [exact mask_ok_init | done | done].
Qed.

(** ** Properties *)

(** No slot is handed out twice: whatever the interleaving, a successful
    compare-and-exchange of [alloc_one] returns one of the 64 slots, and one
    that no thread holds. *)
Theorem superblock_alloc_exclusive (c : sb_config) (t : nat) (old : Z)
    (Hreach : sb_reach c) (Hpc : pc_of c t = PcAllocCas old)
    (Hcas : sb_free_mask (cf_sb c) = old) :
  0 <= trailing_zeros U64 old < 64 /\ trailing_zeros U64 old ∉ cf_held c.
Proof.
  destruct (sb_reach_inv _ Hreach) as [Hm Hc _]. subst old.
  destruct (trailing_zeros_slot _ _ Hm) as (? & ? & _); [by eapply Hc | done].
Qed.

(** No superblock is lost: once it is inactive, every slot has been freed and no
    thread is inside a check, some operation has returned [true], so that the
    superblock goes back to the buddy allocator. *)
Theorem superblock_never_lost (c : sb_config) (Hreach : sb_reach c)
    (Hinactive : sb_is_active (cf_sb c) = false) (Hfreed : cf_held c = ∅)
    (Hquiet : forall t, pc_of c t <> PcFreeCheck /\ pc_of c t <> PcRetireCheck) :
  (0 < cf_returns c)%nat.
Proof.
  destruct (sb_reach_inv _ Hreach) as [Hm _ Hr].
  destruct (Hr Hinactive) as [? | [t Ht]]; [by eapply mask_ok_full | done |].
  destruct (Hquiet t). naive_solver.
Qed.

(** The interleaving of one freeing and one retiring thread: thread 1 allocates slot 0,
    thread 2 frees it and sees the full mask, thread 1 retires the superblock
    and sees the full mask, thread 2 sees it inactive. *)
Definition race (n : nat) : sb_config :=
  let c1 := cf_move cf_start 1 (PcAllocCas U64_MAX) (cf_sb cf_start) ∅ false in
  let c2 := cf_move c1 1 PcIdle (mkSb (take_slot U64_MAX 0) true) {[0]} false in
  let c3 := cf_move c2 2 PcFreeCheck (mkSb U64_MAX true) ∅ false in
  let c4 := cf_move c3 1 PcRetireCheck (mkSb U64_MAX false) ∅ false in
  let c5 := cf_move c4 1 PcIdle (mkSb U64_MAX false) ∅ true in
  let c6 := cf_move c5 2 PcIdle (mkSb U64_MAX false) ∅ true in
  match n with 0 => cf_start | 1 => c1 | 2 => c2 | 3 => c3 | 4 => c4 | 5 => c5 | _ => c6 end%nat.

Lemma race_reach : sb_reach (race 6).
Proof.
  assert (R1 : sb_reach (race 1)).
  { eapply sb_reach_step; [apply sb_reach_start |]. exact (step_alloc_load cf_start 1 eq_refl). }
  assert (R2 : sb_reach (race 2)).
  { eapply sb_reach_step; [exact R1 |].
    exact (step_alloc_cas_ok (race 1) 1 U64_MAX 0 eq_refl eq_refl eq_refl). }
  assert (R3 : sb_reach (race 3)).
  { eapply sb_reach_step; [exact R2 |].
    assert (Hin : 0 ∈ cf_held (race 2)) by (cbn; set_solver).
    pose proof (step_free_or (race 2) 2 0 eq_refl Hin) as Hs. vm_compute in Hs |- *. exact Hs. }
  assert (R4 : sb_reach (race 4)).
  { eapply sb_reach_step; [exact R3 |]. exact (step_retire_store (race 3) 1 eq_refl eq_refl). }
  assert (R5 : sb_reach (race 5)).
  { eapply sb_reach_step; [exact R4 |]. exact (step_retire_check (race 4) 1 eq_refl). }
  eapply sb_reach_step; [exact R5 |]. exact (step_free_check (race 5) 2 eq_refl).
Qed.

(** The superblock can be reported eligible for return twice: there is an
    execution in which both the thread that frees the last slot and the thread
    that retires the superblock get [true], so that both give it back to the
    buddy allocator. *)
Theorem superblock_returned_twice :
  exists c, sb_reach c /\ (forall t, pc_of c t = PcIdle) /\ cf_returns c = 2%nat.
Proof.
  exists (race 6). split; [exact race_reach |]. split; [| reflexivity]. intros t. unfold race.
  rewrite !pc_of_move. repeat destruct (decide _); reflexivity.
Qed.

(** Without interference, [alloc_one] hands out the lowest free slot of a
    non-empty superblock and [free_one] of that slot restores the mask, reporting the
    superblock eligible exactly when it became full while inactive. *)
Theorem superblock_alloc_free (s : SuperblockState) (held : gset Z)
    (Hm : mask_ok (sb_free_mask s) held) (Hne : sb_free_mask s <> 0) :
  exists s' idx, alloc_one s = (s', Some idx) /\ idx ∉ held /\ 0 <= idx < 64 /\
    (forall j, 0 <= j < idx -> j ∈ held) /\
    mask_ok (sb_free_mask s') ({[idx]} ∪ held) /\
    free_one s' idx = (s, bool_decide (held = ∅) && negb (sb_is_active s)).
Proof.
  destruct (trailing_zeros_slot _ _ Hm Hne) as (Hi & Hnh & Hm').
  destruct (trailing_zeros_spec U64 (sb_free_mask s)) as (_ & Hbit & Hlow).
  { destruct Hm as (? & _). lia. }
  unfold alloc_one. destruct (Z.eqb_spec (sb_free_mask s) 0) as [? | _]; [done |].
  do 2 eexists. split; [reflexivity |]. split_and!; try done; try lia.
  - intros j Hj. destruct (decide (j ∈ held)) as [| Hn]; [done |]. exfalso.
    apply Hm in Hn; [| lia]. rewrite Hlow in Hn by done. done.
  - unfold free_one. cbn [sb_free_mask sb_is_active]. pose proof (proj1 Hm) as Hmr.
    assert (E : Z.lor (take_slot (sb_free_mask s) (trailing_zeros U64 (sb_free_mask s)))
                  (Z.shiftl 1 (trailing_zeros U64 (sb_free_mask s))) = sb_free_mask s).
    { apply Z.bits_inj'. intros j Hj. unfold take_slot. rewrite Z.shiftl_1_l.
      rewrite testbit_setbit, testbit_clearbit by first [exact Hi | exact Hmr | lia].
      destruct (Z.eqb_spec (trailing_zeros U64 (sb_free_mask s)) j) as [<- |].
      - by rewrite Hbit.
      - by rewrite andb_true_r, orb_false_r. }
    rewrite E. destruct s as [mask act]. cbn in *. f_equal.
    pose proof (mask_ok_full _ _ Hm). case_ltb; case_bool_decide; cbn; naive_solver.
Qed.

Lemma superblock_alloc_exclusive_witness : trailing_zeros U64 U64_MAX ∉ cf_held (race 1).
Proof.
  apply (superblock_alloc_exclusive (race 1) 1 U64_MAX).
  - eapply sb_reach_step; [apply sb_reach_start |]. exact (step_alloc_load cf_start 1 eq_refl).
  - reflexivity.
  - reflexivity.
Defined.

Lemma superblock_never_lost_witness : (0 < cf_returns (race 6))%nat.
Proof.
  apply (superblock_never_lost (race 6)).
  - exact race_reach.
  - reflexivity.
  - reflexivity.
  - intros t. unfold race. rewrite !pc_of_move. repeat destruct (decide _); split; discriminate.
Defined.

Lemma superblock_alloc_free_witness :
  exists s' idx, alloc_one (sb_init sb_new) = (s', Some idx) /\ 0 <= idx < 64.
Proof.
  destruct (superblock_alloc_free (sb_init sb_new) ∅) as (s' & idx & E & _ & Hi & _).
  - exact mask_ok_init.
  - discriminate.
  - exists s', idx. split; [exact E | exact Hi].
Defined.
