(* ===== verification/SlotMap.v ===== *)
(** * The [slotmap] crate, as the timer wheel uses it

    [slotmap::SlotMap] is a third-party container; the wheel is proved against
    this interface.  [SlotMap] lists the methods the wheel calls ([sm_len] is
    only the fuel of loops that visit entries), [SlotMapSpec] the behaviour
    the crate documents: a key returned by [insert] refers to the inserted
    value until it is removed, and a key is never issued again, since it
    carries the version of its slot.  [CounterMap] is a concrete instance that
    shows the interface can be met. *)

From S2P Require Import Prelude.

Class SlotMap (K V M : Type) := {
  sm_new : M;
  sm_insert : M -> V -> M * K;
  sm_get : M -> K -> option V;
  sm_update : (V -> V) -> M -> K -> M;  (* a write through [get_mut] *)
  sm_remove : M -> K -> M * option V;
  sm_is_empty : M -> bool;
  sm_len : M -> nat
}.

Class SlotMapSpec (K V M : Type) `{Countable K} `{!SlotMap K V M} := {
  sm_map : M -> gmap K V;
  sm_issued : M -> gset K;
  sm_new_spec : sm_map sm_new = ∅ /\ sm_issued sm_new = ∅;
  sm_dom_issued : forall s, dom (sm_map s) ⊆ sm_issued s;
  sm_insert_spec : forall s v s' k, sm_insert s v = (s', k) ->
    k ∉ sm_issued s /\ sm_map s' = <[k := v]> (sm_map s) /\
    sm_issued s' = {[k]} ∪ sm_issued s;
  sm_get_spec : forall s k, sm_get s k = sm_map s !! k;
  sm_update_spec : forall f s k,
    sm_map (sm_update f s k) = alter f k (sm_map s) /\ sm_issued (sm_update f s k) = sm_issued s;
  sm_remove_spec : forall s k s' o, sm_remove s k = (s', o) ->
    o = sm_map s !! k /\ sm_map s' = delete k (sm_map s) /\ sm_issued s' = sm_issued s;
  sm_is_empty_spec : forall s, sm_is_empty s = bool_decide (sm_map s = ∅);
  sm_len_spec : forall s, sm_len s = size (sm_map s)
}.

(** ** A concrete slot map: keys count up and are never reused *)

Record CounterMap (V : Type) : Type := mkCounter { cm_next : nat; cm_map : gmap nat V }.
Arguments mkCounter {V} _ _.
Arguments cm_next {V} _.
Arguments cm_map {V} _.

(** Entries at keys the counter has not reached do not exist. *)
Definition cm_clip {V} (n : nat) (m : gmap nat V) : gmap nat V :=
  filter (fun kv : nat * V => (kv.1 < n)%nat) m.

#[export] Instance counter_slot_map (V : Type) : SlotMap nat V (CounterMap V) := {
  sm_new := mkCounter 0 ∅;
  sm_insert s v := (mkCounter (S (cm_next s)) (<[cm_next s := v]> (cm_map s)), cm_next s);
  sm_get s k := cm_clip (cm_next s) (cm_map s) !! k;
  sm_update f s k := mkCounter (cm_next s) (alter f k (cm_map s));
  sm_remove s k :=
    (mkCounter (cm_next s) (delete k (cm_map s)), cm_clip (cm_next s) (cm_map s) !! k);
  sm_is_empty s := bool_decide (cm_clip (cm_next s) (cm_map s) = ∅);
  sm_len s := size (cm_clip (cm_next s) (cm_map s))
}.

Lemma cm_clip_lookup {V} n (m : gmap nat V) k :
  cm_clip n m !! k = if decide (k < n)%nat then m !! k else None.
Proof.
  unfold cm_clip. destruct (decide (k < n)%nat) as [Hk | Hk].
  - destruct (m !! k) as [v |] eqn:E.
    + by apply map_lookup_filter_Some.
    + apply map_lookup_filter_None. by left.
  - apply map_lookup_filter_None. right. intros v _. done.
Qed.

#[export] Instance counter_slot_map_spec (V : Type) : SlotMapSpec nat V (CounterMap V).
Proof.
  refine {| sm_map s := cm_clip (cm_next s) (cm_map s);
            sm_issued s := set_seq 0 (cm_next s) |}; cbn.
  - split; [| done]. apply map_eq. intros k. by rewrite cm_clip_lookup, decide_False by lia.
  - intros s k [v Hv]%elem_of_dom. rewrite cm_clip_lookup in Hv.
    destruct (decide _); [| done]. apply elem_of_set_seq. lia.
  - intros s v s' k [= <- <-]. cbn [cm_next cm_map].
    split_and!; [rewrite elem_of_set_seq; lia | | by rewrite set_seq_S_end_union_L].
    apply map_eq. intros k. rewrite lookup_insert, !cm_clip_lookup, lookup_insert.
    repeat destruct (decide _); done || lia.
  - done.
  - intros f s k. cbn. split; [| done]. apply map_eq. intros j.
    rewrite cm_clip_lookup, !lookup_alter, !cm_clip_lookup.
    repeat destruct (decide _); subst; done.
  - intros s k s' o [= <- <-]. cbn. split_and!; [done | | done]. apply map_eq. intros j.
    rewrite cm_clip_lookup, !lookup_delete, cm_clip_lookup. repeat destruct (decide _); done.
  - done.
  - done.
Defined.
