(* ===== verification/WheelConfig.v ===== *)
(** * Configuration of the timer wheel

    Models [config.rs] of [veloq-wheel]: the configuration, its builder, the
    validation done by [build] and the text of its errors.  A
    [std::time::Duration] is its number of nanoseconds. *)

From stdpp Require Import strings pretty.
From S2P Require Import Prelude.

(** ** [Duration] *)

Definition Duration : Type := Z.
Definition NANOS_PER_MILLI : Z := 1000000.
Definition from_millis (ms : Z) : Duration := ms * NANOS_PER_MILLI.
Definition from_secs (s : Z) : Duration := s * 1000 * NANOS_PER_MILLI.
(** [d.as_millis() as u64]: the [u128] quotient, truncated to 64 bits. *)
Definition as_millis_u64 (d : Duration) : Z := wrap U64 (d / NANOS_PER_MILLI).
Definition duration_is_zero (d : Duration) : bool := d =? 0.

(** ** Data *)

Record WheelConfig : Type := mkWheelConfig {
  l0_tick_duration : Duration;
  l0_slot_count : Z;
  l1_tick_duration : Duration;
  l1_slot_count : Z
}.

Definition wheel_config_default : WheelConfig :=
  mkWheelConfig (from_millis 10) 512 (from_secs 1) 64.

Record WheelConfigBuilder : Type := mkBuilder {
  b_l0_tick_duration : Duration;
  b_l0_slot_count : Z;
  b_l1_tick_duration : Duration;
  b_l1_slot_count : Z
}.

Definition builder_default : WheelConfigBuilder :=
  mkBuilder (from_millis 10) 512 (from_secs 1) 64.

Definition builder : WheelConfigBuilder := builder_default.

Definition with_l0_tick_duration (b : WheelConfigBuilder) (d : Duration) : WheelConfigBuilder :=
  mkBuilder d (b_l0_slot_count b) (b_l1_tick_duration b) (b_l1_slot_count b).
Definition with_l0_slot_count (b : WheelConfigBuilder) (n : Z) : WheelConfigBuilder :=
  mkBuilder (b_l0_tick_duration b) n (b_l1_tick_duration b) (b_l1_slot_count b).
Definition with_l1_tick_duration (b : WheelConfigBuilder) (d : Duration) : WheelConfigBuilder :=
  mkBuilder (b_l0_tick_duration b) (b_l0_slot_count b) d (b_l1_slot_count b).
Definition with_l1_slot_count (b : WheelConfigBuilder) (n : Z) : WheelConfigBuilder :=
  mkBuilder (b_l0_tick_duration b) (b_l0_slot_count b) (b_l1_tick_duration b) n.

Inductive ConfigError : Type :=
  | InvalidSlotCount (slot_count : Z) (reason : string)
  | InvalidConfiguration (field reason : string).

#[global] Instance config_error_eq_dec : EqDecision ConfigError.
Proof. solve_decision. Defined.

(** [impl Display for ConfigError]. *)
Definition config_error_display (e : ConfigError) : string :=
  match e with
  | InvalidSlotCount n reason =>
      "Invalid slot count " +:+ pretty n +:+ ": " +:+ reason +:+
      " (无效的槽位数 " +:+ pretty n +:+ ": " +:+ reason +:+ ")"
  | InvalidConfiguration field reason =>
      "Configuration validation failed (" +:+ field +:+ "): " +:+ reason +:+
      " (配置验证失败 (" +:+ field +:+ "): " +:+ reason +:+ ")"
  end.

(** ** [WheelConfigBuilder::build] *)

Definition build (b : WheelConfigBuilder) : result WheelConfig ConfigError :=
  if duration_is_zero (b_l0_tick_duration b) then
    Err (InvalidConfiguration "l0_tick_duration" "L0 layer tick duration must be greater than 0")
  else if b_l0_slot_count b =? 0 then
    Err (InvalidSlotCount (b_l0_slot_count b) "L0 layer slot count must be greater than 0")
  else if negb (is_power_of_two (b_l0_slot_count b)) then
    Err (InvalidSlotCount (b_l0_slot_count b) "L0 layer slot count must be power of 2")
  else if duration_is_zero (b_l1_tick_duration b) then
    Err (InvalidConfiguration "l1_tick_duration" "L1 layer tick duration must be greater than 0")
  else if b_l1_slot_count b =? 0 then
    Err (InvalidSlotCount (b_l1_slot_count b) "L1 layer slot count must be greater than 0")
  else if negb (is_power_of_two (b_l1_slot_count b)) then
    Err (InvalidSlotCount (b_l1_slot_count b) "L1 layer slot count must be power of 2")
  else
    let l0_ms := as_millis_u64 (b_l0_tick_duration b) in
    let l1_ms := as_millis_u64 (b_l1_tick_duration b) in
    if negb (is_multiple_of l1_ms l0_ms) then
      Err (InvalidConfiguration "l1_tick_duration"
        ("L1 tick duration (" +:+ pretty l1_ms +:+
         " ms) must be an integer multiple of L0 tick duration (" +:+ pretty l0_ms +:+ " ms)"))
    else
      Ok (mkWheelConfig (b_l0_tick_duration b) (b_l0_slot_count b)
            (b_l1_tick_duration b) (b_l1_slot_count b)).

(** ** What [build] accepts *)

(** The rules its documentation lists, on the values in milliseconds. *)
Definition documented_valid (b : WheelConfigBuilder) : Prop :=
  b_l0_tick_duration b <> 0 /\ b_l1_tick_duration b <> 0 /\
  (exists a, 0 <= a /\ b_l0_slot_count b = 2 ^ a) /\
  (exists a, 0 <= a /\ b_l1_slot_count b = 2 ^ a) /\
  exists q, as_millis_u64 (b_l1_tick_duration b) = q * as_millis_u64 (b_l0_tick_duration b).

Lemma as_millis_nonneg d : 0 <= as_millis_u64 d < 2 ^ U64.
Proof. apply Z.mod_pos_bound. done. Qed.

Lemma is_multiple_of_spec a b : is_multiple_of a b = true <-> exists q, a = q * b.
Proof.
  unfold is_multiple_of. case_ltb.
  - subst. rewrite Z.eqb_eq. split; [intros ->; by exists 0 | intros (q & ->); lia].
  - rewrite Z.eqb_eq, Z.mod_divide by done. done.
Qed.

(** The builder accepts exactly the configurations its documentation
    describes, and returns the fields unchanged. *)
Theorem wheel_build_valid b c :
  build b = Ok c <->
  documented_valid b /\
  c = mkWheelConfig (b_l0_tick_duration b) (b_l0_slot_count b)
        (b_l1_tick_duration b) (b_l1_slot_count b).
Proof.
  unfold build, documented_valid, duration_is_zero.
  rewrite <- !is_power_of_two_spec, <- is_multiple_of_spec.
  destruct (Z.eqb_spec (b_l0_slot_count b) 0) as [E0 | _]; [rewrite E0; case_ltb; naive_solver |].
  destruct (Z.eqb_spec (b_l1_slot_count b) 0) as [E1 | _];
    [rewrite E1; repeat case_ltb; destruct (is_power_of_two _); naive_solver |].
  repeat case_ltb; destruct (is_power_of_two (b_l0_slot_count b)),
    (is_power_of_two (b_l1_slot_count b)), (is_multiple_of _ _); naive_solver.
Qed.
