(* ===== verification/Wheel.v ===== *)
(** * The hierarchical timer wheel

    Models [wheel.rs] and [task.rs] of [veloq-wheel]: a two-level wheel whose
    slots are singly linked lists threaded through the entries of a slot map.
    Operations return an [outcome]: an index out of range, a division by zero,
    an arithmetic overflow or a failed [expect] is a fault.

    The loops that follow a list or count ticks take fuel: [drain_list] and
    [cascade_list] the number of entries of the slot map (a list visits an
    entry at most once), [advance] the number of ticks (every iteration
    advances by at least one).  The theorems show it never runs out. *)

From Stdlib Require Import Sorting.Sorted.
From S2P Require Import Prelude SlotMap WheelConfig.

(** ** Data *)

Record WheelEntry (T K : Type) : Type := mkEntry {
  item : option T;        (* [None]: cancelled *)
  deadline : Z;           (* u64 *)
  next : option K;
  level : Z;              (* u8 *)
  slot_index : Z          (* u32 *)
}.
Arguments mkEntry {T K} _ _ _ _ _.
Arguments item {T K} _.
Arguments deadline {T K} _.
Arguments next {T K} _.
Arguments level {T K} _.
Arguments slot_index {T K} _.

Record Level (K : Type) : Type := mkLevel { slots : list (option K); mask : Z }.
Arguments mkLevel {K} _ _.
Arguments slots {K} _.
Arguments mask {K} _.

Record Wheel (K M : Type) : Type := mkWheel {
  tasks : M;
  levels : list (Level K);
  global_tick : Z;
  tick_duration_ms : Z;
  l1_tick_ratio : Z;
  l0_capacity_ticks : Z
}.
Arguments mkWheel {K M} _ _ _ _ _ _.
Arguments tasks {K M} _.
Arguments levels {K M} _.
Arguments global_tick {K M} _.
Arguments tick_duration_ms {K M} _.
Arguments l1_tick_ratio {K M} _.
Arguments l0_capacity_ticks {K M} _.

(** Assignments to fields. *)
Definition set_tasks {K M} (w : Wheel K M) (m : M) : Wheel K M :=
  mkWheel m (levels w) (global_tick w) (tick_duration_ms w) (l1_tick_ratio w)
    (l0_capacity_ticks w).
Definition set_levels {K M} (w : Wheel K M) (ls : list (Level K)) : Wheel K M :=
  mkWheel (tasks w) ls (global_tick w) (tick_duration_ms w) (l1_tick_ratio w)
    (l0_capacity_ticks w).
Definition set_global_tick {K M} (w : Wheel K M) (t : Z) : Wheel K M :=
  mkWheel (tasks w) (levels w) t (tick_duration_ms w) (l1_tick_ratio w) (l0_capacity_ticks w).
Definition take_item {T K} (e : WheelEntry T K) : WheelEntry T K :=
  mkEntry None (deadline e) (next e) (level e) (slot_index e).
Definition relocate {T K} (nx : option K) (lv si : Z) (e : WheelEntry T K) : WheelEntry T K :=
  mkEntry (item e) (deadline e) nx (wrap U8 lv) (wrap U32 si).

(** [TaskId], a newtype of the key. *)
Definition TaskId (K : Type) : Type := K.
Definition task_id_from_key {K} (key : K) : TaskId K := key.
Definition task_id_key {K} (id : TaskId K) : K := id.

(** ** Operations *)

Definition level_new {K} (slot_count : Z) : outcome (Level K) :=
  m ← arith USIZE_BITS (slot_count - 1);
  Ret (mkLevel (replicate (Z.to_nat slot_count) None) m).

Section Operations.
Context {T K M : Type} `{!SlotMap K (WheelEntry T K) M}.

Definition wheel_new (config : WheelConfig) : outcome (Wheel K M) :=
  l0 ← level_new (l0_slot_count config);
  l1 ← level_new (l1_slot_count config);
  let tick_duration_ms := Z.max (as_millis_u64 (l0_tick_duration config)) 1 in
  let l1_ms := as_millis_u64 (l1_tick_duration config) in
  ratio ← quot l1_ms tick_duration_ms;
  Ret (mkWheel sm_new [l0; l1] 0 tick_duration_ms ratio (l0_slot_count config)).

Definition delay_to_ticks (w : Wheel K M) (delay : Duration) : outcome Z :=
  let ms := as_millis_u64 delay in
  quot ms (tick_duration_ms w).

Definition determine_location (w : Wheel K M) (deadline : Z) : outcome (Z * Z) :=
  let remaining := wrapping_sub U64 deadline (global_tick w) in
  if remaining <? l0_capacity_ticks w then
    l0 ← vec_get (levels w) 0;
    Ret (0, Z.land deadline (mask l0))
  else
    l1_tick ← quot deadline (l1_tick_ratio w);
    l1 ← vec_get (levels w) 1;
    Ret (1, Z.land l1_tick (mask l1)).

(** [self.levels[level].slots[idx] = x] *)
Definition set_slot (w : Wheel K M) (level idx : Z) (x : option K) : outcome (Wheel K M) :=
  lv ← vec_get (levels w) level;
  ss ← vec_set (slots lv) idx x;
  ls ← vec_set (levels w) level (mkLevel ss (mask lv));
  Ret (set_levels w ls).

Definition get_slot (w : Wheel K M) (level idx : Z) : outcome (option K) :=
  lv ← vec_get (levels w) level; vec_get (slots lv) idx.

Definition link (w : Wheel K M) (key : K) (level slot_index : Z) : outcome (Wheel K M) :=
  old_head ← get_slot w level slot_index;
  let w := set_tasks w (sm_update (relocate old_head level slot_index) (tasks w) key) in
  set_slot w level slot_index (Some key).

Definition insert (w : Wheel K M) (x : T) (delay : Duration) : outcome (Wheel K M * TaskId K) :=
  t ← delay_to_ticks w delay;
  let ticks := Z.max t 1 in
  let deadline := wrapping_add U64 (global_tick w) ticks in
  loc ← determine_location w deadline;
  let '(level, slot_index) := loc in
  let (m, key) :=
    sm_insert (tasks w) (mkEntry (Some x) deadline None (wrap U8 level) (wrap U32 slot_index)) in
  w ← link (set_tasks w m) key level slot_index;
  Ret (w, task_id_from_key key).

Definition cancel (w : Wheel K M) (id : TaskId K) : Wheel K M * option T :=
  let key := task_id_key id in
  match sm_get (tasks w) key with
  | Some entry => (set_tasks w (sm_update take_item (tasks w) key), item entry)
  | None => (w, None)
  end.

(** [expired.push] of an item that was not cancelled. *)
Definition push_item (o : option T) (expired : list T) : list T :=
  match o with Some x => expired ++ [x] | None => expired end.

Fixpoint drain_loop (fuel : nat) (m : M) (current : option K) (expired : list T)
    : outcome (M * list T) :=
  match current with
  | None => Ret (m, expired)
  | Some key =>
      match fuel with
      | O => Fault OutOfFuel
      | S fuel =>
          let (m, r) := sm_remove m key in
          match r with
          | Some entry => drain_loop fuel m (next entry) (push_item (item entry) expired)
          | None => Ret (m, expired)
          end
      end
  end.

Definition drain_list (m : M) (head : K) (expired : list T) : outcome (M * list T) :=
  drain_loop (sm_len m) m (Some head) expired.

Fixpoint cascade_loop (fuel : nat) (w : Wheel K M) (current : option K) (expired : list T)
    : outcome (Wheel K M * list T) :=
  match current with
  | None => Ret (w, expired)
  | Some curr_key =>
      match fuel with
      | O => Fault OutOfFuel
      | S fuel =>
          entry ← expect (sm_get (tasks w) curr_key);
          let next_key := next entry in
          let deadline := deadline entry in
          match item entry with
          | None =>
              let (m, _) := sm_remove (tasks w) curr_key in
              cascade_loop fuel (set_tasks w m) next_key expired
          | Some _ =>
              if deadline <=? global_tick w then
                let (m, r) := sm_remove (tasks w) curr_key in
                let expired :=
                  match r with Some e => push_item (item e) expired | None => expired end in
                cascade_loop fuel (set_tasks w m) next_key expired
              else
                loc ← determine_location w deadline;
                let '(new_level, new_slot) := loc in
                w ← link w curr_key new_level new_slot;
                cascade_loop fuel w next_key expired
          end
      end
  end.

Definition cascade_list (w : Wheel K M) (head : K) (expired : list T)
    : outcome (Wheel K M * list T) :=
  cascade_loop (sm_len (tasks w)) w (Some head) expired.

(** [if let Some(head) = slot.take() { drain_list(tasks, head, expired) }] *)
Definition drain_head (m : M) (slot : option K) (expired : list T) : outcome (M * list T) :=
  match slot with Some head => drain_list m head expired | None => Ret (m, expired) end.

(** The branch that covers all of L0: every slot in turn is emptied. *)
Fixpoint drain_all (m : M) (ss : list (option K)) (expired : list T) : outcome (M * list T) :=
  match ss with
  | [] => Ret (m, expired)
  | s :: ss =>
      r ← drain_head m s expired;
      drain_all r.1 ss r.2
  end.

(** [for i in i..=step]: [n] iterations left. *)
Fixpoint drain_ticks (n : nat) (i : Z) (w : Wheel K M) (expired : list T)
    : outcome (Wheel K M * list T) :=
  match n with
  | O => Ret (w, expired)
  | S n =>
      let target_tick := wrapping_add U64 (global_tick w) i in
      l0 ← vec_get (levels w) 0;
      let idx := Z.land target_tick (mask l0) in
      head ← get_slot w 0 idx;
      w ← set_slot w 0 idx None;
      r ← drain_head (tasks w) head expired;
      drain_ticks n (i + 1) (set_tasks w r.1) r.2
  end.

(** The slots of L0 a step covers. *)
Definition drain_step (w : Wheel K M) (step : Z) (expired : list T)
    : outcome (Wheel K M * list T) :=
  if l0_capacity_ticks w <=? step then
    l0 ← vec_get (levels w) 0;
    r ← drain_all (tasks w) (slots l0) expired;
    ls ← vec_set (levels w) 0 (mkLevel ((fun _ => None) <$> slots l0) (mask l0));
    Ret (set_levels (set_tasks w r.1) ls, r.2)
  else drain_ticks (Z.to_nat step) 1 w expired.

(** The cascade of an L1 slot when the tick is a multiple of the ratio. *)
Definition cascade_step (w : Wheel K M) (expired : list T) : outcome (Wheel K M * list T) :=
  if is_multiple_of (global_tick w) (l1_tick_ratio w) then
    l1_tick ← quot (global_tick w) (l1_tick_ratio w);
    l1 ← vec_get (levels w) 1;
    let l1_idx := Z.land l1_tick (mask l1) in
    head ← get_slot w 1 l1_idx;
    w ← set_slot w 1 l1_idx None;
    match head with
    | Some head => cascade_list w head expired
    | None => Ret (w, expired)
    end
  else Ret (w, expired).

Fixpoint advance_loop (fuel : nat) (w : Wheel K M) (remaining_ticks : Z) (expired : list T)
    : outcome (Wheel K M * list T) :=
  if 0 <? remaining_ticks then
    match fuel with
    | O => Fault OutOfFuel
    | S fuel =>
        current_mod ← rem (global_tick w) (l1_tick_ratio w);
        ticks_to_cascade ← arith U64 (l1_tick_ratio w - current_mod);
        let step := Z.min remaining_ticks ticks_to_cascade in
        r ← drain_step w step expired;
        let w := set_global_tick r.1 (wrapping_add U64 (global_tick r.1) step) in
        remaining_ticks ← arith U64 (remaining_ticks - step);
        r ← cascade_step w r.2;
        advance_loop fuel r.1 remaining_ticks r.2
    end
  else Ret (w, expired).

Definition advance (w : Wheel K M) (elapsed : Duration) (expired : list T)
    : outcome (Wheel K M * list T) :=
  ticks ← delay_to_ticks w elapsed;
  if ticks =? 0 then Ret (w, expired) else advance_loop (Z.to_nat ticks) w ticks expired.

Definition tick_duration (w : Wheel K M) : Duration := from_millis (tick_duration_ms w).

(** [for i in i..len]: the first occupied slot counted from [start]. *)
Fixpoint scan_slots (n : nat) (i start : Z) (lv : Level K) : outcome (option (Z * Z)) :=
  match n with
  | O => Ret None
  | S n =>
      s ← arith USIZE_BITS (start + i);
      let idx := Z.land s (mask lv) in
      o ← vec_get (slots lv) idx;
      match o with
      | Some _ => Ret (Some (i, idx))
      | None => scan_slots n (i + 1) start lv
      end
  end.

Definition next_timeout (w : Wheel K M) : outcome (option Duration) :=
  if sm_is_empty (tasks w) then Ret None else
  l0 ← vec_get (levels w) 0;
  let l0_start := Z.land (global_tick w) (mask l0) in
  o ← scan_slots (length (slots l0)) 0 l0_start l0;
  match o with
  | Some (i, _) =>
      ms ← arith U64 (i * tick_duration_ms w);
      Ret (Some (from_millis ms))
  | None =>
      l1_tick ← quot (global_tick w) (l1_tick_ratio w);
      l1 ← vec_get (levels w) 1;
      let l1_start := Z.land l1_tick (mask l1) in
      let l1_len := Z.of_nat (length (slots l1)) in
      o ← scan_slots (length (slots l1)) 0 l1_start l1;
      match o with
      | Some (_, idx) =>
          let diff := Z.land (wrapping_sub USIZE_BITS idx l1_tick) (mask l1) in
          t0 ← arith U64 (l1_tick + diff);
          s0 ← arith U64 (t0 * l1_tick_ratio w);
          target_l1_tick ←
            (if s0 <=? global_tick w then arith U64 (t0 + l1_len) else Ret t0);
          slot_start_tick ← arith U64 (target_l1_tick * l1_tick_ratio w);
          let delay_ticks := saturating_sub slot_start_tick (global_tick w) in
          ms ← arith U64 (delay_ticks * tick_duration_ms w);
          Ret (Some (from_millis ms))
      | None =>
          ms ← arith U64 (l0_capacity_ticks w * tick_duration_ms w);
          Ret (Some (from_millis ms))
      end
  end.

End Operations.

(** ** Lists of entries *)

Section Invariant.
Context {T K M : Type} `{Countable K} `{!SlotMap K (WheelEntry T K) M}
  `{!SlotMapSpec K (WheelEntry T K) M}.

Implicit Types (E : gmap K (WheelEntry T K)) (e : WheelEntry T K) (R ks : list K)
  (w : Wheel K M) (m : M).

(** The list that starts at [h] visits exactly the keys [ks]. *)
Fixpoint chain E (h : option K) (ks : list K) : Prop :=
  match ks with
  | [] => h = None
  | k :: ks => h = Some k /\ exists e, E !! k = Some e /\ chain E (next e) ks
  end.

(** The list at [h] holds, once each, the entries that satisfy [P] and are not
    in flight ([R]: taken out of a slot and not yet relinked or removed). *)
Definition slot_ok E R (h : option K) (P : WheelEntry T K -> Prop) : Prop :=
  exists ks, NoDup ks /\ chain E h ks /\
    forall k, k ∈ ks <-> k ∉ R /\ exists e, E !! k = Some e /\ P e.

Lemma chain_ext E E' h ks :
  (forall k, k ∈ ks -> next <$> E !! k = next <$> E' !! k) -> chain E h ks -> chain E' h ks.
Proof.
  revert h. induction ks as [| k ks IH]; [done |]. intros h He (-> & e & Hk & Hc).
  split; [done |]. pose proof (He k ltac:(set_solver)) as Hn. rewrite Hk in Hn.
  destruct (E' !! k) as [e' |]; [| done]. exists e'. split; [done |].
  injection Hn as Hn. rewrite <- Hn. apply IH; [set_solver | done].
Qed.

Lemma chain_delete E h ks k : k ∉ ks -> chain E h ks -> chain (delete k E) h ks.
Proof. intros Hk. apply chain_ext. intros j Hj. rewrite lookup_delete_ne; set_solver. Qed.

Lemma chain_insert E h ks k e : k ∉ ks -> chain E h ks -> chain (<[k := e]> E) h ks.
Proof. intros Hk. apply chain_ext. intros j Hj. rewrite lookup_insert_ne; set_solver. Qed.

Lemma chain_dom E h ks k : chain E h ks -> k ∈ ks -> is_Some (E !! k).
Proof.
  revert h. induction ks as [| j ks IH]; [set_solver |]. intros h (-> & e & Hj & Hc) Hk.
  apply elem_of_cons in Hk as [-> | Hk]; [by exists e | by eapply IH].
Qed.

(** A list without repetitions is no longer than the map is large: the fuel
    of the list walks is enough. *)
Lemma chain_size E h ks : NoDup ks -> chain E h ks -> (length ks <= size E)%nat.
Proof.
  intros Hn Hc. rewrite <- (size_list_to_set (C := gset K)) by done. rewrite <- size_dom.
  apply subseteq_size. intros k Hk. apply elem_of_list_to_set in Hk.
  apply elem_of_dom. by eapply chain_dom.
Qed.

Lemma slot_ok_delete E R h P k : slot_ok E (k :: R) h P -> slot_ok (delete k E) R h P.
Proof.
  intros (ks & Hn & Hc & Hk). exists ks. split_and!; [done | |].
  - apply chain_delete; [| done]. rewrite Hk. set_solver.
  - intros j. rewrite Hk. destruct (decide (j = k)) as [-> | Hj].
    + rewrite lookup_delete_eq. set_solver.
    + rewrite lookup_delete_ne by done. set_solver.
Qed.

Lemma slot_ok_weaken E R h P k : E !! k = None -> slot_ok E R h P -> slot_ok E (k :: R) h P.
Proof.
  intros Hk (ks & Hn & Hc & Hks). exists ks. split_and!; [done | done |].
  intros j. rewrite Hks, not_elem_of_cons. naive_solver.
Qed.

(** A fresh entry, in flight. *)
Lemma slot_ok_weaken_insert E R h P k e :
  E !! k = None -> slot_ok E (k :: R) h P -> slot_ok (<[k := e]> E) (k :: R) h P.
Proof.
  intros Hk (ks & Hn & Hc & Hks). exists ks. split_and!; [done | |].
  - apply chain_insert; [rewrite Hks; set_solver | done].
  - intros j. rewrite Hks, not_elem_of_cons. destruct (decide (j = k)) as [-> | Hj].
    + naive_solver.
    + by rewrite lookup_insert_ne.
Qed.

Lemma slot_ok_link E R h P k e :
  k ∉ R -> P e -> next e = h -> slot_ok E (k :: R) h P -> slot_ok (<[k := e]> E) R (Some k) P.
Proof.
  intros HR HP Hn (ks & Hd & Hc & Hk).
  assert (k ∉ ks) by (rewrite Hk; set_solver).
  exists (k :: ks). split_and!; [by constructor | |].
  - split; [done |]. exists e. rewrite lookup_insert_eq. split; [done |].
    rewrite Hn. by apply chain_insert.
  - intros j. rewrite elem_of_cons, Hk, not_elem_of_cons.
    destruct (decide (j = k)) as [-> | Hj].
    + rewrite lookup_insert_eq. naive_solver.
    + rewrite lookup_insert_ne by done. naive_solver.
Qed.

Lemma slot_ok_other E R h P k e :
  ~ P e -> slot_ok E (k :: R) h P -> slot_ok (<[k := e]> E) R h P.
Proof.
  intros HP (ks & Hd & Hc & Hk).
  exists ks. split_and!; [done | |].
  - apply chain_insert; [rewrite Hk; set_solver | done].
  - intros j. rewrite Hk, not_elem_of_cons. destruct (decide (j = k)) as [-> | Hj].
    + rewrite lookup_insert_eq. naive_solver.
    + rewrite lookup_insert_ne by done. naive_solver.
Qed.

(** Taking the list of [P] out leaves the lists of other predicates intact. *)
Lemma slot_ok_others E P ks :
  (forall k, k ∈ ks <-> exists e, E !! k = Some e /\ P e) ->
  forall h' Q, (forall e, Q e -> ~ P e) -> slot_ok E [] h' Q -> slot_ok E ks h' Q.
Proof.
  intros Hks h' Q HQ (ks' & Hd & Hc & Hk). exists ks'. split_and!; [done | done |].
  intros k. rewrite Hk, Hks. split; [| set_solver].
  intros (_ & e & He & Hq). split; [| by exists e].
  intros (e' & He' & HP). rewrite He in He'. injection He' as <-. by apply (HQ e).
Qed.

Lemma slot_ok_alter E R h P k f :
  (forall e, next (f e) = next e) -> (forall e, P (f e) <-> P e) ->
  slot_ok E R h P -> slot_ok (alter f k E) R h P.
Proof.
  intros Hf HP (ks & Hd & Hc & Hk). exists ks. split_and!; [done | |].
  - revert Hc. apply chain_ext. intros j _. destruct (decide (j = k)) as [-> | Hj].
    + rewrite lookup_alter_eq. destruct (E !! k); [cbn; by rewrite Hf | done].
    + by rewrite lookup_alter_ne.
  - intros j. rewrite Hk. destruct (decide (j = k)) as [-> | Hj].
    + rewrite lookup_alter_eq. destruct (E !! k) as [e |]; cbn; [| naive_solver].
      split; intros (? & e' & [= <-] & ?); (split; [done |]); eexists; (split; [done |]);
        by apply HP.
    + by rewrite lookup_alter_ne.
Qed.

(** ** The wheel's invariant

    [cap] and [n1] are the slot counts of the levels, [ratio] the number of L0
    ticks in an L1 tick, [tick] the milliseconds of an L0 tick. *)

Section Geometry.
Variables (cap n1 ratio tick : Z).

Record geometry : Prop := {
  geo_cap : exists a, 0 <= a < 64 /\ cap = 2 ^ a;
  geo_n1 : exists b, 0 <= b < 64 /\ n1 = 2 ^ b;
  geo_ratio : 0 < ratio <= cap;
  geo_tick : 0 < tick
}.

(** The wheel whose levels have the slots [s0] and [s1]. *)
Definition mk m (gt : Z) (s0 s1 : list (option K)) : Wheel K M :=
  mkWheel m [mkLevel s0 (cap - 1); mkLevel s1 (n1 - 1)] gt tick ratio cap.

(** The slot a deadline belongs to at a level. *)
Definition slot_of (l d : Z) : Z := if l =? 0 then d mod cap else (d / ratio) mod n1.

Definition at_slot (l i : Z) e : Prop := level e = l /\ slot_of l (deadline e) = i.

(** An entry of L0 is due within a revolution of L0 after tick [g], an entry of
    L1 in an L1 tick after [c]. *)
Definition placed (g c : Z) e : Prop :=
  (level e = 0 /\ g < deadline e < g + cap) \/ (level e = 1 /\ c < deadline e / ratio).

Definition slots_ok E R (l : Z) (ss : list (option K)) : Prop :=
  forall i h, 0 <= i -> ss !! Z.to_nat i = Some h -> slot_ok E R h (at_slot l i).

Record winv (R : list K) E (g c : Z) (s0 s1 : list (option K)) : Prop := {
  wi_len0 : Z.of_nat (length s0) = cap;
  wi_len1 : Z.of_nat (length s1) = n1;
  wi_slots0 : slots_ok E R 0 s0;
  wi_slots1 : slots_ok E R 1 s1;
  wi_placed : forall k e, E !! k = Some e -> k ∉ R -> placed g c e;
  wi_deadline : forall k e, E !! k = Some e -> 0 <= deadline e < 2 ^ 64
}.

Hypothesis Hgeo : geometry.

Lemma cap_pos : 0 < cap.
Proof. destruct (geo_ratio Hgeo). lia. Qed.

Lemma n1_pos : 0 < n1.
Proof. destruct (geo_n1 Hgeo) as (b & ? & ->). apply pow2_pos. lia. Qed.

Lemma land_cap x : Z.land x (cap - 1) = x mod cap.
Proof. destruct (geo_cap Hgeo) as (a & ? & ->). apply land_mask. lia. Qed.

Lemma land_n1 x : Z.land x (n1 - 1) = x mod n1.
Proof. destruct (geo_n1 Hgeo) as (b & ? & ->). apply land_mask. lia. Qed.

Lemma slot_of_range l d :
  0 <= slot_of l d < (if l =? 0 then cap else n1).
Proof.
  unfold slot_of. pose proof cap_pos. pose proof n1_pos.
  destruct (l =? 0); apply Z.mod_pos_bound; lia.
Qed.

(** ** Preservation of the invariant by the elementary changes *)

Lemma winv_delete R E g c s0 s1 k :
  winv (k :: R) E g c s0 s1 -> winv R (delete k E) g c s0 s1.
Proof.
  intros []. split; [done | done | | | |].
  - intros i h Hi Hh. by apply slot_ok_delete, wi_slots2.
  - intros i h Hi Hh. by apply slot_ok_delete, wi_slots3.
  - intros j e [Hj He]%lookup_delete_Some HR. apply (wi_placed0 j); set_solver.
  - intros j e [_ He]%lookup_delete_Some. by apply (wi_deadline0 j).
Qed.

Lemma winv_weaken R E g c s0 s1 k :
  E !! k = None -> winv R E g c s0 s1 -> winv (k :: R) E g c s0 s1.
Proof.
  intros Hk []. split; [done | done | | | | done].
  - intros i h Hi Hh. by apply slot_ok_weaken, wi_slots2.
  - intros i h Hi Hh. by apply slot_ok_weaken, wi_slots3.
  - intros j e He HR. apply (wi_placed0 j); set_solver.
Qed.

Lemma winv_retick R E g c g' c' s0 s1 :
  winv R E g c s0 s1 ->
  (forall k e, E !! k = Some e -> k ∉ R -> placed g c e -> placed g' c' e) ->
  winv R E g' c' s0 s1.
Proof. intros [] Hp. split; try done. intros k e He HR. eauto. Qed.

(** Taking the list of a slot puts its entries in flight. *)
Lemma slots_ok_take E l i ks ss :
  (forall k, k ∈ ks <-> exists e, E !! k = Some e /\ at_slot l i e) ->
  0 <= i -> slots_ok E [] l ss -> slots_ok E ks l (<[Z.to_nat i := None]> ss).
Proof.
  intros Hks Hi Hs j h Hj Hh. destruct (decide (i = j)) as [<- | Hij].
  - apply list_lookup_insert_Some in Hh as [(_ & <- & _) | [? _]]; [| done].
    exists []. split_and!; [constructor | done |]. intros k. rewrite Hks. set_solver.
  - rewrite list_lookup_insert_ne in Hh by lia.
    apply (slot_ok_others _ _ _ Hks); [| by apply Hs].
    intros e (_ & ?) (_ & ?). lia.
Qed.

Lemma slots_ok_keep E l l' i ks ss :
  (forall k, k ∈ ks <-> exists e, E !! k = Some e /\ at_slot l i e) ->
  l <> l' -> slots_ok E [] l' ss -> slots_ok E ks l' ss.
Proof.
  intros Hks Hl Hs j h Hj Hh. apply (slot_ok_others _ _ _ Hks); [| by apply Hs].
  intros e (? & _) (? & _). lia.
Qed.

Lemma winv_take0 E g c s0 s1 i h :
  winv [] E g c s0 s1 -> 0 <= i -> s0 !! Z.to_nat i = Some h ->
  exists ks, NoDup ks /\ chain E h ks /\
    (forall k, k ∈ ks <-> exists e, E !! k = Some e /\ at_slot 0 i e) /\
    winv ks E g c (<[Z.to_nat i := None]> s0) s1.
Proof.
  intros [] Hi Hh. destruct (wi_slots2 i h Hi Hh) as (ks & Hn & Hc & Hk).
  assert (Hk' : forall k, k ∈ ks <-> exists e, E !! k = Some e /\ at_slot 0 i e)
    by (intros; rewrite Hk; set_solver).
  exists ks. split_and!; [done.. |]. split; [by rewrite length_insert | done | | | | done].
  - by apply slots_ok_take.
  - by apply (slots_ok_keep E 0 1 i).
  - intros k e He _. apply (wi_placed0 k); set_solver.
Qed.

Lemma winv_take1 E g c s0 s1 i h :
  winv [] E g c s0 s1 -> 0 <= i -> s1 !! Z.to_nat i = Some h ->
  exists ks, NoDup ks /\ chain E h ks /\
    (forall k, k ∈ ks <-> exists e, E !! k = Some e /\ at_slot 1 i e) /\
    winv ks E g c s0 (<[Z.to_nat i := None]> s1).
Proof.
  intros [] Hi Hh. destruct (wi_slots3 i h Hi Hh) as (ks & Hn & Hc & Hk).
  assert (Hk' : forall k, k ∈ ks <-> exists e, E !! k = Some e /\ at_slot 1 i e)
    by (intros; rewrite Hk; set_solver).
  exists ks. split_and!; [done.. |]. split; [done | by rewrite length_insert | | | | done].
  - by apply (slots_ok_keep E 1 0 i).
  - by apply slots_ok_take.
  - intros k e He _. apply (wi_placed0 k); set_solver.
Qed.

Lemma slots_ok_link E R l i h ss k e :
  k ∉ R -> at_slot l i e -> 0 <= i -> ss !! Z.to_nat i = Some h -> next e = h ->
  slots_ok E (k :: R) l ss -> slots_ok (<[k := e]> E) R l (<[Z.to_nat i := Some k]> ss).
Proof.
  intros HR Ha Hi Hh Hn Hs j h' Hj Hh'. destruct (decide (i = j)) as [<- | Hij].
  - apply list_lookup_insert_Some in Hh' as [(_ & <- & _) | [? _]]; [| done].
    apply (slot_ok_link E R h); [done | done | done | by apply Hs].
  - rewrite list_lookup_insert_ne in Hh' by lia.
    apply slot_ok_other; [| by apply Hs]. destruct Ha. intros []. lia.
Qed.

Lemma slots_ok_other E R l ss k e :
  level e <> l -> slots_ok E (k :: R) l ss -> slots_ok (<[k := e]> E) R l ss.
Proof. intros Hl Hs j h Hj Hh. apply slot_ok_other; [| by apply Hs]. by intros []. Qed.

(** Relinking an entry in flight. *)
Lemma winv_link R E g c s0 s1 k e :
  winv (k :: R) E g c s0 s1 -> k ∉ R -> placed g c e -> 0 <= deadline e < 2 ^ 64 ->
  let l := level e in
  let i := Z.to_nat (slot_of l (deadline e)) in
  (if l =? 0 then s0 else s1) !! i = Some (next e) ->
  winv R (<[k := e]> E) g c (if l =? 0 then <[i := Some k]> s0 else s0)
    (if l =? 0 then s1 else <[i := Some k]> s1).
Proof.
  intros [] HR Hp Hd l i Hi. pose proof (slot_of_range l (deadline e)) as Hr.
  assert (Hl : l = 0 \/ l = 1) by (destruct Hp as [[] | []]; auto).
  assert (Hwp : forall j e', <[k := e]> E !! j = Some e' -> j ∉ R -> placed g c e').
  { intros j e' [[-> <-] | [? He]]%lookup_insert_Some HjR; [done |].
    apply (wi_placed0 j); set_solver. }
  assert (Hwd : forall j e', <[k := e]> E !! j = Some e' -> 0 <= deadline e' < 2 ^ 64).
  { intros j e' [[-> <-] | [? He]]%lookup_insert_Some; [done |]. by apply (wi_deadline0 j). }
  subst l i. destruct Hl as [Hl | Hl]; rewrite Hl in Hi, Hr |- *; cbn [Z.eqb] in *.
  - split; [by rewrite length_insert | done | | | done | done].
    + eapply slots_ok_link; [done | by split | lia | done | done | done].
    + by apply slots_ok_other; [lia |].
  - split; [done | by rewrite length_insert | | | done | done].
    + by apply slots_ok_other; [lia |].
    + eapply slots_ok_link; [done | by split | lia | done | done | done].
Qed.

Lemma winv_cancel E g c s0 s1 k :
  winv [] E g c s0 s1 -> winv [] (alter take_item k E) g c s0 s1.
Proof.
  intros []. split; [done | done | | | |].
  - intros i h Hi Hh. apply slot_ok_alter; [done | done | by apply wi_slots2].
  - intros i h Hi Hh. apply slot_ok_alter; [done | done | by apply wi_slots3].
  - intros j e He HR. apply lookup_alter_Some in He as [(-> & e' & He & ->) | [_ He]].
    + apply (wi_placed0 _ _ He HR).
    + apply (wi_placed0 _ _ He HR).
  - intros j e He. apply lookup_alter_Some in He as [(-> & e' & He & ->) | [_ He]].
    + apply (wi_deadline0 _ _ He).
    + apply (wi_deadline0 _ _ He).
Qed.

(** ** Pending timers and what a step fires *)

(** The timers not cancelled, with their deadlines. *)
Definition pend E : gmap K (Z * T) :=
  omap (fun e => (fun x => (deadline e, x)) <$> item e) E.

Definition due_at (x : K * (Z * T)) : Z := x.2.1.
Definition items (X : list (K * (Z * T))) : list T := (fun x => x.2.2) <$> X.

(** [X] was taken out of the timers [P], which leaves [P']. *)
Definition moved (P : gmap K (Z * T)) (X : list (K * (Z * T))) (P' : gmap K (Z * T)) : Prop :=
  X ++ map_to_list P' ≡ₚ map_to_list P.

(** The timers [X], taken out of [P], are due after [g0] and by [g], and are in
    the order of their deadlines when a step never covers all of L0. *)
Record drains (g0 g : Z) (P : gmap K (Z * T)) (X : list (K * (Z * T)))
    (P' : gmap K (Z * T)) : Prop := {
  drains_moved : moved P X P';
  drains_due : Forall (fun x => g0 < due_at x <= g) X;
  drains_sorted : ratio < cap -> StronglySorted Z.le (due_at <$> X)
}.

(** Going from tick [g0] to [g] fires [X]: moreover no timer due by [g] is left. *)
Definition fires (g0 g : Z) (P : gmap K (Z * T)) (X : list (K * (Z * T)))
    (P' : gmap K (Z * T)) : Prop :=
  drains g0 g P X P' /\ forall k v, P' !! k = Some v -> g < v.1.

Lemma moved_refl P : moved P [] P.
Proof. unfold moved. by rewrite app_nil_l. Qed.

Lemma moved_trans P X P1 Y P2 : moved P X P1 -> moved P1 Y P2 -> moved P (X ++ Y) P2.
Proof. unfold moved. intros HX HY. by rewrite <- (assoc_L (++)), HY. Qed.

Lemma moved_lookup P X P' k v : moved P X P' -> P' !! k = Some v -> P !! k = Some v.
Proof.
  intros HX Hk. apply elem_of_map_to_list. rewrite <- HX. apply elem_of_app. right.
  by apply elem_of_map_to_list.
Qed.

Lemma moved_in P X P' x : moved P X P' -> x ∈ X -> P !! x.1 = Some x.2.
Proof.
  intros HX Hx. apply elem_of_map_to_list. rewrite <- HX. apply elem_of_app. left. by destruct x.
Qed.

Lemma pend_Some E k d x :
  pend E !! k = Some (d, x) <-> exists e, E !! k = Some e /\ deadline e = d /\ item e = Some x.
Proof.
  unfold pend. rewrite lookup_omap. destruct (E !! k) as [e |]; cbn; [| naive_solver].
  destruct (item e) eqn:Ei; cbn; naive_solver.
Qed.

Lemma pend_insert E k e :
  pend (<[k := e]> E) =
    match item e with Some x => <[k := (deadline e, x)]> (pend E) | None => delete k (pend E) end.
Proof.
  unfold pend. apply map_eq. intros j. rewrite lookup_omap.
  destruct (decide (k = j)) as [<- | Hj].
  - rewrite lookup_insert_eq. cbn. destruct (item e); cbn.
    + by rewrite lookup_insert_eq.
    + by rewrite lookup_delete_eq.
  - rewrite lookup_insert_ne by done. destruct (item e).
    + by rewrite lookup_insert_ne, lookup_omap.
    + by rewrite lookup_delete_ne, lookup_omap.
Qed.

Lemma pend_relink E k e e' :
  E !! k = Some e -> item e' = item e -> deadline e' = deadline e ->
  pend (<[k := e']> E) = pend E.
Proof.
  intros He Hi Hd. apply map_eq. intros j. unfold pend. rewrite !lookup_omap.
  destruct (decide (k = j)) as [<- | Hj].
  - rewrite lookup_insert_eq, He. cbn. by rewrite Hi, Hd.
  - by rewrite lookup_insert_ne.
Qed.

Lemma pend_delete E k : pend (delete k E) = delete k (pend E).
Proof.
  apply map_eq. intros j. unfold pend. rewrite lookup_omap, !lookup_delete, lookup_omap.
  by destruct (decide _).
Qed.

Lemma moved_delete E k e :
  E !! k = Some e ->
  moved (pend E) (match item e with Some x => [(k, (deadline e, x))] | None => [] end)
    (pend (delete k E)).
Proof.
  intros He. rewrite pend_delete. unfold moved. destruct (item e) as [x |] eqn:Ei; cbn.
  - apply map_to_list_delete. apply pend_Some. eauto.
  - rewrite delete_id; [done |]. unfold pend. by rewrite lookup_omap, He; cbn; rewrite Ei.
Qed.

Lemma items_app X Y : items (X ++ Y) = items X ++ items Y.
Proof. apply fmap_app. Qed.

Lemma push_item_app o expired k d :
  push_item o expired =
  expired ++ items (match o with Some x => [(k, (d, x))] | None => [] end).
Proof. destruct o; [done |]. symmetry. apply app_nil_r. Qed.

Lemma sorted_app (l1 l2 : list Z) b :
  StronglySorted Z.le l1 -> StronglySorted Z.le l2 ->
  Forall (fun x => x <= b) l1 -> Forall (fun x => b <= x) l2 ->
  StronglySorted Z.le (l1 ++ l2).
Proof.
  intros H1 H2 F1 F2. induction H1 as [| x l1 H1 IH Hx]; [done |].
  apply Forall_cons in F1 as [Hb F1]. cbn. constructor; [by apply IH |].
  apply Forall_app. split; [done |]. eapply Forall_impl; [exact F2 |]. cbn. lia.
Qed.

Lemma drains_trans g0 g1 g2 P X P1 Y P2 :
  g0 <= g1 <= g2 -> drains g0 g1 P X P1 -> drains g1 g2 P1 Y P2 -> drains g0 g2 P (X ++ Y) P2.
Proof.
  intros Hg [] []. split.
  - by eapply moved_trans.
  - apply Forall_app; split; (eapply Forall_impl; [done |]); cbn; lia.
  - intros Hr. rewrite fmap_app. apply (sorted_app _ _ g1); [auto | auto | |];
      apply Forall_fmap; (eapply Forall_impl; [done |]); cbn; lia.
Qed.

Lemma drains_nil g0 g P : drains g0 g P [] P.
Proof. split; [apply moved_refl | constructor | constructor]. Qed.

(** [fires] determines what is left, and what fired up to order. *)
Lemma fires_filter g0 g P X P' :
  fires g0 g P X P' -> P' = filter (fun kv => g < kv.2.1) P.
Proof.
  intros [[Hm Hd _] Hl]. apply map_eq. intros k. apply option_eq. intros v.
  rewrite map_lookup_filter_Some. cbn. split.
  - intros Hv. split; [by eapply moved_lookup | by eapply Hl].
  - intros [Hv Hg]. apply elem_of_map_to_list in Hv. rewrite <- Hm in Hv.
    apply elem_of_app in Hv as [Hv | Hv]; [| by apply elem_of_map_to_list].
    rewrite Forall_forall in Hd. apply Hd in Hv. unfold due_at in Hv. cbn in Hv. lia.
Qed.

Lemma fires_perm g0 g P X P' :
  fires g0 g P X P' -> X ≡ₚ map_to_list (filter (fun kv => kv.2.1 <= g) P).
Proof.
  intros [[Hm Hd _] Hl]. pose proof (NoDup_map_to_list P) as Hn. rewrite <- Hm in Hn.
  apply NoDup_app in Hn as (Hn & _ & _).
  apply NoDup_Permutation; [done | apply NoDup_map_to_list |]. intros [k v].
  rewrite elem_of_map_to_list, map_lookup_filter_Some. cbn. split.
  - intros Hx. split; [by apply (moved_in P X P' (k, v)) |].
    rewrite Forall_forall in Hd. apply Hd in Hx. unfold due_at in Hx. cbn in Hx. lia.
  - intros [Hv Hg]. apply elem_of_map_to_list in Hv. rewrite <- Hm in Hv.
    apply elem_of_app in Hv as [Hv | Hv%elem_of_map_to_list]; [done |].
    apply Hl in Hv. lia.
Qed.

(** ** Draining a list *)

Lemma drain_loop_ok ks : forall fuel m h expired,
  NoDup ks -> chain (sm_map m) h ks -> (length ks <= fuel)%nat ->
  exists m' X,
    drain_loop fuel m h expired = Ret (m', expired ++ items X) /\
    sm_issued m' = sm_issued m /\
    moved (pend (sm_map m)) X (pend (sm_map m')) /\
    Forall (fun x => x.1 ∈ ks) X /\
    (forall k, sm_map m' !! k = if decide (k ∈ ks) then None else sm_map m !! k) /\
    (forall R g c s0 s1, winv (ks ++ R) (sm_map m) g c s0 s1 -> winv R (sm_map m') g c s0 s1).
Proof.
  induction ks as [| k ks IH]; intros fuel m h expired Hn Hc Hf.
  - cbn in Hc. subst h. exists m, []. destruct fuel; cbn; rewrite app_nil_r;
      (split_and!; [done | done | apply moved_refl | constructor | | done]);
      intros k; rewrite decide_False by set_solver; done.
  - destruct Hc as (-> & e & Hk & Hc). apply NoDup_cons in Hn as [Hkn Hn].
    destruct fuel as [| fuel]; [cbn in Hf; lia |]. cbn [drain_loop].
    destruct (sm_remove m k) as [m1 r] eqn:Er.
    apply sm_remove_spec in Er as (-> & Hm1 & Hi1). rewrite Hk.
    destruct (IH fuel m1 (next e) (push_item (item e) expired))
      as (m' & X & Hd & Hi & Hmv & HX & Hl & Hw); [done | | cbn in Hf; lia |].
    { rewrite Hm1. by apply chain_delete. }
    rewrite Hm1 in Hmv, Hl, Hw.
    exists m', (match item e with Some x => [(k, (deadline e, x))] | None => [] end ++ X).
    split_and!.
    + rewrite Hd, (push_item_app _ _ k (deadline e)), items_app. by rewrite (assoc_L (++)).
    + by rewrite Hi.
    + eapply moved_trans; [by apply moved_delete | done].
    + apply Forall_app. split; [destruct (item e); constructor; [left | constructor] |].
      eapply Forall_impl; [exact HX |]. cbn. intros ?. by right.
    + intros j. rewrite Hl. destruct (decide (j = k)) as [-> | Hj].
      * rewrite lookup_delete_eq, (decide_True (P := k ∈ k :: ks)) by set_solver.
        by destruct (decide _).
      * rewrite lookup_delete_ne by done. by repeat destruct (decide _); set_solver.
    + intros R g c s0 s1 H0. apply Hw. by apply winv_delete.
Qed.

(** Draining a slot of L0. *)
Lemma drain_head_ok m g c s0 s1 i h expired :
  winv [] (sm_map m) g c s0 s1 -> 0 <= i -> s0 !! Z.to_nat i = Some h ->
  exists m' X,
    drain_head m h expired = Ret (m', expired ++ items X) /\
    sm_issued m' = sm_issued m /\
    moved (pend (sm_map m)) X (pend (sm_map m')) /\
    winv [] (sm_map m') g c (<[Z.to_nat i := None]> s0) s1 /\
    Forall (fun x => exists e, sm_map m !! x.1 = Some e /\ at_slot 0 i e /\ deadline e = due_at x) X /\
    (forall k e, sm_map m' !! k = Some e -> sm_map m !! k = Some e /\ ~ at_slot 0 i e).
Proof.
  intros Hw Hi Hh. destruct (winv_take0 _ _ _ _ _ _ _ Hw Hi Hh) as (ks & Hn & Hc & Hk & Hw').
  destruct (drain_loop_ok ks (sm_len m) m h expired) as (m' & X & Hd & His & Hmv & HX & Hl & Hw1);
    [done | done | rewrite sm_len_spec; by eapply chain_size |].
  exists m', X. split_and!; [| done | done | | |].
  - rewrite <- Hd. by destruct h; [| destruct (sm_len m)].
  - apply Hw1. by rewrite app_nil_r.
  - rewrite Forall_forall in HX |- *. intros [k [d x]] Hx.
    destruct (Hk k) as [Hk' _]. destruct (Hk' (HX _ Hx)) as (e & He & Ha).
    exists e. split_and!; [done | done |].
    apply (moved_in _ _ _ _ Hmv) in Hx. cbn in Hx. apply pend_Some in Hx as (e' & He' & Hd' & _).
    cbn. rewrite He in He'. by injection He' as <-.
  - intros k e He. rewrite Hl in He. destruct (decide (k ∈ ks)) as [? | Hnk]; [done |].
    split; [done |]. intros Ha. apply Hnk, Hk. eauto.
Qed.

(** ** Slots of a wheel *)

Lemma levels0 m gt s0 s1 : vec_get (levels (mk m gt s0 s1)) 0 = Ret (mkLevel s0 (cap - 1)).
Proof. done. Qed.

Lemma levels1 m gt s0 s1 : vec_get (levels (mk m gt s0 s1)) 1 = Ret (mkLevel s1 (n1 - 1)).
Proof. done. Qed.

Lemma get_slot0 m gt s0 s1 i h :
  0 <= i -> s0 !! Z.to_nat i = Some h -> get_slot (mk m gt s0 s1) 0 i = Ret h.
Proof. intros. unfold get_slot. rewrite levels0, bind_ret. by apply vec_get_lookup. Qed.

Lemma get_slot1 m gt s0 s1 i h :
  0 <= i -> s1 !! Z.to_nat i = Some h -> get_slot (mk m gt s0 s1) 1 i = Ret h.
Proof. intros. unfold get_slot. rewrite levels1, bind_ret. by apply vec_get_lookup. Qed.

Lemma set_slot0 m gt s0 s1 i x :
  0 <= i < Z.of_nat (length s0) ->
  set_slot (mk m gt s0 s1) 0 i x = Ret (mk m gt (<[Z.to_nat i := x]> s0) s1).
Proof.
  intros. unfold set_slot. rewrite levels0, bind_ret. cbn [slots]. by rewrite vec_set_in_range.
Qed.

Lemma set_slot1 m gt s0 s1 i x :
  0 <= i < Z.of_nat (length s1) ->
  set_slot (mk m gt s0 s1) 1 i x = Ret (mk m gt s0 (<[Z.to_nat i := x]> s1)).
Proof.
  intros. unfold set_slot. rewrite levels1, bind_ret. cbn [slots]. by rewrite vec_set_in_range.
Qed.

Lemma slot_lookup (ss : list (option K)) n i :
  Z.of_nat (length ss) = n -> 0 <= i < n -> exists h, ss !! Z.to_nat i = Some h.
Proof. intros Hn Hi. destruct (lookup_lt_is_Some_2 ss (Z.to_nat i)) as [h Hh]; [lia | eauto]. Qed.

(** An entry of L0 due within a revolution is in the slot of tick [g + 1]
    exactly when it is due then. *)
Lemma slot_due g d : g < d < g + cap -> d mod cap = (g + 1) mod cap -> d = g + 1.
Proof.
  intros Hd Hm. pose proof cap_pos.
  assert (Hz : (d - (g + 1)) mod cap = 0).
  { rewrite Zminus_mod, Hm, Z.sub_diag. apply Z.mod_0_l. lia. }
  rewrite Z.mod_small in Hz by lia. lia.
Qed.

Lemma constant_sorted (l : list (K * (Z * T))) b :
  Forall (fun x => due_at x = b) l -> StronglySorted Z.le (due_at <$> l).
Proof.
  induction 1 as [| x l Hx Hl IH]; [constructor |]. cbn. constructor; [done |].
  apply Forall_fmap. eapply Forall_impl; [exact Hl |]. cbn. lia.
Qed.

(** One tick of L0: the virtual tick [g] moves to [g + 1]. *)
Lemma drain_tick_ok m g c s0 s1 h expired :
  winv [] (sm_map m) g c s0 s1 -> s0 !! Z.to_nat ((g + 1) mod cap) = Some h ->
  exists m' X,
    drain_head m h expired = Ret (m', expired ++ items X) /\
    sm_issued m' = sm_issued m /\
    drains g (g + 1) (pend (sm_map m)) X (pend (sm_map m')) /\
    winv [] (sm_map m') (g + 1) c (<[Z.to_nat ((g + 1) mod cap) := None]> s0) s1.
Proof.
  intros Hw Hh. pose proof cap_pos as Hcap.
  destruct (drain_head_ok m g c s0 s1 ((g + 1) mod cap) h expired)
    as (m' & X & Hd & Hi & Hm & Hw' & HX & Hl); [done | apply Z.mod_pos_bound; lia | done |].
  assert (HX' : Forall (fun x => due_at x = g + 1) X).
  { eapply Forall_impl; [exact HX |]. cbn. intros x (e & He & [Hl0 Hs] & <-).
    destruct (wi_placed _ _ _ _ _ _ Hw _ _ He) as [[_ H1] | [H1 _]]; [set_solver | | lia].
    by apply slot_due. }
  exists m', X. split_and!; [done | done | |].
  - split; [done | | intros _; by apply (constant_sorted _ (g + 1))].
    eapply Forall_impl; [exact HX' |]. cbn. lia.
  - apply (winv_retick _ _ g c); [done |]. intros k e He _ [[H0 H1] | H1]; [| by right].
    left. split; [done |]. destruct (Hl k e He) as [_ Hna].
    assert (deadline e <> g + 1); [| lia].
    intros Hx. apply Hna. split; [done |]. unfold slot_of. cbn. by rewrite Hx.
Qed.

(** The slots of [n] ticks from [g + 1] on. *)
Lemma drain_ticks_ok gt c s1 n : forall i m s0 expired,
  0 <= gt -> 1 <= i -> gt + i - 1 + Z.of_nat n < 2 ^ 64 ->
  winv [] (sm_map m) (gt + i - 1) c s0 s1 ->
  exists m' s0' X,
    drain_ticks n i (mk m gt s0 s1) expired = Ret (mk m' gt s0' s1, expired ++ items X) /\
    sm_issued m' = sm_issued m /\
    drains (gt + i - 1) (gt + i - 1 + Z.of_nat n) (pend (sm_map m)) X (pend (sm_map m')) /\
    winv [] (sm_map m') (gt + i - 1 + Z.of_nat n) c s0' s1.
Proof.
  induction n as [| n IH]; intros i m s0 expired Hgt Hi Hb Hw.
  - exists m, s0, []. cbn -[Z.of_nat]. rewrite app_nil_r, Z.add_0_r.
    split_and!; [done | done | apply drains_nil | done].
  - pose proof (wi_len0 _ _ _ _ _ _ Hw) as Hlen.
    assert (Hr : 0 <= (gt + i) mod cap < cap) by (apply Z.mod_pos_bound, cap_pos).
    destruct (slot_lookup s0 cap ((gt + i) mod cap)) as [h Hh]; [done | done |].
    destruct (drain_tick_ok m (gt + i - 1) c s0 s1 h expired) as (m1 & X & Hd & Hi1 & Hdr & Hw1);
      [done | by replace (gt + i - 1 + 1) with (gt + i) by lia |].
    replace (gt + i - 1 + 1) with (gt + (i + 1) - 1) in Hdr, Hw1 by lia.
    destruct (IH (i + 1) m1 (<[Z.to_nat ((gt + i) mod cap) := None]> s0) (expired ++ items X))
      as (m' & s0' & Y & He & Hi' & Hdr' & Hw'); [done | lia | lia | |].
    { by replace (gt + (i + 1) - 1) with (gt + i) in Hw1 |- * by lia. }
    exists m', s0', (X ++ Y). replace (gt + i - 1 + Z.of_nat (S n)) with
      (gt + (i + 1) - 1 + Z.of_nat n) by lia.
    split_and!; [| congruence | eapply (drains_trans _ (gt + (i + 1) - 1)); [lia | done | done] | done].
    cbn [drain_ticks]. unfold wrapping_add. rewrite wrap_small by (cbn [global_tick mk]; unfold U64; lia).
    rewrite levels0, bind_ret. cbn [mask]. cbn [global_tick mk]. rewrite land_cap.
    rewrite (get_slot0 _ _ _ _ _ h), bind_ret, set_slot0, bind_ret by (done || lia).
    cbn [tasks mk]. rewrite Hd, bind_ret. cbn [fst snd].
    rewrite items_app, (assoc_L (++)). apply He.
Qed.

(** All slots of L0; the first [j] are already empty. *)
Lemma drain_all_ok g c s1 ss : forall j m expired,
  winv [] (sm_map m) g c (replicate j None ++ ss) s1 ->
  exists m' X,
    drain_all m ss expired = Ret (m', expired ++ items X) /\
    sm_issued m' = sm_issued m /\
    moved (pend (sm_map m)) X (pend (sm_map m')) /\
    Forall (fun x => g < due_at x < g + cap) X /\
    winv [] (sm_map m') g c (replicate (j + length ss) None) s1.
Proof.
  induction ss as [| h ss IH]; intros j m expired Hw.
  - exists m, []. cbn. rewrite app_nil_r, Nat.add_0_r. rewrite app_nil_r in Hw.
    split_and!; [done | done | apply moved_refl | constructor | done].
  - assert (Hh : (replicate j None ++ h :: ss) !! j = Some h).
    { rewrite lookup_app_r, length_replicate, Nat.sub_diag by (by rewrite length_replicate). done. }
    destruct (drain_head_ok m g c _ s1 (Z.of_nat j) h expired Hw)
      as (m1 & X & Hd & Hi & Hm & Hw1 & HX & _); [lia | by rewrite Nat2Z.id |].
    rewrite Nat2Z.id, insert_app_r_alt, length_replicate, Nat.sub_diag in Hw1
      by (by rewrite length_replicate). cbn in Hw1.
    destruct (IH (S j) m1 (expired ++ items X)) as (m' & Y & He & Hi' & Hm' & HY & Hw').
    { rewrite replicate_S_end, <- (assoc_L (++)). done. }
    exists m', (X ++ Y). cbn [drain_all]. rewrite Hd, bind_ret. cbn [fst snd].
    rewrite He, items_app, (assoc_L (++)). cbn [length].
    split_and!; [done | congruence | by eapply moved_trans | | by rewrite Nat.add_succ_r].
    apply Forall_app. split; [| done]. eapply Forall_impl; [exact HX |].
    cbn. intros x (e & He' & [Hl _] & <-).
    destruct (wi_placed _ _ _ _ _ _ Hw _ _ He') as [[_ ?] | [? _]]; [set_solver | done | lia].
Qed.

(** Empty slots: no entry at the level. *)
Lemma slots_empty E g c s1 k e :
  winv [] E g c (replicate (Z.to_nat cap) None) s1 -> E !! k = Some e -> level e <> 0.
Proof.
  intros Hw He Hl. pose proof (slot_of_range 0 (deadline e)) as Hr. cbn [Z.eqb] in Hr.
  destruct (wi_slots0 _ _ _ _ _ _ Hw (slot_of 0 (deadline e)) None) as (ks & _ & Hc & Hk);
    [lia | apply lookup_replicate; split; [done | lia] |].
  destruct ks as [| k' ks]; [| by destruct Hc].
  assert (k ∈ ([] : list K)) as []%not_elem_of_nil. apply Hk. split; [set_solver |].
  exists e. by split.
Qed.

Lemma fmap_None (l : list (option K)) :
  (fun _ => @None K) <$> l = replicate (length l) None.
Proof. induction l as [| x l IH]; [done |]. cbn. by rewrite <- IH. Qed.

(** A step of L0, up to the next cascade point at most. *)
Lemma drain_step_ok m gt c s0 s1 step expired :
  0 <= gt -> 1 <= step -> step <= ratio -> gt + step < 2 ^ 64 ->
  winv [] (sm_map m) gt c s0 s1 ->
  exists m' s0' X,
    drain_step (mk m gt s0 s1) step expired = Ret (mk m' gt s0' s1, expired ++ items X) /\
    sm_issued m' = sm_issued m /\
    drains gt (gt + step) (pend (sm_map m)) X (pend (sm_map m')) /\
    winv [] (sm_map m') (gt + step) c s0' s1.
Proof.
  intros Hgt H1 Hr Hb Hw. pose proof (wi_len0 _ _ _ _ _ _ Hw) as Hlen.
  unfold drain_step. cbn [l0_capacity_ticks mk]. destruct (Z.leb_spec cap step) as [Hs | Hs].
  - destruct (drain_all_ok gt c s1 s0 0 m expired) as (m' & X & He & Hi & Hm & HX & Hw'); [done |].
    cbn in Hw'. exists m', (replicate (length s0) None), X.
    split_and!; [| done | |].
    + rewrite levels0, bind_ret. cbn [slots mask]. cbn [tasks mk]. rewrite He, bind_ret.
      rewrite fmap_None. done.
    + split; [done | | lia]. eapply Forall_impl; [exact HX |]. cbn. lia.
    + apply (winv_retick _ _ gt c); [done |]. intros k e He' _ [[Hl _] | ?]; [| by right].
      exfalso. revert Hl. eapply slots_empty; [| exact He'].
      replace (Z.to_nat cap) with (length s0) by lia. exact Hw'.
  - destruct (drain_ticks_ok gt c s1 (Z.to_nat step) 1 m s0 expired) as (m' & s0' & X & He);
      [done | lia | lia | by replace (gt + 1 - 1) with gt by lia |].
    replace (gt + 1 - 1) with gt in He by lia. rewrite Z2Nat.id in He by lia.
    by exists m', s0', X.
Qed.

(** ** Locations and links *)

Definition level_for (g d : Z) : Z := if d - g <? cap then 0 else 1.

Lemma determine_location_ok m g s0 s1 d :
  0 <= g <= d -> d < 2 ^ 64 ->
  determine_location (mk m g s0 s1) d = Ret (level_for g d, slot_of (level_for g d) d).
Proof.
  intros Hg Hd. pose proof (geo_ratio Hgeo). unfold determine_location, wrapping_sub, level_for.
  cbn [global_tick l0_capacity_ticks mk l1_tick_ratio]. rewrite wrap_small by (unfold U64; lia).
  destruct (Z.ltb_spec (d - g) cap).
  - rewrite levels0, bind_ret. cbn [mask]. by rewrite land_cap.
  - unfold quot. destruct (Z.eqb_spec ratio 0); [lia |].
    rewrite bind_ret, levels1, bind_ret. cbn [mask]. by rewrite land_n1.
Qed.

Lemma level_for_placed g c d (e : WheelEntry T K) :
  0 <= g < d -> c <= g / ratio -> deadline e = d -> level e = level_for g d -> placed g c e.
Proof.
  intros Hg Hc Hd Hl. pose proof (geo_ratio Hgeo). unfold level_for in Hl. rewrite <- Hd in *.
  destruct (Z.ltb_spec (deadline e - g) cap); [left; lia |]. right. split; [done |].
  assert (g / ratio + 1 <= deadline e / ratio); [| lia].
  rewrite <- Z.div_add by lia. apply Z.div_le_mono; lia.
Qed.

Lemma link_ok m g c s0 s1 R k e l :
  winv (k :: R) (sm_map m) g c s0 s1 -> k ∉ R -> sm_map m !! k = Some e ->
  l = 0 \/ l = 1 ->
  (forall e', deadline e' = deadline e -> level e' = l -> placed g c e') ->
  exists m' s0' s1' h,
    link (mk m g s0 s1) k l (slot_of l (deadline e)) = Ret (mk m' g s0' s1') /\
    sm_map m' = <[k := relocate h l (slot_of l (deadline e)) e]> (sm_map m) /\
    sm_issued m' = sm_issued m /\ winv R (sm_map m') g c s0' s1'.
Proof.
  intros Hw HR Hk Hl Hp. pose proof (slot_of_range l (deadline e)) as Hr.
  pose proof (wi_deadline _ _ _ _ _ _ Hw _ _ Hk) as Hd.
  pose proof (wi_len0 _ _ _ _ _ _ Hw). pose proof (wi_len1 _ _ _ _ _ _ Hw).
  set (i := slot_of l (deadline e)) in *.
  destruct (slot_lookup (if l =? 0 then s0 else s1) (if l =? 0 then cap else n1) i)
    as [h Hh]; [by destruct (l =? 0) | done |].
  set (e' := relocate h l i e). set (m' := sm_update (relocate h l i) m k).
  assert (Hm' : sm_map m' = <[k := e']> (sm_map m) /\ sm_issued m' = sm_issued m).
  { destruct (sm_update_spec (relocate h l i) m k) as [Hu Hi]. split; [| done].
    unfold m'. rewrite Hu. apply map_eq. intros j. rewrite lookup_alter.
    destruct (decide (k = j)) as [<- |].
    - by rewrite lookup_insert_eq, Hk.
    - by rewrite lookup_insert_ne. }
  destruct Hm' as [Hm' Hi].
  assert (Hlv : level e' = l) by (cbn; destruct Hl as [-> | ->]; done).
  pose proof (winv_link R (sm_map m) g c s0 s1 k e' Hw HR) as Hw'.
  cbv zeta in Hw'. rewrite Hlv in Hw'. change (deadline e') with (deadline e) in Hw'.
  fold i in Hw'. specialize (Hw' (Hp e' eq_refl Hlv) Hd Hh). rewrite <- Hm' in Hw'.
  exists m', (if l =? 0 then <[Z.to_nat i := Some k]> s0 else s0),
    (if l =? 0 then s1 else <[Z.to_nat i := Some k]> s1), h.
  split_and!; [| done | done | done].
  unfold link. destruct Hl as [-> | ->]; cbn [Z.eqb] in *.
  - rewrite (get_slot0 _ _ _ _ _ h), bind_ret by (done || lia). cbn [tasks mk].
    fold m'. change (set_tasks _ _) with (mk m' g s0 s1). apply set_slot0. lia.
  - rewrite (get_slot1 _ _ _ _ _ h), bind_ret by (done || lia). cbn [tasks mk].
    fold m'. change (set_tasks _ _) with (mk m' g s0 s1). apply set_slot1. lia.
Qed.

(** ** The cascade of an L1 slot

    The entries in flight are the rest of the list; each is due at or after the
    current tick, and either fires, is dropped (cancelled) or is relinked. *)
Lemma cascade_loop_ok g R : forall fuel m h s0 s1 expired,
  0 <= g < 2 ^ 64 -> NoDup R -> chain (sm_map m) h R -> (length R <= fuel)%nat ->
  winv R (sm_map m) g (g / ratio) s0 s1 ->
  (forall k e, k ∈ R -> sm_map m !! k = Some e -> g <= deadline e) ->
  exists m' s0' s1' X,
    cascade_loop fuel (mk m g s0 s1) h expired = Ret (mk m' g s0' s1', expired ++ items X) /\
    sm_issued m' = sm_issued m /\
    moved (pend (sm_map m)) X (pend (sm_map m')) /\
    Forall (fun x => due_at x = g) X /\
    winv [] (sm_map m') g (g / ratio) s0' s1'.
Proof.
  induction R as [| k R IH]; intros fuel m h s0 s1 expired Hg Hn Hc Hf Hw Hge.
  - cbn in Hc. subst h. exists m, s0, s1, []. destruct fuel; cbn; rewrite app_nil_r;
      (split_and!; [done | done | apply moved_refl | constructor | done]).
  - destruct Hc as (-> & e & Hk & Hc). apply NoDup_cons in Hn as [Hkn Hn].
    destruct fuel as [| fuel]; [cbn in Hf; lia |]. cbn [length] in Hf.
    cbn [cascade_loop]. cbn [tasks mk]. rewrite sm_get_spec, Hk. cbn [expect]. rewrite bind_ret.
    pose proof (Hge k e ltac:(set_solver) Hk) as Hke.
    pose proof (wi_deadline _ _ _ _ _ _ Hw _ _ Hk) as Hd.
    destruct (sm_remove m k) as [m1 r] eqn:Er.
    apply sm_remove_spec in Er as (-> & Hm1 & Hi1).
    (* the two branches that remove the entry *)
    assert (Hrem : forall expired,
      exists m' s0' s1' X,
        cascade_loop fuel (mk m1 g s0 s1) (next e) expired = Ret (mk m' g s0' s1', expired ++ items X) /\
        sm_issued m' = sm_issued m /\ moved (pend (sm_map m1)) X (pend (sm_map m')) /\
        Forall (fun x => due_at x = g) X /\ winv [] (sm_map m') g (g / ratio) s0' s1').
    { intros ex. rewrite <- Hi1. apply IH; [done | done | | lia | |]; rewrite Hm1.
      - by apply chain_delete.
      - by apply winv_delete.
      - intros j e' Hj [_ He']%lookup_delete_Some. by apply (Hge j); [right |]. }
    destruct (item e) as [x |] eqn:Ei.
    + cbn [global_tick mk]. destruct (Z.leb_spec (deadline e) g) as [Hdg | Hdg].
      * rewrite Hk, Ei. destruct (Hrem (push_item (Some x) expired))
          as (m' & s0' & s1' & X & He & Hi & Hm & HX & Hw').
        exists m', s0', s1', ((k, (deadline e, x)) :: X).
        change (set_tasks _ m1) with (mk m1 g s0 s1). rewrite He.
        split_and!; [| done | | constructor; [cbn; lia | done] | done].
        -- cbn. by rewrite <- (assoc_L (++)).
        -- apply (moved_trans _ [(k, (deadline e, x))] (pend (sm_map m1))); [| done].
           rewrite Hm1. pose proof (moved_delete _ _ _ Hk) as H1. by rewrite Ei in H1.
      * rewrite determine_location_ok by lia. rewrite bind_ret.
        destruct (link_ok m g (g / ratio) s0 s1 R k e (level_for g (deadline e)))
          as (m2 & s0' & s1' & h & Hl & Hm2 & Hi2 & Hw2); [done | done | done | | |].
        { unfold level_for. destruct (_ <? _); auto. }
        { intros e' Hd' Hl'. apply (level_for_placed _ _ (deadline e)); lia || done. }
        rewrite Hl, bind_ret. destruct (IH fuel m2 (next e) s0' s1' expired)
          as (m' & s0'' & s1'' & X & He & Hi & Hm & HX & Hw'); [done | done | | lia | done | |].
        { rewrite Hm2. by apply chain_insert. }
        { rewrite Hm2. intros j e' Hj. rewrite lookup_insert_ne by set_solver.
          apply Hge. by right. }
        exists m', s0'', s1'', X. split_and!; [done | congruence | | done | done].
        rewrite Hm2, (pend_relink _ _ e) in Hm by done. done.
    + change (set_tasks _ m1) with (mk m1 g s0 s1). destruct (Hrem expired)
        as (m' & s0' & s1' & X & He & Hi & Hm & HX & Hw').
      exists m', s0', s1', X. split_and!; [done | done | | done | done].
      pose proof (moved_delete _ _ _ Hk) as H1. rewrite Ei, <- Hm1 in H1.
      by apply (moved_trans _ [] (pend (sm_map m1))).
Qed.

(** The L1 tick whose entries have been cascaded before the check at tick [g]. *)
Definition cascaded (g : Z) : Z := if g mod ratio =? 0 then g / ratio - 1 else g / ratio.

Lemma cascade_step_ok m g s0 s1 expired :
  0 <= g < 2 ^ 64 -> winv [] (sm_map m) g (cascaded g) s0 s1 ->
  exists m' s0' s1' X,
    cascade_step (mk m g s0 s1) expired = Ret (mk m' g s0' s1', expired ++ items X) /\
    sm_issued m' = sm_issued m /\
    moved (pend (sm_map m)) X (pend (sm_map m')) /\
    Forall (fun x => due_at x = g) X /\
    winv [] (sm_map m') g (g / ratio) s0' s1'.
Proof.
  intros Hg Hw. pose proof (geo_ratio Hgeo) as Hr. pose proof n1_pos as Hn1.
  unfold cascade_step, is_multiple_of. cbn [global_tick l1_tick_ratio mk].
  unfold cascaded in Hw. destruct (Z.eqb_spec ratio 0); [lia |].
  destruct (Z.eqb_spec (g mod ratio) 0) as [Hz | Hz].
  2: { exists m, s0, s1, []. cbn. rewrite app_nil_r.
       split_and!; [done | done | apply moved_refl | constructor | done]. }
  unfold quot. destruct (Z.eqb_spec ratio 0); [lia |].
  rewrite bind_ret, levels1, bind_ret. cbn [mask]. rewrite land_n1.
  set (i := (g / ratio) mod n1). assert (Hi : 0 <= i < n1) by (apply Z.mod_pos_bound; lia).
  pose proof (wi_len1 _ _ _ _ _ _ Hw) as Hlen.
  destruct (slot_lookup s1 n1 i) as [h Hh]; [done | done |].
  rewrite (get_slot1 _ _ _ _ _ h), bind_ret, set_slot1, bind_ret by (done || lia).
  destruct (winv_take1 _ _ _ _ _ i h Hw) as (ks & Hn & Hc & Hk & Hw1); [lia | done |].
  assert (Hw2 : winv ks (sm_map m) g (g / ratio) s0 (<[Z.to_nat i := None]> s1)).
  { apply (winv_retick _ _ _ _ _ _ _ _ Hw1). intros k e He Hks [? | [Hl Hd]]; [by left |].
    right. split; [done |]. assert (deadline e / ratio <> g / ratio); [| lia].
    intros Hx. apply Hks, Hk. exists e. split; [done |]. split; [done |].
    unfold slot_of. cbn. by rewrite Hx. }
  assert (Hge : forall k e, k ∈ ks -> sm_map m !! k = Some e -> g <= deadline e).
  { intros k e Hkk He. apply Hk in Hkk as (e' & He' & [Hl _]).
    rewrite He in He'. injection He' as <-.
    destruct (wi_placed _ _ _ _ _ _ Hw _ _ He) as [[? _] | [_ Hd]]; [set_solver | lia |].
    pose proof (Z.div_mod g ratio). pose proof (Z.div_mod (deadline e) ratio).
    pose proof (Z.mod_pos_bound (deadline e) ratio). nia. }
  destruct (cascade_loop_ok g ks (sm_len m) m h s0 (<[Z.to_nat i := None]> s1) expired)
    as (m' & s0' & s1' & X & He & Hrest);
    [done | done | done | rewrite sm_len_spec; by eapply chain_size | done | done |].
  exists m', s0', s1', X. split; [| done]. rewrite <- He.
  destruct h; [done |]. by destruct (sm_len m).
Qed.

Lemma winv_left E g s0 s1 k v :
  winv [] E g (g / ratio) s0 s1 -> pend E !! k = Some v -> g < v.1.
Proof.
  intros Hw Hv. pose proof (geo_ratio Hgeo). destruct v as [d x].
  apply pend_Some in Hv as (e & He & <- & _). cbn.
  destruct (wi_placed _ _ _ _ _ _ Hw _ _ He) as [[_ ?] | [_ Hd]]; [set_solver | lia |].
  destruct (Z.lt_ge_cases g (deadline e)) as [? | Hle]; [done |].
  assert (deadline e / ratio <= g / ratio) by (apply Z.div_le_mono; lia). lia.
Qed.

(** A step of [min(remaining, ticks to cascade)] ticks leaves the L1 tick or
    reaches the next multiple of the ratio. *)
Lemma cascaded_step gt step :
  0 <= gt -> 1 <= step <= ratio - gt mod ratio -> cascaded (gt + step) = gt / ratio.
Proof.
  intros Hgt Hs. pose proof (geo_ratio Hgeo) as Hr. unfold cascaded.
  pose proof (Z.div_mod gt ratio ltac:(lia)) as Hdm.
  pose proof (Z.mod_pos_bound gt ratio ltac:(lia)).
  set (q := gt / ratio) in *. set (r := gt mod ratio) in *.
  destruct (Z.eq_dec step (ratio - r)) as [-> | Hne].
  - replace (gt + (ratio - r)) with ((q + 1) * ratio) by lia.
    rewrite Z.mod_mul, Z.div_mul by lia. cbn. lia.
  - replace (gt + step) with (r + step + q * ratio) by lia.
    rewrite Z.mod_add, Z.div_add, Z.mod_small, Z.div_small by lia.
    destruct (Z.eqb_spec (r + step) 0); lia.
Qed.

Lemma drains_snoc g0 g P X P1 Y P2 :
  g0 < g -> drains g0 g P X P1 -> moved P1 Y P2 -> Forall (fun x => due_at x = g) Y ->
  drains g0 g P (X ++ Y) P2.
Proof.
  intros Hg [] Hm HY. split; [by eapply moved_trans | |].
  - apply Forall_app. split; [done |]. eapply Forall_impl; [exact HY |]. cbn. lia.
  - intros Hr. rewrite fmap_app. apply (sorted_app _ _ g);
      [auto | by apply (constant_sorted _ g) | |]; apply Forall_fmap.
    + eapply Forall_impl; [exact drains_due0 |]. cbn. lia.
    + eapply Forall_impl; [exact HY |]. cbn. lia.
Qed.

Lemma advance_loop_ok fuel : forall m gt s0 s1 remaining expired,
  0 <= gt -> 0 <= remaining <= Z.of_nat fuel -> gt + remaining < 2 ^ 64 ->
  winv [] (sm_map m) gt (gt / ratio) s0 s1 ->
  exists m' s0' s1' X,
    advance_loop fuel (mk m gt s0 s1) remaining expired =
      Ret (mk m' (gt + remaining) s0' s1', expired ++ items X) /\
    sm_issued m' = sm_issued m /\
    drains gt (gt + remaining) (pend (sm_map m)) X (pend (sm_map m')) /\
    winv [] (sm_map m') (gt + remaining) ((gt + remaining) / ratio) s0' s1'.
Proof.
  induction fuel as [| fuel IH]; intros m gt s0 s1 remaining expired Hgt Hrem Hb Hw.
  all: cbn [advance_loop]; destruct (Z.ltb_spec 0 remaining) as [Hpos | Hz].
  2, 4: (replace remaining with 0 by lia; rewrite Z.add_0_r; exists m, s0, s1, [];
    rewrite app_nil_r; split_and!; [done | done | apply drains_nil | done]).
  { lia. }
  pose proof (geo_ratio Hgeo) as Hr. destruct (geo_cap Hgeo) as (a & Ha & Hcap).
  assert (cap < 2 ^ 64) by (rewrite Hcap; apply Z.pow_lt_mono_r; lia).
  pose proof (Z.mod_pos_bound gt ratio ltac:(lia)) as Hm.
  cbn [global_tick l1_tick_ratio mk]. unfold rem. destruct (Z.eqb_spec ratio 0); [lia |].
  rewrite bind_ret, arith_ok, bind_ret by (unfold U64; lia).
  set (step := Z.min remaining (ratio - gt mod ratio)).
  assert (Hs : 1 <= step <= ratio - gt mod ratio /\ step <= remaining) by (unfold step; lia).
  destruct (drain_step_ok m gt (gt / ratio) s0 s1 step expired)
    as (m1 & s0' & X & He & Hi & Hd & Hw1); [lia | lia | lia | lia | done |].
  rewrite He, bind_ret. cbn [fst snd]. unfold wrapping_add. cbn [global_tick mk].
  rewrite wrap_small, arith_ok, bind_ret by (unfold U64; lia).
  change (set_global_tick _ _) with (mk m1 (gt + step) s0' s1).
  destruct (cascade_step_ok m1 (gt + step) s0' s1 (expired ++ items X))
    as (m2 & s0'' & s1'' & Y & He2 & Hi2 & Hm2 & HY & Hw2);
    [lia | by rewrite cascaded_step by lia |].
  rewrite He2, bind_ret. cbn [fst snd].
  destruct (IH m2 (gt + step) s0'' s1'' (remaining - step) ((expired ++ items X) ++ items Y))
    as (m3 & s0f & s1f & Z3 & He3 & Hi3 & Hd3 & Hw3); [lia | lia | lia | done |].
  replace (gt + step + (remaining - step)) with (gt + remaining) in * by lia.
  exists m3, s0f, s1f, ((X ++ Y) ++ Z3). rewrite He3, !items_app, !(assoc_L (++)).
  split_and!; [done | congruence | | done].
  eapply (drains_trans _ (gt + step)); [lia | | done]. eapply drains_snoc; [lia | done..].
Qed.

(** ** The operations on a well-formed wheel *)

Definition wheel_ok w : Prop :=
  exists m gt s0 s1, w = mk m gt s0 s1 /\ 0 <= gt < 2 ^ 64 /\
    winv [] (sm_map m) gt (gt / ratio) s0 s1.

Definition wheel_pending w : gmap K (Z * T) := pend (sm_map (tasks w)).

(** Milliseconds of a duration in whole ticks. *)
Definition ticks_of (d : Duration) : Z := as_millis_u64 d / tick.

Lemma delay_to_ticks_ok m gt s0 s1 d :
  delay_to_ticks (mk m gt s0 s1) d = Ret (ticks_of d) /\ 0 <= ticks_of d.
Proof.
  pose proof (geo_tick Hgeo). pose proof (as_millis_nonneg d). unfold delay_to_ticks, quot, ticks_of.
  cbn [tick_duration_ms mk]. destruct (Z.eqb_spec tick 0); [lia |].
  split; [done |]. apply Z.div_pos; lia.
Qed.

Lemma wheel_insert_ok w x delay :
  wheel_ok w -> global_tick w + Z.max (ticks_of delay) 1 < 2 ^ 64 ->
  exists w' k,
    insert w x delay = Ret (w', k) /\ wheel_ok w' /\
    k ∉ sm_issued (tasks w) /\ sm_issued (tasks w') = {[k]} ∪ sm_issued (tasks w) /\
    global_tick w' = global_tick w /\
    wheel_pending w' =
      <[k := (global_tick w + Z.max (ticks_of delay) 1, x)]> (wheel_pending w).
Proof.
  intros (m & gt & s0 & s1 & -> & Hgt & Hw) Hb. cbn [global_tick mk] in Hb.
  destruct (delay_to_ticks_ok m gt s0 s1 delay) as [Ht Ht0].
  set (d := gt + Z.max (ticks_of delay) 1) in *. set (l := level_for gt d).
  unfold insert. rewrite Ht, bind_ret. unfold wrapping_add. cbn [global_tick mk].
  rewrite wrap_small by (unfold U64; lia). fold d.
  rewrite determine_location_ok, bind_ret by lia. fold l. cbn [tasks mk].
  set (e0 := mkEntry (Some x) d None _ _).
  destruct (sm_insert m e0) as [m1 k] eqn:Ei.
  apply sm_insert_spec in Ei as (Hk & Hm1 & Hi1).
  assert (Hkn : sm_map m !! k = None).
  { apply not_elem_of_dom. intros Hx. by apply Hk, sm_dom_issued. }
  assert (Hlv : l = 0 \/ l = 1) by (unfold l, level_for; destruct (_ <? _); auto).
  assert (Hpl : forall e', deadline e' = deadline e0 -> level e' = l -> placed gt (gt / ratio) e').
  { intros e' Hd Hl. apply (level_for_placed _ _ d); done || lia. }
  destruct (link_ok m1 gt (gt / ratio) s0 s1 [] k e0 l)
    as (m' & s0' & s1' & h & Hl & Hm' & Hi' & Hw'); [| set_solver | | done | done |].
  { rewrite Hm1. destruct (winv_weaken _ _ _ _ _ _ k Hkn Hw) as [L0 L1 S0 S1 Hp Hd].
    split; [done | done | | | |].
    - intros i h Hi Hh. apply slot_ok_weaken_insert; [done | by apply S0].
    - intros i h Hi Hh. apply slot_ok_weaken_insert; [done | by apply S1].
    - intros j e' [[-> _] | [? He]]%lookup_insert_Some Hj; [set_solver | by apply (Hp j)].
    - intros j e' [[-> <-] | [? He]]%lookup_insert_Some; [cbn; lia | by apply (Hd j)]. }
  { rewrite Hm1. apply lookup_insert_eq. }
  exists (mk m' gt s0' s1'), k. change (deadline e0) with d in Hl.
  change (set_tasks _ m1) with (mk m1 gt s0 s1). rewrite Hl, bind_ret.
  split_and!; [done | by exists m', gt, s0', s1' | done | cbn [tasks mk]; by rewrite Hi', Hi1 | done |].
  unfold wheel_pending. cbn [tasks mk]. by rewrite Hm', Hm1, insert_insert_eq, pend_insert.
Qed.

Lemma wheel_cancel_ok w (k : K) :
  wheel_ok w ->
  exists w', cancel w k = (w', snd <$> wheel_pending w !! k) /\ wheel_ok w' /\
    sm_issued (tasks w') = sm_issued (tasks w) /\ global_tick w' = global_tick w /\
    wheel_pending w' = delete k (wheel_pending w).
Proof.
  intros (m & gt & s0 & s1 & -> & Hgt & Hw). unfold cancel, wheel_pending. cbn [tasks mk].
  unfold task_id_key. rewrite sm_get_spec. unfold pend at 1. rewrite lookup_omap.
  destruct (sm_map m !! k) as [e |] eqn:He.
  - destruct (sm_update_spec take_item m k) as [Hu Hi].
    exists (mk (sm_update take_item m k) gt s0 s1). cbn [tasks global_tick mk].
    split_and!; [| | done | done |].
    + cbn. rewrite ?He. by destruct (item e).
    + exists (sm_update take_item m k), gt, s0, s1. split_and!; [done | lia | lia |].
      rewrite Hu. by apply winv_cancel.
    + rewrite Hu. replace (alter take_item k (sm_map m)) with (<[k := take_item e]> (sm_map m)).
      { by rewrite pend_insert. }
      apply map_eq. intros j. rewrite lookup_alter, lookup_insert.
      destruct (decide _); [subst; by rewrite He | done].
  - exists (mk m gt s0 s1). split_and!; [done | by exists m, gt, s0, s1 | done | done |].
    cbn [tasks mk]. rewrite delete_id; [done |]. unfold pend. by rewrite lookup_omap, He.
Qed.

Lemma wheel_advance_ok w elapsed expired :
  wheel_ok w -> global_tick w + ticks_of elapsed < 2 ^ 64 ->
  exists w' X,
    advance w elapsed expired = Ret (w', expired ++ items X) /\ wheel_ok w' /\
    sm_issued (tasks w') = sm_issued (tasks w) /\
    global_tick w' = global_tick w + ticks_of elapsed /\
    fires (global_tick w) (global_tick w') (wheel_pending w) X (wheel_pending w').
Proof.
  intros (m & gt & s0 & s1 & -> & Hgt & Hw) Hb. cbn [global_tick mk] in Hb.
  destruct (delay_to_ticks_ok m gt s0 s1 elapsed) as [Ht Ht0].
  unfold advance, wheel_pending. rewrite Ht, bind_ret. cbn [global_tick tasks mk].
  destruct (Z.eqb_spec (ticks_of elapsed) 0) as [Hz | Hz].
  - exists (mk m gt s0 s1), []. rewrite app_nil_r, Hz, Z.add_0_r.
    split_and!; [done | by exists m, gt, s0, s1 | done | done |].
    split; [apply drains_nil |]. intros k v. cbn [tasks mk]. by apply (winv_left _ _ s0 s1).
  - destruct (advance_loop_ok (Z.to_nat (ticks_of elapsed)) m gt s0 s1 (ticks_of elapsed) expired)
      as (m' & s0' & s1' & X & He & Hi & Hd & Hw'); [lia | lia | lia | done |].
    exists (mk m' (gt + ticks_of elapsed) s0' s1'), X. cbn [tasks global_tick mk].
    split_and!; [done | | done | done |].
    + exists m', (gt + ticks_of elapsed), s0', s1'. split_and!; [done | lia | lia | done].
    + split; [done |]. intros k v. by apply (winv_left _ _ s0' s1').
Qed.

Lemma wheel_empty_ok :
  exists s0 s1, wheel_ok (mk sm_new 0 s0 s1) /\
    s0 = replicate (Z.to_nat cap) None /\ s1 = replicate (Z.to_nat n1) None.
Proof.
  pose proof cap_pos. pose proof n1_pos. destruct sm_new_spec as [Hm _].
  exists (replicate (Z.to_nat cap) None), (replicate (Z.to_nat n1) None).
  split; [| done]. exists sm_new, 0. eexists _, _. split_and!; [done | lia | lia |].
  rewrite Hm. split; rewrite ?length_replicate; try lia.
  - intros i h Hi [-> _]%lookup_replicate_1. exists [].
    split_and!; [constructor | done | set_solver].
  - intros i h Hi [-> _]%lookup_replicate_1. exists [].
    split_and!; [constructor | done | set_solver].
  - intros k e He. by rewrite lookup_empty in He.
  - intros k e He. by rewrite lookup_empty in He.
Qed.

End Geometry.
End Invariant.
