(* ===== verification/Timers.v ===== *)
(** * Timers: what the wheel promises

    An abstract timer service, in which a timer is a deadline and an item and
    advancing the clock fires exactly the timers that are due, and the proof
    that the wheel of [Wheel] refines it for every configuration whose L1 tick
    is at least one L0 tick and at most one revolution of L0.  Then the
    accuracy of [next_timeout], and the configurations that the builder
    accepts although the wheel misbehaves on them. *)

From Stdlib Require Import Sorting.Sorted.
From S2P Require Import Prelude SlotMap WheelConfig Wheel.

(** ** The abstract service *)

Record Timers (K T : Type) `{Countable K} : Type := mkTimers {
  tm_now : Z;
  tm_pending : gmap K (Z * T);
  tm_issued : gset K
}.
Arguments mkTimers {K T _ _} _ _ _.
Arguments tm_now {K T _ _} _.
Arguments tm_pending {K T _ _} _.
Arguments tm_issued {K T _ _} _.

Inductive timer_op (K T : Type) : Type :=
  | TInsert (x : T) (delay : Duration)
  | TCancel (id : K)
  | TAdvance (elapsed : Duration).
Arguments TInsert {K T} _ _.
Arguments TCancel {K T} _.
Arguments TAdvance {K T} _.

Inductive timer_reply (K T : Type) : Type :=
  | Inserted (id : K)
  | Cancelled (o : option T)
  | Expired (xs : list T).
Arguments Inserted {K T} _.
Arguments Cancelled {K T} _.
Arguments Expired {K T} _.

Section Spec.
Context {K T : Type} `{Countable K}.
Variable tick : Z.

Inductive timers_step : Timers K T -> timer_op K T -> timer_reply K T -> Timers K T -> Prop :=
  | ts_insert now P I x delay k :
      k ∉ I ->
      timers_step (mkTimers now P I) (TInsert x delay) (Inserted k)
        (mkTimers now (<[k := (now + Z.max (ticks_of tick delay) 1, x)]> P) ({[k]} ∪ I))
  | ts_cancel now P I k :
      timers_step (mkTimers now P I) (TCancel k) (Cancelled (snd <$> P !! k))
        (mkTimers now (delete k P) I)
  | ts_advance now P I elapsed X :
      let now' := now + ticks_of tick elapsed in
      X ≡ₚ map_to_list (filter (fun kv => kv.2.1 <= now') P) ->
      timers_step (mkTimers now P I) (TAdvance elapsed) (Expired (items X))
        (mkTimers now' (filter (fun kv => now' < kv.2.1) P) I).

Inductive timers_run : Timers K T -> list (timer_op K T) -> list (timer_reply K T) ->
    Timers K T -> Prop :=
  | tr_nil s : timers_run s [] [] s
  | tr_cons s op r s1 ops rs s' :
      timers_step s op r s1 -> timers_run s1 ops rs s' ->
      timers_run s (op :: ops) (r :: rs) s'.

(** Ticks an operation advances the clock by, and looks ahead. *)
Definition op_ticks (op : timer_op K T) : Z :=
  match op with TAdvance d => ticks_of tick d | _ => 0 end.
Definition op_reach (op : timer_op K T) : Z :=
  match op with
  | TInsert _ d => Z.max (ticks_of tick d) 1
  | TAdvance d => ticks_of tick d
  | TCancel _ => 0
  end.

(** No deadline of the run passes the end of the 64-bit tick counter. *)
Fixpoint in_horizon (now : Z) (ops : list (timer_op K T)) : Prop :=
  match ops with
  | [] => True
  | op :: ops => now + op_reach op < 2 ^ 64 /\ in_horizon (now + op_ticks op) ops
  end.

Lemma timers_step_now s op r s' : timers_step s op r s' -> tm_now s' = tm_now s + op_ticks op.
Proof. destruct 1; cbn; lia. Qed.

Lemma timers_step_issued s op r s' :
  timers_step s op r s' -> tm_issued s ⊆ tm_issued s'.
Proof. destruct 1; cbn; set_solver. Qed.

(** The life of a timer: until its deadline it stays unless it is cancelled,
    from its deadline on it is gone, and its id does not come back. *)
Lemma timers_step_life s op r s' k d x :
  0 <= op_ticks op ->
  timers_step s op r s' -> op <> TCancel k -> k ∈ tm_issued s ->
  (tm_now s < d -> tm_pending s !! k = Some (d, x)) ->
  (d <= tm_now s -> tm_pending s !! k = None) ->
  (tm_now s' < d -> tm_pending s' !! k = Some (d, x)) /\
  (d <= tm_now s' -> tm_pending s' !! k = None).
Proof.
  intros Ht Hs Hop Hk Hp Hn. destruct Hs as [now P I y delay k' Hk' | now P I k' | now P I el X now' HX];
    cbn [tm_now tm_pending tm_issued op_ticks] in *.
  - rewrite lookup_insert_ne by set_solver. auto.
  - rewrite lookup_delete_ne by congruence. auto.
  - fold now' in Ht |- *. split; intros Hd.
    + apply map_lookup_filter_Some. split; [apply Hp; lia | cbn; lia].
    + apply map_lookup_filter_None. destruct (Z.le_gt_cases d now) as [? | Hg].
      * left. auto.
      * right. intros v Hv. rewrite Hp in Hv by lia. injection Hv as <-. cbn. lia.
Qed.

Lemma timers_run_life s ops rs s' k d x :
  (forall op, 0 <= op_ticks op) ->
  timers_run s ops rs s' -> TCancel k ∉ ops -> k ∈ tm_issued s ->
  (tm_now s < d -> tm_pending s !! k = Some (d, x)) ->
  (d <= tm_now s -> tm_pending s !! k = None) ->
  (tm_now s' < d -> tm_pending s' !! k = Some (d, x)) /\
  (d <= tm_now s' -> tm_pending s' !! k = None).
Proof.
  intros Ht Hr. induction Hr as [| s op r s1 ops rs s' Hs Hr IH]; [done |].
  intros Hn Hk Hp Hg. apply not_elem_of_cons in Hn as [Hop Hn].
  destruct (timers_step_life s op r s1 k d x) as [Hp1 Hg1]; [done.. |].
  apply IH; [done | | done | done]. by apply (timers_step_issued _ _ _ _ Hs).
Qed.

Lemma timers_run_gone s ops rs s' k :
  timers_run s ops rs s' -> k ∈ tm_issued s -> tm_pending s !! k = None ->
  k ∈ tm_issued s' /\ tm_pending s' !! k = None.
Proof.
  induction 1 as [| s op r s1 ops rs s' Hs Hr IH]; [done |]. intros Hk Hn.
  apply IH; [by apply (timers_step_issued _ _ _ _ Hs) |].
  destruct Hs; cbn in *.
  - rewrite lookup_insert_ne; [done | set_solver].
  - apply lookup_delete_None. by right.
  - apply map_lookup_filter_None. by left.
Qed.

End Spec.

(** ** The wheel as a timer service *)

(** A configuration the wheel is accurate for: slot counts are powers of two,
    an L1 tick is at least an L0 tick and at most a revolution of L0. *)
Definition config_ratio (c : WheelConfig) : Z :=
  as_millis_u64 (l1_tick_duration c) / Z.max (as_millis_u64 (l0_tick_duration c)) 1.

Definition config_tick (c : WheelConfig) : Z :=
  Z.max (as_millis_u64 (l0_tick_duration c)) 1.

Definition config_accurate (c : WheelConfig) : Prop :=
  is_power_of_two (l0_slot_count c) = true /\ l0_slot_count c < 2 ^ 64 /\
  is_power_of_two (l1_slot_count c) = true /\ l1_slot_count c < 2 ^ 64 /\
  0 < config_ratio c <= l0_slot_count c.

Section Refinement.
Context {T K M : Type} `{Countable K} `{!SlotMap K (WheelEntry T K) M}
  `{!SlotMapSpec K (WheelEntry T K) M}.

Implicit Types (w : Wheel K M).

(** A client's calls; [advance] is given an empty vector. *)
Definition wheel_exec w (op : timer_op K T) : outcome (Wheel K M * timer_reply K T) :=
  match op with
  | TInsert x delay => r ← insert w x delay; Ret (r.1, Inserted r.2)
  | TCancel id => let (w, o) := cancel w id in Ret (w, Cancelled o)
  | TAdvance elapsed => r ← advance w elapsed []; Ret (r.1, Expired r.2)
  end.

Fixpoint wheel_run w (ops : list (timer_op K T)) : outcome (Wheel K M * list (timer_reply K T)) :=
  match ops with
  | [] => Ret (w, [])
  | op :: ops =>
      r ← wheel_exec w op;
      r' ← wheel_run r.1 ops;
      Ret (r'.1, r.2 :: r'.2)
  end.

Definition abs w : Timers K T :=
  mkTimers (global_tick w) (wheel_pending w) (sm_issued (tasks w)).

(** A wheel some accurate configuration can reach. *)
Definition wheel_wf (tick : Z) w : Prop :=
  exists cap n1 ratio, geometry cap n1 ratio tick /\ wheel_ok cap n1 ratio tick w.

Lemma config_geometry c :
  config_accurate c ->
  geometry (l0_slot_count c) (l1_slot_count c) (config_ratio c) (config_tick c).
Proof.
  intros (H0 & H0' & H1 & H1' & Hr).
  apply is_power_of_two_spec in H0 as (a & Ha & E0), H1 as (b & Hb & E1).
  rewrite E0 in H0'. rewrite E1 in H1'.
  apply Z.pow_lt_mono_r_iff in H0', H1'; try lia.
  split; [exists a | exists b | | unfold config_tick]; lia.
Qed.

Lemma wheel_new_ok c :
  config_accurate c ->
  exists w : Wheel K M, wheel_new c = Ret w /\ wheel_wf (config_tick c) w /\
    abs w = mkTimers 0 ∅ ∅.
Proof.
  intros Hc. pose proof (config_geometry c Hc) as Hg. destruct Hc as (_ & H0 & _ & H1 & _).
  pose proof (cap_pos _ _ _ _ Hg). pose proof (n1_pos _ _ _ _ Hg).
  destruct (wheel_empty_ok (T := T) (K := K) (M := M) _ _ _ _ Hg) as (s0 & s1 & Hw & -> & ->).
  eexists. split_and!; [| eexists _, _, _; split; [exact Hg | exact Hw] |].
  - unfold wheel_new, level_new. rewrite !arith_ok, !bind_ret by (unfold USIZE_BITS; lia).
    unfold quot. destruct (Z.eqb_spec (Z.max (as_millis_u64 (l0_tick_duration c)) 1) 0); [lia |].
    rewrite bind_ret. done.
  - destruct sm_new_spec as [Hm Hi]. unfold abs, wheel_pending. cbn [global_tick tasks mk].
    rewrite Hm, Hi. done.
Qed.

Lemma wheel_exec_ok tick w op :
  wheel_wf tick w -> global_tick w + op_reach tick op < 2 ^ 64 ->
  exists w' r, wheel_exec w op = Ret (w', r) /\ wheel_wf tick w' /\
    timers_step tick (abs w) op r (abs w').
Proof.
  intros (cap & n1 & ratio & Hg & Hw) Hb. destruct op as [x d | k | d]; cbn in Hb |- *.
  - destruct (wheel_insert_ok _ _ _ _ Hg w x d Hw Hb) as (w' & k & He & Hw' & Hk & Hi & Ht & Hp).
    exists w', (Inserted k). rewrite He. split_and!; [done | by exists cap, n1, ratio |].
    unfold abs. rewrite Hi, Ht, Hp. by constructor.
  - destruct (wheel_cancel_ok _ _ _ _ w k Hw) as (w' & He & Hw' & Hi & Ht & Hp).
    eexists w', _. rewrite He. split_and!; [done | by exists cap, n1, ratio |].
    unfold abs. rewrite Hi, Ht, Hp. constructor.
  - destruct (wheel_advance_ok _ _ _ _ Hg w d [] Hw Hb) as (w' & X & He & Hw' & Hi & Ht & Hf).
    exists w', (Expired (items X)). rewrite He. split_and!; [done | by exists cap, n1, ratio |].
    unfold abs. rewrite (fires_filter _ _ _ _ _ _ _ Hf), Hi, Ht. constructor.
    rewrite <- Ht. by eapply fires_perm.
Qed.

Lemma wheel_run_ok tick ops : forall w,
  wheel_wf tick w -> in_horizon tick (global_tick w) ops ->
  exists w' rs, wheel_run w ops = Ret (w', rs) /\ wheel_wf tick w' /\
    timers_run tick (abs w) ops rs (abs w').
Proof.
  induction ops as [| op ops IH]; intros w Hw Hh.
  - exists w, []. split_and!; [done | done | constructor].
  - destruct Hh as [Hb Hh]. destruct (wheel_exec_ok tick w op Hw Hb) as (w1 & r & He & Hw1 & Hs).
    destruct (IH w1) as (w' & rs & Hr & Hw' & Ht); [done | |].
    { pose proof (timers_step_now _ _ _ _ _ Hs) as Hn. cbn in Hn. by rewrite Hn. }
    exists w', (r :: rs). cbn [wheel_run]. rewrite He, bind_ret. cbn [fst].
    rewrite Hr, bind_ret. split_and!; [done | done | by econstructor].
Qed.

Lemma wf_tick_pos tick w : wheel_wf tick w -> 0 < tick.
Proof. intros (? & ? & ? & Hg & _). apply (geo_tick _ _ _ _ Hg). Qed.

Lemma op_ticks_nonneg tick (op : timer_op K T) : 0 < tick -> 0 <= op_ticks tick op.
Proof.
  intros Ht. destruct op; cbn; try lia. apply Z.div_pos; [apply as_millis_nonneg | done].
Qed.

(** C3 Refinement: from a new wheel of an accurate configuration, every
    sequence of inserts, cancels and advances whose clock and deadlines stay
    below 2^64 ticks (the width of the wheel's counter) runs without a panic,
    and each reply is one the abstract timer service gives: a fresh id, the item
    of a timer that is still pending, or exactly the items that are due.  Nothing
    is claimed of a delay that reaches past the counter, such as the longest
    [Duration]. *)
Theorem wheel_refines_timers c ops :
  config_accurate c -> in_horizon (config_tick c) 0 ops ->
  exists (w w' : Wheel K M) rs,
    wheel_new c = Ret w /\ wheel_run w ops = Ret (w', rs) /\
    timers_run (config_tick c) (mkTimers 0 ∅ ∅) ops rs (abs w').
Proof.
  intros Hc Hh. destruct (wheel_new_ok c Hc) as (w & He & Hw & Ha).
  destruct (wheel_run_ok (config_tick c) ops w) as (w' & rs & Hr & _ & Ht); [done | |].
  { by replace (global_tick w) with 0 by (by injection Ha). }
  exists w, w', rs. by rewrite <- Ha.
Qed.

(** One [advance] of a reachable wheel, whatever its timers and however far
    it goes: it returns, appends the due items to the vector (every timer due
    by the new tick, once each, and no other), keeps the rest, and fires them
    in the order of their deadlines when an L1 tick is shorter than L0. *)
Theorem wheel_advance_exact cap n1 ratio tick w elapsed expired :
  geometry cap n1 ratio tick -> wheel_ok cap n1 ratio tick w ->
  global_tick w + ticks_of tick elapsed < 2 ^ 64 ->
  exists w' X,
    advance w elapsed expired = Ret (w', expired ++ items X) /\
    wheel_ok cap n1 ratio tick w' /\
    global_tick w' = global_tick w + ticks_of tick elapsed /\
    X ≡ₚ map_to_list (filter (fun kv => kv.2.1 <= global_tick w') (wheel_pending w)) /\
    wheel_pending w' = filter (fun kv => global_tick w' < kv.2.1) (wheel_pending w) /\
    (ratio < cap -> StronglySorted Z.le (due_at <$> X)).
Proof.
  intros Hg Hw Hb.
  destruct (wheel_advance_ok _ _ _ _ Hg w elapsed expired Hw Hb) as (w' & X & He & Hw' & _ & Ht & Hf).
  exists w', X. split_and!; [done | done | done | by eapply fires_perm | by eapply fires_filter |].
  apply (drains_sorted _ _ _ _ _ _ _ (proj1 Hf)).
Qed.

(** The life of a timer: after [insert] returns an id, and through any calls
    that do not cancel it, the timer is pending until the tick of its deadline
    (at least one tick ahead) and gone from then on; it neither fires early nor
    is lost. *)
Theorem wheel_timer_life tick w x delay w1 (k : K) ops w2 rs :
  wheel_wf tick w -> insert w x delay = Ret (w1, k) ->
  TCancel k ∉ ops -> in_horizon tick (global_tick w) (TInsert x delay :: ops) ->
  wheel_run w1 ops = Ret (w2, rs) ->
  let d := global_tick w + Z.max (ticks_of tick delay) 1 in
  (global_tick w2 < d -> wheel_pending w2 !! k = Some (d, x)) /\
  (d <= global_tick w2 -> wheel_pending w2 !! k = None).
Proof.
  intros Hw Hi Hn [Hb Hh] Hr d. pose proof (wf_tick_pos _ _ Hw) as Htk.
  destruct (wheel_exec_ok tick w (TInsert x delay) Hw Hb) as (w1' & r & He & Hw1 & Hs).
  cbn [wheel_exec] in He. rewrite Hi, bind_ret in He. injection He as <- <-.
  pose proof (timers_step_now _ _ _ _ _ Hs) as Hnow. cbn in Hnow, Hh.
  destruct (wheel_run_ok tick ops w1) as (w2' & rs' & Hr' & _ & Ht); [done | by rewrite Hnow |].
  rewrite Hr in Hr'. injection Hr' as <- <-.
  unfold abs in Hs. inversion Hs; subst.
  assert (Ep : wheel_pending w1 = <[k := (d, x)]> (wheel_pending w)) by done.
  assert (Es : sm_issued (tasks w1) = {[k]} ∪ sm_issued (tasks w)) by done.
  apply (timers_run_life tick _ _ _ _ k d x) in Ht; [done | | done | | |].
  - intros op. by apply op_ticks_nonneg.
  - cbn. rewrite Es. set_solver.
  - intros _. cbn. by rewrite Ep, lookup_insert_eq.
  - cbn. rewrite Hnow. unfold d. lia.
Qed.

(** Cancellation is final: [cancel] returns the item exactly when the timer
    is pending, and an id that was issued and is cancelled never fires and
    never cancels another timer, whatever is inserted afterwards. *)
Theorem wheel_cancel_final tick w (k : K) w1 o ops w2 rs :
  wheel_wf tick w -> cancel w k = (w1, o) -> k ∈ sm_issued (tasks w) ->
  in_horizon tick (global_tick w) ops -> wheel_run w1 ops = Ret (w2, rs) ->
  o = snd <$> wheel_pending w !! k /\ wheel_pending w2 !! k = None /\
  snd (cancel w2 k) = None.
Proof.
  intros (cap & n1 & ratio & Hg & Hw) Hc Hk Hh Hr.
  destruct (wheel_cancel_ok _ _ _ _ w k Hw) as (w1' & He & Hw1 & Hi & Ht & Hp).
  rewrite Hc in He. injection He as <- ->.
  destruct (wheel_run_ok tick ops w1) as (w2' & rs' & Hr' & Hw2 & Htr);
    [by exists cap, n1, ratio | by rewrite Ht |].
  rewrite Hr in Hr'. injection Hr' as <- <-.
  apply timers_run_gone with (k := k) in Htr as [_ Hgone]; cbn in *.
  - split_and!; [done | done |]. destruct Hw2 as (cap' & n1' & ratio' & Hg' & Hw2).
    destruct (wheel_cancel_ok _ _ _ _ w2 k Hw2) as (w3 & He3 & _). rewrite He3. cbn.
    by rewrite Hgone.
  - by rewrite Hi.
  - rewrite Hp. apply lookup_delete_eq.
Qed.

End Refinement.

(** ** [next_timeout] *)

Section NextTimeout.
Context {T K M : Type} `{Countable K} `{!SlotMap K (WheelEntry T K) M}
  `{!SlotMapSpec K (WheelEntry T K) M}.

(** The scan finds the first occupied slot from [start + i] on. *)
Lemma scan_slots_ok (ss : list (option K)) b start n : forall i,
  0 <= b < 64 -> Z.of_nat (length ss) = 2 ^ b -> 0 <= start -> 0 <= i ->
  start + i + Z.of_nat n <= 2 ^ 64 ->
  let at_ j := ss !! Z.to_nat ((start + j) mod 2 ^ b) in
  exists o, scan_slots n i start (mkLevel ss (2 ^ b - 1)) = Ret o /\
  match o with
  | Some (j, idx) =>
      i <= j < i + Z.of_nat n /\ idx = (start + j) mod 2 ^ b /\
      (exists h, at_ j = Some (Some h)) /\ forall j', i <= j' < j -> at_ j' = Some None
  | None => forall j', i <= j' < i + Z.of_nat n -> at_ j' = Some None
  end.
Proof.
  induction n as [| n IH]; intros i Hb Hlen Hs Hi Hmax at_.
  - exists None. split; [done |]. intros j' Hj'. lia.
  - cbn [scan_slots]. rewrite arith_ok, bind_ret by (unfold USIZE_BITS; lia).
    cbn [mask slots]. rewrite land_mask by lia.
    assert (Hr : 0 <= (start + i) mod 2 ^ b < 2 ^ b) by (apply Z.mod_pos_bound, pow2_pos; lia).
    destruct (vec_get_in_range ss ((start + i) mod 2 ^ b)) as (o & Ho & Hl); [lia |].
    rewrite Ho, bind_ret. destruct o as [h |].
    + exists (Some (i, (start + i) mod 2 ^ b)). split_and!; [done | lia | lia | done | by exists h |].
      intros j' Hj'. lia.
    + destruct (IH (i + 1)) as (o & He & Hm); [done | done | done | lia | lia |].
      exists o. split; [done |]. destruct o as [[j idx] |].
      * destruct Hm as (Hj & Hidx & Hocc & Hfree). split_and!; [lia | lia | done | done |].
        intros j' Hj'. destruct (Z.eq_dec j' i) as [-> | ?]; [done |]. apply Hfree. lia.
      * intros j' Hj'. destruct (Z.eq_dec j' i) as [-> | ?]; [done |]. apply Hm. lia.
Qed.

Variables (cap n1 ratio tick : Z).
Hypothesis Hgeo : geometry cap n1 ratio tick.

(** An occupied slot holds an entry, an empty slot none. *)
Lemma slot_head_entry E R g c s0 s1 l i k :
  winv (T := T) (K := K) cap n1 ratio R E g c s0 s1 -> (l = 0 \/ l = 1) -> 0 <= i ->
  (if l =? 0 then s0 else s1) !! Z.to_nat i = Some (Some k) ->
  exists e, E !! k = Some e /\ at_slot cap n1 ratio l i e.
Proof.
  intros Hw Hl Hi Hk.
  assert (Hs : slot_ok E R (Some k) (at_slot cap n1 ratio l i)).
  { destruct Hl as [-> | ->]; [by apply (wi_slots0 _ _ _ _ _ _ _ _ _ Hw) |
      by apply (wi_slots1 _ _ _ _ _ _ _ _ _ Hw)]. }
  destruct Hs as (ks & _ & Hc & Hks). destruct ks as [| k' ks]; [done |].
  destruct Hc as [[= <-] _]. destruct (Hks k) as [Hks' _].
  destruct Hks' as (_ & He); [by left | done].
Qed.

Lemma slot_none_entry E g c s0 s1 l i k e :
  winv (T := T) (K := K) cap n1 ratio [] E g c s0 s1 -> (l = 0 \/ l = 1) -> 0 <= i ->
  (if l =? 0 then s0 else s1) !! Z.to_nat i = Some None ->
  E !! k = Some e -> ~ at_slot cap n1 ratio l i e.
Proof.
  intros Hw Hl Hi Hk He Ha.
  assert (Hs : slot_ok E [] None (at_slot cap n1 ratio l i)).
  { destruct Hl as [-> | ->]; [by apply (wi_slots0 _ _ _ _ _ _ _ _ _ Hw) |
      by apply (wi_slots1 _ _ _ _ _ _ _ _ _ Hw)]. }
  destruct Hs as (ks & _ & Hc & Hks). destruct ks as [| k' ks]; [| by destruct Hc].
  assert (k ∈ ([] : list K)) as []%not_elem_of_nil. apply Hks. split; [set_solver | eauto].
Qed.

(** The scan of L0 from the current tick. *)
Lemma scan_l0 (w : Wheel K M) m gt s0 s1 :
  0 <= gt < 2 ^ 64 -> winv cap n1 ratio [] (sm_map m) gt (gt / ratio) s0 s1 ->
  exists o, scan_slots (length s0) 0 (Z.land gt (cap - 1)) (mkLevel s0 (cap - 1)) = Ret o /\
  match o with
  | Some (j, _) =>
      0 < j < cap /\
      (exists k e, sm_map m !! k = Some e /\ level e = 0 /\ deadline e = gt + j) /\
      forall k e, sm_map m !! k = Some e -> level e = 0 -> gt + j <= deadline e
  | None => forall k e, sm_map m !! k = Some e -> level e <> 0
  end.
Proof.
  intros Hgt Hw. pose proof (cap_pos _ _ _ _ Hgeo) as Hcap.
  pose proof (wi_len0 _ _ _ _ _ _ _ _ _ Hw) as Hlen.
  rewrite (land_cap _ _ _ _ Hgeo). destruct (geo_cap _ _ _ _ Hgeo) as (a & Ha & Ec).
  assert (Hc63 : cap <= 2 ^ 63) by (rewrite Ec; apply Z.pow_le_mono_r; lia).
  assert (Hr : 0 <= gt mod cap < cap) by (apply Z.mod_pos_bound; lia).
  destruct (scan_slots_ok s0 a (gt mod cap) (length s0) 0) as (o & He & Ho); [lia.. |].
  rewrite <- Ec in He, Ho. exists o. split; [done |]. cbn zeta in Ho.
  assert (Hpl : forall k e, sm_map m !! k = Some e -> level e = 0 -> gt < deadline e < gt + cap).
  { intros k e Hk Hl. destruct (wi_placed _ _ _ _ _ _ _ _ _ Hw _ _ Hk) as [[_ ?] | [? _]];
      [set_solver | done | lia]. }
  assert (Hidx : forall j, (gt mod cap + j) mod cap = (gt + j) mod cap)
    by (intros; by rewrite Zplus_mod_idemp_l).
  assert (Hno : forall j k e, s0 !! Z.to_nat ((gt mod cap + j) mod cap) = Some None ->
    sm_map m !! k = Some e -> level e = 0 -> deadline e <> gt + j).
  { intros j k e Hn Hk Hl Hd. rewrite Hidx in Hn.
    apply (slot_none_entry _ _ _ _ _ 0 ((gt + j) mod cap) k e Hw);
      [by left | apply Z.mod_pos_bound; lia | done | done |].
    split; [done |]. unfold slot_of. cbn. by rewrite Hd. }
  destruct o as [[j idx] |].
  - destruct Ho as (Hj & -> & (k & Hk) & Hfree).
    destruct (slot_head_entry _ _ _ _ _ _ 0 ((gt mod cap + j) mod cap) k Hw)
      as (e & Hke & Hl & Hs); [by left | apply Z.mod_pos_bound; lia | done |].
    rewrite Hidx in Hs. unfold slot_of in Hs. cbn in Hs.
    pose proof (Hpl _ _ Hke Hl) as Hd.
    assert (Hdj : deadline e = gt + j).
    { assert (Hz : (deadline e - (gt + j)) mod cap = 0).
      { rewrite Zminus_mod, Hs, Z.sub_diag. apply Z.mod_0_l. lia. }
      apply Z.mod_divide in Hz as [q Hq]; [| lia].
      assert (- cap < q * cap < cap) by lia. assert (q = 0) by nia. lia. }
    split_and!; [lia | lia | by exists k, e |].
    intros k' e' Hk' Hl'. pose proof (Hpl _ _ Hk' Hl') as Hd'.
    destruct (Z.le_gt_cases (gt + j) (deadline e')) as [? | Hlt]; [done |].
    exfalso. apply (Hno (deadline e' - gt) k' e'); [| done | done | lia].
    apply Hfree. lia.
  - intros k e Hk Hl. pose proof (Hpl _ _ Hk Hl) as Hd.
    apply (Hno (deadline e - gt) k e); [| done | done | lia]. apply Ho. lia.
Qed.

(** [next_timeout] with timers in L0: it is the exact time to the earliest
    entry of L0 (a cancelled entry counts until its tick passes), never zero. *)
Theorem next_timeout_l0 w :
  wheel_ok cap n1 ratio tick w -> cap * tick < 2 ^ 64 ->
  (exists k e, sm_map (tasks w) !! k = Some e /\ level e = 0) ->
  exists j, next_timeout w = Ret (Some (from_millis (j * tick))) /\ 0 < j < cap /\
    (exists k e, sm_map (tasks w) !! k = Some e /\ level e = 0 /\
       deadline e = global_tick w + j) /\
    forall k e, sm_map (tasks w) !! k = Some e -> level e = 0 -> global_tick w + j <= deadline e.
Proof.
  intros (m & gt & s0 & s1 & -> & Hgt & Hw) Hb (k & e & Hk & Hl). cbn [tasks mk global_tick] in *.
  pose proof (geo_tick _ _ _ _ Hgeo). unfold next_timeout.
  destruct (scan_l0 (mk cap n1 ratio tick m gt s0 s1) m gt s0 s1 Hgt Hw) as (o & He & Ho).
  destruct o as [[j idx] |]; [| by destruct (Ho k e)]. destruct Ho as (Hj & Hex & Hall).
  exists j. split_and!; [| lia | lia | done | done].
  cbn [tasks mk]. rewrite sm_is_empty_spec, bool_decide_eq_false_2.
  2: { intros E0. by rewrite E0, lookup_empty in Hk. }
  rewrite levels0, bind_ret. cbn [slots mask]. cbn [global_tick mk]. rewrite He, bind_ret.
  cbn [tick_duration_ms mk]. rewrite arith_ok, bind_ret by (unfold U64; nia). done.
Qed.

(** The scan of L1 from the L1 tick [c], when the slot of [c] is empty. *)
Lemma scan_l1 m g c s0 s1 :
  0 <= c < 2 ^ 64 -> winv cap n1 ratio [] (sm_map m) g c s0 s1 ->
  (forall k e, sm_map m !! k = Some e -> level e = 1) ->
  (exists k, is_Some (sm_map m !! k)) ->
  (forall k e, sm_map m !! k = Some e -> (deadline e / ratio) mod n1 <> c mod n1) ->
  exists j, scan_slots (length s1) 0 (Z.land c (n1 - 1)) (mkLevel s1 (n1 - 1)) =
      Ret (Some (j, (c + j) mod n1)) /\
    0 < j < n1 /\ forall k e, sm_map m !! k = Some e -> c + j <= deadline e / ratio.
Proof.
  intros Hc Hw Hl1 (k0 & e0 & He0) Hno. pose proof (n1_pos _ _ _ _ Hgeo) as Hn1.
  pose proof (wi_len1 _ _ _ _ _ _ _ _ _ Hw) as Hlen.
  rewrite (land_n1 _ _ _ _ Hgeo). destruct (geo_n1 _ _ _ _ Hgeo) as (a & Ha & Ec).
  assert (Hc63 : n1 <= 2 ^ 63) by (rewrite Ec; apply Z.pow_le_mono_r; lia).
  assert (Hr : 0 <= c mod n1 < n1) by (apply Z.mod_pos_bound; lia).
  destruct (scan_slots_ok s1 a (c mod n1) (length s1) 0) as (o & He & Ho); [lia.. |].
  rewrite <- Ec in He, Ho. cbn zeta in Ho.
  assert (Hidx : forall j, (c mod n1 + j) mod n1 = (c + j) mod n1)
    by (intros; by rewrite Zplus_mod_idemp_l).
  (* an entry at distance [q] in L1 ticks occupies the slot at distance [q mod n1] *)
  assert (Hocc : forall k e, sm_map m !! k = Some e ->
    s1 !! Z.to_nat ((c mod n1 + (deadline e / ratio - c) mod n1) mod n1) <> Some None).
  { intros k e Hk Hn. rewrite Hidx, Zplus_mod_idemp_r in Hn.
    replace (c + (deadline e / ratio - c)) with (deadline e / ratio) in Hn by lia.
    apply (slot_none_entry _ _ _ _ _ 1 ((deadline e / ratio) mod n1) k e Hw);
      [by right | apply Z.mod_pos_bound; lia | done | done |]. split; [by eapply Hl1 | done]. }
  assert (Hdist : forall d, 0 <= (d - c) mod n1 < n1) by (intros; apply Z.mod_pos_bound; lia).
  destruct o as [[j idx] |].
  2: { exfalso. apply (Hocc k0 e0 He0), Ho. specialize (Hdist (deadline e0 / ratio)). lia. }
  destruct Ho as (Hj & -> & (k & Hk) & Hfree). exists j. rewrite Hidx in He. split; [done |].
  assert (j <> 0).
  { intros ->. destruct (slot_head_entry _ _ _ _ _ _ 1 ((c mod n1 + 0) mod n1) k Hw)
      as (e & Hke & _ & Hs); [by right | apply Z.mod_pos_bound; lia | done |].
    apply (Hno k e Hke). unfold slot_of in Hs. cbn in Hs. by rewrite Hs, Hidx, Z.add_0_r. }
  split; [lia |]. intros k' e' Hk'.
  destruct (wi_placed _ _ _ _ _ _ _ _ _ Hw _ _ Hk') as [[Hx _] | [_ Hd]];
    [set_solver | rewrite (Hl1 k' e' Hk') in Hx; lia |].
  assert (j <= (deadline e' / ratio - c) mod n1).
  { destruct (Z.le_gt_cases j ((deadline e' / ratio - c) mod n1)) as [? | Hlt]; [done |].
    exfalso. apply (Hocc k' e' Hk'), Hfree. specialize (Hdist (deadline e' / ratio)). lia. }
  pose proof (Z.mod_le (deadline e' / ratio - c) n1). lia.
Qed.

(** [next_timeout] with timers only in L1, none of them a full revolution of
    L1 ahead in the current slot: a later tick, and no entry is due before it,
    so a driver that sleeps this long is not late. *)
Theorem next_timeout_l1 w :
  wheel_ok cap n1 ratio tick w ->
  (forall k e, sm_map (tasks w) !! k = Some e ->
     level e = 1 /\ (deadline e / ratio) mod n1 <> (global_tick w / ratio) mod n1) ->
  (exists k, is_Some (sm_map (tasks w) !! k)) ->
  (global_tick w / ratio + n1) * ratio * tick < 2 ^ 64 ->
  exists j, next_timeout w = Ret (Some (from_millis (j * tick))) /\ 0 < j /\
    forall k e, sm_map (tasks w) !! k = Some e -> global_tick w + j <= deadline e.
Proof.
  intros (m & gt & s0 & s1 & -> & Hgt & Hw) Hl1 Hex Hb. cbn [tasks mk global_tick] in *.
  pose proof (geo_tick _ _ _ _ Hgeo) as Htk. pose proof (geo_ratio _ _ _ _ Hgeo) as Hr.
  pose proof (n1_pos _ _ _ _ Hgeo) as Hn1.
  assert (Hc : 0 <= gt / ratio < 2 ^ 64).
  { split; [apply Z.div_pos; lia |]. apply Z.div_lt_upper_bound; nia. }
  destruct (scan_l1 m gt (gt / ratio) s0 s1) as (j & He & Hj & Hall);
    [done | done | naive_solver | done | naive_solver |].
  destruct (scan_l0 (mk cap n1 ratio tick m gt s0 s1) m gt s0 s1 Hgt Hw) as (o & He0 & Ho).
  destruct o as [[j0 idx] |].
  { destruct Ho as (_ & (k & e & Hk & Hx & _) & _). destruct (Hl1 k e Hk). lia. }
  set (c := gt / ratio) in *. set (start := (c + j) * ratio).
  pose proof (Z.div_mod gt ratio ltac:(lia)) as Hdm. fold c in Hdm.
  pose proof (Z.mod_pos_bound gt ratio ltac:(lia)) as Hmb.
  assert (Hst : gt < start <= (c + n1) * ratio) by (unfold start; nia).
  assert (Hsz : start < 2 ^ 64) by nia.
  exists (start - gt). split_and!; [| lia |].
  2: { intros k e Hk. specialize (Hall k e Hk). pose proof (Z.mul_div_le (deadline e) ratio).
       unfold start. nia. }
  unfold next_timeout. cbn [tasks mk]. rewrite sm_is_empty_spec, bool_decide_eq_false_2.
  2: { intros E0. destruct Hex as (k & e & Hk). by rewrite E0, lookup_empty in Hk. }
  rewrite levels0, bind_ret. cbn [slots mask]. cbn [global_tick mk]. rewrite He0, bind_ret.
  unfold quot. cbn [l1_tick_ratio mk]. destruct (Z.eqb_spec ratio 0); [lia |].
  rewrite bind_ret, levels1, bind_ret. cbn [slots mask]. fold c. rewrite He, bind_ret.
  assert (Hdiff : Z.land (wrapping_sub USIZE_BITS ((c + j) mod n1) c) (n1 - 1) = j).
  { rewrite (land_n1 _ _ _ _ Hgeo). unfold wrapping_sub, wrap, USIZE_BITS.
    destruct (geo_n1 _ _ _ _ Hgeo) as (a & Ha & Ea).
    rewrite <- (Znumtheory.Zmod_div_mod n1 (2 ^ 64));
      [| lia | lia | rewrite Ea; exists (2 ^ (64 - a)); rewrite <- Z.pow_add_r by lia; f_equal; lia].
    rewrite Zminus_mod_idemp_l. replace (c + j - c) with j by lia. apply Z.mod_small. lia. }
  rewrite Hdiff. cbn [tick_duration_ms mk l1_tick_ratio].
  assert (c + j < 2 ^ 64) by (unfold start in Hsz; nia).
  assert (Hs0 : 0 <= start < 2 ^ U64) by (unfold U64; split; [lia | exact Hsz]).
  rewrite (arith_ok U64 (c + j)), bind_ret by (unfold U64; lia). fold start.
  rewrite (arith_ok _ _ Hs0), bind_ret.
  destruct (Z.leb_spec start gt); [lia |]. rewrite bind_ret. fold start.
  rewrite (arith_ok _ _ Hs0), bind_ret.
  unfold saturating_sub. rewrite Z.max_r by lia.
  rewrite arith_ok, bind_ret by (unfold U64; nia). done.
Qed.

End NextTimeout.

(** ** Concrete wheels *)

Notation cwheel := (Wheel nat (CounterMap (WheelEntry nat nat))).

(** A wheel of a configuration after some calls. *)
Definition run_config (c : WheelConfig) (ops : list (timer_op nat nat))
    : outcome (cwheel * list (timer_reply nat nat)) :=
  w ← wheel_new c; wheel_run w ops.

(** 20 ms and 6 s timers, the first cancelled, then 7 s pass. *)
Definition ex_ops : list (timer_op nat nat) :=
  [TInsert 7%nat (from_millis 20); TInsert 8%nat (from_secs 6); TInsert 9%nat (from_secs 5);
   TCancel 0%nat; TAdvance (from_secs 7)].

Example ex_run :
  match run_config wheel_config_default ex_ops with Ret r => r.2 | _ => [] end =
  [Inserted 0%nat; Inserted 1%nat; Inserted 2%nat; Cancelled (Some 7%nat);
        Expired [9%nat; 8%nat]].
Proof. vm_compute. reflexivity. Qed.

Lemma default_accurate : config_accurate wheel_config_default.
Proof. vm_compute. split_and!; done. Qed.

Lemma wheel_refines_timers_witness :
  config_accurate wheel_config_default /\ in_horizon (config_tick wheel_config_default) 0 ex_ops /\
  exists (w w' : cwheel) rs,
    wheel_new wheel_config_default = Ret w /\ wheel_run w ex_ops = Ret (w', rs) /\
    timers_run (config_tick wheel_config_default) (mkTimers 0 ∅ ∅) ex_ops rs (abs w').
Proof.
  assert (Hh : in_horizon (config_tick wheel_config_default) 0 ex_ops)
    by (vm_compute; split_and!; done).
  split_and!; [apply default_accurate | exact Hh |].
  exact (wheel_refines_timers (M := CounterMap (WheelEntry nat nat))
    wheel_config_default ex_ops default_accurate Hh).
Defined.

(** A small wheel, empty: 8 slots of 10 ms, 4 slots of 4 ticks. *)
Definition ex_wheel : cwheel :=
  mk 8 4 4 10 sm_new 0 (replicate 8 None) (replicate 4 None).

Lemma ex_geometry : geometry 8 4 4 10.
Proof. split; [by exists 3 | by exists 2 | lia | lia]. Qed.

Lemma ex_wheel_ok : wheel_ok 8 4 4 10 ex_wheel.
Proof.
  destruct (wheel_empty_ok (T := nat) (K := nat) (M := CounterMap (WheelEntry nat nat))
    8 4 4 10 ex_geometry) as (s0 & s1 & Hw & -> & ->). exact Hw.
Qed.

Lemma ex_wheel_wf : wheel_wf 10 ex_wheel.
Proof. exists 8, 4, 4. split; [apply ex_geometry | apply ex_wheel_ok]. Qed.

(** Wheels with one timer, of 30 ms and of 120 ms. *)
Definition ex_with (d : Duration) : cwheel :=
  match insert ex_wheel 5%nat d with Ret (w, _) => w | _ => ex_wheel end.

Lemma ex_with_ok d :
  0 <= ticks_of 10 d < 2 ^ 63 -> wheel_ok 8 4 4 10 (ex_with d).
Proof.
  intros Hd. destruct (wheel_insert_ok 8 4 4 10 ex_geometry ex_wheel 5%nat d ex_wheel_ok)
    as (w' & k & He & Hw & _); [cbn [global_tick ex_wheel mk]; lia |].
  unfold ex_with. by rewrite He.
Qed.

Lemma wheel_advance_exact_witness :
  exists w' (X : list (nat * (Z * nat))), advance (ex_with (from_millis 120)) (from_millis 140) [1%nat] = Ret (w', [1%nat] ++ items X) /\
    length X = 1%nat.
Proof.
  assert (Hb : 0 <= ticks_of 10 (from_millis 120) < 2 ^ 63) by (vm_compute; split; done).
  destruct (wheel_advance_exact 8 4 4 10 (ex_with (from_millis 120)) (from_millis 140) [1%nat]
    ex_geometry (ex_with_ok _ Hb)) as (w' & X & He & _ & Ht & HX & _); [vm_compute; done |].
  exists w', X. split; [exact He |]. rewrite HX, Ht. vm_compute. reflexivity.
Defined.

Lemma wheel_timer_life_witness :
  exists w2 rs, wheel_run (ex_with (from_millis 30)) [TAdvance (from_millis 20)] = Ret (w2, rs) /\
    wheel_pending w2 !! 0%nat = Some (3, 5%nat).
Proof.
  destruct (wheel_run (ex_with (from_millis 30)) [TAdvance (from_millis 20)])
    as [[w2 rs] |] eqn:Hr; [| vm_compute in Hr; discriminate].
  assert (Ht : global_tick w2 = 2) by (vm_compute in Hr; injection Hr as <- _; reflexivity).
  exists w2, rs. split; [done |].
  assert (Hi : insert ex_wheel 5%nat (from_millis 30) = Ret (ex_with (from_millis 30), 0%nat))
    by (vm_compute; reflexivity).
  assert (Hn : TCancel 0%nat ∉ [TAdvance (T := nat) (from_millis 20)])
    by (apply not_elem_of_cons; split; [discriminate | apply not_elem_of_nil]).
  assert (Hh : in_horizon 10 (global_tick ex_wheel)
    [TInsert 5%nat (from_millis 30); TAdvance (K := nat) (from_millis 20)])
    by (vm_compute; split_and!; done).
  pose proof (wheel_timer_life 10 ex_wheel 5%nat (from_millis 30) (ex_with (from_millis 30)) 0%nat
    [TAdvance (from_millis 20)] w2 rs ex_wheel_wf Hi Hn Hh Hr) as [Hp _].
  apply Hp. rewrite Ht. vm_compute. reflexivity.
Defined.

Lemma wheel_cancel_final_witness :
  exists w1 w2 rs, cancel (ex_with (from_millis 30)) 0%nat = (w1, Some 5%nat) /\
    wheel_run w1 [TInsert 6%nat (from_millis 30)] = Ret (w2, rs) /\
    snd (cancel w2 0%nat) = None.
Proof.
  destruct (cancel (ex_with (from_millis 30)) 0%nat) as [w1 o] eqn:Hc.
  destruct (wheel_run w1 [TInsert 6%nat (from_millis 30)]) as [[w2 rs] |] eqn:Hr;
    [| vm_compute in Hc; injection Hc as <- <-; vm_compute in Hr; discriminate].
  exists w1, w2, rs.
  assert (Hw : wheel_wf 10 (ex_with (from_millis 30))).
  { exists 8, 4, 4. split; [apply ex_geometry | apply ex_with_ok; vm_compute; split; done]. }
  split; [vm_compute in Hc; injection Hc as <- <-; reflexivity |]. split; [done |].
  apply (wheel_cancel_final 10 (ex_with (from_millis 30)) 0%nat w1 o
    [TInsert 6%nat (from_millis 30)] w2 rs Hw Hc);
    [apply elem_of_set_seq; vm_compute; lia | vm_compute; split_and!; done | exact Hr].
Defined.

Lemma next_timeout_l0_witness :
  exists j, next_timeout (ex_with (from_millis 30)) = Ret (Some (from_millis (j * 10))) /\ 0 < j < 8.
Proof.
  destruct (next_timeout_l0 8 4 4 10 ex_geometry (ex_with (from_millis 30)))
    as (j & He & Hj & _);
    [apply ex_with_ok; vm_compute; split; done | vm_compute; reflexivity | | exists j; split; [exact He | exact Hj]].
  exists 0%nat. eexists. split; [vm_compute; reflexivity | vm_compute; reflexivity].
Defined.

Lemma next_timeout_l1_witness :
  exists j, next_timeout (ex_with (from_millis 120)) = Ret (Some (from_millis (j * 10))) /\ 0 < j.
Proof.
  assert (Hm : sm_map (tasks (ex_with (from_millis 120))) =
    {[0%nat := mkEntry (Some 5%nat) 12 None 1 3]}) by (vm_compute; reflexivity).
  destruct (next_timeout_l1 8 4 4 10 ex_geometry (ex_with (from_millis 120)))
    as (j & He & Hj & _);
    [apply ex_with_ok; vm_compute; split; done | | | vm_compute; reflexivity | exists j; split; [exact He | exact Hj]].
  - intros k e. rewrite Hm. intros [<- <-]%lookup_singleton_Some. vm_compute. split; done.
  - exists 0%nat. rewrite Hm. by eexists.
Defined.

(** ** Where the wheel is inaccurate *)

(** The pending timer [k] of the wheel is due before [next_timeout] ends. *)
Definition oversleeps (w : cwheel) (k : nat) : bool :=
  match wheel_pending w !! k, next_timeout w with
  | Some (d, _), Ret (Some t) => from_millis ((d - global_tick w) * tick_duration_ms w) <? t
  | _, _ => false
  end.

Definition ops_revolution : list (timer_op nat nat) :=
  [TInsert 1%nat (from_secs 64); TInsert 2%nat (from_secs 10)].
Definition ops_two_levels : list (timer_op nat nat) :=
  [TInsert 1%nat (from_millis 5120); TAdvance (from_millis 900); TInsert 2%nat (from_secs 5)].

(** [next_timeout] may be later than the deadline of a pending timer, with
    the default configuration.  With timers of 64 s and 10 s the scan of L1
    starts at the slot of the current L1 tick, which holds the 64 s timer, and
    the answer is 64 s.  And a timer of L0 hides a nearer one that still waits
    in L1: 5.12 s set at 0, 5 s set at 0.9 s, and the answer at 0.9 s is 5 s
    although the first is due in 4.22 s.  A driver that parks for that long
    fires the timer late. *)
Theorem next_timeout_oversleeps :
  (exists w rs, run_config wheel_config_default ops_revolution = Ret (w, rs) /\
     oversleeps w 1 = true /\ next_timeout w = Ret (Some (from_secs 64))) /\
  (exists w rs, run_config wheel_config_default ops_two_levels = Ret (w, rs) /\
     oversleeps w 0 = true /\ next_timeout w = Ret (Some (from_secs 5))).
Proof.
  split; [destruct (run_config wheel_config_default ops_revolution) as [[w rs] |] eqn:E |
    destruct (run_config wheel_config_default ops_two_levels) as [[w rs] |] eqn:E];
    vm_compute in E; try discriminate; injection E as <- <-; eexists _, _;
    (split; [reflexivity |]); split; vm_compute; reflexivity.
Qed.

(** 64 slots of 10 ms, 64 slots of 1 s: an L1 tick is longer than L0. *)
Definition builder_short_l0 : WheelConfigBuilder := with_l0_slot_count builder 64.

Definition build_run (b : WheelConfigBuilder) (ops : list (timer_op nat nat))
    : outcome (list (timer_reply nat nat)) :=
  match build b with
  | Ok c => r ← run_config c ops; Ret r.2
  | Err _ => Fault ExpectFailed
  end.

(** The builder accepts an L1 tick longer than a revolution of L0, and then
    a timer can be more than a minute late: with 64 slots of 10 ms under 64
    slots of 1 s a timer of 700 ms is put into the L1 slot that was just
    cascaded; it has not fired after 63.99 s, and fires at 64 s. *)
Theorem wheel_short_l0_late :
  build_run builder_short_l0 [TInsert 1%nat (from_millis 700); TAdvance (from_millis 63990);
    TAdvance (from_millis 10)] = Ret [Inserted 0%nat; Expired []; Expired [1%nat]].
Proof. vm_compute. reflexivity. Qed.

(** 500 microseconds for both ticks. *)
Definition builder_sub_milli : WheelConfigBuilder :=
  with_l1_tick_duration (with_l0_tick_duration builder 500000) 500000.

(** The builder accepts ticks below a millisecond, both of them zero in whole
    milliseconds (zero is a multiple of zero); the ratio of the wheel is then
    zero, and the first [advance] of a millisecond divides by it. *)
Theorem wheel_sub_milli_panics :
  build_run builder_sub_milli [TAdvance (from_millis 1)] = Fault DivideByZero.
Proof. vm_compute. reflexivity. Qed.
