(* ===== verification/Chunk.v ===== *)
(** * veloq-buf [heap/pool.rs]: memory chunks

    A chunk is a region of memory cut into shards of equal size, each with its
    own buddy allocator, and an array of superblock states, one per 64 slots.
    Requests of order 0 take a whole superblock from a shard and one slot of it;
    larger requests go to a shard directly.

    The nodes of free blocks live in the memory of their shard, so a shard is
    its allocator with the part of memory that holds its nodes.  A mutex that
    [try_lock] finds taken is an argument ([contended]); so are the answers of
    the operating system ([Os]) and the hash of the current thread. *)

From Stdlib Require Import Znumtheory Zpow_facts.
From stdpp Require Import strings.
From S2P Require Import Prelude BitSet IntrusiveList Units Buddy Superblock.

(** ** Errors and the platform *)

Inductive SystemError : Type := Os_err (errno : Z).

(** [BufError], without [Layout], which wraps a type of the standard library. *)
Inductive BufError : Type :=
  | BufOom
  | BufSystem (e : SystemError)
  | BufOther (s : string)
  | AllocFailed (s : string)
  | ChunkTooSmall
  | PageUnaligned (size : Z)
  | ChunkMissing (chunk_id : Z)
  | InvalidChunkId
  | IdOverflow.

(** The operating system as one call sees it: [mmap] with and without huge
    pages, the number of CPUs, the contents of fresh memory. *)
Record Os : Type := mkOs {
  os_alloc_huge_pages : Z -> result Z SystemError;
  os_alloc_pages : Z -> result Z SystemError;
  os_parallelism : option Z;
  os_mem : mem
}.

(** ** Memory *)

Record MemoryChunk : Type := mkMemory { mc_ptr : Z; mc_size : Z }.

Definition memory_chunk_new (os : Os) (size : Z) : result MemoryChunk BufError :=
  let non_null (p : Z) :=
    if p =? 0 then Err (AllocFailed "Allocation returned null pointer")
    else Ok (mkMemory p size) in
  match os_alloc_huge_pages os size with
  | Ok p => non_null p
  | Err _ =>
      match os_alloc_pages os size with
      | Ok p => non_null p
      | Err e => Err (BufSystem e)
      end
  end.

Definition memory_as_ptr (m : MemoryChunk) : Z := mc_ptr m.
Definition memory_len (m : MemoryChunk) : Z := mc_size m.
Definition memory_is_empty (m : MemoryChunk) : bool := memory_len m =? 0.

(** ** Chunks *)

Notation shard := (mem * BuddyAllocator)%type.

Record Chunk : Type := mkChunk {
  ck_id : Z;
  ck_shards : list shard;
  ck_superblocks : list SuperblockState;
  ck_memory : MemoryChunk;
  ck_slots_per_shard : Z
}.

Definition set_shards (c : Chunk) (ss : list shard) : Chunk :=
  mkChunk (ck_id c) ss (ck_superblocks c) (ck_memory c) (ck_slots_per_shard c).
Definition set_superblocks (c : Chunk) (sbs : list SuperblockState) : Chunk :=
  mkChunk (ck_id c) (ck_shards c) sbs (ck_memory c) (ck_slots_per_shard c).

(** The number of shards: a power of two, at least 16 and at least the number
    of CPUs, but no more than there are superblocks. *)
Definition shard_count_for (parallelism total_slots : Z) : Z :=
  let shard_count := Z.max (next_power_of_two parallelism) 16 in
  let max_shards := superblock_count total_slots in
  if (0 <? max_shards) && (max_shards <? shard_count) then
    Z.shiftl 1 (USIZE_BITS - 1 - leading_zeros USIZE_BITS max_shards)
  else if max_shards =? 0 then 1
  else shard_count.

(** [for i in i..shard_count]: one allocator per slice. *)
Fixpoint init_shards (n : nat) (i : Z) (m : mem) (base_ptr bytes_per_shard : Z)
    : outcome (list shard) :=
  match n with
  | O => Ret []
  | S n =>
      offset_bytes ← arith USIZE_BITS (i * bytes_per_shard);
      s ← buddy_new m (base_ptr + offset_bytes) bytes_per_shard;
      rest ← init_shards n (i + 1) m base_ptr bytes_per_shard;
      Ret (s :: rest)
  end.

Definition chunk_new (os : Os) (id size : Z) : outcome (result Chunk BufError) :=
  match memory_chunk_new os size with
  | Err e => Ret (Err e)
  | Ok chunk =>
      let total_slots := slot_count size in
      let parallelism := default 1 (os_parallelism os) in
      let shard_count := shard_count_for parallelism total_slots in
      slots_per_shard ← per_shard total_slots shard_count;
      bytes_per_shard ← slot_count_bytes slots_per_shard;
      if slots_per_shard =? 0 then Ret (Err ChunkTooSmall) else
      shards ← init_shards (Z.to_nat shard_count) 0 (os_mem os) (memory_as_ptr chunk) bytes_per_shard;
      let states := replicate (Z.to_nat (superblock_count total_slots)) sb_new in
      Ret (Ok (mkChunk id shards states chunk slots_per_shard))
  end.

Definition resolve_ptr (c : Chunk) (index : Z) : outcome Z :=
  let offset := slot_offset index in
  _ ← assert (offset <? memory_len (ck_memory c));
  Ret (memory_as_ptr (ck_memory c) + offset).

(** ** Allocation *)

(** The hash that chooses the first shard and the stride. *)
Definition shard_hash (seed : option Z) (thread_hash : Z) : Z :=
  match seed with
  | Some s => wrapping_mul USIZE_BITS s 2862933555777941757
  | None => thread_hash
  end.

(** [buddy.alloc(order)] in shard [idx]; the chunk with the shard updated. *)
Definition alloc_in_shard (c : Chunk) (idx order : Z) : outcome (Chunk * option (Z * Z)) :=
  s ← vec_get (ck_shards c) idx;
  '(m, b, o) ← buddy_alloc s.1 s.2 order;
  ss ← vec_set (ck_shards c) idx (m, b);
  match o with
  | None => Ret (set_shards c ss, None)
  | Some local_idx =>
      ptr ← ptr_from_index b local_idx;
      Ret (set_shards c ss, Some (from_shard_local idx (ck_slots_per_shard c) local_idx, ptr))
  end.

(** The loop over the shards in permuted order; [skip] tells which mutexes the
    loop does not wait for ([try_lock] failed). *)
Fixpoint scan_shards (n : nat) (i start stride mask : Z) (skip : Z -> bool)
    (c : Chunk) (order : Z) : outcome (Chunk * option (Z * Z)) :=
  match n with
  | O => Ret (c, None)
  | S n =>
      let idx := Z.land (wrapping_add USIZE_BITS start (wrapping_mul USIZE_BITS i stride)) mask in
      _ ← vec_get (ck_shards c) idx;
      if skip idx then scan_shards n (i + 1) start stride mask skip c order else
      r ← alloc_in_shard c idx order;
      match r.2 with
      | Some res => Ret (r.1, Some res)
      | None => scan_shards n (i + 1) start stride mask skip r.1 order
      end
  end.

(** Phase 1 skips contended shards, phase 2 blocks on each. *)
Definition alloc_global (contended : Z -> bool) (thread_hash : Z) (c : Chunk) (order : Z)
    (seed : option Z) : outcome (Chunk * option (Z * Z)) :=
  let shard_count := Z.of_nat (length (ck_shards c)) in
  let hash := shard_hash seed thread_hash in
  mask ← arith USIZE_BITS (shard_count - 1);
  let start_shard := Z.land hash mask in
  let stride := Z.lor (Z.shiftr hash 16) 1 in
  r ← scan_shards (length (ck_shards c)) 0 start_shard stride mask contended c order;
  match r.2 with
  | Some res => Ret (r.1, Some res)
  | None => scan_shards (length (ck_shards c)) 0 start_shard stride mask (fun _ => false) r.1 order
  end.

(** [ChunkAlloc]; the chunk of [Small] is the one the call is made on. *)
Inductive ChunkAlloc : Type :=
  | Small (chunk_id sb_idx slot_idx ptr : Z)
  | Large (chunk_id slot_idx ptr : Z).

(** The superblock at [base_idx] was just allocated: initialise its state and
    take its first slot. *)
Definition open_superblock (c : Chunk) (base_idx : Z) : outcome (Chunk * option ChunkAlloc) :=
  let sb_idx := superblock_index base_idx in
  sb ← vec_get (ck_superblocks c) sb_idx;
  let r := alloc_one (sb_init sb) in
  offset ← expect r.2;
  sbs ← vec_set (ck_superblocks c) sb_idx r.1;
  let c := set_superblocks c sbs in
  let global_idx := from_superblock_offset sb_idx offset in
  ptr ← resolve_ptr c global_idx;
  Ret (c, Some (Small (ck_id c) sb_idx global_idx ptr)).

(** The two paths of [Chunk::alloc_slots]. *)
Definition alloc_small (contended : Z -> bool) (thread_hash : Z) (c : Chunk) (seed : option Z)
    : outcome (Chunk * option ChunkAlloc) :=
  r ← alloc_global contended thread_hash c SUPERBLOCK_ORDER seed;
  match r.2 with
  | Some found => open_superblock r.1 found.1
  | None => Ret (r.1, None)
  end.

Definition alloc_large (contended : Z -> bool) (thread_hash : Z) (c : Chunk) (order : Z)
    (seed : option Z) : outcome (Chunk * option ChunkAlloc) :=
  r ← alloc_global contended thread_hash c order seed;
  match r.2 with
  | Some found => Ret (r.1, Some (Large (ck_id r.1) found.1 found.2))
  | None => Ret (r.1, None)
  end.

Definition chunk_alloc_slots (contended : Z -> bool) (thread_hash : Z) (c : Chunk) (order : Z)
    (seed : option Z) : outcome (Chunk * option ChunkAlloc) :=
  if order =? 0 then alloc_small contended thread_hash c seed
  else alloc_large contended thread_hash c order seed.

(** ** Deallocation *)

Definition shard_for_index (c : Chunk) (index : Z) : outcome (Z * Z) :=
  shard_local index (ck_slots_per_shard c).

Definition dealloc_global (c : Chunk) (index order : Z) : outcome Chunk :=
  '(shard_idx, local_idx) ← shard_for_index c index;
  if Z.of_nat (length (ck_shards c)) <=? shard_idx then Fault ExplicitPanic else
  s ← vec_get (ck_shards c) shard_idx;
  '(m, b, r) ← buddy_dealloc s.1 s.2 local_idx order;
  match r with
  | Ok _ => ss ← vec_set (ck_shards c) shard_idx (m, b); Ret (set_shards c ss)
  | Err _ => Fault ExpectFailed
  end.

Definition dealloc_superblock (c : Chunk) (sb_idx : Z) : outcome Chunk :=
  dealloc_global c (base_slot sb_idx) SUPERBLOCK_ORDER.

Definition chunk_dealloc_slots (c : Chunk) (index order : Z) : outcome Chunk :=
  if order =? 0 then
    let sb_idx := superblock_index index in
    let offset := superblock_offset index in
    if Z.of_nat (length (ck_superblocks c)) <=? sb_idx then Ret c else
    sb ← vec_get (ck_superblocks c) sb_idx;
    let (sb, empty) := free_one sb offset in
    sbs ← vec_set (ck_superblocks c) sb_idx sb;
    let c := set_superblocks c sbs in
    if empty then dealloc_superblock c sb_idx else Ret c
  else dealloc_global c index order.

(** ** The permuted order visits every shard

    An odd stride is coprime with the power of two that counts the shards. *)

Definition visit (k start stride i : Z) : Z := (start + i * stride) mod 2 ^ k.

Lemma visit_inj k start stride i j :
  0 <= k -> Z.odd stride = true -> 0 <= i < 2 ^ k -> 0 <= j < 2 ^ k ->
  visit k start stride i = visit k start stride j -> i = j.
Proof.
  unfold visit. intros Hk Hodd Hi Hj Heq. assert (Hp : 0 < 2 ^ k) by auto with veloq.
  assert (Hd : (2 ^ k | (i - j) * stride)).
  { apply Z.mod_divide; [lia |].
    replace ((i - j) * stride) with ((start + i * stride) - (start + j * stride)) by lia.
    by rewrite Zminus_mod, Heq, Z.sub_diag, Z.mod_0_l by lia. }
  rewrite Z.mul_comm in Hd. apply Z.gauss in Hd as [q Hq].
  - assert (- 2 ^ k < q * 2 ^ k < 2 ^ k) by lia. assert (q = 0) by nia. lia.
  - apply Zgcd_1_rel_prime, rel_prime_sym, rel_prime_Zpower_r; [lia |].
    apply bezout_rel_prime. apply Z.odd_spec in Hodd as [r ->].
    apply (Bezout_intro _ _ _ 1 (- r)). lia.
Qed.

(** Every shard is visited. *)
Lemma visit_onto k start stride s :
  0 <= k -> Z.odd stride = true -> 0 <= s < 2 ^ k ->
  exists i, 0 <= i < 2 ^ k /\ visit k start stride i = s.
Proof.
  intros Hk Hodd Hs. assert (Hp : 0 < 2 ^ k) by auto with veloq.
  set (ids := seqZ 0 (2 ^ k)). set (vs := visit k start stride <$> ids).
  assert (Hsub : vs ⊆+ ids).
  { apply NoDup_submseteq.
    - apply NoDup_fmap_2_strong; [| apply NoDup_seqZ].
      intros i j Hi%elem_of_seqZ Hj%elem_of_seqZ. apply visit_inj; done || lia.
    - intros x (i & -> & _)%list_elem_of_fmap. apply elem_of_seqZ.
      pose proof (Z.mod_pos_bound (start + i * stride) (2 ^ k)). unfold visit. lia. }
  assert (Hperm : vs ≡ₚ ids).
  { apply submseteq_length_Permutation; [done |]. unfold vs. by rewrite length_fmap. }
  assert (Hin : s ∈ vs) by (rewrite Hperm; apply elem_of_seqZ; lia).
  apply list_elem_of_fmap in Hin as (i & -> & Hi%elem_of_seqZ). exists i. split; [lia | done].
Qed.

(** The index the loop computes with wrapping arithmetic. *)
Lemma scan_index k start stride i :
  0 <= k <= 64 ->
  Z.land (wrapping_add USIZE_BITS start (wrapping_mul USIZE_BITS i stride)) (2 ^ k - 1) =
  visit k start stride i.
Proof.
  intros Hk. rewrite land_mask by lia. unfold wrapping_add, wrapping_mul, wrap, visit, USIZE_BITS.
  assert (0 < 2 ^ k) by (apply pow2_pos; lia).
  rewrite Zplus_mod_idemp_r. rewrite <- (Znumtheory.Zmod_div_mod (2 ^ k) (2 ^ 64)); [done | lia.. |].
  exists (2 ^ (64 - k)). rewrite <- Z.pow_add_r by lia. f_equal. lia.
Qed.

Lemma stride_odd h : Z.odd (Z.lor h 1) = true.
Proof. by rewrite <- Z.bit0_odd, Z.lor_spec, orb_true_r. Qed.

(** ** The invariant of a chunk

    [As] gives the live blocks of each shard, by local index. *)

Definition shard_base (c : Chunk) (s : Z) : Z :=
  mc_ptr (ck_memory c) + slot_offset (s * ck_slots_per_shard c).

Record chunk_ok (c : Chunk) (As : list (gmap Z Z)) : Prop := {
  co_count : exists k, 0 <= k < 63 /\ Z.of_nat (length (ck_shards c)) = 2 ^ k;
  co_len : length As = length (ck_shards c);
  co_shards : forall s m b A, 0 <= s ->
    ck_shards c !! Z.to_nat s = Some (m, b) -> As !! Z.to_nat s = Some A ->
    buddy_ok m b A /\ ba_total_slots b = ck_slots_per_shard c /\ ba_base_ptr b = shard_base c s;
  co_sps : 0 < ck_slots_per_shard c;
  co_size : mc_size (ck_memory c) < 2 ^ 64;
  co_fit : slot_offset (Z.of_nat (length (ck_shards c)) * ck_slots_per_shard c)
             <= mc_size (ck_memory c)
}.

(** A block of the chunk: shard, local index and order. *)
Definition live_block (c : Chunk) (As : list (gmap Z Z)) (idx order : Z) : Prop :=
  exists s local A, 0 <= s /\ As !! Z.to_nat s = Some A /\ A !! local = Some order /\
    idx = from_shard_local s (ck_slots_per_shard c) local.

(** Fields that no operation on a chunk changes. *)
Definition same_layout (c c' : Chunk) : Prop :=
  ck_id c' = ck_id c /\ ck_memory c' = ck_memory c /\
  ck_slots_per_shard c' = ck_slots_per_shard c /\
  length (ck_shards c') = length (ck_shards c) /\
  length (ck_superblocks c') = length (ck_superblocks c).

#[global] Instance same_layout_pre : PreOrder same_layout.
Proof. split; [done |]. unfold same_layout. intros ???; intuition congruence. Qed.

Lemma same_layout_live c c' As idx o :
  same_layout c c' -> live_block c' As idx o <-> live_block c As idx o.
Proof. intros (_ & _ & E & _). unfold live_block. by rewrite E. Qed.

Section ChunkFacts.
Context {c : Chunk} {As : list (gmap Z Z)} (Hok : chunk_ok c As).

Lemma chunk_shard s :
  0 <= s < Z.of_nat (length (ck_shards c)) ->
  exists m b A, ck_shards c !! Z.to_nat s = Some (m, b) /\ As !! Z.to_nat s = Some A /\
    buddy_ok m b A /\ ba_total_slots b = ck_slots_per_shard c /\ ba_base_ptr b = shard_base c s.
Proof.
  intros Hs. destruct (lookup_lt_is_Some_2 (ck_shards c) (Z.to_nat s)) as [[m b] Hmb]; [lia |].
  destruct (lookup_lt_is_Some_2 As (Z.to_nat s)) as [A HA]; [rewrite (co_len _ _ Hok); lia |].
  exists m, b, A. split; [done |]. split; [done |]. apply (co_shards _ _ Hok); done || lia.
Qed.

Lemma As_range s A : 0 <= s -> As !! Z.to_nat s = Some A -> s < Z.of_nat (length (ck_shards c)).
Proof. intros Hs HA%lookup_lt_Some. rewrite (co_len _ _ Hok) in HA. lia. Qed.

Lemma live_local s A local o :
  0 <= s -> As !! Z.to_nat s = Some A -> A !! local = Some o ->
  0 <= o <= MAX_ORDER /\ 0 <= local /\ local + 2 ^ o <= ck_slots_per_shard c /\ local mod 2 ^ o = 0.
Proof.
  intros Hs HA Hl. destruct (chunk_shard s) as (m & b & A' & _ & HA' & Hb & Ht & _).
  { split; [done |]. by eapply As_range. }
  rewrite HA in HA'. injection HA' as <-.
  destruct (buddy_ok_block _ _ _ _ _ Hb Hl) as (? & ? & ? & ?). rewrite Ht in *. done.
Qed.

(** Live blocks lie in the chunk, and different ones are disjoint. *)
Lemma live_in_chunk idx o :
  live_block c As idx o ->
  0 <= o <= MAX_ORDER /\ 0 <= idx /\
  idx + 2 ^ o <= Z.of_nat (length (ck_shards c)) * ck_slots_per_shard c.
Proof.
  intros (s & local & A & Hs & HA & Hl & ->).
  pose proof (As_range _ _ Hs HA). destruct (live_local _ _ _ _ Hs HA Hl) as (? & ? & ? & _).
  pose proof (co_sps _ _ Hok). unfold from_shard_local. nia.
Qed.

Lemma live_disjoint idx o idx' o' :
  live_block c As idx o -> live_block c As idx' o' -> idx <> idx' ->
  idx + 2 ^ o <= idx' \/ idx' + 2 ^ o' <= idx.
Proof.
  intros (s & local & A & Hs & HA & Hl & ->) (s' & local' & A' & Hs' & HA' & Hl' & ->) Hne.
  destruct (live_local _ _ _ _ Hs HA Hl) as (? & ? & ? & _).
  destruct (live_local _ _ _ _ Hs' HA' Hl') as (? & ? & ? & _).
  unfold from_shard_local in *. destruct (Z.lt_trichotomy s s') as [Hlt | [<- | Hgt]].
  - left. nia.
  - rewrite HA in HA'. injection HA' as <-.
    destruct (chunk_shard s) as (m & b & A' & _ & HA' & Hb & _).
    { split; [done |]. by eapply As_range. }
    rewrite HA in HA'. injection HA' as <-.
    destruct (buddy_ok_disjoint _ _ _ local o local' o' Hb); [done | done | lia | left | right]; lia.
  - right. nia.
Qed.

Lemma live_order idx o o' : live_block c As idx o -> live_block c As idx o' -> o = o'.
Proof.
  intros (s & local & A & Hs & HA & Hl & ->) (s' & local' & A' & Hs' & HA' & Hl' & E).
  destruct (live_local _ _ _ _ Hs HA Hl) as (Ho & ? & ? & _).
  destruct (live_local _ _ _ _ Hs' HA' Hl') as (Ho' & ? & ? & _).
  unfold from_shard_local in E. pose proof (pow2_pos o (proj1 Ho)).
  pose proof (pow2_pos o' (proj1 Ho')).
  assert (s = s') as <- by nia. assert (local = local') as <- by lia. congruence.
Qed.

(** Replacing a shard by a correct one. *)
Lemma chunk_update s m b A' :
  0 <= s < Z.of_nat (length (ck_shards c)) ->
  buddy_ok m b A' -> ba_total_slots b = ck_slots_per_shard c -> ba_base_ptr b = shard_base c s ->
  chunk_ok (set_shards c (<[Z.to_nat s := (m, b)]> (ck_shards c))) (<[Z.to_nat s := A']> As).
Proof.
  intros Hs Hb Ht Hp. destruct Hok.
  split; cbn [set_shards ck_shards ck_memory ck_slots_per_shard]; rewrite ?length_insert; try done.
  intros j m' b' A Hj Hm HA. destruct (decide (s = j)) as [<- | Hne].
  - rewrite list_lookup_insert_eq in Hm by lia. injection Hm as <- <-.
    rewrite list_lookup_insert_eq in HA by lia. by injection HA as <-.
  - rewrite list_lookup_insert_ne in Hm by lia. rewrite list_lookup_insert_ne in HA by lia.
    by apply (co_shards0 j m' b' A).
Qed.

Lemma layout_update s x : same_layout c (set_shards c (<[s := x]> (ck_shards c))).
Proof. unfold same_layout. cbn. by rewrite length_insert. Qed.

(** The liveness of blocks after an update of shard [s]. *)
Lemma live_insert s A local order idx o :
  0 <= s -> As !! Z.to_nat s = Some A -> A !! local = None ->
  live_block c (<[Z.to_nat s := <[local := order]> A]> As) idx o <->
  (idx = from_shard_local s (ck_slots_per_shard c) local /\ o = order) \/ live_block c As idx o.
Proof.
  intros Hs HA Hn. pose proof (lookup_lt_Some _ _ _ HA) as Hlt. split.
  - intros (s' & l' & A' & Hs' & HA' & Hl' & ->).
    destruct (decide (s = s')) as [<- | Hne].
    + rewrite list_lookup_insert_eq in HA' by done. injection HA' as <-.
      apply lookup_insert_Some in Hl' as [[<- <-] | [? Hl']]; [by left |].
      right. by exists s, l', A.
    + rewrite list_lookup_insert_ne in HA' by lia. right. by exists s', l', A'.
  - intros [[-> ->] | (s' & l' & A' & Hs' & HA' & Hl' & ->)].
    + exists s, local, (<[local := order]> A). rewrite list_lookup_insert_eq by done.
      by rewrite lookup_insert_eq.
    + destruct (decide (s = s')) as [<- | Hne].
      * rewrite HA in HA'. injection HA' as <-. exists s, l', (<[local := order]> A).
        rewrite list_lookup_insert_eq, lookup_insert_ne by (done || congruence). done.
      * exists s', l', A'. by rewrite list_lookup_insert_ne by lia.
Qed.

Lemma live_delete s A local idx o :
  0 <= s -> As !! Z.to_nat s = Some A -> is_Some (A !! local) ->
  live_block c (<[Z.to_nat s := delete local A]> As) idx o <->
  idx <> from_shard_local s (ck_slots_per_shard c) local /\ live_block c As idx o.
Proof.
  intros Hs HA [ol Hol]. pose proof (lookup_lt_Some _ _ _ HA) as Hlt.
  destruct (live_local _ _ _ _ Hs HA Hol) as (Ho & ? & ? & _).
  pose proof (pow2_pos ol (proj1 Ho)). split.
  - intros (s' & l' & A' & Hs' & HA' & Hl' & ->).
    destruct (decide (s = s')) as [<- | Hne].
    + rewrite list_lookup_insert_eq in HA' by done. injection HA' as <-.
      apply lookup_delete_Some in Hl' as [Hn Hl'].
      split; [unfold from_shard_local; lia |]. by exists s, l', A.
    + rewrite list_lookup_insert_ne in HA' by lia.
      destruct (live_local _ _ _ _ Hs' HA' Hl') as (Ho' & ? & ? & _).
      pose proof (pow2_pos o (proj1 Ho')).
      split; [unfold from_shard_local; nia |]. by exists s', l', A'.
  - intros (Hne & s' & l' & A' & Hs' & HA' & Hl' & ->).
    destruct (decide (s = s')) as [<- | Hne'].
    + rewrite HA in HA'. injection HA' as <-. exists s, l', (delete local A).
      rewrite list_lookup_insert_eq, lookup_delete_ne by (done || congruence). done.
    + exists s', l', A'. by rewrite list_lookup_insert_ne by lia.
Qed.

End ChunkFacts.

(** ** The buddy allocators of a chunk: allocation and deallocation *)

(** The step allocates the block [(idx, order)], which was free. *)
Definition allocates (c : Chunk) (As : list (gmap Z Z)) (c' : Chunk) (As' : list (gmap Z Z))
    (idx order : Z) : Prop :=
  chunk_ok c' As' /\ same_layout c c' /\ ck_superblocks c' = ck_superblocks c /\
  (forall o, ~ live_block c As idx o) /\
  forall i o, live_block c As' i o <-> (i = idx /\ o = order) \/ live_block c As i o.

(** The step frees the block at [idx]. *)
Definition frees (c : Chunk) (As : list (gmap Z Z)) (c' : Chunk) (As' : list (gmap Z Z))
    (idx : Z) : Prop :=
  chunk_ok c' As' /\ same_layout c c' /\ ck_superblocks c' = ck_superblocks c /\
  forall i o, live_block c As' i o <-> i <> idx /\ live_block c As i o.

(** Shard [s] has no room for a block of the order. *)
Definition shard_full (c : Chunk) (As : list (gmap Z Z)) (s order : Z) : Prop :=
  forall A, As !! Z.to_nat s = Some A ->
  forall i, ~ free_run A (ck_slots_per_shard c) i order.

Lemma set_shards_id c : set_shards c (ck_shards c) = c.
Proof. by destruct c. Qed.

Section Operations.
Context (c : Chunk) (As : list (gmap Z Z)) (Hok : chunk_ok c As).

Lemma alloc_in_shard_ok s order :
  0 <= s < Z.of_nat (length (ck_shards c)) -> 0 <= order ->
  (exists c' As' idx ptr, alloc_in_shard c s order = Ret (c', Some (idx, ptr)) /\
     allocates c As c' As' idx order /\ ptr = mc_ptr (ck_memory c) + slot_offset idx) \/
  (alloc_in_shard c s order = Ret (c, None) /\ shard_full c As s order).
Proof.
  intros Hs Ho. destruct (chunk_shard Hok s Hs) as (m & b & A & Hmb & HA & Hb & Ht & Hp).
  unfold alloc_in_shard. rewrite (vec_get_lookup _ _ (m, b)) by (done || lia).
  rewrite bind_ret. cbn [fst snd].
  destruct (buddy_alloc_cases m b A order Hb Ho)
    as [(Hmax & m' & b' & i & He & HAi & Hb' & Ht' & Hp') | (He & Hfull)].
  - left. rewrite He, bind_ret, vec_set_in_range, bind_ret by lia.
    assert (Hi : A !! i = None) by done.
    destruct (buddy_ok_block _ _ _ i order Hb') as (_ & Hi0 & Hi1 & _);
      [apply lookup_insert_eq |]. cbn in Hi0, Hi1. rewrite Ht', Ht in Hi1.
    pose proof (pow2_pos order Ho).
    unfold ptr_from_index. rewrite Ht', Ht.
    destruct (Z.ltb_spec i (ck_slots_per_shard c)); [| lia]. cbn [assert]. rewrite !bind_ret.
    eexists _, (<[Z.to_nat s := <[i := order]> A]> As), _, _. split; [reflexivity |].
    unfold allocates. split_and!.
    + apply chunk_update; done || congruence.
    + apply layout_update.
    + done.
    + intros o (s' & l' & A' & Hs' & HA' & Hl' & Heq).
      destruct (live_local Hok _ _ _ _ Hs' HA' Hl') as (Ho' & ? & ? & _).
      pose proof (pow2_pos o (proj1 Ho')). unfold from_shard_local in Heq.
      assert (s = s') as <- by nia. assert (i = l') as <- by lia. congruence.
    + intros j o. apply live_insert; done || lia.
    + rewrite Hp', Hp. unfold shard_base, from_shard_local, slot_offset. lia.
  - right. rewrite He, bind_ret, vec_set_in_range, bind_ret by lia.
    rewrite list_insert_id by done. rewrite set_shards_id. split; [done |].
    intros A' HA' i. rewrite HA in HA'. injection HA' as <-. rewrite <- Ht. apply Hfull.
Qed.

(** The scan allocates, or finds every shard it tried full. *)
Lemma scan_shards_ok k start stride skip order n : forall i,
  Z.of_nat (length (ck_shards c)) = 2 ^ k -> 0 <= k < 63 -> 0 <= order ->
  (exists c' As' idx ptr,
     scan_shards n i start stride (2 ^ k - 1) skip c order = Ret (c', Some (idx, ptr)) /\
     allocates c As c' As' idx order /\ ptr = mc_ptr (ck_memory c) + slot_offset idx) \/
  (scan_shards n i start stride (2 ^ k - 1) skip c order = Ret (c, None) /\
   forall j, i <= j < i + Z.of_nat n -> skip (visit k start stride j) = false ->
     shard_full c As (visit k start stride j) order).
Proof.
  induction n as [| n IH]; intros i Hlen Hk Ho.
  - right. split; [done |]. lia.
  - cbn [scan_shards]. rewrite scan_index by lia. set (idx := visit k start stride i).
    assert (Hidx : 0 <= idx < Z.of_nat (length (ck_shards c))).
    { rewrite Hlen. apply Z.mod_pos_bound, pow2_pos. lia. }
    destruct (chunk_shard Hok idx Hidx) as (m & b & A & Hmb & _).
    rewrite (vec_get_lookup _ _ (m, b)), bind_ret by (done || lia).
    assert (Hrest : forall P, shard_full c As idx order \/ P ->
      (scan_shards n (i + 1) start stride (2 ^ k - 1) skip c order = Ret (c, None) /\
       forall j, i + 1 <= j < i + 1 + Z.of_nat n -> skip (visit k start stride j) = false ->
         shard_full c As (visit k start stride j) order) ->
      (P -> skip idx = true) ->
      forall j, i <= j < i + Z.of_nat (S n) -> skip (visit k start stride j) = false ->
        shard_full c As (visit k start stride j) order).
    { intros P Hf [_ Hr] Hskip j Hj Hs. destruct (Z.eq_dec j i) as [-> | Hne].
      - fold idx in Hs |- *. destruct Hf as [Hf | HP]; [done |]. rewrite Hskip in Hs; done.
      - apply Hr; [lia | done]. }
    destruct (skip idx) eqn:Hsk.
    + destruct (IH (i + 1) Hlen Hk Ho) as [Hsome | Hnone]; [by left | right].
      split; [apply Hnone |]. apply (Hrest True); [by right | done | done].
    + destruct (alloc_in_shard_ok idx order Hidx Ho) as [(c' & As' & x & p & He & Hal) | (He & Hf)].
      * left. rewrite He, bind_ret. cbn [fst snd]. by exists c', As', x, p.
      * rewrite He, bind_ret. cbn [fst snd].
        destruct (IH (i + 1) Hlen Hk Ho) as [Hsome | Hnone]; [by left | right].
        split; [apply Hnone |]. apply (Hrest False); [by left | done | done].
Qed.

Lemma alloc_global_ok contended th order seed :
  0 <= order ->
  (exists c' As' idx ptr, alloc_global contended th c order seed = Ret (c', Some (idx, ptr)) /\
     allocates c As c' As' idx order /\ ptr = mc_ptr (ck_memory c) + slot_offset idx) \/
  (alloc_global contended th c order seed = Ret (c, None) /\
   forall s, 0 <= s < Z.of_nat (length (ck_shards c)) -> shard_full c As s order).
Proof.
  intros Ho. destruct (co_count _ _ Hok) as (k & Hk & Hlen).
  assert (0 < 2 ^ k < 2 ^ 64).
  { split; [apply pow2_pos; lia | apply Z.pow_lt_mono_r; lia]. }
  unfold alloc_global. rewrite Hlen, arith_ok, bind_ret by (unfold USIZE_BITS; lia).
  set (h := shard_hash seed th). set (start := Z.land h _). set (stride := Z.lor _ 1).
  destruct (scan_shards_ok k start stride contended order (length (ck_shards c)) 0 Hlen Hk Ho)
    as [(c' & As' & x & p & He & Hal) | (He & _)]; rewrite He, bind_ret; cbn [fst snd].
  - left. by exists c', As', x, p.
  - destruct (scan_shards_ok k start stride (fun _ => false) order (length (ck_shards c)) 0 Hlen Hk Ho)
      as [Hsome | (He2 & Hall)]; [by left | right]. split; [done |].
    intros s Hs. destruct (visit_onto k start stride s) as (i & Hi & <-);
      [lia | apply stride_odd | lia |]. apply Hall; [lia | done].
Qed.

Lemma dealloc_global_ok idx order :
  live_block c As idx order ->
  exists c' As', dealloc_global c idx order = Ret c' /\ frees c As c' As' idx.
Proof.
  intros (s & local & A & Hs & HA & Hl & ->).
  destruct (live_local Hok _ _ _ _ Hs HA Hl) as (Ho & Hl0 & Hl1 & _).
  pose proof (pow2_pos order (proj1 Ho)). pose proof (As_range Hok _ _ Hs HA) as Hs1.
  destruct (chunk_shard Hok s) as (m & b & A' & Hmb & HA' & Hb & Ht & Hp); [done |].
  rewrite HA in HA'. injection HA' as <-.
  destruct (buddy_dealloc_ok m b A local order Hb Hl) as (m' & b' & He & Hb' & Ht' & Hp').
  exists (set_shards c (<[Z.to_nat s := (m', b')]> (ck_shards c))),
    (<[Z.to_nat s := delete local A]> As).
  split.
  - unfold dealloc_global, shard_for_index. rewrite shard_round by lia. rewrite bind_ret.
    destruct (Z.leb_spec (Z.of_nat (length (ck_shards c))) s); [lia |].
    rewrite (vec_get_lookup _ _ (m, b)), bind_ret by (done || lia). cbn [fst snd].
    rewrite He, bind_ret, vec_set_in_range by lia. done.
  - unfold frees. split_and!; [| apply layout_update | done |].
    + apply chunk_update; done || congruence.
    + intros i o. apply live_delete; done || by eexists.
Qed.

(** A free of a slot that starts no live block panics. *)
Lemma dealloc_global_bad idx order :
  0 <= idx -> (forall o, ~ live_block c As idx o) ->
  dealloc_global c idx order = Fault ExpectFailed \/
  dealloc_global c idx order = Fault ExplicitPanic.
Proof.
  intros Hi Hno. pose proof (co_sps _ _ Hok) as Hsps.
  unfold dealloc_global, shard_for_index, shard_local, quot, rem.
  destruct (Z.eqb_spec (ck_slots_per_shard c) 0); [lia |]. rewrite !bind_ret.
  set (s := idx / ck_slots_per_shard c). set (l := idx mod ck_slots_per_shard c).
  pose proof (Z.mod_pos_bound idx _ Hsps) as Hl. fold l in Hl.
  assert (Hs0 : 0 <= s) by (apply Z.div_pos; lia).
  assert (Hidx : idx = from_shard_local s (ck_slots_per_shard c) l).
  { unfold from_shard_local, s, l. pose proof (Z.div_mod idx (ck_slots_per_shard c)). lia. }
  destruct (Z.leb_spec (Z.of_nat (length (ck_shards c))) s) as [? | Hs]; [by right |]. left.
  destruct (chunk_shard Hok s) as (m & b & A & Hmb & HA & Hb & Ht & Hp); [done |].
  rewrite (vec_get_lookup _ _ (m, b)), bind_ret by (done || lia). cbn [fst snd].
  rewrite (buddy_dealloc_double m b A); [done | done | lia |].
  destruct (A !! l) as [o |] eqn:E; [| done]. exfalso. apply (Hno o). by exists s, l, A.
Qed.

End Operations.

(** ** A new chunk *)

Lemma next_power_of_two_pow p : exists j, 0 <= j /\ next_power_of_two p = 2 ^ j /\
  (p <= 2 ^ 62 -> j <= 62).
Proof.
  unfold next_power_of_two. destruct (Z.leb_spec p 1).
  - exists 0. split_and!; [lia | done | lia].
  - exists (Z.log2_up p). split_and!; [apply Z.log2_up_nonneg | done |].
    intros Hp. apply Z.log2_up_le_mono in Hp. by rewrite Z.log2_up_pow2 in Hp.
Qed.

Lemma shard_count_ok p total :
  p <= 2 ^ 62 -> 0 < total < 2 ^ 62 ->
  exists k, 0 <= k < 63 /\ shard_count_for p total = 2 ^ k /\
    2 ^ k <= total /\ (64 <= total -> 2 ^ k * 64 <= total).
Proof.
  intros Hp Ht. unfold shard_count_for, superblock_count. rewrite superblock_size_val.
  destruct (next_power_of_two_pow p) as (j & Hj & -> & Hj62). specialize (Hj62 Hp).
  assert (Hmax : Z.max (2 ^ j) 16 = 2 ^ Z.max j 4).
  { destruct (Z.max_spec j 4) as [[? ->] | [? ->]].
    - assert (2 ^ j <= 2 ^ 4) by (apply Z.pow_le_mono_r; lia). lia.
    - assert (2 ^ 4 <= 2 ^ j) by (apply Z.pow_le_mono_r; lia). lia. }
  rewrite Hmax. set (ms := total / 64).
  assert (Hms : 64 * ms <= total < 64 * ms + 64).
  { pose proof (Z.div_mod total 64). pose proof (Z.mod_pos_bound total 64). unfold ms. lia. }
  destruct (Z.ltb_spec 0 ms), (Z.ltb_spec ms (2 ^ Z.max j 4)); cbn [andb].
  - exists (Z.log2 ms). pose proof (Z.log2_nonneg ms).
    pose proof (Z.log2_spec ms ltac:(lia)) as [Hlo _].
    assert (Z.log2 ms < 62) by (apply Z.log2_lt_pow2; lia).
    split_and!; [lia | lia | | lia | lia].
    unfold leading_zeros, USIZE_BITS. destruct (Z.eqb_spec ms 0); [lia |].
    rewrite Z.shiftl_1_l. f_equal. lia.
  - destruct (Z.eqb_spec ms 0); [lia |]. exists (Z.max j 4).
    split_and!; lia || done.
  - destruct (Z.eqb_spec ms 0); [| lia]. exists 0. split_and!; lia || done.
  - destruct (Z.eqb_spec ms 0); [| lia]. exists 0. split_and!; lia || done.
Qed.

Lemma init_shards_ok m base bytes n : forall i,
  0 <= i -> SLOT_SIZE <= bytes -> (i + Z.of_nat n) * bytes < 2 ^ 64 ->
  exists ss, init_shards n i m base bytes = Ret ss /\ length ss = n /\
    forall j mj bj, ss !! j = Some (mj, bj) ->
      buddy_ok mj bj ∅ /\ ba_total_slots bj = bytes / SLOT_SIZE /\
      ba_base_ptr bj = base + (i + Z.of_nat j) * bytes.
Proof.
  assert (HS : 0 < SLOT_SIZE) by (unfold SLOT_SIZE; lia).
  induction n as [| n IH]; intros i Hi Hb Hmax.
  - exists []. split_and!; [done | done |]. intros j mj bj Hj. by rewrite lookup_nil in Hj.
  - cbn [init_shards]. rewrite arith_ok, bind_ret by (unfold USIZE_BITS; nia).
    destruct (buddy_new_ok m (base + i * bytes) bytes) as (m' & b & He & Hb' & Ht & Hp); [nia |].
    destruct (IH (i + 1)) as (ss & Hs & Hl & Hall); [lia | done | nia |].
    exists ((m', b) :: ss). rewrite He, bind_ret, Hs, bind_ret. split_and!; [done | cbn; lia |].
    intros [| j] mj bj Hj; cbn in Hj.
    + injection Hj as <- <-. split_and!; [done | done |]. rewrite Hp. f_equal. lia.
    + destruct (Hall j mj bj Hj) as (? & ? & ->). split_and!; [done | done |]. f_equal. lia.
Qed.

Lemma memory_chunk_new_ok os size mc :
  memory_chunk_new os size = Ok mc -> mc_size mc = size /\ mc_ptr mc <> 0.
Proof.
  unfold memory_chunk_new.
  destruct (os_alloc_huge_pages os size), (os_alloc_pages os size); repeat case_ltb; naive_solver.
Qed.

(** Creation fails only when the system gives no memory. *)
Lemma chunk_new_ok os id size :
  default 1 (os_parallelism os) <= 2 ^ 62 -> 0 < size < 2 ^ 62 -> size mod SLOT_SIZE = 0 ->
  match memory_chunk_new os size with
  | Err e => chunk_new os id size = Ret (Err e)
  | Ok mc =>
      exists c k, chunk_new os id size = Ret (Ok c) /\ 0 <= k < 63 /\
        chunk_ok c (replicate (Z.to_nat (2 ^ k)) ∅) /\ ck_id c = id /\ ck_memory c = mc /\
        Z.of_nat (length (ck_shards c)) = 2 ^ k /\
        shard_count_for (default 1 (os_parallelism os)) (slot_count size) = 2 ^ k /\
        ck_slots_per_shard c = slot_count size / 2 ^ k /\
        ck_superblocks c = replicate (Z.to_nat (superblock_count (slot_count size))) sb_new
  end.
Proof.
  intros Hp Hsz Hal. unfold chunk_new.
  destruct (memory_chunk_new os size) as [mc | e] eqn:Hmc; [| done].
  destruct (memory_chunk_new_ok _ _ _ Hmc) as [Hms Hmp].
  assert (Hts : 0 < slot_count size < 2 ^ 62 /\ slot_count size * SLOT_SIZE = size).
  { unfold slot_count, SLOT_SIZE in *. pose proof (Z.div_mod size 4096). lia. }
  destruct Hts as [Hts Hrt]. destruct (shard_count_ok _ (slot_count size) Hp Hts) as (k & Hk & Hc & Hle & _).
  rewrite Hc. assert (H2k : 0 < 2 ^ k) by (apply pow2_pos; lia).
  unfold per_shard, quot. destruct (Z.eqb_spec (2 ^ k) 0); [lia |]. rewrite bind_ret.
  set (sps := slot_count size / 2 ^ k).
  assert (Hsps : 0 < sps) by (apply Z.div_str_pos; lia).
  assert (Hfit : 2 ^ k * sps <= slot_count size) by (apply Z.mul_div_le; lia).
  assert (Hbytes : 2 ^ k * (sps * SLOT_SIZE) <= size) by (unfold SLOT_SIZE in *; nia).
  unfold slot_count_bytes.
  rewrite arith_ok, bind_ret by (unfold USIZE_BITS, SLOT_SIZE in *; nia).
  destruct (Z.eqb_spec sps 0); [lia |].
  destruct (init_shards_ok (os_mem os) (memory_as_ptr mc) (sps * SLOT_SIZE) (Z.to_nat (2 ^ k)) 0)
    as (ss & He & Hl & Hall); [lia | unfold SLOT_SIZE; lia | rewrite Z2Nat.id by lia; lia |].
  rewrite He, bind_ret. eexists _, k. split; [reflexivity |]. split; [done |].
  assert (Hlen : Z.of_nat (length ss) = 2 ^ k) by lia.
  split_and!; try done. split; cbn; [by exists k | by rewrite length_replicate | | done | lia |].
  - intros s m b A Hs Hss [-> _]%lookup_replicate.
    destruct (Hall _ _ _ Hss) as (Hb & Ht & Hbp). split_and!; [done | |].
    + rewrite Ht. apply Z.div_mul. unfold SLOT_SIZE. lia.
    + rewrite Hbp. unfold shard_base, slot_offset, memory_as_ptr. cbn. lia.
  - unfold slot_offset. rewrite Hlen, Hms. unfold SLOT_SIZE in *. lia.
Qed.
