(* ===== verification/Ownership.v ===== *)
(** * Who holds what in a chunk

    The blocks of a chunk are handed out as they are (orders 1 and up), or as
    superblocks of 64 slots of which single slots are handed out.  [chunk_own]
    relates the two views: [L] holds the blocks given to clients, [S] the
    superblocks in use with the offsets of their slots given to clients.  The
    lemmas say what each operation of a chunk does to that view, provided a
    shard is a whole number of superblocks. *)

From S2P Require Import Prelude BitSet IntrusiveList Units Buddy Superblock Chunk.

Record chunk_own (c : Chunk) (As : list (gmap Z Z)) (L : gmap Z Z) (S : gmap Z (gset Z))
    : Prop := {
  ow_ok : chunk_ok c As;
  ow_aligned : ck_slots_per_shard c mod 64 = 0;
  ow_states : Z.of_nat (length (ck_shards c)) * ck_slots_per_shard c
                <= 64 * Z.of_nat (length (ck_superblocks c));
  ow_live : forall i o, live_block c As i o <->
    L !! i = Some o \/ (o = 6 /\ exists sb, i = base_slot sb /\ is_Some (S !! sb));
  ow_large : forall i o, L !! i = Some o -> 1 <= o /\ forall sb, i = base_slot sb -> S !! sb = None;
  ow_sb : forall sb held, S !! sb = Some held -> 0 <= sb /\
    exists st, ck_superblocks c !! Z.to_nat sb = Some st /\ mask_ok (sb_free_mask st) held /\
      (sb_is_active st = false -> held <> ∅)
}.

(** The slots of a buffer: [2^order] from its first slot. *)
Definition holds (L : gmap Z Z) (S : gmap Z (gset Z)) (slot order : Z) : Prop :=
  L !! slot = Some order \/
  (order = 0 /\ exists sb held off, S !! sb = Some held /\ off ∈ held /\
    slot = from_superblock_offset sb off).

Lemma base_slot_64 sb : base_slot sb = sb * 64.
Proof. reflexivity. Qed.

Section Facts.
Context {c : Chunk} {As : list (gmap Z Z)} {L : gmap Z Z} {S : gmap Z (gset Z)}.
Context (Hown : chunk_own c As L S).

Lemma own_sb_live sb held : S !! sb = Some held -> live_block c As (base_slot sb) 6.
Proof. intros Hs. apply (ow_live _ _ _ _ Hown). right. split; [done |]. by exists sb; eauto. Qed.

Lemma own_sb_slots sb held off :
  S !! sb = Some held -> off ∈ held ->
  0 <= off < 64 /\ live_block c As (base_slot sb) 6 /\
  from_superblock_offset sb off = base_slot sb + off.
Proof.
  intros Hs Hoff. destruct (ow_sb _ _ _ _ Hown _ _ Hs) as (_ & st & _ & (_ & Hr & _) & _).
  split; [auto |]. split; [by eapply own_sb_live | done].
Qed.

(** Each buffer lies in a live block. *)
Lemma holds_block slot o :
  holds L S slot o ->
  exists i p, live_block c As i p /\ i <= slot /\ slot + 2 ^ o <= i + 2 ^ p /\ 0 <= o.
Proof.
  intros [HL | (-> & sb & held & off & Hs & Hoff & ->)].
  - exists slot, o. assert (Hlv : live_block c As slot o) by (apply (ow_live _ _ _ _ Hown); by left).
    destruct (live_in_chunk (ow_ok _ _ _ _ Hown) _ _ Hlv) as ([? _] & _). split_and!; done || lia.
  - destruct (own_sb_slots _ _ _ Hs Hoff) as (Ho & Hlv & ->).
    exists (base_slot sb), 6. change (2 ^ 0) with 1. change (2 ^ 6) with 64. split_and!; done || lia.
Qed.

Lemma holds_in_chunk slot o :
  holds L S slot o ->
  0 <= slot /\ slot_offset (slot + 2 ^ o) <= mc_size (ck_memory c) /\ 0 <= o.
Proof.
  intros Hh. destruct (holds_block _ _ Hh) as (i & p & Hlv & Hi & Hp & Ho).
  destruct (live_in_chunk (ow_ok _ _ _ _ Hown) _ _ Hlv) as (_ & H0 & H1).
  pose proof (co_fit _ _ (ow_ok _ _ _ _ Hown)) as Hf. unfold slot_offset, SLOT_SIZE in *.
  split_and!; lia.
Qed.

(** Different buffers share no slot. *)
Lemma holds_disjoint s1 o1 s2 o2 :
  holds L S s1 o1 -> holds L S s2 o2 -> (s1, o1) <> (s2, o2) ->
  s1 + 2 ^ o1 <= s2 \/ s2 + 2 ^ o2 <= s1.
Proof.
  pose proof (ow_ok _ _ _ _ Hown) as Hok.
  assert (Hmix : forall i o sb held off, L !! i = Some o -> S !! sb = Some held -> off ∈ held ->
    i + 2 ^ o <= from_superblock_offset sb off \/ from_superblock_offset sb off + 1 <= i).
  { intros i o sb held off HL Hs Hoff. destruct (own_sb_slots _ _ _ Hs Hoff) as (Hr & Hlv & ->).
    assert (Hi : i <> base_slot sb).
    { intros E. destruct (ow_large _ _ _ _ Hown _ _ HL) as [_ Hn]. rewrite (Hn sb E) in Hs. done. }
    destruct (live_disjoint Hok i o (base_slot sb) 6) as [? | Hd];
      [apply (ow_live _ _ _ _ Hown); by left | done | done | lia |].
    change (2 ^ 6) with 64 in Hd. lia. }
  intros [H1 | (-> & sb1 & h1 & f1 & Hs1 & Hf1 & ->)] [H2 | (-> & sb2 & h2 & f2 & Hs2 & Hf2 & ->)] Hne.
  - destruct (decide (s1 = s2)) as [-> | Hs]; [congruence |].
    apply (live_disjoint Hok); [by apply (ow_live _ _ _ _ Hown); left.. | done].
  - change (2 ^ 0) with 1. by eapply Hmix.
  - change (2 ^ 0) with 1. destruct (Hmix _ _ _ _ _ H2 Hs1 Hf1); lia.
  - change (2 ^ 0) with 1. destruct (own_sb_slots _ _ _ Hs1 Hf1) as (? & _ & E1).
    destruct (own_sb_slots _ _ _ Hs2 Hf2) as (? & _ & E2). rewrite E1, E2, !base_slot_64 in *.
    destruct (decide (sb1 = sb2)) as [-> | ?]; [| lia].
    destruct (decide (f1 = f2)) as [-> | ?]; [congruence | lia].
Qed.

(** An aligned block of 64 slots is a superblock with a state. *)
Lemma live_superblock i :
  live_block c As i 6 ->
  i = base_slot (superblock_index i) /\ 0 <= superblock_index i < Z.of_nat (length (ck_superblocks c)) /\
  slot_offset i < mc_size (ck_memory c).
Proof.
  intros Hlv. destruct (live_in_chunk (ow_ok _ _ _ _ Hown) _ _ Hlv) as (_ & H0 & H1).
  assert (Hm : i mod 64 = 0).
  { destruct Hlv as (s & l & A & Hs & HA & Hl & ->).
    destruct (live_local (ow_ok _ _ _ _ Hown) _ _ _ _ Hs HA Hl) as (_ & _ & _ & Hm).
    unfold from_shard_local. rewrite Z.add_mod, Z.mul_mod, (ow_aligned _ _ _ _ Hown) by lia.
    change (2 ^ 6) with 64 in Hm. rewrite Hm, Z.mul_0_r. done. }
  pose proof (ow_states _ _ _ _ Hown) as Hst. pose proof (co_fit _ _ (ow_ok _ _ _ _ Hown)) as Hf.
  change (2 ^ 6) with 64 in H1. unfold superblock_index, base_slot, slot_offset, SLOT_SIZE in *.
  rewrite superblock_size_val. pose proof (Z.div_mod i 64). split_and!; lia.
Qed.

End Facts.

(** ** What the operations do *)

Lemma chunk_ok_sbs c As sbs : chunk_ok c As -> chunk_ok (set_superblocks c sbs) As.
Proof. intros []. by split. Qed.

Lemma same_layout_sbs c sb st :
  same_layout c (set_superblocks c (<[sb := st]> (ck_superblocks c))).
Proof. unfold same_layout. cbn. by rewrite length_insert. Qed.

(** The state of superblock [sb] and whether a thread has it as its active one. *)
Definition sb_active (c : Chunk) (sb : Z) : Prop :=
  exists st, ck_superblocks c !! Z.to_nat sb = Some st /\ sb_is_active st = true.

Section Operations.
Context {c : Chunk} {As : list (gmap Z Z)} {L : gmap Z Z} {S : gmap Z (gset Z)}.
Context (Hown : chunk_own c As L S).

(** A change of the state of one superblock in use. *)
Lemma own_set_state sb st held' :
  is_Some (S !! sb) -> mask_ok (sb_free_mask st) held' ->
  (sb_is_active st = false -> held' <> ∅) ->
  chunk_own (set_superblocks c (<[Z.to_nat sb := st]> (ck_superblocks c))) As L (<[sb := held']> S).
Proof.
  intros [h0 Hh0] Hm Ha. destruct Hown as [Hok Hal Hst Hlv HL Hsb].
  destruct (Hsb _ _ Hh0) as (Hsb0 & st0 & Hst0 & _).
  pose proof (lookup_lt_Some _ _ _ Hst0) as Hlt.
  split; cbn [ck_slots_per_shard ck_shards ck_superblocks set_superblocks]; rewrite ?length_insert;
    [by apply chunk_ok_sbs | done | done | | |].
  - intros i o. etrans; [apply (Hlv i o) |].
    split; intros [? | (-> & b & -> & Hb)]; [by left | right | by left | right];
      (split; [done |]); exists b; (split; [done |]).
    + destruct (decide (sb = b)) as [<- | ?]; [by rewrite lookup_insert_eq | by rewrite lookup_insert_ne].
    + destruct (decide (sb = b)) as [<- | ?]; [by rewrite Hh0 | by rewrite lookup_insert_ne in Hb].
  - intros i o Hi. destruct (HL i o Hi) as [Ho Hn]. split; [done |]. intros b Eb.
    specialize (Hn b Eb). rewrite lookup_insert_ne; [done | congruence].
  - intros b h Hb. destruct (decide (sb = b)) as [<- | Hne].
    + rewrite lookup_insert_eq in Hb. injection Hb as <-. split; [done |]. exists st.
      by rewrite list_lookup_insert_eq.
    + rewrite lookup_insert_ne in Hb by done. destruct (Hsb b h Hb) as (? & st' & Hst' & Hrest).
      split; [done |]. exists st'. rewrite list_lookup_insert_ne by lia. done.
Qed.

(** A superblock goes back to its shard, whatever its state. *)
Lemma own_return sb held st :
  S !! sb = Some held ->
  exists c' As',
    dealloc_superblock (set_superblocks c (<[Z.to_nat sb := st]> (ck_superblocks c))) sb = Ret c' /\
    chunk_own c' As' L (delete sb S) /\ same_layout c c' /\
    (forall b, b <> Z.to_nat sb -> ck_superblocks c' !! b = ck_superblocks c !! b).
Proof.
  intros Hs. set (c1 := set_superblocks c _). pose proof (own_sb_live Hown _ _ Hs) as Hlive.
  destruct (ow_sb _ _ _ _ Hown _ _ Hs) as (Hsb0 & _).
  pose proof (chunk_ok_sbs c As (<[Z.to_nat sb := st]> (ck_superblocks c)) (ow_ok _ _ _ _ Hown)) as Hok1.
  destruct (dealloc_global_ok c1 As Hok1 (base_slot sb) 6 Hlive)
    as (c' & As' & He & Hok' & Hlay & Hsbs & Hlv').
  exists c', As'. split; [exact He |].
  assert (Hlay' : same_layout c c') by (etrans; [apply same_layout_sbs | exact Hlay]).
  destruct Hlay' as (E1 & E2 & E3 & E4 & E5).
  assert (Hlv2 : forall i o, live_block c' As' i o <-> i <> base_slot sb /\ live_block c As i o).
  { intros i o. etrans; [apply same_layout_live, Hlay | apply (Hlv' i o)]. }
  split_and!; [| by unfold same_layout | intros b Hb; rewrite Hsbs; by apply list_lookup_insert_ne].
  destruct Hown as [Hok Hal Hst Hlv HL Hsb].
  split; [done | by rewrite E3 | by rewrite E3, E4, E5 | | |].
  - intros i o. rewrite Hlv2, Hlv. split.
    + intros [Hne [? | (-> & b & -> & Hb)]]; [by left |]. right. split; [done |]. exists b.
      split; [done |]. rewrite lookup_delete_ne; [done | congruence].
    + intros [Hi | (-> & b & -> & Hb)].
      * split; [| by left]. intros ->. destruct (HL _ _ Hi) as [_ Hn]. rewrite (Hn sb eq_refl) in Hs. done.
      * destruct (decide (sb = b)) as [<- | Hne]; [rewrite lookup_delete_eq in Hb; by destruct Hb |].
        rewrite lookup_delete_ne in Hb by done.
        split; [rewrite !base_slot_64; lia |]. right. split; [done |]. by exists b.
  - intros i o Hi. destruct (HL i o Hi) as [Ho Hn]. split; [done |]. intros b Eb.
    apply lookup_delete_None. right. by apply Hn.
  - intros b h [Hne Hb]%lookup_delete_Some. destruct (Hsb b h Hb) as (? & st' & Hst' & Hrest).
    split; [done |]. exists st'. rewrite Hsbs. cbn.
    rewrite list_lookup_insert_ne by (intros ?; apply Hne; lia). done.
Qed.

(** A block of another order for a client. *)
Lemma own_alloc_large contended th order seed :
  1 <= order ->
  (exists c' As' idx ptr,
     alloc_large contended th c order seed = Ret (c', Some (Large (ck_id c) idx ptr)) /\
     chunk_own c' As' (<[idx := order]> L) S /\ same_layout c c' /\
     ck_superblocks c' = ck_superblocks c /\ L !! idx = None /\
     ptr = mc_ptr (ck_memory c) + slot_offset idx) \/
  (alloc_large contended th c order seed = Ret (c, None) /\
   forall s, 0 <= s < Z.of_nat (length (ck_shards c)) -> shard_full c As s order).
Proof.
  intros Ho. unfold alloc_large.
  destruct (alloc_global_ok c As (ow_ok _ _ _ _ Hown) contended th order seed) as
    [(c' & As' & idx & ptr & He & (Hok' & Hlay & Hsbs & Hfree & Hlv') & Hp) | (He & Hfull)]; [lia | |].
  2: { right. by rewrite He. }
  left. exists c', As', idx, ptr. rewrite He, bind_ret. cbn [fst snd].
  destruct Hlay as (E1 & E2 & E3 & E4 & E5).
  assert (Hlv2 : forall i o, live_block c' As' i o <-> (i = idx /\ o = order) \/ live_block c As i o).
  { intros i o. rewrite <- (Hlv' i o). apply same_layout_live. by unfold same_layout. }
  destruct Hown as [Hok Hal Hst Hlv HL Hsb].
  assert (HLi : L !! idx = None).
  { destruct (L !! idx) as [o |] eqn:E; [| done]. exfalso. apply (Hfree o), Hlv. by left. }
  assert (HSi : forall sb, idx = base_slot sb -> S !! sb = None).
  { intros sb ->. destruct (S !! sb) as [h |] eqn:E; [| done]. exfalso.
    apply (Hfree 6), Hlv. right. split; [done |]. by exists sb; eauto. }
  rewrite E1. split_and!; [done | | by unfold same_layout | done | done | done].
  split; [done | by rewrite E3 | by rewrite E3, E4, E5 | | | by rewrite Hsbs].
  - intros i o. rewrite Hlv2, Hlv. destruct (decide (idx = i)) as [<- | Hne].
    + rewrite lookup_insert_eq, HLi. naive_solver.
    + rewrite lookup_insert_ne by done. naive_solver.
  - intros i o [[<- <-] | [? Hi]]%lookup_insert_Some; [done | by apply (HL i)].
Qed.

(** The superblock found by [alloc_global] gets a fresh state, active, with its
    first slot taken. *)
Lemma own_open c1 As1 i :
  allocates c As c1 As1 i 6 ->
  exists c' sb ptr, open_superblock c1 i = Ret (c', Some (Small (ck_id c) sb (base_slot sb) ptr)) /\
    chunk_own c' As1 L (<[sb := {[0]}]> S) /\ same_layout c c' /\ S !! sb = None /\
    sb_active c' sb /\ (forall b, b <> Z.to_nat sb -> ck_superblocks c' !! b = ck_superblocks c !! b) /\
    ptr = mc_ptr (ck_memory c) + slot_offset (base_slot sb).
Proof.
  intros (Hok' & (E1 & E2 & E3 & E4 & E5) & Hsbs & Hfree & Hlv').
  assert (Hlv2 : forall j o, live_block c1 As1 j o <-> (j = i /\ o = 6) \/ live_block c As j o).
  { intros j o. rewrite <- (Hlv' j o). apply same_layout_live. by unfold same_layout. }
  destruct Hown as [Hok Hal Hst Hlv HL Hsb].
  assert (HLi : L !! i = None).
  { destruct (L !! i) as [o |] eqn:E; [| done]. exfalso. apply (Hfree o), Hlv. by left. }
  (* as a block of order 6 in the hands of a client first *)
  assert (Hown1 : chunk_own c1 As1 (<[i := 6]> L) S).
  { split; [done | by rewrite E3 | by rewrite E3, E4, E5 | | | by rewrite Hsbs].
    - intros j o. rewrite Hlv2, Hlv. destruct (decide (i = j)) as [<- | Hne].
      + rewrite lookup_insert_eq, HLi. naive_solver.
      + rewrite lookup_insert_ne by done. naive_solver.
    - intros j o [[<- <-] | [? Hi]]%lookup_insert_Some; [| by apply (HL j)].
      split; [lia |]. intros sb ->. destruct (S !! sb) as [h |] eqn:E; [| done]. exfalso.
      apply (Hfree 6), Hlv. right. split; [done |]. by exists sb; eauto. }
  destruct (live_superblock Hown1 i) as (Hi & Hr & Hin); [apply Hlv2; by left |].
  set (sb := superblock_index i) in *.
  assert (HS : S !! sb = None).
  { apply (ow_large _ _ _ _ Hown1 i 6); [by rewrite lookup_insert_eq | done]. }
  destruct (lookup_lt_is_Some_2 (ck_superblocks c1) (Z.to_nat sb)) as [st0 Hst0]; [lia |].
  destruct (trailing_zeros_slot _ _ mask_ok_init ltac:(done)) as (_ & _ & Hm).
  set (st := mkSb (take_slot U64_MAX 0) true).
  set (c' := set_superblocks c1 (<[Z.to_nat sb := st]> (ck_superblocks c1))).
  exists c', sb, (mc_ptr (ck_memory c) + slot_offset (base_slot sb)).
  assert (Hlay : same_layout c c').
  { etrans; [| apply same_layout_sbs]. by unfold same_layout. }
  split_and!; [| | done | done | | | done].
  - unfold open_superblock. fold sb. rewrite (vec_get_lookup _ _ st0), bind_ret by (done || lia).
    change (alloc_one (sb_init st0)) with (st, Some 0). cbn [fst snd expect]. rewrite bind_ret.
    rewrite vec_set_in_range, bind_ret by lia. fold c'.
    change (from_superblock_offset sb 0) with (sb * 64 + 0). rewrite Z.add_0_r, <- base_slot_64, <- Hi.
    unfold resolve_ptr. change (ck_memory c') with (ck_memory c1).
    unfold memory_len. destruct (Z.ltb_spec (slot_offset i) (mc_size (ck_memory c1))); [| lia].
    cbn [assert]. rewrite bind_ret. change (ck_id c') with (ck_id c1). unfold memory_as_ptr.
    by rewrite E1, E2.
  - destruct Hown1 as [Hok1 Hal1 Hst1 Hlv1 HL1 Hsb1].
    split; [by apply chunk_ok_sbs | done | by cbn; rewrite length_insert | | |].
    + intros j o. etrans; [apply (Hlv1 j o) |]. split.
      * intros [[[<- <-] | [? HLj]]%lookup_insert_Some | (-> & b & -> & Hb)]; [| by left |]; right.
        -- split; [done |]. exists sb. by rewrite lookup_insert_eq.
        -- split; [done |]. exists b. rewrite lookup_insert_ne; [done |]. intros <-. by rewrite HS in Hb; destruct Hb.
      * intros [HLj | (-> & b & -> & Hb)].
        -- left. rewrite lookup_insert_ne; [done |]. intros <-. congruence.
        -- destruct (decide (sb = b)) as [<- | Hne]; [left; rewrite <- Hi; by rewrite lookup_insert_eq |].
           right. rewrite lookup_insert_ne in Hb by done. split; [done |]. by exists b.
    + intros j o HLj. destruct (HL j o HLj) as [Ho Hn]. split; [done |]. intros b ->.
      rewrite lookup_insert_ne; [by apply Hn |]. intros <-. congruence.
    + intros b h Hb. cbn. destruct (decide (sb = b)) as [<- | Hne].
      * rewrite lookup_insert_eq in Hb. injection Hb as <-. split; [lia |]. exists st.
        rewrite list_lookup_insert_eq by lia. split_and!; [done | | done].
        by rewrite (right_id_L ∅ (∪)) in Hm.
      * rewrite lookup_insert_ne in Hb by done. destruct (Hsb1 b h Hb) as (? & st' & Hst' & Hrest).
        split; [done |]. exists st'. rewrite list_lookup_insert_ne by lia. done.
  - exists st. cbn. rewrite list_lookup_insert_eq by lia. done.
  - intros b Hb. cbn. rewrite list_lookup_insert_ne by done. by rewrite Hsbs.
Qed.

Lemma own_alloc_small contended th seed :
  (exists c' As' sb ptr,
     alloc_small contended th c seed = Ret (c', Some (Small (ck_id c) sb (base_slot sb) ptr)) /\
     chunk_own c' As' L (<[sb := {[0]}]> S) /\ same_layout c c' /\ S !! sb = None /\
     sb_active c' sb /\ (forall b, b <> Z.to_nat sb -> ck_superblocks c' !! b = ck_superblocks c !! b) /\
     ptr = mc_ptr (ck_memory c) + slot_offset (base_slot sb)) \/
  (alloc_small contended th c seed = Ret (c, None) /\
   forall s, 0 <= s < Z.of_nat (length (ck_shards c)) -> shard_full c As s 6).
Proof.
  unfold alloc_small.
  destruct (alloc_global_ok c As (ow_ok _ _ _ _ Hown) contended th SUPERBLOCK_ORDER seed) as
    [(c1 & As1 & i & p & He & Hal & Hp) | (He & Hfull)]; [done | left | right].
  - destruct (own_open c1 As1 i Hal) as (c' & sb & ptr & Hopen & Hrest).
    exists c', As1, sb, ptr. rewrite He, bind_ret. cbn [fst snd]. by split.
  - by rewrite He, bind_ret.
Qed.

(** A free of a block by its holder. *)
Lemma own_dealloc_large idx order :
  L !! idx = Some order ->
  exists c' As', chunk_dealloc_slots c idx order = Ret c' /\
    chunk_own c' As' (delete idx L) S /\ same_layout c c' /\ ck_superblocks c' = ck_superblocks c.
Proof.
  intros Hi. destruct (ow_large _ _ _ _ Hown _ _ Hi) as [Ho Hns].
  destruct (dealloc_global_ok c As (ow_ok _ _ _ _ Hown) idx order) as
    (c' & As' & He & Hok' & (E1 & E2 & E3 & E4 & E5) & Hsbs & Hlv').
  { apply (ow_live _ _ _ _ Hown). by left. }
  assert (Hlv2 : forall i o, live_block c' As' i o <-> i <> idx /\ live_block c As i o).
  { intros i o. rewrite <- (Hlv' i o). apply same_layout_live. by unfold same_layout. }
  exists c', As'. unfold chunk_dealloc_slots. destruct (Z.eqb_spec order 0); [lia |].
  split_and!; [done | | by unfold same_layout | done].
  destruct Hown as [Hok Hal Hst Hlv HL Hsb].
  split; [done | by rewrite E3 | by rewrite E3, E4, E5 | | | by rewrite Hsbs].
  - intros i o. rewrite Hlv2, Hlv, lookup_delete_Some. split; [naive_solver |].
    intros [[? ?] | (-> & b & -> & Hb)]; [naive_solver |]. split; [| naive_solver].
    intros <-. rewrite (Hns b eq_refl) in Hb. by destruct Hb.
  - intros i o [_ ?]%lookup_delete_Some. by apply (HL i).
Qed.

(** The cached superblock gives one more slot, or is used up. *)
Lemma own_take sb held st :
  S !! sb = Some held -> ck_superblocks c !! Z.to_nat sb = Some st -> sb_is_active st = true ->
  (exists st' off, alloc_one st = (st', Some off) /\ off ∉ held /\ 0 <= off < 64 /\
     sb_is_active st' = true /\
     chunk_own (set_superblocks c (<[Z.to_nat sb := st']> (ck_superblocks c))) As L
       (<[sb := {[off]} ∪ held]> S)) \/
  (alloc_one st = (st, None) /\ held <> ∅).
Proof.
  intros Hs Hst Ha. destruct (ow_sb _ _ _ _ Hown _ _ Hs) as (_ & st0 & Hst0 & Hm & _).
  rewrite Hst in Hst0. injection Hst0 as <-. unfold alloc_one.
  destruct (Z.eqb_spec (sb_free_mask st) 0) as [Hz | Hz].
  - right. split; [done |]. rewrite Hz in Hm. intros ->. destruct (mask_ok_full _ _ Hm) as [_ Hf].
    by specialize (Hf eq_refl).
  - left. destruct (trailing_zeros_slot _ _ Hm Hz) as (Hi & Hn & Hm').
    eexists _, _. split_and!; [reflexivity | done | lia | lia | done |].
    apply own_set_state; [by eauto | done | by cbn; rewrite Ha].
Qed.

(** A free of a slot by its holder: the superblock is returned when that was
    its last slot and no thread has it as its active one. *)
Lemma own_dealloc_small sb held off :
  S !! sb = Some held -> off ∈ held ->
  exists c' As' S', chunk_dealloc_slots c (from_superblock_offset sb off) 0 = Ret c' /\
    chunk_own c' As' L S' /\ same_layout c c' /\
    (S' = <[sb := held ∖ {[off]}]> S \/
     (S' = delete sb S /\ held = {[off]} /\ ~ sb_active c sb)) /\
    (forall b, sb_active c b -> sb_active c' b).
Proof.
  intros Hs Hoff. destruct (own_sb_slots Hown _ _ _ Hs Hoff) as (Hr & Hlive & _).
  destruct (ow_sb _ _ _ _ Hown _ _ Hs) as (Hsb0 & st & Hst & Hm & Ha).
  pose proof (lookup_lt_Some _ _ _ Hst) as Hlt.
  pose proof (mask_ok_free _ _ _ Hm Hoff) as Hm'.
  unfold chunk_dealloc_slots. cbn [Z.eqb].
  destruct (superblock_round' sb off Hr) as [-> ->].
  destruct (Z.leb_spec (Z.of_nat (length (ck_superblocks c))) sb); [lia |].
  rewrite (vec_get_lookup _ _ st), bind_ret by (done || lia).
  unfold free_one. set (new := Z.lor (sb_free_mask st) (Z.shiftl 1 off)) in *.
  rewrite vec_set_in_range, bind_ret by lia. set (st' := mkSb new (sb_is_active st)).
  assert (Hact : forall c', (forall b, b <> Z.to_nat sb -> ck_superblocks c' !! b = ck_superblocks c !! b) ->
    (sb_is_active st = true -> ck_superblocks c' !! Z.to_nat sb = Some st') ->
    forall b, sb_active c b -> sb_active c' b).
  { intros c' Hoth Hsame b (stb & Hb & Hab). destruct (decide (Z.to_nat b = Z.to_nat sb)) as [E | Hne].
    - rewrite E, Hst in Hb. injection Hb as <-. exists st'. rewrite E. by rewrite Hsame.
    - exists stb. by rewrite Hoth. }
  pose proof (mask_ok_full _ _ Hm') as Hfull.
  destruct (Z.eqb_spec new U64_MAX) as [Hmax | Hnmax]; [destruct (sb_is_active st) eqn:Eact |]; cbn [negb].
  - eexists _, As, _. split_and!; [reflexivity | | apply same_layout_sbs | by left |].
    + apply own_set_state; [by eauto | done | done].
    + apply Hact; [intros b Hb; by apply list_lookup_insert_ne |].
      intros _. by apply list_lookup_insert_eq.
  - destruct (own_return sb held st' Hs) as (c' & As' & He & Hown' & Hlay & Hoth).
    exists c', As', (delete sb S). split_and!; [done | done | done | | by apply Hact].
    right. split_and!; [done | |].
    + apply Hfull in Hmax. apply set_eq. intros x. split; [| set_solver].
      intros Hx. destruct (decide (x = off)) as [-> | Hne]; [set_solver |].
      assert (x ∈ held ∖ {[off]}) by set_solver. set_solver.
    + intros (stb & Hb & Hab). rewrite Hst in Hb. injection Hb as <-. congruence.
  - eexists _, As, _. split_and!; [reflexivity | | apply same_layout_sbs | by left |].
    + apply own_set_state; [by eauto | done |]. intros _ He. by apply Hnmax, Hfull.
    + apply Hact; [intros b Hb; by apply list_lookup_insert_ne |].
      intros _. by apply list_lookup_insert_eq.
Qed.

End Operations.
