(* ===== verification/Pool.v ===== *)
(** * veloq-buf [heap/cache.rs] and [heap/pool.rs]: thread caches and the pool

    A pool is a growing list of chunks.  A thread keeps, per pool, the
    superblock it currently takes single slots from: the one used last in its
    hot segment, the others in a map.

    Chunks are shared through [Arc]: the store lists all chunks, and an [Arc]
    is a position in it.  A pool is known to the caches by its address
    ([pool_id]).  An operation of the pool runs as one step; [contended] says
    which shards [try_lock] finds taken. *)

From S2P Require Import Prelude BitSet IntrusiveList Units Buddy Superblock Chunk Ownership.

Notation store := (list Chunk).

(** ** The thread cache *)

Record LocalCacheEntry : Type := mkCe { ce_chunk : nat; ce_sb_idx : Z; ce_chunk_id : Z }.

Record HotSegment : Type := mkHot {
  hs_pool_id : Z;
  hs_sb_state : option (nat * Z);   (* pointer to a state of a chunk *)
  hs_chunk_base : Z;
  hs_sb_idx : Z;
  hs_chunk_id : Z;
  hs_owner : option LocalCacheEntry
}.

Record LocalCache : Type := mkCache {
  lc_hot : HotSegment;
  lc_others : gmap Z LocalCacheEntry
}.

Definition hot_new : HotSegment := mkHot 0 None 0 0 0 None.
Definition local_cache_new : LocalCache := mkCache hot_new ∅.

(** Reads and writes through an [Arc<Chunk>]. *)
Definition chunk_get (st : store) (a : nat) : outcome Chunk :=
  match st !! a with Some c => Ret c | None => Fault InvalidPointer end.

(** [Drop for LocalCacheEntry]: the superblock is no longer active. *)
Definition entry_drop (st : store) (e : LocalCacheEntry) : outcome store :=
  c ← chunk_get st (ce_chunk e);
  sb ← vec_get (ck_superblocks c) (ce_sb_idx e);
  let r := set_inactive sb in
  sbs ← vec_set (ck_superblocks c) (ce_sb_idx e) r.1;
  let c := set_superblocks c sbs in
  if r.2 then
    c ← dealloc_superblock c (ce_sb_idx e);
    Ret (<[ce_chunk e := c]> st)
  else Ret (<[ce_chunk e := c]> st).

(** Assignment to a cell that may hold an entry drops the old one. *)
Definition drop_opt (st : store) (o : option LocalCacheEntry) : outcome store :=
  match o with Some e => entry_drop st e | None => Ret st end.

Definition hot_set (st : store) (h : HotSegment) (pool_id : Z) (e : LocalCacheEntry)
    : outcome (store * HotSegment) :=
  c ← chunk_get st (ce_chunk e);
  _ ← vec_get (ck_superblocks c) (ce_sb_idx e);
  st ← drop_opt st (hs_owner h);
  Ret (st, mkHot pool_id (Some (ce_chunk e, ce_sb_idx e)) (memory_as_ptr (ck_memory c))
             (ce_sb_idx e) (ce_chunk_id e) (Some e)).

Definition hot_clear (st : store) (h : HotSegment) : outcome (store * HotSegment) :=
  st ← drop_opt st (hs_owner h);
  Ret (st, mkHot (hs_pool_id h) None 0 (hs_sb_idx h) (hs_chunk_id h) None).

Definition take_owner (h : HotSegment) : HotSegment * option LocalCacheEntry :=
  (mkHot (hs_pool_id h) (hs_sb_state h) (hs_chunk_base h) (hs_sb_idx h) (hs_chunk_id h) None,
   hs_owner h).

(** [if let Some(old) = hot.take_owner() { others.insert(hot.pool_id, old) }];
    an entry the insertion replaces is dropped. *)
Definition demote (st : store) (lc : LocalCache) : outcome (store * LocalCache) :=
  let (hot, o) := take_owner (lc_hot lc) in
  match o with
  | Some old =>
      st ← drop_opt st (lc_others lc !! hs_pool_id hot);
      Ret (st, mkCache hot (<[hs_pool_id hot := old]> (lc_others lc)))
  | None => Ret (st, mkCache hot (lc_others lc))
  end.

(** The slot of the hot superblock, through the flattened pointers. *)
Definition hot_alloc (st : store) (h : HotSegment) (a : nat) (sb : Z)
    : outcome (store * option (Z * Z * Z)) :=
  c ← chunk_get st a;
  s ← vec_get (ck_superblocks c) sb;
  let r := alloc_one s in
  sbs ← vec_set (ck_superblocks c) sb r.1;
  let st := <[a := set_superblocks c sbs]> st in
  match r.2 with
  | Some offset =>
      let global_idx := from_superblock_offset (hs_sb_idx h) offset in
      Ret (st, Some (hs_chunk_id h, global_idx, hs_chunk_base h + slot_offset global_idx))
  | None => Ret (st, None)
  end.

(** [LocalCache::try_alloc] and [try_alloc_slow], which calls it again after it
    has moved an entry from the map to the hot segment; [fuel] bounds that. *)
Fixpoint try_alloc (fuel : nat) (st : store) (lc : LocalCache) (pool_id : Z)
    : outcome (store * LocalCache * option (Z * Z * Z)) :=
  match fuel with
  | O => Fault OutOfFuel
  | S fuel =>
      let slow (st : store) (lc : LocalCache) :=
        match lc_others lc !! pool_id with
        | Some e =>
            '(st, lc) ← demote st (mkCache (lc_hot lc) (delete pool_id (lc_others lc)));
            '(st, hot) ← hot_set st (lc_hot lc) pool_id e;
            try_alloc fuel st (mkCache hot (lc_others lc)) pool_id
        | None => Ret (st, lc, None)
        end in
      match hs_sb_state (lc_hot lc) with
      | Some (a, sb) =>
          if hs_pool_id (lc_hot lc) =? pool_id then
            r ← hot_alloc st (lc_hot lc) a sb;
            match r.2 with
            | Some res => Ret (r.1, lc, Some res)
            | None =>
                '(st, hot) ← hot_clear r.1 (lc_hot lc);
                slow st (mkCache hot (lc_others lc))
            end
          else slow st lc
      | None => slow st lc
      end
  end.

(** Two calls suffice: the second starts with nothing in the map for the pool. *)
Definition cache_try_alloc (st : store) (lc : LocalCache) (pool_id : Z)
    : outcome (store * LocalCache * option (Z * Z * Z)) :=
  try_alloc 2 st lc pool_id.

Definition cache_insert (st : store) (lc : LocalCache) (pool_id : Z) (e : LocalCacheEntry)
    : outcome (store * LocalCache) :=
  '(st, lc) ← demote st lc;
  '(st, hot) ← hot_set st (lc_hot lc) pool_id e;
  Ret (st, mkCache hot (lc_others lc)).

(** ** The pool *)

Record ChunkInfo : Type := mkInfo { ci_id : Z; ci_ptr : Z; ci_len : Z }.

(** [gp_listener]: a listener was registered. *)
Record GlobalSlotPool : Type := mkPool { gp_chunks : list nat; gp_listener : bool }.

Definition EXPANSION_SIZE : Z := 64 * 1024 * 1024.

(** What a call sees of its environment: the system, contended shards by
    chunk, the hash of the thread, the seed. *)
Record Env : Type := mkEnv {
  env_os : Os;
  env_contended : nat -> Z -> bool;
  env_thread_hash : Z
}.

Definition pool_new (os : Os) (st : store) (total_memory : Z)
    : outcome (store * result GlobalSlotPool BufError) :=
  if total_memory <? MIN_THREAD_MEMORY then Ret (st, Err ChunkTooSmall) else
  match page_aligned_from_usize total_memory with
  | None => Ret (st, Err (PageUnaligned total_memory))
  | Some size =>
      r ← chunk_new os 0 size;
      match r with
      | Err e => Ret (st, Err e)
      | Ok chunk0 => Ret (st ++ [chunk0], Ok (mkPool [length st] false))
      end
  end.

Definition set_listener (p : GlobalSlotPool) : GlobalSlotPool := mkPool (gp_chunks p) true.

(** The loop over the chunks: the first that can serve the request. *)
Fixpoint try_chunks (env : Env) (st : store) (chunks : list nat) (order : Z) (seed : option Z)
    : outcome (store * option (nat * ChunkAlloc)) :=
  match chunks with
  | [] => Ret (st, None)
  | a :: chunks =>
      c ← chunk_get st a;
      r ← chunk_alloc_slots (env_contended env a) (env_thread_hash env) c order seed;
      let st := <[a := r.1]> st in
      match r.2 with
      | Some alloc => Ret (st, Some (a, alloc))
      | None => try_chunks env st chunks order seed
      end
  end.

Definition finish_alloc (st : store) (lc : LocalCache) (pool_id : Z) (a : nat) (alloc : ChunkAlloc)
    : outcome (store * LocalCache * option (Z * Z * Z)) :=
  match alloc with
  | Small chunk_id sb_idx slot_idx ptr =>
      '(st, lc) ← cache_insert st lc pool_id (mkCe a sb_idx chunk_id);
      Ret (st, lc, Some (chunk_id, slot_idx, ptr))
  | Large chunk_id slot_idx ptr => Ret (st, lc, Some (chunk_id, slot_idx, ptr))
  end.

(** The result of a request: store, cache, pool, the allocation, and what the
    listener was told. *)
Record alloc_result : Type := mkRes {
  ar_store : store;
  ar_cache : LocalCache;
  ar_pool : GlobalSlotPool;
  ar_res : option (Z * Z * Z);
  ar_notified : option ChunkInfo
}.

Definition finish (st : store) (lc : LocalCache) (p : GlobalSlotPool) (pool_id : Z)
    (found : option (nat * ChunkAlloc)) (info : option ChunkInfo) : outcome alloc_result :=
  match found with
  | Some (a, alloc) =>
      '(st, lc, res) ← finish_alloc st lc pool_id a alloc;
      Ret (mkRes st lc p res info)
  | None => Ret (mkRes st lc p None info)
  end.

(** Expansion by a chunk of 64 MB. *)
Definition pool_expand (env : Env) (st : store) (lc : LocalCache) (p : GlobalSlotPool)
    (pool_id order : Z) (seed : option Z) : outcome alloc_result :=
  match chunk_id_from_index (Z.of_nat (length (gp_chunks p))) with
  | None => Ret (mkRes st lc p None None)
  | Some next_id =>
      expansion_size ← expect (page_aligned_from_usize EXPANSION_SIZE);
      r ← chunk_new (env_os env) next_id expansion_size;
      match r with
      | Err _ => Ret (mkRes st lc p None None)
      | Ok new_chunk =>
          let a := length st in
          r ← chunk_alloc_slots (env_contended env a) (env_thread_hash env) new_chunk order seed;
          let st := st ++ [r.1] in
          let p' := mkPool (gp_chunks p ++ [a]) (gp_listener p) in
          let info :=
            if gp_listener p then
              Some (mkInfo (ck_id new_chunk) (mc_ptr (ck_memory new_chunk))
                      (mc_size (ck_memory new_chunk)))
            else None in
          finish st lc p' pool_id (match r.2 with Some al => Some (a, al) | None => None end) info
      end
  end.

Definition pool_alloc_slots (env : Env) (st : store) (lc : LocalCache) (p : GlobalSlotPool)
    (pool_id order : Z) (seed : option Z) : outcome alloc_result :=
  '(st, lc, fast) ←
    (if order =? 0 then cache_try_alloc st lc pool_id else Ret (st, lc, None));
  match fast with
  | Some res => Ret (mkRes st lc p (Some res) None)
  | None =>
      r ← try_chunks env st (gp_chunks p) order seed;
      match r.2 with
      | Some found => finish r.1 lc p pool_id (Some found) None
      | None =>
          r ← try_chunks env r.1 (gp_chunks p) order seed;
          match r.2 with
          | Some found => finish r.1 lc p pool_id (Some found) None
          | None => pool_expand env r.1 lc p pool_id order seed
          end
      end
  end.

Definition pool_dealloc_slots (st : store) (p : GlobalSlotPool) (chunk_id index order : Z)
    : outcome store :=
  match gp_chunks p !! Z.to_nat chunk_id with
  | Some a =>
      c ← chunk_get st a;
      _ ← assert (ck_id c =? chunk_id);
      c ← chunk_dealloc_slots c index order;
      Ret (<[a := c]> st)
  | None => Fault ExplicitPanic
  end.

Definition info_of (c : Chunk) : ChunkInfo :=
  mkInfo (ck_id c) (mc_ptr (ck_memory c)) (mc_size (ck_memory c)).

Definition chunk_info (st : store) (p : GlobalSlotPool) (chunk_id : Z) : outcome (option ChunkInfo) :=
  match gp_chunks p !! Z.to_nat chunk_id with
  | Some a => c ← chunk_get st a; Ret (Some (info_of c))
  | None => Ret None
  end.

Fixpoint chunk_infos (st : store) (chunks : list nat) : outcome (list ChunkInfo) :=
  match chunks with
  | [] => Ret []
  | a :: chunks =>
      c ← chunk_get st a;
      rest ← chunk_infos st chunks;
      Ret (info_of c :: rest)
  end.

Definition global_info (st : store) (p : GlobalSlotPool) : outcome ChunkInfo :=
  o ← chunk_info st p 0; expect o.
