(* ===== verification/PoolSafety.v ===== *)
(** * Memory safety of the pool

    The buffers handed out by a pool are disjoint pieces of its chunks, for any
    number of threads and pools: [store_ok] says that each chunk of the store
    satisfies [chunk_own], [cache_ok] that the entries of the caches are active
    superblocks, each in one cache only, mirrored by the hot segment.  The
    operations preserve this and change the set of held buffers exactly by the
    buffer they hand out or take back. *)

From S2P Require Import Prelude BitSet IntrusiveList Units Buddy Superblock Chunk Ownership Pool.

(** Blocks and slots held, per chunk: the maps of [chunk_own]. *)
Notation ghost := (gmap Z Z * gmap Z (gset Z))%type.

Definition store_ok (st : store) (G : list ghost) : Prop :=
  length st = length G /\
  forall a c g, st !! a = Some c -> G !! a = Some g -> exists As, chunk_own c As g.1 g.2.

(** Some client holds the buffer of [2^o] slots at [slot] of chunk [a]. *)
Definition held_buf (G : list ghost) (a : nat) (slot o : Z) : Prop :=
  exists g, G !! a = Some g /\ holds g.1 g.2 slot o.

Definition store_le (st st' : store) : Prop :=
  forall a c, st !! a = Some c -> exists c', st' !! a = Some c' /\ same_layout c c'.

#[global] Instance store_le_pre : PreOrder store_le.
Proof.
  split; [intros st a c Hc; by exists c |]. intros s1 s2 s3 H1 H2 a c Hc.
  destruct (H1 a c Hc) as (c' & Hc' & Hl). destruct (H2 a c' Hc') as (c'' & Hc'' & Hl').
  exists c''. split; [done | by etrans].
Qed.

(** A cache entry: a superblock in use and active. *)
Definition key (e : LocalCacheEntry) : nat * Z := (ce_chunk e, ce_sb_idx e).

Definition entry_ok (st : store) (G : list ghost) (e : LocalCacheEntry) : Prop :=
  exists c g, st !! ce_chunk e = Some c /\ G !! ce_chunk e = Some g /\
    is_Some (g.2 !! ce_sb_idx e) /\ sb_active c (ce_sb_idx e).

(** From [(st, G)] to [(st', G')]: chunks stay, the entries in [keep] stay
    valid, and exactly [held'] is held afterwards. *)
Record trans (st : store) (G : list ghost) (st' : store) (G' : list ghost)
    (keep : LocalCacheEntry -> Prop) (held' : nat -> Z -> Z -> Prop) : Prop := {
  tr_ok : store_ok st' G';
  tr_le : store_le st st';
  tr_keep : forall e, keep e -> entry_ok st G e -> entry_ok st' G' e;
  tr_held : forall a s o, held_buf G' a s o <-> held' a s o
}.

Lemma trans_refl st G : store_ok st G -> trans st G st G (fun _ => True) (held_buf G).
Proof. intros. split; done || reflexivity. Qed.

Lemma store_lookup st G a c :
  store_ok st G -> st !! a = Some c -> exists g As, G !! a = Some g /\ chunk_own c As g.1 g.2.
Proof.
  intros [Hl Hok] Hc. destruct (lookup_lt_is_Some_2 G a) as [g Hg].
  { rewrite <- Hl. by eapply lookup_lt_Some. }
  destruct (Hok a c g Hc Hg) as [As Ho]. by exists g, As.
Qed.

(** One chunk changes. *)
Lemma store_update st G a c c' As' L S L' S' (keep : LocalCacheEntry -> Prop)
    (held' : nat -> Z -> Z -> Prop) :
  store_ok st G -> st !! a = Some c -> G !! a = Some (L, S) -> chunk_own c' As' L' S' ->
  same_layout c c' ->
  (forall e, keep e -> ce_chunk e = a -> is_Some (S !! ce_sb_idx e) -> sb_active c (ce_sb_idx e) ->
     is_Some (S' !! ce_sb_idx e) /\ sb_active c' (ce_sb_idx e)) ->
  (forall b s o, held' b s o <-> if decide (a = b) then holds L' S' s o else held_buf G b s o) ->
  trans st G (<[a := c']> st) (<[a := (L', S')]> G) keep held'.
Proof.
  intros [Hl Hok] Hc Hg Hown Hlay Hkeep Hheld.
  pose proof (lookup_lt_Some _ _ _ Hc) as Hlt. pose proof (lookup_lt_Some _ _ _ Hg) as Hlt'.
  split.
  - split; [by rewrite !length_insert |]. intros b x g Hb Hgb.
    destruct (decide (a = b)) as [<- | Hne].
    + rewrite list_lookup_insert_eq in Hb by done. rewrite list_lookup_insert_eq in Hgb by done.
      injection Hb as <-. injection Hgb as <-. by exists As'.
    + rewrite list_lookup_insert_ne in Hb by done. rewrite list_lookup_insert_ne in Hgb by done.
      by apply (Hok b).
  - intros b x Hb. destruct (decide (a = b)) as [<- | Hne].
    + rewrite Hc in Hb. injection Hb as <-. exists c'. by rewrite list_lookup_insert_eq.
    + exists x. rewrite list_lookup_insert_ne by done. by split.
  - intros e Hk (x & g & Hx & Hgx & HS & Ha). destruct (decide (a = ce_chunk e)) as [E | Hne].
    + rewrite <- E, Hc in Hx. injection Hx as <-. rewrite <- E, Hg in Hgx. injection Hgx as <-.
      destruct (Hkeep e Hk (eq_sym E) HS Ha). exists c', (L', S'). rewrite <- E.
      by rewrite !list_lookup_insert_eq.
    + exists x, g. by rewrite !list_lookup_insert_ne.
  - intros b s o. rewrite Hheld. unfold held_buf. destruct (decide (a = b)) as [<- | Hne].
    + rewrite list_lookup_insert_eq by done. naive_solver.
    + by rewrite list_lookup_insert_ne.
Qed.

Lemma held_at G a L S s o : G !! a = Some (L, S) -> held_buf G a s o <-> holds L S s o.
Proof. intros Hg. unfold held_buf. rewrite Hg. naive_solver. Qed.

(** ** Dropping a cache entry *)

Lemma holds_delete_empty L S sb s o :
  S !! sb = Some ∅ -> holds L (delete sb S) s o <-> holds L S s o.
Proof.
  intros Hs. unfold holds. split; (intros [? | (-> & b & h & f & Hb & Hf & ->)]; [by left |]); right.
  - apply lookup_delete_Some in Hb as [_ Hb]. naive_solver.
  - split; [done |]. exists b, h, f. rewrite lookup_delete_ne; [done |].
    intros <-. rewrite Hs in Hb. injection Hb as <-. set_solver.
Qed.

Lemma entry_drop_ok st G e :
  store_ok st G -> entry_ok st G e ->
  exists st' G', entry_drop st e = Ret st' /\
    trans st G st' G' (fun e' => key e' <> key e) (held_buf G).
Proof.
  intros Hst (c & [L S] & Hc & Hg & [held HS] & (sbst & Hsb & Hact)). cbn [fst snd] in HS.
  destruct (proj2 Hst _ _ _ Hc Hg) as [As Hown]. cbn [fst snd] in Hown.
  destruct (ow_sb _ _ _ _ Hown _ _ HS) as (Hsb0 & st0 & Hst0 & Hm & _).
  rewrite Hsb in Hst0. injection Hst0 as <-. pose proof (lookup_lt_Some _ _ _ Hsb) as Hlt.
  unfold entry_drop, chunk_get. rewrite Hc, bind_ret.
  rewrite (vec_get_lookup _ _ sbst), bind_ret by (done || lia).
  unfold set_inactive. cbn [fst snd]. rewrite vec_set_in_range, bind_ret by lia.
  set (st1 := mkSb (sb_free_mask sbst) false).
  assert (Hother : forall e', key e' <> key e -> ce_chunk e' = ce_chunk e -> 0 <= ce_sb_idx e' ->
    Z.to_nat (ce_sb_idx e') <> Z.to_nat (ce_sb_idx e)).
  { intros e' Hk Hch He' E. apply Hk. unfold key. rewrite Hch. f_equal. lia. }
  assert (Hnn : forall e', is_Some (S !! ce_sb_idx e') -> 0 <= ce_sb_idx e').
  { intros e' [h Hh]. by destruct (ow_sb _ _ _ _ Hown _ _ Hh). }
  pose proof (mask_ok_full _ _ Hm) as Hfull.
  destruct (Z.eqb_spec (sb_free_mask sbst) U64_MAX) as [Hmax | Hn].
  - apply Hfull in Hmax. subst held.
    destruct (own_return Hown (ce_sb_idx e) ∅ st1 HS) as (c' & As' & He & Hown' & Hlay & Hoth).
    rewrite He, bind_ret. eexists _, _. split; [reflexivity |].
    eapply store_update; [done | exact Hc | exact Hg | exact Hown' | done | |].
    + intros e' Hk Hch HS' (stb & Hb & Hab). split.
      * rewrite lookup_delete_ne; [done |]. intros E. apply Hk. unfold key. by rewrite Hch, E.
      * exists stb. rewrite Hoth by (apply Hother; [done | done | by apply Hnn]). done.
    + intros b s o. destruct (decide (ce_chunk e = b)) as [<- | Hne]; [| done].
      rewrite (held_at _ _ _ _ _ _ Hg). by rewrite holds_delete_empty.
  - eexists _, (<[ce_chunk e := (L, <[ce_sb_idx e := held]> S)]> G). split; [reflexivity |].
    eapply store_update; [done | exact Hc | exact Hg | | apply same_layout_sbs | |].
    + apply (own_set_state Hown); [by eauto | done |]. intros _ ->. by apply Hn, Hfull.
    + intros e' Hk Hch HS' (stb & Hb & Hab). rewrite insert_id by done. split; [done |].
      exists stb. cbn. rewrite list_lookup_insert_ne; [done |].
      apply not_eq_sym, Hother; [done | done | by apply Hnn].
    + intros b s o. rewrite insert_id by done.
      destruct (decide (ce_chunk e = b)) as [<- | Hne]; [| done]. by rewrite (held_at _ _ _ _ _ _ Hg).
Qed.

(** ** Caches *)

(** The chunk a pool knows by an id. *)
Definition chunk_of (pools : gmap Z GlobalSlotPool) (pool_id chunk_id : Z) : option nat :=
  match pools !! pool_id with
  | Some p => gp_chunks p !! Z.to_nat chunk_id
  | None => None
  end.

Definition hot_entries (h : HotSegment) : list (Z * LocalCacheEntry) :=
  match hs_owner h with Some e => [(hs_pool_id h, e)] | None => [] end.

Definition lc_entries (lc : LocalCache) : list (Z * LocalCacheEntry) :=
  hot_entries (lc_hot lc) ++ map_to_list (lc_others lc).

Definition keys (es : list (Z * LocalCacheEntry)) : list (nat * Z) := (fun pe => key pe.2) <$> es.

(** The primitives of the hot segment mirror its owner. *)
Definition mirror (st : store) (h : HotSegment) : Prop :=
  match hs_owner h with
  | Some e => hs_sb_state h = Some (key e) /\ hs_sb_idx h = ce_sb_idx e /\
      hs_chunk_id h = ce_chunk_id e /\
      exists c, st !! ce_chunk e = Some c /\ hs_chunk_base h = mc_ptr (ck_memory c)
  | None => hs_sb_state h = None
  end.

Definition entry_valid (pools : gmap Z GlobalSlotPool) (st : store) (G : list ghost)
    (pe : Z * LocalCacheEntry) : Prop :=
  entry_ok st G pe.2 /\ 0 <= ce_chunk_id pe.2 /\
  chunk_of pools pe.1 (ce_chunk_id pe.2) = Some (ce_chunk pe.2).

(** [F]: the keys of the entries of the other threads. *)
Record cache_ok (pools : gmap Z GlobalSlotPool) (st : store) (G : list ghost)
    (F : list (nat * Z)) (lc : LocalCache) : Prop := {
  ca_nodup : NoDup (keys (lc_entries lc) ++ F);
  ca_valid : Forall (entry_valid pools st G) (lc_entries lc);
  ca_mirror : mirror st (lc_hot lc);
  ca_key : is_Some (hs_owner (lc_hot lc)) -> lc_others lc !! hs_pool_id (lc_hot lc) = None
}.

Lemma mirror_le st st' h : store_le st st' -> mirror st h -> mirror st' h.
Proof.
  unfold mirror. intros Hle. destruct (hs_owner h) as [e |]; [| done].
  intros (? & ? & ? & c & Hc & Hb). split_and!; [done.. |].
  destruct (Hle _ _ Hc) as (c' & Hc' & (_ & E & _)). exists c'. by rewrite E.
Qed.

(** A cache stays valid when its entries do. *)
Lemma cache_trans pools st G st' G' F lc keep held' :
  trans st G st' G' keep held' -> Forall (fun pe => keep pe.2) (lc_entries lc) ->
  cache_ok pools st G F lc -> cache_ok pools st' G' F lc.
Proof.
  intros [Hok Hle Hk _] Hkeep []. split; [done | | by eapply mirror_le | done].
  rewrite Forall_forall in *. intros pe Hpe. destruct (ca_valid0 pe Hpe) as (? & ? & ?).
  split_and!; [| done | done]. apply Hk; [by apply Hkeep | done].
Qed.

Lemma keys_app es1 es2 : keys (es1 ++ es2) = keys es1 ++ keys es2.
Proof. apply fmap_app. Qed.

(** The owner of the hot segment is active, and no other entry is its superblock. *)
Section Hot.
Context {pools : gmap Z GlobalSlotPool} {st : store} {G : list ghost} {F : list (nat * Z)}
  {lc : LocalCache} {e : LocalCacheEntry}.
Context (Hst : store_ok st G) (Hca : cache_ok pools st G F lc)
  (How : hs_owner (lc_hot lc) = Some e).

Lemma hot_entries_split : lc_entries lc = (hs_pool_id (lc_hot lc), e) :: map_to_list (lc_others lc).
Proof. unfold lc_entries, hot_entries. by rewrite How. Qed.

Lemma hot_valid : entry_valid pools st G (hs_pool_id (lc_hot lc), e).
Proof.
  pose proof (ca_valid _ _ _ _ _ Hca) as Hv. rewrite hot_entries_split in Hv.
  by apply Forall_cons in Hv as [? _].
Qed.

Lemma others_keep : Forall (fun pe => key pe.2 <> key e) (map_to_list (lc_others lc)) /\ key e ∉ F.
Proof.
  pose proof (ca_nodup _ _ _ _ _ Hca) as Hn. rewrite hot_entries_split in Hn.
  cbn in Hn. apply NoDup_cons in Hn as [Hn _]. apply not_elem_of_app in Hn as [Hn HF].
  split; [| done]. apply Forall_forall. intros pe Hpe Hk. apply Hn.
  unfold keys. rewrite <- Hk. by apply list_elem_of_fmap_2 with (f := fun pe : Z * LocalCacheEntry => key pe.2).
Qed.

(** [hot.clear()]: the entry is dropped, the others are untouched. *)
Lemma hot_clear_ok :
  exists st' G' h', hot_clear st (lc_hot lc) = Ret (st', h') /\
    trans st G st' G' (fun e' => key e' <> key e) (held_buf G) /\
    cache_ok pools st' G' F (mkCache h' (lc_others lc)) /\
    hs_owner h' = None.
Proof.
  destruct (entry_drop_ok st G e Hst (proj1 hot_valid)) as (st' & G' & He & Htr).
  unfold hot_clear. rewrite How. cbn [drop_opt]. rewrite He, bind_ret.
  eexists st', G', _. split_and!; [reflexivity | done | | done].
  destruct others_keep as [Hoth _]. destruct Hca as [Hn Hv Hm Hk].
  rewrite hot_entries_split in Hn, Hv. cbn in Hn. apply NoDup_cons in Hn as [_ Hn].
  apply Forall_cons in Hv as [_ Hv].
  split; [done | | done | intros []%is_Some_None].
  cbn. rewrite Forall_forall in *. intros pe Hpe. destruct (Hv pe Hpe) as (? & ? & ?).
  split_and!; [| done | done]. apply (tr_keep _ _ _ _ _ _ Htr); [by apply Hoth | done].
Qed.

(** The hot path: one more slot of the active superblock, or it is used up. *)
Lemma hot_alloc_ok :
  (exists st' G' slot,
     hot_alloc st (lc_hot lc) (ce_chunk e) (ce_sb_idx e) =
       Ret (st', Some (ce_chunk_id e, slot, hs_chunk_base (lc_hot lc) + slot_offset slot)) /\
     ~ held_buf G (ce_chunk e) slot 0 /\
     trans st G st' G' (fun _ => True) (fun a s o =>
       held_buf G a s o \/ (a = ce_chunk e /\ s = slot /\ o = 0))) \/
  hot_alloc st (lc_hot lc) (ce_chunk e) (ce_sb_idx e) = Ret (st, None).
Proof.
  destruct hot_valid as [(c & [L S] & Hc & Hg & [held HS] & (sbst & Hsb & Hact)) _].
  cbn [fst snd] in *. destruct (proj2 Hst _ _ _ Hc Hg) as [As Hown]. cbn [fst snd] in Hown.
  destruct (ow_sb _ _ _ _ Hown _ _ HS) as (Hsb0 & _). pose proof (lookup_lt_Some _ _ _ Hsb) as Hlt.
  unfold hot_alloc, chunk_get. rewrite Hc, bind_ret.
  rewrite (vec_get_lookup _ _ sbst), bind_ret by (done || lia).
  pose proof (ca_mirror _ _ _ _ _ Hca) as Hmir. unfold mirror in Hmir. rewrite How in Hmir.
  destruct Hmir as (_ & Esb & Eid & _).
  destruct (own_take Hown _ _ _ HS Hsb Hact) as [(st1 & off & He & Hoff & Hr & Hact' & Hown') | (He & _)];
    rewrite He; cbn [fst snd]; rewrite vec_set_in_range, bind_ret by lia.
  - left. rewrite Esb, Eid. eexists _, _, _. split_and!; [reflexivity | |].
    + rewrite (held_at _ _ _ _ _ _ Hg). intros [HL | (_ & b & h & f & Hb & Hf & E)].
      * destruct (ow_large _ _ _ _ Hown _ _ HL). lia.
      * destruct (own_sb_slots Hown _ _ _ Hb Hf) as (Hfr & _).
        pose proof (superblock_round' b f Hfr) as [E1 E2]. pose proof (superblock_round' (ce_sb_idx e) off Hr) as [E3 E4].
        rewrite <- E in E1, E2. assert (b = ce_sb_idx e) as -> by congruence.
        assert (f = off) as -> by congruence. rewrite HS in Hb. by injection Hb as <-.
    + eapply store_update; [done | exact Hc | exact Hg | exact Hown' | apply same_layout_sbs | |].
      * intros e' _ Hch HS' (stb & Hb & Hab). destruct (decide (ce_sb_idx e' = ce_sb_idx e)) as [E | Hne].
        -- rewrite E, lookup_insert_eq. split; [done |]. exists st1. cbn.
           by rewrite list_lookup_insert_eq.
        -- rewrite lookup_insert_ne by done. split; [done |]. exists stb. cbn.
           destruct HS' as [h' Hh']. destruct (ow_sb _ _ _ _ Hown _ _ Hh') as (? & _).
           by rewrite list_lookup_insert_ne by lia.
      * intros b s o. destruct (decide (ce_chunk e = b)) as [<- | Hne]; [| naive_solver].
        rewrite (held_at _ _ _ _ _ _ Hg). unfold holds. split.
        -- intros [[HL | (-> & b & h & f & Hb & Hf & ->)] | (_ & -> & ->)]; [by left | right | right].
           ++ split; [done |]. destruct (decide (b = ce_sb_idx e)) as [-> | Hne].
              ** rewrite HS in Hb. injection Hb as <-. exists (ce_sb_idx e), ({[off]} ∪ held), f.
                 rewrite lookup_insert_eq. split_and!; [done | set_solver | done].
              ** exists b, h, f. by rewrite lookup_insert_ne.
           ++ split; [done |]. exists (ce_sb_idx e), ({[off]} ∪ held), off.
              rewrite lookup_insert_eq. split_and!; [done | set_solver | done].
        -- intros [HL | (-> & b & h & f & Hb & Hf & ->)]; [by left; left |].
           destruct (decide (b = ce_sb_idx e)) as [-> | Hne].
           ++ rewrite lookup_insert_eq in Hb. injection Hb as <-.
              apply elem_of_union in Hf as [->%elem_of_singleton | Hf]; [right; by split_and! |].
              left. right. split; [done |]. by exists (ce_sb_idx e), held, f.
           ++ rewrite lookup_insert_ne in Hb by done. left. right. split; [done |]. by exists b, h, f.
  - right. rewrite (list_insert_id (ck_superblocks c)) by done.
    replace (set_superblocks c (ck_superblocks c)) with c by (by destruct c).
    by rewrite list_insert_id.
Qed.

End Hot.

(** ** Moving entries between the map and the hot segment *)

Lemma cache_ok_perm pools st G F es lc' :
  NoDup (keys es ++ F) -> Forall (entry_valid pools st G) es -> lc_entries lc' ≡ₚ es ->
  mirror st (lc_hot lc') ->
  (is_Some (hs_owner (lc_hot lc')) -> lc_others lc' !! hs_pool_id (lc_hot lc') = None) ->
  cache_ok pools st G F lc'.
Proof.
  intros Hn Hv Hp Hm Hk. split; [| | done | done].
  - unfold keys in *. by rewrite Hp.
  - by rewrite Hp.
Qed.

(** The hot entry, if any, goes to the map, where its pool has no entry. *)
Lemma demote_ok pools st G F hot others :
  cache_ok pools st G F (mkCache hot others) ->
  exists hot' others', demote st (mkCache hot others) = Ret (st, mkCache hot' others') /\
    hs_owner hot' = None /\ map_to_list others' ≡ₚ lc_entries (mkCache hot others) /\
    forall pid, others !! pid = None -> (hs_owner hot = None \/ hs_pool_id hot <> pid) ->
      others' !! pid = None.
Proof.
  intros [Hn Hv Hm Hk]. cbn in Hk. unfold demote, take_owner, lc_entries, hot_entries.
  cbn [lc_hot lc_others]. destruct (hs_owner hot) as [old |] eqn:E.
  - cbn [hs_pool_id]. rewrite Hk by (by eexists). cbn [drop_opt]. rewrite bind_ret.
    eexists _, _. split_and!; [reflexivity | done | |].
    + cbn. apply map_to_list_insert. apply Hk. by eexists.
    + intros pid Hp [? | Hne]; [done |]. by rewrite lookup_insert_ne.
  - eexists _, _. split_and!; [reflexivity | done | done | done].
Qed.

Lemma hot_set_ok pools st G hot pid e :
  store_ok st G -> hs_owner hot = None -> entry_valid pools st G (pid, e) ->
  exists hot', hot_set st hot pid e = Ret (st, hot') /\ hs_owner hot' = Some e /\
    hs_pool_id hot' = pid /\ mirror st hot'.
Proof.
  intros Hst How [(c & [L S] & Hc & Hg & [held HS] & (sbst & Hsb & Hact)) _]. cbn [fst snd] in *.
  destruct (proj2 Hst _ _ _ Hc Hg) as [As Hown].
  destruct (ow_sb _ _ _ _ Hown _ _ HS) as (Hsb0 & _).
  unfold hot_set, chunk_get. rewrite Hc, bind_ret, How.
  rewrite (vec_get_lookup _ _ sbst), bind_ret by done. cbn [drop_opt]. rewrite bind_ret.
  eexists. split_and!; [reflexivity | done | done |].
  unfold mirror. cbn. split_and!; [done.. |]. by exists c.
Qed.

(** A new hot entry for a pool that has none in this cache. *)
Lemma cache_insert_ok pools st G F lc pid e :
  store_ok st G -> cache_ok pools st G F lc -> entry_valid pools st G (pid, e) ->
  key e ∉ keys (lc_entries lc) ++ F ->
  lc_others lc !! pid = None -> (hs_owner (lc_hot lc) = None \/ hs_pool_id (lc_hot lc) <> pid) ->
  exists lc', cache_insert st lc pid e = Ret (st, lc') /\ cache_ok pools st G F lc' /\
    hs_owner (lc_hot lc') = Some e /\ hs_pool_id (lc_hot lc') = pid /\ lc_others lc' !! pid = None /\
    lc_entries lc' ≡ₚ (pid, e) :: lc_entries lc.
Proof.
  intros Hst Hca Hv Hfresh Hoth Hhot. destruct lc as [hot others]. cbn [lc_hot lc_others] in *.
  destruct (demote_ok _ _ _ _ _ _ Hca) as (h1 & o1 & Hd & Hh1 & Hp & Hnone).
  destruct (hot_set_ok pools st G h1 pid e Hst Hh1 Hv) as (h2 & Hs & How & Hpid & Hmir).
  assert (Ho1 : o1 !! pid = None) by auto.
  assert (Hperm : lc_entries (mkCache h2 o1) ≡ₚ (pid, e) :: lc_entries (mkCache hot others)).
  { unfold lc_entries at 1, hot_entries. cbn [lc_hot lc_others]. rewrite How, Hpid. cbn.
    by rewrite Hp. }
  exists (mkCache h2 o1). unfold cache_insert. rewrite Hd, bind_ret. cbn [lc_hot lc_others].
  rewrite Hs, bind_ret. split_and!; [done | | done | done | done | done].
  apply (cache_ok_perm _ _ _ _ ((pid, e) :: lc_entries (mkCache hot others)));
    [| | done | done | intros _; cbn; by rewrite Hpid].
  - cbn. apply NoDup_cons. split; [done | apply Hca].
  - constructor; [done | apply Hca].
Qed.

(** Promotion of the entry of a pool out of the map. *)
Lemma promote_ok pools st G F lc pid e :
  store_ok st G -> cache_ok pools st G F lc -> lc_others lc !! pid = Some e ->
  exists lc1 hot',
    demote st (mkCache (lc_hot lc) (delete pid (lc_others lc))) = Ret (st, lc1) /\
    hot_set st (lc_hot lc1) pid e = Ret (st, hot') /\
    cache_ok pools st G F (mkCache hot' (lc_others lc1)) /\
    hs_owner hot' = Some e /\ hs_pool_id hot' = pid /\ lc_others lc1 !! pid = None.
Proof.
  intros Hst Hca He. destruct lc as [hot others]. cbn [lc_hot lc_others] in *.
  assert (Hperm : lc_entries (mkCache hot others) ≡ₚ
    (pid, e) :: lc_entries (mkCache hot (delete pid others))).
  { unfold lc_entries. cbn [lc_hot lc_others]. rewrite <- (map_to_list_delete others pid e He).
    by rewrite Permutation_middle. }
  destruct Hca as [Hn Hv Hm Hk]. cbn in Hk. rewrite Hperm in Hv. apply Forall_cons in Hv as [Hve Hv].
  assert (Hn' : NoDup (key e :: keys (lc_entries (mkCache hot (delete pid others))) ++ F)).
  { unfold keys in Hn |- *. by rewrite Hperm in Hn. }
  apply NoDup_cons in Hn' as [Hfresh Hn'].
  assert (Hca' : cache_ok pools st G F (mkCache hot (delete pid others))).
  { split; [done | done | done |]. cbn. intros Ho. apply lookup_delete_None. right. auto. }
  assert (Hq : hs_owner hot = None \/ hs_pool_id hot <> pid).
  { destruct (hs_owner hot); [right | by left]. intros <-. rewrite Hk in He; [done | by eexists]. }
  destruct (cache_insert_ok pools st G F _ pid e Hst Hca' Hve Hfresh)
    as (lc' & Hi & Hca2 & How & Hpid & Hnone & _); [cbn; apply lookup_delete_eq | done |].
  destruct (demote_ok _ _ _ _ _ _ Hca') as (h1 & o1 & Hd & Hh1 & _ & _).
  destruct (hot_set_ok pools st G h1 pid e Hst Hh1 Hve) as (h2 & Hs & _).
  unfold cache_insert in Hi. rewrite Hd, bind_ret in Hi. cbn [lc_hot lc_others] in Hi.
  rewrite Hs, bind_ret in Hi. injection Hi as <-.
  exists (mkCache h1 o1), h2. cbn [lc_hot lc_others] in *. by split_and!.
Qed.

(** ** [LocalCache::try_alloc] *)

Lemma trans_trans st G st1 G1 st2 G2 (k1 k2 k : LocalCacheEntry -> Prop) h h' :
  trans st G st1 G1 k1 (held_buf G) -> trans st1 G1 st2 G2 k2 h ->
  (forall e, k e -> k1 e /\ k2 e) ->
  ((forall a s o, held_buf G1 a s o <-> held_buf G a s o) -> forall a s o, h a s o <-> h' a s o) ->
  trans st G st2 G2 k h'.
Proof.
  intros [Hok Hle Hk Hh] [Hok2 Hle2 Hk2 Hh2] Hkk Hhh. split; [done | by etrans | |].
  - intros e He Hv. destruct (Hkk e He). auto.
  - intros a s o. rewrite Hh2. by apply Hhh.
Qed.

(** A request was served with the buffer [(cid, slot)], or not served; either
    way the other caches stay valid, and held buffers stay held. *)
Definition served (pools : gmap Z GlobalSlotPool) (pid : Z) (st : store) (G : list ghost)
    (F : list (nat * Z)) (order : Z) (st' : store) (G' : list ghost) (r : option (Z * Z * Z)) : Prop :=
  match r with
  | Some (cid, slot, ptr) =>
      exists a c', chunk_of pools pid cid = Some a /\ 0 <= cid /\ st' !! a = Some c' /\
        ptr = mc_ptr (ck_memory c') + slot_offset slot /\ ~ held_buf G a slot order /\
        trans st G st' G' (fun e => key e ∈ F) (fun b s o =>
          held_buf G b s o \/ (b = a /\ s = slot /\ o = order))
  | None => trans st G st' G' (fun e => key e ∈ F) (held_buf G)
  end.

(** The hot segment serves the request, or is left empty. *)
Lemma try_hot pools st G F lc pid e :
  store_ok st G -> cache_ok pools st G F lc -> hs_owner (lc_hot lc) = Some e ->
  hs_pool_id (lc_hot lc) = pid ->
  (exists st' G' cid slot ptr,
     hot_alloc st (lc_hot lc) (ce_chunk e) (ce_sb_idx e) = Ret (st', Some (cid, slot, ptr)) /\
     cache_ok pools st' G' F lc /\ served pools pid st G F 0 st' G' (Some (cid, slot, ptr))) \/
  (exists st' G' hot',
     hot_alloc st (lc_hot lc) (ce_chunk e) (ce_sb_idx e) = Ret (st, None) /\
     hot_clear st (lc_hot lc) = Ret (st', hot') /\ hs_owner hot' = None /\
     cache_ok pools st' G' F (mkCache hot' (lc_others lc)) /\
     served pools pid st G F 0 st' G' None).
Proof.
  intros Hst Hca How Hpid.
  destruct (hot_alloc_ok Hst Hca How) as [(st' & G' & slot & He & Hfresh & Htr) | He].
  - left. exists st', G', (ce_chunk_id e), slot, (hs_chunk_base (lc_hot lc) + slot_offset slot).
    split; [done |]. split.
    { eapply cache_trans; [exact Htr | | done]. apply Forall_forall. done. }
    destruct (hot_valid Hca How) as (_ & Hcid & Hco). cbn in Hcid, Hco. rewrite Hpid in Hco.
    pose proof (ca_mirror _ _ _ _ _ Hca) as Hm. unfold mirror in Hm. rewrite How in Hm.
    destruct Hm as (_ & _ & _ & c & Hc & Hb).
    destruct (tr_le _ _ _ _ _ _ Htr _ _ Hc) as (c' & Hc' & (_ & Em & _)).
    exists (ce_chunk e), c'. rewrite Em, Hb. split_and!; [done.. |].
    eapply trans_trans; [by apply trans_refl | exact Htr | done | done].
  - right. destruct (hot_clear_ok Hst Hca How) as (st' & G' & h' & Hcl & Htr & Hca' & Hn).
    exists st', G', h'. split_and!; [done.. |]. cbn.
    destruct (others_keep Hca How) as [_ HF].
    eapply trans_trans; [by apply trans_refl | exact Htr | | done].
    intros e' He'. split; [done |]. intros E. apply HF. by rewrite <- E.
Qed.

(** After a failure the cache has nothing left for the pool. *)
Lemma cache_try_alloc_ok pools st G F lc pid :
  store_ok st G -> cache_ok pools st G F lc ->
  exists st' G' lc' r, cache_try_alloc st lc pid = Ret (st', lc', r) /\
    cache_ok pools st' G' F lc' /\ served pools pid st G F 0 st' G' r /\
    (r = None -> lc_others lc' !! pid = None /\
       (hs_owner (lc_hot lc') = None \/ hs_pool_id (lc_hot lc') <> pid)).
Proof.
  intros Hst Hca. unfold cache_try_alloc. cbn [try_alloc].
  (* the slow path: promote and try once more, or give up *)
  assert (Hslow : forall st G lc, store_ok st G -> cache_ok pools st G F lc ->
    (hs_owner (lc_hot lc) = None \/ hs_pool_id (lc_hot lc) <> pid) ->
    exists st' G' lc' r,
      match lc_others lc !! pid with
      | Some e =>
          '(st, lc) ← demote st (mkCache (lc_hot lc) (delete pid (lc_others lc)));
          '(st, hot) ← hot_set st (lc_hot lc) pid e;
          try_alloc 1 st (mkCache hot (lc_others lc)) pid
      | None => Ret (st, lc, None)
      end = Ret (st', lc', r) /\
      cache_ok pools st' G' F lc' /\ served pools pid st G F 0 st' G' r /\
      (r = None -> lc_others lc' !! pid = None /\
         (hs_owner (lc_hot lc') = None \/ hs_pool_id (lc_hot lc') <> pid))).
  { clear st G lc Hst Hca. intros st G lc Hst Hca Hh.
    destruct (lc_others lc !! pid) as [e |] eqn:Ho.
    2: { exists st, G, lc, None. split_and!; [done | done | | done].
         cbn. eapply trans_trans; [by apply trans_refl | by apply trans_refl | done | done]. }
    destruct (promote_ok pools st G F lc pid e Hst Hca Ho)
      as (lc1 & hot' & Hd & Hs & Hca' & How & Hpid & Hnone).
    rewrite Hd, bind_ret, Hs, bind_ret. cbn [try_alloc]. cbn [lc_hot lc_others].
    pose proof (ca_mirror _ _ _ _ _ Hca') as Hm. unfold mirror in Hm. cbn [lc_hot] in Hm.
    rewrite How in Hm. destruct Hm as (Hsb & _). rewrite Hsb. unfold key. rewrite Hpid, Z.eqb_refl.
    destruct (try_hot pools st G F (mkCache hot' (lc_others lc1)) pid e Hst Hca' How Hpid)
      as [(st' & G' & cid & slot & ptr & He & Hca2 & Hsv) | (st' & G' & h2 & He & Hcl & Hn & Hca2 & Hsv)];
      cbn [lc_hot lc_others] in He; rewrite He, bind_ret; cbn [fst snd].
    - eexists st', G', _, _. split_and!; [reflexivity | done | done | done].
    - cbn [lc_hot] in Hcl. rewrite Hcl, bind_ret. cbn [lc_others] in Hca2 |- *. rewrite Hnone.
      eexists st', G', _, _. split_and!; [reflexivity | done | done |].
      intros _. cbn. split; [done | by left]. }
  destruct (hs_owner (lc_hot lc)) as [e |] eqn:How.
  - pose proof (ca_mirror _ _ _ _ _ Hca) as Hm. unfold mirror in Hm. rewrite How in Hm.
    destruct Hm as (Hsb & _). rewrite Hsb. unfold key.
    destruct (Z.eqb_spec (hs_pool_id (lc_hot lc)) pid) as [Hpid | Hne]; [| apply Hslow; auto].
    destruct (try_hot pools st G F lc pid e Hst Hca How Hpid)
      as [(st' & G' & cid & slot & ptr & He & Hca2 & Hsv) | (st1 & G1 & h2 & He & Hcl & Hn & Hca2 & Hsv)];
      rewrite He, bind_ret; cbn [fst snd].
    + eexists st', G', _, _. split_and!; [reflexivity | done | done | done].
    + rewrite Hcl, bind_ret. cbn in Hsv.
      destruct (Hslow st1 G1 (mkCache h2 (lc_others lc)) (tr_ok _ _ _ _ _ _ Hsv) Hca2 (or_introl Hn))
        as (st' & G' & lc' & r & Hr & Hca3 & Hsv' & Hnone).
      exists st', G', lc', r. split_and!; [exact Hr | done | | done].
      destruct r as [[[cid slot] ptr] |]; cbn in Hsv' |- *.
      * destruct Hsv' as (a & c' & ? & ? & ? & ? & Hfr & Htr2). exists a, c'.
        split_and!; [done.. | by rewrite <- (tr_held _ _ _ _ _ _ Hsv) |].
        eapply trans_trans; [exact Hsv | exact Htr2 | done |]. cbn. intros Hh b s o. by rewrite Hh.
      * eapply trans_trans; [exact Hsv | exact Hsv' | done |]. intros Hh b s o. by rewrite Hh.
  - pose proof (ca_mirror _ _ _ _ _ Hca) as Hm. unfold mirror in Hm. rewrite How in Hm. rewrite Hm.
    apply Hslow; auto.
Qed.

(** ** Allocation from a chunk of the store *)

(** The chunk at [a] served the request with [alloc]. *)
Definition found (st : store) (G : list ghost) (order : Z) (st' : store) (G' : list ghost)
    (a : nat) (alloc : ChunkAlloc) : Prop :=
  exists c, st !! a = Some c /\
  let ok cid slot ptr :=
    cid = ck_id c /\ ptr = mc_ptr (ck_memory c) + slot_offset slot /\ ~ held_buf G a slot order /\
    trans st G st' G' (fun _ => True) (fun b s o =>
      held_buf G b s o \/ (b = a /\ s = slot /\ o = order)) in
  match alloc with
  | Large cid slot ptr => order <> 0 /\ ok cid slot ptr
  | Small cid sb slot ptr =>
      order = 0 /\ ok cid slot ptr /\ entry_ok st' G' (mkCe a sb cid) /\
      forall e, entry_ok st G e -> key e <> (a, sb)
  end.

Lemma holds_insert_large L S i order s o :
  L !! i = None -> holds (<[i := order]> L) S s o <-> holds L S s o \/ (s = i /\ o = order).
Proof.
  intros Hi. unfold holds. split.
  - intros [[[<- <-] | [? ?]]%lookup_insert_Some | ?]; [by right | by left; left | by left; right].
  - intros [[HL | ?] | [-> ->]]; [| by right | left; apply lookup_insert_eq].
    left. rewrite lookup_insert_ne; [done | congruence].
Qed.

Lemma holds_insert_sb L S sb s o :
  S !! sb = None -> holds L (<[sb := {[0]}]> S) s o <-> holds L S s o \/ (s = base_slot sb /\ o = 0).
Proof.
  intros Hs. unfold holds. split.
  - intros [? | (-> & b & h & f & Hb & Hf & ->)]; [by left; left |].
    apply lookup_insert_Some in Hb as [[<- <-] | [Hne Hb]].
    + apply elem_of_singleton in Hf as ->. right. split; [| done].
      unfold from_superblock_offset, base_slot. lia.
    + left. right. split; [done |]. by exists b, h, f.
  - intros [[? | (-> & b & h & f & Hb & Hf & ->)] | [-> ->]]; [by left | right | right].
    + split; [done |]. exists b, h, f. rewrite lookup_insert_ne; [done | congruence].
    + split; [done |]. exists sb, {[0]}, 0. rewrite lookup_insert_eq. split_and!; [done | set_solver |].
      unfold from_superblock_offset, base_slot. lia.
Qed.

(** A chunk serves a request it has room for. *)
Lemma chunk_serves st G a c contended th order seed :
  store_ok st G -> st !! a = Some c -> 0 <= order ->
  exists c' r, chunk_alloc_slots contended th c order seed = Ret (c', r) /\
  match r with
  | Some alloc => exists G', found st G order (<[a := c']> st) G' a alloc
  | None => c' = c
  end.
Proof.
  intros Hst Hc Ho. destruct (store_lookup _ _ _ _ Hst Hc) as ([L S] & As & Hg & Hown).
  cbn [fst snd] in Hown. unfold chunk_alloc_slots. destruct (Z.eqb_spec order 0) as [-> | Hne].
  - destruct (own_alloc_small Hown contended th seed) as
      [(c' & As' & sb & ptr & He & Hown' & Hlay & HS & Hact & Hoth & Hp) | (He & _)];
      rewrite He; [| by exists c, None].
    exists c', (Some (Small (ck_id c) sb (base_slot sb) ptr)). split; [done |].
    assert (Hsb0 : 0 <= sb).
    { by destruct (ow_sb _ _ _ _ Hown' sb {[0]} (lookup_insert_eq _ _ _)) as [? _]. }
    assert (Hheld : ~ holds L S (base_slot sb) 0).
    { intros [HL | (_ & b & h & f & Hb & Hf & E)].
      - destruct (ow_large _ _ _ _ Hown _ _ HL). lia.
      - destruct (own_sb_slots Hown _ _ _ Hb Hf) as (Hr & _ & E2).
        rewrite E2, !base_slot_64 in E. assert (b = sb) as -> by lia. congruence. }
    exists (<[a := (L, <[sb := {[0]}]> S)]> G), c. split; [done |]. cbn zeta.
    split_and!; [done | done | done | by rewrite (held_at _ _ _ _ _ _ Hg) | | |].
    + eapply store_update; [done | exact Hc | exact Hg | exact Hown' | done | |].
      * intros e _ _ HS' (stb & Hb & Hab).
        assert (Hnsb : ce_sb_idx e <> sb) by (intros E; rewrite E, HS in HS'; by destruct HS').
        rewrite lookup_insert_ne by done. split; [done |]. exists stb. split; [| done].
        rewrite Hoth; [done |]. destruct HS' as [h Hh].
        destruct (ow_sb _ _ _ _ Hown _ _ Hh) as (? & _). lia.
      * intros b s o. destruct (decide (a = b)) as [<- | Hnb]; [| naive_solver].
        rewrite (held_at _ _ _ _ _ _ Hg), holds_insert_sb by done. naive_solver.
    + exists c', (L, <[sb := {[0]}]> S). cbn.
      rewrite !list_lookup_insert_eq by (by eapply lookup_lt_Some).
      split_and!; [done | done | by rewrite lookup_insert_eq | done].
    + intros e (x & g & Hx & Hgx & HSx & _) E. injection E as E1 E2.
      rewrite E1, Hg in Hgx. injection Hgx as <-. cbn [snd] in HSx.
      rewrite E2, HS in HSx. by destruct HSx.
  - destruct (own_alloc_large Hown contended th order seed) as
      [(c' & As' & idx & ptr & He & Hown' & Hlay & Hsbs & HL & Hp) | (He & _)]; [lia | |];
      rewrite He; [| by exists c, None].
    exists c', (Some (Large (ck_id c) idx ptr)). split; [done |].
    exists (<[a := (<[idx := order]> L, S)]> G), c. split; [done |]. cbn zeta.
    split_and!; [done | done | done | |].
    + rewrite (held_at _ _ _ _ _ _ Hg). intros [? | (? & _)]; [congruence | done].
    + eapply store_update; [done | exact Hc | exact Hg | exact Hown' | done | |].
      * intros e _ _ HS' (stb & Hb & Hab). split; [done |]. exists stb. by rewrite Hsbs.
      * intros b s o. destruct (decide (a = b)) as [<- | Hnb]; [| naive_solver].
        rewrite (held_at _ _ _ _ _ _ Hg), holds_insert_large by done. naive_solver.
Qed.

(** The chunks of a pool are tried in turn. *)
Lemma try_chunks_ok env st G order seed chunks :
  store_ok st G -> 0 <= order -> Forall (fun a => is_Some (st !! a)) chunks ->
  exists st' r, try_chunks env st chunks order seed = Ret (st', r) /\
  match r with
  | Some (a, alloc) => a ∈ chunks /\ exists G', found st G order st' G' a alloc
  | None => st' = st
  end.
Proof.
  intros Hst Ho. induction chunks as [| a chunks IH]; intros Hall; [by exists st, None |].
  apply Forall_cons in Hall as [[c Hc] Hall]. cbn [try_chunks]. unfold chunk_get.
  rewrite Hc, bind_ret.
  destruct (chunk_serves st G a c (env_contended env a) (env_thread_hash env) order seed Hst Hc Ho)
    as (c' & r & He & Hr). rewrite He, bind_ret. cbn [fst snd].
  destruct r as [alloc |].
  - eexists _, (Some (a, alloc)). split; [reflexivity |]. split; [by left | done].
  - subst c'. rewrite list_insert_id by done. destruct (IH Hall) as (st' & r & Hr & Hm).
    exists st', r. split; [done |]. destruct r as [[b al] |]; [| done].
    destruct Hm. split; [by right | done].
Qed.

(** ** [GlobalSlotPool::alloc_slots] *)

(** The chunks of a pool exist and know their position in it. *)
Definition pools_ok (pools : gmap Z GlobalSlotPool) (st : store) : Prop :=
  forall pid p i a, pools !! pid = Some p -> gp_chunks p !! i = Some a ->
    exists c, st !! a = Some c /\ ck_id c = Z.of_nat i.

Lemma pools_ok_le pools st st' : store_le st st' -> pools_ok pools st -> pools_ok pools st'.
Proof.
  intros Hle Hok pid p i a Hp Hi. destruct (Hok pid p i a Hp Hi) as (c & Hc & Hid).
  destruct (Hle _ _ Hc) as (c' & Hc' & (E & _)). exists c'. by rewrite E.
Qed.

(** The keys in [F] are those of valid entries. *)
Definition frame_ok (st : store) (G : list ghost) (F : list (nat * Z)) : Prop :=
  forall k, k ∈ F -> exists e, key e = k /\ entry_ok st G e.

Lemma frame_trans st G st' G' F keep held' :
  trans st G st' G' keep held' -> (forall e, key e ∈ F -> keep e) -> frame_ok st G F -> frame_ok st' G' F.
Proof.
  intros Htr Hkeep Hf k Hk. destruct (Hf k Hk) as (e & <- & He). exists e. split; [done |].
  apply (tr_keep _ _ _ _ _ _ Htr); auto.
Qed.

(** Nothing in the cache for the pool. *)
Definition cache_free (lc : LocalCache) (pid : Z) : Prop :=
  lc_others lc !! pid = None /\ (hs_owner (lc_hot lc) = None \/ hs_pool_id (lc_hot lc) <> pid).

Lemma finish_ok pools st G F lc p pid order st' G' a alloc i info :
  cache_ok pools st G F lc -> frame_ok st G F ->
  pools !! pid = Some p -> gp_chunks p !! i = Some a ->
  (exists c, st !! a = Some c /\ ck_id c = Z.of_nat i) ->
  (order = 0 -> cache_free lc pid) ->
  found st G order st' G' a alloc ->
  exists lc' r, finish st' lc p pid (Some (a, alloc)) info = Ret (mkRes st' lc' p (Some r) info) /\
    cache_ok pools st' G' F lc' /\ served pools pid st G F order st' G' (Some r).
Proof.
  intros Hca HF Hp Hi (c0 & Hc0 & Hid) Hfree (c & Hc & Hf). rewrite Hc0 in Hc. injection Hc as <-.
  assert (Hco : chunk_of pools pid (ck_id c0) = Some a).
  { unfold chunk_of. by rewrite Hp, Hid, Nat2Z.id. }
  assert (Hserved : forall cid slot ptr,
    cid = ck_id c0 -> ptr = mc_ptr (ck_memory c0) + slot_offset slot -> ~ held_buf G a slot order ->
    trans st G st' G' (fun _ => True) (fun b s o => held_buf G b s o \/ (b = a /\ s = slot /\ o = order)) ->
    served pools pid st G F order st' G' (Some (cid, slot, ptr))).
  { intros cid slot ptr -> -> Hn Htr. destruct (tr_le _ _ _ _ _ _ Htr _ _ Hc0) as (c' & Hc' & (_ & Em & _)).
    exists a, c'. rewrite Em. split_and!; [done | lia | done | done | done |].
    destruct Htr. split; [done | done | | done]. intros e _. by apply tr_keep0. }
  destruct alloc as [cid sb slot ptr | cid slot ptr]; cbn zeta in Hf.
  - destruct Hf as (-> & (Ecid & Eptr & Hn & Htr) & Hent & Hfresh).
    assert (Hca' : cache_ok pools st' G' F lc).
    { eapply cache_trans; [exact Htr | by apply Forall_forall | done]. }
    destruct (Hfree eq_refl) as [Ho Hh].
    destruct (cache_insert_ok pools st' G' F lc pid (mkCe a sb cid)) as (lc' & Hins & Hca2 & _);
      [apply Htr | done | | | done | done |].
    + split_and!; cbn; [done | lia | by rewrite Ecid].
    + intros [Hin | Hin]%elem_of_app.
      * apply list_elem_of_fmap in Hin as (pe & Epe & Hpe).
        pose proof (ca_valid _ _ _ _ _ Hca) as Hv. rewrite Forall_forall in Hv.
        destruct (Hv pe Hpe) as [Hv' _]. apply (Hfresh _ Hv'). by rewrite <- Epe.
      * destruct (HF _ Hin) as (e & Ek & He). by apply (Hfresh e He).
    + exists lc', (cid, slot, ptr). cbn [finish finish_alloc]. rewrite Hins, !bind_ret.
      split_and!; [done | done | by apply Hserved].
  - destruct Hf as (Ho & Ecid & Eptr & Hn & Htr). exists lc, (cid, slot, ptr).
    split_and!; [done | | by apply Hserved].
    eapply cache_trans; [exact Htr | by apply Forall_forall | done].
Qed.

(** ** New chunks *)

(** The shards are whole numbers of superblocks. *)
Definition layout_aligned (os : Os) (size : Z) : Prop :=
  (slot_count size / shard_count_for (default 1 (os_parallelism os)) (slot_count size)) mod 64 = 0.

Lemma chunk_new_own os id size :
  default 1 (os_parallelism os) <= 2 ^ 62 -> 0 < size < 2 ^ 62 -> size mod SLOT_SIZE = 0 ->
  layout_aligned os size ->
  (exists e, chunk_new os id size = Ret (Err e)) \/
  (exists c As, chunk_new os id size = Ret (Ok c) /\ chunk_own c As ∅ ∅ /\ ck_id c = id /\
     mc_size (ck_memory c) = size /\ memory_chunk_new os size = Ok (ck_memory c)).
Proof.
  intros Hp Hsz Hmod Hal. pose proof (chunk_new_ok os id size Hp Hsz Hmod) as Hn.
  destruct (memory_chunk_new os size) as [mc | e] eqn:Hmc; [right | by left; exists e].
  destruct Hn as (c & k & He & Hk & Hok & Hid & Hm & Hlen & Hsc & Hsps & Hsb).
  destruct (memory_chunk_new_ok _ _ _ Hmc) as [Hms _].
  exists c, (replicate (Z.to_nat (2 ^ k)) ∅).
  unfold layout_aligned in Hal. rewrite Hsc in Hal.
  assert (Hnl : forall i o, ~ live_block c (replicate (Z.to_nat (2 ^ k)) ∅) i o).
  { intros i o (s & l & A & _ & [-> _]%lookup_replicate & Hl & _). by rewrite lookup_empty in Hl. }
  split_and!; [done | | done | by rewrite Hm, Hms | by rewrite Hm].
  split; [done | by rewrite Hsps | | | |].
  - rewrite Hlen, Hsps, Hsb, length_replicate.
    assert (0 <= slot_count size) by (unfold slot_count, SLOT_SIZE; apply Z.div_pos; lia).
    unfold superblock_count. rewrite superblock_size_val, Z2Nat.id by (apply Z.div_pos; lia).
    assert (0 < 2 ^ k) by (apply pow2_pos; lia).
    pose proof (Z.mul_div_le (slot_count size) (2 ^ k)).
    apply Z.mod_divide in Hal as [q Hq]; [| lia]. rewrite Hq in *.
    pose proof (Z.div_mod (slot_count size) 64). pose proof (Z.mod_pos_bound (slot_count size) 64). nia.
  - intros i o. split; [intros []%Hnl |]. rewrite lookup_empty.
    intros [? | (_ & sb & _ & Hs)]; [done |]. rewrite lookup_empty in Hs. by destruct Hs.
  - intros i o Hi. by rewrite lookup_empty in Hi.
  - intros sb h Hs. by rewrite lookup_empty in Hs.
Qed.

(** Chunks of 64 MB are aligned for any number of CPUs. *)
Lemma expansion_aligned os :
  default 1 (os_parallelism os) <= 2 ^ 62 -> layout_aligned os EXPANSION_SIZE.
Proof.
  intros Hp. unfold layout_aligned. change (slot_count EXPANSION_SIZE) with (2 ^ 14).
  destruct (shard_count_ok (default 1 (os_parallelism os)) (2 ^ 14) Hp) as (k & Hk & -> & _ & Hle); [lia |].
  assert (Hk8 : k <= 8).
  { specialize (Hle ltac:(lia)). apply Z.nlt_ge. intros Hlt.
    assert (2 ^ 9 <= 2 ^ k) by (apply Z.pow_le_mono_r; lia). lia. }
  rewrite <- Z.pow_sub_r by lia. replace (14 - k) with (8 - k + 6) by lia.
  rewrite Z.pow_add_r by lia. change (2 ^ 6) with 64. apply Z.mod_mul. lia.
Qed.

(** A new chunk at the end of the store. *)
Lemma store_push st G c As :
  store_ok st G -> chunk_own c As ∅ ∅ ->
  trans st G (st ++ [c]) (G ++ [(∅, ∅)]) (fun _ => True) (held_buf G).
Proof.
  intros [Hl Hok] Hown. split.
  - split; [by rewrite !length_app, Hl |]. intros a x g Hx Hg.
    apply lookup_app_Some in Hx as [Hx | [Hlen Hx]].
    + rewrite lookup_app_l in Hg by (rewrite <- Hl; by eapply lookup_lt_Some). by apply (Hok a).
    + rewrite lookup_app_r, <- Hl in Hg by lia. apply list_lookup_singleton_Some in Hx as [E <-].
      rewrite E in Hg. injection Hg as <-. by exists As.
  - intros a x Hx. exists x. rewrite lookup_app_l by (by eapply lookup_lt_Some). by split.
  - intros e _ (x & g & Hx & Hg & Hrest). exists x, g.
    rewrite !lookup_app_l by (by eapply lookup_lt_Some). done.
  - intros a s o. unfold held_buf. split.
    + intros (g & Hg & Hh). apply lookup_app_Some in Hg as [Hg | [_ Hg]]; [by exists g |].
      apply list_lookup_singleton_Some in Hg as [_ <-]. cbn [fst snd] in Hh. destruct Hh as [HL | (_ & sb & h & f & Hs & _)].
      * by rewrite lookup_empty in HL.
      * by rewrite lookup_empty in Hs.
    + intros (g & Hg & Hh). exists g. by rewrite lookup_app_l by (by eapply lookup_lt_Some).
Qed.

(** ** The whole request *)

Lemma chunk_of_mono pools pid p p' q cid a :
  pools !! pid = Some p -> gp_chunks p `prefix_of` gp_chunks p' ->
  chunk_of pools q cid = Some a -> chunk_of (<[pid := p']> pools) q cid = Some a.
Proof.
  intros Hp [k Hk] Hc. unfold chunk_of in *. destruct (decide (pid = q)) as [<- | Hne].
  - rewrite Hp in Hc. rewrite lookup_insert_eq, Hk. by apply lookup_app_l_Some.
  - by rewrite lookup_insert_ne.
Qed.

Lemma cache_ok_pools pools pid p p' st G F lc :
  pools !! pid = Some p -> gp_chunks p `prefix_of` gp_chunks p' ->
  cache_ok pools st G F lc -> cache_ok (<[pid := p']> pools) st G F lc.
Proof.
  intros Hp Hk []. split; [done | | done | done]. eapply Forall_impl; [exact ca_valid0 |].
  intros pe (? & ? & ?). split_and!; [done | done |]. by eapply chunk_of_mono.
Qed.

(** What a request leaves behind. *)
Definition request_ok (pools : gmap Z GlobalSlotPool) (pid : Z) (p : GlobalSlotPool) (st : store)
    (G : list ghost) (F : list (nat * Z)) (order : Z) (res : alloc_result) (G' : list ghost) : Prop :=
  let pools' := <[pid := ar_pool res]> pools in
  gp_chunks p `prefix_of` gp_chunks (ar_pool res) /\
  cache_ok pools' (ar_store res) G' F (ar_cache res) /\ pools_ok pools' (ar_store res) /\
  served pools' pid st G F order (ar_store res) G' (ar_res res).

Lemma served_trans pools pid st G F order st' G' r : served pools pid st G F order st' G' r ->
  exists held', trans st G st' G' (fun e => key e ∈ F) held'.
Proof. destruct r as [[[cid s] ptr] |]; cbn; [intros (? & ? & ? & ? & ? & ? & ? & ?) | intros ?]; eauto. Qed.

Section Request.
Context (pools : gmap Z GlobalSlotPool) (pid : Z) (p : GlobalSlotPool) (env : Env)
  (F : list (nat * Z)) (order : Z) (seed : option Z).
Context (Hp : pools !! pid = Some p) (Ho : 0 <= order)
  (Hpar : default 1 (os_parallelism (env_os env)) <= 2 ^ 62).

Lemma pool_expand_ok st G lc :
  store_ok st G -> pools_ok pools st -> cache_ok pools st G F lc -> frame_ok st G F ->
  (order = 0 -> cache_free lc pid) ->
  exists res G', pool_expand env st lc p pid order seed = Ret res /\
    request_ok pools pid p st G F order res G'.
Proof.
  intros Hst Hpo Hca HF Hfree. unfold pool_expand, chunk_id_from_index.
  assert (Hsame : request_ok pools pid p st G F order (mkRes st lc p None None) G).
  { unfold request_ok. cbn. rewrite insert_id by done. split_and!; [done | done | done |].
    eapply trans_trans; [by apply trans_refl | by apply trans_refl | done | done]. }
  destruct (checked U16 (Z.of_nat (length (gp_chunks p)))) as [id |] eqn:Eid; [| eauto].
  assert (id = Z.of_nat (length (gp_chunks p))) as ->.
  { unfold checked in Eid. by destruct (_ && _); simplify_eq. }
  change (page_aligned_from_usize EXPANSION_SIZE) with (Some EXPANSION_SIZE).
  cbn [expect]. rewrite bind_ret.
  destruct (chunk_new_own (env_os env) (Z.of_nat (length (gp_chunks p))) EXPANSION_SIZE Hpar)
    as [(e & He) | (c0 & As & He & Hown & Hid & _)]; [done | done | by apply expansion_aligned | |];
    rewrite He, bind_ret; [eauto |].
  set (a := length st). set (p' := mkPool (gp_chunks p ++ [a]) (gp_listener p)).
  set (pools' := <[pid := p']> pools).
  pose proof (store_push st G c0 As Hst Hown) as Htr0.
  set (st0 := st ++ [c0]) in *. set (G0 := G ++ [(∅, ∅)]) in *.
  assert (Hpre : gp_chunks p `prefix_of` gp_chunks p') by (by eexists).
  assert (Ha : st0 !! a = Some c0) by (by apply list_lookup_middle).
  assert (Hpo0 : pools_ok pools' st0).
  { intros q pq i b Hq Hi. apply lookup_insert_Some in Hq as [[<- <-] | [Hne Hq]].
    - apply lookup_app_Some in Hi as [Hi | [Hlen Hi]].
      + by apply (pools_ok_le _ _ _ (tr_le _ _ _ _ _ _ Htr0) Hpo pid p i).
      + apply list_lookup_singleton_Some in Hi as [E <-]. exists c0. split; [done |].
        rewrite Hid. f_equal. lia.
    - by apply (pools_ok_le _ _ _ (tr_le _ _ _ _ _ _ Htr0) Hpo q pq i). }
  assert (Hca0 : cache_ok pools' st0 G0 F lc).
  { apply (cache_ok_pools _ _ p); [done | done |]. eapply cache_trans; [exact Htr0 | by apply Forall_forall | done]. }
  assert (HF0 : frame_ok st0 G0 F) by (eapply frame_trans; [exact Htr0 | done | done]).
  destruct (chunk_serves st0 G0 a c0 (env_contended env a) (env_thread_hash env) order seed
    (tr_ok _ _ _ _ _ _ Htr0) Ha Ho) as (c' & r & Hal & Hr).
  rewrite Hal, bind_ret. cbn [fst snd].
  assert (Est : <[a := c']> st0 = st ++ [c']).
  { unfold st0, a. rewrite insert_app_r_alt, Nat.sub_diag by done. done. }
  destruct r as [alloc |].
  - destruct Hr as (G' & Hf). rewrite Est in Hf.
    destruct (finish_ok pools' st0 G0 F lc p' pid order (st ++ [c']) G' a alloc (length (gp_chunks p))
      (if gp_listener p then Some (mkInfo (ck_id c0) (mc_ptr (ck_memory c0)) (mc_size (ck_memory c0)))
       else None))
      as (lc' & res & Hfin & Hca' & Hsv); [done | done | by apply lookup_insert_eq | |
        exists c0; by rewrite Hid | done | done |].
    { cbn. by apply list_lookup_middle. }
    eexists _, G'. split; [exact Hfin |]. unfold request_ok. cbn [ar_pool ar_store ar_cache ar_res].
    fold pools'. split_and!; [done | done | |].
    + destruct (served_trans _ _ _ _ _ _ _ _ _ Hsv) as (h' & Htr').
      eapply pools_ok_le; [apply (tr_le _ _ _ _ _ _ Htr') | done].
    + destruct res as [[cid slot] ptr]. destruct Hsv as (b & x & ? & ? & ? & ? & Hn & Htr2).
      exists b, x. split_and!; [done.. | by rewrite <- (tr_held _ _ _ _ _ _ Htr0) |].
      eapply trans_trans; [exact Htr0 | exact Htr2 | done |]. cbn. intros Hh b' s o. by rewrite Hh.
  - subst c'. eexists _, G0. split; [reflexivity |]. unfold request_ok.
    cbn [ar_pool ar_store ar_cache ar_res]. fold pools' st0. split_and!; [done | done | done |].
    eapply trans_trans; [by apply trans_refl | exact Htr0 | done | done].
Qed.

Lemma pool_alloc_ok st G lc :
  store_ok st G -> pools_ok pools st -> cache_ok pools st G F lc -> frame_ok st G F ->
  exists res G', pool_alloc_slots env st lc p pid order seed = Ret res /\
    request_ok pools pid p st G F order res G'.
Proof.
  intros Hst Hpo Hca HF. unfold pool_alloc_slots.
  (* after the fast path: the chunks, then expansion *)
  assert (Hrest : forall st G lc, store_ok st G -> pools_ok pools st -> cache_ok pools st G F lc ->
    frame_ok st G F -> (order = 0 -> cache_free lc pid) ->
    exists res G',
      (r ← try_chunks env st (gp_chunks p) order seed;
       match r.2 with
       | Some found => finish r.1 lc p pid (Some found) None
       | None =>
           r ← try_chunks env r.1 (gp_chunks p) order seed;
           match r.2 with
           | Some found => finish r.1 lc p pid (Some found) None
           | None => pool_expand env r.1 lc p pid order seed
           end
       end) = Ret res /\ request_ok pools pid p st G F order res G').
  { clear st G lc Hst Hpo Hca HF. intros st G lc Hst Hpo Hca HF Hfree.
    assert (Hall : Forall (fun a => is_Some (st !! a)) (gp_chunks p)).
    { apply Forall_forall. intros a (i & Hi)%list_elem_of_lookup.
      destruct (Hpo pid p i a Hp Hi) as (c & Hc & _). by exists c. }
    destruct (try_chunks_ok env st G order seed (gp_chunks p) Hst Ho Hall) as (st' & r & He & Hr).
    rewrite He, bind_ret. cbn [fst snd]. destruct r as [[a alloc] |].
    - destruct Hr as ((i & Hi)%list_elem_of_lookup & G' & Hf).
      destruct (finish_ok pools st G F lc p pid order st' G' a alloc i None)
        as (lc' & res & Hfin & Hca' & Hsv); [done | done | done | done | by apply (Hpo pid p) | done | done |].
      eexists _, G'. split; [exact Hfin |]. unfold request_ok. cbn [ar_pool ar_store ar_cache ar_res].
      rewrite insert_id by done. split_and!; [done | done | | done].
      destruct (served_trans _ _ _ _ _ _ _ _ _ Hsv) as (h' & Htr').
      eapply pools_ok_le; [apply (tr_le _ _ _ _ _ _ Htr') | done].
    - subst st'. rewrite He, bind_ret. cbn [fst snd]. by apply pool_expand_ok. }
  destruct (Z.eqb_spec order 0) as [E0 | Hne].
  2: { rewrite bind_ret. apply Hrest; done. }
  destruct (cache_try_alloc_ok pools st G F lc pid Hst Hca) as (st1 & G1 & lc1 & r & He & Hca1 & Hsv & Hnone).
  rewrite He, bind_ret. destruct (served_trans _ _ _ _ _ _ _ _ _ Hsv) as (h' & Htr').
  assert (Hpo1 : pools_ok pools st1) by (eapply pools_ok_le; [apply (tr_le _ _ _ _ _ _ Htr') | done]).
  destruct r as [res |].
  - eexists _, G1. split; [reflexivity |]. unfold request_ok. cbn [ar_pool ar_store ar_cache ar_res].
    rewrite insert_id, E0 by done. by split_and!.
  - destruct (Hrest st1 G1 lc1) as (res & G' & Hr & Hpre & Hca' & Hpo' & Hsv');
      [apply Htr' | done | done | eapply frame_trans; [exact Htr' | done | done] |
       intros _; by apply Hnone |].
    exists res, G'. split; [exact Hr |]. split_and!; [done | done | done |].
    cbn in Hsv. destruct (ar_res res) as [[[cid slot] ptr] |]; cbn in Hsv' |- *.
    + destruct Hsv' as (a & x & ? & ? & ? & ? & Hn & Htr2). exists a, x.
      split_and!; [done.. | by rewrite <- (tr_held _ _ _ _ _ _ Hsv) |].
      eapply trans_trans; [exact Hsv | exact Htr2 | done |]. cbn. intros Hh b s o. by rewrite Hh.
    + eapply trans_trans; [exact Hsv | exact Hsv' | done |]. intros Hh b s o. by rewrite Hh.
Qed.

End Request.

(** ** [GlobalSlotPool::dealloc_slots] *)

Lemma holds_delete_large L S i order s o :
  L !! i = Some order -> 1 <= order ->
  holds (delete i L) S s o <-> holds L S s o /\ (s, o) <> (i, order).
Proof.
  intros Hi Ho. unfold holds. rewrite lookup_delete_Some. split.
  - intros [[? ?] | (-> & Hs)]; (split; [tauto |]); congruence || (intros [= _ E]; lia).
  - intros [[HL | ?] Hne]; [left | by right]. split; [intros <- | done]. congruence.
Qed.

Lemma slot_unique sb off sb' off' :
  0 <= off < 64 -> 0 <= off' < 64 ->
  from_superblock_offset sb off = from_superblock_offset sb' off' -> sb = sb' /\ off = off'.
Proof.
  intros H1 H2 E. destruct (superblock_round' sb off H1) as [E1 E2].
  destruct (superblock_round' sb' off' H2) as [E3 E4]. rewrite E in E1, E2. split; congruence.
Qed.

(** Giving back one slot of a superblock; [S'] is either form the superblock
    can be left in. *)
Lemma holds_free_slot c As L S sb held off S' s o :
  chunk_own c As L S -> S !! sb = Some held -> off ∈ held ->
  (S' = <[sb := held ∖ {[off]}]> S \/ (S' = delete sb S /\ held = {[off]})) ->
  holds L S' s o <-> holds L S s o /\ (s, o) <> (from_superblock_offset sb off, 0).
Proof.
  intros Hown Hs Hoff HS'. destruct (own_sb_slots Hown _ _ _ Hs Hoff) as (Hr & _).
  assert (Hin : forall b h f, S !! b = Some h -> f ∈ h -> 0 <= f < 64)
    by (intros b h f Hb Hf; by destruct (own_sb_slots Hown _ _ _ Hb Hf)).
  assert (HL0 : forall i p, L !! i = Some p -> 1 <= p) by (intros; by eapply (ow_large _ _ _ _ Hown)).
  assert (Hlk : forall b h, S' !! b = Some h ->
    exists h0, S !! b = Some h0 /\ h ⊆ h0 /\ (b = sb -> off ∉ h)).
  { intros b h Hb. destruct HS' as [-> | [-> Eh]].
    - apply lookup_insert_Some in Hb as [[<- <-] | [? Hb]]; [exists held | exists h]; set_solver.
    - apply lookup_delete_Some in Hb as [? Hb]. exists h. set_solver. }
  assert (Hback : forall b h f, S !! b = Some h -> f ∈ h -> (b, f) <> (sb, off) ->
    exists h', S' !! b = Some h' /\ f ∈ h').
  { intros b h f Hb Hf Hne. destruct (decide (b = sb)) as [-> | Hnb].
    - rewrite Hs in Hb. injection Hb as <-. destruct HS' as [-> | [-> ->]]; [| set_solver].
      exists (held ∖ {[off]}). rewrite lookup_insert_eq. split; [done |].
      assert (f <> off) by congruence. set_solver.
    - exists h. destruct HS' as [-> | [-> _]]; [by rewrite lookup_insert_ne | by rewrite lookup_delete_ne]. }
  unfold holds. split.
  - intros [HL | (-> & b & h & f & Hb & Hf & ->)].
    + split; [by left |]. apply HL0 in HL. intros [= _ ->]. lia.
    + destruct (Hlk b h Hb) as (h0 & Hb0 & Hsub & Hn). split; [right; split; [done |]; exists b, h0, f; set_solver |].
      intros [= E]. destruct (slot_unique _ _ _ _ (Hin _ _ _ Hb0 (Hsub _ Hf)) Hr E) as [-> ->].
      by apply Hn.
  - intros [[HL | (-> & b & h & f & Hb & Hf & ->)] Hne]; [by left | right].
    split; [done |]. destruct (Hback b h f Hb Hf) as (h' & Hb' & Hf').
    { intros [= -> ->]. by apply Hne. }
    by exists b, h', f.
Qed.

Lemma pool_dealloc_ok pools st G pid p cid a slot o :
  store_ok st G -> pools_ok pools st -> pools !! pid = Some p -> 0 <= cid ->
  chunk_of pools pid cid = Some a -> held_buf G a slot o ->
  exists st' G', pool_dealloc_slots st p cid slot o = Ret st' /\
    trans st G st' G' (fun _ => True)
      (fun b s o' => held_buf G b s o' /\ (b, s, o') <> (a, slot, o)).
Proof.
  intros Hst Hpo Hp Hcid Hco ([L S] & Hg & Hh). unfold chunk_of in Hco. rewrite Hp in Hco.
  destruct (Hpo pid p _ a Hp Hco) as (c & Hc & Hid). cbn [fst snd] in Hh.
  destruct (proj2 Hst _ _ _ Hc Hg) as [As Hown]. cbn [fst snd] in Hown.
  unfold pool_dealloc_slots, chunk_get. rewrite Hco, Hc, bind_ret.
  destruct (Z.eqb_spec (ck_id c) cid) as [_ | ?]; [| lia]. cbn [assert]. rewrite bind_ret.
  assert (Hheld : forall L' S', (forall s o', holds L' S' s o' <-> holds L S s o' /\ (s, o') <> (slot, o)) ->
    forall b s o', held_buf G b s o' /\ (b, s, o') <> (a, slot, o) <->
      if decide (a = b) then holds L' S' s o' else held_buf G b s o').
  { intros L' S' HH b s o'. destruct (decide (a = b)) as [<- | Hne].
    - rewrite (held_at _ _ _ _ _ _ Hg), HH. naive_solver.
    - naive_solver. }
  destruct Hh as [HL | (-> & sb & held & off & Hs & Hoff & ->)].
  - destruct (own_dealloc_large Hown slot o HL) as (c' & As' & He & Hown' & Hlay & Hsbs).
    destruct (ow_large _ _ _ _ Hown _ _ HL) as [Ho1 _].
    rewrite He, bind_ret. eexists _, _. split; [reflexivity |].
    eapply store_update; [done | exact Hc | exact Hg | exact Hown' | done | |].
    + intros e _ _ HS' (stb & Hb & Hab). split; [done |]. exists stb. by rewrite Hsbs.
    + apply Hheld. intros s o'. by apply holds_delete_large.
  - destruct (own_dealloc_small Hown sb held off Hs Hoff) as (c' & As' & S' & He & Hown' & Hlay & HS' & Hact).
    rewrite He, bind_ret. eexists _, _. split; [reflexivity |].
    eapply store_update; [done | exact Hc | exact Hg | exact Hown' | done | |].
    + intros e _ _ HSe Ha. split; [| by apply Hact].
      destruct (decide (sb = ce_sb_idx e)) as [E | Hne].
      * destruct HS' as [-> | (-> & _ & Hna)]; [rewrite E, lookup_insert_eq; by eexists |].
        exfalso. apply Hna. by rewrite E.
      * destruct HS' as [-> | (-> & _)]; [by rewrite lookup_insert_ne | by rewrite lookup_delete_ne].
    + apply Hheld. intros s o'. apply (holds_free_slot c As L S sb held off); [done | done | done |].
      destruct HS' as [? | (? & ? & _)]; [by left | by right].
Qed.

(** ** Threads, pools and their histories *)

Record world : Type := mkWorld {
  wd_store : store;
  wd_pools : gmap Z GlobalSlotPool;
  wd_caches : gmap nat LocalCache
}.

(** The cache of a thread, created empty on first use. *)
Definition cache_of (w : world) (t : nat) : LocalCache :=
  default local_cache_new (wd_caches w !! t).

(** Buffers in the hands of clients: chunk, first slot, order.  A block that is
    handed out twice is in the list twice. *)
Notation buffers := (list (nat * Z * Z)).

(** Histories: pools are created at fresh addresses, with a size whose shards are
    whole numbers of superblocks; any thread may allocate from any pool, and free
    any buffer of it that is held.  Each call of the pool is one step. *)
Inductive pool_reach : world -> buffers -> Prop :=
  | reach_start : pool_reach (mkWorld [] ∅ ∅) []
  | reach_pool w B os pid total st p :
      pool_reach w B -> wd_pools w !! pid = None ->
      default 1 (os_parallelism os) <= 2 ^ 62 -> total < 2 ^ 62 -> layout_aligned os total ->
      pool_new os (wd_store w) total = Ret (st, Ok p) ->
      pool_reach (mkWorld st (<[pid := p]> (wd_pools w)) (wd_caches w)) B
  | reach_alloc w B t env pid p order seed res :
      pool_reach w B -> wd_pools w !! pid = Some p -> 0 <= order ->
      default 1 (os_parallelism (env_os env)) <= 2 ^ 62 ->
      pool_alloc_slots env (wd_store w) (cache_of w t) p pid order seed = Ret res ->
      pool_reach
        (mkWorld (ar_store res) (<[pid := ar_pool res]> (wd_pools w)) (<[t := ar_cache res]> (wd_caches w)))
        (match ar_res res with
         | Some (cid, slot, _) =>
             match gp_chunks (ar_pool res) !! Z.to_nat cid with
             | Some a => (a, slot, order) :: B
             | None => B
             end
         | None => B
         end)
  | reach_free w B1 B2 pid p cid a slot order st :
      pool_reach w (B1 ++ (a, slot, order) :: B2) -> wd_pools w !! pid = Some p -> 0 <= cid ->
      gp_chunks p !! Z.to_nat cid = Some a ->
      pool_dealloc_slots (wd_store w) p cid slot order = Ret st ->
      pool_reach (mkWorld st (wd_pools w) (wd_caches w)) (B1 ++ B2).

(** ** The invariant of histories *)

Definition all_keys (cs : gmap nat LocalCache) : list (nat * Z) :=
  concat ((fun kv : nat * LocalCache => keys (lc_entries kv.2)) <$> map_to_list cs).

Record world_ok (w : world) (B : buffers) (G : list ghost) : Prop := {
  wo_store : store_ok (wd_store w) G;
  wo_pools : pools_ok (wd_pools w) (wd_store w);
  wo_keys : NoDup (all_keys (wd_caches w));
  wo_caches : forall t lc, wd_caches w !! t = Some lc ->
    cache_ok (wd_pools w) (wd_store w) G [] lc;
  wo_nodup : NoDup B;
  wo_held : forall a s o, (a, s, o) ∈ B <-> held_buf G a s o
}.

Lemma concat_perm {A} (l1 l2 : list (list A)) : l1 ≡ₚ l2 -> concat l1 ≡ₚ concat l2.
Proof.
  induction 1 as [| x l1 l2 _ IH | x y l | l1 l2 l3 _ IH1 _ IH2]; cbn.
  - done.
  - by rewrite IH.
  - rewrite !(assoc_L (++)). apply Permutation_app; [apply Permutation_app_comm | done].
  - by etrans.
Qed.

Lemma all_keys_insert cs t lc :
  all_keys (<[t := lc]> cs) ≡ₚ keys (lc_entries lc) ++ all_keys (delete t cs).
Proof.
  unfold all_keys. rewrite <- insert_delete_eq.
  etrans; [apply concat_perm, fmap_Permutation, map_to_list_insert, lookup_delete_eq |]. done.
Qed.

Lemma all_keys_split cs t :
  all_keys cs ≡ₚ keys (lc_entries (default local_cache_new (cs !! t))) ++ all_keys (delete t cs).
Proof.
  destruct (cs !! t) as [lc |] eqn:E; cbn [default].
  - rewrite <- (insert_id cs t lc E) at 1. apply all_keys_insert.
  - by rewrite delete_id.
Qed.

Lemma all_keys_in cs k :
  k ∈ all_keys cs -> exists t lc pe, cs !! t = Some lc /\ pe ∈ lc_entries lc /\ key pe.2 = k.
Proof.
  unfold all_keys. intros Hk. apply list_elem_of_In, in_concat in Hk as (l & Hl & Hk).
  apply list_elem_of_In in Hl, Hk. apply list_elem_of_fmap in Hl as ([t lc] & -> & Ht).
  apply elem_of_map_to_list in Ht. apply list_elem_of_fmap in Hk as (pe & -> & Hpe).
  by exists t, lc, pe.
Qed.

Lemma cache_ok_nil pools st G F lc :
  cache_ok pools st G F lc <-> NoDup (keys (lc_entries lc) ++ F) /\ cache_ok pools st G [] lc.
Proof.
  split.
  - intros []. split; [done |]. split; [| done..]. rewrite app_nil_r.
    by apply NoDup_app in ca_nodup0 as [? _].
  - intros [Hn []]. by split.
Qed.

Lemma cache_new_ok pools st G : cache_ok pools st G [] local_cache_new.
Proof. split; cbn; [constructor | constructor | done | intros []%is_Some_None]. Qed.

Section WorldFacts.
Context {w : world} {B : buffers} {G : list ghost} (Hw : world_ok w B G) (t : nat).

Lemma world_cache : cache_ok (wd_pools w) (wd_store w) G (all_keys (delete t (wd_caches w))) (cache_of w t).
Proof.
  apply cache_ok_nil. split.
  - unfold cache_of. rewrite <- all_keys_split. apply Hw.
  - unfold cache_of. destruct (wd_caches w !! t) eqn:E; [by apply (wo_caches _ _ _ Hw t) | apply cache_new_ok].
Qed.

Lemma world_frame : frame_ok (wd_store w) G (all_keys (delete t (wd_caches w))).
Proof.
  intros k (u & lc & pe & [_ Hu]%lookup_delete_Some & Hpe & <-)%all_keys_in. exists pe.2.
  split; [done |]. pose proof (ca_valid _ _ _ _ _ (wo_caches _ _ _ Hw u lc Hu)) as Hv.
  rewrite Forall_forall in Hv. apply Hv, Hpe.
Qed.

End WorldFacts.

(** Other caches stay valid when their entries do. *)
Lemma caches_step pools pools' st G st' G' (cs : gmap nat LocalCache) (F : list (nat * Z)) keep held' :
  trans st G st' G' keep held' -> (forall e, key e ∈ F -> keep e) ->
  (forall pid cid a, chunk_of pools pid cid = Some a -> chunk_of pools' pid cid = Some a) ->
  (forall t lc pe, cs !! t = Some lc -> pe ∈ lc_entries lc -> key pe.2 ∈ F) ->
  (forall t lc, cs !! t = Some lc -> cache_ok pools st G [] lc) ->
  forall t lc, cs !! t = Some lc -> cache_ok pools' st' G' [] lc.
Proof.
  intros Htr Hkeep Hmono Hin Hok t lc Ht. destruct (Hok t lc Ht) as [Hn Hv Hm Hk].
  split; [done | | by eapply mirror_le; [apply Htr |] | done].
  rewrite Forall_forall in *. intros pe Hpe. destruct (Hv pe Hpe) as (He & Hc & Hco).
  split_and!; [| done | by apply Hmono]. apply (tr_keep _ _ _ _ _ _ Htr); [| done].
  apply Hkeep. by eapply Hin.
Qed.

Lemma all_keys_elem (cs : gmap nat LocalCache) t lc pe : cs !! t = Some lc -> pe ∈ lc_entries lc -> key pe.2 ∈ all_keys cs.
Proof.
  intros Ht Hpe. rewrite (all_keys_split cs t), Ht. cbn. apply elem_of_app. left.
  apply list_elem_of_fmap. by exists pe.
Qed.

Lemma pool_reach_ok w B : pool_reach w B -> exists G, world_ok w B G.
Proof.
  induction 1 as [| w B os pid total st p _ [G Hw] Hpid Hpar Htot Hal Hnew
    | w B t env pid p order seed res _ [G Hw] Hp Ho Hpar Hres
    | w B1 B2 pid p cid a slot order st _ [G Hw] Hp Hcid Hco Hfree].
  - exists []. split; cbn; [done | intros pid p i a Hp; by rewrite lookup_empty in Hp | constructor | | constructor |].
    + intros t lc Ht. by rewrite lookup_empty in Ht.
    + intros a s o. split; [by intros ?%elem_of_nil |]. intros (g & Hg & _). by rewrite lookup_nil in Hg.
  - unfold pool_new in Hnew. destruct (Z.ltb_spec total MIN_THREAD_MEMORY) as [| Hmin]; [done |].
    unfold MIN_THREAD_MEMORY in Hmin. unfold page_aligned_from_usize, page_aligned_new, is_multiple_of in Hnew.
    destruct (Z.eqb_spec total 0); [lia |]. change (SLOT_SIZE =? 0) with false in Hnew. cbn iota in Hnew.
    destruct (Z.eqb_spec (total mod SLOT_SIZE) 0) as [Hmod |]; [| done].
    destruct (chunk_new_own os 0 total Hpar) as [(e & He) | (c & As & He & Hown & Hid & _)];
      [lia | done | done | |]; rewrite He, bind_ret in Hnew; [done |]. injection Hnew as <- <-.
    pose proof (store_push _ _ c As (wo_store _ _ _ Hw) Hown) as Htr.
    exists (G ++ [(∅, ∅)]). split; cbn [wd_store wd_pools wd_caches].
    + apply Htr.
    + intros q pq i b [[<- <-] | [Hne Hq]]%lookup_insert_Some Hi.
      * apply list_lookup_singleton_Some in Hi as [-> <-]. exists c. split; [by apply list_lookup_middle | done].
      * by apply (pools_ok_le _ _ _ (tr_le _ _ _ _ _ _ Htr) (wo_pools _ _ _ Hw) q pq i).
    + apply Hw.
    + eapply (caches_step _ _ _ _ _ _ _ (all_keys (wd_caches w)) _ _ Htr);
        [done | | by eapply all_keys_elem | apply Hw].
      intros q k b. unfold chunk_of. destruct (decide (pid = q)) as [<- | Hne]; [by rewrite Hpid |].
      by rewrite lookup_insert_ne.
    + apply Hw.
    + intros a s o. by rewrite (wo_held _ _ _ Hw), (tr_held _ _ _ _ _ _ Htr).
  - destruct (pool_alloc_ok _ pid p env (all_keys (delete t (wd_caches w))) order seed Hp Ho Hpar
      (wd_store w) G (cache_of w t) (wo_store _ _ _ Hw) (wo_pools _ _ _ Hw) (world_cache Hw t)
      (world_frame Hw t)) as (res' & G' & Hr & Hpre & Hca & Hpo & Hsv).
    rewrite Hres in Hr. injection Hr as <-.
    destruct (served_trans _ _ _ _ _ _ _ _ _ Hsv) as (h' & Htr).
    apply cache_ok_nil in Hca as [Hnd Hca].
    exists G'. split; cbn [wd_store wd_pools wd_caches].
    + apply Htr.
    + done.
    + by rewrite all_keys_insert.
    + intros u lc [[<- <-] | [Hne Hu]]%lookup_insert_Some; [done |].
      revert u lc Hne Hu. assert (Hoth : forall u lc, delete t (wd_caches w) !! u = Some lc ->
        cache_ok (<[pid := ar_pool res]> (wd_pools w)) (ar_store res) G' [] lc).
      { eapply (caches_step _ _ _ _ _ _ _ (all_keys (delete t (wd_caches w))) _ _ Htr);
          [done | | by eapply all_keys_elem |].
        - intros q k b. by eapply chunk_of_mono.
        - intros u lc [_ Hu]%lookup_delete_Some. by apply (wo_caches _ _ _ Hw u). }
      intros u lc Hne Hu. apply (Hoth u). by rewrite lookup_delete_ne.
    + destruct (ar_res res) as [[[cid slot] ptr] |]; [| apply Hw]. cbn in Hsv.
      destruct Hsv as (b & c' & Hco & _ & _ & _ & Hfr & _). unfold chunk_of in Hco. rewrite lookup_insert_eq in Hco. rewrite Hco.
      apply NoDup_cons. split; [by rewrite (wo_held _ _ _ Hw) | apply Hw].
    + intros a s o. destruct (ar_res res) as [[[cid slot] ptr] |]; cbn in Hsv.
      * destruct Hsv as (b & c' & Hco & _ & _ & _ & _ & Htr2). unfold chunk_of in Hco.
        rewrite lookup_insert_eq in Hco. rewrite Hco.
        rewrite (tr_held _ _ _ _ _ _ Htr2), elem_of_cons, (wo_held _ _ _ Hw).
        naive_solver.
      * by rewrite (wo_held _ _ _ Hw), (tr_held _ _ _ _ _ _ Hsv).
  - assert (Hin : (a, slot, order) ∈ B1 ++ (a, slot, order) :: B2) by (apply elem_of_app; right; left).
    assert (Hout : (a, slot, order) ∉ B1 ++ B2 /\ NoDup (B1 ++ B2)).
    { apply NoDup_cons. rewrite Permutation_middle. apply Hw. }
    destruct (pool_dealloc_ok (wd_pools w) (wd_store w) G pid p cid a slot order) as (st' & G' & He & Htr);
      [apply Hw | apply Hw | done | done | by unfold chunk_of; rewrite Hp | by apply (wo_held _ _ _ Hw) |].
    rewrite Hfree in He. injection He as <-. exists G'. split; cbn [wd_store wd_pools wd_caches].
    + apply Htr.
    + eapply pools_ok_le; [apply (tr_le _ _ _ _ _ _ Htr) | apply Hw].
    + apply Hw.
    + eapply (caches_step _ _ _ _ _ _ _ (all_keys (wd_caches w)) _ _ Htr);
        [done | done | by eapply all_keys_elem | apply Hw].
    + apply Hout.
    + intros b s o. rewrite (tr_held _ _ _ _ _ _ Htr), <- (wo_held _ _ _ Hw), !elem_of_app, elem_of_cons.
      destruct Hout as [Hout _]. rewrite elem_of_app in Hout. naive_solver.
Qed.
