(* ===== verification/PoolTheorems.v ===== *)
(** * The slot pool: what it guarantees and where it does not

    The theorems about chunks ([Chunk], [Ownership]) and about the pool with
    its thread caches ([Pool], [PoolSafety]), and concrete runs in which the
    guarantees fail: a pool whose shards are no whole number of superblocks, a
    pool created at the address of one that was dropped, and requests larger
    than any shard. *)

From S2P Require Import Prelude BitSet IntrusiveList Units Buddy Superblock Chunk Ownership Pool PoolSafety.

(** ** Chunks *)

(** A request on a chunk fails only if no shard has a free aligned run of
    slots of that size, whatever the hash, the seed and the contention on the
    shard locks; otherwise the block returned was free in some shard, all other
    blocks are kept, and the pointer is that of its first slot. *)
Theorem chunk_alloc_complete (c : Chunk) (As : list (gmap Z Z)) (Hok : chunk_ok c As)
    (contended : Z -> bool) (thread_hash : Z) (order : Z) (Ho : 0 <= order) (seed : option Z) :
  exists c' r, alloc_global contended thread_hash c order seed = Ret (c', r) /\
  match r with
  | Some (idx, ptr) =>
      ptr = mc_ptr (ck_memory c) + slot_offset idx /\
      (forall o, ~ live_block c As idx o) /\
      exists As', chunk_ok c' As' /\
        forall i o, live_block c As' i o <-> (i = idx /\ o = order) \/ live_block c As i o
  | None =>
      c' = c /\ forall s A i, 0 <= s -> As !! Z.to_nat s = Some A ->
        ~ free_run A (ck_slots_per_shard c) i order
  end.
Proof.
  destruct (alloc_global_ok c As Hok contended thread_hash order seed Ho)
    as [(c' & As' & idx & ptr & He & (Hok' & _ & _ & Hf & Hlv) & Hp) | (He & Hfull)].
  - exists c', (Some (idx, ptr)). split; [done |]. split; [done |]. split; [done |]. by exists As'.
  - exists c, None. split; [done |]. split; [done |]. intros s A i Hs HA.
    apply (Hfull s); [split; [done |] | done]. by eapply (As_range Hok).
Qed.

(** Freeing in a chunk: a live block with its order is freed and every other
    block kept; the start of no live block makes the thread panic (a double
    free or a wild index is never accepted silently). *)
Theorem chunk_dealloc_strict (c : Chunk) (As : list (gmap Z Z)) (Hok : chunk_ok c As)
    (idx order : Z) (Hi : 0 <= idx) :
  (live_block c As idx order -> exists c' As', dealloc_global c idx order = Ret c' /\
     chunk_ok c' As' /\ forall i o, live_block c As' i o <-> i <> idx /\ live_block c As i o) /\
  ((forall o, ~ live_block c As idx o) -> exists f, dealloc_global c idx order = Fault f).
Proof.
  split.
  - intros Hlv. destruct (dealloc_global_ok c As Hok idx order Hlv)
      as (c' & As' & He & (Hok' & _ & _ & Hl)). by exists c', As'.
  - intros Hno. destruct (dealloc_global_bad c As Hok idx order Hi Hno) as [-> | ->]; eauto.
Qed.

(** A new chunk: creation fails only with the error of the operating system;
    otherwise the shards are a power of two in number, equal slices of the
    memory with everything free, and the superblock states cover the memory. *)
Theorem chunk_new_layout (os : Os) (id size : Z)
    (Hpar : default 1 (os_parallelism os) <= 2 ^ 62)
    (Hsize : 0 < size < 2 ^ 62) (Hpage : size mod SLOT_SIZE = 0) :
  match memory_chunk_new os size with
  | Err e => chunk_new os id size = Ret (Err e)
  | Ok memory =>
      exists c k, chunk_new os id size = Ret (Ok c) /\ 0 <= k < 63 /\
        chunk_ok c (replicate (Z.to_nat (2 ^ k)) ∅) /\ ck_id c = id /\ ck_memory c = memory /\
        Z.of_nat (length (ck_shards c)) = 2 ^ k /\
        ck_slots_per_shard c = slot_count size / 2 ^ k /\
        ck_superblocks c = replicate (Z.to_nat (superblock_count (slot_count size))) sb_new
  end.
Proof.
  pose proof (chunk_new_ok os id size Hpar Hsize Hpage) as H.
  destruct (memory_chunk_new os size); [| done].
  destruct H as (c & k & ? & ? & ? & ? & ? & ? & _ & ? & ?). by exists c, k.
Qed.

(** ** The pool *)

(** A buffer that a client holds belongs to a chunk that knows it as taken. *)
Lemma held_owned w B G a slot o : world_ok w B G -> (a, slot, o) ∈ B ->
  exists c g As, wd_store w !! a = Some c /\ G !! a = Some g /\ chunk_own c As g.1 g.2 /\ holds g.1 g.2 slot o.
Proof.
  intros Hw (g & Hg & Hh)%(wo_held _ _ _ Hw). destruct (wo_store _ _ _ Hw) as [Hl Hst].
  destruct (lookup_lt_is_Some_2 (wd_store w) a) as [c Hc]; [rewrite Hl; by eapply lookup_lt_Some |].
  destruct (Hst a c g Hc Hg) as [As Ho]. by exists c, g, As.
Qed.

Lemma held_disjoint w B G a s1 o1 s2 o2 : world_ok w B G -> (a, s1, o1) ∈ B -> (a, s2, o2) ∈ B -> (s1, o1) <> (s2, o2) ->
  s1 + 2 ^ o1 <= s2 \/ s2 + 2 ^ o2 <= s1.
Proof.
  intros Hw H1 H2 Hne. destruct (held_owned w B G a s1 o1 Hw H1) as (c & g & As & Hc & Hg & Ho & Hh1).
  destruct (held_owned w B G a s2 o2 Hw H2) as (c' & g' & As' & Hc' & Hg' & _ & Hh2).
  rewrite Hg in Hg'. injection Hg' as <-. by eapply (holds_disjoint Ho).
Qed.

(** C1 The buffers that are in the hands of clients, as the list of what was
    handed out and not freed, are pairwise disjoint, and each lies inside the
    memory of its chunk; so no slot is handed out twice.  This holds in every
    history of [pool_reach]: any number of threads with their caches call any
    number of pools in any order, each call of a pool being one step (calls do not
    overlap); pools have a size below 2^62 whose shards are whole numbers of
    superblocks ([layout_aligned]) and an address of their own, the system has at
    most 2^62 CPUs, orders are not negative, and clients free what they hold. *)
Theorem pool_buffers_disjoint (w : world) (B : list (nat * Z * Z)) (Hreach : pool_reach w B) :
  (forall a slot o, (a, slot, o) ∈ B -> exists c, wd_store w !! a = Some c /\
     0 <= o /\ 0 <= slot /\ slot_offset (slot + 2 ^ o) <= mc_size (ck_memory c)) /\
  (forall i j a s1 o1 s2 o2, i <> j -> B !! i = Some (a, s1, o1) -> B !! j = Some (a, s2, o2) ->
     s1 + 2 ^ o1 <= s2 \/ s2 + 2 ^ o2 <= s1).
Proof.
  destruct (pool_reach_ok w B Hreach) as [G Hw]. split.
  - intros a slot o Hin. destruct (held_owned w B G a slot o Hw Hin) as (c & g & As & Hc & Hg & Ho & Hh).
    exists c. destruct (holds_in_chunk Ho _ _ Hh) as (? & ? & ?). by split_and!.
  - intros i j a s1 o1 s2 o2 Hij Hi Hj.
    eapply (held_disjoint w B G a); [done | by eapply list_elem_of_lookup_2.. |].
    intros [= -> ->]. apply Hij. by eapply (NoDup_lookup B i j (a, s2, o2) (wo_nodup _ _ _ Hw)).
Qed.

(** C39 In the histories of C1 (pools with aligned shards, one call at a time, at
    most 2^62 CPUs), a request of any order that is not negative returns without
    a panic, whatever the caches hold, the system answers to an expansion, the
    [try_lock] of the shards finds, and the hash and the seed say.  What it gives,
    if it gives anything, is a buffer of a chunk of that pool, with the pointer to
    its first byte, that overlaps no buffer a client holds. *)
Theorem pool_alloc_returns (w : world) (B : list (nat * Z * Z)) (Hreach : pool_reach w B)
    (t : nat) (pid : Z) (p : GlobalSlotPool) (Hp : wd_pools w !! pid = Some p)
    (env : Env) (Hpar : default 1 (os_parallelism (env_os env)) <= 2 ^ 62)
    (order : Z) (Ho : 0 <= order) (seed : option Z) :
  exists res, pool_alloc_slots env (wd_store w) (cache_of w t) p pid order seed = Ret res /\
  gp_chunks p `prefix_of` gp_chunks (ar_pool res) /\
  match ar_res res with
  | Some (cid, slot, ptr) =>
      exists a c, gp_chunks (ar_pool res) !! Z.to_nat cid = Some a /\
        ar_store res !! a = Some c /\ ptr = mc_ptr (ck_memory c) + slot_offset slot /\
        forall s o, (a, s, o) ∈ B -> slot + 2 ^ order <= s \/ s + 2 ^ o <= slot
  | None => True
  end.
Proof.
  destruct (pool_reach_ok w B Hreach) as [G Hw].
  destruct (pool_alloc_ok _ pid p env (all_keys (delete t (wd_caches w))) order seed Hp Ho Hpar
    (wd_store w) G (cache_of w t) (wo_store _ _ _ Hw) (wo_pools _ _ _ Hw) (world_cache Hw t)
    (world_frame Hw t)) as (res & G' & Hr & Hpre & _ & _ & Hsv).
  exists res. split_and!; [done | done |]. pose proof (reach_alloc w B t env pid p order seed res Hreach Hp Ho Hpar Hr) as Hnext.
  destruct (ar_res res) as [[[cid slot] ptr] |]; [| done].
  destruct Hsv as (a & c & Hco & _ & Hc & Hptr & Hn & _). unfold chunk_of in Hco.
  rewrite lookup_insert_eq in Hco. exists a, c. split_and!; [done.. |]. rewrite Hco in Hnext.
  destruct (pool_reach_ok _ _ Hnext) as [G2 Hw2]. intros s o Hs.
  eapply (held_disjoint _ _ G2 a); [exact Hw2 | by left | by right |].
  intros [= <- <-]. by apply Hn, (wo_held _ _ _ Hw).
Qed.

(** Any buffer in the hands of a client can be freed, by whichever thread:
    [dealloc_slots] returns without a panic. *)
Theorem pool_free_returns (w : world) (B : list (nat * Z * Z)) (Hreach : pool_reach w B)
    (pid : Z) (p : GlobalSlotPool) (Hp : wd_pools w !! pid = Some p)
    (cid : Z) (Hcid : 0 <= cid) (a : nat) (Ha : gp_chunks p !! Z.to_nat cid = Some a)
    (slot order : Z) (Hin : (a, slot, order) ∈ B) :
  exists st, pool_dealloc_slots (wd_store w) p cid slot order = Ret st.
Proof.
  destruct (pool_reach_ok w B Hreach) as [G Hw].
  destruct (pool_dealloc_ok (wd_pools w) (wd_store w) G pid p cid a slot order) as (st & G' & He & _);
    [apply Hw | apply Hw | done | done | by unfold chunk_of; rewrite Hp | by apply (wo_held _ _ _ Hw) |].
  by exists st.
Qed.

(** ** Concrete runs *)

(** A system with [cpus] CPUs that maps memory at [base]. *)
Definition ex_os (cpus base : Z) : Os :=
  mkOs (fun _ => Err (Os_err 12)) (fun _ => Ok base) (Some cpus) (mkMem ∅ ∅).
Definition ex_env (cpus base : Z) : Env := mkEnv (ex_os cpus base) (fun _ _ => false) 0.

Definition MB : Z := 1024 * 1024.
Definition BASE : Z := 2 ^ 40.

(** A world with one new pool, and a request in a world. *)
Definition new_world (os : Os) (pid total : Z) : world :=
  match pool_new os [] total with
  | Ret (st, Ok p) => mkWorld st (<[pid := p]> ∅) ∅
  | _ => mkWorld [] ∅ ∅
  end.

Definition request (wB : world * list (nat * Z * Z)) (t : nat) (env : Env) (pid order : Z)
    (seed : option Z) : world * list (nat * Z * Z) :=
  let (w, B) := wB in
  match wd_pools w !! pid with
  | None => wB
  | Some p =>
      match pool_alloc_slots env (wd_store w) (cache_of w t) p pid order seed with
      | Fault _ => wB
      | Ret res =>
          (mkWorld (ar_store res) (<[pid := ar_pool res]> (wd_pools w))
             (<[t := ar_cache res]> (wd_caches w)),
           match ar_res res with
           | Some (cid, slot, _) =>
               match gp_chunks (ar_pool res) !! Z.to_nat cid with
               | Some a => (a, slot, order) :: B
               | None => B
               end
           | None => B
           end)
      end
  end.

Lemma new_world_reach os pid total :
  default 1 (os_parallelism os) <= 2 ^ 62 -> total < 2 ^ 62 -> layout_aligned os total ->
  pool_reach (new_world os pid total) [].
Proof.
  intros Hpar Htot Hal. unfold new_world.
  destruct (pool_new os [] total) as [[st [p | e]] |] eqn:E; [| apply reach_start..].
  apply (reach_pool (mkWorld [] ∅ ∅) [] os pid total); [apply reach_start | done..].
Qed.

Lemma request_reach wB t env pid order seed :
  pool_reach wB.1 wB.2 -> 0 <= order -> default 1 (os_parallelism (env_os env)) <= 2 ^ 62 ->
  pool_reach (request wB t env pid order seed).1 (request wB t env pid order seed).2.
Proof.
  destruct wB as [w B]. cbn [fst snd]. intros Hw Ho Hpar. unfold request.
  destruct (wd_pools w !! pid) as [p |] eqn:Hp; [| done].
  destruct (pool_alloc_slots _ _ _ _ _ _ _) as [res |] eqn:E; [| done].
  by apply (reach_alloc w B t env pid p order seed res).
Qed.

(** A pool of 4 MB at address 100, from which thread 0 took a slot. *)
Definition ex_wB : world * list (nat * Z * Z) :=
  request (new_world (ex_os 8 BASE) 100 (4 * MB), []) 0 (ex_env 8 BASE) 100 0 (Some 0).

Lemma ex_reach : pool_reach ex_wB.1 ex_wB.2.
Proof.
  apply request_reach; [| done | vm_compute; discriminate].
  apply new_world_reach; [vm_compute; discriminate | vm_compute; reflexivity | vm_compute; reflexivity].
Qed.

Definition ex_p : GlobalSlotPool := default (mkPool [] false) (wd_pools ex_wB.1 !! 100).

Lemma ex_p_ok : wd_pools ex_wB.1 !! 100 = Some ex_p.
Proof. vm_compute. reflexivity. Qed.

Lemma ex_held : (0%nat, 0, 0) ∈ ex_wB.2.
Proof. apply (bool_decide_eq_true_1 ((0%nat, 0, 0) ∈ ex_wB.2)). vm_compute. reflexivity. Qed.

Lemma pool_buffers_disjoint_witness :
  exists c, wd_store ex_wB.1 !! 0%nat = Some c /\
    0 <= 0 /\ 0 <= 0 /\ slot_offset (0 + 2 ^ 0) <= mc_size (ck_memory c).
Proof. exact (proj1 (pool_buffers_disjoint _ _ ex_reach) 0%nat 0 0 ex_held). Defined.

Lemma ex_env_par : default 1 (os_parallelism (env_os (ex_env 8 BASE))) <= 2 ^ 62.
Proof. vm_compute. discriminate. Qed.

Lemma pool_alloc_returns_witness :
  exists res, pool_alloc_slots (ex_env 8 BASE) (wd_store ex_wB.1) (cache_of ex_wB.1 1) ex_p 100 3 None
    = Ret res.
Proof.
  assert (Ho : 0 <= 3) by lia.
  destruct (pool_alloc_returns _ _ ex_reach 1 100 ex_p ex_p_ok (ex_env 8 BASE) ex_env_par 3 Ho None)
    as (res & He & _).
  exists res. exact He.
Defined.

Lemma pool_free_returns_witness :
  exists st, pool_dealloc_slots (wd_store ex_wB.1) ex_p 0 0 0 = Ret st.
Proof.
  assert (Ha : gp_chunks ex_p !! Z.to_nat 0 = Some 0%nat) by (vm_compute; reflexivity).
  exact (pool_free_returns _ _ ex_reach 100 ex_p ex_p_ok 0 (Z.le_refl 0) 0%nat Ha 0 0 ex_held).
Defined.

(** A new chunk of 4 MB on 8 CPUs. *)
Lemma ex_chunk :
  exists c As, chunk_new (ex_os 8 BASE) 0 (4 * MB) = Ret (Ok c) /\ chunk_ok c As /\
    forall i o, ~ live_block c As i o.
Proof.
  pose proof (chunk_new_ok (ex_os 8 BASE) 0 (4 * MB)) as H. cbn [memory_chunk_new] in H.
  destruct H as (c & k & He & _ & Hok & _);
    [vm_compute; discriminate | vm_compute; split; reflexivity | vm_compute; reflexivity |].
  exists c, (replicate (Z.to_nat (2 ^ k)) ∅). split_and!; [exact He | done |].
  intros i o (s & l & A & _ & [-> _]%lookup_replicate & Hl & _). by rewrite lookup_empty in Hl.
Qed.

Lemma chunk_alloc_complete_witness :
  exists c c' r, chunk_new (ex_os 8 BASE) 0 (4 * MB) = Ret (Ok c) /\
    alloc_global (fun s => s =? 0) 7 c 6 None = Ret (c', r).
Proof.
  destruct ex_chunk as (c & As & He & Hok & _). assert (Ho : 0 <= 6) by lia.
  destruct (chunk_alloc_complete c As Hok (fun s => s =? 0) 7 6 Ho None) as (c' & r & Ha & _).
  exists c, c', r. split; [exact He | exact Ha].
Defined.

Lemma chunk_dealloc_strict_witness :
  exists c f, chunk_new (ex_os 8 BASE) 0 (4 * MB) = Ret (Ok c) /\ dealloc_global c 0 6 = Fault f.
Proof.
  destruct ex_chunk as (c & As & He & Hok & Hno).
  destruct (proj2 (chunk_dealloc_strict c As Hok 0 6 (Z.le_refl 0)) (Hno 0)) as [f Hf].
  exists c, f. split; [exact He | exact Hf].
Defined.

Lemma chunk_new_layout_witness :
  exists c k, chunk_new (ex_os 8 BASE) 3 (4 * MB) = Ret (Ok c) /\ 0 <= k < 63 /\ ck_id c = 3.
Proof.
  assert (H1 : default 1 (os_parallelism (ex_os 8 BASE)) <= 2 ^ 62) by (vm_compute; discriminate).
  assert (H2 : 0 < 4 * MB < 2 ^ 62) by (vm_compute; split; reflexivity).
  assert (H3 : (4 * MB) mod SLOT_SIZE = 0) by (vm_compute; reflexivity).
  pose proof (chunk_new_layout (ex_os 8 BASE) 3 (4 * MB) H1 H2 H3) as H.
  change (memory_chunk_new (ex_os 8 BASE) (4 * MB)) with
    (@Ok MemoryChunk BufError (mkMemory BASE (4 * MB))) in H.
  destruct H as (c & k & He & Hk & _ & Hid & _). exists c, k. split; [exact He |]. by split.
Defined.

(** ** Where the guarantee fails *)

(** A pool of 12 MB (what [UniformSlot] asks for three workers) on a machine
    with 24 CPUs is accepted, but its 32 shards have 96 slots each, no whole
    number of superblocks: the superblock that starts shard 1 (slot 96) is taken
    for the superblock of slots 64 to 127, and a client gets slot 64 although
    another client holds the 32 slots from 64 on. *)
Theorem misaligned_shards_overlap :
  let env h := mkEnv (ex_os 24 BASE) (fun _ _ => false) h in
  let wB := request (request (new_world (ex_os 24 BASE) 100 (12 * MB), []) 0 (env 0) 100 5 None)
              1 (env 1) 100 0 None in
  (0%nat, 64, 5) ∈ wB.2 /\ (0%nat, 64, 0) ∈ wB.2.
Proof.
  cbv zeta. split; apply (bool_decide_eq_true_1 (_ ∈ _)); vm_compute; reflexivity.
Qed.

(** A pool is dropped, and a new one is created at the same address; the thread
    cache still has the entry of the old one. *)
Definition replaced_pool (w : world) (os : Os) (pid total : Z) : world :=
  match pool_new os (wd_store w) total with
  | Ret (st, Ok p) => mkWorld st (<[pid := p]> (wd_pools w)) (wd_caches w)
  | _ => w
  end.

(** The thread cache identifies a pool by its address only: after a pool was
    dropped and another one was created at its address, a request to the new
    pool is served from memory of the old pool.  The buffer carries the chunk id
    0, which in the new pool names another region of memory. *)
Theorem reused_pool_address :
  let w := replaced_pool ex_wB.1 (ex_os 8 (2 * BASE)) 100 (4 * MB) in
  exists res p c, wd_pools w !! 100 = Some p /\ gp_chunks p = [1%nat] /\
    wd_store w !! 1%nat = Some c /\ mc_ptr (ck_memory c) = 2 * BASE /\
    mc_size (ck_memory c) = 4 * MB /\
    pool_alloc_slots (ex_env 8 (2 * BASE)) (wd_store w) (cache_of w 0) p 100 0 None = Ret res /\
    ar_res res = Some (0, 1, BASE + SLOT_SIZE).
Proof.
  cbv zeta.
  destruct (pool_alloc_slots (ex_env 8 (2 * BASE))
    (wd_store (replaced_pool ex_wB.1 (ex_os 8 (2 * BASE)) 100 (4 * MB)))
    (cache_of (replaced_pool ex_wB.1 (ex_os 8 (2 * BASE)) 100 (4 * MB)) 0)
    (mkPool [1%nat] false) 100 0 None) as [res |] eqn:E; [| vm_compute in E; discriminate].
  eexists res, (mkPool [1%nat] false), _.
  split; [vm_compute; reflexivity |]. split; [reflexivity |].
  split; [vm_compute; reflexivity |]. split; [reflexivity |]. split; [vm_compute; reflexivity |].
  split; [exact E |]. vm_compute in E. injection E as <-. vm_compute. reflexivity.
Qed.

(** A request of 2048 slots (8 MB) can never be served by a chunk of 64 MB,
    whose 16 shards have 1024 slots each, yet each such request adds a chunk to
    the pool before it fails. *)
Theorem oversized_request_grows_pool :
  let env := ex_env 8 BASE in
  let w := (request (request (new_world (ex_os 8 BASE) 100 (4 * MB), []) 0 env 100 11 None)
              0 env 100 11 None) in
  w.2 = [] /\ (gp_chunks <$> wd_pools w.1 !! 100) = Some [0%nat; 1%nat; 2%nat].
Proof. cbv zeta. split; vm_compute; reflexivity. Qed.
