(* ===== verification/Handle.v ===== *)
(** * veloq-buf [buffer/handle.rs], [buffer/handle/range.rs], [buffer/common.rs]

    The buffer handle: the packed 64-bit context that says where a buffer came
    from, lengths and capacities, borrowed views, the ranges handed to the I/O
    drivers, and buffers from the system heap. *)

From stdpp Require Import strings.
From S2P Require Import Prelude BitSet IntrusiveList Units Buddy Superblock Chunk Pool.

(** ** The packed context

    Fields from the least significant bit: slot index (32), order (8), chunk id
    (16), reserved (7), pool kind (1). *)

Inductive PoolKind : Type := SlotBased | Heap.

#[global] Instance pool_kind_eq_dec : EqDecision PoolKind.
Proof. solve_decision. Defined.

Definition kind_bit (k : PoolKind) : Z := match k with SlotBased => 0 | Heap => 1 end.
Definition kind_of_bit (b : Z) : PoolKind := if b =? 0 then SlotBased else Heap.

(** The bits [lo .. lo + w) of a word, and the word with them replaced. *)
Definition bits_get (x lo w : Z) : Z := Z.land (Z.shiftr x lo) (2 ^ w - 1).
Definition bits_set (x lo w v : Z) : Z :=
  Z.lor (Z.land x (bitnot U64 (Z.shiftl (2 ^ w - 1) lo))) (Z.shiftl v lo).

Definition ctx_slot_idx (ctx : Z) : Z := bits_get ctx 0 32.
Definition ctx_order (ctx : Z) : Z := bits_get ctx 32 8.
Definition ctx_chunk_id (ctx : Z) : Z := bits_get ctx 40 16.
Definition ctx_pool_kind (ctx : Z) : PoolKind := kind_of_bit (bits_get ctx 63 1).
Definition ctx_set_pool_kind (ctx : Z) (k : PoolKind) : Z := bits_set ctx 63 1 (kind_bit k).

(** [PackedContext::from_slot_parts]. *)
Definition from_slot_parts (slot_idx order chunk_id : Z) (k : PoolKind) : Z :=
  Z.lor (Z.lor (Z.lor slot_idx (Z.shiftl order 32)) (Z.shiftl chunk_id 40))
    (Z.shiftl (kind_bit k) 63).

Definition PAYLOAD_MASK : Z := 2 ^ 56 - 1.
Definition raw_payload (ctx : Z) : Z := Z.land ctx PAYLOAD_MASK.
Definition slot_chunk_id (ctx : Z) : Z := ctx_chunk_id ctx.

(** ** [FixedBuf] *)

Record FixedBuf : Type := mkBuf {
  fb_ptr : Z;
  fb_pool_data : Z;
  fb_context : Z;
  fb_len : Z;
  fb_cap : Z
}.

Definition buf_pool_kind (b : FixedBuf) : PoolKind := ctx_pool_kind (fb_context b).
Definition context_raw (b : FixedBuf) : Z := raw_payload (fb_context b).
Definition buf_capacity (b : FixedBuf) : Z := fb_cap b.
Definition buf_length (b : FixedBuf) : Z := fb_len b.
Definition buf_is_empty (b : FixedBuf) : bool := fb_len b =? 0.

Definition from_parts (ptr pool_data ctx len cap : Z) : outcome FixedBuf :=
  _ ← assert (len <=? cap);
  _ ← assert (cap <=? U32_MAX);
  Ret (mkBuf ptr pool_data ctx (wrap U32 len) (wrap U32 cap)).

Definition fixed_buf_new (ptr cap pool_data : Z) (k : PoolKind) (context : Z) : outcome FixedBuf :=
  _ ← assert (cap <=? U32_MAX);
  from_parts ptr pool_data (ctx_set_pool_kind context k) cap cap.

Definition set_len (b : FixedBuf) (len : Z) : outcome FixedBuf :=
  _ ← assert (len <=? buf_capacity b);
  _ ← assert (len <=? U32_MAX);
  Ret (mkBuf (fb_ptr b) (fb_pool_data b) (fb_context b) (wrap U32 len) (fb_cap b)).

(** The memory a slice covers: address and length. *)
Definition as_slice (b : FixedBuf) : Z * Z := (fb_ptr b, fb_len b).
Definition spare_capacity (b : FixedBuf) : Z * Z := (fb_ptr b, buf_capacity b).

(** ** Views *)

Record FixedBufView : Type := mkView { vw_buf : FixedBuf; vw_start : Z; vw_end : Z }.

Definition view_new (b : FixedBuf) (start end_ : Z) : outcome FixedBufView :=
  _ ← assert (start <=? end_);
  _ ← assert (end_ <=? buf_length b);
  Ret (mkView b start end_).

Definition view_len (v : FixedBufView) : outcome Z := arith USIZE_BITS (vw_end v - vw_start v).
Definition view_as_slice (v : FixedBufView) : outcome (Z * Z) :=
  len ← view_len v; Ret (fb_ptr (vw_buf v) + vw_start v, len).

(** ** Ranges for I/O *)

Inductive BufIoRangeBound : Type := Capacity | Length.
Inductive BufIoRangeErrorKind : Type := OffsetOutOfBounds | LengthExceedsU32.

Definition bound_name (b : BufIoRangeBound) : string :=
  match b with Capacity => "capacity" | Length => "length" end.

Record BufIoRangeError : Type := mkRangeError {
  re_kind : BufIoRangeErrorKind;
  re_buffer_offset : Z;
  re_buffer_length : Z;
  re_buffer_capacity : Z;
  re_buffer_bound : Z;
  re_buffer_bound_kind : BufIoRangeBound;
  re_submission_length : Z
}.

Definition range_error_note (e : BufIoRangeError) : string :=
  match re_kind e with
  | OffsetOutOfBounds =>
      match re_buffer_bound_kind e with
      | Capacity => "buffer offset exceeds buffer capacity"
      | Length => "buffer offset exceeds buffer length"
      end
  | LengthExceedsU32 => "buffer I/O length exceeds u32"
  end.

Definition checked_buf_io_len (b : FixedBuf) (buf_offset : Z) (bound_kind : BufIoRangeBound)
    : outcome (result Z BufIoRangeError) :=
  let bound := match bound_kind with Capacity => buf_capacity b | Length => buf_length b end in
  if bound <? buf_offset then
    Ret (Err (mkRangeError OffsetOutOfBounds buf_offset (buf_length b) (buf_capacity b) bound
                bound_kind 0))
  else
    submission_length ← arith USIZE_BITS (bound - buf_offset);
    match checked U32 submission_length with
    | Some n => Ret (Ok n)
    | None =>
        Ret (Err (mkRangeError LengthExceedsU32 buf_offset (buf_length b) (buf_capacity b) bound
                    bound_kind submission_length))
    end.

Definition checked_range (b : FixedBuf) (buf_offset : Z) (bound_kind : BufIoRangeBound)
    : outcome (result (Z * Z) BufIoRangeError) :=
  r ← checked_buf_io_len b buf_offset bound_kind;
  match r with
  | Ok len => Ret (Ok (fb_ptr b + buf_offset, len))
  | Err e => Ret (Err e)
  end.
Definition checked_read_range (b : FixedBuf) (buf_offset : Z) :=
  checked_range b buf_offset Capacity.
Definition checked_write_range (b : FixedBuf) (buf_offset : Z) :=
  checked_range b buf_offset Length.

(** ** Buffers from the system heap

    The first page holds the control block with the size of the mapping. *)

Definition HEADER : Z := 4096.

(** The counter of cookies and the control blocks, by address. *)
Record HeapState : Type := mkHeap { hp_cookie : Z; hp_control : gmap Z Z }.

Definition alloc_heap (os_alloc : Z -> result Z SystemError) (h : HeapState) (len : Z)
    : outcome (HeapState * result FixedBuf BufError) :=
  match checked USIZE_BITS (len + HEADER) with
  | None => Ret (h, Err BufOom)
  | Some total_size =>
      match os_alloc total_size with
      | Err e => Ret (h, Err (BufSystem e))
      | Ok base_ptr =>
          let cookie := Z.land (hp_cookie h) PAYLOAD_MASK in
          let h := mkHeap (wrapping_add U64 (hp_cookie h) 1) (<[base_ptr := total_size]> (hp_control h)) in
          b ← fixed_buf_new (base_ptr + HEADER) len base_ptr Heap cookie;
          Ret (h, Ok b)
      end
  end.

(** [heap_dealloc]: the region to unmap, read from the control block. *)
Definition heap_dealloc (h : HeapState) (pool_data : Z) : outcome (HeapState * (Z * Z)) :=
  match hp_control h !! pool_data with
  | Some total_size => Ret (mkHeap (hp_cookie h) (delete pool_data (hp_control h)), (pool_data, total_size))
  | None => Fault InvalidPointer
  end.

(** ** Regions *)

Record RegionInfo : Type := mkRegion {
  ri_pool_kind : PoolKind;
  ri_id : Z;
  ri_offset : Z;
  ri_cookie : Z
}.

Definition heap_resolve_region_info (b : FixedBuf) : RegionInfo :=
  let base := fb_pool_data b + HEADER in
  mkRegion Heap 0 (saturating_sub (fb_ptr b) base) (context_raw b).

Record BufferRegion : Type := mkBufferRegion { br_id : Z; br_ptr : Z; br_len : Z }.

Definition region_from_chunk_info (i : ChunkInfo) : option BufferRegion :=
  match page_aligned_new (ci_len i) with
  | Some len => Some (mkBufferRegion (ci_id i) (ci_ptr i) len)
  | None => None
  end.

(** ** [NotU16]: a [u16] other than a sentinel, stored as a non-zero number *)

Definition not_u16_new (S n : Z) : option Z :=
  let inner := Z.lxor n S in if inner =? 0 then None else Some inner.
Definition not_u16_get (S inner : Z) : Z := Z.lxor inner S.

(** ** The fields of the context do not interfere *)

Lemma bits_get_testbit x lo w j :
  0 <= lo -> 0 <= w -> 0 <= j ->
  Z.testbit (bits_get x lo w) j = Z.testbit x (j + lo) && (j <? w).
Proof.
  intros. unfold bits_get. rewrite Z.land_spec, Z.shiftr_spec by lia. f_equal.
  rewrite Z.sub_1_r, <- Z.ones_equiv. by apply Z.testbit_ones_nonneg.
Qed.

Lemma shiftl_testbit x k j : 0 <= j -> 0 <= k ->
  Z.testbit (Z.shiftl x k) j = if j <? k then false else Z.testbit x (j - k).
Proof.
  intros. rewrite Z.shiftl_spec by lia. destruct (Z.ltb_spec j k); [| done].
  by rewrite Z.testbit_neg_r by lia.
Qed.

(** Bits at and above the width of a value are clear. *)
Lemma high_bits x w j : 0 <= x < 2 ^ w -> 0 <= w -> w <= j -> Z.testbit x j = false.
Proof. intros. by apply (testbit_range x w). Qed.

Lemma kind_bit_range k : 0 <= kind_bit k < 2 ^ 1.
Proof. destruct k; cbn; lia. Qed.

Lemma set_kind_testbit ctx k j :
  0 <= ctx < 2 ^ 64 -> 0 <= j ->
  Z.testbit (ctx_set_pool_kind ctx k) j =
    if j =? 63 then Z.testbit (kind_bit k) 0 else Z.testbit ctx j.
Proof.
  intros Hc Hj. unfold ctx_set_pool_kind, bits_set.
  change (Z.shiftl (2 ^ 1 - 1) 63) with (2 ^ 63).
  rewrite Z.lor_spec, (testbit_clearbit U64) by (unfold U64; done || lia).
  rewrite shiftl_testbit by lia. pose proof (kind_bit_range k) as Hk.
  destruct (Z.eqb_spec j 63) as [-> | Hne].
  - cbn [Z.ltb Z.compare Z.sub]. by rewrite andb_false_r.
  - replace (63 =? j) with false by (symmetry; apply Z.eqb_neq; lia). rewrite andb_true_r.
    destruct (Z.ltb_spec j 63); [by rewrite orb_false_r |].
    rewrite (high_bits (kind_bit k) 1) by lia. by rewrite orb_false_r.
Qed.

Section Fields.
Variables slot order cid : Z.
Hypotheses (Hs : 0 <= slot < 2 ^ 32) (Ho : 0 <= order < 2 ^ 8) (Hc : 0 <= cid < 2 ^ 16).

Lemma parts_testbit k j : 0 <= j ->
  Z.testbit (from_slot_parts slot order cid k) j =
    if j <? 32 then Z.testbit slot j
    else if j <? 40 then Z.testbit order (j - 32)
    else if j <? 56 then Z.testbit cid (j - 40)
    else if j =? 63 then Z.testbit (kind_bit k) 0 else false.
Proof.
  intros Hj. unfold from_slot_parts. rewrite !Z.lor_spec, !shiftl_testbit by lia.
  pose proof (kind_bit_range k) as Hk.
  destruct (Z.ltb_spec j 32), (Z.ltb_spec j 40), (Z.ltb_spec j 56), (Z.ltb_spec j 63),
    (Z.eqb_spec j 63); try lia;
    rewrite ?(high_bits slot 32), ?(high_bits order 8), ?(high_bits cid 16), ?(high_bits (kind_bit k) 1)
      by lia; rewrite ?orb_false_r, ?orb_false_l; try done.
  by subst j.
Qed.

Lemma parts_range k : 0 <= from_slot_parts slot order cid k < 2 ^ 64.
Proof.
  assert (H0 : 0 <= from_slot_parts slot order cid k).
  { unfold from_slot_parts. rewrite !Z.lor_nonneg, !Z.shiftl_nonneg.
    pose proof (kind_bit_range k). lia. }
  split; [done |]. apply bits_bounded; [lia | done |]. intros j Hj.
  rewrite parts_testbit by lia. repeat case_ltb; done || lia.
Qed.

(** The payload that [drop] reads is the one [alloc_mem] packed, whatever kind
    was set in between. *)
Lemma context_fields k k' :
  let ctx := ctx_set_pool_kind (from_slot_parts slot order cid k) k' in
  ctx_pool_kind ctx = k' /\ ctx_slot_idx (raw_payload ctx) = slot /\
  ctx_order (raw_payload ctx) = order /\ slot_chunk_id (raw_payload ctx) = cid.
Proof.
  intros ctx. pose proof (parts_range k) as Hr.
  assert (Hctx : forall j, 0 <= j -> Z.testbit ctx j =
    if j =? 63 then Z.testbit (kind_bit k') 0
    else Z.testbit (from_slot_parts slot order cid k) j)
    by (intros; by apply set_kind_testbit).
  assert (Hpay : forall j, 0 <= j -> Z.testbit (raw_payload ctx) j = Z.testbit ctx j && (j <? 56)).
  { intros j Hj. unfold raw_payload, PAYLOAD_MASK. rewrite Z.land_spec. f_equal.
    rewrite Z.sub_1_r, <- Z.ones_equiv. by apply Z.testbit_ones_nonneg. }
  split_and!.
  - unfold ctx_pool_kind. assert (E : bits_get ctx 63 1 = kind_bit k'); [| by rewrite E; destruct k'].
    apply Z.bits_inj'. intros j Hj. rewrite bits_get_testbit, Hctx by lia.
    pose proof (kind_bit_range k'). destruct (Z.ltb_spec j 1) as [Hj1 | Hj1].
    + replace j with 0 by lia. by rewrite andb_true_r.
    + rewrite andb_false_r. symmetry. apply (high_bits _ 1); lia.
  - apply Z.bits_inj'. intros j Hj. unfold ctx_slot_idx. rewrite bits_get_testbit, Hpay, Hctx, parts_testbit by lia.
    rewrite Z.add_0_r. destruct (Z.ltb_spec j 32).
    + repeat case_ltb; try lia. by rewrite !andb_true_r.
    + rewrite andb_false_r. symmetry. apply (high_bits _ 32); lia.
  - apply Z.bits_inj'. intros j Hj. unfold ctx_order. rewrite bits_get_testbit, Hpay, Hctx, parts_testbit by lia.
    destruct (Z.ltb_spec j 8).
    + repeat case_ltb; try lia. rewrite !andb_true_r. f_equal. lia.
    + rewrite andb_false_r. symmetry. apply (high_bits _ 8); lia.
  - apply Z.bits_inj'. intros j Hj. unfold slot_chunk_id, ctx_chunk_id.
    rewrite bits_get_testbit, Hpay, Hctx, parts_testbit by lia.
    destruct (Z.ltb_spec j 16).
    + repeat case_ltb; try lia. rewrite !andb_true_r. f_equal. lia.
    + rewrite andb_false_r. symmetry. apply (high_bits _ 16); lia.
Qed.

End Fields.

(** ** Buffers stay in their capacity *)

Definition buf_ok (b : FixedBuf) : Prop := 0 <= fb_len b <= fb_cap b /\ fb_cap b <= U32_MAX.

Lemma fixed_buf_new_ok ptr cap pool_data k context :
  0 <= cap <= U32_MAX ->
  fixed_buf_new ptr cap pool_data k context =
    Ret (mkBuf ptr pool_data (ctx_set_pool_kind context k) cap cap).
Proof.
  intros Hc. unfold fixed_buf_new, from_parts. destruct (Z.leb_spec cap U32_MAX); [| lia].
  destruct (Z.leb_spec cap cap); [| lia]. cbn [assert]. rewrite !bind_ret.
  unfold U32_MAX in *. by rewrite wrap_small by (unfold U32; lia).
Qed.

(** Ranges for I/O: for a buffer with length within capacity, a read range at
    an offset is the rest of the capacity and a write range the rest of the
    data, the range lies inside the buffer, the only error is an offset past
    the bound (the length always fits [u32]), and it reports the offset, the
    bound and the sizes. *)
Theorem io_range_exact (b : FixedBuf) (Hb : buf_ok b) (off : Z) (Hoff : 0 <= off)
    (kind : BufIoRangeBound) :
  let bound := match kind with Capacity => fb_cap b | Length => fb_len b end in
  checked_range b off kind =
    Ret (if bound <? off
         then Err (mkRangeError OffsetOutOfBounds off (fb_len b) (fb_cap b) bound kind 0)
         else Ok (fb_ptr b + off, bound - off)) /\
  (off <= bound -> fb_ptr b <= fb_ptr b + off /\
     fb_ptr b + off + (bound - off) <= fb_ptr b + fb_cap b).
Proof.
  intros bound. destruct Hb as [Hl Hc]. unfold U32_MAX in Hc.
  assert (Hbound : 0 <= bound <= fb_cap b) by (unfold bound; destruct kind; lia).
  split; [| lia]. unfold checked_range, checked_buf_io_len, buf_capacity, buf_length. fold bound.
  destruct (Z.ltb_spec bound off); [done |].
  rewrite arith_ok, bind_ret by (unfold USIZE_BITS; lia).
  unfold checked. destruct (Z.leb_spec 0 (bound - off)); [| lia].
  destruct (Z.ltb_spec (bound - off) (2 ^ U32)); [done | unfold U32 in *; lia].
Qed.

(** A buffer's length never exceeds its capacity: [set_len] accepts exactly
    the lengths up to the capacity and keeps address, capacity and context, and
    a view is created exactly for a range inside the current length, whose
    slice then lies inside the data. *)
Theorem set_len_and_views_bounded (b : FixedBuf) (Hb : buf_ok b) (len start end_ : Z)
    (Hlen : 0 <= len) (Hstart : 0 <= start) :
  (set_len b len = Fault AssertFailed <-> fb_cap b < len) /\
  (forall b', set_len b len = Ret b' -> buf_ok b' /\ fb_len b' = len /\
     fb_ptr b' = fb_ptr b /\ fb_cap b' = fb_cap b /\ fb_context b' = fb_context b) /\
  (view_new b start end_ = Fault AssertFailed <-> ~ (start <= end_ <= fb_len b)) /\
  (forall v, view_new b start end_ = Ret v ->
     view_as_slice v = Ret (fb_ptr b + start, end_ - start) /\
     fb_ptr b <= fb_ptr b + start /\ fb_ptr b + end_ <= fb_ptr b + fb_len b).
Proof.
  destruct Hb as [Hl Hc]. unfold U32_MAX in Hc. unfold set_len, view_new, buf_capacity, buf_length, buf_ok, U32_MAX.
  destruct (Z.leb_spec len (fb_cap b)), (Z.leb_spec start end_), (Z.leb_spec end_ (fb_len b));
    cbn [assert]; rewrite ?bind_ret.
  all: try (destruct (Z.leb_spec len (2 ^ 32 - 1)); [| lia]); cbn [assert]; rewrite ?bind_ret.
  all: split_and!; try (split; intros; done || lia); intros x Hx; try discriminate Hx;
    injection Hx as <-; cbn; rewrite ?wrap_small by (unfold U32; lia); try (split_and!; done || lia).
  all: unfold view_as_slice, view_len; cbn [vw_end vw_start vw_buf];
    rewrite arith_ok, bind_ret by (unfold USIZE_BITS; lia); split_and!; done || lia.
Qed.

(** A heap buffer: the payload lies in the mapping after its header page, the
    handle has the kind, the cookie and the region it was created with, and
    dropping it unmaps exactly the region that was mapped. *)
Theorem heap_buffer_roundtrip (os_alloc : Z -> result Z SystemError) (h : HeapState) (len base : Z)
    (Hlen : 0 < len <= U32_MAX) (Hos : os_alloc (len + HEADER) = Ok base)
    (Hcookie : 0 <= hp_cookie h < 2 ^ 56) :
  exists h' b, alloc_heap os_alloc h len = Ret (h', Ok b) /\
    buf_ok b /\ buf_pool_kind b = Heap /\ fb_ptr b = base + HEADER /\ fb_cap b = len /\
    heap_resolve_region_info b = mkRegion Heap 0 0 (hp_cookie h) /\
    fb_ptr b + fb_cap b = base + (len + HEADER) /\
    heap_dealloc h' (fb_pool_data b) =
      Ret (mkHeap (hp_cookie h') (delete base (hp_control h)), (base, len + HEADER)).
Proof.
  unfold U32_MAX in Hlen. unfold alloc_heap, checked.
  destruct (Z.leb_spec 0 (len + HEADER)); [| unfold HEADER in *; lia].
  destruct (Z.ltb_spec (len + HEADER) (2 ^ USIZE_BITS)); [| unfold HEADER, USIZE_BITS in *; lia].
  cbn [andb]. rewrite Hos, fixed_buf_new_ok, bind_ret by (unfold U32_MAX; lia).
  eexists _, _. split; [reflexivity |]. cbn [fb_ptr fb_cap fb_pool_data].
  set (cookie := Z.land (hp_cookie h) PAYLOAD_MASK).
  assert (Ec : cookie = hp_cookie h).
  { unfold cookie, PAYLOAD_MASK. rewrite land_mask by lia. apply Z.mod_small. lia. }
  assert (Hpay : raw_payload (ctx_set_pool_kind cookie Heap) = hp_cookie h).
  { rewrite Ec. apply Z.bits_inj'. intros j Hj. unfold raw_payload, PAYLOAD_MASK.
    rewrite Z.land_spec, set_kind_testbit by lia.
    rewrite Z.sub_1_r, <- Z.ones_equiv, Z.testbit_ones_nonneg by lia.
    destruct (Z.ltb_spec j 56); [| rewrite andb_false_r; symmetry; apply (high_bits _ 56); lia].
    destruct (Z.eqb_spec j 63); [lia | by rewrite andb_true_r]. }
  split_and!; try done; try (unfold buf_ok, U32_MAX; cbn; lia); try lia.
  - unfold buf_pool_kind, ctx_pool_kind. cbn [fb_context].
    assert (E : bits_get (ctx_set_pool_kind cookie Heap) 63 1 = 1); [| by rewrite E].
    apply Z.bits_inj'. intros j Hj. rewrite bits_get_testbit, set_kind_testbit by lia.
    destruct (Z.ltb_spec j 1); [replace j with 0 by lia; done |].
    rewrite andb_false_r. symmetry. apply (high_bits _ 1); lia.
  - unfold heap_resolve_region_info, context_raw. cbn [fb_context fb_ptr fb_pool_data].
    rewrite Hpay. f_equal. unfold saturating_sub. lia.
  - unfold heap_dealloc. cbn [hp_control hp_cookie]. rewrite lookup_insert_eq.
    by rewrite delete_insert_eq.
Qed.

(** [NotU16] rejects exactly its sentinel, stores a non-zero number of 16
    bits, and gives back the number it was made from. *)
Theorem not_u16_roundtrip (S n : Z) (HS : 0 <= S < 2 ^ 16) (Hn : 0 <= n < 2 ^ 16) :
  match not_u16_new S n with
  | Some inner => n <> S /\ 0 < inner < 2 ^ 16 /\ not_u16_get S inner = n
  | None => n = S
  end.
Proof.
  unfold not_u16_new, not_u16_get. destruct (Z.eqb_spec (Z.lxor n S) 0) as [E | E].
  - by apply Z.lxor_eq.
  - split_and!.
    + intros ->. by rewrite Z.lxor_nilpotent in E.
    + assert (0 <= Z.lxor n S) by (apply Z.lxor_nonneg; lia). lia.
    + assert (0 <= Z.lxor n S) by (apply Z.lxor_nonneg; lia).
      apply bits_bounded; [lia | done |]. intros j Hj. rewrite Z.lxor_spec.
      rewrite (high_bits n 16), (high_bits S 16) by lia. done.
    + by rewrite Z.lxor_assoc, Z.lxor_nilpotent, Z.lxor_0_r.
Qed.

(** ** Witnesses *)

Definition ex_buf : FixedBuf := mkBuf 8192 0 0 100 4096.

Lemma ex_buf_ok : buf_ok ex_buf.
Proof. unfold buf_ok, U32_MAX. cbn. lia. Qed.

Lemma io_range_exact_witness : checked_read_range ex_buf 96 = Ret (Ok (8288, 4000)).
Proof.
  assert (H : 0 <= 96) by lia.
  exact (proj1 (io_range_exact ex_buf ex_buf_ok 96 H Capacity)).
Defined.

Lemma set_len_and_views_bounded_witness : set_len ex_buf 5000 = Fault AssertFailed.
Proof.
  assert (H1 : 0 <= 5000) by lia. assert (H2 : 0 <= 0) by lia.
  apply (set_len_and_views_bounded ex_buf ex_buf_ok 5000 0 0 H1 H2). cbn. lia.
Defined.

Lemma heap_buffer_roundtrip_witness :
  exists h' b, alloc_heap (fun _ => Ok 65536) (mkHeap 1 ∅) 10000 = Ret (h', Ok b).
Proof.
  assert (H1 : 0 < 10000 <= U32_MAX) by (unfold U32_MAX; lia).
  assert (H2 : 0 <= hp_cookie (mkHeap 1 ∅) < 2 ^ 56) by (cbn; lia).
  destruct (heap_buffer_roundtrip (fun _ => Ok 65536) (mkHeap 1 ∅) 10000 65536 H1 eq_refl H2)
    as (h' & b & He & _).
  exists h', b. exact He.
Defined.

Lemma not_u16_roundtrip_witness : not_u16_get 65535 65534 = 1.
Proof.
  assert (H1 : 0 <= 65535 < 2 ^ 16) by lia. assert (H2 : 0 <= 1 < 2 ^ 16) by lia.
  pose proof (not_u16_roundtrip 65535 1 H1 H2) as H.
  change (not_u16_new 65535 1) with (Some 65534) in H. apply H.
Defined.
