(* ===== verification/SlotPool.v ===== *)
(** * veloq-buf [buffer/slot_pool.rs]: buffers from the slot pool

    Requests by size, the handle they produce, its drop, and the reference
    counts: a handle keeps its pool alive with one strong count of the [Arc],
    which threads take and return in batches through a thread-local credit. *)

From S2P Require Import Prelude BitSet IntrusiveList Units Buddy Superblock Chunk Ownership Pool PoolSafety PoolTheorems Handle.

(** ** Orders *)

(** [SlotBasedPool::calculate_order]; [next_power_of_two] panics on overflow. *)
Definition calculate_order (size : Z) : outcome Z :=
  if size <=? 4096 then Ret 0 else
  needed ← arith USIZE_BITS (next_power_of_two size);
  Ret (Z.log2 needed - 12).

(** ** Reference counts *)

Definition ARC_CACHE_LIMIT : Z := 64.
Definition PREFETCH_COUNT : Z := 32.

(** The pool the thread has credits for ([0]: null), and how many. *)
Record PoolCacheInner : Type := mkCredit { pc_ptr : Z; pc_balance : Z }.
Definition pool_cache_new : PoolCacheInner := mkCredit 0 0.

(** Strong counts by pool address; [Arc::increment_strong_count] and
    [decrement_strong_count], [n] times. *)
Notation counts := (gmap Z Z).
Definition count_of (m : counts) (p : Z) : Z := default 0 (m !! p).
Definition count_add (m : counts) (p n : Z) : counts := <[p := count_of m p + n]> m.

(** Returning all credits: on a change of pool, and when the thread exits. *)
Definition flush_credit (strong : counts) (inner : PoolCacheInner) : counts :=
  if (0 <? pc_balance inner) && negb (pc_ptr inner =? 0)
  then count_add strong (pc_ptr inner) (- pc_balance inner) else strong.

(** [SlotBasedPool::pool_data]: one strong count for the new handle. *)
Definition pool_data (strong : counts) (inner : PoolCacheInner) (current : Z)
    : outcome (counts * PoolCacheInner * Z) :=
  if (pc_ptr inner =? current) && (0 <? pc_balance inner) then
    balance ← arith U32 (pc_balance inner - 1);
    Ret (strong, mkCredit (pc_ptr inner) balance, current)
  else
    let strong := if pc_ptr inner =? current then strong else flush_credit strong inner in
    let strong := count_add strong current PREFETCH_COUNT in
    Ret (strong, mkCredit current (PREFETCH_COUNT - 1), current).

(** The reference of a dropped handle is kept as a credit, when the thread has
    room for it. *)
Definition try_recycle (inner : PoolCacheInner) (ptr : Z) : outcome (option PoolCacheInner) :=
  if (pc_ptr inner =? ptr) && (pc_balance inner <? ARC_CACHE_LIMIT) then
    balance ← arith U32 (pc_balance inner + 1);
    Ret (Some (mkCredit (pc_ptr inner) balance))
  else Ret None.

(** [Drop for ThreadLocalPoolCache]. *)
Definition pool_cache_drop (strong : counts) (inner : PoolCacheInner) : counts :=
  flush_credit strong inner.

(** ** Allocation and drop of handles

    The state one thread sees: the chunks, its slot cache, the pool (at address
    [ss_pool_id]), the strong counts, its credits, and the system heap. *)

Record SlotPoolState : Type := mkSlot {
  ss_store : store;
  ss_cache : LocalCache;
  ss_pool : GlobalSlotPool;
  ss_pool_id : Z;
  ss_strong : counts;
  ss_credit : PoolCacheInner;
  ss_heap : HeapState
}.

Inductive AllocResult : Type :=
  | Allocated (ptr cap context : Z)
  | Failed.

Definition alloc_mem (env : Env) (s : SlotPoolState) (seed : option Z) (size : Z)
    : outcome (SlotPoolState * AllocResult) :=
  order ← calculate_order size;
  res ← pool_alloc_slots env (ss_store s) (ss_cache s) (ss_pool s) (ss_pool_id s) order seed;
  let s := mkSlot (ar_store res) (ar_cache res) (ar_pool res) (ss_pool_id s) (ss_strong s)
             (ss_credit s) (ss_heap s) in
  match ar_res res with
  | Some (chunk_id, slot_idx, ptr) =>
      capacity ← capacity_of order;
      let context := from_slot_parts (wrap U32 slot_idx) (wrap U8 order) chunk_id SlotBased in
      Ret (s, Allocated ptr capacity context)
  | None => Ret (s, Failed)
  end.

(** [AllocResult::into_buf]. *)
Definition into_buf (s : SlotPoolState) (a : AllocResult) : outcome (SlotPoolState * option FixedBuf) :=
  match a with
  | Allocated ptr cap context =>
      '(strong, credit, data) ← pool_data (ss_strong s) (ss_credit s) (ss_pool_id s);
      b ← fixed_buf_new ptr cap data SlotBased context;
      Ret (mkSlot (ss_store s) (ss_cache s) (ss_pool s) (ss_pool_id s) strong credit (ss_heap s), Some b)
  | Failed => Ret (s, None)
  end.

(** [SlotBasedPool::alloc]: the pool first, then the system heap. *)
Definition slot_alloc (env : Env) (os_alloc : Z -> result Z SystemError) (s : SlotPoolState)
    (seed : option Z) (len : Z) : outcome (SlotPoolState * option FixedBuf) :=
  '(s, a) ← alloc_mem env s seed len;
  '(s, o) ← into_buf s a;
  match o with
  | Some b => Ret (s, Some b)
  | None =>
      '(h, r) ← alloc_heap os_alloc (ss_heap s) len;
      let s := mkSlot (ss_store s) (ss_cache s) (ss_pool s) (ss_pool_id s) (ss_strong s)
                 (ss_credit s) h in
      Ret (s, match r with Ok b => Some b | Err _ => None end)
  end.

Definition slot_based_dealloc (s : SlotPoolState) (data context : Z) : outcome SlotPoolState :=
  let chunk_id := slot_chunk_id context in
  let order := ctx_order context in
  let slot_idx := ctx_slot_idx context in
  recycled ← try_recycle (ss_credit s) data;
  if negb (data =? ss_pool_id s) then Fault InvalidPointer else   (* [&*raw_ptr], [Arc::from_raw] *)
  match recycled with
  | Some credit =>
      st ← pool_dealloc_slots (ss_store s) (ss_pool s) chunk_id slot_idx order;
      Ret (mkSlot st (ss_cache s) (ss_pool s) (ss_pool_id s) (ss_strong s) credit (ss_heap s))
  | None =>
      st ← pool_dealloc_slots (ss_store s) (ss_pool s) chunk_id slot_idx order;
      Ret (mkSlot st (ss_cache s) (ss_pool s) (ss_pool_id s) (count_add (ss_strong s) data (-1))
             (ss_credit s) (ss_heap s))
  end.

(** [Drop for FixedBuf]. *)
Definition fixed_buf_drop (s : SlotPoolState) (b : FixedBuf) : outcome SlotPoolState :=
  match buf_pool_kind b with
  | SlotBased => slot_based_dealloc s (fb_pool_data b) (context_raw b)
  | Heap =>
      '(h, _) ← heap_dealloc (ss_heap s) (fb_pool_data b);
      Ret (mkSlot (ss_store s) (ss_cache s) (ss_pool s) (ss_pool_id s) (ss_strong s) (ss_credit s) h)
  end.

Definition slot_based_resolve_region_info (s : SlotPoolState) (b : FixedBuf) : outcome RegionInfo :=
  let chunk_id := slot_chunk_id (context_raw b) in
  o ← chunk_info (ss_store s) (ss_pool s) chunk_id;
  i ← expect o;
  Ret (mkRegion SlotBased chunk_id (saturating_sub (fb_ptr b) (ci_ptr i)) 0).

Definition resolve_region_info (s : SlotPoolState) (b : FixedBuf) : outcome RegionInfo :=
  match buf_pool_kind b with
  | SlotBased => slot_based_resolve_region_info s b
  | Heap => Ret (heap_resolve_region_info b)
  end.

(** ** The topology of the runtime *)

(** [UniformSlot::init]: 4 MB times the multiplier for each worker. *)
Definition uniform_total (multiplier worker_count : Z) : outcome Z :=
  a ← arith USIZE_BITS (multiplier * MIN_THREAD_MEMORY);
  b ← arith USIZE_BITS (a * 2);
  arith USIZE_BITS (b * worker_count).

Definition uniform_init (os : Os) (st : store) (multiplier worker_count : Z)
    : outcome (store * result GlobalSlotPool BufError) :=
  total ← uniform_total multiplier worker_count;
  pool_new os st total.

(** The regions [UniformSlot::build] registers with the driver. *)
Fixpoint regions_of (infos : list ChunkInfo) : result (list BufferRegion) BufError :=
  match infos with
  | [] => Ok []
  | i :: infos =>
      match region_from_chunk_info i with
      | None => Err (PageUnaligned (ci_len i))
      | Some r =>
          match regions_of infos with
          | Ok rs => Ok (r :: rs)
          | Err e => Err e
          end
      end
  end.

Definition uniform_build (st : store) (p : GlobalSlotPool)
    (register : list BufferRegion -> result (list Z) BufError) (worker_idx : Z)
    : outcome (result (option Z) BufError) :=
  infos ← chunk_infos st (gp_chunks p);
  match regions_of infos with
  | Err e => Ret (Err e)
  | Ok regions =>
      match register regions with
      | Err e => Ret (Err e)
      | Ok _ => Ret (Ok (Some worker_idx))   (* [with_seed(pool, worker_idx)] *)
      end
  end.

(** ** The order is the least that fits *)

(** The order computed for a size is the least whose block holds the size. *)
Theorem calculate_order_least (size : Z) (Hs : 1 <= size <= 2 ^ 63) :
  exists o, calculate_order size = Ret o /\ 0 <= o /\ size <= 2 ^ o * SLOT_SIZE /\
    forall o', 0 <= o' -> size <= 2 ^ o' * SLOT_SIZE -> o <= o'.
Proof.
  unfold calculate_order, SLOT_SIZE. change 4096 with (2 ^ 12).
  destruct (Z.leb_spec size (2 ^ 12)) as [Hle | Hgt].
  - exists 0. split_and!; lia || done.
  - unfold next_power_of_two. destruct (Z.leb_spec size 1); [lia |].
    set (l := Z.log2_up size). pose proof (Z.log2_up_spec size ltac:(lia)) as [Hlo Hhi]. fold l in Hlo, Hhi.
    assert (Hl12 : 12 < l).
    { apply Z.nle_gt. intros Hle. assert (2 ^ l <= 2 ^ 12) by (apply Z.pow_le_mono_r; lia). lia. }
    assert (Hl63 : l <= 63).
    { unfold l. rewrite <- (Z.log2_up_pow2 63) by lia. apply Z.log2_up_le_mono. lia. }
    assert (2 ^ l <= 2 ^ 63) by (apply Z.pow_le_mono_r; lia).
    rewrite arith_ok, bind_ret by (unfold USIZE_BITS; lia). rewrite Z.log2_pow2 by lia.
    exists (l - 12). rewrite <- Z.pow_add_r by lia. replace (l - 12 + 12) with l by lia.
    split_and!; [done | lia | lia |]. intros o' Ho' Hfit. rewrite <- Z.pow_add_r in Hfit by lia.
    assert (l <= o' + 12); [| lia]. apply Z.log2_up_le_pow2; lia.
Qed.

(** ** A handle and its drop *)

(** A buffer served by the pool is freed as it was allocated: its capacity
    holds the request, its region is its slot in its chunk, and dropping the
    handle frees in the pool exactly the chunk, slot and order allocated, after
    a trip through the 64-bit context. *)
Theorem slot_buffer_roundtrip (env : Env) os_alloc (s : SlotPoolState) (seed : option Z) (len order : Z)
    (res : alloc_result) (cid slot ptr : Z)
    (Hlen : calculate_order len = Ret order) (Ho : 0 <= order <= MAX_ORDER)
    (Hres : pool_alloc_slots env (ss_store s) (ss_cache s) (ss_pool s) (ss_pool_id s) order seed = Ret res)
    (Hsome : ar_res res = Some (cid, slot, ptr))
    (Hcid : 0 <= cid < 2 ^ 16) (Hslot : 0 <= slot < 2 ^ 32)
    (Hbal : 0 <= pc_balance (ss_credit s) < 2 ^ 32) :
  exists s' b, slot_alloc env os_alloc s seed len = Ret (s', Some b) /\
    buf_ok b /\ fb_cap b = 2 ^ order * SLOT_SIZE /\ len <= fb_cap b /\ fb_ptr b = ptr /\
    buf_pool_kind b = SlotBased /\ fb_pool_data b = ss_pool_id s /\
    ss_store s' = ar_store res /\ ss_pool s' = ar_pool res /\
    (forall st, pool_dealloc_slots (ss_store s') (ss_pool s') cid slot order = Ret st ->
       exists s'', fixed_buf_drop s' b = Ret s'' /\ ss_store s'' = st) /\
    (forall a c, gp_chunks (ar_pool res) !! Z.to_nat cid = Some a -> ar_store res !! a = Some c ->
       ptr = mc_ptr (ck_memory c) + slot_offset slot ->
       resolve_region_info s' b = Ret (mkRegion SlotBased cid (slot_offset slot) 0)).
Proof.
  assert (Hcap : 2 ^ order * SLOT_SIZE <= 2 ^ 30).
  { unfold SLOT_SIZE, MAX_ORDER in *. assert (2 ^ order <= 2 ^ 18) by (apply Z.pow_le_mono_r; lia). lia. }
  assert (H2o : 0 < 2 ^ order) by (apply pow2_pos; lia).
  assert (Hfit : len <= 2 ^ order * SLOT_SIZE).
  { revert Hlen. unfold calculate_order, SLOT_SIZE in *. destruct (Z.leb_spec len 4096) as [Hle | Hgt].
    - intros [= <-]. lia.
    - unfold arith, checked, next_power_of_two. destruct (Z.leb_spec len 1); [lia |].
      destruct (_ && _); [| done]. cbn. intros [= <-].
      pose proof (Z.log2_up_spec len ltac:(lia)) as [_ Hhi]. rewrite Z.log2_pow2 in * by apply Z.log2_up_nonneg.
      change 4096 with (2 ^ 12). rewrite <- Z.pow_add_r by lia. by replace (Z.log2_up len - 12 + 12) with (Z.log2_up len) by lia. }
  unfold slot_alloc, alloc_mem. rewrite Hlen, bind_ret, Hres, bind_ret, Hsome.
  unfold capacity_of. rewrite Z.shiftl_1_l.
  rewrite arith_ok, !bind_ret by (unfold USIZE_BITS, SLOT_SIZE in *; lia).
  rewrite (wrap_small U32 slot), (wrap_small U8 order)
    by (unfold U32, U8, MAX_ORDER in *; lia).
  cbn [into_buf ss_strong ss_credit ss_pool_id ss_store ss_cache ss_pool ss_heap].
  assert (Hpd : exists strong credit, pool_data (ss_strong s) (ss_credit s) (ss_pool_id s) =
    Ret (strong, credit, ss_pool_id s) /\ 0 <= pc_balance credit < 2 ^ 32 - 1).
  { unfold pool_data. destruct (Z.eqb_spec (pc_ptr (ss_credit s)) (ss_pool_id s)) as [E | E],
      (Z.ltb_spec 0 (pc_balance (ss_credit s))); cbn [andb]; rewrite ?arith_ok by (unfold U32; lia);
      eexists _, _; (split; [reflexivity |]); cbn; unfold PREFETCH_COUNT; lia. }
  destruct Hpd as (strong & credit & Hpd & Hcb). rewrite Hpd, bind_ret.
  rewrite fixed_buf_new_ok, bind_ret by (unfold U32_MAX, SLOT_SIZE in *; lia).
  rewrite bind_ret.
  eexists _, _. split; [reflexivity |].
  cbn [fb_cap fb_ptr fb_pool_data ss_store ss_pool ss_pool_id ss_strong ss_credit].
  destruct (context_fields slot order cid Hslot ltac:(unfold MAX_ORDER in *; lia) Hcid SlotBased SlotBased)
    as (Hk & Hs1 & Ho1 & Hc1).
  split_and!; try done.
  - unfold buf_ok, U32_MAX. cbn. unfold SLOT_SIZE in *. lia.
  - intros st Hst. unfold fixed_buf_drop, buf_pool_kind. cbn [fb_context fb_pool_data]. rewrite Hk.
    unfold slot_based_dealloc, context_raw. cbn [fb_context ss_strong ss_credit ss_pool_id ss_store ss_pool].
    rewrite Hs1, Ho1, Hc1, Z.eqb_refl.
    unfold try_recycle. destruct (_ && _); [rewrite arith_ok, bind_ret by (unfold U32; lia) |];
      rewrite bind_ret; cbn [negb]; rewrite Hst; by eexists.
  - intros a c Ha Hc ->. unfold resolve_region_info, buf_pool_kind. cbn [fb_context]. rewrite Hk.
    unfold slot_based_resolve_region_info, context_raw, chunk_info, chunk_get.
    cbn [fb_context ss_store ss_pool]. rewrite Hc1, Ha, Hc, !bind_ret. cbn [expect]. rewrite bind_ret.
    cbn. do 2 f_equal. unfold saturating_sub, slot_offset, SLOT_SIZE. lia.
Qed.

(** ** The pool outlives its buffers

    The strong counts under any sequence of operations of the threads: new,
    cloned and dropped pool handles, buffers allocated ([pool_data]) and
    dropped ([slot_based_dealloc]), threads started and ended. A count of zero
    frees the pool, and its address may then be used for another one. *)

Record rc_state : Type := mkRc {
  rc_strong : counts;
  rc_handles : counts;                  (* pool handles ([Arc]s), by pool *)
  rc_bufs : counts;                     (* buffers, by the pool they refer to *)
  rc_credits : list PoolCacheInner      (* one per thread *)
}.

(** Dropping a buffer of the pool at [p], as far as the counts are concerned. *)
Definition release_ref (strong : counts) (inner : PoolCacheInner) (p : Z)
    : outcome (counts * PoolCacheInner) :=
  recycled ← try_recycle inner p;
  Ret (match recycled with
       | Some inner => (strong, inner)
       | None => (count_add strong p (-1), inner)
       end).

Inductive rc_step : rc_state -> rc_state -> Prop :=
  | rc_new s h b cs p : p <> 0 -> count_of s p = 0 ->
      rc_step (mkRc s h b cs) (mkRc (count_add s p 1) (count_add h p 1) b cs)
  | rc_clone s h b cs p : 0 < count_of h p ->
      rc_step (mkRc s h b cs) (mkRc (count_add s p 1) (count_add h p 1) b cs)
  | rc_drop s h b cs p : 0 < count_of h p ->
      rc_step (mkRc s h b cs) (mkRc (count_add s p (-1)) (count_add h p (-1)) b cs)
  | rc_alloc s h b cs t c p s' c' d : 0 < count_of h p -> cs !! t = Some c ->
      pool_data s c p = Ret (s', c', d) ->
      rc_step (mkRc s h b cs) (mkRc s' h (count_add b d 1) (<[t := c']> cs))
  | rc_free s h b cs t c p s' c' : 0 < count_of b p -> cs !! t = Some c ->
      release_ref s c p = Ret (s', c') ->
      rc_step (mkRc s h b cs) (mkRc s' h (count_add b p (-1)) (<[t := c']> cs))
  | rc_spawn s h b cs :
      rc_step (mkRc s h b cs) (mkRc s h b (cs ++ [pool_cache_new]))
  | rc_exit s h b cs t c : cs !! t = Some c ->
      rc_step (mkRc s h b cs) (mkRc (pool_cache_drop s c) h b (<[t := pool_cache_new]> cs)).

Definition rc_reach : rc_state -> Prop := rtc rc_step (mkRc ∅ ∅ ∅ []).

Definition credit (p : Z) (c : PoolCacheInner) : Z := if pc_ptr c =? p then pc_balance c else 0.
Definition credits (p : Z) (cs : list PoolCacheInner) : Z := foldr (fun c n => credit p c + n) 0 cs.

(** Every strong count is accounted for. *)
Record rc_inv (r : rc_state) : Prop := {
  rc_count : forall p, p <> 0 ->
    count_of (rc_strong r) p =
    count_of (rc_handles r) p + count_of (rc_bufs r) p + credits p (rc_credits r);
  rc_handles_pos : forall p, 0 <= count_of (rc_handles r) p;
  rc_bufs_pos : forall p, 0 <= count_of (rc_bufs r) p;
  rc_null : count_of (rc_handles r) 0 = 0 /\ count_of (rc_bufs r) 0 = 0;
  rc_balance : Forall (fun c => 0 <= pc_balance c <= ARC_CACHE_LIMIT) (rc_credits r)
}.

Lemma count_of_add m p n q : count_of (count_add m p n) q = count_of m q + (if p =? q then n else 0).
Proof.
  unfold count_add, count_of at 1. destruct (Z.eqb_spec p q) as [-> | Hne].
  - by rewrite lookup_insert_eq.
  - rewrite lookup_insert_ne by done. unfold count_of. lia.
Qed.

Lemma credits_insert p cs t c c' :
  cs !! t = Some c -> credits p (<[t := c']> cs) = credits p cs - credit p c + credit p c'.
Proof.
  revert t. induction cs as [| x cs IH]; intros [| t] Ht; try done.
  - injection Ht as ->. cbn. lia.
  - change (credit p x + credits p (<[t := c']> cs) = credit p x + credits p cs - credit p c + credit p c').
    rewrite (IH t Ht). lia.
Qed.

Lemma credits_app p cs c : credits p (cs ++ [c]) = credits p cs + credit p c.
Proof. unfold credits. induction cs as [| x cs IH]; cbn; [lia | rewrite IH; lia]. Qed.

Lemma credits_nonneg p cs :
  Forall (fun c => 0 <= pc_balance c <= ARC_CACHE_LIMIT) cs -> 0 <= credits p cs.
Proof.
  induction 1 as [| c cs Hc _ IH]; [done |]. unfold credits in *. cbn. unfold credit at 1. destruct (_ =? _); lia.
Qed.

(** What one acquisition does: a count for the buffer, the rest are credits. *)
Lemma pool_data_spec s c p :
  0 <= pc_balance c <= ARC_CACHE_LIMIT -> p <> 0 ->
  exists s' c', pool_data s c p = Ret (s', c', p) /\ 0 <= pc_balance c' <= ARC_CACHE_LIMIT /\
    forall q, q <> 0 ->
      count_of s' q = count_of s q - credit q c + credit q c' + (if p =? q then 1 else 0).
Proof.
  intros Hb Hp. unfold pool_data, ARC_CACHE_LIMIT, PREFETCH_COUNT in *.
  destruct (Z.eqb_spec (pc_ptr c) p) as [E | E], (Z.ltb_spec 0 (pc_balance c)) as [Hpos | Hz]; cbn [andb].
  1: rewrite arith_ok by (unfold U32; lia).
  all: eexists _, _; split; [reflexivity |]; cbn [pc_balance]; split; [lia |].
  all: intros q Hq; unfold credit; cbn [pc_ptr pc_balance]; unfold flush_credit;
    rewrite ?count_of_add.
  1, 2: rewrite ?E; destruct (Z.eqb_spec p q); lia.
  all: destruct (Z.ltb_spec 0 (pc_balance c)); cbn [andb];
    destruct (Z.eqb_spec (pc_ptr c) 0); cbn [negb]; rewrite ?count_of_add;
    destruct (Z.eqb_spec p q), (Z.eqb_spec (pc_ptr c) q); lia.
Qed.

Lemma release_ref_spec s c p :
  0 <= pc_balance c <= ARC_CACHE_LIMIT ->
  exists s' c', release_ref s c p = Ret (s', c') /\ 0 <= pc_balance c' <= ARC_CACHE_LIMIT /\
    forall q, count_of s' q = count_of s q - credit q c + credit q c' - (if p =? q then 1 else 0).
Proof.
  intros Hb. unfold release_ref, try_recycle.
  destruct (Z.eqb_spec (pc_ptr c) p) as [E | E],
    (Z.ltb_spec (pc_balance c) ARC_CACHE_LIMIT) as [Hl | Hl]; cbn [andb];
    rewrite ?arith_ok, ?bind_ret by (unfold U32, ARC_CACHE_LIMIT in *; lia); rewrite ?bind_ret;
    eexists _, _; (split; [reflexivity |]); cbn [pc_balance]; (split; [lia |]);
    intros q; unfold credit; cbn [pc_ptr pc_balance]; rewrite ?count_of_add, ?E;
    destruct (Z.eqb_spec p q); lia.
Qed.

Lemma flush_spec s c q :
  0 <= pc_balance c -> q <> 0 -> count_of (pool_cache_drop s c) q = count_of s q - credit q c.
Proof.
  intros Hb Hq. unfold pool_cache_drop, flush_credit, credit.
  destruct (Z.ltb_spec 0 (pc_balance c)), (Z.eqb_spec (pc_ptr c) 0); cbn [andb negb];
    rewrite ?count_of_add; destruct (Z.eqb_spec (pc_ptr c) q); lia.
Qed.

Lemma credit_new p : credit p pool_cache_new = 0.
Proof. unfold credit. by destruct (_ =? _). Qed.

Lemma rc_step_inv r r' : rc_inv r -> rc_step r r' -> rc_inv r'.
Proof.
  intros [Hc Hh Hb [Hn1 Hn2] Hbal] Hs. destruct Hs; cbn [rc_strong rc_handles rc_bufs rc_credits] in *.
  1-3: assert (Hp : p <> 0) by (done || (intros ->; lia));
    split; cbn [rc_strong rc_handles rc_bufs rc_credits]; [| | done | | done].
  1, 4, 7: intros q Hq; rewrite !count_of_add, (Hc q Hq); destruct (_ =? _); lia.
  1, 3, 5: intros q; rewrite count_of_add; specialize (Hh q); destruct (Z.eqb_spec p q); subst; lia.
  1-3: rewrite count_of_add; destruct (Z.eqb_spec p 0); [done | lia].
  - assert (Hp : p <> 0) by (intros ->; lia).
    destruct (pool_data_spec s c p (Forall_lookup_1 _ _ _ _ Hbal H0) Hp) as (s1 & c1 & E & Hb1 & Hq).
    rewrite E in H1. injection H1 as <- <- <-.
    split; cbn [rc_strong rc_handles rc_bufs rc_credits]; try done.
    + intros q Hq0. rewrite Hq, (credits_insert _ _ _ _ _ H0), count_of_add, (Hc q Hq0) by done. lia.
    + intros q. rewrite count_of_add. specialize (Hb q). destruct (_ =? _); lia.
    + split; [done |]. rewrite count_of_add. destruct (Z.eqb_spec p 0); [done | lia].
    + by apply Forall_insert.
  - assert (Hp : p <> 0) by (intros ->; lia).
    destruct (release_ref_spec s c p (Forall_lookup_1 _ _ _ _ Hbal H0)) as (s1 & c1 & E & Hb1 & Hq).
    rewrite E in H1. injection H1 as <- <-.
    split; cbn [rc_strong rc_handles rc_bufs rc_credits]; try done.
    + intros q Hq0. rewrite Hq, (credits_insert _ _ _ _ _ H0), count_of_add, (Hc q Hq0).
      destruct (_ =? _); lia.
    + intros q. rewrite count_of_add. specialize (Hb q). destruct (Z.eqb_spec p q); subst; lia.
    + split; [done |]. rewrite count_of_add. destruct (Z.eqb_spec p 0); [done | lia].
    + by apply Forall_insert.
  - split; cbn [rc_strong rc_handles rc_bufs rc_credits]; try done.
    + intros q Hq. rewrite credits_app, credit_new, (Hc q Hq). lia.
    + apply Forall_app. split; [done |]. repeat constructor; cbn; unfold ARC_CACHE_LIMIT; lia.
  - pose proof (Forall_lookup_1 _ _ _ _ Hbal H) as Hbc. cbn in Hbc.
    split; cbn [rc_strong rc_handles rc_bufs rc_credits]; try done.
    + intros q Hq. rewrite flush_spec, (credits_insert _ _ _ _ _ H), credit_new, (Hc q Hq) by lia. lia.
    + apply Forall_insert; [done |]. cbn. unfold ARC_CACHE_LIMIT. lia.
Qed.

Lemma rc_reach_inv r : rc_reach r -> rc_inv r.
Proof.
  intros Hr. unfold rc_reach in Hr.
  enough (forall r0, rtc rc_step r0 r -> rc_inv r0 -> rc_inv r) as H.
  { apply (H _ Hr). split; cbn; done. }
  clear Hr. induction 1 as [| r0 r1 r2 Hs _ IH]; [done |]. eauto using rc_step_inv.
Qed.

(** C28 However threads create, clone and drop pool handles, allocate and drop
    buffers, start and end, the strong count of a pool is exactly its handles,
    its buffers and the threads' credits for it.  So a pool is alive as long as
    a buffer refers to it, a credit never outlives the pool it counts for, no
    reference leaks (with handles and buffers gone, a thread holds back at most
    [ARC_CACHE_LIMIT]), and neither operation ever overflows the balance. *)
Theorem pool_outlives_buffers (r : rc_state) (Hreach : rc_reach r) :
  (forall p, p <> 0 -> count_of (rc_strong r) p =
     count_of (rc_handles r) p + count_of (rc_bufs r) p + credits p (rc_credits r)) /\
  (forall p, 0 < count_of (rc_bufs r) p -> 0 < count_of (rc_strong r) p) /\
  (forall p, 0 <= credits p (rc_credits r) <= ARC_CACHE_LIMIT * Z.of_nat (length (rc_credits r))) /\
  (forall p t c, 0 < count_of (rc_handles r) p -> rc_credits r !! t = Some c ->
     exists s' c', pool_data (rc_strong r) c p = Ret (s', c', p)) /\
  (forall p t c, 0 < count_of (rc_bufs r) p -> rc_credits r !! t = Some c ->
     exists s' c', release_ref (rc_strong r) c p = Ret (s', c')).
Proof.
  destruct (rc_reach_inv r Hreach) as [Hc Hh Hb [Hn1 Hn2] Hbal].
  split_and!.
  - done.
  - intros p Hp. assert (p <> 0) by (intros ->; lia).
    specialize (Hc p ltac:(done)). specialize (Hh p). pose proof (credits_nonneg p _ Hbal). lia.
  - intros p. pose proof (credits_nonneg p _ Hbal) as Hnn. split; [done |]. clear Hnn Hc.
    induction Hbal as [| c cs Hc _ IH]; [done |].
    change (credits p (c :: cs)) with (credit p c + credits p cs). cbn [length].
    assert (credit p c <= ARC_CACHE_LIMIT) by (unfold credit, ARC_CACHE_LIMIT in *; destruct (_ =? _); lia).
    lia.
  - intros p t c Hp Ht. assert (p <> 0) by (intros ->; lia).
    destruct (pool_data_spec (rc_strong r) c p (Forall_lookup_1 _ _ _ _ Hbal Ht))
      as (s' & c' & E & _); eauto.
  - intros p t c Hp Ht.
    destruct (release_ref_spec (rc_strong r) c p (Forall_lookup_1 _ _ _ _ Hbal Ht))
      as (s' & c' & E & _); eauto.
Qed.

(** ** Witnesses *)

Lemma calculate_order_least_witness :
  calculate_order 5000 = Ret 1 /\ exists o, calculate_order 5000 = Ret o /\ 5000 <= 2 ^ o * SLOT_SIZE.
Proof.
  split; [reflexivity |].
  assert (H : 1 <= 5000 <= 2 ^ 63) by lia.
  destruct (calculate_order_least 5000 H) as (o & He & _ & Hf & _). exists o. by split.
Defined.

(** The second thread of the example pool asks for 5000 bytes. *)
Definition ex_slot : SlotPoolState :=
  mkSlot (wd_store ex_wB.1) (cache_of ex_wB.1 1) ex_p 100 (count_add ∅ 100 1) pool_cache_new
    (mkHeap 1 ∅).

Lemma slot_buffer_roundtrip_witness :
  exists s' b, slot_alloc (ex_env 8 BASE) (fun _ => Err (Os_err 12)) ex_slot None 5000 = Ret (s', Some b) /\
    fb_cap b = 8192.
Proof.
  destruct (pool_alloc_slots (ex_env 8 BASE) (ss_store ex_slot) (ss_cache ex_slot) (ss_pool ex_slot)
    (ss_pool_id ex_slot) 1 None) as [res |] eqn:E; [| vm_compute in E; discriminate].
  assert (H1 : calculate_order 5000 = Ret 1) by (vm_compute; reflexivity).
  assert (H2 : 0 <= 1 <= MAX_ORDER) by (vm_compute; split; discriminate).
  assert (H3 : ar_res res = Some (0, 64, BASE + 64 * SLOT_SIZE)).
  { vm_compute in E. injection E as <-. vm_compute. reflexivity. }
  assert (H4 : 0 <= 0 < 2 ^ 16) by (vm_compute; split; [discriminate | reflexivity]).
  assert (H5 : 0 <= 64 < 2 ^ 32) by (vm_compute; split; [discriminate | reflexivity]).
  assert (H6 : 0 <= pc_balance (ss_credit ex_slot) < 2 ^ 32)
    by (vm_compute; split; [discriminate | reflexivity]).
  destruct (slot_buffer_roundtrip (ex_env 8 BASE) (fun _ => Err (Os_err 12)) ex_slot None 5000 1 res
    0 64 (BASE + 64 * SLOT_SIZE) H1 H2 E H3 H4 H5 H6) as (s' & b & Ha & _ & Hc & _).
  exists s', b. split; [exact Ha | exact Hc].
Defined.

(** A pool, a thread, and a buffer of it; then the last handle is dropped. *)
Lemma pool_outlives_buffers_witness :
  exists r, rc_reach r /\ count_of (rc_handles r) 100 = 0 /\ 0 < count_of (rc_strong r) 100.
Proof.
  pose (s2 := count_add (count_add ∅ 100 1) 100 32).
  pose (r := mkRc (count_add s2 100 (-1)) (count_add (count_add ∅ 100 1) 100 (-1))
               (count_add ∅ 100 1) [mkCredit 100 31]).
  assert (Hr : rc_reach r).
  { eapply rtc_l; [apply (rc_new _ _ _ _ 100); [discriminate | reflexivity] |].
    eapply rtc_l; [apply rc_spawn |].
    eapply rtc_l; [apply (rc_alloc _ _ _ _ 0 pool_cache_new 100 s2 (mkCredit 100 31) 100);
      [reflexivity | reflexivity | reflexivity] |].
    eapply rtc_l; [apply (rc_drop _ _ _ _ 100); reflexivity |]. apply rtc_refl. }
  exists r. split; [exact Hr |]. split; [reflexivity |].
  apply (proj1 (proj2 (pool_outlives_buffers r Hr)) 100). reflexivity.
Defined.
