(* ===== verification/Token.v ===== *)
(** * veloq-driver-core: tokens and completion events
      ([driver/completion/token.rs], [event.rs])

    An operation is named by its slot index and a 32-bit generation
    ([OpToken]); what travels through the kernel is a 64-bit [CompletionToken]
    in which the generation has 15 bits and the top bit marks tokens that the
    driver uses for itself (its waker, its cancel requests). *)

From S2P Require Import Prelude.

(** ** Tokens *)

Definition INDEX_LIMIT : Z := Z.shiftl 1 48.
Definition CONTROL_TOKEN_FLAG : Z := Z.shiftl 1 63.
Definition CONTROL_TOKEN_KIND_SHIFT : Z := 48.
Definition CONTROL_TOKEN_ID_SHIFT : Z := 32.

Inductive CompletionControlKind : Type := KindWaker | KindCancel.

(** [kind as u16] *)
Definition control_kind_raw (k : CompletionControlKind) : Z :=
  match k with KindWaker => 1 | KindCancel => 2 end.

Definition control_kind_from_raw (raw : Z) : option CompletionControlKind :=
  if raw =? 1 then Some KindWaker else if raw =? 2 then Some KindCancel else None.

Record OpToken : Type := mkToken { tk_index : Z; tk_generation : Z }.

#[global] Instance op_token_eq_dec : EqDecision OpToken.
Proof. solve_decision. Defined.

Inductive OpTokenError : Type := ReservedControlIndex (index : Z).

Definition token_try_new (index generation : Z) : result OpToken OpTokenError :=
  if INDEX_LIMIT <=? index then Err (ReservedControlIndex index) else Ok (mkToken index generation).

Definition from_registry_parts (index generation : Z) : result OpToken OpTokenError :=
  token_try_new index generation.

Definition token_parts (t : OpToken) : Z * Z := (tk_index t, tk_generation t).

Definition CancelCompletionId : Type := Z.

(** [CompletionToken]: a [u64]. *)
Definition CompletionToken : Type := Z.

Inductive CompletionTokenClass : Type :=
  | UserClass (t : OpToken)
  | ControlClass (kind : CompletionControlKind) (id : Z)
  | UnknownControlClass (kind id : Z).

Inductive CompletionTokenError : Type :=
  | ReservedControlKind (kind : Z)
  | ControlKindOverflow (kind : Z).

Definition token_user (t : OpToken) : CompletionToken :=
  let (index, generation) := token_parts t in
  Z.lor (Z.shiftl (Z.land generation 0x7fff) 48) (Z.land index 0x0000ffffffffffff).

Definition token_from_raw (raw : Z) : CompletionToken := raw.
Definition token_raw (t : CompletionToken) : Z := t.

Definition control_bits (kind id : Z) : CompletionToken :=
  Z.lor (Z.lor CONTROL_TOKEN_FLAG (Z.shiftl kind CONTROL_TOKEN_KIND_SHIFT))
        (Z.shiftl id CONTROL_TOKEN_ID_SHIFT).

Definition encode_control (kind id : Z) : result CompletionToken CompletionTokenError :=
  if 0x7fff <? kind then Err (ControlKindOverflow kind) else
  if (kind =? control_kind_raw KindWaker) || (kind =? control_kind_raw KindCancel)
  then Err (ReservedControlKind kind)
  else Ok (control_bits kind id).

Definition token_internal (kind : CompletionControlKind) (id : Z) : CompletionToken :=
  control_bits (Z.land (control_kind_raw kind) 0x7fff) id.
Definition token_waker (id : Z) : CompletionToken := token_internal KindWaker id.
Definition token_cancel (id : CancelCompletionId) : CompletionToken := token_internal KindCancel id.

Definition classify_control (t : CompletionToken) : CompletionTokenClass :=
  let kind := wrap U16 (Z.land (Z.shiftr t CONTROL_TOKEN_KIND_SHIFT) 0x7fff) in
  let id := wrap U16 (Z.land (Z.shiftr t CONTROL_TOKEN_ID_SHIFT) 0xffff) in
  match control_kind_from_raw kind with
  | Some kind => ControlClass kind id
  | None => UnknownControlClass kind id
  end.

Definition classify (t : CompletionToken) : CompletionTokenClass :=
  if Z.land t CONTROL_TOKEN_FLAG =? 0 then
    let raw_index := Z.land t 0x0000ffffffffffff in
    if raw_index <=? USIZE_MAX then
      let generation := wrap U32 (Z.land (Z.shiftr t 48) 0x7fff) in
      match token_try_new raw_index generation with
      | Ok token => UserClass token
      | Err _ => classify_control t
      end
    else classify_control t
  else classify_control t.

Definition completion_op_token (t : CompletionToken) : option OpToken :=
  match classify t with UserClass token => Some token | _ => None end.

Record SubmitTokenContext : Type := mkSubmitContext {
  sc_op_token : OpToken;
  sc_completion_token : CompletionToken
}.
Definition submit_context_user (t : OpToken) : SubmitTokenContext := mkSubmitContext t (token_user t).

(** ** Events *)

Inductive CompletionBackend : Type := Core | Backend (id : Z).

Record RawCompletion : Type := mkRaw {
  rw_backend : CompletionBackend;
  rw_token : CompletionToken;
  rw_res : Z;
  rw_flags : Z
}.

Record CompletionEvent : Type := mkEvent { ev_token : CompletionToken; ev_res : Z; ev_flags : Z }.
Definition raw_event (r : RawCompletion) : CompletionEvent := mkEvent (rw_token r) (rw_res r) (rw_flags r).

Record UserCompletionEvent : Type := mkUserEvent { ue_token : OpToken; ue_raw : RawCompletion }.

Record UserCompletionEventMismatch : Type := mkMismatch {
  mm_token : OpToken;
  mm_expected : CompletionToken;
  mm_actual : CompletionToken
}.

Definition user_event_try_new (t : OpToken) (raw : RawCompletion)
    : result UserCompletionEvent UserCompletionEventMismatch :=
  let expected := token_user t in
  if negb (rw_token raw =? expected) then Err (mkMismatch t expected (rw_token raw))
  else Ok (mkUserEvent t raw).

Definition event_from_parts (backend : CompletionBackend) (t : OpToken) (res flags : Z)
    : UserCompletionEvent :=
  mkUserEvent t (mkRaw backend (token_user t) res flags).

(** [from_classified]; its [debug_assert_eq!] is [assert]ed. *)
Definition event_from_classified (t : OpToken) (raw : RawCompletion) : outcome UserCompletionEvent :=
  _ ← assert (rw_token raw =? token_user t);
  Ret (mkUserEvent t raw).

Definition ue_res (e : UserCompletionEvent) : Z := rw_res (ue_raw e).
Definition ue_flags (e : UserCompletionEvent) : Z := rw_flags (ue_raw e).
Definition ue_completion_token (e : UserCompletionEvent) : CompletionToken := rw_token (ue_raw e).

Inductive CompletionIdentity : Type :=
  | IdUser (t : OpToken)
  | IdWaker (id : Z)
  | IdCancel (id : CancelCompletionId)
  | IdUnknownControl (kind id : Z).

Inductive CompletionIdentitySource : Type :=
  | UserToken
  | ControlToken
  | SidecarTokenWithQueueKey (queue_key : Z).

Record CompletionEnvelope : Type := mkEnvelope {
  en_raw : RawCompletion;
  en_identity : CompletionIdentity;
  en_source : CompletionIdentitySource
}.

Definition envelope_from_raw (raw : RawCompletion) : CompletionEnvelope :=
  let (identity, source) :=
    match classify (rw_token raw) with
    | UserClass token => (IdUser token, UserToken)
    | ControlClass KindWaker id => (IdWaker id, ControlToken)
    | ControlClass KindCancel id => (IdCancel id, ControlToken)
    | UnknownControlClass kind id => (IdUnknownControl kind id, ControlToken)
    end in
  mkEnvelope raw identity source.

Definition envelope_from_raw_parts (backend : CompletionBackend) (raw_token res flags : Z)
    : CompletionEnvelope :=
  envelope_from_raw (mkRaw backend (token_from_raw raw_token) res flags).

Definition from_sidecar_user_token (backend : CompletionBackend) (t : OpToken)
    (queue_key res flags : Z) : CompletionEnvelope :=
  mkEnvelope (mkRaw backend (token_user t) res flags) (IdUser t) (SidecarTokenWithQueueKey queue_key).

Inductive CompletionDispatch : Type :=
  | DispatchUser (event : UserCompletionEvent)
  | DispatchWaker (id : Z) (raw : RawCompletion)
  | DispatchCancel (id : CancelCompletionId) (raw : RawCompletion)
  | DispatchUnknown (envelope : CompletionEnvelope).

Definition dispatch_envelope (e : CompletionEnvelope) : outcome CompletionDispatch :=
  match en_identity e with
  | IdUser token => event ← event_from_classified token (en_raw e); Ret (DispatchUser event)
  | IdWaker id => Ret (DispatchWaker id (en_raw e))
  | IdCancel id => Ret (DispatchCancel id (en_raw e))
  | IdUnknownControl _ _ => Ret (DispatchUnknown e)
  end.

(** ** The 64 bits *)

(** Disjoint fields: [or] is addition. *)
Lemma lor_shiftl_add (a b k : Z) : 0 <= k -> 0 <= b < 2 ^ k -> Z.lor (Z.shiftl a k) b = a * 2 ^ k + b.
Proof.
  intros Hk Hb. rewrite Z.shiftl_mul_pow2 by done.
  assert (Hz : Z.land (a * 2 ^ k) b = 0).
  { apply Z.bits_inj'. intros j Hj. rewrite Z.land_spec, Z.testbit_0_l.
    destruct (Z.ltb_spec j k).
    - by rewrite Z.mul_pow2_bits_low.
    - rewrite (testbit_range b k j) by lia. apply andb_false_r. }
  rewrite Z.add_nocarry_lxor by exact Hz. symmetry. by apply Z.lxor_lor.
Qed.

Lemma shiftr_add (a b k : Z) : 0 <= k -> 0 <= b < 2 ^ k -> Z.shiftr (a * 2 ^ k + b) k = a.
Proof.
  intros Hk Hb. rewrite Z.shiftr_div_pow2, Z.add_comm, Z.div_add by lia.
  rewrite Z.div_small by done. lia.
Qed.

Lemma mod_add (a b k : Z) : 0 <= k -> 0 <= b < 2 ^ k -> (a * 2 ^ k + b) mod 2 ^ k = b.
Proof. intros Hk Hb. rewrite Z.add_comm, Z.mod_add by lia. by apply Z.mod_small. Qed.

Lemma token_user_val t :
  0 <= tk_index t -> token_user t = (tk_generation t mod 2 ^ 15) * 2 ^ 48 + tk_index t mod 2 ^ 48.
Proof.
  intros Hi. unfold token_user, token_parts.
  change 0x7fff with (2 ^ 15 - 1). change 0x0000ffffffffffff with (2 ^ 48 - 1).
  rewrite !land_mask by lia. apply lor_shiftl_add; [lia |]. apply Z.mod_pos_bound. lia.
Qed.

Lemma flag_bit x : 0 <= x < 2 ^ 64 -> (Z.land x CONTROL_TOKEN_FLAG =? 0) = (x <? 2 ^ 63).
Proof.
  intros Hx. unfold CONTROL_TOKEN_FLAG. rewrite Z.shiftl_1_l.
  assert (Hd : x / 2 ^ 63 = if x <? 2 ^ 63 then 0 else 1).
  { destruct (Z.ltb_spec x (2 ^ 63)); [apply Z.div_small; lia |].
    symmetry. apply (Z.div_unique_pos x (2 ^ 63) 1 (x - 2 ^ 63)); lia. }
  assert (Hb : Z.testbit x 63 = negb (x <? 2 ^ 63)).
  { rewrite Z.testbit_eqb, Hd by lia. by destruct (x <? 2 ^ 63). }
  destruct (Z.eqb_spec (Z.land x (2 ^ 63)) 0) as [E | E].
  - assert (Z.testbit (Z.land x (2 ^ 63)) 63 = false) by (rewrite E; apply Z.testbit_0_l).
    rewrite Z.land_spec, Hb, testbit_pow2, Z.eqb_refl, andb_true_r in H by lia.
    by destruct (x <? 2 ^ 63).
  - destruct (Z.ltb_spec x (2 ^ 63)) as [Hlt | Hge]; [| done]. exfalso. apply E.
    apply Z.bits_inj'. intros j Hj. rewrite Z.land_spec, testbit_pow2, Z.testbit_0_l by lia.
    destruct (Z.eqb_spec 63 j) as [<- | Hne]; [by rewrite Hb | apply andb_false_r].
Qed.

Lemma classify_user_val g i :
  0 <= g < 2 ^ 15 -> 0 <= i < 2 ^ 48 -> classify (g * 2 ^ 48 + i) = UserClass (mkToken i g).
Proof.
  intros Hg Hi. assert (Hr : 0 <= g * 2 ^ 48 + i < 2 ^ 63) by nia.
  unfold classify. rewrite flag_bit by lia. rewrite (proj2 (Z.ltb_lt _ _)) by lia.
  change 0x0000ffffffffffff with (2 ^ 48 - 1). change 0x7fff with (2 ^ 15 - 1).
  rewrite !land_mask, mod_add by lia. rewrite (proj2 (Z.leb_le _ _)) by (unfold USIZE_MAX; lia).
  rewrite shiftr_add by lia. unfold token_try_new, INDEX_LIMIT. rewrite Z.shiftl_1_l.
  rewrite (proj2 (Z.leb_gt _ _)) by lia. rewrite Z.mod_small by lia.
  by rewrite wrap_small by (unfold U32; lia).
Qed.

Lemma control_bits_val kind id :
  0 <= kind < 2 ^ 15 -> 0 <= id < 2 ^ 16 ->
  control_bits kind id = ((2 ^ 15 + kind) * 2 ^ 16 + id) * 2 ^ 32.
Proof.
  intros Hk Hi. unfold control_bits, CONTROL_TOKEN_FLAG, CONTROL_TOKEN_KIND_SHIFT, CONTROL_TOKEN_ID_SHIFT.
  replace (Z.shiftl 1 63) with (Z.shiftl (Z.shiftl 1 15) 48) by reflexivity.
  rewrite <- Z.shiftl_lor. rewrite (lor_shiftl_add 1 kind 15) by lia.
  replace (Z.shiftl (1 * 2 ^ 15 + kind) 48) with (Z.shiftl (Z.shiftl (1 * 2 ^ 15 + kind) 16) 32)
    by (rewrite Z.shiftl_shiftl by lia; reflexivity).
  rewrite <- Z.shiftl_lor, lor_shiftl_add, Z.shiftl_mul_pow2 by lia. lia.
Qed.

Lemma classify_control_val kind id :
  0 <= kind < 2 ^ 15 -> 0 <= id < 2 ^ 16 ->
  classify (control_bits kind id) =
  match control_kind_from_raw kind with
  | Some k => ControlClass k id
  | None => UnknownControlClass kind id
  end.
Proof.
  intros Hk Hi. rewrite control_bits_val by done.
  set (x := ((2 ^ 15 + kind) * 2 ^ 16 + id) * 2 ^ 32).
  assert (Hx : 2 ^ 63 <= x < 2 ^ 64) by (unfold x; nia).
  unfold classify. rewrite flag_bit by lia. rewrite (proj2 (Z.ltb_ge _ _)) by lia.
  unfold classify_control, CONTROL_TOKEN_KIND_SHIFT, CONTROL_TOKEN_ID_SHIFT.
  assert (H48 : Z.shiftr x 48 = 2 ^ 15 + kind).
  { unfold x. replace (((2 ^ 15 + kind) * 2 ^ 16 + id) * 2 ^ 32)
      with ((2 ^ 15 + kind) * 2 ^ 48 + id * 2 ^ 32) by lia. apply shiftr_add; lia. }
  assert (H32 : Z.shiftr x 32 = (2 ^ 15 + kind) * 2 ^ 16 + id).
  { unfold x. rewrite <- (Z.add_0_r (_ * 2 ^ 32)). apply shiftr_add; lia. }
  rewrite H48, H32. change 0x7fff with (2 ^ 15 - 1). change 0xffff with (2 ^ 16 - 1).
  rewrite !land_mask, mod_add by lia.
  replace (2 ^ 15 + kind) with (1 * 2 ^ 15 + kind) by lia. rewrite mod_add by lia.
  by rewrite !wrap_small by (unfold U16; lia).
Qed.

(** Every 64-bit value without the flag is the token of some operation. *)
Lemma raw_token_user x :
  0 <= x < 2 ^ 63 -> exists g i, x = g * 2 ^ 48 + i /\ 0 <= g < 2 ^ 15 /\ 0 <= i < 2 ^ 48.
Proof.
  intros Hx. exists (x / 2 ^ 48), (x mod 2 ^ 48). split_and!.
  - pose proof (Z.div_mod x (2 ^ 48) ltac:(lia)). lia.
  - apply Z.div_pos; lia.
  - apply Z.div_lt_upper_bound; lia.
  - apply Z.mod_pos_bound. lia.
  - apply Z.mod_pos_bound. lia.
Qed.

Lemma dispatch_total raw :
  0 <= rw_token raw < 2 ^ 64 -> exists d, dispatch_envelope (envelope_from_raw raw) = Ret d.
Proof.
  intros Hr. unfold envelope_from_raw, dispatch_envelope.
  destruct (classify (rw_token raw)) as [t | [] id | kind id] eqn:E; cbn [en_identity en_raw]; eauto.
  unfold classify in E. rewrite flag_bit in E by done.
  destruct (Z.ltb_spec (rw_token raw) (2 ^ 63)) as [Hlt | Hge].
  2: { unfold classify_control in E. by destruct (control_kind_from_raw _). }
  destruct (raw_token_user (rw_token raw)) as (g & i & Hx & Hg & Hi); [lia |].
  pose proof (classify_user_val g i Hg Hi) as Hc. unfold classify in Hc.
  rewrite <- Hx, flag_bit, (proj2 (Z.ltb_lt _ _) Hlt) in Hc by lia. rewrite Hc in E.
  injection E as <-. unfold event_from_classified.
  rewrite token_user_val by (cbn; lia). cbn [tk_index tk_generation].
  rewrite !Z.mod_small, <- Hx, Z.eqb_refl by lia. cbn. eauto.
Qed.

(** The 64-bit token names what it was made from: an operation token comes
    back exactly when its generation has 15 bits, and otherwise with the
    generation cut; the driver's own tokens come back with kind and id, tokens
    of other kinds are accepted exactly when the kind is not reserved and fits;
    and no value the kernel may return makes the dispatch panic. *)
Theorem completion_token_roundtrip (t : OpToken) (id kind : Z) (raw : RawCompletion)
    (Hi : 0 <= tk_index t < 2 ^ 48) (Hg : 0 <= tk_generation t < 2 ^ 32)
    (Hid : 0 <= id < 2 ^ 16) (Hkind : 0 <= kind < 2 ^ 16) (Hraw : 0 <= rw_token raw < 2 ^ 64) :
  classify (token_user t) = UserClass (mkToken (tk_index t) (tk_generation t mod 2 ^ 15)) /\
  (classify (token_user t) = UserClass t <-> tk_generation t < 2 ^ 15) /\
  classify (token_waker id) = ControlClass KindWaker id /\
  classify (token_cancel id) = ControlClass KindCancel id /\
  match encode_control kind id with
  | Ok c => kind < 2 ^ 15 /\ kind <> 1 /\ kind <> 2 /\ classify c = UnknownControlClass kind id
  | Err (ReservedControlKind k) => k = kind /\ (kind = 1 \/ kind = 2)
  | Err (ControlKindOverflow k) => k = kind /\ 2 ^ 15 <= kind
  end /\
  exists d, dispatch_envelope (envelope_from_raw raw) = Ret d.
Proof.
  assert (Hu : classify (token_user t) = UserClass (mkToken (tk_index t) (tk_generation t mod 2 ^ 15))).
  { rewrite token_user_val, (Z.mod_small (tk_index t)) by lia.
    apply classify_user_val; [apply Z.mod_pos_bound; lia | done]. }
  split_and!; [done | | | | | by apply dispatch_total].
  - rewrite Hu. destruct t as [i g]. cbn [tk_index tk_generation] in *. split.
    + intros [= E]. rewrite <- E. apply Z.mod_pos_bound. lia.
    + intros Hlt. by rewrite Z.mod_small by lia.
  - unfold token_waker, token_internal. rewrite classify_control_val; [done | by vm_compute | done].
  - unfold token_cancel, token_internal. rewrite classify_control_val; [done | by vm_compute | done].
  - unfold encode_control. cbn [control_kind_raw].
    destruct (Z.ltb_spec 0x7fff kind) as [Hov | Hfit]; [split; [done | lia] |].
    destruct (Z.eqb_spec kind 1) as [E1 | N1]; cbn [orb]; [by split; [| left] |].
    destruct (Z.eqb_spec kind 2) as [E2 | N2]; cbn [orb]; [by split; [| right] |].
    split_and!; [lia | done | done |]. rewrite classify_control_val by lia.
    unfold control_kind_from_raw. by destruct (Z.eqb_spec kind 1), (Z.eqb_spec kind 2).
Qed.

Lemma completion_token_roundtrip_witness :
  classify (token_user (mkToken 7 3)) = UserClass (mkToken 7 3) /\
  classify (token_user (mkToken 7 32770)) = UserClass (mkToken 7 2).
Proof.
  assert (H1 : 0 <= 7 < 2 ^ 48) by lia. assert (H2 : 0 <= 32770 < 2 ^ 32) by lia.
  assert (H3 : 0 <= 5 < 2 ^ 16) by lia.
  assert (H4 : 0 <= rw_token (mkRaw Core 7 0 0) < 2 ^ 64) by (cbn; lia).
  split; [reflexivity |].
  exact (proj1 (completion_token_roundtrip (mkToken 7 32770) 5 5 (mkRaw Core 7 0 0) H1 H2 H3 H3 H4)).
Defined.
