(* ===== verification/SlotState.v ===== *)
(** * veloq-driver-core: the state word of an operation slot ([slot/core.rs])

    A slot's state, its generation and 24 flag bits share one 64-bit word that
    is read, written and exchanged atomically.  The model keeps the word as a
    record; [core_word_roundtrip] shows that the record and the word determine
    each other, so that comparing words is comparing records. *)

From S2P Require Import Prelude Token.

Inductive SlotState : Type :=
  | Idle
  | Reserved
  | InFlightWaiting
  | InFlightReady
  | InFlightOrphaned
  | Finalizing
  | ReservedValue.

#[global] Instance slot_state_eq_dec : EqDecision SlotState.
Proof. solve_decision. Defined.

Definition state_bits (s : SlotState) : Z :=
  match s with
  | Idle => 0 | Reserved => 1 | InFlightWaiting => 2 | InFlightReady => 3
  | InFlightOrphaned => 4 | Finalizing => 5 | ReservedValue => 6
  end.

(** The derived conversion; [ReservedValue] is the fallback. *)
Definition state_of_bits (b : Z) : SlotState :=
  if b =? 0 then Idle else if b =? 1 then Reserved else if b =? 2 then InFlightWaiting else
  if b =? 3 then InFlightReady else if b =? 4 then InFlightOrphaned else
  if b =? 5 then Finalizing else ReservedValue.

Definition state_eqb (a b : SlotState) : bool := bool_decide (a = b).

Definition is_runnable (s : SlotState) : bool :=
  match s with Reserved | InFlightWaiting | InFlightOrphaned => true | _ => false end.

Record PackedCoreState : Type := mkCore {
  cs_generation : Z;   (* u32 *)
  cs_state : SlotState;
  cs_flags : Z         (* u24 *)
}.

#[global] Instance core_state_eq_dec : EqDecision PackedCoreState.
Proof. solve_decision. Defined.

Definition with_state (c : PackedCoreState) (s : SlotState) : PackedCoreState :=
  mkCore (cs_generation c) s (cs_flags c).
Definition with_generation (c : PackedCoreState) (g : Z) : PackedCoreState :=
  mkCore g (cs_state c) (cs_flags c).

(** The word: 32 bits of generation, 8 of state, 24 of flags. *)
Definition core_word (c : PackedCoreState) : Z :=
  Z.lor (Z.shiftl (Z.lor (Z.shiftl (cs_flags c) 8) (state_bits (cs_state c))) 32) (cs_generation c).
Definition core_of_word (w : Z) : PackedCoreState :=
  mkCore (Z.land w (2 ^ 32 - 1)) (state_of_bits (Z.land (Z.shiftr w 32) (2 ^ 8 - 1))) (Z.shiftr w 40).

Definition core_wf (c : PackedCoreState) : Prop :=
  0 <= cs_generation c < 2 ^ 32 /\ 0 <= cs_flags c < 2 ^ 24.

Lemma state_bits_range s : 0 <= state_bits s < 2 ^ 8.
Proof. by destruct s. Qed.

Lemma state_of_bits_round s : state_of_bits (state_bits s) = s.
Proof. by destruct s. Qed.

Lemma core_word_roundtrip c :
  core_wf c -> 0 <= core_word c < 2 ^ 64 /\ core_of_word (core_word c) = c.
Proof.
  destruct c as [g s f]. intros [Hg Hf]. cbn [cs_generation cs_flags] in *.
  pose proof (state_bits_range s) as Hs. unfold core_word. cbn [cs_generation cs_flags cs_state].
  rewrite (lor_shiftl_add f), lor_shiftl_add by lia. split; [nia |].
  unfold core_of_word. rewrite !land_mask, mod_add, shiftr_add, mod_add by lia.
  rewrite state_of_bits_round. f_equal.
  replace ((f * 2 ^ 8 + state_bits s) * 2 ^ 32 + g) with (f * 2 ^ 40 + (state_bits s * 2 ^ 32 + g)) by lia.
  apply shiftr_add; [lia | nia].
Qed.

Lemma core_word_inj a b : core_wf a -> core_wf b -> core_word a = core_word b -> a = b.
Proof.
  intros Ha Hb E. rewrite <- (proj2 (core_word_roundtrip a Ha)), E. apply core_word_roundtrip, Hb.
Qed.

Record SlotSnapshot : Type := mkSnapshot {
  sn_index : Z;
  sn_generation : Z;
  sn_state : SlotState;
  sn_has_op : bool;
  sn_has_payload : bool
}.

Definition snapshot_try_token (s : SlotSnapshot) : result OpToken OpTokenError :=
  from_registry_parts (sn_index s) (sn_generation s).
