(* ===== verification/Anomaly.v ===== *)
(** * veloq-driver-core: completion anomalies and diagnostics
      ([completion/types/anomaly.rs], [anomaly/kind.rs], [anomaly/entity.rs],
      [types/diagnostics.rs], the outcomes of [types/record.rs])

    A completion that cannot be delivered is classified by a small
    [CompletionAnomalyKind]; where it is reported, the kind becomes a
    [CompletionAnomaly] with the token and the raw result attached, and one of
    the diagnostic counters goes up. *)

From S2P Require Import Prelude Token SlotState.

Inductive CompletionAnomalyReason : Type :=
  | ReasonUnknownSlot
  | ReasonStaleGeneration
  | ReasonNonActiveSlot
  | ReasonBackendContextUnknown
  | ReasonBackendSpecific (code : Z).

Record BackendSlotRef : Type := mkSlotRef {
  sr_index : Z;
  sr_expected_generation : Z;
  sr_actual_generation : option Z
}.

Record CompletionRaw : Type := mkCompletionRaw { cr_backend : CompletionBackend; cr_res : Z; cr_flags : Z }.

Inductive CompletionAnomalyKind : Type :=
  | UnknownSlot (index generation : Z)
  | Stale (index expected actual : Z) (state : SlotState)
  | NonActive (index generation : Z) (state : SlotState)
  | BackendContext (backend : CompletionBackend) (backend_context : Z)
  | BackendSpecific (code : Z) (backend : CompletionBackend) (backend_context : Z)
      (slot : option BackendSlotRef).

Record AnomalyAttach : Type := mkAttach { at_token : CompletionToken; at_raw : option CompletionRaw }.

Inductive AnomalyOutcome : Type :=
  | OutMissing (kind : CompletionAnomalyKind)
  | OutStale (kind : CompletionAnomalyKind)
  | OutNonActive (kind : CompletionAnomalyKind).

Inductive CompletionMutationOutcome : Type :=
  | Applied
  | Rejected (o : AnomalyOutcome).

Definition mutation_is_applied (o : CompletionMutationOutcome) : bool :=
  match o with Applied => true | Rejected _ => false end.
Definition mutation_anomaly_outcome (o : CompletionMutationOutcome) : option AnomalyOutcome :=
  match o with Applied => None | Rejected o => Some o end.

Definition outcome_kind (o : AnomalyOutcome) : CompletionAnomalyKind :=
  match o with OutMissing k | OutStale k | OutNonActive k => k end.

Inductive RecordCompletionOutcome : Type :=
  | RecordedUser
  | OrphanedDropped
  | RecordRejected (o : AnomalyOutcome).

Inductive CompletionAnomaly : Type :=
  | AnUnknownSlot (token : CompletionToken) (index expected_generation : Z) (raw : option CompletionRaw)
  | AnStaleGeneration (token : CompletionToken) (index expected_generation actual_generation : Z)
      (state : SlotState) (raw : option CompletionRaw)
  | AnSlotState (reason : CompletionAnomalyReason) (token : CompletionToken) (index generation : Z)
      (state : SlotState) (snapshot : option SlotSnapshot) (raw : option CompletionRaw)
  | AnBackendContext (token : CompletionToken) (backend : CompletionBackend) (backend_context : Z)
      (raw : CompletionRaw)
  | AnBackendSpecific (code : Z) (token : CompletionToken) (backend : CompletionBackend)
      (backend_context : Z) (index expected_generation actual_generation : option Z)
      (raw : option CompletionRaw).

(** ** [kind.rs] *)

Definition backend_specific (code : Z) (backend : CompletionBackend) (backend_context : Z) :=
  BackendSpecific code backend backend_context None.
Definition backend_specific_missing (code : Z) (backend : CompletionBackend)
    (backend_context index expected_generation : Z) :=
  BackendSpecific code backend backend_context (Some (mkSlotRef index expected_generation None)).
Definition backend_specific_stale (code : Z) (backend : CompletionBackend)
    (backend_context index expected_generation actual_generation : Z) :=
  BackendSpecific code backend backend_context
    (Some (mkSlotRef index expected_generation (Some actual_generation))).

Definition kind_reason (k : CompletionAnomalyKind) : CompletionAnomalyReason :=
  match k with
  | UnknownSlot _ _ => ReasonUnknownSlot
  | Stale _ _ _ _ => ReasonStaleGeneration
  | NonActive _ _ _ => ReasonNonActiveSlot
  | BackendContext _ _ => ReasonBackendContextUnknown
  | BackendSpecific code _ _ _ => ReasonBackendSpecific code
  end.

Definition kind_index (k : CompletionAnomalyKind) : option Z :=
  match k with
  | UnknownSlot i _ | Stale i _ _ _ | NonActive i _ _ => Some i
  | BackendSpecific _ _ _ (Some slot) => Some (sr_index slot)
  | BackendContext _ _ => None
  | BackendSpecific _ _ _ None => None
  end.

Definition kind_expected_generation (k : CompletionAnomalyKind) : option Z :=
  match k with
  | UnknownSlot _ g => Some g
  | Stale _ expected _ _ => Some expected
  | NonActive _ g _ => Some g
  | BackendSpecific _ _ _ (Some slot) => Some (sr_expected_generation slot)
  | BackendContext _ _ => None
  | BackendSpecific _ _ _ None => None
  end.

Definition kind_actual_generation (k : CompletionAnomalyKind) : option Z :=
  match k with
  | Stale _ _ actual _ => Some actual
  | NonActive _ g _ => Some g
  | BackendSpecific _ _ _ (Some slot) => sr_actual_generation slot
  | UnknownSlot _ _ | BackendContext _ _ => None
  | BackendSpecific _ _ _ None => None
  end.

Definition kind_state (k : CompletionAnomalyKind) : option SlotState :=
  match k with
  | Stale _ _ _ s | NonActive _ _ s => Some s
  | UnknownSlot _ _ | BackendContext _ _ | BackendSpecific _ _ _ _ => None
  end.

Definition kind_backend (k : CompletionAnomalyKind) : option CompletionBackend :=
  match k with
  | BackendContext b _ | BackendSpecific _ b _ _ => Some b
  | UnknownSlot _ _ | Stale _ _ _ _ | NonActive _ _ _ => None
  end.

Definition kind_backend_context (k : CompletionAnomalyKind) : option Z :=
  match k with
  | BackendContext _ c | BackendSpecific _ _ c _ => Some c
  | _ => None
  end.

(** ** [entity.rs] *)

Definition an_reason (a : CompletionAnomaly) : CompletionAnomalyReason :=
  match a with
  | AnSlotState reason _ _ _ _ _ _ => reason
  | AnUnknownSlot _ _ _ _ => ReasonUnknownSlot
  | AnStaleGeneration _ _ _ _ _ _ => ReasonStaleGeneration
  | AnBackendContext _ _ _ _ => ReasonBackendContextUnknown
  | AnBackendSpecific code _ _ _ _ _ _ _ => ReasonBackendSpecific code
  end.

Definition an_token (a : CompletionAnomaly) : CompletionToken :=
  match a with
  | AnUnknownSlot t _ _ _ | AnStaleGeneration t _ _ _ _ _ | AnSlotState _ t _ _ _ _ _
  | AnBackendContext t _ _ _ | AnBackendSpecific _ t _ _ _ _ _ _ => t
  end.

Definition an_index (a : CompletionAnomaly) : option Z :=
  match a with
  | AnUnknownSlot _ i _ _ | AnStaleGeneration _ i _ _ _ _ | AnSlotState _ _ i _ _ _ _ => Some i
  | AnBackendSpecific _ _ _ _ index _ _ _ => index
  | AnBackendContext _ _ _ _ => None
  end.

Definition an_expected_generation (a : CompletionAnomaly) : option Z :=
  match a with
  | AnUnknownSlot _ _ g _ => Some g
  | AnStaleGeneration _ _ g _ _ _ => Some g
  | AnSlotState _ _ _ g _ _ _ => Some g
  | AnBackendSpecific _ _ _ _ _ g _ _ => g
  | AnBackendContext _ _ _ _ => None
  end.

Definition an_actual_generation (a : CompletionAnomaly) : option Z :=
  match a with
  | AnStaleGeneration _ _ _ g _ _ => Some g
  | AnSlotState _ _ _ g _ _ _ => Some g
  | AnBackendSpecific _ _ _ _ _ _ g _ => g
  | AnUnknownSlot _ _ _ _ | AnBackendContext _ _ _ _ => None
  end.

Definition an_state (a : CompletionAnomaly) : option SlotState :=
  match a with
  | AnStaleGeneration _ _ _ _ s _ | AnSlotState _ _ _ _ s _ _ => Some s
  | AnUnknownSlot _ _ _ _ | AnBackendContext _ _ _ _ | AnBackendSpecific _ _ _ _ _ _ _ _ => None
  end.

Definition an_slot_snapshot (a : CompletionAnomaly) : option SlotSnapshot :=
  match a with AnSlotState _ _ _ _ _ (Some s) _ => Some s | _ => None end.

Definition an_backend (a : CompletionAnomaly) : option CompletionBackend :=
  match a with
  | AnBackendContext _ b _ _ | AnBackendSpecific _ _ b _ _ _ _ _ => Some b
  | AnUnknownSlot _ _ _ (Some raw) | AnStaleGeneration _ _ _ _ _ (Some raw)
  | AnSlotState _ _ _ _ _ _ (Some raw) => Some (cr_backend raw)
  | AnUnknownSlot _ _ _ None | AnStaleGeneration _ _ _ _ _ None | AnSlotState _ _ _ _ _ _ None => None
  end.

Definition an_backend_context (a : CompletionAnomaly) : option Z :=
  match a with
  | AnBackendContext _ _ c _ | AnBackendSpecific _ _ _ c _ _ _ _ => Some c
  | _ => None
  end.

Definition raw_attachment (a : CompletionAnomaly) : option CompletionRaw :=
  match a with
  | AnUnknownSlot _ _ _ raw | AnStaleGeneration _ _ _ _ _ raw | AnSlotState _ _ _ _ _ _ raw
  | AnBackendSpecific _ _ _ _ _ _ _ raw => raw
  | AnBackendContext _ _ _ raw => Some raw
  end.

Definition an_raw_result (a : CompletionAnomaly) : option Z :=
  match raw_attachment a with Some raw => Some (cr_res raw) | None => None end.
Definition an_flags (a : CompletionAnomaly) : option Z :=
  match raw_attachment a with Some raw => Some (cr_flags raw) | None => None end.

Definition an_slot_state (reason : CompletionAnomalyReason) (token : CompletionToken)
    (index generation : Z) (state : SlotState) : CompletionAnomaly :=
  AnSlotState reason token index generation state None None.

Definition an_with_raw (a : CompletionAnomaly) (raw : CompletionRaw) : CompletionAnomaly :=
  match a with
  | AnUnknownSlot t i g _ => AnUnknownSlot t i g (Some raw)
  | AnStaleGeneration t i e g s _ => AnStaleGeneration t i e g s (Some raw)
  | AnSlotState r t i g s sn _ => AnSlotState r t i g s sn (Some raw)
  | AnBackendSpecific c t b x i e g _ => AnBackendSpecific c t b x i e g (Some raw)
  | AnBackendContext t b x _ => AnBackendContext t b x raw
  end.

Definition an_with_backend (a : CompletionAnomaly) (backend : CompletionBackend) : CompletionAnomaly :=
  match a with
  | AnBackendSpecific c t _ x i e g raw => AnBackendSpecific c t backend x i e g raw
  | other =>
      match raw_attachment other with
      | Some raw => an_with_raw other (mkCompletionRaw backend (cr_res raw) (cr_flags raw))
      | None => an_with_raw other (mkCompletionRaw backend 0 0)
      end
  end.

Definition an_with_backend_context (a : CompletionAnomaly) (context : Z) : CompletionAnomaly :=
  match a with
  | AnBackendContext t b _ raw => AnBackendContext t b context raw
  | AnBackendSpecific c t b _ i e g raw => AnBackendSpecific c t b context i e g raw
  | other => other
  end.

Definition an_with_token (a : CompletionAnomaly) (token : CompletionToken) : CompletionAnomaly :=
  match a with
  | AnUnknownSlot _ i g raw => AnUnknownSlot token i g raw
  | AnStaleGeneration _ i e g s raw => AnStaleGeneration token i e g s raw
  | AnSlotState r _ i g s sn raw => AnSlotState r token i g s sn raw
  | AnBackendContext _ b x raw => AnBackendContext token b x raw
  | AnBackendSpecific c _ b x i e g raw => AnBackendSpecific c token b x i e g raw
  end.

Definition an_with_event (a : CompletionAnomaly) (event : CompletionEvent) : CompletionAnomaly :=
  let raw := mkCompletionRaw (default Core (an_backend a)) (ev_res event) (ev_flags event) in
  an_with_raw (an_with_token a (ev_token event)) raw.

Definition an_with_raw_result (a : CompletionAnomaly) (raw_result : Z) : CompletionAnomaly :=
  an_with_raw a (mkCompletionRaw (default Core (an_backend a)) raw_result (default 0 (an_flags a))).

Definition an_with_flags (a : CompletionAnomaly) (flags : Z) : CompletionAnomaly :=
  an_with_raw a (mkCompletionRaw (default Core (an_backend a)) (default 0 (an_raw_result a)) flags).

Definition an_with_slot_snapshot (a : CompletionAnomaly) (s : SlotSnapshot) : CompletionAnomaly :=
  match a with
  | AnSlotState reason token _ _ _ _ raw =>
      AnSlotState reason token (sn_index s) (sn_generation s) (sn_state s) (Some s) raw
  | other => other
  end.

(** [event.rs]: [CompletionAnomaly::with_raw_completion]. *)
Definition an_with_raw_completion (a : CompletionAnomaly) (raw : RawCompletion) : CompletionAnomaly :=
  an_with_raw (an_with_token a (rw_token raw)) (mkCompletionRaw (rw_backend raw) (rw_res raw) (rw_flags raw)).

(** ** Materialization *)

Definition materialize (k : CompletionAnomalyKind) (attach : AnomalyAttach) : CompletionAnomaly :=
  let token := at_token attach in
  let anomaly :=
    match k with
    | UnknownSlot index generation => AnUnknownSlot token index generation None
    | Stale index expected actual state => AnStaleGeneration token index expected actual state None
    | NonActive index generation state => an_slot_state ReasonNonActiveSlot token index generation state
    | BackendContext backend backend_context =>
        AnBackendContext token backend backend_context
          (default (mkCompletionRaw backend 0 0) (at_raw attach))
    | BackendSpecific code backend backend_context slot =>
        match slot with
        | None => AnBackendSpecific code token backend backend_context None None None None
        | Some (mkSlotRef index expected actual) =>
            AnBackendSpecific code token backend backend_context (Some index) (Some expected) actual None
        end
    end in
  match at_raw attach, anomaly with
  | Some _, AnBackendContext _ _ _ _ => anomaly
  | Some raw, _ => an_with_raw anomaly raw
  | None, _ => anomaly
  end.

Definition attach_token_only (t : CompletionToken) : AnomalyAttach := mkAttach t None.
Definition attach_from_op_token (t : OpToken) : AnomalyAttach := mkAttach (token_user t) None.
Definition attach_from_raw_completion (raw : RawCompletion) : AnomalyAttach :=
  mkAttach (rw_token raw) (Some (mkCompletionRaw (rw_backend raw) (rw_res raw) (rw_flags raw))).

(** ** Diagnostics

    [B] is the backend's part, [record_backend] its [record_backend_anomaly],
    which says whether it has counted the anomaly itself. *)

Record Diagnostics (B : Type) : Type := mkDiag {
  dg_user_completed : Z;
  dg_user_orphan_completed : Z;
  dg_unknown_completion : Z;
  dg_stale_completion : Z;
  dg_completion_rejected : Z;
  dg_internal_unknown : Z;
  dg_orphan_cleanup_error : Z;
  dg_backend : B
}.
Arguments mkDiag {B}.
Arguments dg_user_completed {B}.
Arguments dg_user_orphan_completed {B}.
Arguments dg_unknown_completion {B}.
Arguments dg_stale_completion {B}.
Arguments dg_completion_rejected {B}.
Arguments dg_internal_unknown {B}.
Arguments dg_orphan_cleanup_error {B}.
Arguments dg_backend {B}.

(** [fetch_add(1)] wraps. *)
Definition inc (x : Z) : Z := wrapping_add U64 x 1.

Section diagnostics.
Context {B : Type} (record_backend : CompletionAnomaly -> B -> B * bool).
Implicit Types d : Diagnostics B.

Definition inc_user_completed d := mkDiag (inc (dg_user_completed d)) (dg_user_orphan_completed d)
  (dg_unknown_completion d) (dg_stale_completion d) (dg_completion_rejected d) (dg_internal_unknown d)
  (dg_orphan_cleanup_error d) (dg_backend d).
Definition inc_user_orphan_completed d := mkDiag (dg_user_completed d) (inc (dg_user_orphan_completed d))
  (dg_unknown_completion d) (dg_stale_completion d) (dg_completion_rejected d) (dg_internal_unknown d)
  (dg_orphan_cleanup_error d) (dg_backend d).
Definition inc_unknown_completion d := mkDiag (dg_user_completed d) (dg_user_orphan_completed d)
  (inc (dg_unknown_completion d)) (dg_stale_completion d) (dg_completion_rejected d)
  (dg_internal_unknown d) (dg_orphan_cleanup_error d) (dg_backend d).
Definition inc_stale_completion d := mkDiag (dg_user_completed d) (dg_user_orphan_completed d)
  (dg_unknown_completion d) (inc (dg_stale_completion d)) (dg_completion_rejected d)
  (dg_internal_unknown d) (dg_orphan_cleanup_error d) (dg_backend d).
Definition inc_completion_rejected d := mkDiag (dg_user_completed d) (dg_user_orphan_completed d)
  (dg_unknown_completion d) (dg_stale_completion d) (inc (dg_completion_rejected d))
  (dg_internal_unknown d) (dg_orphan_cleanup_error d) (dg_backend d).
Definition inc_internal_unknown d := mkDiag (dg_user_completed d) (dg_user_orphan_completed d)
  (dg_unknown_completion d) (dg_stale_completion d) (dg_completion_rejected d)
  (inc (dg_internal_unknown d)) (dg_orphan_cleanup_error d) (dg_backend d).
Definition inc_orphan_cleanup_error d := mkDiag (dg_user_completed d) (dg_user_orphan_completed d)
  (dg_unknown_completion d) (dg_stale_completion d) (dg_completion_rejected d) (dg_internal_unknown d)
  (inc (dg_orphan_cleanup_error d)) (dg_backend d).

Definition set_backend d (b : B) := mkDiag (dg_user_completed d) (dg_user_orphan_completed d)
  (dg_unknown_completion d) (dg_stale_completion d) (dg_completion_rejected d) (dg_internal_unknown d)
  (dg_orphan_cleanup_error d) b.

Definition record_anomaly d (a : CompletionAnomaly) : Diagnostics B :=
  let (b, counted) := record_backend a (dg_backend d) in
  let d := set_backend d b in
  if counted then d else
  match an_reason a with
  | ReasonUnknownSlot | ReasonNonActiveSlot => inc_unknown_completion d
  | ReasonBackendContextUnknown | ReasonBackendSpecific _ => inc_internal_unknown d
  | ReasonStaleGeneration => inc_stale_completion d
  end.

Definition record_anomaly_kind d (k : CompletionAnomalyKind) (attach : AnomalyAttach) :=
  record_anomaly d (materialize k attach).
Definition record_anomaly_outcome d (o : AnomalyOutcome) (attach : AnomalyAttach) :=
  record_anomaly_kind d (outcome_kind o) attach.

Definition record_completion_outcome d (o : RecordCompletionOutcome) : Diagnostics B :=
  let d := match o with RecordedUser => d | _ => inc_completion_rejected d end in
  match o with
  | RecordedUser => inc_user_completed d
  | OrphanedDropped => inc_user_orphan_completed d
  | RecordRejected _ => d
  end.
End diagnostics.

(** ** Nothing is lost on the way *)

(** A materialized anomaly reports what the kind it was made from reports:
    reason, slot, generations, state and backend context, with the token
    attached; the raw result is the attached one, and the backend is the
    kind's, or else the one of the raw result. *)
Theorem materialize_faithful (k : CompletionAnomalyKind) (attach : AnomalyAttach) :
  let a := materialize k attach in
  an_reason a = kind_reason k /\ an_index a = kind_index k /\
  an_expected_generation a = kind_expected_generation k /\
  an_actual_generation a = kind_actual_generation k /\
  an_state a = kind_state k /\ an_backend_context a = kind_backend_context k /\
  an_token a = at_token attach /\
  an_backend a = match kind_backend k with
                 | Some b => Some b
                 | None => match at_raw attach with Some raw => Some (cr_backend raw) | None => None end
                 end /\
  (raw_attachment a = at_raw attach \/
   at_raw attach = None /\ exists b c, k = BackendContext b c /\ raw_attachment a = Some (mkCompletionRaw b 0 0)).
Proof.
  destruct attach as [t [raw |]], k as [ | | | | code b c [[i e [g |]] |]]; cbn;
    split_and!; try done; (by left) || (right; eauto).
Qed.
