(* ===== verification/SlotTable.v ===== *)
(** * veloq-driver-core: the shared slot table
      ([slot/core.rs], [slot/table.rs], [completion/types/record.rs])

    The part of the operation slots that driver thread and futures share: the
    state word, the free list threaded through the slots, the completion
    record, and the waker.  Each function of this file is one uninterrupted
    call; a compare-exchange loop succeeds at its first attempt.  [TakeRace]
    has the interleavings. *)

From stdpp Require Import strings.
From S2P Require Import Prelude Token SlotState Anomaly.

(** [DriverCoreError], with the scope of its report. *)
Inductive CoreReport : Type := InternalReport (scope : string) | SystemReport (scope : string).

(** [SlotSpec], what a backend fixes.  [SCleanup] stands for the boxed closures
    of [CompletionCleanup], and [cleanup_result] for what running one returns. *)
Class SlotSpec : Type := {
  SOp : Type;
  SPayload : Type;
  SPlatform : Type;
  platform_default : SPlatform;
  SSidecar : Type;
  sidecar_default : SSidecar;
  SError : Type;
  from_core_report : CoreReport -> SError;
  SCompletion : Type;
  SDiagnostics : Type;
  diagnostics_default : SDiagnostics;
  record_backend_anomaly : CompletionAnomaly -> SDiagnostics -> SDiagnostics * bool;
  SCleanup : Type;
  cleanup_result : SCleanup -> result unit CoreReport
}.

(** A task to wake. *)
Definition Waker : Type := Z.

Section table.
Context `{Spec : SlotSpec}.

(** ** Data *)

Definition Detail : Type := option (result SCompletion SError).

(** [CompletionCleanupGuard] *)
Definition CleanupGuard : Type := option SCleanup.

Record SlotStorage : Type := mkStorage {
  sg_result : Detail;
  sg_payload : option SPayload;
  sg_sidecar : SSidecar
}.
Definition storage_new : SlotStorage := mkStorage None None sidecar_default.

Inductive CompletionData : Type :=
  | DataEmpty
  | DataUser (event : UserCompletionEvent) (payload : SPayload) (detail : Detail) (cleanup : CleanupGuard).

Record SlotData : Type := mkSlotData {
  sd_core : PackedCoreState;
  sd_next_free : Z;
  sd_res : Z;
  sd_flags : Z;
  sd_data : CompletionData;
  sd_waker : option Waker
}.

Definition NULL_INDEX : Z := USIZE_MAX.

Definition slot_data_new : SlotData := mkSlotData (mkCore 0 Idle 0) NULL_INDEX 0 0 DataEmpty None.

(** What becomes visible outside: tasks woken and clean-up actions run. *)
Inductive effect : Type := Woke (w : Waker) | CleanedUp (c : SCleanup).

(** [SlotTable], and the trace of its effects. *)
Record SlotTable : Type := mkTable {
  tb_slots : list SlotData;
  tb_remote_free_head : Z;
  tb_ready_count : Z;
  tb_diagnostics : Diagnostics SDiagnostics;
  tb_trace : list effect
}.

Definition slot_table_new (capacity : nat) : SlotTable :=
  mkTable (replicate capacity slot_data_new) NULL_INDEX 0 (mkDiag 0 0 0 0 0 0 0 diagnostics_default) [].

Definition set_slots (t : SlotTable) (ss : list SlotData) : SlotTable :=
  mkTable ss (tb_remote_free_head t) (tb_ready_count t) (tb_diagnostics t) (tb_trace t).
Definition set_head (t : SlotTable) (h : Z) : SlotTable :=
  mkTable (tb_slots t) h (tb_ready_count t) (tb_diagnostics t) (tb_trace t).
Definition set_ready_count (t : SlotTable) (n : Z) : SlotTable :=
  mkTable (tb_slots t) (tb_remote_free_head t) n (tb_diagnostics t) (tb_trace t).
Definition set_diagnostics (t : SlotTable) (d : Diagnostics SDiagnostics) : SlotTable :=
  mkTable (tb_slots t) (tb_remote_free_head t) (tb_ready_count t) d (tb_trace t).
Definition emit (t : SlotTable) (e : list effect) : SlotTable :=
  mkTable (tb_slots t) (tb_remote_free_head t) (tb_ready_count t) (tb_diagnostics t) (tb_trace t ++ e).

Definition set_core (d : SlotData) (c : PackedCoreState) : SlotData :=
  mkSlotData c (sd_next_free d) (sd_res d) (sd_flags d) (sd_data d) (sd_waker d).
Definition set_next_free (d : SlotData) (n : Z) : SlotData :=
  mkSlotData (sd_core d) n (sd_res d) (sd_flags d) (sd_data d) (sd_waker d).
Definition set_data (d : SlotData) (x : CompletionData) : SlotData :=
  mkSlotData (sd_core d) (sd_next_free d) (sd_res d) (sd_flags d) x (sd_waker d).
Definition set_waker (d : SlotData) (w : option Waker) : SlotData :=
  mkSlotData (sd_core d) (sd_next_free d) (sd_res d) (sd_flags d) (sd_data d) w.

Definition slot_state (d : SlotData) : SlotState := cs_state (sd_core d).
Definition slot_generation (d : SlotData) : Z := cs_generation (sd_core d).

(** [f] applied to the slot at [idx]; indexing panics out of range. *)
Definition with_slot (t : SlotTable) (idx : Z) (f : SlotData -> SlotData) : outcome SlotTable :=
  d ← vec_get (tb_slots t) idx;
  ss ← vec_set (tb_slots t) idx (f d);
  Ret (set_slots t ss).

(** ** [SlotData] *)

Definition slot_set_state (s : SlotState) (d : SlotData) : SlotData :=
  set_core d (with_state (sd_core d) s).

Definition slot_reset (generation : Z) (d : SlotData) : SlotData :=
  set_core d (mkCore generation Idle 0).

(** [SlotData::free]: a ready slot stays ready. *)
Definition slot_free (d : SlotData) : SlotData :=
  let target := if state_eqb (slot_state d) InFlightReady then InFlightReady else Idle in
  set_core d (with_state (sd_core d) target).

(** ** [SlotTable] *)

Definition push_free (t : SlotTable) (idx : Z) : outcome SlotTable :=
  t ← with_slot t idx (fun d => set_next_free d (tb_remote_free_head t));
  Ret (set_head t idx).

Definition pop_all (t : SlotTable) : SlotTable * Z :=
  (set_head t NULL_INDEX, tb_remote_free_head t).

Definition has_ready_completion (t : SlotTable) : bool := 0 <? tb_ready_count t.

Definition note_ready_completion (t : SlotTable) : SlotTable :=
  set_ready_count t (wrapping_add USIZE_BITS (tb_ready_count t) 1).

Definition clear_ready_completion (t : SlotTable) : SlotTable :=
  if tb_ready_count t =? 0 then t else set_ready_count t (tb_ready_count t - 1).

(** ** Clean-up guards *)

Definition guard_is_armed (g : CleanupGuard) : bool :=
  match g with Some _ => true | None => false end.

Definition guard_disarm (g : CleanupGuard) : CleanupGuard * bool := (None, guard_is_armed g).

(** [CompletionCleanupGuard::run]: the action runs at most once. *)
Definition guard_run (t : SlotTable) (g : CleanupGuard)
    : SlotTable * CleanupGuard * result bool CoreReport :=
  match g with
  | None => (t, None, Ok false)
  | Some c =>
      (emit t [CleanedUp c], None,
       match cleanup_result c with Ok _ => Ok true | Err e => Err e end)
  end.

(** [Drop for CompletionCleanupGuard]. *)
Definition guard_drop (t : SlotTable) (g : CleanupGuard) : SlotTable :=
  match g with None => t | Some c => emit t [CleanedUp c] end.

(** [run_completion_cleanup] ([packet.rs]). *)
Definition run_completion_cleanup (t : SlotTable) (g : CleanupGuard) : SlotTable * CleanupGuard * bool :=
  let '(t, g, r) := guard_run t g in
  match r with
  | Ok ran => (t, g, ran)
  | Err _ => (set_diagnostics t (inc_orphan_cleanup_error (tb_diagnostics t)), g, false)
  end.
End table.
