(* ===== verification/Completion.v ===== *)
(** * veloq-driver-core: the completion table
      ([completion/table.rs], [completion/packet.rs])

    How a completion is recorded in a slot by the driver and taken by the
    future that waits for it; every call names the slot by a token whose
    generation must be the slot's.  A call that finds the slot [Finalizing]
    spins until another thread moves it on; in these single calls there is no
    other thread ([SpinsForever]). *)

From stdpp Require Import strings.
From S2P Require Import Prelude Token SlotState Anomaly SlotTable.

Section completion.
Context `{Spec : SlotSpec}.
Implicit Types t : SlotTable.

(** ** Packets and records *)

Record UserCompletion : Type := mkUserCompletion {
  uc_payload : SPayload;
  uc_detail : Detail;
  uc_cleanup : CleanupGuard
}.
Inductive CompletionInput : Type := InputUser (c : UserCompletion).
Record CompletionPacket : Type := mkPacket { pk_event : UserCompletionEvent; pk_input : CompletionInput }.

Definition packet_user_event (event : UserCompletionEvent) (payload : SPayload) (detail : Detail)
    (cleanup : CleanupGuard) : CompletionPacket :=
  mkPacket event (InputUser (mkUserCompletion payload detail cleanup)).
Definition packet_user_with_cleanup := packet_user_event.
Definition packet_token (p : CompletionPacket) : OpToken := ue_token (pk_event p).
Definition input_cleanup (i : CompletionInput) : CleanupGuard := match i with InputUser c => uc_cleanup c end.

Record CompletionRecord : Type := mkRecord {
  rd_event : UserCompletionEvent;
  rd_payload : SPayload;
  rd_detail : Detail;
  rd_cleanup : CleanupGuard
}.

Inductive RecordCompletionResult : Type :=
  | ResRecorded (o : RecordCompletionOutcome)
  | ResRejected (o : RecordCompletionOutcome) (p : CompletionPacket).

Inductive PollRecordResult : Type :=
  | PollReady (r : CompletionRecord)
  | PollUnavailable (kind : CompletionAnomalyKind) (attach : AnomalyAttach)
  | PollPending.

(** [run_rejected_cleanup]; the packet is dropped, its guard already empty. *)
Definition run_rejected_cleanup t (p : CompletionPacket) : SlotTable :=
  let '(t, g, _) := run_completion_cleanup t (input_cleanup (pk_input p)) in guard_drop t g.

(** ** Helpers *)

Definition recorded_outcome (i : CompletionInput) : RecordCompletionOutcome :=
  match i with InputUser _ => RecordedUser end.

Definition mutation_missing (token : OpToken) : CompletionMutationOutcome :=
  let (idx, generation) := token_parts token in Rejected (OutMissing (UnknownSlot idx generation)).

Definition mutation_generation_mismatch (idx expected actual : Z) (s : SlotState)
    : CompletionMutationOutcome :=
  if expected <? actual then Rejected (OutStale (Stale idx expected actual s))
  else Rejected (OutNonActive (NonActive idx expected s)).

Definition mutation_non_active (idx generation : Z) (s : SlotState) : CompletionMutationOutcome :=
  Rejected (OutNonActive (NonActive idx generation s)).

Definition note_anomaly t (k : CompletionAnomalyKind) (attach : AnomalyAttach) : SlotTable :=
  set_diagnostics t (record_anomaly_kind record_backend_anomaly (tb_diagnostics t) k attach).

Definition recorded_completion t (o : RecordCompletionOutcome) : SlotTable * RecordCompletionResult :=
  (set_diagnostics t (record_completion_outcome (tb_diagnostics t) o), ResRecorded o).

Definition rejected_completion t (o : RecordCompletionOutcome) (event : UserCompletionEvent)
    (p : CompletionPacket) : SlotTable * RecordCompletionResult :=
  let t := match o with
           | RecordRejected a => note_anomaly t (outcome_kind a) (attach_from_raw_completion (ue_raw event))
           | _ => t
           end in
  (set_diagnostics t (record_completion_outcome (tb_diagnostics t) o), ResRejected o p).

Definition recorded_mutation t (token : OpToken) (o : CompletionMutationOutcome)
    : SlotTable * CompletionMutationOutcome :=
  (match mutation_anomaly_outcome o with
   | Some a => note_anomaly t (outcome_kind a) (attach_from_op_token token)
   | None => t
   end, o).

Definition in_table t (idx : Z) : bool := idx <? Z.of_nat (length (tb_slots t)).

(** Dropping what the completion cell holds runs an armed clean-up. *)
Definition drop_data t (d : CompletionData) : SlotTable :=
  match d with DataEmpty => t | DataUser _ _ _ g => guard_drop t g end.

Definition run_discarded_record_cleanup t (d : CompletionData) : SlotTable :=
  match d with
  | DataUser _ _ _ g => let '(t, g, _) := run_completion_cleanup t g in guard_drop t g
  | DataEmpty => t
  end.

(** ** The operations *)

(** The slot's waker is taken and woken. *)
Definition wake_slot t (idx : Z) : outcome SlotTable :=
  d ← vec_get (tb_slots t) idx;
  t ← with_slot t idx (fun d => set_waker d None);
  Ret (match sd_waker d with Some w => emit t [Woke w] | None => t end).

(** Writing the record and publishing it, once the slot is [Finalizing]. *)
Definition publish t (idx generation : Z) (finalizing : PackedCoreState) (p : CompletionPacket)
    : outcome SlotTable :=
  d ← vec_get (tb_slots t) idx;
  let event := pk_event p in
  let data := match pk_input p with
              | InputUser c => DataUser event (uc_payload c) (uc_detail c) (uc_cleanup c)
              end in
  t ← with_slot t idx (fun d => set_data d data);
  let t := drop_data t (sd_data d) in
  t ← with_slot t idx (fun d =>
        mkSlotData (sd_core d) (sd_next_free d) (ue_res event) (ue_flags event) (sd_data d) (sd_waker d));
  let t := note_ready_completion t in
  t ← with_slot t idx (fun d =>
        set_core d (with_generation (with_state finalizing InFlightReady) generation));
  wake_slot t idx.

Definition record_completion t (p : CompletionPacket) : outcome (SlotTable * RecordCompletionResult) :=
  let event := pk_event p in
  let (idx, generation) := token_parts (packet_token p) in
  let success_outcome := recorded_outcome (pk_input p) in
  let reject a := Ret (rejected_completion t a event p) in
  if negb (in_table t idx) then reject (RecordRejected (OutMissing (UnknownSlot idx generation))) else
  cell ← vec_get (tb_slots t) idx;
  let current := sd_core cell in
  let state := cs_state current in
  let cell_gen := cs_generation current in
  if generation <? cell_gen then reject (RecordRejected (OutStale (Stale idx generation cell_gen state)))
  else if cell_gen <? generation then
    (if state_eqb state Idle then reject (RecordRejected (OutNonActive (NonActive idx generation state)))
     else reject (RecordRejected (OutStale (Stale idx generation cell_gen state))))
  else
    match state with
    | InFlightWaiting =>
        t ← with_slot t idx (fun d => set_core d (with_generation (with_state current Finalizing) generation));
        let finalizing := with_state current Finalizing in
        t ← publish t idx generation finalizing p;
        Ret (recorded_completion t success_outcome)
    | Idle | Reserved | InFlightReady | ReservedValue =>
        reject (RecordRejected (OutNonActive (NonActive idx generation state)))
    | InFlightOrphaned => reject OrphanedDropped
    | Finalizing => Fault SpinsForever
    end.

(** The ready record leaves its slot, which gets the next generation. *)
Definition take_data t (idx generation : Z) (current : PackedCoreState)
    : outcome (SlotTable * CompletionData) :=
  t ← with_slot t idx (fun d =>
        set_core d (with_generation (with_state current Idle) (wrapping_add U32 generation 1)));
  let t := clear_ready_completion t in
  d ← vec_get (tb_slots t) idx;
  t ← with_slot t idx (fun d => set_data d DataEmpty);
  Ret (t, sd_data d).

Definition try_take_record t (token : OpToken) : outcome (SlotTable * result PollRecordResult SError) :=
  let attach := attach_from_op_token token in
  let (idx, generation) := token_parts token in
  let unavailable k := Ret (note_anomaly t k attach, Ok (PollUnavailable k attach)) in
  if negb (in_table t idx) then unavailable (UnknownSlot idx generation) else
  cell ← vec_get (tb_slots t) idx;
  let current := sd_core cell in
  let state := cs_state current in
  let cell_gen := cs_generation current in
  if generation <? cell_gen then unavailable (Stale idx generation cell_gen state)
  else if cell_gen <? generation then unavailable (NonActive idx generation state)
  else
    match state with
    | InFlightWaiting | Finalizing => Ret (t, Ok PollPending)
    | Idle | Reserved | InFlightOrphaned | ReservedValue => unavailable (NonActive idx generation state)
    | InFlightReady =>
        '(t, d) ← take_data t idx generation current;
        match d with
        | DataUser event payload detail cleanup =>
            Ret (t, Ok (PollReady (mkRecord event payload detail cleanup)))
        | DataEmpty => Ret (t, Err (from_core_report (InternalReport "try_take_record")))
        end
    end.

Definition register_waker t (token : OpToken) (w : Waker) : outcome (SlotTable * CompletionMutationOutcome) :=
  let (idx, generation) := token_parts token in
  if negb (in_table t idx) then Ret (recorded_mutation t token (mutation_missing token)) else
  cell ← vec_get (tb_slots t) idx;
  if negb (slot_generation cell =? generation) then
    Ret (recorded_mutation t token
           (mutation_generation_mismatch idx generation (slot_generation cell) (slot_state cell)))
  else
    t ← with_slot t idx (fun d => set_waker d (Some w));
    (* the word is read again *)
    after ← vec_get (tb_slots t) idx;
    if negb (slot_generation after =? generation) then
      Ret (recorded_mutation t token
             (mutation_generation_mismatch idx generation (slot_generation after) (slot_state after)))
    else if state_eqb (slot_state after) InFlightReady && (slot_generation after =? generation) then
      Ret (recorded_mutation (emit t [Woke w]) token Applied)
    else
      Ret (recorded_mutation t token
             (match slot_state after with
              | InFlightWaiting | InFlightReady | Finalizing => Applied
              | s => mutation_non_active idx generation s
              end)).

Definition mark_waiting t (token : OpToken) : outcome (SlotTable * CompletionMutationOutcome) :=
  let (idx, generation) := token_parts token in
  if negb (in_table t idx) then Ret (recorded_mutation t token (mutation_missing token)) else
  cell ← vec_get (tb_slots t) idx;
  if negb (slot_generation cell =? generation) then
    Ret (recorded_mutation t token
           (mutation_generation_mismatch idx generation (slot_generation cell) (slot_state cell)))
  else
    match slot_state cell with
    | InFlightReady | InFlightWaiting => Ret (recorded_mutation t token Applied)
    | Finalizing => Fault SpinsForever
    | s => Ret (recorded_mutation t token (mutation_non_active idx generation s))
    end.

Definition discard_ready_record t (token : OpToken) : outcome (SlotTable * CompletionMutationOutcome) :=
  let (idx, generation) := token_parts token in
  if negb (in_table t idx) then Ret (recorded_mutation t token (mutation_missing token)) else
  cell ← vec_get (tb_slots t) idx;
  let same := slot_generation cell =? generation in
  match slot_state cell, same with
  | InFlightReady, true =>
      '(t, d) ← take_data t idx generation (sd_core cell);
      Ret (recorded_mutation (run_discarded_record_cleanup t d) token Applied)
  | Finalizing, _ => Fault SpinsForever
  | s, false =>
      Ret (recorded_mutation t token (mutation_generation_mismatch idx generation (slot_generation cell) s))
  | s, true => Ret (recorded_mutation t token (mutation_non_active idx generation s))
  end.

Definition mark_orphaned t (token : OpToken) : outcome (SlotTable * CompletionMutationOutcome) :=
  let (idx, generation) := token_parts token in
  if negb (in_table t idx) then Ret (recorded_mutation t token (mutation_missing token)) else
  cell ← vec_get (tb_slots t) idx;
  let same := slot_generation cell =? generation in
  match slot_state cell, same with
  | InFlightWaiting, true =>
      t ← with_slot t idx (fun d =>
            set_core d (with_generation (with_state (sd_core cell) InFlightOrphaned) generation));
      Ret (recorded_mutation t token Applied)
  | InFlightReady, true => discard_ready_record t token
  | Finalizing, _ => Fault SpinsForever
  | s, false =>
      Ret (recorded_mutation t token (mutation_generation_mismatch idx generation (slot_generation cell) s))
  | s, true => Ret (recorded_mutation t token (mutation_non_active idx generation s))
  end.
End completion.
