(* ===== verification/Registry.v ===== *)
(** * veloq-driver-core: the operation registry and slot views
      ([driver/registry.rs], [slot.rs])

    The driver's side of the slots: allocation from a free list whose head is
    taken over from the shared list when it runs empty, the driver's private
    half of each slot (operation, platform data, storage), and the typed views
    through which a backend works on a slot. *)

From stdpp Require Import strings.
From S2P Require Import Prelude Token SlotState Anomaly SlotTable.

Section registry.
Context `{Spec : SlotSpec}.

(** ** [OpRegistry] *)

Record LocalSlot : Type := mkLocal {
  ls_op : option SOp;
  ls_platform : SPlatform;          (* [OpEntry] *)
  ls_storage : SlotStorage;
  ls_active : bool;
  ls_generation : Z
}.
Definition local_slot_new : LocalSlot := mkLocal None platform_default storage_new false 0.

Record OpRegistry : Type := mkRegistry {
  rg_shared : SlotTable;
  rg_local : list LocalSlot;
  rg_local_free_head : Z;
  rg_active_count : Z
}.

Record OpHandle : Type := mkHandle { oh_index : Z; oh_generation : Z }.

Definition set_shared (r : OpRegistry) (t : SlotTable) : OpRegistry :=
  mkRegistry t (rg_local r) (rg_local_free_head r) (rg_active_count r).
Definition set_local (r : OpRegistry) (ls : list LocalSlot) : OpRegistry :=
  mkRegistry (rg_shared r) ls (rg_local_free_head r) (rg_active_count r).
Definition set_local_head (r : OpRegistry) (h : Z) : OpRegistry :=
  mkRegistry (rg_shared r) (rg_local r) h (rg_active_count r).
Definition set_active_count (r : OpRegistry) (n : Z) : OpRegistry :=
  mkRegistry (rg_shared r) (rg_local r) (rg_local_free_head r) n.

(** [for deferred_idx in deferred { push_free }] and the initial list. *)
Fixpoint push_free_all (t : SlotTable) (l : list Z) : outcome SlotTable :=
  match l with
  | [] => Ret t
  | i :: l => t ← push_free t i; push_free_all t l
  end.

Definition registry_new (capacity : nat) : outcome OpRegistry :=
  shared ← push_free_all (slot_table_new capacity) (reverse (Z.of_nat <$> seq 0 capacity));
  Ret (mkRegistry shared (replicate capacity local_slot_new) NULL_INDEX 0).

(** The slot at the head of the local list, once it is idle. *)
Definition occupy (r : OpRegistry) (idx : Z) (data : SPlatform) : outcome (OpRegistry * OpHandle) :=
  d ← vec_get (tb_slots (rg_shared r)) idx;
  let new_gen := wrapping_add U32 (slot_generation d) 1 in
  t ← with_slot (rg_shared r) idx (slot_reset new_gen);
  t ← with_slot t idx (slot_set_state Reserved);
  local ← vec_set (rg_local r) idx (mkLocal None data storage_new true new_gen);
  count ← arith USIZE_BITS (rg_active_count r + 1);
  Ret (mkRegistry t local (rg_local_free_head r) count, mkHandle idx new_gen).

Fixpoint alloc_loop (fuel : nat) (r : OpRegistry) (data : SPlatform) (deferred_non_idle : list Z)
    : outcome (OpRegistry * result OpHandle SPlatform) :=
  let flush (r : OpRegistry) :=
    t ← push_free_all (rg_shared r) deferred_non_idle; Ret (set_shared r t) in
  if rg_local_free_head r =? NULL_INDEX then r ← flush r; Ret (r, Err data) else
  match fuel with
  | O => Fault OutOfFuel
  | S fuel =>
      let idx := rg_local_free_head r in
      d ← vec_get (tb_slots (rg_shared r)) idx;
      let r := set_local_head r (sd_next_free d) in
      if negb (state_eqb (slot_state d) Idle)
      then alloc_loop fuel r data (deferred_non_idle ++ [idx])
      else
        '(r, handle) ← occupy r idx data;
        r ← flush r;
        Ret (r, Ok handle)
  end.

Definition registry_alloc (r : OpRegistry) (data : SPlatform) : outcome (OpRegistry * result OpHandle SPlatform) :=
  let r := if rg_local_free_head r =? NULL_INDEX
           then let (t, h) := pop_all (rg_shared r) in set_local_head (set_shared r t) h
           else r in
  alloc_loop (length (tb_slots (rg_shared r))) r data [].

(** [insert] is [alloc] with the data in an [OpEntry]. *)
Definition registry_insert := registry_alloc.

Definition is_current_active (r : OpRegistry) (token : OpToken) : bool :=
  let (user_data, generation) := token_parts token in
  match tb_slots (rg_shared r) !! Z.to_nat user_data with
  | Some d => (slot_generation d =? generation) && negb (state_eqb (slot_state d) Idle)
  | None => false
  end.

Definition active_tokens (r : OpRegistry) : list OpToken :=
  omap (fun id : nat * SlotData =>
          if state_eqb (slot_state id.2) Idle then None
          else match from_registry_parts (Z.of_nat id.1) (slot_generation id.2) with
               | Ok t => Some t
               | Err _ => None
               end) (imap pair (tb_slots (rg_shared r))).

Definition registry_capacity (r : OpRegistry) : Z := Z.of_nat (length (rg_local r)).
Definition has_active_ops (r : OpRegistry) : bool := 0 <? rg_active_count r.

Definition with_slot_storage_mut {X : Type} (r : OpRegistry) (token : OpToken)
    (f : SlotStorage -> SlotStorage * X) : outcome (OpRegistry * option X) :=
  if negb (is_current_active r token) then Ret (r, None) else
  match rg_local r !! Z.to_nat (tk_index token) with
  | Some l =>
      let (s, x) := f (ls_storage l) in
      local ← vec_set (rg_local r) (tk_index token)
                (mkLocal (ls_op l) (ls_platform l) s (ls_active l) (ls_generation l));
      Ret (set_local r local, Some x)
  | None => Ret (r, None)
  end.

(** [platform_mut] and [active_slot_bundle_mut]: what is written through the
    reference they give. *)
Definition active_local_mut {X : Type} (r : OpRegistry) (token : OpToken)
    (f : LocalSlot -> LocalSlot * X) : outcome (OpRegistry * option X) :=
  if negb (is_current_active r token) then Ret (r, None) else
  match rg_local r !! Z.to_nat (tk_index token) with
  | Some l =>
      let (l, x) := f l in
      local ← vec_set (rg_local r) (tk_index token) l;
      Ret (set_local r local, Some x)
  | None => Ret (r, None)
  end.

Definition platform_mut (r : OpRegistry) (token : OpToken) (p : SPlatform) : outcome OpRegistry :=
  '(r, _) ← active_local_mut r token (fun l =>
     (mkLocal (ls_op l) p (ls_storage l) (ls_active l) (ls_generation l), tt));
  Ret r.

(** [active_slot_bundle_mut(token).and_then(|(_, _, op, _)| op.take())] *)
Definition take_active_op (r : OpRegistry) (token : OpToken) : outcome (OpRegistry * option SOp) :=
  '(r, o) ← active_local_mut r token (fun l =>
     (mkLocal None (ls_platform l) (ls_storage l) (ls_active l) (ls_generation l), ls_op l));
  Ret (r, match o with Some op => op | None => None end).

(** What [remove_at_index] and [recycle_at_index] do to the private half. *)
Definition vacate (r : OpRegistry) (user_data : Z) : outcome (OpRegistry * SPlatform) :=
  l ← vec_get (rg_local r) user_data;
  local ← vec_set (rg_local r) user_data
            (mkLocal None platform_default storage_new false (ls_generation l));
  Ret (set_local r local, ls_platform l).

Definition remove_at_index (r : OpRegistry) (user_data : Z) : outcome (OpRegistry * SPlatform) :=
  '(r, data) ← vacate r user_data;
  t ← with_slot (rg_shared r) user_data slot_free;
  t ← push_free t user_data;
  Ret (set_active_count (set_shared r t) (saturating_sub (rg_active_count r) 1), data).

(** [finalize_checked], [finalize_waiting_completion] and
    [finalize_orphaned_completion] are [remove]. *)
Definition registry_remove (r : OpRegistry) (token : OpToken) : outcome (OpRegistry * option SPlatform) :=
  let (user_data, generation) := token_parts token in
  match rg_local r !! Z.to_nat user_data with
  | None => Ret (r, None)
  | Some l =>
      if negb (ls_active l) || negb (ls_generation l =? generation) then Ret (r, None)
      else '(r, data) ← remove_at_index r user_data; Ret (r, Some data)
  end.

Definition finalize_corrupt_slot (r : OpRegistry) (s : SlotSnapshot) : outcome (OpRegistry * option SPlatform) :=
  match snapshot_try_token s with
  | Ok token => registry_remove r token
  | Err _ => Ret (r, None)
  end.

Definition recycle_at_index (r : OpRegistry) (user_data generation : Z) : outcome OpRegistry :=
  '(r, _) ← vacate r user_data;
  d ← vec_get (tb_slots (rg_shared r)) user_data;
  let t := if state_eqb (slot_state d) InFlightReady then clear_ready_completion (rg_shared r)
           else rg_shared r in
  t ← with_slot t user_data (slot_reset generation);
  t ← push_free t user_data;
  Ret (set_active_count (set_shared r t) (saturating_sub (rg_active_count r) 1)).

Definition registry_recycle (r : OpRegistry) (token : OpToken) (next_generation : Z)
    : outcome (OpRegistry * bool) :=
  let (user_data, generation) := token_parts token in
  match rg_local r !! Z.to_nat user_data with
  | None => Ret (r, false)
  | Some l =>
      if negb (ls_active l) || negb (ls_generation l =? generation) then Ret (r, false)
      else r ← recycle_at_index r user_data next_generation; Ret (r, true)
  end.

(** ** Slot views

    A [Slot] borrows both halves of a slot; its type parameter is the state it
    was found in.  The model copies the halves out ([slot_bundle]) and writes
    them back ([commit_slot]) when the borrow ends. *)

Inductive SlotMarker : Type := MReserved | MWaiting | MOrphaned | MCompleted.

Record SlotCell : Type := mkCell {
  sl_entry : SlotData;
  sl_op : option SOp;
  sl_storage : SlotStorage;
  sl_platform : SPlatform;
  sl_index : Z
}.
Definition Slot (P : SlotMarker) : Type := SlotCell.

Definition slot_bundle (r : OpRegistry) (index : Z) : option SlotCell :=
  match tb_slots (rg_shared r) !! Z.to_nat index, rg_local r !! Z.to_nat index with
  | Some d, Some l => Some (mkCell d (ls_op l) (ls_storage l) (ls_platform l) index)
  | _, _ => None
  end.

Definition commit_slot (r : OpRegistry) (c : SlotCell) : outcome OpRegistry :=
  t ← with_slot (rg_shared r) (sl_index c) (fun _ => sl_entry c);
  l ← vec_get (rg_local r) (sl_index c);
  local ← vec_set (rg_local r) (sl_index c)
            (mkLocal (sl_op c) (sl_platform c) (sl_storage c) (ls_active l) (ls_generation l));
  Ret (set_local (set_shared r t) local).

Definition is_some {A} (o : option A) : bool := match o with Some _ => true | None => false end.

Definition slot_snapshot (c : SlotCell) : SlotSnapshot :=
  mkSnapshot (sl_index c) (slot_generation (sl_entry c)) (slot_state (sl_entry c))
    (is_some (sl_op c)) (is_some (sg_payload (sl_storage c))).

Inductive SlotAccessAction : Type :=
  | ActInitOp | ActStartSubmission | ActOpMut | ActOpPayloadMut | ActTakeOp | ActTakeCompletionData.
Inductive SlotAccessErrorReason : Type := MissingOp | MissingPayload | UnexpectedOp.
Record SlotAccessError : Type := mkAccessError {
  ae_action : SlotAccessAction;
  ae_reason : SlotAccessErrorReason;
  ae_snapshot : SlotSnapshot
}.

Definition access_error (c : SlotCell) (a : SlotAccessAction) (r : SlotAccessErrorReason) : SlotAccessError :=
  mkAccessError a r (slot_snapshot c).

Definition cell_entry (c : SlotCell) (d : SlotData) : SlotCell :=
  mkCell d (sl_op c) (sl_storage c) (sl_platform c) (sl_index c).
Definition cell_op (c : SlotCell) (o : option SOp) : SlotCell :=
  mkCell (sl_entry c) o (sl_storage c) (sl_platform c) (sl_index c).
Definition cell_storage (c : SlotCell) (s : SlotStorage) : SlotCell :=
  mkCell (sl_entry c) (sl_op c) s (sl_platform c) (sl_index c).

Definition cell_platform (c : SlotCell) (p : SPlatform) : SlotCell :=
  mkCell (sl_entry c) (sl_op c) (sl_storage c) p (sl_index c).

Definition with_sidecar_mut (c : SlotCell) (f : SSidecar -> SSidecar) : SlotCell :=
  cell_storage c (mkStorage (sg_result (sl_storage c)) (sg_payload (sl_storage c))
                    (f (sg_sidecar (sl_storage c)))).

Definition with_op_and_payload_mut {X} (c : SlotCell) (f : SOp -> SPayload -> SOp * SPayload * X)
    : SlotCell * result X SlotAccessError :=
  match sl_op c, sg_payload (sl_storage c) with
  | None, _ => (c, Err (access_error c ActOpPayloadMut MissingOp))
  | Some _, None => (c, Err (access_error c ActOpPayloadMut MissingPayload))
  | Some o, Some p =>
      let '(o, p, x) := f o p in
      (cell_storage (cell_op c (Some o))
         (mkStorage (sg_result (sl_storage c)) (Some p) (sg_sidecar (sl_storage c))), Ok x)
  end.

Definition with_op_mut {X} (c : SlotCell) (f : SOp -> SOp * X) : SlotCell * result X SlotAccessError :=
  match sl_op c with
  | None => (c, Err (access_error c ActOpMut MissingOp))
  | Some o => let (o, x) := f o in (cell_op c (Some o), Ok x)
  end.

Definition try_bind (c : SlotCell) : option (Slot MReserved) :=
  if state_eqb (slot_state (sl_entry c)) Reserved && negb (is_some (sl_op c)) then Some c else None.

Definition init_op_with (c : Slot MReserved) (op : SOp) (init_sidecar : SSidecar -> SSidecar)
    : result (Slot MReserved) SlotAccessError :=
  if is_some (sl_op c) then Err (access_error c ActInitOp UnexpectedOp)
  else Ok (with_sidecar_mut (cell_op c (Some op)) init_sidecar).

Record SubmissionGuard : Type := mkGuard {
  gd_slot : option (Slot MReserved);
  gd_rollback : option (Slot MReserved -> Slot MReserved);
  gd_persisted : bool
}.

Definition start_submission_with (c : Slot MReserved) (rollback : option (Slot MReserved -> Slot MReserved))
    : result SubmissionGuard SlotAccessError :=
  if negb (is_some (sl_op c)) then Err (access_error c ActStartSubmission MissingOp)
  else Ok (mkGuard (Some (cell_entry c (slot_set_state InFlightWaiting (sl_entry c)))) rollback false).

Definition guard_persist (g : SubmissionGuard) : outcome (Slot MWaiting) := expect (gd_slot g).

(** [Drop for SubmissionGuard]: a submission that was not persisted is undone. *)
Definition guard_rollback (g : SubmissionGuard) : option (Slot MReserved) :=
  match gd_persisted g, gd_slot g with
  | false, Some c =>
      let c := match gd_rollback g with Some f => f c | None => c end in
      Some (cell_entry c (slot_set_state Reserved (sl_entry c)))
  | _, o => o
  end.

Definition complete_waiting_slot (c : Slot MWaiting) : Slot MCompleted := c.
Definition complete_orphaned_slot (c : Slot MOrphaned) : Slot MCompleted := c.

Definition cancel_slot (c : Slot MWaiting) : Slot MOrphaned :=
  cell_entry c (slot_set_state InFlightOrphaned (sl_entry c)).

Definition completed_reset (c : Slot MCompleted) : Slot MReserved :=
  let generation := slot_generation (sl_entry c) in
  mkCell (slot_set_state Reserved (slot_reset generation (sl_entry c))) None storage_new
    (sl_platform c) (sl_index c).

Definition take_op (c : Slot MCompleted) : Slot MCompleted * result SOp SlotAccessError :=
  match sl_op c with
  | Some o => (cell_op c None, Ok o)
  | None => (c, Err (access_error c ActTakeOp MissingOp))
  end.

Definition take_completion_data (c : Slot MCompleted) : Slot MCompleted * (option SPayload * Detail) :=
  (cell_storage c (mkStorage None None (sg_sidecar (sl_storage c))),
   (sg_payload (sl_storage c), sg_result (sl_storage c))).

Definition take_completion_data_checked (c : Slot MCompleted)
    : Slot MCompleted * result (option SPayload * Detail) SlotAccessError :=
  if negb (is_some (sg_payload (sl_storage c)))
  then (c, Err (access_error c ActTakeCompletionData MissingPayload))
  else let (c, d) := take_completion_data c in (c, Ok d).

Inductive SlotView : Type :=
  | ViewReserved (s : Slot MReserved)
  | ViewWaiting (s : Slot MWaiting)
  | ViewOrphaned (s : Slot MOrphaned).

Inductive CheckedSlotView : Type :=
  | Valid (v : SlotView)
  | Missing (index expected_generation : Z)
  | Empty (s : SlotSnapshot)
  | StaleView (s : SlotSnapshot).

Definition checked_slot_view (r : OpRegistry) (token : OpToken) : result CheckedSlotView SError :=
  let (index, expected_generation) := token_parts token in
  match slot_bundle r index with
  | None => Ok (Missing index expected_generation)
  | Some c =>
      let snapshot := slot_snapshot c in
      let state := sn_state snapshot in
      let corrupt := Err (from_core_report (InternalReport "checked_slot_view")) in
      if negb (sn_generation snapshot =? expected_generation) then Ok (StaleView snapshot) else
      match state with
      | InFlightWaiting | InFlightOrphaned =>
          if negb (sn_has_op snapshot) || negb (sn_has_payload snapshot) then corrupt
          else Ok (Valid (match state with InFlightWaiting => ViewWaiting c | _ => ViewOrphaned c end))
      | Idle | InFlightReady | Finalizing | ReservedValue => Ok (Empty snapshot)
      | Reserved =>
          match try_bind c with
          | Some s => Ok (Valid (ViewReserved s))
          | None => corrupt
          end
      end
  end.
End registry.
