(* ===== verification/Flow.v ===== *)
(** * veloq-driver-core: routing of completions
      ([completion/routing.rs], [completion/flow.rs], [completion/cancel.rs])

    What the driver does with a completion, whether it comes from the kernel, a
    timer, a cancellation or the backend: find the slot it names, let the
    backend finish the operation, record the result for the future that waits,
    and release the slot.  The backend is the class [CompletionBackendHooks];
    table and diagnostics are those of the registry, as in both drivers. *)

From stdpp Require Import strings.
From S2P Require Import Prelude Token SlotState Anomaly SlotTable Completion Registry.

(** [?]: go on with the value of a call that changes the state, or return its
    error with the state it left. *)
Definition and_then {S A B E : Type} (m : outcome (S * result A E))
    (k : S -> A -> outcome (S * result B E)) : outcome (S * result B E) :=
  '(s, r) ← m;
  match r with Ok a => k s a | Err e => Ret (s, Err e) end.

Notation "'try' ( s , x ) := m 'in' k" := (and_then m (fun s x => k))
  (at level 200, s name, x name, m at level 100, k at level 200, only parsing).

(** ** Kinds of completions and outcomes *)

Inductive SyntheticCompletionSource : Type := SrcTimer | SrcCancel | SrcSubmissionFailure.

Inductive CompletionIngress (I : Type) : Type :=
  | IngressKernel (e : CompletionEnvelope)
  | IngressUser (e : UserCompletionEvent)
  | IngressSynthetic (e : UserCompletionEvent) (s : SyntheticCompletionSource)
  | IngressBackend (b : I)
  | IngressAnomaly (k : CompletionAnomalyKind) (a : AnomalyAttach).
Arguments IngressKernel {I}.
Arguments IngressUser {I}.
Arguments IngressSynthetic {I}.
Arguments IngressBackend {I}.
Arguments IngressAnomaly {I}.

Inductive CompletionSource (I : Type) : Type :=
  | FromKernel
  | FromUser
  | FromSynthetic (s : SyntheticCompletionSource)
  | FromBackend (b : I).
Arguments FromKernel {I}.
Arguments FromUser {I}.
Arguments FromSynthetic {I}.
Arguments FromBackend {I}.

Inductive CompletionControl : Type :=
  | ControlWaker (id : Z) (raw : RawCompletion)
  | ControlCancel (id : CancelCompletionId) (raw : RawCompletion).

Record CompletionFlowOutcome : Type := mkFlow {
  fo_user_completed : Z;
  fo_orphan_cleaned : Z;
  fo_internal : Z;
  fo_anomaly : Z;
  fo_ignored : Z
}.

Definition semantic_count (o : CompletionFlowOutcome) : outcome Z :=
  a ← arith USIZE_BITS (fo_user_completed o + fo_orphan_cleaned o);
  b ← arith USIZE_BITS (a + fo_internal o);
  arith USIZE_BITS (b + fo_anomaly o).

Definition flow_merge (a b : CompletionFlowOutcome) : outcome CompletionFlowOutcome :=
  u ← arith USIZE_BITS (fo_user_completed a + fo_user_completed b);
  c ← arith USIZE_BITS (fo_orphan_cleaned a + fo_orphan_cleaned b);
  i ← arith USIZE_BITS (fo_internal a + fo_internal b);
  n ← arith USIZE_BITS (fo_anomaly a + fo_anomaly b);
  g ← arith USIZE_BITS (fo_ignored a + fo_ignored b);
  Ret (mkFlow u c i n g).

Definition flow_user_completed : CompletionFlowOutcome := mkFlow 1 0 0 0 0.
Definition flow_orphan_cleaned : CompletionFlowOutcome := mkFlow 0 1 0 0 0.
Definition flow_internal : CompletionFlowOutcome := mkFlow 0 0 1 0 0.
Definition flow_anomaly : CompletionFlowOutcome := mkFlow 0 0 0 1 0.
Definition flow_ignored : CompletionFlowOutcome := mkFlow 0 0 0 0 1.

Inductive FinalizeAction : Type :=
  | FinalizeWaiting (e : UserCompletionEvent)
  | FinalizeOrphaned (e : UserCompletionEvent).

(** ** The backend *)

Section hook_outcome.
Context `{Spec : SlotSpec}.

Inductive CompletionHookOutcome (E : Type) : Type :=
  | HookUser (event : UserCompletionEvent) (payload : SPayload) (detail : Detail)
      (cleanup : CleanupGuard) (eff : E)
  | HookCleanup (cleanup : CleanupGuard) (eff : E)
  | HookAnomaly (kind : CompletionAnomalyKind) (attach : AnomalyAttach) (eff : E)
  | HookControlHandled (eff : E)
  | HookIgnore (eff : E).

Inductive CompletionBackendIngressAction (E : Type) : Type :=
  | RouteUser (event : UserCompletionEvent)
  | Finish (o : CompletionHookOutcome E).

(** The default body of the hook [complete_corrupt]. *)
Definition complete_corrupt_default {E : Type} (effect_default : E) (event : UserCompletionEvent)
    (kind : CompletionAnomalyKind) : CompletionHookOutcome E :=
  HookAnomaly _ kind (attach_from_raw_completion (ue_raw event)) effect_default.
End hook_outcome.
Arguments HookUser {Spec E}.
Arguments HookCleanup {Spec E}.
Arguments HookAnomaly {Spec E}.
Arguments HookControlHandled {Spec E}.
Arguments HookIgnore {Spec E}.
Arguments RouteUser {Spec E}.
Arguments Finish {Spec E}.

(** The hooks work on their own state [H]; those that are given a slot return
    what they leave in it. *)
Class CompletionBackendHooks `{Spec : SlotSpec} (H : Type) : Type := {
  BackendIngress : Type;
  BackendEffect : Type;
  backend_effect_default : BackendEffect;
  handle_control : H -> CompletionControl -> H * result (CompletionHookOutcome BackendEffect) SError;
  complete_waiting : H -> UserCompletionEvent -> Slot MWaiting -> CompletionSource BackendIngress ->
    H * SlotCell * result (CompletionHookOutcome BackendEffect) SError;
  complete_orphaned : H -> UserCompletionEvent -> Slot MOrphaned -> CompletionSource BackendIngress ->
    H * SlotCell * result (CompletionHookOutcome BackendEffect) SError;
  complete_corrupt : H -> UserCompletionEvent -> CompletionAnomalyKind ->
    CompletionSource BackendIngress -> H * result (CompletionHookOutcome BackendEffect) SError;
  complete_backend_ingress : H -> BackendIngress ->
    H * result (CompletionBackendIngressAction BackendEffect) SError;
  finish_backend_effect : H -> BackendEffect -> H * result unit SError
}.

Section flow.
Context `{Spec : SlotSpec} {H : Type} `{Hooks : !CompletionBackendHooks H}.
Notation St := (OpRegistry * H)%type.
Implicit Types s : St.

(** ** Routing *)

Inductive RoutedSlotCompletion : Type :=
  | RoutedWaiting (c : Slot MWaiting)
  | RoutedOrphaned (c : Slot MOrphaned)
  | RoutedMissing (kind : CompletionAnomalyKind)
  | RoutedEmpty (kind : CompletionAnomalyKind)
  | RoutedStale (kind : CompletionAnomalyKind).

Definition slot_view_kind (token : OpToken) (view : CheckedSlotView)
    : result SlotView CompletionAnomalyKind :=
  let (index, expected_generation) := token_parts token in
  match view with
  | Valid slot => Ok slot
  | Missing _ _ => Err (UnknownSlot index expected_generation)
  | Empty sn => Err (NonActive (sn_index sn) expected_generation (sn_state sn))
  | StaleView sn => Err (Stale (sn_index sn) expected_generation (sn_generation sn) (sn_state sn))
  end.

Definition route_user_completion (event : UserCompletionEvent) (view : CheckedSlotView)
    : outcome (result RoutedSlotCompletion SError) :=
  match slot_view_kind (ue_token event) view with
  | Ok (ViewWaiting c) => Ret (Ok (RoutedWaiting c))
  | Ok (ViewOrphaned c) => Ret (Ok (RoutedOrphaned c))
  | Ok (ViewReserved _) => Ret (Err (from_core_report (InternalReport "route_user_completion")))
  | Err kind =>
      match kind_reason kind with
      | ReasonUnknownSlot => Ret (Ok (RoutedMissing kind))
      | ReasonNonActiveSlot => Ret (Ok (RoutedEmpty kind))
      | ReasonStaleGeneration => Ret (Ok (RoutedStale kind))
      | _ => Fault ExplicitPanic
      end
  end.

(** [record_finalize_failure]; only the snapshot in its note differs. *)
Definition record_finalize_failure (r : OpRegistry) (token : OpToken) : result unit SError :=
  match checked_slot_view r token with
  | Err e => Err e
  | Ok _ => Err (from_core_report (InternalReport "record_finalize_failure"))
  end.

(** [finalize_waiting_checked] and [finalize_orphaned_checked]. *)
Definition finalize_checked s (token : OpToken) : outcome (St * result unit SError) :=
  '(r, o) ← registry_remove s.1 token;
  match o with
  | Some _ => Ret ((r, s.2), Ok tt)
  | None => Ret ((r, s.2), record_finalize_failure r token)
  end.

Inductive CancelTargetGoneReason : Type := GoneMissing | GoneStale | GoneCorrupt.

Definition cancel_target_kind (token : OpToken) (view : CheckedSlotView)
    : CancelTargetGoneReason * CompletionAnomalyKind :=
  let kind :=
    match slot_view_kind token view with
    | Ok v =>
        let sn := match v with ViewReserved c | ViewWaiting c | ViewOrphaned c => slot_snapshot c end in
        NonActive (sn_index sn) (tk_generation token) (sn_state sn)
    | Err kind => kind
    end in
  (match kind_reason kind with ReasonStaleGeneration => GoneStale | _ => GoneMissing end, kind).

(** ** The flow *)

Definition lift_hook {A : Type} (r : OpRegistry) (x : H * result A SError) : outcome (St * result A SError) :=
  Ret ((r, x.1), x.2).

(** An error leaves with [?] and drops the guard of a clean-up, which runs it. *)
Definition lift_hook_guarding {A : Type} (r : OpRegistry) (g : CleanupGuard) (x : H * result A SError) : outcome (St * result A SError) :=
  Ret ((match x.2 with Ok _ => r | Err _ => set_shared r (guard_drop (rg_shared r) g) end, x.1), x.2).

Definition update_table s (f : SlotTable -> SlotTable) : St := (set_shared s.1 (f (rg_shared s.1)), s.2).

Definition record_user_completion s (p : CompletionPacket) : outcome (St * RecordCompletionOutcome) :=
  '(t, res) ← record_completion (rg_shared s.1) p;
  match res with
  | ResRecorded o => Ret ((set_shared s.1 t, s.2), o)
  | ResRejected o p => Ret ((set_shared s.1 (run_rejected_cleanup t p), s.2), o)
  end.

Definition finish_waiting_if_needed s (finalize : option FinalizeAction) (fallback : UserCompletionEvent)
    : outcome (St * result unit SError) :=
  let event := match finalize with Some (FinalizeWaiting e) => e | _ => fallback end in
  finalize_checked s (ue_token event).

Definition finish_orphaned s (event : UserCompletionEvent) : outcome (St * result unit SError) :=
  finalize_checked s (ue_token event).

Definition completion_progress_from_record (o : RecordCompletionOutcome) : CompletionFlowOutcome :=
  match o with
  | RecordedUser => flow_user_completed
  | OrphanedDropped => flow_orphan_cleaned
  | RecordRejected _ => flow_anomaly
  end.

Definition finish_hook_outcome s (o : CompletionHookOutcome BackendEffect) (finalize : option FinalizeAction)
    : outcome (St * result CompletionFlowOutcome SError) :=
  match o with
  | HookUser event payload detail cleanup eff =>
      try (s1, _u) := lift_hook_guarding s.1 cleanup (finish_backend_effect s.2 eff) in
      '(s2, record) ← record_user_completion s1 (packet_user_with_cleanup event payload detail cleanup);
      try (s3, _u) := finish_waiting_if_needed s2 finalize event in
      Ret (s3, Ok (completion_progress_from_record record))
  | HookCleanup cleanup eff =>
      try (s1, _u) := lift_hook_guarding s.1 cleanup (finish_backend_effect s.2 eff) in
      let s2 := update_table s1 (fun t => (run_completion_cleanup t cleanup).1.1) in
      try (s3, _u) :=
        match finalize with
        | Some (FinalizeWaiting event) => finish_waiting_if_needed s2 finalize event
        | Some (FinalizeOrphaned event) => finish_orphaned s2 event
        | None => Ret (s2, Ok tt)
        end in
      Ret (s3, Ok flow_orphan_cleaned)
  | HookAnomaly kind attach eff =>
      let s1 := update_table s (fun t => note_anomaly t kind attach) in
      try (s2, _u) := lift_hook s1.1 (finish_backend_effect s1.2 eff) in Ret (s2, Ok flow_anomaly)
  | HookControlHandled eff =>
      try (s1, _u) := lift_hook s.1 (finish_backend_effect s.2 eff) in Ret (s1, Ok flow_internal)
  | HookIgnore eff =>
      try (s1, _u) := lift_hook s.1 (finish_backend_effect s.2 eff) in Ret (s1, Ok flow_ignored)
  end.

(** A hook that was lent a slot. *)
Definition with_hook_slot s (x : H * SlotCell * result (CompletionHookOutcome BackendEffect) SError)
    (finalize : FinalizeAction) : outcome (St * result CompletionFlowOutcome SError) :=
  let '(h, c, o) := x in
  r ← commit_slot s.1 c;
  match o with
  | Ok o => finish_hook_outcome (r, h) o (Some finalize)
  | Err e => Ret ((r, h), Err e)
  end.

Definition accept_user_event s (event : UserCompletionEvent) (source : CompletionSource BackendIngress)
    : outcome (St * result CompletionFlowOutcome SError) :=
  match checked_slot_view s.1 (ue_token event) with
  | Err e => Ret (s, Err e)
  | Ok view =>
      routed ← route_user_completion event view;
      match routed with
      | Err e => Ret (s, Err e)
      | Ok (RoutedWaiting c) =>
          with_hook_slot s (complete_waiting s.2 event c source) (FinalizeWaiting event)
      | Ok (RoutedOrphaned c) =>
          with_hook_slot s (complete_orphaned s.2 event c source) (FinalizeOrphaned event)
      | Ok (RoutedMissing kind) | Ok (RoutedEmpty kind) | Ok (RoutedStale kind) =>
          try (s1, o) := lift_hook s.1 (complete_corrupt s.2 event kind source) in
          finish_hook_outcome s1 o None
      end
  end.

Definition accept_completion s (ingress : CompletionIngress BackendIngress)
    : outcome (St * result CompletionFlowOutcome SError) :=
  match ingress with
  | IngressKernel envelope =>
      d ← dispatch_envelope envelope;
      match d with
      | DispatchUser event => accept_user_event s event FromKernel
      | DispatchWaker id raw =>
          try (s1, o) := lift_hook s.1 (handle_control s.2 (ControlWaker id raw)) in
          finish_hook_outcome s1 o None
      | DispatchCancel id raw =>
          try (s1, o) := lift_hook s.1 (handle_control s.2 (ControlCancel id raw)) in
          finish_hook_outcome s1 o None
      | DispatchUnknown _ => Ret (s, Err (from_core_report (InternalReport "driver-core/completion")))
      end
  | IngressUser event => accept_user_event s event FromUser
  | IngressSynthetic event source => accept_user_event s event (FromSynthetic source)
  | IngressBackend b =>
      try (s1, action) := lift_hook s.1 (complete_backend_ingress s.2 b) in
      match action with
      | RouteUser event => accept_user_event s1 event (FromBackend b)
      | Finish o => finish_hook_outcome s1 o None
      end
  | IngressAnomaly kind attach =>
      Ret (update_table s (fun t => note_anomaly t kind attach), Ok flow_anomaly)
  end.
End flow.
