(* ===== verification/RegistryInv.v ===== *)
(** * The free lists of the operation registry

    The invariant of [OpRegistry]: the local and the shared free list are
    disjoint chains through [next_free], and hold exactly the slots that are
    not active.  Allocation and release keep it, and so does everything that
    leaves the links alone, in particular all completion calls. *)

From S2P Require Import Prelude Token SlotState Anomaly SlotTable Registry.

Section inv.
Context `{Spec : SlotSpec}.
Implicit Types (ss : list SlotData) (t : SlotTable) (r : OpRegistry) (l L R : list Z).

(** ** Chains *)

Definition link_at ss (i : Z) : option Z := sd_next_free <$> ss !! Z.to_nat i.

Fixpoint chain ss (h : Z) l : Prop :=
  match l with
  | [] => h = NULL_INDEX
  | i :: l => h = i /\ 0 <= i /\ exists nx, link_at ss i = Some nx /\ chain ss nx l
  end.

Lemma chain_frame ss ss' h l :
  (forall i, i ∈ l -> link_at ss' i = link_at ss i) -> chain ss h l -> chain ss' h l.
Proof.
  revert h. induction l as [| i l IH]; intros h Heq; [done |].
  intros (-> & Hi & nx & Hnx & Hc). split_and!; [done | done |]. exists nx.
  split; [rewrite Heq by left; done |]. apply IH; [| done]. intros j Hj. apply Heq. by right.
Qed.

Lemma chain_range ss h l i : chain ss h l -> i ∈ l -> 0 <= i < Z.of_nat (length ss).
Proof.
  revert h. induction l as [| j l IH]; intros h; [by intros _ []%elem_of_nil |].
  intros (-> & Hi & nx & Hnx & Hc) [-> | Hin]%elem_of_cons; [| by eapply IH].
  unfold link_at in Hnx. apply fmap_Some in Hnx as (d & Hd & _). apply lookup_lt_Some in Hd. lia.
Qed.

Lemma chain_head ss h l : Z.of_nat (length ss) <= NULL_INDEX -> chain ss h l ->
  (h = NULL_INDEX <-> l = []).
Proof.
  intros Hn Hc. destruct l as [| i l]; [done |]. split; [| done].
  destruct Hc as (-> & Hi & nx & Hnx & _). intros ->. unfold link_at in Hnx.
  apply fmap_Some in Hnx as (d & Hd & _). apply lookup_lt_Some in Hd. lia.
Qed.

Lemma link_insert_ne ss i j d : 0 <= i -> 0 <= j -> i <> j ->
  link_at (<[Z.to_nat i := d]> ss) j = link_at ss j.
Proof. intros Hi Hj Hne. unfold link_at. rewrite list_lookup_insert_ne by lia. done. Qed.

Lemma link_insert_eq ss i d : 0 <= i < Z.of_nat (length ss) ->
  link_at (<[Z.to_nat i := d]> ss) i = Some (sd_next_free d).
Proof. intros Hi. unfold link_at. by rewrite list_lookup_insert_eq by lia. Qed.

(** An update that keeps the link keeps every chain. *)
Lemma link_same ss i d d' : ss !! Z.to_nat i = Some d -> sd_next_free d' = sd_next_free d ->
  0 <= i -> forall j, 0 <= j -> link_at (<[Z.to_nat i := d']> ss) j = link_at ss j.
Proof.
  intros Hd Hn Hi j Hj. destruct (decide (i = j)) as [<- | Hne]; [| by apply link_insert_ne].
  pose proof (lookup_lt_Some _ _ _ Hd). unfold link_at.
  rewrite list_lookup_insert_eq by lia. rewrite Hd. cbn. by rewrite Hn.
Qed.

(** ** Calls on one slot *)

Lemma with_slot_ok t i d (f : SlotData -> SlotData) :
  0 <= i -> tb_slots t !! Z.to_nat i = Some d ->
  with_slot t i f = Ret (set_slots t (<[Z.to_nat i := f d]> (tb_slots t))).
Proof.
  intros Hi Hd. pose proof (lookup_lt_Some _ _ _ Hd). unfold with_slot.
  rewrite (vec_get_lookup _ _ _ Hi Hd), bind_ret, vec_set_in_range, bind_ret by lia. done.
Qed.

Lemma push_free_ok t i d :
  0 <= i -> tb_slots t !! Z.to_nat i = Some d ->
  push_free t i =
    Ret (set_head (set_slots t (<[Z.to_nat i := set_next_free d (tb_remote_free_head t)]> (tb_slots t))) i).
Proof. intros Hi Hd. unfold push_free. by rewrite (with_slot_ok _ _ _ _ Hi Hd), bind_ret. Qed.

(** States, generations and records are not touched by list operations. *)
Definition same_cells ss ss' : Prop :=
  length ss' = length ss /\
  forall k d, ss !! k = Some d -> exists n, ss' !! k = Some (set_next_free d n).

Lemma same_cells_refl ss : same_cells ss ss.
Proof. split; [done |]. intros k d Hd. exists (sd_next_free d). rewrite Hd. by destruct d. Qed.

Lemma same_cells_trans ss1 ss2 ss3 : same_cells ss1 ss2 -> same_cells ss2 ss3 -> same_cells ss1 ss3.
Proof.
  intros [Hl1 H1] [Hl2 H2]. split; [congruence |]. intros k d Hd.
  destruct (H1 k d Hd) as [n Hn]. destruct (H2 k _ Hn) as [m Hm]. exists m. by rewrite Hm.
Qed.

(** Pushing a list of free slots onto the shared chain, next to another chain. *)
Lemma push_free_all_ok l : forall t L R h,
  chain (tb_slots t) (tb_remote_free_head t) R -> chain (tb_slots t) h L ->
  NoDup (l ++ L ++ R) -> (forall i, i ∈ l -> 0 <= i < Z.of_nat (length (tb_slots t))) ->
  exists t', push_free_all t l = Ret t' /\
    chain (tb_slots t') (tb_remote_free_head t') (reverse l ++ R) /\ chain (tb_slots t') h L /\
    same_cells (tb_slots t) (tb_slots t') /\
    (forall j, 0 <= j -> j ∉ l -> link_at (tb_slots t') j = link_at (tb_slots t) j) /\
    tb_ready_count t' = tb_ready_count t /\ tb_diagnostics t' = tb_diagnostics t /\
    tb_trace t' = tb_trace t.
Proof.
  induction l as [| i l IH]; intros t L R h HR HL Hnd Hr.
  { exists t. split; [done |]. rewrite reverse_nil. split_and!; try done. apply same_cells_refl. }
  assert (Hi : 0 <= i < Z.of_nat (length (tb_slots t))) by (apply Hr; left).
  destruct (lookup_lt_is_Some_2 (tb_slots t) (Z.to_nat i)) as [d Hd]; [lia |].
  rewrite <- app_comm_cons in Hnd. apply NoDup_cons in Hnd as [Hni Hnd].
  assert (HiL : i ∉ L) by set_solver. assert (HiR : i ∉ R) by set_solver.
  set (ss1 := <[Z.to_nat i := set_next_free d (tb_remote_free_head t)]> (tb_slots t)).
  assert (Hlen : length ss1 = length (tb_slots t)) by apply length_insert.
  assert (Hlk : forall j, 0 <= j -> j <> i -> link_at ss1 j = link_at (tb_slots t) j)
    by (intros j Hj Hne; unfold ss1; apply link_insert_ne; lia).
  destruct (IH (set_head (set_slots t ss1) i) L (i :: R) h) as (t' & He & HR' & HL' & Hs & Hl & Hrest).
  - cbn. split_and!; [done | lia |]. exists (tb_remote_free_head t).
    split; [by apply link_insert_eq |]. eapply chain_frame; [| exact HR]. intros j Hj.
    pose proof (chain_range _ _ _ _ HR Hj). apply Hlk; [lia | by intros ->].
  - eapply chain_frame; [| exact HL]. intros j Hj.
    pose proof (chain_range _ _ _ _ HL Hj). apply Hlk; [lia | by intros ->].
  - rewrite !NoDup_app, NoDup_cons in *. set_solver.
  - intros j Hj. cbn. rewrite Hlen. apply Hr. by right.
  - exists t'. split; [cbn [push_free_all]; by rewrite (push_free_ok _ _ _ (proj1 Hi) Hd), bind_ret |].
    rewrite reverse_cons, <- app_assoc. split_and!; try done; try apply Hrest.
    + eapply same_cells_trans; [| exact Hs]. split; [done |]. intros k x Hx.
      destruct (decide (k = Z.to_nat i)) as [-> | Hne].
      * rewrite Hd in Hx. injection Hx as <-. eexists. cbn. apply list_lookup_insert_eq. lia.
      * exists (sd_next_free x). cbn. unfold ss1. rewrite list_lookup_insert_ne, Hx by done. by destruct x.
    + intros j Hj Hjl. rewrite Hl by set_solver. cbn. apply Hlk; [done | set_solver].
Qed.

(** ** The invariant *)

Definition local_active (ls : list LocalSlot) (i : Z) : bool :=
  match ls !! Z.to_nat i with Some s => ls_active s | None => false end.

Fixpoint active_number (ls : list LocalSlot) : Z :=
  match ls with [] => 0 | s :: ls => Z.b2z (ls_active s) + active_number ls end.

Lemma active_number_insert ls k s s' : ls !! k = Some s ->
  active_number (<[k := s']> ls) = active_number ls - Z.b2z (ls_active s) + Z.b2z (ls_active s').
Proof.
  revert k. induction ls as [| x ls IH]; intros [| k] Hk; try done.
  - injection Hk as ->. cbn. lia.
  - change (<[S k := s']> (x :: ls)) with (x :: <[k := s']> ls).
    cbn [active_number]. rewrite (IH k Hk). lia.
Qed.

Lemma active_number_range ls : 0 <= active_number ls <= Z.of_nat (length ls).
Proof. induction ls as [| s ls IH]; [done |]. cbn [active_number length]. destruct (ls_active s); cbn; lia. Qed.

(** Between two steps of an allocation the slots of [D] are in neither list. *)
Record reg_okd r D L R : Prop := {
  ro_len : length (rg_local r) = length (tb_slots (rg_shared r));
  ro_cap : Z.of_nat (length (rg_local r)) <= NULL_INDEX;
  ro_local : chain (tb_slots (rg_shared r)) (rg_local_free_head r) L;
  ro_remote : chain (tb_slots (rg_shared r)) (tb_remote_free_head (rg_shared r)) R;
  ro_nodup : NoDup (D ++ L ++ R);
  ro_deferred : forall i, i ∈ D -> 0 <= i < Z.of_nat (length (rg_local r));
  ro_free : forall i, 0 <= i < Z.of_nat (length (rg_local r)) ->
    (i ∈ D ++ L ++ R <-> local_active (rg_local r) i = false);
  ro_count : rg_active_count r = active_number (rg_local r);
  ro_gen : Forall (fun d => 0 <= slot_generation d < 2 ^ 32) (tb_slots (rg_shared r))
}.

Definition reg_ok r L R : Prop := reg_okd r [] L R.

(** What list operations keep. *)
Definition same_table t t' : Prop :=
  same_cells (tb_slots t) (tb_slots t') /\ tb_ready_count t' = tb_ready_count t /\
  tb_diagnostics t' = tb_diagnostics t /\ tb_trace t' = tb_trace t.

Lemma same_cells_gen ss ss' : same_cells ss ss' ->
  Forall (fun d => 0 <= slot_generation d < 2 ^ 32) ss ->
  Forall (fun d => 0 <= slot_generation d < 2 ^ 32) ss'.
Proof.
  intros [Hl Hs] Hf. apply Forall_lookup_2. intros k d Hd.
  destruct (lookup_lt_is_Some_2 ss k) as [x Hx]; [apply lookup_lt_Some in Hd; lia |].
  destruct (Hs k x Hx) as [n Hn]. rewrite Hd in Hn. injection Hn as ->.
  exact (Forall_lookup_1 _ _ _ _ Hf Hx).
Qed.

Lemma reg_slot_lookup r D L R i : reg_okd r D L R -> 0 <= i < Z.of_nat (length (rg_local r)) ->
  exists d s, tb_slots (rg_shared r) !! Z.to_nat i = Some d /\ rg_local r !! Z.to_nat i = Some s.
Proof.
  intros Ho Hi. pose proof (ro_len _ _ _ _ Ho).
  destruct (lookup_lt_is_Some_2 (tb_slots (rg_shared r)) (Z.to_nat i)) as [d Hd]; [lia |].
  destruct (lookup_lt_is_Some_2 (rg_local r) (Z.to_nat i)) as [s Hs]; [lia |]. eauto.
Qed.

Lemma flush_ok r D L R : reg_okd r D L R ->
  exists t, push_free_all (rg_shared r) D = Ret t /\ same_table (rg_shared r) t /\
    reg_ok (set_shared r t) L (reverse D ++ R).
Proof.
  intros [Hlen Hcap HL HR Hnd Hdef Hfree Hcnt Hgen].
  destruct (push_free_all_ok D (rg_shared r) L R (rg_local_free_head r))
    as (t & He & HR' & HL' & Hs & _ & H1 & H2 & H3); try done.
  { intros i Hi. specialize (Hdef i Hi). lia. }
  exists t. split; [done |]. split; [done |].
  assert (Hp : D ++ L ++ R ≡ₚ L ++ reverse D ++ R) by (rewrite reverse_Permutation; solve_Permutation).
  split; cbn [rg_local rg_shared rg_local_free_head rg_active_count set_shared]; try done.
  - rewrite Hlen. symmetry. apply Hs.
  - cbn. by rewrite <- Hp.
  - by intros i []%elem_of_nil.
  - intros i Hi. rewrite app_nil_l, <- Hp. by apply Hfree.
  - by eapply same_cells_gen.
Qed.

Lemma defer_ok r D i L R d : reg_okd r D (i :: L) R ->
  tb_slots (rg_shared r) !! Z.to_nat i = Some d ->
  reg_okd (set_local_head r (sd_next_free d)) (D ++ [i]) L R.
Proof.
  intros [Hlen Hcap HL HR Hnd Hdef Hfree Hcnt Hgen] Hd.
  assert (Hir : 0 <= i < Z.of_nat (length (rg_local r)))
    by (rewrite Hlen; eapply chain_range; [exact HL | left]).
  destruct HL as (_ & _ & nx & Hnx & HL). unfold link_at in Hnx. rewrite Hd in Hnx. injection Hnx as <-.
  split; cbn [rg_local rg_shared rg_local_free_head rg_active_count set_local_head]; try done.
  - by rewrite <- app_assoc.
  - intros j [Hj | ->%list_elem_of_singleton]%elem_of_app; [by apply Hdef | done].
  - intros j Hj. rewrite <- app_assoc. by apply Hfree.
Qed.

(** An update of cells that keeps links and generations keeps the invariant. *)
Lemma reg_okd_cells r D L R t :
  reg_okd r D L R -> length (tb_slots t) = length (tb_slots (rg_shared r)) ->
  tb_remote_free_head t = tb_remote_free_head (rg_shared r) ->
  (forall j, 0 <= j -> link_at (tb_slots t) j = link_at (tb_slots (rg_shared r)) j) ->
  Forall (fun d => 0 <= slot_generation d < 2 ^ 32) (tb_slots t) ->
  reg_okd (set_shared r t) D L R.
Proof.
  intros [Hlen Hcap HL HR Hnd Hdef Hfree Hcnt Hgen] Hl Hh Hlk Hg.
  split; cbn [rg_local rg_shared rg_local_free_head rg_active_count set_shared]; try done; try congruence.
  - eapply chain_frame; [| exact HL]. intros i Hi. apply Hlk, (chain_range _ _ _ _ HL Hi).
  - rewrite Hh. eapply chain_frame; [| exact HR]. intros i Hi. apply Hlk, (chain_range _ _ _ _ HR Hi).
Qed.

Definition fresh_generation (d : SlotData) : Z := wrapping_add U32 (slot_generation d) 1.

Lemma fresh_generation_range d : 0 <= fresh_generation d < 2 ^ 32.
Proof. apply Z.mod_pos_bound. unfold U32. lia. Qed.

(** The slot [i] of [r] taken into use. *)
Definition occupied r (i : Z) (d : SlotData) (data : SPlatform) : OpRegistry :=
  mkRegistry
    (set_slots (rg_shared r)
       (<[Z.to_nat i := slot_set_state Reserved (slot_reset (fresh_generation d) d)]> (tb_slots (rg_shared r))))
    (<[Z.to_nat i := mkLocal None data storage_new true (fresh_generation d)]> (rg_local r))
    (rg_local_free_head r) (rg_active_count r + 1).

Lemma local_active_insert ls i j s :
  0 <= i -> 0 <= j < Z.of_nat (length ls) ->
  local_active (<[Z.to_nat i := s]> ls) j = if i =? j then ls_active s else local_active ls j.
Proof.
  intros Hi Hj. unfold local_active. destruct (Z.eqb_spec i j) as [<- | Hne].
  - by rewrite list_lookup_insert_eq by lia.
  - by rewrite list_lookup_insert_ne by lia.
Qed.

Lemma occupy_ok r D i L R d data : reg_okd r (D ++ [i]) L R ->
  tb_slots (rg_shared r) !! Z.to_nat i = Some d ->
  occupy r i data = Ret (occupied r i d data, mkHandle i (fresh_generation d)) /\
  reg_okd (occupied r i d data) D L R.
Proof.
  intros Ho Hd. pose proof Ho as [Hlen Hcap HL HR Hnd Hdef Hfree Hcnt Hgen].
  assert (Hp : (D ++ [i]) ++ L ++ R ≡ₚ i :: (D ++ L ++ R)) by solve_Permutation.
  rewrite Hp in Hnd. apply NoDup_cons in Hnd as [Hni Hnd]. setoid_rewrite Hp in Hfree.
  assert (Hi : 0 <= i < Z.of_nat (length (rg_local r))) by (apply Hdef, elem_of_app; right; by left).
  destruct (reg_slot_lookup _ _ _ _ _ Ho Hi) as (d' & s & Hd' & Hs). rewrite Hd in Hd'. injection Hd' as <-.
  assert (Hina : ls_active s = false).
  { assert (Ha : local_active (rg_local r) i = false) by (apply Hfree; [done | left]).
    unfold local_active in Ha. by rewrite Hs in Ha. }
  pose proof (active_number_insert (rg_local r) (Z.to_nat i) s
    (mkLocal None data storage_new true (fresh_generation d)) Hs) as Hn. rewrite Hina in Hn. cbn in Hn.
  pose proof (active_number_range (<[Z.to_nat i := mkLocal None data storage_new true (fresh_generation d)]> (rg_local r))) as Hr.
  rewrite length_insert in Hr.
  split.
  - unfold occupy. rewrite (vec_get_lookup _ _ _ (proj1 Hi) Hd), bind_ret.
    rewrite (with_slot_ok _ _ _ _ (proj1 Hi) Hd), bind_ret.
    erewrite with_slot_ok; [| lia | cbn; apply list_lookup_insert_eq; lia]. rewrite bind_ret.
    rewrite vec_set_in_range, bind_ret by lia.
    rewrite arith_ok, bind_ret by (unfold USIZE_BITS, NULL_INDEX, USIZE_MAX in *; lia).
    cbn [tb_slots set_slots]. rewrite list_insert_insert_eq. done.
  - assert (Hlk : forall j, 0 <= j -> link_at
      (<[Z.to_nat i := slot_set_state Reserved (slot_reset (fresh_generation d) d)]> (tb_slots (rg_shared r))) j =
      link_at (tb_slots (rg_shared r)) j) by (apply (link_same _ _ d); [done | done | lia]).
    split; cbn [occupied rg_local rg_shared rg_local_free_head rg_active_count tb_slots set_slots
      tb_remote_free_head]; rewrite ?length_insert; try done.
    + eapply chain_frame; [| exact HL]. intros j Hj. apply Hlk, (chain_range _ _ _ _ HL Hj).
    + eapply chain_frame; [| exact HR]. intros j Hj. apply Hlk, (chain_range _ _ _ _ HR Hj).
    + intros j Hj. apply Hdef, elem_of_app. by left.
    + intros j Hj. rewrite local_active_insert by lia. cbn [ls_active].
      destruct (Z.eqb_spec i j) as [<- | Hne]; [done |].
      rewrite <- (Hfree j Hj), elem_of_cons. split; [by right | by intros [-> | Hin]].
    + lia.
    + apply Forall_insert; [done |]. apply fresh_generation_range.
Qed.

Definition idle_at ss (i : Z) : Prop := exists d, ss !! Z.to_nat i = Some d /\ slot_state d = Idle.

(** The two results of an allocation that searches [S], with [D] put aside and
    the rest of the free slots in [R]. *)
Definition alloc_spec r D (S : list Z) R (data : SPlatform) r' (res : result OpHandle SPlatform) : Prop :=
  (exists pre i post d, S = pre ++ i :: post /\
     Forall (fun j => ~ idle_at (tb_slots (rg_shared r)) j) pre /\
     tb_slots (rg_shared r) !! Z.to_nat i = Some d /\ slot_state d = Idle /\
     res = Ok (mkHandle i (fresh_generation d)) /\
     reg_ok r' post (reverse (D ++ pre) ++ R) /\
     rg_local r' = rg_local (occupied r i d data) /\
     same_table (rg_shared (occupied r i d data)) (rg_shared r')) \/
  (Forall (fun j => ~ idle_at (tb_slots (rg_shared r)) j) S /\ res = Err data /\
   reg_ok r' [] (reverse (D ++ S) ++ R) /\ rg_local r' = rg_local r /\
   same_table (rg_shared r) (rg_shared r')).

Lemma alloc_loop_ok (S : list Z) : forall fuel r D R data,
  reg_okd r D S R -> (length S <= fuel)%nat ->
  exists r' res, alloc_loop fuel r data D = Ret (r', res) /\ alloc_spec r D S R data r' res.
Proof.
  induction S as [| i S IH]; intros fuel r D R data Ho Hf.
  - destruct (flush_ok _ _ _ _ Ho) as (t & He & Hs & Hok). pose proof (ro_local _ _ _ _ Ho) as Hh. cbn in Hh.
    exists (set_shared r t), (Err data). split.
    + destruct fuel; cbn [alloc_loop]; rewrite Hh, Z.eqb_refl, He, !bind_ret; done.
    + right. split_and!; try done. by rewrite app_nil_r.
  - destruct fuel as [| fuel]; [cbn in Hf; lia |].
    pose proof Ho as [Hlen Hcap HL _ _ _ _ _ _].
    assert (Hi : 0 <= i < Z.of_nat (length (rg_local r)))
      by (rewrite Hlen; eapply chain_range; [exact HL | left]).
    destruct (reg_slot_lookup _ _ _ _ _ Ho Hi) as (d & s & Hd & _). destruct HL as (Hh & _ & _).
    pose proof (defer_ok _ _ _ _ _ _ Ho Hd) as Ho1.
    cbn [alloc_loop]. rewrite Hh, (proj2 (Z.eqb_neq i NULL_INDEX)) by lia.
    rewrite (vec_get_lookup _ _ _ (proj1 Hi) Hd), bind_ret.
    unfold state_eqb. destruct (bool_decide_reflect (slot_state d = Idle)) as [Hidle | Hbusy]; cbn [negb].
    + destruct (occupy_ok _ _ _ _ _ _ data Ho1 Hd) as [He Ho2].
      rewrite He, bind_ret. destruct (flush_ok _ _ _ _ Ho2) as (t & Hp & Hs & Hok).
      rewrite Hp, !bind_ret. eexists _, _. split; [done |]. left. exists [], i, S, d.
      rewrite app_nil_r. split_and!; done.
    + destruct (IH fuel (set_local_head r (sd_next_free d)) (D ++ [i]) R data Ho1) as (r' & res & He & Hs);
        [cbn in Hf; lia |].
      exists r', res. split; [exact He |].
      assert (Hni : ~ idle_at (tb_slots (rg_shared r)) i).
      { intros (x & Hx & Hst). rewrite Hd in Hx. by injection Hx as <-. }
      destruct Hs as [(pre & j & post & x & -> & Hpre & Hx & Hst & -> & Hok & Hloc & Hsame) |
                      (Hall & -> & Hok & Hloc & Hsame)].
      * left. exists (i :: pre), j, post, x. rewrite <- app_assoc in Hok.
        split_and!; try done. by constructor.
      * right. rewrite <- app_assoc in Hok. split_and!; try done. by constructor.
Qed.

Lemma chain_length ss h l : NoDup l -> chain ss h l -> (length l <= length ss)%nat.
Proof.
  intros Hnd Hc. rewrite <- (length_map Z.to_nat l), <- (length_seq (length ss) 0).
  apply submseteq_length, NoDup_submseteq.
  - apply (NoDup_fmap_2_strong Z.to_nat); [| done]. intros x y Hx Hy.
    pose proof (chain_range _ _ _ _ Hc Hx). pose proof (chain_range _ _ _ _ Hc Hy). lia.
  - intros k Hk. apply list_elem_of_fmap in Hk as (x & -> & Hx). apply elem_of_seq.
    pose proof (chain_range _ _ _ _ Hc Hx). lia.
Qed.

(** The list an allocation searches, and the one it leaves alone. *)
Definition searched L R : list Z := match L with [] => R | _ => L end.
Definition unsearched L R : list Z := match L with [] => [] | _ => R end.

Lemma registry_alloc_ok r L R data : reg_ok r L R ->
  exists r' res, registry_alloc r data = Ret (r', res) /\
    alloc_spec r [] (searched L R) (unsearched L R) data r' res.
Proof.
  intros Ho. pose proof Ho as [Hlen Hcap HL HR Hnd _ Hfree Hcnt Hgen].
  unfold registry_alloc. destruct L as [| i L]; cbn [searched unsearched].
  - cbn in HL. rewrite HL, Z.eqb_refl. cbn [pop_all].
    set (r1 := set_local_head (set_shared r (set_head (rg_shared r) NULL_INDEX)) (tb_remote_free_head (rg_shared r))).
    assert (Ho1 : reg_okd r1 [] R []).
    { split; cbn [r1 rg_local rg_shared rg_local_free_head rg_active_count set_shared set_local_head
        tb_slots set_head tb_remote_free_head]; try done.
      - by rewrite app_nil_r.
      - by intros i []%elem_of_nil.
      - intros i Hi. rewrite app_nil_r. by apply Hfree. }
    destruct (alloc_loop_ok R (length (tb_slots (rg_shared r1))) r1 [] [] data Ho1) as (r' & res & He & Hs).
    { eapply chain_length; [| exact HR]. done. }
    exists r', res. split; [exact He | exact Hs].
  - assert (Hh : rg_local_free_head r <> NULL_INDEX).
    { intros E. apply (chain_head (tb_slots (rg_shared r)) _ (i :: L)) in E; [done | | done]. by rewrite <- Hlen. }
    rewrite (proj2 (Z.eqb_neq _ _) Hh).
    apply (alloc_loop_ok (i :: L) (length (tb_slots (rg_shared r))) r [] R data Ho).
    eapply chain_length; [| exact HL]. cbn in Hnd. rewrite app_comm_cons, NoDup_app in Hnd. apply Hnd.
Qed.

(** ** A new registry *)

Lemma registry_new_ok (capacity : nat) : Z.of_nat capacity <= NULL_INDEX ->
  exists r, registry_new capacity = Ret r /\ reg_ok r [] (Z.of_nat <$> seq 0 capacity) /\
    rg_local r = replicate capacity local_slot_new /\ same_table (slot_table_new capacity) (rg_shared r).
Proof.
  intros Hcap. set (l := reverse (Z.of_nat <$> seq 0 capacity)).
  assert (Hnd : NoDup (Z.of_nat <$> seq 0 capacity)) by (apply NoDup_fmap_2; [apply _ | apply NoDup_seq]).
  assert (Hin : forall i, i ∈ Z.of_nat <$> seq 0 capacity <-> 0 <= i < Z.of_nat capacity).
  { intros i. rewrite list_elem_of_fmap. setoid_rewrite elem_of_seq. split.
    - intros (k & -> & Hk). lia.
    - intros Hi. exists (Z.to_nat i). lia. }
  destruct (push_free_all_ok l (slot_table_new capacity) [] [] NULL_INDEX)
    as (t & He & HR & HL & Hs & _ & H1 & H2 & H3); try done.
  { unfold l. rewrite !app_nil_r. by rewrite reverse_Permutation. }
  { intros i Hi. unfold l in Hi. rewrite reverse_Permutation in Hi. apply Hin in Hi. cbn. rewrite length_replicate. lia. }
  unfold l in HR. rewrite reverse_involutive, app_nil_r in HR.
  exists (mkRegistry t (replicate capacity local_slot_new) NULL_INDEX 0).
  split; [unfold registry_new; fold l; by rewrite He |]. split; [| done].
  destruct Hs as [Hlen Hcell]. cbn [slot_table_new tb_slots] in Hlen, Hcell. rewrite length_replicate in Hlen.
  split; cbn [rg_local rg_shared rg_local_free_head rg_active_count]; rewrite ?length_replicate; try done.
  - by intros i []%elem_of_nil.
  - intros i Hi. cbn [app]. rewrite Hin. split; [| done]. intros _. unfold local_active.
    by rewrite lookup_replicate_2 by lia.
  - clear. induction capacity as [| n IH]; [done |]. cbn. by rewrite <- IH.
  - apply Forall_lookup_2. intros k d Hd. pose proof (lookup_lt_Some _ _ _ Hd) as Hk.
    destruct (Hcell k slot_data_new) as [n Hn]; [apply lookup_replicate_2; lia |].
    rewrite Hd in Hn. injection Hn as ->. cbn. lia.
Qed.

(** ** Release *)

(** The slot [i] of [r] given back, its cell changed by [f]. *)
Definition released r (i : Z) (d : SlotData) (s : LocalSlot) (f : SlotData -> SlotData) (ready : Z) : OpRegistry :=
  mkRegistry
    (mkTable (<[Z.to_nat i := set_next_free (f d) (tb_remote_free_head (rg_shared r))]> (tb_slots (rg_shared r)))
       i ready (tb_diagnostics (rg_shared r)) (tb_trace (rg_shared r)))
    (<[Z.to_nat i := mkLocal None platform_default storage_new false (ls_generation s)]> (rg_local r))
    (rg_local_free_head r) (rg_active_count r - 1).

Lemma released_ok r L R i d s (f : SlotData -> SlotData) ready : reg_ok r L R -> 0 <= i ->
  tb_slots (rg_shared r) !! Z.to_nat i = Some d -> rg_local r !! Z.to_nat i = Some s ->
  ls_active s = true -> 0 <= slot_generation (f d) < 2 ^ 32 ->
  reg_ok (released r i d s f ready) L (i :: R) /\ 1 <= rg_active_count r.
Proof.
  intros Ho Hi Hd Hs Ha Hg. pose proof Ho as [Hlen Hcap HL HR Hnd _ Hfree Hcnt Hgen].
  pose proof (lookup_lt_Some _ _ _ Hs) as Hlt. cbn [app] in *.
  assert (Hni : i ∉ L ++ R).
  { intros Hin. apply Hfree in Hin; [| lia]. unfold local_active in Hin. rewrite Hs in Hin. congruence. }
  rewrite elem_of_app in Hni.
  pose proof (active_number_insert (rg_local r) (Z.to_nat i) s
    (mkLocal None platform_default storage_new false (ls_generation s)) Hs) as Hn. rewrite Ha in Hn. cbn in Hn.
  pose proof (active_number_range (<[Z.to_nat i := mkLocal None platform_default storage_new false (ls_generation s)]> (rg_local r))) as Hr.
  assert (Hlk : forall j, 0 <= j -> j <> i -> link_at (tb_slots (rg_shared (released r i d s f ready))) j =
    link_at (tb_slots (rg_shared r)) j) by (intros j Hj Hne; apply link_insert_ne; lia).
  assert (Hfr : forall h l, chain (tb_slots (rg_shared r)) h l -> i ∉ l ->
    chain (tb_slots (rg_shared (released r i d s f ready))) h l).
  { intros h l Hc Hil. eapply chain_frame; [| exact Hc]. intros j Hj.
    apply Hlk; [apply (chain_range _ _ _ _ Hc Hj) | by intros ->]. }
  split; [| lia].
  split; cbn [released rg_local rg_shared rg_local_free_head rg_active_count tb_slots tb_remote_free_head];
    rewrite ?length_insert; try done.
  - apply Hfr; tauto.
  - cbn [chain]. split_and!; [done | done |]. exists (tb_remote_free_head (rg_shared r)).
    split; [rewrite link_insert_eq by lia; done | apply Hfr; tauto].
  - cbn [app]. assert (Hp : L ++ i :: R ≡ₚ i :: L ++ R) by solve_Permutation. rewrite Hp.
    apply NoDup_cons. split; [by rewrite elem_of_app | done].
  - by intros j []%elem_of_nil.
  - intros j Hj. cbn [app]. rewrite local_active_insert by lia. cbn [ls_active].
    assert (Hp : L ++ i :: R ≡ₚ i :: L ++ R) by solve_Permutation. rewrite Hp, elem_of_cons, (Hfree j Hj).
    destruct (Z.eqb_spec i j) as [<- | Hne]; [by split; [| left] |].
    split; [by intros [-> | Hx] | by right].
  - lia.
  - by apply Forall_insert.
Qed.

Lemma vacate_ok r i s : 0 <= i -> rg_local r !! Z.to_nat i = Some s ->
  vacate r i = Ret (set_local r (<[Z.to_nat i := mkLocal None platform_default storage_new false (ls_generation s)]>
                                   (rg_local r)), ls_platform s).
Proof.
  intros Hi Hs. pose proof (lookup_lt_Some _ _ _ Hs). unfold vacate.
  by rewrite (vec_get_lookup _ _ _ Hi Hs), bind_ret, vec_set_in_range, bind_ret by lia.
Qed.

Lemma remove_at_index_ok r L R i d s : reg_ok r L R -> 0 <= i ->
  tb_slots (rg_shared r) !! Z.to_nat i = Some d -> rg_local r !! Z.to_nat i = Some s -> ls_active s = true ->
  let r' := released r i d s slot_free (tb_ready_count (rg_shared r)) in
  remove_at_index r i = Ret (r', ls_platform s) /\ reg_ok r' L (i :: R).
Proof.
  intros Ho Hi Hd Hs Ha r'.
  destruct (released_ok r L R i d s slot_free (tb_ready_count (rg_shared r))) as [Hok Hc]; try done.
  { cbn. exact (Forall_lookup_1 _ _ _ _ (ro_gen _ _ _ _ Ho) Hd). }
  split; [| done]. unfold remove_at_index. rewrite (vacate_ok _ _ _ Hi Hs), bind_ret.
  cbn [set_local rg_shared]. rewrite (with_slot_ok _ _ _ _ Hi Hd), bind_ret.
  pose proof (lookup_lt_Some _ _ _ Hd).
  erewrite push_free_ok; [| done | cbn; apply list_lookup_insert_eq; lia]. rewrite bind_ret.
  cbn [tb_slots set_slots set_head tb_remote_free_head rg_active_count set_local].
  rewrite list_insert_insert_eq. unfold r', released, saturating_sub.
  rewrite Z.max_r by lia. done.
Qed.

Lemma recycle_at_index_ok r L R i d s g : reg_ok r L R -> 0 <= i -> 0 <= g < 2 ^ 32 ->
  tb_slots (rg_shared r) !! Z.to_nat i = Some d -> rg_local r !! Z.to_nat i = Some s -> ls_active s = true ->
  let ready := tb_ready_count (if state_eqb (slot_state d) InFlightReady
                               then clear_ready_completion (rg_shared r) else rg_shared r) in
  let r' := released r i d s (slot_reset g) ready in
  recycle_at_index r i g = Ret r' /\ reg_ok r' L (i :: R).
Proof.
  intros Ho Hi Hg Hd Hs Ha.
  set (t := if state_eqb (slot_state d) InFlightReady then clear_ready_completion (rg_shared r) else rg_shared r).
  assert (Ht : tb_slots t = tb_slots (rg_shared r) /\ tb_remote_free_head t = tb_remote_free_head (rg_shared r) /\
    tb_diagnostics t = tb_diagnostics (rg_shared r) /\ tb_trace t = tb_trace (rg_shared r)).
  { unfold t, clear_ready_completion. destruct (state_eqb _ _); [destruct (_ =? 0) |]; done. }
  destruct Ht as (Ht1 & Ht2 & Ht3 & Ht4). intros ready r'.
  destruct (released_ok r L R i d s (slot_reset g) (tb_ready_count t)) as [Hok Hc]; try done.
  split; [| done]. unfold recycle_at_index. rewrite (vacate_ok _ _ _ Hi Hs), bind_ret.
  cbn [set_local rg_shared]. rewrite (vec_get_lookup _ _ _ Hi Hd), bind_ret. fold t.
  rewrite (with_slot_ok _ _ d _ Hi), bind_ret by (by rewrite Ht1).
  pose proof (lookup_lt_Some _ _ _ Hd).
  erewrite push_free_ok; [| done | cbn; apply list_lookup_insert_eq; rewrite Ht1; lia]. rewrite bind_ret.
  cbn [tb_slots set_slots set_head tb_remote_free_head rg_active_count set_local].
  rewrite list_insert_insert_eq, Ht1, Ht2. unfold r', released, saturating_sub.
  rewrite Z.max_r by lia. unfold set_head, set_slots, set_active_count, set_shared. cbn. by rewrite Ht3, Ht4.
Qed.
End inv.
