(* ===== verification/CompletionSpec.v ===== *)
(** * What each call on the completion table does

    One equation per call and state of the slot it names: the slot that a call
    changes and how, or the outcome with which it leaves the slots alone; and
    the invariant of the slots that all calls keep. *)

From stdpp Require Import strings.
From S2P Require Import Prelude Token SlotState Anomaly SlotTable Completion Registry RegistryInv Flow.

Section spec.
Context `{Spec : SlotSpec}.
Implicit Types (t : SlotTable) (d : SlotData) (p : CompletionPacket).

Definition packet_data p : CompletionData :=
  match pk_input p with InputUser c => DataUser (pk_event p) (uc_payload c) (uc_detail c) (uc_cleanup c) end.

Definition dropped (x : CompletionData) : list effect :=
  match x with DataUser _ _ _ (Some c) => [CleanedUp c] | _ => [] end.
Definition woken d : list effect := match sd_waker d with Some w => [Woke w] | None => [] end.

(** The slot after its completion was recorded, and the table. *)
Definition ready_cell d p : SlotData :=
  mkSlotData (mkCore (slot_generation d) InFlightReady (cs_flags (sd_core d))) (sd_next_free d)
    (ue_res (pk_event p)) (ue_flags (pk_event p)) (packet_data p) None.

Definition recorded t (k : nat) d p : SlotTable :=
  mkTable (<[k := ready_cell d p]> (tb_slots t)) (tb_remote_free_head t)
    (wrapping_add USIZE_BITS (tb_ready_count t) 1)
    (record_completion_outcome (tb_diagnostics t) RecordedUser)
    (tb_trace t ++ dropped (sd_data d) ++ woken d).

(** The slot after its record was taken, and the table. *)
Definition taken_cell d : SlotData :=
  mkSlotData (mkCore (wrapping_add U32 (slot_generation d) 1) Idle (cs_flags (sd_core d))) (sd_next_free d)
    (sd_res d) (sd_flags d) DataEmpty (sd_waker d).

Definition taken t (k : nat) d : SlotTable :=
  mkTable (<[k := taken_cell d]> (tb_slots t)) (tb_remote_free_head t)
    (if tb_ready_count t =? 0 then 0 else tb_ready_count t - 1) (tb_diagnostics t) (tb_trace t).

Lemma in_table_spec t i : 0 <= i -> in_table t i = bool_decide (is_Some (tb_slots t !! Z.to_nat i)).
Proof.
  intros Hi. unfold in_table. destruct (bool_decide_reflect (is_Some (tb_slots t !! Z.to_nat i))) as [H | H].
  - apply Z.ltb_lt. apply lookup_lt_is_Some_1 in H. lia.
  - apply Z.ltb_ge. apply Z.nlt_ge. intros Hlt. apply H, lookup_lt_is_Some_2. lia.
Qed.

Lemma in_table_some t i d : 0 <= i -> tb_slots t !! Z.to_nat i = Some d -> in_table t i = true.
Proof. intros Hi Hd. rewrite in_table_spec, Hd by done. by apply bool_decide_eq_true_2. Qed.

Lemma guard_drop_trace t g :
  guard_drop t g = emit t (match g with Some c => [CleanedUp c] | None => [] end).
Proof. destruct g; [done |]. destruct t. unfold emit. cbn. by rewrite app_nil_r. Qed.

Lemma drop_data_trace t x : drop_data t x = emit t (dropped x).
Proof.
  destruct x as [| e pl de [c |]]; [| done |]; cbn; destruct t; unfold emit; cbn; by rewrite app_nil_r.
Qed.

Lemma record_waiting t p d (Hi : 0 <= tk_index (packet_token p)) :
  let k := Z.to_nat (tk_index (packet_token p)) in
  tb_slots t !! k = Some d -> slot_state d = InFlightWaiting ->
  slot_generation d = tk_generation (packet_token p) ->
  record_completion t p = Ret (recorded t k d p, ResRecorded RecordedUser).
Proof.
  intros k Hd Hst Hg. pose proof (lookup_lt_Some _ _ _ Hd) as Hlt.
  unfold record_completion, token_parts. rewrite (in_table_some _ _ _ Hi Hd). cbn [negb].
  rewrite (vec_get_lookup _ _ _ Hi Hd), bind_ret. unfold slot_generation, slot_state in Hst, Hg.
  rewrite Hst, Hg, !Z.ltb_irrefl. rewrite (with_slot_ok _ _ _ _ Hi Hd), bind_ret. fold k.
  unfold publish. cbn [tb_slots set_slots].
  erewrite vec_get_lookup; [| done | apply list_lookup_insert_eq; lia]. rewrite bind_ret.
  erewrite with_slot_ok; [| done | cbn; apply list_lookup_insert_eq; lia]. rewrite bind_ret.
  fold k. cbn [tb_slots set_slots]. rewrite list_insert_insert_eq, drop_data_trace.
  erewrite with_slot_ok; [| done | cbn; apply list_lookup_insert_eq; lia]. rewrite bind_ret.
  fold k. cbn [tb_slots set_slots emit]. rewrite list_insert_insert_eq.
  erewrite with_slot_ok; [| done | cbn; apply list_lookup_insert_eq; lia]. rewrite bind_ret.
  fold k. cbn [tb_slots set_slots note_ready_completion set_ready_count]. rewrite list_insert_insert_eq.
  unfold wake_slot. cbn [tb_slots set_slots].
  erewrite vec_get_lookup; [| done | apply list_lookup_insert_eq; lia]. rewrite bind_ret.
  erewrite with_slot_ok; [| done | cbn; apply list_lookup_insert_eq; lia]. rewrite bind_ret.
  fold k. cbn [tb_slots set_slots]. rewrite list_insert_insert_eq, bind_ret.
  unfold recorded_completion, recorded, ready_cell, packet_data, woken, recorded_outcome, slot_generation.
  rewrite Hg. destruct (pk_input p) as [c]. cbn.
  destruct (sd_waker d) as [w |]; unfold note_ready_completion, set_ready_count, set_diagnostics, set_slots, emit;
    cbn; rewrite ?app_nil_r, <- ?app_assoc; done.
Qed.

(** A call that only counts an anomaly. *)
Definition only_diagnostics t t' : Prop := exists dg, t' = set_diagnostics t dg.

Lemma only_diagnostics_refl t : only_diagnostics t t.
Proof. exists (tb_diagnostics t). by destruct t. Qed.

Lemma note_anomaly_only t k a : only_diagnostics t (note_anomaly t k a).
Proof. by eexists. Qed.

Lemma rejected_only t o e p : exists t', only_diagnostics t t' /\
  rejected_completion t o e p = (t', ResRejected o p).
Proof. destruct o; (eexists; split; [| reflexivity]); eexists; reflexivity. Qed.

Lemma recorded_mutation_only t token o : exists t', only_diagnostics t t' /\
  recorded_mutation t token o = (t', o).
Proof.
  destruct o; (eexists; split; [| reflexivity]); [apply only_diagnostics_refl | apply note_anomaly_only].
Qed.

Lemma record_other t p (Hi : 0 <= tk_index (packet_token p)) :
  let k := Z.to_nat (tk_index (packet_token p)) in
  (forall d, tb_slots t !! k = Some d -> slot_generation d = tk_generation (packet_token p) ->
     slot_state d <> InFlightWaiting /\ slot_state d <> Finalizing) ->
  exists t' o, record_completion t p = Ret (t', ResRejected o p) /\ only_diagnostics t t' /\ o <> RecordedUser /\
    (o = OrphanedDropped <-> exists d, tb_slots t !! k = Some d /\
       slot_generation d = tk_generation (packet_token p) /\ slot_state d = InFlightOrphaned).
Proof.
  intros k Hno. unfold record_completion, token_parts. rewrite in_table_spec by done. fold k.
  assert (Hrej : forall o, o <> RecordedUser ->
    (o = OrphanedDropped <-> exists d, tb_slots t !! k = Some d /\
       slot_generation d = tk_generation (packet_token p) /\ slot_state d = InFlightOrphaned) ->
    exists t' o', Ret (rejected_completion t o (pk_event p) p) = Ret (t', ResRejected o' p) /\
      only_diagnostics t t' /\ o' <> RecordedUser /\
      (o' = OrphanedDropped <-> exists d, tb_slots t !! k = Some d /\
       slot_generation d = tk_generation (packet_token p) /\ slot_state d = InFlightOrphaned)).
  { intros o Hne Hiff. destruct (rejected_only t o (pk_event p) p) as (t' & Ht & ->). by exists t', o. }
  destruct (tb_slots t !! k) as [d |] eqn:Hd.
  2: { apply Hrej; [done |]. split; [done |]. by intros (d & Hx & _). }
  rewrite bool_decide_eq_true_2 by done. cbn [negb].
  rewrite (vec_get_lookup _ _ _ Hi Hd), bind_ret. specialize (Hno d eq_refl).
  change (cs_generation (sd_core d)) with (slot_generation d). change (cs_state (sd_core d)) with (slot_state d).
  assert (Hx : forall P, slot_generation d <> tk_generation (packet_token p) ->
    (RecordRejected P = OrphanedDropped <-> exists x, Some d = Some x /\
       slot_generation x = tk_generation (packet_token p) /\ slot_state x = InFlightOrphaned)).
  { intros P Hne. split; [done |]. intros (x & [= <-] & E & _). done. }
  destruct (Z.ltb_spec (tk_generation (packet_token p)) (slot_generation d)).
  { apply Hrej; [done |]. apply Hx. lia. }
  destruct (Z.ltb_spec (slot_generation d) (tk_generation (packet_token p))).
  { destruct (state_eqb _ _); (apply Hrej; [done |]); apply Hx; lia. }
  destruct (slot_state d) eqn:Hst; try (by destruct Hno; [lia |]);
    (apply Hrej; [done |]); (split; [try done; intros _ | try done; intros (x & [= <-] & _ & E); congruence]).
  exists d. split_and!; [done | lia | done].
Qed.

Lemma take_ready t token d (Hi : 0 <= tk_index token) :
  let k := Z.to_nat (tk_index token) in
  tb_slots t !! k = Some d -> slot_state d = InFlightReady -> slot_generation d = tk_generation token ->
  take_data t (tk_index token) (tk_generation token) (sd_core d) = Ret (taken t k d, sd_data d).
Proof.
  intros k Hd Hst Hg. pose proof (lookup_lt_Some _ _ _ Hd) as Hlt. unfold take_data.
  rewrite (with_slot_ok _ _ _ _ Hi Hd), bind_ret. fold k.
  assert (Hc : forall x, tb_slots (clear_ready_completion (set_slots t x)) = x).
  { intros x. unfold clear_ready_completion. by destruct (_ =? 0). }
  erewrite vec_get_lookup; [| done | rewrite Hc; apply list_lookup_insert_eq; lia]. rewrite bind_ret.
  erewrite with_slot_ok; [| done | rewrite Hc; apply list_lookup_insert_eq; lia]. rewrite bind_ret.
  fold k. rewrite Hc, list_insert_insert_eq. unfold taken, taken_cell, slot_generation. rewrite <- Hg.
  unfold clear_ready_completion, set_ready_count, set_slots. cbn. destruct (Z.eqb_spec (tb_ready_count t) 0) as [E | E];
    cbn; rewrite ?E; done.
Qed.
End spec.

(** ** The invariant of the driver's operation slots

    What every sequence of calls of driver and futures keeps: the free lists
    are sound ([reg_ok]), a ready slot holds the record of its own operation, no slot is
    left in the transient state [Finalizing], and the counter that tells the
    driver whether records wait is exact. *)

Section driver_inv.
Context `{Spec : SlotSpec}.
Implicit Types (ss : list SlotData) (t : SlotTable) (r : OpRegistry) (d : SlotData) (token : OpToken).

(** *** Ready slots *)

Definition is_ready d : bool := state_eqb (slot_state d) InFlightReady.

Fixpoint ready_number ss : Z :=
  match ss with [] => 0 | d :: ss => Z.b2z (is_ready d) + ready_number ss end.

Lemma is_ready_spec d : is_ready d = true <-> slot_state d = InFlightReady.
Proof. unfold is_ready, state_eqb. apply bool_decide_eq_true. Qed.

Lemma is_ready_not d : slot_state d <> InFlightReady -> is_ready d = false.
Proof. intros Hn. apply bool_decide_eq_false_2, Hn. Qed.

Lemma ready_number_insert ss k d d' : ss !! k = Some d ->
  ready_number (<[k := d']> ss) = ready_number ss - Z.b2z (is_ready d) + Z.b2z (is_ready d').
Proof.
  revert k. induction ss as [| x ss IH]; intros [| k] Hk; try done.
  - injection Hk as ->. cbn. lia.
  - change (<[S k := d']> (x :: ss)) with (x :: <[k := d']> ss).
    cbn [ready_number]. rewrite (IH k Hk). lia.
Qed.

Lemma ready_number_range ss : 0 <= ready_number ss <= Z.of_nat (length ss).
Proof. induction ss as [| d ss IH]; [done |]. cbn [ready_number length]. destruct (is_ready d); cbn; lia. Qed.

Lemma ready_number_pos ss k d : ss !! k = Some d -> is_ready d = true -> 1 <= ready_number ss.
Proof.
  revert k. induction ss as [| x ss IH]; intros [| k] Hk Hr; try done.
  - injection Hk as ->. cbn. rewrite Hr. pose proof (ready_number_range ss). cbn. lia.
  - cbn. specialize (IH k Hk Hr). destruct (is_ready x); cbn; lia.
Qed.

Lemma ready_number_same ss ss' : same_cells ss ss' -> ready_number ss' = ready_number ss.
Proof.
  revert ss'. induction ss as [| d ss IH]; intros [| d' ss'] [Hl Hc]; try done.
  destruct (Hc 0%nat d eq_refl) as [n Hn]. injection Hn as ->. cbn [ready_number].
  rewrite (IH ss'); [done |]. split; [by injection Hl |]. intros k x Hx. exact (Hc (S k) x Hx).
Qed.

(** *** One slot *)

(** A slot at rest: not [Finalizing], and a ready one holds its own record. *)
Definition cell_inv (k : nat) d : Prop :=
  slot_state d <> Finalizing /\
  (slot_state d = InFlightReady -> exists ev pl de cl,
     sd_data d = DataUser ev pl de cl /\ ue_token ev = mkToken (Z.of_nat k) (slot_generation d)).

Lemma cell_inv_unready k d : slot_state d <> Finalizing -> slot_state d <> InFlightReady -> cell_inv k d.
Proof. intros H1 H2. split; [done |]. intros Hr. by destruct H2. Qed.

Record table_inv t : Prop := {
  ti_cells : forall k d, tb_slots t !! k = Some d -> cell_inv k d;
  ti_count : tb_ready_count t = ready_number (tb_slots t)
}.

Lemma table_inv_same t t' : table_inv t -> same_table t t' -> table_inv t'.
Proof.
  intros [Hc Hn] (Hs & Hr & _). split.
  - intros k d Hd. destruct Hs as [Hl Hs].
    destruct (lookup_lt_is_Some_2 (tb_slots t) k) as [x Hx]; [apply lookup_lt_Some in Hd; lia |].
    destruct (Hs k x Hx) as [n Hn']. rewrite Hd in Hn'. injection Hn' as ->. exact (Hc k x Hx).
  - by rewrite Hr, Hn, (ready_number_same _ _ Hs).
Qed.

Lemma table_inv_update t t' k d d' : table_inv t -> tb_slots t !! k = Some d ->
  tb_slots t' = <[k := d']> (tb_slots t) -> cell_inv k d' ->
  tb_ready_count t' = tb_ready_count t - Z.b2z (is_ready d) + Z.b2z (is_ready d') -> table_inv t'.
Proof.
  intros [Hc Hn] Hd Hs Hi Hr. pose proof (lookup_lt_Some _ _ _ Hd). split.
  - intros j x. rewrite Hs. destruct (decide (j = k)) as [-> | Hne].
    + rewrite list_lookup_insert_eq by done. by intros [= <-].
    + rewrite list_lookup_insert_ne by done. apply Hc.
  - rewrite Hs, Hr, Hn. symmetry. by apply ready_number_insert.
Qed.

(** *** The registry *)

Definition reg_inv r : Prop := (exists L R, reg_ok r L R) /\ table_inv (rg_shared r).

Lemma reg_inv_only r t : reg_inv r -> only_diagnostics (rg_shared r) t -> reg_inv (set_shared r t).
Proof.
  intros [(L & R & Ho) Hi] [dg ->]. split.
  - exists L, R. apply (reg_okd_cells r [] L R); try done. apply (ro_gen _ _ _ _ Ho).
  - destruct Hi as [Hc Hn]. by split.
Qed.

Lemma reg_inv_emit r t e : reg_inv (set_shared r t) -> reg_inv (set_shared r (emit t e)).
Proof.
  intros [(L & R & Ho) Hi]. split.
  - exists L, R. apply (reg_okd_cells (set_shared r t) [] L R); try done. apply (ro_gen _ _ _ _ Ho).
  - destruct Hi as [Hc Hn]. by split.
Qed.

(** One cell rewritten: the link stays, the counter follows. *)
Lemma reg_inv_update r t' (k : nat) d d' : reg_inv r -> tb_slots (rg_shared r) !! k = Some d ->
  tb_slots t' = <[k := d']> (tb_slots (rg_shared r)) ->
  tb_remote_free_head t' = tb_remote_free_head (rg_shared r) ->
  sd_next_free d' = sd_next_free d -> 0 <= slot_generation d' < 2 ^ 32 -> cell_inv k d' ->
  tb_ready_count t' = tb_ready_count (rg_shared r) - Z.b2z (is_ready d) + Z.b2z (is_ready d') ->
  reg_inv (set_shared r t').
Proof.
  intros [(L & R & Ho) Hi] Hd Hs Hh Hl Hg Hc Hn. split; [| by eapply table_inv_update].
  exists L, R. apply (reg_okd_cells r [] L R); try done.
  - by rewrite Hs, length_insert.
  - rewrite Hs. rewrite <- (Nat2Z.id k). apply (link_same _ _ d); [by rewrite Nat2Z.id | done | lia].
  - rewrite Hs. apply Forall_insert; [apply (ro_gen _ _ _ _ Ho) | done].
Qed.

Lemma reg_inv_gen r k d : reg_inv r -> tb_slots (rg_shared r) !! k = Some d -> 0 <= slot_generation d < 2 ^ 32.
Proof. intros [(L & R & Ho) _] Hd. exact (Forall_lookup_1 _ _ _ _ (ro_gen _ _ _ _ Ho) Hd). Qed.

Lemma reg_inv_cell r k d : reg_inv r -> tb_slots (rg_shared r) !! k = Some d -> cell_inv k d.
Proof. intros [_ [Hc _]] Hd. by apply Hc. Qed.

Lemma reg_inv_local r (ls : list LocalSlot) (k : nat) s s' : reg_inv r -> rg_local r !! k = Some s ->
  ls = <[k := s']> (rg_local r) -> ls_active s' = ls_active s -> reg_inv (set_local r ls).
Proof.
  intros [(L & R & Ho) Hi] Hs -> Ha. split; [| done]. exists L, R.
  destruct Ho as [Hlen Hcap HL HR Hnd Hdef Hfree Hcnt Hgen].
  split; cbn [set_local rg_local rg_shared rg_local_free_head rg_active_count]; rewrite ?length_insert; try done.
  - intros i Hir. rewrite (Hfree i Hir). rewrite <- (Nat2Z.id k), local_active_insert by lia.
    destruct (Z.eqb_spec (Z.of_nat k) i) as [<- | Hne]; [| done].
    unfold local_active. rewrite Nat2Z.id, Hs, Ha. done.
  - rewrite (active_number_insert _ _ _ _ Hs), Ha, Hcnt. lia.
Qed.
End driver_inv.
