(* ===== verification/DriverSteps.v ===== *)
(** * Calls of driver and futures

    Every call on the slots of a registry keeps the invariant of [CompletionSpec]
    and neither panics nor spins; and so does the work of a driver on a slot it
    borrowed, through the methods of the slot's views. *)

From stdpp Require Import strings.
From S2P Require Import Prelude Token SlotState Anomaly SlotTable Completion Registry Flow RegistryInv CompletionSpec.

Section driver_steps.
Context `{Spec : SlotSpec}.
Implicit Types (t : SlotTable) (r : OpRegistry) (d : SlotData) (token : OpToken).

(** ** Calls of the futures *)

(** A call on the shared table keeps the invariant. *)
Definition table_call {X : Type} r (m : outcome (SlotTable * X)) : Prop :=
  exists t x, m = Ret (t, x) /\ reg_inv (set_shared r t).

Lemma table_call_only {X} r t (x : X) : reg_inv r -> only_diagnostics (rg_shared r) t ->
  table_call r (Ret (t, x)).
Proof. intros Hi Ho. exists t, x. split; [done | by apply reg_inv_only]. Qed.

Lemma table_call_mutation r t token o : reg_inv (set_shared r t) ->
  table_call r (Ret (recorded_mutation t token o)).
Proof.
  intros Hi. destruct (recorded_mutation_only t token o) as (t' & Ho & ->). exists t', o. split; [done |].
  change (set_shared r t') with (set_shared (set_shared r t) t'). by apply reg_inv_only.
Qed.

Lemma set_shared_id r : set_shared r (rg_shared r) = r.
Proof. by destruct r. Qed.

Lemma table_call_rejected r token o : reg_inv r -> table_call r (Ret (recorded_mutation (rg_shared r) token o)).
Proof. intros Hi. apply table_call_mutation. by rewrite set_shared_id. Qed.

(** The cell a call looks at, or the reason there is none. *)
Lemma cell_cases r i : 0 <= i ->
  in_table (rg_shared r) i = false \/
  in_table (rg_shared r) i = true /\ exists d, tb_slots (rg_shared r) !! Z.to_nat i = Some d /\
    vec_get (tb_slots (rg_shared r)) i = Ret d.
Proof.
  intros Hi. rewrite in_table_spec by done.
  destruct (tb_slots (rg_shared r) !! Z.to_nat i) as [d |] eqn:Hd; [right | by left].
  split; [done |]. exists d. split; [done | by apply vec_get_lookup].
Qed.

Lemma record_ok r p : reg_inv r -> 0 <= tk_index (packet_token p) ->
  table_call r (record_completion (rg_shared r) p).
Proof.
  intros Hr Hi. set (k := Z.to_nat (tk_index (packet_token p))).
  destruct (tb_slots (rg_shared r) !! k) as [d |] eqn:Hd.
  2: { destruct (record_other (rg_shared r) p Hi) as (t' & o & -> & Ho & _); [| by apply table_call_only].
       intros x Hx. fold k in Hx. congruence. }
  destruct (decide (slot_generation d = tk_generation (packet_token p) /\ slot_state d = InFlightWaiting))
    as [[Hg Hw] | Hn].
  - rewrite (record_waiting _ _ _ Hi Hd Hw Hg). eexists _, _. split; [done |].
    pose proof Hr as [(L & R & Ho) [_ Hcnt]].
    assert (Hnr : is_ready d = false) by (apply is_ready_not; by rewrite Hw).
    pose proof (ready_number_insert _ _ _ (ready_cell d p) Hd) as Hn. rewrite Hnr in Hn. cbn [Z.b2z] in Hn.
    pose proof (ready_number_range (<[k := ready_cell d p]> (tb_slots (rg_shared r)))) as Hb.
    rewrite length_insert in Hb. pose proof (ro_len _ _ _ _ Ho). pose proof (ro_cap _ _ _ _ Ho).
    pose proof (ready_number_range (tb_slots (rg_shared r))).
    change (is_ready (ready_cell d p)) with true in Hn. cbn [Z.b2z] in Hn.
    eapply (reg_inv_update _ _ k d); try done.
    + exact (reg_inv_gen _ _ _ Hr Hd).
    + split; [done |]. intros _. unfold ready_cell, packet_data. cbn. destruct (pk_input p) as [c].
      eexists _, _, _, _. split; [done |]. unfold packet_token in *. destruct (ue_token (pk_event p)) as [i g].
      cbn in *. unfold slot_generation in Hg |- *. rewrite <- Hg. f_equal. unfold k. lia.
    + cbn [recorded tb_ready_count]. rewrite Hnr. change (is_ready (ready_cell d p)) with true. cbn [Z.b2z].
      unfold wrapping_add. rewrite Hcnt, wrap_small; [lia |].
      unfold USIZE_BITS, NULL_INDEX, USIZE_MAX in *. lia.
  - destruct (record_other (rg_shared r) p Hi) as (t' & o & -> & Ho & _); [| by apply table_call_only].
    fold k. rewrite Hd. intros x [= <-] Hg. destruct (reg_inv_cell _ _ _ Hr Hd) as [Hf _]. tauto.
Qed.

(** The record leaves: the counter was positive. *)
Lemma taken_inv r k d : reg_inv r -> tb_slots (rg_shared r) !! k = Some d -> slot_state d = InFlightReady ->
  reg_inv (set_shared r (taken (rg_shared r) k d)).
Proof.
  intros Hr Hd Hst. pose proof Hr as [_ [_ Hcnt]].
  assert (Hrd : is_ready d = true) by by apply is_ready_spec.
  pose proof (ready_number_pos _ _ _ Hd Hrd).
  eapply (reg_inv_update _ _ k d); try done.
  - apply Z.mod_pos_bound. unfold U32. lia.
  - cbn [taken tb_ready_count]. rewrite (proj2 (Z.eqb_neq _ _)) by lia.
    rewrite Hrd. change (is_ready (taken_cell d)) with false. cbn. lia.
Qed.

Lemma take_ok r token : reg_inv r -> 0 <= tk_index token ->
  table_call r (try_take_record (rg_shared r) token).
Proof.
  intros Hr Hi. unfold try_take_record, token_parts.
  assert (Hun : forall k x, table_call r (Ret (note_anomaly (rg_shared r) k (attach_from_op_token token),
    x : result PollRecordResult SError))) by (intros; apply table_call_only; [done | apply note_anomaly_only]).
  destruct (cell_cases r _ Hi) as [-> | (-> & d & Hd & ->)]; [apply Hun |]. cbn [negb]. rewrite bind_ret.
  destruct (Z.ltb_spec (tk_generation token) (cs_generation (sd_core d))); [apply Hun |].
  destruct (Z.ltb_spec (cs_generation (sd_core d)) (tk_generation token)); [apply Hun |].
  assert (Hg : slot_generation d = tk_generation token) by (unfold slot_generation; lia).
  destruct (cs_state (sd_core d)) eqn:Hst; try apply Hun;
    try (by apply table_call_only; [| apply only_diagnostics_refl]).
  rewrite (take_ready _ _ _ Hi Hd Hst Hg), bind_ret.
  pose proof (taken_inv _ _ _ Hr Hd Hst). destruct (sd_data d); eexists _, _; done.
Qed.

Lemma discard_ok r token : reg_inv r -> 0 <= tk_index token ->
  table_call r (discard_ready_record (rg_shared r) token).
Proof.
  intros Hr Hi. unfold discard_ready_record, token_parts.
  destruct (cell_cases r _ Hi) as [-> | (-> & d & Hd & ->)]; [by apply table_call_rejected |].
  cbn [negb]. rewrite bind_ret. destruct (reg_inv_cell _ _ _ Hr Hd) as [Hf _].
  destruct (slot_state d) eqn:Hst; try done; destruct (Z.eqb_spec (slot_generation d) (tk_generation token)) as [Hg | Hg];
    try by apply table_call_rejected.
  rewrite (take_ready _ _ _ Hi Hd Hst Hg), bind_ret. apply table_call_mutation.
  pose proof (taken_inv _ _ _ Hr Hd Hst) as Ht.
  destruct (sd_data d) as [| e pl de cl]; [done |]. unfold run_discarded_record_cleanup, run_completion_cleanup.
  destruct cl as [c |]; [| done]. cbn. destruct (cleanup_result c); cbn [guard_drop].
  - by apply reg_inv_emit.
  - change (set_shared r (set_diagnostics ?x ?y)) with (set_shared (set_shared r x) (set_diagnostics x y)).
    apply reg_inv_only; [by apply reg_inv_emit | by eexists].
Qed.

(** A slot whose state word or waker changes. *)
Lemma touched_inv r (k : nat) d d' : reg_inv r -> tb_slots (rg_shared r) !! k = Some d ->
  sd_next_free d' = sd_next_free d -> 0 <= slot_generation d' < 2 ^ 32 -> cell_inv k d' ->
  is_ready d' = is_ready d ->
  reg_inv (set_shared r (set_slots (rg_shared r) (<[k := d']> (tb_slots (rg_shared r))))).
Proof.
  intros Hr Hd Hl Hg Hc Hn. eapply (reg_inv_update _ _ k d); try done. cbn. rewrite Hn. lia.
Qed.

Lemma orphan_ok r token : reg_inv r -> 0 <= tk_index token ->
  table_call r (mark_orphaned (rg_shared r) token).
Proof.
  intros Hr Hi. unfold mark_orphaned. unfold token_parts at 1.
  destruct (cell_cases r _ Hi) as [-> | (-> & d & Hd & ->)]; [by apply table_call_rejected |].
  cbn [negb]. rewrite bind_ret. destruct (reg_inv_cell _ _ _ Hr Hd) as [Hf _].
  destruct (slot_state d) eqn:Hst; try done; destruct (Z.eqb_spec (slot_generation d) (tk_generation token)) as [Hg | Hg];
    try by apply table_call_rejected.
  - rewrite (with_slot_ok _ _ _ _ Hi Hd), bind_ret. apply table_call_mutation.
    apply (touched_inv r _ d); try done.
    + unfold slot_generation. cbn. rewrite <- Hg. exact (reg_inv_gen _ _ _ Hr Hd).
    + rewrite (is_ready_not d) by (by rewrite Hst). done.
  - by apply discard_ok.
Qed.

Lemma waker_ok r token (w : Waker) : reg_inv r -> 0 <= tk_index token ->
  table_call r (register_waker (rg_shared r) token w).
Proof.
  intros Hr Hi. unfold register_waker, token_parts.
  destruct (cell_cases r _ Hi) as [-> | (-> & d & Hd & ->)]; [by apply table_call_rejected |].
  cbn [negb]. rewrite bind_ret.
  destruct (Z.eqb_spec (slot_generation d) (tk_generation token)) as [Hg | Hg]; cbn [negb];
    [| by apply table_call_rejected].
  rewrite (with_slot_ok _ _ _ _ Hi Hd), bind_ret. pose proof (lookup_lt_Some _ _ _ Hd).
  erewrite vec_get_lookup; [| done | cbn; by apply list_lookup_insert_eq]. rewrite bind_ret.
  change (slot_generation (set_waker d (Some w))) with (slot_generation d).
  change (slot_state (set_waker d (Some w))) with (slot_state d).
  rewrite Hg, Z.eqb_refl. cbn [negb]. rewrite andb_true_r.
  assert (Ht : reg_inv (set_shared r (set_slots (rg_shared r)
    (<[Z.to_nat (tk_index token) := set_waker d (Some w)]> (tb_slots (rg_shared r)))))).
  { apply (touched_inv r _ d); try done; [exact (reg_inv_gen _ _ _ Hr Hd) | exact (reg_inv_cell _ _ _ Hr Hd)]. }
  destruct (state_eqb _ _); apply table_call_mutation; [by apply reg_inv_emit | done].
Qed.

Lemma waiting_ok r token : reg_inv r -> 0 <= tk_index token ->
  table_call r (mark_waiting (rg_shared r) token).
Proof.
  intros Hr Hi. unfold mark_waiting, token_parts.
  destruct (cell_cases r _ Hi) as [-> | (-> & d & Hd & ->)]; [by apply table_call_rejected |].
  cbn [negb]. rewrite bind_ret. destruct (reg_inv_cell _ _ _ Hr Hd) as [Hf _].
  destruct (negb _); [by apply table_call_rejected |].
  destruct (slot_state d) eqn:Hst; try done; by apply table_call_rejected.
Qed.

(** ** Calls of the driver *)

Definition registry_call {X : Type} (m : outcome (OpRegistry * X)) : Prop :=
  exists r x, m = Ret (r, x) /\ reg_inv r.

Lemma alloc_inv r data : reg_inv r -> registry_call (registry_alloc r data).
Proof.
  intros [(L & R & Ho) Ht]. destruct (registry_alloc_ok r L R data Ho) as (r' & res & He & Hs).
  exists r', res. split; [done |].
  destruct Hs as [(pre & i & post & d & _ & _ & Hd & Hst & _ & Hok & _ & Hsame) | (_ & _ & Hok & _ & Hsame)].
  - split; [by eauto |]. eapply table_inv_same; [| exact Hsame].
    eapply (table_inv_update (rg_shared r) _ _ d); try done. cbn.
    rewrite (is_ready_not d) by (by rewrite Hst). change (is_ready _) with false. cbn. lia.
  - split; [by eauto |]. by eapply table_inv_same.
Qed.

Lemma active_slot r L R token s : reg_ok r L R -> 0 <= tk_index token ->
  rg_local r !! Z.to_nat (tk_index token) = Some s ->
  exists d, tb_slots (rg_shared r) !! Z.to_nat (tk_index token) = Some d.
Proof. intros Ho Hi Hs. apply lookup_lt_is_Some_2. rewrite <- (ro_len _ _ _ _ Ho). by eapply lookup_lt_Some. Qed.

Lemma remove_inv r token : reg_inv r -> 0 <= tk_index token -> registry_call (registry_remove r token).
Proof.
  intros Hr Hi. pose proof Hr as [(L & R & Ho) Ht]. unfold registry_remove, token_parts.
  destruct (rg_local r !! Z.to_nat (tk_index token)) as [s |] eqn:Hs; [| by eexists _, _].
  destruct (ls_active s) eqn:Ha; [| by eexists _, _]. cbn [negb orb].
  destruct (negb _); [by eexists _, _ |].
  destruct (active_slot _ _ _ _ _ Ho Hi Hs) as [d Hd].
  destruct (remove_at_index_ok r L R _ d s Ho Hi Hd Hs Ha) as [-> Hok]. rewrite bind_ret.
  eexists _, _. split; [done |]. split; [by eauto |].
  assert (Hc : forall n, slot_state (set_next_free (slot_free d) n) = if is_ready d then InFlightReady else Idle)
    by done.
  destruct (reg_inv_cell _ _ _ Hr Hd) as [_ Hrec].
  destruct (is_ready d) eqn:Hrd; rewrite ?is_ready_spec in Hrd.
  - eapply (table_inv_update (rg_shared r) _ _ d); [done | exact Hd | done | |].
    + split; [by rewrite Hc |]. intros _. exact (Hrec Hrd).
    + cbn. rewrite (proj2 (is_ready_spec d) Hrd), (proj2 (is_ready_spec (set_next_free (slot_free d) _)) (Hc _)). cbn. lia.
  - eapply (table_inv_update (rg_shared r) _ _ d); [done | exact Hd | done | |].
    + apply cell_inv_unready; by rewrite Hc.
    + cbn. rewrite Hrd, (is_ready_not (set_next_free (slot_free d) _)) by (by rewrite Hc). cbn. lia.
Qed.

Lemma recycle_inv r token g : reg_inv r -> 0 <= tk_index token -> 0 <= g < 2 ^ 32 ->
  registry_call (registry_recycle r token g).
Proof.
  intros Hr Hi Hg. pose proof Hr as [(L & R & Ho) Ht]. unfold registry_recycle, token_parts.
  destruct (rg_local r !! Z.to_nat (tk_index token)) as [s |] eqn:Hs; [| by eexists _, _].
  destruct (ls_active s) eqn:Ha; [| by eexists _, _]. cbn [negb orb].
  destruct (negb _); [by eexists _, _ |].
  destruct (active_slot _ _ _ _ _ Ho Hi Hs) as [d Hd].
  destruct (recycle_at_index_ok r L R _ d s g Ho Hi Hg Hd Hs Ha) as [-> Hok]. rewrite bind_ret.
  eexists _, _. split; [done |]. split; [by eauto |].
  eapply (table_inv_update (rg_shared r) _ _ d); [done | exact Hd | done | by apply cell_inv_unready |].
  cbn. change (is_ready (set_next_free _ _)) with false. fold (is_ready d). destruct Ht as [_ Hn].
  destruct (is_ready d) eqn:Hrd; cbn [Z.b2z]; [| lia]. pose proof (ready_number_pos _ _ _ Hd Hrd).
  unfold clear_ready_completion. rewrite (proj2 (Z.eqb_neq _ _)) by lia. cbn. lia.
Qed.

(** ** Work on a slot through its views

    The methods of [Slot], each in the states its marker type stands for. *)

Definition in_use (s : SlotState) : Prop := s = Reserved \/ s = InFlightWaiting \/ s = InFlightOrphaned.

Inductive slot_method : SlotCell -> SlotCell -> Prop :=
  | m_sidecar c f : slot_method c (with_sidecar_mut c f)
  | m_op {X} c (f : SOp -> SOp * X) : slot_method c (with_op_mut c f).1
  | m_op_payload {X} c (f : SOp -> SPayload -> SOp * SPayload * X) : slot_method c (with_op_and_payload_mut c f).1
  | m_storage c s : slot_method c (cell_storage c s)
  | m_platform c p : slot_method c (cell_platform c p)
  | m_init c op f c' : slot_state (sl_entry c) = Reserved -> init_op_with c op f = Ok c' -> slot_method c c'
  | m_submit c rb g c' : slot_state (sl_entry c) = Reserved -> start_submission_with c rb = Ok g ->
      guard_persist g = Ret c' -> slot_method c c'
  | m_abort c f g c' : slot_state (sl_entry c) = Reserved ->
      start_submission_with c (Some (fun c => with_sidecar_mut c f)) = Ok g ->
      guard_rollback g = Some c' -> slot_method c c'
  | m_cancel c : slot_state (sl_entry c) = InFlightWaiting -> slot_method c (cancel_slot c)
  | m_take_op c : slot_method c (take_op c).1
  | m_take_data c : slot_method c (take_completion_data c).1
  | m_reset c : slot_state (sl_entry c) <> Reserved -> slot_method c (completed_reset c).

Definition slot_edit : SlotCell -> SlotCell -> Prop := rtc slot_method.

Definition edited (c c' : SlotCell) : Prop :=
  sl_index c' = sl_index c /\ sd_next_free (sl_entry c') = sd_next_free (sl_entry c) /\
  slot_generation (sl_entry c') = slot_generation (sl_entry c) /\
  sd_data (sl_entry c') = sd_data (sl_entry c) /\ sd_waker (sl_entry c') = sd_waker (sl_entry c) /\
  (in_use (slot_state (sl_entry c)) -> in_use (slot_state (sl_entry c'))).

Lemma slot_method_edited c c' : slot_method c c' -> edited c c'.
Proof.
  unfold edited, in_use.
  destruct 1 as [| X c f | X c f | | | c op f c' Hst He | c rb g c' Hst He Hg | c f g c' Hst He Hg | | c | |].
  1, 4, 5, 9, 11, 12: by split_and!; cbn; auto.
  - unfold with_op_mut. destruct (sl_op c) as [o |]; [destruct (f o) |]; by split_and!; cbn.
  - unfold with_op_and_payload_mut. destruct (sl_op c) as [o |], (sg_payload (sl_storage c)) as [p |];
      [destruct (f o p) as [[? ?] ?] | ..]; by split_and!; cbn.
  - unfold init_op_with in He. destruct (is_some (sl_op c)); [done |]. injection He as <-.
    by split_and!; cbn; auto.
  - unfold start_submission_with in He. destruct (negb _); [done |]. injection He as <-.
    injection Hg as <-. by split_and!; cbn; auto.
  - unfold start_submission_with in He. destruct (negb _); [done |]. injection He as <-.
    injection Hg as <-. by split_and!; cbn; auto.
  - unfold take_op. destruct (sl_op c) as [o |]; by split_and!; cbn.
Qed.

Lemma slot_edit_edited c c' : slot_edit c c' -> edited c c'.
Proof.
  induction 1 as [c | c1 c2 c3 Hm _ IH]; [by split_and! |].
  apply slot_method_edited in Hm. destruct Hm as (? & ? & ? & ? & ? & ?), IH as (? & ? & ? & ? & ? & ?).
  split_and!; [congruence .. |]. auto.
Qed.

(** A slot borrowed, worked on and given back. *)
Lemma commit_inv r i c c' : reg_inv r -> 0 <= i -> slot_bundle r i = Some c ->
  in_use (slot_state (sl_entry c)) -> edited c c' ->
  exists r' l, commit_slot r c' = Ret r' /\ reg_inv r' /\ rg_local r !! Z.to_nat i = Some l /\
    r' = set_local (set_shared r (set_slots (rg_shared r) (<[Z.to_nat i := sl_entry c']> (tb_slots (rg_shared r)))))
           (<[Z.to_nat i := mkLocal (sl_op c') (sl_platform c') (sl_storage c') (ls_active l) (ls_generation l)]>
              (rg_local r)).
Proof.
  intros Hr Hi Hb Hu (Hx & Hn & Hg & _ & _ & Hu'). specialize (Hu' Hu). unfold slot_bundle in Hb.
  destruct (tb_slots (rg_shared r) !! Z.to_nat i) as [d |] eqn:Hd; [| done].
  destruct (rg_local r !! Z.to_nat i) as [l |] eqn:Hl; [| done]. injection Hb as <-. cbn in *.
  eexists _, l. split; [| split; [| done]].
  - unfold commit_slot. rewrite Hx, (with_slot_ok _ _ _ _ Hi Hd), bind_ret, (vec_get_lookup _ _ _ Hi Hl), bind_ret.
    rewrite vec_set_in_range, bind_ret by (apply lookup_lt_Some in Hl; lia). done.
  - eapply (reg_inv_local _ _ (Z.to_nat i) l); [| done | done | done].
    apply (touched_inv r _ d); try done.
    + rewrite Hg. exact (reg_inv_gen _ _ _ Hr Hd).
    + apply cell_inv_unready; intros E; rewrite E in Hu'; destruct Hu' as [? | [? | ?]]; done.
    + rewrite !is_ready_not; [done | ..]; intros E; rewrite E in *;
        [destruct Hu as [? | [? | ?]] | destruct Hu' as [? | [? | ?]]]; done.
Qed.
End driver_steps.
