(* ===== verification/DriverSafety.v ===== *)
(** * Safety of the driver's slots under every sequence of calls

    [run_call] is one call of the driver or of a future: allocation and
    release, work on a slot through its views, acceptance of a completion with
    a backend that follows the rules of the slot types ([LawfulHooks]), and
    the calls of the futures on the shared table. *)

From stdpp Require Import strings.
From S2P Require Import Prelude Token SlotState Anomaly SlotTable Completion Registry Flow RegistryInv CompletionSpec DriverSteps.

(** ** Backends *)

Section lawful.
Context `{Spec : SlotSpec} {H : Type} `{Hooks : !CompletionBackendHooks H}.

(** An [OpToken] is made from an unsigned index. *)
Definition event_ok (e : UserCompletionEvent) : Prop := 0 <= tk_index (ue_token e).

Definition hook_result_ok (x : result (CompletionHookOutcome BackendEffect) SError) : Prop :=
  match x with Ok (HookUser e _ _ _ _) => event_ok e | _ => True end.

(** What the types of the hooks promise: a hook that is lent a slot uses the
    methods of its view, and events carry tokens. *)
Class LawfulHooks : Prop := {
  lawful_control : forall h c, hook_result_ok (handle_control h c).2;
  lawful_waiting : forall h e c src, event_ok e ->
    slot_edit c (complete_waiting h e c src).1.2 /\ hook_result_ok (complete_waiting h e c src).2;
  lawful_orphaned : forall h e c src, event_ok e ->
    slot_edit c (complete_orphaned h e c src).1.2 /\ hook_result_ok (complete_orphaned h e c src).2;
  lawful_corrupt : forall h e k src, event_ok e -> hook_result_ok (complete_corrupt h e k src).2;
  lawful_ingress : forall h b,
    match (complete_backend_ingress h b).2 with
    | Ok (RouteUser e) => event_ok e
    | Ok (Finish o) => hook_result_ok (Ok o)
    | Err _ => True
    end
}.
End lawful.
Arguments LawfulHooks {Spec} H {Hooks}.

Section safety.
Context `{Spec : SlotSpec} {H : Type} `{Hooks : !CompletionBackendHooks H}.
Notation St := (OpRegistry * H)%type.
Implicit Types (s : St) (r : OpRegistry) (token : OpToken).

(** ** Accepting a completion *)

Definition flow_call {A : Type} (m : outcome (St * A)) : Prop :=
  exists s x, m = Ret (s, x) /\ reg_inv s.1.

Lemma flow_ret {A} s (x : A) : reg_inv s.1 -> flow_call (Ret (s, x)).
Proof. intros Hi. by exists s, x. Qed.

Lemma flow_and_then {A B} (m : outcome (St * result A SError)) (k : St -> A -> outcome (St * result B SError)) :
  flow_call m -> (forall s x, reg_inv s.1 -> flow_call (k s x)) -> flow_call (and_then m k).
Proof.
  intros (s & x & -> & Hi) Hk. unfold and_then. rewrite bind_ret. destruct x as [a | e]; [by apply Hk |].
  by apply flow_ret.
Qed.

Lemma flow_lift {A} r (x : H * result A SError) : reg_inv r -> flow_call (lift_hook r x).
Proof. intros Hi. by apply flow_ret. Qed.

Lemma flow_lift_guarding {A} r g (x : H * result A SError) : reg_inv r -> flow_call (lift_hook_guarding r g x).
Proof.
  intros Hi. apply flow_ret. cbn. destruct x.2; [done |]. rewrite guard_drop_trace. apply reg_inv_emit. by rewrite set_shared_id.
Qed.

Lemma flow_finalize s token : reg_inv s.1 -> 0 <= tk_index token -> flow_call (finalize_checked s token).
Proof.
  intros Hi Ht. destruct (remove_inv _ _ Hi Ht) as (r & o & Hr & Hi'). unfold finalize_checked.
  rewrite Hr, bind_ret. destruct o; by apply flow_ret.
Qed.

Lemma cleanup_inv r t (g : CleanupGuard) : reg_inv (set_shared r t) ->
  reg_inv (set_shared r (run_completion_cleanup t g).1.1) /\ (run_completion_cleanup t g).1.2 = None.
Proof.
  intros Hi. destruct g as [c |]; [| done]. unfold run_completion_cleanup. cbn.
  destruct (cleanup_result c); cbn; split; try done; [by apply reg_inv_emit |].
  change (set_shared r (set_diagnostics ?x ?y)) with (set_shared (set_shared r x) (set_diagnostics x y)).
  apply reg_inv_only; [by apply reg_inv_emit | by eexists].
Qed.

Lemma flow_record s p : reg_inv s.1 -> 0 <= tk_index (packet_token p) -> flow_call (record_user_completion s p).
Proof.
  intros Hi Ht. destruct (record_ok _ _ Hi Ht) as (t & x & Hr & Hi'). unfold record_user_completion.
  rewrite Hr, bind_ret. destruct x as [o | o q]; apply flow_ret; [done |]. cbn.
  unfold run_rejected_cleanup. destruct (cleanup_inv _ _ (input_cleanup (pk_input q)) Hi') as [Hc Hg].
  destruct (run_completion_cleanup _ _) as [[t' g] b]. cbn in *. by rewrite Hg.
Qed.

Definition finalize_ok (f : option FinalizeAction) : Prop :=
  match f with Some (FinalizeWaiting e) | Some (FinalizeOrphaned e) => event_ok e | None => True end.

Lemma flow_finish s o f : reg_inv s.1 -> hook_result_ok (Ok o) -> finalize_ok f ->
  flow_call (finish_hook_outcome s o f).
Proof.
  intros Hi Ho Hf. destruct o as [e pl de cl eff | cl eff | k a eff | eff | eff]; cbn [finish_hook_outcome].
  - apply flow_and_then; [by apply flow_lift_guarding |]. intros s1 _ H1.
    destruct (flow_record s1 (packet_user_with_cleanup e pl de cl) H1 Ho) as (s2 & o & -> & H2). rewrite bind_ret.
    apply flow_and_then; [| intros; by apply flow_ret]. apply flow_finalize; [done |].
    destruct f as [[e' | e'] |]; done.
  - apply flow_and_then; [by apply flow_lift_guarding |]. intros s1 _ H1.
    assert (H2 : reg_inv (update_table s1 (fun t => (run_completion_cleanup t cl).1.1)).1).
    { apply cleanup_inv. by rewrite set_shared_id. }
    apply flow_and_then; [| intros; by apply flow_ret].
    destruct f as [[e' | e'] |]; [by apply flow_finalize .. | by apply flow_ret].
  - apply flow_and_then; [| intros; by apply flow_ret]. apply flow_lift, reg_inv_only; [done |].
    apply note_anomaly_only.
  - apply flow_and_then; [by apply flow_lift | intros; by apply flow_ret].
  - apply flow_and_then; [by apply flow_lift | intros; by apply flow_ret].
Qed.

(** What a checked view shows. *)
Lemma checked_view_valid r token v : checked_slot_view r token = Ok (Valid v) ->
  exists c, slot_bundle r (tk_index token) = Some c /\ slot_generation (sl_entry c) = tk_generation token /\
    ((v = ViewReserved c /\ slot_state (sl_entry c) = Reserved) \/
     (v = ViewWaiting c /\ slot_state (sl_entry c) = InFlightWaiting /\ is_some (sl_op c) = true) \/
     (v = ViewOrphaned c /\ slot_state (sl_entry c) = InFlightOrphaned /\ is_some (sl_op c) = true)).
Proof.
  unfold checked_slot_view, token_parts. destruct (slot_bundle r (tk_index token)) as [c |]; [| done].
  cbn [slot_snapshot sn_generation sn_state sn_has_op sn_has_payload].
  destruct (Z.eqb_spec (slot_generation (sl_entry c)) (tk_generation token)) as [Hg |]; [| done]. cbn [negb].
  intros Hv. exists c. split; [done |]. split; [done |].
  destruct (slot_state (sl_entry c)) eqn:Hst; try done.
  - destruct (try_bind c) as [x |] eqn:Hb; [| done]. injection Hv as <-. unfold try_bind in Hb.
    destruct (_ && _); [| done]. injection Hb as <-. by left.
  - destruct (is_some (sl_op c)), (is_some (sg_payload (sl_storage c))); try done. injection Hv as <-. right. by left.
  - destruct (is_some (sl_op c)), (is_some (sg_payload (sl_storage c))); try done. injection Hv as <-. right. by right.
Qed.

Lemma flow_with_hook s i c x f : reg_inv s.1 -> 0 <= i -> slot_bundle s.1 i = Some c ->
  in_use (slot_state (sl_entry c)) -> slot_edit c x.1.2 -> hook_result_ok x.2 -> finalize_ok (Some f) ->
  flow_call (with_hook_slot s x f).
Proof.
  intros Hi Hn Hb Hu He Ho Hf. destruct x as [[h c'] o]. cbn in *.
  destruct (commit_inv _ _ _ _ Hi Hn Hb Hu (slot_edit_edited _ _ He)) as (r' & l & Hc & Hi' & _).
  unfold with_hook_slot. rewrite Hc, bind_ret. destruct o as [o | e]; [by apply flow_finish | by apply flow_ret].
Qed.

(** What the rules say of the completions from one source. *)
Definition source_ok (src : CompletionSource BackendIngress) : Prop := forall h e, event_ok e ->
  (forall c, slot_edit c (complete_waiting h e c src).1.2 /\ hook_result_ok (complete_waiting h e c src).2) /\
  (forall c, slot_edit c (complete_orphaned h e c src).1.2 /\ hook_result_ok (complete_orphaned h e c src).2) /\
  (forall k, hook_result_ok (complete_corrupt h e k src).2).

Lemma flow_source s e src : source_ok src -> reg_inv s.1 -> event_ok e -> flow_call (accept_user_event s e src).
Proof.
  intros Hsrc Hi He. destruct (Hsrc s.2 e He) as (Hwait & Horphan & Hcorrupt). unfold accept_user_event.
  destruct (checked_slot_view s.1 (ue_token e)) as [v | err] eqn:Hv; [| by apply flow_ret].
  assert (Hbad : forall k, flow_call (and_then (lift_hook s.1 (complete_corrupt s.2 e k src))
    (fun s1 o => finish_hook_outcome s1 o None))).
  { intros k. pose proof (Hcorrupt k) as Hl. unfold and_then, lift_hook.
    rewrite bind_ret. destruct (complete_corrupt s.2 e k src) as [h [o | err]]; cbn in *;
      [by apply flow_finish | by apply flow_ret]. }
  unfold route_user_completion, slot_view_kind, token_parts.
  destruct v as [v | i g | sn | sn]; cbn [kind_reason]; rewrite ?bind_ret; try apply Hbad.
  destruct (checked_view_valid _ _ _ Hv) as (c & Hb & Hg & [[-> Hst] | [(-> & Hst & _) | (-> & Hst & _)]]);
    rewrite bind_ret.
  - by apply flow_ret.
  - destruct (Hwait c). eapply flow_with_hook; try done. right. by left.
  - destruct (Horphan c). eapply flow_with_hook; try done. right. by right.
Qed.

Context `{Lawful : !LawfulHooks H}.

Lemma flow_user s e src : reg_inv s.1 -> event_ok e -> flow_call (accept_user_event s e src).
Proof.
  apply flow_source. intros h e' He. split_and!; intros; [by apply lawful_waiting | by apply lawful_orphaned | by apply lawful_corrupt].
Qed.

(** Completions that reach the driver. *)
Definition ingress_ok (i : CompletionIngress BackendIngress) : Prop :=
  match i with
  | IngressKernel e =>
      (exists raw, 0 <= rw_token raw < 2 ^ 64 /\ e = envelope_from_raw raw) \/
      (exists b t q res fl, 0 <= tk_index t /\ e = from_sidecar_user_token b t q res fl)
  | IngressUser e | IngressSynthetic e _ => event_ok e
  | IngressBackend _ | IngressAnomaly _ _ => True
  end.

Lemma user_class_inj (a b : OpToken) : UserClass a = UserClass b -> a = b.
Proof. congruence. Qed.

Lemma classify_index x t : 0 <= x -> classify x = UserClass t -> 0 <= tk_index t.
Proof.
  intros Hx. unfold classify.
  assert (Hc : classify_control x <> UserClass t) by (unfold classify_control; by destruct (control_kind_from_raw _)).
  destruct (_ =? 0); [| done]. destruct (_ <=? USIZE_MAX); [| done].
  unfold token_try_new. destruct (_ <=? _); [done |].
  intros E. apply user_class_inj in E as <-. cbn [tk_index]. apply Z.land_nonneg. by left.
Qed.

Lemma dispatch_ok e : ingress_ok (IngressKernel e) ->
  exists d, dispatch_envelope e = Ret d /\ (forall ev, d = DispatchUser ev -> event_ok ev).
Proof.
  intros [(raw & Hr & ->) | (b & t & q & res & fl & Ht & ->)].
  - destruct (dispatch_total raw Hr) as [d Hd]. exists d. split; [done |]. intros ev ->.
    unfold dispatch_envelope, envelope_from_raw in Hd.
    destruct (classify (rw_token raw)) as [tk | [] id | k id] eqn:Hc; cbn in Hd; try done.
    apply bind_Ret_inv in Hd as (x & Hx & [= <-]). unfold event_from_classified in Hx.
    apply bind_Ret_inv in Hx as (u & _ & [= <-]). unfold event_ok. cbn. eapply classify_index; [| done]. lia.
  - unfold dispatch_envelope, event_from_classified. cbn. rewrite Z.eqb_refl. cbn. eexists. split; [done |].
    by intros ev [= <-].
Qed.

Lemma flow_accept s i : reg_inv s.1 -> ingress_ok i -> flow_call (accept_completion s i).
Proof.
  intros Hi Hok. unfold accept_completion.
  assert (Hctl : forall c, flow_call (and_then (lift_hook s.1 (handle_control s.2 c))
    (fun s1 o => finish_hook_outcome s1 o None))).
  { intros c. pose proof (lawful_control s.2 c) as Hl. unfold and_then, lift_hook. rewrite bind_ret.
    destruct (handle_control s.2 c) as [h [o | err]]; cbn in *; [by apply flow_finish | by apply flow_ret]. }
  destruct i as [e | e | e src | b | k a].
  - destruct (dispatch_ok e Hok) as (d & -> & Hd). rewrite bind_ret.
    destruct d as [ev | id raw | id raw | en]; [apply flow_user; [done | by apply Hd] | apply Hctl | apply Hctl |].
    by apply flow_ret.
  - by apply flow_user.
  - by apply flow_user.
  - pose proof (lawful_ingress s.2 b) as Hl. unfold and_then, lift_hook. rewrite bind_ret.
    destruct (complete_backend_ingress s.2 b) as [h [[ev | o] | err]]; cbn in *;
      [by apply flow_user | by apply flow_finish | by apply flow_ret].
  - apply flow_ret, reg_inv_only; [done | apply note_anomaly_only].
Qed.

(** ** Sequences of calls *)

Inductive call : Type :=
  | CallAlloc (data : SPlatform)
  | CallRemove (token : OpToken)
  | CallRecycle (token : OpToken) (next_generation : Z)
  | CallWork (token : OpToken) (f : SlotCell -> SlotCell)
  | CallAccept (i : CompletionIngress BackendIngress)
  | CallTake (token : OpToken)
  | CallDiscard (token : OpToken)
  | CallOrphan (token : OpToken)
  | CallWaker (token : OpToken) (w : Waker)
  | CallWait (token : OpToken).

Definition call_ok (c : call) : Prop :=
  match c with
  | CallAlloc _ => True
  | CallRecycle token g => 0 <= tk_index token /\ 0 <= g < 2 ^ 32
  | CallWork token f => 0 <= tk_index token /\ forall c, in_use (slot_state (sl_entry c)) -> slot_edit c (f c)
  | CallAccept i => ingress_ok i
  | CallRemove token | CallTake token | CallDiscard token | CallOrphan token | CallWaker token _
  | CallWait token => 0 <= tk_index token
  end.

Definition view_cell (v : SlotView) : SlotCell :=
  match v with ViewReserved c | ViewWaiting c | ViewOrphaned c => c end.

Definition on_table {X : Type} s (m : outcome (SlotTable * X)) : outcome St :=
  '(t, _) ← m; Ret (set_shared s.1 t, s.2).
Definition on_registry {X : Type} s (m : outcome (OpRegistry * X)) : outcome St :=
  '(r, _) ← m; Ret (r, s.2).

Definition run_call s (c : call) : outcome St :=
  match c with
  | CallAlloc data => on_registry s (registry_alloc s.1 data)
  | CallRemove token => on_registry s (registry_remove s.1 token)
  | CallRecycle token g => on_registry s (registry_recycle s.1 token g)
  | CallWork token f =>
      match checked_slot_view s.1 token with
      | Ok (Valid v) => r ← commit_slot s.1 (f (view_cell v)); Ret (r, s.2)
      | _ => Ret s
      end
  | CallAccept i => '(s, _) ← accept_completion s i; Ret s
  | CallTake token => on_table s (try_take_record (rg_shared s.1) token)
  | CallDiscard token => on_table s (discard_ready_record (rg_shared s.1) token)
  | CallOrphan token => on_table s (mark_orphaned (rg_shared s.1) token)
  | CallWaker token w => on_table s (register_waker (rg_shared s.1) token w)
  | CallWait token => on_table s (mark_waiting (rg_shared s.1) token)
  end.

Fixpoint run_calls s (cs : list call) : outcome St :=
  match cs with
  | [] => Ret s
  | c :: cs => s ← run_call s c; run_calls s cs
  end.

Definition run_driver (capacity : nat) (h : H) (cs : list call) : outcome St :=
  r ← registry_new capacity; run_calls (r, h) cs.

Lemma on_table_inv {X} s (m : outcome (SlotTable * X)) : table_call s.1 m ->
  exists s', on_table s m = Ret s' /\ reg_inv s'.1.
Proof. intros (t & x & -> & Hi). unfold on_table. rewrite bind_ret. by eexists. Qed.

Lemma on_registry_inv {X} s (m : outcome (OpRegistry * X)) : registry_call m ->
  exists s', on_registry s m = Ret s' /\ reg_inv s'.1.
Proof. intros (r & x & -> & Hi). unfold on_registry. rewrite bind_ret. by eexists. Qed.

Lemma run_call_inv s c : reg_inv s.1 -> call_ok c -> exists s', run_call s c = Ret s' /\ reg_inv s'.1.
Proof.
  intros Hi Hc. destruct c as [data | token | token g | token f | i | token | token | token | token w | token];
    cbn [run_call call_ok] in *.
  - by apply on_registry_inv, alloc_inv.
  - by apply on_registry_inv, remove_inv.
  - destruct Hc. by apply on_registry_inv, recycle_inv.
  - destruct Hc as [Hn Hf]. destruct (checked_slot_view s.1 token) as [[v | | |] |] eqn:Hv; try by eexists.
    destruct (checked_view_valid _ _ _ Hv) as (c & Hb & _ & Hcase).
    assert (Hx : view_cell v = c /\ in_use (slot_state (sl_entry c))).
    { unfold in_use. destruct Hcase as [[-> Hst] | [(-> & Hst & _) | (-> & Hst & _)]]; auto. }
    destruct Hx as [-> Hu].
    destruct (commit_inv _ _ _ _ Hi Hn Hb Hu (slot_edit_edited _ _ (Hf c Hu))) as (r' & l & -> & Hi' & _).
    rewrite bind_ret. by eexists.
  - destruct (flow_accept _ _ Hi Hc) as (s' & x & -> & Hi'). rewrite bind_ret. by eexists.
  - by apply on_table_inv, take_ok.
  - by apply on_table_inv, discard_ok.
  - by apply on_table_inv, orphan_ok.
  - by apply on_table_inv, waker_ok.
  - by apply on_table_inv, waiting_ok.
Qed.

Lemma run_calls_inv cs : forall s, reg_inv s.1 -> Forall call_ok cs ->
  exists s', run_calls s cs = Ret s' /\ reg_inv s'.1.
Proof.
  induction cs as [| c cs IH]; intros s Hi Hc; [by exists s |]. apply Forall_cons in Hc as [Hc Hcs].
  destruct (run_call_inv s c Hi Hc) as (s1 & He & H1). cbn [run_calls]. rewrite He, bind_ret. by apply IH.
Qed.

Lemma new_inv (capacity : nat) : Z.of_nat capacity <= NULL_INDEX ->
  exists r, registry_new capacity = Ret r /\ reg_inv r.
Proof.
  intros Hc. destruct (registry_new_ok capacity Hc) as (r & He & Ho & _ & Hs). exists r. split; [done |].
  split; [by eauto |]. eapply table_inv_same; [| exact Hs]. split.
  - intros k d Hd. cbn in Hd. apply lookup_replicate in Hd as [-> _]. by apply cell_inv_unready.
  - cbn. clear. induction capacity as [| n IH]; [done |]. cbn. by rewrite <- IH.
Qed.

(** Some slot is ready exactly when the counter is positive. *)
Lemma ready_number_exists (ss : list SlotData) : 0 < ready_number ss <->
  exists k d, ss !! k = Some d /\ slot_state d = InFlightReady.
Proof.
  split.
  - induction ss as [| d ss IH]; [done |]. cbn [ready_number]. destruct (is_ready d) eqn:Hr.
    + intros _. exists 0%nat, d. split; [done | by apply is_ready_spec].
    + intros Hp. destruct IH as (k & x & Hx); [cbn in Hp; lia |]. by exists (S k), x.
  - intros (k & d & Hd & Hr). apply is_ready_spec in Hr. pose proof (ready_number_pos _ _ _ Hd Hr). lia.
Qed.

(** C5 The operation slots stay sound: from a new registry, any sequence of
    allocations, releases, work on slots, completions and futures' calls, with
    any backend that uses the slots through their views, returns without panic
    or endless spinning; afterwards both free lists together hold exactly the
    slots that are not active and the number of active operations is exact, a
    ready slot holds the completion record of its own operation, and the
    counter the driver polls is positive exactly when some slot is ready. *)
Theorem driver_slots_sound (capacity : nat) (h : H) (cs : list call)
    (Hcap : Z.of_nat capacity <= NULL_INDEX) (Hcs : Forall call_ok cs) :
  exists s, run_driver capacity h cs = Ret s /\
    (exists L R, chain (tb_slots (rg_shared s.1)) (rg_local_free_head s.1) L /\
       chain (tb_slots (rg_shared s.1)) (tb_remote_free_head (rg_shared s.1)) R /\ NoDup (L ++ R) /\
       forall i, 0 <= i < registry_capacity s.1 -> (i ∈ L ++ R <-> local_active (rg_local s.1) i = false)) /\
    rg_active_count s.1 = active_number (rg_local s.1) /\
    (forall k d, tb_slots (rg_shared s.1) !! k = Some d -> slot_state d = InFlightReady ->
       exists ev pl de cl, sd_data d = DataUser ev pl de cl /\
         ue_token ev = mkToken (Z.of_nat k) (slot_generation d)) /\
    (has_ready_completion (rg_shared s.1) = true <->
       exists k d, tb_slots (rg_shared s.1) !! k = Some d /\ slot_state d = InFlightReady).
Proof.
  destruct (new_inv capacity Hcap) as (r & He & Hr). destruct (run_calls_inv cs (r, h) Hr Hcs) as (s & Hs & Hi).
  exists s. unfold run_driver. rewrite He, bind_ret. split; [done |].
  destruct Hi as [(L & R & Ho) [Hc Hn]]. split_and!.
  - exists L, R. split_and!; [apply (ro_local _ _ _ _ Ho) | apply (ro_remote _ _ _ _ Ho) |
      apply (ro_nodup _ _ _ _ Ho) | apply (ro_free _ _ _ _ Ho)].
  - apply (ro_count _ _ _ _ Ho).
  - intros k d Hd Hst. by apply (Hc k d).
  - unfold has_ready_completion. rewrite Z.ltb_lt, Hn. apply ready_number_exists.
Qed.
End safety.
