(* ===== verification/OpLifecycle.v ===== *)
(** * The life of an operation

    Allocation hands out a slot nobody uses; a completion goes to the future
    of its own operation, once; a token of an earlier generation changes
    nothing.  The last section runs the driver with a small backend and shows
    where the scheme ends: generations beyond 15 bits. *)

From stdpp Require Import strings.
From S2P Require Import Prelude Token SlotState Anomaly SlotTable Completion Registry Flow RegistryInv CompletionSpec DriverSteps DriverSafety.

Section lifecycle.
Context `{Spec : SlotSpec}.
Implicit Types (t : SlotTable) (r : OpRegistry) (d : SlotData) (token : OpToken) (p : CompletionPacket).

(** ** Allocation *)

(** Allocation is exclusive: it always returns; a handle names a slot that
    was idle and not in use, now reserved for it under the generation after the
    slot's last one, active, with an empty operation entry; every other slot keeps its state,
    generation, record and private half; and an error leaves everything in place
    and means that none of the slots of the list it searched was idle. *)
Theorem registry_alloc_exclusive r L R (data : SPlatform) (Hok : reg_ok r L R) :
  exists r' res, registry_alloc r data = Ret (r', res) /\
    (forall k l, rg_local r !! k = Some l ->
       (forall hd, res = Ok hd -> k <> Z.to_nat (oh_index hd)) -> rg_local r' !! k = Some l) /\
    (forall k d, tb_slots (rg_shared r) !! k = Some d ->
       (forall hd, res = Ok hd -> k <> Z.to_nat (oh_index hd)) ->
       exists n, tb_slots (rg_shared r') !! k = Some (set_next_free d n)) /\
    match res with
    | Ok hd =>
        exists d n, oh_index hd ∈ searched L R /\ tb_slots (rg_shared r) !! Z.to_nat (oh_index hd) = Some d /\
          slot_state d = Idle /\ local_active (rg_local r) (oh_index hd) = false /\
          oh_generation hd = wrapping_add U32 (slot_generation d) 1 /\
          tb_slots (rg_shared r') !! Z.to_nat (oh_index hd) =
            Some (set_next_free (set_core d (mkCore (oh_generation hd) Reserved 0)) n) /\
          rg_local r' !! Z.to_nat (oh_index hd) = Some (mkLocal None data storage_new true (oh_generation hd)) /\
          rg_active_count r' = rg_active_count r + 1
    | Err back => back = data /\ rg_active_count r' = rg_active_count r /\
        forall i, i ∈ searched L R -> ~ idle_at (tb_slots (rg_shared r)) i
    end.
Proof.
  destruct (registry_alloc_ok r L R data Hok) as (r' & res & He & Hs). exists r', res. split; [done |].
  pose proof Hok as [Hlen _ HL HR _ _ Hfree Hcnt _].
  destruct Hs as [(pre & i & post & d & HS & _ & Hd & Hst & -> & Hok' & Hloc & (Hcells & _)) |
                  (Hall & -> & Hok' & Hloc & (Hcells & _))].
  - assert (Hin : i ∈ searched L R) by (rewrite HS, elem_of_app, elem_of_cons; auto).
    assert (Hin' : i ∈ L ++ R) by (apply elem_of_app; destruct L; [right | left]; exact Hin).
    assert (Hi : 0 <= i < Z.of_nat (length (rg_local r))).
    { rewrite Hlen. apply elem_of_app in Hin' as [Hx | Hx];
        [exact (chain_range _ _ _ _ HL Hx) | exact (chain_range _ _ _ _ HR Hx)]. }
    pose proof (lookup_lt_Some _ _ _ Hd) as Hlt.
    cbn [occupied rg_local rg_shared tb_slots set_slots] in Hloc, Hcells. cbn [oh_index oh_generation].
    split_and!.
    + intros k l Hl Hne. rewrite Hloc, list_lookup_insert_ne; [done |]. intros E. by apply (Hne _ eq_refl).
    + intros k x Hx Hne. apply Hcells. rewrite list_lookup_insert_ne; [done |]. intros E. by apply (Hne _ eq_refl).
    + destruct (proj2 Hcells _ _ (list_lookup_insert_eq _ _ _ Hlt)) as [n Hn].
      exists d, n. split_and!; try done.
      * apply Hfree; done.
      * rewrite Hloc. apply list_lookup_insert_eq. lia.
      * rewrite (ro_count _ _ _ _ Hok'), Hcnt, Hloc.
        destruct (lookup_lt_is_Some_2 (rg_local r) (Z.to_nat i)) as [l Hl]; [lia |].
        rewrite (active_number_insert _ _ _ _ Hl). cbn [ls_active Z.b2z].
        assert (Ha : local_active (rg_local r) i = false) by (apply Hfree; done).
        unfold local_active in Ha. rewrite Hl in Ha. rewrite Ha. cbn. lia.
  - split_and!; try done.
    + intros k l Hl _. by rewrite Hloc.
    + intros k x Hx _. by apply Hcells.
    + by rewrite (ro_count _ _ _ _ Hok'), Hcnt, Hloc.
    + intros i Hi. by apply (Forall_forall (fun j => ~ idle_at (tb_slots (rg_shared r)) j) (searched L R)).
Qed.

(** ** Delivery *)

(** Taking the record a slot holds. *)
Lemma take_ready_record t token d ev pl de cl (Hi : 0 <= tk_index token) :
  let k := Z.to_nat (tk_index token) in
  tb_slots t !! k = Some d -> slot_state d = InFlightReady -> slot_generation d = tk_generation token ->
  sd_data d = DataUser ev pl de cl ->
  try_take_record t token = Ret (taken t k d, Ok (PollReady (mkRecord ev pl de cl))).
Proof.
  intros k Hd Hst Hg Hdata. unfold try_take_record, token_parts.
  rewrite (in_table_some _ _ _ Hi Hd). cbn [negb]. rewrite (vec_get_lookup _ _ _ Hi Hd), bind_ret.
  change (cs_generation (sd_core d)) with (slot_generation d). change (cs_state (sd_core d)) with (slot_state d).
  rewrite Hg, Z.ltb_irrefl, Hst, (take_ready _ _ _ Hi Hd Hst Hg), bind_ret, Hdata. done.
Qed.

(** A slot of another generation. *)
Definition stale t token : Prop :=
  exists d, tb_slots t !! Z.to_nat (tk_index token) = Some d /\
    slot_generation d <> tk_generation token /\ slot_state d <> Finalizing.

Lemma take_stale t token : 0 <= tk_index token -> stale t token ->
  exists t' k, only_diagnostics t t' /\
    try_take_record t token = Ret (t', Ok (PollUnavailable k (attach_from_op_token token))).
Proof.
  intros Hi (d & Hd & Hg & _). unfold try_take_record, token_parts.
  rewrite (in_table_some _ _ _ Hi Hd). cbn [negb]. rewrite (vec_get_lookup _ _ _ Hi Hd), bind_ret.
  change (cs_generation (sd_core d)) with (slot_generation d).
  destruct (Z.ltb_spec (tk_generation token) (slot_generation d));
    [| destruct (Z.ltb_spec (slot_generation d) (tk_generation token)); [| lia]];
    eexists _, _; (split; [apply note_anomaly_only | done]).
Qed.

Lemma generation_moves g : 0 <= g < 2 ^ 32 -> wrapping_add U32 g 1 <> g.
Proof.
  intros Hg. unfold wrapping_add, wrap, U32. destruct (decide (g = 2 ^ 32 - 1)) as [-> |]; [by vm_compute |].
  rewrite Z.mod_small by lia. lia.
Qed.

Lemma record_stale t p : 0 <= tk_index (packet_token p) -> stale t (packet_token p) ->
  exists t' o, only_diagnostics t t' /\ record_completion t p = Ret (t', ResRejected o p) /\ o <> RecordedUser.
Proof.
  intros Hi (d & Hd & Hg & _). destruct (record_other t p Hi) as (t' & o & He & Ho & Hne & _).
  - intros x Hx. rewrite Hd in Hx. injection Hx as <-. done.
  - by exists t', o.
Qed.

(** C29 A completion is delivered once: recorded for the waiting operation it
    wakes the task registered in the slot; until the future takes it a second
    completion for the operation is rejected and handed back; the future gets
    the event, payload, detail and armed clean-up exactly as they were recorded; afterwards the slot
    is idle under a new generation, the token is dead, and the record is not
    obtained again. *)
Theorem completion_delivered_once r p q d (Hinv : reg_inv r) (Hi : 0 <= tk_index (packet_token p))
    (Hd : tb_slots (rg_shared r) !! Z.to_nat (tk_index (packet_token p)) = Some d)
    (Hw : slot_state d = InFlightWaiting) (Hg : slot_generation d = tk_generation (packet_token p))
    (Hq : packet_token q = packet_token p) :
  exists t1 t2 t3 d2 o k, record_completion (rg_shared r) p = Ret (t1, ResRecorded RecordedUser) /\
    tb_trace t1 = tb_trace (rg_shared r) ++ dropped (sd_data d) ++ woken d /\
    record_completion t1 q = Ret (t2, ResRejected o q) /\ tb_slots t2 = tb_slots t1 /\ o <> RecordedUser /\
    match pk_input p with
    | InputUser c =>
        try_take_record t2 (packet_token p) =
          Ret (t3, Ok (PollReady (mkRecord (pk_event p) (uc_payload c) (uc_detail c) (uc_cleanup c))))
    end /\
    tb_slots t3 !! Z.to_nat (tk_index (packet_token p)) = Some d2 /\ slot_state d2 = Idle /\
    slot_generation d2 <> tk_generation (packet_token p) /\
    (exists t4, try_take_record t3 (packet_token p) =
       Ret (t4, Ok (PollUnavailable k (attach_from_op_token (packet_token p)))) /\ tb_slots t4 = tb_slots t3).
Proof.
  pose proof (reg_inv_gen _ _ _ Hinv Hd) as Hrange. set (i := Z.to_nat (tk_index (packet_token p))) in *.
  pose proof (lookup_lt_Some _ _ _ Hd) as Hlt.
  pose proof (record_waiting _ _ _ Hi Hd Hw Hg) as Hrec. fold i in Hrec.
  set (t1 := recorded (rg_shared r) i d p) in *.
  assert (Hd1 : tb_slots t1 !! i = Some (ready_cell d p)) by (apply list_lookup_insert_eq; done).
  destruct (record_other t1 q) as (t2 & o & Hrej & [dg ->] & Hne & _); [by rewrite Hq | |].
  { rewrite Hq. fold i. rewrite Hd1. by intros x [= <-] _. }
  set (t2 := set_diagnostics t1 dg) in *. set (t3 := taken t2 i (ready_cell d p)).
  assert (Hd3 : tb_slots t3 !! i = Some (taken_cell (ready_cell d p))).
  { apply list_lookup_insert_eq. cbn. by rewrite length_insert. }
  assert (Hng : slot_generation (taken_cell (ready_cell d p)) <> tk_generation (packet_token p)).
  { rewrite <- Hg. by apply generation_moves. }
  destruct (take_stale t3 (packet_token p) Hi) as (t4 & k & [dg4 ->] & Htk).
  { exists (taken_cell (ready_cell d p)). done. }
  exists t1, t2, t3, (taken_cell (ready_cell d p)), o, k. split_and!; try done.
  - destruct (pk_input p) as [c] eqn:Hin. apply (take_ready_record t2 _ (ready_cell d p)); try done.
    unfold ready_cell, packet_data. cbn. by rewrite Hin.
  - by eexists.
Qed.

(** ** Tokens of earlier generations *)

(** A call on the table that is turned away. *)
Definition turned_away t (m : outcome (SlotTable * CompletionMutationOutcome)) : Prop :=
  exists t' a, m = Ret (t', Rejected a) /\ only_diagnostics t t'.

Lemma turned_away_mismatch t token i e a st :
  turned_away t (Ret (recorded_mutation t token (mutation_generation_mismatch i e a st))).
Proof.
  unfold mutation_generation_mismatch. destruct (e <? a);
    (eexists _, _; split; [reflexivity | apply note_anomaly_only]).
Qed.

Lemma mutations_stale t token (w : Waker) : 0 <= tk_index token -> stale t token ->
  turned_away t (register_waker t token w) /\ turned_away t (mark_waiting t token) /\
  turned_away t (discard_ready_record t token) /\ turned_away t (mark_orphaned t token).
Proof.
  intros Hi (d & Hd & Hg & Hf).
  unfold register_waker, mark_waiting, discard_ready_record, mark_orphaned, token_parts.
  rewrite (in_table_some _ _ _ Hi Hd). cbn [negb]. rewrite (vec_get_lookup _ _ _ Hi Hd), !bind_ret.
  rewrite (proj2 (Z.eqb_neq _ _) Hg). cbn [negb].
  split_and!; try apply turned_away_mismatch; destruct (slot_state d); try done; apply turned_away_mismatch.
Qed.

(** A token of another generation is harmless: whatever call of the
    completion table it is used with, and a completion recorded under it, no
    slot changes, no task is woken and no clean-up runs: the call reports the
    token as unusable and counts an anomaly; the driver does not see the
    operation as active or through a view, and when the private half has moved
    on as well, releasing it releases nothing. *)
Theorem stale_tokens_harmless r token p (w : Waker) (Hi : 0 <= tk_index token) (Hp : packet_token p = token)
    (Hs : stale (rg_shared r) token) :
  (exists t o, record_completion (rg_shared r) p = Ret (t, ResRejected o p) /\ only_diagnostics (rg_shared r) t) /\
  (exists t k, try_take_record (rg_shared r) token = Ret (t, Ok (PollUnavailable k (attach_from_op_token token))) /\
     only_diagnostics (rg_shared r) t) /\
  turned_away (rg_shared r) (register_waker (rg_shared r) token w) /\
  turned_away (rg_shared r) (mark_waiting (rg_shared r) token) /\
  turned_away (rg_shared r) (discard_ready_record (rg_shared r) token) /\
  turned_away (rg_shared r) (mark_orphaned (rg_shared r) token) /\
  is_current_active r token = false /\
  (forall v, checked_slot_view r token <> Ok (Valid v)) /\
  ((forall l, rg_local r !! Z.to_nat (tk_index token) = Some l -> ls_generation l <> tk_generation token) ->
   registry_remove r token = Ret (r, None)).
Proof.
  destruct (mutations_stale _ _ w Hi Hs) as (Hm1 & Hm2 & Hm3 & Hm4). pose proof Hs as (d & Hd & Hg & _).
  split_and!; try done.
  - rewrite <- Hp in Hi, Hs. destruct (record_stale _ _ Hi Hs) as (t & o & Ho & He & _). by exists t, o.
  - destruct (take_stale _ _ Hi Hs) as (t & k & Ho & He). by exists t, k.
  - unfold is_current_active, token_parts. rewrite Hd, (proj2 (Z.eqb_neq _ _) Hg). done.
  - intros v Hv. destruct (checked_view_valid _ _ _ Hv) as (c & Hb & Hgc & _).
    unfold slot_bundle in Hb. rewrite Hd in Hb. destruct (rg_local r !! _); [| done]. injection Hb as <-. done.
  - intros Hl. unfold registry_remove, token_parts.
    destruct (rg_local r !! Z.to_nat (tk_index token)) as [l |]; [| done].
    rewrite (proj2 (Z.eqb_neq _ _) (Hl l eq_refl)). cbn [negb]. by rewrite orb_true_r.
Qed.
End lifecycle.

(** ** Completion of an operation *)

Section accept.
Context `{Spec : SlotSpec} {H : Type} `{Hooks : !CompletionBackendHooks H}.
Notation St := (OpRegistry * H)%type.
Implicit Types (s : St) (r : OpRegistry) (d : SlotData) (token : OpToken).

(** An operation in flight: its slot, in the given state, and its private half. *)
Definition in_flight r token (st : SlotState) d (l : LocalSlot) : Prop :=
  0 <= tk_index token /\ tb_slots (rg_shared r) !! Z.to_nat (tk_index token) = Some d /\
  rg_local r !! Z.to_nat (tk_index token) = Some l /\ slot_state d = st /\
  slot_generation d = tk_generation token /\ ls_active l = true /\ ls_generation l = tk_generation token /\
  is_some (ls_op l) = true /\ is_some (sg_payload (ls_storage l)) = true.

Definition flight_cell token d (l : LocalSlot) : SlotCell :=
  mkCell d (ls_op l) (ls_storage l) (ls_platform l) (tk_index token).

Lemma flight_bundle r token st d l : in_flight r token st d l ->
  slot_bundle r (tk_index token) = Some (flight_cell token d l).
Proof. intros (_ & Hd & Hl & _). unfold slot_bundle. by rewrite Hd, Hl. Qed.

Lemma flight_view r token st d l : in_flight r token st d l ->
  st = InFlightWaiting \/ st = InFlightOrphaned ->
  checked_slot_view r token =
    Ok (Valid (if state_eqb st InFlightWaiting then ViewWaiting (flight_cell token d l)
               else ViewOrphaned (flight_cell token d l))).
Proof.
  intros Hf Hst. pose proof Hf as (_ & _ & _ & Hs & Hg & _ & _ & Hop & Hpl).
  unfold checked_slot_view, token_parts. rewrite (flight_bundle _ _ _ _ _ Hf).
  cbn [slot_snapshot sn_generation sn_state sn_has_op sn_has_payload flight_cell sl_entry sl_op sl_storage].
  rewrite Hg, Z.eqb_refl, Hop, Hpl, Hs. by destruct Hst as [-> | ->].
Qed.

Lemma remove_active r L R token d l : reg_ok r L R -> 0 <= tk_index token ->
  tb_slots (rg_shared r) !! Z.to_nat (tk_index token) = Some d ->
  rg_local r !! Z.to_nat (tk_index token) = Some l -> ls_active l = true ->
  ls_generation l = tk_generation token ->
  registry_remove r token = Ret (released r (tk_index token) d l slot_free (tb_ready_count (rg_shared r)),
                                 Some (ls_platform l)).
Proof.
  intros Ho Hi Hd Hl Ha Hg. unfold registry_remove, token_parts. rewrite Hl, Ha, Hg, Z.eqb_refl. cbn [negb orb].
  destruct (remove_at_index_ok r L R _ d l Ho Hi Hd Hl Ha) as [-> _]. by rewrite bind_ret.
Qed.

(** Recording and releasing: the slot stays ready on the shared free list. *)
Lemma record_release r (p : CompletionPacket) d l : reg_inv r -> 0 <= tk_index (packet_token p) ->
  let i := Z.to_nat (tk_index (packet_token p)) in
  tb_slots (rg_shared r) !! i = Some d -> slot_state d = InFlightWaiting ->
  slot_generation d = tk_generation (packet_token p) -> rg_local r !! i = Some l -> ls_active l = true ->
  ls_generation l = tk_generation (packet_token p) ->
  let t := recorded (rg_shared r) i d p in
  let r' := released (set_shared r t) (tk_index (packet_token p)) (ready_cell d p) l slot_free (tb_ready_count t) in
  record_completion (rg_shared r) p = Ret (t, ResRecorded RecordedUser) /\
  registry_remove (set_shared r t) (packet_token p) = Ret (r', Some (ls_platform l)) /\ reg_inv r' /\
  tb_slots (rg_shared r') !! i = Some (set_next_free (ready_cell d p) (tb_remote_free_head (rg_shared r))) /\
  rg_local r' !! i = Some (mkLocal None platform_default storage_new false (ls_generation l)).
Proof.
  intros Hr Hi i Hd Hw Hg Hl Ha Hlg t r'. pose proof (record_waiting _ _ _ Hi Hd Hw Hg) as Hrec.
  destruct (record_ok r p Hr Hi) as (t' & x & Hrec' & Ht). rewrite Hrec in Hrec'. injection Hrec' as <- <-.
  fold i in Hrec, Ht. fold t in Hrec, Ht.
  assert (Hd2 : tb_slots t !! i = Some (ready_cell d p))
    by (apply list_lookup_insert_eq; by apply lookup_lt_Some in Hd).
  pose proof Ht as [(L & R & Ho) _].
  pose proof (remove_active (set_shared r t) L R (packet_token p) _ l Ho Hi Hd2 Hl Ha Hlg) as Hrem.
  destruct (remove_inv _ (packet_token p) Ht Hi) as (r3 & o3 & Hrem3 & Hr3). rewrite Hrem in Hrem3.
  injection Hrem3 as <- <-. split_and!; try done.
  - apply list_lookup_insert_eq. by apply lookup_lt_Some in Hd2.
  - apply list_lookup_insert_eq. by apply lookup_lt_Some in Hl.
Qed.

(** C7 A waiting operation completes: when its backend turns the completion
    into a result, the driver records that result, wakes the task and releases
    the operation: the outcome counts one user completion, the private half is
    cleared and inactive, the slot is on the shared free list but keeps its
    record; and the future that polls with the operation's token gets exactly
    the backend's event, payload, detail and clean-up, which leaves the slot
    idle under a new generation. *)
Theorem operation_completes s e src d l h1 h2 c' pl de cl eff
    (Hinv : reg_inv s.1) (Hf : in_flight s.1 (ue_token e) InFlightWaiting d l)
    (Hhook : complete_waiting s.2 e (flight_cell (ue_token e) d l) src = (h1, c', Ok (HookUser e pl de cl eff)))
    (Hedit : slot_edit (flight_cell (ue_token e) d l) c') (Hst : slot_state (sl_entry c') = InFlightWaiting)
    (Heff : finish_backend_effect h1 eff = (h2, Ok tt)) :
  let i := Z.to_nat (tk_index (ue_token e)) in
  exists s' t' d' dt, accept_user_event s e src = Ret (s', Ok flow_user_completed) /\ s'.2 = h2 /\ reg_inv s'.1 /\
    tb_slots (rg_shared s'.1) !! i = Some d' /\ slot_state d' = InFlightReady /\
    tb_remote_free_head (rg_shared s'.1) = tk_index (ue_token e) /\
    rg_local s'.1 !! i = Some (mkLocal None platform_default storage_new false (ls_generation l)) /\
    rg_active_count s'.1 = rg_active_count s.1 - 1 /\
    tb_trace (rg_shared s'.1) = tb_trace (rg_shared s.1) ++ dropped (sd_data d) ++ woken d /\
    try_take_record (rg_shared s'.1) (ue_token e) = Ret (t', Ok (PollReady (mkRecord e pl de cl))) /\
    tb_slots t' !! i = Some dt /\ slot_state dt = Idle /\
    slot_generation dt = wrapping_add U32 (tk_generation (ue_token e)) 1.
Proof.
  intros i. pose proof Hf as (Hi & Hd & Hl & Hs & Hg & Ha & Hlg & Hop & Hpl).
  pose proof (slot_edit_edited _ _ Hedit) as Hed.
  assert (Hu : in_use (slot_state d)) by (rewrite Hs; right; by left).
  destruct (commit_inv _ _ _ _ Hinv Hi (flight_bundle _ _ _ _ _ Hf) Hu Hed) as (r1 & l' & Hc & Hr1 & Hl' & Hr1eq).
  rewrite Hl in Hl'. injection Hl' as <-. fold i in Hr1eq, Hd, Hl.
  destruct Hed as (_ & Hn & Hgen & Hdata & Hwk & _). cbn [flight_cell sl_entry] in Hn, Hgen, Hdata, Hwk.
  set (p := packet_user_with_cleanup e pl de cl).
  assert (Hd1 : tb_slots (rg_shared r1) !! i = Some (sl_entry c')).
  { rewrite Hr1eq. cbn. apply list_lookup_insert_eq. by apply lookup_lt_Some in Hd. }
  set (l1 := mkLocal (sl_op c') (sl_platform c') (sl_storage c') (ls_active l) (ls_generation l)) in *.
  assert (Hl1 : rg_local r1 !! i = Some l1).
  { rewrite Hr1eq. cbn. apply list_lookup_insert_eq. by apply lookup_lt_Some in Hl. }
  assert (Hg1 : slot_generation (sl_entry c') = tk_generation (ue_token e)) by congruence.
  destruct (record_release r1 p (sl_entry c') l1 Hr1 Hi Hd1 Hst Hg1 Hl1 Ha Hlg) as (Hrec & Hrem & Hr3 & Hd3 & Hl3).
  change (packet_token p) with (ue_token e) in *. fold i in Hrec, Hrem, Hr3, Hd3, Hl3.
  set (r3 := released _ _ _ _ _ _) in *. set (d3 := set_next_free _ _) in Hd3.
  exists (r3, h2), (taken (rg_shared r3) i d3), d3, (taken_cell d3). split_and!; try done.
  - unfold accept_user_event. rewrite (flight_view _ _ _ _ _ Hf) by (by left).
    change (state_eqb InFlightWaiting InFlightWaiting) with true. cbv iota.
    change (route_user_completion e (Valid (ViewWaiting ?c))) with
      (Ret (Ok (RoutedWaiting c) : result RoutedSlotCompletion SError)). rewrite bind_ret, Hhook.
    unfold with_hook_slot. rewrite Hc, bind_ret. cbn [finish_hook_outcome fst snd].
    unfold and_then at 1, lift_hook_guarding. cbn [fst snd]. rewrite Heff, bind_ret. cbn [fst snd].
    unfold record_user_completion. cbn [fst snd]. fold p. rewrite Hrec, !bind_ret. cbn [fst snd].
    unfold and_then, finish_waiting_if_needed, finalize_checked. cbn [fst snd]. by rewrite Hrem, !bind_ret.
  - change (rg_active_count r1 - 1 = rg_active_count s.1 - 1). by rewrite Hr1eq.
  - change (tb_trace (rg_shared r1) ++ dropped (sd_data (sl_entry c')) ++ woken (sl_entry c') =
      tb_trace (rg_shared s.1) ++ dropped (sd_data d) ++ woken d).
    unfold woken. rewrite Hdata, Hwk, Hr1eq. done.
  - by apply (take_ready_record (rg_shared r3) (ue_token e) d3).
  - apply list_lookup_insert_eq. by apply lookup_lt_Some in Hd3.
  - cbn. by rewrite <- Hg1.
Qed.

(** ** Generations of more than 15 bits *)

Lemma dispatch_user_token token b res fl : 0 <= tk_index token < 2 ^ 48 -> 0 <= tk_generation token ->
  dispatch_envelope (envelope_from_raw_parts b (token_raw (token_user token)) res fl) =
    Ret (DispatchUser (mkUserEvent (mkToken (tk_index token) (tk_generation token mod 2 ^ 15))
                         (mkRaw b (token_user token) res fl))).
Proof.
  intros Hi Hg. assert (Hr : 0 <= tk_generation token mod 2 ^ 15 < 2 ^ 15) by (apply Z.mod_pos_bound; lia).
  pose proof (classify_user_val (tk_generation token mod 2 ^ 15) (tk_index token) Hr Hi) as Hc.
  pose proof (token_user_val token) as Hv. rewrite (Z.mod_small (tk_index token)) in Hv by lia.
  unfold envelope_from_raw_parts, token_raw, token_from_raw, envelope_from_raw. cbn [rw_token].
  rewrite Hv, Hc by lia. unfold dispatch_envelope, event_from_classified. cbn [en_identity en_raw rw_token].
  rewrite token_user_val by (cbn; lia). cbn [tk_index tk_generation].
  rewrite (Z.mod_small (tk_index token)), Z.mod_mod, Z.eqb_refl by lia. done.
Qed.

(** A kernel completion is lost once the slot's generation needs more than
    15 bits: with the default handling of unusable tokens, the completion of an
    operation in flight whose generation is 32768 or more changes no slot, no
    private half and wakes nobody; it is counted as an anomaly and the
    operation waits on. *)
Theorem kernel_completion_lost s token st d l b res fl
    (Hf : in_flight s.1 token st d l) (Hi : tk_index token < 2 ^ 48) (Hg : 2 ^ 15 <= tk_generation token)
    (Hcor : forall e k, complete_corrupt s.2 e k FromKernel =
              (s.2, Ok (complete_corrupt_default backend_effect_default e k)))
    (Heff : finish_backend_effect s.2 backend_effect_default = (s.2, Ok tt)) :
  exists s', accept_completion s (IngressKernel (envelope_from_raw_parts b (token_raw (token_user token)) res fl)) =
      Ret (s', Ok flow_anomaly) /\
    only_diagnostics (rg_shared s.1) (rg_shared s'.1) /\ in_flight s'.1 token st d l /\ s'.2 = s.2.
Proof.
  pose proof Hf as (Hn & Hd & Hl & _ & Hgen & _). unfold accept_completion.
  rewrite dispatch_user_token, bind_ret by lia. set (e := mkUserEvent _ _).
  assert (Hne : slot_generation d <> tk_generation (ue_token e)).
  { cbn. pose proof (Z.mod_pos_bound (tk_generation token) (2 ^ 15)). lia. }
  assert (Hv : checked_slot_view s.1 (ue_token e) = Ok (StaleView (slot_snapshot (flight_cell token d l)))).
  { unfold checked_slot_view, token_parts. change (tk_index (ue_token e)) with (tk_index token).
    rewrite (flight_bundle _ _ _ _ _ Hf). cbn [slot_snapshot sn_generation flight_cell sl_entry].
    by rewrite (proj2 (Z.eqb_neq _ _) Hne). }
  unfold accept_user_event. rewrite Hv. unfold route_user_completion, slot_view_kind, token_parts.
  cbn [kind_reason]. rewrite bind_ret. unfold and_then, lift_hook. rewrite bind_ret, Hcor. cbn [fst snd].
  unfold complete_corrupt_default. cbn [finish_hook_outcome]. unfold and_then, lift_hook. rewrite bind_ret.
  cbn [update_table fst snd]. rewrite Heff. cbn [fst snd]. eexists. split; [done |]. cbn [fst snd].
  split_and!; [apply note_anomaly_only | exact Hf | done].
Qed.
End accept.
