(* ===== verification/DriverDemo.v ===== *)
(** * A driver with a small backend

    The operation slots with the backend of the crate's own tests (a spec
    whose hooks take operation and payload out of the completed slot), run on
    concrete calls: the theorems at concrete inputs, and two things that go
    wrong. *)

From stdpp Require Import strings.
From S2P Require Import Prelude Token SlotState Anomaly SlotTable Completion Registry Flow RegistryInv CompletionSpec DriverSteps DriverSafety OpLifecycle.

#[global] Instance DummySlotSpec : SlotSpec := {|
  SOp := Z; SPayload := Z; SPlatform := unit; platform_default := tt; SSidecar := unit; sidecar_default := tt;
  SError := CoreReport; from_core_report := id; SCompletion := Z; SDiagnostics := Z; diagnostics_default := 0;
  record_backend_anomaly _ d := (d, false); SCleanup := Z; cleanup_result _ := Ok tt
|}.

Definition completed_parts (c : Slot MCompleted) : SlotCell * option Z * Detail :=
  let c := (take_op c).1 in
  let '(c, (payload, detail)) := take_completion_data c in (c, payload, detail).

#[global] Instance TestHooks : CompletionBackendHooks unit := {|
  BackendIngress := unit; BackendEffect := unit; backend_effect_default := tt;
  handle_control h _ := (h, Ok (HookIgnore tt));
  complete_waiting h e c _ :=
    let '(c, payload, detail) := completed_parts (complete_waiting_slot c) in
    (h, c, match payload with
           | Some p => Ok (HookUser e p detail None tt)
           | None => Err (InternalReport "payload")
           end);
  complete_orphaned h e c _ :=
    let '(c, _, _) := completed_parts (complete_orphaned_slot c) in (h, c, Ok (HookCleanup None tt));
  complete_corrupt h e k _ := (h, Ok (complete_corrupt_default tt e k));
  complete_backend_ingress h _ := (h, Ok (Finish (HookIgnore tt)));
  finish_backend_effect h _ := (h, Ok tt)
|}.

Lemma completed_parts_edit c : slot_edit c (completed_parts c).1.1.
Proof. eapply rtc_l; [apply m_take_op |]. eapply rtc_l; [apply m_take_data |]. apply rtc_refl. Qed.

#[global] Instance TestHooks_lawful : LawfulHooks unit.
Proof.
  split; try done.
  - intros h e c src He. split; [exact (completed_parts_edit c) |]. cbn.
    case_match; [exact He | exact I].
  - intros h e c src He. split; [exact (completed_parts_edit c) | done].
Qed.

(** ** One operation *)

Definition op_storage (payload : Z) : SlotStorage := mkStorage None (Some payload) tt.

Definition submit (op payload : Z) (c : SlotCell) : SlotCell :=
  if state_eqb (slot_state (sl_entry c)) Reserved then
    match init_op_with (cell_storage c (op_storage payload)) op id with
    | Ok c1 =>
        match start_submission_with c1 None with
        | Ok g => match guard_persist g with Ret c2 => c2 | Fault _ => c1 end
        | Err _ => c1
        end
    | Err _ => c
    end
  else c.

Lemma submit_edit op payload c : slot_edit c (submit op payload c).
Proof.
  unfold submit, state_eqb. destruct (bool_decide_reflect (slot_state (sl_entry c) = Reserved)) as [Hr | _];
    [| apply rtc_refl].
  unfold init_op_with. destruct (is_some (sl_op (cell_storage c (op_storage payload)))) eqn:Hs; [apply rtc_refl |].
  eapply rtc_l; [apply (m_storage c (op_storage payload)) |].
  eapply rtc_l; [eapply (@m_init DummySlotSpec _ op id); [exact Hr | unfold init_op_with; by rewrite Hs] |].
  eapply rtc_l; [| apply rtc_refl]. by eapply (@m_submit DummySlotSpec _ None).
Qed.

Definition kernel_completion (token : OpToken) (res : Z) : CompletionIngress unit :=
  IngressKernel (envelope_from_raw_parts (Backend 1) (token_raw (token_user token)) res 0).

Lemma token_user_range token : 0 <= tk_index token -> 0 <= token_user token < 2 ^ 64.
Proof.
  intros Hi. rewrite token_user_val by done.
  pose proof (Z.mod_pos_bound (tk_generation token) (2 ^ 15) ltac:(lia)).
  pose proof (Z.mod_pos_bound (tk_index token) (2 ^ 48) ltac:(lia)). lia.
Qed.

Lemma kernel_completion_ok token res : 0 <= tk_index token -> ingress_ok (kernel_completion token res).
Proof. intros Hi. left. eexists. split; [| reflexivity]. by apply token_user_range. Qed.

Definition start_calls (token : OpToken) : list call :=
  [CallAlloc tt; CallWork token (submit 5 70); CallWaker token 9].
Definition operation_calls (token : OpToken) : list call :=
  start_calls token ++ [CallAccept (kernel_completion token 42); CallTake token].

Lemma operation_calls_ok token : 0 <= tk_index token -> Forall call_ok (operation_calls token).
Proof.
  intros Hi. unfold operation_calls, start_calls. cbn [app]. repeat apply Forall_cons_2; try done.
  - split; [done |]. intros c _. apply submit_edit.
  - by apply kernel_completion_ok.
Qed.

Definition state_of (m : outcome (OpRegistry * unit)) : OpRegistry * unit :=
  match m with Ret s => s | Fault _ => (mkRegistry (slot_table_new 0) [] NULL_INDEX 0, tt) end.

Definition tok1 : OpToken := mkToken 0 1.
Definition waiting_state : OpRegistry * unit := state_of (run_driver 2 tt (start_calls tok1)).
Definition slot_at (s : OpRegistry * unit) (i : nat) : SlotData :=
  default slot_data_new (tb_slots (rg_shared s.1) !! i).
Definition local_at (s : OpRegistry * unit) (i : nat) : LocalSlot := default local_slot_new (rg_local s.1 !! i).

Lemma waiting_state_inv : reg_inv waiting_state.1.
Proof.
  destruct (new_inv 2) as (r & He & Hr); [by vm_compute |].
  destruct (run_calls_inv (start_calls tok1) (r, tt) Hr) as (s & Hs & Hi).
  - repeat apply Forall_cons_2; try done. split; [done |]. intros c _. apply submit_edit.
  - unfold waiting_state, run_driver. rewrite He, bind_ret, Hs. done.
Qed.

Lemma waiting_state_flight :
  in_flight waiting_state.1 tok1 InFlightWaiting (slot_at waiting_state 0) (local_at waiting_state 0).
Proof. by vm_compute. Qed.

(** ** The theorems at work *)

Lemma driver_slots_sound_witness :
  exists s, run_driver 2 tt (operation_calls tok1) = Ret s /\ rg_active_count s.1 = active_number (rg_local s.1).
Proof.
  destruct (driver_slots_sound 2 tt (operation_calls tok1)) as (s & He & _ & Hc & _).
  - by vm_compute.
  - apply operation_calls_ok. by vm_compute.
  - exists s. split; [exact He | exact Hc].
Defined.

Lemma registry_alloc_exclusive_witness :
  exists r' hd, registry_alloc waiting_state.1 tt = Ret (r', Ok hd) /\ oh_index hd = 1.
Proof.
  destruct waiting_state_inv as [(L & R & Hok) _].
  destruct (registry_alloc_exclusive waiting_state.1 L R tt Hok) as (r' & res & He & _).
  assert (Hv : registry_alloc waiting_state.1 tt = registry_alloc waiting_state.1 tt) by reflexivity.
  rewrite He in Hv at 1. vm_compute in Hv. injection Hv as -> ->. eexists _, _. split; [exact He | reflexivity].
Defined.

Definition demo_packet (res : Z) : CompletionPacket :=
  packet_user_with_cleanup (event_from_parts (Backend 1) tok1 res 0) 70 None (Some 3).

Lemma completion_delivered_once_witness :
  exists t1, record_completion (rg_shared waiting_state.1) (demo_packet 42) = Ret (t1, ResRecorded RecordedUser) /\
    tb_trace t1 = [Woke 9].
Proof.
  destruct (completion_delivered_once waiting_state.1 (demo_packet 42) (demo_packet 43) (slot_at waiting_state 0))
    as (t1 & t2 & t3 & d2 & o & k & Hr & Ht & _).
  - exact waiting_state_inv.
  - by vm_compute.
  - vm_compute; reflexivity.
  - vm_compute; reflexivity.
  - vm_compute; reflexivity.
  - vm_compute; reflexivity.
  - exists t1. split; [exact Hr | rewrite Ht; vm_compute; reflexivity].
Defined.

Definition done_state : OpRegistry * unit := state_of (run_driver 2 tt (operation_calls tok1)).

Lemma stale_tokens_harmless_witness : is_current_active done_state.1 tok1 = false.
Proof.
  destruct (stale_tokens_harmless done_state.1 tok1 (demo_packet 42) 9) as (_ & _ & _ & _ & _ & _ & Ha & _).
  - by vm_compute.
  - vm_compute; reflexivity.
  - exists (slot_at done_state 0). split; [vm_compute; reflexivity |]. by vm_compute.
  - exact Ha.
Defined.

Lemma operation_completes_witness :
  exists s', accept_user_event waiting_state (event_from_parts (Backend 1) tok1 42 0) FromUser =
      Ret (s', Ok flow_user_completed) /\ tb_trace (rg_shared s'.1) = [Woke 9].
Proof.
  set (e := event_from_parts (Backend 1) tok1 42 0).
  set (c := flight_cell tok1 (slot_at waiting_state 0) (local_at waiting_state 0)).
  destruct (operation_completes (Spec := DummySlotSpec) (Hooks := TestHooks) waiting_state e FromUser (slot_at waiting_state 0) (local_at waiting_state 0)
    tt tt (completed_parts c).1.1 70 None None tt) as (s' & t' & d' & dt & He & _ & _ & _ & _ & _ & _ & _ & Ht & _).
  - exact waiting_state_inv.
  - exact waiting_state_flight.
  - vm_compute; reflexivity.
  - exact (completed_parts_edit c).
  - vm_compute; reflexivity.
  - vm_compute; reflexivity.
  - exists s'. split; [exact He | rewrite Ht; vm_compute; reflexivity].
Defined.

(** ** A slot used often

    Each operation moves the generation of its slot on by two, once when the
    slot is allocated and once when the record is taken, so that a slot's
    16385th operation has the generation 32769.  [recycle] takes the slot
    there at once. *)

Definition last_token : OpToken := mkToken 0 32769.
Definition late_state : OpRegistry * unit :=
  state_of (run_driver 1 tt (CallAlloc tt :: CallRecycle tok1 32768 :: start_calls last_token)).

(** Five operations in a row on the only slot. *)
Example generation_moves_by_two :
  (s ← run_driver 1 tt (flat_map (fun g => operation_calls (mkToken 0 g)) [1; 3; 5; 7; 9]);
   Ret (slot_generation (slot_at s 0))) = Ret 10.
Proof. vm_compute. reflexivity. Qed.

Lemma late_flight : in_flight late_state.1 last_token InFlightWaiting (slot_at late_state 0) (local_at late_state 0).
Proof. vm_compute. repeat split; discriminate. Qed.

Lemma kernel_completion_lost_witness :
  exists s', accept_completion late_state (kernel_completion last_token 42) = Ret (s', Ok flow_anomaly) /\
    slot_state (slot_at s' 0) = InFlightWaiting.
Proof.
  destruct (kernel_completion_lost late_state last_token InFlightWaiting (slot_at late_state 0) (local_at late_state 0)
    (Backend 1) 42 0) as (s' & He & _ & Hf & _).
  - exact late_flight.
  - by vm_compute.
  - by vm_compute.
  - intros e k. reflexivity.
  - vm_compute; reflexivity.
  - exists s'. split; [exact He |]. destruct Hf as (_ & Hd & _ & Hst & _).
    unfold slot_at. change 0%nat with (Z.to_nat (tk_index last_token)). rewrite Hd. exact Hst.
Defined.

(** ** A full registry with a free slot *)

Definition complete_calls (token : OpToken) : list call :=
  [CallWork token (submit 5 70); CallAccept (kernel_completion token 42)].

(** Three operations; the second is complete but not yet polled, the third was
    polled and its slot is in use again, the first was polled last. *)
Definition split_calls : list call :=
  [CallAlloc tt; CallAlloc tt; CallAlloc tt] ++
  complete_calls (mkToken 1 1) ++ complete_calls (mkToken 2 1) ++ [CallTake (mkToken 2 1); CallAlloc tt] ++
  complete_calls (mkToken 0 1) ++ [CallTake (mkToken 0 1)].
Definition split_state : OpRegistry * unit := state_of (run_driver 3 tt split_calls).

(** Allocation can fail although a slot is free: it searches the shared
    list only when its local list is empty.  With three slots, a local list
    that holds just a slot whose record was not polled yet and an idle slot on the shared
    list, the allocation reports a full registry; the failed attempt empties
    the local list, so the same call made again succeeds with that slot. *)
Theorem alloc_misses_free_slot :
  run_driver 3 tt split_calls = Ret split_state /\
  slot_state (slot_at split_state 0) = Idle /\ ls_active (local_at split_state 0) = false /\
  exists r1 r2 hd, registry_alloc split_state.1 tt = Ret (r1, Err tt) /\
    registry_alloc r1 tt = Ret (r2, Ok hd) /\ oh_index hd = 0.
Proof.
  split_and!; [by vm_compute .. |].
  eexists _, _, _. split; [vm_compute; reflexivity |]. split; vm_compute; reflexivity.
Qed.
