(* ===== verification/TakeRace.v ===== *)
(** * Taking a record while the driver runs

    [try_take_record] is not one step: a detached operation may be polled on
    another thread than its driver's, and between its atomic accesses (load of
    the state word, compare-exchange, decrement of the counter, lock of the
    record) the driver may run.  This file has the steps of a poll, shows that
    without interference they are the call of [Completion], and runs an
    interleaving in which a future obtains the record of another operation. *)

From stdpp Require Import strings.
From S2P Require Import Prelude Token SlotState Anomaly SlotTable Completion Registry Flow RegistryInv CompletionSpec DriverSteps DriverSafety OpLifecycle DriverDemo.

Section take.
Context `{Spec : SlotSpec}.
Implicit Types (t : SlotTable) (token : OpToken).

(** Where a poll stands. *)
Inductive take_pc : Type :=
  | TakeLoad
  | TakeCas (current : PackedCoreState)
  | TakeClear
  | TakeLock
  | TakeDone (r : result PollRecordResult SError).

(** One atomic access of a poll, with the computation up to the next. *)
Definition take_step token t (pc : take_pc) : outcome (SlotTable * take_pc) :=
  let attach := attach_from_op_token token in
  let (idx, generation) := token_parts token in
  let unavailable k := Ret (note_anomaly t k attach, TakeDone (Ok (PollUnavailable k attach))) in
  match pc with
  | TakeLoad =>
      if negb (in_table t idx) then unavailable (UnknownSlot idx generation) else
      cell ← vec_get (tb_slots t) idx;
      let current := sd_core cell in
      let state := cs_state current in
      let cell_gen := cs_generation current in
      if generation <? cell_gen then unavailable (Stale idx generation cell_gen state)
      else if cell_gen <? generation then unavailable (NonActive idx generation state)
      else match state with
           | InFlightReady => Ret (t, TakeCas current)
           | InFlightWaiting | Finalizing => Ret (t, TakeDone (Ok PollPending))
           | Idle | Reserved | InFlightOrphaned | ReservedValue => unavailable (NonActive idx generation state)
           end
  | TakeCas current =>
      cell ← vec_get (tb_slots t) idx;
      if core_word (sd_core cell) =? core_word current then
        t ← with_slot t idx (fun d =>
              set_core d (with_generation (with_state current Idle) (wrapping_add U32 generation 1)));
        Ret (t, TakeClear)
      else Ret (t, TakeDone (Ok PollPending))
  | TakeClear => Ret (clear_ready_completion t, TakeLock)
  | TakeLock =>
      d ← vec_get (tb_slots t) idx;
      t ← with_slot t idx (fun d => set_data d DataEmpty);
      match sd_data d with
      | DataUser event payload detail cleanup =>
          Ret (t, TakeDone (Ok (PollReady (mkRecord event payload detail cleanup))))
      | DataEmpty => Ret (t, TakeDone (Err (from_core_report (InternalReport "try_take_record"))))
      end
  | TakeDone _ => Ret (t, pc)
  end.

Fixpoint take_steps (n : nat) token t (pc : take_pc) : outcome (SlotTable * take_pc) :=
  match n with
  | O => Ret (t, pc)
  | S n => '(t, pc) ← take_step token t pc; take_steps n token t pc
  end.

Lemma take_steps_done n token t r : take_steps n token t (TakeDone r) = Ret (t, TakeDone r).
Proof. induction n as [| n IH]; [done |]. cbn. destruct (token_parts token). cbn. exact IH. Qed.

(** Without interference the four atomic steps of a poll are one call: they
    leave the same table and give the same result as [try_take_record], on
    every branch. *)
Theorem take_steps_equiv t token (Hi : 0 <= tk_index token) :
  take_steps 4 token t TakeLoad =
    ('(t', r) ← try_take_record t token; Ret (t', TakeDone r)).
Proof.
  change (take_steps 4 token t TakeLoad) with
    ('(t1, pc) ← take_step token t TakeLoad; take_steps 3 token t1 pc).
  assert (Hun : forall k, ('(t1, pc) ← Ret (note_anomaly t k (attach_from_op_token token),
      TakeDone (Ok (PollUnavailable k (attach_from_op_token token)))); take_steps 3 token t1 pc) =
      Ret (note_anomaly t k (attach_from_op_token token), TakeDone (Ok (PollUnavailable k (attach_from_op_token token))))).
  { intros k. rewrite bind_ret. apply take_steps_done. }
  unfold take_step, try_take_record, token_parts. rewrite in_table_spec by done.
  destruct (tb_slots t !! Z.to_nat (tk_index token)) as [d |] eqn:Hd; [| apply Hun].
  rewrite bool_decide_eq_true_2 by done. cbn [negb]. rewrite (vec_get_lookup _ _ _ Hi Hd), !bind_ret.
  destruct (tk_generation token <? _) eqn:Hlt1; [apply Hun |]. destruct (_ <? tk_generation token) eqn:Hlt2; [apply Hun |].
  destruct (cs_state (sd_core d)) eqn:Hst; try apply Hun; try by rewrite !bind_ret, take_steps_done.
  rewrite bind_ret. cbn [take_steps take_step token_parts].
  rewrite (vec_get_lookup _ _ _ Hi Hd), bind_ret, Z.eqb_refl. unfold take_data.
  rewrite (with_slot_ok _ _ _ _ Hi Hd), !bind_ret. set (t1 := set_slots t _).
  assert (Hlen : (Z.to_nat (tk_index token) < length (tb_slots (clear_ready_completion t1)))%nat).
  { unfold clear_ready_completion, t1. destruct (_ =? 0); cbn; rewrite length_insert; by eapply lookup_lt_Some. }
  destruct (lookup_lt_is_Some_2 _ _ Hlen) as [d1 Hd1].
  rewrite (vec_get_lookup _ _ _ Hi Hd1), !bind_ret, (with_slot_ok _ _ _ _ Hi Hd1), !bind_ret.
  by destruct (sd_data d1); rewrite !bind_ret.
Qed.
End take.

(** ** The race *)

(** A driver and a poll in progress. *)
Definition race_state : Type := (OpRegistry * unit) * take_pc.

Inductive race_event : Type := DriverRuns (c : call) | PollSteps.

Definition race_step (token : OpToken) (x : race_state) (ev : race_event) : outcome race_state :=
  let (s, pc) := x in
  match ev with
  | DriverRuns c => s ← run_call s c; Ret (s, pc)
  | PollSteps =>
      '(t, pc) ← take_step token (rg_shared s.1) pc; Ret ((set_shared s.1 t, s.2), pc)
  end.

Fixpoint race_run (token : OpToken) (x : race_state) (evs : list race_event) : outcome race_state :=
  match evs with
  | [] => Ret x
  | ev :: evs => x ← race_step token x ev; race_run token x evs
  end.

(** The first operation is complete, and nothing else is in flight. *)
Definition ready_state : OpRegistry * unit :=
  state_of (run_driver 1 tt (start_calls tok1 ++ [CallAccept (kernel_completion tok1 42)])).

(** The next operation on the same slot, with another payload and result. *)
Definition tok2 : OpToken := mkToken 0 3.
Definition second_operation : list race_event :=
  [DriverRuns (CallAlloc tt); DriverRuns (CallWork tok2 (submit 6 90));
   DriverRuns (CallAccept (kernel_completion tok2 77))].

Lemma tok1_index : 0 <= tk_index tok1.
Proof. by vm_compute. Qed.

Lemma take_steps_equiv_witness :
  exists t, take_steps 4 tok1 (rg_shared ready_state.1) TakeLoad = Ret (t, TakeDone (Ok (PollReady
    (mkRecord (mkUserEvent tok1 (mkRaw (Backend 1) (token_user tok1) 42 0)) 70 None None)))).
Proof. rewrite (take_steps_equiv _ tok1 tok1_index). eexists. vm_compute. reflexivity. Defined.

(** A poll gives the slot away before it has taken the record: when, after
    the compare-exchange of the poll of a first operation, its driver reuses
    the slot for a second operation and completes that, the first future obtains
    the second operation's event, payload and result, and the second future,
    whose slot is ready and whose poll runs alone, gets the internal error for
    a ready slot without data. *)
Theorem poll_takes_foreign_record :
  exists x y e1 e2,
    race_run tok1 (ready_state, TakeLoad) ([PollSteps; PollSteps] ++ second_operation ++ [PollSteps; PollSteps]) =
      Ret (x, TakeDone (Ok (PollReady (mkRecord e2 90 None None)))) /\
    ue_token e2 = tok2 /\ ue_res e2 = 77 /\
    try_take_record (rg_shared ready_state.1) tok1 = Ret (y, Ok (PollReady (mkRecord e1 70 None None))) /\
    ue_token e1 = tok1 /\ ue_res e1 = 42 /\
    slot_state (slot_at x 0) = InFlightReady /\
    exists z, try_take_record (rg_shared x.1) tok2 = Ret (z, Err (InternalReport "try_take_record")).
Proof.
  eexists _, _, _, _. split; [vm_compute; reflexivity |]. split_and!; try (vm_compute; reflexivity).
  eexists. vm_compute. reflexivity.
Qed.
