(* ===== verification/DriverApi.v ===== *)
(** * veloq-driver-core: what a driver answers
      ([driver.rs], [driver/completion/cancel.rs])

    The requests and answers of the [Driver] trait that do not depend on a
    backend. *)

From S2P Require Import Prelude Token Flow.

(** ** Cancelling *)

Inductive CancelMode : Type := UserVisible | Abandon.
#[global] Instance cancel_mode_eq_dec : EqDecision CancelMode.
Proof. solve_decision. Defined.

Record CancelRequest : Type := mkCancel { cn_target : OpToken; cn_mode : CancelMode }.
Definition cancel_user_visible (target : OpToken) : CancelRequest := mkCancel target UserVisible.
Definition cancel_abandon (target : OpToken) : CancelRequest := mkCancel target Abandon.

Inductive CancelSubmitOutcome : Type :=
  | CancelSubmitted | CancelQueued | CancelCompletedLocally
  | CancelTargetGone (reason : CancelTargetGoneReason)
  | CancelNoBackendHandle.

Record CancelDrainOutcome : Type := mkDrained {
  cd_requests : Z;
  cd_submitted : Z;
  cd_queued : Z;
  cd_completed_locally : Z;
  cd_target_missing : Z;
  cd_target_stale : Z;
  cd_target_corrupt : Z;
  cd_no_backend_handle : Z
}.
Definition cancel_drain_default : CancelDrainOutcome := mkDrained 0 0 0 0 0 0 0 0.

Definition saturating_inc (x : Z) : Z := Z.min (x + 1) U64_MAX.

Definition drain_record (d : CancelDrainOutcome) (o : CancelSubmitOutcome) : CancelDrainOutcome :=
  let 'mkDrained n s q l m st c h := d in
  let n := saturating_inc n in
  match o with
  | CancelSubmitted => mkDrained n (saturating_inc s) q l m st c h
  | CancelQueued => mkDrained n s (saturating_inc q) l m st c h
  | CancelCompletedLocally => mkDrained n s q (saturating_inc l) m st c h
  | CancelTargetGone GoneMissing => mkDrained n s q l (saturating_inc m) st c h
  | CancelTargetGone GoneStale => mkDrained n s q l m (saturating_inc st) c h
  | CancelTargetGone GoneCorrupt => mkDrained n s q l m st (saturating_inc c) h
  | CancelNoBackendHandle => mkDrained n s q l m st c (saturating_inc h)
  end.

(** ** Submitting and driving *)

Inductive SubmitStatus : Type := InFlight | Void.

(** [Submitted(Poll::Ready(()))] is [Submitted true]. *)
Inductive DriverSubmitResult (E : Type) : Type :=
  | Submitted (ready : bool)
  | SubmitFailed (report : E) (status : SubmitStatus).
Arguments Submitted {E}.
Arguments SubmitFailed {E}.

Inductive DriveMode : Type := DrivePoll | DriveWait.
Record DriveOutcome : Type := mkDriveOutcome { dv_next_timeout_hint : option Z; dv_pending_progress : bool }.
