(* ===== verification/UringBase.v ===== *)
(** * veloq-driver-uring: errors, handles, and what lies outside
      ([error.rs], [config.rs]; [lib.rs] of veloq-driver-core)

    The errors of the io_uring backend with their error codes, the handles and
    descriptors, and the interface to what the repository does not contain: the
    io_uring crate with the kernel behind it, the clock and [eventfd]
    ([IoUring]), with the documented behaviour that theorems rely on
    ([IoUringLaws], [IoUringFiles]). *)

From S2P Require Import Prelude.

(** ** Errors *)

Inductive UringError : Type :=
  | DriverInit | CompletionWait | Submission | Registration | ResolveFd | Socket
  | InvalidInput | InvalidState | Unsupported | Internal.

#[global] Instance uring_error_eq_dec : EqDecision UringError.
Proof. solve_decision. Defined.

(** [Report<UringError>]: its kind and its error code; notes and contexts are
    for the reader of a log. *)
Record Report : Type := mkReport { rp_kind : UringError; rp_code : option Z }.

Definition uring_fallback_errno (kind : UringError) : Z :=
  match kind with
  | DriverInit => 5
  | CompletionWait => 5
  | Submission => 11
  | Registration => 12
  | ResolveFd => 9
  | Socket => 5
  | InvalidInput => 22
  | InvalidState => 5
  | Unsupported => 95
  | Internal => 5
  end.

(** [kind.to_report()]; also [kind.push_ctx(..)], which starts a report. *)
Definition to_report (kind : UringError) : Report := mkReport kind None.
Definition set_error_code (r : Report) (code : Z) : Report := mkReport (rp_kind r) (Some code).
Definition report (kind : UringError) : Report := set_error_code (to_report kind) (uring_fallback_errno kind).

(** [std::io::Error], as far as it is looked at. *)
Record IoError : Type := mkIoError { raw_os_error : option Z }.

Definition io_report (kind : UringError) (error : IoError) : Report :=
  match raw_os_error error with
  | Some code => set_error_code (to_report kind) code
  | None => to_report kind
  end.

Definition I32_MAX : Z := 2 ^ 31 - 1.

(** [-code.abs()]; [i32::MIN], which is no error code, stays as in a release
    build. *)
Definition neg_code (code : Z) : option Z := if code =? 0 then None else Some (- Z.abs code).

Definition uring_report_to_event_res (r : Report) : Z :=
  let fallback := - uring_fallback_errno (rp_kind r) in
  match rp_code r with
  | Some code => if (- 2 ^ 31 <=? code) && (code <=? I32_MAX) then default fallback (neg_code code) else fallback
  | None => fallback
  end.

Definition driver_result_to_event_res (res : result Z Report) : Z :=
  match res with Ok v => Z.min v I32_MAX | Err e => uring_report_to_event_res e end.

(** ** Handles *)

Inductive RawHandleKind : Type := KindFile | KindSocket.
#[global] Instance raw_handle_kind_eq_dec : EqDecision RawHandleKind.
Proof. solve_decision. Defined.

Inductive UringRawHandle : Type := RawFile (fd : Z) | RawSocket (fd : Z).
Definition as_fd (h : UringRawHandle) : Z := match h with RawFile fd | RawSocket fd => fd end.
Definition handle_kind (h : UringRawHandle) : RawHandleKind :=
  match h with RawFile _ => KindFile | RawSocket _ => KindSocket end.

(** [RawHandle::close]: what [libc::close] is called on. *)
Definition handle_close (h : UringRawHandle) : list Z := if 0 <=? as_fd h then [as_fd h] else [].

(** [IoFd] *)
Record IoFd : Type := mkIoFd { fd_index : Z; fd_generation : Z }.
#[global] Instance io_fd_eq_dec : EqDecision IoFd.
Proof. solve_decision. Defined.
#[global] Instance io_fd_countable : Countable IoFd.
Proof.
  refine (inj_countable' (fun f => (fd_index f, fd_generation f)) (fun x => mkIoFd x.1 x.2) _). by intros [].
Defined.

Inductive RegisterFd : Type := Borrowed (h : UringRawHandle) | Owned (h : UringRawHandle).

Inductive BufferRegistrationMode : Type := Strict | Compatible.
Definition is_strict (m : BufferRegistrationMode) : bool := match m with Strict => true | Compatible => false end.

(** ** The io_uring crate, the kernel and the clock *)

(** A submission entry of 64-bit [user_data], and the ring with everything
    behind it.  A call that can fail returns the error beside the ring it
    leaves. *)
Class IoUring : Type := {
  Entry : Type;
  entry_user_data : Entry -> Z -> Entry;
  entry_get_user_data : Entry -> Z;
  opcode_async_cancel : Z -> Entry;
  opcode_read_registered : Z -> Z -> Entry;          (* [Read::new(Fixed(index), buf, len)] *)
  Ring : Type;
  sq_push : Ring -> Entry -> Ring * bool;
  sq_len : Ring -> Z;
  sq_need_wakeup : Ring -> bool;
  is_setup_sqpoll : Ring -> bool;
  ring_enter : Ring -> Z -> Z -> Z -> Ring * result Z IoError;   (* to_submit, min_complete, flags *)
  ring_submit : Ring -> Ring * result Z IoError;
  ring_submit_and_wait : Ring -> Z -> Ring * result Z IoError;
  ring_submit_with_timeout : Ring -> Z -> Z -> Ring * result Z IoError;  (* want, nanoseconds *)
  cq_is_empty : Ring -> bool;
  cq_drain : Ring -> Ring * list (Z * Z * Z);          (* user_data, result, flags *)
  register_buffers : Ring -> list (Z * Z) -> Ring * result unit IoError;         (* (base, len) *)
  register_buffers_update : Ring -> Z -> Z * Z -> Ring * result unit IoError;   (* index, (base, len) *)
  register_files : Ring -> list Z -> Ring * result unit IoError;
  register_files_update : Ring -> Z -> Z -> Ring * result unit IoError;
  eventfd : Ring -> Ring * result Z IoError;
  eventfd_write : Ring -> Z -> Ring * result unit IoError;
  instant_now : Ring -> Z                              (* nanoseconds *)
}.

(** io_uring(7): an entry that was accepted completes once, with its user data;
    [outstanding] is the user data of the entries that were accepted and whose
    completions were not taken yet.  The other calls neither add nor remove
    entries.  The completion queue has less than [2 ^ 32] places, and the clock
    does not count more than [2 ^ 62] nanoseconds. *)
Class IoUringLaws `{IoUring} : Type := {
  outstanding : Ring -> list Z;
  get_user_data : forall e u, 0 <= u < 2 ^ 64 -> entry_get_user_data (entry_user_data e u) = u;
  push_ok : forall r e r', sq_push r e = (r', true) -> outstanding r' ≡ₚ entry_get_user_data e :: outstanding r;
  push_full : forall r e r', sq_push r e = (r', false) -> outstanding r' ≡ₚ outstanding r;
  enter_keeps : forall r a b c, outstanding (ring_enter r a b c).1 ≡ₚ outstanding r;
  submit_keeps : forall r, outstanding (ring_submit r).1 ≡ₚ outstanding r;
  wait_keeps : forall r n, outstanding (ring_submit_and_wait r n).1 ≡ₚ outstanding r;
  timeout_keeps : forall r n t, outstanding (ring_submit_with_timeout r n t).1 ≡ₚ outstanding r;
  drain_takes : forall r r' l, cq_drain r = (r', l) ->
    ((fun c => c.1.1) <$> l) ++ outstanding r' ≡ₚ outstanding r;
  drain_bound : forall r r' l, cq_drain r = (r', l) -> Z.of_nat (length l) < 2 ^ 32;
  register_buffers_keeps : forall r l, outstanding (register_buffers r l).1 ≡ₚ outstanding r;
  buffers_keep : forall r i v, outstanding (register_buffers_update r i v).1 ≡ₚ outstanding r;
  files_keep : forall r l, outstanding (register_files r l).1 ≡ₚ outstanding r;
  files_update_keeps : forall r i fd, outstanding (register_files_update r i fd).1 ≡ₚ outstanding r;
  eventfd_keeps : forall r, outstanding (eventfd r).1 ≡ₚ outstanding r;
  write_keeps : forall r fd, outstanding (eventfd_write r fd).1 ≡ₚ outstanding r;
  now_bound : forall r, 0 <= instant_now r < 2 ^ 62
}.

(** io_uring_register(2): the table of registered files; an update that fails
    changes nothing. *)
Class IoUringFiles `{IoUring} : Type := {
  kernel_files : Ring -> list Z;
  register_ok : forall r l r', register_files r l = (r', Ok tt) -> kernel_files r' = l;
  register_err : forall r l r' e, register_files r l = (r', Err e) -> kernel_files r' = kernel_files r;
  update_ok : forall r i fd r', register_files_update r i fd = (r', Ok tt) ->
    kernel_files r' = <[Z.to_nat i := fd]> (kernel_files r);
  update_err : forall r i fd r' e, register_files_update r i fd = (r', Err e) ->
    kernel_files r' = kernel_files r
}.

(** ** Error codes *)

(** An error is always reported as a negative result, a success never. *)
Lemma event_res_sign (res : result Z Report) :
  match res with
  | Ok v => 0 <= v -> 0 <= driver_result_to_event_res res
  | Err e => driver_result_to_event_res res < 0
  end.
Proof.
  destruct res as [v | [k c]]; cbn [driver_result_to_event_res]; [unfold I32_MAX; lia |].
  unfold uring_report_to_event_res. cbn [rp_code rp_kind].
  assert (Hk : - uring_fallback_errno k < 0) by by destruct k.
  destruct c as [c |]; [| done]. destruct (_ && _); [| done]. unfold neg_code.
  destruct (Z.eqb_spec c 0); cbn; lia.
Qed.
