(* ===== verification/RingDemo.v ===== *)
(** * A small kernel

    An instance of [IoUring] that keeps its queues in lists, for concrete runs:
    entries go from the submission queue to the kernel when the ring is
    entered, and complete when the run says so ([demo_complete]); which updates
    of the file table fail is fixed in advance. *)

From S2P Require Import Prelude UringBase.

Inductive demo_opcode : Type := DemoOther | DemoCancel (target : Z) | DemoRead (index len : Z).
Record demo_entry : Type := mkDemoEntry { de_opcode : demo_opcode; de_user_data : Z }.

Record demo_ring : Type := mkDemoRing {
  dr_capacity : nat;
  dr_sq : list demo_entry;
  dr_kernel : list demo_entry;
  dr_cq : list (Z * Z * Z);
  dr_files : list Z;
  dr_refusals : list bool;
  dr_now : Z
}.

Definition demo_start (capacity : nat) (refusals : list bool) : demo_ring :=
  mkDemoRing capacity [] [] [] [] refusals 0.

Definition demo_error : IoError := mkIoError (Some 12).

Definition demo_push (r : demo_ring) (e : demo_entry) : demo_ring * bool :=
  if (length (dr_sq r) <? dr_capacity r)%nat
  then (mkDemoRing (dr_capacity r) (dr_sq r ++ [e]) (dr_kernel r) (dr_cq r) (dr_files r) (dr_refusals r) (dr_now r), true)
  else (r, false).

(** The first [n] entries go to the kernel. *)
Definition demo_enter (r : demo_ring) (n : nat) : demo_ring :=
  mkDemoRing (dr_capacity r) (drop n (dr_sq r)) (dr_kernel r ++ take n (dr_sq r)) (dr_cq r) (dr_files r)
    (dr_refusals r) (dr_now r).

(** The queue of completions has 4096 places. *)
Definition demo_drain (r : demo_ring) : demo_ring * list (Z * Z * Z) :=
  (mkDemoRing (dr_capacity r) (dr_sq r) (dr_kernel r) (drop 4096 (dr_cq r)) (dr_files r) (dr_refusals r) (dr_now r),
   take 4096 (dr_cq r)).

(** Each request to the file table uses up one entry of the script. *)
Definition demo_files (r : demo_ring) (files : list Z) : demo_ring * result unit IoError :=
  let next f := mkDemoRing (dr_capacity r) (dr_sq r) (dr_kernel r) (dr_cq r) f (tail (dr_refusals r)) (dr_now r) in
  if default false (head (dr_refusals r)) then (next (dr_files r), Err demo_error) else (next files, Ok tt).

Definition demo_at (r : demo_ring) (now : Z) : demo_ring :=
  mkDemoRing (dr_capacity r) (dr_sq r) (dr_kernel r) (dr_cq r) (dr_files r) (dr_refusals r) now.

Definition demo_has (user_data : Z) (e : demo_entry) : bool := de_user_data e =? user_data.

(** The kernel completes the first entry with this user data. *)
Fixpoint demo_finish (user_data : Z) (l : list demo_entry) : option (list demo_entry) :=
  match l with
  | [] => None
  | e :: l => if demo_has user_data e then Some l else (cons e) <$> demo_finish user_data l
  end.

Definition demo_complete (r : demo_ring) (user_data res : Z) : demo_ring :=
  match demo_finish user_data (dr_kernel r) with
  | Some l => mkDemoRing (dr_capacity r) (dr_sq r) l (dr_cq r ++ [(user_data, res, 0)]) (dr_files r)
                (dr_refusals r) (dr_now r)
  | None => r
  end.

#[export] Instance demo_uring : IoUring := {
  Entry := demo_entry;
  entry_user_data e u := mkDemoEntry (de_opcode e) u;
  entry_get_user_data := de_user_data;
  opcode_async_cancel target := mkDemoEntry (DemoCancel target) 0;
  opcode_read_registered index len := mkDemoEntry (DemoRead index len) 0;
  Ring := demo_ring;
  sq_push := demo_push;
  sq_len r := Z.of_nat (length (dr_sq r));
  sq_need_wakeup r := false;
  is_setup_sqpoll r := false;
  ring_enter r n _ _ := (demo_enter r (Z.to_nat n), Ok n);
  ring_submit r := (demo_enter r (length (dr_sq r)), Ok 0);
  ring_submit_and_wait r _ := (demo_enter r (length (dr_sq r)), Ok 0);
  ring_submit_with_timeout r _ _ := (demo_enter r (length (dr_sq r)), Ok 0);
  cq_is_empty r := match dr_cq r with [] => true | _ => false end;
  cq_drain := demo_drain;
  register_buffers r _ := (r, Ok tt);
  register_buffers_update r _ _ := (r, Ok tt);
  register_files := demo_files;
  register_files_update r i fd := demo_files r (<[Z.to_nat i := fd]> (dr_files r));
  eventfd r := (r, Ok 3);
  eventfd_write r _ := (r, Ok tt);
  instant_now r := dr_now r mod 2 ^ 62
}.

Definition demo_outstanding (r : demo_ring) : list Z :=
  (de_user_data <$> dr_sq r) ++ (de_user_data <$> dr_kernel r) ++ ((fun c => c.1.1) <$> dr_cq r).

Lemma demo_enter_outstanding r n : demo_outstanding (demo_enter r n) ≡ₚ demo_outstanding r.
Proof.
  unfold demo_outstanding, demo_enter. cbn [dr_sq dr_kernel dr_cq]. rewrite fmap_app.
  replace (de_user_data <$> dr_sq r) with ((de_user_data <$> take n (dr_sq r)) ++ (de_user_data <$> drop n (dr_sq r)))
    by (by rewrite <- fmap_app, take_drop).
  generalize (de_user_data <$> take n (dr_sq r)), (de_user_data <$> drop n (dr_sq r)), (de_user_data <$> dr_kernel r).
  intros A B K. rewrite (Permutation_app_comm K A), <- (app_assoc A), (app_assoc B A), (Permutation_app_comm B A).
  done.
Qed.

Lemma demo_files_outstanding r l : demo_outstanding (demo_files r l).1 = demo_outstanding r.
Proof. unfold demo_files. by destruct (default _ _). Qed.

#[export] Instance demo_laws : IoUringLaws.
Proof.
  refine {| outstanding := demo_outstanding |}; try done.
  - intros r e r'. cbn. unfold demo_push. destruct (_ <? _)%nat; [| done]. intros [= <-].
    unfold demo_outstanding. cbn. rewrite fmap_app. cbn.
    by rewrite <- app_assoc, Permutation_middle.
  - intros r e r'. cbn. unfold demo_push. destruct (_ <? _)%nat; [done |]. by intros [= <-].
  - intros r a b c. apply demo_enter_outstanding.
  - intros r. apply demo_enter_outstanding.
  - intros r n. apply demo_enter_outstanding.
  - intros r n t. apply demo_enter_outstanding.
  - intros r r' l. cbn. unfold demo_drain. intros [= <- <-]. unfold demo_outstanding. cbn [dr_sq dr_kernel dr_cq].
    rewrite <- (take_drop 4096 (dr_cq r)) at 3. rewrite fmap_app.
    generalize ((fun c : Z * Z * Z => c.1.1) <$> take 4096 (dr_cq r)), ((fun c : Z * Z * Z => c.1.1) <$> drop 4096 (dr_cq r)),
      (de_user_data <$> dr_sq r), (de_user_data <$> dr_kernel r).
    intros A B S K. rewrite !app_assoc. apply Permutation_app_tail. rewrite <- app_assoc. apply Permutation_app_comm.
  - intros r r' l. cbn. unfold demo_drain. intros [= <- <-]. rewrite length_take. lia.
  - intros r l. cbn [register_files demo_uring]. by rewrite demo_files_outstanding.
  - intros r i fd. cbn [register_files_update demo_uring]. by rewrite demo_files_outstanding.
  - intros r. cbn. apply Z.mod_pos_bound. lia.
Defined.

#[export] Instance demo_file_laws : IoUringFiles.
Proof.
  refine {| kernel_files := dr_files |}; cbn; unfold demo_files; intros r.
  - intros l r'. destruct (default _ _); [done |]. by intros [= <-].
  - intros l r' e. destruct (default _ _); [| done]. by intros [= <- _].
  - intros i fd r'. destruct (default _ _); [done |]. by intros [= <-].
  - intros i fd r' e. destruct (default _ _); [| done]. by intros [= <- _].
Defined.
