(* ===== verification/FileTable.v ===== *)
(** * veloq-driver-uring: registered files
      ([driver/registration.rs])

    Operations name files by an index into a table that the kernel keeps; a
    descriptor [IoFd] carries the generation of its place, so that it goes
    stale when the place is used again.  The backend's table mirrors the
    kernel's, whose updates can fail at any time.  The main theorem: the table
    refines a map from descriptors to handles in which no descriptor is ever
    issued twice. *)

From stdpp Require Import gmap.
From S2P Require Import Prelude UringBase RingDemo.

Definition INITIAL_FILE_GENERATION : Z := 1.
Definition MIN_FILE_TABLE_CAPACITY : Z := 1.

Inductive RegisteredFileEntry : Type :=
  | BorrowedFd (fd : Z) (kind : RawHandleKind)
  | OwnedHandle (h : UringRawHandle).

Definition entry_fd (e : RegisteredFileEntry) : Z :=
  match e with BorrowedFd fd _ => fd | OwnedHandle h => as_fd h end.
Definition entry_kind (e : RegisteredFileEntry) : RawHandleKind :=
  match e with BorrowedFd _ k => k | OwnedHandle h => handle_kind h end.

(** What dropping an entry closes. *)
Definition drop_entry (e : RegisteredFileEntry) : list Z :=
  match e with BorrowedFd _ _ => [] | OwnedHandle h => handle_close h end.

Record FileSlot : Type := mkFileSlot { fl_entry : option RegisteredFileEntry; fl_generation : Z }.

(** [file_slots], [free_file_slots] (the end of the vector first) and
    [file_table_initialized] of the driver, and the files closed by drops. *)
Record FileTable : Type := mkFileTable {
  ft_slots : list FileSlot;
  ft_free : list Z;
  ft_initialized : bool;
  ft_closed : list Z
}.
Definition file_table_empty : FileTable := mkFileTable [] [] false [].

Definition ft_close (t : FileTable) (fds : list Z) : FileTable :=
  mkFileTable (ft_slots t) (ft_free t) (ft_initialized t) (ft_closed t ++ fds).
Definition ft_set_free (t : FileTable) (free : list Z) : FileTable :=
  mkFileTable (ft_slots t) free (ft_initialized t) (ft_closed t).
Definition ft_set_slot (t : FileTable) (idx : Z) (s : FileSlot) : FileTable :=
  mkFileTable (<[Z.to_nat idx := s]> (ft_slots t)) (ft_free t) (ft_initialized t) (ft_closed t).

Definition slot_at (t : FileTable) (idx : Z) : option FileSlot := ft_slots t !! Z.to_nat idx.

Definition resolve_registered_fixed_fd (slots : list FileSlot) (fd : IoFd)
    (expected_kind : option RawHandleKind) : result Z Report :=
  let idx := fd_index fd in
  let refuse := Err (to_report ResolveFd) in
  match slots !! Z.to_nat idx with
  | None => refuse
  | Some slot =>
      if negb (fl_generation slot =? fd_generation fd) then refuse else
      match fl_entry slot with
      | None => refuse
      | Some entry =>
          match expected_kind with
          | Some k => if bool_decide (entry_kind entry = k) then Ok idx else refuse
          | None => Ok idx
          end
      end
  end.

Definition advance_file_generation (generation : Z) : Z :=
  let g := wrapping_add U64 generation 1 in
  if g =? 0 then INITIAL_FILE_GENERATION else g.

Definition entry_of (f : RegisterFd) : RegisteredFileEntry :=
  match f with
  | Borrowed h => BorrowedFd (as_fd h) (handle_kind h)
  | Owned h => OwnedHandle h
  end.

(** Dropping the rest of the argument. *)
Definition drop_files (files : list RegisterFd) : list Z := files ≫= (fun f => drop_entry (entry_of f)).

Section file_table.
Context `{IoUring}.
Notation St := (Ring * FileTable)%type.
Implicit Types (s : St) (t : FileTable).

Definition unregister_file_slot s (idx : Z) (advance_generation : bool) : St * result unit Report :=
  let (r, t) := s in
  if Z.of_nat (length (ft_slots t)) <=? idx then (s, Ok tt) else
  match slot_at t idx with
  | Some (mkFileSlot (Some entry) g) =>
      match register_files_update r idx (-1) with
      | (r, Err e) => ((r, t), Err (io_report Registration e))
      | (r, Ok _) =>
          let g := if advance_generation then advance_file_generation g else g in
          let t := ft_set_free (ft_set_slot t idx (mkFileSlot None g)) (idx :: ft_free t) in
          ((r, ft_close t (drop_entry entry)), Ok tt)
      end
  | _ => (s, Ok tt)
  end.

Fixpoint rollback_loop s (registered : list Z) (first_error : option Report) : St * result unit Report :=
  match registered with
  | [] => (s, match first_error with Some report => Err report | None => Ok tt end)
  | idx :: registered =>
      let (s, x) := unregister_file_slot s idx false in
      rollback_loop s registered
        match x, first_error with Err report, None => Some report | _, _ => first_error end
  end.
Definition rollback_file_slots s (registered : list Z) : St * result unit Report :=
  rollback_loop s registered None.

Definition unregister_fixed_fd s (fd : IoFd) : St * result unit Report :=
  let (r, t) := s in
  if negb (ft_initialized t) then (s, Ok tt) else
  match slot_at t (fd_index fd) with
  | Some slot =>
      if negb (fl_generation slot =? fd_generation fd) then (s, Ok tt)
      else unregister_file_slot s (fd_index fd) true
  | None => (s, Ok tt)
  end.

(** After the kernel closed the file itself: the entry is forgotten. *)
Definition unregister_close_owned_fd s (fd : IoFd) : St * result unit Report :=
  let (r, t) := s in
  if negb (ft_initialized t) then (s, Ok tt) else
  match slot_at t (fd_index fd) with
  | Some slot =>
      if negb (fl_generation slot =? fd_generation fd) then (s, Ok tt) else
      match fl_entry slot with
      | None => (s, Ok tt)
      | Some entry =>
          match register_files_update r (fd_index fd) (-1) with
          | (r, Err e) => ((r, t), Err (io_report Registration e))
          | (r, Ok _) =>
              let g := advance_file_generation (fl_generation slot) in
              ((r, ft_set_free (ft_set_slot t (fd_index fd) (mkFileSlot None g)) (fd_index fd :: ft_free t)), Ok tt)
          end
      end
  | None => (s, Ok tt)
  end.

Definition replace_registered_fixed_fd s (fixed_fd : IoFd) (raw : UringRawHandle) : St * result unit Report :=
  let (r, t) := s in
  let refuse := (s, Err (to_report InvalidState)) in
  if negb (ft_initialized t) then refuse else
  match slot_at t (fd_index fixed_fd) with
  | None => refuse
  | Some slot =>
      if negb (fl_generation slot =? fd_generation fixed_fd) then refuse else
      match fl_entry slot with
      | None => refuse
      | Some old =>
          match register_files_update r (fd_index fixed_fd) (as_fd raw) with
          | (r, Err e) => ((r, t), Err (io_report Registration e))
          | (r, Ok _) =>
              let entry := BorrowedFd (as_fd raw) (handle_kind raw) in
              let t := ft_set_slot t (fd_index fixed_fd) (mkFileSlot (Some entry) (fl_generation slot)) in
              ((r, ft_close t (drop_entry old)), Ok tt)
          end
      end
  end.

(** [ops_capacity] is the number of operation slots of the driver. *)
Definition ensure_file_table_initialized (ops_capacity : Z) s : St * result unit Report :=
  let (r, t) := s in
  if ft_initialized t then (s, Ok tt) else
  let capacity := Z.to_nat (Z.max ops_capacity MIN_FILE_TABLE_CAPACITY) in
  match register_files r (replicate capacity (-1)) with
  | (r, Err e) => ((r, t), Err (io_report Registration e))
  | (r, Ok _) =>
      ((r, mkFileTable (replicate capacity (mkFileSlot None INITIAL_FILE_GENERATION))
             (Z.of_nat <$> seq 0 capacity) true (ft_closed t)), Ok tt)
  end.

Fixpoint register_loop s (files : list RegisterFd) (fixed_fds : list IoFd) (registered_slots : list Z)
    : outcome (St * result (list IoFd) Report) :=
  match files with
  | [] => Ret (s, Ok fixed_fds)
  | file :: files =>
      let (r, t) := s in
      let entry := entry_of file in
      idx ← expect (head (ft_free t));
      let t := ft_set_free t (tail (ft_free t)) in
      match register_files_update r idx (entry_fd entry) with
      | (r, Err e) =>
          let t := ft_set_free t (idx :: ft_free t) in
          let '((r, t), x) := rollback_file_slots (r, t) registered_slots in
          Ret ((r, ft_close t (drop_entry entry ++ drop_files files)),
               Err match x with Err rollback_report => rollback_report | Ok _ => io_report Registration e end)
      | (r, Ok _) =>
          slot ← vec_get (ft_slots t) idx;
          let t := ft_set_slot t idx (mkFileSlot (Some entry) (fl_generation slot)) in
          let t := ft_close t (match fl_entry slot with Some old => drop_entry old | None => [] end) in
          register_loop (r, t) files (fixed_fds ++ [mkIoFd idx (fl_generation slot)]) (idx :: registered_slots)
      end
  end.

Definition register_files_internal (ops_capacity : Z) s (files : list RegisterFd)
    : outcome (St * result (list IoFd) Report) :=
  let '((r, t), x) := ensure_file_table_initialized ops_capacity s in
  match x with
  | Err report => Ret ((r, ft_close t (drop_files files)), Err report)
  | Ok _ =>
      if (length (ft_free t) <? length files)%nat
      then Ret ((r, ft_close t (drop_files files)), Err (to_report InvalidState))
      else register_loop (r, t) files [] []
  end.

(** [unregister_files] of the driver: up to the first error. *)
Fixpoint unregister_files s (files : list IoFd) : St * result unit Report :=
  match files with
  | [] => (s, Ok tt)
  | fd :: files =>
      match unregister_fixed_fd s fd with
      | (s, Ok _) => unregister_files s files
      | (s, Err e) => (s, Err e)
      end
  end.
End file_table.

(** ** The calls of the table, in sequence *)

Inductive file_op : Type :=
  | OpRegister (files : list RegisterFd)
  | OpUnregister (fd : IoFd)
  | OpClose (fd : IoFd)
  | OpReplace (fd : IoFd) (raw : UringRawHandle).

Section calls.
Context `{IoUring} (ops_capacity : Z).
Notation St := (Ring * FileTable)%type.
Implicit Types (s : St) (t : FileTable) (op : file_op).

Definition unit_reply (x : St * result unit Report) : outcome (St * result (list IoFd) Report) :=
  Ret (x.1, match x.2 with Ok _ => Ok [] | Err e => Err e end).

Definition file_exec s op : outcome (St * result (list IoFd) Report) :=
  match op with
  | OpRegister files => register_files_internal ops_capacity s files
  | OpUnregister fd => unit_reply (unregister_fixed_fd s fd)
  | OpClose fd => unit_reply (unregister_close_owned_fd s fd)
  | OpReplace fd raw => unit_reply (replace_registered_fixed_fd s fd raw)
  end.

(** Before each call the ring is used for other things. *)
Fixpoint file_run s (steps : list ((Ring -> Ring) * file_op))
    : outcome (St * list (result (list IoFd) Report)) :=
  match steps with
  | [] => Ret (s, [])
  | (f, op) :: steps =>
      '(s, x) ← file_exec (f s.1, s.2) op;
      '(s, xs) ← file_run s steps;
      Ret (s, x :: xs)
  end.
End calls.

(** ** What the table promises

    A map from live descriptors to entries, and the descriptors that were
    retired.  A registration gives fresh descriptors; one that fails may leave
    entries behind under descriptors nobody was given, when undoing it fails
    too. *)
Record Descriptors : Type := mkDescriptors { ds_live : gmap IoFd RegisteredFileEntry; ds_retired : gset IoFd }.

Definition retire (D : Descriptors) (fd : IoFd) : Descriptors :=
  match ds_live D !! fd with
  | Some _ => mkDescriptors (delete fd (ds_live D)) ({[fd]} ∪ ds_retired D)
  | None => D
  end.

Inductive desc_step : Descriptors -> file_op -> result (list IoFd) Report -> Descriptors -> Prop :=
  | ds_register L R files fds :
      NoDup fds -> length fds = length files -> (forall fd, fd ∈ fds -> L !! fd = None /\ fd ∉ R) ->
      desc_step (mkDescriptors L R) (OpRegister files) (Ok fds)
        (mkDescriptors (list_to_map (zip fds (entry_of <$> files)) ∪ L) R)
  | ds_register_err L L' R files e :
      L ⊆ L' -> (forall fd, is_Some (L' !! fd) -> fd ∉ R) ->
      desc_step (mkDescriptors L R) (OpRegister files) (Err e) (mkDescriptors L' R)
  | ds_unregister D fd : desc_step D (OpUnregister fd) (Ok []) (retire D fd)
  | ds_close D fd : desc_step D (OpClose fd) (Ok []) (retire D fd)
  | ds_replace L R fd raw : is_Some (L !! fd) ->
      desc_step (mkDescriptors L R) (OpReplace fd raw) (Ok [])
        (mkDescriptors (<[fd := BorrowedFd (as_fd raw) (handle_kind raw)]> L) R)
  | ds_err D op e : (forall files, op <> OpRegister files) -> desc_step D op (Err e) D.

Inductive desc_run : Descriptors -> list file_op -> list (result (list IoFd) Report) -> Descriptors -> Prop :=
  | dr_nil D : desc_run D [] [] D
  | dr_cons D op x D1 ops xs D2 :
      desc_step D op x D1 -> desc_run D1 ops xs D2 -> desc_run D (op :: ops) (x :: xs) D2.

Definition op_ok (op : file_op) : Prop :=
  match op with
  | OpRegister _ => True
  | OpUnregister fd | OpClose fd | OpReplace fd _ => 0 <= fd_index fd
  end.

(** ** The invariant *)

Record table_inv (t : FileTable) : Prop := {
  tv_free : NoDup (ft_free t);
  tv_free_iff : forall i, i ∈ ft_free t <-> 0 <= i /\ exists g, slot_at t i = Some (mkFileSlot None g);
  tv_start : ft_initialized t = false -> ft_slots t = [] /\ ft_free t = []
}.

(** After [n] calls. *)
Record table_sim (n : Z) (t : FileTable) (D : Descriptors) : Prop := {
  ts_inv : table_inv t;
  ts_gen : forall k sl, ft_slots t !! k = Some sl -> 1 <= fl_generation sl <= 1 + n;
  ts_live : forall fd e, ds_live D !! fd = Some e <->
    0 <= fd_index fd /\ slot_at t (fd_index fd) = Some (mkFileSlot (Some e) (fd_generation fd));
  ts_retired : forall fd, fd ∈ ds_retired D ->
    0 <= fd_index fd /\ exists sl, slot_at t (fd_index fd) = Some sl /\ fd_generation fd < fl_generation sl
}.

Section table_facts.
Implicit Types (t : FileTable) (D : Descriptors).

Lemma slot_at_set t i j sl : 0 <= i -> 0 <= j -> is_Some (slot_at t i) ->
  slot_at (ft_set_slot t i sl) j = if decide (i = j) then Some sl else slot_at t j.
Proof.
  intros Hi Hj [x Hx]. unfold slot_at in *. cbn. destruct (decide (i = j)) as [-> | Hne].
  - apply list_lookup_insert_eq. by eapply lookup_lt_Some.
  - apply list_lookup_insert_ne. lia.
Qed.

Lemma slot_at_index t i sl : slot_at t i = Some sl -> 0 <= i -> i < Z.of_nat (length (ft_slots t)).
Proof. intros Hs%lookup_lt_Some Hi. lia. Qed.

Lemma advance_generation_small g : 0 <= g < 2 ^ 64 - 1 -> advance_file_generation g = g + 1.
Proof.
  intros Hg. unfold advance_file_generation, wrapping_add. rewrite wrap_small by (unfold U64; lia).
  by rewrite (proj2 (Z.eqb_neq _ _)) by lia.
Qed.

(** Only the closed files differ. *)
Lemma table_sim_close n t D l : table_sim n t D -> table_sim n (ft_close t l) D.
Proof. intros [[Hf Hi Hs] Hg Hl Hr]. split; [by split | done ..]. Qed.

Lemma table_sim_more n n' t D : n <= n' -> table_sim n t D -> table_sim n' t D.
Proof. intros Hn [Hi Hg Hl Hr]. split; [done | | done | done]. intros i sl Hs. specialize (Hg i sl Hs). lia. Qed.

(** A free place taken. *)
Lemma table_sim_place n t D idx free g e : table_sim n t D -> ft_free t = idx :: free ->
  slot_at t idx = Some (mkFileSlot None g) -> 0 <= idx ->
  table_sim n (ft_set_slot (ft_set_free t free) idx (mkFileSlot (Some e) g))
    (mkDescriptors (<[mkIoFd idx g := e]> (ds_live D)) (ds_retired D)) /\
  ds_live D !! mkIoFd idx g = None /\ mkIoFd idx g ∉ ds_retired D.
Proof.
  intros [[Hf Hfi Hst] Hg Hl Hr] Hfree Hs Hi. split_and!.
  - assert (Hset : forall j, 0 <= j -> slot_at (ft_set_slot (ft_set_free t free) idx (mkFileSlot (Some e) g)) j =
      if decide (idx = j) then Some (mkFileSlot (Some e) g) else slot_at t j).
    { intros j Hj. rewrite slot_at_set; [done | done | done | by eexists]. }
    rewrite Hfree in Hf. apply NoDup_cons in Hf as [Hn Hf]. split; [split | | |].
    + done.
    + intros j. cbn [ft_set_slot ft_set_free ft_free]. split.
      * intros Hj. destruct (proj1 (Hfi j)) as [Hj0 [g' Hg']]; [rewrite Hfree; set_solver |].
        split; [done |]. exists g'. rewrite Hset by done. rewrite decide_False by set_solver. done.
      * intros [Hj0 [g' Hg']]. rewrite Hset in Hg' by done. destruct (decide (idx = j)); [done |].
        assert (Hj : j ∈ ft_free t) by (apply Hfi; eauto).
        rewrite Hfree in Hj. apply elem_of_cons in Hj as [-> | Hj]; done.
    + intros Hini. destruct (Hst Hini) as [_ E]. congruence.
    + intros k sl [(_ & <- & _) | (_ & Hk)]%list_lookup_insert_Some; [exact (Hg _ _ Hs) | by eapply Hg].
    + intros fd e'. cbn [ds_live]. rewrite lookup_insert_Some, Hl. split.
      * intros [[<- <-] | [Hne [H0 Hx]]]; cbn [fd_index fd_generation].
        -- split; [done |]. rewrite Hset by done. by rewrite decide_True.
        -- split; [done |]. rewrite Hset by done. rewrite decide_False; [done |]. intros E. rewrite <- E in Hx. congruence.
      * intros [H0 Hx]. rewrite Hset in Hx by done. destruct (decide (idx = fd_index fd)) as [E | Hne].
        -- left. injection Hx as <- Hgen. destruct fd; cbn in *; subst. done.
        -- right. split; [| done]. intros <-. done.
    + intros fd Hfd. destruct (Hr fd Hfd) as [H0 (sl & Hsl & Hlt)]. split; [done |]. rewrite Hset by done.
      destruct (decide (idx = fd_index fd)) as [E | Hne]; [| by eauto]. eexists. split; [done |]. cbn.
      rewrite <- E, Hs in Hsl. injection Hsl as <-. exact Hlt.
  - destruct (ds_live D !! mkIoFd idx g) as [e' |] eqn:E; [| done]. apply Hl in E as [_ E]. cbn in E. congruence.
  - intros Hin. destruct (Hr _ Hin) as [_ (sl & Hsl & Hlt)]. cbn in *. rewrite Hs in Hsl. injection Hsl as <-. cbn in Hlt. lia.
Qed.
End table_facts.

Section refinement.
Context `{IoUring} (ops_capacity : Z).
Notation St := (Ring * FileTable)%type.
Implicit Types (s : St) (t : FileTable) (D : Descriptors).

(** A place given back, with the next generation or, when its descriptor never
    left the backend, with the same one. *)
Lemma table_sim_vacate n t D fd e (adv : bool) : table_sim n t D -> n < 2 ^ 64 - 2 ->
  ds_live D !! fd = Some e ->
  let g := if adv then advance_file_generation (fd_generation fd) else fd_generation fd in
  table_sim (if adv then n + 1 else n) (ft_set_free (ft_set_slot t (fd_index fd) (mkFileSlot None g)) (fd_index fd :: ft_free t))
    (mkDescriptors (delete fd (ds_live D)) (if adv then {[fd]} ∪ ds_retired D else ds_retired D)).
Proof.
  intros [[Hf Hfi Hst] Hg Hl Hr] Hn Hlive g. pose proof (proj1 (Hl fd e) Hlive) as [H0 Hs].
  pose proof (Hg _ _ Hs) as Hgen. cbn [fl_generation] in Hgen.
  assert (Hgr : fd_generation fd <= g /\ (adv = true -> g = fd_generation fd + 1) /\
    1 <= g <= 1 + (if adv then n + 1 else n)).
  { unfold g. destruct adv; [rewrite advance_generation_small by lia |]; split_and!; lia || done. }
  set (t' := ft_set_free _ _).
  assert (Hset : forall j, 0 <= j -> slot_at t' j =
    if decide (fd_index fd = j) then Some (mkFileSlot None g) else slot_at t j).
  { intros j Hj. unfold t'. rewrite <- slot_at_set; [done | done | done | by eexists]. }
  split; [split | | |].
  - cbn. apply NoDup_cons. split; [| done]. intros [_ [g' Hg']]%Hfi. congruence.
  - intros j. cbn [t' ft_set_free ft_free]. rewrite elem_of_cons, Hfi. split.
    + intros [-> | [Hj Hx]]; [split; [done |]; exists g; rewrite Hset by done; by rewrite decide_True |].
      split; [done |]. rewrite Hset by done. destruct (decide _) as [<- | _]; eauto.
    + intros [Hj [g' Hx]]. rewrite Hset in Hx by done. destruct (decide (fd_index fd = j)); eauto.
  - intros Hini. destruct (Hst Hini) as [E _]. unfold slot_at in Hs. rewrite E in Hs. done.
  - intros k sl [(_ & <- & _) | (_ & Hk)]%list_lookup_insert_Some; [cbn; lia |]. specialize (Hg k sl Hk). destruct adv; lia.
  - intros fd' e'. cbn [ds_live]. rewrite lookup_delete_Some, Hl. split.
    + intros [Hne [Hi Hx]]. split; [done |]. rewrite Hset by done. rewrite decide_False; [done |].
      intros E. apply Hne. destruct fd, fd'; cbn in *. subst. congruence.
    + intros [Hi Hx]. rewrite Hset in Hx by done. destruct (decide _) as [E | Hne]; [done |].
      split; [| done]. by intros ->.
  - intros fd' Hfd. assert (Hc : adv = true /\ fd' = fd \/ fd' ∈ ds_retired D) by (cbn in Hfd; destruct adv; set_solver).
    destruct Hc as [[-> ->] | Hin].
    + split; [done |]. eexists. rewrite Hset by done. rewrite decide_True by done. split; [done |]. cbn.
      destruct Hgr as (_ & -> & _); [lia | done].
    + destruct (Hr _ Hin) as [Hi (sl & Hsl & Hlt)]. split; [done |]. rewrite Hset by done.
      destruct (decide (fd_index fd = fd_index fd')) as [E | Hne]; [| by eauto].
      eexists. split; [done |]. rewrite <- E, Hs in Hsl. injection Hsl as <-. cbn in *. lia.
Qed.

(** The place of a descriptor that is not live is of no use to it. *)
Lemma not_live n t D fd sl : table_sim n t D -> 0 <= fd_index fd -> slot_at t (fd_index fd) = Some sl ->
  ds_live D !! fd = if fl_generation sl =? fd_generation fd then fl_entry sl else None.
Proof.
  intros Hs Hi Hsl. destruct (ds_live D !! fd) as [e |] eqn:E.
  - apply (ts_live _ _ _ Hs) in E as [_ E]. rewrite Hsl in E. injection E as ->. cbn. by rewrite Z.eqb_refl.
  - destruct (Z.eqb_spec (fl_generation sl) (fd_generation fd)) as [Hg |]; [| done].
    destruct (fl_entry sl) as [e |] eqn:He; [| done].
    assert (ds_live D !! fd = Some e); [| congruence]. apply (ts_live _ _ _ Hs). split; [done |].
    rewrite Hsl. destruct sl; cbn in *. by subst.
Qed.

Lemma not_live_missing n t D fd : table_sim n t D -> slot_at t (fd_index fd) = None -> ds_live D !! fd = None.
Proof.
  intros Hs Hn. destruct (ds_live D !! fd) as [e |] eqn:E; [| done].
  apply (ts_live _ _ _ Hs) in E as [_ E]. congruence.
Qed.

Lemma not_live_uninitialized n t D fd : table_sim n t D -> ft_initialized t = false -> ds_live D !! fd = None.
Proof.
  intros Hs Hi. eapply not_live_missing; [done |]. destruct (tv_start _ (ts_inv _ _ _ Hs) Hi) as [E _].
  unfold slot_at. by rewrite E.
Qed.

Lemma retire_none D fd : ds_live D !! fd = None -> retire D fd = D.
Proof. intros E. unfold retire. by rewrite E. Qed.

Lemma unregister_slot_sim n r t D fd e (adv : bool) : table_sim n t D -> n < 2 ^ 64 - 2 ->
  ds_live D !! fd = Some e ->
  exists s' x, unregister_file_slot (r, t) (fd_index fd) adv = (s', x) /\
    match x with
    | Ok _ => table_sim (if adv then n + 1 else n) s'.2
        (mkDescriptors (delete fd (ds_live D)) (if adv then {[fd]} ∪ ds_retired D else ds_retired D))
    | Err _ => s'.2 = t
    end.
Proof.
  intros Hs Hn Hl. pose proof (proj1 (ts_live _ _ _ Hs fd e) Hl) as [H0 Hsl]. unfold unregister_file_slot.
  pose proof (slot_at_index _ _ _ Hsl H0). rewrite (proj2 (Z.leb_gt _ _)) by done. rewrite Hsl.
  destruct (register_files_update r (fd_index fd) (-1)) as [r' [u | er]]; eexists _, _; split; try done.
  cbn [snd]. apply table_sim_close. by apply (table_sim_vacate _ _ _ _ e).
Qed.

(** Undoing a registration takes nothing else away. *)
Lemma rollback_sim n L0 R reg : forall r t L e0, table_sim n t (mkDescriptors L R) -> n < 2 ^ 64 - 2 ->
  L0 ⊆ L -> Forall (fun idx => exists g e, L !! mkIoFd idx g = Some e) reg -> NoDup reg ->
  (forall fd, is_Some (L0 !! fd) -> fd_index fd ∉ reg) ->
  exists s' x L', rollback_loop (r, t) reg e0 = (s', x) /\ table_sim n s'.2 (mkDescriptors L' R) /\ L0 ⊆ L'.
Proof.
  induction reg as [| idx reg IH]; intros r t L e0 Hs Hn Hsub Hreg Hnd Hout; [by eexists _, _, _ |].
  apply Forall_cons in Hreg as [(g & e & Hl) Hreg]. apply NoDup_cons in Hnd as [Hnin Hnd].
  destruct (unregister_slot_sim n r t _ (mkIoFd idx g) e false Hs Hn Hl) as ([r1 t1] & x & Hu & Hx).
  cbn [rollback_loop]. change (unregister_file_slot (r, t) idx false) with
    (unregister_file_slot (r, t) (fd_index (mkIoFd idx g)) false). rewrite Hu.
  assert (Hout' : forall fd, is_Some (L0 !! fd) -> fd_index fd ∉ reg).
  { intros fd Hfd Hin. apply (Hout fd Hfd). by right. }
  destruct x as [u | er].
  - eapply IH; [exact Hx | done | | | done | done].
    + cbn [ds_live]. apply map_subseteq_spec. intros fd e' Hfd. apply lookup_delete_Some. split.
      * intros <-. apply (Hout (mkIoFd idx g)); [by eexists | by left].
      * by eapply lookup_weaken.
    + apply Forall_forall. intros j Hj. rewrite Forall_forall in Hreg. destruct (Hreg j Hj) as (g' & e' & He').
      exists g', e'. apply lookup_delete_Some. split; [| done]. intros [= <- <-]. done.
  - cbn [snd] in Hx. subst t1. by eapply IH.
Qed.

Lemma register_loop_sim n L0 R files : forall r t L fixed reg, table_sim n t (mkDescriptors L R) ->
  n < 2 ^ 64 - 2 -> (length files <= length (ft_free t))%nat ->
  L0 ⊆ L -> Forall (fun idx => exists g e, L !! mkIoFd idx g = Some e) reg -> NoDup reg ->
  (forall fd, is_Some (L0 !! fd) -> fd_index fd ∉ reg) ->
  exists s' x L', register_loop (r, t) files fixed reg = Ret (s', x) /\ table_sim n s'.2 (mkDescriptors L' R) /\
    match x with
    | Ok fds => exists new, fds = fixed ++ new /\ NoDup new /\ length new = length files /\
        (forall fd, fd ∈ new -> L !! fd = None /\ fd ∉ R) /\
        L' = list_to_map (zip new (entry_of <$> files)) ∪ L
    | Err _ => L0 ⊆ L'
    end.
Proof.
  induction files as [| file files IH]; intros r t L fixed reg Hs Hn Hlen Hsub Hreg Hnd Hout.
  { eexists _, _, L. split; [done |]. split; [done |]. exists []. rewrite app_nil_r. cbn.
    split_and!; [done | constructor | done | set_solver | by rewrite (left_id_L ∅ (∪))]. }
  cbn [register_loop]. pose proof (ts_inv _ _ _ Hs) as [Hf Hfi Hst].
  destruct (ft_free t) as [| idx free] eqn:Hfree; [cbn in Hlen; lia |]. cbn [head expect tail]. rewrite bind_ret.
  destruct (proj1 (Hfi idx)) as [Hi0 [g Hsl]]; [by left |].
  destruct (register_files_update r idx (entry_fd (entry_of file))) as [r1 [u | er]].
  - change (ft_slots (ft_set_free t free)) with (ft_slots t).
    rewrite (vec_get_lookup _ _ _ Hi0 Hsl), bind_ret. cbn [fl_generation fl_entry].
    destruct (table_sim_place n t _ idx free g (entry_of file) Hs Hfree Hsl Hi0) as (Hs1 & Hnl & Hnr).
    cbn [ds_live ds_retired] in *. apply (table_sim_close _ _ _ []) in Hs1.
    edestruct (IH r1 _ _ (fixed ++ [mkIoFd idx g]) (idx :: reg) Hs1 Hn) as (s' & x & L' & He & Hs' & Hx).
    + cbn. rewrite ?Hfree in *. cbn in *. lia.
    + apply insert_subseteq_r; [by eapply lookup_weaken_None | done].
    + constructor; [exists g, (entry_of file); apply lookup_insert_eq |].
      eapply Forall_impl; [exact Hreg |]. intros j (g' & e' & He'). exists g', e'.
      rewrite lookup_insert_ne; [done |]. intros [= -> ->]. congruence.
    + apply NoDup_cons. split; [| done]. intros Hin. rewrite Forall_forall in Hreg.
      destruct (Hreg _ Hin) as (g' & e' & He'). apply (ts_live _ _ _ Hs) in He' as [_ He']. cbn in He'. congruence.
    + intros fd Hfd [E | Hin]%elem_of_cons; [| by eapply Hout]. destruct Hfd as [e' He'].
      eapply lookup_weaken in He'; [| exact Hsub]. apply (ts_live _ _ _ Hs) in He' as [_ He']. rewrite E in He'. congruence.
    + exists s', x, L'. split; [exact He |]. split; [done |]. destruct x as [fds | e']; [| done].
      destruct Hx as (new & -> & Hnn & Hl & Hfr & ->). exists (mkIoFd idx g :: new).
      assert (Hnew : mkIoFd idx g ∉ new).
      { intros Hin. destruct (Hfr _ Hin) as [E _]. rewrite lookup_insert_eq in E. done. }
      split_and!; [by rewrite <- app_assoc | by apply NoDup_cons | by cbn; rewrite Hl | |].
      * intros fd [-> | Hin]%elem_of_cons; [done |]. destruct (Hfr _ Hin) as [E ?]. split; [| done].
        apply lookup_insert_None in E as [? _]. done.
      * cbn. rewrite <- insert_union_l. rewrite insert_union_r; [done |].
        apply not_elem_of_list_to_map_1. rewrite fst_zip by (rewrite length_fmap; lia). done.
  - assert (Ht : ft_set_free (ft_set_free t free) (idx :: ft_free (ft_set_free t free)) = t).
    { destruct t. cbn in *. by subst. }
    rewrite Ht. unfold rollback_file_slots.
    destruct (rollback_sim n L0 R reg r1 t L None Hs Hn Hsub Hreg Hnd Hout) as ([r2 t2] & x & L' & -> & Hs2 & Hsub').
    eexists _, _, L'. split; [done |]. split; [by apply table_sim_close |]. done.
Qed.
End refinement.

Section file_theorems.
Context `{IoUring} (ops_capacity : Z).
Implicit Types (t : FileTable) (D : Descriptors).

Lemma table_sim_empty : table_sim 0 file_table_empty (mkDescriptors ∅ ∅).
Proof.
  split; [split | | |]; try done.
  - constructor.
  - intros i. split; [by intros ?%not_elem_of_nil | by intros (_ & g & ?)].
  - intros fd e. split; [| by intros (_ & ?)].
    intros E. exfalso. exact (lookup_empty_Some fd e E).
Qed.

Lemma initialize_sim n r t D : table_sim n t D -> 0 <= n ->
  exists s' x, ensure_file_table_initialized ops_capacity (r, t) = (s', x) /\ table_sim n s'.2 D.
Proof.
  intros Hs Hn. unfold ensure_file_table_initialized. destruct (ft_initialized t) eqn:Hi; [by eexists _, _ |].
  destruct (register_files r _) as [r1 [u | er]]; eexists _, _; split; try done. cbn [snd].
  set (c := Z.to_nat _).
  assert (Hnone : forall fd, ds_live D !! fd = None) by (intros fd; by eapply not_live_uninitialized).
  assert (Hslot : forall i sl, slot_at (mkFileTable (replicate c (mkFileSlot None INITIAL_FILE_GENERATION))
    (Z.of_nat <$> seq 0 c) true (ft_closed t)) i = Some sl <->
    (Z.to_nat i < c)%nat /\ sl = mkFileSlot None INITIAL_FILE_GENERATION).
  { intros i sl. unfold slot_at. cbn. rewrite lookup_replicate. tauto. }
  split; [split | | |].
  - cbn. apply NoDup_fmap_2; [apply _ | apply NoDup_seq].
  - intros i. cbn [ft_free]. rewrite list_elem_of_fmap. split.
    + intros (k & -> & Hk%elem_of_seq). split; [lia |]. exists INITIAL_FILE_GENERATION. apply Hslot.
      split; [lia | done].
    + intros (Hi0 & g & Hg). apply Hslot in Hg as [Hc _]. exists (Z.to_nat i). split; [lia |].
      apply elem_of_seq. lia.
  - done.
  - cbn. intros k sl [-> _]%lookup_replicate. unfold INITIAL_FILE_GENERATION. cbn. lia.
  - intros fd e. rewrite Hnone. split; [done |]. intros (_ & Hx). apply Hslot in Hx as [_ Hx]. done.
  - intros fd Hfd. destruct (ts_retired _ _ _ Hs fd Hfd) as (_ & sl & Hsl & _).
    destruct (tv_start _ (ts_inv _ _ _ Hs) Hi) as [E _]. unfold slot_at in Hsl. by rewrite E in Hsl.
Qed.

Lemma unregister_sim n r t D fd : table_sim n t D -> 0 <= n < 2 ^ 64 - 2 -> 0 <= fd_index fd ->
  exists s' x D', unit_reply (unregister_fixed_fd (r, t) fd) = Ret (s', x) /\ table_sim (n + 1) s'.2 D' /\
    desc_step D (OpUnregister fd) x D'.
Proof.
  intros Hs Hn Hi. unfold unit_reply, unregister_fixed_fd.
  assert (Hnop : ds_live D !! fd = None -> exists s' x D', Ret ((r, t), Ok []) = Ret (s', x) /\
    table_sim (n + 1) s'.2 D' /\ desc_step D (OpUnregister fd) x D').
  { intros E. eexists _, _, (retire D fd). split; [done |]. split; [| constructor].
    rewrite retire_none by done. by apply (table_sim_more n); [lia |]. }
  destruct (ft_initialized t) eqn:Hini; cbn [negb fst snd]; [| by eapply Hnop, not_live_uninitialized].
  destruct (slot_at t (fd_index fd)) as [sl |] eqn:Hsl; [| by eapply Hnop, not_live_missing].
  pose proof (not_live _ _ _ _ _ Hs Hi Hsl) as Hl.
  destruct (fl_generation sl =? fd_generation fd); cbn [negb fst snd]; [| by apply Hnop].
  destruct (fl_entry sl) as [e |] eqn:He.
  - destruct (unregister_slot_sim n r t D fd e true Hs ltac:(lia) Hl) as (s' & x & -> & Hx).
    cbn [fst snd]. destruct x as [u | er].
    + eexists _, _, _. split; [done |]. split; [exact Hx |].
      replace (mkDescriptors _ _) with (retire D fd) by (unfold retire; by rewrite Hl). constructor.
    + eexists _, _, D. split; [done |]. rewrite Hx. split; [by apply (table_sim_more n); [lia |] | by constructor].
  - unfold unregister_file_slot. rewrite Hsl. destruct sl as [en g]. cbn in He. subst en.
    destruct (_ <=? _); by apply Hnop.
Qed.

Lemma close_sim n r t D fd : table_sim n t D -> 0 <= n < 2 ^ 64 - 2 -> 0 <= fd_index fd ->
  exists s' x D', unit_reply (unregister_close_owned_fd (r, t) fd) = Ret (s', x) /\ table_sim (n + 1) s'.2 D' /\
    desc_step D (OpClose fd) x D'.
Proof.
  intros Hs Hn Hi. unfold unit_reply, unregister_close_owned_fd.
  assert (Hnop : ds_live D !! fd = None -> exists s' x D', Ret ((r, t), Ok []) = Ret (s', x) /\
    table_sim (n + 1) s'.2 D' /\ desc_step D (OpClose fd) x D').
  { intros E. eexists _, _, (retire D fd). split; [done |]. split; [| constructor].
    rewrite retire_none by done. by apply (table_sim_more n); [lia |]. }
  destruct (ft_initialized t) eqn:Hini; cbn [negb fst snd]; [| by eapply Hnop, not_live_uninitialized].
  destruct (slot_at t (fd_index fd)) as [sl |] eqn:Hsl; [| by eapply Hnop, not_live_missing].
  pose proof (not_live _ _ _ _ _ Hs Hi Hsl) as Hl.
  destruct (Z.eqb_spec (fl_generation sl) (fd_generation fd)) as [Hg |]; cbn [negb fst snd]; [| by apply Hnop].
  destruct (fl_entry sl) as [e |] eqn:He; cbn [fst snd]; [| by apply Hnop].
  destruct (register_files_update r (fd_index fd) (-1)) as [r1 [u | er]]; cbn [fst snd].
  - eexists _, _, _. split; [done |]. cbn [snd]. rewrite Hg.
    split; [exact (table_sim_vacate n t D fd e true Hs ltac:(lia) Hl) |].
    replace (mkDescriptors _ _) with (retire D fd) by (unfold retire; by rewrite Hl). constructor.
  - eexists _, _, D. split; [done |]. split; [by apply (table_sim_more n); [lia |] | by constructor].
Qed.

Lemma replace_sim n r t D fd raw : table_sim n t D -> 0 <= n -> 0 <= fd_index fd ->
  exists s' x D', unit_reply (replace_registered_fixed_fd (r, t) fd raw) = Ret (s', x) /\
    table_sim (n + 1) s'.2 D' /\ desc_step D (OpReplace fd raw) x D'.
Proof.
  intros Hs Hn Hi. unfold unit_reply, replace_registered_fixed_fd.
  assert (Herr : forall r' e, exists s' x D', Ret ((r' : Ring, t), Err e) = Ret (s', x) /\
    table_sim (n + 1) s'.2 D' /\ desc_step D (OpReplace fd raw) x D').
  { intros r' e. eexists _, _, D. split; [done |]. split; [by apply (table_sim_more n); [lia |] | by constructor]. }
  destruct (ft_initialized t) eqn:Hini; cbn [negb fst snd]; [| apply Herr].
  destruct (slot_at t (fd_index fd)) as [[en g] |] eqn:Hsl; [| apply Herr]. cbn [fl_generation fl_entry].
  destruct (Z.eqb_spec g (fd_generation fd)) as [-> |]; cbn [negb fst snd]; [| apply Herr].
  destruct en as [old |]; [| apply Herr].
  destruct (register_files_update r (fd_index fd) (as_fd raw)) as [r1 [u | er]]; [| apply Herr].
  destruct D as [L R]. set (e := BorrowedFd _ _).
  eexists _, _, (mkDescriptors (<[fd := e]> L) R). split; [done |]. cbn [snd].
  pose proof (proj2 (ts_live _ _ _ Hs fd old) (conj Hi Hsl)) as Hl. cbn [ds_live] in Hl.
  split; [| constructor; by eexists].
  apply table_sim_close, (table_sim_more n); [lia |]. destruct Hs as [[Hf Hfi Hst] Hg Hlv Hr].
  assert (Hset : forall j, 0 <= j -> slot_at (ft_set_slot t (fd_index fd) (mkFileSlot (Some e) (fd_generation fd))) j =
    if decide (fd_index fd = j) then Some (mkFileSlot (Some e) (fd_generation fd)) else slot_at t j).
  { intros j Hj. rewrite slot_at_set; [done | done | done | by eexists]. }
  split; [split | | |].
  - done.
  - intros j. cbn [ft_set_slot ft_free]. rewrite Hfi. split; intros [Hj [g' Hx]]; (split; [done |]); exists g'.
    + rewrite Hset by done. rewrite decide_False; [done |]. intros E. rewrite <- E in Hx. congruence.
    + rewrite Hset in Hx by done. by destruct (decide _).
  - intros Hx. cbn in Hx. congruence.
  - intros k sl [(_ & <- & _) | (_ & Hk)]%list_lookup_insert_Some; [exact (Hg _ _ Hsl) | by eapply Hg].
  - intros fd' e'. cbn [ds_live]. rewrite lookup_insert_Some. cbn [ds_live] in Hlv. rewrite Hlv. split.
    + intros [[<- <-] | [Hne [H0 Hx]]]; (split; [done |]); rewrite Hset by done; [by rewrite decide_True |].
      rewrite decide_False; [done |]. intros E. rewrite <- E, Hsl in Hx. injection Hx as _ Hg'.
      apply Hne. destruct fd, fd'. cbn in *. by subst.
    + intros [H0 Hx]. rewrite Hset in Hx by done. destruct (decide (fd_index fd = fd_index fd')) as [E | Hne].
      * injection Hx as <- Hg'. left. destruct fd, fd'. cbn in *. by subst.
      * right. split; [| done]. by intros ->.
  - intros fd' Hin. destruct (Hr fd' Hin) as [H0 (sl & Hx & Hlt)]. split; [done |]. rewrite Hset by done.
    destruct (decide (fd_index fd = fd_index fd')) as [E | Hne]; [| by eauto]. eexists. split; [done |].
    rewrite <- E, Hsl in Hx. by injection Hx as <-.
Qed.

Lemma register_sim n r t D files : table_sim n t D -> 0 <= n < 2 ^ 64 - 2 ->
  exists s' x D', register_files_internal ops_capacity (r, t) files = Ret (s', x) /\
    table_sim (n + 1) s'.2 D' /\ desc_step D (OpRegister files) x D'.
Proof.
  intros Hs Hn. unfold register_files_internal. destruct D as [L R].
  destruct (initialize_sim n r t _ Hs ltac:(lia)) as ([r1 t1] & x & -> & H1). cbn [snd] in H1.
  assert (Hfresh : forall fd, is_Some (L !! fd) -> fd ∉ R).
  { intros fd [e He] Hin. apply (ts_live _ _ _ Hs) in He as [_ He]. destruct (ts_retired _ _ _ Hs fd Hin) as (_ & sl & E & Hlt).
    rewrite He in E. injection E as <-. cbn in Hlt. lia. }
  assert (Herr : forall l e, exists s' x D', Ret ((r1, ft_close t1 l), Err e) = Ret (s', x) /\
    table_sim (n + 1) s'.2 D' /\ desc_step (mkDescriptors L R) (OpRegister files) x D').
  { intros l e. eexists _, _, (mkDescriptors L R). split; [done |]. cbn [snd].
    split; [| by constructor]. apply table_sim_close, (table_sim_more n); [lia | done]. }
  destruct x as [u | er]; [| apply Herr].
  destruct (Nat.ltb_spec (length (ft_free t1)) (length files)); [apply Herr |].
  destruct (register_loop_sim n L R files r1 t1 L [] [] H1) as (s' & x & L' & He & Hs' & Hx);
    [lia | lia | done | constructor | constructor | by intros ? _ ?%not_elem_of_nil |].
  exists s', x, (mkDescriptors L' R). split; [exact He |]. split; [apply (table_sim_more n); [lia | done] |].
  destruct x as [fds | e].
  - destruct Hx as (new & -> & Hnd & Hlen & Hfr & ->). cbn. by constructor.
  - constructor; [done |]. intros fd [e' Hl]. intros Hin.
    apply (ts_live _ _ _ Hs') in Hl as [_ Hl]. destruct (ts_retired _ _ _ Hs' fd Hin) as (_ & sl & E & Hlt).
    rewrite Hl in E. injection E as <-. cbn in Hlt. lia.
Qed.

Lemma exec_sim n s D op : table_sim n s.2 D -> 0 <= n < 2 ^ 64 - 2 -> op_ok op ->
  exists s' x D', file_exec ops_capacity s op = Ret (s', x) /\ table_sim (n + 1) s'.2 D' /\ desc_step D op x D'.
Proof.
  destruct s as [r t]. intros Hs Hn Ho. destruct op as [files | fd | fd | fd raw]; cbn [file_exec].
  - by apply register_sim.
  - by apply unregister_sim.
  - by apply close_sim.
  - apply replace_sim; [done | lia | done].
Qed.

Lemma run_sim steps : forall n s D, table_sim n s.2 D -> 0 <= n -> n + Z.of_nat (length steps) <= 2 ^ 64 - 2 ->
  Forall (fun st => op_ok st.2) steps ->
  exists s' xs D', file_run ops_capacity s steps = Ret (s', xs) /\
    table_sim (n + Z.of_nat (length steps)) s'.2 D' /\ desc_run D (snd <$> steps) xs D'.
Proof.
  induction steps as [| [f op] steps IH]; intros n s D Hs H0 Hn Hok.
  { exists s, [], D. cbn. rewrite Z.add_0_r. split; [done |]. split; [done | constructor]. }
  apply Forall_cons in Hok as [Ho Hok]. cbn [length file_run] in *.
  destruct (exec_sim n (f s.1, s.2) D op Hs ltac:(lia) Ho) as (s1 & x & D1 & -> & H1 & Hd).
  destruct (IH (n + 1) s1 D1 H1 ltac:(lia) ltac:(lia) Hok) as (s2 & xs & D2 & He & H2 & Hr).
  rewrite bind_ret, He, bind_ret. exists s2, (x :: xs), D2. split; [done |]. split; [| by econstructor].
  by replace (n + Z.of_nat (S (length steps))) with (n + 1 + Z.of_nat (length steps)) by lia.
Qed.

(** C12 The table of registered files refines a map from descriptors to
    entries (a handle that the table owns, or one that it borrows): in every
    sequence of fewer than [2 ^ 64 - 1] registrations, removals, closings and
    replacements, whichever requests the kernel refuses and whatever happens to the
    ring in between, no call panics; a registration gives as many descriptors as
    it was given handles, all distinct and none ever issued to anybody before; a
    refused one takes nothing away that was there; the place that a live descriptor
    names has exactly the entry of that descriptor in the map, the last one it was
    given by its registration or a replacement; and a descriptor resolves, for a
    kind, exactly while it is live and its entry has that kind, and never again
    once it was removed. *)
Theorem file_table_refines_descriptors r steps (Hlen : Z.of_nat (length steps) <= 2 ^ 64 - 2)
    (Hok : Forall (fun st => op_ok st.2) steps) :
  exists s xs D, file_run ops_capacity (r, file_table_empty) steps = Ret (s, xs) /\
    desc_run (mkDescriptors ∅ ∅) (snd <$> steps) xs D /\
    (forall fd e, ds_live D !! fd = Some e <->
       0 <= fd_index fd /\ ft_slots s.2 !! Z.to_nat (fd_index fd) = Some (mkFileSlot (Some e) (fd_generation fd))) /\
    (forall fd kind, 0 <= fd_index fd ->
       resolve_registered_fixed_fd (ft_slots s.2) fd kind =
       match ds_live D !! fd with
       | Some e => if decide (kind = None \/ kind = Some (entry_kind e)) then Ok (fd_index fd) else Err (to_report ResolveFd)
       | None => Err (to_report ResolveFd)
       end) /\
    (forall fd, fd ∈ ds_retired D -> ds_live D !! fd = None).
Proof.
  destruct (run_sim steps 0 (r, file_table_empty) _ table_sim_empty) as (s & xs & D & He & Hs & Hd); [lia | lia | done |].
  exists s, xs, D. split; [done |]. split; [done |]. split; [exact (ts_live _ _ _ Hs) |]. split.
  - intros fd kind Hi. unfold resolve_registered_fixed_fd. fold (slot_at s.2 (fd_index fd)).
    destruct (slot_at s.2 (fd_index fd)) as [[en g] |] eqn:Hsl; [| by rewrite (not_live_missing _ _ _ _ Hs Hsl)].
    rewrite (not_live _ _ _ _ _ Hs Hi Hsl). cbn [fl_generation fl_entry].
    destruct (g =? fd_generation fd); [| done]. destruct en as [e |]; [| done]. cbn [negb].
    destruct kind as [k |]; [| by rewrite decide_True by auto].
    case_bool_decide as Hk; [rewrite decide_True; [done | right; congruence] |].
    rewrite decide_False; [done |]. intros [|]; congruence.
  - intros fd Hin. destruct (ds_live D !! fd) as [e |] eqn:E; [| done].
    apply (ts_live _ _ _ Hs) in E as [_ E]. destruct (ts_retired _ _ _ Hs fd Hin) as (_ & sl & Hx & Hlt).
    rewrite E in Hx. injection Hx as <-. cbn in Hlt. lia.
Qed.
End file_theorems.

(** ** The kernel's table, and who closes what *)

Definition slot_fd (sl : FileSlot) : Z := match fl_entry sl with Some e => entry_fd e | None => -1 end.
Definition slot_drop (sl : FileSlot) : list Z := match fl_entry sl with Some e => drop_entry e | None => [] end.

(** The files that dropping the table would close. *)
Definition owned_fds (t : FileTable) : list Z := ft_slots t ≫= slot_drop.
Definition given_fds (op : file_op) : list Z := match op with OpRegister files => drop_files files | _ => [] end.

Section mirror.
Context `{IoUring} `{!IoUringFiles} (ops_capacity : Z).
Notation St := (Ring * FileTable)%type.
Implicit Types (s : St) (t : FileTable).

(** The tables agree place by place, but at the places [P], which may be empty in
    the kernel. *)
Definition mirrors (P : nat -> Prop) s : Prop := ft_initialized s.2 = true ->
  length (kernel_files s.1) = length (ft_slots s.2) /\
  forall k sl, ft_slots s.2 !! k = Some sl ->
    kernel_files s.1 !! k = Some (slot_fd sl) \/ kernel_files s.1 !! k = Some (-1) /\ P k.

(** From one state to another, with files given to the table on the way. *)
Definition conserves s (given : list Z) s' : Prop :=
  ft_closed s'.2 ++ owned_fds s'.2 ≡ₚ ft_closed s.2 ++ owned_fds s.2 ++ given.

Definition kept s (given : list Z) s' : Prop := (forall P, mirrors P s -> mirrors P s') /\ conserves s given s'.

Lemma owned_set_slot t idx sl sl' : slot_at t idx = Some sl ->
  owned_fds (ft_set_slot t idx sl') ++ slot_drop sl ≡ₚ owned_fds t ++ slot_drop sl'.
Proof.
  unfold owned_fds, slot_at. cbn. generalize (ft_slots t) (Z.to_nat idx). intros l k. revert k.
  induction l as [| x l IH]; intros [| k] Hk; try done.
  - injection Hk as ->. cbn. rewrite <- !app_assoc. rewrite (Permutation_app_comm (l ≫= slot_drop)), app_assoc.
    rewrite (Permutation_app_comm (slot_drop sl')), <- app_assoc. by rewrite (Permutation_app_comm (slot_drop sl') _).
  - cbn. rewrite <- !app_assoc. by rewrite (IH k Hk).
Qed.

Lemma kept_refl s : kept s [] s.
Proof. split; [done |]. unfold conserves. by rewrite !app_nil_r. Qed.

Lemma kept_trans s1 g1 s2 g2 s3 : kept s1 g1 s2 -> kept s2 g2 s3 -> kept s1 (g1 ++ g2) s3.
Proof.
  intros [Hm1 Hc1] [Hm2 Hc2]. split; [auto |]. unfold conserves in *.
  rewrite Hc2, app_assoc, Hc1. by rewrite <- !app_assoc.
Qed.

(** Dropping files closes them. *)
Lemma kept_close s g r t l : kept s g (r, t) -> kept s (g ++ l) (r, ft_close t l).
Proof.
  intros [Hm Hc]. split; [done |]. unfold conserves in *. cbn [snd ft_close ft_closed ft_slots] in *.
  change (owned_fds (ft_close t l)) with (owned_fds t).
  rewrite <- !app_assoc, (Permutation_app_comm l), app_assoc, Hc. by rewrite <- !app_assoc.
Qed.

Lemma kept_refused r r' t i fd e : register_files_update r i fd = (r', Err e) -> kept (r, t) [] (r', t).
Proof.
  intros He. split; [| apply (kept_refl (r, t))]. unfold mirrors. cbn. by rewrite (update_err _ _ _ _ _ He).
Qed.

Lemma mirrors_mono (P Q : nat -> Prop) s : (forall k, P k -> Q k) -> mirrors P s -> mirrors Q s.
Proof.
  intros Hpq Hm Hi. destruct (Hm Hi) as [Hl Ha]. split; [done |]. intros k sl Hk. destruct (Ha k sl Hk) as [? | [? ?]]; [by left | right; auto].
Qed.

(** A place rewritten on both sides agrees. *)
Lemma mirrors_update P r r' t idx sl' : register_files_update r idx (slot_fd sl') = (r', Ok tt) -> mirrors P (r, t) ->
  mirrors (fun k => P k /\ k <> Z.to_nat idx) (r', ft_set_slot t idx sl').
Proof.
  intros Hu Hm Hi. destruct (Hm Hi) as [Hl Ha]. cbn [fst snd ft_set_slot ft_slots] in *. rewrite (update_ok _ _ _ _ Hu).
  split; [by rewrite !length_insert |]. intros k x Hk. apply list_lookup_insert_Some in Hk as [(E & <- & Hlt) | (Hne & Hk)].
  - left. rewrite <- E. apply list_lookup_insert_eq. by rewrite Hl, E.
  - rewrite list_lookup_insert_ne by done. destruct (Ha k x Hk) as [? | [? ?]]; [by left |].
    right. split_and!; [done | done | by intros ->].
Qed.

(** A place rewritten on both sides; its old entry is dropped or not. *)
Lemma kept_update r r' t idx sl sl' free : register_files_update r idx (slot_fd sl') = (r', Ok tt) ->
  slot_at t idx = Some sl ->
  kept (r, t) (slot_drop sl') (r', ft_close (ft_set_free (ft_set_slot t idx sl') free) (slot_drop sl)).
Proof.
  intros Hu Hsl. split.
  - intros P Hm. apply (mirrors_mono (fun k => P k /\ k <> Z.to_nat idx) P); [by intros k [? _] |].
    exact (mirrors_update P r r' t idx sl' Hu Hm).
  - unfold conserves. cbn [snd ft_close ft_closed ft_set_free ft_set_slot].
    change (owned_fds (ft_close _ _)) with (owned_fds (ft_set_slot t idx sl')).
    rewrite <- app_assoc. rewrite (Permutation_app_comm (slot_drop sl)), (owned_set_slot _ _ _ _ Hsl). done.
Qed.

Lemma kept_unregister s idx adv : kept s [] (unregister_file_slot s idx adv).1.
Proof.
  destruct s as [r t]. unfold unregister_file_slot. destruct (_ <=? _); [apply kept_refl |].
  destruct (slot_at t idx) as [[[e |] g] |] eqn:Hsl; [| apply kept_refl ..].
  destruct (register_files_update r idx (-1)) as [r' [[] | er]] eqn:Hu; cbn [fst].
  - exact (kept_update r r' t idx _ (mkFileSlot None _) (idx :: ft_free t) Hu Hsl).
  - by eapply kept_refused.
Qed.

Lemma kept_unregister_fixed s fd : kept s [] (unregister_fixed_fd s fd).1.
Proof.
  pose proof (kept_unregister s (fd_index fd) true) as Hk. pose proof (kept_refl s) as Hr.
  destruct s as [r t]. unfold unregister_fixed_fd. revert Hk. generalize (unregister_file_slot (r, t) (fd_index fd) true).
  intros x Hx. destruct (negb _); [done |]. destruct (slot_at _ _); [| done]. by destruct (negb _).
Qed.

Lemma kept_rollback reg : forall s e, kept s [] (rollback_loop s reg e).1.
Proof.
  induction reg as [| idx reg IH]; intros s e; [apply kept_refl |]. cbn [rollback_loop].
  pose proof (kept_unregister s idx false) as Hk. destruct (unregister_file_slot s idx false) as [s1 x].
  exact (kept_trans _ [] _ [] _ Hk (IH _ _)).
Qed.

Lemma kept_free r t free : kept (r, t) [] (r, ft_set_free t free).
Proof. split; [done |]. unfold conserves. by rewrite !app_nil_r. Qed.

Lemma kept_register files : forall s fixed reg s' x,
  register_loop s files fixed reg = Ret (s', x) -> kept s (drop_files files) s'.
Proof.
  induction files as [| f files IH]; intros [r t] fixed reg s' x; cbn [register_loop].
  { intros [= <- _]. apply kept_refl. }
  destruct (ft_free t) as [| idx free] eqn:Hf; [done |]. cbn [head expect]. rewrite bind_ret.
  change (drop_files (f :: files)) with (drop_entry (entry_of f) ++ drop_files files).
  destruct (register_files_update r idx (entry_fd (entry_of f))) as [r1 [[] | er]] eqn:Hu.
  - intros He. apply bind_Ret_inv in He as (sl & Hsl & He). apply vec_get_Ret in Hsl as [Hi0 Hsl].
    eapply kept_trans; [| by eapply IH].
    exact (kept_update r r1 (ft_set_free t (tail (idx :: free))) idx sl (mkFileSlot (Some (entry_of f)) _) (tail (idx :: free)) Hu Hsl).
  - unfold rollback_file_slots. set (t1 := ft_set_free _ _).
    pose proof (kept_rollback reg (r1, t1) None) as Hk.
    destruct (rollback_loop (r1, t1) reg None) as [[r2 t2] y]. intros [= <- _].
    apply (kept_close _ []). eapply (kept_trans _ [] (r1, t1) []); [| exact Hk].
    unfold t1. eapply (kept_trans _ [] (r, ft_set_free t _) []); [apply kept_free |].
    eapply (kept_trans _ [] (r1, _) []); [by eapply kept_refused | apply kept_free].
Qed.

Lemma kept_initialize s : table_inv s.2 -> kept s [] (ensure_file_table_initialized ops_capacity s).1.
Proof.
  destruct s as [r t]. intros [_ _ Hst]. cbn [snd] in *. unfold ensure_file_table_initialized.
  destruct (ft_initialized t) eqn:Hi; [apply kept_refl |]. destruct (Hst eq_refl) as [Hs _].
  set (c := Z.to_nat _). destruct (register_files r _) as [r' [[] | er]] eqn:Hr; cbn [fst].
  - split.
    + intros P _ _. cbn [fst snd ft_slots]. rewrite (register_ok _ _ _ Hr), !length_replicate. split; [done |].
      intros k sl [-> Hk]%lookup_replicate. left. by apply lookup_replicate.
    + unfold conserves, owned_fds. cbn [snd ft_closed ft_slots]. rewrite Hs.
      replace (replicate c _ ≫= slot_drop) with (@nil Z) by (clear; by induction c).
      cbn. by rewrite !app_nil_r.
  - split; [| apply (kept_refl (r, t))]. intros P Hm Hx. cbn [fst snd] in *. congruence.
Qed.

(** What a call leaves to the kernel: only a completed close does. *)
Lemma exec_kept s op s' x : table_inv s.2 -> file_exec ops_capacity s op = Ret (s', x) ->
  (forall P, mirrors P s -> mirrors P s') /\ exists released,
    ((forall fd, op <> OpClose fd) -> released = []) /\
    ft_closed s'.2 ++ owned_fds s'.2 ++ released ≡ₚ ft_closed s.2 ++ owned_fds s.2 ++ given_fds op.
Proof.
  destruct s as [r t]. intros Hi.
  assert (Hgo : forall s', kept (r, t) (given_fds op) s' -> (forall P, mirrors P (r, t) -> mirrors P s') /\ exists released,
    ((forall fd, op <> OpClose fd) -> released = []) /\
    ft_closed s'.2 ++ owned_fds s'.2 ++ released ≡ₚ ft_closed t ++ owned_fds t ++ given_fds op).
  { intros s1 [Hm Hc]. split; [done |]. exists []. split; [done |]. by rewrite app_nil_r. }
  destruct op as [files | fd | fd | fd raw]; cbn [file_exec given_fds] in *.
  - intros He. apply Hgo. unfold register_files_internal in He.
    pose proof (kept_initialize (r, t) Hi) as Hk.
    destruct (ensure_file_table_initialized ops_capacity (r, t)) as [[r1 t1] [u | er]]; cbn [fst] in Hk.
    + destruct (_ <? _)%nat; [injection He as <- _; by apply (kept_close _ []) |].
      eapply (kept_trans _ [] _ (drop_files files)); [exact Hk | by eapply kept_register].
    + injection He as <- _. by apply (kept_close _ []).
  - intros He. apply (f_equal (fun o => match o with Ret y => y.1 | Fault _ => (r, t) end)) in He. cbn [fst unit_reply] in He.
    rewrite <- He. apply Hgo, kept_unregister_fixed.
  - unfold unit_reply, unregister_close_owned_fd. intros [= <- _].
    destruct (negb _); [apply Hgo, kept_refl |].
    destruct (slot_at t (fd_index fd)) as [[en g] |] eqn:Hsl; [| apply Hgo, kept_refl].
    destruct (negb _); [apply Hgo, kept_refl |]. cbn [fl_entry]. destruct en as [e |]; [| apply Hgo, kept_refl].
    destruct (register_files_update r (fd_index fd) (-1)) as [r' [[] | er]] eqn:Hu; cbn [fst snd];
      [| apply Hgo; by eapply kept_refused].
    destruct (kept_update r r' t (fd_index fd) _ (mkFileSlot None (advance_file_generation g))
      (fd_index fd :: ft_free t) Hu Hsl) as [Hm Hc].
    split; [exact Hm |]. exists (drop_entry e). split; [intros Hx; by destruct (Hx fd) |].
    unfold conserves in Hc. cbn [snd ft_close ft_closed slot_drop fl_entry] in Hc.
    change (owned_fds (ft_close ?a ?b)) with (owned_fds a) in Hc.
    rewrite <- app_assoc in Hc. rewrite (Permutation_app_comm (drop_entry e)) in Hc. exact Hc.
  - unfold unit_reply, replace_registered_fixed_fd. intros [= <- _]. apply Hgo.
    destruct (negb _); [apply kept_refl |].
    destruct (slot_at t (fd_index fd)) as [[en g] |] eqn:Hsl; [| apply kept_refl].
    destruct (negb _); [apply kept_refl |]. cbn [fl_entry]. destruct en as [old |]; [| apply kept_refl].
    destruct (register_files_update r (fd_index fd) (as_fd raw)) as [r' [[] | er]] eqn:Hu; cbn [fst snd];
      [| by eapply kept_refused].
    exact (kept_update r r' t (fd_index fd) _
      (mkFileSlot (Some (BorrowedFd (as_fd raw) (handle_kind raw))) _) (ft_free t) Hu Hsl).
Qed.

(** The descriptor whose place a call rewrote. *)
Definition rewrites (op : file_op) (x : result (list IoFd) Report) : option IoFd :=
  match op, x with OpClose fd, Ok _ | OpUnregister fd, Ok _ | OpReplace fd _, Ok _ => Some fd | _, _ => None end.

Lemma exec_rewrites r t op s' x fd e P : file_exec ops_capacity (r, t) op = Ret (s', x) -> rewrites op x = Some fd ->
  ft_initialized t = true -> 0 <= fd_index fd -> slot_at t (fd_index fd) = Some (mkFileSlot (Some e) (fd_generation fd)) ->
  mirrors P (r, t) -> mirrors (fun k => P k /\ k <> Z.to_nat (fd_index fd)) s'.
Proof.
  intros He Hop Hini Hi Hsl Hm. pose proof (slot_at_index _ _ _ Hsl Hi) as Hlt.
  destruct op as [files | fd' | fd' | fd' raw]; destruct x as [l | er]; try done; injection Hop as ->; cbn [file_exec] in He;
    unfold unit_reply, unregister_fixed_fd, unregister_file_slot, unregister_close_owned_fd, replace_registered_fixed_fd in He;
    rewrite Hini, Hsl in He; cbn [negb fl_generation fl_entry] in He; rewrite Z.eqb_refl in He; cbn [negb] in He;
    rewrite ?(proj2 (Z.leb_gt _ _) Hlt) in He;
    destruct (register_files_update r (fd_index fd) _) as [r' [[] | er]] eqn:Hu; cbn [fst snd] in He; try done; injection He as <- _.
  - exact (mirrors_update P r r' t (fd_index fd) (mkFileSlot None _) Hu Hm).
  - exact (mirrors_update P r r' t (fd_index fd) (mkFileSlot None _) Hu Hm).
  - exact (mirrors_update P r r' t (fd_index fd) (mkFileSlot (Some (BorrowedFd (as_fd raw) (handle_kind raw))) _) Hu Hm).
Qed.

(** *** Close operations

    Between the calls the kernel runs the close operations that were submitted,
    each of which empties the place of a descriptor. *)
Definition empty_places (fds : list IoFd) (files : list Z) : list Z :=
  foldr (fun fd files => <[Z.to_nat (fd_index fd) := -1]> files) files fds.

(** The ring is used as the driver uses it: all that happens to the kernel's table
    is that places of descriptors are emptied that resolve at that time. *)
Fixpoint ring_used s (steps : list ((Ring -> Ring) * file_op)) (closed : list (list IoFd)) : Prop :=
  match steps, closed with
  | [], [] => True
  | (f, op) :: steps, fds :: closed =>
      (forall r, kernel_files (f r) = empty_places fds (kernel_files r)) /\
      Forall (fun fd => 0 <= fd_index fd /\ resolve_registered_fixed_fd (ft_slots s.2) fd None = Ok (fd_index fd)) fds /\
      match file_exec ops_capacity (f s.1, s.2) op with Ret (s, _) => ring_used s steps closed | Fault _ => False end
  | _, _ => False
  end.

(** The descriptors whose place the kernel emptied and no call rewrote since. *)
Definition settle (E : list IoFd) op (x : result (list IoFd) Report) : list IoFd :=
  match rewrites op x with Some fd => filter (fun fd' => fd' <> fd) E | None => E end.
Fixpoint unsettled (E : list IoFd) (steps : list ((Ring -> Ring) * file_op)) (closed : list (list IoFd))
    (xs : list (result (list IoFd) Report)) : list IoFd :=
  match steps, closed, xs with
  | (_, op) :: steps, fds :: closed, x :: xs => unsettled (settle (fds ++ E) op x) steps closed xs
  | _, _, _ => E
  end.

Definition place_of_some (E : list IoFd) (k : nat) : Prop := exists fd, fd ∈ E /\ Z.to_nat (fd_index fd) = k.
Definition all_live D (E : list IoFd) : Prop := forall fd, fd ∈ E -> is_Some (ds_live D !! fd).

Lemma empty_places_length fds files : length (empty_places fds files) = length files.
Proof. induction fds as [| fd fds IH]; [done |]. cbn. by rewrite length_insert. Qed.

Lemma empty_places_lookup fds files k v : files !! k = Some v ->
  empty_places fds files !! k = Some v \/ empty_places fds files !! k = Some (-1) /\ place_of_some fds k.
Proof.
  intros Hk. induction fds as [| fd fds IH]; [by left |]. cbn. destruct (decide (Z.to_nat (fd_index fd) = k)) as [He | Hne].
  - right. split; [| exists fd; split; [left | done]]. rewrite <- He. apply list_lookup_insert_eq.
    pose proof (empty_places_length fds files) as Hl. unfold empty_places in Hl. rewrite Hl, He. by eapply lookup_lt_Some.
  - rewrite list_lookup_insert_ne by done. destruct IH as [? | [? (fd' & Hin & ?)]]; [by left |].
    right. split; [done |]. exists fd'. split; [by right | done].
Qed.

(** What the kernel does between two calls. *)
Lemma mirrors_used r r' t fds E : kernel_files r' = empty_places fds (kernel_files r) ->
  mirrors (place_of_some E) (r, t) -> mirrors (place_of_some (fds ++ E)) (r', t).
Proof.
  intros Hf Hm Hi. destruct (Hm Hi) as [Hl Ha]. cbn [fst snd] in *. rewrite Hf, empty_places_length. split; [done |].
  assert (Hout : forall k, place_of_some E k -> place_of_some (fds ++ E) k) by (intros k (fd & ? & ?); exists fd; split; [apply elem_of_app; by right | done]).
  assert (Hin : forall k, place_of_some fds k -> place_of_some (fds ++ E) k) by (intros k (fd & ? & ?); exists fd; split; [apply elem_of_app; by left | done]).
  intros k sl Hk. destruct (Ha k sl Hk) as [Hv | [Hv Hp]]; destruct (empty_places_lookup fds _ k _ Hv) as [? | [? ?]]; auto.
Qed.

(** Live descriptors have places of their own. *)
Lemma live_place n t D fd fd' : table_sim n t D -> is_Some (ds_live D !! fd) -> is_Some (ds_live D !! fd') ->
  Z.to_nat (fd_index fd) = Z.to_nat (fd_index fd') -> fd = fd'.
Proof.
  intros Hs [e He] [e' He'] Hk. apply (ts_live _ _ _ Hs) in He as [A0 A1], He' as [A0' A1'].
  assert (E : fd_index fd = fd_index fd') by lia. rewrite <- E, A1 in A1'. injection A1' as _ E2. destruct fd, fd'. cbn in *. by subst.
Qed.

(** A descriptor that stays in the list stays live. *)
Lemma settle_live D op x D' E : desc_step D op x D' -> all_live D E -> all_live D' (settle E op x).
Proof.
  intros Hd Ha fd Hin.
  assert (HE : fd ∈ E) by (unfold settle in Hin; destruct (rewrites op x); [by apply list_elem_of_filter in Hin as [_ ?] | done]).
  destruct (Ha fd HE) as [e He]. unfold settle in Hin.
  destruct Hd as [L R files fds _ _ Hfresh | L L' R files e' Hsub _ | D fd0 | D fd0 | L R fd0 raw _ | D op e' _]; cbn [rewrites] in Hin.
  - cbn in *. apply lookup_union_is_Some. right. by exists e.
  - exists e. cbn in *. by eapply lookup_weaken.
  - apply list_elem_of_filter in Hin as [Hne _]. exists e. unfold retire. destruct (ds_live D !! fd0); [cbn; by rewrite lookup_delete_ne | done].
  - apply list_elem_of_filter in Hin as [Hne _]. exists e. unfold retire. destruct (ds_live D !! fd0); [cbn; by rewrite lookup_delete_ne | done].
  - apply list_elem_of_filter in Hin as [Hne _]. exists e. cbn in *. by rewrite lookup_insert_ne.
  - by exists e.
Qed.

(** One call. *)
Lemma exec_mirrors n r t D op s' x D' E : table_sim n t D -> file_exec ops_capacity (r, t) op = Ret (s', x) ->
  desc_step D op x D' -> all_live D E -> mirrors (place_of_some E) (r, t) ->
  mirrors (place_of_some (settle E op x)) s'.
Proof.
  intros Hs He Hd Ha Hm. destruct (exec_kept (r, t) op s' x (ts_inv _ _ _ Hs) He) as [Hk _]. unfold settle.
  destruct (rewrites op x) as [fd |] eqn:Hop; [| by apply Hk].
  destruct (decide (fd ∈ E)) as [Hin | Hnin].
  - destruct (Ha fd Hin) as [e Hl]. pose proof (proj1 (ts_live _ _ _ Hs fd e) Hl) as [A0 Hsl].
    assert (Hini : ft_initialized t = true).
    { destruct (ft_initialized t) eqn:Hi; [done |]. rewrite (not_live_uninitialized _ _ _ fd Hs Hi) in Hl. done. }
    eapply mirrors_mono; [| by eapply exec_rewrites]. cbn. intros k [(fd' & Hin' & <-) Hne]. exists fd'. split; [| done].
    apply list_elem_of_filter. split; [by intros -> | done].
  - eapply mirrors_mono; [| by apply Hk]. intros k (fd' & Hin' & <-). exists fd'. split; [| done].
    apply list_elem_of_filter. split; [by intros -> | done].
Qed.

Lemma resolves_live n t D fd : table_sim n t D -> 0 <= fd_index fd ->
  resolve_registered_fixed_fd (ft_slots t) fd None = Ok (fd_index fd) -> is_Some (ds_live D !! fd).
Proof.
  intros Hs Hi. unfold resolve_registered_fixed_fd. fold (slot_at t (fd_index fd)). destruct (slot_at t (fd_index fd)) as [[en g] |] eqn:Hsl; [| done].
  rewrite (not_live _ _ _ _ _ Hs Hi Hsl). cbn [fl_generation fl_entry]. destruct (g =? fd_generation fd); [| done]. by destruct en.
Qed.

Lemma run_kept steps : forall closed s xs n s0 D E, table_sim n s0.2 D -> 0 <= n -> n + Z.of_nat (length steps) <= 2 ^ 64 - 2 ->
  Forall (fun st => op_ok st.2) steps -> ring_used s0 steps closed -> all_live D E -> mirrors (place_of_some E) s0 ->
  file_run ops_capacity s0 steps = Ret (s, xs) ->
  mirrors (place_of_some (unsettled E steps closed xs)) s /\
  exists released, (Forall (fun st => forall fd, st.2 <> OpClose fd) steps -> released = []) /\
    ft_closed s.2 ++ owned_fds s.2 ++ released ≡ₚ ft_closed s0.2 ++ owned_fds s0.2 ++ ((snd <$> steps) ≫= given_fds).
Proof.
  induction steps as [| [f op] steps IH]; intros closed s xs n s0 D E Hs A1 Hn Hok Hring Hlive Hm Hrun.
  { injection Hrun as <- <-. split; [by destruct closed |]. exists []. by split. }
  destruct closed as [| fds closed]; [done |]. cbn [ring_used] in Hring. destruct Hring as (Hf & Hfds & Hring).
  apply Forall_cons in Hok as [Ho Hok]. cbn [length file_run fst snd] in *.
  destruct (exec_sim ops_capacity n (f s0.1, s0.2) D op Hs ltac:(lia) Ho) as (s1 & x & D1 & He & Hs1 & Hd).
  rewrite He in Hring. rewrite He, bind_ret in Hrun. apply bind_Ret_inv in Hrun as ([s2 ys] & Hrun & [= <- <-]).
  destruct (exec_kept (f s0.1, s0.2) op s1 x (ts_inv _ _ _ Hs) He) as (_ & rel1 & Hr1 & Hc1).
  assert (Hlive1 : all_live D (fds ++ E)).
  { intros fd [Hin | Hin]%elem_of_app; [| by apply Hlive]. rewrite Forall_forall in Hfds. destruct (Hfds fd Hin). by eapply resolves_live. }
  assert (Hm1 : mirrors (place_of_some (settle (fds ++ E) op x)) s1).
  { eapply (exec_mirrors n (f s0.1) s0.2 D op s1 x D1); [done | done | done | done |]. by apply (mirrors_used s0.1); [apply Hf | destruct s0]. }
  destruct (IH closed s2 ys (n + 1) s1 D1 _ Hs1 ltac:(lia) ltac:(lia) Hok Hring (settle_live _ _ _ _ _ Hd Hlive1) Hm1 Hrun) as (Hm2 & rel2 & Hr2 & Hc2).
  split; [exact Hm2 |]. exists (rel2 ++ rel1). split.
  - intros [Hh Ht]%Forall_cons. by rewrite Hr2, Hr1.
  - transitivity ((ft_closed s2.2 ++ owned_fds s2.2 ++ rel2) ++ rel1); [by rewrite <- !app_assoc |].
    rewrite Hc2. transitivity ((ft_closed s1.2 ++ owned_fds s1.2 ++ rel1) ++ (steps.*2 ≫= given_fds)).
    { rewrite <- !app_assoc. by rewrite (Permutation_app_comm rel1). }
    rewrite Hc1. cbn. by rewrite <- !app_assoc.
Qed.

(** C13 The kernel's table of files mirrors the backend's.  Its places are rewritten
    by the calls, whichever updates the kernel refuses, and emptied by the close
    operations that the kernel runs in between, each for a descriptor that is
    registered at that time.  Place by place it holds the file of the backend's entry, or it is empty because the
    kernel ran a close for the descriptor of that place and no call has removed or
    replaced that descriptor since; when every such close was followed by its
    call, the tables are equal.  And every owned handle that was given to a
    registration is closed exactly once, or is in the table, or was in an entry
    that the call for a completed close took out, which closes nothing. *)
Theorem file_table_mirrors_kernel r steps closed s xs (Hlen : Z.of_nat (length steps) <= 2 ^ 64 - 2)
    (Hok : Forall (fun st => op_ok st.2) steps) (Hring : ring_used (r, file_table_empty) steps closed)
    (Hrun : file_run ops_capacity (r, file_table_empty) steps = Ret (s, xs)) :
  (ft_initialized s.2 = true ->
     length (kernel_files s.1) = length (ft_slots s.2) /\
     (forall k sl, ft_slots s.2 !! k = Some sl -> kernel_files s.1 !! k = Some (slot_fd sl) \/
        kernel_files s.1 !! k = Some (-1) /\ exists fd, fd ∈ unsettled [] steps closed xs /\ Z.to_nat (fd_index fd) = k) /\
     (unsettled [] steps closed xs = [] -> kernel_files s.1 = slot_fd <$> ft_slots s.2)) /\
  exists released, (Forall (fun st => forall fd, st.2 <> OpClose fd) steps -> released = []) /\
    ft_closed s.2 ++ owned_fds s.2 ++ released ≡ₚ (snd <$> steps) ≫= given_fds.
Proof.
  destruct (run_kept steps closed s xs 0 (r, file_table_empty) _ [] table_sim_empty ltac:(lia) Hlen Hok Hring) as [Hm Hx]; [by intros fd ?%elem_of_nil | done | done |].
  split; [| exact Hx]. intros Hi. destruct (Hm Hi) as [Hl Ha]. split; [exact Hl |]. split; [exact Ha |]. intros HE.
  apply list_eq_same_length with (length (ft_slots s.2)); [by rewrite length_fmap | done |]. intros k v w _ Hv Hw.
  apply list_lookup_fmap_Some in Hw as (sl & -> & Hsl). destruct (Ha k sl Hsl) as [Hv' | [_ (fd & Hin & _)]]; [congruence |].
  rewrite HE in Hin. by apply elem_of_nil in Hin.
Qed.
End mirror.

(** ** A run on the small kernel *)

Definition file_demo : list ((demo_ring -> demo_ring) * file_op) :=
  [(fun r => r, OpRegister [Owned (RawFile 10); Borrowed (RawSocket 11)]);
   (fun r => r, OpUnregister (mkIoFd 0 1));
   (fun r => demo_at r 5, OpRegister [Owned (RawFile 12); Owned (RawFile 13)]);
   (fun r => r, OpRegister [Owned (RawFile 14)]);
   (fun r => r, OpReplace (mkIoFd 1 1) (RawSocket 15))].

(** The sixth request, for the second file of the third call, is refused. *)
Definition file_demo_start : demo_ring := demo_start 4 [false; false; false; false; false; true].

Lemma file_demo_ok : Forall (fun st => op_ok st.2) file_demo.
Proof. repeat constructor; cbn; lia. Qed.

Definition file_demo_result : demo_ring * FileTable * list (result (list IoFd) Report) :=
  match file_run 3 (file_demo_start, file_table_empty) file_demo with
  | Ret x => x
  | Fault _ => (file_demo_start, file_table_empty, [])
  end.

Lemma file_table_refines_descriptors_witness :
  exists s D, file_run 3 (file_demo_start, file_table_empty) file_demo = Ret (s, file_demo_result.2) /\
    desc_run (mkDescriptors ∅ ∅) (snd <$> file_demo) file_demo_result.2 D /\
    file_demo_result.2 = [Ok [mkIoFd 0 1; mkIoFd 1 1]; Ok []; Err (mkReport Registration (Some 12)); Ok [mkIoFd 0 2]; Ok []] /\
    resolve_registered_fixed_fd (ft_slots s.2) (mkIoFd 0 1) None = Err (to_report ResolveFd).
Proof.
  destruct (@file_table_refines_descriptors demo_uring 3 file_demo_start file_demo ltac:(vm_compute; discriminate) file_demo_ok)
    as (s & xs & D & He & Hd & _).
  assert (Hx : file_run 3 (file_demo_start, file_table_empty) file_demo = Ret file_demo_result) by (vm_compute; reflexivity).
  pose proof (eq_trans (eq_sym He) Hx) as E.
  apply (f_equal (fun o => match o with Ret y => y | Fault _ => file_demo_result end)) in E. exists s, D.
  assert (Hxs : xs = file_demo_result.2) by (by rewrite <- E). rewrite <- Hxs.
  split_and!; [exact He | exact Hd | rewrite Hxs; vm_compute; reflexivity |].
  replace s with file_demo_result.1 by (by rewrite <- E). vm_compute. reflexivity.
Defined.

(** The kernel runs a close for the first of two owned files while the second is
    removed; then the completion of the close is processed. *)
Definition demo_close (fds : list IoFd) (r : demo_ring) : demo_ring :=
  mkDemoRing (dr_capacity r) (dr_sq r) (dr_kernel r) (dr_cq r) (empty_places fds (dr_files r)) (dr_refusals r) (dr_now r).
Definition close_demo : list ((demo_ring -> demo_ring) * file_op) :=
  [(fun r => r, OpRegister [Owned (RawFile 10); Owned (RawFile 11)]);
   (demo_close [mkIoFd 0 1], OpUnregister (mkIoFd 1 1));
   (fun r => r, OpClose (mkIoFd 0 1))].
Definition close_demo_closed : list (list IoFd) := [[]; [mkIoFd 0 1]; []].

Lemma close_demo_ok : Forall (fun st => op_ok st.2) close_demo.
Proof. repeat constructor; cbn; lia. Qed.

Lemma close_demo_used : ring_used 3 (demo_start 4 [], file_table_empty) close_demo close_demo_closed.
Proof.
  split; [done |]. split; [constructor |].
  split; [done |]. split; [apply Forall_singleton; split; [done | vm_compute; reflexivity] |].
  split; [done |]. by split; [constructor |].
Qed.

Definition close_demo_run (n : nat) : demo_ring * FileTable * list (result (list IoFd) Report) :=
  match file_run 3 (demo_start 4 [], file_table_empty) (take n close_demo) with
  | Ret x => x
  | Fault _ => (demo_start 4 [], file_table_empty, [])
  end.

Lemma close_demo_before : kernel_files (close_demo_run 2).1.1 = [-1; -1; -1] /\ slot_fd <$> ft_slots (close_demo_run 2).1.2 = [10; -1; -1].
Proof. by vm_compute. Qed.

Lemma file_table_mirrors_kernel_witness :
  kernel_files (close_demo_run 3).1.1 = slot_fd <$> ft_slots (close_demo_run 3).1.2 /\
  ft_closed (close_demo_run 3).1.2 = [11] /\ owned_fds (close_demo_run 3).1.2 = [] /\
  exists released, ft_closed (close_demo_run 3).1.2 ++ owned_fds (close_demo_run 3).1.2 ++ released ≡ₚ [10; 11].
Proof.
  assert (Hx : file_run 3 (demo_start 4 [], file_table_empty) close_demo = Ret ((close_demo_run 3).1, (close_demo_run 3).2))
    by (vm_compute; reflexivity).
  destruct (@file_table_mirrors_kernel demo_uring demo_file_laws 3 (demo_start 4 []) close_demo close_demo_closed _ _
    ltac:(vm_compute; discriminate) close_demo_ok close_demo_used Hx) as (Hm & rel & _ & Hc).
  destruct Hm as (_ & _ & Hm); [vm_compute; reflexivity |].
  split_and!; [apply Hm; vm_compute; reflexivity | vm_compute; reflexivity | vm_compute; reflexivity | by exists rel].
Defined.
