(* ===== verification/UringNet.v ===== *)
(** * veloq-driver-uring: sockets and their addresses ([net.rs])

    Addresses as the bytes of a [sockaddr_storage] on a little-endian 64-bit
    Linux, the decoder that reads what the kernel wrote, and the calls of
    [Socket] on the C library ([LibcSockets]). *)

From stdpp Require Import strings.
From S2P Require Import Prelude UringBase.

(** ** Bytes *)

Fixpoint le_bytes (n : nat) (x : Z) : list Z :=
  match n with O => [] | S n => x mod 256 :: le_bytes n (x / 256) end.
Fixpoint le_num (l : list Z) : Z :=
  match l with [] => 0 | b :: l => b + 256 * le_num l end.

(** [to_be] and [from_be] of an unsigned integer of [n] bytes. *)
Definition swap_bytes (n : nat) (x : Z) : Z := le_num (reverse (le_bytes n x)).

(** ** Addresses ([std::net]) *)

(** The octets of an address in order; port, flow information and scope. *)
Inductive SocketAddr : Type :=
  | V4 (ip : list Z) (port : Z)
  | V6 (ip : list Z) (port flowinfo scope_id : Z).
#[global] Instance socket_addr_eq_dec : EqDecision SocketAddr.
Proof. solve_decision. Defined.

Definition octets (n : nat) (l : list Z) : Prop := length l = n /\ Forall (fun b => 0 <= b < 256) l.
Definition addr_wf (a : SocketAddr) : Prop :=
  match a with
  | V4 ip port => octets 4 ip /\ 0 <= port < 2 ^ 16
  | V6 ip port flow scope => octets 16 ip /\ 0 <= port < 2 ^ 16 /\ 0 <= flow < 2 ^ 32 /\ 0 <= scope < 2 ^ 32
  end.

Definition AF_INET : Z := 2.
Definition AF_INET6 : Z := 10.
Definition SOCKADDR_STORAGE_SIZE : nat := 128.
Definition SOCKADDR_IN_SIZE : nat := 16.
Definition SOCKADDR_IN6_SIZE : nat := 28.
Definition SA_FAMILY_SIZE : nat := 2.

(** [SockAddrStorage]; [default] is zeroed. *)
Definition SockAddrStorage : Type := list Z.
Definition sock_addr_default : SockAddrStorage := replicate SOCKADDR_STORAGE_SIZE 0.

(** A field is written at its place. *)
Definition write_at (storage : list Z) (at_ : nat) (bytes : list Z) : list Z :=
  take at_ storage ++ bytes ++ drop (at_ + length bytes) storage.

Definition socket_addr_to_storage (addr : SocketAddr) : SockAddrStorage * Z :=
  let storage := sock_addr_default in
  match addr with
  | V4 ip port =>
      let storage := write_at storage 0 (le_bytes 2 AF_INET) in
      let storage := write_at storage 2 (le_bytes 2 (swap_bytes 2 port)) in
      let storage := write_at storage 4 (le_bytes 4 (le_num ip)) in
      (storage, Z.of_nat SOCKADDR_IN_SIZE)
  | V6 ip port flowinfo scope_id =>
      let storage := write_at storage 0 (le_bytes 2 AF_INET6) in
      let storage := write_at storage 2 (le_bytes 2 (swap_bytes 2 port)) in
      let storage := write_at storage 8 ip in
      let storage := write_at storage 4 (le_bytes 4 flowinfo) in
      let storage := write_at storage 24 (le_bytes 4 scope_id) in
      (storage, Z.of_nat SOCKADDR_IN6_SIZE)
  end.

(** [n] bytes from a place on. *)
Definition read_at (buf : list Z) (at_ n : nat) : list Z := take n (drop at_ buf).

Definition to_socket_addr (buf : list Z) : result SocketAddr Report :=
  if (length buf <? SA_FAMILY_SIZE)%nat then Err (to_report InvalidInput) else
  let family := le_num (read_at buf 0 2) in
  if family =? AF_INET then
    if (length buf <? SOCKADDR_IN_SIZE)%nat then Err (to_report InvalidInput) else
    let ip := reverse (le_bytes 4 (swap_bytes 4 (le_num (read_at buf 4 4)))) in
    Ok (V4 ip (swap_bytes 2 (le_num (read_at buf 2 2))))
  else if family =? AF_INET6 then
    if (length buf <? SOCKADDR_IN6_SIZE)%nat then Err (to_report InvalidInput) else
    Ok (V6 (read_at buf 8 16) (swap_bytes 2 (le_num (read_at buf 2 2))) (le_num (read_at buf 4 4)) (le_num (read_at buf 24 4)))
  else Err (to_report InvalidInput).

(** ** Sockets *)

(** The C library, with what it changes; the error is [errno]. *)
Class LibcSockets : Type := {
  Sys : Type;
  libc_socket : Sys -> Z -> Z -> Sys * result Z IoError;                (* domain, type *)
  libc_setsockopt : Sys -> Z -> Z -> Z -> Z -> Sys * result unit IoError;   (* fd, level, name, value *)
  libc_bind : Sys -> Z -> list Z -> Z -> Sys * result unit IoError;      (* fd, storage, length *)
  libc_connect : Sys -> Z -> list Z -> Z -> Sys * result unit IoError;
  libc_listen : Sys -> Z -> Z -> Sys * result unit IoError;
  libc_getsockname : Sys -> Z -> Sys * result (list Z * Z) IoError      (* the storage and the length *)
}.

Section socket.
Context `{LibcSockets}.
Implicit Types (s : Sys) (fd : Z).

Definition SOCK_STREAM : Z := 1.
Definition SOCK_DGRAM : Z := 2.
Definition SOCK_CLOEXEC : Z := 524288.
Definition SOCK_NONBLOCK : Z := 2048.

(** [size as c_int] *)
Definition c_int (x : Z) : Z := let w := wrap 32 x in if w <? 2 ^ 31 then w else w - 2 ^ 32.
Definition c_bool (b : bool) : Z := if b then 1 else 0.

(** The call failed, and [errno] says why. *)
Definition sys_result {X Y} (r : Sys * result X IoError) (f : X -> result Y Report) : Sys * result Y Report :=
  match r with (s, Ok x) => (s, f x) | (s, Err e) => (s, Err (io_report Socket e)) end.

Definition socket_new (domain ty : Z) s : Sys * result UringRawHandle Report :=
  sys_result (libc_socket s domain ty) (fun fd => Ok (RawSocket fd)).
Definition new_v4 (ty : Z) := socket_new AF_INET ty.
Definition new_v6 (ty : Z) := socket_new AF_INET6 ty.
Definition socket_flags : Z := Z.lor SOCK_CLOEXEC SOCK_NONBLOCK.
Definition new_tcp_v4 := new_v4 (Z.lor SOCK_STREAM socket_flags).
Definition new_tcp_v6 := new_v6 (Z.lor SOCK_STREAM socket_flags).
Definition new_udp_v4 := new_v4 (Z.lor SOCK_DGRAM socket_flags).
Definition new_udp_v6 := new_v6 (Z.lor SOCK_DGRAM socket_flags).

Definition setsockopt (sock : UringRawHandle) (level name value : Z) s : Sys * result unit Report :=
  sys_result (libc_setsockopt s (as_fd sock) level name value) Ok.

Definition socket_bind (sock : UringRawHandle) (addr : SocketAddr) s : Sys * result unit Report :=
  let (raw_addr, raw_addr_len) := socket_addr_to_storage addr in
  sys_result (libc_bind s (as_fd sock) raw_addr raw_addr_len) Ok.
Definition socket_connect (sock : UringRawHandle) (addr : SocketAddr) s : Sys * result unit Report :=
  let (raw_addr, raw_addr_len) := socket_addr_to_storage addr in
  sys_result (libc_connect s (as_fd sock) raw_addr raw_addr_len) Ok.
Definition socket_listen (sock : UringRawHandle) (backlog : Z) s : Sys * result unit Report :=
  sys_result (libc_listen s (as_fd sock) backlog) Ok.

(** The bytes up to the length that the C library reports. *)
Definition local_addr (sock : UringRawHandle) s : Sys * result SocketAddr Report :=
  sys_result (libc_getsockname s (as_fd sock)) (fun r => to_socket_addr (take (Z.to_nat r.2) r.1)).

Definition IPPROTO_IP : Z := 0.
Definition IPPROTO_TCP : Z := 6.
Definition SOL_SOCKET : Z := 1.
Definition set_nodelay sock (on : bool) := setsockopt sock IPPROTO_TCP 1 (c_bool on).
Definition set_recv_buffer_size sock (size : Z) := setsockopt sock SOL_SOCKET 8 (c_int size).
Definition set_send_buffer_size sock (size : Z) := setsockopt sock SOL_SOCKET 7 (c_int size).
Definition set_reuse_address sock (on : bool) := setsockopt sock SOL_SOCKET 2 (c_bool on).
Definition set_keepalive sock (on : bool) := setsockopt sock SOL_SOCKET 9 (c_bool on).
Definition set_ttl sock (ttl : Z) := setsockopt sock IPPROTO_IP 2 (c_int ttl).
Definition set_broadcast sock (on : bool) := setsockopt sock SOL_SOCKET 6 (c_bool on).
End socket.

(** ** Bytes and numbers determine each other *)

Lemma le_bytes_length n : forall x, length (le_bytes n x) = n.
Proof. induction n as [| n IH]; intros x; cbn; [done | by rewrite IH]. Qed.

Lemma le_num_bytes n : forall x, 0 <= x < 256 ^ Z.of_nat n -> le_num (le_bytes n x) = x.
Proof.
  induction n as [| n IH]; intros x Hx; cbn [le_bytes le_num]; [cbn in Hx; lia |].
  rewrite Nat2Z.inj_succ, Z.pow_succ_r in Hx by lia. rewrite IH; [pose proof (Z.div_mod x 256); lia |].
  split; [apply Z.div_pos; lia | apply Z.div_lt_upper_bound; lia].
Qed.

Lemma le_num_range l : Forall (fun b => 0 <= b < 256) l -> 0 <= le_num l < 256 ^ Z.of_nat (length l).
Proof.
  induction 1 as [| b l Hb _ IH]; cbn [le_num length]; [cbn; lia |]. rewrite Nat2Z.inj_succ, Z.pow_succ_r by lia. nia.
Qed.

Lemma le_bytes_num l : Forall (fun b => 0 <= b < 256) l -> le_bytes (length l) (le_num l) = l.
Proof.
  induction 1 as [| b l Hb _ IH]; cbn [le_num length le_bytes]; [done |]. f_equal.
  - rewrite Z.mul_comm, Z.mod_add by lia. by apply Z.mod_small.
  - rewrite Z.mul_comm, Z.div_add by lia. rewrite (Z.div_small b) by done. exact IH.
Qed.

Lemma le_bytes_octets n : forall x, Forall (fun b => 0 <= b < 256) (le_bytes n x).
Proof. induction n as [| n IH]; intros x; cbn; constructor; [apply Z.mod_pos_bound; lia | apply IH]. Qed.

Lemma swap_twice n x : 0 <= x < 256 ^ Z.of_nat n -> swap_bytes n (swap_bytes n x) = x.
Proof.
  intros Hx. unfold swap_bytes. set (l := reverse (le_bytes n x)).
  assert (Hl : length l = n) by (unfold l; by rewrite length_reverse, le_bytes_length).
  assert (Ho : Forall (fun b => 0 <= b < 256) l) by (apply Forall_reverse, le_bytes_octets).
  assert (E : le_bytes n (le_num l) = l) by (rewrite <- Hl; by apply le_bytes_num).
  rewrite E. unfold l. rewrite reverse_involutive. by apply le_num_bytes.
Qed.

Lemma swap_range n x : 0 <= swap_bytes n x < 256 ^ Z.of_nat n.
Proof.
  unfold swap_bytes. pose proof (le_num_range (reverse (le_bytes n x))) as Hr.
  rewrite length_reverse, le_bytes_length in Hr. apply Hr, Forall_reverse, le_bytes_octets.
Qed.

(** The octets of an IPv4 address through the number and back. *)
Lemma ip_octets ip : octets 4 ip -> reverse (le_bytes 4 (swap_bytes 4 (le_num ip))) = ip.
Proof.
  intros [Hl Ho]. unfold swap_bytes. assert (E : le_bytes 4 (le_num ip) = ip) by (rewrite <- Hl; by apply le_bytes_num). rewrite E.
  assert (E' : le_bytes 4 (le_num (reverse ip)) = reverse ip).
  { rewrite <- Hl, <- (length_reverse ip). by apply le_bytes_num, Forall_reverse. }
  rewrite E'. apply reverse_involutive.
Qed.

(** ** Fields *)

Lemma write_length storage at_ bytes : (at_ + length bytes <= length storage)%nat ->
  length (write_at storage at_ bytes) = length storage.
Proof. intros Hl. unfold write_at. rewrite !length_app, length_take, length_drop. lia. Qed.

Lemma read_written storage at_ bytes : (at_ + length bytes <= length storage)%nat ->
  read_at (write_at storage at_ bytes) at_ (length bytes) = bytes.
Proof.
  intros Hl. unfold read_at, write_at. rewrite drop_app_length' by (rewrite length_take; lia). by apply take_app_length.
Qed.

(** Another field is read as before. *)
Lemma read_other storage at_ bytes at' n : (at_ + length bytes <= length storage)%nat ->
  (at' + n <= at_ \/ at_ + length bytes <= at')%nat -> read_at (write_at storage at_ bytes) at' n = read_at storage at' n.
Proof.
  intros Hl Hd. apply list_eq. intros i. unfold read_at, write_at.
  destruct (decide (i < n)%nat) as [Hi | Hi]; [| rewrite !lookup_take_ge by lia; done].
  rewrite !lookup_take_lt by done. rewrite !lookup_drop. destruct Hd as [Hd | Hd].
  - rewrite lookup_app_l by (rewrite length_take; lia). by rewrite lookup_take_lt by lia.
  - rewrite lookup_app_r by (rewrite length_take; lia). rewrite length_take, lookup_app_r by lia. rewrite lookup_drop. f_equal. lia.
Qed.

Lemma read_prefix buf len at_ n : (at_ + n <= len)%nat -> read_at (take len buf) at_ n = read_at buf at_ n.
Proof.
  intros Hl. apply list_eq. intros i. unfold read_at. destruct (decide (i < n)%nat) as [Hi | Hi].
  - rewrite !lookup_take_lt by done. rewrite !lookup_drop. by rewrite lookup_take_lt by lia.
  - by rewrite !lookup_take_ge by lia.
Qed.

(** ** The codec *)

Lemma default_length : length sock_addr_default = 128%nat.
Proof. apply length_replicate. Qed.

Lemma decode_v4 buf ip port : (16 <= length buf)%nat -> addr_wf (V4 ip port) -> read_at buf 0 2 = le_bytes 2 AF_INET ->
  read_at buf 2 2 = le_bytes 2 (swap_bytes 2 port) -> read_at buf 4 4 = le_bytes 4 (le_num ip) -> to_socket_addr buf = Ok (V4 ip port).
Proof.
  intros Hl [Hip Hport] Hf Hp Hi. unfold to_socket_addr, SA_FAMILY_SIZE, SOCKADDR_IN_SIZE. rewrite Hf, Hp, Hi.
  destruct (Nat.ltb_spec (length buf) 2); [lia |]. destruct (Nat.ltb_spec (length buf) 16); [lia |].
  assert (Hip' : le_num (le_bytes 4 (le_num ip)) = le_num ip).
  { apply le_num_bytes. destruct Hip as [Hlen Ho]. rewrite <- Hlen. by apply le_num_range. }
  rewrite Hip', (ip_octets ip Hip). rewrite (le_num_bytes 2 (swap_bytes 2 port)) by apply swap_range.
  rewrite swap_twice by exact Hport. done.
Qed.

Lemma decode_v6 buf ip port flow scope : (28 <= length buf)%nat -> addr_wf (V6 ip port flow scope) ->
  read_at buf 0 2 = le_bytes 2 AF_INET6 -> read_at buf 2 2 = le_bytes 2 (swap_bytes 2 port) -> read_at buf 8 16 = ip ->
  read_at buf 4 4 = le_bytes 4 flow -> read_at buf 24 4 = le_bytes 4 scope -> to_socket_addr buf = Ok (V6 ip port flow scope).
Proof.
  intros Hl (Hip & Hport & Hflow & Hscope) Hf Hp Hi Hw Hs. unfold to_socket_addr, SA_FAMILY_SIZE, SOCKADDR_IN_SIZE, SOCKADDR_IN6_SIZE.
  rewrite Hf, Hp, Hi, Hw, Hs.
  destruct (Nat.ltb_spec (length buf) 2); [lia |]. destruct (Nat.ltb_spec (length buf) 28); [lia |].
  rewrite (le_num_bytes 2 (swap_bytes 2 port)) by apply swap_range. rewrite swap_twice by exact Hport.
  rewrite (le_num_bytes 4 flow), (le_num_bytes 4 scope) by done. done.
Qed.

(** Several fields. *)
Definition put (storage : list Z) (f : nat * list Z) : list Z := write_at storage f.1 f.2.
Definition fits (n : nat) (f : nat * list Z) : Prop := (f.1 + length f.2 <= n)%nat.
Definition apart (f g : nat * list Z) : Prop := (f.1 + length f.2 <= g.1 \/ g.1 + length g.2 <= f.1)%nat.

Lemma puts_length l : forall st, Forall (fits (length st)) l -> length (foldl put st l) = length st.
Proof.
  induction l as [| f l IH]; intros st Hf; [done |]. apply Forall_cons in Hf as [Hf Hl]. cbn [foldl].
  assert (E : length (put st f) = length st) by by apply write_length. rewrite IH; by rewrite ?E.
Qed.

Lemma puts_apart l f : forall st, Forall (fits (length st)) l -> Forall (apart f) l ->
  read_at (foldl put st l) f.1 (length f.2) = read_at st f.1 (length f.2).
Proof.
  induction l as [| g l IH]; intros st Hf Ha; [done |]. apply Forall_cons in Hf as [Hg Hl]. apply Forall_cons in Ha as [Hag Hal].
  cbn [foldl]. assert (E : length (put st g) = length st) by by apply write_length.
  rewrite IH by (by rewrite ?E). by apply read_other.
Qed.

Lemma puts_read l1 f l2 st : Forall (fits (length st)) (l1 ++ f :: l2) -> Forall (apart f) l2 ->
  read_at (foldl put st (l1 ++ f :: l2)) f.1 (length f.2) = f.2.
Proof.
  intros [H1 [Hf H2]%Forall_cons]%Forall_app Ha. rewrite foldl_app. cbn [foldl].
  assert (E1 : length (foldl put st l1) = length st) by by apply puts_length.
  assert (E2 : length (put (foldl put st l1) f) = length st) by (rewrite <- E1; apply write_length; by rewrite E1).
  rewrite puts_apart by (by rewrite ?E2). apply read_written. by rewrite E1.
Qed.

Ltac solve_fields Hip := repeat match goal with x := _ |- _ => progress unfold x end; cbn [app];
  repeat first [apply Forall_nil_2 | apply Forall_cons_2]; unfold fits, apart; cbn [fst snd];
  rewrite ?le_bytes_length, ?default_length, ?Hip; lia.
Ltac read_field Hip l1 f l2 := let H := fresh in
  assert (H : read_at (foldl put sock_addr_default (l1 ++ f :: l2)) f.1 (length f.2) = f.2) by
    (apply puts_read; solve_fields Hip);
  change (length f.2) with (length (f.2)) in H; let n := eval hnf in (f.2) in change (length f.2) with (length n) in H; rewrite ?le_bytes_length, ?Hip in H; exact H.

(** The encoding is decoded from any prefix that covers its fields. *)
Lemma storage_decodes (a : SocketAddr) (Ha : addr_wf a) :
  let (storage, len) := socket_addr_to_storage a in
  length storage = SOCKADDR_STORAGE_SIZE /\ 0 < len <= Z.of_nat (length storage) /\
  forall n, len <= n -> to_socket_addr (take (Z.to_nat n) storage) = Ok a.
Proof.
  destruct a as [ip port | ip port flow scope]; pose proof Ha as [[Hip _] _].
  - set (F := (0%nat, le_bytes 2 AF_INET)). set (P := (2%nat, le_bytes 2 (swap_bytes 2 port))).
    set (I := (4%nat, le_bytes 4 (le_num ip))).
    change (socket_addr_to_storage (V4 ip port)) with (foldl put sock_addr_default [F; P; I], 16). set (st := foldl _ _ _).
    assert (Hl : length st = 128%nat) by (unfold st; rewrite puts_length; [apply default_length | solve_fields Hip]).
    assert (HF : read_at st 0 2 = F.2) by read_field Hip (@nil (nat * list Z)) F [P; I].
    assert (HP : read_at st 2 2 = P.2) by read_field Hip [F] P [I].
    assert (HI : read_at st 4 4 = I.2) by read_field Hip [F; P] I (@nil (nat * list Z)).
    split; [exact Hl |]. split; [rewrite Hl; lia |]. intros n Hn.
    apply decode_v4; rewrite ?length_take, ?read_prefix, ?Hl by lia; done || lia.
  - set (F := (0%nat, le_bytes 2 AF_INET6)). set (P := (2%nat, le_bytes 2 (swap_bytes 2 port))).
    set (I := (8%nat, ip)). set (W := (4%nat, le_bytes 4 flow)). set (S := (24%nat, le_bytes 4 scope)).
    change (socket_addr_to_storage (V6 ip port flow scope)) with (foldl put sock_addr_default [F; P; I; W; S], 28). set (st := foldl _ _ _).
    assert (Hl : length st = 128%nat) by (unfold st; rewrite puts_length; [apply default_length | solve_fields Hip]).
    assert (HF : read_at st 0 2 = F.2) by read_field Hip (@nil (nat * list Z)) F [P; I; W; S].
    assert (HP : read_at st 2 2 = P.2) by read_field Hip [F] P [I; W; S].
    assert (HI : read_at st 8 16 = I.2) by read_field Hip [F; P] I [W; S].
    assert (HW : read_at st 4 4 = W.2) by read_field Hip [F; P; I] W [S].
    assert (HS : read_at st 24 4 = S.2) by read_field Hip [F; P; I; W] S (@nil (nat * list Z)).
    split; [exact Hl |]. split; [rewrite Hl; lia |]. intros n Hn.
    apply decode_v6; rewrite ?length_take, ?read_prefix, ?Hl by lia; done || lia.
Qed.

(** An address survives its encoding: the storage has its fixed size, the
    length that goes with it covers the fields of the family, and what the
    kernel gives back of it, the whole storage or that prefix, decodes to the
    address, octet by octet, in network byte order. *)
Theorem socket_addr_roundtrip (a : SocketAddr) (Ha : addr_wf a) :
  let (storage, len) := socket_addr_to_storage a in
  length storage = SOCKADDR_STORAGE_SIZE /\ 0 < len <= Z.of_nat (length storage) /\
  to_socket_addr (take (Z.to_nat len) storage) = Ok a /\ to_socket_addr storage = Ok a.
Proof.
  pose proof (storage_decodes a Ha) as Hd. destruct (socket_addr_to_storage a) as [storage len]. destruct Hd as (Hs & Hl & Hd).
  split_and!; [done | lia | lia | apply Hd; lia |]. rewrite <- (firstn_all storage) at 1. rewrite <- (Nat2Z.id (length storage)). apply Hd; lia.
Qed.

(** The decoder reads only what it was given: a buffer too short for its family,
    or of another family, is refused. *)
Theorem to_socket_addr_refuses (buf : list Z) : to_socket_addr buf = Err (to_report InvalidInput) <->
  (length buf < 2)%nat \/
  match le_num (read_at buf 0 2) with
  | 2 => (length buf < 16)%nat
  | 10 => (length buf < 28)%nat
  | _ => True
  end.
Proof.
  unfold to_socket_addr, SA_FAMILY_SIZE, SOCKADDR_IN_SIZE, SOCKADDR_IN6_SIZE, AF_INET, AF_INET6.
  destruct (Nat.ltb_spec (length buf) 2); [split; [by left | done] |]. generalize (le_num (read_at buf 0 2)). intros f.
  destruct (Z.eqb_spec f 2) as [-> | H2].
  { destruct (Nat.ltb_spec (length buf) 16); (split; [try by auto | first [by intros _ | intros [?|?]; exfalso; lia]]). }
  destruct (Z.eqb_spec f 10) as [-> | H10].
  { destruct (Nat.ltb_spec (length buf) 28); (split; [try by auto | first [by intros _ | intros [?|?]; exfalso; lia]]). }
  split; [| done]. intros _. right. destruct f as [| p | p]; try done. repeat (destruct p as [p | p |]; try done).
Qed.

Definition loopback_v6 : SocketAddr := V6 [0; 0; 0; 0; 0; 0; 0; 0; 0; 0; 0; 0; 0; 0; 0; 1] 8080 7 3.

Lemma socket_addr_roundtrip_witness :
  to_socket_addr (take 28 (socket_addr_to_storage loopback_v6).1) = Ok loopback_v6 /\
  read_at (socket_addr_to_storage (V4 [127; 0; 0; 1] 8080)).1 0 8 = [2; 0; 31; 144; 127; 0; 0; 1].
Proof.
  split; [| reflexivity]. assert (Hw : addr_wf loopback_v6) by (split; [split; [done | repeat (apply Forall_cons_2; [lia |]); apply Forall_nil_2] | lia]).
  exact (proj1 (proj2 (proj2 (socket_addr_roundtrip loopback_v6 Hw)))).
Defined.
