(* ===== verification/UringOp.v ===== *)
(** * veloq-driver-uring: operations and what the slots hold
      ([op.rs], [op/submit.rs], [diagnostics.rs], [driver/lifecycle.rs])

    An operation is a payload for the kernel with a table of functions; the
    driver calls them without knowing which operation it has.  This file binds
    the slots of veloq-driver-core to the backend ([UringSlotSpec]). *)

From stdpp Require Import strings.
From S2P Require Import Prelude BitSet SlotMap WheelConfig Wheel Token SlotState Anomaly SlotTable UringBase FileTable.

(** The operations the driver is used with: their payloads, and how a payload
    that closes a descriptor is recognised ([UringUserPayload::Close]). *)
Class UringPayloads : Type := {
  UringOpPayload : Type;
  UringUserPayload : Type;
  payload_close_fd : UringUserPayload -> option IoFd;
  close_result : Z -> result unit IoError          (* [libc::close] *)
}.

Inductive SubmissionStrategy : Type := SubmitSqe | SoftwareTimer.
#[global] Instance strategy_eq_dec : EqDecision SubmissionStrategy.
Proof. solve_decision. Defined.

(** [CompletionCleanup]: the closure of [completion_cleanup_close_raw_fd]. *)
Inductive UringCleanup : Type := CloseRawFd (fd : Z).

Definition completion_cleanup_close_raw_fd (result : Z) : option UringCleanup :=
  if result <? 0 then None else Some (CloseRawFd result).

Section op.
Context `{IoUring} `{UringPayloads}.

(** The functions are given the operation through its payload; [make_sqe] looks
    at the registered files and chunks of the driver.  [resolve_chunks] returns
    what it writes to the array of four. *)
Record OpVTable : Type := mkVTable {
  vt_make_sqe : UringOpPayload -> UringUserPayload -> list FileSlot -> BitSet -> SubmitTokenContext ->
    UringOpPayload * UringUserPayload * result Entry Report;
  vt_on_complete : UringOpPayload -> UringUserPayload -> Z -> UringOpPayload * UringUserPayload * result Z Report;
  vt_completion_cleanup : UringOpPayload -> Z -> UringOpPayload * option UringCleanup;
  vt_orphan_cleanup : UringOpPayload -> Z -> UringOpPayload * option UringCleanup;
  vt_strategy : SubmissionStrategy;
  vt_get_timeout : UringOpPayload -> UringUserPayload -> option Duration;
  vt_resolve_chunks : UringOpPayload -> UringUserPayload -> list Z
}.

Record UringKernelOp : Type := mkKernelOp { ko_vtable : OpVTable; ko_payload : UringOpPayload }.

Definition completion_cleanup (op : UringKernelOp) (result : Z) : UringKernelOp * option UringCleanup :=
  let (k, g) := vt_completion_cleanup (ko_vtable op) (ko_payload op) result in (mkKernelOp (ko_vtable op) k, g).
Definition orphan_cleanup (op : UringKernelOp) (result : Z) : UringKernelOp * option UringCleanup :=
  let (k, g) := vt_orphan_cleanup (ko_vtable op) (ko_payload op) result in (mkKernelOp (ko_vtable op) k, g).

(** The default bodies of the trait behind the table. *)
Definition on_complete_default (result : Z) : Prelude.result Z Report :=
  if 0 <=? result then Ok result else Err (set_error_code (report CompletionWait) (- result)).
End op.

(** ** Counters of the backend *)

Record UringCompletionDiagnostics : Type := mkUringDiag {
  ug_cancel_submitted : Z; ug_cancel_queued : Z; ug_cancel_local_completed : Z;
  ug_cancel_target_missing : Z; ug_cancel_target_stale : Z; ug_cancel_target_corrupt : Z;
  ug_cancel_ack_ok : Z; ug_cancel_ack_not_found : Z; ug_cancel_ack_error : Z; ug_cancel_ack_enoent_active : Z;
  ug_waker_ok : Z; ug_waker_error : Z; ug_waker_rebuild : Z
}.

Inductive UringCounter : Type :=
  | CancelSubmittedCount | CancelQueuedCount | CancelLocalCompletedCount
  | CancelTargetMissingCount | CancelTargetStaleCount | CancelTargetCorruptCount
  | CancelAckOkCount | CancelAckNotFoundCount | CancelAckErrorCount | CancelAckEnoentActiveCount
  | WakerOkCount | WakerErrorCount | WakerRebuildCount.

(** [inc_cancel_submitted] and so on. *)
Definition uring_inc (c : UringCounter) (d : UringCompletionDiagnostics) : UringCompletionDiagnostics :=
  let 'mkUringDiag a b l m s x o n e v w r u := d in
  match c with
  | CancelSubmittedCount => mkUringDiag (inc a) b l m s x o n e v w r u
  | CancelQueuedCount => mkUringDiag a (inc b) l m s x o n e v w r u
  | CancelLocalCompletedCount => mkUringDiag a b (inc l) m s x o n e v w r u
  | CancelTargetMissingCount => mkUringDiag a b l (inc m) s x o n e v w r u
  | CancelTargetStaleCount => mkUringDiag a b l m (inc s) x o n e v w r u
  | CancelTargetCorruptCount => mkUringDiag a b l m s (inc x) o n e v w r u
  | CancelAckOkCount => mkUringDiag a b l m s x (inc o) n e v w r u
  | CancelAckNotFoundCount => mkUringDiag a b l m s x o (inc n) e v w r u
  | CancelAckErrorCount => mkUringDiag a b l m s x o n (inc e) v w r u
  | CancelAckEnoentActiveCount => mkUringDiag a b l m s x o n e (inc v) w r u
  | WakerOkCount => mkUringDiag a b l m s x o n e v (inc w) r u
  | WakerErrorCount => mkUringDiag a b l m s x o n e v w (inc r) u
  | WakerRebuildCount => mkUringDiag a b l m s x o n e v w r (inc u)
  end.

Definition uring_diagnostics_default : UringCompletionDiagnostics := mkUringDiag 0 0 0 0 0 0 0 0 0 0 0 0 0.

(** ** The backend's part of a slot *)

Inductive UringSubmissionState : Type := UrIdle | UrQueued | UrKernelSubmitted | UrTimer.
#[global] Instance submission_state_eq_dec : EqDecision UringSubmissionState.
Proof. solve_decision. Defined.

(** The keys and the store of the timer wheel, and what the store promises. *)
Class UringTimers : Type := {
  TimerKey : Type;
  timer_key_eq_dec :: EqDecision TimerKey;
  timer_key_countable :: Countable TimerKey;
  TimerMap : Type;
  timer_map :: SlotMap TimerKey (WheelEntry OpToken TimerKey) TimerMap;
  timer_map_spec :: SlotMapSpec TimerKey (WheelEntry OpToken TimerKey) TimerMap
}.

Section spec.
Context `{IoUring} `{UringPayloads} `{UringTimers}.

Record UringOpState : Type := mkOpState { timer_id : option TimerKey; submission_state : UringSubmissionState }.
Definition op_state_new : UringOpState := mkOpState None UrIdle.

#[global] Instance UringSlotSpec : SlotSpec := {
  SOp := UringKernelOp;
  SPayload := UringUserPayload;
  SPlatform := UringOpState;
  platform_default := op_state_new;
  SSidecar := unit;
  sidecar_default := tt;
  SError := Report;
  from_core_report := fun _ => to_report Internal;
  SCompletion := Z;
  SDiagnostics := UringCompletionDiagnostics;
  diagnostics_default := uring_diagnostics_default;
  record_backend_anomaly := fun _ d => (d, false);
  SCleanup := UringCleanup;
  cleanup_result := fun c =>
    match c with
    | CloseRawFd fd =>
        match close_result fd with
        | Ok _ => Ok tt
        | Err _ => Err (SystemReport "uring.op.submit.completion_cleanup_close_raw_fd")
        end
    end
}.
End spec.
