(* ===== verification/UringHooks.v ===== *)
(** * veloq-driver-uring: what becomes of a completion
      ([driver/completion.rs])

    The backend's part of accepting a completion: finishing an operation in its
    slot, and the effects that the driver carries out afterwards.  The counters
    a hook increments are collected in its state and added to the diagnostics
    when the hooks end. *)

From stdpp Require Import strings gmap.
From S2P Require Import Prelude BitSet SlotMap WheelConfig Token SlotState Anomaly SlotTable Completion Registry Flow RegistryInv CompletionSpec DriverSteps DriverSafety DriverApi UringBase FileTable UringOp.

Definition COMP_BACKEND_URING : CompletionBackend := Backend 2.
Definition EAGAIN : Z := 11.
Definition EINTR : Z := 4.
Definition ENOENT : Z := 2.
Definition ECANCELED : Z := 125.
Definition ETIME : Z := 62.

Record PendingCancel : Type := mkPending { pc_target : OpToken; pc_mode : CancelMode }.
#[global] Instance pending_cancel_eq_dec : EqDecision PendingCancel.
Proof. solve_decision. Defined.
Definition pending_cancel_new (r : CancelRequest) : PendingCancel := mkPending (cn_target r) (cn_mode r).

Section hooks.
Context `{IoUring} `{UringPayloads} `{UringTimers}.

(** ** State of the hooks *)

Inductive UringSyntheticCompletion : Type :=
  | SynNone
  | SynCancel (mode : CancelMode)
  | SynSubmissionFailure (r : option Report).

Definition synthetic_cancel_mode (s : UringSyntheticCompletion) : CancelMode :=
  match s with SynCancel mode => mode | SynNone | SynSubmissionFailure _ => UserVisible end.

Definition take_submission_failure (s : UringSyntheticCompletion) : UringSyntheticCompletion * option Report :=
  match s with
  | SynSubmissionFailure r => (SynSubmissionFailure None, r)
  | SynNone | SynCancel _ => (s, None)
  end.

Record UringPostCompletionEffects : Type := mkPost {
  po_rebuild_waker : bool;
  po_resubmit_waker : bool;
  po_flush_backlog : bool;
  po_cancel_enoent : list (CancelCompletionId * PendingCancel * RawCompletion);
  po_close_unregister : list IoFd
}.
Definition post_default : UringPostCompletionEffects := mkPost false false false [] [].

Inductive UringBackendEffect : Type :=
  | EffNone
  | EffWaker (should_rebuild : bool)
  | EffCancelEnoent (cancel_id : CancelCompletionId) (request : PendingCancel) (raw : RawCompletion)
  | EffCloseCompleted (fd : IoFd).

Record UringCompletionHooks : Type := mkHooks {
  uh_counts : list UringCounter;
  uh_pending_cancel_cqes : gmap CancelCompletionId PendingCancel;
  uh_waker_buf_len : Z;
  uh_waker_armed : bool;
  uh_is_waked : bool;
  uh_synthetic : UringSyntheticCompletion;
  uh_post : UringPostCompletionEffects
}.
Implicit Types h : UringCompletionHooks.

Definition uh_count h (c : UringCounter) : UringCompletionHooks :=
  mkHooks (uh_counts h ++ [c]) (uh_pending_cancel_cqes h) (uh_waker_buf_len h) (uh_waker_armed h)
    (uh_is_waked h) (uh_synthetic h) (uh_post h).
Definition uh_set_pending h m : UringCompletionHooks :=
  mkHooks (uh_counts h) m (uh_waker_buf_len h) (uh_waker_armed h) (uh_is_waked h) (uh_synthetic h) (uh_post h).
Definition uh_set_synthetic h s : UringCompletionHooks :=
  mkHooks (uh_counts h) (uh_pending_cancel_cqes h) (uh_waker_buf_len h) (uh_waker_armed h) (uh_is_waked h) s (uh_post h).
Definition uh_set_post h p : UringCompletionHooks :=
  mkHooks (uh_counts h) (uh_pending_cancel_cqes h) (uh_waker_buf_len h) (uh_waker_armed h) (uh_is_waked h)
    (uh_synthetic h) p.

Notation Outcome := (CompletionHookOutcome UringBackendEffect).
Notation bad := (Err (report InvalidState)).

(** ** Control completions *)

Definition handle_waker_control h (raw : RawCompletion) : UringCompletionHooks * UringBackendEffect :=
  if rw_res raw =? uh_waker_buf_len h then (uh_count h WakerOkCount, EffWaker false)
  else if 0 <=? rw_res raw then (uh_count h WakerErrorCount, EffWaker true)
  else
    let errno := - rw_res raw in
    (uh_count h WakerErrorCount, EffWaker (negb ((errno =? EAGAIN) || (errno =? EINTR)))).

Definition handle_cancel_control h (cancel_id : CancelCompletionId) (raw : RawCompletion)
    : UringCompletionHooks * result Outcome Report :=
  match uh_pending_cancel_cqes h !! cancel_id with
  | None => (h, bad)
  | Some request =>
      let h := uh_set_pending h (delete cancel_id (uh_pending_cancel_cqes h)) in
      if 0 <=? rw_res raw then (uh_count h CancelAckOkCount, Ok (HookControlHandled EffNone))
      else if rw_res raw =? - ENOENT then
        (uh_count h CancelAckNotFoundCount, Ok (HookControlHandled (EffCancelEnoent cancel_id request raw)))
      else (uh_count h CancelAckErrorCount, Ok (HookControlHandled EffNone))
  end.

Definition uring_handle_control h (control : CompletionControl) : UringCompletionHooks * result Outcome Report :=
  match control with
  | ControlWaker _ raw => let (h, eff) := handle_waker_control h raw in (h, Ok (HookControlHandled eff))
  | ControlCancel id raw => handle_cancel_control h id raw
  end.

(** ** Finishing an operation in its slot

    In the branches without a payload the guard of the clean-up is dropped,
    which would run it; slots whose payload is missing do not get this far
    ([checked_slot_view]). *)

(** [completed.with_op_mut(f).unwrap_or_default()] *)
Definition cleanup_with (c : SlotCell) (f : UringKernelOp -> UringKernelOp * option UringCleanup)
    : SlotCell * CleanupGuard :=
  let (c, g) := with_op_mut c f in (c, match g with Ok g => g | Err _ => None end).

Definition complete_kernel_waiting_slot (c : Slot MWaiting) (token : OpToken) (raw : RawCompletion)
    : SlotCell * result Outcome Report :=
  let (c, r) := with_op_and_payload_mut c (fun op payload =>
    let '(k, payload, final_res) := vt_on_complete (ko_vtable op) (ko_payload op) payload (rw_res raw) in
    let (op, cleanup) := completion_cleanup (mkKernelOp (ko_vtable op) k) (rw_res raw) in
    (op, payload, (final_res, cleanup))) in
  match r with
  | Err _ => (c, bad)
  | Ok (final_res, cleanup) =>
      let completed := complete_waiting_slot c in
      let res_code := driver_result_to_event_res final_res in
      let '(completed, (payload, detail)) := take_completion_data completed in
      match payload with
      | None => (completed, bad)
      | Some payload =>
          let eff :=
            match final_res, payload_close_fd payload with
            | Ok _, Some fd => EffCloseCompleted fd
            | _, _ => EffNone
            end in
          let detail :=
            match detail, final_res with
            | None, Err err => Some (Err err)
            | _, _ => detail
            end in
          let (completed, _) := take_op completed in
          (completed, Ok (HookUser (event_from_parts COMP_BACKEND_URING token res_code (rw_flags raw))
                            payload detail cleanup eff))
      end
  end.

Definition complete_timer_waiting_slot (c : Slot MWaiting) (event : UserCompletionEvent)
    : SlotCell * result Outcome Report :=
  let c := cell_platform c (mkOpState None (submission_state (sl_platform c))) in
  let completed := complete_waiting_slot c in
  let (completed, _) := take_op completed in
  let '(completed, (payload, detail)) := take_completion_data completed in
  match payload with
  | None => (completed, bad)
  | Some payload => (completed, Ok (HookUser event payload detail None EffNone))
  end.

Definition complete_submission_failure_slot (c : Slot MWaiting) (event : UserCompletionEvent)
    (r : option Report) : SlotCell * result Outcome Report :=
  let (completed, cleanup) := cleanup_with (complete_waiting_slot c) (fun op => completion_cleanup op (ue_res event)) in
  let (completed, _) := take_op completed in
  let '(completed, (payload, detail)) := take_completion_data completed in
  match payload with
  | None => (completed, bad)
  | Some payload =>
      let detail := match detail with Some d => Some d | None => (fun e => Err e) <$> r end in
      (completed, Ok (HookUser event payload detail cleanup EffNone))
  end.

Definition complete_local_cancel_slot (c : Slot MWaiting) (event : UserCompletionEvent)
    (mode : CancelMode) (orphaned : bool) : SlotCell * result Outcome Report :=
  let (completed, cleanup) := cleanup_with (complete_waiting_slot c) (fun op =>
    if bool_decide (mode = Abandon) || orphaned then orphan_cleanup op (ue_res event)
    else completion_cleanup op (ue_res event)) in
  let '(completed, (payload, detail)) := take_completion_data completed in
  let (completed, _) := take_op completed in
  match mode, payload with
  | UserVisible, Some payload => (completed, Ok (HookUser event payload detail cleanup EffNone))
  | UserVisible, None => (completed, bad)
  | Abandon, _ => (completed, Ok (HookCleanup cleanup EffNone))
  end.

Definition complete_cancel_waiting_slot (c : Slot MWaiting) (event : UserCompletionEvent) (mode : CancelMode)
    : SlotCell * result Outcome Report := complete_local_cancel_slot c event mode false.

Definition cleanup_orphaned_slot (c : Slot MOrphaned) (cqe_res : Z) : SlotCell * CleanupGuard :=
  let (completed, cleanup) := cleanup_with (complete_orphaned_slot c) (fun op => orphan_cleanup op cqe_res) in
  let '(completed, _) := take_completion_data completed in
  let (completed, _) := take_op completed in
  (completed, cleanup).

Definition uring_complete_waiting h (event : UserCompletionEvent) (slot : Slot MWaiting)
    (source : CompletionSource unit) : UringCompletionHooks * SlotCell * result Outcome Report :=
  match source with
  | FromSynthetic SrcTimer => let (c, r) := complete_timer_waiting_slot slot event in (h, c, r)
  | FromSynthetic SrcCancel =>
      let (c, r) := complete_cancel_waiting_slot slot event (synthetic_cancel_mode (uh_synthetic h)) in (h, c, r)
  | FromSynthetic SrcSubmissionFailure =>
      let (s, f) := take_submission_failure (uh_synthetic h) in
      let (c, r) := complete_submission_failure_slot slot event f in (uh_set_synthetic h s, c, r)
  | FromKernel | FromUser | FromBackend _ =>
      let (c, r) := complete_kernel_waiting_slot slot (ue_token event) (ue_raw event) in (h, c, r)
  end.

Definition uring_complete_orphaned h (event : UserCompletionEvent) (slot : Slot MOrphaned)
    (source : CompletionSource unit) : UringCompletionHooks * SlotCell * result Outcome Report :=
  let res :=
    match source with
    | FromSynthetic SrcTimer => 0
    | FromSynthetic SrcCancel => ue_res event
    | FromSynthetic SrcSubmissionFailure | FromKernel | FromUser | FromBackend _ => rw_res (ue_raw event)
    end in
  let (c, cleanup) := cleanup_orphaned_slot slot res in
  (h, c, Ok (HookCleanup cleanup EffNone)).

Definition uring_finish_backend_effect h (eff : UringBackendEffect) : UringCompletionHooks * result unit Report :=
  let p := uh_post h in
  match eff with
  | EffNone => (h, Ok tt)
  | EffWaker should_rebuild =>
      (mkHooks (uh_counts h) (uh_pending_cancel_cqes h) (uh_waker_buf_len h) false false (uh_synthetic h)
         (mkPost (po_rebuild_waker p || should_rebuild) true true (po_cancel_enoent p) (po_close_unregister p)), Ok tt)
  | EffCancelEnoent cancel_id request raw =>
      (uh_set_post h (mkPost (po_rebuild_waker p) (po_resubmit_waker p) (po_flush_backlog p)
         (po_cancel_enoent p ++ [(cancel_id, request, raw)]) (po_close_unregister p)), Ok tt)
  | EffCloseCompleted fd =>
      (uh_set_post h (mkPost (po_rebuild_waker p) (po_resubmit_waker p) (po_flush_backlog p)
         (po_cancel_enoent p) (po_close_unregister p ++ [fd])), Ok tt)
  end.

(** [complete_corrupt] and [complete_backend_ingress] keep their default
    bodies; nothing of type [()] reaches the latter. *)
#[global] Instance uring_hooks : CompletionBackendHooks UringCompletionHooks := {
  BackendIngress := unit;
  BackendEffect := UringBackendEffect;
  backend_effect_default := EffNone;
  handle_control := uring_handle_control;
  complete_waiting := uring_complete_waiting;
  complete_orphaned := uring_complete_orphaned;
  complete_corrupt := fun h event kind _ => (h, Ok (complete_corrupt_default EffNone event kind));
  complete_backend_ingress := fun h _ => (h, Ok (Finish (HookIgnore EffNone)));
  finish_backend_effect := uring_finish_backend_effect
}.
End hooks.
