(* ===== verification/UringDriver.v ===== *)
(** * veloq-driver-uring: the driver
      ([driver.rs], [driver/submission.rs], [driver/lifecycle.rs],
      [driver/completion.rs], chunks of [driver/registration.rs])

    Operations go from their slots to the submission queue or to the timer
    wheel; those the queue has no room for wait in the backlog.  [drive] hands
    the queue to the kernel, takes completions and expired timers, and accepts
    each into its slot.  A call returns the driver beside its result; [try]
    is [?].  Accepting a completion can end in flushing the backlog, which in
    turn accepts completions of operations that failed or were cancelled; the
    flush is passed down and runs on fuel, one unit for an entry of the
    backlog. *)

From stdpp Require Import strings gmap.
From S2P Require Import Pool.
From S2P Require Import Prelude BitSet SlotMap WheelConfig Wheel Token SlotState Anomaly SlotTable Completion Registry Flow DriverApi UringBase FileTable UringOp UringHooks.

Definition MAX_CHUNKS : Z := 1024.
Definition U16_MAX : Z := 2 ^ 16 - 1.
Definition REGISTER_FAILURE_RETRY_COOLDOWN : Duration := from_millis 250.
Definition IORING_ENTER_GETEVENTS : Z := 1.
Definition WAKER_BUF_LEN : Z := 8.

(** [BufferRegistrar]: the pool the driver belongs to ([Pool.chunk_info]). *)
Class Registrar : Type := { resolve_chunk_info : Z -> option ChunkInfo }.

Record UringRegistrationStats : Type := mkRegStats {
  chunk_register_attempts : Z;
  chunk_register_success : Z;
  chunk_register_failures : Z;
  chunk_register_skipped_recent_failure : Z;
  submission_missing_chunk_info : Z
}.

Section driver.
Context `{IoUring} `{UringPayloads} `{UringTimers} `{Registrar}.
Notation Ops := (OpRegistry (Spec := UringSlotSpec)).
Notation Cell := (SlotCell (Spec := UringSlotSpec)).
Notation Slot := (Slot (Spec := UringSlotSpec)).

(** ** State *)

Record WakerState : Type := mkWakerState {
  wk_fd : Z;                              (* [waker_state] *)
  wk_registered_fd : option IoFd;
  wk_armed : bool;
  wk_is_waked : bool
}.

Record ChunkState : Type := mkChunkState {
  ck_registered : BitSet;
  ck_stats : UringRegistrationStats;
  ck_mode : BufferRegistrationMode;
  ck_failures_recent : gmap Z Z
}.

(** [timer_buffer] is empty between calls and [completion_table] and
    [completion_diagnostics] belong to the table of [ops]; [ud_remote_cancels]
    is the content of the channel of [remote_cancel_receiver]. *)
Record UringDriver : Type := mkUring {
  ud_ring : Ring;
  ud_ops : Ops;
  ud_backlog : list OpToken;
  ud_pending_cancellations : list PendingCancel;
  ud_pending_cancel_cqes : gmap CancelCompletionId PendingCancel;
  ud_next_cancel_id : Z;
  ud_remote_cancels : list CancelRequest;
  ud_waker : WakerState;
  ud_chunks : ChunkState;
  ud_wheel : Wheel TimerKey TimerMap;
  ud_last_timer_poll : Z;
  ud_files : FileTable
}.
Implicit Types u : UringDriver.

Definition with_ring u r := mkUring r (ud_ops u) (ud_backlog u) (ud_pending_cancellations u)
  (ud_pending_cancel_cqes u) (ud_next_cancel_id u) (ud_remote_cancels u) (ud_waker u) (ud_chunks u) (ud_wheel u)
  (ud_last_timer_poll u) (ud_files u).
Definition with_ops u (o : Ops) := mkUring (ud_ring u) o (ud_backlog u) (ud_pending_cancellations u)
  (ud_pending_cancel_cqes u) (ud_next_cancel_id u) (ud_remote_cancels u) (ud_waker u) (ud_chunks u) (ud_wheel u)
  (ud_last_timer_poll u) (ud_files u).
Definition with_backlog u l := mkUring (ud_ring u) (ud_ops u) l (ud_pending_cancellations u)
  (ud_pending_cancel_cqes u) (ud_next_cancel_id u) (ud_remote_cancels u) (ud_waker u) (ud_chunks u) (ud_wheel u)
  (ud_last_timer_poll u) (ud_files u).
Definition with_cancellations u l := mkUring (ud_ring u) (ud_ops u) (ud_backlog u) l
  (ud_pending_cancel_cqes u) (ud_next_cancel_id u) (ud_remote_cancels u) (ud_waker u) (ud_chunks u) (ud_wheel u)
  (ud_last_timer_poll u) (ud_files u).
Definition with_cancel_cqes u m := mkUring (ud_ring u) (ud_ops u) (ud_backlog u) (ud_pending_cancellations u)
  m (ud_next_cancel_id u) (ud_remote_cancels u) (ud_waker u) (ud_chunks u) (ud_wheel u)
  (ud_last_timer_poll u) (ud_files u).
Definition with_next_cancel_id u n := mkUring (ud_ring u) (ud_ops u) (ud_backlog u) (ud_pending_cancellations u)
  (ud_pending_cancel_cqes u) n (ud_remote_cancels u) (ud_waker u) (ud_chunks u) (ud_wheel u)
  (ud_last_timer_poll u) (ud_files u).
Definition with_remote_cancels u l := mkUring (ud_ring u) (ud_ops u) (ud_backlog u) (ud_pending_cancellations u)
  (ud_pending_cancel_cqes u) (ud_next_cancel_id u) l (ud_waker u) (ud_chunks u) (ud_wheel u)
  (ud_last_timer_poll u) (ud_files u).
Definition with_waker u w := mkUring (ud_ring u) (ud_ops u) (ud_backlog u) (ud_pending_cancellations u)
  (ud_pending_cancel_cqes u) (ud_next_cancel_id u) (ud_remote_cancels u) w (ud_chunks u) (ud_wheel u)
  (ud_last_timer_poll u) (ud_files u).
Definition with_chunks u c := mkUring (ud_ring u) (ud_ops u) (ud_backlog u) (ud_pending_cancellations u)
  (ud_pending_cancel_cqes u) (ud_next_cancel_id u) (ud_remote_cancels u) (ud_waker u) c (ud_wheel u)
  (ud_last_timer_poll u) (ud_files u).
Definition with_wheel u w := mkUring (ud_ring u) (ud_ops u) (ud_backlog u) (ud_pending_cancellations u)
  (ud_pending_cancel_cqes u) (ud_next_cancel_id u) (ud_remote_cancels u) (ud_waker u) (ud_chunks u) w
  (ud_last_timer_poll u) (ud_files u).
Definition with_timer_poll u t := mkUring (ud_ring u) (ud_ops u) (ud_backlog u) (ud_pending_cancellations u)
  (ud_pending_cancel_cqes u) (ud_next_cancel_id u) (ud_remote_cancels u) (ud_waker u) (ud_chunks u) (ud_wheel u)
  t (ud_files u).
Definition with_files u r f := mkUring r (ud_ops u) (ud_backlog u) (ud_pending_cancellations u)
  (ud_pending_cancel_cqes u) (ud_next_cancel_id u) (ud_remote_cancels u) (ud_waker u) (ud_chunks u) (ud_wheel u)
  (ud_last_timer_poll u) f.

Definition set_armed (w : WakerState) (b : bool) : WakerState :=
  mkWakerState (wk_fd w) (wk_registered_fd w) b (wk_is_waked w).

(** [completion_diagnostics.backend().inc_...()] *)
Definition count u (c : UringCounter) : UringDriver :=
  let t := rg_shared (ud_ops u) in
  let d := tb_diagnostics t in
  with_ops u (set_shared (ud_ops u) (set_diagnostics t (set_backend d (uring_inc c (dg_backend d))))).

(** A call that ends in a value or an error of the driver. *)
Notation step A := (outcome (UringDriver * result A Report)).
Definition ok {A} u (x : A) : step A := Ret (u, Ok x).
Definition fail {A} u (k : UringError) : step A := Ret (u, Err (report k)).
Definition fail_bare {A} u (k : UringError) : step A := Ret (u, Err (to_report k)).

(** A call on the registered files. *)
Definition on_files {A} u (f : Ring * FileTable -> (Ring * FileTable) * result A Report) : step A :=
  let '((r, t), x) := f (ud_ring u, ud_files u) in Ret (with_files u r t, x).

(** ** Chunks *)

Definition set_stats (c : ChunkState) (s : UringRegistrationStats) : ChunkState :=
  mkChunkState (ck_registered c) s (ck_mode c) (ck_failures_recent c).
Definition inc_skipped (s : UringRegistrationStats) : UringRegistrationStats :=
  mkRegStats (chunk_register_attempts s) (chunk_register_success s) (chunk_register_failures s)
    (saturating_inc (chunk_register_skipped_recent_failure s)) (submission_missing_chunk_info s).
Definition inc_attempts (s : UringRegistrationStats) : UringRegistrationStats :=
  mkRegStats (saturating_inc (chunk_register_attempts s)) (chunk_register_success s) (chunk_register_failures s)
    (chunk_register_skipped_recent_failure s) (submission_missing_chunk_info s).
Definition inc_failures (s : UringRegistrationStats) : UringRegistrationStats :=
  mkRegStats (chunk_register_attempts s) (chunk_register_success s) (saturating_inc (chunk_register_failures s))
    (chunk_register_skipped_recent_failure s) (submission_missing_chunk_info s).
Definition inc_success (s : UringRegistrationStats) : UringRegistrationStats :=
  mkRegStats (chunk_register_attempts s) (saturating_inc (chunk_register_success s)) (chunk_register_failures s)
    (chunk_register_skipped_recent_failure s) (submission_missing_chunk_info s).
Definition inc_missing (s : UringRegistrationStats) : UringRegistrationStats :=
  mkRegStats (chunk_register_attempts s) (chunk_register_success s) (chunk_register_failures s)
    (chunk_register_skipped_recent_failure s) (saturating_inc (submission_missing_chunk_info s)).

Definition saturating_duration_since (now earlier : Z) : Duration := Z.max 0 (now - earlier).

Definition register_chunk_internal u (id ptr len : Z) : step unit :=
  let c := ud_chunks u in
  let recent :=
    match ck_failures_recent c !! id with
    | Some last_fail => saturating_duration_since (instant_now (ud_ring u)) last_fail <? REGISTER_FAILURE_RETRY_COOLDOWN
    | None => false
    end in
  if recent then fail_bare (with_chunks u (set_stats c (inc_skipped (ck_stats c)))) Registration else
  if MAX_CHUNKS <=? id then fail_bare u InvalidInput else
  let stats := inc_attempts (ck_stats c) in
  match register_buffers_update (ud_ring u) id (ptr, len) with
  | (r, Err e) =>
      let c := mkChunkState (ck_registered c) (inc_failures stats) (ck_mode c)
                 (<[id := instant_now r]> (ck_failures_recent c)) in
      Ret (with_chunks (with_ring u r) c, Err (io_report Registration e))
  | (r, Ok _) =>
      '(registered, _) ← bitset_set (ck_registered c) id;
      let c := mkChunkState registered (inc_success stats) (ck_mode c) (delete id (ck_failures_recent c)) in
      ok (with_chunks (with_ring u r) c) tt
  end.

(** The loop over the chunks of an operation before it is submitted. *)
Fixpoint register_missing_chunks u (chunks : list Z) : step unit :=
  match chunks with
  | [] => ok u tt
  | chunk_id :: chunks =>
      registered ← bitset_get (ck_registered (ud_chunks u)) chunk_id;
      match registered with
      | Err _ => fail_bare u InvalidState
      | Ok true => register_missing_chunks u chunks
      | Ok false =>
          match resolve_chunk_info chunk_id with
          | Some info =>
              try (u, _x) := register_chunk_internal u (ci_id info) (ci_ptr info) (ci_len info) in
              register_missing_chunks u chunks
          | None =>
              let c := ud_chunks u in
              let u := with_chunks u (set_stats c (inc_missing (ck_stats c))) in
              fail_bare u (if is_strict (ck_mode c) then InvalidState else InvalidInput)
          end
      end
  end.

(** ** The submission queue *)

Definition push_entry u (e : Entry) : UringDriver * bool :=
  let (r, pushed) := sq_push (ud_ring u) e in
  if pushed then (with_ring u r, true) else
  let (r, _) := ring_enter r 0 0 IORING_ENTER_GETEVENTS in
  let (r, pushed) := sq_push r e in
  (with_ring u r, pushed).

Definition push_backlog u (token : OpToken) : UringDriver := with_backlog u (ud_backlog u ++ [token]).
Definition pop_backlog u : UringDriver := with_backlog u (tail (ud_backlog u)).

Fixpoint remove_first (token : OpToken) (l : list OpToken) : list OpToken :=
  match l with
  | [] => []
  | t :: l => if bool_decide (t = token) then l else t :: remove_first token l
  end.
Definition remove_backlog_token u (token : OpToken) : UringDriver :=
  with_backlog u (remove_first token (ud_backlog u)).

(** ** Submitting *)

Definition slot_access_report (e : SlotAccessError) : Report := to_report InvalidState.

Definition set_submission_state (c : Cell) (s : UringSubmissionState) : SlotCell :=
  cell_platform c (mkOpState (timer_id (sl_platform c)) s).

(** The slot as the submission guard leaves it when it is dropped. *)
Definition dropped_guard (c : Cell) : SlotCell := default c (guard_rollback (mkGuard (Some c) None false)).

(** Building the entry, the same for a new operation and one of the backlog. *)
Definition make_entry u (token : OpToken) (c : Cell)
    : Cell * result (list Z * Entry) Report :=
  let (c, r) := with_op_and_payload_mut c (fun op payload =>
    let vtable := ko_vtable op in
    let chunks := take 4 (vt_resolve_chunks vtable (ko_payload op) payload) in
    let '(k, payload, sqe) := vt_make_sqe vtable (ko_payload op) payload (ft_slots (ud_files u))
                                (ck_registered (ud_chunks u)) (mkSubmitContext token (token_user token)) in
    (mkKernelOp vtable k, payload,
     match sqe with
     | Ok e => Ok (chunks, entry_user_data e (token_raw (token_user token)))
     | Err report => Err report
     end)) in
  (c, match r with Ok x => x | Err e => Err (slot_access_report e) end).

(** The borrowed slot is written back with the result of the call. *)
Definition leave_slot {A} u (c : Cell) (x : result A Report) : step A :=
  ops ← commit_slot (ud_ops u) c; Ret (with_ops u ops, x).

Definition submit_from_slot_raw u (token : OpToken) (slot : Slot MReserved) : step bool :=
  match start_submission_with (Spec := UringSlotSpec) slot None with
  | Err e => leave_slot u slot (Err (slot_access_report e))
  | Ok guard =>
      c ← expect (gd_slot guard);
      let abort u (c : Cell) (e : Report) := leave_slot u (dropped_guard c) (Err e) in
      match sl_op (Spec := UringSlotSpec) c with
      | None => abort u c (to_report InvalidState)
      | Some op =>
          match vt_strategy (ko_vtable op) with
          | SubmitSqe =>
              let (c, made) := make_entry u token c in
              match made with
              | Err e => abort u c e
              | Ok (chunks, sqe) =>
                  '(u, registered) ← register_missing_chunks u chunks;
                  match registered with
                  | Err e => abort u c e
                  | Ok _ =>
                      let (u, pushed) := push_entry u sqe in
                      leave_slot u (set_submission_state c (if pushed then UrKernelSubmitted else UrQueued)) (Ok pushed)
                  end
              end
          | SoftwareTimer =>
              let (c, duration_opt) := with_op_and_payload_mut c (fun op payload =>
                (op, payload, vt_get_timeout (ko_vtable op) (ko_payload op) payload)) in
              match duration_opt with
              | Err e => abort u c (slot_access_report e)
              | Ok None => abort u c (report InvalidInput)
              | Ok (Some duration) =>
                  '(wheel, task_id) ← insert (ud_wheel u) token duration;
                  let u := with_wheel u wheel in
                  ops ← commit_slot (ud_ops u) c;
                  ops ← platform_mut ops token (mkOpState (Some task_id) UrTimer);
                  ok (with_ops u ops) true
              end
          end
      end
  end.

Definition submit_from_slot_token u (token : OpToken) : step bool :=
  match checked_slot_view (ud_ops u) token with
  | Err e => Ret (u, Err e)
  | Ok (Valid (ViewReserved slot)) => submit_from_slot_raw u token slot
  | Ok _ => fail u InvalidState
  end.

Definition submit_queued_from_slot_raw u (token : OpToken) (slot : Slot MWaiting) : step bool :=
  if negb (bool_decide (submission_state (sl_platform slot) = UrQueued)) then ok u true else
  match sl_op slot with
  | None => Ret (u, Err (to_report InvalidState))
  | Some op =>
      if negb (bool_decide (vt_strategy (ko_vtable op) = SubmitSqe)) then fail_bare u InvalidState else
      let (c, made) := make_entry u token slot in
      match made with
      | Err e => leave_slot u c (Err e)
      | Ok (chunks, sqe) =>
          '(u, registered) ← register_missing_chunks u chunks;
          match registered with
          | Err e => leave_slot u c (Err e)
          | Ok _ =>
              let (u, pushed) := push_entry u sqe in
              leave_slot u (set_submission_state c (if pushed then UrKernelSubmitted else UrQueued)) (Ok pushed)
          end
      end
  end.

(** ** The waker *)

Definition submit_waker u : step unit :=
  if wk_armed (ud_waker u) then ok u tt else
  try (u, fixed_fd) :=
    match wk_registered_fd (ud_waker u) with
    | Some fd => ok u fd
    | None =>
        '((r, t), fds) ← register_files_internal (registry_capacity (ud_ops u)) (ud_ring u, ud_files u)
                           [Borrowed (RawFile (wk_fd (ud_waker u)))];
        let u := with_files u r t in
        match fds with
        | Err e => Ret (u, Err e)
        | Ok fds =>
            match last fds with
            | None => fail u InvalidState
            | Some fixed_fd =>
                let w := ud_waker u in
                ok (with_waker u (mkWakerState (wk_fd w) (Some fixed_fd) (wk_armed w) (wk_is_waked w))) fixed_fd
            end
        end
    end in
  let sqe := entry_user_data (opcode_read_registered (fd_index fixed_fd) WAKER_BUF_LEN) (token_raw (token_waker 0)) in
  let (u, pushed) := push_entry u sqe in
  if pushed then ok (with_waker u (set_armed (ud_waker u) true)) tt else fail u Submission.

(** Dropping an [EventFd] closes it. *)
Definition drop_event_fd u (fd : Z) : UringDriver :=
  with_files u (ud_ring u) (ft_close (ud_files u) (handle_close (RawFile fd))).

Definition create_event_fd u : step Z :=
  match eventfd (ud_ring u) with
  | (r, Err e) => Ret (with_ring u r, Err (io_report DriverInit e))
  | (r, Ok fd) => ok (with_ring u r) fd
  end.

Definition rebuild_waker_fd u : step unit :=
  try (u, new_fd) := create_event_fd u in
  '(u, replaced) ←
    match wk_registered_fd (ud_waker u) with
    | Some fixed_fd => on_files u (fun s => replace_registered_fixed_fd s fixed_fd (RawFile new_fd))
    | None => ok u tt
    end;
  match replaced with
  | Err e => Ret (drop_event_fd u new_fd, Err e)
  | Ok _ =>
      let w := ud_waker u in
      let u := drop_event_fd u (wk_fd w) in
      ok (with_waker u (mkWakerState new_fd (wk_registered_fd w) (wk_armed w) (wk_is_waked w))) tt
  end.

(** [UringWaker::wake], called by other threads. *)
Definition waker_wake u : step unit :=
  let w := ud_waker u in
  if wk_is_waked w then ok u tt else
  let u := with_waker u (mkWakerState (wk_fd w) (wk_registered_fd w) (wk_armed w) true) in
  match eventfd_write (ud_ring u) (wk_fd w) with
  | (r, Ok _) => ok (with_ring u r) tt
  | (r, Err e) =>
      if bool_decide (raw_os_error e = Some EAGAIN) then ok (with_ring u r) tt
      else Ret (with_ring u r, Err (set_error_code (to_report Internal) (default 5 (raw_os_error e))))
  end.

(** ** Accepting completions *)

(** What [into_post_effects] leaves: the hooks wrote through references. *)
Definition end_hooks u (ops : Ops) (h : UringCompletionHooks) : UringDriver :=
  let w := ud_waker u in
  let u := with_cancel_cqes (with_ops u ops) (uh_pending_cancel_cqes h) in
  let u := with_waker u (mkWakerState (wk_fd w) (wk_registered_fd w) (uh_waker_armed h) (uh_is_waked h)) in
  foldl count u (uh_counts h).

Definition record_cancel_enoent_if_target_active u (request : PendingCancel) : step unit :=
  match checked_slot_view (ud_ops u) (pc_target request) with
  | Err e => Ret (u, Err e)
  | Ok (Valid (ViewWaiting _)) | Ok (Valid (ViewOrphaned _)) =>
      fail (count u CancelAckEnoentActiveCount) InvalidState
  | Ok _ => ok u tt
  end.

(** [for x in l { f(x)?; }] *)
Fixpoint each {A} (f : UringDriver -> A -> step unit) u (l : list A) : step unit :=
  match l with
  | [] => ok u tt
  | a :: l => try (u, _x) := f u a in each f u l
  end.

Section accept.
Variable flush : UringDriver -> step unit.

Definition apply_post_completion_effects u (post : UringPostCompletionEffects) : step unit :=
  try (u, _x) := each (fun u x => record_cancel_enoent_if_target_active u x.1.2) u (po_cancel_enoent post) in
  try (u, _x) := each (fun u fd => on_files u (fun s => unregister_close_owned_fd s fd)) u (po_close_unregister post) in
  try (u, _x) := (if po_rebuild_waker post then rebuild_waker_fd (count u WakerRebuildCount) else ok u tt) in
  try (u, _x) :=
    (if po_resubmit_waker post then
       '(u, x) ← submit_waker u;
       match x with
       | Ok _ => ok u tt
       | Err e => Ret (count u WakerRebuildCount, Err e)
       end
     else ok u tt) in
  if po_flush_backlog post then flush u else ok u tt.

Definition accept_completion_ingress u (ingress : CompletionIngress unit)
    (synthetic : UringSyntheticCompletion) : step CompletionFlowOutcome :=
  let w := ud_waker u in
  let hooks := mkHooks [] (ud_pending_cancel_cqes u) WAKER_BUF_LEN (wk_armed w) (wk_is_waked w) synthetic post_default in
  '((ops, h), o) ← accept_completion (ud_ops u, hooks) ingress;
  let u := end_hooks u ops h in
  match o with
  | Err e => Ret (u, Err e)
  | Ok o =>
      try (u, _x) := apply_post_completion_effects u (uh_post h) in
      ok u o
  end.

Definition accept_synthetic_completion u (event : UserCompletionEvent) (source : SyntheticCompletionSource)
    (synthetic : UringSyntheticCompletion) : step CompletionFlowOutcome :=
  accept_completion_ingress u (IngressSynthetic event source) synthetic.

Definition accept_completion_anomaly_kind u (kind : CompletionAnomalyKind) (attach : AnomalyAttach)
    : step CompletionFlowOutcome :=
  accept_completion_ingress u (IngressAnomaly kind attach) SynNone.

(** ** Cancelling *)

Definition complete_local_cancel u (token : OpToken) (mode : CancelMode) : step unit :=
  let u := count u CancelLocalCompletedCount in
  try (u, _x) := accept_synthetic_completion u (event_from_parts COMP_BACKEND_URING token (- ECANCELED) 0)
                   SrcCancel (SynCancel mode) in
  ok u tt.

Fixpoint next_cancel_id_loop (fuel : nat) u : UringDriver * option CancelCompletionId :=
  match fuel with
  | O => (u, None)
  | S fuel =>
      let id := ud_next_cancel_id u in
      let next := wrapping_add U16 id 1 in
      let u := with_next_cancel_id u (if next =? 0 then 1 else next) in
      match ud_pending_cancel_cqes u !! id with
      | None => (u, Some id)
      | Some _ => next_cancel_id_loop fuel u
      end
  end.
Definition next_cancel_completion_id u := next_cancel_id_loop (Z.to_nat U16_MAX) u.

Definition try_submit_cancel_request u (request : PendingCancel) : UringDriver * option CancelCompletionId :=
  let (u, id) := next_cancel_completion_id u in
  match id with
  | None => (u, None)
  | Some cancel_id =>
      let sqe := entry_user_data (opcode_async_cancel (token_raw (token_user (pc_target request))))
                   (token_raw (token_cancel cancel_id)) in
      let (u, pushed) := push_entry u sqe in
      if pushed then
        (count (with_cancel_cqes u (<[cancel_id := request]> (ud_pending_cancel_cqes u))) CancelSubmittedCount,
         Some cancel_id)
      else (u, None)
  end.

Definition submit_cancel_request u (request : PendingCancel) : UringDriver * CancelSubmitOutcome :=
  let (u, id) := try_submit_cancel_request u request in
  match id with
  | Some _ => (u, CancelSubmitted)
  | None => (count (with_cancellations u (ud_pending_cancellations u ++ [request])) CancelQueuedCount, CancelQueued)
  end.

Definition record_cancel_target_gone u (reason : CancelTargetGoneReason) : UringDriver :=
  count u match reason with
          | GoneMissing => CancelTargetMissingCount
          | GoneStale => CancelTargetStaleCount
          | GoneCorrupt => CancelTargetCorruptCount
          end.

(** An operation that is not with the kernel is completed here and now. *)
Definition cancel_in_flight u (slot : Cell) (request : PendingCancel) (mode : CancelMode)
    (otherwise : UringDriver -> step CancelSubmitOutcome) : step CancelSubmitOutcome :=
  let token := pc_target request in
  if bool_decide (submission_state (sl_platform slot) = UrQueued) then
    try (u, _x) := complete_local_cancel (remove_backlog_token u token) token mode in
    ok u CancelCompletedLocally
  else
    match timer_id (sl_platform slot) with
    | Some tid =>
        ops ← commit_slot (ud_ops u) (cell_platform slot (mkOpState None (submission_state (sl_platform slot))));
        let u := with_wheel (with_ops u ops) (cancel (ud_wheel u) tid).1 in
        try (u, _x) := complete_local_cancel u token mode in
        ok u CancelCompletedLocally
    | None => otherwise u
    end.

Definition cancel_op_internal u (request : CancelRequest) : step CancelSubmitOutcome :=
  let request := pending_cancel_new request in
  let token := pc_target request in
  let submit u := let (u, o) := submit_cancel_request u request in ok u o in
  match checked_slot_view (ud_ops u) token with
  | Err e => Ret (u, Err e)
  | Ok (Valid (ViewReserved slot)) =>
      '(u, prepared) ←
        match (if is_some (sl_op slot) then start_submission_with (Spec := UringSlotSpec) slot None
               else Err (access_error slot ActStartSubmission MissingOp)) with
        | Ok guard =>
            c ← guard_persist guard;
            ops ← commit_slot (ud_ops u) c;
            Ret (with_ops u ops, true)
        | Err _ => Ret (u, false)
        end;
      if (prepared : bool) then
        try (u, _x) := complete_local_cancel u token (pc_mode request) in ok u CancelCompletedLocally
      else
        '(ops, _) ← registry_remove (ud_ops u) token; ok (with_ops u ops) CancelCompletedLocally
  | Ok (Valid (ViewWaiting slot)) =>
      cancel_in_flight u slot request (pc_mode request) (fun u =>
        match pc_mode request with
        | Abandon => ops ← commit_slot (ud_ops u) (cancel_slot slot); submit (with_ops u ops)
        | UserVisible => submit u
        end)
  | Ok (Valid (ViewOrphaned slot)) => cancel_in_flight u slot request Abandon submit
  | Ok view =>
      let (reason, kind) := cancel_target_kind token view in
      let u := record_cancel_target_gone u reason in
      '(u, _) ← accept_completion_anomaly_kind u kind (attach_from_op_token token);
      ok u (CancelTargetGone reason)
  end.

(** Its own result is ignored. *)
Definition complete_queued_submission_error u (token : OpToken) (r : Report) : outcome UringDriver :=
  let event := event_from_parts COMP_BACKEND_URING token (uring_report_to_event_res r) 0 in
  '(u, _) ← accept_synthetic_completion u event SrcSubmissionFailure (SynSubmissionFailure (Some r));
  Ret u.
End accept.

(** ** The backlog *)

Inductive BacklogAction : Type := SubmitReserved | SubmitQueued | CancelQueuedEntry | CancelKernel | DropEntry.

Definition backlog_action (view : CheckedSlotView (Spec := UringSlotSpec)) : BacklogAction :=
  let queued (slot : Cell) := bool_decide (submission_state (sl_platform slot) = UrQueued) in
  match view with
  | Valid (ViewOrphaned slot) => if queued slot then CancelQueuedEntry else CancelKernel
  | Valid (ViewReserved slot) => if is_some (sl_op slot) then SubmitReserved else DropEntry
  | Valid (ViewWaiting slot) => if queued slot then SubmitQueued else DropEntry
  | _ => DropEntry
  end.

Fixpoint flush_loop (fuel : nat) u : step unit :=
  match ud_backlog u with
  | [] => ok u tt
  | token :: _ =>
      match fuel with
      | O => Fault OutOfFuel
      | S fuel =>
          let flush := flush_loop fuel in
          match checked_slot_view (ud_ops u) token with
          | Err e => Ret (u, Err e)
          | Ok view =>
              match backlog_action view with
              | CancelQueuedEntry =>
                  try (u, _x) := complete_local_cancel flush (pop_backlog u) token Abandon in flush u
              | CancelKernel =>
                  try (u, _x) := cancel_op_internal flush (pop_backlog u) (cancel_abandon token) in flush u
              | DropEntry => flush (pop_backlog u)
              | SubmitReserved =>
                  '(u, x) ← submit_from_slot_token u token;
                  match x with
                  | Ok true => flush (pop_backlog u)
                  | Ok false => ok u tt
                  | Err _ => flush (pop_backlog u)
                  end
              | SubmitQueued =>
                  match checked_slot_view (ud_ops u) token with
                  | Err e => Ret (u, Err e)
                  | Ok view =>
                      '(u, x) ← match view with
                                | Valid (ViewWaiting slot) => submit_queued_from_slot_raw u token slot
                                | _ => ok u true
                                end;
                      match x with
                      | Ok true => flush (pop_backlog u)
                      | Ok false => ok u tt
                      | Err r =>
                          u ← complete_queued_submission_error flush (pop_backlog u) token r;
                          flush u
                      end
                  end
              end
          end
      end
  end.

Definition flush_backlog u : step unit := flush_loop (length (ud_backlog u)) u.

(** [cancel_op] of the [Driver] trait. *)
Definition cancel_op u (request : CancelRequest) : step CancelSubmitOutcome :=
  cancel_op_internal flush_backlog u request.

(** [drain_cancel_requests]: what other threads sent before the call. *)
Fixpoint drain_requests_loop (fuel : nat) u (outcome : CancelDrainOutcome) : step CancelDrainOutcome :=
  match ud_remote_cancels u with
  | [] => ok u outcome
  | request :: rest =>
      match fuel with
      | O => Fault OutOfFuel
      | S fuel =>
          try (u, o) := cancel_op (with_remote_cancels u rest) request in
          drain_requests_loop fuel u (drain_record outcome o)
      end
  end.
Definition drain_cancel_requests u : step CancelDrainOutcome :=
  drain_requests_loop (length (ud_remote_cancels u)) u cancel_drain_default.

Fixpoint flush_cancellations_loop (fuel : nat) u (submitted_count limit : Z) : step unit :=
  if limit <=? submitted_count then ok u tt else
  match ud_pending_cancellations u with
  | [] => ok u tt
  | request :: rest =>
      match fuel with
      | O => Fault OutOfFuel
      | S fuel =>
          match checked_slot_view (ud_ops u) (pc_target request) with
          | Err e => Ret (u, Err e)
          | Ok (Valid _) =>
              let (u, id) := try_submit_cancel_request u request in
              match id with
              | Some _ => flush_cancellations_loop fuel (with_cancellations u rest) (submitted_count + 1) limit
              | None => ok u tt
              end
          | Ok view =>
              let u := with_cancellations u rest in
              let (reason, kind) := cancel_target_kind (pc_target request) view in
              let u := record_cancel_target_gone u reason in
              try (u, _x) := accept_completion_anomaly_kind flush_backlog u kind
                               (attach_from_op_token (pc_target request)) in
              flush_cancellations_loop fuel u submitted_count limit
          end
      end
  end.
Definition flush_cancellations u : step unit :=
  let limit := length (ud_pending_cancellations u) in
  flush_cancellations_loop limit u 0 (Z.of_nat limit).

(** ** Handing over to the kernel *)

Definition submit_to_kernel u : step unit :=
  try (u, _x) :=
    (if is_setup_sqpoll (ud_ring u) then
       if sq_need_wakeup (ud_ring u) then
         match ring_submit (ud_ring u) with
         | (r, Err e) => Ret (with_ring u r, Err (io_report Submission e))
         | (r, Ok _) => ok (with_ring u r) tt
         end
       else ok u tt
     else
       let n := sq_len (ud_ring u) in
       if 0 <? n then
         match ring_enter (ud_ring u) (wrap U32 n) 0 IORING_ENTER_GETEVENTS with
         | (r, Err e) => Ret (with_ring u r, Err (io_report Submission e))
         | (r, Ok _) => ok (with_ring u r) tt
         end
       else ok u tt) in
  flush_backlog u.

(** ** Timers and completions *)

Definition timer_event (token : OpToken) : UserCompletionEvent := event_from_parts COMP_BACKEND_URING token 0 0.

Definition advance_timers u (elapsed : Duration) : step unit :=
  '(wheel, expired) ← advance (ud_wheel u) elapsed [];
  each (fun u token =>
      try (u, _x) := accept_synthetic_completion flush_backlog u (timer_event token) SrcTimer SynNone in ok u tt)
    (with_wheel u wheel) expired.

(** The end of [wait_internal] and [poll_nonblocking_internal]. *)
Definition poll_timers u : step unit :=
  let elapsed := saturating_duration_since (instant_now (ud_ring u)) (ud_last_timer_poll u) in
  let tick_ms := as_millis_u64 (tick_duration (ud_wheel u)) in
  ticks ← quot (as_millis_u64 elapsed) tick_ms;
  if 0 <? ticks then
    try (u, _x) := advance_timers u elapsed in
    ms ← arith U64 (ticks * tick_ms);
    ok (with_timer_poll u (ud_last_timer_poll u + from_millis ms)) tt
  else ok u tt.

Fixpoint accept_cqes u (cqes : list (Z * Z * Z)) (progress : CompletionFlowOutcome) : step CompletionFlowOutcome :=
  match cqes with
  | [] => ok u progress
  | (raw_token, cqe_res, cqe_flags) :: cqes =>
      try (u, o) := accept_completion_ingress flush_backlog u
        (IngressKernel (envelope_from_raw_parts COMP_BACKEND_URING raw_token cqe_res cqe_flags)) SynNone in
      progress ← flow_merge progress o;
      accept_cqes u cqes progress
  end.

Definition process_completions_internal u : step CompletionFlowOutcome :=
  let (r, _) := ring_enter (ud_ring u) 0 0 IORING_ENTER_GETEVENTS in
  let (r, cqes) := cq_drain r in
  accept_cqes (with_ring u r) cqes (mkFlow 0 0 0 0 0).

Definition wait_internal u : step unit :=
  try (u, _x) := drain_cancel_requests u in
  try (u, _x) := flush_cancellations u in
  try (u, _x) := flush_backlog u in
  if negb (has_active_ops (ud_ops u)) then ok u tt else
  try (u, _x) :=
    (if cq_is_empty (ud_ring u) then
       next_timeout ← next_timeout (ud_wheel u);
       let (r, waited) :=
         match next_timeout with
         | Some duration => ring_submit_with_timeout (ud_ring u) 1 duration
         | None => ring_submit_and_wait (ud_ring u) 1
         end in
       let u := with_ring u r in
       match waited with
       | Ok _ => ok u tt
       | Err e =>
           if is_some next_timeout && bool_decide (raw_os_error e = Some ETIME) then ok u tt
           else Ret (u, Err (io_report CompletionWait e))
       end
     else ok u tt) in
  try (u, _x) := poll_timers u in
  try (u, progress) := process_completions_internal u in
  _ ← semantic_count progress;
  try (u, _x) := flush_cancellations u in
  flush_backlog u.

Definition poll_nonblocking_internal u : step unit :=
  try (u, _x) := drain_cancel_requests u in
  try (u, _x) := flush_cancellations u in
  try (u, _x) := flush_backlog u in
  try (u, _x) := submit_to_kernel u in
  try (u, progress) := process_completions_internal u in
  _ ← semantic_count progress;
  try (u, _x) := poll_timers u in
  try (u, _x) := flush_cancellations u in
  flush_backlog u.

(** ** The [Driver] trait *)

Definition reserve_op_raw u : step OpToken :=
  '(ops, x) ← registry_insert (ud_ops u) op_state_new;
  let u := with_ops u ops in
  match x with
  | Ok handle =>
      match from_registry_parts (oh_index handle) (oh_generation handle) with
      | Ok token => ok u token
      | Err _ => fail_bare u InvalidState
      end
  | Err _ => fail u InvalidState
  end.

Definition slot_set_payload_raw u (token : OpToken) (payload : UringUserPayload) : outcome UringDriver :=
  '(ops, _) ← with_slot_storage_mut (ud_ops u) token (fun s =>
     (mkStorage (sg_result s) (Some payload) (sg_sidecar s), tt));
  Ret (with_ops u ops).

Definition slot_take_payload_raw u (token : OpToken) : outcome (UringDriver * option UringUserPayload) :=
  '(ops, o) ← with_slot_storage_mut (ud_ops u) token (fun s =>
     (mkStorage (sg_result s) None (sg_sidecar s), sg_payload s));
  Ret (with_ops u ops, match o with Some p => p | None => None end).

Definition release_op_slot_raw u (token : OpToken) : outcome UringDriver :=
  '(ops, _) ← registry_remove (ud_ops u) token; Ret (with_ops u ops).

(** The answer of a submission, and what is left of [op_in]. *)
Notation submission := (outcome (UringDriver * (DriverSubmitResult Report * option UringKernelOp))).

Definition void u (e : Report) : submission := Ret (u, (SubmitFailed e Void, None)).

(** [submit_sqe_internal] and [submit_timer_internal], which differ in the
    scopes of their reports. *)
Definition submit_internal u (token : OpToken) (op : UringKernelOp) : submission :=
  match checked_slot_view (ud_ops u) token with
  | Err e => void u e
  | Ok (Valid (ViewReserved slot)) =>
      let prepared : result Cell SlotAccessError :=
        if is_some (sl_op slot) then Ok (cell_op slot (Some op))
        else init_op_with (Spec := UringSlotSpec) slot op (fun s => s) in
      match prepared with
      | Err e => void u (slot_access_report e)
      | Ok slot =>
          '(u, x) ← submit_from_slot_raw u token slot;
          match x with
          | Ok true => Ret (u, (Submitted true, None))
          | Ok false => Ret (push_backlog u token, (Submitted false, None))
          | Err e =>
              '(ops, op_in) ← take_active_op (ud_ops u) token;
              Ret (with_ops u ops, (SubmitFailed e Void, op_in))
          end
      end
  | Ok _ => void u (report InvalidState)
  end.
Definition submit_sqe_internal := submit_internal.
Definition submit_timer_internal := submit_internal.

Definition submit_op_raw u (token : OpToken) (op_in : option UringKernelOp) : submission :=
  match op_in with
  | None => void u (report InvalidState)
  | Some op =>
      match vt_strategy (ko_vtable op) with
      | SubmitSqe => submit_sqe_internal u token op
      | SoftwareTimer => submit_timer_internal u token op
      end
  end.

Definition pending_progress u : bool :=
  has_active_ops (ud_ops u) || has_ready_completion (rg_shared (ud_ops u)).

Definition drive_outcome u : step DriveOutcome :=
  hint ← next_timeout (ud_wheel u); ok u (mkDriveOutcome hint (pending_progress u)).

Definition drive u (mode : DriveMode) : step DriveOutcome :=
  match mode with
  | DrivePoll => try (u, _x) := poll_nonblocking_internal u in drive_outcome u
  | DriveWait =>
      if negb (pending_progress u) then drive_outcome u
      else try (u, _x) := wait_internal u in drive_outcome u
  end.

Definition driver_register_files u (files : list RegisterFd) : step (list IoFd) :=
  '((r, t), x) ← register_files_internal (registry_capacity (ud_ops u)) (ud_ring u, ud_files u) files;
  Ret (with_files u r t, x).
Definition driver_unregister_files u (files : list IoFd) : step unit :=
  on_files u (fun s => unregister_files s files).

(** [new_internal], from the ring that the builder made and the first event
    descriptor. *)
Definition new_internal (ring : Ring) (entries : Z) (mode : BufferRegistrationMode) : step unit :=
  ops ← registry_new (Z.to_nat entries);
  wheel ← wheel_new wheel_config_default;
  let driver fd r := mkUring r ops [] [] ∅ 1 [] (mkWakerState fd None false false)
    (mkChunkState (bitset_new MAX_CHUNKS) (mkRegStats 0 0 0 0 0) mode ∅) wheel (instant_now r) file_table_empty in
  match eventfd ring with
  | (r, Err e) => Ret (driver (-1) r, Err (io_report DriverInit e))
  | (r, Ok fd) =>
      try (u, _x) := submit_waker (driver fd r) in
      let (r, _) := register_buffers (ud_ring u) (replicate (Z.to_nat MAX_CHUNKS) (0, 0)) in
      ok (with_ring u r) tt
  end.
End driver.
