(* ===== verification/SlotInfo.v ===== *)
(** * What a call changes

    The part of a slot that backends and futures reason about: its state, its
    generation and the driver's private half.  For each call of the registry,
    of the completion table and of the flow this file says which slot it
    changes and how; all other slots stay as they are. *)

From stdpp Require Import strings.
From S2P Require Import Prelude Token SlotState Anomaly SlotTable Completion Registry Flow RegistryInv CompletionSpec DriverSteps DriverSafety OpLifecycle.

Section info.
Context `{Spec : SlotSpec}.
Implicit Types (r : OpRegistry) (t : SlotTable) (token : OpToken) (k : nat).

Record SlotInfo : Type := mkInfo { si_state : SlotState; si_generation : Z; si_local : LocalSlot }.

Definition slot_info r k : option SlotInfo :=
  match tb_slots (rg_shared r) !! k, rg_local r !! k with
  | Some d, Some l => Some (mkInfo (slot_state d) (slot_generation d) l)
  | _, _ => None
  end.

Definition same_info r r' : Prop := forall k, slot_info r' k = slot_info r k.

(** Only slot [k] changes. *)
Definition becomes r k (i : SlotInfo) r' : Prop :=
  slot_info r' k = Some i /\ forall j, j <> k -> slot_info r' j = slot_info r j.

(** The private half of a slot that was given back. *)
Definition vacated (l : LocalSlot) : LocalSlot := mkLocal None platform_default storage_new false (ls_generation l).

Lemma same_info_refl r : same_info r r.
Proof. by intros k. Qed.

Lemma slot_info_parts r k i : slot_info r k = Some i <->
  exists d, tb_slots (rg_shared r) !! k = Some d /\ rg_local r !! k = Some (si_local i) /\
    slot_state d = si_state i /\ slot_generation d = si_generation i.
Proof.
  unfold slot_info. split.
  - destruct (tb_slots (rg_shared r) !! k) as [d |], (rg_local r !! k) as [l |]; try done. intros [= <-]. by exists d.
  - intros (d & -> & -> & Hs & Hg). destruct i. cbn in *. by subst.
Qed.

Lemma same_info_cells r r' : same_cells (tb_slots (rg_shared r)) (tb_slots (rg_shared r')) ->
  rg_local r' = rg_local r -> same_info r r'.
Proof.
  intros [Hl Hc] Hloc k. unfold slot_info. rewrite Hloc.
  destruct (tb_slots (rg_shared r) !! k) as [d |] eqn:Hd.
  - destruct (Hc k d Hd) as [n ->]. done.
  - assert (tb_slots (rg_shared r') !! k = None) as ->; [| done].
    apply lookup_ge_None. apply lookup_ge_None in Hd. lia.
Qed.

Lemma same_info_diagnostics r t : only_diagnostics (rg_shared r) t -> same_info r (set_shared r t).
Proof. by intros [dg ->] k. Qed.

Lemma becomes_insert r r' k d l d' l' : tb_slots (rg_shared r) !! k = Some d -> rg_local r !! k = Some l ->
  tb_slots (rg_shared r') = <[k := d']> (tb_slots (rg_shared r)) -> rg_local r' = <[k := l']> (rg_local r) ->
  becomes r k (mkInfo (slot_state d') (slot_generation d') l') r'.
Proof.
  intros Hd Hl Hs Hls. apply lookup_lt_Some in Hd, Hl. unfold becomes, slot_info. rewrite Hs, Hls. split.
  - by rewrite !list_lookup_insert_eq.
  - intros j Hj. by rewrite !list_lookup_insert_ne.
Qed.

Lemma becomes_trans r1 r2 r3 k i i' : becomes r1 k i r2 -> becomes r2 k i' r3 -> becomes r1 k i' r3.
Proof. intros [_ H1] [H2 H2']. split; [done |]. intros j Hj. by rewrite H2', H1. Qed.

Lemma becomes_same r1 r2 r3 k i : becomes r1 k i r2 -> same_info r2 r3 -> becomes r1 k i r3.
Proof. intros [H1 H1'] H2. split; [by rewrite H2 |]. intros j Hj. by rewrite H2, H1'. Qed.

(** ** Slots borrowed, given back and taken *)

Definition cell_info (l : LocalSlot) (c : SlotCell) : SlotInfo :=
  mkInfo (slot_state (sl_entry c)) (slot_generation (sl_entry c))
    (mkLocal (sl_op c) (sl_platform c) (sl_storage c) (ls_active l) (ls_generation l)).

Lemma commit_info r token c c' l : reg_inv r -> 0 <= tk_index token -> slot_bundle r (tk_index token) = Some c ->
  rg_local r !! Z.to_nat (tk_index token) = Some l -> in_use (slot_state (sl_entry c)) -> edited c c' ->
  exists r', commit_slot r c' = Ret r' /\ reg_inv r' /\
    becomes r (Z.to_nat (tk_index token)) (cell_info l c') r' /\ rg_active_count r' = rg_active_count r /\
    length (rg_local r') = length (rg_local r).
Proof.
  intros Hr Hi Hb Hl Hu He. destruct (commit_inv _ _ _ _ Hr Hi Hb Hu He) as (r' & l' & Hc & Hr' & Hl' & ->).
  rewrite Hl in Hl'. injection Hl' as <-. eexists. split; [exact Hc |]. split; [done |]. unfold slot_bundle in Hb.
  destruct (tb_slots (rg_shared r) !! Z.to_nat (tk_index token)) as [d |] eqn:Hd; [| done].
  split_and!; [by eapply becomes_insert | done | cbn; by rewrite length_insert].
Qed.

Lemma remove_info r token i : reg_inv r -> 0 <= tk_index token ->
  slot_info r (Z.to_nat (tk_index token)) = Some i ->
  exists r' o, registry_remove r token = Ret (r', o) /\ reg_inv r' /\ length (rg_local r') = length (rg_local r) /\
    if ls_active (si_local i) && (ls_generation (si_local i) =? tk_generation token) then
      o = Some (ls_platform (si_local i)) /\
      becomes r (Z.to_nat (tk_index token))
        (mkInfo (if state_eqb (si_state i) InFlightReady then InFlightReady else Idle) (si_generation i)
           (vacated (si_local i))) r'
    else o = None /\ r' = r.
Proof.
  intros Hr Hi Hinfo. apply slot_info_parts in Hinfo as (d & Hd & Hl & Hst & Hg).
  destruct (remove_inv r token Hr Hi) as (r' & o & Hrem & Hr'). exists r', o. split; [done |]. split; [done |].
  destruct (ls_active (si_local i)) eqn:Ha; [destruct (Z.eqb_spec (ls_generation (si_local i)) (tk_generation token)) as [Hlg | Hlg] |].
  - pose proof Hr as [(L & R & Ho) _]. rewrite (remove_active r L R token d _ Ho Hi Hd Hl Ha Hlg) in Hrem.
    injection Hrem as <- <-. cbn [andb]. split; [cbn; by rewrite length_insert |]. split; [done |].
    replace (mkInfo _ _ _) with (mkInfo (slot_state (set_next_free (slot_free d) (tb_remote_free_head (rg_shared r))))
      (slot_generation d) (vacated (si_local i))) by (rewrite <- Hst, <- Hg; done).
    exact (becomes_insert r (released r _ d _ slot_free _) _ d _ (set_next_free (slot_free d) _) _ Hd Hl eq_refl eq_refl).
  - unfold registry_remove, token_parts in Hrem. rewrite Hl, Ha in Hrem. cbn [negb orb] in Hrem.
    rewrite (proj2 (Z.eqb_neq _ _) Hlg) in Hrem. injection Hrem as <- <-. done.
  - unfold registry_remove, token_parts in Hrem. rewrite Hl, Ha in Hrem. injection Hrem as <- <-. done.
Qed.

Lemma alloc_info r data : reg_inv r ->
  exists r' res, registry_alloc r data = Ret (r', res) /\ reg_inv r' /\ length (rg_local r') = length (rg_local r) /\
    match res with
    | Ok hd => 0 <= oh_index hd < Z.of_nat (length (rg_local r)) /\ 0 <= oh_generation hd < 2 ^ 32 /\
        (exists i, slot_info r (Z.to_nat (oh_index hd)) = Some i /\ si_state i = Idle) /\
        becomes r (Z.to_nat (oh_index hd))
          (mkInfo Reserved (oh_generation hd) (mkLocal None data storage_new true (oh_generation hd))) r'
    | Err _ => same_info r r'
    end.
Proof.
  intros Hr. destruct (alloc_inv r data Hr) as (r' & res & He & Hr'). exists r', res. split; [done |]. split; [done |].
  pose proof Hr as [(L & R & Ho) _]. destruct (registry_alloc_ok r L R data Ho) as (r2 & res2 & He2 & Hs).
  rewrite He in He2. injection He2 as <- <-. pose proof Ho as [Hlen Hcap HL HR _ _ _ _ _].
  destruct Hs as [(pre & i & post & d & HS & _ & Hd & Hst & -> & _ & Hloc & (Hcells & _)) |
                  (_ & -> & _ & Hloc & (Hcells & _))].
  - assert (Hin : i ∈ searched L R) by (rewrite HS, elem_of_app, elem_of_cons; auto).
    assert (Hi : 0 <= i < Z.of_nat (length (rg_local r))).
    { rewrite Hlen. destruct L; [exact (chain_range _ _ _ _ HR Hin) | exact (chain_range _ _ _ _ HL Hin)]. }
    destruct (lookup_lt_is_Some_2 (rg_local r) (Z.to_nat i)) as [l Hl]; [lia |].
    split; [rewrite Hloc; cbn; by rewrite length_insert |]. cbn [oh_index oh_generation]. split_and!; try lia.
    1, 2: apply fresh_generation_range.
    + exists (mkInfo (slot_state d) (slot_generation d) l). split; [| done].
      apply slot_info_parts. by exists d.
    + eapply becomes_same; [| eapply same_info_cells; [exact Hcells | exact Hloc]].
      by eapply (becomes_insert r (occupied r i d data) _ d l (slot_set_state Reserved (slot_reset (fresh_generation d) d))).
  - split; [by rewrite Hloc |]. by eapply same_info_cells.
Qed.

(** Work on the private half through [active_slot_bundle_mut]. *)
Lemma local_mut_info {X} r token (f : LocalSlot -> LocalSlot * X) i : reg_inv r -> 0 <= tk_index token ->
  slot_info r (Z.to_nat (tk_index token)) = Some i ->
  (forall l, ls_active (f l).1 = ls_active l) ->
  exists r' o, active_local_mut r token f = Ret (r', o) /\ reg_inv r' /\ length (rg_local r') = length (rg_local r) /\
    if (si_generation i =? tk_generation token) && negb (state_eqb (si_state i) Idle) then
      o = Some (f (si_local i)).2 /\
      becomes r (Z.to_nat (tk_index token)) (mkInfo (si_state i) (si_generation i) (f (si_local i)).1) r'
    else o = None /\ r' = r.
Proof.
  intros Hr Hi Hinfo Ha. apply slot_info_parts in Hinfo as (d & Hd & Hl & Hst & Hg).
  unfold active_local_mut, is_current_active, token_parts. rewrite Hd, Hg, Hst.
  destruct (_ && _); cbn [negb]; [| by eexists _, _]. rewrite Hl. specialize (Ha (si_local i)).
  destruct (f (si_local i)) as [l' x] eqn:Hf. cbn [fst snd] in *.
  pose proof (lookup_lt_Some _ _ _ Hl). rewrite vec_set_in_range, bind_ret by lia. eexists _, _. split; [done |].
  split; [| split; [cbn; by rewrite length_insert |]].
  - by eapply (reg_inv_local _ _ (Z.to_nat (tk_index token)) (si_local i) l').
  - split; [done |]. rewrite <- Hst, <- Hg. eapply (becomes_insert r _ _ d _ d l' Hd Hl); [| done].
    cbn. by rewrite list_insert_id.
Qed.

Lemma storage_mut_info {X} r token (f : SlotStorage -> SlotStorage * X) i : reg_inv r -> 0 <= tk_index token ->
  slot_info r (Z.to_nat (tk_index token)) = Some i ->
  exists r' o, with_slot_storage_mut r token f = Ret (r', o) /\ reg_inv r' /\ length (rg_local r') = length (rg_local r) /\
    if (si_generation i =? tk_generation token) && negb (state_eqb (si_state i) Idle) then
      o = Some (f (ls_storage (si_local i))).2 /\
      becomes r (Z.to_nat (tk_index token)) (mkInfo (si_state i) (si_generation i)
        (mkLocal (ls_op (si_local i)) (ls_platform (si_local i)) (f (ls_storage (si_local i))).1
           (ls_active (si_local i)) (ls_generation (si_local i)))) r'
    else o = None /\ r' = r.
Proof.
  intros Hr Hi Hinfo.
  destruct (local_mut_info r token (fun l => let (s, x) := f (ls_storage l) in
    (mkLocal (ls_op l) (ls_platform l) s (ls_active l) (ls_generation l), x)) i Hr Hi Hinfo) as (r' & o & He & Hs).
  { intros l. by destruct (f (ls_storage l)). }
  exists r', o. split.
  - rewrite <- He. unfold with_slot_storage_mut, active_local_mut. destruct (negb (is_current_active r token)); [done |].
    destruct (rg_local r !! _) as [l |]; [| done]. by destruct (f (ls_storage l)).
  - destruct Hs as (H1 & H2 & H3). split_and!; [done | done |]. destruct (_ && _); [| done].
    by destruct (f (ls_storage (si_local i))).
Qed.
End info.

(** A new registry. *)
Lemma new_info `{Spec : SlotSpec} (capacity : nat) : Z.of_nat capacity <= NULL_INDEX ->
  exists r, registry_new capacity = Ret r /\ reg_inv r /\
    forall k i, slot_info r k = Some i -> si_state i = Idle /\ si_generation i = 0 /\ (k < capacity)%nat.
Proof.
  intros Hc. destruct (new_inv capacity Hc) as (r & He & Hr). exists r. split; [done |]. split; [done |].
  destruct (registry_new_ok capacity Hc) as (r' & He' & _ & _ & [Hlen Hcells] & _). rewrite He in He'. injection He' as <-.
  intros k i (d & Hd & _ & Hst & Hg)%slot_info_parts. pose proof (lookup_lt_Some _ _ _ Hd) as Hlt.
  rewrite Hlen in Hlt. cbn in Hlt. rewrite length_replicate in Hlt.
  destruct (Hcells k slot_data_new) as [n Hn]; [by apply lookup_replicate |].
  rewrite Hd in Hn. injection Hn as ->. by rewrite <- Hst, <- Hg.
Qed.

(** ** The flow of completions *)

Section flow_info.
Context `{Spec : SlotSpec} {H : Type} `{Hooks : !CompletionBackendHooks H}.
Notation St := (OpRegistry * H)%type.
Implicit Types (s : St) (r : OpRegistry) (token : OpToken).

(** In flight, as the registry sees it. *)
Definition flying token (i : SlotInfo) : Prop :=
  0 <= tk_index token /\ (si_state i = InFlightWaiting \/ si_state i = InFlightOrphaned) /\
  si_generation i = tk_generation token /\ ls_active (si_local i) = true /\
  ls_generation (si_local i) = tk_generation token /\
  is_Some (ls_op (si_local i)) /\ is_Some (sg_payload (ls_storage (si_local i))).

Lemma flying_in_flight r token i : flying token i -> slot_info r (Z.to_nat (tk_index token)) = Some i ->
  exists d, in_flight r token (si_state i) d (si_local i).
Proof.
  intros (Hi & _ & Hg & Ha & Hlg & [o Ho] & [p Hp]) Hinfo. apply slot_info_parts in Hinfo as (d & Hd & Hl & Hs & Hgd).
  exists d. unfold in_flight. rewrite Ho, Hp. split_and!; try done. congruence.
Qed.

(** What the operation leaves when it is over: a record, or nothing. *)
Definition over (i : SlotInfo) (st : SlotState) : SlotInfo := mkInfo st (si_generation i) (vacated (si_local i)).

(** After the hook: recording a result, or only cleaning up. *)
Lemma finish_user_info r h1 h2 e e' pl de cl eff i : reg_inv r -> 0 <= tk_index (ue_token e) ->
  slot_info r (Z.to_nat (tk_index (ue_token e))) = Some i -> si_state i = InFlightWaiting ->
  si_generation i = tk_generation (ue_token e) -> ls_active (si_local i) = true ->
  ls_generation (si_local i) = tk_generation (ue_token e) -> ue_token e' = ue_token e ->
  finish_backend_effect h1 eff = (h2, Ok tt) ->
  exists s', finish_hook_outcome (r, h1) (HookUser e' pl de cl eff) (Some (FinalizeWaiting e)) =
      Ret (s', Ok flow_user_completed) /\
    s'.2 = h2 /\ reg_inv s'.1 /\ length (rg_local s'.1) = length (rg_local r) /\
    becomes r (Z.to_nat (tk_index (ue_token e))) (over i InFlightReady) s'.1.
Proof.
  intros Hr Hi Hinfo Hst Hgen Ha Hlg He' Heff. set (k := Z.to_nat (tk_index (ue_token e))) in *.
  cbn [finish_hook_outcome fst snd]. unfold and_then at 1, lift_hook_guarding. cbn [fst snd].
  rewrite Heff, bind_ret. cbn [fst snd]. unfold record_user_completion. cbn [fst snd].
  apply slot_info_parts in Hinfo as (d & Hd & Hl & Hs & Hg). rewrite Hst in Hs. rewrite Hgen in Hg.
  set (p := packet_user_with_cleanup e' pl de cl).
  assert (Hp : packet_token p = ue_token e) by exact He'.
  destruct (record_release r p d (si_local i)) as (Hrec & Hrem & Hr3 & Hd3 & Hl3); rewrite ?Hp; try done.
  rewrite Hp in *. fold k in Hrec, Hrem, Hr3, Hd3, Hl3.
  rewrite Hrec, !bind_ret. cbn [fst snd]. unfold and_then, finish_waiting_if_needed, finalize_checked. cbn [fst snd].
  rewrite Hrem, !bind_ret. eexists. split; [done |]. split; [done |]. split; [exact Hr3 |].
  split; [cbn; by rewrite length_insert |]. cbn [fst]. split.
  - apply slot_info_parts. eexists. split; [exact Hd3 |]. split_and!; [exact Hl3 | done | by rewrite <- Hgen in Hg].
  - intros j Hj. unfold slot_info. cbn. by rewrite !list_lookup_insert_ne.
Qed.

Lemma finish_cleanup_info r h1 h2 e cl eff i (fin : FinalizeAction) : reg_inv r -> 0 <= tk_index (ue_token e) ->
  slot_info r (Z.to_nat (tk_index (ue_token e))) = Some i -> si_state i <> InFlightReady ->
  ls_active (si_local i) = true -> ls_generation (si_local i) = tk_generation (ue_token e) ->
  fin = FinalizeWaiting e \/ fin = FinalizeOrphaned e ->
  finish_backend_effect h1 eff = (h2, Ok tt) ->
  exists s', finish_hook_outcome (r, h1) (HookCleanup cl eff) (Some fin) = Ret (s', Ok flow_orphan_cleaned) /\
    s'.2 = h2 /\ reg_inv s'.1 /\ length (rg_local s'.1) = length (rg_local r) /\
    becomes r (Z.to_nat (tk_index (ue_token e))) (over i Idle) s'.1.
Proof.
  intros Hr Hi Hinfo Hst Ha Hlg Hfin Heff. set (k := Z.to_nat (tk_index (ue_token e))) in *.
  cbn [finish_hook_outcome fst snd]. unfold and_then at 1, lift_hook_guarding. cbn [fst snd].
  rewrite Heff, bind_ret. cbn [fst snd]. unfold update_table. cbn [fst snd].
  set (r2 := set_shared r (run_completion_cleanup (rg_shared r) cl).1.1).
  assert (Hr2 : reg_inv r2) by (apply cleanup_inv; by rewrite set_shared_id).
  assert (Hsame : same_info r r2).
  { intros j. unfold slot_info, r2. cbn. unfold run_completion_cleanup, guard_run. destruct cl as [g |]; [| done].
    cbn. by destruct (cleanup_result g). }
  destruct (remove_info r2 (ue_token e) i Hr2 Hi) as (r3 & o3 & Hrem & Hr3 & Hlen3 & H3); [by rewrite Hsame |].
  rewrite Ha, Hlg, Z.eqb_refl in H3. destruct H3 as [-> Hb3]. exists (r3, h2).
  replace (state_eqb (si_state i) InFlightReady) with false in Hb3
    by (symmetry; unfold state_eqb; by apply bool_decide_eq_false_2).
  split; [| split_and!; [done | done | exact Hlen3 |]].
  - destruct Hfin as [-> | ->]; unfold and_then, finish_waiting_if_needed, finish_orphaned, finalize_checked;
      cbn [fst snd]; by rewrite Hrem, !bind_ret.
  - split; [apply Hb3 |]. intros j Hj. cbn [fst]. by rewrite (proj2 Hb3 j Hj), Hsame.
Qed.

(** A hook that keeps the state of its slot, and finishes the operation. *)
Definition hook_finishes (e : UserCompletionEvent) (o : CompletionHookOutcome BackendEffect) (eff : BackendEffect) : Prop :=
  (exists e' pl de cl, ue_token e' = ue_token e /\ o = HookUser e' pl de cl eff) \/ exists cl, o = HookCleanup cl eff.

Lemma accept_waiting_info s e src i h1 h2 c' o eff :
  reg_inv s.1 -> slot_info s.1 (Z.to_nat (tk_index (ue_token e))) = Some i -> flying (ue_token e) i ->
  si_state i = InFlightWaiting ->
  (forall d, slot_state d = InFlightWaiting ->
     complete_waiting s.2 e (flight_cell (ue_token e) d (si_local i)) src = (h1, c' d, Ok o) /\
     slot_edit (flight_cell (ue_token e) d (si_local i)) (c' d) /\ slot_state (sl_entry (c' d)) = InFlightWaiting) ->
  hook_finishes e o eff -> finish_backend_effect h1 eff = (h2, Ok tt) ->
  exists s' x st, accept_user_event s e src = Ret (s', Ok x) /\ s'.2 = h2 /\ reg_inv s'.1 /\
    length (rg_local s'.1) = length (rg_local s.1) /\ (st = InFlightReady \/ st = Idle) /\
    (x = flow_user_completed \/ x = flow_orphan_cleaned) /\
    becomes s.1 (Z.to_nat (tk_index (ue_token e))) (over i st) s'.1.
Proof.
  intros Hinv Hinfo Hfl Hw Hhook Ho Heff. destruct (flying_in_flight _ _ _ Hfl Hinfo) as [d Hf].
  pose proof Hf as (Hi & Hd & Hl & Hs & Hg & Ha & Hlg & _). rewrite Hw in Hf, Hs.
  destruct (Hhook d Hs) as (Hcomp & Hedit & Hst). set (k := Z.to_nat (tk_index (ue_token e))) in *.
  pose proof (slot_edit_edited _ _ Hedit) as Hed.
  assert (Hu : in_use (slot_state d)) by (rewrite Hs; right; by left).
  destruct (commit_info _ _ _ _ _ Hinv Hi (flight_bundle _ _ _ _ _ Hf) Hl Hu Hed) as (r1 & Hc & Hr1 & Hb1 & _ & Hlen1).
  fold k in Hb1. destruct Hed as (_ & _ & Hgen & _ & _ & _). cbn [flight_cell sl_entry] in Hgen.
  assert (Hacc : accept_user_event s e src = finish_hook_outcome (r1, h1) o (Some (FinalizeWaiting e))).
  { unfold accept_user_event. rewrite (flight_view _ _ _ _ _ Hf) by (by left).
    change (state_eqb InFlightWaiting InFlightWaiting) with true. cbv iota.
    change (route_user_completion e (Valid (ViewWaiting ?c))) with
      (Ret (Ok (RoutedWaiting c) : result RoutedSlotCompletion SError)). rewrite bind_ret, Hcomp.
    unfold with_hook_slot. by rewrite Hc, bind_ret. }
  rewrite Hacc. pose proof (proj1 Hb1) as Hinfo1.
  assert (Hov : forall st, over (cell_info (si_local i) (c' d)) st = over i st).
  { intros st. unfold over, cell_info. cbn. rewrite Hgen, Hg. destruct Hfl as (_ & _ & -> & _). done. }
  assert (Hg1 : si_generation (cell_info (si_local i) (c' d)) = tk_generation (ue_token e)) by (cbn; congruence).
  destruct Ho as [(e' & pl & de & cl & He' & ->) | [cl ->]].
  - destruct (finish_user_info r1 h1 h2 e e' pl de cl eff _ Hr1 Hi Hinfo1 Hst Hg1 Ha Hlg He' Heff) as (s' & He & H1 & H2 & H3 & H4).
    rewrite Hov in H4. exists s', flow_user_completed, InFlightReady.
    split_and!; [done .. | congruence | by left | by left | by eapply becomes_trans].
  - destruct (finish_cleanup_info r1 h1 h2 e cl eff _ (FinalizeWaiting e) Hr1 Hi Hinfo1) as (s' & He & H1 & H2 & H3 & H4);
      [cbn; by rewrite Hst | done | done | by left | done |].
    rewrite Hov in H4. exists s', flow_orphan_cleaned, Idle.
    split_and!; [done .. | congruence | by right | by right | by eapply becomes_trans].
Qed.

Lemma accept_orphaned_info s e src i h1 h2 c' cl eff :
  reg_inv s.1 -> slot_info s.1 (Z.to_nat (tk_index (ue_token e))) = Some i -> flying (ue_token e) i ->
  si_state i = InFlightOrphaned ->
  (forall d, slot_state d = InFlightOrphaned ->
     complete_orphaned s.2 e (flight_cell (ue_token e) d (si_local i)) src = (h1, c' d, Ok (HookCleanup cl eff)) /\
     slot_edit (flight_cell (ue_token e) d (si_local i)) (c' d) /\ slot_state (sl_entry (c' d)) = InFlightOrphaned) ->
  finish_backend_effect h1 eff = (h2, Ok tt) ->
  exists s', accept_user_event s e src = Ret (s', Ok flow_orphan_cleaned) /\ s'.2 = h2 /\ reg_inv s'.1 /\
    length (rg_local s'.1) = length (rg_local s.1) /\
    becomes s.1 (Z.to_nat (tk_index (ue_token e))) (over i Idle) s'.1.
Proof.
  intros Hinv Hinfo Hfl Hw Hhook Heff. destruct (flying_in_flight _ _ _ Hfl Hinfo) as [d Hf].
  pose proof Hf as (Hi & Hd & Hl & Hs & Hg & Ha & Hlg & _). rewrite Hw in Hf, Hs.
  destruct (Hhook d Hs) as (Hcomp & Hedit & Hst). set (k := Z.to_nat (tk_index (ue_token e))) in *.
  pose proof (slot_edit_edited _ _ Hedit) as Hed.
  assert (Hu : in_use (slot_state d)) by (rewrite Hs; right; by right).
  destruct (commit_info _ _ _ _ _ Hinv Hi (flight_bundle _ _ _ _ _ Hf) Hl Hu Hed) as (r1 & Hc & Hr1 & Hb1 & _ & Hlen1).
  fold k in Hb1. destruct Hed as (_ & _ & Hgen & _ & _ & _). cbn [flight_cell sl_entry] in Hgen.
  assert (Hacc : accept_user_event s e src = finish_hook_outcome (r1, h1) (HookCleanup cl eff) (Some (FinalizeOrphaned e))).
  { unfold accept_user_event. rewrite (flight_view _ _ _ _ _ Hf) by (by right).
    change (state_eqb InFlightOrphaned InFlightWaiting) with false. cbv iota.
    change (route_user_completion e (Valid (ViewOrphaned ?c))) with
      (Ret (Ok (RoutedOrphaned c) : result RoutedSlotCompletion SError)). rewrite bind_ret, Hcomp.
    unfold with_hook_slot. by rewrite Hc, bind_ret. }
  rewrite Hacc.
  destruct (finish_cleanup_info r1 h1 h2 e cl eff _ (FinalizeOrphaned e) Hr1 Hi (proj1 Hb1)) as (s' & He & H1 & H2 & H3 & H4);
    [cbn; by rewrite Hst | done | done | by right | done |].
  exists s'. split_and!; [done .. | congruence |]. eapply becomes_trans; [exact Hb1 |].
  replace (over i Idle) with (over (cell_info (si_local i) (c' d)) Idle); [done |].
  unfold over, cell_info. cbn. rewrite Hgen, Hg. by destruct Hfl as (_ & _ & -> & _).
Qed.

(** A completion whose token does not name the slot's generation. *)
Lemma accept_stale_info s e src i :
  reg_inv s.1 -> slot_info s.1 (Z.to_nat (tk_index (ue_token e))) = Some i ->
  si_generation i <> tk_generation (ue_token e) ->
  (forall k, complete_corrupt s.2 e k src = (s.2, Ok (complete_corrupt_default backend_effect_default e k))) ->
  finish_backend_effect s.2 backend_effect_default = (s.2, Ok tt) ->
  exists s', accept_user_event s e src = Ret (s', Ok flow_anomaly) /\ s'.2 = s.2 /\ reg_inv s'.1 /\
    same_info s.1 s'.1 /\ rg_local s'.1 = rg_local s.1.
Proof.
  intros Hinv Hinfo Hne Hcor Heff. apply slot_info_parts in Hinfo as (d & Hd & Hl & _ & Hg).
  assert (Hv : exists sn, checked_slot_view s.1 (ue_token e) = Ok (StaleView sn)).
  { unfold checked_slot_view, token_parts, slot_bundle. rewrite Hd, Hl. cbn [slot_snapshot sn_generation sl_entry].
    rewrite Hg, (proj2 (Z.eqb_neq _ _) Hne). cbn [negb]. by eexists. }
  destruct Hv as [sn Hv]. unfold accept_user_event. rewrite Hv.
  unfold route_user_completion, slot_view_kind, token_parts. cbn [kind_reason]. rewrite bind_ret.
  unfold and_then, lift_hook. rewrite bind_ret, Hcor. cbn [fst snd].
  unfold complete_corrupt_default. cbn [finish_hook_outcome]. unfold and_then, lift_hook. rewrite bind_ret.
  cbn [update_table fst snd]. rewrite Heff. cbn [fst snd]. eexists. split; [done |]. cbn [fst snd].
  split_and!; [done | by apply reg_inv_only; [| apply note_anomaly_only] | | done].
  apply same_info_diagnostics, note_anomaly_only.
Qed.
End flow_info.

(** ** Calls of the futures *)

Section table_info.
Context `{Spec : SlotSpec}.
Implicit Types (r : OpRegistry) (t : SlotTable) (token : OpToken).

(** A future abandons its waiting operation, or takes or drops its record. *)
Definition future_step (i i' : SlotInfo) : Prop :=
  (si_state i = InFlightWaiting /\ i' = mkInfo InFlightOrphaned (si_generation i) (si_local i)) \/
  (si_state i = InFlightReady /\ i' = mkInfo Idle (wrapping_add U32 (si_generation i) 1) (si_local i)).

Definition future_call {X : Type} r token (m : outcome (SlotTable * X)) : Prop :=
  exists t x, m = Ret (t, x) /\ reg_inv (set_shared r t) /\
    (same_info r (set_shared r t) \/
     exists i i', slot_info r (Z.to_nat (tk_index token)) = Some i /\ si_generation i = tk_generation token /\
       future_step i i' /\ becomes r (Z.to_nat (tk_index token)) i' (set_shared r t)).

Lemma future_call_only {X} r token (m : outcome (SlotTable * X)) :
  table_call r m -> (forall t x, m = Ret (t, x) -> same_info r (set_shared r t)) -> future_call r token m.
Proof. intros (t & x & He & Hi) Hs. exists t, x. split_and!; [done | done |]. left. by apply (Hs t x). Qed.

Lemma same_info_mutation r token o t x : Ret (recorded_mutation (rg_shared r) token o) = Ret (t, x) ->
  same_info r (set_shared r t).
Proof.
  destruct (recorded_mutation_only (rg_shared r) token o) as (t' & Ho & ->). intros [= <- _].
  by apply same_info_diagnostics.
Qed.

Lemma becomes_shared r k d d' t : tb_slots (rg_shared r) !! k = Some d ->
  tb_slots t = <[k := d']> (tb_slots (rg_shared r)) -> forall i, slot_info r k = Some i ->
  becomes r k (mkInfo (slot_state d') (slot_generation d') (si_local i)) (set_shared r t).
Proof.
  intros Hd Ht i Hi. apply slot_info_parts in Hi as (d2 & Hd2 & Hl & _). rewrite Hd in Hd2. injection Hd2 as <-.
  eapply becomes_insert; [exact Hd | exact Hl | exact Ht |]. cbn. by rewrite list_insert_id.
Qed.

Lemma slot_info_cell r k d : reg_inv r -> tb_slots (rg_shared r) !! k = Some d ->
  exists i, slot_info r k = Some i /\ si_state i = slot_state d /\ si_generation i = slot_generation d.
Proof.
  intros [(L & R & Ho) _] Hd. pose proof (lookup_lt_Some _ _ _ Hd). pose proof (ro_len _ _ _ _ Ho).
  destruct (lookup_lt_is_Some_2 (rg_local r) k) as [l Hl]; [lia |].
  exists (mkInfo (slot_state d) (slot_generation d) l). split; [| done]. apply slot_info_parts. by exists d.
Qed.

(** A ready record leaves its slot. *)
Lemma taken_info r token d t : reg_inv r -> 0 <= tk_index token ->
  tb_slots (rg_shared r) !! Z.to_nat (tk_index token) = Some d -> slot_state d = InFlightReady ->
  slot_generation d = tk_generation token ->
  tb_slots t = tb_slots (taken (rg_shared r) (Z.to_nat (tk_index token)) d) ->
  exists i i', slot_info r (Z.to_nat (tk_index token)) = Some i /\ si_generation i = tk_generation token /\
    future_step i i' /\ becomes r (Z.to_nat (tk_index token)) i' (set_shared r t).
Proof.
  intros Hr Hi Hd Hst Hg Ht. destruct (slot_info_cell _ _ _ Hr Hd) as (i & Hinfo & Hs & Hgi).
  exists i, (mkInfo Idle (wrapping_add U32 (si_generation i) 1) (si_local i)). split_and!; [done | congruence | |].
  - right. split; [congruence | done].
  - rewrite Hgi. by apply (becomes_shared r _ d (taken_cell d) t Hd Ht i).
Qed.

Lemma take_info r token : reg_inv r -> 0 <= tk_index token ->
  future_call r token (try_take_record (rg_shared r) token).
Proof.
  intros Hr Hi. destruct (take_ok r token Hr Hi) as (t & x & He & Ht). exists t, x. split_and!; [done | done |].
  unfold try_take_record, token_parts in He.
  destruct (cell_cases r _ Hi) as [Hc | (Hc & d & Hd & Hv)]; rewrite Hc in He; cbn [negb] in He.
  { injection He as <- _. left. apply same_info_diagnostics, note_anomaly_only. }
  rewrite Hv, bind_ret in He.
  destruct (tk_generation token <? _) eqn:H1; [injection He as <- _; left; apply same_info_diagnostics, note_anomaly_only |].
  destruct (_ <? tk_generation token) eqn:H2; [injection He as <- _; left; apply same_info_diagnostics, note_anomaly_only |].
  assert (Hg : slot_generation d = tk_generation token) by (unfold slot_generation; lia).
  destruct (cs_state (sd_core d)) eqn:Hst;
    try (injection He as <- _; left; apply same_info_diagnostics; first [apply note_anomaly_only | apply only_diagnostics_refl]).
  right. rewrite (take_ready _ _ _ Hi Hd Hst Hg), bind_ret in He.
  eapply taken_info; try done. by destruct (sd_data d); injection He as <- _.
Qed.

Lemma discard_info r token : reg_inv r -> 0 <= tk_index token ->
  future_call r token (discard_ready_record (rg_shared r) token).
Proof.
  intros Hr Hi. destruct (discard_ok r token Hr Hi) as (t & x & He & Ht). exists t, x. split_and!; [done | done |].
  unfold discard_ready_record, token_parts in He.
  destruct (cell_cases r _ Hi) as [Hc | (Hc & d & Hd & Hv)]; rewrite Hc in He; cbn [negb] in He;
    [left; by eapply same_info_mutation |].
  rewrite Hv, bind_ret in He.
  destruct (slot_state d) eqn:Hst; destruct (Z.eqb_spec (slot_generation d) (tk_generation token)) as [Hg | Hg];
    try done; try (left; by eapply same_info_mutation).
  right. rewrite (take_ready _ _ _ Hi Hd Hst Hg), bind_ret in He.
  destruct (recorded_mutation_only (run_discarded_record_cleanup (taken (rg_shared r) (Z.to_nat (tk_index token)) d) (sd_data d))
    token Applied) as (t' & [dg ->] & Hm). rewrite Hm in He. injection He as <- _.
  eapply taken_info; try done. cbn [set_diagnostics tb_slots]. destruct (sd_data d) as [| e pl de [c |]]; [done | | done].
  cbn. unfold run_completion_cleanup. cbn. by destruct (cleanup_result c).
Qed.

Lemma future_call_rejected r token o : reg_inv r ->
  future_call r token (Ret (recorded_mutation (rg_shared r) token o)).
Proof. intros Hr. apply future_call_only; [by apply table_call_rejected | intros t x; apply same_info_mutation]. Qed.

Lemma orphan_info r token : reg_inv r -> 0 <= tk_index token ->
  future_call r token (mark_orphaned (rg_shared r) token).
Proof.
  intros Hr Hi. unfold mark_orphaned. unfold token_parts at 1.
  destruct (cell_cases r _ Hi) as [-> | (-> & d & Hd & ->)]; cbn [negb]; [by apply future_call_rejected |].
  rewrite bind_ret. destruct (reg_inv_cell _ _ _ Hr Hd) as [Hf _].
  destruct (slot_state d) eqn:Hst; try done; destruct (Z.eqb_spec (slot_generation d) (tk_generation token)) as [Hg | Hg];
    try by apply future_call_rejected.
  - rewrite (with_slot_ok _ _ _ _ Hi Hd), bind_ret. set (d' := set_core d _). set (t1 := set_slots _ _).
    destruct (recorded_mutation_only t1 token Applied) as (t' & [dg ->] & ->).
    destruct (slot_info_cell _ _ _ Hr Hd) as (i & Hinfo & Hs & Hgi). eexists _, _. split; [done |]. split.
    + change (set_shared r (set_diagnostics t1 dg)) with (set_shared (set_shared r t1) (set_diagnostics t1 dg)).
      apply reg_inv_only; [| by eexists]. apply (touched_inv r _ d); try done.
      * unfold slot_generation. cbn. rewrite <- Hg. exact (reg_inv_gen _ _ _ Hr Hd).
      * rewrite (is_ready_not d) by (by rewrite Hst). done.
    + right. exists i, (mkInfo InFlightOrphaned (si_generation i) (si_local i)). split_and!; [done | congruence | |].
      * left. split; [congruence | done].
      * rewrite Hgi. replace (slot_generation d) with (slot_generation d') by (cbn; by rewrite <- Hg).
        by apply (becomes_shared r _ d d' _ Hd).
  - by apply discard_info.
Qed.

Lemma waker_info r token (w : Waker) : reg_inv r -> 0 <= tk_index token ->
  exists t x, register_waker (rg_shared r) token w = Ret (t, x) /\ reg_inv (set_shared r t) /\ same_info r (set_shared r t).
Proof.
  intros Hr Hi. destruct (waker_ok r token w Hr Hi) as (t & x & He & Ht). exists t, x. split_and!; [done | done |].
  unfold register_waker, token_parts in He.
  destruct (cell_cases r _ Hi) as [Hc | (Hc & d & Hd & Hv)]; rewrite Hc in He; cbn [negb] in He;
    [by eapply same_info_mutation |].
  rewrite Hv, bind_ret in He. destruct (negb _); [by eapply same_info_mutation |].
  rewrite (with_slot_ok _ _ _ _ Hi Hd), bind_ret in He. set (d' := set_waker d (Some w)) in *.
  pose proof (lookup_lt_Some _ _ _ Hd) as Hlt.
  erewrite vec_get_lookup in He; [| done | cbn; by apply list_lookup_insert_eq]. rewrite bind_ret in He.
  assert (Hsame : forall l o y, Ret (recorded_mutation (emit (set_slots (rg_shared r) (<[Z.to_nat (tk_index token) := d']> (tb_slots (rg_shared r)))) l) token o) = Ret (y, x) ->
    same_info r (set_shared r y)).
  { intros l o y Hy. destruct (recorded_mutation_only (emit (set_slots (rg_shared r) (<[Z.to_nat (tk_index token) := d']> (tb_slots (rg_shared r)))) l) token o)
      as (t' & [dg ->] & Hm). rewrite Hm in Hy. injection Hy as <- _. intros k. unfold slot_info. cbn.
    destruct (decide (k = Z.to_nat (tk_index token))) as [-> | Hk]; [| by rewrite list_lookup_insert_ne].
    rewrite list_lookup_insert_eq by done. by rewrite Hd. }
  assert (Hemit : forall t0 : SlotTable, emit t0 [] = t0) by (intros []; unfold emit; cbn; by rewrite app_nil_r).
  destruct (negb _); [rewrite <- (Hemit (set_slots _ _)) in He; by eapply Hsame |].
  destruct (_ && _); [by eapply Hsame |]. rewrite <- (Hemit (set_slots _ _)) in He. by eapply Hsame.
Qed.

Lemma waiting_info r token : reg_inv r -> 0 <= tk_index token ->
  exists t x, mark_waiting (rg_shared r) token = Ret (t, x) /\ reg_inv (set_shared r t) /\ same_info r (set_shared r t).
Proof.
  intros Hr Hi. destruct (waiting_ok r token Hr Hi) as (t & x & He & Ht). exists t, x. split_and!; [done | done |].
  unfold mark_waiting, token_parts in He.
  destruct (cell_cases r _ Hi) as [Hc | (Hc & d & Hd & Hv)]; rewrite Hc in He; cbn [negb] in He;
    [by eapply same_info_mutation |].
  rewrite Hv, bind_ret in He. destruct (negb _); [by eapply same_info_mutation |].
  destruct (slot_state d); try done; by eapply same_info_mutation.
Qed.
End table_info.
