(* ===== verification/OpFuture.v ===== *)
(** * veloq-driver-core: the futures of operations
      ([op.rs], [op/future.rs], the reserved slot of [driver.rs])

    How an operation is handed to a driver and its result comes back: a local
    future submits when it is first polled, a detached one before it exists.
    The driver is the class [Driver]; its completion table is shared with the
    futures, so the calls on the table go through the driver that owns it. *)

From stdpp Require Import strings.
From S2P Require Import Prelude Token SlotState Anomaly SlotTable Completion Registry Flow DriverApi.

(** ** Results *)

Inductive LostReason : Type := GenerationMismatch | PayloadMissing | PayloadTypeMismatch | OtherLoss.
#[global] Instance lost_reason_eq_dec : EqDecision LostReason.
Proof. solve_decision. Defined.

Section result.
Context `{Spec : SlotSpec}.

Record OpError : Type := mkOpError { oe_reason : LostReason; oe_source : SError }.
Definition is_lethal (e : OpError) : bool := bool_decide (oe_reason e = GenerationMismatch).

(** [DriverResult<R>]; the completed result and what the operation gives back. *)
Inductive OpResult (T R : Type) : Type :=
  | OpCompleted (res : result R SError) (data : T)
  | ResourceLost (e : OpError).
Arguments OpCompleted {T R}.
Arguments ResourceLost {T R}.

Definition op_unwrap {T R} (r : OpResult T R) : outcome (R * T) :=
  match r with OpCompleted (Ok res) data => Ret (res, data) | _ => Fault ExplicitPanic end.
Definition into_inner {T R} (r : OpResult T R) : result R SError * option T :=
  match r with OpCompleted res data => (res, Some data) | ResourceLost e => (Err (oe_source e), None) end.

Record OpCompletion (T R : Type) : Type := mkOpCompletion { ocp_result : result R SError; ocp_output : T }.
Arguments mkOpCompletion {T R}.
Arguments ocp_result {T R}.
Arguments ocp_output {T R}.

Definition from_anomaly_reason (reason : CompletionAnomalyReason) : LostReason :=
  match reason with
  | ReasonStaleGeneration => GenerationMismatch
  | ReasonUnknownSlot | ReasonNonActiveSlot | ReasonBackendContextUnknown | ReasonBackendSpecific _ => OtherLoss
  end.

Definition payload_missing : OpError := mkOpError PayloadMissing (from_core_report (InternalReport "driver-core/op")).
Definition payload_projection (source : SError) : OpError := mkOpError PayloadTypeMismatch source.
(** The notes of the report, which repeat kind and attachment, are left out. *)
Definition from_completion_anomaly (kind : CompletionAnomalyKind) : OpError :=
  mkOpError (from_anomaly_reason (kind_reason kind)) (from_core_report (InternalReport "driver-core/op")).

(** [CompletionValue] of the spec's completion. *)
Class CompletionValue : Type := { from_event_res : Z -> result SCompletion SError }.

(** [IntoPlatformOp] *)
Class IntoPlatformOp (T : Type) : Type := {
  UserPayload : Type;
  Output : Type;
  Completed : Type;
  into_kernel_and_payload : T -> SOp * UserPayload;
  payload_into_erased : UserPayload -> SPayload;
  try_payload_from_erased : SPayload -> result UserPayload SError;
  op_complete : UserPayload -> result SCompletion SError -> OpCompletion Output Completed
}.
End result.
Arguments OpCompleted {Spec T R}.
Arguments ResourceLost {Spec T R}.
Arguments mkOpCompletion {Spec T R}.
Arguments ocp_result {Spec T R}.
Arguments ocp_output {Spec T R}.

(** ** The driver, as a future sees it

    A sender of cancellations and a waker can be kept when the driver is not at
    hand; what they do reaches the driver they came from. *)
Class Driver `{Spec : SlotSpec} (D : Type) : Type := {
  drv_reserve_op : D -> outcome (D * result OpToken SError);
  drv_table : D -> SlotTable;
  drv_set_table : D -> SlotTable -> D;
  drv_set_payload : D -> OpToken -> SPayload -> outcome D;
  drv_take_payload : D -> OpToken -> outcome (D * option SPayload);
  drv_release : D -> OpToken -> outcome D;
  drv_submit : D -> OpToken -> option SOp -> outcome (D * (DriverSubmitResult SError * option SOp));
  drv_cancel : D -> CancelRequest -> outcome (D * result CancelSubmitOutcome SError);
  drv_send_cancel : D -> CancelRequest -> D;
  drv_wake : D -> outcome (D * result unit SError)
}.

Section future.
Context `{Spec : SlotSpec} {D : Type} `{!Driver D} `{!CompletionValue} {T : Type} `{!IntoPlatformOp T}.
Implicit Types (d : D) (token : OpToken).
Notation Result := (OpResult Output Completed).

(** A call on the shared table. *)
Definition on_table {X} d (m : outcome (SlotTable * X)) : outcome (D * X) := '(t, x) ← m; Ret (drv_set_table d t, x).

(** ** The reserved slot *)

Record ReservedOpSlot : Type := mkReservedSlot { rs_token : OpToken; rs_release_on_drop : bool }.
Definition reserved_new token : ReservedOpSlot := mkReservedSlot token true.
Definition persist (s : ReservedOpSlot) : ReservedOpSlot := mkReservedSlot (rs_token s) false.
Definition recover_payload d (s : ReservedOpSlot) : outcome (D * ReservedOpSlot * option SPayload) :=
  '(d, payload) ← drv_take_payload d (rs_token s);
  d ← drv_release d (rs_token s);
  Ret (d, persist s, payload).
Definition reserved_drop d (s : ReservedOpSlot) : outcome D :=
  if rs_release_on_drop s then drv_release d (rs_token s) else Ret d.

(** ** Taking the result *)

(** The clean-up runs, or is left to the receiver of the payload. *)
Definition from_completion_record d (r : CompletionRecord) : D * Result :=
  match try_payload_from_erased (rd_payload r) with
  | Err e =>
      let '(t, g, _) := guard_run (drv_table d) (rd_cleanup r) in
      (drv_set_table d (guard_drop t g), ResourceLost (payload_projection e))
  | Ok payload =>
      let (g, _) := guard_disarm (rd_cleanup r) in
      let res := default (from_event_res (ue_res (rd_event r))) (rd_detail r) in
      let completion := op_complete payload res in
      (drv_set_table d (guard_drop (drv_table d) g), OpCompleted (ocp_result completion) (ocp_output completion))
  end.

(** [None] is [Poll::Pending]. *)
Definition poll_table_once d token : outcome (D * option Result) :=
  '(d, r) ← on_table d (try_take_record (drv_table d) token);
  Ret match r with
      | Ok (PollReady record) => let (d, x) := from_completion_record d record in (d, Some x)
      | Ok (PollUnavailable kind _) => (d, Some (ResourceLost (from_completion_anomaly kind)))
      | Ok PollPending => (d, None)
      | Err report => (d, Some (ResourceLost (mkOpError OtherLoss report)))
      end.

(** Polling twice around the registration of the waker. *)
Definition poll_registering d token (w : Waker) : outcome (D * option Result) :=
  '(d, r) ← poll_table_once d token;
  match r with
  | Some r => Ret (d, Some r)
  | None =>
      '(d, _) ← on_table d (register_waker (drv_table d) token w);
      poll_table_once d token
  end.

(** ** Detached operations *)

Record DetachedOp : Type := mkDetached {
  dt_completion_table : bool;            (* whether it has the driver's *)
  dt_cancel_sender : bool;
  dt_cancel_waker : bool;
  dt_token : option OpToken;
  dt_immediate_failure : option (SError * UserPayload);
  dt_immediate_resource_lost : option OpError
}.
Definition detached_in_flight token : DetachedOp := mkDetached true true true (Some token) None None.
Definition detached_failed (e : SError) (payload : UserPayload) : DetachedOp :=
  mkDetached false false false None (Some (e, payload)) None.
Definition detached_lost (e : OpError) : DetachedOp := mkDetached false false false None None (Some e).

Definition submit_detached d (data : T) : outcome (D * DetachedOp) :=
  '(d, reserved) ← drv_reserve_op d;
  match reserved with
  | Ok token =>
      let slot := reserved_new token in
      let (kernel_op, payload) := into_kernel_and_payload data in
      d ← drv_set_payload d (rs_token slot) (payload_into_erased payload);
      '(d, (submitted, _)) ← drv_submit d (rs_token slot) (Some kernel_op);
      let in_flight d :=
        let slot := persist slot in
        d ← reserved_drop d slot;
        '(d, _) ← on_table d (mark_waiting (drv_table d) (rs_token slot));
        Ret (d, detached_in_flight (rs_token slot)) in
      match submitted with
      | Submitted _ | SubmitFailed _ InFlight => in_flight d
      | SubmitFailed report Void =>
          '(d, slot, erased) ← recover_payload d slot;
          d ← reserved_drop d slot;
          Ret (d, match erased with
                  | None => detached_lost payload_missing
                  | Some erased =>
                      match try_payload_from_erased erased with
                      | Err e => detached_lost (payload_projection e)
                      | Ok payload => detached_failed report payload
                      end
                  end)
      end
  | Err e =>
      let (_, payload) := into_kernel_and_payload data in
      Ret (d, detached_failed e payload)
  end.

Definition detached_poll d (o : DetachedOp) (w : Waker) : outcome (D * DetachedOp * option Result) :=
  match dt_immediate_failure o with
  | Some (e, payload) =>
      let completion := op_complete payload (Err e) in
      Ret (d, mkDetached (dt_completion_table o) (dt_cancel_sender o) (dt_cancel_waker o) (dt_token o) None (dt_immediate_resource_lost o),
           Some (OpCompleted (ocp_result completion) (ocp_output completion)))
  | None =>
      match dt_immediate_resource_lost o with
      | Some e =>
          Ret (d, mkDetached (dt_completion_table o) (dt_cancel_sender o) (dt_cancel_waker o) (dt_token o) None None, Some (ResourceLost e))
      | None =>
          _ ← (if dt_completion_table o then Ret tt else Fault ExpectFailed);
          token ← expect (dt_token o);
          '(d, r) ← poll_registering d token w;
          Ret (d, o, r)
      end
  end.

Definition detached_drop d (o : DetachedOp) : outcome D :=
  d ← match dt_token o with
      | Some token =>
          d ← (if dt_completion_table o then '(d, _) ← on_table d (mark_orphaned (drv_table d) token); Ret d else Ret d);
          Ret (if dt_cancel_sender o then drv_send_cancel d (cancel_abandon token) else d)
      | None => Ret d
      end;
  if dt_cancel_waker o then '(d, _) ← drv_wake d; Ret d else Ret d.

(** ** Local operations *)

Inductive LocalState : Type := LocalDefined | LocalSubmitted | LocalCompleted.
Record LocalOp : Type := mkLocalOp { lo_state : LocalState; lo_data : option T; lo_token : option OpToken }.
Definition submit_local (data : T) : LocalOp := mkLocalOp LocalDefined (Some data) None.

(** The second half of [poll]: the operation is with the driver. *)
Definition local_poll_submitted d (o : LocalOp) (w : Waker) : outcome (D * LocalOp * option Result) :=
  match lo_state o with
  | LocalSubmitted =>
      token ← expect (lo_token o);
      '(d, r) ← poll_registering d token w;
      Ret match r with
          | Some r => (d, mkLocalOp LocalCompleted (lo_data o) (lo_token o), Some r)
          | None => (d, o, None)
          end
  | LocalDefined | LocalCompleted => Fault ExplicitPanic
  end.

Definition local_submit d (o : LocalOp) (w : Waker) (data : T) : outcome (D * LocalOp * option Result) :=
  let (driver_op, payload) := into_kernel_and_payload data in
  let taken := mkLocalOp LocalDefined None (lo_token o) in
  '(d, reserved) ← drv_reserve_op d;
  match reserved with
  | Err e =>
      let completion := op_complete payload (Err e) in
      Ret (d, taken, Some (OpCompleted (ocp_result completion) (ocp_output completion)))
  | Ok token =>
      let slot := reserved_new token in
      d ← drv_set_payload d (rs_token slot) (payload_into_erased payload);
      '(d, (submitted, _)) ← drv_submit d (rs_token slot) (Some driver_op);
      '(d, slot, fallback) ← match submitted with
                             | Submitted _ | SubmitFailed _ InFlight => Ret (d, persist slot, None)
                             | SubmitFailed _ Void => recover_payload d slot
                             end;
      d ← reserved_drop d slot;
      let failed := mkLocalOp LocalDefined None (Some token) in
      match submitted with
      | Submitted _ | SubmitFailed _ InFlight => local_poll_submitted d (mkLocalOp LocalSubmitted None (Some token)) w
      | SubmitFailed report Void =>
          Ret (d, failed,
               Some match fallback with
                    | None => ResourceLost payload_missing
                    | Some erased =>
                        match try_payload_from_erased erased with
                        | Err e => ResourceLost (payload_projection e)
                        | Ok payload =>
                            let completion := op_complete payload (Err report) in
                            OpCompleted (ocp_result completion) (ocp_output completion)
                        end
                    end)
      end
  end.

Definition local_poll d (o : LocalOp) (w : Waker) : outcome (D * LocalOp * option Result) :=
  match lo_state o with
  | LocalDefined => data ← expect (lo_data o); local_submit d o w data
  | LocalSubmitted | LocalCompleted => local_poll_submitted d o w
  end.

Definition local_drop d (o : LocalOp) : outcome D :=
  match lo_state o, lo_token o with
  | LocalSubmitted, Some token =>
      '(d, _) ← on_table d (mark_orphaned (drv_table d) token);
      '(d, _) ← drv_cancel d (cancel_abandon token);
      Ret d
  | _, _ => Ret d
  end.
End future.
