(* ===== verification/UringOps.v ===== *)
(** * veloq-driver-uring: the single operations
      ([op/types.rs] of veloq-driver-core; [op/payload.rs], [op/submit.rs],
      [op/submit/], [op/spec.rs], [op/spec/])

    What an operation carries for the user and for the kernel, the entry it
    makes for the submission queue, and the table of functions that the driver
    calls.  An entry is described by the builder of the io_uring crate and its
    arguments ([Opcode]); a pointer says what it points to. *)

From stdpp Require Import strings.
From S2P Require Import Prelude BitSet Units SlotMap WheelConfig Wheel Token SlotState Anomaly SlotTable Handle UringBase FileTable UringOp UringNet DriverApi OpFuture.

(** ** What the user gives ([op/types.rs]) *)

Inductive OpKind : Type :=
  | KindReadFixed | KindWriteFixed | KindRecv | KindSend | KindConnect | KindClose | KindFsync | KindSyncFileRange
  | KindFallocate | KindAccept | KindSendTo | KindUdpRecvFrom | KindOpen | KindWakeup | KindTimeout
  | KindUdpRecv | KindUdpSend | KindUdpConnect.

(** Reads and writes of files, by registered descriptor or by raw handle. *)
Record FileIo (H : Type) : Type := mkFileIo { fi_fd : H; fi_buf : FixedBuf; fi_offset : Z; fi_buf_offset : Z }.
Arguments mkFileIo {H}. Arguments fi_fd {H}. Arguments fi_buf {H}. Arguments fi_offset {H}. Arguments fi_buf_offset {H}.
Definition ReadFixed : Type := FileIo IoFd.
Definition ReadRaw : Type := FileIo UringRawHandle.
Definition WriteFixed : Type := FileIo IoFd.
Definition WriteRaw : Type := FileIo UringRawHandle.

Record SocketIo : Type := mkSocketIo { si_fd : IoFd; si_buf : FixedBuf; si_buf_offset : Z }.
Definition Recv : Type := SocketIo.
Definition OpSend : Type := SocketIo.
Definition UdpRecv : Type := SocketIo.
Definition UdpSend : Type := SocketIo.

Record ConnectTo : Type := mkConnect { cn_fd : IoFd; cn_addr : SockAddrStorage; cn_addr_len : Z }.
Definition Connect : Type := ConnectTo.
Definition UdpConnect : Type := ConnectTo.

Record Open : Type := mkOpen { on_path : FixedBuf; on_flags : Z; on_mode : Z }.
Record Close : Type := mkClose { cl_fd : IoFd }.
Record FsyncOf (H : Type) : Type := mkFsync { fs_fd : H; fs_datasync : bool }.
Arguments mkFsync {H}. Arguments fs_fd {H}. Arguments fs_datasync {H}.
Definition Fsync : Type := FsyncOf IoFd.
Definition FsyncRaw : Type := FsyncOf UringRawHandle.
Record SyncRangeOf (H : Type) : Type := mkSyncRange { sr_fd : H; sr_offset : Z; sr_nbytes : Z; sr_flags : Z }.
Arguments mkSyncRange {H}. Arguments sr_fd {H}. Arguments sr_offset {H}. Arguments sr_nbytes {H}. Arguments sr_flags {H}.
Definition SyncFileRange : Type := SyncRangeOf IoFd.
Definition SyncFileRangeRaw : Type := SyncRangeOf UringRawHandle.
Record FallocateOf (H : Type) : Type := mkFallocate { fa_fd : H; fa_mode : Z; fa_offset : Z; fa_len : Z }.
Arguments mkFallocate {H}. Arguments fa_fd {H}. Arguments fa_mode {H}. Arguments fa_offset {H}. Arguments fa_len {H}.
Definition Fallocate : Type := FallocateOf IoFd.
Definition FallocateRaw : Type := FallocateOf UringRawHandle.
Record Accept : Type := mkAccept { ac_fd : IoFd; ac_addr : SockAddrStorage; ac_addr_len : Z; ac_remote_addr : option SocketAddr }.
Record SendTo : Type := mkSendTo { st_fd : IoFd; st_buf : FixedBuf; st_buf_offset : Z; st_addr : SocketAddr }.
Record UdpRecvFrom : Type := mkRecvFrom { rf_fd : IoFd; rf_buf : FixedBuf; rf_buf_offset : Z; rf_addr : option SocketAddr }.
Record WakeupOp : Type := mkWakeup { wu_fd : IoFd }.
Record TimeoutOp : Type := mkTimeout { to_duration : Duration }.

Inductive UserOpPayload : Type :=
  | UserReadFixed (p : ReadFixed) | UserReadRaw (p : ReadRaw) | UserWriteFixed (p : WriteFixed) | UserWriteRaw (p : WriteRaw)
  | UserRecv (p : Recv) | UserOpSend (p : OpSend) | UserUdpRecv (p : UdpRecv) | UserUdpSend (p : UdpSend)
  | UserConnect (p : Connect) | UserUdpConnect (p : UdpConnect) | UserClose (p : Close)
  | UserFsync (p : Fsync) | UserFsyncRaw (p : FsyncRaw)
  | UserSyncFileRange (p : SyncFileRange) | UserSyncFileRangeRaw (p : SyncFileRangeRaw)
  | UserFallocate (p : Fallocate) | UserFallocateRaw (p : FallocateRaw)
  | UserAccept (p : Accept) | UserSendTo (p : SendTo) | UserUdpRecvFrom (p : UdpRecvFrom) | UserOpen (p : Open)
  | UserWakeup (p : WakeupOp) | UserTimeout (p : TimeoutOp).

(** ** What stays with the kernel ([op/payload.rs]) *)

(** Where a pointer of an entry or of a [msghdr] points. *)
Inductive OpPtr : Type :=
  | NullPtr
  | BufPtr (addr : Z)                    (* into a buffer *)
  | UserAddrPtr | UserAddrLenPtr         (* the address in the user's payload, and its length *)
  | KernelBufPtr | KernelTsPtr           (* the fields of the kernel's payload *)
  | KernelNamePtr | KernelIovecPtr | KernelMsghdrPtr.

Record Iovec : Type := mkIovec { iov_base : OpPtr; iov_len : Z }.
Record Msghdr : Type := mkMsghdr { msg_name : OpPtr; msg_namelen : Z; msg_iov : OpPtr; msg_iovlen : Z }.
Definition zeroed_msghdr : Msghdr := mkMsghdr NullPtr 0 NullPtr 0.

(** [KernelRef<T>] is a marker. *)
Definition KernelRef (T : Type) : Type := unit.
Definition kernel_ref {T} (user : T) : KernelRef T := tt.

Record SendToPayload : Type := mkSendToPayload { sp_name : SockAddrStorage; sp_namelen : Z; sp_iovec : Iovec; sp_msghdr : Msghdr }.
Record UdpRecvFromPayload : Type := mkRecvFromPayload { rp_name : SockAddrStorage; rp_iovec : Iovec; rp_msghdr : Msghdr }.
Record WakeupPayload : Type := mkWakeupPayload { wp_buf : list Z }.
Record TimeoutPayload : Type := mkTimeoutPayload { ts_sec : Z; ts_nsec : Z }.
Definition send_to_payload_new : SendToPayload := mkSendToPayload sock_addr_default 0 (mkIovec NullPtr 0) zeroed_msghdr.
Definition recv_from_payload_new : UdpRecvFromPayload := mkRecvFromPayload sock_addr_default (mkIovec NullPtr 0) zeroed_msghdr.
Definition wakeup_payload_new : WakeupPayload := mkWakeupPayload (replicate 8 0).
Definition timeout_payload_new : TimeoutPayload := mkTimeoutPayload 0 0.

Inductive KernelOpPayload : Type :=
  | KernelRead (p : KernelRef ReadFixed) | KernelReadRaw (p : KernelRef ReadRaw)
  | KernelWrite (p : KernelRef WriteFixed) | KernelWriteRaw (p : KernelRef WriteRaw)
  | KernelRecv (p : KernelRef Recv) | KernelSend (p : KernelRef OpSend)
  | KernelUdpRecv (p : KernelRef UdpRecv) | KernelUdpSend (p : KernelRef UdpSend)
  | KernelConnect (p : KernelRef Connect) | KernelUdpConnect (p : KernelRef UdpConnect) | KernelClose (p : KernelRef Close)
  | KernelFsync (p : KernelRef Fsync) | KernelFsyncRaw (p : KernelRef FsyncRaw)
  | KernelSyncRange (p : KernelRef SyncFileRange) | KernelSyncRangeRaw (p : KernelRef SyncFileRangeRaw)
  | KernelFallocate (p : KernelRef Fallocate) | KernelFallocateRaw (p : KernelRef FallocateRaw)
  | KernelAccept (p : unit) | KernelSendTo (p : SendToPayload) | KernelUdpRecvFrom (p : UdpRecvFromPayload)
  | KernelOpen (p : unit) | KernelWakeup (p : WakeupPayload) | KernelTimeout (p : TimeoutPayload).

(** ** Entries (the [opcode] module of the io_uring crate) *)

Inductive Target : Type := Fixed (index : Z) | RawFd (fd : Z).

Inductive Opcode : Type :=
  | OcRead (t : Target) (ptr : OpPtr) (len offset : Z)
  | OcReadFixed (t : Target) (ptr : OpPtr) (len buf_index offset : Z)
  | OcWrite (t : Target) (ptr : OpPtr) (len offset : Z)
  | OcWriteFixed (t : Target) (ptr : OpPtr) (len buf_index offset : Z)
  | OcRecv (t : Target) (ptr : OpPtr) (len : Z)
  | OcSend (t : Target) (ptr : OpPtr) (len : Z)
  | OcConnect (t : Target) (addr : OpPtr) (addr_len : Z)
  | OcAccept (t : Target) (addr addr_len : OpPtr)
  | OcSendMsg (t : Target) (msg : OpPtr)
  | OcRecvMsg (t : Target) (msg : OpPtr)
  | OcClose (t : Target)
  | OcFsync (t : Target) (datasync : bool)
  | OcSyncFileRange (t : Target) (nbytes offset flags : Z)
  | OcFallocate (t : Target) (len offset mode : Z)
  | OcOpenAt (dirfd : Z) (path : OpPtr) (flags mode : Z)
  | OcTimeout (ts : OpPtr).

Definition AT_FDCWD : Z := -100.

(** ** Making entries ([op/submit.rs], [op/submit/]) *)

Definition made : Type := result Opcode Report.

(** [?] on a step, with the payloads as they are. *)
Definition on_ok {X} (r : result X Report) (f : X -> made) : made := match r with Ok x => f x | Err e => Err e end.

Definition resolve_file_fd (slots : list FileSlot) (fd : IoFd) : result Target Report :=
  match resolve_registered_fixed_fd slots fd (Some KindFile) with Ok i => Ok (Fixed i) | Err e => Err e end.
Definition resolve_socket_fd (slots : list FileSlot) (fd : IoFd) : result Target Report :=
  match resolve_registered_fixed_fd slots fd (Some KindSocket) with Ok i => Ok (Fixed i) | Err e => Err e end.
Definition resolve_any_fd (slots : list FileSlot) (fd : IoFd) : result Target Report :=
  match resolve_registered_fixed_fd slots fd None with Ok i => Ok (Fixed i) | Err e => Err e end.

(** [checked_read_range] and [checked_write_range] with [invalid_buf_io_range];
    the subtraction in them cannot overflow ([checked_range_pure]). *)
Definition buf_range (b : FixedBuf) (buf_offset : Z) (bound_kind : BufIoRangeBound) : result (Z * Z) Report :=
  let bound := match bound_kind with Capacity => buf_capacity b | Length => buf_length b end in
  if bound <? buf_offset then Err (report InvalidInput) else
  match checked U32 (bound - buf_offset) with
  | Some len => Ok (fb_ptr b + buf_offset, len)
  | None => Err (report InvalidInput)
  end.

(** [resolve_region_info], as far as it is looked at: kind and chunk come from
    the context of the buffer ([region_of_pool]).  The panic of
    the function, for a chunk the pool does not know, is left out here;
    [SlotPool.resolve_region_info] has it. *)
Definition region_kind (b : FixedBuf) : PoolKind := buf_pool_kind b.
Definition region_chunk (b : FixedBuf) : Z := slot_chunk_id (context_raw b).

(** [registered_chunks.get(id).unwrap_or(false)] *)
Definition chunk_registered (chunks : BitSet) (id : Z) : bool :=
  match bitset_get chunks id with Ret (Ok b) => b | _ => false end.
Definition is_registered (chunks : BitSet) (b : FixedBuf) : bool :=
  match region_kind b with SlotBased => chunk_registered chunks (region_chunk b) | Heap => false end.

Definition read_entry (t : Target) (b : FixedBuf) (chunks : BitSet) (ptr len offset : Z) : Opcode :=
  if is_registered chunks b then OcReadFixed t (BufPtr ptr) len (region_chunk b) offset else OcRead t (BufPtr ptr) len offset.
Definition write_entry (t : Target) (b : FixedBuf) (chunks : BitSet) (ptr len offset : Z) : Opcode :=
  if is_registered chunks b then OcWriteFixed t (BufPtr ptr) len (region_chunk b) offset else OcWrite t (BufPtr ptr) len offset.

Section submit.
Context (slots : list FileSlot) (chunks : BitSet).

Definition make_sqe_read_fixed (op : ReadFixed) : made :=
  on_ok (buf_range (fi_buf op) (fi_buf_offset op) Capacity) (fun '(ptr, len) =>
  on_ok (resolve_file_fd slots (fi_fd op)) (fun t => Ok (read_entry t (fi_buf op) chunks ptr len (fi_offset op)))).
Definition make_sqe_read_raw (op : ReadRaw) : made :=
  on_ok (buf_range (fi_buf op) (fi_buf_offset op) Capacity) (fun '(ptr, len) =>
  Ok (read_entry (RawFd (as_fd (fi_fd op))) (fi_buf op) chunks ptr len (fi_offset op))).
Definition make_sqe_write_fixed (op : WriteFixed) : made :=
  on_ok (buf_range (fi_buf op) (fi_buf_offset op) Length) (fun '(ptr, len) =>
  on_ok (resolve_file_fd slots (fi_fd op)) (fun t => Ok (write_entry t (fi_buf op) chunks ptr len (fi_offset op)))).
Definition make_sqe_write_raw (op : WriteRaw) : made :=
  on_ok (buf_range (fi_buf op) (fi_buf_offset op) Length) (fun '(ptr, len) =>
  Ok (write_entry (RawFd (as_fd (fi_fd op))) (fi_buf op) chunks ptr len (fi_offset op))).

(** A borrowed descriptor is refused, whatever its generation. *)
Definition make_sqe_close (op : Close) : made :=
  match slots !! Z.to_nat (fd_index (cl_fd op)) with
  | Some (mkFileSlot (Some (BorrowedFd _ _)) _) => Err (report InvalidInput)
  | _ => on_ok (resolve_any_fd slots (cl_fd op)) (fun t => Ok (OcClose t))
  end.

Definition make_sqe_fsync (op : Fsync) : made :=
  on_ok (resolve_file_fd slots (fs_fd op)) (fun t => Ok (OcFsync t (fs_datasync op))).
Definition make_sqe_fsync_raw (op : FsyncRaw) : made := Ok (OcFsync (RawFd (as_fd (fs_fd op))) (fs_datasync op)).

(** [u64::MAX] means to the end of the file, which the kernel calls 0. *)
Definition sync_nbytes (nbytes : Z) : result Z Report :=
  if U32_MAX <? nbytes then if nbytes =? U64_MAX then Ok 0 else Err (to_report InvalidInput) else Ok (wrap U32 nbytes).
Definition make_sqe_sync_range (op : SyncFileRange) : made :=
  on_ok (sync_nbytes (sr_nbytes op)) (fun nbytes =>
  on_ok (resolve_file_fd slots (sr_fd op)) (fun t => Ok (OcSyncFileRange t nbytes (sr_offset op) (sr_flags op)))).
Definition make_sqe_sync_range_raw (op : SyncFileRangeRaw) : made :=
  on_ok (sync_nbytes (sr_nbytes op)) (fun nbytes =>
  Ok (OcSyncFileRange (RawFd (as_fd (sr_fd op))) nbytes (sr_offset op) (sr_flags op))).

Definition make_sqe_fallocate (op : Fallocate) : made :=
  on_ok (resolve_file_fd slots (fa_fd op)) (fun t => Ok (OcFallocate t (fa_len op) (fa_offset op) (fa_mode op))).
Definition make_sqe_fallocate_raw (op : FallocateRaw) : made :=
  Ok (OcFallocate (RawFd (as_fd (fa_fd op))) (fa_len op) (fa_offset op) (fa_mode op)).

Definition make_sqe_open (op : Open) : made := Ok (OcOpenAt AT_FDCWD (BufPtr (as_slice (on_path op)).1) (on_flags op) (on_mode op)).

Definition make_sqe_recv (op : SocketIo) : made :=
  on_ok (buf_range (si_buf op) (si_buf_offset op) Capacity) (fun '(ptr, len) =>
  on_ok (resolve_socket_fd slots (si_fd op)) (fun t => Ok (OcRecv t (BufPtr ptr) len))).
Definition make_sqe_send (op : SocketIo) : made :=
  on_ok (buf_range (si_buf op) (si_buf_offset op) Length) (fun '(ptr, len) =>
  on_ok (resolve_socket_fd slots (si_fd op)) (fun t => Ok (OcSend t (BufPtr ptr) len))).
Definition make_sqe_udp_recv := make_sqe_recv.
Definition make_sqe_udp_send := make_sqe_send.

Definition make_sqe_connect (op : ConnectTo) : made :=
  on_ok (resolve_socket_fd slots (cn_fd op)) (fun t => Ok (OcConnect t UserAddrPtr (cn_addr_len op))).
Definition make_sqe_udp_connect := make_sqe_connect.

Definition make_sqe_accept (op : Accept) : made :=
  on_ok (resolve_socket_fd slots (ac_fd op)) (fun t => Ok (OcAccept t UserAddrPtr UserAddrLenPtr)).

(** The message of the kernel's payload points into that payload. *)
Definition make_sqe_send_to (k : SendToPayload) (op : SendTo) : SendToPayload * made :=
  match buf_range (st_buf op) (st_buf_offset op) Length with
  | Err e => (k, Err e)
  | Ok (ptr, len) =>
      let (name, namelen) := socket_addr_to_storage (st_addr op) in
      let k := mkSendToPayload name namelen (mkIovec (BufPtr ptr) len) (mkMsghdr KernelNamePtr namelen KernelIovecPtr 1) in
      (k, on_ok (resolve_socket_fd slots (st_fd op)) (fun t => Ok (OcSendMsg t KernelMsghdrPtr)))
  end.
Definition make_sqe_udp_recv_from (k : UdpRecvFromPayload) (op : UdpRecvFrom) : UdpRecvFromPayload * made :=
  match buf_range (rf_buf op) (rf_buf_offset op) Capacity with
  | Err e => (k, Err e)
  | Ok (ptr, len) =>
      let k := mkRecvFromPayload (rp_name k) (mkIovec (BufPtr ptr) len)
                 (mkMsghdr KernelNamePtr (Z.of_nat SOCKADDR_STORAGE_SIZE) KernelIovecPtr 1) in
      (k, on_ok (resolve_socket_fd slots (rf_fd op)) (fun t => Ok (OcRecvMsg t KernelMsghdrPtr)))
  end.

Definition as_secs (d : Duration) : Z := d / 10 ^ 9.
Definition subsec_nanos (d : Duration) : Z := d mod 10 ^ 9.
Definition make_sqe_timeout (k : TimeoutPayload) (op : TimeoutOp) : TimeoutPayload * made :=
  (mkTimeoutPayload (as_secs (to_duration op)) (subsec_nanos (to_duration op)), Ok (OcTimeout KernelTsPtr)).
Definition make_sqe_wakeup (op : WakeupOp) : made :=
  on_ok (resolve_file_fd slots (wu_fd op)) (fun t => Ok (OcRead t KernelBufPtr 8 0)).
End submit.

(** What [resolve_chunks] of the four file operations writes. *)
Definition resolve_chunks_of (b : FixedBuf) : list Z :=
  match region_kind b with SlotBased => [region_chunk b] | Heap => [] end.

(** ** Completions *)

(** The kernel has filled in the address and its length. *)
Definition on_complete_accept (op : Accept) (res : Z) : Accept * result Z Report :=
  if res <? 0 then (op, Err (set_error_code (report CompletionWait) (- res))) else
  match to_socket_addr (take (Z.to_nat (ac_addr_len op)) (ac_addr op)) with
  | Ok addr => (mkAccept (ac_fd op) (ac_addr op) (ac_addr_len op) (Some addr), Ok res)
  | Err _ => (op, Ok res)
  end.
Definition on_complete_udp_recv_from (k : UdpRecvFromPayload) (op : UdpRecvFrom) (res : Z) : UdpRecvFrom * result Z Report :=
  if res <? 0 then (op, Err (set_error_code (report CompletionWait) (- res))) else
  match to_socket_addr (take (Z.to_nat (msg_namelen (rp_msghdr k))) (rp_name k)) with
  | Ok addr => (mkRecvFrom (rf_fd op) (rf_buf op) (rf_buf_offset op) (Some addr), Ok res)
  | Err _ => (op, Ok res)
  end.

(** ** The specification of an operation ([op/spec.rs]) *)

(** [UringOpSpec] with [UringOpErasure]; [U] is the user's payload, [K] the
    kernel's, [C] the completion. *)
Record OpSpec (U K C : Type) : Type := mkOpSpec {
  os_payload_kind : OpKind;
  os_strategy : SubmissionStrategy;
  os_new_kernel_payload : U -> K;
  os_make_sqe : list FileSlot -> BitSet -> K -> U -> K * U * made;
  os_on_complete : K -> U -> Z -> K * U * result Z Report;
  os_completion_cleanup : K -> Z -> option UringCleanup;
  os_orphan_cleanup : K -> Z -> option UringCleanup;
  os_get_timeout : K -> U -> option Duration;
  os_resolve_chunks : K -> U -> list Z;
  os_map_completion : U -> result Z Report -> result C Report;
  os_erase_kernel : K -> KernelOpPayload;
  os_kernel_ref : KernelOpPayload -> option K;
  os_erase_user : U -> UserOpPayload;
  os_user_ref : UserOpPayload -> option U
}.
Arguments os_payload_kind {U K C}. Arguments os_strategy {U K C}. Arguments os_new_kernel_payload {U K C}.
Arguments os_make_sqe {U K C}. Arguments os_on_complete {U K C}. Arguments os_completion_cleanup {U K C}.
Arguments os_orphan_cleanup {U K C}. Arguments os_get_timeout {U K C}. Arguments os_resolve_chunks {U K C}.
Arguments os_map_completion {U K C}. Arguments os_erase_kernel {U K C}. Arguments os_kernel_ref {U K C}.
Arguments os_erase_user {U K C}. Arguments os_user_ref {U K C}.

(** The defaults of the trait. *)
Definition spec_on_complete {U K} (k : K) (u : U) (res : Z) : K * U * result Z Report :=
  (k, u, if 0 <=? res then Ok res else Err (set_error_code (report CompletionWait) (- res))).
Definition no_cleanup {K} (k : K) (res : Z) : option UringCleanup := None.
Definition close_cleanup {K} (k : K) (res : Z) : option UringCleanup := completion_cleanup_close_raw_fd res.
Definition no_timeout {K U} (k : K) (u : U) : option Duration := None.
Definition no_chunks {K U} (k : K) (u : U) : list Z := [].
Definition same_completion {U} (u : U) (res : result Z Report) : result Z Report := res.
Definition as_file {U} (u : U) (res : result Z Report) : result UringRawHandle Report :=
  match res with Ok raw => Ok (RawFile (c_int raw)) | Err e => Err e end.
Definition as_socket {U} (u : U) (res : result Z Report) : result UringRawHandle Report :=
  match res with Ok raw => Ok (RawSocket (c_int raw)) | Err e => Err e end.

(** An entry that leaves both payloads as they are. *)
Definition chunk_entry {U K} (f : list FileSlot -> BitSet -> U -> made) (slots : list FileSlot) (chunks : BitSet) (k : K) (u : U) : K * U * made :=
  (k, u, f slots chunks u).
Definition fd_only {U K} (f : list FileSlot -> U -> made) (slots : list FileSlot) (chunks : BitSet) (k : K) (u : U) : K * U * made :=
  (k, u, f slots u).

(** An operation whose kernel payload is a marker and whose completion is a number. *)
Definition marker_spec {U} (kind : OpKind) make chunks (erase_kernel : KernelRef U -> KernelOpPayload) kernel
    (erase_user : U -> UserOpPayload) user : OpSpec U (KernelRef U) Z :=
  mkOpSpec _ _ _ kind SubmitSqe kernel_ref make spec_on_complete no_cleanup no_cleanup no_timeout chunks same_completion
    erase_kernel kernel erase_user user.

Definition read_fixed_spec : OpSpec ReadFixed (KernelRef ReadFixed) Z :=
  marker_spec KindReadFixed (chunk_entry make_sqe_read_fixed) (fun _ u => resolve_chunks_of (fi_buf u))
    KernelRead (fun k => match k with KernelRead p => Some p | _ => None end)
    UserReadFixed (fun u => match u with UserReadFixed p => Some p | _ => None end).
Definition read_raw_spec : OpSpec ReadRaw (KernelRef ReadRaw) Z :=
  marker_spec KindReadFixed (chunk_entry (fun _ => make_sqe_read_raw)) (fun _ u => resolve_chunks_of (fi_buf u))
    KernelReadRaw (fun k => match k with KernelReadRaw p => Some p | _ => None end)
    UserReadRaw (fun u => match u with UserReadRaw p => Some p | _ => None end).
Definition write_fixed_spec : OpSpec WriteFixed (KernelRef WriteFixed) Z :=
  marker_spec KindWriteFixed (chunk_entry make_sqe_write_fixed) (fun _ u => resolve_chunks_of (fi_buf u))
    KernelWrite (fun k => match k with KernelWrite p => Some p | _ => None end)
    UserWriteFixed (fun u => match u with UserWriteFixed p => Some p | _ => None end).
Definition write_raw_spec : OpSpec WriteRaw (KernelRef WriteRaw) Z :=
  marker_spec KindWriteFixed (chunk_entry (fun _ => make_sqe_write_raw)) (fun _ u => resolve_chunks_of (fi_buf u))
    KernelWriteRaw (fun k => match k with KernelWriteRaw p => Some p | _ => None end)
    UserWriteRaw (fun u => match u with UserWriteRaw p => Some p | _ => None end).
Definition recv_spec : OpSpec Recv (KernelRef Recv) Z :=
  marker_spec KindRecv (fd_only make_sqe_recv) no_chunks KernelRecv (fun k => match k with KernelRecv p => Some p | _ => None end)
    UserRecv (fun u => match u with UserRecv p => Some p | _ => None end).
Definition op_send_spec : OpSpec OpSend (KernelRef OpSend) Z :=
  marker_spec KindSend (fd_only make_sqe_send) no_chunks KernelSend (fun k => match k with KernelSend p => Some p | _ => None end)
    UserOpSend (fun u => match u with UserOpSend p => Some p | _ => None end).
Definition udp_recv_spec : OpSpec UdpRecv (KernelRef UdpRecv) Z :=
  marker_spec KindUdpRecv (fd_only make_sqe_udp_recv) no_chunks KernelUdpRecv (fun k => match k with KernelUdpRecv p => Some p | _ => None end)
    UserUdpRecv (fun u => match u with UserUdpRecv p => Some p | _ => None end).
Definition udp_send_spec : OpSpec UdpSend (KernelRef UdpSend) Z :=
  marker_spec KindUdpSend (fd_only make_sqe_udp_send) no_chunks KernelUdpSend (fun k => match k with KernelUdpSend p => Some p | _ => None end)
    UserUdpSend (fun u => match u with UserUdpSend p => Some p | _ => None end).
Definition connect_spec : OpSpec Connect (KernelRef Connect) Z :=
  marker_spec KindConnect (fd_only make_sqe_connect) no_chunks KernelConnect (fun k => match k with KernelConnect p => Some p | _ => None end)
    UserConnect (fun u => match u with UserConnect p => Some p | _ => None end).
Definition udp_connect_spec : OpSpec UdpConnect (KernelRef UdpConnect) Z :=
  marker_spec KindUdpConnect (fd_only make_sqe_udp_connect) no_chunks
    KernelUdpConnect (fun k => match k with KernelUdpConnect p => Some p | _ => None end)
    UserUdpConnect (fun u => match u with UserUdpConnect p => Some p | _ => None end).
Definition close_spec : OpSpec Close (KernelRef Close) Z :=
  marker_spec KindClose (fd_only make_sqe_close) no_chunks KernelClose (fun k => match k with KernelClose p => Some p | _ => None end)
    UserClose (fun u => match u with UserClose p => Some p | _ => None end).
Definition fsync_spec : OpSpec Fsync (KernelRef Fsync) Z :=
  marker_spec KindFsync (fd_only make_sqe_fsync) no_chunks KernelFsync (fun k => match k with KernelFsync p => Some p | _ => None end)
    UserFsync (fun u => match u with UserFsync p => Some p | _ => None end).
Definition fsync_raw_spec : OpSpec FsyncRaw (KernelRef FsyncRaw) Z :=
  marker_spec KindFsync (fd_only (fun _ => make_sqe_fsync_raw)) no_chunks
    KernelFsyncRaw (fun k => match k with KernelFsyncRaw p => Some p | _ => None end)
    UserFsyncRaw (fun u => match u with UserFsyncRaw p => Some p | _ => None end).
Definition sync_range_spec : OpSpec SyncFileRange (KernelRef SyncFileRange) Z :=
  marker_spec KindSyncFileRange (fd_only make_sqe_sync_range) no_chunks
    KernelSyncRange (fun k => match k with KernelSyncRange p => Some p | _ => None end)
    UserSyncFileRange (fun u => match u with UserSyncFileRange p => Some p | _ => None end).
Definition sync_range_raw_spec : OpSpec SyncFileRangeRaw (KernelRef SyncFileRangeRaw) Z :=
  marker_spec KindSyncFileRange (fd_only (fun _ => make_sqe_sync_range_raw)) no_chunks
    KernelSyncRangeRaw (fun k => match k with KernelSyncRangeRaw p => Some p | _ => None end)
    UserSyncFileRangeRaw (fun u => match u with UserSyncFileRangeRaw p => Some p | _ => None end).
Definition fallocate_spec : OpSpec Fallocate (KernelRef Fallocate) Z :=
  marker_spec KindFallocate (fd_only make_sqe_fallocate) no_chunks
    KernelFallocate (fun k => match k with KernelFallocate p => Some p | _ => None end)
    UserFallocate (fun u => match u with UserFallocate p => Some p | _ => None end).
Definition fallocate_raw_spec : OpSpec FallocateRaw (KernelRef FallocateRaw) Z :=
  marker_spec KindFallocate (fd_only (fun _ => make_sqe_fallocate_raw)) no_chunks
    KernelFallocateRaw (fun k => match k with KernelFallocateRaw p => Some p | _ => None end)
    UserFallocateRaw (fun u => match u with UserFallocateRaw p => Some p | _ => None end).

Definition accept_spec : OpSpec Accept unit UringRawHandle :=
  mkOpSpec _ _ _ KindAccept SubmitSqe (fun _ => tt) (fd_only make_sqe_accept)
    (fun k u res => let (u, r) := on_complete_accept u res in (k, u, r)) close_cleanup close_cleanup no_timeout no_chunks as_socket
    KernelAccept (fun k => match k with KernelAccept p => Some p | _ => None end)
    UserAccept (fun u => match u with UserAccept p => Some p | _ => None end).
Definition send_to_spec : OpSpec SendTo SendToPayload Z :=
  mkOpSpec _ _ _ KindSendTo SubmitSqe (fun _ => send_to_payload_new)
    (fun slots _ k u => let (k, r) := make_sqe_send_to slots k u in (k, u, r))
    spec_on_complete no_cleanup no_cleanup no_timeout no_chunks same_completion
    KernelSendTo (fun k => match k with KernelSendTo p => Some p | _ => None end)
    UserSendTo (fun u => match u with UserSendTo p => Some p | _ => None end).
Definition udp_recv_from_spec : OpSpec UdpRecvFrom UdpRecvFromPayload Z :=
  mkOpSpec _ _ _ KindUdpRecvFrom SubmitSqe (fun _ => recv_from_payload_new)
    (fun slots _ k u => let (k, r) := make_sqe_udp_recv_from slots k u in (k, u, r))
    (fun k u res => let (u, r) := on_complete_udp_recv_from k u res in (k, u, r))
    no_cleanup no_cleanup no_timeout no_chunks same_completion
    KernelUdpRecvFrom (fun k => match k with KernelUdpRecvFrom p => Some p | _ => None end)
    UserUdpRecvFrom (fun u => match u with UserUdpRecvFrom p => Some p | _ => None end).
Definition open_spec : OpSpec Open unit UringRawHandle :=
  mkOpSpec _ _ _ KindOpen SubmitSqe (fun _ => tt) (fd_only (fun _ => make_sqe_open)) spec_on_complete close_cleanup close_cleanup
    no_timeout no_chunks as_file
    KernelOpen (fun k => match k with KernelOpen p => Some p | _ => None end)
    UserOpen (fun u => match u with UserOpen p => Some p | _ => None end).
Definition wakeup_spec : OpSpec WakeupOp WakeupPayload Z :=
  mkOpSpec _ _ _ KindWakeup SubmitSqe (fun _ => wakeup_payload_new) (fd_only make_sqe_wakeup) spec_on_complete no_cleanup no_cleanup
    no_timeout no_chunks same_completion
    KernelWakeup (fun k => match k with KernelWakeup p => Some p | _ => None end)
    UserWakeup (fun u => match u with UserWakeup p => Some p | _ => None end).
Definition timeout_spec : OpSpec TimeoutOp TimeoutPayload Z :=
  mkOpSpec _ _ _ KindTimeout SoftwareTimer (fun _ => timeout_payload_new)
    (fun _ _ k u => let (k, r) := make_sqe_timeout k u in (k, u, r)) spec_on_complete no_cleanup no_cleanup
    (fun _ u => Some (to_duration u)) no_chunks same_completion
    KernelTimeout (fun k => match k with KernelTimeout p => Some p | _ => None end)
    UserTimeout (fun u => match u with UserTimeout p => Some p | _ => None end).

(** ** The tables of the driver *)

(** [libc::close], and the builders of the io_uring crate. *)
Class UringLibc `{IoUring} : Type := {
  libc_close : Z -> result unit IoError;
  opcode_build : Opcode -> Entry
}.

Section vtable.
Context `{UringLibc}.

#[global] Instance uring_payloads : UringPayloads := {
  UringOpPayload := KernelOpPayload;
  UringUserPayload := UserOpPayload;
  payload_close_fd p := match p with UserClose c => Some (cl_fd c) | _ => None end;
  close_result := libc_close
}.

Context {U K C : Type} (S : OpSpec U K C).

Definition make_sqe_shim (op : KernelOpPayload) (payload : UserOpPayload) (slots : list FileSlot) (chunks : BitSet)
    (token : SubmitTokenContext) : KernelOpPayload * UserOpPayload * result Entry Report :=
  match os_kernel_ref S op, os_user_ref S payload with
  | Some k, Some u =>
      let '(k, u, r) := os_make_sqe S slots chunks k u in
      (os_erase_kernel S k, os_erase_user S u, match r with Ok e => Ok (opcode_build e) | Err e => Err e end)
  | _, _ => (op, payload, Err (report InvalidState))
  end.

Definition on_complete_shim (op : KernelOpPayload) (payload : UserOpPayload) (res : Z) : KernelOpPayload * UserOpPayload * result Z Report :=
  match os_kernel_ref S op, os_user_ref S payload with
  | Some k, Some u => let '(k, u, r) := os_on_complete S k u res in (os_erase_kernel S k, os_erase_user S u, r)
  | _, _ => (op, payload, Err (report InvalidState))
  end.

Definition completion_cleanup_shim (op : KernelOpPayload) (res : Z) : KernelOpPayload * option UringCleanup :=
  match os_kernel_ref S op with Some k => (op, os_completion_cleanup S k res) | None => (op, None) end.
Definition orphan_cleanup_shim (op : KernelOpPayload) (res : Z) : KernelOpPayload * option UringCleanup :=
  match os_kernel_ref S op with Some k => (op, os_orphan_cleanup S k res) | None => (op, None) end.

Definition get_timeout_shim (op : KernelOpPayload) (payload : UserOpPayload) : option Duration :=
  match os_kernel_ref S op, os_user_ref S payload with Some k, Some u => os_get_timeout S k u | _, _ => None end.
Definition resolve_chunks_shim (op : KernelOpPayload) (payload : UserOpPayload) : list Z :=
  match os_kernel_ref S op, os_user_ref S payload with Some k, Some u => os_resolve_chunks S k u | _, _ => [] end.

Definition spec_vtable : OpVTable := {|
  vt_make_sqe := make_sqe_shim;
  vt_on_complete := on_complete_shim;
  vt_completion_cleanup := completion_cleanup_shim;
  vt_orphan_cleanup := orphan_cleanup_shim;
  vt_strategy := os_strategy S;
  vt_get_timeout := get_timeout_shim;
  vt_resolve_chunks := resolve_chunks_shim
|}.

(** [IntoPlatformOp] of an operation. *)
Context `{UringTimers}.
#[local] Notation Spec := UringSlotSpec.

Definition payload_projection_mismatch : Report := to_report Internal.

Definition spec_into_platform : IntoPlatformOp (Spec := Spec) U := {|
  OpFuture.UserPayload := U;
  OpFuture.Output := U;
  OpFuture.Completed := C;
  into_kernel_and_payload u := (mkKernelOp spec_vtable (os_erase_kernel S (os_new_kernel_payload S u)), u);
  payload_into_erased u := os_erase_user S u;
  try_payload_from_erased p :=
    match os_user_ref S p with Some u => Ok u | None => Err payload_projection_mismatch end;
  op_complete u res := mkOpCompletion (Spec := Spec) (os_map_completion S u res) u
|}.
End vtable.
