(* ===== verification/OpFutureSpec.v ===== *)
(** * Futures of operations against the contract of a driver

    What a driver promises to the futures ([DriverContract]): where the slot of
    a token is in its life, and what each call does to it.  From that alone: the
    first poll of a future either leaves its operation in flight or gives its
    payload back, a finished operation gives its result once, and dropping a
    future abandons the operation. *)

From stdpp Require Import strings.
From S2P Require Import Prelude Token SlotState Anomaly SlotTable Completion Registry Flow DriverApi OpFuture.

(** The slot of a token, as its future sees it. *)
Inductive OpPhase `{Spec : SlotSpec} : Type :=
  | PhaseReserved (payload : option SPayload)
  | PhaseInFlight
  | PhaseReady (r : CompletionRecord)
  | PhaseAbandoned
  | PhaseVacant.                       (* idle, or another operation's *)

Section contract.
Context `{Spec : SlotSpec} {D : Type} `{!Driver D}.

(** Taking the record: the operation waits, or its record is given once, or it is
    not the caller's any more. *)
Definition take_answer (p : OpPhase) (p' : OpPhase) (x : result PollRecordResult SError) : Prop :=
  match p with
  | PhaseInFlight => x = Ok PollPending /\ p' = PhaseInFlight
  | PhaseReady record => x = Ok (PollReady record) /\ p' = PhaseVacant
  | p => (exists kind attach, x = Ok (PollUnavailable kind attach)) /\ p' = p
  end.

(** A call on the table that keeps the invariant, and the phase of a token. *)
Definition table_law (ok : D -> Prop) (phase : D -> OpToken -> OpPhase) d token {X} (m : outcome (SlotTable * X))
    (Q : OpPhase -> X -> Prop) : Prop :=
  exists t x, m = Ret (t, x) /\ ok (drv_set_table d t) /\ Q (phase (drv_set_table d t) token) x.

Class DriverContract : Type := {
  drv_ok : D -> Prop;
  drv_phase : D -> OpToken -> OpPhase;
  drv_token : OpToken -> Prop;                (* tokens that the driver gave out *)
  drv_op : SOp -> Prop;                       (* operations it is used with *)
  reserve_law : forall d, drv_ok d -> exists d' x, drv_reserve_op d = Ret (d', x) /\ drv_ok d' /\
    match x with Ok token => drv_token token /\ exists p, drv_phase d' token = PhaseReserved p | Err _ => True end;
  set_payload_law : forall d token p0 p, drv_ok d -> drv_token token -> drv_phase d token = PhaseReserved p0 ->
    exists d', drv_set_payload d token p = Ret d' /\ drv_ok d' /\ drv_phase d' token = PhaseReserved (Some p);
  submit_law : forall d token p op, drv_ok d -> drv_token token -> drv_phase d token = PhaseReserved (Some p) -> drv_op op ->
    exists d' x back, drv_submit d token (Some op) = Ret (d', (x, back)) /\ drv_ok d' /\
      match x with
      | Submitted _ | SubmitFailed _ InFlight => drv_phase d' token = PhaseInFlight
      | SubmitFailed _ Void => drv_phase d' token = PhaseReserved (Some p)
      end;
  take_payload_law : forall d token p, drv_ok d -> drv_token token -> drv_phase d token = PhaseReserved p ->
    exists d', drv_take_payload d token = Ret (d', p) /\ drv_ok d' /\ drv_phase d' token = PhaseReserved None;
  release_law : forall d token p, drv_ok d -> drv_token token -> drv_phase d token = PhaseReserved p ->
    exists d', drv_release d token = Ret d' /\ drv_ok d' /\ drv_phase d' token = PhaseVacant;
  take_record_law : forall d token, drv_ok d -> drv_token token ->
    table_law drv_ok drv_phase d token (try_take_record (drv_table d) token) (take_answer (drv_phase d token));
  waker_law : forall d token w, drv_ok d -> drv_token token -> drv_phase d token = PhaseInFlight ->
    table_law drv_ok drv_phase d token (register_waker (drv_table d) token w) (fun phase _ => phase = PhaseInFlight);
  waiting_law : forall d token, drv_ok d -> drv_token token -> drv_phase d token = PhaseInFlight ->
    table_law drv_ok drv_phase d token (mark_waiting (drv_table d) token) (fun phase _ => phase = PhaseInFlight);
  orphan_law : forall d token, drv_ok d -> drv_token token -> drv_phase d token = PhaseInFlight ->
    table_law drv_ok drv_phase d token (mark_orphaned (drv_table d) token) (fun phase _ => phase = PhaseAbandoned);
  effect_law : forall d l, drv_ok d -> drv_ok (drv_set_table d (emit (drv_table d) l)) /\
    forall token, drv_phase (drv_set_table d (emit (drv_table d) l)) token = drv_phase d token;
  cancel_law : forall d token, drv_ok d -> drv_token token ->
    exists d' x, drv_cancel d (cancel_abandon token) = Ret (d', x) /\ drv_ok d' /\
      (drv_phase d token = PhaseAbandoned -> drv_phase d' token = PhaseAbandoned \/ drv_phase d' token = PhaseVacant);
  send_law : forall d token, drv_ok d -> drv_token token -> drv_ok (drv_send_cancel d (cancel_abandon token)) /\
    forall token', drv_phase (drv_send_cancel d (cancel_abandon token)) token' = drv_phase d token';
  wake_law : forall d, drv_ok d -> exists d' x, drv_wake d = Ret (d', x) /\ drv_ok d' /\
    forall token, drv_phase d' token = drv_phase d token;
  table_get_set : forall d t, drv_table (drv_set_table d t) = t;
  table_set_set : forall d t t', drv_set_table (drv_set_table d t) t' = drv_set_table d t';
  table_set_get : forall d, drv_set_table d (drv_table d) = d
}.
End contract.

Section futures.
Context `{Spec : SlotSpec} {D : Type} `{!Driver D} `{Contract : !DriverContract} `{!CompletionValue} {T : Type} `{!IntoPlatformOp T}.
Implicit Types (d : D) (token : OpToken).
Notation Result := (OpResult Output Completed).

(** The error with which the driver refuses an operation, if it does: there is no
    slot for it, or it is not accepted. *)
Definition refusal d (data : T) : outcome (option SError) :=
  let (op, payload) := into_kernel_and_payload data in
  '(d, reserved) ← drv_reserve_op d;
  match reserved with
  | Err e => Ret (Some e)
  | Ok token =>
      d ← drv_set_payload d token (payload_into_erased payload);
      '(_, (submitted, _)) ← drv_submit d token (Some op);
      Ret match submitted with SubmitFailed e Void => Some e | Submitted _ | SubmitFailed _ InFlight => None end
  end.

(** The result of an operation that was refused: its own payload, with the error. *)
Definition handed_back (data : T) (e : SError) : Result :=
  let c := op_complete (into_kernel_and_payload data).2 (Err e) in OpCompleted (ocp_result c) (ocp_output c).

(** The payload survives being stored. *)
Definition payload_kept (data : T) : Prop :=
  let payload := (into_kernel_and_payload data).2 in try_payload_from_erased (payload_into_erased payload) = Ok payload.

(** ** Tables *)

Lemma on_table_ok {X} d token (m : outcome (SlotTable * X)) Q : table_law drv_ok drv_phase d token m Q ->
  exists d' x, on_table d m = Ret (d', x) /\ drv_ok d' /\ Q (drv_phase d' token) x.
Proof. intros (t & x & -> & Hok & HQ). unfold on_table. rewrite bind_ret. by exists (drv_set_table d t), x. Qed.

(** ** Polling *)

Lemma poll_in_flight d token : drv_ok d -> drv_token token -> drv_phase d token = PhaseInFlight ->
  exists d', poll_table_once d token = Ret (d', None) /\ drv_ok d' /\ drv_phase d' token = PhaseInFlight.
Proof.
  intros Hd Ht Hp. unfold poll_table_once. destruct (on_table_ok _ _ _ _ (take_record_law d token Hd Ht)) as (d' & x & -> & Hd' & Hx).
  rewrite Hp in Hx. destruct Hx as [-> Hp']. rewrite bind_ret. by exists d'.
Qed.

Lemma poll_registering_in_flight d token w : drv_ok d -> drv_token token -> drv_phase d token = PhaseInFlight ->
  exists d', poll_registering d token w = Ret (d', None) /\ drv_ok d' /\ drv_phase d' token = PhaseInFlight.
Proof.
  intros Hd Ht Hp. unfold poll_registering. destruct (poll_in_flight d token Hd Ht Hp) as (d1 & -> & Hd1 & Hp1). rewrite bind_ret.
  destruct (on_table_ok _ _ _ _ (waker_law d1 token w Hd1 Ht Hp1)) as (d2 & x & -> & Hd2 & Hp2). rewrite bind_ret.
  by apply poll_in_flight.
Qed.

(** What a record becomes: the clean-up is run exactly when the payload cannot
    be handed over. *)
Definition record_result (r : CompletionRecord) : Result :=
  match try_payload_from_erased (rd_payload r) with
  | Err e => ResourceLost (payload_projection e)
  | Ok p =>
      let c := op_complete p (default (from_event_res (ue_res (rd_event r))) (rd_detail r)) in
      OpCompleted (ocp_result c) (ocp_output c)
  end.
Definition record_effects (r : CompletionRecord) : list effect :=
  match try_payload_from_erased (rd_payload r), rd_cleanup r with
  | Err _, Some c => [CleanedUp c]
  | _, _ => []
  end.

Lemma emit_nil (t : SlotTable) : emit t [] = t.
Proof. destruct t. unfold emit. cbn. by rewrite app_nil_r. Qed.

Lemma from_record_eq d r : from_completion_record d r = (drv_set_table d (emit (drv_table d) (record_effects r)), record_result r).
Proof.
  unfold from_completion_record, record_effects, record_result.
  destruct (try_payload_from_erased (rd_payload r)) as [p | e]; cbn [guard_disarm guard_drop]; [by rewrite emit_nil |].
  destruct (rd_cleanup r) as [c |]; cbn [guard_run guard_drop]; by rewrite ?emit_nil.
Qed.

Lemma poll_ready d token w r : drv_ok d -> drv_token token -> drv_phase d token = PhaseReady r ->
  exists d0 d', poll_registering d token w = Ret (d', Some (record_result r)) /\ drv_ok d' /\ drv_phase d' token = PhaseVacant /\
    (exists t, d0 = drv_set_table d t /\ try_take_record (drv_table d) token = Ret (t, Ok (PollReady r))) /\
    d' = drv_set_table d0 (emit (drv_table d0) (record_effects r)).
Proof.
  intros Hd Ht Hp. destruct (take_record_law d token Hd Ht) as (t & x & He & Hd' & Hx). rewrite Hp in Hx. destruct Hx as [-> Hv].
  destruct (effect_law (drv_set_table d t) (record_effects r) Hd') as [Hd2 Hp2].
  exists (drv_set_table d t), (drv_set_table (drv_set_table d t) (emit (drv_table (drv_set_table d t)) (record_effects r))).
  split; [| split; [done |]; split; [by rewrite Hp2 |]; split; [by exists t | done]].
  unfold poll_registering, poll_table_once, on_table. rewrite He, !bind_ret. by rewrite from_record_eq.
Qed.

(** ** Submitting *)

Lemma recover_ok d token p : drv_ok d -> drv_token token -> drv_phase d token = PhaseReserved p ->
  exists d', recover_payload d (reserved_new token) = Ret (d', mkReservedSlot token false, p) /\ drv_ok d' /\
    drv_phase d' token = PhaseVacant.
Proof.
  intros Hd Ht Hp. unfold recover_payload. cbn [reserved_new rs_token].
  destruct (take_payload_law d token p Hd Ht Hp) as (d1 & -> & Hd1 & Hp1). rewrite bind_ret.
  destruct (release_law d1 token None Hd1 Ht Hp1) as (d2 & -> & Hd2 & Hp2). rewrite bind_ret. by exists d2.
Qed.

(** From the reservation to the answer of the driver. *)
Lemma hand_over d (data : T) : drv_ok d -> drv_op (into_kernel_and_payload data).1 ->
  exists d1 x, drv_reserve_op d = Ret (d1, x) /\ drv_ok d1 /\
    match x with
    | Err _ => True
    | Ok token => drv_token token /\ exists d2, drv_set_payload d1 token (payload_into_erased (into_kernel_and_payload data).2) = Ret d2 /\
        exists d3 y back, drv_submit d2 token (Some (into_kernel_and_payload data).1) = Ret (d3, (y, back)) /\ drv_ok d3 /\
          match y with
          | Submitted _ | SubmitFailed _ InFlight => drv_phase d3 token = PhaseInFlight
          | SubmitFailed _ Void =>
              drv_phase d3 token = PhaseReserved (Some (payload_into_erased (into_kernel_and_payload data).2))
          end
    end.
Proof.
  intros Hd Hop. destruct (reserve_law d Hd) as (d1 & x & He & Hd1 & Hx). exists d1, x. split; [done |]. split; [done |].
  destruct x as [token | e]; [| done]. destruct Hx as [Ht [p0 Hp]]. split; [done |].
  destruct (set_payload_law d1 token p0 (payload_into_erased (into_kernel_and_payload data).2) Hd1 Ht Hp) as (d2 & -> & Hd2 & Hp2).
  exists d2. split; [done |]. by eapply submit_law.
Qed.

Lemma submitted_poll d token w : drv_ok d -> drv_token token -> drv_phase d token = PhaseInFlight ->
  exists d', local_poll_submitted d (mkLocalOp LocalSubmitted None (Some token)) w =
      Ret (d', mkLocalOp LocalSubmitted None (Some token), None : option Result) /\ drv_ok d' /\ drv_phase d' token = PhaseInFlight.
Proof.
  intros Hd Ht Hp. unfold local_poll_submitted. cbn [lo_state lo_token expect]. rewrite bind_ret.
  destruct (poll_registering_in_flight d token w Hd Ht Hp) as (d' & -> & Hd' & Hp'). rewrite bind_ret. by exists d'.
Qed.

(** C9 The first poll of a local operation submits it.  Over any driver that
    keeps its contract, for an operation whose payload survives being stored, the
    poll returns.  If the driver accepts the operation, it is in flight under the
    token that the future keeps, and the poll waits.  If the driver refuses it, by
    having no slot or by not accepting the submission, the poll gives the result
    at once: the operation's own payload, completed with just that error; the slot
    is given back, and nothing is left to do when the future is dropped. *)
Theorem local_op_submits_or_returns d (data : T) w (Hd : drv_ok d) (Hop : drv_op (into_kernel_and_payload data).1)
    (Hkept : payload_kept data) :
  exists d' o r refused, local_poll d (submit_local data) w = Ret (d', o, r) /\ drv_ok d' /\ refusal d data = Ret refused /\
    match refused with
    | None => r = None /\
        exists token, o = mkLocalOp LocalSubmitted None (Some token) /\ drv_token token /\ drv_phase d' token = PhaseInFlight
    | Some e => r = Some (handed_back data e) /\ local_drop d' o = Ret d' /\
        (forall token, lo_token o = Some token -> drv_phase d' token = PhaseVacant)
    end.
Proof.
  destruct (hand_over d data Hd Hop) as (d1 & x & He & Hd1 & Hx). unfold payload_kept in Hkept. unfold local_poll, refusal, handed_back.
  cbn [submit_local lo_state lo_data expect]. rewrite bind_ret. unfold local_submit.
  destruct (into_kernel_and_payload data) as [op payload]. cbn [fst snd] in *.
  rewrite He, !bind_ret. destruct x as [token | e].
  2: { eexists _, _, _, (Some e). by repeat split. }
  destruct Hx as (Ht & d2 & He2 & d3 & y & back & He3 & Hd3 & Hy). cbn [reserved_new rs_token]. rewrite He2, !bind_ret, He3, !bind_ret.
  destruct y as [ready | report [|]]; rewrite ?bind_ret.
  1, 2: destruct (submitted_poll d3 token w Hd3 Ht Hy) as (d' & Heq & Hd' & Hp'); eexists d', _, None, None;
    rewrite <- Heq; split_and!; [done .. | by exists token].
  destruct (recover_ok d3 token _ Hd3 Ht Hy) as (d4 & -> & Hd4 & Hp4). rewrite bind_ret.
  cbn [reserved_drop rs_release_on_drop]. rewrite bind_ret, Hkept. eexists _, _, _, (Some report).
  split_and!; [done .. |]. cbn. by intros token' [= <-].
Qed.

(** C10 A finished operation gives its result once.  When the driver has recorded
    the completion, the poll of a local or of a detached future returns it: the
    payload in what the operation makes of it, with the recorded detail or the
    value of the event; a clean-up of the result is passed on unless the payload
    cannot be handed over, and then it is run, once; the slot is free again, and
    the token gives nothing a second time. *)
Theorem op_result_taken_once d token w r (Hd : drv_ok d) (Ht : drv_token token) (Hp : drv_phase d token = PhaseReady r) :
  exists d', local_poll d (mkLocalOp LocalSubmitted None (Some token)) w =
      Ret (d', mkLocalOp LocalCompleted None (Some token), Some (record_result r)) /\
    detached_poll d (detached_in_flight token) w = Ret (d', detached_in_flight token, Some (record_result r)) /\
    drv_ok d' /\ drv_phase d' token = PhaseVacant /\
    (exists t, try_take_record (drv_table d) token = Ret (t, Ok (PollReady r)) /\ drv_table d' = emit t (record_effects r)) /\
    (exists d2 kind, poll_table_once d' token = Ret (d2, Some (ResourceLost (from_completion_anomaly kind) : Result)) /\ drv_ok d2).
Proof.
  destruct (poll_ready d token w r Hd Ht Hp) as (d0 & d' & He & Hd' & Hp' & (t & -> & Htake) & ->). eexists. split_and!.
  - unfold local_poll, local_poll_submitted. cbn [lo_state lo_token expect]. rewrite bind_ret, He, bind_ret. reflexivity.
  - unfold detached_poll. cbn [detached_in_flight dt_immediate_failure dt_immediate_resource_lost dt_completion_table dt_token expect].
    rewrite !bind_ret, He, bind_ret. reflexivity.
  - done.
  - done.
  - exists t. split; [done |]. by rewrite !table_get_set.
  - unfold poll_table_once. destruct (on_table_ok _ _ _ _ (take_record_law _ token Hd' Ht)) as (d2 & x & -> & Hd2 & Hx).
    rewrite Hp' in Hx. destruct Hx as [(kind & attach & ->) _]. rewrite bind_ret. by exists d2, kind.
Qed.

(** C11 Dropping a future that still waits abandons its operation: whether the
    future was local or detached, the drop returns and the operation is the
    driver's alone, which cleans up after it, or it is over. *)
Theorem dropped_future_abandons d token (Hd : drv_ok d) (Ht : drv_token token) (Hp : drv_phase d token = PhaseInFlight) :
  (exists d', local_drop d (mkLocalOp (T := T) LocalSubmitted None (Some token)) = Ret d' /\ drv_ok d' /\
     (drv_phase d' token = PhaseAbandoned \/ drv_phase d' token = PhaseVacant)) /\
  (exists d', detached_drop d (detached_in_flight token) = Ret d' /\ drv_ok d' /\ drv_phase d' token = PhaseAbandoned).
Proof.
  destruct (on_table_ok _ _ _ _ (orphan_law d token Hd Ht Hp)) as (d1 & x & He & Hd1 & Hp1). split.
  - unfold local_drop. cbn [lo_state lo_token]. rewrite He, bind_ret.
    destruct (cancel_law d1 token Hd1 Ht) as (d2 & y & -> & Hd2 & Hp2). rewrite bind_ret. exists d2. auto.
  - unfold detached_drop. cbn [detached_in_flight dt_token dt_completion_table dt_cancel_sender dt_cancel_waker].
    rewrite He, !bind_ret. destruct (send_law d1 token Hd1 Ht) as [Hd2 Hp2].
    destruct (wake_law _ Hd2) as (d3 & y & -> & Hd3 & Hp3). rewrite bind_ret. exists d3. split_and!; [done | done |]. by rewrite Hp3, Hp2.
Qed.

(** The two ways to submit agree: what the first poll of a local future says
    is what a detached future says when it is polled after its submission. *)
Theorem submissions_agree d (data : T) w (Hd : drv_ok d) (Hop : drv_op (into_kernel_and_payload data).1) :
  exists d1 o1 d2 o2 d3 o3 r, local_poll d (submit_local data) w = Ret (d1, o1, r) /\
    submit_detached d data = Ret (d2, o2) /\ detached_poll d2 o2 w = Ret (d3, o3, r) /\ drv_ok d3 /\
    (forall token, lo_token o1 = Some token -> dt_token o3 = Some token \/ r <> None) /\
    (r = None -> o3 = o2 /\ exists token, dt_token o2 = Some token /\ drv_phase d3 token = PhaseInFlight).
Proof.
  destruct (hand_over d data Hd Hop) as (e1 & x & He & He1 & Hx). unfold local_poll, submit_detached. cbn [submit_local lo_state lo_data expect].
  rewrite bind_ret. unfold local_submit. destruct (into_kernel_and_payload data) as [op payload]. cbn [fst snd] in *.
  rewrite He, !bind_ret. destruct x as [token | e].
  2: { eexists _, _, _, _, _, _, _. split; [done |]. split; [done |]. split; [reflexivity |]. split; [done |]. split; [done | done]. }
  destruct Hx as (Ht & e2 & He2 & e3 & y & back & He3 & Hok3 & Hy). cbn [reserved_new rs_token]. rewrite He2, !bind_ret, He3, !bind_ret.
  assert (Hfly : drv_phase e3 token = PhaseInFlight ->
    exists d1 o1 d2 o2 d3 o3 (r : option Result), local_poll_submitted e3 (mkLocalOp LocalSubmitted None (Some token)) w = Ret (d1, o1, r) /\
      (d ← reserved_drop e3 (persist (reserved_new token)); '(d, _) ← on_table d (mark_waiting (drv_table d) token);
       Ret (d, detached_in_flight token)) = Ret (d2, o2) /\ detached_poll d2 o2 w = Ret (d3, o3, r) /\ drv_ok d3 /\
      (forall token0, lo_token o1 = Some token0 -> dt_token o3 = Some token0 \/ r <> None) /\
      (r = None -> o3 = o2 /\ exists token0, dt_token o2 = Some token0 /\ drv_phase d3 token0 = PhaseInFlight)).
  { intros Hp. destruct (submitted_poll e3 token w Hok3 Ht Hp) as (d1 & Heq & Hd1 & Hp1). rewrite Heq. cbn [persist reserved_new rs_token reserved_drop rs_release_on_drop].
    rewrite bind_ret. destruct (on_table_ok _ _ _ _ (waiting_law e3 token Hok3 Ht Hp)) as (d2 & z & -> & Hd2 & Hp2). rewrite bind_ret.
    destruct (poll_registering_in_flight d2 token w Hd2 Ht Hp2) as (d3 & Hpoll & Hd3 & Hp3).
    eexists _, _, _, _, d3, (detached_in_flight token), None. split; [done |]. split; [done |]. split.
    - unfold detached_poll. cbn [detached_in_flight dt_immediate_failure dt_immediate_resource_lost dt_completion_table dt_token expect].
      rewrite !bind_ret, Hpoll, bind_ret. done.
    - split; [done |]. split; [intros t; by left | intros _; split; [done |]; by exists token]. }
  destruct y as [ready | report [|]]; [rewrite bind_ret; by apply Hfly | rewrite bind_ret; by apply Hfly |].
  destruct (recover_ok e3 token _ Hok3 Ht Hy) as (d4 & -> & Hd4 & Hp4). rewrite !bind_ret.
  cbn [reserved_drop rs_release_on_drop]. rewrite !bind_ret.
  destruct (try_payload_from_erased _) as [p | e]; eexists _, _, _, _, d4, _, _; (split; [reflexivity |]); (split; [reflexivity |]);
    (split; [reflexivity |]); (split; [done |]); (split; [by intros t _; right | done]).
Qed.
End futures.
