(* ===== verification/OpPhases.v ===== *)
(** * The phases of an operation in the registry

    Where the slot of a token is in its life, read from the completion table and
    the private half, and what the futures' calls on the table do to it; for
    every backend. *)

From stdpp Require Import strings.
From S2P Require Import Prelude Token SlotState Anomaly SlotTable Completion Registry Flow RegistryInv CompletionSpec DriverSteps DriverSafety OpLifecycle SlotInfo DriverApi OpFuture OpFutureSpec.

Section phases.
Context `{Spec : SlotSpec}.
Implicit Types (r : OpRegistry) (t : SlotTable) (token : OpToken).

Definition cell_phase (d : SlotData) (l : LocalSlot) : OpPhase :=
  match slot_state d with
  | Reserved => PhaseReserved (sg_payload (ls_storage l))
  | InFlightWaiting => PhaseInFlight
  | InFlightOrphaned => PhaseAbandoned
  | InFlightReady =>
      match sd_data d with
      | DataUser ev pl de cl => PhaseReady (mkRecord ev pl de cl)
      | DataEmpty => PhaseVacant
      end
  | Idle | Finalizing | ReservedValue => PhaseVacant
  end.

Definition registry_phase r token : OpPhase :=
  match tb_slots (rg_shared r) !! Z.to_nat (tk_index token), rg_local r !! Z.to_nat (tk_index token) with
  | Some d, Some l => if slot_generation d =? tk_generation token then cell_phase d l else PhaseVacant
  | _, _ => PhaseVacant
  end.

(** ** From the contents of a slot, and back *)

Definition info_phase (i : SlotInfo) : OpPhase :=
  match si_state i with
  | Reserved => PhaseReserved (sg_payload (ls_storage (si_local i)))
  | InFlightWaiting => PhaseInFlight
  | InFlightOrphaned => PhaseAbandoned
  | _ => PhaseVacant
  end.

Lemma phase_of_info r token i : slot_info r (Z.to_nat (tk_index token)) = Some i -> si_generation i = tk_generation token ->
  si_state i <> InFlightReady -> registry_phase r token = info_phase i.
Proof.
  intros (d & Hd & Hl & Hs & Hg)%slot_info_parts Hgen Hr. unfold registry_phase, cell_phase, info_phase.
  rewrite Hd, Hl, Hg, Hgen, Z.eqb_refl, Hs. by destruct (si_state i).
Qed.

Lemma phase_info r token i : slot_info r (Z.to_nat (tk_index token)) = Some i ->
  si_generation i <> tk_generation token \/ si_state i = Idle -> registry_phase r token = PhaseVacant.
Proof.
  intros (d & Hd & Hl & Hs & Hg)%slot_info_parts Hv. unfold registry_phase, cell_phase. rewrite Hd, Hl, Hg, Hs.
  destruct Hv as [Hv | ->]; [by rewrite (proj2 (Z.eqb_neq _ _) Hv) | by destruct (_ =? _)].
Qed.

(** The cell behind a phase that is not vacant. *)
Lemma phase_cell r token p : registry_phase r token = p -> p <> PhaseVacant ->
  exists d l, tb_slots (rg_shared r) !! Z.to_nat (tk_index token) = Some d /\ rg_local r !! Z.to_nat (tk_index token) = Some l /\
    slot_generation d = tk_generation token /\ cell_phase d l = p.
Proof.
  unfold registry_phase. intros <- Hp. destruct (tb_slots _ !! _) as [d |], (rg_local r !! _) as [l |]; try done.
  destruct (Z.eqb_spec (slot_generation d) (tk_generation token)) as [Hg | Hg]; [| done]. by exists d, l.
Qed.

Lemma reserved_info r token p : registry_phase r token = PhaseReserved p ->
  exists i, slot_info r (Z.to_nat (tk_index token)) = Some i /\ si_generation i = tk_generation token /\
    si_state i = Reserved /\ sg_payload (ls_storage (si_local i)) = p.
Proof.
  intros (d & l & Hd & Hl & Hg & Hp)%phase_cell; [| done]. exists (mkInfo (slot_state d) (slot_generation d) l).
  split; [apply slot_info_parts; by exists d |]. unfold cell_phase in Hp.
  destruct (slot_state d) eqn:Hs; try done; [by injection Hp as <- | by destruct (sd_data d)].
Qed.

Lemma in_flight_cell r token : registry_phase r token = PhaseInFlight ->
  exists d l, tb_slots (rg_shared r) !! Z.to_nat (tk_index token) = Some d /\ rg_local r !! Z.to_nat (tk_index token) = Some l /\
    slot_generation d = tk_generation token /\ slot_state d = InFlightWaiting.
Proof.
  intros (d & l & Hd & Hl & Hg & Hc)%phase_cell; [| done]. exists d, l. split_and!; [done .. |]. unfold cell_phase in Hc.
  destruct (slot_state d); try done. by destruct (sd_data d).
Qed.

Lemma abandoned_info r token : registry_phase r token = PhaseAbandoned ->
  exists i, slot_info r (Z.to_nat (tk_index token)) = Some i /\ si_generation i = tk_generation token /\ si_state i = InFlightOrphaned.
Proof.
  intros (d & l & Hd & Hl & Hg & Hp)%phase_cell; [| done]. exists (mkInfo (slot_state d) (slot_generation d) l).
  split; [apply slot_info_parts; by exists d |]. split; [done |]. unfold cell_phase in Hp. cbn.
  destruct (slot_state d); try done. by destruct (sd_data d).
Qed.

Lemma in_flight_info r token : registry_phase r token = PhaseInFlight ->
  exists i, slot_info r (Z.to_nat (tk_index token)) = Some i /\ si_generation i = tk_generation token /\ si_state i = InFlightWaiting.
Proof.
  intros (d & l & Hd & Hl & Hg & Hs)%in_flight_cell. exists (mkInfo (slot_state d) (slot_generation d) l).
  split; [apply slot_info_parts; by exists d | done].
Qed.

Lemma phase_same_cells r t token : tb_slots t = tb_slots (rg_shared r) -> registry_phase (set_shared r t) token = registry_phase r token.
Proof. intros Ht. unfold registry_phase. cbn. by rewrite Ht. Qed.

Lemma phase_diagnostics r t token : only_diagnostics (rg_shared r) t -> registry_phase (set_shared r t) token = registry_phase r token.
Proof. intros [dg ->]. by apply phase_same_cells. Qed.

Lemma in_flight_same r r' token : same_info r r' -> registry_phase r token = PhaseInFlight -> registry_phase r' token = PhaseInFlight.
Proof.
  intros Hs (i & Hi & Hg & Hst)%in_flight_info. rewrite (phase_of_info r' token i); [| by rewrite Hs | done | by rewrite Hst].
  unfold info_phase. by rewrite Hst.
Qed.

(** ** The calls of the futures *)

Definition phase_call {X} r token (m : outcome (SlotTable * X)) (Q : OpPhase -> X -> Prop) : Prop :=
  exists t x, m = Ret (t, x) /\ Q (registry_phase (set_shared r t) token) x.

Lemma waker_phase r token (w : Waker) : reg_inv r -> 0 <= tk_index token -> registry_phase r token = PhaseInFlight ->
  phase_call r token (register_waker (rg_shared r) token w) (fun p _ => p = PhaseInFlight).
Proof.
  intros Hr Hi Hp. destruct (waker_info r token w Hr Hi) as (t & x & He & _ & Hs). exists t, x. split; [done |].
  by eapply in_flight_same.
Qed.

Lemma waiting_phase r token : reg_inv r -> 0 <= tk_index token -> registry_phase r token = PhaseInFlight ->
  phase_call r token (mark_waiting (rg_shared r) token) (fun p _ => p = PhaseInFlight).
Proof.
  intros Hr Hi Hp. destruct (waiting_info r token Hr Hi) as (t & x & He & _ & Hs). exists t, x. split; [done |].
  by eapply in_flight_same.
Qed.

Lemma orphan_phase r token : 0 <= tk_index token -> registry_phase r token = PhaseInFlight ->
  phase_call r token (mark_orphaned (rg_shared r) token) (fun p _ => p = PhaseAbandoned).
Proof.
  intros Hi (d & l & Hd & Hl & Hg & Hs)%in_flight_cell. unfold mark_orphaned, token_parts.
  rewrite (in_table_some _ _ _ Hi Hd). cbn [negb]. rewrite (vec_get_lookup _ _ _ Hi Hd), bind_ret, Hs, Hg, Z.eqb_refl.
  rewrite (with_slot_ok _ _ _ _ Hi Hd), bind_ret. set (t1 := set_slots _ _).
  destruct (recorded_mutation_only t1 token Applied) as (t' & [dg ->] & ->). eexists _, _. split; [done |].
  pose proof (lookup_lt_Some _ _ _ Hd). unfold registry_phase. cbn. rewrite list_lookup_insert_eq by done. rewrite Hl.
  cbn. by rewrite Z.eqb_refl.
Qed.

(** Taking the record. *)

Lemma take_unavailable r token k a : registry_phase r token <> PhaseInFlight -> (forall rec, registry_phase r token <> PhaseReady rec) ->
  phase_call r token (Ret (note_anomaly (rg_shared r) k a, Ok (PollUnavailable k a))) (take_answer (registry_phase r token)).
Proof.
  intros Hf Hr. eexists _, _. split; [done |]. unfold take_answer. rewrite phase_diagnostics by apply note_anomaly_only.
  destruct (registry_phase r token); try done; [split; [by eexists _, _ | done] | by destruct (Hr r0) | split; [by eexists _, _ | done] ..].
Qed.

Lemma take_ready_phase r token ev pl de cl d l : reg_inv r -> 0 <= tk_index token ->
  tb_slots (rg_shared r) !! Z.to_nat (tk_index token) = Some d -> rg_local r !! Z.to_nat (tk_index token) = Some l ->
  slot_generation d = tk_generation token -> slot_state d = InFlightReady -> sd_data d = DataUser ev pl de cl ->
  phase_call r token (try_take_record (rg_shared r) token) (fun p x => x = Ok (PollReady (mkRecord ev pl de cl)) /\ p = PhaseVacant).
Proof.
  intros Hr Hi Hd Hl Hg Hs Hdata. rewrite (take_ready_record _ _ _ _ _ _ _ Hi Hd Hs Hg Hdata). eexists _, _. split; [done |].
  split; [done |]. pose proof (lookup_lt_Some _ _ _ Hd). unfold registry_phase. cbn. rewrite list_lookup_insert_eq by done. rewrite Hl.
  by destruct (_ =? _).
Qed.

Lemma take_phase r token : reg_inv r -> 0 <= tk_index token ->
  phase_call r token (try_take_record (rg_shared r) token) (take_answer (registry_phase r token)).
Proof.
  intros Hr Hi. pose proof Hr as [(L & R & Ho) _].
  destruct (cell_cases r _ Hi) as [Hc | (Hc & d & Hd & Hv)].
  - unfold try_take_record, token_parts. rewrite Hc. cbn [negb]. pose proof Hc as Hnone. rewrite in_table_spec in Hnone by done.
    apply bool_decide_eq_false in Hnone. apply take_unavailable; unfold registry_phase; destruct (tb_slots _ !! _); try done;
      by destruct Hnone; eexists.
  - destruct (lookup_lt_is_Some_2 (rg_local r) (Z.to_nat (tk_index token))) as [l Hl].
    { rewrite (ro_len _ _ _ _ Ho). by eapply lookup_lt_Some. }
    assert (Hp : registry_phase r token = if slot_generation d =? tk_generation token then cell_phase d l else PhaseVacant).
    { unfold registry_phase. by rewrite Hd, Hl. }
    destruct (Z.eqb_spec (slot_generation d) (tk_generation token)) as [Hg | Hg].
    + destruct (reg_inv_cell _ _ _ Hr Hd) as [Hfin Hready]. unfold cell_phase in Hp. destruct (slot_state d) eqn:Hs; try done.
      4: { destruct (Hready eq_refl) as (ev & pl & de & cl & Hdata & _). rewrite Hp, Hdata. by apply (take_ready_phase r token ev pl de cl d l). }
      all: unfold try_take_record, token_parts; rewrite Hc; cbn [negb]; rewrite Hv, bind_ret;
        change (cs_generation (sd_core d)) with (slot_generation d); change (cs_state (sd_core d)) with (slot_state d);
        rewrite Hg, Z.ltb_irrefl, Hs.
      all: try (apply take_unavailable; by rewrite Hp).
      eexists _, _. split; [done |]. rewrite Hp. split; [done |]. by rewrite set_shared_id.
    + unfold try_take_record, token_parts. rewrite Hc. cbn [negb]. rewrite Hv, bind_ret.
      change (cs_generation (sd_core d)) with (slot_generation d).
      destruct (tk_generation token <? slot_generation d) eqn:H1; [apply take_unavailable; by rewrite Hp |].
      destruct (slot_generation d <? tk_generation token) eqn:H2; [apply take_unavailable; by rewrite Hp | lia].
Qed.
End phases.
