(* ===== verification/UringFrame.v ===== *)
(** * What calls on the ring and on the file table leave as it is

    Pushing entries, registering buffers and files and creating event
    descriptors add no entries to the kernel but those that were pushed, and
    keep the invariant of the file table.  The driver's timer wheel has the
    default configuration, for which no arithmetic overflows. *)

From stdpp Require Import strings gmap.
From S2P Require Import Prelude BitSet SlotMap WheelConfig Wheel Timers UringBase FileTable.

Section table.
Context `{IoUring}.
Implicit Types (t : FileTable).

Lemma table_inv_close t l : table_inv t -> table_inv (ft_close t l).
Proof. by intros []. Qed.

Lemma table_inv_empty : table_inv file_table_empty.
Proof.
  split; cbn; [constructor | | done]. intros i. split; [by intros Hi%elem_of_nil |].
  intros (_ & g & Hg). unfold slot_at in Hg. cbn in Hg. by destruct (Z.to_nat i).
Qed.

Lemma slot_at_same t i sl x : 0 <= i -> slot_at t i = Some x -> slot_at (ft_set_slot t i sl) i = Some sl.
Proof. intros Hi Hx. rewrite slot_at_set by (done || by eexists). by rewrite decide_True. Qed.

Lemma slot_at_other t i j sl x : 0 <= i -> 0 <= j -> slot_at t i = Some x -> j <> i ->
  slot_at (ft_set_slot t i sl) j = slot_at t j.
Proof. intros Hi Hj Hx Hne. rewrite slot_at_set by (done || by eexists). by rewrite decide_False. Qed.

(** A free place is taken. *)
Lemma table_inv_place t idx free sl e : table_inv t -> ft_free t = idx :: free -> slot_at t idx = Some sl ->
  table_inv (ft_set_slot (ft_set_free t free) idx (mkFileSlot (Some e) (fl_generation sl))).
Proof.
  intros [Hn Hi Hs] Hf Hsl. rewrite Hf in Hn. apply NoDup_cons in Hn as [Hnin Hn].
  assert (H0 : 0 <= idx) by (apply Hi; rewrite Hf; by left).
  split; cbn [ft_free ft_set_slot ft_set_free ft_initialized ft_slots]; [done | |].
  - intros i. destruct (decide (i = idx)) as [-> | Hne].
    + split; [done |]. intros (_ & g & Hg). exfalso.
      by erewrite slot_at_same in Hg.
    + transitivity (i ∈ ft_free t); [rewrite Hf, elem_of_cons; naive_solver |]. rewrite Hi.
      split; intros (Hi0 & g & Hg); (split; [done |]); exists g.
      * by erewrite slot_at_other.
      * by erewrite slot_at_other in Hg.
  - intros Hin. destruct (Hs Hin) as [E _]. unfold slot_at in Hsl. by rewrite E in Hsl.
Qed.

(** A place with an entry is freed. *)
Lemma table_inv_vacate t idx e g g' : table_inv t -> 0 <= idx -> slot_at t idx = Some (mkFileSlot (Some e) g) ->
  table_inv (ft_set_free (ft_set_slot t idx (mkFileSlot None g')) (idx :: ft_free t)).
Proof.
  intros [Hn Hi Hs] H0 Hsl. split; cbn [ft_free ft_set_slot ft_set_free ft_initialized ft_slots].
  - apply NoDup_cons. split; [| done]. rewrite Hi. intros (_ & x & Hx). by rewrite Hsl in Hx.
  - intros i. change (slot_at (ft_set_free ?t ?f) i) with (slot_at t i). rewrite elem_of_cons, Hi.
    destruct (decide (i = idx)) as [-> | Hne].
    + split; [intros _ | by left]. split; [done |]. exists g'. by erewrite slot_at_same.
    + split.
      * intros [-> | (Hi0 & x & Hx)]; [done |]. split; [done |]. exists x.
        by erewrite slot_at_other.
      * intros (Hi0 & x & Hx). right. split; [done |]. exists x.
        by erewrite slot_at_other in Hx.
  - intros Hin. destruct (Hs Hin) as [E _]. unfold slot_at in Hsl. by rewrite E in Hsl.
Qed.

Lemma table_inv_replace t idx e e' g : table_inv t -> 0 <= idx -> slot_at t idx = Some (mkFileSlot (Some e) g) ->
  table_inv (ft_set_slot t idx (mkFileSlot (Some e') g)).
Proof.
  intros [Hn Hi Hs] H0 Hsl. split; cbn [ft_free ft_set_slot ft_set_free ft_initialized ft_slots]; [done | |].
  - intros i. rewrite Hi. destruct (decide (i = idx)) as [-> | Hne].
    + split; intros (_ & x & Hx); [by rewrite Hsl in Hx |].
      by erewrite slot_at_same in Hx.
    + split; intros (Hi0 & x & Hx); (split; [done |]); exists x.
      * by erewrite slot_at_other.
      * by erewrite slot_at_other in Hx.
  - intros Hin. destruct (Hs Hin) as [E _]. unfold slot_at in Hsl. by rewrite E in Hsl.
Qed.
End table.

Section frame.
Context `{Laws : IoUringLaws}.
Notation St := (Ring * FileTable)%type.
Implicit Types (s : St) (t : FileTable) (r : Ring).

(** The state of files after a call. *)
Definition files_kept s s' : Prop := table_inv s'.2 /\ outstanding s'.1 ≡ₚ outstanding s.1.

Lemma files_kept_trans s1 s2 s3 : files_kept s1 s2 -> files_kept s2 s3 -> files_kept s1 s3.
Proof. intros [_ H1] [H2 H3]. split; [done |]. by rewrite H3. Qed.

Lemma unregister_kept s idx adv : table_inv s.2 -> 0 <= idx -> files_kept s (unregister_file_slot s idx adv).1.
Proof.
  destruct s as [r t]. intros Ht Hi. unfold unregister_file_slot. cbn [snd] in Ht.
  destruct (_ <=? _); [done |]. destruct (slot_at t idx) as [[[e |] g] |] eqn:Hs; try done.
  pose proof (files_update_keeps r idx (-1)) as Ho. destruct (register_files_update r idx (-1)) as [r' [[] | er]]; [| done].
  split; [| done]. by eapply table_inv_close, table_inv_vacate.
Qed.

Lemma rollback_kept reg : forall s e0, table_inv s.2 -> Forall (fun i => 0 <= i) reg ->
  files_kept s (rollback_loop s reg e0).1.
Proof.
  induction reg as [| i reg IH]; intros s e0 Ht Hr; [done |]. apply Forall_cons in Hr as [Hi Hr]. cbn [rollback_loop].
  pose proof (unregister_kept s i false Ht Hi) as Hk. destruct (unregister_file_slot s i false) as [s1 x]. cbn [fst] in Hk.
  eapply files_kept_trans; [exact Hk |]. apply IH; [apply Hk | done].
Qed.

Lemma initialize_kept cap s : table_inv s.2 -> files_kept s (ensure_file_table_initialized cap s).1.
Proof.
  destruct s as [r t]. intros Ht. unfold ensure_file_table_initialized. destruct (ft_initialized t); [done |].
  set (c := Z.to_nat _). pose proof (files_keep r (replicate c (-1))) as Ho.
  destruct (register_files r _) as [r' [[] | er]]; cbn [fst snd] in *; [| done].
  split; [| done]. split; cbn.
  - apply NoDup_fmap_2; [intros x y Hxy; lia |]. apply NoDup_seq.
  - intros i. split.
    + intros (k & -> & Hk%elem_of_seq)%list_elem_of_fmap. split; [lia |]. exists INITIAL_FILE_GENERATION.
      unfold slot_at. cbn. rewrite Nat2Z.id. apply lookup_replicate_2. lia.
    + intros (Hi & g & Hg). unfold slot_at in Hg. cbn in Hg. apply lookup_replicate_1 in Hg as [_ Hk].
      apply list_elem_of_fmap. exists (Z.to_nat i). split; [lia |]. apply elem_of_seq. lia.
  - done.
Qed.

Lemma register_loop_kept files : forall s fixed reg, table_inv s.2 -> Forall (fun i => 0 <= i) reg ->
  Forall (fun fd => 0 <= fd_index fd) fixed -> (length files <= length (ft_free s.2))%nat ->
  exists s' x, register_loop s files fixed reg = Ret (s', x) /\ files_kept s s' /\
    match x with Ok fds => Forall (fun fd => 0 <= fd_index fd) fds | Err _ => True end.
Proof.
  induction files as [| f files IH]; intros [r t] fixed reg Ht Hr Hfix Hlen; cbn [register_loop].
  { eexists _, _. split; [done |]. done. }
  cbn [fst snd length] in *. destruct (ft_free t) as [| idx free] eqn:Hf; [cbn in Hlen; lia |].
  cbn [head expect tail]. rewrite bind_ret.
  destruct (proj1 (tv_free_iff _ Ht idx)) as (Hi & g & Hs); [rewrite Hf; by left |].
  pose proof (files_update_keeps r idx (entry_fd (entry_of f))) as Ho.
  destruct (register_files_update r idx _) as [r' [[] | er]]; cbn [fst] in Ho.
  - erewrite vec_get_lookup by done. rewrite bind_ret. cbn [fl_entry fl_generation].
    set (t1 := ft_set_slot _ idx _).
    assert (Ht1 : table_inv t1) by (by eapply (table_inv_place t idx free (mkFileSlot None g))).
    destruct (IH (r', ft_close t1 []) (fixed ++ [mkIoFd idx g]) (idx :: reg)) as (s' & x & He & Hk & Hx);
      [by apply table_inv_close | by constructor | by apply Forall_app_2; [| constructor] | cbn in Hlen; cbn; lia |].
    exists s', x. split; [done |]. split; [| done].
    eapply files_kept_trans; [| exact Hk]. split; [by apply table_inv_close | done].
  - assert (Hback : ft_set_free (ft_set_free t free) (idx :: ft_free (ft_set_free t free)) = t).
    { destruct t. cbn in *. by rewrite Hf. }
    rewrite Hback. unfold rollback_file_slots. pose proof (rollback_kept reg (r', t) None Ht Hr) as Hk.
    destruct (rollback_loop (r', t) reg None) as [[r2 t2] x]. cbn [fst] in Hk. eexists _, _. split; [done |].
    split; [| done]. destruct Hk as [Hk1 Hk2]. split; [by apply table_inv_close |]. cbn [fst] in *. by rewrite Hk2.
Qed.

Lemma register_kept cap s files : table_inv s.2 ->
  exists s' x, register_files_internal cap s files = Ret (s', x) /\ files_kept s s' /\
    match x with Ok fds => Forall (fun fd => 0 <= fd_index fd) fds | Err _ => True end.
Proof.
  intros Ht. unfold register_files_internal. pose proof (initialize_kept cap s Ht) as Hk.
  destruct (ensure_file_table_initialized cap s) as [[r t] x]. cbn [fst] in Hk.
  assert (Hc : forall l, files_kept s (r, ft_close t l)) by (intros l; destruct Hk; split; [by apply table_inv_close | done]).
  destruct x as [u | er]; [| by eexists _, _]. destruct (_ <? _)%nat eqn:Hl; [by eexists _, _ |].
  apply Nat.ltb_ge in Hl. destruct (register_loop_kept files (r, t) [] [] (proj1 Hk)) as (s' & y & He & Hk' & Hy); [done .. |].
  exists s', y. split; [done |]. split; [by eapply files_kept_trans | done].
Qed.

Lemma unregister_fixed_kept s fd : table_inv s.2 -> 0 <= fd_index fd -> files_kept s (unregister_fixed_fd s fd).1.
Proof.
  destruct s as [r t]. intros Ht Hi. pose proof (unregister_kept (r, t) (fd_index fd) true Ht Hi) as Hk.
  unfold unregister_fixed_fd. revert Hk. generalize (unregister_file_slot (r, t) (fd_index fd) true).
  intros x Hx. destruct (negb (ft_initialized t)); [done |]. destruct (slot_at _ _); [| done]. by destruct (negb _).
Qed.

Lemma close_kept s fd : table_inv s.2 -> 0 <= fd_index fd -> files_kept s (unregister_close_owned_fd s fd).1.
Proof.
  destruct s as [r t]. intros Ht Hi. unfold unregister_close_owned_fd. cbn [snd] in Ht.
  destruct (negb (ft_initialized t)); [done |]. destruct (slot_at t _) as [[[e |] g] |] eqn:Hs; cbn [fl_generation fl_entry]; [| by destruct (negb _) | done].
  destruct (negb _); [done |].
  pose proof (files_update_keeps r (fd_index fd) (-1)) as Ho. destruct (register_files_update r _ _) as [r' [[] | er]]; [| done].
  split; [| done]. by eapply table_inv_vacate.
Qed.

Lemma replace_kept s fd raw : table_inv s.2 -> 0 <= fd_index fd -> files_kept s (replace_registered_fixed_fd s fd raw).1.
Proof.
  destruct s as [r t]. intros Ht Hi. unfold replace_registered_fixed_fd. cbn [snd] in Ht.
  destruct (negb (ft_initialized t)); [done |]. destruct (slot_at t _) as [[[e |] g] |] eqn:Hs; cbn [fl_generation fl_entry]; [| by destruct (negb _) | done].
  destruct (negb _); [done |].
  pose proof (files_update_keeps r (fd_index fd) (as_fd raw)) as Ho. destruct (register_files_update r _ _) as [r' [[] | er]]; [| done].
  split; [| done]. by eapply table_inv_close, table_inv_replace.
Qed.

Lemma unregister_files_kept files : forall s, table_inv s.2 -> Forall (fun fd => 0 <= fd_index fd) files ->
  files_kept s (unregister_files s files).1.
Proof.
  induction files as [| fd files IH]; intros s Ht Hf; [done |]. apply Forall_cons in Hf as [Hi Hf]. cbn [unregister_files].
  pose proof (unregister_fixed_kept s fd Ht Hi) as Hk. destruct (unregister_fixed_fd s fd) as [s1 [u | e]]; [| done].
  cbn [fst] in Hk. eapply files_kept_trans; [exact Hk |]. apply IH; [apply Hk | done].
Qed.
End frame.

(** ** The wheel of the driver *)

Notation CAP := (l0_slot_count wheel_config_default).
Notation L1_SLOTS := (l1_slot_count wheel_config_default).
Notation RATIO := (config_ratio wheel_config_default).
Notation TICK := (config_tick wheel_config_default).

Section wheel.
Context {T K M : Type} `{Countable K} `{!SlotMap K (WheelEntry T K) M} `{!SlotMapSpec K (WheelEntry T K) M}.
Implicit Types w : Wheel K M.

Definition wheel_std w : Prop := wheel_ok CAP L1_SLOTS RATIO TICK w.

Lemma std_geometry : geometry CAP L1_SLOTS RATIO TICK.
Proof. apply config_geometry, default_accurate. Qed.

Lemma std_tick w : wheel_std w -> tick_duration_ms w = TICK.
Proof. by intros (m & gt & s0 & s1 & -> & _). Qed.

Lemma new_std : exists w, wheel_new wheel_config_default = Ret w /\ wheel_std w /\ global_tick w = 0 /\ wheel_pending w = ∅.
Proof.
  destruct (wheel_new_ok (T := T) (K := K) (M := M) wheel_config_default default_accurate) as (w & He & _ & Ha).
  exists w. injection Ha as Hg Hp _. split_and!; [done | | done | done].
  destruct (wheel_empty_ok (T := T) (K := K) (M := M) _ _ _ _ std_geometry) as (s0 & s1 & Hw & E0 & E1).
  assert (He' : wheel_new wheel_config_default = Ret (mk CAP L1_SLOTS RATIO TICK sm_new 0 s0 s1))
    by (rewrite E0, E1; vm_compute; reflexivity).
  rewrite He in He'. injection He' as ->. exact Hw.
Qed.

(** Any delay: its milliseconds fit in a word, and a tick is ten of them. *)
Lemma insert_std w (x : T) d : wheel_std w -> global_tick w < 2 ^ 62 ->
  exists w' k due, insert w x d = Ret (w', k) /\ wheel_std w' /\ global_tick w' = global_tick w /\
    wheel_pending w !! k = None /\ wheel_pending w' = <[k := (due, x)]> (wheel_pending w).
Proof.
  intros Hw Hg. assert (Ht : ticks_of TICK d < 2 ^ 63).
  { unfold ticks_of. pose proof (as_millis_nonneg d) as Hd. change TICK with 10. unfold U64 in Hd.
    apply Z.div_lt_upper_bound; lia. }
  destruct (wheel_insert_ok _ _ _ _ std_geometry w x d Hw) as (w' & k & He & Hw' & Hk & _ & Hg' & Hp); [lia |].
  eexists w', k, _. split_and!; [done .. | | exact Hp].
  apply not_elem_of_dom. intros Hx. apply Hk, sm_dom_issued. unfold wheel_pending, pend in Hx.
  apply elem_of_dom in Hx as [v Hv]. rewrite lookup_omap in Hv. apply elem_of_dom. by destruct (sm_map (tasks w) !! k).
Qed.

Lemma cancel_std w (k : K) : wheel_std w -> wheel_std (cancel w k).1 /\ global_tick (cancel w k).1 = global_tick w /\
  wheel_pending (cancel w k).1 = delete k (wheel_pending w).
Proof.
  intros Hw. destruct (wheel_cancel_ok CAP L1_SLOTS RATIO TICK w k Hw) as (w' & -> & Hw' & _ & Hg & Hp). done.
Qed.

Lemma advance_std w d : wheel_std w -> global_tick w + as_millis_u64 d / TICK < 2 ^ 64 ->
  exists w' X, advance w d [] = Ret (w', items X) /\ wheel_std w' /\ global_tick w' = global_tick w + as_millis_u64 d / TICK /\
    moved (wheel_pending w) X (wheel_pending w').
Proof.
  intros Hw Hb. destruct (wheel_advance_ok _ _ _ _ std_geometry w d [] Hw Hb) as (w' & X & He & Hw' & _ & Hg & Hf).
  exists w', X. split_and!; try done. apply Hf.
Qed.

Lemma moved_nil (P P' : gmap K (Z * T)) : moved P [] P' -> P' = P.
Proof. intros Hm. apply map_to_list_inj, Hm. Qed.

Lemma moved_cons (P P' : gmap K (Z * T)) x X : moved P (x :: X) P' -> P !! x.1 = Some x.2 /\ moved (delete x.1 P) X P'.
Proof.
  unfold moved. intros Hm. assert (Hx : P !! x.1 = Some x.2).
  { apply elem_of_map_to_list. rewrite <- Hm. destruct x. by left. }
  split; [done |]. apply (Permutation_cons_inv (a := x)). rewrite app_comm_cons, Hm.
  rewrite <- (map_to_list_delete P x.1 x.2) by done. by destruct x.
Qed.

Lemma next_timeout_std w : wheel_std w -> global_tick w < 2 ^ 45 -> exists o, next_timeout w = Ret o.
Proof.
  intros (m & gt & s0 & s1 & -> & Hgt & Hw) Hb. cbn [global_tick mk] in Hb.
  pose proof std_geometry as Hgeo. unfold next_timeout. cbn [tasks mk].
  destruct (sm_is_empty m); [by eexists |]. rewrite levels0, bind_ret. cbn [slots mask global_tick mk].
  destruct (scan_l0 _ _ _ _ Hgeo (mk CAP L1_SLOTS RATIO TICK m gt s0 s1) m gt s0 s1 Hgt Hw) as (o & -> & Ho). rewrite bind_ret.
  cbn [tick_duration_ms mk l1_tick_ratio].
  change RATIO with 100 in *. change TICK with 10 in *. change L1_SLOTS with 64 in *. change CAP with 512 in *.
  destruct o as [[j idx] |]; [rewrite arith_ok, bind_ret by (unfold U64; lia); by eexists |].
  unfold quot. cbn [Z.eqb]. rewrite bind_ret, levels1, bind_ret. cbn [slots mask].
  pose proof (wi_len1 _ _ _ _ _ _ _ _ _ Hw) as Hlen. set (c := gt / 100) in *.
  assert (Hcb : 0 <= c < 2 ^ 45) by (unfold c; split; [apply Z.div_pos; lia | apply Z.div_lt_upper_bound; lia]).
  change (64 - 1) with (2 ^ 6 - 1). rewrite (land_mask _ 6) by lia. pose proof (Z.mod_pos_bound c (2 ^ 6) ltac:(lia)) as Hm.
  destruct (scan_slots_ok s1 6 (c mod 2 ^ 6) (length s1) 0) as (o & -> & Ho1); [lia .. |]. rewrite bind_ret.
  destruct o as [[j idx] |].
  - rewrite (land_mask _ 6) by lia. set (diff := _ mod 2 ^ 6).
    assert (Hd : 0 <= diff < 2 ^ 6) by (apply Z.mod_pos_bound; lia).
    rewrite (arith_ok U64 (c + diff)), bind_ret by (unfold U64; lia).
    rewrite (arith_ok U64 ((c + diff) * 100)), bind_ret by (unfold U64; lia).
    destruct ((c + diff) * 100 <=? gt).
    + rewrite Hlen, (arith_ok U64 (c + diff + 64)), bind_ret by (unfold U64; lia).
      rewrite (arith_ok U64 ((c + diff + 64) * 100)), bind_ret by (unfold U64; lia).
      unfold saturating_sub. rewrite arith_ok, bind_ret by (unfold U64; lia). by eexists.
    + rewrite bind_ret, (arith_ok U64 ((c + diff) * 100)), bind_ret by (unfold U64; lia).
      unfold saturating_sub. rewrite arith_ok, bind_ret by (unfold U64; lia). by eexists.
  - cbn [l0_capacity_ticks mk]. rewrite arith_ok, bind_ret by (unfold U64; lia). by eexists.
Qed.
End wheel.
