(* ===== verification/UringInv.v ===== *)
(** * The invariant of the io_uring driver

    Where each operation in flight is: in the backlog, in the timer wheel or
    with the kernel, and that what the kernel still has to complete belongs to
    operations that keep their memory ([lanes]).  [pend] are completions that
    were taken from the ring and are not accepted yet. *)

From stdpp Require Import strings gmap.
From S2P Require Import Prelude BitSet SlotMap WheelConfig Wheel Timers Token SlotState Anomaly SlotTable Completion Registry Flow RegistryInv CompletionSpec DriverSteps DriverSafety OpLifecycle SlotInfo DriverApi UringBase FileTable UringOp UringHooks UringDriver.

(** ** Tokens of different kinds differ *)

Lemma user_token_range t : 0 <= tk_index t -> 0 <= token_user t < 2 ^ 63.
Proof.
  intros Hi. rewrite token_user_val by done. pose proof (Z.mod_pos_bound (tk_generation t) (2 ^ 15) ltac:(lia)).
  pose proof (Z.mod_pos_bound (tk_index t) (2 ^ 48) ltac:(lia)). nia.
Qed.

Lemma token_user_inj t t' : 0 <= tk_index t < 2 ^ 48 -> 0 <= tk_index t' < 2 ^ 48 ->
  token_user t = token_user t' ->
  tk_index t = tk_index t' /\ tk_generation t mod 2 ^ 15 = tk_generation t' mod 2 ^ 15.
Proof.
  intros Hi Hi'. rewrite !token_user_val by lia. rewrite !(Z.mod_small (tk_index _)) by lia. lia.
Qed.

Lemma token_waker_val : token_waker 0 = (2 ^ 15 + 1) * 2 ^ 48.
Proof. reflexivity. Qed.

Lemma token_cancel_val id : 0 <= id < 2 ^ 16 -> token_cancel id = ((2 ^ 15 + 2) * 2 ^ 16 + id) * 2 ^ 32.
Proof.
  intros Hid. unfold token_cancel, token_internal. change (Z.land (control_kind_raw KindCancel) 0x7fff) with 2.
  apply control_bits_val; lia.
Qed.

(** The token of a user operation differs from the driver's own. *)
Lemma user_not_waker t : 0 <= tk_index t -> token_user t <> token_waker 0.
Proof. intros Hi E. pose proof (user_token_range t Hi). rewrite E, token_waker_val in *. lia. Qed.

Lemma user_not_cancel t id : 0 <= tk_index t -> 0 <= id < 2 ^ 16 -> token_user t <> token_cancel id.
Proof. intros Hi Hid E. pose proof (user_token_range t Hi). rewrite E, token_cancel_val in * by done. lia. Qed.

Lemma waker_not_cancel id : 0 <= id < 2 ^ 16 -> token_waker 0 <> token_cancel id.
Proof. intros Hid. rewrite token_waker_val, token_cancel_val by done. lia. Qed.

Lemma token_cancel_inj id id' : 0 <= id < 2 ^ 16 -> 0 <= id' < 2 ^ 16 -> token_cancel id = token_cancel id' -> id = id'.
Proof. intros Hi Hi'. rewrite !token_cancel_val by done. lia. Qed.

Section lanes.
Context `{IoUring} `{UringPayloads} `{UringTimers}.
Notation Info := (SlotInfo (Spec := UringSlotSpec)).
Implicit Types (I : nat -> option Info) (out : list Z) (B : list OpToken) (P : gmap TimerKey (Z * OpToken))
  (C : gmap CancelCompletionId PendingCancel) (a : bool) (k : nat) (i : Info) (t : OpToken).

(** What the driver needs of an operation: its chunk numbers are unsigned. *)
Definition vtable_ok (v : OpVTable) : Prop := forall ko up, Forall (fun c => 0 <= c) (vt_resolve_chunks v ko up).
Definition kernel_op_ok (o : UringKernelOp) : Prop := vtable_ok (ko_vtable o).
(** Making the entry only reads the user's payload. *)
Definition leaves_payload (o : UringKernelOp) : Prop :=
  forall ko up slots chunks ctx, (vt_make_sqe (ko_vtable o) ko up slots chunks ctx).1.2 = up.

Definition info_platform i : UringOpState := ls_platform (si_local i).
Definition in_air i : Prop := si_state i = InFlightWaiting \/ si_state i = InFlightOrphaned.
Definition slot_token k i : OpToken := mkToken (Z.of_nat k) (si_generation i).
Definition ops_ok i : Prop := forall o, ls_op (si_local i) = Some o -> kernel_op_ok o.

(** With the kernel. *)
Definition submitted t i : Prop := flying t i /\ info_platform i = mkOpState None UrKernelSubmitted.

(** An entry that the kernel has not completed yet. *)
Definition user_out I (x : Z) : Prop :=
  exists t i, x = token_user t /\ 0 <= tk_index t < 2 ^ 48 /\ 0 <= tk_generation t /\
    I (Z.to_nat (tk_index t)) = Some i /\ submitted t i.
Definition out_ok I C a (x : Z) : Prop :=
  user_out I x \/ (x = token_waker 0 /\ a = true) \/
  (exists id, x = token_cancel id /\ 0 <= id < 2 ^ 16 /\ is_Some (C !! id)).

(** Where an operation in flight is. *)
Definition flight_ok out B P k i : Prop :=
  flying (slot_token k i) i /\ ops_ok i /\
  match submission_state (info_platform i) with
  | UrQueued => timer_id (info_platform i) = None /\ slot_token k i ∈ B
  | UrKernelSubmitted => timer_id (info_platform i) = None /\
      (si_generation i < 2 ^ 15 -> token_user (slot_token k i) ∈ out)
  | UrTimer => exists tid d, timer_id (info_platform i) = Some tid /\ P !! tid = Some (d, slot_token k i)
  | UrIdle => False
  end.
Definition reserved_ok i : Prop :=
  ls_active (si_local i) = true /\ ls_generation (si_local i) = si_generation i /\
  ls_op (si_local i) = None /\ info_platform i = op_state_new.

Definition slot_ok out B P k i : Prop :=
  match si_state i with
  | Reserved => reserved_ok i
  | InFlightWaiting | InFlightOrphaned => flight_ok out B P k i
  | _ => True
  end.

Lemma slot_ok_air out B P k i : in_air i -> slot_ok out B P k i <-> flight_ok out B P k i.
Proof. unfold slot_ok. by intros [-> | ->]. Qed.

Definition timer_of i (tid : TimerKey) t : Prop := flying t i /\ info_platform i = mkOpState (Some tid) UrTimer.
Definition timer_ok I (tid : TimerKey) t : Prop :=
  0 <= tk_index t /\ exists i, I (Z.to_nat (tk_index t)) = Some i /\ timer_of i tid t.

Record lanes I out B P C a : Prop := {
  ln_bound : forall k i, I k = Some i -> Z.of_nat k < 2 ^ 48 /\ 0 <= si_generation i;
  ln_nodup : NoDup out;
  ln_out : forall x, x ∈ out -> out_ok I C a x;
  ln_slot : forall k i, I k = Some i -> slot_ok out B P k i;
  ln_timer : forall tid v, P !! tid = Some v -> timer_ok I tid v.2
}.

(** [I'] is [I] but for slot [k]. *)
Definition only_at I k i I' : Prop := I' k = Some i /\ forall j, j <> k -> I' j = I j.

(** An entry of slot [k]. *)
Definition of_slot k (x : Z) : Prop := 0 <= x < 2 ^ 63 /\ x mod 2 ^ 48 = Z.of_nat k.

#[global] Instance of_slot_dec k x : Decision (of_slot k x).
Proof. unfold of_slot. apply _. Defined.

Lemma of_slot_user k t : 0 <= tk_index t < 2 ^ 48 -> of_slot k (token_user t) <-> Z.to_nat (tk_index t) = k.
Proof.
  intros Hi. pose proof (user_token_range t ltac:(lia)). unfold of_slot.
  assert (E : token_user t mod 2 ^ 48 = tk_index t).
  { rewrite token_user_val, (Z.mod_small (tk_index t)) by lia. by rewrite Z.add_comm, Z.mod_add, Z.mod_small by lia. }
  rewrite E. lia.
Qed.

Lemma of_slot_token k i : Z.of_nat k < 2 ^ 48 -> of_slot k (token_user (slot_token k i)).
Proof. intros Hk. apply of_slot_user; cbn; lia. Qed.

Lemma not_of_slot_waker k : ~ of_slot k (token_waker 0).
Proof. rewrite token_waker_val. unfold of_slot. lia. Qed.

Lemma not_of_slot_cancel k id : 0 <= id < 2 ^ 16 -> ~ of_slot k (token_cancel id).
Proof. intros Hid. rewrite token_cancel_val by done. unfold of_slot. lia. Qed.

(** ** Frame rules *)

Lemma slot_ok_mono out B P out' B' P' k i :
  (token_user (slot_token k i) ∈ out -> token_user (slot_token k i) ∈ out') ->
  (slot_token k i ∈ B -> slot_token k i ∈ B') ->
  (forall tid d, P !! tid = Some (d, slot_token k i) -> P' !! tid = Some (d, slot_token k i)) ->
  slot_ok out B P k i -> slot_ok out' B' P' k i.
Proof.
  intros Ho HB HP. unfold slot_ok. destruct (si_state i); try done.
  all: intros (Hf & Hk & Hs); (split; [done |]); (split; [done |]); destruct (submission_state _); [done | | |].
  all: try (destruct Hs as (tid & d & Ht & Hp); exists tid, d; by auto).
  all: destruct Hs; split; by auto.
Qed.

Lemma user_out_index I k x i : user_out I x -> I k = Some i -> of_slot k x ->
  submitted (slot_token k i) i /\ x = token_user (slot_token k i).
Proof.
  intros (t & i' & -> & Hi & Hg & HI & Hs) Hk Ho%of_slot_user; [| done]. rewrite Ho, Hk in HI. injection HI as <-.
  replace (slot_token k i) with t; [done |]. unfold slot_token. destruct Hs as [(_ & _ & -> & _) _].
  destruct t. cbn in *. f_equal. lia.
Qed.

(** The other slots' entries keep their operations. *)
Lemma out_ok_frame I C a I' C' a' x k i : only_at I k i I' -> ~ of_slot k x ->
  (a = true -> a' = true) -> (forall id, x = token_cancel id -> is_Some (C !! id) -> is_Some (C' !! id)) ->
  out_ok I C a x -> out_ok I' C' a' x.
Proof.
  intros [Hk Hj] Hx Ha HC [(t & i' & -> & Hi & Hg & HI & Hs) | [[-> Hw] | (id & -> & Hid & Hs)]].
  - left. exists t, i'. do 3 (split; [done |]). split; [| done]. rewrite Hj; [done |]. by rewrite of_slot_user in Hx.
  - right. left. auto.
  - right. right. exists id. auto.
Qed.

(** The order of the completions does not matter. *)
Lemma lanes_perm I out out' B P C a : out' ≡ₚ out -> lanes I out B P C a -> lanes I out' B P C a.
Proof.
  intros Hp [Hb Hn Ho Hs Ht]. split; [done | by rewrite Hp | | | done].
  - intros x Hx. apply Ho. by rewrite <- Hp.
  - intros k i Hk. eapply slot_ok_mono; [| done | done | by apply Hs]. by rewrite Hp.
Qed.

Lemma lanes_info I I' out B P C a : (forall k, I' k = I k) -> lanes I out B P C a -> lanes I' out B P C a.
Proof.
  intros He [Hb Hn Ho Hs Ht]. split; [| done | | |].
  - intros k i. rewrite He. apply Hb.
  - intros x Hx. destruct (Ho x Hx) as [(t & i & ? & ? & ? & HI & ?) | ?]; [| by right].
    left. exists t, i. by rewrite He.
  - intros k i. rewrite He. apply Hs.
  - intros tid v Hv. destruct (Ht tid v Hv) as (Hi & i & HI & ?). split; [done |]. exists i. by rewrite He.
Qed.

(** Only entries of the driver itself come and go. *)
Lemma lanes_internal I out out' B B' P C C' a a' : lanes I out B P C a -> NoDup out' ->
  (forall x, x ∈ out' -> out_ok I C' a' x) ->
  (forall k x, of_slot k x -> x ∈ out -> x ∈ out') -> B ⊆ B' -> lanes I out' B' P C' a'.
Proof.
  intros [Hb Hn Ho Hs Ht] Hn' Ho' Hu HB. split; [done | done | done | | done].
  intros k i Hk. eapply slot_ok_mono; [| by apply HB | done | by apply Hs].
  apply Hu with k, of_slot_token, (Hb _ _ Hk).
Qed.

(** ** The slot of an operation changes *)

(** Neither with the kernel nor in the wheel. *)
Definition quiet i : Prop :=
  ~ in_air i \/ (submission_state (info_platform i) <> UrKernelSubmitted /\ submission_state (info_platform i) <> UrTimer).

Section one_slot.
Context I out B P C a k i0 i I' (Hl : lanes I out B P C a) (Hk : I k = Some i0) (Hat : only_at I k i I')
  (Hgen : 0 <= si_generation i).

Lemma lanes_change out' B' P' : NoDup out' ->
  (forall x, ~ of_slot k x -> x ∈ out' <-> x ∈ out) ->
  (forall x, of_slot k x -> x ∈ out' -> submitted (slot_token k i) i /\ x = token_user (slot_token k i)) ->
  (forall t, 0 <= tk_index t -> Z.to_nat (tk_index t) <> k -> t ∈ B -> t ∈ B') ->
  (forall tid v, Z.to_nat (tk_index v.2) <> k -> P' !! tid = Some v <-> P !! tid = Some v) ->
  (forall tid v, P' !! tid = Some v -> Z.to_nat (tk_index v.2) = k -> 0 <= tk_index v.2 /\ timer_of i tid v.2) ->
  slot_ok out' B' P' k i -> lanes I' out' B' P' C a.
Proof.
  intros Hn' Hoth Hown HB HP HPk Hok. destruct Hat as [Hik Hij]. destruct Hl as [Hb Hn Ho Hs Ht].
  destruct (Hb _ _ Hk) as [Hkb _]. split; [| done | | |].
  - intros j i' Hj. destruct (decide (j = k)) as [-> | Hne].
    + rewrite Hik in Hj. injection Hj as <-. done.
    + rewrite Hij in Hj by done. by apply Hb.
  - intros x Hx. destruct (decide (of_slot k x)) as [Hof | Hof].
    + destruct (Hown x Hof Hx) as [Hsub ->]. left. exists (slot_token k i), i.
      split_and!; cbn [slot_token tk_index tk_generation]; try done; try lia. by rewrite Nat2Z.id.
    + eapply out_ok_frame; [done .. |]. apply Ho. by apply Hoth.
  - intros j i' Hj. destruct (decide (j = k)) as [-> | Hne].
    + rewrite Hik in Hj. by injection Hj as <-.
    + rewrite Hij in Hj by done. destruct (Hb _ _ Hj) as [Hjb _].
      eapply slot_ok_mono; [| | | by apply Hs].
      * apply Hoth. rewrite of_slot_user; cbn; lia.
      * apply HB; cbn; lia.
      * intros tid d. apply HP. cbn. lia.
  - intros tid v Hv. destruct (decide (Z.to_nat (tk_index v.2) = k)) as [E | Hne].
    + destruct (HPk tid v Hv E) as [Hi Htm]. split; [done |]. exists i. by rewrite E.
    + apply HP in Hv; [| done]. destruct (Ht tid v Hv) as (Hi & i' & HI & Htm). split; [done |]. exists i'. by rewrite Hij.
Qed.

(** No entry, no timer. *)
Lemma no_entry : (~ in_air i0 \/ submission_state (info_platform i0) <> UrKernelSubmitted) ->
  forall x, of_slot k x -> x ∉ out.
Proof.
  intros Hne x Hof Hx. destruct (ln_out _ _ _ _ _ _ Hl _ Hx) as [Hu | [[-> _] | (id & -> & Hid & _)]].
  - destruct (user_out_index _ _ _ _ Hu Hk Hof) as [[Hf Hp] _]. destruct Hne as [Hne | Hne]; apply Hne; [apply Hf | by rewrite Hp].
  - by apply (not_of_slot_waker k).
  - by apply (not_of_slot_cancel k id).
Qed.

Lemma no_timer : (~ in_air i0 \/ submission_state (info_platform i0) <> UrTimer) ->
  forall tid v, P !! tid = Some v -> Z.to_nat (tk_index v.2) <> k.
Proof.
  intros Hne tid v Hv E. destruct (ln_timer _ _ _ _ _ _ Hl _ _ Hv) as (_ & i' & HI & Hf & Hp).
  rewrite E, Hk in HI. injection HI as <-. destruct Hne as [Hne | Hne]; apply Hne; [apply Hf | by rewrite Hp].
Qed.

Lemma quiet_no_entry : quiet i0 -> forall x, of_slot k x -> x ∉ out.
Proof. intros [Hq | [Hq Hq2]]; apply no_entry; auto. Qed.
Lemma quiet_no_timer : quiet i0 -> forall tid v, P !! tid = Some v -> Z.to_nat (tk_index v.2) <> k.
Proof. intros [Hq | [Hq Hq2]]; apply no_timer; auto. Qed.

(** A quiet slot stays quiet. *)
Lemma lanes_calm B' : quiet i0 -> (forall t, 0 <= tk_index t -> Z.to_nat (tk_index t) <> k -> t ∈ B -> t ∈ B') ->
  slot_ok out B' P k i -> lanes I' out B' P C a.
Proof.
  intros Hq HB Hok. apply lanes_change; try done.
  - apply (ln_nodup _ _ _ _ _ _ Hl).
  - intros x Hof Hx. by destruct (quiet_no_entry Hq x Hof).
  - intros tid v Hv E. by destruct (quiet_no_timer Hq tid v Hv).
Qed.

(** It is submitted. *)
Lemma lanes_submit out' : quiet i0 -> submitted (slot_token k i) i -> ops_ok i ->
  out' ≡ₚ token_user (slot_token k i) :: out -> lanes I' out' B P C a.
Proof.
  intros Hq Hsub Hops Ho. destruct (ln_bound _ _ _ _ _ _ Hl _ _ Hk) as [Hkb _].
  assert (Hnin : token_user (slot_token k i) ∉ out) by (apply (quiet_no_entry Hq); by apply of_slot_token).
  eapply lanes_perm; [exact Ho |]. apply lanes_change; try done.
  - apply NoDup_cons. split; [done | apply (ln_nodup _ _ _ _ _ _ Hl)].
  - intros x Hof. rewrite elem_of_cons. split; [intros [-> | Hx]; [by destruct Hof; apply of_slot_token | done] | by right].
  - intros x Hof [-> | Hx]%elem_of_cons; [done |]. by destruct (quiet_no_entry Hq x Hof).
  - intros tid v Hv E. by destruct (quiet_no_timer Hq tid v Hv).
  - apply slot_ok_air; [apply Hsub |]. destruct Hsub as [Hf Hp]. unfold flight_ok. rewrite Hp.
    split; [done |]. split; [done |]. split; [done |]. by left.
Qed.

(** It goes into the wheel. *)
Lemma lanes_timer tid d : quiet i0 -> timer_of i tid (slot_token k i) -> ops_ok i -> P !! tid = None ->
  lanes I' out B (<[tid := (d, slot_token k i)]> P) C a.
Proof.
  intros Hq Htm Hops Hfresh. apply lanes_change; try done.
  - apply (ln_nodup _ _ _ _ _ _ Hl).
  - intros x Hof Hx. by destruct (quiet_no_entry Hq x Hof).
  - intros tid' v Hne. destruct (decide (tid' = tid)) as [-> | Hne'].
    + rewrite lookup_insert_eq, Hfresh. split; [intros [= <-] | done]. cbn in Hne. lia.
    + by rewrite lookup_insert_ne by congruence.
  - intros tid' v Hv E. destruct (decide (tid' = tid)) as [-> | Hne'].
    + rewrite lookup_insert_eq in Hv. injection Hv as <-. cbn. split; [lia | done].
    + rewrite lookup_insert_ne in Hv by congruence. by destruct (quiet_no_timer Hq tid' v Hv).
  - apply slot_ok_air; [apply Htm |]. destruct Htm as [Hf Hp]. unfold flight_ok. rewrite Hp.
    split; [done |]. split; [done |]. exists tid, d. by rewrite lookup_insert_eq.
Qed.

(** The kernel completed it. *)
Lemma lanes_complete out' : submitted (slot_token k i0) i0 -> ~ in_air i -> slot_ok out' B P k i ->
  out ≡ₚ token_user (slot_token k i0) :: out' -> lanes I' out' B P C a.
Proof.
  intros Hsub Hair Hok Ho. pose proof (ln_nodup _ _ _ _ _ _ Hl) as Hn. rewrite Ho in Hn. apply NoDup_cons in Hn as [Hnin Hn].
  destruct (ln_bound _ _ _ _ _ _ Hl _ _ Hk) as [Hkb _].
  apply lanes_change; try done.
  - intros x Hof. rewrite Ho, elem_of_cons. split; [by right | intros [-> | Hx]; [by destruct Hof; apply of_slot_token | done]].
  - intros x Hof Hx. exfalso. assert (Hx' : x ∈ out) by (rewrite Ho; by right).
    destruct (ln_out _ _ _ _ _ _ Hl _ Hx') as [Hu | [[-> _] | (id & -> & Hid & _)]].
    + destruct (user_out_index _ _ _ _ Hu Hk Hof) as [_ ->]. done.
    + by apply (not_of_slot_waker k).
    + by apply (not_of_slot_cancel k id).
  - intros tid v Hv E. exfalso. revert E. eapply no_timer; [| exact Hv]. right. by rewrite (proj2 Hsub).
Qed.

(** Its timer is over. *)
Lemma lanes_timer_over tid : timer_of i0 tid (slot_token k i0) -> ~ in_air i -> slot_ok out B (delete tid P) k i ->
  lanes I' out B (delete tid P) C a.
Proof.
  intros Htm Hair Hok. apply lanes_change; try done.
  - apply (ln_nodup _ _ _ _ _ _ Hl).
  - intros x Hof Hx. exfalso. revert Hx. eapply no_entry; [| done]. right. by rewrite (proj2 Htm).
  - intros tid' v Hne. rewrite lookup_delete_Some. split; [by intros [_ ?] |]. intros Hv. split; [| done].
    intros <-. destruct Htm as [Hf Hp].
    pose proof (proj1 (slot_ok_air _ _ _ _ _ (proj1 (proj2 Hf))) (ln_slot _ _ _ _ _ _ Hl _ _ Hk)) as (_ & _ & Hw).
    rewrite Hp in Hw.
    destruct Hw as (tid' & d & Ht & HPt). injection Ht as <-. rewrite Hv in HPt. injection HPt as ->. cbn in Hne. lia.
  - intros tid' v [Hne Hv]%lookup_delete_Some E. exfalso.
    destruct (ln_timer _ _ _ _ _ _ Hl _ _ Hv) as (_ & i' & HI & _ & Hp). rewrite E, Hk in HI. injection HI as <-.
    destruct Htm as [_ Hp']. rewrite Hp in Hp'. by injection Hp'.
Qed.

(** The same flight: nothing of the operation moved. *)
Lemma lanes_flight : in_air i0 -> in_air i -> si_generation i = si_generation i0 -> si_local i = si_local i0 ->
  lanes I' out B P C a.
Proof.
  intros Ha0 Ha Hg Hloc. pose proof (ln_slot _ _ _ _ _ _ Hl _ _ Hk) as Hok0.
  assert (Htok : slot_token k i = slot_token k i0) by (unfold slot_token; by rewrite Hg).
  assert (Hfly : forall t, flying t i0 -> flying t i).
  { intros t (Hf1 & _ & Hf2). split; [done |]. split; [exact Ha |]. by rewrite Hg, Hloc. }
  apply lanes_change; try done.
  - apply (ln_nodup _ _ _ _ _ _ Hl).
  - intros x Hof Hx. destruct (ln_out _ _ _ _ _ _ Hl _ Hx) as [Hu | [[-> _] | (id & -> & Hid & _)]].
    + destruct (user_out_index _ _ _ _ Hu Hk Hof) as [[Hf Hp] ->]. rewrite Htok. split; [| done].
      split; [by apply Hfly |]. unfold info_platform in *. by rewrite Hloc.
    + by destruct (not_of_slot_waker k).
    + by destruct (not_of_slot_cancel k id).
  - intros tid v Hv E. destruct (ln_timer _ _ _ _ _ _ Hl _ _ Hv) as (Hi & i' & HI & Hf & Hp). rewrite E, Hk in HI.
    injection HI as <-. split; [done |]. split; [by apply Hfly |]. unfold info_platform in *. by rewrite Hloc.
  - apply slot_ok_air; [done |]. apply slot_ok_air in Hok0; [| done]. destruct Hok0 as (Hf & Hr).
    unfold flight_ok, info_platform, ops_ok in *. rewrite Htok, Hloc, Hg. split; [by apply Hfly | exact Hr].
Qed.
End one_slot.

(** The completion of an operation whose generation does not fit the token. *)
Lemma lanes_stale I out out' B P C a t i : lanes I out B P C a -> out ≡ₚ token_user t :: out' ->
  0 <= tk_index t < 2 ^ 48 -> I (Z.to_nat (tk_index t)) = Some i -> submitted t i -> 2 ^ 15 <= si_generation i ->
  lanes I out' B P C a.
Proof.
  intros Hl Hp Hi HI Hs Hg. pose proof Hl as [Hb Hn Ho Hok Ht]. rewrite Hp in Hn. apply NoDup_cons in Hn as [Hnin Hn].
  split; [done | done | | | done].
  - intros x Hx. apply Ho. rewrite Hp. by right.
  - intros k i' Hk. destruct (decide (k = Z.to_nat (tk_index t))) as [-> | Hne].
    + rewrite HI in Hk. injection Hk as <-. specialize (Hok _ _ HI). destruct Hs as [Hf Hpl].
      apply slot_ok_air in Hok; [| apply Hf]. apply slot_ok_air; [apply Hf |]. unfold flight_ok in *. rewrite Hpl in *.
      destruct Hok as (Hk1 & Hk2 & Hk3 & _). split; [done |]. split; [done |]. split; [done | lia].
    + eapply slot_ok_mono; [| done | done | by apply Hok]. rewrite Hp. intros [E | Hx]%elem_of_cons; [| done].
      exfalso. apply Hne. destruct (Hb _ _ Hk) as [Hkb _]. apply token_user_inj in E as [E _]; [| cbn; lia | done]. cbn in E. lia.
Qed.
End lanes.
