(* ===== verification/UringOpSafety.v ===== *)
(** * veloq-driver-uring: what the single operations promise

    For each of the 23 operations of [UringOps]: the payloads that travel with
    it keep their variant, the entry it makes stays inside its buffer and aims
    at the file it was given, and what the kernel returns is not lost. *)

From stdpp Require Import strings.
From S2P Require Import Prelude BitSet Units SlotMap WheelConfig Wheel Timers Chunk Pool Handle SlotPool Token SlotState Anomaly SlotTable Completion Registry Flow RegistryInv CompletionSpec DriverSteps DriverSafety OpLifecycle SlotInfo DriverApi OpFuture OpFutureSpec UringBase FileTable UringOp UringHooks UringDriver UringInv UringNet UringOps.

(** The implementations of [UringOpSpec]. *)
Inductive uring_spec : forall {U K C : Type}, OpSpec U K C -> Prop :=
  | in_read_fixed : uring_spec read_fixed_spec | in_read_raw : uring_spec read_raw_spec
  | in_write_fixed : uring_spec write_fixed_spec | in_write_raw : uring_spec write_raw_spec
  | in_recv : uring_spec recv_spec | in_op_send : uring_spec op_send_spec
  | in_udp_recv : uring_spec udp_recv_spec | in_udp_send : uring_spec udp_send_spec
  | in_connect : uring_spec connect_spec | in_udp_connect : uring_spec udp_connect_spec
  | in_close : uring_spec close_spec
  | in_fsync : uring_spec fsync_spec | in_fsync_raw : uring_spec fsync_raw_spec
  | in_sync_range : uring_spec sync_range_spec | in_sync_range_raw : uring_spec sync_range_raw_spec
  | in_fallocate : uring_spec fallocate_spec | in_fallocate_raw : uring_spec fallocate_raw_spec
  | in_accept : uring_spec accept_spec | in_send_to : uring_spec send_to_spec
  | in_udp_recv_from : uring_spec udp_recv_from_spec | in_open : uring_spec open_spec
  | in_wakeup : uring_spec wakeup_spec | in_timeout : uring_spec timeout_spec.

(** ** What an entry lets the kernel do *)

Inductive Direction : Type := IntoMemory | FromMemory.
Definition bound (d : Direction) (b : FixedBuf) : Z := match d with IntoMemory => fb_cap b | FromMemory => fb_len b end.

(** The buffer of an operation that transfers data, and the offset in it. *)
Definition transfer_of (u : UserOpPayload) : option (Direction * FixedBuf * Z) :=
  match u with
  | UserReadFixed p => Some (IntoMemory, fi_buf p, fi_buf_offset p)
  | UserReadRaw p => Some (IntoMemory, fi_buf p, fi_buf_offset p)
  | UserWriteFixed p => Some (FromMemory, fi_buf p, fi_buf_offset p)
  | UserWriteRaw p => Some (FromMemory, fi_buf p, fi_buf_offset p)
  | UserRecv p | UserUdpRecv p => Some (IntoMemory, si_buf p, si_buf_offset p)
  | UserOpSend p | UserUdpSend p => Some (FromMemory, si_buf p, si_buf_offset p)
  | UserSendTo p => Some (FromMemory, st_buf p, st_buf_offset p)
  | UserUdpRecvFrom p => Some (IntoMemory, rf_buf p, rf_buf_offset p)
  | _ => None
  end.

(** The one element of a message's vector. *)
Definition message (d : Direction) (h : Msghdr) (v : Iovec) : option (Direction * OpPtr * Z) :=
  match msg_iov h with
  | KernelIovecPtr => if msg_iovlen h =? 1 then Some (d, iov_base v, iov_len v) else None
  | _ => None
  end.

(** What the kernel transfers for an entry: which way, where and how many bytes. *)
Definition transfers (k : KernelOpPayload) (e : Opcode) : option (Direction * OpPtr * Z) :=
  match e, k with
  | OcRead _ p n _, _ | OcReadFixed _ p n _ _, _ | OcRecv _ p n, _ => Some (IntoMemory, p, n)
  | OcWrite _ p n _, _ | OcWriteFixed _ p n _ _, _ | OcSend _ p n, _ => Some (FromMemory, p, n)
  | OcSendMsg _ KernelMsghdrPtr, KernelSendTo s => message FromMemory (sp_msghdr s) (sp_iovec s)
  | OcRecvMsg _ KernelMsghdrPtr, KernelUdpRecvFrom s => message IntoMemory (rp_msghdr s) (rp_iovec s)
  | _, _ => None
  end.

(** The data goes to or comes from the buffer, all of it from the offset to the
    capacity or the length; a wake-up reads its eight bytes. *)
Definition within (u : UserOpPayload) (t : option (Direction * OpPtr * Z)) : Prop :=
  match transfer_of u with
  | Some (d, b, off) => t = Some (d, BufPtr (fb_ptr b + off), bound d b - off) /\ 0 <= off <= bound d b /\ bound d b <= fb_cap b
  | None => t = match u with UserWakeup _ => Some (IntoMemory, KernelBufPtr, 8) | _ => None end
  end.

(** The descriptor of an operation, and the kind of file it must be. *)
Definition registered_fd (u : UserOpPayload) : option (IoFd * option RawHandleKind) :=
  match u with
  | UserReadFixed p => Some (fi_fd p, Some KindFile) | UserWriteFixed p => Some (fi_fd p, Some KindFile)
  | UserRecv p | UserOpSend p | UserUdpRecv p | UserUdpSend p => Some (si_fd p, Some KindSocket)
  | UserConnect p | UserUdpConnect p => Some (cn_fd p, Some KindSocket)
  | UserClose p => Some (cl_fd p, None)
  | UserFsync p => Some (fs_fd p, Some KindFile)
  | UserSyncFileRange p => Some (sr_fd p, Some KindFile)
  | UserFallocate p => Some (fa_fd p, Some KindFile)
  | UserAccept p => Some (ac_fd p, Some KindSocket)
  | UserSendTo p => Some (st_fd p, Some KindSocket)
  | UserUdpRecvFrom p => Some (rf_fd p, Some KindSocket)
  | UserWakeup p => Some (wu_fd p, Some KindFile)
  | _ => None
  end.
Definition raw_handle (u : UserOpPayload) : option UringRawHandle :=
  match u with
  | UserReadRaw p => Some (fi_fd p) | UserWriteRaw p => Some (fi_fd p) | UserFsyncRaw p => Some (fs_fd p)
  | UserSyncFileRangeRaw p => Some (sr_fd p) | UserFallocateRaw p => Some (fa_fd p)
  | _ => None
  end.

Definition target_of (e : Opcode) : option Target :=
  match e with
  | OcRead t _ _ _ | OcReadFixed t _ _ _ _ | OcWrite t _ _ _ | OcWriteFixed t _ _ _ _ | OcRecv t _ _ | OcSend t _ _
  | OcConnect t _ _ | OcAccept t _ _ | OcSendMsg t _ | OcRecvMsg t _ | OcClose t | OcFsync t _
  | OcSyncFileRange t _ _ _ | OcFallocate t _ _ _ => Some t
  | OcOpenAt _ _ _ _ | OcTimeout _ => None
  end.

(** A live place of the table, of the descriptor's generation and of this kind. *)
Definition live_file (slots : list FileSlot) (fd : IoFd) (kind : option RawHandleKind) (entry : RegisteredFileEntry) : Prop :=
  slots !! Z.to_nat (fd_index fd) = Some (mkFileSlot (Some entry) (fd_generation fd)) /\
  match kind with Some k => entry_kind entry = k | None => True end.

Definition aimed (slots : list FileSlot) (u : UserOpPayload) (e : Opcode) : Prop :=
  match registered_fd u, raw_handle u with
  | Some (fd, kind), _ => target_of e = Some (Fixed (fd_index fd)) /\
      exists entry, live_file slots fd kind entry /\
        match u with UserClose _ => exists h, entry = OwnedHandle h | _ => True end
  | None, Some h => target_of e = Some (RawFd (as_fd h))
  | None, None => target_of e = None
  end.

(** A registered buffer is named only for a buffer of a registered chunk. *)
Definition fixed_buffer (e : Opcode) : option Z :=
  match e with OcReadFixed _ _ _ i _ | OcWriteFixed _ _ _ i _ => Some i | _ => None end.
Definition right_chunk (chunks : BitSet) (u : UserOpPayload) (e : Opcode) : Prop :=
  forall i, fixed_buffer e = Some i -> exists d b off, transfer_of u = Some (d, b, off) /\
    buf_pool_kind b = SlotBased /\ i = slot_chunk_id (context_raw b) /\ bitset_get chunks i = Ret (Ok true).

Definition user_wf (u : UserOpPayload) : Prop :=
  match transfer_of u with Some (_, b, off) => buf_ok b /\ 0 <= off | None => True end.

(** The payloads of an operation of the specification [S]. *)
Definition paired {U K C} (S : OpSpec U K C) (k : KernelOpPayload) (u : UserOpPayload) : Prop :=
  is_Some (os_kernel_ref S k) /\ is_Some (os_user_ref S u).

Definition creates_descriptor (kind : OpKind) : bool :=
  match kind with KindAccept | KindOpen => true | _ => false end.

(** ** The steps of an entry *)

Lemma buf_range_ok b off kind p n : buf_ok b -> 0 <= off -> buf_range b off kind = Ok (p, n) ->
  p = fb_ptr b + off /\ n = (match kind with Capacity => fb_cap b | Length => fb_len b end) - off /\
  0 <= off <= match kind with Capacity => fb_cap b | Length => fb_len b end /\
  match kind with Capacity => fb_cap b | Length => fb_len b end <= fb_cap b.
Proof.
  intros [Hl Hc] Ho. unfold buf_range, buf_capacity, buf_length, checked. destruct (_ <? off) eqn:E; [done |]. apply Z.ltb_ge in E.
  destruct (_ && _); [| done]. intros [= <- <-]. destruct kind; lia.
Qed.

(** [checked_range] of the buffer is this, with the report of the driver. *)
Lemma checked_range_pure b off kind : buf_ok b -> 0 <= off ->
  match checked_range b off kind with
  | Ret (Ok r) => buf_range b off kind = Ok r
  | Ret (Err _) => buf_range b off kind = Err (report InvalidInput)
  | Fault _ => False
  end.
Proof.
  intros [Hl Hc] Ho. unfold checked_range, checked_buf_io_len, buf_range, buf_capacity, buf_length.
  set (n := match kind with Capacity => fb_cap b | Length => fb_len b end).
  assert (Hn : 0 <= n <= fb_cap b) by (destruct kind; lia). unfold U32_MAX in Hc.
  destruct (Z.ltb_spec n off); [done |]. rewrite arith_ok by (unfold USIZE_BITS; lia). rewrite bind_ret.
  by destruct (checked U32 (n - off)).
Qed.

(** What the pool says of a buffer is in the buffer. *)
Lemma region_of_pool s b i : resolve_region_info s b = Ret i ->
  ri_pool_kind i = region_kind b /\ (region_kind b = SlotBased -> ri_id i = region_chunk b).
Proof.
  unfold resolve_region_info, region_kind, slot_based_resolve_region_info. destruct (buf_pool_kind b) eqn:E; [| by intros [= <-]].
  destruct (chunk_info _ _ _) as [o | f]; [| done]. rewrite bind_ret. destruct o as [c |]; [| done]. cbn. by intros [= <-].
Qed.

Lemma resolve_live slots fd kind i : resolve_registered_fixed_fd slots fd kind = Ok i ->
  i = fd_index fd /\ exists entry, live_file slots fd kind entry.
Proof.
  unfold resolve_registered_fixed_fd, live_file. destruct (slots !! _) as [[e g] |] eqn:Hs; [| done]. cbn [fl_generation fl_entry].
  destruct (Z.eqb_spec g (fd_generation fd)) as [-> |]; [| done]. cbn [negb]. destruct e as [entry |]; [| done].
  destruct kind as [k |]; [destruct (bool_decide _) eqn:Hk; [| done]; apply bool_decide_eq_true in Hk |];
    intros [= <-]; (split; [done |]); by exists entry.
Qed.

Ltac resolved f := unfold f; destruct (resolve_registered_fixed_fd _ _ _) as [i |] eqn:Hr; [| done]; intros [= <-];
  apply resolve_live in Hr as [-> Hr]; done.
Lemma file_live slots fd t : resolve_file_fd slots fd = Ok t ->
  t = Fixed (fd_index fd) /\ exists entry, live_file slots fd (Some KindFile) entry.
Proof. resolved resolve_file_fd. Qed.
Lemma socket_live slots fd t : resolve_socket_fd slots fd = Ok t ->
  t = Fixed (fd_index fd) /\ exists entry, live_file slots fd (Some KindSocket) entry.
Proof. resolved resolve_socket_fd. Qed.
Lemma any_live slots fd t : resolve_any_fd slots fd = Ok t ->
  t = Fixed (fd_index fd) /\ exists entry, live_file slots fd None entry.
Proof. resolved resolve_any_fd. Qed.

Lemma on_ok_inv {X} (r : result X Report) f e : on_ok r f = Ok e -> exists x, r = Ok x /\ f x = Ok e.
Proof. destruct r as [x |]; [| done]. by exists x. Qed.

Lemma registered_chunk chunks b : is_registered chunks b = true ->
  buf_pool_kind b = SlotBased /\ bitset_get chunks (slot_chunk_id (context_raw b)) = Ret (Ok true).
Proof.
  unfold is_registered, region_kind, chunk_registered, region_chunk. destruct (buf_pool_kind b); [| done].
  by destruct (bitset_get _ _) as [[[] |] |].
Qed.

(** A descriptor of a close is of the driver's own file. *)
Lemma close_owned slots op e : make_sqe_close slots op = Ok e ->
  e = OcClose (Fixed (fd_index (cl_fd op))) /\ exists entry, live_file slots (cl_fd op) None entry /\ exists h, entry = OwnedHandle h.
Proof.
  unfold make_sqe_close. intros Hm. assert (Hany : on_ok (resolve_any_fd slots (cl_fd op)) (fun t => Ok (OcClose t)) = Ok e /\
    match slots !! Z.to_nat (fd_index (cl_fd op)) with Some (mkFileSlot (Some (BorrowedFd _ _)) _) => False | _ => True end).
  { by destruct (slots !! _) as [[[[] |] g] |]. }
  destruct Hany as [(t & (-> & entry & Hl & Hk)%any_live & [= <-])%on_ok_inv Hb]. split; [done |]. exists entry.
  split; [done |]. rewrite Hl in Hb. destruct entry as [fd k | h]; [done |]. by exists h.
Qed.

(** ** The entries *)

Definition entry_fits (slots : list FileSlot) (chunks : BitSet) (k : KernelOpPayload) (u : UserOpPayload) (e : Opcode) : Prop :=
  within u (transfers k e) /\ aimed slots u e /\ right_chunk chunks u e.

(** A read and a write of a file, registered chunk or not. *)
Lemma read_fits slots chunks k u t b off ptr len file_offset : transfer_of u = Some (IntoMemory, b, off) ->
  within u (Some (IntoMemory, BufPtr ptr, len)) -> aimed slots u (OcRead t (BufPtr ptr) len file_offset) ->
  entry_fits slots chunks k u (read_entry t b chunks ptr len file_offset).
Proof.
  intros Ht Hw Ha. unfold read_entry. destruct (is_registered chunks b) eqn:Hr; (split; [exact Hw | split; [exact Ha |]]); intros i [= <-].
  apply registered_chunk in Hr as [Hk Hr]. by exists IntoMemory, b, off.
Qed.
Lemma write_fits slots chunks k u t b off ptr len file_offset : transfer_of u = Some (FromMemory, b, off) ->
  within u (Some (FromMemory, BufPtr ptr, len)) -> aimed slots u (OcWrite t (BufPtr ptr) len file_offset) ->
  entry_fits slots chunks k u (write_entry t b chunks ptr len file_offset).
Proof.
  intros Ht Hw Ha. unfold write_entry. destruct (is_registered chunks b) eqn:Hr; (split; [exact Hw | split; [exact Ha |]]); intros i [= <-].
  apply registered_chunk in Hr as [Hk Hr]. by exists FromMemory, b, off.
Qed.

(** What the successful steps of [H] say. *)
Ltac steps H :=
  repeat match goal with
  | X : on_ok _ _ = Ok _ |- _ => apply on_ok_inv in X as (? & ? & X)
  | x : (Z * Z)%type |- _ => destruct x
  | Hb : buf_ok _ /\ _, X : buf_range _ _ _ = Ok (_, _) |- _ => apply (buf_range_ok _ _ _ _ _ (proj1 Hb) (proj2 Hb)) in X as (-> & -> & ? & ?)
  | X : resolve_file_fd _ _ = Ok _ |- _ => apply file_live in X as (-> & ? & ?)
  | X : resolve_socket_fd _ _ = Ok _ |- _ => apply socket_live in X as (-> & ? & ?)
  | X : make_sqe_close _ _ = Ok _ |- _ => apply close_owned in X as (-> & ? & ? & ? & ->)
  end; try first [injection H as <- | destruct H].
Ltac inside := first [reflexivity | split; [reflexivity | split; assumption]].
Ltac aims := first [reflexivity | split; [reflexivity | eexists; split; [eassumption | first [exact I | by eexists]]]].
Ltac file_entry := first [eapply read_fits | eapply write_fits]; [reflexivity | inside | aims].
Ltac other_entry := split; [inside | split; [aims | by intros ? ?]].

Create HintDb uring_entry.
#[local] Hint Unfold make_sqe_read_fixed make_sqe_read_raw make_sqe_write_fixed make_sqe_write_raw make_sqe_udp_recv make_sqe_udp_send
  make_sqe_recv make_sqe_send make_sqe_udp_connect make_sqe_connect make_sqe_fsync make_sqe_fsync_raw make_sqe_sync_range
  make_sqe_sync_range_raw make_sqe_fallocate make_sqe_fallocate_raw make_sqe_accept make_sqe_open make_sqe_wakeup : uring_entry.

Lemma spec_entry {U K C} (S : OpSpec U K C) (HS : uring_spec S) slots chunks k x k' x' e : user_wf (os_erase_user S x) ->
  os_make_sqe S slots chunks k x = (k', x', Ok e) ->
  x' = x /\ entry_fits slots chunks (os_erase_kernel S k') (os_erase_user S x) e.
Proof.
  intros Hwf. destruct HS; cbn; unfold user_wf in Hwf; cbn in Hwf;
    try (intros [= <- <- Hm]; autounfold with uring_entry in Hm; steps Hm; split; [done |]; first [file_entry | other_entry]).
  - unfold make_sqe_send_to. destruct (buf_range _ _ _) as [[ptr len] |] eqn:Hb; [| done].
    destruct (socket_addr_to_storage (st_addr x)) as [name namelen]. intros [= <- <- Hm]. steps Hm. split; [done |]. other_entry.
  - unfold make_sqe_udp_recv_from. destruct (buf_range _ _ _) as [[ptr len] |] eqn:Hb; [| done].
    intros [= <- <- Hm]. steps Hm. split; [done |]. other_entry.
Qed.

(** ** Refusals *)

(** The offset is past the bound, the descriptor is not of a live file of the
    right kind, the file to close is borrowed, or the range is too long. *)
Definition refused (slots : list FileSlot) (u : UserOpPayload) : Prop :=
  match transfer_of u with Some (d, b, off) => bound d b < off | None => False end \/
  match registered_fd u with Some (fd, kind) => ~ exists entry, live_file slots fd kind entry | None => False end \/
  match u with
  | UserClose c => exists fd kind g, slots !! Z.to_nat (fd_index (cl_fd c)) = Some (mkFileSlot (Some (BorrowedFd fd kind)) g)
  | UserSyncFileRange p => U32_MAX < sr_nbytes p /\ sr_nbytes p <> U64_MAX
  | UserSyncFileRangeRaw p => U32_MAX < sr_nbytes p /\ sr_nbytes p <> U64_MAX
  | _ => False
  end.

Lemma buf_range_err b off kind e : buf_ok b -> 0 <= off -> buf_range b off kind = Err e ->
  match kind with Capacity => fb_cap b | Length => fb_len b end < off.
Proof.
  intros [Hl Hc] Ho. unfold buf_range, buf_capacity, buf_length, checked, U32_MAX, U32 in *. destruct (_ <? off) eqn:E; [by apply Z.ltb_lt in E |].
  apply Z.ltb_ge in E. destruct (Z.leb_spec 0 ((match kind with Capacity => fb_cap b | Length => fb_len b end) - off)); [| lia].
  destruct (Z.ltb_spec ((match kind with Capacity => fb_cap b | Length => fb_len b end) - off) (2 ^ 32)); [done | destruct kind; lia].
Qed.

Lemma resolve_err slots fd kind e : resolve_registered_fixed_fd slots fd kind = Err e -> ~ exists entry, live_file slots fd kind entry.
Proof.
  unfold resolve_registered_fixed_fd, live_file. intros Hr (entry & Hs & Hk). rewrite Hs in Hr. cbn in Hr. rewrite Z.eqb_refl in Hr.
  cbn in Hr. destruct kind as [k |]; [| done]. by rewrite bool_decide_eq_true_2 in Hr.
Qed.
Ltac unresolved f := unfold f; destruct (resolve_registered_fixed_fd _ _ _) as [i | e'] eqn:Hr; [done | intros _]; by eapply resolve_err.
Lemma file_err slots fd e : resolve_file_fd slots fd = Err e -> ~ exists entry, live_file slots fd (Some KindFile) entry.
Proof. unresolved resolve_file_fd. Qed.
Lemma socket_err slots fd e : resolve_socket_fd slots fd = Err e -> ~ exists entry, live_file slots fd (Some KindSocket) entry.
Proof. unresolved resolve_socket_fd. Qed.
Lemma any_err slots fd e : resolve_any_fd slots fd = Err e -> ~ exists entry, live_file slots fd None entry.
Proof. unresolved resolve_any_fd. Qed.

Lemma nbytes_err n e : sync_nbytes n = Err e -> U32_MAX < n /\ n <> U64_MAX.
Proof. unfold sync_nbytes. destruct (Z.ltb_spec U32_MAX n); [| done]. by destruct (Z.eqb_spec n U64_MAX); intros. Qed.
Lemma nbytes_ok n m : sync_nbytes n = Ok m -> ~ (U32_MAX < n /\ n <> U64_MAX).
Proof. unfold sync_nbytes. destruct (Z.ltb_spec U32_MAX n); [| lia]. destruct (Z.eqb_spec n U64_MAX); [by intros _ [] | done]. Qed.

Lemma close_err slots op e : make_sqe_close slots op = Err e -> refused slots (UserClose op).
Proof.
  unfold make_sqe_close, refused. cbn.
  destruct (slots !! _) as [[[[fd kind |] |] g] |] eqn:Hs; [intros _; right; right; by exists fd, kind, g | | |];
    (destruct (resolve_any_fd slots (cl_fd op)) eqn:Hr; [done |]; intros _; right; left; by eapply any_err).
Qed.

Lemma on_ok_err {X} (r : result X Report) f e : on_ok r f = Err e -> r = Err e \/ exists x, r = Ok x /\ f x = Err e.
Proof. destruct r as [x |]; intros Hf; [right; by exists x | injection Hf as ->; by left]. Qed.

Ltac unmade :=
  repeat match goal with
  | X : on_ok _ _ = Err _ |- _ => apply on_ok_err in X as [X | (? & ? & X)]
  | x : (Z * Z)%type |- _ => destruct x
  | Hb : buf_ok _ /\ _, X : buf_range _ _ _ = Err _ |- _ => apply (buf_range_err _ _ _ _ (proj1 Hb) (proj2 Hb)) in X
  | X : resolve_file_fd _ _ = Err _ |- _ => apply file_err in X
  | X : resolve_socket_fd _ _ = Err _ |- _ => apply socket_err in X
  | X : sync_nbytes _ = Err _ |- _ => apply nbytes_err in X
  end; try done; unfold refused; cbn; auto.

Lemma spec_refuses {U K C} (S : OpSpec U K C) (HS : uring_spec S) slots chunks k x k' x' e : user_wf (os_erase_user S x) ->
  os_make_sqe S slots chunks k x = (k', x', Err e) -> x' = x /\ refused slots (os_erase_user S x).
Proof.
  intros Hwf. destruct HS; cbn; unfold user_wf in Hwf; cbn in Hwf;
    try (intros [= <- <- Hm]; autounfold with uring_entry in Hm; split; [done |]; unmade; fail).
  - intros [= <- <- Hm]. split; [done |]. by eapply close_err.
  - by intros [=].
  - by intros [=].
  - unfold make_sqe_send_to. destruct (buf_range _ _ _) as [[ptr len] | e'] eqn:Hb.
    + destruct (socket_addr_to_storage (st_addr x)) as [name namelen]. intros [= <- <- Hm]. split; [done |]. unmade.
    + intros [= <- <- <-]. split; [done |]. unmade.
  - unfold make_sqe_udp_recv_from. destruct (buf_range _ _ _) as [[ptr len] | e'] eqn:Hb; (intros [= <- <- Hm]; split; [done |]; unmade).
  - by intros [=].
  - by intros [=].
Qed.

(** Nothing else is refused. *)
Lemma spec_made {U K C} (S : OpSpec U K C) (HS : uring_spec S) slots chunks k x k' x' e : user_wf (os_erase_user S x) ->
  os_make_sqe S slots chunks k x = (k', x', Ok e) -> ~ refused slots (os_erase_user S x).
Proof.
  intros Hwf He. destruct (spec_entry S HS _ _ _ _ _ _ _ Hwf He) as (_ & Hw & Ha & _). intros [Hr | [Hr | Hr]].
  - unfold within in Hw. destruct (transfer_of _) as [[[d b] off] |]; [| done]. destruct Hw as (_ & Hw & _). lia.
  - unfold aimed in Ha. destruct (registered_fd _) as [[fd kind] |]; [| done]. destruct Ha as (_ & entry & Hl & _). apply Hr. by exists entry.
  - revert He Ha Hr. clear Hwf Hw. destruct HS; cbn; try done.
    + intros _ (_ & entry & [Hl _] & h & ->) (fd & kd & g & Hr). by rewrite Hl in Hr.
    + intros [= _ _ Hm]. unfold make_sqe_sync_range in Hm. apply on_ok_inv in Hm as (n & Hn & _). intros _. by apply nbytes_ok in Hn.
    + intros [= _ _ Hm]. unfold make_sqe_sync_range_raw in Hm. apply on_ok_inv in Hm as (n & Hn & _). intros _. by apply nbytes_ok in Hn.
Qed.

(** ** The payloads *)

Section vtable.
Context `{IoUring} `{!UringLibc} `{UringTimers}.

Lemma user_ref_erase {U K C} (S : OpSpec U K C) (HS : uring_spec S) u x : os_user_ref S u = Some x -> u = os_erase_user S x.
Proof. destruct HS; destruct u; cbn; by intros [= ->]. Qed.
Lemma kernel_ref_erase {U K C} (S : OpSpec U K C) (HS : uring_spec S) k x : os_kernel_ref S k = Some x -> k = os_erase_kernel S x.
Proof. destruct HS; destruct k; cbn; by intros [= ->]. Qed.
Lemma refs_erased {U K C} (S : OpSpec U K C) (HS : uring_spec S) k x : 
  os_kernel_ref S (os_erase_kernel S k) = Some k /\ os_user_ref S (os_erase_user S x) = Some x.
Proof. by destruct HS. Qed.


(** The shim hands the operation its own payloads. *)
Lemma shim_make {U K C} (S : OpSpec U K C) (HS : uring_spec S) slots chunks k u token : paired S k u ->
  exists kp x, k = os_erase_kernel S kp /\ u = os_erase_user S x /\ forall kp' x' r, os_make_sqe S slots chunks kp x = (kp', x', r) ->
    make_sqe_shim S k u slots chunks token =
      (os_erase_kernel S kp', os_erase_user S x', match r with Ok e => Ok (opcode_build e) | Err e => Err e end).
Proof.
  intros [[kp Hk] [x Hx]]. exists kp, x. split; [by apply kernel_ref_erase |]. split; [by apply user_ref_erase |].
  intros kp' x' r He. unfold make_sqe_shim. by rewrite Hk, Hx, He.
Qed.

(** C19 Whichever operation a slot holds, if its payloads are of the operation
    then making its entry leaves the user's payload as it is, and one of two
    things happens.  Either the entry is made: the kernel transfers data only
    between the operation's buffer and the file, from the given offset to the
    capacity (reads) or the length (writes) and never past the buffer; the file
    is the live registered file of the descriptor's generation and of the right
    kind, or the raw handle given; a registered buffer is named only if the
    buffer's chunk is registered.  Or it is refused, which happens exactly for an
    offset past the bound, a descriptor that is stale or of the wrong kind, the
    close of a borrowed file, and a range longer than the kernel can take. *)
Theorem op_entry_within_buffer {U K C : Type} (S : OpSpec U K C) (HS : uring_spec S) slots chunks k u token
  (Hp : paired S k u) (Hu : user_wf u) :
  exists k' r, vt_make_sqe (spec_vtable S) k u slots chunks token = (k', u, r) /\
    match r with
    | Ok sqe => ~ refused slots u /\ exists e, sqe = opcode_build e /\
        within u (transfers k' e) /\ aimed slots u e /\ right_chunk chunks u e
    | Err _ => refused slots u
    end.
Proof.
  destruct (shim_make S HS slots chunks k u token Hp) as (kp & x & -> & -> & Hs). cbn [vt_make_sqe spec_vtable].
  destruct (os_make_sqe S slots chunks kp x) as [[kp' x'] r] eqn:He. rewrite (Hs _ _ _ eq_refl). destruct r as [e | e].
  - destruct (spec_entry S HS slots chunks kp x kp' x' e Hu He) as [-> Hf]. eexists _, _. split; [done |].
    split; [by eapply spec_made | by exists e].
  - destruct (spec_refuses S HS slots chunks kp x kp' x' e Hu He) as [-> Hf]. by eexists _, _.
Qed.

Lemma erased_paired {U K C} (S : OpSpec U K C) (HS : uring_spec S) k x : paired S (os_erase_kernel S k) (os_erase_user S x).
Proof. destruct (refs_erased S HS k x). split; by eexists. Qed.

Lemma spec_completes {U K C} (S : OpSpec U K C) (HS : uring_spec S) k x res : exists k' x',
  os_on_complete S k x res = (k', x', if 0 <=? res then Ok res else Err (set_error_code (report CompletionWait) (- res))).
Proof.
  destruct HS; cbn; try by eexists _, _.
  - unfold on_complete_accept. rewrite Z.leb_antisym. destruct (res <? 0); [by eexists _, _ |]. by destruct (to_socket_addr _); eexists _, _.
  - unfold on_complete_udp_recv_from. rewrite Z.leb_antisym. destruct (res <? 0); [by eexists _, _ |].
    by destruct (to_socket_addr _); eexists _, _.
Qed.

(** The chunk of a buffer is the low bits of a word. *)
Lemma spec_vtable_ok {U K C} (S : OpSpec U K C) (HS : uring_spec S) : vtable_ok (spec_vtable S).
Proof.
  assert (Hr : forall b, Forall (fun c => 0 <= c) (resolve_chunks_of b)).
  { intros b. unfold resolve_chunks_of, region_chunk, slot_chunk_id, ctx_chunk_id, bits_get.
    destruct (region_kind b); repeat constructor. apply Z.land_nonneg. by right. }
  intros k u. cbn. unfold resolve_chunks_shim. destruct (os_kernel_ref S k) as [kp |]; [| constructor].
  destruct (os_user_ref S u) as [x |]; [| constructor]. destruct HS; cbn; first [apply Hr | constructor].
Qed.

(** Making an entry only reads the user's payload. *)
Lemma spec_leaves {U K C} (S : OpSpec U K C) (HS : uring_spec S) slots chunks k x k' x' r :
  os_make_sqe S slots chunks k x = (k', x', r) -> x' = x.
Proof.
  destruct HS; cbn; try (by intros [=]).
  - unfold make_sqe_send_to. destruct (buf_range _ _ _) as [[ptr len] |]; [| by intros [=]].
    destruct (socket_addr_to_storage _). by intros [=].
  - unfold make_sqe_udp_recv_from. destruct (buf_range _ _ _) as [[ptr len] |]; by intros [=].
Qed.

(** What futures ask of their operations: the driver leaves the payload alone, and
    it survives being stored. *)
Lemma spec_fits_futures {U K C} (S : OpSpec U K C) (HS : uring_spec S) (x : U) :
  leaves_payload (into_kernel_and_payload (IntoPlatformOp := spec_into_platform S) x).1 /\
  payload_kept (IntoPlatformOp0 := spec_into_platform S) x.
Proof.
  split; [| unfold payload_kept; cbn; by rewrite (proj2 (refs_erased S HS (os_new_kernel_payload S x) x))].
  intros ko up slots chunks ctx. cbn. unfold make_sqe_shim. destruct (os_kernel_ref S ko) as [k |]; [| done].
  destruct (os_user_ref S up) as [y |] eqn:Hy; [| done]. destruct (os_make_sqe S slots chunks k y) as [[k' y'] r] eqn:E.
  apply (spec_leaves S HS) in E as ->. cbn. symmetry. by apply user_ref_erase.
Qed.

(** C20 The payloads of an operation never get mixed up: what an operation
    is submitted with is of its specification, and acceptable to the driver;
    making the entry, the completion and the clean-ups keep both payloads of
    their variant; so the future always finds the payload it can give back.  A
    payload of another operation is refused and left alone. *)
Theorem op_payloads_stay_paired {U K C : Type} (S : OpSpec U K C) (HS : uring_spec S) :
  (forall x : U, let op := (into_kernel_and_payload (IntoPlatformOp := spec_into_platform S) x).1 in
     ko_vtable op = spec_vtable S /\ kernel_op_ok op /\
     paired S (ko_payload op) (payload_into_erased (IntoPlatformOp := spec_into_platform S) x)) /\
  (forall k u, paired S k u ->
     (forall slots chunks token, let '(k', u', _) := vt_make_sqe (spec_vtable S) k u slots chunks token in paired S k' u') /\
     (forall res, let '(k', u', r) := vt_on_complete (spec_vtable S) k u res in paired S k' u' /\
        r = if 0 <=? res then Ok res else Err (set_error_code (report CompletionWait) (- res))) /\
     (forall res, (vt_completion_cleanup (spec_vtable S) k res).1 = k /\ (vt_orphan_cleanup (spec_vtable S) k res).1 = k) /\
     exists x, try_payload_from_erased (IntoPlatformOp := spec_into_platform S) u = Ok x /\ u = os_erase_user S x) /\
  (forall k u slots chunks token, os_user_ref S u = None ->
     vt_make_sqe (spec_vtable S) k u slots chunks token = (k, u, Err (report InvalidState)) /\
     try_payload_from_erased (IntoPlatformOp := spec_into_platform S) u = Err payload_projection_mismatch).
Proof.
  split_and!.
  - intros x. cbn. split; [done |]. split; [apply spec_vtable_ok; done |]. by apply erased_paired.
  - intros k u Hp. split_and!.
    + intros slots chunks token. destruct (shim_make S HS slots chunks k u token Hp) as (kp & x & -> & -> & Hs). cbn [vt_make_sqe spec_vtable].
      destruct (os_make_sqe S slots chunks kp x) as [[kp' x'] r] eqn:He. rewrite (Hs _ _ _ eq_refl). by apply erased_paired.
    + intros res. destruct Hp as [[kp Hk] [x Hx]]. cbn. unfold on_complete_shim. rewrite Hk, Hx.
      destruct (spec_completes S HS kp x res) as (kp' & x' & ->). split; [by apply erased_paired | done].
    + intros res. unfold paired in Hp. cbn. unfold completion_cleanup_shim, orphan_cleanup_shim. by destruct (os_kernel_ref S k).
    + destruct Hp as [_ [x Hx]]. exists x. cbn. rewrite Hx. split; [done |]. by apply user_ref_erase.
  - intros k u slots chunks token Hx. cbn. unfold make_sqe_shim. rewrite Hx. by destruct (os_kernel_ref S k).
Qed.

(** C21 A descriptor that the kernel opened is never lost: the completion and
    the orphan of an operation have a clean-up exactly if the operation opens
    files or accepts connections and succeeded, and it closes the descriptor
    that the kernel returned; and the completion of these operations gives the
    user that same descriptor as a file or a socket. *)
Theorem new_descriptor_owned {U K C : Type} (S : OpSpec U K C) (HS : uring_spec S) k u (Hp : paired S k u) (res : Z) :
  let cleanup := if creates_descriptor (os_payload_kind S) && (0 <=? res) then Some (CloseRawFd res) else None in
  (vt_completion_cleanup (spec_vtable S) k res).2 = cleanup /\ (vt_orphan_cleanup (spec_vtable S) k res).2 = cleanup /\
  (0 <= res < 2 ^ 31 ->
     (forall x, ocp_result (op_complete (IntoPlatformOp := spec_into_platform accept_spec) x (Ok res)) = Ok (RawSocket res)) /\
     (forall x, ocp_result (op_complete (IntoPlatformOp := spec_into_platform open_spec) x (Ok res)) = Ok (RawFile res))).
Proof.
  cbn zeta. apply and_assoc. split; [| intros Hr; assert (E : c_int res = res) by (unfold c_int; rewrite wrap_small by lia; destruct (Z.ltb_spec res (2 ^ 31)); lia);
    split; intros x; cbn; by rewrite E].
  destruct Hp as [[kp Hk] _]. cbn. unfold completion_cleanup_shim, orphan_cleanup_shim. rewrite Hk. cbn.
  destruct HS; cbn; try done; unfold close_cleanup, completion_cleanup_close_raw_fd; rewrite Z.leb_antisym; by destruct (res <? 0).
Qed.
End vtable.

(** ** Addresses of peers *)

(** The kernel wrote the peer's address. *)
Lemma accept_reports (op : Accept) (peer : SocketAddr) res : addr_wf peer -> 0 <= res ->
  ac_addr op = (socket_addr_to_storage peer).1 -> (socket_addr_to_storage peer).2 <= ac_addr_len op ->
  on_complete_accept op res = (mkAccept (ac_fd op) (ac_addr op) (ac_addr_len op) (Some peer), Ok res).
Proof.
  intros Hw Hr Ha Hl. pose proof (storage_decodes peer Hw) as Hd. destruct (socket_addr_to_storage peer) as [st len]. cbn in Ha, Hl.
  unfold on_complete_accept. destruct (Z.ltb_spec res 0); [lia |]. rewrite Ha. destruct Hd as (_ & _ & Hd). by rewrite Hd.
Qed.
Lemma recv_from_reports k (op : UdpRecvFrom) (peer : SocketAddr) res : addr_wf peer -> 0 <= res ->
  rp_name k = (socket_addr_to_storage peer).1 -> (socket_addr_to_storage peer).2 <= msg_namelen (rp_msghdr k) ->
  on_complete_udp_recv_from k op res = (mkRecvFrom (rf_fd op) (rf_buf op) (rf_buf_offset op) (Some peer), Ok res).
Proof.
  intros Hw Hr Ha Hl. pose proof (storage_decodes peer Hw) as Hd. destruct (socket_addr_to_storage peer) as [st len]. cbn in Ha, Hl.
  unfold on_complete_udp_recv_from. destruct (Z.ltb_spec res 0); [lia |]. rewrite Ha. destruct Hd as (_ & _ & Hd). by rewrite Hd.
Qed.

(** C40 Addresses survive the way through the kernel: the message of a datagram
    that is sent carries an encoding of the address given, with its length; a
    receiver whose message comes back with that name reports the address, octet
    by octet, and so does an accepted connection; a failed completion reports
    the error and no address. *)
Theorem peer_address_roundtrip (slots : list FileSlot) (s : SendToPayload) (op : SendTo) (Hw : addr_wf (st_addr op))
  (r : UdpRecvFromPayload) (recv : UdpRecvFrom) (accept : Accept) (res : Z) :
  let (s', sent) := make_sqe_send_to slots s op in
  match sent with Err _ => True | Ok _ =>
  msg_name (sp_msghdr s') = KernelNamePtr /\ msg_namelen (sp_msghdr s') = sp_namelen s' /\
  Z.of_nat (length (sp_name s')) = 128 /\ 0 < sp_namelen s' <= 128 /\
  (rp_name r = sp_name s' -> sp_namelen s' <= msg_namelen (rp_msghdr r) ->
     on_complete_udp_recv_from r recv res =
       if 0 <=? res then (mkRecvFrom (rf_fd recv) (rf_buf recv) (rf_buf_offset recv) (Some (st_addr op)), Ok res)
       else (recv, Err (set_error_code (report CompletionWait) (- res)))) /\
  (ac_addr accept = sp_name s' -> sp_namelen s' <= ac_addr_len accept ->
     on_complete_accept accept res =
       if 0 <=? res then (mkAccept (ac_fd accept) (ac_addr accept) (ac_addr_len accept) (Some (st_addr op)), Ok res)
       else (accept, Err (set_error_code (report CompletionWait) (- res))))
  end.
Proof.
  pose proof (storage_decodes (st_addr op) Hw) as Hd. pose proof (recv_from_reports r recv (st_addr op) res Hw) as Hr.
  pose proof (accept_reports accept (st_addr op) res Hw) as Ha.
  unfold make_sqe_send_to. destruct (buf_range _ _ _) as [[ptr len] |]; [| done]. destruct (socket_addr_to_storage _) as [name namelen].
  destruct Hd as (Hl & Hn & _). rewrite Hl in Hn. unfold SOCKADDR_STORAGE_SIZE in *. cbn [sp_name sp_namelen sp_msghdr msg_name msg_namelen fst snd] in *.
  destruct (on_ok _ _); [| done]. rewrite Hl. split_and!; try done; try lia; intros E El; unfold on_complete_udp_recv_from, on_complete_accept in *; rewrite Z.leb_antisym;
    destruct (Z.ltb_spec res 0); cbn; auto.
Qed.
