(* ===== verification/UringState.v ===== *)
(** * The state of the io_uring driver

    The invariant of the whole driver ([uring_core]): its registry, where each
    operation is ([lanes]), the wheel and its clock, the chunks and the files.
    Calls are specified by what holds afterwards ([post]); the rules for
    sequences follow the notations of the model. *)

From stdpp Require Import strings gmap.
From S2P Require Import Prelude BitSet SlotMap WheelConfig Wheel Timers Token SlotState Anomaly SlotTable Completion Registry Flow RegistryInv CompletionSpec DriverSteps DriverSafety OpLifecycle SlotInfo DriverApi UringBase FileTable UringFrame UringOp UringHooks UringDriver UringInv.

(** ** Postconditions *)

Section post.
Context {S : Type}.

Definition post {X} (m : outcome (S * X)) (Q : S -> X -> Prop) : Prop :=
  exists s x, m = Ret (s, x) /\ Q s x.

Lemma post_ret {X} s (x : X) (Q : S -> X -> Prop) : Q s x -> post (Ret (s, x)) Q.
Proof. intros HQ. by exists s, x. Qed.

Lemma post_mono {X} m (Q R : S -> X -> Prop) : post m Q -> (forall s x, Q s x -> R s x) -> post m R.
Proof. intros (s & x & -> & HQ) HR. exists s, x. auto. Qed.

Lemma post_bind {X Y} (m : outcome (S * X)) (k : S -> X -> outcome (S * Y)) Q R :
  post m Q -> (forall s x, Q s x -> post (k s x) R) -> post ('(s, x) ← m; k s x) R.
Proof. intros (s & x & -> & HQ) Hk. rewrite bind_ret. auto. Qed.

Lemma post_try {X Y E} (m : outcome (S * result X E)) (k : S -> X -> outcome (S * result Y E)) Q R :
  post m Q -> (forall s x, Q s (Ok x) -> post (k s x) R) -> (forall s e, Q s (Err e) -> R s (Err e)) ->
  post (and_then m k) R.
Proof. intros (s & [x | e] & -> & HQ) Hk He; unfold and_then; rewrite bind_ret; [auto |]. apply post_ret. auto. Qed.
End post.

(** What the driver is used with: descriptors and chunks are numbered by
    unsigned integers. *)
Class UringClients `{UringPayloads} `{Registrar} : Prop := {
  close_index : forall p fd, payload_close_fd p = Some fd -> 0 <= fd_index fd;
  chunk_index : forall id info, resolve_chunk_info id = Some info -> 0 <= Pool.ci_id info
}.

(** So many requests of other threads wait at most; [drain_cancel_requests]
    takes what was there when it began. *)
Class RemoteLimit : Type := remote_limit : nat.

Section state.
Context `{Laws : IoUringLaws} `{UringPayloads} `{UringTimers} `{Registrar} `{RemoteLimit}.
Notation Info := (SlotInfo (Spec := UringSlotSpec)).
Notation Ops := (OpRegistry (Spec := UringSlotSpec)).
Implicit Types (u : UringDriver) (o : Ops) (I : nat -> option Info) (i : Info) (k : nat).

(** ** What is lent stays *)

Definition at_rest i : Prop := si_state i = Idle \/ si_state i = InFlightReady.

(** An abandoned operation only ends. *)
Definition given_up i i' : Prop :=
  (si_state i = InFlightOrphaned ->
     (si_state i' = InFlightOrphaned /\ si_generation i' = si_generation i) \/ si_state i' = Idle) /\
  (si_state i = Idle -> si_state i' = Idle).

Lemma given_up_refl i : given_up i i.
Proof. split; auto. Qed.

Lemma given_up_trans i1 i2 i3 : given_up i1 i2 -> given_up i2 i3 -> given_up i1 i3.
Proof.
  intros [Ho1 Hi1] [Ho2 Hi2]. split; [| by auto]. intros Hs. destruct (Ho1 Hs) as [[Hs2 Hg] | Hs2]; [| by auto].
  destruct (Ho2 Hs2) as [[Hs3 Hg3] | Hs3]; [left; split; [done | congruence] | by right].
Qed.

(** An operation that is with the kernel keeps its slot and its memory until it
    is over. *)
Record steady I I' : Prop := {
  st_lent : forall k i, I k = Some i -> submitted (slot_token k i) i -> exists i', I' k = Some i' /\
    (at_rest i' \/ (in_air i' /\ si_generation i' = si_generation i /\ si_local i' = si_local i));
  st_rest : forall k i, I k = Some i -> at_rest i -> exists i', I' k = Some i' /\ at_rest i';
  st_gone : forall k i, I k = Some i -> exists i', I' k = Some i' /\ given_up i i'
}.

Lemma steady_refl I : steady I I.
Proof.
  split; [intros k i Hk [(_ & Ha & _) _] | intros k i Hk Hr | intros k i Hk]; exists i; auto using given_up_refl.
Qed.

Lemma steady_info I0 I I' : (forall k, I' k = I k) -> steady I0 I -> steady I0 I'.
Proof. intros He [Hs Hr Hg]. split; intros k i Hk; [intros Hp | intros Hp |]; rewrite He; eauto. Qed.

(** A slot may change as long as it keeps what it lent. *)
Definition may_become i i' : Prop := given_up i i' /\
  ((quiet i /\ ~ at_rest i) \/ at_rest i' \/
  (in_air i /\ in_air i' /\ si_generation i' = si_generation i /\ si_local i' = si_local i)).

Lemma steady_change I0 I I' k i i' : steady I0 I -> I k = Some i -> only_at I k i' I' -> may_become i i' -> steady I0 I'.
Proof.
  intros [Hs Hr Hgone] Hk [Hk' Hj] [Hgu Hm]. split; intros j x Hx; [intros Hp | intros Hp |].
  - destruct (Hs j x Hx Hp) as (y & Hy & Hyp). destruct (decide (j = k)) as [-> | Hne].
    + rewrite Hk in Hy. injection Hy as <-. exists i'. split; [done |].
      destruct Hm as [[Hq Hnr] | [Hm | (Ha & Ha' & Hg & Hl)]].
      * exfalso. destruct Hyp as [Hyp | (Ha & _ & Hl)]; [done |]. destruct Hp as [_ Hpl]. destruct Hq as [Hq | [Hq _]]; [done |].
        apply Hq. unfold info_platform in *. by rewrite Hl, Hpl.
      * by left.
      * destruct Hyp as [[E | E] | (_ & Hg' & Hl')]; [destruct Ha as [Ha | Ha]; congruence .. |].
        right. split_and!; [done | congruence | congruence].
    + exists y. by rewrite Hj.
  - destruct (Hr j x Hx Hp) as (y & Hy & Hyp). destruct (decide (j = k)) as [-> | Hne].
    + rewrite Hk in Hy. injection Hy as <-. exists i'. split; [done |].
      destruct Hm as [[Hq Hnr] | [Hm | (Ha & _)]]; [done | done |].
      exfalso. destruct Hyp as [E | E], Ha as [Ha | Ha]; congruence.
    + exists y. by rewrite Hj.
  - destruct (Hgone j x Hx) as (y & Hy & Hyp). destruct (decide (j = k)) as [-> | Hne]; [| exists y; by rewrite Hj].
    rewrite Hk in Hy. injection Hy as <-. exists i'. split; [done |]. by eapply given_up_trans.
Qed.

(** An operation is over, or was never in flight. *)
Lemma given_up_fresh i i' : si_state i <> InFlightOrphaned -> si_state i <> Idle -> given_up i i'.
Proof. by intros Ho Hi. Qed.

Lemma given_up_idle i i' : si_state i' = Idle -> given_up i i'.
Proof. split; auto. Qed.

(** ** The invariant *)

Definition chunks_ok (c : ChunkState) : Prop := bitset_wf (ck_registered c) /\ bs_size (ck_registered c) = MAX_CHUNKS.
Definition token_ok (t : OpToken) : Prop := 0 <= tk_index t.

Definition clock_ok (w : Wheel TimerKey TimerMap) (last : Z) : Prop :=
  0 <= global_tick w /\ global_tick w * from_millis TICK <= last < 2 ^ 62.

(** [I0] is what the slots were when the call began, [N] bounds the backlog;
    [pend] are completions taken from the ring but not accepted, [P] the timers
    whose operations are still in flight. *)
Record uring_core I0 (N : nat) (pend : list Z) (P : gmap TimerKey (Z * OpToken)) u : Prop := {
  uc_reg : reg_inv (ud_ops u);
  uc_steady : steady I0 (slot_info (ud_ops u));
  uc_lanes : lanes (slot_info (ud_ops u)) (pend ++ outstanding (ud_ring u)) (ud_backlog u) P
    (ud_pending_cancel_cqes u) (wk_armed (ud_waker u));
  uc_wheel : wheel_std (ud_wheel u);
  uc_clock : clock_ok (ud_wheel u) (ud_last_timer_poll u);
  uc_cancel_id : 1 <= ud_next_cancel_id u < 2 ^ 16;
  uc_backlog : Forall token_ok (ud_backlog u) /\ (length (ud_backlog u) <= N)%nat;
  uc_cancels : Forall (fun r => token_ok (pc_target r)) (ud_pending_cancellations u);
  uc_remote : Forall (fun r => token_ok (cn_target r)) (ud_remote_cancels u) /\
    (length (ud_remote_cancels u) <= remote_limit)%nat;
  uc_chunks : chunks_ok (ud_chunks u);
  uc_files : table_inv (ud_files u);
  uc_waker : forall fd, wk_registered_fd (ud_waker u) = Some fd -> 0 <= fd_index fd
}.
Definition uring_ok I0 N pend u : Prop := uring_core I0 N pend (wheel_pending (ud_wheel u)) u.

Lemma uring_core_weaken I0 N N' pend P u : (N <= N')%nat -> uring_core I0 N pend P u -> uring_core I0 N' pend P u.
Proof. intros HN []. split; try done. destruct uc_backlog0. split; [done | lia]. Qed.

(** Slots, ring and chunks change. *)
Lemma core_slots I0 N pend pend' P P' u r c o : uring_core I0 N pend P u -> reg_inv o -> steady I0 (slot_info o) -> chunks_ok c ->
  lanes (slot_info o) (pend' ++ outstanding r) (ud_backlog u) P' (ud_pending_cancel_cqes u) (wk_armed (ud_waker u)) ->
  uring_core I0 N pend' P' (with_ops (with_chunks (with_ring u r) c) o).
Proof. intros [] Ho Hs Hc Hl. by split. Qed.

Lemma core_ops I0 N pend pend' P P' u o : uring_core I0 N pend P u -> reg_inv o -> steady I0 (slot_info o) ->
  lanes (slot_info o) (pend' ++ outstanding (ud_ring u)) (ud_backlog u) P' (ud_pending_cancel_cqes u) (wk_armed (ud_waker u)) ->
  uring_core I0 N pend' P' (with_ops u o).
Proof. intros [] Ho Hs Hl. by split. Qed.

(** Nothing the invariant speaks of changes. *)
Lemma core_same_ops I0 N pend P u o : uring_core I0 N pend P u -> reg_inv o -> same_info (ud_ops u) o ->
  uring_core I0 N pend P (with_ops u o).
Proof.
  intros Hc Ho Hs. eapply core_ops; [done | done | |].
  - eapply steady_info; [exact Hs | apply (uc_steady _ _ _ _ _ Hc)].
  - eapply lanes_info; [exact Hs | apply (uc_lanes _ _ _ _ _ Hc)].
Qed.

Lemma count_ops u c : exists o, count u c = with_ops u o /\ only_diagnostics (rg_shared (ud_ops u)) (rg_shared o) /\
  o = set_shared (ud_ops u) (rg_shared o).
Proof. eexists. split; [done |]. split; [by eexists | done]. Qed.

Lemma count_core I0 N pend P u c : uring_core I0 N pend P u -> uring_core I0 N pend P (count u c).
Proof.
  intros Hc. destruct (count_ops u c) as (o & -> & Hd & ->). apply core_same_ops; [done | |].
  - apply reg_inv_only; [apply (uc_reg _ _ _ _ _ Hc) | done].
  - by apply same_info_diagnostics.
Qed.

Lemma count_list_core I0 N pend P l : forall u, uring_core I0 N pend P u -> uring_core I0 N pend P (foldl count u l).
Proof. induction l as [| c l IH]; intros u Hc; [done |]. by apply IH, count_core. Qed.

(** The order of what the kernel still has does not matter. *)
Lemma core_perm I0 N pend pend' P u r : uring_core I0 N pend P u ->
  pend' ++ outstanding r ≡ₚ pend ++ outstanding (ud_ring u) -> uring_core I0 N pend' P (with_ring u r).
Proof. intros [] Hp. split; try done. eapply lanes_perm; [exact Hp | done]. Qed.

Lemma core_ring I0 N pend P u r : uring_core I0 N pend P u -> outstanding r ≡ₚ outstanding (ud_ring u) ->
  uring_core I0 N pend P (with_ring u r).
Proof. intros Hc Hp. eapply core_perm; [done |]. by rewrite Hp. Qed.

Lemma core_chunks I0 N pend P u c : uring_core I0 N pend P u -> chunks_ok c -> uring_core I0 N pend P (with_chunks u c).
Proof. intros [] Hc. by split. Qed.

Lemma core_files I0 N pend P u s : uring_core I0 N pend P u -> files_kept (ud_ring u, ud_files u) s ->
  uring_core I0 N pend P (with_files u s.1 s.2).
Proof. intros [] [Hf Ho]. split; try done. eapply lanes_perm; [| done]. cbn in *. by rewrite Ho. Qed.

(** ** The ring and the chunks *)

Lemma push_entry_ok u e : exists r b, push_entry u e = (with_ring u r, b) /\
  outstanding r ≡ₚ if (b : bool) then entry_get_user_data e :: outstanding (ud_ring u) else outstanding (ud_ring u).
Proof.
  unfold push_entry. destruct (sq_push (ud_ring u) e) as [r1 [|]] eqn:Hp1; [exists r1, true; split; [done | by apply push_ok] |].
  apply push_full in Hp1. pose proof (enter_keeps r1 0 0 IORING_ENTER_GETEVENTS) as He.
  destruct (ring_enter r1 0 0 IORING_ENTER_GETEVENTS) as [r2 x]. cbn [fst] in He.
  destruct (sq_push r2 e) as [r3 [|]] eqn:Hp3; eexists r3, _; (split; [done |]).
  - apply push_ok in Hp3. by rewrite Hp3, He, Hp1.
  - apply push_full in Hp3. by rewrite Hp3, He.
Qed.

Context `{Clients : !UringClients}.

Lemma register_chunk_ok u id ptr len : chunks_ok (ud_chunks u) -> 0 <= id ->
  post (register_chunk_internal u id ptr len) (fun u' _ => exists r c,
    u' = with_chunks (with_ring u r) c /\ outstanding r ≡ₚ outstanding (ud_ring u) /\ chunks_ok c).
Proof.
  intros [Hw Hs] Hi. unfold register_chunk_internal.
  set (recent := match _ with Some _ => _ | None => false end).
  assert (Hself : forall s, exists r c, with_chunks u (set_stats (ud_chunks u) s) = with_chunks (with_ring u r) c /\
    outstanding r ≡ₚ outstanding (ud_ring u) /\ chunks_ok c).
  { intros s. by exists (ud_ring u), (set_stats (ud_chunks u) s). }
  destruct recent; [apply post_ret, Hself |]. destruct (Z.leb_spec MAX_CHUNKS id) as [Hge | Hlt].
  { apply post_ret. exists (ud_ring u), (ud_chunks u). by destruct u. }
  pose proof (buffers_keep (ud_ring u) id (ptr, len)) as Hk.
  destruct (register_buffers_update _ _ _) as [r [[] | er]]; cbn [fst] in Hk; [| apply post_ret; by eexists r, (mkChunkState _ _ _ _)].
  destruct (bitset_set_ok (ck_registered (ud_chunks u)) id Hw) as (s' & -> & Hw' & Hs' & _); [by rewrite Hs |].
  rewrite bind_ret. apply post_ret. eexists r, _. split; [done |]. split; [done |]. split; [done |]. cbn. congruence.
Qed.

Lemma register_missing_ok chunks : forall u, chunks_ok (ud_chunks u) -> Forall (fun c => 0 <= c) chunks ->
  post (register_missing_chunks u chunks) (fun u' _ => exists r c,
    u' = with_chunks (with_ring u r) c /\ outstanding r ≡ₚ outstanding (ud_ring u) /\ chunks_ok c).
Proof.
  assert (Hself : forall u, exists r c, u = with_chunks (with_ring u r) c /\ r = ud_ring u /\ c = ud_chunks u).
  { intros u. exists (ud_ring u), (ud_chunks u). by destruct u. }
  induction chunks as [| id chunks IH]; intros u Hc Hall; cbn [register_missing_chunks].
  { apply post_ret. destruct (Hself u) as (r & c & E & -> & ->). by eexists _, _. }
  apply Forall_cons in Hall as [Hi Hall]. pose proof Hc as [Hw Hs].
  destruct (Z.ltb_spec id (bs_size (ck_registered (ud_chunks u)))) as [Hlt | Hge].
  2: { rewrite bitset_get_err, bind_ret by done. apply post_ret. destruct (Hself u) as (r & c & E & -> & ->).
       eexists _, _. split; [exact E | done]. }
  rewrite bitset_get_ok, bind_ret by done. destruct (bitset_bit _ id); [by apply IH |].
  destruct (resolve_chunk_info id) as [info |] eqn:Hr.
  - eapply post_try; [apply register_chunk_ok; [done | by eapply chunk_index] | | ].
    + intros u1 [] (r & c & -> & Ho & Hc1). eapply post_mono; [by apply IH |].
      intros u2 x (r2 & c2 & -> & Ho2 & Hc2). exists r2, c2. cbn in Ho2. by rewrite Ho2.
    + intros u1 e Hq. exact Hq.
  - apply post_ret. eexists (ud_ring u), _. split; [by destruct u |]. split; [done |]. split; [exact Hw | exact Hs].
Qed.
End state.
