(* ===== verification/UringAccept.v ===== *)
(** * Accepting completions in the io_uring driver

    The hooks use their slots as the views allow ([uring_lawful]) and finish
    every operation they are given.  An operation that is completed by the
    driver itself, because it was cancelled, its timer expired or its submission
    failed, is over after the call, and nothing else changes. *)

From stdpp Require Import strings gmap.
From S2P Require Import Prelude BitSet SlotMap WheelConfig Wheel Timers Token SlotState Anomaly SlotTable Completion Registry Flow RegistryInv CompletionSpec DriverSteps DriverSafety OpLifecycle SlotInfo DriverApi UringBase FileTable UringFrame UringOp UringHooks UringDriver UringInv UringState.

Section lawful.
Context `{IoUring} `{UringPayloads} `{UringTimers}.
Notation Cell := (SlotCell (Spec := UringSlotSpec)).
Implicit Types (c : Cell) (h : UringCompletionHooks).

Lemma edit_step c c1 c2 : slot_method c c1 -> slot_edit c1 c2 -> slot_edit c c2.
Proof. apply rtc_l. Qed.

Lemma cleanup_edit c f c' : slot_edit (cleanup_with c f).1 c' -> slot_edit c c'.
Proof.
  unfold cleanup_with. intros He. eapply edit_step; [apply (m_op c f) |]. by destruct (with_op_mut c f) as [c1 [g | e]].
Qed.

Lemma rtc_l_edit c c1 (p : Cell * result (CompletionHookOutcome UringBackendEffect) Report) : slot_method c c1 ->
  slot_edit c1 p.1 /\ hook_result_ok p.2 -> slot_edit c p.1 /\ hook_result_ok p.2.
Proof. intros Hm [He Hr]. split; [by eapply edit_step | done]. Qed.

Lemma take_data_edit c : slot_edit c (take_completion_data c).1.
Proof. eapply edit_step; [apply m_take_data |]. apply rtc_refl. Qed.

(** What is left when data and operation were taken, in either order. *)
Lemma take_both_edit c : slot_edit c (take_op (take_completion_data c).1).1.
Proof. eapply edit_step; [apply m_take_data |]. eapply edit_step; [apply m_take_op |]. apply rtc_refl. Qed.
Lemma take_both_edit' c : slot_edit c (take_completion_data (take_op c).1).1.
Proof. eapply edit_step; [apply m_take_op |]. eapply edit_step; [apply m_take_data |]. apply rtc_refl. Qed.

Lemma kernel_edit c token raw : token_ok token ->
  slot_edit c (complete_kernel_waiting_slot c token raw).1 /\ hook_result_ok (complete_kernel_waiting_slot c token raw).2.
Proof.
  intros Ht. unfold complete_kernel_waiting_slot, complete_waiting_slot.
  match goal with |- context [with_op_and_payload_mut c ?f] =>
    pose proof (m_op_payload c f) as Hm; destruct (with_op_and_payload_mut c f) as [c1 [[res cl] | e]]; cbn [fst] in Hm end.
  2: { split; [| done]. eapply edit_step; [exact Hm |]. apply rtc_refl. }
  eapply (rtc_l_edit c c1); [exact Hm |].
  pose proof (take_both_edit c1) as He. pose proof (take_data_edit c1) as Hd.
  destruct (take_completion_data c1) as [c2 [pl de]]. cbn [fst] in He, Hd. destruct pl as [pl |]; [| by split].
  destruct (take_op c2) as [c3 x]. by split.
Qed.

Lemma timer_edit c e : event_ok e ->
  slot_edit c (complete_timer_waiting_slot c e).1 /\ hook_result_ok (complete_timer_waiting_slot c e).2.
Proof.
  intros Ht. unfold complete_timer_waiting_slot, complete_waiting_slot. set (c1 := cell_platform c _).
  eapply (rtc_l_edit c c1); [apply m_platform |]. pose proof (take_both_edit' c1) as He.
  destruct (take_op c1) as [c2 x]. cbn [fst] in He. destruct (take_completion_data c2) as [c3 [pl de]]. cbn [fst] in He.
  by destruct pl.
Qed.

Lemma failure_edit c e r : event_ok e ->
  slot_edit c (complete_submission_failure_slot c e r).1 /\ hook_result_ok (complete_submission_failure_slot c e r).2.
Proof.
  intros Ht. unfold complete_submission_failure_slot, complete_waiting_slot. match goal with |- context [cleanup_with c ?f] =>
    pose proof (cleanup_edit c f) as Hc; destruct (cleanup_with c f) as [c1 cl]; cbn [fst] in Hc end.
  pose proof (take_both_edit' c1) as He. destruct (take_op c1) as [c2 x]. cbn [fst] in He.
  destruct (take_completion_data c2) as [c3 [pl de]]. cbn [fst] in He. destruct pl; (split; [by apply Hc | done]).
Qed.

Lemma cancel_edit c e mode b : event_ok e ->
  slot_edit c (complete_local_cancel_slot c e mode b).1 /\ hook_result_ok (complete_local_cancel_slot c e mode b).2.
Proof.
  intros Ht. unfold complete_local_cancel_slot, complete_waiting_slot. match goal with |- context [cleanup_with c ?f] =>
    pose proof (cleanup_edit c f) as Hc; destruct (cleanup_with c f) as [c1 cl]; cbn [fst] in Hc end.
  pose proof (take_both_edit c1) as He. destruct (take_completion_data c1) as [c2 [pl de]]. cbn [fst] in He.
  destruct (take_op c2) as [c3 x]. cbn [fst] in He. destruct mode, pl; (split; [by apply Hc | done]).
Qed.

Lemma orphan_edit c res : slot_edit c (cleanup_orphaned_slot c res).1.
Proof.
  unfold cleanup_orphaned_slot, complete_orphaned_slot. match goal with |- context [cleanup_with c ?f] =>
    pose proof (cleanup_edit c f) as Hc; destruct (cleanup_with c f) as [c1 cl]; cbn [fst] in Hc end.
  pose proof (take_both_edit c1) as He. destruct (take_completion_data c1) as [c2 [pl de]]. cbn [fst] in He.
  destruct (take_op c2) as [c3 x]. by apply Hc.
Qed.

#[global] Instance uring_lawful : LawfulHooks UringCompletionHooks.
Proof.
  split.
  - intros h [id raw | id raw]; cbn; [by destruct (handle_waker_control h raw) |].
    unfold handle_cancel_control. destruct (_ !! id); [| done]. by repeat case_match.
  - intros h e c src He. cbn. unfold uring_complete_waiting.
    destruct src as [| | [| |] | b];
      [destruct (kernel_edit c (ue_token e) (ue_raw e) He) | destruct (kernel_edit c (ue_token e) (ue_raw e) He)
      | destruct (timer_edit c e He) | destruct (cancel_edit c e (synthetic_cancel_mode (uh_synthetic h)) false He)
      | destruct (take_submission_failure (uh_synthetic h)) as [s f]; destruct (failure_edit c e f He)
      | destruct (kernel_edit c (ue_token e) (ue_raw e) He)];
      unfold complete_cancel_waiting_slot; by repeat case_match; simplify_eq.
  - intros h e c src He. cbn. unfold uring_complete_orphaned. match goal with |- context [cleanup_orphaned_slot c ?res] =>
      pose proof (orphan_edit c res); by destruct (cleanup_orphaned_slot c res) end.
  - done.
  - done.
Qed.
End lawful.

Section hooks.
Context `{IoUring} `{UringPayloads} `{UringTimers}.
Implicit Types (h : UringCompletionHooks) (l : LocalSlot (Spec := UringSlotSpec)) (d : SlotData (Spec := UringSlotSpec)).

(** The effects of completing an operation: a closed descriptor, of a
    completion from the kernel. *)
Definition plain_effect (src : CompletionSource unit) (eff : UringBackendEffect) : Prop :=
  eff = EffNone \/ exists fd p, eff = EffCloseCompleted fd /\ payload_close_fd p = Some fd /\
    match src with FromSynthetic _ => False | _ => True end.

Lemma event_parts_token b t res fl : ue_token (event_from_parts b t res fl) = t.
Proof. done. Qed.

Lemma waiting_hook h e l src : is_Some (ls_op l) -> is_Some (sg_payload (ls_storage l)) ->
  exists s o eff f, hook_finishes e o eff /\ plain_effect src eff /\
    forall d, complete_waiting h e (flight_cell (ue_token e) d l) src = (uh_set_synthetic h s, f d, Ok o) /\ sl_entry (f d) = d.
Proof.
  intros [op Hop] [p Hp]. assert (Hh : h = uh_set_synthetic h (uh_synthetic h)) by by destruct h.
  assert (Hk : exists o eff f, hook_finishes e o eff /\ (eff = EffNone \/ exists fd p, eff = EffCloseCompleted fd /\ payload_close_fd p = Some fd) /\
    forall d, complete_kernel_waiting_slot (flight_cell (ue_token e) d l) (ue_token e) (ue_raw e) = (f d, Ok o) /\ sl_entry (f d) = d).
  { unfold complete_kernel_waiting_slot, with_op_and_payload_mut. cbn [flight_cell sl_op sl_storage]. rewrite Hop, Hp.
    destruct (vt_on_complete _ _ _ _) as [[k p'] res] eqn:Hc. destruct (completion_cleanup _ _) as [op' cl] eqn:Hcl. cbn.
    destruct res as [v | er]; [destruct (payload_close_fd p') as [fd |] eqn:Hfd |]; eexists _, _, _;
      (split; [left; eexists _, _, _, _; split; [| reflexivity]; apply event_parts_token |]); (split; [| intros d; split; reflexivity]).
    - right. by exists fd, p'.
    - by left.
    - by left. }
  assert (Hkernel : match src with FromSynthetic _ => False | _ => True end ->
    exists s o eff f, hook_finishes e o eff /\ plain_effect src eff /\
    forall d, (let (c, r) := complete_kernel_waiting_slot (flight_cell (ue_token e) d l) (ue_token e) (ue_raw e) in (h, c, r)) =
      (uh_set_synthetic h s, f d, Ok o) /\ sl_entry (f d) = d).
  { intros Hsrc. destruct Hk as (o & eff & f & Hfin & Heff & Hd). exists (uh_synthetic h), o, eff, f. split; [done |]. split.
    - destruct Heff as [-> | (fd & q & -> & Hq)]; [by left | right; by exists fd, q].
    - intros d. destruct (Hd d) as [-> Hs]. by rewrite <- Hh. }
  destruct src as [| | [| |] | b]; try (by apply Hkernel); cbn; unfold uring_complete_waiting.
  - exists (uh_synthetic h). rewrite <- Hh. unfold complete_timer_waiting_slot. cbn. unfold take_op. cbn. rewrite Hop. cbn. rewrite Hp.
    eexists _, EffNone, _. split; [left; eexists _, _, _, _; split; [| reflexivity]; reflexivity |]. split; [by left |]. intros d. split; reflexivity.
  - exists (uh_synthetic h). rewrite <- Hh. unfold complete_cancel_waiting_slot, complete_local_cancel_slot, cleanup_with, with_op_mut.
    cbn. rewrite Hop. destruct (if _ || _ then _ else _) as [op' cl]. cbn. rewrite Hp. unfold take_op. cbn.
    destruct (synthetic_cancel_mode _); eexists _, EffNone, _.
    + split; [left; eexists _, _, _, _; split; [| reflexivity]; reflexivity |]. split; [by left |]. intros d. split; reflexivity.
    + split; [right; eexists; reflexivity |]. split; [by left |]. intros d. split; reflexivity.
  - destruct (take_submission_failure (uh_synthetic h)) as [s f]. exists s.
    unfold complete_submission_failure_slot, cleanup_with, with_op_mut. cbn. rewrite Hop.
    destruct (completion_cleanup op _) as [op' cl]. unfold take_op. cbn. rewrite Hp.
    eexists _, EffNone, _. split; [left; eexists _, _, _, _; split; [| reflexivity]; reflexivity |]. split; [by left |]. intros d. split; reflexivity.
Qed.

Lemma orphaned_hook h e l src : exists cl f, forall d,
  complete_orphaned h e (flight_cell (ue_token e) d l) src = (h, f d, Ok (HookCleanup cl EffNone)) /\ sl_entry (f d) = d.
Proof.
  cbn. unfold uring_complete_orphaned. match goal with |- context [cleanup_orphaned_slot _ ?r] => generalize r; intros res end.
  unfold cleanup_orphaned_slot, cleanup_with, with_op_mut. cbn. destruct (ls_op l) as [op |] eqn:Hop.
  - destruct (orphan_cleanup op res) as [op' cl]. cbn. unfold take_op. cbn. exists cl. eexists. intros d. split; reflexivity.
  - unfold take_op. cbn. rewrite Hop. exists None. eexists. intros d. split; reflexivity.
Qed.
End hooks.

Section accept.
Context `{Laws : IoUringLaws} `{UringPayloads} `{UringTimers} `{Registrar}.
Notation Ops := (OpRegistry (Spec := UringSlotSpec)).
Notation Info := (SlotInfo (Spec := UringSlotSpec)).
Implicit Types (u : UringDriver) (o : Ops) (i : Info) (k : nat).

(** ** What a token names *)

Inductive view_case o (token : OpToken) : CheckedSlotView (Spec := UringSlotSpec) -> Prop :=
  | vc_gone v : (forall c, v <> Valid c) ->
      (forall i, slot_info o (Z.to_nat (tk_index token)) = Some i -> si_generation i = tk_generation token -> ~ (in_air i \/ si_state i = Reserved)) ->
      view_case o token v
  | vc_reserved i d : slot_info o (Z.to_nat (tk_index token)) = Some i -> si_state i = Reserved ->
      si_generation i = tk_generation token -> slot_state d = Reserved -> reserved_ok i ->
      slot_bundle o (tk_index token) = Some (flight_cell token d (si_local i)) ->
      view_case o token (Valid (ViewReserved (flight_cell token d (si_local i))))
  | vc_waiting i d : slot_info o (Z.to_nat (tk_index token)) = Some i -> si_state i = InFlightWaiting ->
      flying token i -> in_flight o token InFlightWaiting d (si_local i) ->
      view_case o token (Valid (ViewWaiting (flight_cell token d (si_local i))))
  | vc_orphaned i d : slot_info o (Z.to_nat (tk_index token)) = Some i -> si_state i = InFlightOrphaned ->
      flying token i -> in_flight o token InFlightOrphaned d (si_local i) ->
      view_case o token (Valid (ViewOrphaned (flight_cell token d (si_local i)))).

Lemma view_total o out B P C a token : lanes (slot_info o) out B P C a -> token_ok token ->
  exists v, checked_slot_view o token = Ok v /\ view_case o token v.
Proof.
  intros Hl Ht. destruct (slot_info o (Z.to_nat (tk_index token))) as [i |] eqn:Hi.
  2: { assert (Hn : slot_bundle o (tk_index token) = None).
       { unfold slot_bundle. unfold slot_info in Hi. destruct (tb_slots (rg_shared o) !! _); [by destruct (rg_local o !! _) | done]. }
       unfold checked_slot_view, token_parts. rewrite Hn. eexists. split; [reflexivity |]. apply vc_gone; [done |]. intros i. by rewrite Hi. }
  pose proof (ln_slot _ _ _ _ _ _ Hl _ _ Hi) as Hok. pose proof Hi as Hparts.
  apply slot_info_parts in Hparts as (d & Hd & Hloc & Hst & Hg).
  assert (Hb : slot_bundle o (tk_index token) = Some (flight_cell token d (si_local i))).
  { unfold slot_bundle. by rewrite Hd, Hloc. }
  destruct (decide (si_generation i = tk_generation token)) as [Hgen | Hgen].
  2: { unfold checked_slot_view, token_parts. rewrite Hb. cbn [slot_snapshot sn_generation sl_entry flight_cell].
       rewrite Hg, (proj2 (Z.eqb_neq _ _) Hgen). eexists; split; [reflexivity |]. apply vc_gone; [done |].
       intros i'. rewrite Hi. intros [= <-] E. done. }
  assert (Htok : slot_token (Z.to_nat (tk_index token)) i = token).
  { unfold slot_token. rewrite Hgen. destruct token. unfold token_ok in Ht. cbn in *. f_equal. lia. }
  assert (Hfly : in_air i -> flying token i).
  { intros Ha. apply slot_ok_air in Hok; [| done]. destruct Hok as [Hf _]. by rewrite Htok in Hf. }
  unfold slot_ok in Hok. destruct (si_state i) eqn:Hs.
  1, 4, 6, 7: unfold checked_slot_view, token_parts; rewrite Hb; cbn [slot_snapshot sn_generation sn_state sl_entry flight_cell];
    rewrite Hg, Hgen, Z.eqb_refl, Hst; cbn [negb]; (eexists; split; [reflexivity |]); (apply vc_gone; [done |]);
    intros i'; rewrite Hi; intros [= <-] _ [[E | E] | E]; congruence.
  - eexists. split; [| by eapply vc_reserved].
    unfold checked_slot_view, token_parts. rewrite Hb. cbn [slot_snapshot sn_generation sn_state sl_entry flight_cell].
    rewrite Hg, Hgen, Z.eqb_refl, Hst. cbn [negb]. unfold try_bind, state_eqb. cbn [sl_entry flight_cell sl_op].
    rewrite Hst. destruct Hok as (_ & _ & -> & _). done.
  - destruct (flying_in_flight o token i) as [d' Hf]; [apply Hfly; by left | done |]. rewrite Hs in Hf.
    rewrite (flight_view _ _ _ _ _ Hf) by (by left). eexists. split; [reflexivity |].
    apply vc_waiting; [done | done | apply Hfly; by left | done].
  - destruct (flying_in_flight o token i) as [d' Hf]; [apply Hfly; by right | done |]. rewrite Hs in Hf.
    rewrite (flight_view _ _ _ _ _ Hf) by (by right). eexists. split; [reflexivity |].
    apply vc_orphaned; [done | done | apply Hfly; by right | done].
Qed.

(** ** Operations that the driver completes itself *)

Lemma end_hooks_same u o s : end_hooks u o (uh_set_synthetic (mkHooks [] (ud_pending_cancel_cqes u) WAKER_BUF_LEN
  (wk_armed (ud_waker u)) (wk_is_waked (ud_waker u)) s post_default) s) = with_ops u o.
Proof. unfold end_hooks. cbn. unfold with_ops, with_cancel_cqes, with_waker. cbn. by destruct (ud_waker u). Qed.

Lemma accept_user_flying (h : UringCompletionHooks) o e src i : reg_inv o ->
  slot_info o (Z.to_nat (tk_index (ue_token e))) = Some i -> flying (ue_token e) i ->
  exists o' h' x st s eff, accept_user_event (o, h) e src = Ret ((o', h'), Ok x) /\ plain_effect src eff /\
    uring_finish_backend_effect (uh_set_synthetic h s) eff = (h', Ok tt) /\
    reg_inv o' /\ length (rg_local o') = length (rg_local o) /\
    ((st = InFlightReady \/ st = Idle) /\ (si_state i <> InFlightWaiting -> st = Idle)) /\
    (x = flow_user_completed \/ x = flow_orphan_cleaned) /\
    becomes o (Z.to_nat (tk_index (ue_token e))) (over i st) o'.
Proof.
  intros Ho Hi Hf. pose proof Hf as (He & Hair & _ & _ & _ & Hop & Hpl). destruct Hair as [Hst | Hst].
  - destruct (waiting_hook h e (si_local i) src Hop Hpl) as (s & oc & eff & f & Hfin & Heff & Hc).
    assert (Hfe : exists h2, uring_finish_backend_effect (uh_set_synthetic h s) eff = (h2, Ok tt))
      by (destruct eff; by eexists). destruct Hfe as [h2 Hfe].
    destruct (accept_waiting_info (o, h) e src i (uh_set_synthetic h s) h2 f oc eff Ho Hi Hf Hst) as
      (s' & x & st & Hacc & Hh & Hr & Hlen & Hst' & Hx & Hb); [| done | done |].
    + intros d Hd. destruct (Hc d) as [Hcd Hed]. split; [exact Hcd |]. split.
      * destruct (lawful_waiting h e (flight_cell (ue_token e) d (si_local i)) src He) as [Hedit _]. by rewrite Hcd in Hedit.
      * by rewrite Hed.
    + destruct s' as [o' h']. cbn [fst snd] in *. subst h'. exists o', h2, x, st, s, eff. by split_and!.
  - destruct (orphaned_hook h e (si_local i) src) as (cl & f & Hc).
    destruct (accept_orphaned_info (o, h) e src i h h f cl EffNone Ho Hi Hf Hst) as (s' & Hacc & Hh & Hr & Hlen & Hb); [| done |].
    + intros d Hd. destruct (Hc d) as [Hcd Hed]. split; [exact Hcd |]. split.
      * destruct (lawful_orphaned h e (flight_cell (ue_token e) d (si_local i)) src He) as [Hedit _]. by rewrite Hcd in Hedit.
      * by rewrite Hed.
    + destruct s' as [o' h']. cbn [fst snd] in *. subst h'.
      exists o', h, flow_orphan_cleaned, Idle, (uh_synthetic h), EffNone. split_and!; try done; [by left | by destruct h | by right | by right].
Qed.

Variable flush : UringDriver -> outcome (UringDriver * result unit Report).

Lemma accept_synthetic_ok u e source syn i : reg_inv (ud_ops u) ->
  slot_info (ud_ops u) (Z.to_nat (tk_index (ue_token e))) = Some i -> flying (ue_token e) i ->
  exists o' st x, accept_synthetic_completion flush u e source syn = Ret (with_ops u o', Ok x) /\ reg_inv o' /\
    ((st = InFlightReady \/ st = Idle) /\ (si_state i <> InFlightWaiting -> st = Idle)) /\
    becomes (ud_ops u) (Z.to_nat (tk_index (ue_token e))) (over i st) o'.
Proof.
  intros Ho Hi Hf. unfold accept_synthetic_completion, accept_completion_ingress. set (h := mkHooks _ _ _ _ _ _ _).
  destruct (accept_user_flying h (ud_ops u) e (FromSynthetic source) i Ho Hi Hf) as
    (o' & h' & x & st & s & eff & Hacc & Heff & Hfe & Hr & _ & Hst & _ & Hb).
  destruct Heff as [-> | (fd & p & _ & _ & [])]. cbn in Hfe. injection Hfe as <-.
  change (accept_completion (ud_ops u, h) (IngressSynthetic e source)) with (accept_user_event (ud_ops u, h) e (FromSynthetic source)).
  rewrite Hacc, bind_ret. assert (He : end_hooks u o' (uh_set_synthetic h s) = with_ops u o') by apply (end_hooks_same u o' s).
  rewrite He. exists o', st, x. split; [done |]. split; [done |]. split; [exact Hst | exact Hb].
Qed.

Lemma accept_anomaly_ok u kind attach : exists o' x, accept_completion_anomaly_kind flush u kind attach = Ret (with_ops u o', Ok x) /\
  only_diagnostics (rg_shared (ud_ops u)) (rg_shared o') /\ o' = set_shared (ud_ops u) (rg_shared o').
Proof.
  unfold accept_completion_anomaly_kind, accept_completion_ingress. cbn [accept_completion]. rewrite bind_ret. cbn [update_table fst snd].
  match goal with |- context [end_hooks u ?o ?h] =>
    replace (end_hooks u o h) with (with_ops u o) by (symmetry; exact (end_hooks_same u o SynNone)); exists o, flow_anomaly end.
  split; [reflexivity |]. split; [apply note_anomaly_only | done].
Qed.
End accept.
