(* ===== verification/UringCancel.v ===== *)
(** * Cancelling and flushing keep the driver's invariant

    What [complete_local_cancel], [cancel_op_internal], the submission of an
    operation and [flush_backlog] leave. *)

From stdpp Require Import strings gmap.
From S2P Require Import Prelude BitSet SlotMap WheelConfig Wheel Timers Token SlotState Anomaly SlotTable Completion Registry Flow RegistryInv CompletionSpec DriverSteps DriverSafety OpLifecycle SlotInfo DriverApi UringBase FileTable UringFrame UringOp UringHooks UringDriver UringInv UringState UringAccept.

Section over.
Context `{Laws : IoUringLaws} `{UringPayloads} `{UringTimers} `{Registrar} `{RemoteLimit}.
Notation Ops := (OpRegistry (Spec := UringSlotSpec)).
Notation Info := (SlotInfo (Spec := UringSlotSpec)).
Implicit Types (u : UringDriver) (o : Ops) (i : Info) (k : nat).

Lemma over_rest i st : st = InFlightReady \/ st = Idle -> at_rest (over i st).
Proof. intros [-> | ->]; [by right | by left]. Qed.

Lemma rest_not_air i : at_rest i -> ~ in_air i.
Proof. intros [E | E] [E' | E']; congruence. Qed.

Lemma slot_ok_rest out B P k i : at_rest i -> slot_ok out B P k i.
Proof. unfold slot_ok. by intros [-> | ->]. Qed.

Lemma over_given_up i st : (si_state i <> InFlightWaiting -> st = Idle) -> given_up i (over i st).
Proof. intros Hst. destruct (decide (si_state i = InFlightWaiting)) as [Hw | Hw]; [by apply given_up_fresh; rewrite Hw | apply given_up_idle, Hst, Hw]. Qed.

Lemma becomes_only o k i o' : becomes o k i o' -> only_at (slot_info o) k i (slot_info o').
Proof. done. Qed.

(** The operation in slot [k] is over; it was neither with the kernel nor in
    the wheel. *)
Lemma core_over_quiet I0 N N' pend P u B' k i st o' : uring_core I0 N pend P u -> slot_info (ud_ops u) k = Some i ->
  quiet i -> reg_inv o' -> becomes (ud_ops u) k (over i st) o' -> (st = InFlightReady \/ st = Idle) /\ (si_state i <> InFlightWaiting -> st = Idle) ->
  (forall t, token_ok t -> Z.to_nat (tk_index t) <> k -> t ∈ ud_backlog u -> t ∈ B') -> Forall token_ok B' -> (length B' <= N')%nat ->
  uring_core I0 N' pend P (with_ops (with_backlog u B') o').
Proof.
  intros Hc Hk Hq Ho Hb Hst HB HF HN. destruct Hst as [Hst Hgu]. pose proof (over_rest i st Hst) as Hr. pose proof (uc_lanes _ _ _ _ _ Hc) as Hl.
  pose proof (proj2 (ln_bound _ _ _ _ _ _ Hl _ _ Hk)) as Hg. destruct Hc. split; try done.
  - eapply steady_change; [done | exact Hk | exact Hb |]. split; [by apply over_given_up | right; by left].
  - eapply lanes_calm; [exact Hl | exact Hk | exact Hb | exact Hg | exact Hq | exact HB | by apply slot_ok_rest].
Qed.

Lemma core_over_timer I0 N pend P u tid k i st o' : uring_core I0 N pend P u -> slot_info (ud_ops u) k = Some i ->
  timer_of i tid (slot_token k i) -> reg_inv o' -> becomes (ud_ops u) k (over i st) o' -> (st = InFlightReady \/ st = Idle) /\ (si_state i <> InFlightWaiting -> st = Idle) ->
  uring_core I0 N pend (delete tid P) (with_ops u o').
Proof.
  intros Hc Hk Htm Ho Hb Hst. destruct Hst as [Hst Hgu]. pose proof (over_rest i st Hst) as Hr. pose proof (uc_lanes _ _ _ _ _ Hc) as Hl.
  pose proof (proj2 (ln_bound _ _ _ _ _ _ Hl _ _ Hk)) as Hg. eapply core_ops; [exact Hc | done | |].
  - eapply steady_change; [apply (uc_steady _ _ _ _ _ Hc) | exact Hk | exact Hb |]. split; [by apply over_given_up | right; by left].
  - eapply lanes_timer_over; [exact Hl | exact Hk | exact Hb | exact Hg | done | by apply rest_not_air | by apply slot_ok_rest].
Qed.

Lemma core_over_kernel I0 N pend pend' P u k i st o' : uring_core I0 N pend P u -> slot_info (ud_ops u) k = Some i ->
  submitted (slot_token k i) i -> reg_inv o' -> becomes (ud_ops u) k (over i st) o' -> (st = InFlightReady \/ st = Idle) /\ (si_state i <> InFlightWaiting -> st = Idle) ->
  pend ≡ₚ token_user (slot_token k i) :: pend' -> uring_core I0 N pend' P (with_ops u o').
Proof.
  intros Hc Hk Hs Ho Hb Hst Hp. destruct Hst as [Hst Hgu]. pose proof (over_rest i st Hst) as Hr. pose proof (uc_lanes _ _ _ _ _ Hc) as Hl.
  pose proof (proj2 (ln_bound _ _ _ _ _ _ Hl _ _ Hk)) as Hg. eapply core_ops; [exact Hc | done | |].
  - eapply steady_change; [apply (uc_steady _ _ _ _ _ Hc) | exact Hk | exact Hb |]. split; [by apply over_given_up | right; by left].
  - eapply lanes_complete; [exact Hl | exact Hk | exact Hb | exact Hg | exact Hs | by apply rest_not_air | by apply slot_ok_rest | by rewrite Hp].
Qed.

Lemma core_wheel I0 N pend P u w : uring_core I0 N pend P u -> wheel_std w -> clock_ok w (ud_last_timer_poll u) ->
  uring_core I0 N pend P (with_wheel u w).
Proof. intros [] Hw Hc. by split. Qed.

(** Shapes of states that are equal. *)
Lemma count_backlog u c B : count (with_backlog u B) c = with_backlog (count u c) B.
Proof. done. Qed.

Lemma flying_token token i : flying token i -> slot_token (Z.to_nat (tk_index token)) i = token.
Proof. intros (Hi & _ & Hg & _). unfold slot_token. rewrite Hg. destruct token. cbn in *. f_equal. lia. Qed.

Lemma count_info u c : slot_info (ud_ops (count u c)) = slot_info (ud_ops u).
Proof. done. Qed.

Variable flush : UringDriver -> outcome (UringDriver * result unit Report).

(** Completing locally: a queued operation, and one whose timer was taken out
    of the wheel. *)
Lemma local_cancel_queued I0 N N' pend u B' token mode i : uring_ok I0 N pend u ->
  slot_info (ud_ops u) (Z.to_nat (tk_index token)) = Some i -> flying token i -> quiet i ->
  (forall t, token_ok t -> Z.to_nat (tk_index t) <> Z.to_nat (tk_index token) -> t ∈ ud_backlog u -> t ∈ B') ->
  Forall token_ok B' -> (length B' <= N')%nat ->
  post (complete_local_cancel flush (with_backlog u B') token mode) (fun u' x => uring_ok I0 N' pend u').
Proof.
  intros Hc Hk Hf Hq HB HF HN. unfold complete_local_cancel. rewrite count_backlog.
  pose proof (count_core _ _ _ _ _ CancelLocalCompletedCount Hc) as Hc1. set (u1 := count u CancelLocalCompletedCount) in *.
  set (e := event_from_parts COMP_BACKEND_URING token (- ECANCELED) 0).
  destruct (accept_synthetic_ok flush (with_backlog u1 B') e SrcCancel (SynCancel mode) i) as (o' & st & x & -> & Ho & Hst & Hb);
    [apply (uc_reg _ _ _ _ _ Hc1) | done | done |].
  unfold and_then. rewrite bind_ret. apply post_ret. unfold uring_ok.
  eapply (core_over_quiet I0 N N' pend _ u1 B' _ i st o'); done.
Qed.

Lemma local_cancel_timer I0 N pend P u ops w token mode i i1 tid : uring_core I0 N pend P u ->
  slot_info (ud_ops u) (Z.to_nat (tk_index token)) = Some i -> timer_of i tid token ->
  reg_inv ops -> becomes (ud_ops u) (Z.to_nat (tk_index token)) i1 ops -> flying token i1 -> si_state i1 = si_state i ->
  wheel_std w -> clock_ok w (ud_last_timer_poll u) ->
  post (complete_local_cancel flush (with_wheel (with_ops u ops) w) token mode)
    (fun u' x => uring_core I0 N pend (delete tid P) u' /\ ud_wheel u' = w).
Proof.
  intros Hc Hk [Hf Htm] Hops Hb1 Hf1 Hsame Hw Hcl. unfold complete_local_cancel.
  set (u1 := count (with_wheel (with_ops u ops) w) CancelLocalCompletedCount).
  set (e := event_from_parts COMP_BACKEND_URING token (- ECANCELED) 0).
  assert (Hr1 : reg_inv (ud_ops u1)).
  { destruct (count_ops (with_wheel (with_ops u ops) w) CancelLocalCompletedCount) as (o & E & Hd & Ho).
    unfold u1. rewrite E. cbn. rewrite Ho. by apply reg_inv_only. }
  destruct (accept_synthetic_ok flush u1 e SrcCancel (SynCancel mode) i1) as (o' & st & x & -> & Ho & Hst & Hb);
    [done | exact (proj1 Hb1) | done |]. rewrite Hsame in Hst.
  unfold and_then. rewrite bind_ret. apply post_ret. split; [| done].
  assert (Hov : over i1 st = over i st).
  { unfold over, vacated. destruct Hf as (_ & _ & Hg & _ & Hlg & _), Hf1 as (_ & _ & Hg1 & _ & Hlg1 & _). congruence. }
  assert (Hbb : becomes (ud_ops u) (Z.to_nat (tk_index token)) (over i st) o').
  { rewrite <- Hov. eapply becomes_trans; [exact Hb1 | exact Hb]. }
  change (with_ops u1 o') with (with_wheel (with_ops u o') w).
  apply core_wheel; [| done | done]. eapply core_over_timer; [exact Hc | exact Hk | | done | exact Hbb | done].
  by rewrite (flying_token token i Hf).
Qed.
End over.

Section cancel.
Context `{Laws : IoUringLaws} `{UringPayloads} `{UringTimers} `{Registrar} `{RemoteLimit}.
Notation Ops := (OpRegistry (Spec := UringSlotSpec)).
Notation Info := (SlotInfo (Spec := UringSlotSpec)).
Implicit Types (u : UringDriver) (o : Ops) (i : Info) (k : nat).

(** ** Requests to the kernel *)

Lemma next_cancel_ok fuel : forall u, 1 <= ud_next_cancel_id u < 2 ^ 16 ->
  exists n id, next_cancel_id_loop fuel u = (with_next_cancel_id u n, id) /\ 1 <= n < 2 ^ 16 /\
    match id with Some id => 1 <= id < 2 ^ 16 /\ ud_pending_cancel_cqes u !! id = None | None => True end.
Proof.
  induction fuel as [| fuel IH]; intros u Hu; cbn [next_cancel_id_loop].
  { exists (ud_next_cancel_id u), None. split; [by destruct u | done]. }
  set (next := if wrapping_add U16 (ud_next_cancel_id u) 1 =? 0 then 1 else wrapping_add U16 (ud_next_cancel_id u) 1).
  assert (Hn : 1 <= next < 2 ^ 16).
  { unfold next, wrapping_add, wrap, U16. pose proof (Z.mod_pos_bound (ud_next_cancel_id u + 1) (2 ^ 16) ltac:(lia)).
    destruct (Z.eqb_spec ((ud_next_cancel_id u + 1) mod 2 ^ 16) 0); lia. }
  cbn [ud_pending_cancel_cqes with_next_cancel_id]. destruct (ud_pending_cancel_cqes u !! ud_next_cancel_id u) eqn:Hl.
  - destruct (IH (with_next_cancel_id u next) Hn) as (n & id & He & Hn' & Hid). exists n, id. split; [exact He | done].
  - exists next, (Some (ud_next_cancel_id u)). done.
Qed.

Lemma core_next I0 N pend P u n : uring_core I0 N pend P u -> 1 <= n < 2 ^ 16 -> uring_core I0 N pend P (with_next_cancel_id u n).
Proof. intros [] Hn. by split. Qed.

Lemma token_raw_range t : 0 <= t < 2 ^ 64 -> 0 <= token_raw t < 2 ^ 64.
Proof. done. Qed.

Lemma try_submit_ok I0 N pend u r : uring_ok I0 N pend u -> uring_ok I0 N pend (try_submit_cancel_request u r).1.
Proof.
  intros Hc. unfold try_submit_cancel_request, next_cancel_completion_id.
  destruct (next_cancel_ok (Z.to_nat U16_MAX) u (uc_cancel_id _ _ _ _ _ Hc)) as (n & id & -> & Hn & Hid).
  pose proof (core_next _ _ _ _ _ n Hc Hn) as Hc1. destruct id as [id |]; [| exact Hc1].
  destruct Hid as [Hid Hfree]. set (u1 := with_next_cancel_id u n) in *.
  assert (Hrange : 0 <= token_cancel id < 2 ^ 64) by (rewrite token_cancel_val by lia; lia).
  match goal with |- context [push_entry u1 ?e] => destruct (push_entry_ok u1 e) as (rg & b & -> & Ho) end.
  destruct b; cbn [fst]; [| by apply core_ring]. rewrite get_user_data in Ho by exact Hrange. change (token_raw (token_cancel id)) with (token_cancel id) in Ho.
  apply count_core. unfold uring_ok. pose proof (uc_lanes _ _ _ _ _ Hc1) as Hl. destruct Hc1. split; try done. cbn in *.
  assert (Hp : pend ++ outstanding rg ≡ₚ token_cancel id :: pend ++ outstanding (ud_ring u)).
  { rewrite Ho. by rewrite Permutation_middle. }
  assert (Hnin : token_cancel id ∉ pend ++ outstanding (ud_ring u)).
  { intros Hx. destruct (ln_out _ _ _ _ _ _ Hl _ Hx) as [(t & i & E & Hi & _) | [[E _] | (id' & E & Hid' & Hs)]].
    - exact (user_not_cancel t id ltac:(lia) ltac:(lia) (eq_sym E)).
    - exact (waker_not_cancel id ltac:(lia) (eq_sym E)).
    - apply token_cancel_inj in E as <-; [| lia | done]. cbn in Hs. rewrite Hfree in Hs. by destruct Hs. }
  eapply lanes_internal; [exact Hl | | | | done].
  - rewrite Hp. apply NoDup_cons. split; [done | apply (ln_nodup _ _ _ _ _ _ Hl)].
  - intros x. rewrite Hp, elem_of_cons. intros [-> | Hx].
    + right. right. exists id. split; [done |]. split; [lia |]. rewrite lookup_insert_eq. by eexists.
    + destruct (ln_out _ _ _ _ _ _ Hl _ Hx) as [Hu | [Hw | (id' & -> & Hid' & Hs)]]; [by left | by right; left |].
      right. right. exists id'. split; [done |]. split; [done |]. destruct (decide (id' = id)) as [-> | Hne].
      * rewrite lookup_insert_eq. by eexists.
      * by rewrite lookup_insert_ne by congruence.
  - intros k x _ Hx. rewrite Hp. by right.
Qed.

Lemma core_cancellations I0 N pend P u l : uring_core I0 N pend P u -> Forall (fun r => token_ok (pc_target r)) l ->
  uring_core I0 N pend P (with_cancellations u l).
Proof. intros [] Hl. by split. Qed.

Lemma submit_cancel_ok I0 N pend u r : uring_ok I0 N pend u -> token_ok (pc_target r) ->
  uring_ok I0 N pend (submit_cancel_request u r).1.
Proof.
  intros Hc Hr. unfold submit_cancel_request. pose proof (try_submit_ok _ _ _ _ r Hc) as Hc1.
  destruct (try_submit_cancel_request u r) as [u1 [id |]]; cbn [fst] in *; [done |]. apply count_core.
  apply core_cancellations; [done |]. apply Forall_app. split; [apply (uc_cancels _ _ _ _ _ Hc1) | by constructor].
Qed.

Lemma remove_first_elem token t l : t <> token -> t ∈ l -> t ∈ remove_first token l.
Proof.
  intros Hne. induction l as [| x l IH]; [done |]. cbn [remove_first]. intros [-> | Hx]%elem_of_cons.
  - rewrite bool_decide_eq_false_2 by congruence. by left.
  - destruct (bool_decide (x = token)); [done | right; auto].
Qed.

Lemma remove_first_sub token l : Forall token_ok l -> Forall token_ok (remove_first token l).
Proof.
  induction 1 as [| x l Hx Hl IH]; [constructor |]. cbn [remove_first]. destruct (bool_decide (x = token)); [done | by constructor].
Qed.

Lemma remove_first_length token l : (length (remove_first token l) <= length l)%nat.
Proof. induction l as [| x l IH]; [done |]. cbn [remove_first]. destruct (bool_decide (x = token)); cbn; lia. Qed.

(** ** [cancel_op_internal] *)

Variable flush : UringDriver -> outcome (UringDriver * result unit Report).

(** Where a flying operation is. *)
Lemma flight_place out B P k i : flight_ok out B P k i ->
  (submission_state (info_platform i) = UrQueued /\ timer_id (info_platform i) = None) \/
  info_platform i = mkOpState None UrKernelSubmitted \/
  exists tid d, info_platform i = mkOpState (Some tid) UrTimer /\ P !! tid = Some (d, slot_token k i).
Proof.
  intros (_ & _ & Hp). destruct (info_platform i) as [tm st] eqn:E. destruct st; cbn in *; [done | | |].
  - left. by destruct Hp as [-> _].
  - right. left. by destruct Hp as [-> _].
  - right. right. destruct Hp as (tid & d & -> & Hp). by exists tid, d.
Qed.

Lemma cancel_in_flight_ok I0 N pend u i d r mode otherwise : uring_ok I0 N pend u ->
  let token := pc_target r in
  slot_info (ud_ops u) (Z.to_nat (tk_index token)) = Some i -> flying token i ->
  in_flight (ud_ops u) token (si_state i) d (si_local i) ->
  (submitted token i -> post (otherwise u) (fun u' _ => uring_ok I0 N pend u')) ->
  post (cancel_in_flight flush u (flight_cell token d (si_local i)) r mode otherwise) (fun u' _ => uring_ok I0 N pend u').
Proof.
  intros Hc token Hk Hf Hin Hother. unfold cancel_in_flight. fold token.
  change (sl_platform (flight_cell token d (si_local i))) with (info_platform i).
  pose proof (uc_lanes _ _ _ _ _ Hc) as Hl. pose proof (ln_slot _ _ _ _ _ _ Hl _ _ Hk) as Hok.
  apply slot_ok_air in Hok; [| apply Hf]. destruct (flight_place _ _ _ _ _ Hok) as [[Hq Ht] | [Hp | (tid & due & Hp & HP)]].
  - rewrite Hq. rewrite bool_decide_eq_true_2 by done. destruct (uc_backlog _ _ _ _ _ Hc) as [HF HN].
    eapply post_try; [eapply (local_cancel_queued flush I0 N N pend u _ token mode i); try done | | done].
    + right. by rewrite Hq.
    + intros t Ht' Hne Hx. apply remove_first_elem; [| done]. intros ->. done.
    + by apply remove_first_sub.
    + pose proof (remove_first_length token (ud_backlog u)). lia.
    + intros u1 x Hc1. by apply post_ret.
  - rewrite Hp. cbn [submission_state timer_id]. rewrite bool_decide_eq_false_2 by done. by apply Hother.
  - rewrite Hp. cbn [submission_state timer_id]. rewrite bool_decide_eq_false_2 by done.
    set (c' := cell_platform _ _).
    assert (Hed : edited (flight_cell token d (si_local i)) c') by (by split_and!).
    pose proof Hin as (Hi & _ & Hloc & Hst & _).
    destruct (commit_info _ token _ c' (si_local i) (uc_reg _ _ _ _ _ Hc) Hi (flight_bundle _ _ _ _ _ Hin) Hloc) as (o1 & -> & Ho1 & Hb1 & _);
      [cbn; rewrite Hst; right; apply Hf | done |].
    rewrite bind_ret. destruct (cancel_std (ud_wheel u) tid (uc_wheel _ _ _ _ _ Hc)) as (Hw & Hg & Hpw).
    destruct (uc_clock _ _ _ _ _ Hc) as [Hck1 Hck2].
    pose proof (flying_token token i Hf) as Htok.
    eapply post_try; [eapply (local_cancel_timer flush I0 N pend _ u o1 _ token mode i _ tid Hc Hk); try done | | ].
    + cbn [c' cell_info si_state si_generation cell_platform flight_cell sl_entry]. destruct Hf as (_ & Ha & Hgen & Hact & Hlg & Hop & Hpl).
      split; [done |]. split; [cbn; by rewrite Hst |]. destruct Hin as (_ & _ & _ & _ & Hgd & _). by split.
    + split; cbn [ud_last_timer_poll]; by rewrite Hg.
    + intros u1 x [Hc1 Hw1]. apply post_ret. unfold uring_ok. by rewrite Hw1, Hpw.
    + intros u1 e [Hc1 Hw1]. unfold uring_ok. by rewrite Hw1, Hpw.
Qed.

(** A waiting operation is abandoned. *)
Lemma abandon_ok I0 N pend P u i d token : uring_core I0 N pend P u ->
  slot_info (ud_ops u) (Z.to_nat (tk_index token)) = Some i -> flying token i -> si_state i = InFlightWaiting ->
  in_flight (ud_ops u) token InFlightWaiting d (si_local i) ->
  exists o1, commit_slot (ud_ops u) (cancel_slot (flight_cell token d (si_local i))) = Ret o1 /\
    uring_core I0 N pend P (with_ops u o1).
Proof.
  intros Hc Hk Hf Hw Hin. pose proof Hin as (Hi & _ & Hloc & Hst & Hgd & _).
  assert (Hed : edited (flight_cell token d (si_local i)) (cancel_slot (flight_cell token d (si_local i)))).
  { split_and!; try done. intros _. right. by right. }
  destruct (commit_info _ token _ (cancel_slot (flight_cell token d (si_local i))) (si_local i) (uc_reg _ _ _ _ _ Hc) Hi
    (flight_bundle _ _ _ _ _ Hin) Hloc) as (o1 & -> & Ho1 & Hb1 & _); [cbn; rewrite Hst; right; by left | done |].
  exists o1. split; [done |]. set (i1 := cell_info _ _) in Hb1.
  assert (Hg1 : si_generation i1 = si_generation i) by (cbn; destruct Hf as (_ & _ & -> & _); exact Hgd).
  assert (Hl1 : si_local i1 = si_local i) by (unfold i1, cell_info; cbn; by destruct (si_local i)).
  pose proof (uc_lanes _ _ _ _ _ Hc) as Hl. pose proof (proj2 (ln_bound _ _ _ _ _ _ Hl _ _ Hk)) as Hg.
  assert (Ha : in_air i) by (by left). assert (Ha1 : in_air i1) by (by right).
  eapply core_ops; [exact Hc | done | |].
  - eapply steady_change; [apply (uc_steady _ _ _ _ _ Hc) | exact Hk | exact Hb1 |]. split; [by apply given_up_fresh; rewrite Hw |].
    right. right. by split_and!.
  - eapply lanes_flight; [exact Hl | exact Hk | exact Hb1 | by rewrite Hg1 | done | done | done | done].
Qed.

Lemma gone_ok I0 N pend P u token v : uring_core I0 N pend P u -> forall reason kind attach,
  cancel_target_kind token v = (reason, kind) ->
  exists u' x, accept_completion_anomaly_kind flush (record_cancel_target_gone u reason) kind attach = Ret (u', Ok x) /\
    uring_core I0 N pend P u' /\ ud_wheel u' = ud_wheel u.
Proof.
  intros Hc reason kind attach _. unfold record_cancel_target_gone. set (c := match reason with GoneMissing => _ | _ => _ end).
  pose proof (count_core _ _ _ _ _ c Hc) as Hc1. destruct (accept_anomaly_ok flush (count u c) kind attach) as (o' & x & -> & Hd & Ho).
  exists (with_ops (count u c) o'), x. split; [done |]. split; [| done]. rewrite Ho. apply core_same_ops; [done | |].
  - apply reg_inv_only; [apply (uc_reg _ _ _ _ _ Hc1) | done].
  - by apply same_info_diagnostics.
Qed.

(** A reserved slot is given back. *)
Lemma release_ok I0 N pend P u i token : uring_core I0 N pend P u -> token_ok token ->
  slot_info (ud_ops u) (Z.to_nat (tk_index token)) = Some i -> si_state i = Reserved ->
  exists o1 x, registry_remove (ud_ops u) token = Ret (o1, x) /\ uring_core I0 N pend P (with_ops u o1).
Proof.
  intros Hc Ht Hk Hr. destruct (remove_info (ud_ops u) token i (uc_reg _ _ _ _ _ Hc) Ht Hk) as (o1 & x & -> & Ho1 & _ & Hb).
  exists o1, x. split; [done |]. destruct (_ && _); [| destruct Hb as [_ ->]; by destruct u].
  destruct Hb as [_ Hb]. rewrite Hr in Hb. set (i1 := mkInfo _ _ _) in Hb. change (if state_eqb Reserved InFlightReady then InFlightReady else Idle) with Idle in i1.
  pose proof (uc_lanes _ _ _ _ _ Hc) as Hl. pose proof (proj2 (ln_bound _ _ _ _ _ _ Hl _ _ Hk)) as Hg.
  assert (Hrest : at_rest i1) by (by left). assert (Hna : ~ in_air i) by (unfold in_air; rewrite Hr; by intros [|]).
  eapply core_ops; [exact Hc | done | |].
  - eapply steady_change; [apply (uc_steady _ _ _ _ _ Hc) | exact Hk | exact Hb |]. split; [by apply given_up_idle | right; by left].
  - eapply lanes_calm; [exact Hl | exact Hk | exact Hb | exact Hg | by left | | by apply slot_ok_rest]. done.
Qed.

Lemma cancel_op_ok I0 N pend u r : uring_ok I0 N pend u -> token_ok (cn_target r) ->
  post (cancel_op_internal flush u r) (fun u' _ => uring_ok I0 N pend u').
Proof.
  intros Hc Ht. unfold cancel_op_internal. set (pr := pending_cancel_new r). change (cn_target r) with (pc_target pr) in Ht.
  remember (pc_target pr) as token eqn:Etok.
  assert (Hsub : forall u0, uring_ok I0 N pend u0 ->
    post (let (u, o) := submit_cancel_request u0 pr in ok u o) (fun u' _ => uring_ok I0 N pend u')).
  { intros u0 H0'. rewrite Etok in Ht. pose proof (submit_cancel_ok _ _ _ _ pr H0' Ht) as Hs. destruct (submit_cancel_request u0 pr). by apply post_ret. }
  destruct (view_total _ _ _ _ _ _ token (uc_lanes _ _ _ _ _ Hc) Ht) as (v & -> & Hv).
  destruct Hv as [v Hgone _ | i d Hk Hr Hg Hst Hres Hb | i d Hk Hst Hf Hin | i d Hk Hst Hf Hin].
  - destruct v as [c | a b | sn | sn]; [by destruct (Hgone c) | | |].
    all: match goal with |- context [cancel_target_kind ?t ?w] => destruct (cancel_target_kind t w) as [reason kind] eqn:E end.
    all: destruct (gone_ok I0 N pend _ u token _ Hc reason kind (attach_from_op_token token) E) as (u' & x & -> & Hc' & Hw);
      rewrite bind_ret; apply post_ret; unfold uring_ok; by rewrite Hw.
  - pose proof Hres as (_ & _ & Hop & _). change (sl_op (flight_cell token d (si_local i))) with (ls_op (si_local i)). rewrite Hop. cbn [is_some].
    rewrite bind_ret. destruct (release_ok I0 N pend _ u i token Hc Ht Hk Hr) as (o1 & x & -> & Hc1). rewrite bind_ret. by apply post_ret.
  - rewrite <- Hst in Hin. subst token; apply (cancel_in_flight_ok I0 N pend u i d pr); try done. intros _.
    destruct (pc_mode pr); [by apply Hsub |]. rewrite Hst in Hin.
    destruct (abandon_ok I0 N pend _ u i d _ Hc Hk Hf Hst Hin) as (o1 & -> & Hc1). rewrite bind_ret. by apply Hsub.
  - rewrite <- Hst in Hin. subst token; apply (cancel_in_flight_ok I0 N pend u i d pr); try done. intros _. by apply Hsub.
Qed.
End cancel.
