(* ===== verification/UringSubmit.v ===== *)
(** * Submitting operations keeps the driver's invariant

    New operations, those of the backlog, and the entry of the waker. *)

From stdpp Require Import strings gmap.
From S2P Require Import Prelude BitSet SlotMap WheelConfig Wheel Timers Token SlotState Anomaly SlotTable Completion Registry Flow RegistryInv CompletionSpec DriverSteps DriverSafety OpLifecycle SlotInfo DriverApi UringBase FileTable UringFrame UringOp UringHooks UringDriver UringInv UringState UringAccept UringCancel.

Section submit.
Context `{Laws : IoUringLaws} `{UringPayloads} `{UringTimers} `{Registrar} `{RemoteLimit} `{Clients : !UringClients}.
Notation Ops := (OpRegistry (Spec := UringSlotSpec)).
Notation Info := (SlotInfo (Spec := UringSlotSpec)).
Notation Cell := (SlotCell (Spec := UringSlotSpec)).
Implicit Types (u : UringDriver) (o : Ops) (i : Info) (k : nat) (c : Cell).

(** ** Building an entry *)

(** What becomes of the payload of an operation. *)
Definition payload_after (op : UringKernelOp) (p p' : option UringUserPayload) : Prop :=
  (is_Some p -> is_Some p') /\ (leaves_payload op -> p' = p).

Lemma payload_after_refl op p : payload_after op p p.
Proof. done. Qed.

Lemma payload_after_trans op p1 p2 p3 : payload_after op p1 p2 -> payload_after op p2 p3 -> payload_after op p1 p3.
Proof. intros [Hs1 Hp1] [Hs2 Hp2]. split; [auto |]. intros Hl. by rewrite Hp2, Hp1. Qed.

(** The cell is as before, but for its operation and payload. *)
Record entry_cell c c' : Prop := {
  en_entry : sl_entry c' = sl_entry c;
  en_index : sl_index c' = sl_index c;
  en_platform : sl_platform c' = sl_platform c;
  en_op : forall op, sl_op c = Some op -> exists op', sl_op c' = Some op' /\ ko_vtable op' = ko_vtable op;
  en_payload : is_Some (sg_payload (sl_storage c)) -> is_Some (sg_payload (sl_storage c'));
  en_same : forall op, sl_op c = Some op -> payload_after op (sg_payload (sl_storage c)) (sg_payload (sl_storage c'))
}.

Lemma entry_cell_refl c : entry_cell c c.
Proof. split; try done. intros op Hop. by exists op. Qed.

Lemma token_user_u64 t : token_ok t -> 0 <= token_user t < 2 ^ 64.
Proof. intros Ht. pose proof (user_token_range t Ht). lia. Qed.

Lemma make_entry_ok u token c op : token_ok token -> sl_op c = Some op -> kernel_op_ok op ->
  exists c' made, make_entry u token c = (c', made) /\ entry_cell c c' /\
    (is_Some (sg_payload (sl_storage c)) \/ exists e, made = Err e) /\
    match made with
    | Ok (chunks, sqe) => Forall (fun x => 0 <= x) chunks /\ entry_get_user_data sqe = token_user token
    | Err _ => True
    end.
Proof.
  intros Ht Hop Hok. unfold make_entry, with_op_and_payload_mut. rewrite Hop.
  destruct (sg_payload (sl_storage c)) as [p |] eqn:Hp.
  2: { eexists c, _. split; [reflexivity |]. split; [apply entry_cell_refl |]. split; [right; by eexists | done]. }
  destruct (vt_make_sqe _ _ _ _ _ _) as [[k' p'] sqe] eqn:Hmake. eexists _, _. split; [reflexivity |]. split.
  { split; cbn; try done; intros op' Hop'; rewrite Hop in Hop'; injection Hop' as <-; [by eexists |].
    split; [done |]. intros Hl. specialize (Hl (ko_payload op) p (ft_slots (ud_files u)) (ck_registered (ud_chunks u)) (mkSubmitContext token (token_user token))).
    rewrite Hmake in Hl. cbn in Hl. by rewrite Hl. }
  split; [left; by eexists |].
  destruct sqe as [e | er]; [| done]. split.
  - apply Forall_take, Hok.
  - apply get_user_data, token_user_u64, Ht.
Qed.

(** ** Giving back a slot *)

Lemma leave_ok {A} u token b c l (x : result A Report) : reg_inv (ud_ops u) -> token_ok token ->
  slot_bundle (ud_ops u) (tk_index token) = Some b -> rg_local (ud_ops u) !! Z.to_nat (tk_index token) = Some l ->
  in_use (slot_state (sl_entry b)) -> edited b c ->
  exists o', leave_slot u c x = Ret (with_ops u o', x) /\ reg_inv o' /\
    becomes (ud_ops u) (Z.to_nat (tk_index token)) (cell_info l c) o'.
Proof.
  intros Hr Ht Hb Hl Hu He. destruct (commit_info _ token b c l Hr Ht Hb Hl Hu He) as (o' & Hc & Ho & Hbec & _).
  exists o'. unfold leave_slot. by rewrite Hc, bind_ret.
Qed.

Lemma entry_edited c c' p : entry_cell c c' -> edited c (cell_platform c' p).
Proof. intros [He Hi _ _ _ _]. unfold edited. cbn. rewrite He, Hi. by split_and!. Qed.

(** ** Entries of the backlog *)

Section flying_cell.
Context (token : OpToken) (i : Info) (d : SlotData (Spec := UringSlotSpec)) (c : Cell)
  (Hf : flying token i) (Hst : slot_state d = si_state i) (Hg : slot_generation d = tk_generation token)
  (Hops : ops_ok i) (Hc : entry_cell (flight_cell token d (si_local i)) c).
Notation k := (Z.to_nat (tk_index token)).

Lemma entry_flying p : flying token (cell_info (si_local i) (cell_platform c p)).
Proof.
  destruct Hf as (Hi & Ha & _ & Hact & Hlg & [op Hop] & Hpl). destruct Hc as [He _ _ Ho Hp _]. cbn in He.
  split; [done |]. unfold cell_info. cbn. rewrite He, Hst, Hg. split_and!; try done.
  - destruct (Ho op Hop) as (op' & -> & _). by eexists.
  - by apply Hp.
Qed.

Lemma entry_ops p : ops_ok (cell_info (si_local i) (cell_platform c p)).
Proof.
  destruct Hf as (_ & _ & _ & _ & _ & [op Hop] & _). destruct Hc as [_ _ _ Ho _ _]. destruct (Ho op Hop) as (op' & Hop' & Hv).
  intros o. cbn. rewrite Hop'. intros [= <-]. unfold kernel_op_ok. rewrite Hv. by apply Hops.
Qed.

Lemma entry_token p : slot_token k (cell_info (si_local i) (cell_platform c p)) = token.
Proof. apply flying_token, entry_flying. Qed.
End flying_cell.

Lemma cell_platform_same c : cell_platform c (sl_platform c) = c.
Proof. by destruct c. Qed.

(** What flushing needs to know of a queued entry. *)
Definition still_queued token u : Prop :=
  exists i, slot_info (ud_ops u) (Z.to_nat (tk_index token)) = Some i /\ flying token i /\ quiet i.
Definition not_queued token u : Prop :=
  forall i, slot_info (ud_ops u) (Z.to_nat (tk_index token)) = Some i -> si_generation i = tk_generation token -> in_air i ->
    submission_state (info_platform i) <> UrQueued.

Lemma flying_generation token i : flying token i -> si_generation i = tk_generation token.
Proof. by intros (_ & _ & ? & _). Qed.

Section queued.
Context I0 N pend u i d token c (Hc : uring_ok I0 N pend u)
  (Hk : slot_info (ud_ops u) (Z.to_nat (tk_index token)) = Some i) (Hf : flying token i)
  (Hin : in_flight (ud_ops u) token InFlightWaiting d (si_local i)) (Hst : si_state i = InFlightWaiting)
  (Hplat : info_platform i = mkOpState None UrQueued) (Hops : ops_ok i)
  (Hen : entry_cell (flight_cell token d (si_local i)) c).
Notation k := (Z.to_nat (tk_index token)).

Lemma queued_quiet : quiet i.
Proof. right. by rewrite Hplat. Qed.

Lemma queued_generation : slot_generation d = tk_generation token.
Proof. apply Hin. Qed.

(** The slot is given back in another submission state. *)
Lemma queued_leave {A} u1 st (x : result A Report) : ud_ops u1 = ud_ops u ->
  exists o' i1, leave_slot u1 (set_submission_state c st) x = Ret (with_ops u1 o', x) /\ reg_inv o' /\
    becomes (ud_ops u) k i1 o' /\ flying token i1 /\ ops_ok i1 /\ info_platform i1 = mkOpState None st /\
    si_generation i1 = si_generation i.
Proof.
  intros Eo. pose proof Hin as (Hti & _ & Hloc & Hsd & Hgd & _).
  destruct (leave_ok u1 token (flight_cell token d (si_local i)) (set_submission_state c st) (si_local i) x)
    as (o' & He & Ho & Hb); rewrite ?Eo;
    [apply (uc_reg _ _ _ _ _ Hc) | done | by eapply flight_bundle | done | cbn; rewrite Hsd; right; by left | by apply entry_edited |].
  rewrite Eo in Hb. unfold set_submission_state in Hb. rewrite (en_platform _ _ Hen) in Hb.
  change (sl_platform (flight_cell token d (si_local i))) with (info_platform i) in Hb. rewrite Hplat in Hb.
  assert (Hsi : slot_state d = si_state i) by congruence.
  eexists o', _. split; [exact He |]. split; [done |]. split; [exact Hb |].
  assert (Hf1 := entry_flying token i d c Hf Hsi Hgd Hen (mkOpState None st)). split; [exact Hf1 |].
  split; [eapply entry_ops; done |]. split; [done |].
  rewrite (flying_generation _ _ Hf). exact (flying_generation _ _ Hf1).
Qed.

(** Still queued. *)
Lemma queued_again u1 o' i1 : uring_ok I0 N pend u1 -> ud_ops u1 = ud_ops u -> ud_backlog u1 = ud_backlog u ->
  reg_inv o' -> becomes (ud_ops u) k i1 o' -> flying token i1 -> ops_ok i1 -> info_platform i1 = mkOpState None UrQueued ->
  uring_ok I0 N pend (with_ops u1 o') /\ still_queued token (with_ops u1 o').
Proof.
  intros Hc1 Eo Eb Ho Hb Hf1 Hops1 Hp1. assert (Hq1 : quiet i1) by (right; by rewrite Hp1).
  split; [| exists i1; split; [apply Hb | done]].
  pose proof (uc_lanes _ _ _ _ _ Hc1) as Hl1. rewrite Eo in Hl1.
  pose proof (ln_slot _ _ _ _ _ _ Hl1 _ _ Hk) as Hok. apply slot_ok_air in Hok; [| apply Hf].
  destruct Hok as (_ & _ & Hpl). rewrite Hplat, (flying_token token i Hf) in Hpl. destruct Hpl as [_ HB].
  assert (Hg : 0 <= si_generation i1).
  { rewrite (flying_generation _ _ Hf1), <- (flying_generation _ _ Hf). apply (ln_bound _ _ _ _ _ _ Hl1 _ _ Hk). }
  eapply core_ops; [exact Hc1 | done | |].
  - eapply steady_change; [apply (uc_steady _ _ _ _ _ Hc) | exact Hk | exact Hb |].
    split; [by apply given_up_fresh; rewrite Hst | left]. split; [apply queued_quiet |].
    intros [E | E]; congruence.
  - eapply lanes_calm; [exact Hl1 | exact Hk | exact Hb | done | apply queued_quiet | done |].
    apply slot_ok_air; [apply Hf1 |]. unfold flight_ok. rewrite (flying_token token i1 Hf1), Hp1. done.
Qed.

(** Submitted. *)
Lemma queued_submitted u1 r o' i1 : uring_ok I0 N pend u1 -> ud_ops u1 = ud_ops u ->
  outstanding r ≡ₚ token_user token :: outstanding (ud_ring u1) ->
  reg_inv o' -> becomes (ud_ops u) k i1 o' -> flying token i1 -> ops_ok i1 -> info_platform i1 = mkOpState None UrKernelSubmitted ->
  uring_ok I0 N pend (with_ops (with_ring u1 r) o') /\ not_queued token (with_ops (with_ring u1 r) o').
Proof.
  intros Hc1 Eo Hr Ho Hb Hf1 Hops1 Hp1. split.
  2: { intros i2 Hi2 _ _. cbn in Hi2. rewrite (proj1 Hb) in Hi2. injection Hi2 as <-. by rewrite Hp1. }
  pose proof (uc_lanes _ _ _ _ _ Hc1) as Hl1. rewrite Eo in Hl1.
  assert (Hg : 0 <= si_generation i1).
  { rewrite (flying_generation _ _ Hf1), <- (flying_generation _ _ Hf). apply (ln_bound _ _ _ _ _ _ Hl1 _ _ Hk). }
  eapply (core_slots I0 N pend pend _ _ u1 r (ud_chunks u1) o'); [exact Hc1 | done | | apply (uc_chunks _ _ _ _ _ Hc1) |].
  - eapply steady_change; [apply (uc_steady _ _ _ _ _ Hc) | exact Hk | exact Hb |].
    split; [by apply given_up_fresh; rewrite Hst | left]. split; [apply queued_quiet |].
    intros [E | E]; congruence.
  - eapply lanes_submit; [exact Hl1 | exact Hk | exact Hb | done | apply queued_quiet | | done |].
    + split; [| done]. by rewrite (flying_token token i1 Hf1).
    + rewrite (flying_token token i1 Hf1), Hr. by rewrite Permutation_middle.
Qed.
End queued.

Lemma set_state_same c st : submission_state (sl_platform c) = st -> set_submission_state c st = c.
Proof. intros <-. unfold set_submission_state. destruct c as [a b e p x]. cbn. by destruct p. Qed.

Lemma core_prep I0 N pend u r ck : uring_ok I0 N pend u -> outstanding r ≡ₚ outstanding (ud_ring u) -> chunks_ok ck ->
  uring_ok I0 N pend (with_chunks (with_ring u r) ck).
Proof. intros Hc Hr Hck. apply core_chunks; [by apply core_ring | done]. Qed.

Lemma submit_queued_ok I0 N pend u i d token : uring_ok I0 N pend u ->
  slot_info (ud_ops u) (Z.to_nat (tk_index token)) = Some i -> flying token i ->
  in_flight (ud_ops u) token InFlightWaiting d (si_local i) -> si_state i = InFlightWaiting ->
  submission_state (info_platform i) = UrQueued ->
  post (submit_queued_from_slot_raw u token (flight_cell token d (si_local i))) (fun u' x =>
    uring_ok I0 N pend u' /\ ud_backlog u' = ud_backlog u /\
    match x with Ok true => not_queued token u' | Ok false => True | Err _ => still_queued token u' end).
Proof.
  intros Hc Hk Hf Hin Hst Hq. pose proof (ln_slot _ _ _ _ _ _ (uc_lanes _ _ _ _ _ Hc) _ _ Hk) as Hok.
  apply slot_ok_air in Hok; [| apply Hf]. pose proof Hok as (_ & Hops & Hpl). rewrite Hq in Hpl.
  assert (Hplat : info_platform i = mkOpState None UrQueued) by (destruct (info_platform i), Hpl; cbn in *; congruence).
  pose proof (proj1 Hf) as Hti. unfold submit_queued_from_slot_raw.
  change (sl_platform (flight_cell token d (si_local i))) with (info_platform i).
  change (sl_op (flight_cell token d (si_local i))) with (ls_op (si_local i)).
  rewrite Hq, bool_decide_eq_true_2 by done. cbn [negb]. pose proof Hf as (_ & _ & _ & _ & _ & [op Hop] & _). rewrite Hop.
  destruct (negb _).
  { apply post_ret. split; [done |]. split; [done |]. exists i. split_and!; try done. by eapply queued_quiet. }
  destruct (make_entry_ok u token (flight_cell token d (si_local i)) op Hti Hop (Hops op Hop)) as (c & made & -> & Hen & _ & Hmade).
  assert (Hsame : set_submission_state c UrQueued = c).
  { apply set_state_same. rewrite (en_platform _ _ Hen). change (sl_platform (flight_cell token d (si_local i))) with (info_platform i). by rewrite Hplat. }
  assert (Hquit : forall u1 e, uring_ok I0 N pend u1 -> ud_ops u1 = ud_ops u -> ud_backlog u1 = ud_backlog u ->
    post (leave_slot u1 c (Err e)) (fun u' x => uring_ok I0 N pend u' /\ ud_backlog u' = ud_backlog u /\
      match x with Ok true => not_queued token u' | Ok false => True | Err _ => still_queued token u' end)).
  { intros u1 e Hc1 Eo Eb. rewrite <- Hsame.
    destruct (queued_leave I0 N pend u i d token c Hc Hf Hin Hst Hplat Hops Hen u1 UrQueued (Err e : result bool Report) Eo) as (o' & i1 & -> & Ho & Hb & Hf1 & Hops1 & Hp1 & _).
    apply post_ret. destruct (queued_again I0 N pend u i token Hc Hk Hf Hst Hplat u1 o' i1 Hc1 Eo Eb Ho Hb Hf1 Hops1 Hp1). done. }
  destruct made as [[chunks sqe] | e]; [| by apply Hquit]. destruct Hmade as [Hch Hud].
  eapply post_bind; [apply register_missing_ok; [apply (uc_chunks _ _ _ _ _ Hc) | done] |].
  intros u1 x (r & ck & -> & Hr & Hck). pose proof (core_prep _ _ _ _ r ck Hc Hr Hck) as Hc1.
  set (u1 := with_chunks (with_ring u r) ck) in *. destruct x as [[] | e]; [| by apply Hquit].
  destruct (push_entry_ok u1 sqe) as (r2 & b & -> & Ho2). rewrite Hud in Ho2.
  destruct (queued_leave I0 N pend u i d token c Hc Hf Hin Hst Hplat Hops Hen (with_ring u1 r2) (if b then UrKernelSubmitted else UrQueued) (Ok b : result bool Report) eq_refl)
    as (o' & i1 & -> & Ho & Hb & Hf1 & Hops1 & Hp1 & _). apply post_ret. destruct b.
  - by destruct (queued_submitted I0 N pend u i token Hc Hk Hf Hst Hplat u1 r2 o' i1 Hc1 eq_refl Ho2 Ho Hb Hf1 Hops1 Hp1).
  - pose proof (core_ring _ _ _ _ _ r2 Hc1 Ho2) as Hc2.
    by destruct (queued_again I0 N pend u i token Hc Hk Hf Hst Hplat (with_ring u1 r2) o' i1 Hc2 eq_refl eq_refl Ho Hb Hf1 Hops1 Hp1).
Qed.
End submit.
