(* ===== verification/UringFlush.v ===== *)
(** * Flushing the backlog, and new submissions

    [flush_backlog] returns and keeps the invariant; a submission takes a
    reserved slot to the kernel, to the wheel or to the backlog, or gives it
    back without its operation; the waker is armed and its reads are taken. *)

From stdpp Require Import strings gmap.
From S2P Require Import Prelude BitSet SlotMap WheelConfig Wheel Timers Token SlotState Anomaly SlotTable Completion Registry Flow RegistryInv CompletionSpec DriverSteps DriverSafety OpLifecycle SlotInfo DriverApi UringBase FileTable UringFrame UringOp UringHooks UringDriver UringInv UringState UringAccept UringCancel UringSubmit.

Section flush.
Context `{Laws : IoUringLaws} `{UringPayloads} `{UringTimers} `{Registrar} `{RemoteLimit} `{Clients : !UringClients}.
Notation Ops := (OpRegistry (Spec := UringSlotSpec)).
Notation Info := (SlotInfo (Spec := UringSlotSpec)).
Implicit Types (u : UringDriver) (o : Ops) (i : Info) (k : nat).

(** An entry leaves the backlog when its operation is not queued. *)
Lemma core_pop I0 N pend P u token B : uring_core I0 (S N) pend P u -> ud_backlog u = token :: B -> not_queued token u ->
  uring_core I0 N pend P (pop_backlog u).
Proof.
  intros Hc HB Hq. pose proof (uc_lanes _ _ _ _ _ Hc) as [Hb Hn Ho Hs Ht]. destruct (uc_backlog _ _ _ _ _ Hc) as [HF HN].
  rewrite HB in Hs, HF, HN. cbn [length] in HN. apply Forall_cons in HF as [Htok HF]. destruct Hc. split; try done.
  - cbn. rewrite HB. split; [done | done | done | | done]. intros k i Hk. specialize (Hs k i Hk).
    destruct (decide (in_air i)) as [Ha | Ha].
    + apply slot_ok_air in Hs; [| done]. apply slot_ok_air; [done |]. destruct Hs as (Hf & Hops & Hp).
      split; [done |]. split; [done |]. destruct (submission_state (info_platform i)) eqn:Hst; try done.
      destruct Hp as [Htm Hin]. split; [done |]. apply elem_of_cons in Hin as [E | Hin]; [| done].
      exfalso. apply (Hq i); [| by rewrite <- E | done | done]. rewrite <- E. cbn. by rewrite Nat2Z.id.
    + unfold slot_ok in *. destruct (si_state i) eqn:E; try done; exfalso; apply Ha; [by left | by right].
  - cbn. rewrite HB. split; [done | cbn [tail]; lia].
Qed.

Lemma not_queued_view o token v u : view_case o token v -> o = ud_ops u ->
  backlog_action v = DropEntry \/ backlog_action v = CancelKernel -> not_queued token u.
Proof.
  intros Hv -> Ha i' Hi' Hg Hair Hq. destruct Hv as [v _ Hno | i d Hk Hr | i d Hk Hst Hf Hin | i d Hk Hst Hf Hin].
  - by apply (Hno i'); [| | left].
  - rewrite Hk in Hi'. injection Hi' as <-. destruct Hair; congruence.
  - rewrite Hk in Hi'. injection Hi' as <-. cbn in Ha. change (ls_platform (si_local i)) with (info_platform i) in Ha.
    rewrite Hq in Ha. by destruct Ha.
  - rewrite Hk in Hi'. injection Hi' as <-. cbn in Ha. change (ls_platform (si_local i)) with (info_platform i) in Ha.
    rewrite Hq in Ha. by destruct Ha.
Qed.

Lemma tail_others token B t k : Z.to_nat (tk_index token) = k -> Z.to_nat (tk_index t) <> k -> t ∈ token :: B -> t ∈ B.
Proof. intros <- Hne [-> | Hin]%elem_of_cons; [by destruct Hne | done]. Qed.

Lemma core_same_backlog I0 N N' pend P u B : uring_core I0 N pend P u -> ud_backlog u = B -> (length B <= N')%nat -> uring_core I0 N' pend P u.
Proof. intros [] <- HN. split; try done. by destruct uc_backlog. Qed.

Lemma flush_loop_ok fuel : forall I0 pend u, uring_ok I0 fuel pend u ->
  post (flush_loop fuel u) (fun u' _ => uring_ok I0 fuel pend u').
Proof.
  induction fuel as [| fuel IH]; intros I0 pend u Hc.
  { destruct (uc_backlog _ _ _ _ _ Hc) as [_ HN]. cbn [flush_loop]. destruct (ud_backlog u); [by apply post_ret | cbn in HN; lia]. }
  assert (Hgo : forall u1, uring_ok I0 fuel pend u1 -> post (flush_loop fuel u1) (fun u' _ => uring_ok I0 (S fuel) pend u')).
  { intros u1 Hc1. eapply post_mono; [by apply IH |]. intros u2 x Hc2. eapply uring_core_weaken; [| exact Hc2]. lia. }
  cbn [flush_loop]. destruct (ud_backlog u) as [| token B] eqn:HB; [by apply post_ret |].
  destruct (uc_backlog _ _ _ _ _ Hc) as [HF HN]. rewrite HB in HF, HN. cbn [length] in HN.
  apply Forall_cons in HF as [Ht HF]. assert (Hpop : pop_backlog u = with_backlog u B) by (unfold pop_backlog; by rewrite HB).
  destruct (view_total _ _ _ _ _ _ token (uc_lanes _ _ _ _ _ Hc) Ht) as (v & He & Hv). rewrite He.
  pose proof (not_queued_view _ token v u Hv eq_refl) as Hnq.
  destruct (backlog_action v) eqn:Ha.
  - (* a reserved slot has no operation *)
    exfalso. destruct Hv as [v Hgone _ | i d Hk Hr Hg Hsd Hres _ | i d Hk Hst Hf Hin | i d Hk Hst Hf Hin]; cbn in Ha.
    + by destruct v as [c | | |]; [destruct (Hgone c) | ..].
    + destruct Hres as (_ & _ & Hop & _). by rewrite Hop in Ha.
    + by destruct (bool_decide _).
    + by destruct (bool_decide _).
  - destruct Hv as [v Hgone _ | i d Hk Hr Hg Hsd Hres _ | i d Hk Hst Hf Hin | i d Hk Hst Hf Hin]; cbn in Ha.
    + by destruct v as [c | | |]; [destruct (Hgone c) | ..].
    + by destruct (is_some _).
    + destruct (bool_decide_reflect (submission_state (ls_platform (si_local i)) = UrQueued)) as [Hq |]; [| done].
      eapply post_bind; [by eapply (submit_queued_ok I0 (S fuel) pend u i d token) |].
      intros u1 x (Hc1 & HB1 & Hx). rewrite HB in HB1. destruct x as [[|] | e].
      * apply Hgo. by eapply core_pop.
      * by apply post_ret.
      * destruct Hx as (i1 & Hk1 & Hf1 & Hq1). unfold complete_queued_submission_error.
        set (ev := event_from_parts COMP_BACKEND_URING token _ 0).
        assert (Hpop1 : pop_backlog u1 = with_backlog u1 B) by (unfold pop_backlog; by rewrite HB1). rewrite Hpop1.
        destruct (accept_synthetic_ok (flush_loop fuel) (with_backlog u1 B) ev SrcSubmissionFailure (SynSubmissionFailure (Some e)) i1)
          as (o' & st & y & -> & Ho & Hst' & Hb); [apply (uc_reg _ _ _ _ _ Hc1) | done | done |].
        rewrite !bind_ret. apply Hgo. eapply (core_over_quiet I0 (S fuel) fuel pend _ u1 B _ i1 st o'); try done; [| lia].
        intros t Ht' Hne. rewrite HB1. by eapply tail_others.
    + by destruct (bool_decide _).
  - (* an abandoned operation that was never submitted *)
    destruct Hv as [v Hgone _ | i d Hk Hr Hg Hsd Hres _ | i d Hk Hst Hf Hin | i d Hk Hst Hf Hin]; cbn in Ha.
    + by destruct v as [c | | |]; [destruct (Hgone c) | ..].
    + by destruct (is_some _).
    + by destruct (bool_decide _).
    + destruct (bool_decide_reflect (submission_state (ls_platform (si_local i)) = UrQueued)) as [Hq |]; [| done].
      rewrite Hpop. eapply post_try; [eapply (local_cancel_queued _ I0 (S fuel) fuel pend u B token Abandon i); try done; [| | lia] | |].
      * right. unfold info_platform. by rewrite Hq.
      * intros t Ht' Hne. rewrite HB. by eapply tail_others.
      * intros u1 x Hc1. by apply Hgo.
      * intros u1 e Hc1. eapply uring_core_weaken; [| exact Hc1]. lia.
  - pose proof (core_pop I0 fuel pend _ u token B Hc HB (Hnq (or_intror eq_refl))) as Hc1.
    eapply post_try; [by apply (cancel_op_ok _ I0 fuel pend) | |].
    + intros u1 x Hc2. by apply Hgo.
    + intros u1 e Hc2. eapply uring_core_weaken; [| exact Hc2]. lia.
  - apply Hgo. by eapply core_pop, Hnq; [| | left].
Qed.

Lemma flush_backlog_ok I0 N pend u : uring_ok I0 N pend u -> post (flush_backlog u) (fun u' _ => uring_ok I0 N pend u').
Proof.
  intros Hc. destruct (uc_backlog _ _ _ _ _ Hc) as [_ HN]. eapply post_mono; [apply flush_loop_ok |].
  - by eapply core_same_backlog.
  - intros u1 x Hc1. by eapply uring_core_weaken.
Qed.

(** ** A new operation *)

Lemma in_use_reserved (d : SlotData (Spec := UringSlotSpec)) : slot_state d = Reserved -> in_use (slot_state d).
Proof. intros ->. by left. Qed.

(** What a failed submission leaves in its slot. *)
Definition unsubmitted u token op (i : Info) u' : Prop :=
  exists r ck o' i', u' = with_ops (with_chunks (with_ring u r) ck) o' /\ outstanding r ≡ₚ outstanding (ud_ring u) /\
    chunks_ok ck /\ reg_inv o' /\ becomes (ud_ops u) (Z.to_nat (tk_index token)) i' o' /\ si_state i' = Reserved /\
    si_generation i' = si_generation i /\ ls_active (si_local i') = true /\
    ls_generation (si_local i') = si_generation i /\ info_platform i' = op_state_new /\
    payload_after op (sg_payload (ls_storage (si_local i))) (sg_payload (ls_storage (si_local i'))).

(** What the one who submits finds afterwards: the operation is in flight, or
    its payload can be taken back. *)
Definition went_off u token : Prop :=
  exists i, slot_info (ud_ops u) (Z.to_nat (tk_index token)) = Some i /\ si_state i = InFlightWaiting /\
    si_generation i = tk_generation token.
Definition left_behind u token op (payload : option UringUserPayload) : Prop :=
  exists i, slot_info (ud_ops u) (Z.to_nat (tk_index token)) = Some i /\ si_state i = Reserved /\
    si_generation i = tk_generation token /\ payload_after op payload (sg_payload (ls_storage (si_local i))).
Definition answers u token op (payload : option UringUserPayload) (x : DriverSubmitResult Report) : Prop :=
  match x with
  | Submitted _ => went_off u token
  | SubmitFailed _ InFlight => False
  | SubmitFailed _ Void => left_behind u token op payload
  end.

Section new_op.
Context I0 N pend u i d token op (Hc : uring_ok I0 N pend u)
  (Hk : slot_info (ud_ops u) (Z.to_nat (tk_index token)) = Some i) (Hst : si_state i = Reserved)
  (Hg : si_generation i = tk_generation token) (Hsd : slot_state d = Reserved) (Hres : reserved_ok i)
  (Hb : slot_bundle (ud_ops u) (tk_index token) = Some (flight_cell token d (si_local i)))
  (Ht : token_ok token) (Hop : kernel_op_ok op).
Notation k := (Z.to_nat (tk_index token)).
Notation Cell := (SlotCell (Spec := UringSlotSpec)).

Lemma reserved_parts : rg_local (ud_ops u) !! k = Some (si_local i) /\ slot_generation d = tk_generation token.
Proof.
  apply slot_info_parts in Hk as (d' & Hd & Hl & _ & Hg'). split; [done |].
  unfold slot_bundle in Hb. rewrite Hd, Hl in Hb. injection Hb as ->. congruence.
Qed.

Lemma reserved_quiet : quiet i /\ ~ at_rest i.
Proof. split; [left; unfold in_air; rewrite Hst; by intros [|] | intros [E | E]; congruence]. Qed.

(** The slot that the guard holds: it is waiting, and has the operation. *)
Definition op_cell (c : Cell) : Prop :=
  sl_entry c = slot_set_state InFlightWaiting d /\ sl_index c = tk_index token /\ sl_platform c = op_state_new /\
  payload_after op (sg_payload (ls_storage (si_local i))) (sg_payload (sl_storage c)) /\
  exists op', sl_op c = Some op' /\ ko_vtable op' = ko_vtable op.

Lemma op_cell_edited (c : Cell) p st : op_cell c -> in_use st ->
  edited (flight_cell token d (si_local i)) (cell_entry (cell_platform c p) (slot_set_state st (sl_entry c))).
Proof. intros (He & Hi & _) Hu. unfold edited. cbn. rewrite He, Hi. by split_and!. Qed.

Lemma waiting_same (c : Cell) p : op_cell c ->
  cell_platform c p = cell_entry (cell_platform c p) (slot_set_state InFlightWaiting (sl_entry c)).
Proof. intros (He & _). destruct c. cbn in *. by rewrite He. Qed.

Lemma commit_op_cell (c : Cell) p st : op_cell c -> in_use st ->
  exists o', commit_slot (ud_ops u) (cell_entry (cell_platform c p) (slot_set_state st (sl_entry c))) = Ret o' /\ reg_inv o' /\
    becomes (ud_ops u) k (mkInfo st (si_generation i)
      (mkLocal (sl_op c) p (sl_storage c) true (tk_generation token))) o'.
Proof.
  intros Hcell Hu. destruct reserved_parts as [Hl Hgd]. pose proof Hres as (Hact & Hlg & _).
  destruct (commit_info (ud_ops u) token _ _ (si_local i) (uc_reg _ _ _ _ _ Hc) Ht Hb Hl (in_use_reserved d Hsd) (op_cell_edited c p st Hcell Hu))
    as (o' & He & Ho & Hbec & _). exists o'. split; [exact He |]. split; [done |]. destruct Hcell as (Hen & _).
  unfold cell_info in Hbec. cbn in Hbec. rewrite Hen in Hbec. cbn in Hbec. rewrite Hact, Hlg, Hg in Hbec. rewrite Hg.
  unfold slot_generation in Hgd. by rewrite Hgd in Hbec.
Qed.

(** Giving up. *)
Lemma abort_ok {A} r ck (c : Cell) e : op_cell c -> outstanding r ≡ₚ outstanding (ud_ring u) -> chunks_ok ck ->
  post (leave_slot (with_chunks (with_ring u r) ck) (dropped_guard c) (Err e : result A Report))
    (fun u' x => x = Err e /\ unsubmitted u token op i u').
Proof.
  intros Hcell Hr Hck. destruct (commit_op_cell c op_state_new Reserved Hcell) as (o' & He & Ho & Hbec); [by left |].
  assert (Hd : dropped_guard c = cell_entry (cell_platform c op_state_new) (slot_set_state Reserved (sl_entry c))).
  { destruct Hcell as (_ & _ & Hp & _). unfold dropped_guard. cbn. rewrite <- Hp. by destruct c. }
  unfold leave_slot. rewrite Hd. change (ud_ops (with_chunks (with_ring u r) ck)) with (ud_ops u). rewrite He, bind_ret. apply post_ret.
  split; [done |]. eexists r, ck, o', _. split; [done |]. split; [done |]. split; [done |]. split; [done |]. split; [exact Hbec |].
  destruct Hcell as (_ & _ & _ & Hkeep & _). by rewrite Hg.
Qed.

(** The slot after a submission. *)
Lemma submitted_flying (c : Cell) p : op_cell c -> is_Some (sg_payload (sl_storage c)) ->
  let i' := mkInfo InFlightWaiting (si_generation i) (mkLocal (sl_op c) p (sl_storage c) true (tk_generation token)) in
  flying token i' /\ ops_ok i' /\ slot_token k i' = token /\ 0 <= si_generation i'.
Proof.
  intros (_ & _ & _ & _ & op' & Ho & Hv) Hp i'. assert (Hok : kernel_op_ok op') by (unfold kernel_op_ok; rewrite Hv; exact Hop). assert (Hf : flying token i').
  { split; [done |]. split; [by left |]. split; [done |]. split; [done |]. split; [done |]. split; [| done]. cbn. rewrite Ho. by eexists. }
  split; [done |]. split; [intros o; cbn; rewrite Ho; by intros [= <-] |]. split; [by apply flying_token |].
  apply (ln_bound _ _ _ _ _ _ (uc_lanes _ _ _ _ _ Hc) _ _ Hk).
Qed.

Lemma steady_new i' o' : becomes (ud_ops u) k i' o' -> steady I0 (slot_info o').
Proof.
  intros Hbec. eapply steady_change; [apply (uc_steady _ _ _ _ _ Hc) | exact Hk | exact Hbec |].
  split; [by apply given_up_fresh; rewrite Hst | left; apply reserved_quiet].
Qed.

Lemma new_queued (c : Cell) r ck : op_cell c -> is_Some (sg_payload (sl_storage c)) ->
  outstanding r ≡ₚ outstanding (ud_ring u) -> chunks_ok ck ->
  post (leave_slot (with_chunks (with_ring u r) ck) (set_submission_state c UrQueued) (Ok false : result bool Report))
    (fun u' x => x = Ok false /\ uring_ok I0 (S N) pend (push_backlog u' token) /\ went_off u' token).
Proof.
  intros Hcell Hp Hr Hck. pose proof Hcell as (_ & _ & Hplat & _). unfold set_submission_state. rewrite Hplat.
  set (p := mkOpState _ UrQueued). rewrite (waiting_same c p Hcell).
  destruct (commit_op_cell c p InFlightWaiting Hcell) as (o' & He & Ho & Hbec); [right; by left |].
  destruct (submitted_flying c p Hcell Hp) as (Hf & Hops & Htok & Hgen). set (i' := mkInfo _ _ _) in *.
  unfold leave_slot. change (ud_ops (with_chunks (with_ring u r) ck)) with (ud_ops u). rewrite He, bind_ret. apply post_ret.
  split; [done |]. pose proof (core_prep I0 N pend u r ck Hc Hr Hck) as Hc1. split; [| exists i'; split; [exact (proj1 Hbec) | split; [done | apply Hf]]].
  assert (Hl : lanes (slot_info o') (pend ++ outstanding r) (ud_backlog u ++ [token]) (wheel_pending (ud_wheel u))
    (ud_pending_cancel_cqes u) (wk_armed (ud_waker u))).
  { assert (Hl0 : lanes (slot_info (ud_ops u)) (pend ++ outstanding r) (ud_backlog u ++ [token]) (wheel_pending (ud_wheel u))
      (ud_pending_cancel_cqes u) (wk_armed (ud_waker u))).
    { pose proof (uc_lanes _ _ _ _ _ Hc1) as Hl1. eapply lanes_internal; [exact Hl1 | apply (ln_nodup _ _ _ _ _ _ Hl1) | apply (ln_out _ _ _ _ _ _ Hl1) | done |].
      intros t. rewrite elem_of_app. auto. }
    eapply lanes_calm; [exact Hl0 | exact Hk | exact Hbec | done | apply reserved_quiet | done |].
    apply slot_ok_air; [apply Hf |]. split; [by rewrite Htok |]. split; [done |]. rewrite Htok. cbn. split; [done |].
    apply elem_of_app. right. by left. }
  destruct (uc_backlog _ _ _ _ _ Hc1) as [HF HN]. pose proof (steady_new i' o' Hbec) as Hs. destruct Hc1. split; try done.
  split; [by apply Forall_app_2; [| constructor] |]. cbn in *. rewrite length_app. cbn. lia.
Qed.

Lemma new_submitted (c : Cell) r0 r ck : op_cell c -> is_Some (sg_payload (sl_storage c)) ->
  outstanding r0 ≡ₚ outstanding (ud_ring u) -> outstanding r ≡ₚ token_user token :: outstanding r0 -> chunks_ok ck ->
  post (leave_slot (with_ring (with_chunks (with_ring u r0) ck) r) (set_submission_state c UrKernelSubmitted) (Ok true : result bool Report))
    (fun u' x => x = Ok true /\ uring_ok I0 N pend u' /\ went_off u' token).
Proof.
  intros Hcell Hp Hr0 Hr Hck. pose proof Hcell as (_ & _ & Hplat & _). unfold set_submission_state. rewrite Hplat.
  set (p := mkOpState _ UrKernelSubmitted). rewrite (waiting_same c p Hcell).
  destruct (commit_op_cell c p InFlightWaiting Hcell) as (o' & He & Ho & Hbec); [right; by left |].
  destruct (submitted_flying c p Hcell Hp) as (Hf & Hops & Htok & Hgen). set (i' := mkInfo _ _ _) in *.
  unfold leave_slot. change (ud_ops (with_ring (with_chunks (with_ring u r0) ck) r)) with (ud_ops u). rewrite He, bind_ret. apply post_ret.
  split; [done |]. split; [| exists i'; split; [exact (proj1 Hbec) | split; [done | apply Hf]]].
  change (with_ops (with_ring (with_chunks (with_ring u r0) ck) r) o') with (with_ops (with_chunks (with_ring u r) ck) o').
  eapply core_slots; [exact Hc | done | by apply (steady_new i') | done |].
  eapply lanes_submit; [apply (uc_lanes _ _ _ _ _ Hc) | exact Hk | exact Hbec | done | apply reserved_quiet | | done |].
  - split; [by rewrite Htok | done].
  - rewrite Htok, Hr, Hr0. by rewrite Permutation_middle.
Qed.

Lemma op_cell_same (c : Cell) : op_cell c -> c = cell_entry (cell_platform c op_state_new) (slot_set_state InFlightWaiting (sl_entry c)).
Proof. intros Hcell. rewrite <- (waiting_same c) by done. destruct Hcell as (_ & _ & <- & _). by destruct c. Qed.

Lemma clock_bound w last : clock_ok w last -> global_tick w < 2 ^ 45.
Proof. unfold clock_ok. change (from_millis TICK) with 10000000. lia. Qed.

Lemma new_timer (c : Cell) dur : op_cell c -> is_Some (sg_payload (sl_storage c)) ->
  post ('(wheel, task_id) ← insert (ud_wheel u) token dur;
        let u := with_wheel u wheel in
        ops ← commit_slot (ud_ops u) c;
        ops ← platform_mut ops token (mkOpState (Some task_id) UrTimer);
        ok (with_ops u ops) true)
    (fun u' x => x = Ok true /\ uring_ok I0 N pend u' /\ went_off u' token).
Proof.
  intros Hcell Hp. pose proof (clock_bound _ _ (uc_clock _ _ _ _ _ Hc)) as Hck.
  destruct (insert_std (ud_wheel u) token dur (uc_wheel _ _ _ _ _ Hc)) as (w & tid & due & -> & Hw & Hgt & Hfresh & Hpw); [lia |].
  rewrite bind_ret. cbn zeta. change (ud_ops (with_wheel u w)) with (ud_ops u). rewrite (op_cell_same c Hcell).
  destruct (commit_op_cell c op_state_new InFlightWaiting Hcell) as (o1 & -> & Ho1 & Hb1); [right; by left |]. rewrite bind_ret.
  destruct (local_mut_info o1 token (fun l => (mkLocal (ls_op l) (mkOpState (@Some TimerKey tid) UrTimer) (ls_storage l) (ls_active l) (ls_generation l), tt))
    _ Ho1 Ht (proj1 Hb1)) as (o2 & x & He2 & Ho2 & _ & Hb2); [done |].
  match goal with |- context [platform_mut o1 token ?p] =>
    change (platform_mut o1 token p) with (platform_mut o1 token (mkOpState (@Some TimerKey tid) UrTimer)) end.
  unfold platform_mut. rewrite He2, !bind_ret. cbn [si_generation si_state si_local fst] in Hb2.
  rewrite Hg, Z.eqb_refl in Hb2. cbn [andb negb] in Hb2. destruct Hb2 as [_ Hb2]. apply post_ret. split; [done |].
  assert (Hbec := becomes_trans _ _ _ _ _ _ Hb1 Hb2).
  destruct (submitted_flying c (mkOpState (Some tid) UrTimer) Hcell Hp) as (Hf & Hops & Htok & Hgen).
  rewrite Hg in Hf, Hops, Htok, Hgen. set (i' := mkInfo _ _ _) in Hf, Hops, Htok, Hgen.
  change (becomes (ud_ops u) k i' o2) in Hbec. pose proof (steady_new i' o2 Hbec) as Hs.
  split; [| exists i'; split; [exact (proj1 Hbec) | split; [done | apply Hf]]].
  assert (Hl : lanes (slot_info o2) (pend ++ outstanding (ud_ring u)) (ud_backlog u) (wheel_pending w)
    (ud_pending_cancel_cqes u) (wk_armed (ud_waker u))).
  { rewrite Hpw, <- Htok. eapply lanes_timer; [apply (uc_lanes _ _ _ _ _ Hc) | exact Hk | exact Hbec | done | apply reserved_quiet | | done | done].
    split; [by rewrite Htok | done]. }
  destruct (uc_clock _ _ _ _ _ Hc) as [Hc1 Hc2]. destruct Hc. split; try done. split; cbn; by rewrite Hgt.
Qed.

Lemma submit_raw_ok (c : Cell) : sl_entry c = d -> sl_index c = tk_index token -> sl_platform c = op_state_new -> sl_op c = Some op ->
  sg_payload (sl_storage c) = sg_payload (ls_storage (si_local i)) ->
  post (submit_from_slot_raw u token c) (fun u' x =>
    match x with
    | Ok true => uring_ok I0 N pend u' /\ went_off u' token
    | Ok false => uring_ok I0 (S N) pend (push_backlog u' token) /\ went_off u' token
    | Err _ => unsubmitted u token op i u'
    end).
Proof.
  intros Hen Hix Hpl Hopc Hstor. unfold submit_from_slot_raw, start_submission_with. rewrite Hopc. cbn [is_some negb gd_slot expect].
  rewrite bind_ret. set (c1 := cell_entry c _). assert (Hc1 : op_cell c1).
  { unfold op_cell, c1. cbn. rewrite Hen, Hix, Hpl, Hstor. split_and!; try done. exists op. done. }
  change (sl_op c1) with (sl_op c). rewrite Hopc.
  assert (Hself : with_chunks (with_ring u (ud_ring u)) (ud_chunks u) = u) by by destruct u.
  assert (Hck : chunks_ok (ud_chunks u)) by apply (uc_chunks _ _ _ _ _ Hc).
  assert (Habort : forall A (c2 : Cell) e (Q : UringDriver -> result A Report -> Prop), op_cell c2 ->
    (forall u', unsubmitted u token op i u' -> Q u' (Err e)) -> post (leave_slot u (dropped_guard c2) (Err e)) Q).
  { intros A c2 e Q Hc2 HQ. pose proof (abort_ok (A := A) (ud_ring u) (ud_chunks u) c2 e Hc2 (reflexivity _) Hck) as Hp.
    rewrite Hself in Hp. eapply post_mono; [exact Hp |]. intros u' x [-> Hu]. by apply HQ. }
  destruct (vt_strategy (ko_vtable op)).
  - destruct (make_entry_ok u token c1 op Ht Hopc Hop) as (c2 & made & -> & Hent & Hpay & Hmade).
    assert (Hc2 : op_cell c2).
    { destruct Hc1 as (He1 & Hi1 & Hp1 & Hk0 & _). destruct Hent as [He2 Hi2 Hp2 Ho2 _ Hk2]. split_and!; [congruence .. | | by apply Ho2].
      eapply payload_after_trans; [exact Hk0 | by apply Hk2]. }
    destruct made as [[chunks sqe] | e]; [| apply Habort; done]. destruct Hmade as [Hch Hud].
    destruct Hpay as [Hpay | [e He]]; [| done]. apply (en_payload _ _ Hent) in Hpay.
    eapply post_bind; [apply register_missing_ok; [done | done] |]. intros u1 x (r & ck & -> & Hr & Hck1).
    destruct x as [[] | e].
    2: { eapply post_mono; [by apply (abort_ok (A := bool)) |]. by intros u' x [-> Hu]. }
    destruct (push_entry_ok (with_chunks (with_ring u r) ck) sqe) as (r2 & b & -> & Ho2). rewrite Hud in Ho2. cbn [ud_ring with_chunks with_ring] in Ho2.
    destruct b.
    + eapply post_mono; [by eapply new_submitted |]. by intros u' x [-> Hu].
    + change (with_ring (with_chunks (with_ring u r) ck) r2) with (with_chunks (with_ring u r2) ck).
      eapply post_mono; [eapply new_queued; [done | done | by rewrite Ho2 | done] |]. by intros u' x [-> Hu].
  - unfold with_op_and_payload_mut. change (sl_op c1) with (sl_op c). rewrite Hopc.
    destruct (sg_payload (sl_storage c1)) as [pl |] eqn:Hpay; [| apply Habort; done].
    set (c2 := cell_storage _ _). assert (Hc2 : op_cell c2).
    { destruct Hc1 as (He1 & Hi1 & Hp1 & Hk0 & _). rewrite Hpay in Hk0. split_and!; [done .. | exact Hk0 |]. by exists op. }
    destruct (vt_get_timeout _ _ _) as [dur |] eqn:Hdur; [| apply Habort; done].
    eapply post_mono; [apply (new_timer c2 dur Hc2); by eexists |]. by intros u' x [-> Hu].
Qed.

(** The operation of a failed submission is given back. *)
Lemma take_back_ok u' : unsubmitted u token op i u' ->
  exists o2 opt, take_active_op (ud_ops u') token = Ret (o2, opt) /\ uring_ok I0 N pend (with_ops u' o2) /\
    left_behind (with_ops u' o2) token op (sg_payload (ls_storage (si_local i))).
Proof.
  intros (r & ck & o' & i' & -> & Hr & Hck & Ho & Hbec & Hst' & Hg' & Hact & Hlg & Hplat & Hkeep).
  destruct (local_mut_info o' token (fun l => (mkLocal None (ls_platform l) (ls_storage l) (ls_active l) (ls_generation l), ls_op l))
    i' Ho Ht (proj1 Hbec)) as (o2 & x & He2 & Ho2 & _ & Hb2); [done |].
  unfold take_active_op. change (ud_ops (with_ops (with_chunks (with_ring u r) ck) o')) with o'. rewrite He2, bind_ret.
  eexists _, _. split; [done |]. rewrite Hg', Hg, Z.eqb_refl, Hst' in Hb2. cbn [andb negb] in Hb2. destruct Hb2 as [_ Hb2].
  assert (Hbb := becomes_trans _ _ _ _ _ _ Hbec Hb2). set (i2 := mkInfo _ _ _) in Hbb. pose proof (steady_new i2 o2 Hbb) as Hs.
  change (with_ops (with_ops (with_chunks (with_ring u r) ck) o') o2) with (with_ops (with_chunks (with_ring u r) ck) o2).
  pose proof (core_prep I0 N pend u r ck Hc Hr Hck) as Hc1.
  split; [| exists i2; split; [exact (proj1 Hbb) | by split_and!]]. eapply core_slots; [exact Hc | done | done | done |].
  eapply lanes_calm; [apply (uc_lanes _ _ _ _ _ Hc1) | exact Hk | exact Hbb | | apply reserved_quiet | done |].
  - change (0 <= tk_generation token). rewrite <- Hg. apply (ln_bound _ _ _ _ _ _ (uc_lanes _ _ _ _ _ Hc) _ _ Hk).
  - change (reserved_ok i2). split; [done |]. split; [| done].
    change (ls_generation (si_local i') = tk_generation token). congruence.
Qed.
End new_op.

Lemma submit_internal_ok I0 N pend u token op : uring_ok I0 N pend u -> token_ok token -> kernel_op_ok op ->
  post (submit_internal u token op) (fun u' x => uring_ok I0 (S N) pend u' /\
    forall i, slot_info (ud_ops u) (Z.to_nat (tk_index token)) = Some i -> si_state i = Reserved ->
      si_generation i = tk_generation token -> answers u' token op (sg_payload (ls_storage (si_local i))) x.1).
Proof.
  intros Hc Ht Hop. assert (HS : forall u', uring_ok I0 N pend u' -> uring_ok I0 (S N) pend u').
  { intros u' Hu. eapply uring_core_weaken; [| exact Hu]. lia. }
  unfold submit_internal, void. destruct (view_total _ _ _ _ _ _ token (uc_lanes _ _ _ _ _ Hc) Ht) as (v & -> & Hv).
  destruct Hv as [v Hgone Hno | i d Hk Hr Hg Hsd Hres Hb | i d Hk Hst Hf Hin | i d Hk Hst Hf Hin].
  - destruct v as [c | | |]; [by destruct (Hgone c) | ..]; (apply post_ret; split; [by apply HS |]);
      intros i' Hi' Hr' Hg'; exfalso; apply (Hno i' Hi' Hg'); by right.
  - change (sl_op (flight_cell token d (si_local i))) with (ls_op (si_local i)). pose proof Hres as (_ & _ & Hno & Hplat). rewrite Hno.
    cbn [is_some]. unfold init_op_with. change (sl_op (flight_cell token d (si_local i))) with (ls_op (si_local i)). rewrite Hno. cbn [is_some].
    assert (Hsame : forall u' x, answers u' token op (sg_payload (ls_storage (si_local i))) x -> forall i',
      slot_info (ud_ops u) (Z.to_nat (tk_index token)) = Some i' -> si_state i' = Reserved -> si_generation i' = tk_generation token ->
      answers u' token op (sg_payload (ls_storage (si_local i'))) x) by (intros u' x Ha i'; rewrite Hk; by intros [= <-]).
    eapply post_bind; [eapply (submit_raw_ok I0 N pend u i d token op Hc Hk Hr Hg Hsd Hres Hb Ht Hop); done |].
    intros u1 [[|] | e] Hu1; [destruct Hu1; apply post_ret; split; [by auto | by apply Hsame] .. |].
    destruct (take_back_ok I0 N pend u i d token op Hc Hk Hr Hg Hsd Ht u1 Hu1) as (o2 & opt & -> & Hc2 & Hback).
    rewrite bind_ret. apply post_ret. split; [by apply HS | by apply Hsame].
  - apply post_ret. split; [by apply HS |]. intros i' Hi' Hr'. congruence.
  - apply post_ret. split; [by apply HS |]. intros i' Hi' Hr'. congruence.
Qed.
End flush.

(** ** The waker and what follows a completion

    [submit_waker], [rebuild_waker_fd] and the other effects that completions
    leave keep the driver's invariant. *)

Section waker.
Context `{Laws : IoUringLaws} `{UringPayloads} `{UringTimers} `{Registrar} `{RemoteLimit} `{Clients : !UringClients}.
Notation Ops := (OpRegistry (Spec := UringSlotSpec)).
Notation Info := (SlotInfo (Spec := UringSlotSpec)).
Implicit Types (u : UringDriver) (o : Ops) (i : Info) (k : nat).

Lemma post_ok {A} I0 N pend u u' (x : A) : uring_ok I0 N pend u' ->
  post (Ret (u', x)) (fun u' (_ : A) => uring_ok I0 N pend u').
Proof. intros Hc. by apply post_ret. Qed.

Lemma ok_ring I0 N pend u r : uring_ok I0 N pend u -> outstanding r ≡ₚ outstanding (ud_ring u) -> uring_ok I0 N pend (with_ring u r).
Proof. apply core_ring. Qed.

Lemma ok_files I0 N pend u s : uring_ok I0 N pend u -> files_kept (ud_ring u, ud_files u) s -> uring_ok I0 N pend (with_files u s.1 s.2).
Proof. apply core_files. Qed.

(** The waker is armed exactly when its read is with the kernel. *)
Lemma waker_free I out B P C : lanes I out B P C false -> token_waker 0 ∉ out.
Proof.
  intros Hl Hx. destruct (ln_out _ _ _ _ _ _ Hl _ Hx) as [(t & i & E & Hi & _) | [[_ E] | (id & E & Hid & _)]]; [| done |].
  - symmetry in E. revert E. apply user_not_waker. lia.
  - by apply waker_not_cancel in E.
Qed.

Lemma core_waker I0 N pend u w : uring_ok I0 N pend u -> wk_armed w = wk_armed (ud_waker u) ->
  (forall fd, wk_registered_fd w = Some fd -> 0 <= fd_index fd) -> uring_ok I0 N pend (with_waker u w).
Proof. intros [] Hw Hfd. split; try done. cbn. by rewrite Hw. Qed.

(** Pushing the read of the waker. *)
Lemma arm_ok I0 N pend u fd : uring_ok I0 N pend u -> wk_armed (ud_waker u) = false ->
  post (let sqe := entry_user_data (opcode_read_registered (fd_index fd) WAKER_BUF_LEN) (token_raw (token_waker 0)) in
        let (u, pushed) := push_entry u sqe in
        if pushed then ok (with_waker u (set_armed (ud_waker u) true)) tt else fail u Submission)
    (fun u' _ => uring_ok I0 N pend u').
Proof.
  intros Hc Ha. cbn zeta. match goal with |- context [push_entry u ?e] => destruct (push_entry_ok u e) as (r & b & -> & Ho) end.
  destruct b; [| by apply post_ok, ok_ring]. rewrite get_user_data in Ho by done. change (token_raw (token_waker 0)) with (token_waker 0) in Ho.
  pose proof (uc_lanes _ _ _ _ _ Hc) as Hl. rewrite Ha in Hl. pose proof (waker_free _ _ _ _ _ Hl) as Hnin.
  assert (Hp : pend ++ outstanding r ≡ₚ token_waker 0 :: pend ++ outstanding (ud_ring u)) by (rewrite Ho; by rewrite Permutation_middle).
  apply post_ret. destruct Hc. split; try done. cbn. eapply lanes_internal; [exact Hl | | | | done].
  - rewrite Hp. apply NoDup_cons. split; [done | apply (ln_nodup _ _ _ _ _ _ Hl)].
  - intros x. rewrite Hp, elem_of_cons. intros [-> | Hx]; [right; by left |].
    destruct (ln_out _ _ _ _ _ _ Hl _ Hx) as [Hu | [[-> E] | Hcn]]; [by left | done | by right; right].
  - intros k x _ Hx. rewrite Hp. by right.
Qed.

Lemma submit_waker_ok I0 N pend u : uring_ok I0 N pend u -> post (submit_waker u) (fun u' _ => uring_ok I0 N pend u').
Proof.
  intros Hc. unfold submit_waker. destruct (wk_armed (ud_waker u)) eqn:Ha; [by apply post_ok |].
  eapply (post_try _ _ (fun u' x => uring_ok I0 N pend u' /\ wk_armed (ud_waker u') = false)); [| | by intros u1 e [Hc1 _]].
  2: { intros u1 fd [Hc1 Ha1]. by apply arm_ok. }
  destruct (wk_registered_fd (ud_waker u)) as [fd |]; [by apply post_ret |].
  destruct (register_kept (registry_capacity (ud_ops u)) (ud_ring u, ud_files u) [Borrowed (RawFile (wk_fd (ud_waker u)))]
    (uc_files _ _ _ _ _ Hc)) as ([r t] & x & -> & Hk & Hx). rewrite bind_ret. pose proof (ok_files _ _ _ _ _ Hc Hk) as Hc1.
  cbn [fst snd] in Hc1. destruct x as [fds | e]; [| by apply post_ret]. destruct (last fds) as [fd |] eqn:Hl; [| by apply post_ret].
  apply post_ret. split; [| done]. apply core_waker; [done | done |]. cbn. intros fd' [= <-].
  rewrite Forall_forall in Hx. apply Hx. rewrite last_lookup in Hl. by eapply list_elem_of_lookup_2.
Qed.

(** Descriptors that are closed. *)
Lemma drop_event_ok I0 N pend u fd : uring_ok I0 N pend u -> uring_ok I0 N pend (drop_event_fd u fd).
Proof.
  intros Hc. unfold drop_event_fd. eapply (ok_files I0 N pend u (_, _)); [done |]. split; [| done].
  apply table_inv_close, (uc_files _ _ _ _ _ Hc).
Qed.

Lemma on_files_ok {A} I0 N pend u (f : Ring * FileTable -> (Ring * FileTable) * result A Report) : uring_ok I0 N pend u ->
  files_kept (ud_ring u, ud_files u) (f (ud_ring u, ud_files u)).1 ->
  exists r t x, on_files u f = Ret (with_files u r t, x) /\ uring_ok I0 N pend (with_files u r t).
Proof.
  intros Hc Hk. unfold on_files. destruct (f (ud_ring u, ud_files u)) as [[r t] x]. exists r, t, x. split; [done |].
  by apply (ok_files I0 N pend u (r, t)).
Qed.

Lemma rebuild_waker_ok I0 N pend u : uring_ok I0 N pend u -> post (rebuild_waker_fd u) (fun u' _ => uring_ok I0 N pend u').
Proof.
  intros Hc. unfold rebuild_waker_fd, create_event_fd. pose proof (eventfd_keeps (ud_ring u)) as He.
  destruct (eventfd (ud_ring u)) as [r [fd | e]]; cbn [fst] in He.
  2: { unfold and_then. rewrite bind_ret. by apply post_ok, ok_ring. }
  pose proof (ok_ring _ _ _ _ _ Hc He) as Hc1. unfold and_then at 1. change (ok (with_ring u r) fd) with (Ret (with_ring u r, Ok fd : result Z Report)). rewrite bind_ret. set (u1 := with_ring u r) in *.
  apply (post_bind _ _ (fun u' x => uring_ok I0 N pend u' /\ ud_waker u' = ud_waker u1)).
  { pose proof (uc_waker _ _ _ _ _ Hc1) as Hfd. destruct (wk_registered_fd (ud_waker u1)) as [ffd |] eqn:Hw; [| by apply post_ret].
    destruct (on_files_ok I0 N pend u1 (fun s => replace_registered_fixed_fd s ffd (RawFile fd)) Hc1) as (r2 & t2 & x & -> & Hc2);
      [apply replace_kept; [apply (uc_files _ _ _ _ _ Hc1) | by apply Hfd] |]. by apply post_ret. }
  intros u2 [[] | e] [Hc2 Hw2]; [| by apply post_ok, drop_event_ok].
  apply post_ret. apply core_waker; [by apply drop_event_ok | done |].
  cbn. intros ffd Hf. by apply (uc_waker _ _ _ _ _ Hc2).
Qed.

Lemma waker_wake_ok I0 N pend u : uring_ok I0 N pend u -> post (waker_wake u) (fun u' _ => uring_ok I0 N pend u').
Proof.
  intros Hc. unfold waker_wake. destruct (wk_is_waked (ud_waker u)); [by apply post_ok |].
  set (u1 := with_waker u _). assert (Hc1 : uring_ok I0 N pend u1).
  { apply core_waker; [done | done |]. apply (uc_waker _ _ _ _ _ Hc). }
  pose proof (write_keeps (ud_ring u1) (wk_fd (ud_waker u))) as Hk.
  destruct (eventfd_write _ _) as [r [[] | e]]; cbn [fst] in Hk; [by apply post_ok, ok_ring |].
  destruct (bool_decide _); by apply post_ok, ok_ring.
Qed.

(** *** The effects of a completion *)

Lemma each_ok {A} I0 N pend (f : UringDriver -> A -> outcome (UringDriver * result unit Report)) l :
  (forall u a, a ∈ l -> uring_ok I0 N pend u -> post (f u a) (fun u' _ => uring_ok I0 N pend u')) ->
  forall u, uring_ok I0 N pend u -> post (each f u l) (fun u' _ => uring_ok I0 N pend u').
Proof.
  induction l as [| a l IH]; intros Hf u Hc; [by apply post_ok |]. cbn [each].
  eapply post_try; [apply Hf; [by left | done] | | done]. intros u1 x Hc1. apply IH; [| done].
  intros u2 b Hb. apply Hf. by right.
Qed.

Lemma enoent_ok I0 N pend u r : uring_ok I0 N pend u ->
  post (record_cancel_enoent_if_target_active u r) (fun u' _ => uring_ok I0 N pend u').
Proof.
  intros Hc. unfold record_cancel_enoent_if_target_active.
  repeat case_match; try (by apply post_ok); by apply post_ok, count_core.
Qed.

Lemma effects_ok I0 N pend u p : uring_ok I0 N pend u -> Forall (fun fd => 0 <= fd_index fd) (po_close_unregister p) ->
  post (apply_post_completion_effects flush_backlog u p) (fun u' _ => uring_ok I0 N pend u').
Proof.
  intros Hc Hp. unfold apply_post_completion_effects.
  eapply post_try; [apply each_ok; [| exact Hc]; intros; by apply enoent_ok | | done]. intros u1 x1 Hc1.
  eapply post_try; [apply each_ok; [| exact Hc1] | | done].
  { intros u' fd Hfd Hc'. rewrite Forall_forall in Hp.
    destruct (on_files_ok I0 N pend u' (fun s => unregister_close_owned_fd s fd) Hc') as (r & t & x & -> & Hc2); [| by apply post_ok].
    apply close_kept; [apply (uc_files _ _ _ _ _ Hc') | by apply Hp]. }
  intros u2 x2 Hc2. eapply (post_try _ _ (fun u' _ => uring_ok I0 N pend u')); [destruct (po_rebuild_waker p); [by apply rebuild_waker_ok, count_core | by apply post_ok] | | done].
  intros u3 x3 Hc3. eapply (post_try _ _ (fun u' _ => uring_ok I0 N pend u')); [| | done].
  { destruct (po_resubmit_waker p); [| by apply post_ok]. eapply post_bind; [by apply submit_waker_ok |].
    intros u' [x | e] Hc'; [by apply post_ok | by apply post_ok, count_core]. }
  intros u4 x4 Hc4. destruct (po_flush_backlog p); [by apply flush_backlog_ok | by apply post_ok].
Qed.
End waker.
