(* ===== verification/UringComplete.v ===== *)
(** * Completions from the kernel

    What the kernel completes is an operation that is with it, the read of the
    waker, or a cancellation; [process_completions_internal] accepts each.  When
    one of them ends in an error the rest of the batch is lost: it was taken from
    the ring and is accepted by nobody. *)

From stdpp Require Import strings gmap.
From S2P Require Import Prelude BitSet SlotMap WheelConfig Wheel Timers Token SlotState Anomaly SlotTable Completion Registry Flow RegistryInv CompletionSpec DriverSteps DriverSafety OpLifecycle SlotInfo DriverApi UringBase FileTable UringFrame UringOp UringHooks UringDriver UringInv UringState UringAccept UringCancel UringSubmit UringFlush.

Section complete.
Context `{Laws : IoUringLaws} `{UringPayloads} `{UringTimers} `{Registrar} `{RemoteLimit} `{Clients : !UringClients}.
Notation Ops := (OpRegistry (Spec := UringSlotSpec)).
Notation Info := (SlotInfo (Spec := UringSlotSpec)).
Implicit Types (u : UringDriver) (o : Ops) (i : Info) (k : nat) (h : UringCompletionHooks).

(** ** Dispatch *)

Lemma dispatch_user b t res fl : 0 <= tk_index t < 2 ^ 48 ->
  dispatch_envelope (envelope_from_raw_parts b (token_user t) res fl) =
  Ret (DispatchUser (event_from_parts b (mkToken (tk_index t) (tk_generation t mod 2 ^ 15)) res fl)).
Proof.
  intros Hi. set (t' := mkToken _ _).
  assert (E : token_user t = token_user t').
  { rewrite !token_user_val by (cbn; lia). cbn. by rewrite Z.mod_mod by lia. }
  unfold envelope_from_raw_parts, envelope_from_raw, dispatch_envelope, token_from_raw. cbn [rw_token].
  assert (Hc : classify (token_user t) = UserClass t').
  { rewrite token_user_val, (Z.mod_small (tk_index t)) by lia. apply classify_user_val; [apply Z.mod_pos_bound; lia | done]. }
  rewrite Hc. cbn [en_identity en_raw]. unfold event_from_classified, event_from_parts. cbn [rw_token]. rewrite E.
  by rewrite Z.eqb_refl.
Qed.

Lemma dispatch_waker b res fl :
  dispatch_envelope (envelope_from_raw_parts b (token_waker 0) res fl) = Ret (DispatchWaker 0 (mkRaw b (token_waker 0) res fl)).
Proof.
  unfold envelope_from_raw_parts, envelope_from_raw, token_from_raw. cbn [rw_token].
  unfold token_waker, token_internal at 1. rewrite classify_control_val by (done || by vm_compute). done.
Qed.

Lemma dispatch_cancel b id res fl : 0 <= id < 2 ^ 16 ->
  dispatch_envelope (envelope_from_raw_parts b (token_cancel id) res fl) = Ret (DispatchCancel id (mkRaw b (token_cancel id) res fl)).
Proof.
  intros Hid. unfold envelope_from_raw_parts, envelope_from_raw, token_from_raw. cbn [rw_token].
  unfold token_cancel, token_internal at 1. rewrite classify_control_val by (done || by vm_compute). done.
Qed.

(** ** The end of the hooks *)

Definition driver_hooks u syn : UringCompletionHooks :=
  mkHooks [] (ud_pending_cancel_cqes u) WAKER_BUF_LEN (wk_armed (ud_waker u)) (wk_is_waked (ud_waker u)) syn post_default.

Lemma count_list_wheel l : forall u, ud_wheel (foldl count u l) = ud_wheel u.
Proof. induction l as [| c l IH]; intros u; [done |]. cbn [foldl]. by rewrite IH. Qed.

Lemma end_hooks_core I0 N pend pend' u o h : uring_ok I0 N pend u -> reg_inv o -> steady I0 (slot_info o) ->
  lanes (slot_info o) (pend' ++ outstanding (ud_ring u)) (ud_backlog u) (wheel_pending (ud_wheel u))
    (uh_pending_cancel_cqes h) (uh_waker_armed h) ->
  uring_ok I0 N pend' (end_hooks u o h).
Proof.
  intros [] Ho Hs Hl. unfold uring_ok, end_hooks. rewrite count_list_wheel. apply count_list_core. by split.
Qed.

Definition effects_fine h : Prop := Forall (fun fd => 0 <= fd_index fd) (po_close_unregister (uh_post h)).

(** One completion, before its effects. *)
Definition accepted I0 N pend u (m : outcome ((Ops * UringCompletionHooks) * result CompletionFlowOutcome Report)) : Prop :=
  exists o h x, m = Ret ((o, h), Ok x) /\ uring_ok I0 N pend (end_hooks u o h) /\ effects_fine h /\
    In x [flow_user_completed; flow_orphan_cleaned; flow_internal; flow_anomaly].

Lemma plain_effect_fine u (src : CompletionSource unit) s eff h' : plain_effect src eff ->
  uring_finish_backend_effect (uh_set_synthetic (driver_hooks u SynNone) s) eff = (h', Ok tt) ->
  effects_fine h' /\ uh_pending_cancel_cqes h' = ud_pending_cancel_cqes u /\ uh_waker_armed h' = wk_armed (ud_waker u).
Proof.
  intros [-> | (fd & p & -> & Hp & _)] [= <-]; (split; [| done]); unfold effects_fine; cbn; [done |].
  constructor; [by eapply close_index | done].
Qed.

(** The completion of an operation. *)
Lemma accept_user_ok I0 N pend u t res fl i : uring_ok I0 N (token_user t :: pend) u ->
  0 <= tk_index t < 2 ^ 48 -> 0 <= tk_generation t -> slot_info (ud_ops u) (Z.to_nat (tk_index t)) = Some i -> submitted t i ->
  accepted I0 N pend u (accept_completion (ud_ops u, driver_hooks u SynNone)
    (IngressKernel (envelope_from_raw_parts COMP_BACKEND_URING (token_user t) res fl))).
Proof.
  intros Hc Hi Hg Hk Hs. cbn [accept_completion]. rewrite dispatch_user, bind_ret by done.
  set (e := event_from_parts _ _ _ _). pose proof Hs as [Hf _]. pose proof (uc_lanes _ _ _ _ _ Hc) as Hl.
  destruct (Z.ltb_spec (tk_generation t) (2 ^ 15)) as [Hlt | Hge].
  - assert (Ht : ue_token e = t) by (unfold e; cbn; rewrite Z.mod_small by lia; by destruct t).
    destruct (accept_user_flying (driver_hooks u SynNone) (ud_ops u) e FromKernel i (uc_reg _ _ _ _ _ Hc)) as
      (o' & h' & x & st & s & eff & Hacc & Heff & Hfe & Ho & _ & Hst & Hx & Hb); [by rewrite Ht | by rewrite Ht |].
    rewrite Hacc. destruct (plain_effect_fine u _ s eff h' Heff Hfe) as (Hfine & Hp & Ha). exists o', h', x.
    split; [done |]. split; [| split; [done | cbn; destruct Hx as [-> | ->]; auto]].
    rewrite Ht in Hb. assert (Hc1 : uring_core I0 N pend (wheel_pending (ud_wheel u)) (with_ops u o')).
    { eapply core_over_kernel; [exact Hc | exact Hk | by rewrite (flying_token t i Hf) | done | exact Hb | done |].
      by rewrite (flying_token t i Hf). }
    eapply end_hooks_core; [exact Hc | done | apply (uc_steady _ _ _ _ _ Hc1) |].
    rewrite Hp, Ha. apply (uc_lanes _ _ _ _ _ Hc1).
  - assert (Hgen : si_generation i = tk_generation t) by (by apply flying_generation).
    assert (Hmod : 0 <= tk_generation t mod 2 ^ 15 < 2 ^ 15) by (apply Z.mod_pos_bound; lia).
    destruct (accept_stale_info (ud_ops u, driver_hooks u SynNone) e FromKernel i) as ([o' h'] & -> & Eh & Ho & Hsi & _);
      [apply (uc_reg _ _ _ _ _ Hc) | done | cbn; lia | done | done |]. cbn [fst snd] in Eh, Ho, Hsi. subst h'.
    exists o', (driver_hooks u SynNone), flow_anomaly. split; [done |]. split; [| split; [by constructor | cbn; auto]].
    eapply end_hooks_core; [exact Hc | done | by eapply steady_info, (uc_steady _ _ _ _ _ Hc) |].
    eapply lanes_info; [exact Hsi |]. cbn [driver_hooks uh_pending_cancel_cqes uh_waker_armed].
    eapply (lanes_stale _ _ _ _ _ _ _ t i); [exact Hl | done | done | exact Hk | exact Hs | lia].
Qed.

(** Completions of the driver's own entries. *)
Lemma internal_taken I0 N x pend u C' a' o h : uring_ok I0 N (x :: pend) u -> (forall k, ~ of_slot k x) ->
  o = ud_ops u -> uh_pending_cancel_cqes h = C' -> uh_waker_armed h = a' ->
  (forall y, y <> x -> out_ok (slot_info (ud_ops u)) (ud_pending_cancel_cqes u) (wk_armed (ud_waker u)) y ->
     out_ok (slot_info (ud_ops u)) C' a' y) ->
  uring_ok I0 N pend (end_hooks u o h).
Proof.
  intros Hc Hx -> HC Ha Hout. pose proof (uc_lanes _ _ _ _ _ Hc) as Hl. pose proof (ln_nodup _ _ _ _ _ _ Hl) as Hn.
  apply NoDup_cons in Hn as [Hnin Hn].
  eapply end_hooks_core; [exact Hc | apply (uc_reg _ _ _ _ _ Hc) | apply (uc_steady _ _ _ _ _ Hc) |]. rewrite HC, Ha.
  eapply lanes_internal; [exact Hl | done | | | done].
  - intros y Hy. apply Hout; [by intros -> |]. apply (ln_out _ _ _ _ _ _ Hl). by right.
  - intros k y Hof [-> | Hy]%elem_of_cons; [by destruct (Hx k) | done].
Qed.

Lemma accept_waker_ok I0 N pend u res fl : uring_ok I0 N (token_waker 0 :: pend) u ->
  accepted I0 N pend u (accept_completion (ud_ops u, driver_hooks u SynNone)
    (IngressKernel (envelope_from_raw_parts COMP_BACKEND_URING (token_waker 0) res fl))).
Proof.
  intros Hc. cbn [accept_completion]. rewrite dispatch_waker, bind_ret. unfold lift_hook, and_then. rewrite bind_ret.
  cbn [handle_control uring_hooks uring_handle_control fst snd].
  destruct (handle_waker_control (driver_hooks u SynNone) _) as [h eff] eqn:Hh. cbn [finish_hook_outcome fst snd].
  assert (Hw : (exists b, eff = EffWaker b) /\ uh_pending_cancel_cqes h = ud_pending_cancel_cqes u /\ uh_post h = post_default).
  { unfold handle_waker_control in Hh. cbn [rw_res] in Hh. repeat case_match; injection Hh as <- <-; (split; [by eexists | done]). }
  destruct Hw as ([b ->] & Hp & Hpost). eexists _, _, _. split; [done |]. split; [| split].
  - eapply internal_taken; [exact Hc | intros; apply not_of_slot_waker | done | exact Hp | done |].
    intros y Hy [Hu | [[-> _] | Hcn]]; [by left | done | by right; right].
  - unfold effects_fine. cbn. by rewrite Hpost.
  - cbn. auto.
Qed.

Lemma accept_cancel_ok I0 N pend u id res fl r : uring_ok I0 N (token_cancel id :: pend) u -> 0 <= id < 2 ^ 16 ->
  ud_pending_cancel_cqes u !! id = Some r ->
  accepted I0 N pend u (accept_completion (ud_ops u, driver_hooks u SynNone)
    (IngressKernel (envelope_from_raw_parts COMP_BACKEND_URING (token_cancel id) res fl))).
Proof.
  intros Hc Hid Hr. cbn [accept_completion]. rewrite dispatch_cancel, bind_ret by done. unfold lift_hook, and_then. rewrite bind_ret.
  cbn [handle_control uring_hooks uring_handle_control fst snd].
  assert (Hh : exists c eff, handle_cancel_control (driver_hooks u SynNone) id (mkRaw COMP_BACKEND_URING (token_cancel id) res fl) =
    (uh_count (uh_set_pending (driver_hooks u SynNone) (delete id (ud_pending_cancel_cqes u))) c, Ok (HookControlHandled eff)) /\
    (eff = EffNone \/ exists raw, eff = EffCancelEnoent id r raw)).
  { unfold handle_cancel_control. cbn [driver_hooks uh_pending_cancel_cqes]. rewrite Hr. cbn [rw_res].
    destruct (0 <=? res); [eexists _, _; by split; [| left] |]. destruct (res =? _); eexists _, _; (split; [done |]); [right; by eexists | by left]. }
  destruct Hh as (c & eff & -> & Heff). cbn [finish_hook_outcome fst snd]. unfold and_then, lift_hook. rewrite bind_ret. cbn [fst snd].
  assert (Hfin : exists p, uring_finish_backend_effect
      (uh_count (uh_set_pending (driver_hooks u SynNone) (delete id (ud_pending_cancel_cqes u))) c) eff =
    (uh_set_post (uh_count (uh_set_pending (driver_hooks u SynNone) (delete id (ud_pending_cancel_cqes u))) c) p, Ok tt) /\
    po_close_unregister p = []) by (destruct Heff as [-> | [raw ->]]; by eexists).
  destruct Hfin as (p & Hfin & Hclose). cbn [finish_backend_effect uring_hooks]. rewrite Hfin. eexists _, _, _. split; [done |].
  split; [| split; [unfold effects_fine; cbn; by rewrite Hclose | cbn; auto]].
  eapply internal_taken; [exact Hc | intros; by apply not_of_slot_cancel | done | done | done |].
  intros y Hy [Hu | [Hw | (id' & -> & Hid' & Hs)]]; [by left | by right; left |]. right. right. exists id'.
  cbn. rewrite lookup_delete_ne; [done | congruence].
Qed.

(** ** A batch *)

Lemma accept_kernel_ok I0 N x pend u res fl : uring_ok I0 N (x :: pend) u ->
  accepted I0 N pend u (accept_completion (ud_ops u, driver_hooks u SynNone)
    (IngressKernel (envelope_from_raw_parts COMP_BACKEND_URING x res fl))).
Proof.
  intros Hc. pose proof (uc_lanes _ _ _ _ _ Hc) as Hl.
  destruct (ln_out _ _ _ _ _ _ Hl x) as [(t & i & -> & Hi & Hg & Hk & Hs) | [[-> _] | (id & -> & Hid & [r Hr])]]; [by left | ..].
  - by eapply accept_user_ok.
  - by apply accept_waker_ok.
  - by eapply accept_cancel_ok.
Qed.

Lemma accept_cqe_ok I0 N x pend u res fl : uring_ok I0 N (x :: pend) u ->
  post (accept_completion_ingress flush_backlog u (IngressKernel (envelope_from_raw_parts COMP_BACKEND_URING x res fl)) SynNone)
    (fun u' r => uring_ok I0 N pend u' /\
       match r with Ok o => In o [flow_user_completed; flow_orphan_cleaned; flow_internal; flow_anomaly] | Err _ => True end).
Proof.
  intros Hc. unfold accept_completion_ingress. destruct (accept_kernel_ok I0 N x pend u res fl Hc) as (o & h & r & He & Hc1 & Hf & Hr).
  cbn zeta. match goal with |- post (mbind _ ?m) _ => change m with (accept_completion (ud_ops u, driver_hooks u SynNone)
    (IngressKernel (envelope_from_raw_parts COMP_BACKEND_URING x res fl) : CompletionIngress BackendIngress)) end.
  rewrite He, bind_ret. clear He.
  eapply post_try; [by apply effects_ok | | done]. intros u' y Hu'. by apply post_ret.
Qed.

(** The numbers of a batch. *)
Definition flow_bounded (n : Z) (f : CompletionFlowOutcome) : Prop :=
  0 <= fo_user_completed f /\ 0 <= fo_orphan_cleaned f /\ 0 <= fo_internal f /\ 0 <= fo_anomaly f /\ 0 <= fo_ignored f /\
  fo_user_completed f + fo_orphan_cleaned f + fo_internal f + fo_anomaly f + fo_ignored f <= n.

Lemma flow_merge_ok n f x : flow_bounded n f -> n < 2 ^ 32 ->
  In x [flow_user_completed; flow_orphan_cleaned; flow_internal; flow_anomaly] ->
  exists f', flow_merge f x = Ret f' /\ flow_bounded (n + 1) f'.
Proof.
  intros (Hu & Ho & Hi & Ha & Hg & Hs) Hn Hin. unfold flow_merge, USIZE_BITS. cbn in Hin.
  destruct Hin as [<- | [<- | [<- | [<- | []]]]]; cbn [fo_user_completed fo_orphan_cleaned fo_internal fo_anomaly fo_ignored
    flow_user_completed flow_orphan_cleaned flow_internal flow_anomaly]; rewrite !arith_ok, !bind_ret by lia;
    (eexists; split; [done |]; unfold flow_bounded; cbn; lia).
Qed.

Lemma semantic_count_ok n f : flow_bounded n f -> n <= 2 ^ 32 -> exists x, semantic_count f = Ret x.
Proof.
  intros (Hu & Ho & Hi & Ha & Hg & Hs) Hn. unfold semantic_count, USIZE_BITS. do 2 (rewrite arith_ok, bind_ret by lia). rewrite arith_ok by lia. by eexists.
Qed.

(** [lost] are the completions behind one that ended in an error. *)
Lemma accept_cqes_ok I0 N cqes : forall pend u f n, uring_ok I0 N (((fun c => c.1.1) <$> cqes) ++ pend) u ->
  flow_bounded n f -> n + Z.of_nat (length cqes) <= 2 ^ 32 ->
  post (accept_cqes u cqes f) (fun u' r =>
    match r with
    | Ok f' => uring_ok I0 N pend u' /\ flow_bounded (2 ^ 32) f'
    | Err _ => exists lost, lost `suffix_of` ((fun c => c.1.1) <$> cqes) /\ uring_ok I0 N (lost ++ pend) u'
    end).
Proof.
  induction cqes as [| [[x res] fl] cqes IH]; intros pend u f n Hc Hf Hn; cbn [accept_cqes].
  { apply post_ret. split; [exact Hc |]. cbn in Hn. unfold flow_bounded in *. lia. }
  cbn [fmap list_fmap fst app] in Hc. cbn [length] in Hn.
  eapply post_try; [by apply accept_cqe_ok | |].
  - intros u1 o [Hc1 Ho]. destruct (flow_merge_ok n f o Hf ltac:(lia) Ho) as (f' & -> & Hf'). rewrite bind_ret.
    eapply post_mono; [by eapply (IH pend u1 f' (n + 1)); [| | lia] |]. intros u2 [f2 | e]; [done |].
    intros (lost & Hs & Hc2). exists lost. split; [| done]. cbn. by apply suffix_cons_r.
  - intros u1 e [Hc1 _]. eexists. split; [| exact Hc1]. by apply suffix_cons_r.
Qed.

Lemma process_completions_ok I0 N pend u : uring_ok I0 N pend u ->
  post (process_completions_internal u) (fun u' r =>
    match r with
    | Ok f => uring_ok I0 N pend u' /\ flow_bounded (2 ^ 32) f
    | Err _ => exists lost, uring_ok I0 N (lost ++ pend) u'
    end).
Proof.
  intros Hc. unfold process_completions_internal. pose proof (enter_keeps (ud_ring u) 0 0 IORING_ENTER_GETEVENTS) as He.
  destruct (ring_enter (ud_ring u) _ _ _) as [r1 y]. cbn [fst] in He.
  destruct (cq_drain r1) as [r2 cqes] eqn:Hd. pose proof (drain_takes _ _ _ Hd) as Ht. pose proof (drain_bound _ _ _ Hd) as Hb.
  eapply post_mono; [eapply (accept_cqes_ok I0 N cqes pend _ _ 0); [| done | lia] |].
  - eapply core_perm; [exact Hc |]. rewrite <- He, <- Ht, (Permutation_app_comm _ pend). by rewrite app_assoc.
  - intros u' [f | e]; [done |]. intros (lost & _ & Hl). by exists lost.
Qed.
End complete.
