(* ===== verification/UringTimers.v ===== *)
(** * Timers, cancellations and handing over

    The parts of [drive]: expired timers are accepted, requests of other threads
    are drained, waiting cancellations and entries are given to the kernel.  Each
    returns and keeps the driver's invariant; no clock or counter overflows. *)

From stdpp Require Import strings gmap.
From S2P Require Import Prelude BitSet SlotMap WheelConfig Wheel Timers Token SlotState Anomaly SlotTable Completion Registry Flow RegistryInv CompletionSpec DriverSteps DriverSafety OpLifecycle SlotInfo DriverApi UringBase FileTable UringFrame UringOp UringHooks UringDriver UringInv UringState UringAccept UringCancel UringSubmit UringFlush UringComplete.

Section timers.
Context `{Laws : IoUringLaws} `{UringPayloads} `{UringTimers} `{Registrar} `{RemoteLimit} `{Clients : !UringClients}.
Notation Ops := (OpRegistry (Spec := UringSlotSpec)).
Notation Info := (SlotInfo (Spec := UringSlotSpec)).
Implicit Types (u : UringDriver) (o : Ops) (i : Info) (k : nat).

(** ** Timers *)

Definition timer_loop u (token : OpToken) : outcome (UringDriver * result unit Report) :=
  try (u, _x) := accept_synthetic_completion flush_backlog u (timer_event token) SrcTimer SynNone in ok u tt.

(** [tp] is what the time of the last poll is set to afterwards. *)
Lemma timer_loop_ok I0 N pend tp (X : list (TimerKey * (Z * OpToken))) P' : forall P u, moved P X P' ->
  uring_core I0 N pend P (with_timer_poll u tp) ->
  exists o', each timer_loop u (items X) = Ret (with_ops u o', Ok tt) /\
    uring_core I0 N pend P' (with_timer_poll (with_ops u o') tp).
Proof.
  induction X as [| [tid [due token]] X IH]; intros P u Hm Hc.
  { apply moved_nil in Hm as ->. exists (ud_ops u). cbn [each items fmap list_fmap]. by destruct u. }
  apply moved_cons in Hm as [HP Hm]. cbn [fst snd] in HP, Hm.
  destruct (ln_timer _ _ _ _ _ _ (uc_lanes _ _ _ _ _ Hc) _ _ HP) as (Hi & i & Hk & Htm). cbn [snd] in Hi, Hk, Htm.
  destruct (accept_synthetic_ok flush_backlog u (timer_event token) SrcTimer SynNone i) as (o1 & st & x & He & Ho & Hst & Hb);
    [apply (uc_reg _ _ _ _ _ Hc) | exact Hk | apply Htm |].
  assert (Hc1 : uring_core I0 N pend (delete tid P) (with_timer_poll (with_ops u o1) tp)).
  { change (with_timer_poll (with_ops u o1) tp) with (with_ops (with_timer_poll u tp) o1).
    eapply core_over_timer; [exact Hc | exact Hk | | done | exact Hb | done].
    pose proof Htm as [Hf _]. by rewrite (flying_token token i Hf). }
  destruct (IH _ _ Hm Hc1) as (o2 & He2 & Hc2). exists o2.
  cbn [items fmap list_fmap each fst snd]. unfold timer_loop at 1. rewrite He. unfold and_then. rewrite !bind_ret.
  split; [exact He2 | exact Hc2].
Qed.

Lemma millis_ns d : 0 <= d < 2 ^ 62 -> as_millis_u64 d = d / 1000000.
Proof.
  intros Hd. unfold as_millis_u64, NANOS_PER_MILLI, wrap, U64. apply Z.mod_small.
  split; [apply Z.div_pos; lia | apply Z.div_lt_upper_bound; lia].
Qed.

Lemma std_duration w : wheel_std w -> as_millis_u64 (tick_duration w) = 10.
Proof. intros Hw. unfold tick_duration. rewrite (std_tick w Hw). reflexivity. Qed.

Lemma core_timer_poll I0 N pend P u w tp : uring_core I0 N pend P u -> wheel_std w -> clock_ok w tp ->
  uring_core I0 N pend P (with_timer_poll (with_wheel u w) tp).
Proof. intros [] Hw Hc. by split. Qed.

Lemma poll_timers_ok I0 N pend u : uring_ok I0 N pend u ->
  exists u', poll_timers u = Ret (u', Ok tt) /\ uring_ok I0 N pend u'.
Proof.
  intros Hc. unfold poll_timers. pose proof (now_bound (ud_ring u)) as Hnow. pose proof (uc_wheel _ _ _ _ _ Hc) as Hw.
  destruct (uc_clock _ _ _ _ _ Hc) as (Hgt & Hcl & Hlast). change (from_millis TICK) with 10000000 in Hcl.
  set (last := ud_last_timer_poll u) in *. set (now := instant_now (ud_ring u)) in *.
  set (elapsed := saturating_duration_since now last).
  assert (Hel : 0 <= elapsed < 2 ^ 62 /\ (0 < elapsed -> elapsed = now - last)) by (unfold elapsed, saturating_duration_since; lia).
  destruct Hel as [Hel Hel2]. rewrite (std_duration _ Hw). unfold quot. cbn [Z.eqb]. rewrite bind_ret.
  set (ms := as_millis_u64 elapsed). assert (Hms : ms = elapsed / 1000000) by (by apply millis_ns).
  pose proof (Z.div_mod elapsed 1000000 ltac:(lia)) as Hdm. pose proof (Z.mod_pos_bound elapsed 1000000 ltac:(lia)) as Hmm. rewrite <- Hms in Hdm.
  pose proof (Z.div_mod ms 10 ltac:(lia)) as Hdt. pose proof (Z.mod_pos_bound ms 10 ltac:(lia)) as Hmt.
  destruct (Z.ltb_spec 0 (ms / 10)) as [Hpos | Hnone]; [| by exists u]. specialize (Hel2 ltac:(lia)).
  unfold advance_timers. destruct (advance_std (ud_wheel u) elapsed Hw) as (w & X & -> & Hw' & Hgt' & Hm).
  { change TICK with 10. fold ms. lia. }
  change TICK with 10 in Hgt'. fold ms in Hgt'. rewrite bind_ret.
  set (tp := last + from_millis (ms / 10 * 10)). assert (Htp : from_millis (ms / 10 * 10) = ms / 10 * 10 * 1000000) by done.
  destruct (timer_loop_ok I0 N pend tp X (wheel_pending w) (wheel_pending (ud_wheel u)) (with_wheel u w) Hm) as (o' & He & Hc').
  { apply core_timer_poll; [done | done |]. unfold clock_ok. change (from_millis TICK) with 10000000. lia. }
  match goal with |- context [each ?f _ _] => change f with timer_loop end. rewrite He. unfold and_then. rewrite bind_ret.
  rewrite arith_ok, bind_ret by (unfold U64; lia). eexists. split; [reflexivity |]. exact Hc'.
Qed.

(** ** Cancellations *)

Lemma flush_cancellations_loop_ok I0 N pend limit fuel : forall u n, uring_ok I0 N pend u ->
  (length (ud_pending_cancellations u) <= fuel)%nat ->
  post (flush_cancellations_loop fuel u n limit) (fun u' _ => uring_ok I0 N pend u').
Proof.
  induction fuel as [| fuel IH]; intros u n Hc Hn; cbn [flush_cancellations_loop];
    (destruct (limit <=? n); [by apply post_ok |]); destruct (ud_pending_cancellations u) as [| r rest] eqn:Hl; try by apply post_ok.
  { cbn in Hn. lia. }
  cbn [length] in Hn. pose proof (uc_cancels _ _ _ _ _ Hc) as HF. rewrite Hl in HF. apply Forall_cons in HF as [Hr HF].
  destruct (view_total _ _ _ _ _ _ (pc_target r) (uc_lanes _ _ _ _ _ Hc) Hr) as (v & -> & _).
  assert (Hgone : forall reason kind, cancel_target_kind (pc_target r) v = (reason, kind) ->
    post (try (u, _x) := accept_completion_anomaly_kind flush_backlog (record_cancel_target_gone (with_cancellations u rest) reason) kind
            (attach_from_op_token (pc_target r)) in flush_cancellations_loop fuel u n limit) (fun u' _ => uring_ok I0 N pend u')).
  { intros reason kind E. pose proof (core_cancellations _ _ _ _ _ rest Hc HF) as Hc1.
    unfold record_cancel_target_gone. set (c := match reason with GoneMissing => _ | _ => _ end).
    pose proof (count_core _ _ _ _ _ c Hc1) as Hc2. set (u2 := count _ c) in *.
    destruct (accept_anomaly_ok flush_backlog u2 kind (attach_from_op_token (pc_target r))) as (o' & x & -> & Hd & Ho).
    unfold and_then. rewrite bind_ret. apply IH; [| cbn; lia]. rewrite Ho. apply core_same_ops; [done | |].
    - apply reg_inv_only; [apply (uc_reg _ _ _ _ _ Hc2) | done].
    - by apply same_info_diagnostics. }
  destruct v as [c | a b | sn | sn].
  - pose proof (try_submit_ok _ _ _ _ r Hc) as Hc1. destruct (try_submit_cancel_request u r) as [u1 [id |]]; cbn [fst] in Hc1; [| by apply post_ok].
    apply IH; [by apply core_cancellations | cbn; lia].
  - destruct (cancel_target_kind _ _) as [reason kind] eqn:E. by apply Hgone.
  - destruct (cancel_target_kind _ _) as [reason kind] eqn:E. by apply Hgone.
  - destruct (cancel_target_kind _ _) as [reason kind] eqn:E. by apply Hgone.
Qed.

Lemma flush_cancellations_ok I0 N pend u : uring_ok I0 N pend u -> post (flush_cancellations u) (fun u' _ => uring_ok I0 N pend u').
Proof. intros Hc. by apply flush_cancellations_loop_ok. Qed.

(** ** Handing over *)

Lemma submit_to_kernel_ok I0 N pend u : uring_ok I0 N pend u -> post (submit_to_kernel u) (fun u' _ => uring_ok I0 N pend u').
Proof.
  intros Hc. unfold submit_to_kernel. apply (post_try _ _ (fun u' _ => uring_ok I0 N pend u')); [| intros u1 x Hc1; by apply flush_backlog_ok | done].
  destruct (is_setup_sqpoll (ud_ring u)).
  - destruct (sq_need_wakeup (ud_ring u)); [| by apply post_ok]. pose proof (submit_keeps (ud_ring u)) as Hk.
    destruct (ring_submit (ud_ring u)) as [r [n | e]]; by apply post_ok, ok_ring.
  - destruct (_ <? _); [| by apply post_ok]. pose proof (enter_keeps (ud_ring u) (wrap U32 (sq_len (ud_ring u))) 0 IORING_ENTER_GETEVENTS) as Hk.
    destruct (ring_enter _ _ _ _) as [r [n | e]]; by apply post_ok, ok_ring.
Qed.
End timers.

(** [drain_cancel_requests] takes the requests one by one. *)
Section drain.
Context `{Laws : IoUringLaws} `{UringPayloads} `{UringTimers} `{Registrar} `{Clients : !UringClients}.
Implicit Types (u : UringDriver).

Lemma remote_limit_weaken (R R' : nat) I0 N pend P u : (R <= R')%nat ->
  uring_core (H3 := R) I0 N pend P u -> uring_core (H3 := R') I0 N pend P u.
Proof. intros HR []. split; try done. split; [apply uc_remote | etrans; [apply uc_remote | done]]. Qed.

Lemma drain_requests_ok I0 N pend fuel : forall u d, uring_ok (H3 := fuel) I0 N pend u ->
  post (drain_requests_loop fuel u d) (fun u' _ => uring_ok (H3 := fuel) I0 N pend u').
Proof.
  induction fuel as [| fuel IH]; intros u d Hc; cbn [drain_requests_loop];
    destruct (uc_remote _ _ _ _ _ Hc) as [HF Hn]; destruct (ud_remote_cancels u) as [| r rest] eqn:Hl; try (by apply post_ret).
  { cbn in Hn. unfold remote_limit in Hn. lia. }
  apply Forall_cons in HF as [Hr HF]. cbn [length] in Hn. unfold remote_limit in Hn.
  assert (Hc1 : uring_ok (H3 := fuel) I0 N pend (with_remote_cancels u rest)).
  { destruct Hc. split; try done. split; [done |]. unfold remote_limit. cbn. lia. }
  eapply post_try; [by apply (cancel_op_ok (H3 := fuel) flush_backlog) | |].
  - intros u1 x Hc2. eapply post_mono; [by apply IH |]. intros u2 y Hc3. eapply remote_limit_weaken; [| exact Hc3]. lia.
  - intros u1 e Hc2. eapply remote_limit_weaken; [| exact Hc2]. lia.
Qed.

Context `{R : RemoteLimit}.

Lemma drain_ok I0 N pend u : uring_ok I0 N pend u -> post (drain_cancel_requests u) (fun u' _ => uring_ok I0 N pend u').
Proof.
  intros Hc. eapply post_mono; [apply (drain_requests_ok I0 N pend) |].
  - destruct Hc. split; try done. split; [apply uc_remote | done].
  - intros u' x Hc'. eapply remote_limit_weaken; [| exact Hc']. apply (uc_remote _ _ _ _ _ Hc).
Qed.
End drain.
