(* ===== verification/UringDrive.v ===== *)
(** * Every call of the io_uring driver keeps its invariant

    [drive], the calls of the [Driver] trait and those of the futures. *)

From stdpp Require Import strings gmap.
From S2P Require Import Prelude BitSet SlotMap WheelConfig Wheel Timers Token SlotState Anomaly SlotTable Completion Registry Flow RegistryInv CompletionSpec DriverSteps DriverSafety OpLifecycle SlotInfo DriverApi UringBase FileTable UringFrame UringOp UringHooks UringDriver UringInv UringState UringAccept UringCancel UringSubmit UringFlush UringComplete UringTimers.

Section drive.
Context `{Laws : IoUringLaws} `{UringPayloads} `{UringTimers} `{Registrar} `{R : RemoteLimit} `{Clients : !UringClients}.
Notation Ops := (OpRegistry (Spec := UringSlotSpec)).
Notation Info := (SlotInfo (Spec := UringSlotSpec)).
Implicit Types (u : UringDriver) (o : Ops) (i : Info) (k : nat).

(** ** Driving *)

(** The invariant after a call that may have lost a batch when it fails. *)
Definition drive_post {A} I0 N pend u (x : result A Report) : Prop :=
  match x with
  | Ok _ => uring_ok I0 N pend u
  | Err _ => exists lost, uring_ok I0 N (lost ++ pend) u
  end.

Lemma drive_post_ok {A} I0 N pend u (x : result A Report) : uring_ok I0 N pend u -> drive_post I0 N pend u x.
Proof. intros Hc. destruct x; [done | by exists []]. Qed.

(** A step that keeps the invariant, and one that may lose a batch. *)
Lemma drive_try {A B} I0 N pend m (k : UringDriver -> A -> outcome (UringDriver * result B Report)) :
  post m (fun u' _ => uring_ok I0 N pend u') -> (forall u x, uring_ok I0 N pend u -> post (k u x) (drive_post I0 N pend)) ->
  post (and_then m k) (drive_post I0 N pend).
Proof. intros Hm Hk. eapply post_try; [exact Hm | done |]. intros u e Hu. by apply drive_post_ok. Qed.

Lemma drive_last {A} I0 N pend (m : outcome (UringDriver * result A Report)) :
  post m (fun u' _ => uring_ok I0 N pend u') -> post m (drive_post I0 N pend).
Proof. intros Hm. eapply post_mono; [exact Hm |]. intros u x. apply drive_post_ok. Qed.

Lemma process_try {B} I0 N pend u (k : UringDriver -> CompletionFlowOutcome -> outcome (UringDriver * result B Report)) :
  uring_ok I0 N pend u -> (forall u x, uring_ok I0 N pend u -> post (k u x) (drive_post I0 N pend)) ->
  post (try (u, progress) := process_completions_internal u in _ ← semantic_count progress; k u progress) (drive_post I0 N pend).
Proof.
  intros Hc Hk. eapply post_try; [by apply process_completions_ok | | by intros u1 e].
  intros u1 f [Hc1 Hf]. destruct (semantic_count_ok _ f Hf) as [n ->]; [done |]. rewrite bind_ret. by apply Hk.
Qed.

Lemma std_timeout I0 N pend u : uring_ok I0 N pend u -> exists d, next_timeout (ud_wheel u) = Ret d.
Proof.
  intros Hc. eapply next_timeout_std; [apply (uc_wheel _ _ _ _ _ Hc)|]. by eapply clock_bound, (uc_clock _ _ _ _ _ Hc).
Qed.

Lemma wait_ok I0 N pend u : uring_ok I0 N pend u -> post (wait_internal u) (drive_post I0 N pend).
Proof.
  intros Hc. unfold wait_internal.
  apply drive_try; [by apply drain_ok |]. intros u1 x1 Hc1.
  apply drive_try; [by apply flush_cancellations_ok |]. intros u2 x2 Hc2.
  apply drive_try; [by apply flush_backlog_ok |]. intros u3 x3 Hc3.
  destruct (negb _); [by apply drive_last, post_ok |].
  apply drive_try.
  { destruct (cq_is_empty (ud_ring u3)); [| by apply post_ok]. destruct (std_timeout _ _ _ _ Hc3) as [d ->]. rewrite bind_ret.
    assert (Hk : outstanding (match d with
      | Some duration => ring_submit_with_timeout (ud_ring u3) 1 duration
      | None => ring_submit_and_wait (ud_ring u3) 1
      end).1 ≡ₚ outstanding (ud_ring u3)) by (destruct d; [apply timeout_keeps | apply wait_keeps]).
    destruct (match d with Some _ => _ | None => _ end) as [r [n | e]]; cbn zeta; [by apply post_ok, ok_ring |].
    destruct (_ && _); by apply post_ok, ok_ring. }
  intros u4 x4 Hc4. destruct (poll_timers_ok _ _ _ _ Hc4) as (u5 & -> & Hc5). unfold and_then at 1. rewrite bind_ret.
  apply process_try; [done |]. intros u6 x6 Hc6.
  apply drive_try; [by apply flush_cancellations_ok |]. intros u7 x7 Hc7. by apply drive_last, flush_backlog_ok.
Qed.

Lemma poll_ok I0 N pend u : uring_ok I0 N pend u -> post (poll_nonblocking_internal u) (drive_post I0 N pend).
Proof.
  intros Hc. unfold poll_nonblocking_internal.
  apply drive_try; [by apply drain_ok |]. intros u1 x1 Hc1.
  apply drive_try; [by apply flush_cancellations_ok |]. intros u2 x2 Hc2.
  apply drive_try; [by apply flush_backlog_ok |]. intros u3 x3 Hc3.
  apply drive_try; [by apply submit_to_kernel_ok |]. intros u4 x4 Hc4.
  apply process_try; [done |]. intros u5 x5 Hc5.
  destruct (poll_timers_ok _ _ _ _ Hc5) as (u6 & -> & Hc6). unfold and_then at 1. rewrite bind_ret.
  apply drive_try; [by apply flush_cancellations_ok |]. intros u7 x7 Hc7. by apply drive_last, flush_backlog_ok.
Qed.

Lemma outcome_ok I0 N pend u : uring_ok I0 N pend u -> post (drive_outcome u) (drive_post I0 N pend).
Proof.
  intros Hc. unfold drive_outcome. destruct (std_timeout _ _ _ _ Hc) as [d ->]. rewrite bind_ret. by apply post_ret.
Qed.

Lemma drive_ok I0 N pend u mode : uring_ok I0 N pend u -> post (drive u mode) (drive_post I0 N pend).
Proof.
  intros Hc. assert (Hgo : forall m, post m (drive_post I0 N pend) ->
    post (and_then m (fun u (_ : unit) => drive_outcome u)) (drive_post (A := DriveOutcome) I0 N pend)).
  { intros m Hm. eapply post_try; [exact Hm | | by intros u1 e]. intros u1 [] Hc1. by apply outcome_ok. }
  destruct mode; cbn [drive]; [by apply Hgo, poll_ok |].
  destruct (negb _); [by apply outcome_ok | by apply Hgo, wait_ok].
Qed.
End drive.

(** ** The other calls *)

Section calls.
Context `{Laws : IoUringLaws} `{UringPayloads} `{UringTimers} `{Registrar} `{R : RemoteLimit} `{Clients : !UringClients}.
Notation Ops := (OpRegistry (Spec := UringSlotSpec)).
Notation Info := (SlotInfo (Spec := UringSlotSpec)).
Implicit Types (u : UringDriver) (o : Ops) (i : Info) (k : nat).

(** The memory that the kernel has stays, whatever becomes of other slots. *)
Definition lent_kept (I I' : nat -> option Info) : Prop :=
  forall k i, I k = Some i -> submitted (slot_token k i) i -> exists i', I' k = Some i' /\
    (at_rest i' \/ (in_air i' /\ si_generation i' = si_generation i /\ si_local i' = si_local i)).

Lemma rebase I0 N pend u : uring_ok I0 N pend u -> uring_ok (slot_info (ud_ops u)) N pend u.
Proof. intros []. split; try done. apply steady_refl. Qed.

(** A quiet slot changes. *)
Lemma quiet_call I0 N pend u k i i' o' : uring_ok I0 N pend u -> slot_info (ud_ops u) k = Some i -> quiet i ->
  reg_inv o' -> becomes (ud_ops u) k i' o' -> 0 <= si_generation i' ->
  slot_ok (pend ++ outstanding (ud_ring u)) (ud_backlog u) (wheel_pending (ud_wheel u)) k i' ->
  uring_ok (slot_info o') N pend (with_ops u o') /\ lent_kept (slot_info (ud_ops u)) (slot_info o').
Proof.
  intros Hc Hk Hq Ho Hb Hg Hok. split.
  - pose proof (uc_lanes _ _ _ _ _ Hc) as Hl. destruct Hc. split; try done; [apply steady_refl |].
    eapply lanes_calm; [exact Hl | exact Hk | exact Hb | exact Hg | exact Hq | done | exact Hok].
  - intros j ij Hj Hs. destruct (decide (j = k)) as [-> | Hne].
    + rewrite Hk in Hj. injection Hj as <-. exfalso. destruct Hs as [Hf Hp]. destruct Hq as [Hq | [Hq _]]; [apply Hq, Hf | by rewrite Hp in Hq].
    + exists ij. rewrite (proj2 Hb) by done. split; [done |]. right. by split; [apply Hs |].
Qed.

Lemma steady_lent I I' : steady I I' -> lent_kept I I'.
Proof. intros [Hs _] k i. apply Hs. Qed.

Definition call_post N pend u u' : Prop :=
  uring_ok (slot_info (ud_ops u')) N pend u' /\ lent_kept (slot_info (ud_ops u)) (slot_info (ud_ops u')).

Lemma call_post_steady N pend u u' : uring_ok (slot_info (ud_ops u)) N pend u' -> call_post N pend u u'.
Proof. intros Hc. split; [by eapply rebase |]. apply steady_lent, (uc_steady _ _ _ _ _ Hc). Qed.

Lemma call_post_same N pend u : uring_ok (slot_info (ud_ops u)) N pend u -> call_post N pend u u.
Proof. intros Hc. by apply call_post_steady. Qed.

Lemma with_same_ops u : with_ops u (ud_ops u) = u.
Proof. by destruct u. Qed.

Lemma reserve_ok N pend u : uring_ok (slot_info (ud_ops u)) N pend u -> post (reserve_op_raw u) (fun u' _ => call_post N pend u u').
Proof.
  intros Hc. unfold reserve_op_raw, registry_insert.
  destruct (alloc_info (ud_ops u) op_state_new (uc_reg _ _ _ _ _ Hc)) as (o' & x & -> & Ho & _ & Hx). rewrite bind_ret.
  destruct x as [hd | e].
  - destruct Hx as (Hi & Hg & (i & Hk & Hst) & Hb).
    assert (Hp : call_post N pend u (with_ops u o')).
    { eapply quiet_call; [exact Hc | exact Hk | | done | exact Hb | cbn; lia | cbn; split_and!; done].
      left. intros [E | E]; congruence. }
    by destruct (from_registry_parts _ _); apply post_ret.
  - apply post_ret. apply call_post_steady. apply core_same_ops; done.
Qed.

(** The memory of a reserved slot is set and taken. *)
Lemma storage_call_ok {X} N pend u token (f : SlotStorage -> SlotStorage * X) i : uring_ok (slot_info (ud_ops u)) N pend u ->
  token_ok token -> slot_info (ud_ops u) (Z.to_nat (tk_index token)) = Some i -> si_state i = Reserved ->
  exists o' x, with_slot_storage_mut (ud_ops u) token f = Ret (o', x) /\ call_post N pend u (with_ops u o').
Proof.
  intros Hc Ht Hk Hst. destruct (storage_mut_info (ud_ops u) token f i (uc_reg _ _ _ _ _ Hc) Ht Hk) as (o' & x & -> & Ho & _ & Hb).
  exists o', x. split; [done |]. destruct (_ && _).
  - destruct Hb as [_ Hb]. pose proof (uc_lanes _ _ _ _ _ Hc) as Hl. pose proof (ln_slot _ _ _ _ _ _ Hl _ _ Hk) as Hok.
    unfold slot_ok in Hok. rewrite Hst in Hok. eapply quiet_call; [exact Hc | exact Hk | | done | exact Hb | |].
    + left. intros [E | E]; congruence.
    + apply (ln_bound _ _ _ _ _ _ Hl _ _ Hk).
    + unfold slot_ok. cbn [si_state]. rewrite Hst. exact Hok.
  - destruct Hb as [_ ->]. rewrite with_same_ops. by apply call_post_same.
Qed.

Lemma release_call_ok N pend u token i : uring_ok (slot_info (ud_ops u)) N pend u -> token_ok token ->
  slot_info (ud_ops u) (Z.to_nat (tk_index token)) = Some i -> si_state i = Reserved ->
  exists u', release_op_slot_raw u token = Ret u' /\ call_post N pend u u'.
Proof.
  intros Hc Ht Hk Hst. destruct (release_ok _ _ _ _ _ i token Hc Ht Hk Hst) as (o1 & x & He & Hc1).
  unfold release_op_slot_raw. rewrite He, bind_ret. eexists. split; [done |]. by apply call_post_steady.
Qed.

Lemma register_call_ok N pend u files : uring_ok (slot_info (ud_ops u)) N pend u ->
  post (driver_register_files u files) (fun u' _ => call_post N pend u u').
Proof.
  intros Hc. unfold driver_register_files.
  destruct (register_kept (registry_capacity (ud_ops u)) (ud_ring u, ud_files u) files (uc_files _ _ _ _ _ Hc)) as ([r t] & x & -> & Hk & _).
  rewrite bind_ret. apply post_ret, call_post_steady. by apply (ok_files _ _ _ _ (r, t)).
Qed.

Lemma unregister_call_ok N pend u fds : uring_ok (slot_info (ud_ops u)) N pend u -> Forall (fun fd => 0 <= fd_index fd) fds ->
  post (driver_unregister_files u fds) (fun u' _ => call_post N pend u u').
Proof.
  intros Hc Hf. unfold driver_unregister_files.
  destruct (on_files_ok _ _ _ u (fun s => unregister_files s fds) Hc) as (r & t & x & -> & Hc1);
    [apply unregister_files_kept; [apply (uc_files _ _ _ _ _ Hc) | done] |].
  by apply post_ret, call_post_steady.
Qed.

(** ** Calls of the futures and of other threads *)

Lemma set_shared_same o : set_shared o (rg_shared o) = o.
Proof. by destruct o. Qed.

Lemma future_ok {X : Type} N pend u token (m : outcome (SlotTable * X)) : uring_ok (slot_info (ud_ops u)) N pend u ->
  future_call (ud_ops u) token m -> exists t x, m = Ret (t, x) /\ call_post N pend u (with_ops u (set_shared (ud_ops u) t)).
Proof.
  intros Hc (t & x & He & Ho & Hs). exists t, x. split; [done |]. destruct Hs as [Hs | (i & i' & Hk & Hg & Hst & Hb)].
  - apply call_post_steady. by apply core_same_ops.
  - pose proof (uc_lanes _ _ _ _ _ Hc) as Hl. pose proof (proj2 (ln_bound _ _ _ _ _ _ Hl _ _ Hk)) as Hgen.
    destruct Hst as [[Hw ->] | [Hr ->]].
    + apply call_post_steady. assert (Ha : in_air i) by (by left). eapply core_ops; [exact Hc | done | |].
      * eapply steady_change; [apply (uc_steady _ _ _ _ _ Hc) | exact Hk | exact Hb |]. split; [by apply given_up_fresh; rewrite Hw |].
        right. right. by split_and!; [| right | |].
      * eapply lanes_flight; [exact Hl | exact Hk | exact Hb | done | done | by right | done | done].
    + eapply quiet_call; [exact Hc | exact Hk | | done | exact Hb | | done].
      * left. intros [E | E]; congruence.
      * cbn. unfold wrapping_add, wrap. apply Z.mod_pos_bound. done.
Qed.

Lemma same_call_ok N pend u t : uring_ok (slot_info (ud_ops u)) N pend u -> reg_inv (set_shared (ud_ops u) t) ->
  same_info (ud_ops u) (set_shared (ud_ops u) t) -> call_post N pend u (with_ops u (set_shared (ud_ops u) t)).
Proof. intros Hc Ho Hs. apply call_post_steady. by apply core_same_ops. Qed.

(** ** A new driver *)

Lemma new_ok ring entries mode : outstanding ring = [] -> 0 <= entries < 2 ^ U32 ->
  post (new_internal ring entries mode) (fun u x => x = Ok tt -> uring_ok (slot_info (ud_ops u)) 0 [] u).
Proof.
  intros Hring Hent. unfold new_internal.
  destruct (new_info (Spec := UringSlotSpec) (Z.to_nat entries)) as (ops & -> & Hops & Hnew); [unfold NULL_INDEX, USIZE_MAX, U32 in *; lia |]. rewrite bind_ret.
  destruct (new_std (T := OpToken) (K := TimerKey) (M := TimerMap)) as (w & -> & Hw & Hgt & Hp). rewrite bind_ret.
  pose proof (eventfd_keeps ring) as He. destruct (eventfd ring) as [r [fd | e]]; cbn [fst] in He; cbn zeta; [| by apply post_ret].
  rewrite Hring in He. apply Permutation_nil_r in He. set (u0 := mkUring _ _ _ _ _ _ _ _ _ _ _ _).
  assert (Hc : uring_ok (slot_info ops) 0 [] u0).
  { pose proof (now_bound r) as Hnow. split; cbn; try done; [| | | split; [by apply Forall_nil | lia] | split; [by apply bitset_new_wf | done] | apply table_inv_empty].
    - apply steady_refl.
    - rewrite He, Hp. split; [| constructor | by intros x Hx%elem_of_nil | |].
      + intros k i Hk. destruct (Hnew k i Hk) as (_ & -> & Hlt). cbn. unfold U32 in Hent. lia.
      + intros k i Hk. destruct (Hnew k i Hk) as (Hst & _). unfold slot_ok. by rewrite Hst.
      + intros tid v Hv. by rewrite lookup_empty in Hv.
    - unfold clock_ok. rewrite Hgt. lia. }
  eapply post_try; [by apply submit_waker_ok | | by intros].
  intros u1 x Hc1. pose proof (register_buffers_keeps (ud_ring u1) (replicate (Z.to_nat MAX_CHUNKS) (0, 0))) as Hk.
  destruct (register_buffers _ _) as [r2 y]. cbn [fst] in Hk. apply post_ret. intros _. eapply (rebase (slot_info ops)), ok_ring; [exact Hc1 | exact Hk].
Qed.
End calls.
