(* ===== verification/UringSafety.v ===== *)
(** * The io_uring driver as a whole

    Programs of calls on a driver, the futures' and other threads' among them
    ([uring_reach]), and what always holds: no call panics or spins for ever,
    what the kernel works on belongs to an operation that keeps its memory, and,
    as long as [drive] reports no error, every operation in flight is waited for
    somewhere. *)

From stdpp Require Import strings gmap.
From S2P Require Import Prelude BitSet SlotMap WheelConfig Wheel Timers Token SlotState Anomaly SlotTable Completion Registry Flow RegistryInv CompletionSpec DriverSteps DriverSafety OpLifecycle SlotInfo DriverApi UringBase FileTable UringFrame UringOp UringHooks UringDriver UringInv UringState UringAccept UringCancel UringSubmit UringFlush UringComplete UringTimers UringDrive.

Section calls.
Context `{IoUring} `{UringPayloads} `{UringTimers} `{Registrar}.
Notation Table := (SlotTable (Spec := UringSlotSpec)).
Implicit Types u : UringDriver.

Inductive uring_call : Type :=
  | CReserve
  | CSetPayload (token : OpToken) (payload : UringUserPayload)
  | CTakePayload (token : OpToken)
  | CSubmit (token : OpToken) (op : UringKernelOp)
  | CCancel (request : CancelRequest)
  | CDrive (mode : DriveMode)
  | CRelease (token : OpToken)
  | CRegisterFiles (files : list RegisterFd)
  | CUnregisterFiles (fds : list IoFd)
  | CFutureWaiting (token : OpToken)
  | CFutureWaker (token : OpToken) (w : Waker)
  | CFutureTake (token : OpToken)
  | CFutureDiscard (token : OpToken)
  | CFutureOrphan (token : OpToken)
  | CRemoteCancel (request : CancelRequest)
  | CRemoteWake
  | CKernel (works : Ring -> Ring).

(** A call, its value dropped. *)
Definition ends {A} (m : outcome (UringDriver * result A Report)) : outcome (UringDriver * bool) :=
  '(u, x) ← m; Ret (u, match x with Ok _ => true | Err _ => false end).
Definition on_shared {X} u (m : outcome (Table * X)) : outcome (UringDriver * bool) :=
  '(t, _) ← m; Ret (with_ops u (set_shared (ud_ops u) t), true).

Definition uring_exec u (c : uring_call) : outcome (UringDriver * bool) :=
  match c with
  | CReserve => ends (reserve_op_raw u)
  | CSetPayload token payload => u ← slot_set_payload_raw u token payload; Ret (u, true)
  | CTakePayload token => '(u, _) ← slot_take_payload_raw u token; Ret (u, true)
  | CSubmit token op => '(u, _) ← submit_op_raw u token (Some op); Ret (u, true)
  | CCancel request => ends (cancel_op u request)
  | CDrive mode => ends (drive u mode)
  | CRelease token => u ← release_op_slot_raw u token; Ret (u, true)
  | CRegisterFiles files => ends (driver_register_files u files)
  | CUnregisterFiles fds => ends (driver_unregister_files u fds)
  | CFutureWaiting token => on_shared u (mark_waiting (rg_shared (ud_ops u)) token)
  | CFutureWaker token w => on_shared u (register_waker (rg_shared (ud_ops u)) token w)
  | CFutureTake token => on_shared u (try_take_record (rg_shared (ud_ops u)) token)
  | CFutureDiscard token => on_shared u (discard_ready_record (rg_shared (ud_ops u)) token)
  | CFutureOrphan token => on_shared u (mark_orphaned (rg_shared (ud_ops u)) token)
  | CRemoteCancel request => Ret (with_remote_cancels u (ud_remote_cancels u ++ [request]), true)
  | CRemoteWake => ends (waker_wake u)
  | CKernel works => Ret (with_ring u (works (ud_ring u)), true)
  end.

Definition op_info u (token : OpToken) : option (SlotInfo (Spec := UringSlotSpec)) :=
  slot_info (ud_ops u) (Z.to_nat (tk_index token)).
Definition is_reserved u (token : OpToken) : Prop := exists i, op_info u token = Some i /\ si_state i = Reserved.

(** Which calls are made: indices are unsigned, and the memory of a slot is
    touched, and the slot given back, only while it is reserved. *)
Definition call_allowed `{!IoUringLaws} u (c : uring_call) : Prop :=
  match c with
  | CReserve | CDrive _ | CRegisterFiles _ | CRemoteWake => True
  | CSetPayload token _ | CTakePayload token | CRelease token => token_ok token /\ is_reserved u token
  | CSubmit token op => token_ok token /\ kernel_op_ok op
  | CCancel request | CRemoteCancel request => token_ok (cn_target request)
  | CUnregisterFiles fds => Forall (fun fd => 0 <= fd_index fd) fds
  | CFutureWaiting token | CFutureWaker token _ | CFutureTake token | CFutureDiscard token | CFutureOrphan token => token_ok token
  | CKernel works => outstanding (works (ud_ring u)) ≡ₚ outstanding (ud_ring u)
  end.

Definition is_drive (c : uring_call) : bool := match c with CDrive _ => true | _ => false end.

(** The states of a driver; [calm] while no [drive] has ended in an error. *)
Inductive uring_reach `{!IoUringLaws} (entries : Z) : bool -> UringDriver -> Prop :=
  | reach_new ring mode u : outstanding ring = [] -> 0 <= entries < 2 ^ U32 ->
      new_internal ring entries mode = Ret (u, Ok tt) -> uring_reach entries true u
  | reach_call calm u c u' fine : uring_reach entries calm u -> call_allowed u c ->
      uring_exec u c = Ret (u', fine) -> uring_reach entries (calm && (fine || negb (is_drive c))) u'.
End calls.

Section safety.
Context `{Laws : IoUringLaws} `{UringPayloads} `{UringTimers} `{Registrar} `{Clients : !UringClients}.
Notation Info := (SlotInfo (Spec := UringSlotSpec)).
Implicit Types (u : UringDriver) (i : Info) (k : nat).

(** The invariant between calls. *)
Definition uring_inv (calm : bool) u : Prop :=
  exists (R : nat) N pend, uring_ok (H3 := R) (slot_info (ud_ops u)) N pend u /\ (calm = true -> pend = []).

(** One call. *)
Definition call_ends calm u c (m : outcome (UringDriver * bool)) : Prop :=
  exists u' fine, m = Ret (u', fine) /\ uring_inv (calm && (fine || negb (is_drive c))) u' /\
    lent_kept (slot_info (ud_ops u)) (slot_info (ud_ops u')).

Lemma calm_end calm u c u' fine (R : nat) N pend : is_drive c = false -> (calm = true -> pend = []) ->
  call_post (R := R) N pend u u' -> call_ends calm u c (Ret (u', fine)).
Proof.
  intros Hd Hp [Hc Hl]. exists u', fine. split; [done |]. split; [| done]. exists R, N, pend. split; [done |].
  rewrite Hd, orb_true_r, andb_true_r. done.
Qed.

Lemma ends_calm {A} calm u c (R : nat) N pend (m : outcome (UringDriver * result A Report)) : is_drive c = false ->
  (calm = true -> pend = []) -> post m (fun u' _ => call_post (R := R) N pend u u') -> call_ends calm u c (ends m).
Proof. intros Hd Hp (u' & x & -> & Hq). unfold ends. rewrite bind_ret. by eapply calm_end. Qed.

Lemma post_steady {A} N pend u (m : outcome (UringDriver * A)) (R : nat) :
  post m (fun u' _ => uring_ok (H3 := R) (slot_info (ud_ops u)) N pend u') -> post m (fun u' _ => call_post (R := R) N pend u u').
Proof. intros Hm. eapply post_mono; [exact Hm |]. intros u' x. apply call_post_steady. Qed.

Lemma shared_calm {X : Type} calm u c (R : nat) N pend token (m : outcome (SlotTable (Spec := UringSlotSpec) * X)) : is_drive c = false ->
  (calm = true -> pend = []) -> uring_ok (H3 := R) (slot_info (ud_ops u)) N pend u -> future_call (ud_ops u) token m ->
  call_ends calm u c (on_shared u m).
Proof.
  intros Hd Hp Hc Hf. destruct (future_ok (R := R) N pend u token m Hc Hf) as (t & x & -> & Hq). unfold on_shared.
  rewrite bind_ret. by eapply calm_end.
Qed.

Lemma drive_ends calm u mode (R : nat) N pend : (calm = true -> pend = []) ->
  uring_ok (H3 := R) (slot_info (ud_ops u)) N pend u -> call_ends calm u (CDrive mode) (ends (drive u mode)).
Proof.
  intros Hp Hc. destruct (drive_ok (R := R) _ N pend u mode Hc) as (u' & x & -> & Hq). unfold ends. rewrite bind_ret.
  eexists _, _. split; [done |]. destruct x as [d | e]; cbn [drive_post is_drive negb orb] in *.
  - split; [exists R, N, pend; rewrite andb_true_r; split; [by eapply rebase | done] | apply steady_lent, (uc_steady _ _ _ _ _ Hq)].
  - destruct Hq as [lost Hq]. split; [exists R, N, (lost ++ pend); rewrite andb_false_r; split; [by eapply rebase | done] |].
    apply steady_lent, (uc_steady _ _ _ _ _ Hq).
Qed.

Lemma exec_ends calm u c : uring_inv calm u -> call_allowed u c -> call_ends calm u c (uring_exec u c).
Proof.
  intros (R & N & pend & Hc & Hp) Ha. destruct c; cbn [uring_exec call_allowed] in *.
  - eapply ends_calm; [done | exact Hp | by apply (reserve_ok (R := R))].
  - destruct Ha as [Ht (i & Hk & Hr)]. unfold slot_set_payload_raw.
    match goal with |- context [with_slot_storage_mut _ _ ?f] =>
      destruct (storage_call_ok (R := R) N pend u token f i Hc Ht Hk Hr) as (o' & x & -> & Hq) end.
    rewrite !bind_ret. by eapply calm_end.
  - destruct Ha as [Ht (i & Hk & Hr)]. unfold slot_take_payload_raw.
    match goal with |- context [with_slot_storage_mut _ _ ?f] =>
      destruct (storage_call_ok (R := R) N pend u token f i Hc Ht Hk Hr) as (o' & x & -> & Hq) end.
    rewrite !bind_ret. by eapply calm_end.
  - destruct Ha as [Ht Hop]. assert (Hs : submit_op_raw u token (Some op) = submit_internal u token op) by (cbn; by destruct (vt_strategy _)).
    rewrite Hs. destruct (submit_internal_ok (H3 := R) _ N pend u token op Hc Ht Hop) as (u' & x & -> & Hq & _). rewrite bind_ret.
    eapply (calm_end _ _ _ _ _ R (S N)); [done | exact Hp | by apply call_post_steady].
  - eapply ends_calm; [done | exact Hp |]. apply (post_steady N pend u _ R). by apply cancel_op_ok.
  - by eapply drive_ends.
  - destruct Ha as [Ht (i & Hk & Hr)]. destruct (release_call_ok (R := R) N pend u token i Hc Ht Hk Hr) as (u' & -> & Hq).
    rewrite bind_ret. by eapply calm_end.
  - eapply ends_calm; [done | exact Hp | by apply (register_call_ok (R := R))].
  - eapply ends_calm; [done | exact Hp | by apply (unregister_call_ok (R := R))].
  - destruct (waiting_info (ud_ops u) token (uc_reg _ _ _ _ _ Hc) Ha) as (t & x & -> & Ho & Hs). unfold on_shared. rewrite bind_ret.
    eapply calm_end; [done | exact Hp | by apply (same_call_ok (R := R))].
  - destruct (waker_info (ud_ops u) token w (uc_reg _ _ _ _ _ Hc) Ha) as (t & x & -> & Ho & Hs). unfold on_shared. rewrite bind_ret.
    eapply calm_end; [done | exact Hp | by apply (same_call_ok (R := R))].
  - eapply shared_calm; [done | exact Hp | exact Hc | apply take_info; [apply (uc_reg _ _ _ _ _ Hc) | exact Ha]].
  - eapply shared_calm; [done | exact Hp | exact Hc | apply discard_info; [apply (uc_reg _ _ _ _ _ Hc) | exact Ha]].
  - eapply shared_calm; [done | exact Hp | exact Hc | apply orphan_info; [apply (uc_reg _ _ _ _ _ Hc) | exact Ha]].
  - eapply (calm_end _ _ _ _ _ (S R) N); [done | exact Hp |]. apply call_post_steady. destruct Hc as [? ? ? ? ? ? ? ? [Hf Hl] ? ? ?]. split; try done.
    cbn. rewrite length_app. unfold remote_limit in *. cbn. split; [by apply Forall_app_2; [| constructor] | lia].
  - eapply ends_calm; [done | exact Hp |]. apply (post_steady N pend u _ R). by apply waker_wake_ok.
  - eapply (calm_end _ _ _ _ _ R N); [done | exact Hp |]. apply call_post_steady. by apply ok_ring.
Qed.

Lemma uring_reach_inv entries calm u : uring_reach entries calm u -> uring_inv calm u.
Proof.
  induction 1 as [ring mode u Hring Hent Hnew | calm u c u' fine _ IH Ha He].
  - destruct (new_ok (R := 0%nat) ring entries mode Hring Hent) as (u' & x & He & Hc). rewrite Hnew in He. injection He as <- <-.
    exists 0%nat, 0%nat, []. auto.
  - destruct (exec_ends _ _ _ IH Ha) as (u2 & f2 & He2 & Hi & _). rewrite He in He2. by injection He2 as <- <-.
Qed.

Lemma reach_flying entries calm u k i : uring_reach entries calm u -> slot_info (ud_ops u) k = Some i -> in_air i ->
  flying (slot_token k i) i.
Proof.
  intros Hr Hk Ha. destruct (uring_reach_inv _ _ _ Hr) as (R & N & pend & Hc & _).
  pose proof (ln_slot _ _ _ _ _ _ (uc_lanes _ _ _ _ _ Hc) _ _ Hk) as Hok. apply slot_ok_air in Hok; [| done]. apply Hok.
Qed.

(** C2 The kernel works on memory that is there.  Whatever sequence of calls of
    the application, the futures and other threads brought a driver to its
    state, every entry of a user operation that the kernel has not completed
    names, with all of its bits, a slot that is in flight with its operation
    and its payload; and the next call returns without panic or endless loop,
    and leaves what such a slot holds untouched unless it finishes the
    operation. *)
Theorem uring_kernel_memory_safe entries calm u (Hr : uring_reach entries calm u) :
  (forall x, x ∈ outstanding (ud_ring u) -> x < 2 ^ 63 ->
     exists token i, x = token_user token /\ op_info u token = Some i /\ submitted token i) /\
  (forall c, call_allowed u c -> exists u' fine, uring_exec u c = Ret (u', fine) /\
     forall token i, op_info u token = Some i -> submitted token i ->
       exists i', op_info u' token = Some i' /\
         (at_rest i' \/ (flying token i' /\ si_local i' = si_local i))).
Proof.
  pose proof (uring_reach_inv _ _ _ Hr) as Hi. split.
  - destruct Hi as (R & N & pend & Hc & _). intros x Hx Hlt.
    destruct (ln_out _ _ _ _ _ _ (uc_lanes _ _ _ _ _ Hc) x) as [(t & i & -> & _ & _ & Hk & Hs) | [[-> _] | (id & -> & Hid & _)]].
    + rewrite elem_of_app. by right.
    + by exists t, i.
    + by rewrite token_waker_val in Hlt.
    + rewrite token_cancel_val in Hlt by done. lia.
  - intros c Ha. destruct (exec_ends _ _ _ Hi Ha) as (u' & fine & He & _ & Hl). exists u', fine. split; [done |].
    intros token i Hk [Hf Hp]. destruct (Hl (Z.to_nat (tk_index token)) i Hk) as (i' & Hk' & Hs); [by rewrite (flying_token token i Hf) |].
    exists i'. split; [done |]. destruct Hs as [Hs | (Hair & Hg & Hloc)]; [by left |]. right. split; [| done].
    destruct Hf as (Hf1 & _ & Hf2). split; [done |]. split; [done |]. by rewrite Hg, Hloc.
Qed.

(** C6 While no call of [drive] has ended in an error, no operation is forgotten:
    one that is in flight is queued in the backlog, or its timer is in the
    wheel, or the kernel has still to complete it; the last holds for as long as
    the generation of the slot fits the 15 bits it has in a completion token. *)
Theorem uring_no_operation_lost entries u k i (Hr : uring_reach entries true u)
    (Hk : slot_info (ud_ops u) k = Some i) (Hair : in_air i) :
  match submission_state (info_platform i) with
  | UrQueued => slot_token k i ∈ ud_backlog u
  | UrTimer => exists tid due, timer_id (info_platform i) = Some tid /\ wheel_pending (ud_wheel u) !! tid = Some (due, slot_token k i)
  | UrKernelSubmitted => si_generation i < 2 ^ 15 -> token_user (slot_token k i) ∈ outstanding (ud_ring u)
  | UrIdle => False
  end.
Proof.
  destruct (uring_reach_inv _ _ _ Hr) as (R & N & pend & Hc & Hp). rewrite (Hp eq_refl) in Hc.
  pose proof (ln_slot _ _ _ _ _ _ (uc_lanes _ _ _ _ _ Hc) _ _ Hk) as Hok. apply slot_ok_air in Hok; [| done].
  destruct Hok as (_ & _ & Hok). destruct (submission_state (info_platform i)); try done; apply Hok.
Qed.

(** What a slot holds in each of its states. *)
Definition slot_typed k i : Prop :=
  match si_state i with
  | Reserved => reserved_ok i
  | InFlightWaiting | InFlightOrphaned => flying (slot_token k i) i /\
      match info_platform i with
      | mkOpState None UrQueued | mkOpState None UrKernelSubmitted | mkOpState (Some _) UrTimer => True
      | _ => False
      end
  | _ => True
  end.

(** C14 The state of the driver is well-formed after any calls: a reserved slot
    has no operation yet and a fresh platform part, one in flight has operation
    and payload under the generation it shows, and a timer key exactly when its
    timer is set; file table and wheel keep their invariants, the wheel is never
    ahead of the clock it is driven by, the chunk set keeps its size and the
    numbers of cancellations their 16 bits.  Of what is with the kernel no two
    entries have the same user data, and the waker is marked as armed while its
    read is among them. *)
Theorem uring_state_well_formed entries calm u (Hr : uring_reach entries calm u) :
  reg_inv (ud_ops u) /\
  (forall k i, slot_info (ud_ops u) k = Some i -> slot_typed k i) /\
  table_inv (ud_files u) /\
  wheel_std (ud_wheel u) /\ global_tick (ud_wheel u) * from_millis TICK <= ud_last_timer_poll u < 2 ^ 62 /\
  (forall tid due token, wheel_pending (ud_wheel u) !! tid = Some (due, token) ->
     exists i, op_info u token = Some i /\ timer_of i tid token) /\
  bitset_wf (ck_registered (ud_chunks u)) /\ bs_size (ck_registered (ud_chunks u)) = MAX_CHUNKS /\
  1 <= ud_next_cancel_id u < 2 ^ 16 /\
  NoDup (outstanding (ud_ring u)) /\
  (token_waker 0 ∈ outstanding (ud_ring u) -> wk_armed (ud_waker u) = true).
Proof.
  destruct (uring_reach_inv _ _ _ Hr) as (R & N & pend & Hc & _). pose proof (uc_lanes _ _ _ _ _ Hc) as Hl.
  split_and!; try apply Hc.
  - intros k i Hk. pose proof (ln_slot _ _ _ _ _ _ Hl _ _ Hk) as Hok. unfold slot_ok in Hok. unfold slot_typed.
    destruct (si_state i); try done; destruct Hok as (Hf & Ho & Hp); (split; [done |]); destruct (info_platform i) as [[tid |] []];
      try done; by destruct Hp as (? & ? & ? & ?) || by destruct Hp.
  - intros tid due token Ht. destruct (ln_timer _ _ _ _ _ _ Hl _ _ Ht) as (_ & i & Hk & Htm). by exists i.
  - pose proof (ln_nodup _ _ _ _ _ _ Hl) as Hn. by apply NoDup_app in Hn as (_ & _ & Hn).
  - intros Hx. destruct (wk_armed (ud_waker u)) eqn:Ha; [done |]. exfalso. eapply waker_free; [exact Hl |].
    rewrite elem_of_app. by right.
Qed.

(** ** A cancellation that came too late *)

Lemma count_reg u c : reg_inv (ud_ops u) -> reg_inv (ud_ops (count u c)).
Proof. intros Ho. destruct (count_ops u c) as (o & -> & Hd & ->). by apply reg_inv_only. Qed.

Lemma count_list_keeps l : forall u, reg_inv (ud_ops u) ->
  reg_inv (ud_ops (foldl count u l)) /\ same_info (ud_ops u) (ud_ops (foldl count u l)) /\ ud_ring (foldl count u l) = ud_ring u.
Proof. induction l as [| c l IH]; intros u Ho; [done |]. cbn [foldl]. apply (IH (count u c)). by apply count_reg. Qed.

Lemma end_hooks_keeps u o h : reg_inv o ->
  reg_inv (ud_ops (end_hooks u o h)) /\ same_info o (ud_ops (end_hooks u o h)) /\ ud_ring (end_hooks u o h) = ud_ring u.
Proof.
  intros Ho. unfold end_hooks. match goal with |- context [foldl count ?v _] => exact (count_list_keeps (uh_counts h) v Ho) end.
Qed.

Lemma accept_enoent u (id : CancelCompletionId) r fl : 0 <= id < 2 ^ 16 -> ud_pending_cancel_cqes u !! id = Some r ->
  exists h, accept_completion (ud_ops u, driver_hooks u SynNone)
      (IngressKernel (envelope_from_raw_parts COMP_BACKEND_URING (token_cancel id) (- ENOENT) fl)) = Ret ((ud_ops u, h), Ok flow_internal) /\
    uh_post h = mkPost false false false [(id, r, mkRaw COMP_BACKEND_URING (token_cancel id) (- ENOENT) fl)] [].
Proof.
  intros Hid Hp. cbn [accept_completion]. rewrite dispatch_cancel, bind_ret by done. unfold lift_hook, and_then. rewrite bind_ret.
  cbn [handle_control uring_hooks uring_handle_control fst snd]. unfold handle_cancel_control.
  cbn [driver_hooks uh_pending_cancel_cqes]. rewrite Hp. by eexists.
Qed.

Lemma enoent_fails u1 r i : reg_inv (ud_ops u1) -> op_info u1 (pc_target r) = Some i -> flying (pc_target r) i ->
  record_cancel_enoent_if_target_active u1 r = fail (count u1 CancelAckEnoentActiveCount) InvalidState.
Proof.
  intros Ho Hk Hf. unfold record_cancel_enoent_if_target_active.
  destruct (flying_in_flight (ud_ops u1) _ i Hf Hk) as [d Hin]. pose proof Hf as (_ & Hair & _).
  rewrite (flight_view _ _ _ _ _ Hin) by exact Hair. by destruct Hair as [-> | ->].
Qed.

Lemma enoent_ingress u (id : CancelCompletionId) r i fl : 0 <= id < 2 ^ 16 -> ud_pending_cancel_cqes u !! id = Some r -> reg_inv (ud_ops u) ->
  op_info u (pc_target r) = Some i -> flying (pc_target r) i ->
  exists u', accept_completion_ingress flush_backlog u
      (IngressKernel (envelope_from_raw_parts COMP_BACKEND_URING (token_cancel id) (- ENOENT) fl)) SynNone =
    Ret (u', Err (report InvalidState)) /\ same_info (ud_ops u) (ud_ops u') /\ ud_ring u' = ud_ring u.
Proof.
  intros Hid Hp Ho Hk Hf. unfold accept_completion_ingress. match goal with |- context [mbind _ ?m] =>
    change m with (accept_completion (ud_ops u, driver_hooks u SynNone)
      (IngressKernel (envelope_from_raw_parts COMP_BACKEND_URING (token_cancel id) (- ENOENT) fl) : CompletionIngress BackendIngress)) end.
  destruct (accept_enoent u id r fl Hid Hp) as (h & -> & Hpost). rewrite bind_ret. unfold apply_post_completion_effects.
  rewrite Hpost. cbn [po_cancel_enoent each fst snd].
  set (u1 := end_hooks u _ _). destruct (end_hooks_keeps u (ud_ops u) h Ho) as (Ho1 & Hs1 & Hr1). rewrite (enoent_fails u1 r i Ho1); [| unfold op_info; by rewrite Hs1 | done].
  unfold and_then, fail. rewrite !bind_ret. eexists. split; [reflexivity |]. split; [exact Hs1 | exact Hr1].
Qed.

(** C22 An acknowledgement that the kernel does not know the operation to cancel,
    while its completion is still to be read, ends the batch: [drive] gets an
    error, and the operations whose completions stand behind it in the queue stay in
    flight although nothing is left that would complete them. *)
Theorem cancel_enoent_drops_batch entries calm u (id : CancelCompletionId) r i ring cqes fl (Hr : uring_reach entries calm u)
    (Hid : 0 <= id < 2 ^ 16) (Hp : ud_pending_cancel_cqes u !! id = Some r)
    (Hk : op_info u (pc_target r) = Some i) (Hf : flying (pc_target r) i)
    (Hd : cq_drain (ring_enter (ud_ring u) 0 0 IORING_ENTER_GETEVENTS).1 = (ring, (token_cancel id, - ENOENT, fl) :: cqes)) :
  exists u', process_completions_internal u = Ret (u', Err (report InvalidState)) /\
    same_info (ud_ops u) (ud_ops u') /\
    forall token j, token_user token ∈ (fun c => c.1.1) <$> cqes -> op_info u token = Some j -> submitted token j ->
      op_info u' token = Some j /\ token_user token ∉ outstanding (ud_ring u').
Proof.
  destruct (uring_reach_inv _ _ _ Hr) as (R & N & pend & Hc & _). unfold process_completions_internal.
  pose proof (enter_keeps (ud_ring u) 0 0 IORING_ENTER_GETEVENTS) as He.
  destruct (ring_enter (ud_ring u) _ _ _) as [r1 y]. cbn [fst] in He, Hd. rewrite Hd. cbn [accept_cqes].
  destruct (enoent_ingress (with_ring u ring) id r i fl Hid Hp (uc_reg _ _ _ _ _ Hc) Hk Hf) as (u' & -> & Hs & Hring).
  unfold and_then. rewrite bind_ret. exists u'. split; [done |]. split; [exact Hs |]. cbn in Hring.
  intros token j Hx Hj Hsub. split; [unfold op_info; by rewrite Hs |]. rewrite Hring. intros Hout.
  pose proof (drain_takes _ _ _ Hd) as Ht. pose proof (ln_nodup _ _ _ _ _ _ (uc_lanes _ _ _ _ _ Hc)) as Hn.
  apply NoDup_app in Hn as (_ & _ & Hn). rewrite <- He, <- Ht in Hn. apply NoDup_app in Hn as (_ & Hn & _).
  apply (Hn (token_user token)); [| done]. cbn. by right.
Qed.
End safety.
