(* ===== verification/UringFuture.v ===== *)
(** * The io_uring driver keeps the contract of the futures

    The driver as a [Driver], and that it keeps [DriverContract]: the theorems
    on futures hold for it. *)

From stdpp Require Import strings gmap.
From S2P Require Import Prelude BitSet SlotMap WheelConfig Wheel Timers Token SlotState Anomaly SlotTable Completion Registry Flow RegistryInv CompletionSpec DriverSteps DriverSafety OpLifecycle SlotInfo DriverApi OpFuture OpFutureSpec OpPhases UringBase FileTable UringFrame UringOp UringHooks UringDriver UringInv UringState UringAccept UringCancel UringSubmit UringFlush UringComplete UringTimers UringDrive UringSafety.

Section driver.
Context `{IoUring} `{UringPayloads} `{UringTimers} `{Registrar}.
Implicit Types u : UringDriver.

#[global] Instance uring_driver : Driver (Spec := UringSlotSpec) UringDriver := {
  drv_reserve_op := reserve_op_raw;
  drv_table u := rg_shared (ud_ops u);
  drv_set_table u t := with_ops u (set_shared (ud_ops u) t);
  drv_set_payload := slot_set_payload_raw;
  drv_take_payload := slot_take_payload_raw;
  drv_release := release_op_slot_raw;
  drv_submit := submit_op_raw;
  drv_cancel := cancel_op;
  drv_send_cancel u request := with_remote_cancels u (ud_remote_cancels u ++ [request]);
  drv_wake := waker_wake
}.

(** [CompletionValue for usize] *)
#[global] Instance usize_completion : CompletionValue (Spec := UringSlotSpec) := {
  from_event_res res := if 0 <=? res then Ok res else Err (set_error_code (to_report Internal) (- res))
}.

Definition uring_phase u (token : OpToken) : OpPhase (Spec := UringSlotSpec) := registry_phase (ud_ops u) token.
End driver.

Section contract.
Context `{Laws : IoUringLaws} `{UringPayloads} `{UringTimers} `{Registrar} `{Clients : !UringClients}.
Notation Info := (SlotInfo (Spec := UringSlotSpec)).
Implicit Types (u : UringDriver) (i : Info) (token : OpToken).

(** The invariant, whatever became of earlier calls of [drive]. *)
Definition uring_ready u : Prop := uring_inv false u.

Lemma ready_elim u : uring_ready u -> exists (R : nat) N pend, uring_ok (H3 := R) (slot_info (ud_ops u)) N pend u.
Proof. intros (R & N & pend & Hc & _). by exists R, N, pend. Qed.

Lemma ready_intro u (R : nat) I0 N pend : uring_ok (H3 := R) I0 N pend u -> uring_ready u.
Proof. intros Hc. exists R, N, pend. split; [by eapply rebase | done]. Qed.

Lemma ready_call u u' (R : nat) N pend : call_post (R := R) N pend u u' -> uring_ready u'.
Proof. intros [Hc _]. by eapply ready_intro. Qed.

Lemma ready_reg u : uring_ready u -> reg_inv (ud_ops u).
Proof. intros (R & N & pend & Hc)%ready_elim. apply (uc_reg _ _ _ _ _ Hc). Qed.

(** ** Reserved slots *)

Lemma reserve_keeps u : uring_ready u -> exists u' x, reserve_op_raw u = Ret (u', x) /\ uring_ready u' /\
  match x with Ok token => token_ok token /\ exists p, uring_phase u' token = PhaseReserved p | Err _ => True end.
Proof.
  intros Hu. destruct (ready_elim u Hu) as (R & N & pend & Hc).
  destruct (reserve_ok (R := R) N pend u Hc) as (u' & x & He & Hp). exists u', x. split; [done |].
  split; [by eapply ready_call |]. revert He. unfold reserve_op_raw, registry_insert.
  destruct (alloc_info (ud_ops u) op_state_new (uc_reg _ _ _ _ _ Hc)) as (o' & y & -> & Ho & _ & Hy). rewrite bind_ret.
  destruct y as [hd | e]; [| by intros [= <- <-]]. destruct Hy as (Hi & Hg & _ & Hb).
  unfold from_registry_parts, token_try_new. destruct (_ <=? _); [by intros [= <- <-] |]. intros [= <- <-].
  split; [unfold token_ok; cbn; lia |]. eexists. exact (phase_of_info o' (mkToken _ _) _ (proj1 Hb) eq_refl ltac:(done)).
Qed.

(** A call on the memory of a reserved slot. *)
Lemma storage_keeps {X} u token p (f : SlotStorage -> SlotStorage * X) : uring_ready u -> token_ok token ->
  uring_phase u token = PhaseReserved p ->
  exists o' s, with_slot_storage_mut (ud_ops u) token f = Ret (o', Some (f s).2) /\ sg_payload s = p /\ uring_ready (with_ops u o') /\
    uring_phase (with_ops u o') token = PhaseReserved (sg_payload (f s).1).
Proof.
  intros Hu Ht (i & Hi & Hg & Hst & Hp)%reserved_info. destruct (ready_elim u Hu) as (R & N & pend & Hc).
  destruct (storage_call_ok (R := R) N pend u token f i Hc Ht Hi Hst) as (o' & x & He & Hcall).
  destruct (storage_mut_info (ud_ops u) token f i (uc_reg _ _ _ _ _ Hc) Ht Hi) as (o2 & y & He2 & _ & _ & Hb).
  rewrite He in He2. injection He2 as <- <-. rewrite Hg, Z.eqb_refl, Hst in Hb. cbn [andb negb] in Hb. destruct Hb as [-> Hb].
  exists o', (ls_storage (si_local i)). split; [done |]. split; [done |]. split; [by eapply ready_call |].
  unfold uring_phase. change (ud_ops (with_ops u o')) with o'. by rewrite (phase_of_info _ _ _ (proj1 Hb)).
Qed.

Lemma set_payload_keeps u token p0 p : uring_ready u -> token_ok token -> uring_phase u token = PhaseReserved p0 ->
  exists u', slot_set_payload_raw u token p = Ret u' /\ uring_ready u' /\ uring_phase u' token = PhaseReserved (Some p).
Proof.
  intros Hu Ht Hp. unfold slot_set_payload_raw.
  match goal with |- context [with_slot_storage_mut _ _ ?f] => destruct (storage_keeps u token p0 f Hu Ht Hp) as (o' & s & -> & _ & Ho & Hp') end.
  rewrite bind_ret. by eexists.
Qed.

Lemma take_payload_keeps u token p : uring_ready u -> token_ok token -> uring_phase u token = PhaseReserved p ->
  exists u', slot_take_payload_raw u token = Ret (u', p) /\ uring_ready u' /\ uring_phase u' token = PhaseReserved None.
Proof.
  intros Hu Ht Hp. unfold slot_take_payload_raw.
  match goal with |- context [with_slot_storage_mut _ _ ?f] => destruct (storage_keeps u token p f Hu Ht Hp) as (o' & s & -> & Hs & Ho & Hp') end.
  rewrite bind_ret. eexists. split; [cbn; by rewrite Hs | done].
Qed.

Lemma release_keeps u token p : uring_ready u -> token_ok token -> uring_phase u token = PhaseReserved p ->
  exists u', release_op_slot_raw u token = Ret u' /\ uring_ready u' /\ uring_phase u' token = PhaseVacant.
Proof.
  intros Hu Ht (i & Hi & Hg & Hst & _)%reserved_info. destruct (ready_elim u Hu) as (R & N & pend & Hc).
  destruct (release_call_ok (R := R) N pend u token i Hc Ht Hi Hst) as (u' & He & Hcall). exists u'. split; [done |].
  split; [by eapply ready_call |]. revert He. unfold release_op_slot_raw.
  destruct (remove_info (ud_ops u) token i (uc_reg _ _ _ _ _ Hc) Ht Hi) as (o' & x & -> & _ & _ & Hb). rewrite bind_ret. intros [= <-].
  pose proof (ln_slot _ _ _ _ _ _ (uc_lanes _ _ _ _ _ Hc) _ _ Hi) as Hok. unfold slot_ok in Hok. rewrite Hst in Hok.
  destruct Hok as (Hact & Hlg & _). rewrite Hact, Hlg, Hg, Z.eqb_refl in Hb. destruct Hb as [_ [Hb _]]. rewrite Hst in Hb.
  eapply phase_info; [exact Hb | by right].
Qed.

(** ** Submitting *)

(** The driver's own operations, which do not write to their payload before they
    are in flight. *)
Definition future_op (op : UringKernelOp) : Prop := kernel_op_ok op /\ leaves_payload op.

Lemma submit_keeps u token p op : uring_ready u -> token_ok token -> uring_phase u token = PhaseReserved (Some p) -> future_op op ->
  exists u' x back, submit_op_raw u token (Some op) = Ret (u', (x, back)) /\ uring_ready u' /\
    match x with
    | Submitted _ | SubmitFailed _ InFlight => uring_phase u' token = PhaseInFlight
    | SubmitFailed _ Void => uring_phase u' token = PhaseReserved (Some p)
    end.
Proof.
  intros Hu Ht (i & Hi & Hg & Hst & Hp)%reserved_info [Hop Hleaves]. destruct (ready_elim u Hu) as (R & N & pend & Hc).
  assert (Hs : submit_op_raw u token (Some op) = submit_internal u token op) by (cbn; by destruct (vt_strategy _)). rewrite Hs.
  destruct (submit_internal_ok (H3 := R) _ N pend u token op Hc Ht Hop) as (u' & [x back] & -> & Hc' & Ha).
  exists u', x, back. split; [done |]. split; [by eapply ready_intro |]. specialize (Ha i Hi Hst Hg). cbn [fst] in Ha.
  rewrite Hp in Ha. destruct x as [b | e [|]]; [| by destruct Ha |].
  - destruct Ha as (i' & Hi' & Hw & Hg'). unfold uring_phase. rewrite (phase_of_info _ _ i' Hi' Hg'); unfold info_phase; by rewrite Hw.
  - destruct Ha as (i' & Hi' & Hr & Hg' & _ & Hp'). specialize (Hp' Hleaves).
    unfold uring_phase. rewrite (phase_of_info _ _ i' Hi' Hg'); unfold info_phase; by rewrite Hr, ?Hp'.
Qed.

(** ** Calls on the table *)

Lemma table_keeps {X : Type} u token (m : outcome (SlotTable * X)) (Q : OpPhase -> X -> Prop) : uring_ready u ->
  future_call (ud_ops u) token m -> phase_call (ud_ops u) token m Q ->
  table_law (Spec := UringSlotSpec) uring_ready uring_phase u token m Q.
Proof.
  intros Hu Hf (t & x & -> & HQ). destruct (ready_elim u Hu) as (R & N & pend & Hc).
  destruct (future_ok (R := R) N pend u token _ Hc Hf) as (t' & x' & [= <- <-] & Hcall). exists t, x.
  split; [done |]. split; [by eapply (ready_call u) | exact HQ].
Qed.

Lemma same_keeps {X : Type} u token (m : outcome (SlotTable * X)) (Q : OpPhase -> X -> Prop) : uring_ready u ->
  (exists t x, m = Ret (t, x) /\ reg_inv (set_shared (ud_ops u) t) /\ same_info (ud_ops u) (set_shared (ud_ops u) t)) ->
  phase_call (ud_ops u) token m Q -> table_law (Spec := UringSlotSpec) uring_ready uring_phase u token m Q.
Proof.
  intros Hu (t & x & E & Ho & Hs) Hq. apply table_keeps; [done | | done]. exists t, x. split; [done |]. split; [done |]. by left.
Qed.

Lemma effects_keep u l : uring_ready u ->
  uring_ready (with_ops u (set_shared (ud_ops u) (emit (rg_shared (ud_ops u)) l))) /\
  forall token, uring_phase (with_ops u (set_shared (ud_ops u) (emit (rg_shared (ud_ops u)) l))) token = uring_phase u token.
Proof.
  intros Hu. destruct (ready_elim u Hu) as (R & N & pend & Hc). split; [| by intros token; apply phase_same_cells].
  eapply (ready_call u), (same_call_ok (R := R)); [exact Hc | | done].
  pose proof (uc_reg _ _ _ _ _ Hc) as Hr. rewrite <- (set_shared_id (ud_ops u)) in Hr. by apply reg_inv_emit.
Qed.

(** ** Giving up *)

Lemma cancel_keeps u token : uring_ready u -> token_ok token ->
  exists u' x, cancel_op u (cancel_abandon token) = Ret (u', x) /\ uring_ready u' /\
    (uring_phase u token = PhaseAbandoned -> uring_phase u' token = PhaseAbandoned \/ uring_phase u' token = PhaseVacant).
Proof.
  intros Hu Ht. destruct (ready_elim u Hu) as (R & N & pend & Hc).
  destruct (cancel_op_ok (H3 := R) flush_backlog _ N pend u (cancel_abandon token) Hc Ht) as (u' & x & He & Hc').
  exists u', x. split; [exact He |]. split; [by eapply ready_intro |]. intros (i & Hi & Hg & Hst)%abandoned_info.
  destruct (st_gone _ _ (uc_steady _ _ _ _ _ Hc') _ _ Hi) as (i' & Hi' & Hgone & _).
  destruct (Hgone Hst) as [[Hst' Hg'] | Hst'].
  - left. unfold uring_phase. rewrite (phase_of_info _ _ i' Hi'); [| congruence | by rewrite Hst']. unfold info_phase. by rewrite Hst'.
  - right. eapply phase_info; [exact Hi' | by right].
Qed.

Lemma send_keeps u token : uring_ready u -> token_ok token ->
  uring_ready (with_remote_cancels u (ud_remote_cancels u ++ [cancel_abandon token])) /\
  forall token', uring_phase (with_remote_cancels u (ud_remote_cancels u ++ [cancel_abandon token])) token' = uring_phase u token'.
Proof.
  intros Hu Ht. split; [| done]. destruct (ready_elim u Hu) as (R & N & pend & Hc). exists (S R), N, pend. split; [| done].
  destruct Hc as [? ? ? ? ? ? ? ? [Hf Hl] ? ? ?]. split; try done.
  cbn. rewrite length_app. unfold remote_limit in *. cbn. split; [by apply Forall_app_2; [| constructor] | lia].
Qed.

Lemma waker_wake_keeps u : uring_ready u -> exists u' x, waker_wake u = Ret (u', x) /\ uring_ready u' /\
  forall token, uring_phase u' token = uring_phase u token.
Proof.
  intros Hu. destruct (ready_elim u Hu) as (R & N & pend & Hc).
  destruct (waker_wake_ok (H3 := R) _ N pend u Hc) as (u' & x & He & Hc'). exists u', x. split; [done |].
  split; [by eapply ready_intro |]. intros token. revert He. unfold waker_wake.
  destruct (wk_is_waked _); [by intros [= <- _] |]. destruct (eventfd_write _ _) as [r [[] | e]]; [by intros [= <- _] |].
  destruct (bool_decide _); by intros [= <- _].
Qed.

#[global] Instance uring_contract : DriverContract (Spec := UringSlotSpec) (D := UringDriver).
Proof.
  refine {| drv_ok := uring_ready; drv_phase := uring_phase; drv_token := token_ok; drv_op := future_op |}.
  - apply reserve_keeps.
  - apply set_payload_keeps.
  - apply submit_keeps.
  - apply take_payload_keeps.
  - apply release_keeps.
  - intros u token Hu Ht. apply table_keeps; [done | by apply take_info; [apply ready_reg |] | by apply take_phase; [apply ready_reg |]].
  - intros u token w Hu Ht Hp. apply same_keeps; [done | by apply waker_info; [apply ready_reg |] | by apply waker_phase; [apply ready_reg | |]].
  - intros u token Hu Ht Hp. apply same_keeps; [done | by apply waiting_info; [apply ready_reg |] | by apply waiting_phase; [apply ready_reg | |]].
  - intros u token Hu Ht Hp. apply table_keeps; [done | by apply orphan_info; [apply ready_reg |] | by apply orphan_phase].
  - apply effects_keep.
  - apply cancel_keeps.
  - apply send_keeps.
  - apply waker_wake_keeps.
  - done.
  - done.
  - intros u. cbn. rewrite set_shared_id. apply with_same_ops.
Defined.
End contract.
