(* ===== verification/UringDemo.v ===== *)
(** * The io_uring driver on the small kernel

    Concrete runs of the driver with operations that only read and timers: the
    theorems at concrete states, and three things that go wrong. *)

From stdpp Require Import strings gmap.
From S2P Require Import Prelude BitSet SlotMap WheelConfig Wheel Timers Token SlotState Anomaly SlotTable Completion Registry Flow RegistryInv CompletionSpec DriverSteps DriverSafety OpLifecycle SlotInfo DriverApi UringBase RingDemo FileTable UringFrame UringOp UringHooks UringDriver UringInv UringState UringSafety OpFuture OpFutureSpec OpPhases UringFuture.

#[export] Instance demo_payloads : UringPayloads := {
  UringOpPayload := Z; UringUserPayload := Z; payload_close_fd _ := None; close_result _ := Ok tt
}.
#[export] Instance demo_timers : UringTimers := {
  TimerKey := nat; TimerMap := CounterMap (WheelEntry OpToken nat)
}.
#[export] Instance demo_registrar : Registrar := { resolve_chunk_info _ := None }.
#[export] Instance demo_clients : UringClients.
Proof. by split. Qed.

Definition demo_vtable (strategy : SubmissionStrategy) (timeout : option Duration) : OpVTable := {|
  vt_make_sqe op p _ _ _ := (op, p, Ok (mkDemoEntry DemoOther 0));
  vt_on_complete op p res := (op, p, on_complete_default res);
  vt_completion_cleanup op _ := (op, None);
  vt_orphan_cleanup op _ := (op, None);
  vt_strategy := strategy;
  vt_get_timeout _ _ := timeout;
  vt_resolve_chunks _ _ := []
|}.
Definition io_op : UringKernelOp := mkKernelOp (demo_vtable SubmitSqe None) 0.
Definition timer_op (d : Duration) : UringKernelOp := mkKernelOp (demo_vtable SoftwareTimer (Some d)) 0.

Lemma demo_vtable_ok strategy timeout : vtable_ok (demo_vtable strategy timeout).
Proof. intros ko up. apply Forall_nil_2. Qed.

(** ** Runs *)

Implicit Types u : UringDriver.

Definition slot_state_of u (token : OpToken) : option SlotState := si_state <$> op_info u token.

Definition allowedb u (c : uring_call) : bool :=
  match c with
  | CSetPayload token _ | CTakePayload token | CRelease token =>
      (0 <=? tk_index token) && match slot_state_of u token with Some Reserved => true | _ => false end
  | CSubmit token _ | CFutureWaiting token | CFutureWaker token _ | CFutureTake token | CFutureDiscard token
  | CFutureOrphan token => 0 <=? tk_index token
  | CCancel request | CRemoteCancel request => 0 <=? tk_index (cn_target request)
  | CUnregisterFiles fds => forallb (fun fd => 0 <=? fd_index fd) fds
  | CReserve | CDrive _ | CRegisterFiles _ | CRemoteWake | CKernel _ => true
  end.

Definition well_formed (c : uring_call) : Prop :=
  match c with
  | CSubmit _ op => kernel_op_ok op
  | CKernel works => forall r, outstanding (works r) ≡ₚ outstanding r
  | CUnregisterFiles fds => fds = []
  | _ => True
  end.

Lemma allowed_of u c : allowedb u c = true -> well_formed c -> call_allowed u c.
Proof.
  destruct c; cbn; try done; try (by intros Hi%Z.leb_le); try (by intros Hi%Z.leb_le Hop).
  1-3: intros [Hi%Z.leb_le Hs]%andb_true_iff _; (split; [done |]); unfold slot_state_of in Hs;
    destruct (op_info u token) as [i |] eqn:Hk; [| done]; cbn in Hs; (exists i); (split; [done |]); by destruct (si_state i).
  by intros _ ->.
Qed.

Fixpoint demo_run (calm : bool) u (cs : list uring_call) : outcome (bool * UringDriver) :=
  match cs with
  | [] => Ret (calm, u)
  | c :: cs =>
      _ ← assert (allowedb u c);
      '(u, fine) ← uring_exec u c;
      demo_run (calm && (fine || negb (is_drive c))) u cs
  end.

Lemma demo_run_reach entries cs : forall calm u calm' u', uring_reach entries calm u -> Forall well_formed cs ->
  demo_run calm u cs = Ret (calm', u') -> uring_reach entries calm' u'.
Proof.
  induction cs as [| c cs IH]; intros calm u calm' u' Hr Hw; [by intros [= <- <-] |].
  apply Forall_cons in Hw as [Hc Hw]. cbn [demo_run]. destruct (allowedb u c) eqn:Ha; [| done]. unfold assert. rewrite bind_ret.
  destruct (uring_exec u c) as [[u1 fine] | f] eqn:He; [| done]. rewrite bind_ret. apply IH; [| done].
  eapply reach_call; [exact Hr | by apply allowed_of | exact He].
Qed.

(** A driver with six slots and a ring of [capacity] entries, after calls. *)
Definition demo_state (capacity : nat) (cs : list uring_call) : outcome (bool * UringDriver) :=
  '(u, x) ← new_internal (demo_start capacity []) 6 Strict;
  match x with Ok _ => demo_run true u cs | Err _ => Fault AssertFailed end.

Definition holds (m : outcome (bool * UringDriver)) (f : bool -> UringDriver -> bool) : bool :=
  match m with Ret (calm, u) => f calm u | Fault _ => false end.

Lemma demo_reach capacity cs calm u : Forall well_formed cs -> demo_state capacity cs = Ret (calm, u) -> uring_reach 6 calm u.
Proof.
  intros Hw. unfold demo_state. destruct (new_internal _ _ _) as [[u0 [[] | e]] | f] eqn:Hn; try done. rewrite bind_ret.
  apply demo_run_reach; [| done]. eapply reach_new; [| | exact Hn]; [done | unfold U32; lia].
Qed.

Lemma holds_elim capacity cs f : Forall well_formed cs -> holds (demo_state capacity cs) f = true ->
  exists calm u, demo_state capacity cs = Ret (calm, u) /\ uring_reach 6 calm u /\ f calm u = true.
Proof.
  intros Hw. unfold holds. destruct (demo_state capacity cs) as [[calm u] | e] eqn:E; [| done]. intros Hf. exists calm, u.
  split; [done |]. split; [by eapply demo_reach | done].
Qed.

Definition start (token : OpToken) (op : UringKernelOp) : list uring_call :=
  [CReserve; CSetPayload token 0; CSubmit token op].
Definition tok (k : Z) : OpToken := mkToken k 1.
Definition completes (user_data res : Z) : uring_call := CKernel (fun r => demo_complete r user_data res).
Definition time_is (now : Z) : uring_call := CKernel (fun r => demo_at r now).

Lemma finish_outstanding user_data l l' : demo_finish user_data l = Some l' ->
  de_user_data <$> l ≡ₚ user_data :: (de_user_data <$> l').
Proof.
  revert l'. induction l as [| e l IH]; intros l'; cbn [demo_finish]; [done |]. unfold demo_has.
  destruct (Z.eqb_spec (de_user_data e) user_data) as [He | He]; [intros [= <-]; cbn; by rewrite He |].
  destruct (demo_finish user_data l) as [l2 |]; [| done]. cbn. intros [= <-]. cbn. rewrite (IH l2 eq_refl). apply Permutation_swap.
Qed.

Lemma completes_ok user_data res : well_formed (completes user_data res).
Proof.
  intros r. cbn. unfold demo_complete. destruct (demo_finish user_data (dr_kernel r)) as [l |] eqn:Hf; [| done].
  unfold demo_outstanding. cbn [dr_sq dr_kernel dr_cq]. rewrite (finish_outstanding _ _ _ Hf), fmap_app. cbn.
  apply Permutation_app_head. rewrite app_assoc. symmetry. rewrite <- Permutation_cons_append. by rewrite app_comm_cons.
Qed.

Lemma io_ok : kernel_op_ok io_op.
Proof. by apply demo_vtable_ok. Qed.
Lemma io_leaves : leaves_payload io_op.
Proof. intros ko up slots chunks ctx. reflexivity. Qed.
Lemma timer_ok d : kernel_op_ok (timer_op d).
Proof. by apply demo_vtable_ok. Qed.

Ltac well := repeat (apply Forall_nil_2 || (apply Forall_cons_2;
  [first [exact I | apply io_ok | by apply timer_ok | apply completes_ok | by intros r] |])).

(** One operation with the kernel, one queued, one timer. *)
Definition busy : list uring_call :=
  [CDrive DrivePoll] ++ start (tok 0) io_op ++ start (tok 1) (timer_op 500000000) ++ start (tok 2) io_op ++
  start (tok 3) io_op ++ [CFutureOrphan (tok 0)].

Lemma busy_ok : Forall well_formed busy.
Proof. unfold busy, start. cbn [app]. well. Qed.

(** ** The theorems at these states *)

(** What is looked at: where the slots' operations are. *)
Definition place_of u (k : nat) : option (SlotState * Z * UringOpState) :=
  (fun i => (si_state i, si_generation i, info_platform i)) <$> slot_info (ud_ops u) k.

Definition busy_view (calm : bool) u : bool :=
  calm && bool_decide (token_user (tok 0) ∈ outstanding (ud_ring u)) && bool_decide (token_user (tok 0) < 2 ^ 63) &&
  match place_of u 0, place_of u 1, place_of u 3 with
  | Some (InFlightOrphaned, _, mkOpState None UrKernelSubmitted), Some (InFlightWaiting, _, mkOpState (Some _) UrTimer),
    Some (InFlightWaiting, _, mkOpState None UrQueued) => true
  | _, _, _ => false
  end.

Lemma busy_state : exists u, demo_state 2 busy = Ret (true, u) /\ uring_reach 6 true u /\ busy_view true u = true.
Proof.
  destruct (holds_elim 2 busy busy_view busy_ok) as (calm & u & He & Hr & Hv); [vm_compute; reflexivity |].
  destruct calm; [exists u; exact (conj He (conj Hr Hv)) | discriminate Hv].
Qed.

Lemma uring_kernel_memory_safe_witness : exists u, uring_reach 6 true u /\
  (exists token i, token_user (tok 0) = token_user token /\ op_info u token = Some i /\ submitted token i) /\
  exists u' fine, uring_exec u (CDrive DrivePoll) = Ret (u', fine).
Proof.
  destruct busy_state as (u & _ & Hr & Hv). exists u. split; [done |].
  destruct (uring_kernel_memory_safe 6 true u Hr) as [Hout Hcall]. split.
  - unfold busy_view in Hv. apply andb_true_iff in Hv as [Hv _]. apply andb_true_iff in Hv as [Hv H2].
    apply andb_true_iff in Hv as [_ H1]. apply Hout; [by apply bool_decide_eq_true in H1 | by apply bool_decide_eq_true in H2].
  - destruct (Hcall (CDrive DrivePoll) I) as (u' & fine & He & _). by exists u', fine.
Defined.

Lemma place_info u k st g p : place_of u k = Some (st, g, p) ->
  exists i, slot_info (ud_ops u) k = Some i /\ si_state i = st /\ si_generation i = g /\ info_platform i = p.
Proof. unfold place_of. destruct (slot_info _ k) as [i |]; [| done]. cbn. intros [= <- <- <-]. by exists i. Qed.

Lemma uring_no_operation_lost_witness : exists u i, uring_reach 6 true u /\ slot_info (ud_ops u) 3 = Some i /\ in_air i /\
  slot_token 3 i ∈ ud_backlog u.
Proof.
  destruct busy_state as (u & _ & Hr & Hv). unfold busy_view in Hv. apply andb_true_iff in Hv as [_ Hv].
  destruct (place_of u 0) as [[[[] ?] [[] []]] |]; try done. destruct (place_of u 1) as [[[[] ?] [[] []]] |]; try done.
  destruct (place_of u 3) as [[[[] ?] [[] []]] |] eqn:Hp; try done. apply place_info in Hp as (i & Hk & Hs & _ & Hpl).
  exists u, i. assert (Ha : in_air i) by (by left). split_and!; [done .. |].
  pose proof (uring_no_operation_lost 6 u 3 i Hr Hk Ha) as Hl. by rewrite Hpl in Hl.
Defined.

Lemma uring_state_well_formed_witness : exists u i, uring_reach 6 true u /\ slot_info (ud_ops u) 1 = Some i /\ slot_typed 1 i /\
  info_platform i <> op_state_new.
Proof.
  destruct busy_state as (u & _ & Hr & Hv). unfold busy_view in Hv. apply andb_true_iff in Hv as [_ Hv].
  destruct (place_of u 0) as [[[[] ?] [[] []]] |]; try done. destruct (place_of u 1) as [[[[] ?] [[tid |] []]] |] eqn:Hp; try done.
  apply place_info in Hp as (i & Hk & Hs & _ & Hpl). exists u, i. split_and!; [done | done | | by rewrite Hpl].
  destruct (uring_state_well_formed 6 true u Hr) as (_ & Hty & _). by apply Hty.
Defined.

(** ** A late cancellation *)

Definition late_cancel : list uring_call :=
  [CDrive DrivePoll] ++ start (tok 0) io_op ++ start (tok 1) io_op ++
  [CDrive DrivePoll; CCancel (cancel_user_visible (tok 0)); CDrive DrivePoll;
   completes (token_cancel 1) (- ENOENT); completes (token_user (tok 0)) 5; completes (token_user (tok 1)) 7].

Lemma late_cancel_ok : Forall well_formed late_cancel.
Proof. unfold late_cancel, start. cbn [app]. well. Qed.

Definition late_batch : list (Z * Z * Z) := [(token_user (tok 0), 5, 0); (token_user (tok 1), 7, 0)].

Definition late_view (calm : bool) u : bool :=
  calm && bool_decide (ud_pending_cancel_cqes u !! 1 = Some (mkPending (tok 0) UserVisible)) &&
  bool_decide ((cq_drain (ring_enter (ud_ring u) 0 0 IORING_ENTER_GETEVENTS).1).2 = (token_cancel 1, - ENOENT, 0) :: late_batch) &&
  match place_of u 0, place_of u 1 with
  | Some (InFlightWaiting, 1, mkOpState None UrKernelSubmitted), Some (InFlightWaiting, 1, mkOpState None UrKernelSubmitted) => true
  | _, _ => false
  end.

Lemma cancel_enoent_drops_batch_witness : exists u u' j, uring_reach 6 true u /\
  process_completions_internal u = Ret (u', Err (report InvalidState)) /\
  op_info u' (tok 1) = Some j /\ si_state j = InFlightWaiting /\ token_user (tok 1) ∉ outstanding (ud_ring u').
Proof.
  destruct (holds_elim 8 late_cancel late_view late_cancel_ok) as (calm & u & _ & Hr & Hv); [vm_compute; reflexivity |].
  unfold late_view in Hv. apply andb_true_iff in Hv as [Hv Hp]. apply andb_true_iff in Hv as [Hv Hd].
  apply andb_true_iff in Hv as [Hcalm Hc]. destruct calm; [| discriminate Hcalm].
  apply bool_decide_eq_true in Hd. apply bool_decide_eq_true in Hc.
  destruct (place_of u 0) as [[[[] [| [] |]] [[] []]] |] eqn:Hp0; try discriminate Hp.
  destruct (place_of u 1) as [[[[] [| [] |]] [[] []]] |] eqn:Hp1; try discriminate Hp.
  apply place_info in Hp0 as (i & Hi & Hsi & Hgi & _). apply place_info in Hp1 as (j & Hj & Hsj & Hgj & Hpj).
  assert (Hai : in_air i) by (left; exact Hsi). assert (Haj : in_air j) by (left; exact Hsj).
  pose proof (reach_flying 6 true u 0 i Hr Hi Hai) as Hfi. pose proof (reach_flying 6 true u 1 j Hr Hj Haj) as Hfj.
  unfold slot_token in Hfi, Hfj. rewrite Hgi in Hfi. rewrite Hgj in Hfj.
  destruct (cq_drain (ring_enter (ud_ring u) 0 0 IORING_ENTER_GETEVENTS).1) as [ring cq] eqn:Hq. cbn [snd] in Hd. subst cq.
  destruct (cancel_enoent_drops_batch 6 true u 1 (mkPending (tok 0) UserVisible) i ring late_batch 0 Hr ltac:(lia) Hc Hi Hfi Hq)
    as (u' & He & _ & Hlost).
  destruct (Hlost (tok 1) j) as [Hj' Hout]; [unfold late_batch; cbn; right; left | exact Hj | split; [exact Hfj | exact Hpj] |].
  exists u, u', j. split_and!; assumption.
Defined.

(** ** What goes wrong *)

Fixpoint uring_run u (cs : list uring_call) : outcome (UringDriver * list bool) :=
  match cs with
  | [] => Ret (u, [])
  | c :: cs => '(u, fine) ← uring_exec u c; '(u, rest) ← uring_run u cs; Ret (u, fine :: rest)
  end.

Definition one_second : Z := 1000000000.

Definition idle_second : list uring_call := [CDrive DrivePoll; time_is one_second; CReserve; CSetPayload (tok 0) 0].
Definition crowded : list uring_call :=
  [CDrive DrivePoll] ++ start (tok 0) io_op ++ start (tok 1) io_op ++ start (tok 2) io_op ++ start (tok 3) io_op ++
  [CRemoteWake; completes (token_waker 0) 8].

(** A timer is put in the wheel at the tick of the last poll, and the next poll
    advances the wheel by all the time since then: a timer of half a second, set
    when the driver was not polled for a second, expires at the instant it is
    set. *)
Theorem timer_expires_at_once : exists u u', uring_reach 6 true u /\
  uring_run u [CSubmit (tok 0) (timer_op (one_second / 2)); CDrive DrivePoll] = Ret (u', [true; true]) /\
  slot_state_of u (tok 0) = Some Reserved /\ slot_state_of u' (tok 0) = Some InFlightReady /\
  instant_now (ud_ring u) = one_second /\ instant_now (ud_ring u') = one_second.
Proof.
  set (f := fun (calm : bool) u => calm && match uring_run u [CSubmit (tok 0) (timer_op (one_second / 2)); CDrive DrivePoll] with
    | Ret (u', [true; true]) => bool_decide (slot_state_of u (tok 0) = Some Reserved) &&
        bool_decide (slot_state_of u' (tok 0) = Some InFlightReady) && bool_decide (instant_now (ud_ring u) = one_second) &&
        bool_decide (instant_now (ud_ring u') = one_second)
    | _ => false end).
  destruct (holds_elim 8 idle_second f) as (calm & u & _ & Hr & Hv); [unfold idle_second; well | vm_compute; reflexivity |]. unfold f in Hv. clear f.
  apply andb_true_iff in Hv as [Hcalm Hv]. destruct calm; [| discriminate Hcalm].
  destruct (uring_run u _) as [[u' [| [] [| [] []]]] | e] eqn:He; try discriminate Hv.
  repeat (apply andb_true_iff in Hv as [Hv ?%bool_decide_eq_true]). apply bool_decide_eq_true in Hv.
  exists u, u'. split_and!; assumption.
Qed.

(** When the waker is read while the backlog has filled the submission queue
    again, its next read cannot be queued: [drive] ends in an error, the waker is
    not armed any more, and later wake-ups and calls of [drive] do not arm it. *)
Theorem waker_lost_when_queue_full : exists u u', uring_reach 6 true u /\ wk_armed (ud_waker u) = true /\
  uring_run u [CDrive DrivePoll; CRemoteWake; CDrive DrivePoll; CRemoteWake; CDrive DrivePoll] = Ret (u', [false; true; true; true; true]) /\
  wk_armed (ud_waker u') = false /\ token_waker 0 ∉ outstanding (ud_ring u').
Proof.
  set (f := fun (calm : bool) u => calm && bool_decide (wk_armed (ud_waker u) = true) &&
    match uring_run u [CDrive DrivePoll; CRemoteWake; CDrive DrivePoll; CRemoteWake; CDrive DrivePoll] with
    | Ret (u', [false; true; true; true; true]) => bool_decide (wk_armed (ud_waker u') = false) &&
        bool_decide (token_waker 0 ∉ outstanding (ud_ring u'))
    | _ => false end).
  destruct (holds_elim 2 crowded f) as (calm & u & _ & Hr & Hv); [unfold crowded, start; cbn [app]; well | vm_compute; reflexivity |]. unfold f in Hv. clear f.
  apply andb_true_iff in Hv as [Hv Hw]. apply andb_true_iff in Hv as [Hcalm Ha%bool_decide_eq_true]. destruct calm; [| discriminate Hcalm].
  destruct (uring_run u _) as [[u' [| [] [| [] [| [] [| [] [| [] []]]]]]] | e] eqn:He; try discriminate Hw.
  apply andb_true_iff in Hw as [Hw1%bool_decide_eq_true Hw2%bool_decide_eq_true].
  exists u, u'. split_and!; assumption.
Qed.

(** ** Futures on the io_uring driver, concretely

    A read through a local and through a detached future on the small kernel:
    the theorems on futures at states that the driver reaches. *)

(** A read: the payload is its buffer, and its result a number of bytes. *)
Record DemoRead : Type := mkDemoRead { dm_buffer : Z }.

#[export] Instance demo_read : IntoPlatformOp (Spec := UringSlotSpec) DemoRead := {
  OpFuture.UserPayload := Z;
  OpFuture.Output := Z;
  OpFuture.Completed := Z;
  into_kernel_and_payload r := (io_op, dm_buffer r);
  payload_into_erased p := p : SPayload (SlotSpec := UringSlotSpec);
  try_payload_from_erased p := Ok p;
  op_complete p res := mkOpCompletion res p
}.

(** So many bytes, in this buffer. *)
Definition answers_with (n buffer : Z) (x : OpResult (Output (T := DemoRead)) (Completed (T := DemoRead))) : bool :=
  match x with OpCompleted (Ok r) p => (n =? r) && (buffer =? p) | _ => false end.

Lemma reach_ready entries calm u : uring_reach entries calm u -> drv_ok u.
Proof.
  intros Hr. destruct (uring_reach_inv _ _ _ Hr) as (R & N & pend & Hc & _). by eapply ready_intro.
Qed.

Definition one_read : list uring_call := 
  [CDrive DrivePoll; CReserve; CSetPayload (tok 0) 9; CSubmit (tok 0) io_op; CDrive DrivePoll].
Definition one_result : list uring_call := one_read ++ [completes (token_user (tok 0)) 5; CDrive DrivePoll].

Lemma one_result_ok : Forall well_formed one_result.
Proof. unfold one_result, one_read. cbn [app]. well. Qed.
Lemma one_read_ok : Forall well_formed one_read.
Proof. unfold one_read. cbn [app]. well. Qed.

Lemma local_op_submits_or_returns_witness : exists u u' token, uring_reach 6 true u /\
  local_poll u (submit_local (mkDemoRead 9)) 1 = Ret (u', mkLocalOp LocalSubmitted None (Some token), None) /\
  uring_phase u' token = PhaseInFlight.
Proof.
  set (f := fun (calm : bool) u => calm && match local_poll u (submit_local (mkDemoRead 9)) 1 with
    | Ret (_, _, None) => true | _ => false end).
  destruct (holds_elim 8 one_read f one_read_ok) as (calm & u & _ & Hr & Hv); [vm_compute; reflexivity |]. unfold f in Hv. clear f.
  apply andb_true_iff in Hv as [Hcalm Hv]. destruct calm; [| discriminate Hcalm].
  assert (Hop : drv_op (into_kernel_and_payload (mkDemoRead 9)).1) by exact (conj io_ok io_leaves).
  destruct (local_op_submits_or_returns u (mkDemoRead 9) 1 (reach_ready _ _ _ Hr) Hop eq_refl) as (u' & o & r & refused & He & _ & _ & Hres).
  rewrite He in Hv. destruct r as [x |]; [discriminate Hv |]. destruct refused as [e |]; [destruct Hres as [Hres _]; discriminate Hres |].
  destruct Hres as (_ & token & -> & _ & Hp).
  exists u, u', token. split; [exact Hr |]. split; [exact He | exact Hp].
Defined.

Lemma op_result_taken_once_witness : exists u u', uring_reach 6 true u /\
  local_poll u (mkLocalOp (T := DemoRead) LocalSubmitted None (Some (tok 0))) 1 =
    Ret (u', mkLocalOp LocalCompleted None (Some (tok 0)), Some (OpCompleted (Ok 5) 9)) /\
  uring_phase u' (tok 0) = PhaseVacant.
Proof.
  set (f := fun (calm : bool) u => calm && match uring_phase u (tok 0) with
    | PhaseReady r => answers_with 5 9 (record_result (T := DemoRead) r) | _ => false end).
  destruct (holds_elim 8 one_result f one_result_ok) as (calm & u & _ & Hr & Hv); [vm_compute; reflexivity |]. unfold f in Hv. clear f.
  apply andb_true_iff in Hv as [Hcalm Hv]. destruct calm; [| discriminate Hcalm].
  destruct (uring_phase u (tok 0)) as [| | r | |] eqn:Hp; try discriminate Hv.
  destruct (op_result_taken_once (T := DemoRead) u (tok 0) 1 r (reach_ready _ _ _ Hr) ltac:(done) Hp) as (u' & He & _ & _ & Hp' & _).
  exists u, u'. split; [exact Hr |]. split; [| exact Hp']. unfold answers_with in Hv.
  destruct (record_result r) as [[n | e] p | e]; try discriminate Hv.
  apply andb_true_iff in Hv as [Hn%Z.eqb_eq Hb%Z.eqb_eq]. subst n p. exact He.
Defined.

Lemma dropped_future_abandons_witness : exists u u', uring_reach 6 true u /\
  detached_drop u (detached_in_flight (T := DemoRead) (tok 0)) = Ret u' /\ uring_phase u' (tok 0) = PhaseAbandoned.
Proof.
  set (f := fun (calm : bool) u => calm && match uring_phase u (tok 0) with PhaseInFlight => true | _ => false end).
  destruct (holds_elim 8 one_read f one_read_ok) as (calm & u & _ & Hr & Hv); [vm_compute; reflexivity |]. unfold f in Hv. clear f.
  apply andb_true_iff in Hv as [Hcalm Hv]. destruct calm; [| discriminate Hcalm].
  destruct (uring_phase u (tok 0)) eqn:Hp; try discriminate Hv.
  destruct (dropped_future_abandons (T := DemoRead) u (tok 0) (reach_ready _ _ _ Hr) ltac:(done) Hp) as (_ & u' & He & _ & Hp').
  exists u, u'. split; [exact Hr |]. split; [exact He | exact Hp'].
Defined.

Definition finished_view (calm : bool) u : bool :=
  calm && match detached_poll u (detached_in_flight (T := DemoRead) (tok 0)) 1 with
  | Ret (u1, o, Some x) =>
      match detached_drop u1 o with
      | Ret u2 => answers_with 5 9 x && bool_decide (ud_remote_cancels u1 = []) &&
          bool_decide (cn_target <$> ud_remote_cancels u2 = [tok 0])
      | Fault _ => false
      end
  | _ => false
  end.

(** The slot of a detached operation is free when its result was taken, but the
    future keeps the token: dropping it still sends the driver the cancellation of
    an operation that is over. *)
Theorem finished_future_still_cancels : exists u u1 u2 o x, uring_reach 6 true u /\
  detached_poll u (detached_in_flight (T := DemoRead) (tok 0)) 1 = Ret (u1, o, Some x) /\
  answers_with 5 9 x = true /\ ud_remote_cancels u1 = [] /\
  detached_drop u1 o = Ret u2 /\ cn_target <$> ud_remote_cancels u2 = [tok 0].
Proof.
  destruct (holds_elim 8 one_result finished_view one_result_ok) as (calm & u & _ & Hr & Hv); [vm_compute; reflexivity |].
  unfold finished_view in Hv. apply andb_true_iff in Hv as [Hcalm Hv]. destruct calm; [| discriminate Hcalm].
  destruct (detached_poll u _ 1) as [[[u1 o] [x |]] | e] eqn:Hpoll; try discriminate Hv.
  destruct (detached_drop u1 o) as [u2 | e] eqn:Hdrop; [| discriminate Hv].
  apply andb_true_iff in Hv as [Hv H2%bool_decide_eq_true]. apply andb_true_iff in Hv as [Hv H1%bool_decide_eq_true].
  exists u, u1, u2, o, x. split_and!; assumption.
Qed.
