(* ===== verification/UringOpDemo.v ===== *)
(** * The operations of the io_uring driver, concretely

    A receive on the small kernel from the registration of its socket to the
    bytes that the future gives back, and the theorems on operations at concrete
    payloads. *)

From stdpp Require Import strings gmap.
From S2P Require Import Prelude BitSet Units SlotMap WheelConfig Wheel Timers Chunk Pool Handle Token SlotState Anomaly SlotTable Completion Registry Flow RegistryInv CompletionSpec DriverSteps DriverSafety OpLifecycle SlotInfo DriverApi OpFuture UringBase RingDemo FileTable UringFrame UringOp UringHooks UringDriver UringInv UringState UringSafety UringFuture UringNet UringOps UringOpSafety.

(** The small kernel keeps what an entry reads. *)
#[export] Instance demo_libc : UringLibc := {
  libc_close _ := Ok tt;
  opcode_build e := mkDemoEntry
    match e with
    | OcRead (Fixed i) _ len _ | OcReadFixed (Fixed i) _ len _ _ | OcRecv (Fixed i) _ len => DemoRead i len
    | _ => DemoOther
    end 0
}.
#[export] Instance op_timers : UringTimers := {
  TimerKey := nat; TimerMap := CounterMap (WheelEntry OpToken nat)
}.
#[export] Instance op_registrar : Registrar := { resolve_chunk_info _ := None }.
#[export] Instance recv_op : IntoPlatformOp (Spec := UringSlotSpec) Recv := spec_into_platform recv_spec.

(** A buffer of the pool: chunk 3, 100 of 4096 bytes in use. *)
Definition pool_buf : FixedBuf := mkBuf 8192 0 (from_slot_parts 0 0 3 SlotBased) 100 4096.
Lemma pool_buf_ok : buf_ok pool_buf.
Proof. unfold buf_ok, U32_MAX. cbn. lia. Qed.
Definition chunks_with_3 : BitSet := match bitset_set (bitset_new 8) 3 with Ret (b, _) => b | Fault _ => bitset_new 8 end.

(** A socket is registered, a receive of 96 bytes in is submitted, and five come. *)
Definition receive : outcome (list demo_entry * option (OpResult (Output (T := Recv)) (Completed (T := Recv)))) :=
  '(u, _) ← new_internal (demo_start 8 []) 6 Strict;
  '(u, fds) ← driver_register_files u [Borrowed (RawSocket 7)];
  match fds with
  | Ok [fd] =>
      '(u, o, _) ← local_poll u (submit_local (mkSocketIo fd pool_buf 96 : Recv)) 1;
      '(u, _) ← drive u DrivePoll;
      let sent := dr_kernel (ud_ring u) in
      let u := with_ring u (demo_complete (ud_ring u) (token_user (mkToken 0 1)) 5) in
      '(u, _) ← drive u DrivePoll;
      '(u, _, x) ← local_poll u o 1;
      Ret (sent, x)
  | _ => Fault AssertFailed
  end.

(** The kernel gets the receive for the rest of the capacity at the place that
    the socket was registered at, next to the driver's own read of its event
    descriptor, and the future gives the number of bytes and the buffer back. *)
Definition entry_view (e : demo_entry) : option (Z * Z) * Z :=
  (match de_opcode e with DemoRead index len => Some (index, len) | _ => None end, de_user_data e).
Definition receive_view : option (list (option (Z * Z) * Z) * option (Z * (Z * Z * Z))) :=
  match receive with
  | Ret (sent, x) => Some (map entry_view sent,
      match x with Some (OpCompleted (Ok n) p) => Some (n, (fd_index (si_fd p), fb_ptr (si_buf p), si_buf_offset p)) | _ => None end)
  | Fault _ => None
  end.
Lemma receive_end_to_end : receive_view =
  Some ([(Some (0, 8), token_waker 0); (Some (1, 4000), token_user (mkToken 0 1))], Some (5, (1, 8192, 96))).
Proof. vm_compute. reflexivity. Qed.

(** ** Witnesses *)

Definition demo_slots : list FileSlot :=
  [mkFileSlot (Some (BorrowedFd 3 KindFile)) 1; mkFileSlot (Some (OwnedHandle (RawSocket 7))) 4; mkFileSlot (Some (OwnedHandle (RawFile 8))) 2].
Definition ex_token : SubmitTokenContext := submit_context_user (mkToken 0 1).
Definition demo_write : UserOpPayload := UserWriteFixed (mkFileIo (mkIoFd 2 2) pool_buf 512 60).

(** Forty bytes are left from offset 60, in the registered chunk 3; and the same
    write is refused when its descriptor is stale. *)
Lemma op_entry_within_buffer_witness :
  (exists k', vt_make_sqe (spec_vtable write_fixed_spec) (KernelWrite tt) demo_write demo_slots chunks_with_3 ex_token =
    (k', demo_write, Ok (opcode_build (OcWriteFixed (Fixed 2) (BufPtr 8252) 40 3 512)))) /\
  refused demo_slots (UserWriteFixed (mkFileIo (mkIoFd 2 1) pool_buf 512 60)).
Proof.
  assert (Hp : forall u, is_Some (os_user_ref write_fixed_spec u) -> paired write_fixed_spec (KernelWrite tt) u) by (intros u Hu; split; [by eexists | exact Hu]).
  split.
  - destruct (op_entry_within_buffer write_fixed_spec in_write_fixed demo_slots chunks_with_3 (KernelWrite tt) demo_write ex_token)
      as (k' & r & He & _); [apply Hp; by eexists | split; [exact pool_buf_ok | by vm_compute] |].
    exists k'. rewrite He. clear -He. change (make_sqe_shim write_fixed_spec (KernelWrite tt) demo_write demo_slots chunks_with_3 ex_token = (k', demo_write, r)) in He.
    injection He as _ <-. vm_compute. reflexivity.
  - destruct (op_entry_within_buffer write_fixed_spec in_write_fixed demo_slots chunks_with_3 (KernelWrite tt)
      (UserWriteFixed (mkFileIo (mkIoFd 2 1) pool_buf 512 60)) ex_token)
      as (k' & r & He & Hr); [apply Hp; by eexists | split; [exact pool_buf_ok | by vm_compute] |].
    destruct r; [| exact Hr]. exfalso. clear -He. discriminate He.
Defined.

Lemma op_payloads_stay_paired_witness :
  let op := (into_kernel_and_payload (IntoPlatformOp := spec_into_platform timeout_spec) (mkTimeout 5000)).1 in
  kernel_op_ok op /\ paired timeout_spec (ko_payload op) (UserTimeout (mkTimeout 5000)).
Proof. exact (proj2 (proj1 (op_payloads_stay_paired timeout_spec in_timeout) (mkTimeout 5000))). Defined.

Definition an_accept : Accept := mkAccept (mkIoFd 1 4) sock_addr_default 128 None.
Lemma new_descriptor_owned_witness :
  (vt_orphan_cleanup (spec_vtable accept_spec) (KernelAccept tt) 9).2 = Some (CloseRawFd 9).
Proof.
  exact (proj1 (proj2 (new_descriptor_owned accept_spec in_accept (KernelAccept tt) (UserAccept an_accept)
    (conj (ex_intro _ tt eq_refl) (ex_intro _ an_accept eq_refl)) 9))).
Defined.

Lemma peer_address_roundtrip_witness :
  let k := (make_sqe_send_to demo_slots send_to_payload_new (mkSendTo (mkIoFd 1 4) pool_buf 0 loopback_v6)).1 in
  on_complete_accept (mkAccept (mkIoFd 1 4) (sp_name k) 28 None) 9 =
    (mkAccept (mkIoFd 1 4) (sp_name k) 28 (Some loopback_v6), Ok 9).
Proof.
  assert (Hw : addr_wf loopback_v6) by (split; [split; [done | repeat (apply Forall_cons_2; [lia |]); apply Forall_nil_2] | lia]).
  pose proof (peer_address_roundtrip demo_slots send_to_payload_new (mkSendTo (mkIoFd 1 4) pool_buf 0 loopback_v6) Hw) as H.
  specialize (H recv_from_payload_new (mkRecvFrom (mkIoFd 1 4) pool_buf 0 None)).
  set (k := (make_sqe_send_to demo_slots send_to_payload_new (mkSendTo (mkIoFd 1 4) pool_buf 0 loopback_v6)).1).
  specialize (H (mkAccept (mkIoFd 1 4) (sp_name k) 28 None) 9). unfold k in *. clear k.
  destruct (make_sqe_send_to _ _ _) as [k [e | e]] eqn:E; [| vm_compute in E; discriminate E].
  destruct H as (_ & _ & _ & _ & _ & H). apply H; [reflexivity |]. vm_compute in E. injection E as <- _. cbn. lia.
Defined.
