(* ===== verification/RioRegistry.v ===== *)
(** * veloq-driver-iocp: the registrations of the RIO backend
      ([rio/core/registry.rs], [registry/buffer.rs], [registry/addr.rs],
      [rio/core/request.rs], [rio/core/submit_ops/dispatch.rs])

    Registered I/O works on buffers that were registered with the kernel.  The
    registry keeps the registrations of chunks and of single heap buffers with the
    number of requests that use them, the slots of one buffer for addresses, and
    the contexts of the requests that the kernel has.  The extension table of
    Windows is a class; a report is its kind ([RioError]).  Vectors used as
    stacks have their top first. *)

From stdpp Require Import list gmap.
From S2P Require Import Prelude Units Token Handle UringNet.

(** ** Errors ([rio/error.rs]) *)

Inductive RioError : Type :=
  | LibraryLoad | BufferRegistration | CqCreation | RqCreation | Datapath
  | InvalidInput | ResourceExhaustion | NotSupported | Internal.
Definition RioResult (A : Type) : Type := result A RioError.

(** ** The extension table *)

Record RioBuf : Type := mkRioBuf { bu_id : Z; bu_offset : Z; bu_length : Z }.
(** What a completion says. *)
Record RioCompletion : Type := mkRioCompletion { rs_context : Z; rs_status : Z; rs_bytes : Z }.
(** [RIODequeueCompletion]: results, or that the queue is corrupt. *)
Inductive Dequeued : Type := Results (l : list RioCompletion) | CorruptCq.

Record RioRqConfig : Type := mkRqConfig { rq_socket : Z; rq_max_recvs : Z; rq_max_sends : Z; rq_cq : Z }.

(** The functions of Windows; [0] is failure where they return an object, and
    [false] where they return a [BOOL].  [now] is the clock; [fn_yield] and
    [fn_sleep] (in milliseconds) let time pass. *)
Class RioTable (K : Type) : Type := {
  fn_create_rq : K -> RioRqConfig -> K * Z;
  fn_register_buffer : K -> Z -> Z -> K * Z;
  fn_deregister_buffer : K -> Z -> K;
  fn_dequeue : K -> Z -> nat -> K * Dequeued;
  fn_notify : K -> Z -> K * bool;
  fn_close_cq : K -> Z -> K;
  fn_receive : K -> Z -> RioBuf -> Z -> K * bool;
  fn_send : K -> Z -> RioBuf -> Z -> K * bool;
  fn_send_ex : K -> Z -> RioBuf -> RioBuf -> Z -> K * bool;
  fn_receive_ex : K -> Z -> RioBuf -> RioBuf -> Z -> K * bool;
  fn_yield : K -> K;
  fn_sleep : K -> Z -> K;
  now : K -> Z
}.

(** ** [RioDispatch] *)

Definition INVALID : Z := 0.
Definition is_invalid (id : Z) : bool := id =? 0.

Section dispatch.
Context {K : Type} `{!RioTable K}.
Implicit Types (k : K).

Definition non_zero (x : K * Z) (e : RioError) : K * RioResult Z := (x.1, if x.2 =? 0 then Err e else Ok x.2).
Definition non_false (x : K * bool) (e : RioError) : K * RioResult unit := (x.1, if x.2 then Ok tt else Err e).

Definition disp_create_rq k (cfg : RioRqConfig) : K * RioResult Z := non_zero (fn_create_rq k cfg) RqCreation.
Definition register_buffer k (ptr len : Z) : K * RioResult Z := non_zero (fn_register_buffer k ptr len) BufferRegistration.
Definition deregister_buffer k (id : Z) : K := if is_invalid id then k else fn_deregister_buffer k id.
Definition notify k (cq : Z) : K * RioResult unit := non_false (fn_notify k cq) Internal.
Definition close_cq k (cq : Z) : K := if is_invalid cq then k else fn_close_cq k cq.
Definition receive k (rq : Z) (buf : RioBuf) (context : Z) : K * RioResult unit := non_false (fn_receive k rq buf context) Datapath.
Definition disp_send k (rq : Z) (buf : RioBuf) (context : Z) : K * RioResult unit := non_false (fn_send k rq buf context) Datapath.
Definition send_ex k (rq : Z) (data addr : RioBuf) (context : Z) : K * RioResult unit := non_false (fn_send_ex k rq data addr context) Datapath.
Definition receive_ex k (rq : Z) (data addr : RioBuf) (context : Z) : K * RioResult unit := non_false (fn_receive_ex k rq data addr context) Datapath.
End dispatch.

(** ** Registered buffers ([registry/buffer.rs]) *)

Definition REGISTER_FAILURE_RETRY_COOLDOWN : Z := 250000000.   (* nanoseconds *)
Definition HEAP_REGISTRATION_CACHE_LIMIT : nat := 1024.

Record RioHeapBufferKey : Type := mkHeapKey { hk_ptr : Z; hk_cap : Z; hk_cookie : Z }.
Record RioChunkRegistrationKey : Type := mkChunkKey { ck_id : Z; ck_generation : Z }.
#[global] Instance heap_key_eq_dec : EqDecision RioHeapBufferKey.
Proof. solve_decision. Defined.
#[global] Instance heap_key_countable : Countable RioHeapBufferKey.
Proof.
  by apply (inj_countable' (fun k => (hk_ptr k, hk_cap k, hk_cookie k)) (fun x => mkHeapKey x.1.1 x.1.2 x.2)); intros [].
Defined.
#[global] Instance chunk_key_eq_dec : EqDecision RioChunkRegistrationKey.
Proof. solve_decision. Defined.
#[global] Instance chunk_key_countable : Countable RioChunkRegistrationKey.
Proof. by apply (inj_countable' (fun k => (ck_id k, ck_generation k)) (fun x => mkChunkKey x.1 x.2)); intros []. Defined.

Record RioHeapLeaseToken : Type := mkHeapLease { hl_key : RioHeapBufferKey; hl_id : Z }.
Record RioChunkLeaseToken : Type := mkChunkLease { cl_key : RioChunkRegistrationKey; cl_id : Z }.
Inductive RioBufferLeaseToken : Type := ChunkLease (l : RioChunkLeaseToken) | HeapLease (l : RioHeapLeaseToken).
#[global] Instance lease_eq_dec : EqDecision RioBufferLeaseToken.
Proof.
  assert (EqDecision RioHeapLeaseToken) by solve_decision. assert (EqDecision RioChunkLeaseToken) by solve_decision. solve_decision.
Defined.

Record RioBufferRegistration : Type := mkBufReg { bg_id : Z; bg_refs : Z; bg_retired : bool }.
Definition buf_reg_new (id : Z) : RioBufferRegistration := mkBufReg id 0 false.
Definition acquire_ref (g : RioBufferRegistration) : RioResult RioBufferRegistration :=
  match checked USIZE_BITS (bg_refs g + 1) with
  | Some n => Ok (mkBufReg (bg_id g) n (bg_retired g))
  | None => Err ResourceExhaustion
  end.
Definition release_ref (g : RioBufferRegistration) : option RioBufferRegistration :=
  if bg_refs g =? 0 then None else Some (mkBufReg (bg_id g) (bg_refs g - 1) (bg_retired g)).
Definition retire (g : RioBufferRegistration) : RioBufferRegistration := mkBufReg (bg_id g) (bg_refs g) true.

Record RioChunkRegistration : Type := mkChunkReg { cg_generation : Z; cg_registration : RioBufferRegistration }.

Inductive RioCounter : Type :=
  | ChunkAttempts | ChunkSuccess | ChunkFailures | ChunkSkipped | HeapAttempts | HeapSuccess | HeapFailures | HeapSkipped.
#[global] Instance rio_counter_eq_dec : EqDecision RioCounter.
Proof. solve_decision. Defined.

(** The fields of [RioRegistry] for data buffers. *)
Record RioBuffers : Type := mkBuffers {
  rb_chunks : list (option RioChunkRegistration);
  rb_retired : gmap RioChunkRegistrationKey RioBufferRegistration;
  rb_heap : gmap RioHeapBufferKey RioBufferRegistration;
  rb_pending : list Z;
  rb_stats : RioCounter -> Z;
  rb_chunk_failures : gmap Z Z;
  rb_heap_failures : gmap RioHeapBufferKey Z;
  rb_generation : Z
}.
Implicit Types (b : RioBuffers).

Definition set_chunks b x := mkBuffers x (rb_retired b) (rb_heap b) (rb_pending b) (rb_stats b) (rb_chunk_failures b) (rb_heap_failures b) (rb_generation b).
Definition set_retired b x := mkBuffers (rb_chunks b) x (rb_heap b) (rb_pending b) (rb_stats b) (rb_chunk_failures b) (rb_heap_failures b) (rb_generation b).
Definition set_heap b x := mkBuffers (rb_chunks b) (rb_retired b) x (rb_pending b) (rb_stats b) (rb_chunk_failures b) (rb_heap_failures b) (rb_generation b).
Definition set_pending b x := mkBuffers (rb_chunks b) (rb_retired b) (rb_heap b) x (rb_stats b) (rb_chunk_failures b) (rb_heap_failures b) (rb_generation b).
Definition set_failures b x y := mkBuffers (rb_chunks b) (rb_retired b) (rb_heap b) (rb_pending b) (rb_stats b) x y (rb_generation b).
Definition set_generation b x := mkBuffers (rb_chunks b) (rb_retired b) (rb_heap b) (rb_pending b) (rb_stats b) (rb_chunk_failures b) (rb_heap_failures b) x.
(** [saturating_add(1)] *)
Definition bump b (c : RioCounter) : RioBuffers :=
  mkBuffers (rb_chunks b) (rb_retired b) (rb_heap b) (rb_pending b)
    (fun c' => if decide (c' = c) then Z.min (rb_stats b c + 1) U64_MAX else rb_stats b c')
    (rb_chunk_failures b) (rb_heap_failures b) (rb_generation b).

Definition buffers_new : RioBuffers := mkBuffers [] ∅ ∅ [] (fun _ => 0) ∅ ∅ 0.

Definition next_registration_generation b : RioBuffers * Z :=
  let g := wrapping_add U64 (rb_generation b) 1 in
  let g := if g =? 0 then 1 else g in
  (set_generation b g, g).

Definition chunk_at b (id : Z) : option RioChunkRegistration := mjoin (rb_chunks b !! Z.to_nat id).

Definition current_chunk_lease b (id : Z) : option RioChunkLeaseToken :=
  match chunk_at b id with
  | Some e => Some (mkChunkLease (mkChunkKey id (cg_generation e)) (bg_id (cg_registration e)))
  | None => None
  end.

(** *** Leases *)

Inductive ChunkLocation : Type := LocCurrent | LocRetired.

Definition locate_chunk_lease b (l : RioChunkLeaseToken) : RioResult ChunkLocation :=
  let retired :=
    match rb_retired b !! cl_key l with
    | Some e => if bg_id e =? cl_id l then Ok LocRetired else Err Internal
    | None => Err Internal
    end in
  match chunk_at b (ck_id (cl_key l)) with
  | Some e =>
      if cg_generation e =? ck_generation (cl_key l)
      then if bg_id (cg_registration e) =? cl_id l then Ok LocCurrent else Err Internal
      else retired
  | None => retired
  end.

(** [current_chunk_registration_mut]. *)
Definition current_chunk_registration b (key : RioChunkRegistrationKey) : option RioBufferRegistration :=
  match chunk_at b (ck_id key) with
  | Some e => if cg_generation e =? ck_generation key then Some (cg_registration e) else None
  | None => None
  end.

Definition chunk_registration_for_lease b (l : RioChunkLeaseToken) : RioResult (ChunkLocation * RioBufferRegistration) :=
  match locate_chunk_lease b l with
  | Err e => Err e
  | Ok LocCurrent => match current_chunk_registration b (cl_key l) with Some e => Ok (LocCurrent, e) | None => Err Internal end
  | Ok LocRetired => match rb_retired b !! cl_key l with Some e => Ok (LocRetired, e) | None => Err Internal end
  end.

Definition set_chunk_registration b (loc : ChunkLocation) (key : RioChunkRegistrationKey) (g : RioBufferRegistration) : RioBuffers :=
  match loc with
  | LocCurrent => set_chunks b (<[Z.to_nat (ck_id key) := Some (mkChunkReg (ck_generation key) g)]> (rb_chunks b))
  | LocRetired => set_retired b (<[key := g]> (rb_retired b))
  end.

Definition heap_registration_for_lease b (l : RioHeapLeaseToken) : RioResult RioBufferRegistration :=
  match rb_heap b !! hl_key l with
  | Some e => if bg_id e =? hl_id l then Ok e else Err Internal
  | None => Err Internal
  end.

Definition acquire_chunk_lease b (l : RioChunkLeaseToken) : RioBuffers * RioResult unit :=
  match chunk_registration_for_lease b l with
  | Err e => (b, Err e)
  | Ok (loc, g) =>
      match acquire_ref g with
      | Ok g => (set_chunk_registration b loc (cl_key l) g, Ok tt)
      | Err e => (b, Err e)
      end
  end.
Definition acquire_heap_lease b (l : RioHeapLeaseToken) : RioBuffers * RioResult unit :=
  match heap_registration_for_lease b l with
  | Err e => (b, Err e)
  | Ok g =>
      match acquire_ref g with
      | Ok g => (set_heap b (<[hl_key l := g]> (rb_heap b)), Ok tt)
      | Err e => (b, Err e)
      end
  end.
Definition acquire_buffer_lease b (lease : option RioBufferLeaseToken) : RioBuffers * RioResult unit :=
  match lease with
  | None => (b, Ok tt)
  | Some (ChunkLease l) => acquire_chunk_lease b l
  | Some (HeapLease l) => acquire_heap_lease b l
  end.

Definition release_chunk_lease_inner b (l : RioChunkLeaseToken) : RioBuffers * RioResult (option Z) :=
  match chunk_registration_for_lease b l with
  | Err e => (b, Err e)
  | Ok (loc, g) =>
      match release_ref g with
      | None => (b, Err Internal)
      | Some g =>
          let b := set_chunk_registration b loc (cl_key l) g in
          if (bg_refs g =? 0) && bg_retired g then
            match loc with
            | LocCurrent =>
                (set_chunks b (<[Z.to_nat (ck_id (cl_key l)) := None]> (rb_chunks b)),
                 Ok (bg_id ∘ cg_registration <$> chunk_at b (ck_id (cl_key l))))
            | LocRetired => (set_retired b (delete (cl_key l) (rb_retired b)), Ok (bg_id <$> rb_retired b !! cl_key l))
            end
          else (b, Ok None)
      end
  end.
Definition release_heap_lease_inner b (l : RioHeapLeaseToken) : RioBuffers * RioResult (option Z) :=
  match heap_registration_for_lease b l with
  | Err e => (b, Err e)
  | Ok g =>
      match release_ref g with
      | None => (b, Err Internal)
      | Some g =>
          let b := set_heap b (<[hl_key l := g]> (rb_heap b)) in
          if (bg_refs g =? 0) && bg_retired g
          then (set_heap b (delete (hl_key l) (rb_heap b)), Ok (bg_id <$> rb_heap b !! hl_key l))
          else (b, Ok None)
      end
  end.
Definition release_buffer_lease_inner b (lease : option RioBufferLeaseToken) : RioBuffers * RioResult (option Z) :=
  match lease with
  | None => (b, Ok None)
  | Some (ChunkLease l) => release_chunk_lease_inner b l
  | Some (HeapLease l) => release_heap_lease_inner b l
  end.
Definition release_buffer_lease_deferred b (lease : option RioBufferLeaseToken) : RioBuffers * RioResult unit :=
  let '(b, r) := release_buffer_lease_inner b lease in
  match r with
  | Ok (Some id) => (set_pending b (rb_pending b ++ [id]), Ok tt)
  | Ok None => (b, Ok tt)
  | Err e => (b, Err e)
  end.

(** *** Registration *)

(** What a submission is given: who knows the chunks, and the pool of a buffer
    (its [resolve_region_info]). *)
Record RioEnv : Type := mkRioEnv { en_chunk_info : Z -> option (Z * Z); en_region : FixedBuf -> RegionInfo; en_cq : Z }.

Section registration.
Context {K : Type} `{!RioTable K}.
Implicit Types (k : K) (env : RioEnv).

Definition release_buffer_lease k b (lease : option RioBufferLeaseToken) : K * RioBuffers * RioResult unit :=
  let '(b, r) := release_buffer_lease_inner b lease in
  match r with
  | Ok (Some id) => (deregister_buffer k id, b, Ok tt)
  | Ok None => (k, b, Ok tt)
  | Err e => (k, b, Err e)
  end.

Definition failed_recently k (last_fail : option Z) : bool :=
  match last_fail with
  | Some t => saturating_sub (now k) t <? REGISTER_FAILURE_RETRY_COOLDOWN
  | None => false
  end.

Definition retire_chunk_registration k b (key : RioChunkRegistrationKey) (g : RioBufferRegistration) : K * RioBuffers :=
  if bg_refs g =? 0 then (deregister_buffer k (bg_id g), b)
  else (k, set_retired b (<[key := retire g]> (rb_retired b))).

(** [chunk_registry.resize(id_idx + 1, None)] *)
Definition grow_chunks b (id : Z) : RioBuffers :=
  if (length (rb_chunks b) <=? Z.to_nat id)%nat
  then set_chunks b (rb_chunks b ++ replicate (Z.to_nat id + 1 - length (rb_chunks b)) None) else b.

Definition register_chunk k b (id : Z) (mem : Z * Z) : K * RioBuffers * RioResult unit :=
  if failed_recently k (rb_chunk_failures b !! id) then (k, bump b ChunkSkipped, Err ResourceExhaustion) else
  let '(ptr, len) := mem in
  let b := bump (grow_chunks b id) ChunkAttempts in
  match register_buffer k ptr (wrap U32 len) with
  | (k, Err e) =>
      let b := bump b ChunkFailures in
      (k, set_failures b (<[id := now k]> (rb_chunk_failures b)) (rb_heap_failures b), Err e)
  | (k, Ok buf_id) =>
      let '(b, generation) := next_registration_generation b in
      let previous := chunk_at b id in
      let b := set_chunks b (<[Z.to_nat id := Some (mkChunkReg generation (buf_reg_new buf_id))]> (rb_chunks b)) in
      let '(k, b) :=
        match previous with
        | Some p => retire_chunk_registration k b (mkChunkKey id (cg_generation p)) (cg_registration p)
        | None => (k, b)
        end in
      let b := set_failures b (delete id (rb_chunk_failures b)) (rb_heap_failures b) in
      (k, bump b ChunkSuccess, Ok tt)
  end.

Definition deregister_all k (ids : list Z) : K := fold_left deregister_buffer ids k.

(** [retire_heap_cache_for_insert]: over the limit, entries in use are retired
    and the others go. *)
Definition is_idle_entry (e : RioHeapBufferKey * RioBufferRegistration) : bool := bg_refs e.2 =? 0.
Definition retire_heap_cache_for_insert k b : K * RioBuffers :=
  if (size (rb_heap b) <? HEAP_REGISTRATION_CACHE_LIMIT)%nat then (k, b) else
  let idle := filter is_idle_entry (map_to_list (rb_heap b)) in
  let busy := retire <$> filter (fun e => is_idle_entry e = false) (rb_heap b) in
  (deregister_all k (map (fun e => bg_id e.2) idle), set_heap b busy).

Definition heap_key env (buf : FixedBuf) : RioHeapBufferKey := mkHeapKey (fb_ptr buf) (buf_capacity buf) (ri_cookie (en_region env buf)).

Definition register_heap_raw k b (buf : FixedBuf) (key : RioHeapBufferKey) : K * RioBuffers * RioResult Z :=
  let b := bump b HeapAttempts in
  match register_buffer k (fb_ptr buf) (wrap U32 (buf_capacity buf)) with
  | (k, Err e) =>
      let b := bump b HeapFailures in
      (k, set_failures b (rb_chunk_failures b) (<[key := now k]> (rb_heap_failures b)), Err e)
  | (k, Ok id) =>
      let b := set_heap b (<[key := buf_reg_new id]> (rb_heap b)) in
      let b := set_failures b (rb_chunk_failures b) (delete key (rb_heap_failures b)) in
      (k, bump b HeapSuccess, Ok id)
  end.

(** A resolved buffer: its registration, the offset of the buffer in it, and the
    lease that keeps it. *)
Definition Resolved : Type := Z * Z * option RioBufferLeaseToken.

Definition resolve_heap_id k b (buf : FixedBuf) (offset : Z) env : K * RioBuffers * RioResult Resolved :=
  let key := heap_key env buf in
  match rb_heap b !! key with
  | Some e => (k, b, Ok (bg_id e, offset, Some (HeapLease (mkHeapLease key (bg_id e)))))
  | None =>
      if failed_recently k (rb_heap_failures b !! key) then (k, bump b HeapSkipped, Err ResourceExhaustion) else
      let '(k, b) := retire_heap_cache_for_insert k b in
      match register_heap_raw k b buf key with
      | (k, b, Err e) => (k, b, Err e)
      | (k, b, Ok id) => (k, b, Ok (id, offset, Some (HeapLease (mkHeapLease key id))))
      end
  end.

Definition resolve_buffer_id k b (buf : FixedBuf) env : K * RioBuffers * RioResult Resolved :=
  let info := en_region env buf in
  let found b :=
    match current_chunk_lease b (ri_id info) with
    | Some l => Ok (cl_id l, ri_offset info, Some (ChunkLease l))
    | None => Err Internal
    end in
  match ri_pool_kind info with
  | Heap => resolve_heap_id k b buf (ri_offset info) env
  | SlotBased =>
      match current_chunk_lease b (ri_id info), en_chunk_info env (ri_id info) with
      | None, Some mem =>
          match register_chunk k b (ri_id info) mem with
          | (k, b, Err e) => (k, b, Err e)
          | (k, b, Ok _) => (k, b, found b)
          end
      | _, _ => (k, b, found b)
      end
  end.

Definition flush_deregs k b : K * RioBuffers := (deregister_all k (rb_pending b), set_pending b []).

(** *** Preparing a submission ([registry.rs]) *)

Inductive RioSubmissionKind : Type := SubRecv | SubSend.

Definition data_len (s : RioSubmissionKind) (buf : FixedBuf) (buf_offset : Z) : RioResult Z :=
  let bound := match s with SubRecv => buf_capacity buf | SubSend => buf_length buf end in
  if bound <? buf_offset then Err InvalidInput else
  match checked U32 (bound - buf_offset) with Some len => Ok len | None => Err ResourceExhaustion end.

Definition checked_rio_buffer_offset (base_offset buf_offset : Z) : RioResult Z :=
  match checked U32 base_offset with
  | None => Err ResourceExhaustion
  | Some base => match checked U32 (base + buf_offset) with Some o => Ok o | None => Err ResourceExhaustion end
  end.

Record RioPreparedBuffer : Type := mkPrepared { pb_buf : RioBuf; pb_lease : option RioBufferLeaseToken }.

Definition prepare_submission k b (buf : FixedBuf) (buf_offset len : Z) env : K * RioBuffers * RioResult RioPreparedBuffer :=
  match checked U32 buf_offset with
  | None => (k, b, Err InvalidInput)
  | Some buf_offset =>
      match resolve_buffer_id k b buf env with
      | (k, b, Err e) => (k, b, Err e)
      | (k, b, Ok (id, offset, lease)) =>
          match checked_rio_buffer_offset offset buf_offset with
          | Err e => (k, b, Err e)
          | Ok offset => (k, b, Ok (mkPrepared (mkRioBuf id offset len) lease))
          end
      end
  end.
End registration.

(** ** Addresses ([registry/addr.rs]) *)

Definition AF_INET : Z := 2.
Definition AF_INET6 : Z := 23.
Definition SIZE_SOCKADDR : Z := 16.
Definition SIZE_SOCKADDR_IN : Z := 16.
Definition SIZE_SOCKADDR_IN6 : Z := 28.
Definition SIZE_SOCKADDR_INET : Z := 28.
Definition SIZE_STORAGE : Z := 128.
(** [SockAddrStorage]: its bytes. *)
Definition storage_default : list Z := replicate (Z.to_nat SIZE_STORAGE) 0.

Record RioAddrReservation : Type := mkAddrRes { ar_slot : nat; ar_buf : RioBuf }.

(** [ra_base] is where the slots are. *)
Record RioAddrs : Type := mkAddrs {
  ra_base : Z;
  ra_slots : list (list Z);
  ra_in_use : list bool;
  ra_free : list nat;
  ra_buffer_id : Z
}.
Implicit Types (a : RioAddrs).

Definition addrs_new (base : Z) (capacity : nat) : RioAddrs :=
  let n := Nat.max capacity 1 in
  mkAddrs base (replicate n storage_default) (replicate n false) (seq 0 n) INVALID.

(** Memory that a caller passes: nothing for a null pointer. *)
Definition Pointer : Type := option (list Z).
Definition read_memory (bytes : list Z) (n : Z) : outcome (list Z) :=
  if Z.of_nat (length bytes) <? n then Fault InvalidPointer else Ret (take (Z.to_nat n) bytes).

Definition validate_send_addr (addr : Pointer) (addr_len : Z) : outcome (RioResult Z) :=
  match addr with
  | None => Ret (Err InvalidInput)
  | Some bytes =>
      if addr_len <? 0 then Ret (Err InvalidInput) else
      if addr_len <? SIZE_SOCKADDR then Ret (Err InvalidInput) else
      family ← read_memory bytes 2;
      let family := le_num family in
      let min_len :=
        if family =? AF_INET then Some SIZE_SOCKADDR_IN else if family =? AF_INET6 then Some SIZE_SOCKADDR_IN6 else None in
      Ret match min_len with
          | None => Err InvalidInput
          | Some min_len => if addr_len <? min_len then Err InvalidInput else Ok SIZE_SOCKADDR_INET
          end
  end.

Definition addr_slot_offset (slot : nat) : RioResult Z :=
  match checked USIZE_BITS (Z.of_nat slot * SIZE_STORAGE) with
  | None => Err ResourceExhaustion
  | Some offset => match checked U32 offset with Some o => Ok o | None => Err ResourceExhaustion end
  end.

Definition set_addr_buffer a (id : Z) : RioAddrs := mkAddrs (ra_base a) (ra_slots a) (ra_in_use a) (ra_free a) id.
Definition set_addr_slot a (slot : nat) (bytes : list Z) : RioAddrs :=
  mkAddrs (ra_base a) (<[slot := bytes]> (ra_slots a)) (ra_in_use a) (ra_free a) (ra_buffer_id a).

Section addresses.
Context {K : Type} `{!RioTable K}.
Implicit Types (k : K).

Definition ensure_addr_buffer_registered k a : K * RioAddrs * RioResult Z :=
  if negb (is_invalid (ra_buffer_id a)) then (k, a, Ok (ra_buffer_id a)) else
  match checked U32 (Z.of_nat (length (ra_slots a)) * SIZE_STORAGE) with
  | None => (k, a, Err ResourceExhaustion)
  | Some len =>
      match register_buffer k (ra_base a) len with
      | (k, Err e) => (k, a, Err e)
      | (k, Ok id) => (k, set_addr_buffer a id, Ok id)
      end
  end.

Definition allocate_addr_slot k a : outcome (K * RioAddrs * RioResult RioAddrReservation) :=
  match ensure_addr_buffer_registered k a with
  | (k, a, Err e) => Ret (k, a, Err e)
  | (k, a, Ok id) =>
      match ra_free a with
      | [] => Ret (k, a, Err ResourceExhaustion)
      | slot :: free =>
          in_use ← vec_set (ra_in_use a) (Z.of_nat slot) true;
          let a := mkAddrs (ra_base a) (ra_slots a) in_use free (ra_buffer_id a) in
          Ret match addr_slot_offset slot with
              | Err e => (k, a, Err e)
              | Ok offset => (k, a, Ok (mkAddrRes slot (mkRioBuf id offset SIZE_SOCKADDR_INET)))
              end
      end
  end.

Definition prepare_send_addr k a (addr : Pointer) (addr_len : Z) : outcome (K * RioAddrs * RioResult RioAddrReservation) :=
  valid ← validate_send_addr addr addr_len;
  match valid, addr with
  | Err e, _ => Ret (k, a, Err e)
  | Ok rio_addr_len, addr =>
      r ← allocate_addr_slot k a;
      match r with
      | (k, a, Err e) => Ret (k, a, Err e)
      | (k, a, Ok res) =>
          _ ← vec_get (ra_slots a) (Z.of_nat (ar_slot res));
          bytes ← read_memory (default [] addr) (Z.min addr_len rio_addr_len);
          let a := set_addr_slot a (ar_slot res) (bytes ++ drop (length bytes) storage_default) in
          Ret (k, a, Ok (mkAddrRes (ar_slot res) (mkRioBuf (bu_id (ar_buf res)) (bu_offset (ar_buf res)) rio_addr_len)))
      end
  end.

Definition prepare_recv_addr k a : outcome (K * RioAddrs * RioResult RioAddrReservation) :=
  r ← allocate_addr_slot k a;
  match r with
  | (k, a, Err e) => Ret (k, a, Err e)
  | (k, a, Ok res) =>
      _ ← vec_get (ra_slots a) (Z.of_nat (ar_slot res));
      Ret (k, set_addr_slot a (ar_slot res) storage_default, Ok res)
  end.
End addresses.

(** [dst]: [false] is a null pointer; the result is what is copied there. *)
Definition copy_addr_slot_to a (slot : nat) (dst : bool) : RioResult (list Z) :=
  if negb dst then Err Internal else
  match ra_slots a !! slot with Some src => Ok src | None => Err Internal end.

Definition free_addr_slot a (slot : option nat) : RioAddrs :=
  match slot with
  | Some slot =>
      match ra_in_use a !! slot with
      | Some true => mkAddrs (ra_base a) (ra_slots a) (<[slot := false]> (ra_in_use a)) (slot :: ra_free a) (ra_buffer_id a)
      | _ => a
      end
  | None => a
  end.

Definition reset_addr_slots a : RioAddrs :=
  let n := length (ra_in_use a) in
  mkAddrs (ra_base a) (ra_slots a) (replicate n false) (seq 0 n) (ra_buffer_id a).

(** ** Sockets and requests ([config.rs], [request.rs]) *)

(** [IocpHandle]; the key of a socket is its handle with a generation. *)
Inductive IocpHandle : Type := HFile (handle : Z) | HSocket (handle generation : Z).
Definition SocketKey : Type := IocpHandle.
#[global] Instance iocp_handle_eq_dec : EqDecision IocpHandle.
Proof. solve_decision. Defined.
#[global] Instance iocp_handle_countable : Countable IocpHandle.
Proof.
  by apply (inj_countable' (fun h => match h with HFile x => inl x | HSocket x g => inr (x, g) end)
    (fun s => match s with inl x => HFile x | inr (x, g) => HSocket x g end)); intros [].
Defined.
#[global] Instance socket_key_eq_dec : EqDecision SocketKey := iocp_handle_eq_dec.
#[global] Instance socket_key_countable : Countable SocketKey := iocp_handle_countable.
Definition as_handle (h : IocpHandle) : Z := match h with HFile x | HSocket x _ => x end.

Inductive RioOpKind : Type := RioRecv | RioSend | RioSendTo | RioRecvFrom.

Record RioRequestDiagnostics : Type := mkRioDiag {
  dg_rq : Z; dg_data_id : Z; dg_data_offset : Z; dg_data_length : Z; dg_addr_id : Z; dg_addr_offset : Z; dg_addr_length : Z
}.
Definition rio_diagnostics (rq : Z) (data : RioBuf) (addr : option RioAddrReservation) : RioRequestDiagnostics :=
  let ab := match addr with Some r => ar_buf r | None => mkRioBuf 0 0 0 end in
  mkRioDiag rq (bu_id data) (bu_offset data) (bu_length data) (bu_id ab) (bu_offset ab) (bu_length ab).

Record RioOpRequestInit : Type := mkInit {
  in_token : OpToken;
  in_socket : SocketKey;                         (* [SocketInflightToken] *)
  in_kind : RioOpKind;
  in_request_id : Z;
  in_addr_slot : option nat;
  in_lease : option RioBufferLeaseToken;
  in_diagnostics : RioRequestDiagnostics
}.

(** *** Contexts: the number that the kernel carries for a request *)

Definition RIO_REQUEST_CONTEXT_MAGIC : Z := 0xA7.
Definition RIO_REQUEST_CONTEXT_MAGIC_SHIFT : Z := 56.
Definition RIO_REQUEST_CONTEXT_INDEX_SHIFT : Z := 32.
Definition RIO_REQUEST_CONTEXT_INDEX_MASK : Z := 0x00ffffff.

Record RioRequestContextId : Type := mkCtxId { id_index : Z; id_generation : Z }.
Definition context_id_new (index generation : Z) : outcome RioRequestContextId :=
  _ ← assert (index <=? RIO_REQUEST_CONTEXT_INDEX_MASK);
  Ret (mkCtxId index generation).
Definition context_raw_of (id : RioRequestContextId) : Z :=
  Z.lor (Z.lor (Z.shiftl RIO_REQUEST_CONTEXT_MAGIC RIO_REQUEST_CONTEXT_MAGIC_SHIFT)
               (Z.shiftl (id_index id) RIO_REQUEST_CONTEXT_INDEX_SHIFT)) (id_generation id).
Definition context_from_raw (raw : Z) : option RioRequestContextId :=
  let magic := Z.shiftr raw RIO_REQUEST_CONTEXT_MAGIC_SHIFT in
  if negb (magic =? RIO_REQUEST_CONTEXT_MAGIC) then None else
  let index := Z.land (Z.shiftr raw RIO_REQUEST_CONTEXT_INDEX_SHIFT) RIO_REQUEST_CONTEXT_INDEX_MASK in
  Some (mkCtxId index (wrap U32 raw)).

Record RioRequestContextSlot : Type := mkCtxSlot { cs_generation : Z; cs_init : option RioOpRequestInit; cs_in_use : bool }.
Record RioContexts : Type := mkCtxs { cx_slots : list RioRequestContextSlot; cx_free : list nat }.
Implicit Types (x : RioContexts).
Definition contexts_new : RioContexts := mkCtxs [] [].
Definition ctx_slot_default : RioRequestContextSlot := mkCtxSlot 0 None false.

Definition alloc_request_context x (init : RioOpRequestInit) : outcome (RioContexts * RioRequestContextId) :=
  let '(x, index) :=
    match cx_free x with
    | i :: free => (mkCtxs (cx_slots x) free, i)
    | [] => (mkCtxs (cx_slots x ++ [ctx_slot_default]) [], length (cx_slots x))
    end in
  slot ← vec_get (cx_slots x) (Z.of_nat index);
  _ ← assert (negb (cs_in_use slot));
  let generation := wrapping_add U32 (cs_generation slot) 1 in
  let generation := if generation =? 0 then 1 else generation in
  let x := mkCtxs (<[index := mkCtxSlot generation (Some init) true]> (cx_slots x)) (cx_free x) in
  id ← context_id_new (Z.of_nat index) generation;
  Ret (x, id).

(** [in_use = false], and back to the free list. *)
Definition give_back_context x (index : nat) (slot : RioRequestContextSlot) : RioContexts :=
  mkCtxs (<[index := mkCtxSlot (cs_generation slot) None false]> (cx_slots x)) (index :: cx_free x).

Inductive RioRequestContextDecode : Type :=
  | CtxValid (init : RioOpRequestInit)
  | CtxMalformed (raw : Z)
  | CtxMissing (id : RioRequestContextId)
  | CtxStale (id : RioRequestContextId) (actual_generation : Z).

Definition decode_request_context_checked x (raw : Z) : RioContexts * RioRequestContextDecode :=
  match context_from_raw raw with
  | None => (x, CtxMalformed raw)
  | Some id =>
      let index := Z.to_nat (id_index id) in
      match cx_slots x !! index with
      | None => (x, CtxMissing id)
      | Some slot =>
          if negb (cs_in_use slot) then (x, CtxMissing id) else
          if negb (cs_generation slot =? id_generation id) then (x, CtxStale id (cs_generation slot)) else
          match cs_init slot with
          | None => (give_back_context x index slot, CtxMissing id)
          | Some init => (give_back_context x index slot, CtxValid init)
          end
      end
  end.

Definition take_request_context_init x (id : RioRequestContextId) : RioContexts * option RioOpRequestInit :=
  let index := Z.to_nat (id_index id) in
  match cx_slots x !! index with
  | None => (x, None)
  | Some slot =>
      if negb (cs_in_use slot) || negb (cs_generation slot =? id_generation id) then (x, None) else
      match cs_init slot with
      | None => (x, None)
      | Some init => (give_back_context x index slot, Some init)
      end
  end.

(** ** [RioRegistry] *)

Record RioRegistry : Type := mkRioReg {
  rr_bufs : RioBuffers;
  rr_addrs : RioAddrs;
  rr_ctxs : RioContexts;
  rr_rq_depth : Z
}.
Implicit Types (r : RioRegistry).

Definition rio_registry_new (addr_base rq_depth : Z) (addr_capacity : nat) : RioRegistry :=
  mkRioReg buffers_new (addrs_new addr_base addr_capacity) contexts_new rq_depth.

Definition rr_set_bufs r b : RioRegistry := mkRioReg b (rr_addrs r) (rr_ctxs r) (rr_rq_depth r).
Definition rr_set_addrs r a : RioRegistry := mkRioReg (rr_bufs r) a (rr_ctxs r) (rr_rq_depth r).
Definition rr_set_ctxs r x : RioRegistry := mkRioReg (rr_bufs r) (rr_addrs r) x (rr_rq_depth r).

Section registry.
Context {K : Type} `{!RioTable K}.
Implicit Types (k : K) (env : RioEnv).

Definition create_rq k r (handle : IocpHandle) env : K * RioResult Z :=
  disp_create_rq k (mkRqConfig (as_handle handle) (rr_rq_depth r) (rr_rq_depth r) (en_cq env)).

(** [deregistered.insert(id)] decides whether an id is deregistered. *)
Definition deregister_once (s : K * gset Z) (id : Z) : K * gset Z :=
  if is_invalid id || bool_decide (id ∈ s.2) then s else (deregister_buffer s.1 id, {[id]} ∪ s.2).

Definition chunk_ids b : list Z := map (fun e => bg_id (cg_registration e)) (omap id (rb_chunks b)).
Definition retired_ids b : list Z := map (fun e => bg_id e.2) (map_to_list (rb_retired b)).
Definition heap_ids b : list Z := map (fun e => bg_id e.2) (map_to_list (rb_heap b)).

Definition cleanup_deregister k r : K * RioRegistry :=
  let b := rr_bufs r in
  let s := fold_left deregister_once (chunk_ids b) (k, ∅) in
  let s := fold_left deregister_once (retired_ids b) s in
  let s := fold_left deregister_once (rb_pending b) s in
  let s := deregister_once s (ra_buffer_id (rr_addrs r)) in
  let s := fold_left deregister_once (heap_ids b) s in
  let b := mkBuffers [] ∅ ∅ [] (rb_stats b) ∅ ∅ (rb_generation b) in
  (s.1, mkRioReg b (reset_addr_slots (set_addr_buffer (rr_addrs r) INVALID)) (rr_ctxs r) (rr_rq_depth r)).
End registry.
