(* ===== verification/RioState.v ===== *)
(** * veloq-driver-iocp: the RIO backend
      ([rio.rs], [rio/core/submit_txn.rs], [rio/core/submit_ops.rs],
      [rio/runtime.rs], [rio/runtime/control_flow.rs], [rio/lifecycle.rs])

    The state of the backend, a submission as a transaction that is rolled back
    when a stage fails, what a completion gives back, and the shutdown.  [K] is
    the state of Windows.  The owner of a resource is a request: its context
    names the address slot, the lease of its buffer and its socket. *)

From stdpp Require Import list gmap.
From S2P Require Import Prelude Units SlotMap Token SlotState Anomaly SlotTable Completion Registry Flow Handle UringNet RioRegistry.

(** ** State ([rio.rs]) *)

Inductive SocketLifecycleState : Type := SockOpen | SockClosing.
#[global] Instance lifecycle_eq_dec : EqDecision SocketLifecycleState.
Proof. solve_decision. Defined.
Record SocketRuntimeState : Type := mkSocketState { so_lifecycle : SocketLifecycleState; so_inflight : Z }.
Definition socket_state_default : SocketRuntimeState := mkSocketState SockOpen 0.

(** [RioKernel]: whether there is an extension table, and the completion queue. *)
Record RioKernel : Type := mkRioKernel { kn_cq : Z; kn_dispatch : bool }.
Definition kernel_noop : RioKernel := mkRioKernel INVALID false.

(** The slot map of the actors. *)
Class RioActors : Type := {
  ActorKey : Type;
  actor_key_eq_dec :: EqDecision ActorKey;
  actor_key_countable :: Countable ActorKey;
  ActorMap : Type;
  actor_map :: SlotMap ActorKey Z ActorMap;
  actor_map_spec :: SlotMapSpec ActorKey Z ActorMap
}.

(** What [RioSubmitPlan] says of an address. *)
Inductive RioAddressPolicy : Type := AddrNone | AddrSendTo (addr : Pointer) (addr_len : Z) | AddrRecvFrom (addr : bool).

Record RioSubmitPlan : Type := mkPlan {
  pl_handle : IocpHandle;
  pl_token : OpToken;
  pl_kind : RioOpKind;
  pl_buffer_kind : RioSubmissionKind;
  pl_buffer : FixedBuf;
  pl_buffer_offset : Z;
  pl_address : RioAddressPolicy;
  pl_dispatch_error : RioError
}.

Section state.
Context {K : Type} `{!RioTable K} `{!RioActors} {P : Type}.
Implicit Types (k : K) (env : RioEnv).

(** An actor is the request queue of its socket. *)
Record RioState : Type := mkRio {
  ro_kernel : RioKernel;
  ro_registry : RioRegistry;
  ro_closed : bool;
  ro_actors : ActorMap;
  ro_by_handle : gmap SocketKey ActorKey;
  ro_sockets : gmap SocketKey SocketRuntimeState;
  ro_outstanding : Z;
  ro_next_request_id : Z;
  ro_payloads : list P;
  ro_anomalies : list (CompletionAnomalyKind * AnomalyAttach);
  ro_armed : bool
}.
Implicit Types s : RioState.

Definition ro_set_kernel s x := mkRio x (ro_registry s) (ro_closed s) (ro_actors s) (ro_by_handle s) (ro_sockets s) (ro_outstanding s) (ro_next_request_id s) (ro_payloads s) (ro_anomalies s) (ro_armed s).
Definition ro_set_registry s x := mkRio (ro_kernel s) x (ro_closed s) (ro_actors s) (ro_by_handle s) (ro_sockets s) (ro_outstanding s) (ro_next_request_id s) (ro_payloads s) (ro_anomalies s) (ro_armed s).
Definition ro_set_actors s x y := mkRio (ro_kernel s) (ro_registry s) (ro_closed s) x y (ro_sockets s) (ro_outstanding s) (ro_next_request_id s) (ro_payloads s) (ro_anomalies s) (ro_armed s).
Definition ro_set_sockets s x := mkRio (ro_kernel s) (ro_registry s) (ro_closed s) (ro_actors s) (ro_by_handle s) x (ro_outstanding s) (ro_next_request_id s) (ro_payloads s) (ro_anomalies s) (ro_armed s).
Definition ro_set_outstanding s x := mkRio (ro_kernel s) (ro_registry s) (ro_closed s) (ro_actors s) (ro_by_handle s) (ro_sockets s) x (ro_next_request_id s) (ro_payloads s) (ro_anomalies s) (ro_armed s).
Definition ro_set_request_id s x := mkRio (ro_kernel s) (ro_registry s) (ro_closed s) (ro_actors s) (ro_by_handle s) (ro_sockets s) (ro_outstanding s) x (ro_payloads s) (ro_anomalies s) (ro_armed s).
Definition ro_set_armed s x := mkRio (ro_kernel s) (ro_registry s) (ro_closed s) (ro_actors s) (ro_by_handle s) (ro_sockets s) (ro_outstanding s) (ro_next_request_id s) (ro_payloads s) (ro_anomalies s) x.
Definition ro_set_bufs s b := ro_set_registry s (rr_set_bufs (ro_registry s) b).
Definition ro_set_addrs s a := ro_set_registry s (rr_set_addrs (ro_registry s) a).
Definition ro_set_ctxs s x := ro_set_registry s (rr_set_ctxs (ro_registry s) x).

(** [RioState::new] after [RioKernel::from_extensions] made the queue [cq]. *)
Definition rio_state_new (cq addr_base entries : Z) : RioState :=
  let rq_depth := Z.max 32 (Z.min entries 64) in
  mkRio (mkRioKernel cq true) (rio_registry_new addr_base rq_depth (Z.to_nat entries)) false sm_new ∅ ∅ 0 0 [] [] true.

(** ** Sockets ([runtime.rs]) *)

Definition socket_runtime s (key : SocketKey) : SocketRuntimeState := default socket_state_default (ro_sockets s !! key).

Definition mark_socket_registered s (key : SocketKey) : RioState :=
  let st := socket_runtime s key in
  ro_set_sockets s (<[key := mkSocketState (if ro_closed s then SockClosing else SockOpen) (so_inflight st)]> (ro_sockets s)).

Definition begin_socket_cleanup s (key : SocketKey) : RioState * bool :=
  let st := socket_runtime s key in
  (ro_set_sockets s (<[key := mkSocketState SockClosing (so_inflight st)]> (ro_sockets s)), so_inflight st =? 0).

Definition try_acquire_socket_inflight_token s (key : SocketKey) : outcome (RioState * RioResult SocketKey) :=
  if ro_closed s then Ret (s, Err InvalidInput) else
  match ro_sockets s !! key with
  | None => Fault AssertFailed
  | Some st =>
      if bool_decide (so_lifecycle st = SockClosing) then Ret (s, Err InvalidInput) else
      match checked U32 (so_inflight st + 1) with
      | None => Ret (s, Err ResourceExhaustion)
      | Some n => Ret (ro_set_sockets s (<[key := mkSocketState (so_lifecycle st) n]> (ro_sockets s)), Ok key)
      end
  end.

Definition release_socket_inflight_token_from (m : gmap SocketKey SocketRuntimeState) (key : SocketKey)
    : gmap SocketKey SocketRuntimeState * RioResult unit :=
  match m !! key with
  | None => (m, Err InvalidInput)
  | Some st =>
      if so_inflight st =? 0 then (m, Err Internal)
      else (<[key := mkSocketState (so_lifecycle st) (so_inflight st - 1)]> m, Ok tt)
  end.
Definition release_socket_inflight_token s (key : SocketKey) : RioState * RioResult unit :=
  let (m, r) := release_socket_inflight_token_from (ro_sockets s) key in (ro_set_sockets s m, r).

Definition is_ready (st : SocketRuntimeState) : bool := bool_decide (so_lifecycle st = SockClosing) && (so_inflight st =? 0).
Definition socket_ready_for_cleanup s (key : SocketKey) : bool :=
  match ro_sockets s !! key with Some st => is_ready st | None => false end.
Definition forget_socket_runtime s (key : SocketKey) : outcome RioState :=
  _ ← assert (match ro_sockets s !! key with Some st => is_ready st | None => true end);
  Ret (ro_set_sockets s (delete key (ro_sockets s))).

Definition shutdown_actor s (key : SocketKey) : RioState :=
  match ro_by_handle s !! key with
  | None => s
  | Some ak => ro_set_actors s (sm_remove (ro_actors s) ak).1 (delete key (ro_by_handle s))
  end.

(** The steps of [close_registered_owned_fd] and [unregister_files] on a socket:
    it goes at once, or when it is ready ([drain_deferred_socket_cleanup]). *)
Definition close_socket s (key : SocketKey) : outcome (RioState * bool) :=
  let (s, ready) := begin_socket_cleanup s key in
  if ready then s ← forget_socket_runtime (shutdown_actor s key) key; Ret (s, true)
  else Ret (s, false).
Definition drain_deferred_socket s (key : SocketKey) : outcome (RioState * bool) :=
  if socket_ready_for_cleanup s key then s ← forget_socket_runtime (shutdown_actor s key) key; Ret (s, true)
  else Ret (s, false).

(** ** The kernel's side ([dispatch.rs]) *)

Definition rio_env s (chunk_info : Z -> option (Z * Z)) (region : FixedBuf -> RegionInfo) : RioEnv :=
  mkRioEnv chunk_info region (kn_cq (ro_kernel s)).

Definition rearm_notify k s : K * RioResult unit :=
  if kn_dispatch (ro_kernel s) then notify k (kn_cq (ro_kernel s)) else (k, Ok tt).
Definition rio_dequeue k s (n : nat) : K * Dequeued :=
  if kn_dispatch (ro_kernel s) then fn_dequeue k (kn_cq (ro_kernel s)) n else (k, Results []).
Definition kernel_close k s : K * RioState :=
  if negb (is_invalid (kn_cq (ro_kernel s)))
  then (if kn_dispatch (ro_kernel s) then close_cq k (kn_cq (ro_kernel s)) else k,
        ro_set_kernel s (mkRioKernel INVALID (kn_dispatch (ro_kernel s))))
  else (k, s).

(** [RioState::register_chunk] *)
Definition rio_register_chunk k s (id : Z) (mem : Z * Z) : K * RioState * RioResult unit :=
  if negb (kn_dispatch (ro_kernel s)) then (k, s, Ok tt) else
  let '(k, b, r) := register_chunk k (rr_bufs (ro_registry s)) id mem in (k, ro_set_bufs s b, r).

(** ** Actors ([control_flow.rs]) *)

Definition ensure_actor k s (handle : IocpHandle) env : K * RioState * RioResult Z :=
  if ro_closed s then (k, s, Err InvalidInput) else
  match ro_by_handle s !! handle with
  | Some ak => (k, s, match sm_get (ro_actors s) ak with Some rq => Ok rq | None => Err Internal end)
  | None =>
      match create_rq k (ro_registry s) handle env with
      | (k, Err e) => (k, s, Err e)
      | (k, Ok rq) =>
          let is_first := bool_decide (ro_by_handle s = ∅) in
          let '(actors, ak) := sm_insert (ro_actors s) rq in
          let s := ro_set_actors s actors (<[handle := ak]> (ro_by_handle s)) in
          let s := ro_set_sockets s (<[handle := socket_runtime s handle]> (ro_sockets s)) in
          let '(k, s, r) :=
            if is_first && negb (ro_armed s) then
              match rearm_notify k s with
              | (k, Ok _) => (k, ro_set_armed s true, Ok tt)
              | (k, Err e) => (k, s, Err e)
              end
            else (k, s, Ok tt) in
          match r with
          | Err e => (k, s, Err e)
          | Ok _ => (k, s, match sm_get (ro_actors s) ak with Some rq => Ok rq | None => Err Internal end)
          end
      end
  end.

Definition stop_accepting_new_submissions s : RioState :=
  mkRio (ro_kernel s) (ro_registry s) true (ro_actors s) ∅ ((fun st => mkSocketState SockClosing (so_inflight st)) <$> ro_sockets s)
    (ro_outstanding s) (ro_next_request_id s) (ro_payloads s) (ro_anomalies s) (ro_armed s).

Definition forget_runtime_after_drain s : outcome RioState :=
  _ ← assert (ro_outstanding s =? 0);
  _ ← assert (bool_decide (map_Forall (fun _ st => so_inflight st = 0) (ro_sockets s)));
  Ret (ro_set_sockets (ro_set_actors s sm_new ∅) ∅).

(** ** Submission ([submit_txn.rs]) *)

Record RioPreparedRequest : Type := mkRequest {
  pr_rq : Z;
  pr_context : option RioRequestContextId;
  pr_data : RioPreparedBuffer;
  pr_addr : option RioAddrReservation
}.

(** [RioSubmitTxn], but for the borrowed state and the plan. *)
Record RioSubmitTxn : Type := mkTxn {
  tx_rq : option Z;
  tx_socket : option SocketKey;
  tx_data : option RioPreparedBuffer;
  tx_addr : option RioAddrReservation;
  tx_request : option RioPreparedRequest;
  tx_acquired : bool;
  tx_submitted : bool
}.
Definition txn_new : RioSubmitTxn := mkTxn None None None None None false false.

Definition World : Type := K * RioState * RioSubmitTxn.
Implicit Types (w : World) (t : RioSubmitTxn).
Definition Stage : Type := World -> outcome (World * RioResult unit).
Definition pass (k : K) s t : outcome (World * RioResult unit) := Ret (k, s, t, Ok tt).
Definition stop (k : K) s t (e : RioError) : outcome (World * RioResult unit) := Ret (k, s, t, Err e).
(** [?] between the stages. *)
Definition then_stage (m1 m2 : Stage) : Stage := fun w =>
  r ← m1 w;
  match r with
  | (w, Ok _) => m2 w
  | (w, Err e) => Ret (w, Err e)
  end.

Definition set_rq t x := mkTxn x (tx_socket t) (tx_data t) (tx_addr t) (tx_request t) (tx_acquired t) (tx_submitted t).
Definition set_socket t x := mkTxn (tx_rq t) x (tx_data t) (tx_addr t) (tx_request t) (tx_acquired t) (tx_submitted t).
Definition set_data t x := mkTxn (tx_rq t) (tx_socket t) x (tx_addr t) (tx_request t) (tx_acquired t) (tx_submitted t).
Definition set_addr t x := mkTxn (tx_rq t) (tx_socket t) (tx_data t) x (tx_request t) (tx_acquired t) (tx_submitted t).
Definition set_request t x := mkTxn (tx_rq t) (tx_socket t) (tx_data t) (tx_addr t) x (tx_acquired t) (tx_submitted t).
Definition set_acquired t x := mkTxn (tx_rq t) (tx_socket t) (tx_data t) (tx_addr t) (tx_request t) x (tx_submitted t).
Definition set_submitted t := mkTxn (tx_rq t) (tx_socket t) (tx_data t) (tx_addr t) (tx_request t) (tx_acquired t) true.

Section submit.
Variables (plan : RioSubmitPlan) (chunk_info : Z -> option (Z * Z)) (region : FixedBuf -> RegionInfo).
Variable submit : K -> RioState -> RioPreparedRequest -> outcome (K * RioResult unit).

Definition check_socket_accepting : Stage := fun '(k, s, t) =>
  if ro_closed s then stop k s t InvalidInput else
  match ro_sockets s !! pl_handle plan with
  | Some st => if bool_decide (so_lifecycle st = SockClosing) then stop k s t InvalidInput else pass k s t
  | None => pass k s t
  end.

Definition ensure_actor_stage : Stage := fun '(k, s, t) =>
  if negb (kn_dispatch (ro_kernel s)) then stop k s t (pl_dispatch_error plan) else
  match ensure_actor k s (pl_handle plan) (rio_env s chunk_info region) with
  | (k, s, Ok rq) => pass k s (set_rq t (Some rq))
  | (k, s, Err e) => stop k s t e
  end.

Definition acquire_socket : Stage := fun '(k, s, t) =>
  r ← try_acquire_socket_inflight_token s (pl_handle plan);
  match r with
  | (s, Ok key) => pass k s (set_socket t (Some key))
  | (s, Err e) => stop k s t e
  end.

Definition prepare_buffer : Stage := fun '(k, s, t) =>
  match data_len (pl_buffer_kind plan) (pl_buffer plan) (pl_buffer_offset plan) with
  | Err e => stop k s t e
  | Ok len =>
      if negb (kn_dispatch (ro_kernel s)) then stop k s t (pl_dispatch_error plan) else
      match prepare_submission k (rr_bufs (ro_registry s)) (pl_buffer plan) (pl_buffer_offset plan) len (rio_env s chunk_info region) with
      | (k, b, Ok data) => pass k (ro_set_bufs s b) (set_data t (Some data))
      | (k, b, Err e) => stop k (ro_set_bufs s b) t e
      end
  end.

Definition prepare_submit_address k s : outcome (K * RioState * RioResult (option RioAddrReservation)) :=
  match pl_address plan with
  | AddrNone => Ret (k, s, Ok None)
  | AddrSendTo addr addr_len =>
      r ← prepare_send_addr k (rr_addrs (ro_registry s)) addr addr_len;
      let '(k, a, r) := r in Ret (k, ro_set_addrs s a, match r with Ok x => Ok (Some x) | Err e => Err e end)
  | AddrRecvFrom false => Ret (k, s, Err Internal)
  | AddrRecvFrom true =>
      r ← prepare_recv_addr k (rr_addrs (ro_registry s));
      let '(k, a, r) := r in
      Ret (k, ro_set_addrs s a,
        match r with
        | Ok x => Ok (Some (mkAddrRes (ar_slot x) (mkRioBuf (bu_id (ar_buf x)) (bu_offset (ar_buf x)) SIZE_SOCKADDR_INET)))
        | Err e => Err e
        end)
  end.
Definition prepare_address : Stage := fun '(k, s, t) =>
  if negb (kn_dispatch (ro_kernel s)) then stop k s t (pl_dispatch_error plan) else
  r ← prepare_submit_address k s;
  match r with
  | (k, s, Ok addr) => pass k s (set_addr t addr)
  | (k, s, Err e) => stop k s t e
  end.

Definition next_request_id s : RioState * Z :=
  let n := wrapping_add U64 (ro_next_request_id s) 1 in
  let n := if n =? 0 then 1 else n in
  (ro_set_request_id s n, n).

Definition encode_context : Stage := fun '(k, s, t) =>
  match tx_rq t, tx_socket t, tx_data t with
  | Some rq, Some socket, Some data =>
      let '(s, request_id) := next_request_id s in
      let init := mkInit (pl_token plan) socket (pl_kind plan) request_id (ar_slot <$> tx_addr t) (pb_lease data)
                    (rio_diagnostics rq (pb_buf data) (tx_addr t)) in
      r ← alloc_request_context (rr_ctxs (ro_registry s)) init;
      let '(x, context) := r in
      pass k (ro_set_ctxs s x) (set_request t (Some (mkRequest rq (Some context) data (tx_addr t))))
  | _, _, _ => stop k s t Internal
  end.

Definition acquire_buffer_ref : Stage := fun '(k, s, t) =>
  if tx_acquired t then pass k s t else
  match tx_request t with
  | None => stop k s t Internal
  | Some request =>
      match acquire_buffer_lease (rr_bufs (ro_registry s)) (pb_lease (pr_data request)) with
      | (b, Ok _) => pass k (ro_set_bufs s b) (set_acquired t true)
      | (b, Err e) => stop k (ro_set_bufs s b) t e
      end
  end.

Definition submit_kernel : Stage := then_stage acquire_buffer_ref (fun '(k, s, t) =>
  match tx_request t with
  | None => stop k s t Internal
  | Some request =>
      r ← submit k s request;
      match r with
      | (k, Ok _) => pass k s t
      | (k, Err e) => stop k s t e
      end
  end).

Definition commit : Stage := fun '(k, s, t) =>
  match tx_request t with
  | None => stop k s t Internal
  | Some request =>
      context ← expect (pr_context request);
      let t := set_request t (Some (mkRequest (pr_rq request) None (pr_data request) (pr_addr request))) in
      if context_raw_of context =? 0 then stop k s t Internal else
      n ← arith USIZE_BITS (ro_outstanding s + 1);
      pass k (ro_set_outstanding s n) (set_submitted t)
  end.

(** *** Roll back ([Drop for RioSubmitTxn]); its errors are logged *)

Definition rollback_buffer_ref w : World :=
  let '(k, s, t) := w in
  if negb (tx_acquired t) then w else
  match tx_data t with
  | None => w
  | Some data =>
      let '(k, b, r) :=
        if kn_dispatch (ro_kernel s) then release_buffer_lease k (rr_bufs (ro_registry s)) (pb_lease data)
        else let '(b, r) := release_buffer_lease_deferred (rr_bufs (ro_registry s)) (pb_lease data) in (k, b, r) in
      (k, ro_set_bufs s b, match r with Ok _ => set_acquired t false | Err _ => t end)
  end.
Definition rollback_context w : World :=
  let '(k, s, t) := w in
  match tx_request t with
  | Some (mkRequest rq (Some context) data addr) =>
      let '(x, _) := take_request_context_init (rr_ctxs (ro_registry s)) context in
      (k, ro_set_ctxs s x, set_request t (Some (mkRequest rq None data addr)))
  | _ => w
  end.
Definition rollback_address w : World :=
  let '(k, s, t) := w in
  (k, ro_set_addrs s (free_addr_slot (rr_addrs (ro_registry s)) (ar_slot <$> tx_addr t)), set_addr t None).
Definition rollback_socket w : World :=
  let '(k, s, t) := w in
  match tx_socket t with
  | Some key => (k, (release_socket_inflight_token s key).1, set_socket t None)
  | None => w
  end.
Definition drop_txn w : World :=
  if tx_submitted w.2 then w else rollback_socket (rollback_address (rollback_context (rollback_buffer_ref w))).

Definition submit_stages : Stage :=
  then_stage check_socket_accepting (then_stage ensure_actor_stage (then_stage acquire_socket
    (then_stage prepare_buffer (then_stage prepare_address (then_stage encode_context
      (then_stage submit_kernel commit)))))).

(** [Ok] is [SubmissionResult::Pending]. *)
Definition submit_rio k s : outcome (K * RioState * RioResult unit) :=
  r ← submit_stages (k, s, txn_new);
  let '(w, r) := r in
  let '(k, s, _) := drop_txn w in Ret (k, s, r).
End submit.

(** *** The four operations ([submit_ops.rs], [runtime.rs]) *)

(** The closure that is given to [submit_rio]. *)
Definition submit_call (call : K -> Z -> RioPreparedRequest -> Z -> K * RioResult unit) k s (request : RioPreparedRequest)
    : outcome (K * RioResult unit) :=
  context ← expect (pr_context request);
  if negb (kn_dispatch (ro_kernel s)) then Ret (k, Err Internal) else Ret (call k (pr_rq request) request (context_raw_of context)).
Definition kernel_receive := submit_call (fun k rq request ctx => receive k rq (pb_buf (pr_data request)) ctx).
Definition kernel_send := submit_call (fun k rq request ctx => disp_send k rq (pb_buf (pr_data request)) ctx).
Definition with_addr (call : K -> Z -> RioBuf -> RioBuf -> Z -> K * RioResult unit) k s (request : RioPreparedRequest)
    : outcome (K * RioResult unit) :=
  match pr_addr request with
  | None => Ret (k, Err Internal)
  | Some addr => submit_call (fun k rq request ctx => call k rq (pb_buf (pr_data request)) (ar_buf addr) ctx) k s request
  end.
Definition kernel_send_ex := with_addr send_ex.
Definition kernel_receive_ex := with_addr receive_ex.

Section operations.
Variables (chunk_info : Z -> option (Z * Z)) (region : FixedBuf -> RegionInfo).

Definition try_submit_recv k s (handle : IocpHandle) (token : OpToken) (buf : FixedBuf) (buf_offset : Z) :=
  submit_rio (mkPlan handle token RioRecv SubRecv buf buf_offset AddrNone NotSupported) chunk_info region kernel_receive k s.
Definition try_submit_send k s (handle : IocpHandle) (token : OpToken) (buf : FixedBuf) (buf_offset : Z) :=
  submit_rio (mkPlan handle token RioSend SubSend buf buf_offset AddrNone NotSupported) chunk_info region kernel_send k s.
Definition try_submit_send_to k s (handle : IocpHandle) (token : OpToken) (buf : FixedBuf) (buf_offset : Z) (addr : Pointer) (addr_len : Z) :=
  submit_rio (mkPlan handle token RioSendTo SubSend buf buf_offset (AddrSendTo addr addr_len) Internal) chunk_info region kernel_send_ex k s.
Definition try_submit_recv_from k s (handle : IocpHandle) (token : OpToken) (buf : FixedBuf) (buf_offset : Z) (addr : bool) :=
  submit_rio (mkPlan handle token RioRecvFrom SubRecv buf buf_offset (AddrRecvFrom addr) Internal) chunk_info region kernel_receive_ex k s.
End operations.

(** ** Completions ([control_flow.rs]) *)

Definition COMP_BACKEND_RIO : CompletionBackend := Backend 3.
Definition RIO_EVENT_TOKEN : CompletionToken := match encode_control 3 0 with Ok t => t | Err _ => 0 end.
Definition RIO_ANOMALY_MALFORMED : Z := 1.
Definition RIO_ANOMALY_MISSING : Z := 2.
Definition RIO_ANOMALY_STALE : Z := 3.
Definition I32_MAX : Z := 2 ^ 31 - 1.

(** [raw_res], and [rio_drain_raw_res]. *)
Definition raw_res (res : RioCompletion) : Z :=
  if rs_status res =? 0 then Z.min (rs_bytes res) I32_MAX
  else if 0 <? rs_status res then - rs_status res else rs_status res.

(** The anomaly of a context that was not found. *)
Definition rio_context_kind (raw : Z) (d : RioRequestContextDecode) : CompletionAnomalyKind :=
  match d with
  | CtxMissing id => backend_specific_missing RIO_ANOMALY_MISSING COMP_BACKEND_RIO raw (id_index id) (id_generation id)
  | CtxStale id actual => backend_specific_stale RIO_ANOMALY_STALE COMP_BACKEND_RIO raw (id_index id) (id_generation id) actual
  | CtxMalformed raw => backend_specific RIO_ANOMALY_MALFORMED COMP_BACKEND_RIO raw
  | CtxValid _ => backend_specific RIO_ANOMALY_MALFORMED COMP_BACKEND_RIO raw
  end.
Definition rio_result_attach (res : RioCompletion) : AnomalyAttach :=
  attach_from_raw_completion (mkRaw COMP_BACKEND_RIO RIO_EVENT_TOKEN (raw_res res) 0).

Record RioReleaseEffect : Type := mkRelease {
  re_addr_slot : option nat; re_lease : option RioBufferLeaseToken; re_socket : SocketKey
}.
Definition RioBackendEffect : Type := option RioReleaseEffect.
Definition effect_from_init (init : RioOpRequestInit) : RioBackendEffect :=
  Some (mkRelease (in_addr_slot init) (in_lease init) (in_socket init)).

Record RioIngress : Type := mkIngress { ig_init : RioOpRequestInit; ig_result : RioCompletion }.

(** *** Operations in their slots ([op.rs], [op/state.rs], [error.rs]) *)

Inductive IocpError : Type :=
  | DriverInit | CompletionWait | Submission | Registration | RioErr (e : RioError) | ResolveFd | SocketErr
  | Win32 | IocpInvalidInput | InvalidState | Unsupported | IocpInternal.
Record IocpReport : Type := mkIocpReport { ip_kind : IocpError; ip_code : option Z }.
Definition iocp_report (e : IocpError) : IocpReport := mkIocpReport e None.
Definition iocp_fallback_errno (e : IocpError) : Z :=
  match e with
  | DriverInit => 5 | CompletionWait => 110 | Submission => 11 | Registration => 12
  | RioErr InvalidInput => 22 | RioErr _ => 5 | ResolveFd => 9 | SocketErr => 5 | Win32 => 5
  | IocpInvalidInput => 22 | InvalidState => 5 | Unsupported => 95 | IocpInternal => 5
  end.
(** [neg_code] of a code that fits an [i32]; [abs] of its least value panics. *)
Definition neg_code (code : Z) : option Z := if code =? 0 then None else Some (- Z.abs code).
Definition iocp_report_to_event_res (r : IocpReport) : Z :=
  match ip_code r with
  | Some code =>
      if (- 2 ^ 31 <=? code) && (code <=? I32_MAX) then default (- iocp_fallback_errno (ip_kind r)) (neg_code code)
      else - iocp_fallback_errno (ip_kind r)
  | None => - iocp_fallback_errno (ip_kind r)
  end.
Definition rio_result_to_event_res (r : result Z IocpReport) : Z :=
  match r with Ok v => Z.min v I32_MAX | Err e => iocp_report_to_event_res e end.
(** [trans] *)
Definition trans {A} (r : RioResult A) : result A IocpReport :=
  match r with Ok x => Ok x | Err e => Err (iocp_report (RioErr e)) end.
End state.
Arguments RioState {_} P.

(** What the operations of the driver carry.  [recv_from_addr] is the address
    field of [IocpOpPayload::UdpRecvFrom]. *)
Class IocpPayloads : Type := {
  IocpOpPayload : Type;
  IocpUserPayload : Type;
  recv_from_addr : IocpOpPayload -> option (list Z -> IocpOpPayload);
  IocpCleanup : Type;
  iocp_cleanup_result : IocpCleanup -> result unit CoreReport;
  TimerTask : Type
}.

(** [IocpCompletionDiagnostics], and [record_backend_anomaly]. *)
Inductive IocpCounter : Type :=
  | CancelSubmitted | CancelQueued | CancelLocalCompleted | CancelTargetMissing | CancelTargetStale | CancelTargetCorrupt
  | CancelAckNotFound | CancelNoHandle | CancelAckNotFoundActive | CancelError | WakerOk | WakerError | WakerRebuild
  | RioMalformedContext | RioMissingContext | RioStaleContext.
#[global] Instance iocp_counter_eq_dec : EqDecision IocpCounter.
Proof. solve_decision. Defined.
Definition IocpDiagnostics : Type := IocpCounter -> Z.
Definition iocp_inc (c : IocpCounter) (d : IocpDiagnostics) : IocpDiagnostics := fun c' => if decide (c' = c) then inc (d c) else d c'.
Definition iocp_record_backend_anomaly (a : CompletionAnomaly) (d : IocpDiagnostics) : IocpDiagnostics * bool :=
  match an_reason a with
  | ReasonBackendSpecific code =>
      if code =? RIO_ANOMALY_MALFORMED then (iocp_inc RioMalformedContext d, false)
      else if code =? RIO_ANOMALY_MISSING then (iocp_inc RioMissingContext d, false)
      else if code =? RIO_ANOMALY_STALE then (iocp_inc RioStaleContext d, false)
      else (d, false)
  | _ => (d, false)
  end.

Section slots.
Context `{!IocpPayloads}.

(** [OverlappedEntry], but for the structure of Windows and the result of an
    offloaded operation. *)
Record OverlappedEntry : Type := mkOverlapped {
  ov_token : OpToken; ov_in_flight : bool; ov_resolved_handle : option IocpHandle; ov_socket_inflight : option SocketKey
}.
(** The functions of a table that completions call. *)
Record IocpVTable : Type := mkIocpVTable {
  iv_on_complete : OverlappedEntry -> IocpOpPayload -> Z -> OverlappedEntry * IocpOpPayload * result Z IocpReport;
  iv_completion_cleanup : IocpOpPayload -> result Z IocpReport -> IocpOpPayload * option IocpCleanup;
  iv_orphan_cleanup : IocpOpPayload -> result Z IocpReport -> IocpOpPayload * option IocpCleanup
}.
Record IocpKernelOp : Type := mkIocpOp { io_vtable : IocpVTable; io_header : OverlappedEntry; io_payload : IocpOpPayload }.
Record IocpOpState : Type := mkIocpState {
  is_generation : Z; is_timer_id : option TimerTask; is_timer_deadline : option Z; is_background : bool; is_rio_cancel_requested : bool
}.
#[global] Instance IocpSlotSpec : SlotSpec := {
  SOp := IocpKernelOp;
  SPayload := IocpUserPayload;
  SPlatform := IocpOpState;
  platform_default := mkIocpState 0 None None false false;
  SSidecar := OverlappedEntry;
  sidecar_default := mkOverlapped (mkToken 0 0) false None None;
  SError := IocpReport;
  from_core_report := fun _ => iocp_report IocpInternal;
  SCompletion := Z;
  SDiagnostics := IocpDiagnostics;
  diagnostics_default := fun _ => 0;
  record_backend_anomaly := iocp_record_backend_anomaly;
  SCleanup := IocpCleanup;
  cleanup_result := iocp_cleanup_result
}.
End slots.

Section completion.
Context {K : Type} `{!RioTable K} `{!RioActors} `{!IocpPayloads}.
Notation RioState := (RioState IocpUserPayload).
Notation Outcome := (CompletionHookOutcome RioBackendEffect).
Implicit Types (k : K) (s : RioState).

(** *** The hooks *)

(** [RioCompletionHooks]; deregistration goes to the kernel. *)
Record RioHooks : Type := mkRioHooks {
  hk_kernel : K;
  hk_outstanding : Z;
  hk_sockets : gmap SocketKey SocketRuntimeState;
  hk_registry : RioRegistry;
  hk_completed : Z
}.
Implicit Types h : RioHooks.

Definition finish_release h (eff : RioBackendEffect) : RioHooks * result unit IocpReport :=
  match eff with
  | None => (h, Ok tt)
  | Some e =>
      let r := hk_registry h in
      let r := rr_set_addrs r (free_addr_slot (rr_addrs r) (re_addr_slot e)) in
      let '(k, b, res) := release_buffer_lease (hk_kernel h) (rr_bufs r) (re_lease e) in
      let r := rr_set_bufs r b in
      match res with
      | Err err => (mkRioHooks k (hk_outstanding h) (hk_sockets h) r (hk_completed h), Err (iocp_report (RioErr err)))
      | Ok _ =>
          let '(m, res) := release_socket_inflight_token_from (hk_sockets h) (re_socket e) in
          match res with
          | Err err => (mkRioHooks k (hk_outstanding h) m r (hk_completed h), Err (iocp_report (RioErr err)))
          | Ok _ =>
              let n := if 0 <? hk_outstanding h then hk_outstanding h - 1 else hk_outstanding h in
              (mkRioHooks k n m r (hk_completed h + 1), Ok tt)
          end
      end
  end.

Definition ERROR_OPERATION_ABORTED : Z := 995.
Definition wait_error (code : option Z) : IocpReport := mkIocpReport CompletionWait code.
Definition set_in_flight (o : OverlappedEntry) (x : bool) : OverlappedEntry :=
  mkOverlapped (ov_token o) x (ov_resolved_handle o) (ov_socket_inflight o).

(** The closure over the operation: the address of a datagram, and
    [on_complete]. *)
Definition finish_op (a : RioAddrs) (init : RioOpRequestInit) (cancelled : bool) (completion : result Z IocpReport) (op : IocpKernelOp)
    : IocpKernelOp * result Z IocpReport :=
  let '(payload, completion) :=
    match in_addr_slot init, recv_from_addr (io_payload op), cancelled, completion with
    | Some slot, Some set_addr, false, Ok _ =>
        match trans (copy_addr_slot_to a slot true) with
        | Ok bytes => (set_addr bytes, completion)
        | Err e => (io_payload op, Err e)
        end
    | _, _, _, _ => (io_payload op, completion)
    end in
  let header := set_in_flight (io_header op) false in
  match cancelled, completion with
  | false, Ok bytes =>
      let '(header, payload, r) := iv_on_complete (io_vtable op) header payload bytes in
      (mkIocpOp (io_vtable op) header payload, r)
  | _, _ => (mkIocpOp (io_vtable op) header payload, completion)
  end.

(** [with_op_mut(f).unwrap_or_default()] *)
Definition iocp_cleanup_with (c : SlotCell) (f : IocpKernelOp -> IocpOpPayload * option IocpCleanup) : SlotCell * CleanupGuard :=
  let (c, g) := with_op_mut c (fun op => let (p, g) := f op in (mkIocpOp (io_vtable op) (io_header op) p, g)) in
  (c, match g with Ok g => g | Err _ => None end).

Definition complete_rio_waiting_slot (a : RioAddrs) (c : Slot MWaiting) (ingress : RioIngress) : SlotCell * result Outcome IocpReport :=
  let init := ig_init ingress in
  let res := ig_result ingress in
  let token := in_token init in
  let eff := effect_from_init init in
  if negb (is_generation (sl_platform c) =? tk_generation token) then (c, Err (iocp_report IocpInternal)) else
  let cancelled := is_rio_cancel_requested (sl_platform c) in
  let completion :=
    if cancelled then Err (wait_error (Some ERROR_OPERATION_ABORTED))
    else if rs_status res =? 0 then Ok (rs_bytes res) else Err (wait_error (Some (rs_status res))) in
  let '(c, r) := with_op_mut c (finish_op a init cancelled completion) in
  let completion := match r with Ok x => x | Err _ => completion end in
  let res_code := rio_result_to_event_res completion in
  let guard := complete_waiting_slot c in
  let (guard, cleanup) := iocp_cleanup_with guard (fun op => iv_completion_cleanup (io_vtable op) (io_payload op) completion) in
  let (guard, _) := take_op guard in
  let '(guard, (payload, detail)) := take_completion_data guard in
  match payload with
  | Some payload =>
      let detail := match detail with Some d => Some d | None => Some completion end in
      (guard, Ok (HookUser (event_from_parts COMP_BACKEND_RIO token res_code 0) payload detail cleanup eff))
  | None => (guard, Err (iocp_report InvalidState))
  end.

Definition complete_rio_orphaned_slot (c : Slot MOrphaned) (ingress : RioIngress) : SlotCell * Outcome :=
  let init := ig_init ingress in
  let res := ig_result ingress in
  let mismatch := negb (is_generation (sl_platform c) =? tk_generation (in_token init)) in
  let guard := complete_orphaned_slot c in
  let orphan_result :=
    if mismatch then Err (wait_error None)
    else if rs_status res =? 0 then Ok (rs_bytes res) else Err (wait_error (Some (rs_status res))) in
  let (guard, cleanup) := iocp_cleanup_with guard (fun op => iv_orphan_cleanup (io_vtable op) (io_payload op) orphan_result) in
  let (guard, _) := take_op guard in
  let '(guard, _) := take_completion_data guard in
  (cell_platform guard platform_default, HookCleanup cleanup (effect_from_init init)).

Definition rio_complete_waiting h (event : UserCompletionEvent) (slot : Slot MWaiting) (source : CompletionSource RioIngress)
    : RioHooks * SlotCell * result Outcome IocpReport :=
  match source with
  | FromBackend ingress => let (c, r) := complete_rio_waiting_slot (rr_addrs (hk_registry h)) slot ingress in (h, c, r)
  | _ => (h, slot, Err (iocp_report InvalidState))
  end.
Definition rio_complete_orphaned h (event : UserCompletionEvent) (slot : Slot MOrphaned) (source : CompletionSource RioIngress)
    : RioHooks * SlotCell * result Outcome IocpReport :=
  match source with
  | FromBackend ingress => let (c, o) := complete_rio_orphaned_slot slot ingress in (h, c, Ok o)
  | _ => (h, slot, Ok (HookIgnore None))
  end.
Definition rio_complete_corrupt h (event : UserCompletionEvent) (kind : CompletionAnomalyKind) (source : CompletionSource RioIngress)
    : RioHooks * result Outcome IocpReport :=
  let eff := match source with FromBackend ingress => effect_from_init (ig_init ingress) | _ => None end in
  (h, Ok (HookAnomaly kind (attach_from_raw_completion (ue_raw event)) eff)).

#[global] Instance rio_hooks : CompletionBackendHooks RioHooks := {
  BackendIngress := RioIngress;
  BackendEffect := RioBackendEffect;
  backend_effect_default := None;
  handle_control := fun h _ => (h, Ok (HookIgnore None));
  complete_waiting := rio_complete_waiting;
  complete_orphaned := rio_complete_orphaned;
  complete_corrupt := rio_complete_corrupt;
  complete_backend_ingress := fun h ingress =>
    (h, Ok (RouteUser (event_from_parts COMP_BACKEND_RIO (in_token (ig_init ingress)) (raw_res (ig_result ingress)) 0)));
  finish_backend_effect := finish_release
}.

(** *** [process_completions] *)

Definition MAX_RIO_RESULTS : nat := 128.
Definition set_hook_registry h (r : RioRegistry) : RioHooks := mkRioHooks (hk_kernel h) (hk_outstanding h) (hk_sockets h) r (hk_completed h).

Definition accept_result (ops : OpRegistry) h (res : RioCompletion) : outcome (OpRegistry * RioHooks * result unit IocpReport) :=
  let '(x, d) := decode_request_context_checked (rr_ctxs (hk_registry h)) (rs_context res) in
  let h := set_hook_registry h (rr_set_ctxs (hk_registry h) x) in
  let ingress :=
    match d with
    | CtxValid init => IngressBackend (mkIngress init res)
    | d => IngressAnomaly (rio_context_kind (rs_context res) d) (rio_result_attach res)
    end in
  r ← accept_completion (ops, h) ingress;
  let '(st, r) := r in Ret (st, match r with Ok _ => Ok tt | Err e => Err e end).

Fixpoint accept_results (ops : OpRegistry) h (l : list RioCompletion) : outcome (OpRegistry * RioHooks * result unit IocpReport) :=
  match l with
  | [] => Ret (ops, h, Ok tt)
  | res :: l =>
      r ← accept_result ops h res;
      match r with
      | (ops, h, Ok _) => accept_results ops h l
      | (ops, h, Err e) => Ret (ops, h, Err e)
      end
  end.

(** The loop; whether completions were found. *)
Fixpoint dequeue_loop (fuel : nat) s (ops : OpRegistry) h (found : bool) : outcome (OpRegistry * RioHooks * result bool IocpReport) :=
  match fuel with
  | O => Fault OutOfFuel
  | S fuel =>
      let '(k, d) := rio_dequeue (hk_kernel h) s MAX_RIO_RESULTS in
      let h := mkRioHooks k (hk_outstanding h) (hk_sockets h) (hk_registry h) (hk_completed h) in
      match d with
      | CorruptCq => Ret (ops, h, Err (iocp_report (RioErr Internal)))
      | Results [] => Ret (ops, h, Ok found)
      | Results l =>
          r ← accept_results ops h l;
          match r with
          | (ops, h, Err e) => Ret (ops, h, Err e)
          | (ops, h, Ok _) => if (length l <? MAX_RIO_RESULTS)%nat then Ret (ops, h, Ok true) else dequeue_loop fuel s ops h true
          end
      end
  end.

Definition state_of_hooks s h : RioState :=
  ro_set_registry (ro_set_sockets (ro_set_outstanding s (hk_outstanding h)) (hk_sockets h)) (hk_registry h).
Definition hooks_of_state k s : RioHooks := mkRioHooks k (ro_outstanding s) (ro_sockets s) (ro_registry s) 0.

Definition process_completions (fuel : nat) k s (ops : OpRegistry) : outcome (K * RioState * OpRegistry * result Z IocpReport) :=
  if negb (kn_dispatch (ro_kernel s)) then Ret (k, s, ops, Ok 0) else
  r ← dequeue_loop fuel s ops (hooks_of_state k s) false;
  let '(ops, h, r) := r in
  let k := hk_kernel h in
  let s := state_of_hooks s h in
  match r with
  | Err e => Ret (k, s, ops, Err e)
  | Ok found =>
      let s := if found : bool then ro_set_armed s false else s in
      let '(k, s, r) :=
        if negb (bool_decide (ro_by_handle s = ∅)) && negb (ro_armed s) then
          match rearm_notify k s with
          | (k, Ok _) => (k, ro_set_armed s true, Ok tt)
          | (k, Err e) => (k, s, Err (iocp_report (RioErr e)))
          end
        else (k, s, Ok tt) in
      match r with
      | Err e => Ret (k, s, ops, Err e)
      | Ok _ =>
          let '(k, s) :=
            if ro_outstanding s =? 0 then let '(k, b) := flush_deregs k (rr_bufs (ro_registry s)) in (k, ro_set_bufs s b) else (k, s) in
          Ret (k, s, ops, Ok (hk_completed h))
      end
  end.

(** ** Shutdown ([lifecycle.rs]) *)

Definition RIO_REAPER_DRAIN_TIMEOUT : Z := 5000000000.   (* nanoseconds *)

Definition note_rio_anomaly s (raw : Z) (d : RioRequestContextDecode) (res : RioCompletion) : RioState :=
  mkRio (ro_kernel s) (ro_registry s) (ro_closed s) (ro_actors s) (ro_by_handle s) (ro_sockets s) (ro_outstanding s)
    (ro_next_request_id s) (ro_payloads s) (ro_anomalies s ++ [(rio_context_kind raw d, rio_result_attach res)]) (ro_armed s).

Definition handle_drain_result s (res : RioCompletion) : RioState * RioResult unit :=
  let '(x, d) := decode_request_context_checked (rr_ctxs (ro_registry s)) (rs_context res) in
  let s := ro_set_ctxs s x in
  let '(s, r) :=
    match d with
    | CtxValid init =>
        let s := ro_set_addrs s (free_addr_slot (rr_addrs (ro_registry s)) (in_addr_slot init)) in
        let '(b, r) := release_buffer_lease_deferred (rr_bufs (ro_registry s)) (in_lease init) in
        let s := ro_set_bufs s b in
        (ro_set_sockets s (release_socket_inflight_token_from (ro_sockets s) (in_socket init)).1, r)
    | d => (note_rio_anomaly s (rs_context res) d res, Ok tt)
    end in
  (if 0 <? ro_outstanding s then ro_set_outstanding s (ro_outstanding s - 1) else s, r).

Fixpoint drain_batch s (l : list RioCompletion) : RioState * RioResult unit :=
  match l with
  | [] => (s, Ok tt)
  | res :: l =>
      match handle_drain_result s res with
      | (s, Ok _) => drain_batch s l
      | (s, Err e) => (s, Err e)
      end
  end.

(** [Backoff::snooze] *)
Definition snooze k (yields : nat) : K * nat :=
  if (yields <? 10)%nat then (fn_yield k, S yields) else (fn_sleep k 1, yields).

Fixpoint drain_loop (fuel : nat) k s (start timeout : Z) (yields : nat) : outcome (K * RioState * RioResult unit) :=
  match fuel with
  | O => Fault OutOfFuel
  | S fuel =>
      if ro_outstanding s <=? 0 then Ret (k, s, Ok tt) else
      if timeout <=? saturating_sub (now k) start then Ret (k, s, Err Internal) else
      match rio_dequeue k s MAX_RIO_RESULTS with
      | (k, CorruptCq) => Ret (k, s, Err Internal)
      | (k, Results []) => let '(k, yields) := snooze k yields in drain_loop fuel k s start timeout yields
      | (k, Results l) =>
          match drain_batch s l with
          | (s, Ok _) => drain_loop fuel k s start timeout 0
          | (s, Err e) => Ret (k, s, Err e)
          end
      end
  end.
Definition drain_outstanding (fuel : nat) k s (timeout : Z) : outcome (K * RioState * RioResult unit) :=
  drain_loop fuel k s (now k) timeout 0.

Definition finalize_cleanup k s : outcome (K * RioState) :=
  let s := stop_accepting_new_submissions s in
  s ← (if ro_outstanding s =? 0 then forget_runtime_after_drain s else Ret s);
  let '(k, s) :=
    if kn_dispatch (ro_kernel s) then let '(k, r) := cleanup_deregister k (ro_registry s) in (k, ro_set_registry s r) else (k, s) in
  Ret (kernel_close k s).

(** [Drop for RioState] with nothing outstanding, and with a dead queue. *)
Inductive Dropped : Type := Finalized | Leaked.

(** [DeferredRioCleanup::run], on the thread of the reaper or here; afterwards
    its state is dropped, unless it is leaked. *)
Definition deferred_run (fuel : nat) k s : outcome (K * RioState * Dropped) :=
  let s := stop_accepting_new_submissions (ro_set_armed s true) in
  r ← drain_outstanding fuel k s RIO_REAPER_DRAIN_TIMEOUT;
  match r with
  | (k, s, Err _) =>
      if 0 <? ro_outstanding s then Ret (k, s, Leaked)
      else '(k, s) ← finalize_cleanup k s; '(k, s) ← finalize_cleanup k s; Ret (k, s, Finalized)
  | (k, s, Ok _) => '(k, s) ← finalize_cleanup k s; '(k, s) ← finalize_cleanup k s; Ret (k, s, Finalized)
  end.

(** [take_deferred] moves the state, with a live queue, to the reaper. *)
Definition drop_rio_state (fuel : nat) k s : outcome (K * RioState * Dropped) :=
  let s := stop_accepting_new_submissions s in
  if ro_outstanding s =? 0 then '(k, s) ← finalize_cleanup k s; Ret (k, s, Finalized) else
  if negb (is_invalid (kn_cq (ro_kernel s))) then deferred_run fuel k s
  else '(k, s) ← finalize_cleanup k s; Ret (k, s, Finalized).
End completion.
