(* ===== verification/RioOwn.v ===== *)
(** * veloq-driver-iocp: who owns the registrations of the RIO backend

    A request that the kernel has owns a context, a slot for an address, a lease
    on a registered buffer and a place in the count of its socket.  This file
    states the invariants of the tables that keep them, with the owners as lists
    up to order, and that every operation of the registry keeps them.  Indices of
    contexts have 24 bits: [RioPeak] bounds the contexts that ever exist at once. *)

From stdpp Require Import list gmap.
From S2P Require Import Prelude Units Token Handle UringNet RioRegistry.

(** ** Request contexts *)

Implicit Types (x : RioContexts) (a : RioAddrs) (b : RioBuffers).

(** The requests that the contexts name, with the numbers the kernel has for them. *)
Definition slot_request (i : nat) (sl : RioRequestContextSlot) : list (Z * RioOpRequestInit) :=
  match cs_init sl with
  | Some init => if cs_in_use sl then [(context_raw_of (mkCtxId (Z.of_nat i) (cs_generation sl)), init)] else []
  | None => []
  end.
Fixpoint requests_from (i : nat) (l : list RioRequestContextSlot) : list (Z * RioOpRequestInit) :=
  match l with
  | [] => []
  | sl :: l => slot_request i sl ++ requests_from (S i) l
  end.
Definition requests x : list (Z * RioOpRequestInit) := requests_from 0 (cx_slots x).

Definition id_ok (id : RioRequestContextId) : Prop := 0 <= id_index id < 2 ^ 24 /\ 0 <= id_generation id < 2 ^ 32.

(** The most requests that are outstanding at once: the number of a context has
    room for 2^24. *)
Class RioPeak : Type := mkPeak { rio_peak : Z; rio_peak_ok : 0 <= rio_peak <= 2 ^ 24 }.

Section contexts.
Context {Peak : RioPeak}.

(** The free slots are those that no request has. *)
Record ctx_ok x : Prop := {
  ctx_len : Z.of_nat (length (cx_slots x)) <= rio_peak;
  ctx_nodup : NoDup (cx_free x);
  ctx_free : forall i, i ∈ cx_free x <-> exists sl, cx_slots x !! i = Some sl /\ cs_in_use sl = false;
  ctx_slot : forall i sl, cx_slots x !! i = Some sl ->
    0 <= cs_generation sl < 2 ^ 32 /\ (cs_in_use sl = true <-> is_Some (cs_init sl))
}.

Lemma ctx_ok_new : ctx_ok contexts_new.
Proof.
  pose proof rio_peak_ok. split; cbn; [lia | constructor | | done]. intros i. rewrite elem_of_nil. split; [done |].
  by intros (sl & Hs & _).
Qed.

Lemma context_raw_add id : id_ok id -> context_raw_of id = (0xA7 * 2 ^ 24 + id_index id) * 2 ^ 32 + id_generation id.
Proof.
  intros [Hi Hg]. unfold context_raw_of, RIO_REQUEST_CONTEXT_MAGIC, RIO_REQUEST_CONTEXT_MAGIC_SHIFT, RIO_REQUEST_CONTEXT_INDEX_SHIFT.
  replace (Z.shiftl 0xA7 56) with (Z.shiftl (0xA7 * 2 ^ 24) 32) by done.
  rewrite <- Z.shiftl_lor, lor_shiftl_add by lia.
  f_equal. replace (0xA7 * 2 ^ 24) with (Z.shiftl 0xA7 24) by done. rewrite lor_shiftl_add by lia. by rewrite Z.shiftl_mul_pow2 by lia.
Qed.

Lemma context_raw_nonzero id : id_ok id -> context_raw_of id <> 0 /\ 0 <= context_raw_of id < 2 ^ 64.
Proof. intros Hid. rewrite context_raw_add by done. destruct Hid. lia. Qed.

(** A number that the kernel gives back names the context it was made from. *)
Lemma context_decode id : id_ok id -> context_from_raw (context_raw_of id) = Some id.
Proof.
  intros Hid. rewrite context_raw_add by done. destruct Hid as [Hi Hg].
  unfold context_from_raw, RIO_REQUEST_CONTEXT_MAGIC, RIO_REQUEST_CONTEXT_MAGIC_SHIFT, RIO_REQUEST_CONTEXT_INDEX_SHIFT, RIO_REQUEST_CONTEXT_INDEX_MASK.
  rewrite (shiftr_add _ _ 32) by lia. replace 56 with (32 + 24) by done. rewrite <- Z.shiftr_shiftr by lia.
  rewrite (shiftr_add _ _ 32), shiftr_add by lia. rewrite Z.eqb_refl. cbn [negb].
  replace 0x00ffffff with (2 ^ 24 - 1) by done. rewrite land_mask by lia.
  rewrite Z.add_comm, Z.mod_add, Z.mod_small by lia. unfold wrap, U32.
  rewrite Z.add_comm, Z.mod_add, Z.mod_small by lia. by destruct id.
Qed.

Lemma context_encode raw id : 0 <= raw < 2 ^ 64 -> context_from_raw raw = Some id -> context_raw_of id = raw /\ id_ok id.
Proof.
  intros Hr. unfold context_from_raw, RIO_REQUEST_CONTEXT_MAGIC, RIO_REQUEST_CONTEXT_MAGIC_SHIFT, RIO_REQUEST_CONTEXT_INDEX_SHIFT, RIO_REQUEST_CONTEXT_INDEX_MASK.
  destruct (Z.eqb_spec (Z.shiftr raw 56) 0xA7) as [Hm |]; [| done]. cbn [negb].
  replace 0x00ffffff with (2 ^ 24 - 1) by done. rewrite land_mask by lia. unfold wrap, U32. intros E.
  assert (E' : mkCtxId (Z.shiftr raw 32 mod 2 ^ 24) (raw mod 2 ^ 32) = id) by congruence. subst id. clear E.
  assert (Hok : id_ok (mkCtxId (Z.shiftr raw 32 mod 2 ^ 24) (raw mod 2 ^ 32))).
  { split; cbn; apply Z.mod_pos_bound; lia. }
  split; [| done]. rewrite context_raw_add by done. cbn [id_index id_generation].
  replace 56 with (32 + 24) in Hm by done. rewrite <- Z.shiftr_shiftr in Hm by lia.
  rewrite Z.shiftr_div_pow2 in Hm by lia. rewrite Z.shiftr_div_pow2 in * by lia.
  assert (E1 : raw / 2 ^ 32 = 0xA7 * 2 ^ 24 + (raw / 2 ^ 32) mod 2 ^ 24).
  { rewrite <- Hm. rewrite Z.mul_comm. apply Z.div_mod. lia. }
  rewrite <- E1. rewrite Z.mul_comm. symmetry. apply Z.div_mod. lia.
Qed.

Lemma requests_from_insert l i j sl sl' : l !! j = Some sl ->
  slot_request (i + j) sl ++ requests_from i (<[j := sl']> l) ≡ₚ slot_request (i + j) sl' ++ requests_from i l.
Proof.
  revert i j. induction l as [| y l IH]; intros i [| j] Hj; simplify_eq/=.
  - rewrite Nat.add_0_r. by rewrite !app_assoc, (Permutation_app_comm (slot_request i sl)).
  - specialize (IH (S i) j Hj). replace (S i + j)%nat with (i + S j)%nat in IH by lia.
    rewrite !app_assoc, (Permutation_app_comm (slot_request (i + S j) _) (slot_request i y)),
      (Permutation_app_comm (slot_request (i + S j) sl') (slot_request i y)), <- !app_assoc. by rewrite IH.
Qed.

Lemma requests_from_app l i sl : requests_from i (l ++ [sl]) = requests_from i l ++ slot_request (i + length l) sl.
Proof.
  revert i. induction l as [| y l IH]; intros i; cbn [app requests_from length].
  - by rewrite app_nil_r, Nat.add_0_r.
  - rewrite IH, <- app_assoc. by replace (S i + length l)%nat with (i + S (length l))%nat by lia.
Qed.

Lemma elem_of_requests_from l i raw init : (raw, init) ∈ requests_from i l <->
  exists j sl, l !! j = Some sl /\ cs_in_use sl = true /\ cs_init sl = Some init /\
    raw = context_raw_of (mkCtxId (Z.of_nat (i + j)) (cs_generation sl)).
Proof.
  revert i. induction l as [| y l IH]; intros i; cbn [requests_from].
  - rewrite elem_of_nil. split; [done | by intros (j & sl & Hj & _)].
  - rewrite elem_of_app, IH. split.
    + intros [Hy | (j & sl & Hj & Hr)].
      * exists 0%nat, y. rewrite Nat.add_0_r. unfold slot_request in Hy. destruct (cs_init y); [| by apply elem_of_nil in Hy].
        destruct (cs_in_use y); [| by apply elem_of_nil in Hy]. by apply list_elem_of_singleton in Hy as [= -> ->].
      * exists (S j), sl. by replace (i + S j)%nat with (S i + j)%nat by lia.
    + intros ([| j] & sl & Hj & Hu & Hin & ->); cbn in Hj.
      * left. injection Hj as ->. unfold slot_request. rewrite Hu, Hin, Nat.add_0_r. by apply list_elem_of_singleton.
      * right. exists j, sl. by replace (S i + j)%nat with (i + S j)%nat by lia.
Qed.

Lemma elem_of_requests x raw init : ctx_ok x -> (raw, init) ∈ requests x <->
  exists id sl, id_ok id /\ raw = context_raw_of id /\ cx_slots x !! Z.to_nat (id_index id) = Some sl /\
    cs_in_use sl = true /\ cs_init sl = Some init /\ cs_generation sl = id_generation id.
Proof.
  intros Hx. unfold requests. rewrite elem_of_requests_from. split.
  - intros (j & sl & Hj & Hu & Hin & ->). pose proof (lookup_lt_Some _ _ _ Hj). pose proof (ctx_len _ Hx). pose proof rio_peak_ok.
    destruct (ctx_slot _ Hx _ _ Hj) as [Hg _]. cbn. exists (mkCtxId (Z.of_nat j) (cs_generation sl)), sl. cbn.
    rewrite Nat2Z.id. split_and!; [split; cbn; lia | done ..].
  - intros (id & sl & Hid & -> & Hj & Hu & Hin & Hg). exists (Z.to_nat (id_index id)), sl. split_and!; [done .. |].
    destruct Hid. cbn. rewrite Z2Nat.id, Hg by lia. by destruct id.
Qed.

Lemma give_back_ok x i sl init : ctx_ok x -> cx_slots x !! i = Some sl -> cs_in_use sl = true -> cs_init sl = Some init ->
  ctx_ok (give_back_context x i sl) /\
  requests x ≡ₚ (context_raw_of (mkCtxId (Z.of_nat i) (cs_generation sl)), init) :: requests (give_back_context x i sl).
Proof.
  intros Hx Hi Hu Hin. destruct Hx as [Hl Hn Hf Hs]. split.
  - split; cbn [give_back_context cx_slots cx_free].
    + by rewrite length_insert.
    + constructor; [| done]. rewrite Hf. intros (sl' & Hs' & Hu'). congruence.
    + intros j. rewrite elem_of_cons, Hf. destruct (decide (j = i)) as [-> | Hne].
      * rewrite list_lookup_insert_eq by by eapply lookup_lt_Some. split; [intros _; by eexists | by left].
      * rewrite list_lookup_insert_ne by done. split; [by intros [-> |] | by right].
    + intros j sl'. destruct (decide (j = i)) as [-> | Hne].
      * rewrite list_lookup_insert_eq by by eapply lookup_lt_Some. intros [= <-]. cbn. destruct (Hs _ _ Hi). split; [done |].
        split; [done | by intros [??]].
      * rewrite list_lookup_insert_ne by done. apply Hs.
  - unfold requests, give_back_context. cbn [cx_slots].
    pose proof (requests_from_insert (cx_slots x) 0 i sl (mkCtxSlot (cs_generation sl) None false) Hi) as Hp. cbn [Nat.add] in Hp.
    unfold slot_request in Hp. cbn [cs_init] in Hp. rewrite Hin, Hu in Hp. by rewrite <- Hp.
Qed.

(** A completion with the number of a request takes this request, and any other
    number nothing. *)
Lemma decode_request x raw init : ctx_ok x -> (raw, init) ∈ requests x ->
  exists x', decode_request_context_checked x raw = (x', CtxValid init) /\ ctx_ok x' /\ requests x ≡ₚ (raw, init) :: requests x'.
Proof.
  intros Hx Hr. apply elem_of_requests in Hr as (id & sl & Hid & -> & Hj & Hu & Hin & Hg); [| done].
  unfold decode_request_context_checked. rewrite context_decode, Hj, Hu, Hg, Z.eqb_refl, Hin by done. cbn [negb].
  destruct (give_back_ok _ _ _ _ Hx Hj Hu Hin) as [Hok Hp]. eexists. split; [done |]. split; [done |].
  rewrite Hp. destruct Hid. by rewrite Z2Nat.id, Hg by lia.
Qed.

Lemma decode_other x raw : ctx_ok x -> 0 <= raw < 2 ^ 64 -> (forall init, (raw, init) ∉ requests x) ->
  exists d, decode_request_context_checked x raw = (x, d) /\ forall init, d <> CtxValid init.
Proof.
  intros Hx Hraw Hr. unfold decode_request_context_checked.
  destruct (context_from_raw raw) as [id |] eqn:Hid; [| by eexists].
  apply context_encode in Hid as [<- Hid]; [| done].
  destruct (cx_slots x !! Z.to_nat (id_index id)) as [sl |] eqn:Hj; [| by eexists].
  destruct (cs_in_use sl) eqn:Hu; [| by eexists]. cbn [negb].
  destruct (Z.eqb_spec (cs_generation sl) (id_generation id)) as [Hg |]; [| by eexists]. cbn [negb].
  destruct (ctx_slot _ Hx _ _ Hj) as [_ [Hin _]]. destruct (Hin Hu) as [init Hi]. exfalso. apply (Hr init).
  apply elem_of_requests; [done |]. by exists id, sl.
Qed.

Lemma take_request x id init : ctx_ok x -> id_ok id -> (context_raw_of id, init) ∈ requests x ->
  exists x', take_request_context_init x id = (x', Some init) /\ ctx_ok x' /\ requests x ≡ₚ (context_raw_of id, init) :: requests x'.
Proof.
  intros Hx Hid Hr. destruct (decode_request _ _ _ Hx Hr) as (x' & Hd & Hx' & Hp). exists x'. split; [| done].
  revert Hd. unfold decode_request_context_checked, take_request_context_init. rewrite context_decode by done.
  destruct (_ !! _) as [sl |]; [| by intros [= ? ?]]. destruct (cs_in_use sl); [| by intros [= ? ?]]. cbn [negb orb].
  destruct (_ =? _); [| by intros [= ? ?]]. cbn [negb]. destruct (cs_init sl); by intros [= <- <-].
Qed.

Lemma requests_full l i : (forall j sl, l !! j = Some sl -> cs_in_use sl = true /\ is_Some (cs_init sl)) ->
  length (requests_from i l) = length l.
Proof.
  revert i. induction l as [| y l IH]; intros i Hl; [done |]. cbn [requests_from length]. rewrite length_app, IH.
  - destruct (Hl 0%nat y eq_refl) as [Hu [init Hin]]. unfold slot_request. by rewrite Hin, Hu.
  - intros j sl Hj. by apply (Hl (S j)).
Qed.

Lemma requests_snoc x : requests (mkCtxs (cx_slots x ++ [ctx_slot_default]) []) = requests x.
Proof. unfold requests. cbn [cx_slots]. rewrite requests_from_app. apply app_nil_r. Qed.

(** What [alloc_request_context] does to the slot that it picked. *)
Definition fill_slot x (i : nat) (sl : RioRequestContextSlot) (init : RioOpRequestInit) : outcome (RioContexts * RioRequestContextId) :=
  _ ← assert (negb (cs_in_use sl));
  let generation := wrapping_add U32 (cs_generation sl) 1 in
  let generation := if generation =? 0 then 1 else generation in
  let x := mkCtxs (<[i := mkCtxSlot generation (Some init) true]> (cx_slots x)) (cx_free x) in
  id ← context_id_new (Z.of_nat i) generation;
  Ret (x, id).

Lemma fill_slot_ok slots free i sl init :
  let x := mkCtxs slots (i :: free) in
  ctx_ok x -> slots !! i = Some sl -> cs_in_use sl = false ->
  exists x' id, fill_slot (mkCtxs slots free) i sl init = Ret (x', id) /\ ctx_ok x' /\ id_ok id /\
    requests x' ≡ₚ (context_raw_of id, init) :: requests x.
Proof.
  pose proof rio_peak_ok. cbn zeta. intros [Hl Hn Hf Hs] Hi Hu. cbn in *. unfold fill_slot, context_id_new, RIO_REQUEST_CONTEXT_INDEX_MASK. rewrite Hu. cbn [negb assert].
  rewrite bind_ret. pose proof (lookup_lt_Some _ _ _ Hi) as Hlt. cbn [cx_slots cx_free].
  set (g := if _ =? 0 then 1 else _). assert (Hg : 0 <= g < 2 ^ 32).
  { subst g. pose proof (Z.mod_pos_bound (cs_generation sl + 1) (2 ^ 32) ltac:(lia)). unfold wrapping_add, wrap, U32. case_ltb; lia. }
  destruct (Z.leb_spec (Z.of_nat i) 0x00ffffff); [| lia]. cbn [assert]. rewrite !bind_ret.
  eexists _, _. split; [done |]. apply NoDup_cons in Hn as [Hni Hn]. split_and!.
  - split; cbn [cx_slots cx_free].
    + by rewrite length_insert.
    + done.
    + intros j. destruct (decide (j = i)) as [-> | Hne].
      * rewrite list_lookup_insert_eq by done. split; [done |]. by intros (sl' & [= <-] & ?).
      * rewrite list_lookup_insert_ne, <- Hf, elem_of_cons by done. split; [by right | by intros [|]].
    + intros j sl'. destruct (decide (j = i)) as [-> | Hne].
      * rewrite list_lookup_insert_eq by done. intros [= <-]. cbn. split; [done |]. split; [by eexists | done].
      * rewrite list_lookup_insert_ne by done. apply Hs.
  - split; cbn; lia.
  - unfold requests. cbn [cx_slots].
    pose proof (requests_from_insert slots 0 i sl (mkCtxSlot g (Some init) true) Hi) as Hp. cbn [Nat.add] in Hp.
    unfold slot_request in Hp. rewrite Hu in Hp. cbn [cs_init cs_in_use cs_generation] in Hp.
    destruct (cs_init sl); exact Hp.
Qed.

Lemma alloc_request x init : ctx_ok x -> Z.of_nat (length (requests x)) < rio_peak ->
  exists x' id, alloc_request_context x init = Ret (x', id) /\ ctx_ok x' /\ id_ok id /\
    requests x' ≡ₚ (context_raw_of id, init) :: requests x.
Proof.
  intros Hx Hn. destruct x as [slots free]. unfold alloc_request_context. cbn [cx_free cx_slots].
  destruct free as [| i free].
  - assert (Hfull : length (requests (mkCtxs slots [])) = length slots).
    { apply requests_full. intros j sl Hj. destruct (ctx_slot _ Hx _ _ Hj) as [_ Hiff].
      assert (Hu : cs_in_use sl = true).
      { destruct (cs_in_use sl) eqn:Hu; [done |].
        assert (Hin : j ∈ cx_free (mkCtxs slots [])) by (apply (ctx_free _ Hx); by eexists). by apply elem_of_nil in Hin. }
      split; [done |]. by apply Hiff. }
    rewrite <- (requests_snoc (mkCtxs slots [])). cbn [cx_slots].
    assert (Hnew : (slots ++ [ctx_slot_default]) !! length slots = Some ctx_slot_default) by by apply list_lookup_middle.
    rewrite (vec_get_lookup _ _ ctx_slot_default) by (rewrite ?Nat2Z.id; done || lia). rewrite bind_ret.
    destruct (fill_slot_ok (slots ++ [ctx_slot_default]) [] (length slots) ctx_slot_default init) as (x' & id & Hfill & Hok & Hid & Hp).
    + split; cbn [cx_slots cx_free].
      * rewrite length_app. cbn. lia.
      * apply NoDup_singleton.
      * intros j. rewrite list_elem_of_singleton. split; [intros ->; by eexists |]. intros (sl & Hj & Hu).
        apply lookup_app_Some in Hj as [Hj | [Hle Hj]].
        -- assert (Hin : j ∈ cx_free (mkCtxs slots [])) by (apply (ctx_free _ Hx); by eexists). by apply elem_of_nil in Hin.
        -- apply list_lookup_singleton_Some in Hj as [? _]. lia.
      * intros j sl Hj. apply lookup_app_Some in Hj as [Hj | [Hle Hj]]; [by apply (ctx_slot _ Hx _ _ Hj) |].
        apply list_lookup_singleton_Some in Hj as [_ <-]. cbn. split; [lia |]. split; [done | by intros [??]].
    + done.
    + done.
    + exists x', id. split; [exact Hfill |]. split_and!; [done .. |]. exact Hp.
  - destruct (proj1 (ctx_free _ Hx i)) as (sl & Hi & Hu); [by left |]. cbn in Hi.
    rewrite (vec_get_lookup _ _ sl) by (rewrite ?Nat2Z.id; done || lia). rewrite bind_ret. by apply fill_slot_ok.
Qed.

(** A context names its request until its completion, and no longer. *)
Lemma decode_again x raw x' init : ctx_ok x -> decode_request_context_checked x raw = (x', CtxValid init) ->
  exists d, decode_request_context_checked x' raw = (x', d) /\ forall i, d <> CtxValid i.
Proof.
  intros Hx. unfold decode_request_context_checked. destruct (context_from_raw raw) as [id |]; [| by intros [= ? ?]].
  destruct (cx_slots x !! Z.to_nat (id_index id)) as [sl |] eqn:Hj; [| by intros [= ? ?]].
  destruct (cs_in_use sl); [| by intros [= ? ?]]. destruct (cs_generation sl =? id_generation id); [| by intros [= ? ?]]. cbn [negb].
  destruct (cs_init sl) as [i |]; [| by intros [= ? ?]]. intros [= <- <-]. cbn [give_back_context cx_slots].
  rewrite list_lookup_insert_eq by by eapply lookup_lt_Some. cbn [cs_in_use negb]. by eexists.
Qed.

Theorem context_once x init : ctx_ok x -> Z.of_nat (length (requests x)) < rio_peak ->
  exists x1 id x2, alloc_request_context x init = Ret (x1, id) /\ requests x1 ≡ₚ (context_raw_of id, init) :: requests x /\
    decode_request_context_checked x1 (context_raw_of id) = (x2, CtxValid init) /\ requests x2 ≡ₚ requests x /\ ctx_ok x2 /\
    exists d, decode_request_context_checked x2 (context_raw_of id) = (x2, d) /\ forall i, d <> CtxValid i.
Proof.
  intros Hx Hn. destruct (alloc_request x init Hx Hn) as (x1 & id & E & H1 & _ & Hp).
  destruct (decode_request x1 (context_raw_of id) init H1) as (x2 & D & H2 & Hq); [rewrite Hp; by left |].
  exists x1, id, x2. split_and!; try done; [| by apply (decode_again x1 _ x2 init)].
  rewrite Hp in Hq. by apply (inj (cons (context_raw_of id, init))) in Hq.
Qed.
End contexts.

(** ** Address slots *)

(** [L] are the slots that requests have. *)
Record addr_ok a (L : list nat) : Prop := {
  addr_len : length (ra_in_use a) = length (ra_slots a);
  addr_perm : ra_free a ++ L ≡ₚ seq 0 (length (ra_slots a));
  addr_used : forall i, (i < length (ra_slots a))%nat -> ra_in_use a !! i = Some (bool_decide (i ∈ L));
  addr_fits : ra_buffer_id a <> 0 -> Z.of_nat (length (ra_slots a)) * SIZE_STORAGE < 2 ^ 32
}.

Lemma addr_perm_ok a L L' : L ≡ₚ L' -> addr_ok a L -> addr_ok a L'.
Proof.
  intros Hp [H1 H2 H3 H4]. split; [done | by rewrite <- Hp | | done]. intros i Hi. rewrite H3 by done.
  f_equal. apply bool_decide_ext. by rewrite Hp.
Qed.

Lemma addr_nodup a L : addr_ok a L -> NoDup (ra_free a ++ L).
Proof. intros Ha. rewrite (addr_perm _ _ Ha). apply NoDup_seq. Qed.

Lemma addr_owned a L i : addr_ok a L -> i ∈ L -> (i < length (ra_slots a))%nat.
Proof.
  intros Ha Hi. assert (Hin : i ∈ ra_free a ++ L) by (apply elem_of_app; by right).
  rewrite (addr_perm _ _ Ha) in Hin. apply elem_of_seq in Hin. lia.
Qed.

Lemma addr_new_ok base capacity : addr_ok (addrs_new base capacity) [].
Proof.
  unfold addrs_new. split; cbn [ra_in_use ra_slots ra_free ra_buffer_id]; [by rewrite !length_replicate | | | done].
  - by rewrite app_nil_r, length_replicate.
  - intros i. rewrite length_replicate. intros Hi. by rewrite lookup_replicate_2.
Qed.

(** Writing a slot changes no owner. *)
Lemma set_addr_slot_ok a L slot bytes : addr_ok a L -> addr_ok (set_addr_slot a slot bytes) L.
Proof. intros [H1 H2 H3 H4]. split; cbn [set_addr_slot ra_in_use ra_slots ra_free ra_buffer_id]; by rewrite length_insert. Qed.

Lemma free_addr_ok a L i : addr_ok a (i :: L) -> addr_ok (free_addr_slot a (Some i)) L.
Proof.
  intros Ha. assert (Hi : i ∈ i :: L) by by left. pose proof (addr_owned _ _ _ Ha Hi) as Hlt.
  pose proof (addr_nodup _ _ Ha) as Hnd. destruct Ha as [H1 H2 H3 H4]. unfold free_addr_slot.
  rewrite H3, bool_decide_eq_true_2 by done. apply NoDup_app in Hnd as (Hf & Hd & HL). apply NoDup_cons in HL as [HiL HL].
  split; cbn [ra_in_use ra_slots ra_free ra_buffer_id]; [by rewrite length_insert | | | done].
  - rewrite <- H2. cbn [app]. by apply Permutation_middle.
  - intros j Hj. destruct (decide (j = i)) as [-> | Hne].
    + rewrite list_lookup_insert_eq by lia. by rewrite bool_decide_eq_false_2.
    + rewrite list_lookup_insert_ne, H3 by done. f_equal. apply bool_decide_ext. set_solver.
Qed.

(** A slot that no request has is not freed again. *)
Lemma free_addr_again a L i : addr_ok a L -> i ∉ L -> free_addr_slot a (Some i) = a.
Proof.
  intros Ha Hi. unfold free_addr_slot. destruct (ra_in_use a !! i) as [u |] eqn:Hu; [| done].
  assert (Hlt : (i < length (ra_slots a))%nat).
  { rewrite <- (addr_len _ _ Ha). by eapply lookup_lt_Some. }
  rewrite (addr_used _ _ Ha) in Hu by done. rewrite bool_decide_eq_false_2 in Hu by done. by injection Hu as <-.
Qed.

Definition slot_list (o : option nat) : list nat := match o with Some i => [i] | None => [] end.

Lemma free_addr_option_ok a L o : addr_ok a (slot_list o ++ L) -> addr_ok (free_addr_slot a o) L.
Proof. destruct o as [i |]; [apply free_addr_ok | done]. Qed.

Lemma free_addr_buffer a o : ra_buffer_id (free_addr_slot a o) = ra_buffer_id a.
Proof. unfold free_addr_slot. by repeat case_match. Qed.

(** ** The kernel

    [sound]: nothing was asked that the documentation forbids: a buffer is
    deregistered once and while no request uses it, requests use registered
    buffers, and a completion queue is closed with nothing pending. *)

Record KernelRequest : Type := mkKReq { kr_context : Z; kr_buffers : list Z }.

Class RioLaws (K : Type) `{!RioTable K} : Type := {
  sound : K -> Prop;
  live : K -> gset Z;
  kpending : K -> list KernelRequest;
  (** What a call that does not touch buffers and requests leaves. *)
  law_create_rq : forall k cfg, sound k -> let k' := (fn_create_rq k cfg).1 in
    sound k' /\ live k' = live k /\ kpending k' = kpending k;
  law_notify : forall k cq, sound k -> let k' := (fn_notify k cq).1 in
    sound k' /\ live k' = live k /\ kpending k' = kpending k;
  law_yield : forall k, sound k -> let k' := fn_yield k in
    sound k' /\ live k' = live k /\ kpending k' = kpending k /\ now k <= now k';
  law_sleep : forall k ms, sound k -> let k' := fn_sleep k ms in
    sound k' /\ live k' = live k /\ kpending k' = kpending k /\ now k + ms * 1000000 <= now k';
  law_register : forall k ptr len, sound k -> let (k', id) := fn_register_buffer k ptr len in
    sound k' /\ kpending k' = kpending k /\
    if id =? 0 then live k' = live k else id ∉ live k /\ live k' = {[id]} ∪ live k;
  law_deregister : forall k id, sound k -> id ∈ live k -> (forall r, r ∈ kpending k -> id ∉ kr_buffers r) ->
    let k' := fn_deregister_buffer k id in sound k' /\ live k' = live k ∖ {[id]} /\ kpending k' = kpending k;
  law_receive : forall k rq buf ctx, sound k -> bu_id buf ∈ live k -> let (k', ok) := fn_receive k rq buf ctx in
    sound k' /\ live k' = live k /\ kpending k' = if ok : bool then mkKReq ctx [bu_id buf] :: kpending k else kpending k;
  law_send : forall k rq buf ctx, sound k -> bu_id buf ∈ live k -> let (k', ok) := fn_send k rq buf ctx in
    sound k' /\ live k' = live k /\ kpending k' = if ok : bool then mkKReq ctx [bu_id buf] :: kpending k else kpending k;
  law_send_ex : forall k rq data addr ctx, sound k -> bu_id data ∈ live k -> bu_id addr ∈ live k ->
    let (k', ok) := fn_send_ex k rq data addr ctx in sound k' /\ live k' = live k /\
    kpending k' = if ok : bool then mkKReq ctx [bu_id data; bu_id addr] :: kpending k else kpending k;
  law_receive_ex : forall k rq data addr ctx, sound k -> bu_id data ∈ live k -> bu_id addr ∈ live k ->
    let (k', ok) := fn_receive_ex k rq data addr ctx in sound k' /\ live k' = live k /\
    kpending k' = if ok : bool then mkKReq ctx [bu_id data; bu_id addr] :: kpending k else kpending k;
  law_dequeue : forall k cq n, sound k -> let (k', d) := fn_dequeue k cq n in
    sound k' /\ live k' = live k /\ now k <= now k' /\
    match d with
    | Results l => (length l <= n)%nat /\
        exists fin, map kr_context fin = map rs_context l /\ kpending k ≡ₚ fin ++ kpending k'
    | CorruptCq => kpending k' = kpending k
    end;
  law_close_cq : forall k cq, sound k -> kpending k = [] -> let k' := fn_close_cq k cq in
    sound k' /\ live k' = live k /\ kpending k' = []
}.

(** ** Where registered buffers are *)

(** [PNew] has a buffer only inside of a call. *)
Inductive Place : Type :=
  | PNew | PChunk (i : nat) | PRetired (key : RioChunkRegistrationKey) | PHeap (key : RioHeapBufferKey) | PDeferred (id : Z) | PAddr.
#[global] Instance place_eq_dec : EqDecision Place.
Proof. solve_decision. Defined.

Definition reg_at b (p : Place) : option RioBufferRegistration :=
  match p with
  | PChunk i => cg_registration <$> mjoin (rb_chunks b !! i)
  | PRetired key => rb_retired b !! key
  | PHeap key => rb_heap b !! key
  | PNew | PDeferred _ | PAddr => None
  end.
(** The buffer that is registered for a place; [aid] is the buffer of addresses. *)
Definition id_at b (aid : Z) (p : Place) : option Z :=
  match p with
  | PDeferred i => if decide (i ∈ rb_pending b) then Some i else None
  | PAddr => if aid =? 0 then None else Some aid
  | p => bg_id <$> reg_at b p
  end.

Definition lease_id (l : RioBufferLeaseToken) : Z := match l with ChunkLease l => cl_id l | HeapLease l => hl_id l end.
Definition lease_ok (l : RioBufferLeaseToken) : Prop := match l with ChunkLease l => 0 <= ck_id (cl_key l) | HeapLease _ => True end.

Definition is_current b (key : RioChunkRegistrationKey) : bool :=
  match chunk_at b (ck_id key) with Some e => cg_generation e =? ck_generation key | None => false end.
Definition place_of b (l : RioBufferLeaseToken) : Place :=
  match l with
  | ChunkLease l => if is_current b (cl_key l) then PChunk (Z.to_nat (ck_id (cl_key l))) else PRetired (cl_key l)
  | HeapLease l => PHeap (hl_key l)
  end.
(** The registration that a lease names. *)
Definition lease_reg b (l : RioBufferLeaseToken) : option RioBufferRegistration :=
  match reg_at b (place_of b l) with
  | Some g => if bg_id g =? lease_id l then Some g else None
  | None => None
  end.

Definition leases_of (l : RioBufferLeaseToken) (L : list RioBufferLeaseToken) : Z := Z.of_nat (length (filter (fun l' => l' = l) L)).

(** [L] are the leases that requests have. *)
Record bufs_ok b (L : list RioBufferLeaseToken) : Prop := {
  bo_held : forall l, l ∈ L -> lease_ok l /\ is_Some (lease_reg b l);
  bo_refs : forall l g, lease_ok l -> lease_reg b l = Some g -> bg_refs g = leases_of l L;
  bo_retired : forall key g, rb_retired b !! key = Some g ->
    0 <= ck_id key /\ ck_generation key <= rb_generation b /\ is_current b key = false /\ bg_retired g = true /\ bg_refs g <> 0;
  bo_chunks : forall i e, mjoin (rb_chunks b !! i) = Some e -> cg_generation e <= rb_generation b /\ bg_retired (cg_registration e) = false;
  bo_generation : 0 <= rb_generation b;
  bo_deferred : NoDup (rb_pending b)
}.

Record ids_ok {K : Type} `{RioLaws K} (k : K) (f : Place -> option Z) : Prop := {
  io_live : forall i, i ∈ live k <-> exists p, f p = Some i;
  io_inj : forall p q i, f p = Some i -> f q = Some i -> p = q;
  io_nonzero : forall p, f p <> Some 0
}.

(** The buffers that the kernel works on are leased, or hold addresses. *)
Definition in_use_ok {K : Type} `{RioLaws K} (k : K) (aid : Z) (L : list RioBufferLeaseToken) : Prop :=
  forall r i, r ∈ kpending k -> i ∈ kr_buffers r -> (exists l, l ∈ L /\ lease_id l = i) \/ (i = aid /\ aid <> 0).

Record bufs_inv {K : Type} `{RioLaws K} (k : K) b (aid : Z) (L : list RioBufferLeaseToken) : Prop := {
  bi_sound : sound k;
  bi_bufs : bufs_ok b L;
  bi_ids : ids_ok k (id_at b aid);
  bi_use : in_use_ok k aid L
}.

(** *** Counting leases *)

Lemma leases_of_perm l L L' : L ≡ₚ L' -> leases_of l L = leases_of l L'.
Proof. intros Hp. unfold leases_of. by rewrite Hp. Qed.
Lemma leases_of_cons l l' L : leases_of l (l' :: L) = leases_of l L + if decide (l' = l) then 1 else 0.
Proof.
  unfold leases_of. destruct (decide (l' = l)) as [He | Hne];
    [rewrite filter_cons_True by done | rewrite filter_cons_False by done]; cbn [length]; lia.
Qed.
Lemma leases_of_none l L : leases_of l L = 0 <-> l ∉ L.
Proof.
  unfold leases_of. rewrite <- Nat2Z.inj_0, Nat2Z.inj_iff, length_zero_iff_nil. split.
  - intros Hf Hl. assert (Hin : l ∈ filter (fun l' => l' = l) L) by by apply list_elem_of_filter. by rewrite Hf in Hin; apply elem_of_nil in Hin.
  - intros Hl. apply elem_of_nil_inv. intros y Hy. apply list_elem_of_filter in Hy as [-> ?]. done.
Qed.
Lemma leases_of_nonneg l L : 0 <= leases_of l L.
Proof. unfold leases_of. lia. Qed.

Lemma bufs_ok_perm b L L' : L ≡ₚ L' -> bufs_ok b L -> bufs_ok b L'.
Proof.
  intros Hp [H1 H2 H3 H4 H5 H6]. split; try done.
  - intros l. rewrite <- Hp. apply H1.
  - intros l g Hl Hg. by rewrite (H2 l g Hl Hg), (leases_of_perm l _ _ Hp).
Qed.
Lemma bufs_inv_perm {K : Type} `{RioLaws K} (k : K) b aid L L' : L ≡ₚ L' -> bufs_inv k b aid L -> bufs_inv k b aid L'.
Proof.
  intros Hp [H1 H2 H3 H4]. split; try done; [by apply (bufs_ok_perm _ L) |]. intros r i Hr Hi.
  destruct (H4 r i Hr Hi) as [(l & Hl & ?) | ?]; [left; exists l; by rewrite <- Hp | by right].
Qed.

Lemma bufs_ok_new : bufs_ok buffers_new [].
Proof.
  split; [by intros l ?%elem_of_nil | | | | done | constructor].
  - intros [l | l] g _; unfold lease_reg, place_of, is_current, chunk_at; cbn; by rewrite ?lookup_empty.
  - intros key g. cbn. by rewrite lookup_empty.
  - by intros i e.
Qed.

(** *** Updates of a registration *)

(** The tables of [b'] are those of [b], but for the registration of one place. *)
Definition same_shape b b' : Prop :=
  (forall i, cg_generation <$> mjoin (rb_chunks b' !! i) = cg_generation <$> mjoin (rb_chunks b !! i)) /\
  rb_pending b' = rb_pending b /\ rb_generation b' = rb_generation b.

Lemma same_shape_current b b' key : same_shape b b' -> is_current b' key = is_current b key.
Proof.
  intros (Hs & _ & _). specialize (Hs (Z.to_nat (ck_id key))). unfold is_current, chunk_at.
  destruct (mjoin (rb_chunks b' !! _)), (mjoin (rb_chunks b !! _)); cbn in Hs; congruence.
Qed.
Lemma same_shape_place b b' l : same_shape b b' -> place_of b' l = place_of b l.
Proof. intros Hs. destruct l; [| done]. unfold place_of. by rewrite (same_shape_current b b'). Qed.

(** [set_registration] writes the registration of a lease. *)
Definition set_registration b (l : RioBufferLeaseToken) (g : RioBufferRegistration) : RioBuffers :=
  match l with
  | ChunkLease l => set_chunk_registration b (if is_current b (cl_key l) then LocCurrent else LocRetired) (cl_key l) g
  | HeapLease l => set_heap b (<[hl_key l := g]> (rb_heap b))
  end.

Lemma set_registration_shape b l g : same_shape b (set_registration b l g).
Proof.
  destruct l as [l | l]; [| done]. unfold set_registration, is_current, chunk_at.
  destruct (mjoin (rb_chunks b !! Z.to_nat (ck_id (cl_key l)))) as [e |] eqn:He; [| done].
  destruct (Z.eqb_spec (cg_generation e) (ck_generation (cl_key l))) as [Hg |]; [| done].
  split; [| done]. intros i. cbn. destruct (decide (i = Z.to_nat (ck_id (cl_key l)))) as [-> | Hne].
  - rewrite He. destruct (rb_chunks b !! Z.to_nat (ck_id (cl_key l))) eqn:Hl; [| done].
    rewrite list_lookup_insert_eq by by eapply lookup_lt_Some. cbn. by rewrite Hg.
  - by rewrite list_lookup_insert_ne.
Qed.

Lemma set_registration_at b l g g' p : lease_reg b l = Some g' ->
  reg_at (set_registration b l g) p = if decide (p = place_of b l) then Some g else reg_at b p.
Proof.
  unfold lease_reg. destruct (reg_at b (place_of b l)) as [y |] eqn:Hy; [| done]. intros _.
  destruct l as [l | l]; unfold set_registration, place_of in *.
  - destruct (is_current b (cl_key l)) eqn:Hc; cbn [set_chunk_registration].
    + destruct (decide _) as [-> | Hne].
      * cbn in *. destruct (rb_chunks b !! _) eqn:Hl; [| done].
        by rewrite list_lookup_insert_eq by by eapply lookup_lt_Some.
      * destruct p; try done. cbn. rewrite list_lookup_insert_ne by congruence. done.
    + destruct (decide _) as [-> | Hne]; [by cbn; rewrite lookup_insert_eq |].
      destruct p; try done. cbn. by rewrite lookup_insert_ne by congruence.
  - destruct (decide _) as [-> | Hne]; [by cbn; rewrite lookup_insert_eq |].
    destruct p; try done. cbn. by rewrite lookup_insert_ne by congruence.
Qed.

(** *** Leases *)

Lemma chunk_lease_reg b l : chunk_registration_for_lease b l =
  match lease_reg b (ChunkLease l) with
  | Some g => Ok (if is_current b (cl_key l) then LocCurrent else LocRetired, g)
  | None => Err Internal
  end.
Proof.
  unfold chunk_registration_for_lease, locate_chunk_lease, lease_reg, place_of, is_current, current_chunk_registration, chunk_at.
  destruct (mjoin (rb_chunks b !! _)) as [e |] eqn:He.
  - destruct (Z.eqb_spec (cg_generation e) (ck_generation (cl_key l))) as [Hg |]; cbn.
    + rewrite He. cbn. destruct (_ =? _); [| done]. done.
    + destruct (rb_retired b !! _) as [g |]; [| done]. by destruct (_ =? _).
  - cbn. destruct (rb_retired b !! _) as [g |]; [| done]. by destruct (_ =? _).
Qed.

Lemma heap_lease_reg b l : heap_registration_for_lease b l =
  match lease_reg b (HeapLease l) with Some g => Ok g | None => Err Internal end.
Proof. unfold heap_registration_for_lease, lease_reg. cbn. destruct (rb_heap b !! _); [| done]. by destruct (_ =? _). Qed.

Lemma lease_reg_at b l g : lease_reg b l = Some g -> reg_at b (place_of b l) = Some g /\ bg_id g = lease_id l.
Proof.
  unfold lease_reg. destruct (reg_at b _) as [y |]; [| done]. destruct (Z.eqb_spec (bg_id y) (lease_id l)); [| done].
  by intros [= <-].
Qed.
Lemma lease_reg_id b aid l g : lease_reg b l = Some g -> id_at b aid (place_of b l) = Some (lease_id l).
Proof.
  intros Hg. destruct (lease_reg_at _ _ _ Hg) as [Hp Hi].
  destruct l as [l | l]; cbn [place_of] in *; [destruct (is_current b _) |]; unfold id_at; rewrite Hp; cbn; by f_equal.
Qed.

(** A place and a number identify a lease. *)
Lemma place_lease_inj b l l' : lease_ok l -> lease_ok l' -> place_of b l = place_of b l' -> lease_id l = lease_id l' -> l = l'.
Proof.
  destruct l as [[[i g] n] | [key n]], l' as [[[i' g'] n'] | [key' n']]; cbn; intros Hl Hl' Hp Hi.
  - unfold is_current in Hp. cbn in Hp.
    destruct (chunk_at b i) as [e |] eqn:He; [destruct (Z.eqb_spec (cg_generation e) g) as [Hg |] |];
      (destruct (chunk_at b i') as [e' |] eqn:He'; [destruct (Z.eqb_spec (cg_generation e') g') as [Hg' |] |]);
      try discriminate Hp; try congruence.
    injection Hp as Hz. assert (i = i') as <- by lia. congruence.
  - by destruct (is_current b _).
  - by destruct (is_current b _).
  - congruence.
Qed.

Lemma lease_unique b l l' g : lease_ok l -> lease_ok l' -> lease_reg b l = Some g -> is_Some (lease_reg b l') ->
  place_of b l' = place_of b l -> l' = l.
Proof.
  intros Hl Hl' Hg [g' Hg'] Hp. apply (place_lease_inj b); try done.
  apply lease_reg_at in Hg as [Hg <-], Hg' as [Hg' <-]. rewrite Hp in Hg'. congruence.
Qed.

Lemma set_registration_lease b l g g' l' : lease_reg b l = Some g -> bg_id g' = bg_id g -> lease_ok l -> lease_ok l' ->
  lease_reg (set_registration b l g') l' = if decide (l' = l) then Some g' else lease_reg b l'.
Proof.
  intros Hg Hid Hl Hl'. pose proof (lease_reg_at _ _ _ Hg) as [Hat Hgi].
  unfold lease_reg at 1. rewrite (same_shape_place b _ l') by apply set_registration_shape.
  rewrite (set_registration_at _ _ _ g) by done.
  destruct (decide (l' = l)) as [-> | Hne].
  - rewrite decide_True by done. by rewrite Hid, Hgi, Z.eqb_refl.
  - unfold lease_reg. destruct (decide (place_of b l' = place_of b l)) as [Hp | Hp]; [| done].
    rewrite Hp, Hat, Hid. destruct (Z.eqb_spec (bg_id g) (lease_id l')) as [Hi |]; [| done].
    destruct Hne. apply (place_lease_inj b); [done | done | done | congruence].
Qed.

Lemma set_registration_id b aid l g g' p : lease_reg b l = Some g -> bg_id g' = bg_id g ->
  id_at (set_registration b l g') aid p = id_at b aid p.
Proof.
  intros Hg Hid. pose proof (lease_reg_at _ _ _ Hg) as [Hat _].
  destruct (set_registration_shape b l g') as (_ & Hpe & _).
  destruct p as [| i | key | key | i |]; cbn [id_at]; [done | | | | by rewrite Hpe | done];
    rewrite (set_registration_at _ _ _ g) by done;
    (destruct (decide _) as [Hp |]; [| done]); rewrite Hp, Hat; cbn; by rewrite Hid.
Qed.

Lemma set_registration_ok b L L' l g g' :
  bufs_ok b L -> lease_ok l -> lease_reg b l = Some g -> bg_id g' = bg_id g -> bg_retired g' = bg_retired g ->
  (bg_retired g = true -> bg_refs g' <> 0) ->
  (forall l', l' ∈ L' -> l' ∈ l :: L) -> bg_refs g' = leases_of l L' -> (forall l', l' <> l -> leases_of l' L' = leases_of l' L) ->
  bufs_ok (set_registration b l g') L'.
Proof.
  intros [H1 H2 H3 H4 H5 H6] Hl Hg Hid Hret Hnz HL Hn Ho.
  pose proof (set_registration_shape b l g') as Hsh. destruct (lease_reg_at _ _ _ Hg) as [Hat _].
  destruct (proj2 Hsh) as [Hpe Hge]. split; rewrite ?Hpe, ?Hge; try done.
  - intros l' Hl'. specialize (HL l' Hl'). assert (Hok : lease_ok l') by (apply elem_of_cons in HL as [-> |]; [done | by apply H1]).
    split; [done |]. rewrite (set_registration_lease _ _ g) by done. destruct (decide _) as [-> | Hne]; [by eexists |].
    apply elem_of_cons in HL as [-> | HL]; [done |]. by apply H1.
  - intros l' y Hl' Hy. rewrite (set_registration_lease _ _ g) in Hy by done.
    destruct (decide _) as [-> | Hne]; [by injection Hy as <- |]. rewrite Ho by done. by apply H2.
  - intros key y Hy. change (reg_at (set_registration b l g') (PRetired key) = Some y) in Hy.
    rewrite (set_registration_at _ _ _ g) in Hy by done. rewrite (same_shape_current b) by done.
    destruct (decide _) as [Hp | Hne]; [| by apply H3]. injection Hy as <-. rewrite <- Hp in Hat.
    destruct (H3 _ _ Hat) as (K1 & K2 & K3 & K4 & K5). split_and!; try done; [by rewrite Hret | by apply Hnz].
  - intros i e He. pose proof (proj1 Hsh i) as Hgen. rewrite He in Hgen. cbn in Hgen.
    assert (Hr : reg_at (set_registration b l g') (PChunk i) = Some (cg_registration e)) by (cbn; by rewrite He).
    rewrite (set_registration_at _ _ _ g) in Hr by done.
    destruct (mjoin (rb_chunks b !! i)) as [e0 |] eqn:He0; [| done]. cbn in Hgen. injection Hgen as ->.
    destruct (H4 _ _ He0) as [K1 K2]. split; [done |].
    destruct (decide _) as [Hp | Hne]; [| cbn in Hr; rewrite He0 in Hr; cbn in Hr; congruence].
    injection Hr as <-. rewrite <- Hp in Hat. cbn in Hat. rewrite He0 in Hat. injection Hat as <-. by rewrite Hret.
Qed.

(** Acquiring a lease of a registration adds an owner, or fails without a trace. *)
Lemma acquire_ok b L l g : bufs_ok b L -> lease_ok l -> lease_reg b l = Some g ->
  (exists b', acquire_buffer_lease b (Some l) = (b', Ok tt) /\ bufs_ok b' (l :: L) /\
    rb_generation b' = rb_generation b /\ forall aid p, id_at b' aid p = id_at b aid p) \/
  (exists e, acquire_buffer_lease b (Some l) = (b, Err e)).
Proof.
  intros Hb Hl Hg. set (g' := mkBufReg (bg_id g) (bg_refs g + 1) (bg_retired g)).
  assert (E : acquire_buffer_lease b (Some l) =
    if (0 <=? bg_refs g + 1) && (bg_refs g + 1 <? 2 ^ USIZE_BITS) then (set_registration b l g', Ok tt) else (b, Err ResourceExhaustion)).
  { destruct l as [l | l]; cbn; [unfold acquire_chunk_lease; rewrite chunk_lease_reg, Hg |
      unfold acquire_heap_lease; rewrite heap_lease_reg, Hg];
      unfold acquire_ref, checked; destruct (_ && _); done. }
  rewrite E. destruct (_ && _); [| right; by eexists]. left. eexists. split; [done |]. split.
  - pose proof (bo_refs _ _ Hb l g Hl Hg) as Hr. pose proof (leases_of_nonneg l L).
    apply (set_registration_ok b L _ l g); try done; cbn.
    + lia.
    + rewrite leases_of_cons, decide_True by done. lia.
    + intros l' Hne. rewrite leases_of_cons, decide_False by done. lia.
  - split; [apply set_registration_shape |]. intros aid p. by apply (set_registration_id b aid l g).
Qed.

(** A registration that nobody leases goes. *)
Definition drop_registration b (l : RioBufferLeaseToken) : RioBuffers :=
  match l with
  | ChunkLease l => set_retired b (delete (cl_key l) (rb_retired b))
  | HeapLease l => set_heap b (delete (hl_key l) (rb_heap b))
  end.

Lemma drop_registration_at b l p : (forall i, place_of b l <> PChunk i) ->
  reg_at (drop_registration b l) p = if decide (p = place_of b l) then None else reg_at b p.
Proof.
  intros Hc. destruct l as [l | l]; unfold place_of, drop_registration in *; [destruct (is_current b _); [by destruct (Hc (Z.to_nat (ck_id (cl_key l)))) |] |].
  - destruct (decide _) as [-> | Hne]; [by cbn; rewrite lookup_delete_eq |].
    destruct p; try done. cbn. by rewrite lookup_delete_ne by congruence.
  - destruct (decide _) as [-> | Hne]; [by cbn; rewrite lookup_delete_eq |].
    destruct p; try done. cbn. by rewrite lookup_delete_ne by congruence.
Qed.

Lemma drop_registration_ok b L l g : bufs_ok b (l :: L) -> lease_reg b l = Some g -> l ∉ L -> (forall i, place_of b l <> PChunk i) ->
  bufs_ok (drop_registration b l) L.
Proof.
  intros Hb Hg HlL Hc. pose proof (bo_held _ _ Hb l ltac:(by left)) as [Hl _].
  assert (Hsh : same_shape b (drop_registration b l)) by by destruct l.
  assert (Hlr : forall l', lease_reg (drop_registration b l) l' = if decide (place_of b l' = place_of b l) then None else lease_reg b l').
  { intros l'. unfold lease_reg. rewrite (same_shape_place b _ l' Hsh), drop_registration_at by done. by destruct (decide _). }
  destruct Hb as [H1 H2 H3 H4 H5 H6]. destruct (proj2 Hsh) as [Hpe Hge].
  split; rewrite ?Hpe, ?Hge; try done.
  - intros l' Hl'. destruct (H1 l' ltac:(by right)) as [Hok Hr]. split; [done |]. rewrite Hlr.
    destruct (decide _) as [Hp |]; [| done]. destruct HlL. by rewrite <- (lease_unique b l l' g).
  - intros l' y Hok. rewrite Hlr. destruct (decide _) as [| Hne]; [done |]. intros Hy. rewrite (H2 l' y Hok Hy).
    rewrite leases_of_cons, decide_False by (intros ->; done). lia.
  - intros key y Hy. change (reg_at (drop_registration b l) (PRetired key) = Some y) in Hy.
    rewrite drop_registration_at in Hy by done. destruct (decide _); [done |]. rewrite (same_shape_current b _ _ Hsh). by apply H3.
  - intros i e. destruct l; apply H4.
Qed.

Lemma drop_registration_id b aid l p : (forall i, place_of b l <> PChunk i) ->
  id_at (drop_registration b l) aid p = if decide (p = place_of b l) then None else id_at b aid p.
Proof.
  intros Hc. assert (Hnp : forall i, place_of b l <> PDeferred i) by (intros i; destruct l; [cbn; by destruct (is_current b _) | done]).
  assert (Hna : place_of b l <> PAddr) by (destruct l; [cbn; by destruct (is_current b _) | done]).
  destruct p as [| i | key | key | i |]; cbn [id_at]; rewrite ?drop_registration_at by done;
    destruct (decide (_ = place_of b l)) as [He |]; try done; [by destruct (Hnp i) | by destruct l].
Qed.

Lemma release_inner_ok b L l : bufs_ok b (l :: L) ->
  exists b' o, release_buffer_lease_inner b (Some l) = (b', Ok o) /\ bufs_ok b' L /\
    (rb_pending b' = rb_pending b /\ rb_generation b' = rb_generation b) /\
    match o with
    | None => forall aid p, id_at b' aid p = id_at b aid p
    | Some id => id = lease_id l /\ l ∉ L /\
        forall aid p, id_at b' aid p = if decide (p = place_of b l) then None else id_at b aid p
    end.
Proof.
  intros Hb. destruct (bo_held _ _ Hb l ltac:(by left)) as [Hl [g Hg]]. pose proof (bo_refs _ _ Hb l g Hl Hg) as Hr.
  rewrite leases_of_cons, decide_True in Hr by done. pose proof (leases_of_nonneg l L) as Hnn.
  destruct (lease_reg_at _ _ _ Hg) as [Hat Hid].
  set (g' := mkBufReg (bg_id g) (bg_refs g - 1) (bg_retired g)).
  assert (Hset : ~ ((bg_refs g - 1 =? 0) && bg_retired g = true) -> bufs_ok (set_registration b l g') L).
  { intros Hn. apply (set_registration_ok b (l :: L) L l g); try done; cbn.
    - intros Ht. rewrite Ht, andb_true_r, Z.eqb_eq in Hn. done.
    - intros l' Hl'. right. by right.
    - lia.
    - intros l' Hne. rewrite leases_of_cons, decide_False by done. lia. }
  assert (E : release_buffer_lease_inner b (Some l) =
    if (bg_refs g - 1 =? 0) && bg_retired g then (drop_registration b l, Ok (Some (lease_id l))) else (set_registration b l g', Ok None)).
  { destruct l as [l | l]; cbn [release_buffer_lease_inner].
    - unfold release_chunk_lease_inner. rewrite chunk_lease_reg, Hg. unfold release_ref.
      destruct (Z.eqb_spec (bg_refs g) 0); [lia |]. cbn [bg_refs bg_retired bg_id].
      assert (Hcur : is_current b (cl_key l) = true -> bg_retired g = false).
      { intros Hc. unfold place_of in Hat. rewrite Hc in Hat. cbn in Hat.
        destruct (mjoin (rb_chunks b !! _)) as [e |] eqn:He; [| done]. injection Hat as <-. by apply (bo_chunks _ _ Hb _ _ He). }
      unfold set_registration, drop_registration. destruct (is_current b (cl_key l)) eqn:Hc; cbn [set_chunk_registration].
      + subst g'. by rewrite Hcur, andb_false_r.
      + destruct (_ && _); [| done]. cbn. rewrite lookup_insert_eq, delete_insert_eq. cbn. rewrite Hid. done.
    - unfold release_heap_lease_inner. rewrite heap_lease_reg, Hg. unfold release_ref.
      destruct (Z.eqb_spec (bg_refs g) 0); [lia |]. cbn [bg_refs bg_retired bg_id set_registration drop_registration].
      destruct (_ && _); [| done]. cbn. rewrite lookup_insert_eq, delete_insert_eq. cbn. by rewrite Hid. }
  rewrite E. destruct ((bg_refs g - 1 =? 0) && bg_retired g) eqn:Hz.
  - apply andb_true_iff in Hz as [Hz Hret]. apply Z.eqb_eq in Hz.
    assert (HlL : l ∉ L) by (apply leases_of_none; lia).
    assert (Hc : forall i, place_of b l <> PChunk i).
    { intros i Hp. rewrite Hp in Hat. cbn in Hat. destruct (mjoin (rb_chunks b !! _)) as [e |] eqn:He; [| done].
      injection Hat as <-. destruct (bo_chunks _ _ Hb _ _ He). congruence. }
    eexists _, _. split; [done |]. split; [by apply (drop_registration_ok b L l g) |]. split; [by destruct l |].
    split_and!; [done .. |]. intros aid p. by apply drop_registration_id.
  - eexists _, _. split; [done |]. split; [by apply Hset |]. split; [apply set_registration_shape |].
    intros aid p. by apply (set_registration_id b aid l g).
Qed.

(** *** Registered buffers and the kernel's *)

Section owned.
Context {K : Type} `{Laws : RioLaws K}.
Implicit Types (k : K) (f : Place -> option Z) (p q : Place) (i : Z) (aid : Z) (L : list RioBufferLeaseToken).

Lemma ids_ext k k' f f' : live k' = live k -> (forall p, f' p = f p) -> ids_ok k f -> ids_ok k' f'.
Proof.
  intros Hl Hf [H1 H2 H3]. split.
  - intros i. rewrite Hl, H1. by setoid_rewrite Hf.
  - intros p q i. rewrite !Hf. apply H2.
  - intros p. rewrite Hf. apply H3.
Qed.

Lemma ids_remove k k' f f' p i : ids_ok k f -> f p = Some i -> live k' = live k ∖ {[i]} ->
  (forall q, f' q = if decide (q = p) then None else f q) -> ids_ok k' f'.
Proof.
  intros [H1 H2 H3] Hp Hl Hf. split.
  - intros j. rewrite Hl, elem_of_difference, H1, elem_of_singleton. split.
    + intros [[q Hq] Hne]. exists q. rewrite Hf, decide_False by (intros ->; congruence). done.
    + intros [q Hq]. rewrite Hf in Hq. destruct (decide _) as [| Hne]; [done |]. split; [by exists q |].
      intros ->. by destruct Hne; apply (H2 _ _ i).
  - intros q q' j. rewrite !Hf. repeat destruct (decide _); try done. apply H2.
  - intros q. rewrite Hf. destruct (decide _); [done | apply H3].
Qed.

Lemma ids_add k k' f f' p i : ids_ok k f -> f p = None -> i <> 0 -> i ∉ live k -> live k' = {[i]} ∪ live k ->
  (forall q, f' q = if decide (q = p) then Some i else f q) -> ids_ok k' f'.
Proof.
  intros [H1 H2 H3] Hp Hi Hn Hl Hf. assert (Hno : forall q, f q <> Some i) by (intros q Hq; apply Hn, H1; by exists q). split.
  - intros j. rewrite Hl, elem_of_union, H1, elem_of_singleton. split.
    + intros [-> | [q Hq]]; [exists p; by rewrite Hf, decide_True |]. exists q.
      rewrite Hf, decide_False by (intros ->; congruence). done.
    + intros [q Hq]. rewrite Hf in Hq. destruct (decide _); [left; congruence | right; by exists q].
  - intros q q' j. rewrite !Hf. intros A B. pose proof (Hno q). pose proof (Hno q').
    repeat destruct (decide _); first [congruence | by apply (H2 _ _ j)].
  - intros q. rewrite Hf. destruct (decide _); [congruence | apply H3].
Qed.

Lemma ids_move k f f' p p' : ids_ok k f -> f p' = None ->
  (forall q, f' q = if decide (q = p') then f p else if decide (q = p) then None else f q) -> ids_ok k f'.
Proof.
  intros [H1 H2 H3] Hp Hf. split.
  - intros j. rewrite H1. split; intros [q Hq].
    + destruct (decide (q = p)) as [-> | Hne]; [exists p'; by rewrite Hf, decide_True |].
      exists q. rewrite Hf, decide_False, decide_False by (done || (intros ->; congruence)). done.
    + rewrite Hf in Hq. repeat destruct (decide _); [by exists p | done | by exists q].
  - intros q q' j. rewrite !Hf. intros A B.
    repeat destruct (decide _); first [congruence | pose proof (H2 _ _ _ A B); congruence].
  - intros q. rewrite Hf. repeat destruct (decide _); [apply H3 | done | apply H3].
Qed.

Lemma in_use_same k k' aid L : kpending k' = kpending k -> in_use_ok k aid L -> in_use_ok k' aid L.
Proof. unfold in_use_ok. by intros ->. Qed.

(** What is at a place without leases can be deregistered. *)
Lemma place_unused k b aid L p i : bufs_ok b L -> ids_ok k (id_at b aid) -> in_use_ok k aid L ->
  id_at b aid p = Some i -> p <> PAddr -> (forall l, l ∈ L -> place_of b l <> p) ->
  forall r, r ∈ kpending k -> i ∉ kr_buffers r.
Proof.
  intros Hb Hids Hu Hp Hna Hl r Hr Hi. destruct (Hu r i Hr Hi) as [(l & HlL & <-) | [-> Hz]].
  - destruct (bo_held _ _ Hb l HlL) as [_ [g Hg]]. apply (Hl l HlL).
    apply (io_inj _ _ Hids _ _ (lease_id l)); [by eapply lease_reg_id | done].
  - apply Hna. symmetry. apply (io_inj _ _ Hids _ _ aid); [| done]. unfold id_at. by destruct (Z.eqb_spec aid 0).
Qed.

Lemma deregister_ok k f p i : sound k -> ids_ok k f -> f p = Some i -> (forall r, r ∈ kpending k -> i ∉ kr_buffers r) ->
  let k' := deregister_buffer k i in sound k' /\ live k' = live k ∖ {[i]} /\ kpending k' = kpending k.
Proof.
  intros Hs Hids Hp Hu. unfold deregister_buffer, is_invalid.
  destruct (Z.eqb_spec i 0) as [-> |]; [by destruct (io_nonzero _ _ Hids p) |].
  apply law_deregister; [done | | done]. apply (io_live _ _ Hids). by exists p.
Qed.

Lemma deregister_list_ok (l : list (Place * Z)) k f : sound k -> ids_ok k f -> NoDup l.*1 ->
  (forall p i, (p, i) ∈ l -> f p = Some i /\ forall r, r ∈ kpending k -> i ∉ kr_buffers r) ->
  let k' := deregister_all k l.*2 in
  sound k' /\ kpending k' = kpending k /\ ids_ok k' (fun q => if decide (q ∈ l.*1) then None else f q).
Proof.
  revert k f. induction l as [| [p i] l IH]; intros k f Hs Hids Hnd Hl; cbn.
  - split_and!; [done .. |]. eapply ids_ext; [done | | exact Hids]. done.
  - apply NoDup_cons in Hnd as [Hp Hnd]. destruct (Hl p i) as [Hf Hu]; [by left |].
    destruct (deregister_ok k f p i Hs Hids Hf Hu) as (Hs' & Hl' & Hp').
    destruct (IH (deregister_buffer k i) (fun q => if decide (q = p) then None else f q)) as (A & B & C).
    + done.
    + by eapply ids_remove.
    + done.
    + intros q j Hq. rewrite Hp'. destruct (Hl q j) as [Hfq Huq]; [by right |]. split; [| done].
      rewrite decide_False; [done |]. intros ->. apply Hp, list_elem_of_fmap. by exists (p, j).
    + split_and!; [exact A | by rewrite <- Hp' |]. eapply ids_ext; [done | | exact C]. intros q. cbn.
      destruct (decide (q ∈ l.*1)) as [Hin | Hin], (decide (q = p)) as [-> | Hne].
      * done.
      * rewrite decide_True; [done | by right].
      * rewrite decide_True; [done | by left].
      * rewrite decide_False; [done |]. by intros [|]%elem_of_cons.
Qed.

(** *** Releasing leases *)

Lemma lease_release_ok k b aid L l : bufs_inv k b aid (l :: L) -> in_use_ok k aid L ->
  exists k' b', release_buffer_lease k b (Some l) = (k', b', Ok tt) /\ bufs_inv k' b' aid L /\ kpending k' = kpending k /\
    rb_generation b' = rb_generation b.
Proof.
  intros [Hs Hb Hids _] Hu. destruct (release_inner_ok _ _ _ Hb) as (b' & o & E & Hb' & [Hpe Hge] & Ho).
  destruct (bo_held _ _ Hb l ltac:(by left)) as [Hl [g Hg]].
  unfold release_buffer_lease. rewrite E. destruct o as [i |].
  - destruct Ho as (-> & HlL & Hids'). eexists _, _. split; [done |].
    pose proof (lease_reg_id b aid l g Hg) as Hpl.
    destruct (deregister_ok k (id_at b aid) (place_of b l) (lease_id l) Hs Hids Hpl) as (A & B & C).
    + intros r Hr Hi. destruct (Hu r _ Hr Hi) as [(l' & Hl' & He) | [He Hz]].
      * destruct (bo_held _ _ Hb l' ltac:(by right)) as [Hok [g' Hg']]. destruct HlL.
        rewrite <- (lease_unique b l l' g); [done | done | done | done | by eexists |].
        apply (io_inj _ _ Hids _ _ (lease_id l)); [| done]. rewrite <- He. by eapply lease_reg_id.
      * assert (Hpa : PAddr = place_of b l).
        { apply (io_inj _ _ Hids _ _ aid); [unfold id_at; by destruct (Z.eqb_spec aid 0) | by rewrite Hpl, He]. }
        destruct l; cbn in Hpa; [by destruct (is_current b _) | done].
    + split; [| done]. split; [done | done | eapply (ids_remove k); [done | exact Hpl | exact B | exact (Hids' aid)] | by apply (in_use_same k)].
  - eexists _, _. split; [done |]. split; [| done]. split; [done | done | eapply ids_ext; [done | exact (Ho aid) | done] | done].
Qed.

Lemma release_deferred_ok k b aid L l : bufs_inv k b aid (l :: L) -> in_use_ok k aid L ->
  exists b', release_buffer_lease_deferred b (Some l) = (b', Ok tt) /\ bufs_inv k b' aid L /\ rb_generation b' = rb_generation b.
Proof.
  intros [Hs Hb Hids _] Hu. destruct (release_inner_ok _ _ _ Hb) as (b' & o & E & Hb' & [Hpe Hge] & Ho).
  destruct (bo_held _ _ Hb l ltac:(by left)) as [Hl [g Hg]].
  unfold release_buffer_lease_deferred. rewrite E. destruct o as [i |].
  - destruct Ho as (-> & HlL & Hids'). eexists. split; [done |].
    pose proof (lease_reg_id b aid l g Hg) as Hpl.
    assert (Hnp : lease_id l ∉ rb_pending b).
    { intros Hin. assert (Hpd : PDeferred (lease_id l) = place_of b l).
      { apply (io_inj _ _ Hids _ _ (lease_id l)); [cbn; by rewrite decide_True | done]. }
      destruct l; cbn in Hpd; [by destruct (is_current b _) | done]. }
    split; [| exact Hge]. split; [done | | | done].
    + destruct Hb' as [H1 H2 H3 H4 H5 H6]. split; try done. cbn. rewrite Hpe. apply NoDup_app. split_and!; [by rewrite <- Hpe | | apply NoDup_singleton].
      intros j Hj ->%list_elem_of_singleton. done.
    + eapply (ids_move k (id_at b aid) _ (place_of b l) (PDeferred (lease_id l))); [done | cbn; by rewrite decide_False |].
      intros q. rewrite Hpl. specialize (Hids' aid q).
      destruct q as [| n | key | key | j |]; try exact Hids'.
      cbn [id_at set_pending rb_pending reg_at] in *. rewrite Hpe in *.
      destruct (decide (PDeferred j = PDeferred (lease_id l))) as [[= ->] | Hne].
      * rewrite decide_True by set_solver. done.
      * destruct (decide (j ∈ rb_pending b)) as [Hin | Hin].
        -- rewrite decide_True by set_solver. done.
        -- rewrite decide_False; [by destruct (decide _) |]. rewrite elem_of_app, list_elem_of_singleton. intros [| ->]; done.
  - eexists. split; [done |]. split; [| done]. split; [done | done | eapply ids_ext; [done | exact (Ho aid) | done] | done].
Qed.

(** *** Registering chunks *)

Definition same_tables b b' : Prop :=
  (forall n, mjoin (rb_chunks b' !! n) = mjoin (rb_chunks b !! n)) /\ rb_retired b' = rb_retired b /\ rb_heap b' = rb_heap b /\
  rb_pending b' = rb_pending b /\ rb_generation b' = rb_generation b.

Lemma same_tables_at b b' p : same_tables b b' -> reg_at b' p = reg_at b p.
Proof. intros (H1 & H2 & H3 & H4 & H5). destruct p; cbn; rewrite ?H1, ?H2, ?H3; done. Qed.
Lemma same_tables_id b b' aid p : same_tables b b' -> id_at b' aid p = id_at b aid p.
Proof. intros Hs. pose proof (same_tables_at b b' p Hs) as Hr. destruct Hs as (_ & _ & _ & H4 & _). destruct p; cbn [id_at]; rewrite ?Hr, ?H4; done. Qed.
Lemma same_tables_shape b b' : same_tables b b' -> same_shape b b'.
Proof. intros (H1 & _ & _ & H4 & H5). split; [| done]. intros n. by rewrite H1. Qed.
Lemma same_tables_lease b b' l : same_tables b b' -> lease_reg b' l = lease_reg b l.
Proof.
  intros Hs. unfold lease_reg. rewrite (same_shape_place b b') by by apply same_tables_shape. by rewrite (same_tables_at b b').
Qed.
Lemma same_tables_ok b b' L : same_tables b b' -> bufs_ok b L -> bufs_ok b' L.
Proof.
  intros Hs [H1 H2 H3 H4 H5 H6]. pose proof Hs as (S1 & S2 & S3 & S4 & S5). split; rewrite ?S4, ?S5; try done.
  - intros l Hl. rewrite (same_tables_lease b b') by done. by apply H1.
  - intros l g Hl. rewrite (same_tables_lease b b') by done. by apply H2.
  - intros key g. rewrite S2, (same_shape_current b b') by by apply same_tables_shape. apply H3.
  - intros n e. rewrite S1. apply H4.
Qed.
Lemma same_tables_inv k k' b b' aid L : same_tables b b' -> sound k' -> live k' = live k -> kpending k' = kpending k ->
  bufs_inv k b aid L -> bufs_inv k' b' aid L.
Proof.
  intros Hs Hk Hl Hp [H1 H2 H3 H4]. split; [done | by apply (same_tables_ok b) | | by apply (in_use_same k)].
  eapply ids_ext; [done | | exact H3]. intros p. by apply same_tables_id.
Qed.

Lemma grow_same b id : same_tables b (grow_chunks b id).
Proof.
  unfold grow_chunks. destruct (_ <=? _)%nat; [| done]. split; [| done]. intros n. cbn.
  destruct (decide (n < length (rb_chunks b))%nat) as [Hn | Hn]; [by rewrite lookup_app_l |].
  rewrite lookup_app_r, (lookup_ge_None_2 (rb_chunks b)) by lia.
  destruct (replicate _ None !! _) as [x |] eqn:Hx; [| done]. by apply lookup_replicate in Hx as [-> _].
Qed.

(** The registration of a chunk leaves its place. *)
Definition leave_chunk b (n : nat) (key : RioChunkRegistrationKey) (g : RioBufferRegistration) : RioBuffers :=
  let b := set_chunks b (<[n := None]> (rb_chunks b)) in
  if bg_refs g =? 0 then b else set_retired b (<[key := retire g]> (rb_retired b)).

Section leave.
Context (b : RioBuffers) (L : list RioBufferLeaseToken) (id : Z) (e : RioChunkRegistration).
Hypotheses (Hb : bufs_ok b L) (Hid : 0 <= id) (He : mjoin (rb_chunks b !! Z.to_nat id) = Some e).
Let n := Z.to_nat id.
Let key := mkChunkKey id (cg_generation e).
Let g := cg_registration e.
Let b' := leave_chunk b n key g.

Local Lemma leave_chunks m : mjoin (rb_chunks b' !! m) = if decide (m = n) then None else mjoin (rb_chunks b !! m).
Proof.
  assert (E : rb_chunks b' = <[n := None]> (rb_chunks b)) by (unfold b', leave_chunk; by destruct (_ =? _)). rewrite E.
  destruct (decide _) as [-> |]; [| by rewrite list_lookup_insert_ne].
  unfold n in *. destruct (rb_chunks b !! Z.to_nat id) eqn:Hl; [| done]. by rewrite list_lookup_insert_eq by by eapply lookup_lt_Some.
Qed.
Local Lemma leave_current key' : 0 <= ck_id key' -> is_current b' key' = if decide (key' = key) then false else is_current b key'.
Proof.
  intros Hk. unfold is_current, chunk_at. rewrite leave_chunks. destruct (decide (_ = n)) as [Hn | Hn].
  - rewrite Hn. unfold n. rewrite He. destruct (decide _) as [-> | Hne]; [done |].
    symmetry. apply Z.eqb_neq. intros Hg. apply Hne. destruct key' as [i' g']. unfold n in Hn. cbn in *.
    unfold key. f_equal; [lia | done].
  - destruct (decide _) as [-> |]; [| done]. destruct Hn. done.
Qed.
Local Lemma leave_key : rb_retired b !! key = None.
Proof.
  destruct (rb_retired b !! key) as [y |] eqn:Hy; [| done]. destruct (bo_retired _ _ Hb _ _ Hy) as (_ & _ & Hc & _).
  unfold is_current, chunk_at in Hc. cbn in Hc. rewrite He in Hc. by rewrite Z.eqb_refl in Hc.
Qed.
Local Lemma leave_retired key' : rb_retired b' !! key' =
  if decide (key' = key) then (if bg_refs g =? 0 then None else Some (retire g)) else rb_retired b !! key'.
Proof.
  unfold b', leave_chunk. destruct (bg_refs g =? 0); cbn.
  - destruct (decide _) as [-> |]; [apply leave_key | done].
  - destruct (decide _) as [-> |]; [by rewrite lookup_insert_eq | by rewrite lookup_insert_ne].
Qed.
Local Lemma leave_key_place : place_of b (ChunkLease (mkChunkLease key (bg_id g))) = PChunk n.
Proof. unfold place_of, is_current, chunk_at. cbn. by rewrite He, Z.eqb_refl. Qed.
Local Lemma leave_others : rb_heap b' = rb_heap b /\ rb_pending b' = rb_pending b /\ rb_generation b' = rb_generation b.
Proof. unfold b', leave_chunk. by destruct (_ =? _). Qed.

(** What a lease names afterwards. *)
Lemma leave_lease l : lease_ok l -> lease_reg b' l =
  if decide (place_of b l = PChunk n) then (if bg_refs g =? 0 then None else retire <$> lease_reg b l) else lease_reg b l.
Proof.
  intros Hl. destruct leave_others as (Hh & _). destruct l as [l | l]; [| by unfold lease_reg; cbn; rewrite Hh].
  unfold lease_reg, place_of. rewrite (leave_current (cl_key l)) by done.
  destruct (decide (cl_key l = key)) as [Hk | Hk].
  - assert (Hc : is_current b (cl_key l) = true) by (rewrite Hk; unfold is_current, chunk_at; cbn; by rewrite He, Z.eqb_refl).
    rewrite Hc, decide_True by by rewrite Hk. cbn. rewrite leave_retired, decide_True by done.
    replace (Z.to_nat (ck_id (cl_key l))) with n by by rewrite Hk.
    unfold n. rewrite He. cbn. fold g. destruct (bg_refs g =? 0); [done |]. cbn. by destruct (_ =? _).
  - destruct (is_current b (cl_key l)) eqn:Hc.
    + assert (Hne : Z.to_nat (ck_id (cl_key l)) <> n).
      { intros Hn. apply Hk. unfold is_current, chunk_at in Hc. rewrite Hn in Hc. unfold n in Hc. rewrite He in Hc. apply Z.eqb_eq in Hc.
        destruct l as [[i' g'] j]. unfold n in Hn. cbn in *. unfold key. f_equal; [lia | done]. }
      rewrite decide_False by congruence. cbn. by rewrite leave_chunks, decide_False.
    + rewrite decide_False by done. cbn. by rewrite leave_retired, decide_False.
Qed.

Lemma leave_unleased : bg_refs g = 0 -> forall l, l ∈ L -> place_of b l <> PChunk n.
Proof.
  intros Hz l Hl Hp. destruct (bo_held _ _ Hb l Hl) as [Hok [y Hy]]. pose proof (bo_refs _ _ Hb l y Hok Hy) as Hr.
  destruct (lease_reg_at _ _ _ Hy) as [Hat _]. rewrite Hp in Hat. cbn in Hat. unfold n in Hat. rewrite He in Hat. injection Hat as <-.
  fold g in Hr. rewrite Hz in Hr. symmetry in Hr. by apply leases_of_none in Hr.
Qed.

Lemma leave_bufs_ok : bufs_ok b' L.
Proof.
  destruct leave_others as (Hh & Hpe & Hge). split; rewrite ?Hpe, ?Hge; try apply Hb.
  - intros l Hl. destruct (bo_held _ _ Hb l Hl) as [Hok [y Hy]]. split; [done |]. rewrite leave_lease, Hy by done.
    destruct (decide _) as [Hp |]; [| by eexists]. destruct (Z.eqb_spec (bg_refs g) 0) as [Hz |]; [| by eexists].
    by destruct (leave_unleased Hz l Hl).
  - intros l y Hl. rewrite leave_lease by done. destruct (decide _) as [Hp |]; [| by apply (bo_refs _ _ Hb)].
    destruct (_ =? _); [done |]. destruct (lease_reg b l) as [y' |] eqn:Hy'; [| done]. intros [= <-]. cbn. by apply (bo_refs _ _ Hb).
  - intros key' y. rewrite leave_retired. destruct (decide _) as [-> | Hne].
    + destruct (Z.eqb_spec (bg_refs g) 0) as [| Hnz]; [done |]. intros [= <-].
      split_and!; [done | apply (bo_chunks _ _ Hb _ _ He) | by rewrite leave_current, decide_True | done | done].
    + intros Hy. destruct (bo_retired _ _ Hb _ _ Hy) as (A & B & C & D & E). split_and!; try done.
      by rewrite leave_current, decide_False.
  - intros m e'. rewrite leave_chunks. destruct (decide _); [done |]. apply (bo_chunks _ _ Hb).
Qed.

Lemma leave_ids aid q : id_at b' aid q =
  if decide (q = PRetired key) then (if bg_refs g =? 0 then None else id_at b aid (PChunk n))
  else if decide (q = PChunk n) then None else id_at b aid q.
Proof.
  destruct leave_others as (Hh & Hpe & _). destruct q as [| m | key' | key' | i |]; cbn [id_at reg_at]; rewrite ?Hh, ?Hpe; try done.
  - rewrite decide_False, leave_chunks by done. destruct (decide (m = n)) as [-> | Hne]; [by rewrite decide_True | by rewrite decide_False by congruence].
  - rewrite leave_retired. destruct (decide (key' = key)) as [-> | Hne].
    + rewrite decide_True by done. unfold n. rewrite He. cbn. fold g. by destruct (_ =? _).
    + by rewrite decide_False, decide_False by congruence.
Qed.
End leave.

(** A new registration at a place without one. *)
Section enter.
Context (b : RioBuffers) (L : list RioBufferLeaseToken) (n : nat) (gen i : Z).
Hypotheses (Hb : bufs_ok b L) (Hn : mjoin (rb_chunks b !! n) = None) (Hlt : (n < length (rb_chunks b))%nat) (Hg : rb_generation b < gen).
Let b' := set_chunks (set_generation b gen) (<[n := Some (mkChunkReg gen (buf_reg_new i))]> (rb_chunks b)).

Local Lemma enter_chunks m : mjoin (rb_chunks b' !! m) = if decide (m = n) then Some (mkChunkReg gen (buf_reg_new i)) else mjoin (rb_chunks b !! m).
Proof. cbn. destruct (decide _) as [-> |]; [by rewrite list_lookup_insert_eq | by rewrite list_lookup_insert_ne]. Qed.
Local Lemma enter_current key : is_current b' key = if decide (Z.to_nat (ck_id key) = n /\ ck_generation key = gen) then true else is_current b key.
Proof.
  unfold is_current, chunk_at. rewrite enter_chunks. destruct (decide (_ = n)) as [-> | Hne].
  - rewrite Hn. cbn. destruct (decide _) as [[_ ->] | Hd]; [apply Z.eqb_refl |]. apply Z.eqb_neq. intros ->. by destruct Hd.
  - rewrite decide_False; [done | by intros [? _]].
Qed.
(** The leases of before name what they named. *)
Local Lemma enter_lease_old l : is_Some (lease_reg b l) -> lease_reg b' l = lease_reg b l /\ place_of b' l = place_of b l.
Proof.
  intros [y Hy]. destruct l as [l | l]; [| done]. destruct (lease_reg_at _ _ _ Hy) as [Hat _].
  assert (Hle : ck_generation (cl_key l) <= rb_generation b).
  { unfold place_of in Hat. destruct (is_current b (cl_key l)) eqn:Hc; cbn in Hat.
    - unfold is_current, chunk_at in Hc. destruct (mjoin (rb_chunks b !! Z.to_nat (ck_id (cl_key l)))) as [e |] eqn:He; [| done]. apply Z.eqb_eq in Hc. rewrite <- Hc. by destruct (bo_chunks _ _ Hb _ _ He).
    - by destruct (bo_retired _ _ Hb _ _ Hat) as (_ & ? & _). }
  assert (Hp : place_of b' (ChunkLease l) = place_of b (ChunkLease l)).
  { unfold place_of. rewrite enter_current, decide_False; [done |]. intros [_ ?]. lia. }
  split; [| done]. unfold lease_reg. rewrite Hp. unfold place_of in *. destruct (is_current b (cl_key l)); [| done].
  cbn. rewrite enter_chunks, decide_False; [done |]. intros Hm. cbn in Hat. by rewrite Hm, Hn in Hat.
Qed.
Local Lemma enter_lease_new l y : lease_reg b' l = Some y -> lease_reg b l = Some y \/ (y = buf_reg_new i /\ ~ is_Some (lease_reg b l)).
Proof.
  intros Hy. destruct (lease_reg b l) as [y' |] eqn:Hy'.
  - left. destruct (enter_lease_old l) as [E _]; [by eexists |]. congruence.
  - right. split; [| by intros [? ?]]. destruct l as [l | l]; [| change (lease_reg b (HeapLease l) = Some y) in Hy; congruence]. destruct (lease_reg_at _ _ _ Hy) as [Hat _].
    unfold lease_reg, place_of in *. rewrite enter_current in *. destruct (decide _) as [[Hz _] |].
    + cbn in Hat. by rewrite Hz, list_lookup_insert_eq in Hat by done; injection Hat as <-.
    + exfalso. destruct (is_current b (cl_key l)) eqn:Hc; [| cbn in *; congruence].
      cbn [reg_at] in *. rewrite enter_chunks in Hat, Hy. destruct (decide _) as [Hz |]; [| congruence].
      unfold is_current, chunk_at in Hc. by rewrite Hz, Hn in Hc.
Qed.

Lemma enter_ok : bufs_ok b' L.
Proof.
  pose proof (bo_generation _ _ Hb). split; try apply Hb; cbn [b' set_chunks set_generation rb_retired rb_generation]; [| | | | lia].
  - intros l Hl. destruct (bo_held _ _ Hb l Hl) as [Hok Hr]. split; [done |]. by destruct (enter_lease_old l Hr) as [-> _].
  - intros l y Hl Hy. apply enter_lease_new in Hy as [Hy | [-> Hno]]; [by apply (bo_refs _ _ Hb) |].
    cbn. symmetry. apply leases_of_none. intros Hin. apply Hno. by apply (bo_held _ _ Hb).
  - intros key y Hy. destruct (bo_retired _ _ Hb _ _ Hy) as (A & B & C & D & E). split_and!; try done; [lia |].
    change (is_current b' key = false). rewrite enter_current, decide_False; [done |]. intros [_ ?]. lia.
  - intros m e He. change (mjoin (rb_chunks b' !! m) = Some e) in He. rewrite enter_chunks in He.
    destruct (decide _) as [-> |]; [injection He as <-; split; [cbn; lia | done] |].
    destruct (bo_chunks _ _ Hb _ _ He). split; [lia | done].
Qed.

Lemma enter_ids aid q : id_at b' aid q = if decide (q = PChunk n) then Some i else id_at b aid q.
Proof.
  destruct q as [| m | key' | key' | j |]; cbn [id_at reg_at]; try by rewrite (decide_False (P := _ = PChunk n)).
  rewrite enter_chunks. destruct (decide (m = n)) as [-> | Hne]; [by rewrite decide_True | by rewrite decide_False by congruence].
Qed.
End enter.

Lemma register_law k ptr len : sound k ->
  match register_buffer k ptr len with
  | (k', Ok i) => sound k' /\ kpending k' = kpending k /\ i <> 0 /\ i ∉ live k /\ live k' = {[i]} ∪ live k
  | (k', Err _) => sound k' /\ kpending k' = kpending k /\ live k' = live k
  end.
Proof.
  intros Hs. pose proof (law_register k ptr len Hs) as Hl. unfold register_buffer, non_zero.
  destruct (fn_register_buffer k ptr len) as [k' i]. cbn. destruct Hl as (A & B & C). by destruct (Z.eqb_spec i 0); split_and!; try apply C.
Qed.

Lemma next_generation_ok b : 0 <= rb_generation b < U64_MAX ->
  next_registration_generation b = (set_generation b (rb_generation b + 1), rb_generation b + 1).
Proof.
  intros Hg. unfold next_registration_generation, wrapping_add, U64_MAX in *. rewrite wrap_small by (unfold U64; lia).
  by destruct (Z.eqb_spec (rb_generation b + 1) 0); [lia |].
Qed.

(** The tables when a registration left and another one entered. *)
Lemma replaced_tables b n key g i gen b2 : let b1 := leave_chunk b n key g in (n < length (rb_chunks b1))%nat ->
  rb_chunks b2 = <[n := Some (mkChunkReg gen (buf_reg_new i))]> (rb_chunks b) -> rb_retired b2 = rb_retired b1 ->
  rb_heap b2 = rb_heap b -> rb_pending b2 = rb_pending b -> rb_generation b2 = gen ->
  same_tables (set_chunks (set_generation b1 gen) (<[n := Some (mkChunkReg gen (buf_reg_new i))]> (rb_chunks b1))) b2 /\
  is_Some (mjoin (rb_chunks b2 !! n)).
Proof.
  intros b1 Hlt E1 E2 E3 E4 E5. assert (E : rb_chunks b1 = <[n := None]> (rb_chunks b) /\ rb_heap b1 = rb_heap b /\ rb_pending b1 = rb_pending b)
    by (unfold b1, leave_chunk; by destruct (_ =? _)). destruct E as (E & Hh & Hpe). split.
  - split_and!; [| done | by rewrite E3, <- Hh | by rewrite E4, <- Hpe | done]. intros m. rewrite E1. cbn. by rewrite E, list_insert_insert_eq.
  - rewrite E1, list_lookup_insert_eq; [by eexists |]. by rewrite E, length_insert in Hlt.
Qed.

(** A new registration takes the place of the one before, which is deregistered
    unless it is leased. *)
Lemma replace_chunk_ok k k1 b aid L id e i gen : bufs_inv k b aid L -> 0 <= id -> mjoin (rb_chunks b !! Z.to_nat id) = Some e ->
  sound k1 -> kpending k1 = kpending k -> i <> 0 -> i ∉ live k -> live k1 = {[i]} ∪ live k -> rb_generation b < gen ->
  let n := Z.to_nat id in
  let '(k2, b2) := retire_chunk_registration k1 (set_chunks (set_generation b gen) (<[n := Some (mkChunkReg gen (buf_reg_new i))]> (rb_chunks b)))
                     (mkChunkKey id (cg_generation e)) (cg_registration e) in
  bufs_inv k2 b2 aid L /\ kpending k2 = kpending k /\ rb_generation b2 = gen /\ is_Some (mjoin (rb_chunks b2 !! n)).
Proof.
  intros [Hs Hb Hids Hu] Hid He Hs1 Hp1 Hi Hni Hl1 Hg n.
  set (key := mkChunkKey id (cg_generation e)). set (g := cg_registration e). set (b1 := leave_chunk b n key g).
  assert (Hlt : (n < length (rb_chunks b1))%nat).
  { destruct (rb_chunks b !! Z.to_nat id) eqn:Hl; [| done]. apply lookup_lt_Some in Hl. unfold b1, leave_chunk.
    by destruct (_ =? _); cbn; rewrite length_insert. }
  pose proof (leave_bufs_ok b L id e Hb Hid He) as Hb1.
  assert (Hn1 : mjoin (rb_chunks b1 !! n) = None) by (pose proof (leave_chunks b id e He n) as Hc; by rewrite decide_True in Hc).
  assert (Hg1 : rb_generation b1 < gen) by (destruct (leave_others b id e) as (_ & _ & E); unfold b1, n, key, g; lia).
  pose proof (enter_ok b1 L n gen i Hb1 Hn1 Hlt Hg1) as Hb2.
  pose proof (enter_ids b1 n gen i Hlt aid) as Hf2. 
  assert (Hf1 : forall q, id_at b1 aid q = if decide (q = PRetired key) then (if bg_refs g =? 0 then None else id_at b aid (PChunk n))
    else if decide (q = PChunk n) then None else id_at b aid q) by exact (leave_ids b L id e Hb He aid).
  set (f := id_at b aid) in *.
  set (b2' := set_chunks (set_generation b1 gen) _) in *.
  assert (Hadd : ids_ok k1 (fun q => if decide (q = PNew) then Some i else f q)) by by apply (ids_add k k1 f _ PNew i).
  unfold retire_chunk_registration. fold g key.
  assert (Hsame : forall b2, rb_chunks b2 = <[n := Some (mkChunkReg gen (buf_reg_new i))]> (rb_chunks b) -> rb_retired b2 = rb_retired b1 ->
    rb_heap b2 = rb_heap b -> rb_pending b2 = rb_pending b -> rb_generation b2 = gen -> same_tables b2' b2 /\ is_Some (mjoin (rb_chunks b2 !! n)))
    by (intros b2; by apply replaced_tables).
  destruct (Z.eqb_spec (bg_refs g) 0) as [Hz | Hz].
  - destruct (Hsame (set_chunks (set_generation b gen) (<[n := Some (mkChunkReg gen (buf_reg_new i))]> (rb_chunks b)))) as [Hst Hsome];
      [done | unfold b1, leave_chunk; by rewrite Hz | done .. |].
    assert (Hfn : f (PChunk n) = Some (bg_id g)) by (unfold f, n; cbn; by rewrite He).
    destruct (deregister_ok k1 _ (PChunk n) (bg_id g) Hs1 Hadd Hfn) as (A & B & C).
    { rewrite Hp1. apply (place_unused k b aid L (PChunk n)); try done. by apply (leave_unleased b L id e). }
    split; [| split; [by rewrite C |]; done]. apply (same_tables_inv _ _ b2' _ _ _ Hst A eq_refl eq_refl).
    split; [done | done | | apply (in_use_same k); [by rewrite C | done]].
    eapply (ids_move _ (fun q => if decide (q = PChunk n) then None else if decide (q = PNew) then Some i else f q) _ PNew (PChunk n)).
    + by apply (ids_remove k1 _ (fun q => if decide (q = PNew) then Some i else f q) _ (PChunk n) (bg_id g)).
    + by rewrite decide_True.
    + intros q. rewrite Hf2, (Hf1 q).
      destruct (decide (q = PChunk n)) as [-> |]; [done |]. destruct (decide (q = PNew)) as [-> |]; [done |].
      destruct (decide (q = PRetired key)) as [-> |]; [| done]. unfold f. cbn. exact (eq_sym (f_equal (fmap bg_id) (leave_key b L id e Hb He))).
  - destruct (Hsame (set_retired (set_chunks (set_generation b gen) (<[n := Some (mkChunkReg gen (buf_reg_new i))]> (rb_chunks b))) (<[key := retire g]> (rb_retired b))))
      as [Hst Hsome]; [done | unfold b1, leave_chunk; by destruct (Z.eqb_spec (bg_refs g) 0) | done .. |].
    split; [| done]. apply (same_tables_inv _ _ b2' _ _ _ Hst Hs1 eq_refl eq_refl).
    split; [done | done | | by apply (in_use_same k)].
    eapply (ids_move _ (fun q => if decide (q = PRetired key) then f (PChunk n) else if decide (q = PChunk n) then None else if decide (q = PNew) then Some i else f q) _ PNew (PChunk n)).
    + apply (ids_move k1 (fun q => if decide (q = PNew) then Some i else f q) _ (PChunk n) (PRetired key)); [exact Hadd | | done].
      unfold f. cbn. exact (f_equal (fmap bg_id) (leave_key b L id e Hb He)).
    + cbn beta. rewrite decide_False by done. by rewrite decide_True.
    + intros q. rewrite Hf2, (Hf1 q).
      destruct (decide (q = PChunk n)) as [-> |]; [done |]. destruct (decide (q = PNew)) as [-> |]; [done |]. done.
Qed.

Lemma rio_register_chunk_ok k b aid L id mem : bufs_inv k b aid L -> 0 <= id -> rb_generation b < U64_MAX ->
  let '(k', b', r) := register_chunk k b id mem in
  bufs_inv k' b' aid L /\ kpending k' = kpending k /\ rb_generation b' <= rb_generation b + 1 /\
  (r = Ok tt -> is_Some (chunk_at b' id)).
Proof.
  intros Hi Hid Hgen. unfold register_chunk. destruct (failed_recently _ _).
  { split_and!; [apply (same_tables_inv k k b); (done || apply Hi) | done | cbn; lia | done]. }
  destruct mem as [ptr len]. set (b0 := bump (grow_chunks b id) ChunkAttempts).
  assert (Hs0 : same_tables b b0) by apply grow_same. assert (Hg0 : rb_generation b0 = rb_generation b) by by destruct Hs0 as (_ & _ & _ & _ & ?).
  assert (Hi0 : bufs_inv k b0 aid L) by (apply (same_tables_inv k k b); (done || apply Hi)).
  pose proof (register_law k ptr (wrap U32 len) (bi_sound _ _ _ _ Hi)) as Hr.
  pose proof (bo_generation _ _ (bi_bufs _ _ _ _ Hi)).
  assert (Hlt : (Z.to_nat id < length (rb_chunks b0))%nat).
  { unfold b0, grow_chunks. cbn. destruct (Nat.leb_spec (length (rb_chunks b)) (Z.to_nat id)); cbn; [|lia]. rewrite length_app, length_replicate. lia. }
  clearbody b0.
  destruct (register_buffer k ptr _) as [k1 [i | er]].
  - destruct Hr as (A & B & Hi1 & Hi2 & C). rewrite next_generation_ok by lia.
    unfold chunk_at at 1. cbn [rb_chunks set_generation]. destruct (mjoin (rb_chunks b0 !! Z.to_nat id)) as [e |] eqn:He.
    + pose proof (replace_chunk_ok k k1 b0 aid L id e i (rb_generation b0 + 1) Hi0 Hid He A B Hi1 Hi2 C ltac:(lia)) as Hrep. cbn zeta in Hrep.
      destruct (retire_chunk_registration _ _ _ _) as [k2 b2]. destruct Hrep as (I1 & I2 & I3 & I4).
      split_and!; [apply (same_tables_inv k2 k2 b2); (done || apply I1) | done | cbn; lia | done].
    + destruct Hi0 as [Hs Hb Hids Hu]. split_and!; [| done | cbn; lia |].
      * eapply (same_tables_inv k1 k1); [| exact A | done | done |].
        2: { split; [exact A | apply (enter_ok b0 L (Z.to_nat id) (rb_generation b0 + 1) i); (done || lia) | | by apply (in_use_same k)].
             eapply (ids_add k k1 (id_at b0 aid) _ (PChunk (Z.to_nat id)) i); try done; [by cbn; rewrite He |]. by apply enter_ids. }
        done.
      * intros _. unfold chunk_at. cbn. rewrite list_lookup_insert_eq by done. by eexists.
  - destruct Hr as (A & B & C). split_and!; [apply (same_tables_inv k k1 b0); done | done | cbn; lia | done].
Qed.

(** *** Heap buffers *)

(** The entries of the cache that nobody uses go, and the others are retired. *)
Definition busy_heap b : RioBuffers := set_heap b (retire <$> filter (fun e => is_idle_entry e = false) (rb_heap b)).

Lemma busy_heap_lookup b key : rb_heap (busy_heap b) !! key =
  match rb_heap b !! key with Some g => if bg_refs g =? 0 then None else Some (retire g) | None => None end.
Proof.
  cbn. rewrite lookup_fmap, map_lookup_filter. destruct (rb_heap b !! key) as [g |]; [| done]. cbn.
  unfold guard, is_idle_entry. cbn. by destruct (bg_refs g =? 0).
Qed.

Lemma set_heap_lease b h l : lease_reg (set_heap b h) (ChunkLease l) = lease_reg b (ChunkLease l).
Proof. unfold lease_reg, place_of, is_current, chunk_at. cbn. by destruct (match mjoin _ with Some _ => _ | None => _ end). Qed.

Lemma busy_heap_lease b l : lease_reg (busy_heap b) l =
  match l with
  | ChunkLease _ => lease_reg b l
  | HeapLease _ => match lease_reg b l with Some g => if bg_refs g =? 0 then None else Some (retire g) | None => None end
  end.
Proof.
  destruct l as [l | l]; [apply set_heap_lease |]. unfold lease_reg. cbn [place_of reg_at]. rewrite busy_heap_lookup.
  destruct (rb_heap b !! hl_key l) as [g |]; [| done]. cbn [lease_id].
  destruct (bg_refs g =? 0) eqn:Hz; cbn [retire bg_id]; destruct (bg_id g =? hl_id l); by rewrite ?Hz.
Qed.

Lemma busy_heap_ok b L : bufs_ok b L -> bufs_ok (busy_heap b) L.
Proof.
  intros [H1 H2 H3 H4 H5 H6]. split; try done.
  - intros l Hl. destruct (H1 l Hl) as [Hok [g Hg]]. split; [done |]. rewrite busy_heap_lease. destruct l as [l | l]; [by eexists |].
    rewrite Hg. destruct (Z.eqb_spec (bg_refs g) 0) as [Hz |]; [| by eexists].
    rewrite (H2 _ g Hok Hg) in Hz. by apply leases_of_none in Hz.
  - intros l g Hl. rewrite busy_heap_lease. destruct l as [l | l]; [by apply H2 |].
    destruct (lease_reg b (HeapLease l)) as [g' |] eqn:Hg; [| done]. destruct (_ =? _); [done |]. intros [= <-]. exact (H2 (HeapLease l) g' Hl Hg).
Qed.

Lemma heap_place_unleased b L key g : bufs_ok b L -> rb_heap b !! key = Some g -> bg_refs g = 0 -> forall l, l ∈ L -> place_of b l <> PHeap key.
Proof.
  intros Hb Hk Hz l Hl Hp. destruct (bo_held _ _ Hb l Hl) as [Hok [y Hy]]. pose proof (bo_refs _ _ Hb l y Hok Hy) as Hr.
  destruct (lease_reg_at _ _ _ Hy) as [Hat _]. rewrite Hp in Hat. cbn in Hat. rewrite Hk in Hat. injection Hat as <-.
  rewrite Hz in Hr. symmetry in Hr. by apply leases_of_none in Hr.
Qed.

Lemma retire_heap_ok k b aid L : bufs_inv k b aid L ->
  let '(k', b') := retire_heap_cache_for_insert k b in
  bufs_inv k' b' aid L /\ kpending k' = kpending k /\ rb_generation b' = rb_generation b /\
  (forall key, rb_heap b !! key = None -> rb_heap b' !! key = None) /\
  forall l g, lease_reg b (ChunkLease l) = Some g -> lease_reg b' (ChunkLease l) = Some g.
Proof.
  intros [Hs Hb Hids Hu]. unfold retire_heap_cache_for_insert. destruct (_ <? _)%nat; [done |].
  set (idle := filter is_idle_entry (map_to_list (rb_heap b))).
  set (l := (fun e : RioHeapBufferKey * RioBufferRegistration => (PHeap e.1, bg_id e.2)) <$> idle).
  assert (El1 : l.*1 = PHeap <$> idle.*1) by (unfold l; by rewrite <- !list_fmap_compose).
  replace (map (fun e => bg_id e.2) idle) with l.*2 by (unfold l; clear; induction idle as [| y q IH]; [done | cbn in *; by rewrite IH]).
  assert (Hidle : forall key g, (key, g) ∈ idle <-> rb_heap b !! key = Some g /\ bg_refs g = 0).
  { intros key g. unfold idle. rewrite list_elem_of_filter, elem_of_map_to_list. unfold is_idle_entry. cbn.
    rewrite Is_true_true, Z.eqb_eq. tauto. }
  destruct (deregister_list_ok l k (id_at b aid)) as (A & B & C).
  - done.
  - done.
  - rewrite El1. apply NoDup_fmap_2; [by intros ?? [= ->] |]. apply NoDup_fmap_fst.
    + intros key g g' Hg Hg'. apply Hidle in Hg as [Hg _], Hg' as [Hg' _]. congruence.
    + apply NoDup_filter, NoDup_map_to_list.
  - intros p i Hp. apply list_elem_of_fmap in Hp as ([key g] & [= -> ->] & Hin).
    apply Hidle in Hin as [Hk Hz]. assert (Hat : id_at b aid (PHeap key) = Some (bg_id g)) by (cbn; by rewrite Hk).
    split; [done |]. apply (place_unused k b aid L (PHeap key)); try done. by apply (heap_place_unleased b L key g).
  - change (set_heap b _) with (busy_heap b). split_and!; try done.
    + split; [done | by apply busy_heap_ok | | by apply (in_use_same k)]. eapply ids_ext; [done | | exact C].
      intros q. cbn beta. rewrite El1. destruct q as [| n | key | key | i |];
        try (rewrite decide_False; [done | intros (? & ? & ?)%list_elem_of_fmap; done]).
      cbn [id_at reg_at]. rewrite busy_heap_lookup. destruct (decide _) as [Hin | Hin].
      * apply list_elem_of_fmap in Hin as (? & [= <-] & Hin). apply list_elem_of_fmap in Hin as ([key' g] & -> & Hin).
        apply Hidle in Hin as [Hk Hz]. cbn [fst]. by rewrite Hk, Hz.
      * destruct (rb_heap b !! key) as [g |] eqn:Hk; [| done]. destruct (Z.eqb_spec (bg_refs g) 0) as [Hz |]; [| done].
        destruct Hin. apply list_elem_of_fmap. exists key. split; [done |]. apply list_elem_of_fmap. exists (key, g). split; [done |].
        by apply Hidle.
    + intros key Hk. by rewrite busy_heap_lookup, Hk.
    + intros l' g. by rewrite busy_heap_lease.
Qed.

Lemma enter_heap_ok b L key i : bufs_ok b L -> rb_heap b !! key = None ->
  bufs_ok (set_heap b (<[key := buf_reg_new i]> (rb_heap b))) L.
Proof.
  intros Hb Hk. set (b' := set_heap _ _).
  assert (Hold : forall l, is_Some (lease_reg b l) -> lease_reg b' l = lease_reg b l).
  { intros [l | l] [y Hy]; [apply set_heap_lease |]. unfold lease_reg in *. cbn in *. destruct (decide (hl_key l = key)) as [He |].
    - by rewrite He, Hk in Hy.
    - by rewrite lookup_insert_ne. }
  split; try apply Hb.
  - intros l Hl. destruct (bo_held _ _ Hb l Hl) as [Hok Hr]. split; [done |]. by rewrite Hold.
  - intros l y Hl Hy. destruct (lease_reg b l) as [y' |] eqn:Hy'.
    + rewrite Hold, Hy' in Hy by by eexists. injection Hy as <-. by apply (bo_refs _ _ Hb).
    + assert (Hno : l ∉ L) by (intros Hin; destruct (bo_held _ _ Hb l Hin) as [_ [? ?]]; congruence).
      apply leases_of_none in Hno. rewrite Hno. destruct l as [l | l]; [unfold b' in Hy; rewrite set_heap_lease in Hy; congruence |].
      unfold lease_reg in *. cbn in *. destruct (decide (key = hl_key l)) as [He | Hne].
      * rewrite <- He, lookup_insert_eq in Hy. cbn in Hy. destruct (_ =? _); [| done]. by injection Hy as <-.
      * rewrite lookup_insert_ne in Hy by done. congruence.
Qed.

Lemma register_heap_ok k b aid L buf key : bufs_inv k b aid L -> rb_heap b !! key = None ->
  let '(k', b', r) := register_heap_raw k b buf key in
  bufs_inv k' b' aid L /\ kpending k' = kpending k /\ rb_generation b' = rb_generation b /\
  forall i, r = Ok i -> rb_heap b' !! key = Some (buf_reg_new i).
Proof.
  intros Hi Hk. unfold register_heap_raw. pose proof (register_law k (fb_ptr buf) (wrap U32 (buf_capacity buf)) (bi_sound _ _ _ _ Hi)) as Hr.
  destruct (register_buffer k _ _) as [k1 [i | er]].
  - destruct Hr as (A & B & Hi1 & Hi2 & C). destruct Hi as [Hs Hb Hids Hu]. split_and!; [| done | done |].
    + apply (same_tables_inv k1 k1 (set_heap b (<[key := buf_reg_new i]> (rb_heap b)))); [done | exact A | done | done |].
      split; [done | by apply enter_heap_ok | | by apply (in_use_same k)].
      eapply (ids_add k k1 (id_at b aid) _ (PHeap key) i); try done; [by cbn; rewrite Hk |].
      intros [| n | key' | key' | j |]; cbn [id_at reg_at set_heap rb_chunks rb_retired rb_heap rb_pending]; try by rewrite (decide_False (P := _ = PHeap key)).
      destruct (decide (key' = key)) as [-> | Hne]; [by rewrite lookup_insert_eq, decide_True |].
      by rewrite lookup_insert_ne, decide_False by congruence.
    + intros j [= <-]. apply lookup_insert_eq.
  - destruct Hr as (A & B & C). split_and!; [apply (same_tables_inv k k1 b); done | done | done | done].
Qed.

(** What a resolved buffer is leased by. *)
Definition resolved_ok b (i : Z) (lease : option RioBufferLeaseToken) : Prop :=
  exists l g, lease = Some l /\ lease_ok l /\ lease_reg b l = Some g /\ lease_id l = i.

Lemma heap_resolved b key g : rb_heap b !! key = Some g -> resolved_ok b (bg_id g) (Some (HeapLease (mkHeapLease key (bg_id g)))).
Proof. intros Hk. eexists _, g. split_and!; try done. unfold lease_reg. cbn. by rewrite Hk, Z.eqb_refl. Qed.

Lemma chunk_resolved b id l : 0 <= id -> current_chunk_lease b id = Some l -> resolved_ok b (cl_id l) (Some (ChunkLease l)).
Proof.
  unfold current_chunk_lease. intros Hid. destruct (chunk_at b id) as [e |] eqn:He; [| done]. intros [= <-].
  exists (ChunkLease (mkChunkLease (mkChunkKey id (cg_generation e)) (bg_id (cg_registration e)))), (cg_registration e).
  split_and!; [done | done | | done]. unfold lease_reg, place_of, is_current. cbn. rewrite He, Z.eqb_refl. cbn.
  unfold chunk_at in He. rewrite He. cbn. by rewrite Z.eqb_refl.
Qed.

Definition env_ok (env : RioEnv) (buf : FixedBuf) : Prop := 0 <= ri_id (en_region env buf).

Lemma resolve_heap_ok k b aid L buf off env : bufs_inv k b aid L ->
  let '(k', b', r) := resolve_heap_id k b buf off env in
  bufs_inv k' b' aid L /\ kpending k' = kpending k /\ rb_generation b' = rb_generation b /\
  forall i o lease, r = Ok (i, o, lease) -> resolved_ok b' i lease.
Proof.
  intros Hi. unfold resolve_heap_id. destruct (rb_heap b !! heap_key env buf) as [g |] eqn:Hk.
  { split_and!; try done. intros i o lease [= <- <- <-]. by apply heap_resolved. }
  destruct (failed_recently _ _); [split_and!; try done; apply (same_tables_inv k k b); (done || apply Hi) |].
  pose proof (retire_heap_ok k b aid L Hi) as Hr. destruct (retire_heap_cache_for_insert k b) as [k1 b1].
  destruct Hr as (I1 & P1 & G1 & K1 & _). pose proof (register_heap_ok k1 b1 aid L buf _ I1 (K1 _ Hk)) as Hr.
  destruct (register_heap_raw _ _ _ _) as [[k2 b2] [i | e]]; destruct Hr as (I2 & P2 & G2 & K2); split_and!; try done; try congruence.
  intros j o lease [= <- <- <-]. apply (heap_resolved b2 _ (buf_reg_new i)). by apply K2.
Qed.

Lemma resolve_ok k b aid L buf env : bufs_inv k b aid L -> env_ok env buf -> rb_generation b < U64_MAX ->
  let '(k', b', r) := resolve_buffer_id k b buf env in
  bufs_inv k' b' aid L /\ kpending k' = kpending k /\ rb_generation b' <= rb_generation b + 1 /\
  forall i o lease, r = Ok (i, o, lease) -> resolved_ok b' i lease.
Proof.
  intros Hi He Hg. unfold resolve_buffer_id.
  assert (Hfound : forall k b, bufs_inv k b aid L -> forall i o lease,
    match current_chunk_lease b (ri_id (en_region env buf)) with
    | Some l => Ok (cl_id l, ri_offset (en_region env buf), Some (ChunkLease l))
    | None => Err Internal
    end = Ok (E := RioError) (i, o, lease) -> resolved_ok b i lease).
  { intros k1 b1 _ i o lease. destruct (current_chunk_lease b1 _) as [l |] eqn:Hl; [| done]. intros [= <- <- <-].
    by apply (chunk_resolved b1 (ri_id (en_region env buf))). }
  destruct (ri_pool_kind (en_region env buf)).
  - destruct (current_chunk_lease b _) as [l |] eqn:Hl.
    { split_and!; [done | done | lia |]. intros i o lease [= <- <- <-]. by apply (chunk_resolved b _ l He). }
    destruct (en_chunk_info env _) as [mem |].
    + pose proof (rio_register_chunk_ok k b aid L _ mem Hi He Hg) as Hr. destruct (register_chunk _ _ _ _) as [[k1 b1] [u | e]];
        destruct Hr as (I1 & P1 & G1 & K1); split_and!; try done. by apply (Hfound k1).
    + by split_and!; [| | lia |].
  - pose proof (resolve_heap_ok k b aid L buf (ri_offset (en_region env buf)) env Hi) as Hr.
    destruct (resolve_heap_id _ _ _ _ _) as [[k1 b1] r]. destruct Hr as (I1 & P1 & G1 & K1). split_and!; try done. lia.
Qed.

Lemma prepare_submission_ok k b aid L buf off len env : bufs_inv k b aid L -> env_ok env buf -> rb_generation b < U64_MAX ->
  let '(k', b', r) := prepare_submission k b buf off len env in
  bufs_inv k' b' aid L /\ kpending k' = kpending k /\ rb_generation b' <= rb_generation b + 1 /\
  forall data, r = Ok data -> resolved_ok b' (bu_id (pb_buf data)) (pb_lease data).
Proof.
  intros Hi He Hg. unfold prepare_submission. destruct (checked U32 off) as [o |]; [| split_and!; (done || lia)].
  pose proof (resolve_ok k b aid L buf env Hi He Hg) as Hr. destruct (resolve_buffer_id _ _ _ _) as [[k1 b1] [[[i o'] lease] | e]];
    destruct Hr as (I1 & P1 & G1 & K1); [| done].
  destruct (checked_rio_buffer_offset o' o); split_and!; try done. intros data [= <-]. by apply (K1 i o').
Qed.

(** *** Deferred deregistrations, and the end *)

Lemma flush_deregs_ok k b aid L : bufs_inv k b aid L ->
  let '(k', b') := flush_deregs k b in bufs_inv k' b' aid L /\ kpending k' = kpending k /\ rb_pending b' = [] /\ rb_generation b' = rb_generation b.
Proof.
  intros [Hs Hb Hids Hu]. unfold flush_deregs. set (l := (fun i => (PDeferred i, i)) <$> rb_pending b).
  assert (El1 : l.*1 = PDeferred <$> rb_pending b) by (unfold l; by rewrite <- list_fmap_compose).
  assert (El2 : l.*2 = rb_pending b) by (unfold l; rewrite <- list_fmap_compose; apply list_fmap_id).
  destruct (deregister_list_ok l k (id_at b aid)) as (A & B & C).
  - done.
  - done.
  - rewrite El1. apply NoDup_fmap_2; [by intros ?? [= ->] | apply Hb].
  - intros p i Hp. apply list_elem_of_fmap in Hp as (j & [= -> ->] & Hin).
    assert (Hat : id_at b aid (PDeferred j) = Some j) by (cbn; by rewrite decide_True).
    split; [done |]. apply (place_unused k b aid L (PDeferred j)); try done. intros [q | q] _; [cbn; by destruct (is_current b _) | done].
  - rewrite El2 in *. split_and!; try done. split; [done | | | by apply (in_use_same k)].
    + destruct Hb as [H1 H2 H3 H4 H5 H6]. split; try done. constructor.
    + eapply ids_ext; [done | | exact C]. intros q. cbn beta. rewrite El1.
      destruct q as [| n | key | key | i |]; try (rewrite decide_False; [done | intros (? & ? & ?)%list_elem_of_fmap; done]).
      cbn [id_at set_pending rb_pending]. rewrite decide_False by apply not_elem_of_nil.
      destruct (decide (PDeferred i ∈ _)) as [Hin | Hin]; [done |]. rewrite decide_False; [done |].
      intros Hi. apply Hin, list_elem_of_fmap. by exists i.
Qed.

Lemma deregister_once_ok l A k (seen : gset Z) : sound k -> kpending k = [] -> seen ⊆ A -> live k = A ∖ seen -> (forall i, i ∈ l -> i = 0 \/ i ∈ A) -> 0 ∉ A ->
  let s := fold_left deregister_once l (k, seen) in
  sound s.1 /\ kpending s.1 = [] /\ s.2 ⊆ A /\ live s.1 = A ∖ s.2 /\ seen ⊆ s.2 /\ forall i, i ∈ l -> i <> 0 -> i ∈ s.2.
Proof.
  revert k seen. induction l as [| i l IH]; intros k seen Hs Hp Hsub Hl HA H0; cbn [fold_left].
  { split_and!; try done. by intros i ?%elem_of_nil. }
  assert (E : deregister_once (k, seen) i =
    if (i =? 0) || bool_decide (i ∈ seen) then (k, seen) else (fn_deregister_buffer k i, {[i]} ∪ seen)).
  { unfold deregister_once, deregister_buffer, is_invalid. cbn. by destruct (i =? 0). }
  rewrite E. clear E.
  destruct (Z.eqb_spec i 0) as [-> | Hi]; [| destruct (bool_decide_reflect (i ∈ seen)) as [Hin | Hin]]; cbn [orb].
  - destruct (IH k seen) as (S1 & S2 & S3 & S4 & S5 & S6); try done; [intros; apply HA; by right |].
    split_and!; try done. intros j [-> | Hj]%elem_of_cons; [done | by apply S6].
  - destruct (IH k seen) as (S1 & S2 & S3 & S4 & S5 & S6); try done; [intros; apply HA; by right |].
    split_and!; try done. intros j [-> | Hj]%elem_of_cons; [intros _; by apply S5 | by apply S6].
  - assert (HiA : i ∈ A) by (destruct (HA i) as [| ?]; [by left | done | done]).
    assert (HkL : i ∈ live k) by (rewrite Hl; set_solver).
    pose proof (law_deregister k i Hs HkL) as Hlaw.
    destruct Hlaw as (D1 & D2 & D3); [rewrite Hp; by intros r ?%elem_of_nil |].
    destruct (IH (fn_deregister_buffer k i) ({[i]} ∪ seen)) as (S1 & S2 & S3 & S4 & S5 & S6); try done.
    + by rewrite D3.
    + set_solver.
    + rewrite D2, Hl. set_solver.
    + intros; apply HA; by right.
    + split_and!; try done; [set_solver |]. intros j [-> | Hj]%elem_of_cons; [intros _; apply S5; set_solver | by apply S6].
Qed.

Definition all_ids b (aid : Z) : list Z := chunk_ids b ++ retired_ids b ++ rb_pending b ++ [aid] ++ heap_ids b.

Lemma all_ids_at b aid i : i <> 0 -> i ∈ all_ids b aid <-> exists p, id_at b aid p = Some i.
Proof.
  intros Hi. unfold all_ids, chunk_ids, retired_ids, heap_ids. rewrite !elem_of_app, list_elem_of_singleton. split.
  - intros [H | [H | [H | [-> | H]]]].
    + apply list_elem_of_In, in_map_iff in H as (e & <- & H). apply list_elem_of_In, list_elem_of_omap in H as (o & Ho & E). cbn in E. subst o.
      apply list_elem_of_lookup in Ho as [n Hn]. exists (PChunk n). cbn. by rewrite Hn.
    + apply list_elem_of_In, in_map_iff in H as ([key g] & <- & H). apply list_elem_of_In, elem_of_map_to_list in H. exists (PRetired key). cbn. by rewrite H.
    + exists (PDeferred i). cbn. by rewrite decide_True.
    + exists PAddr. cbn. by destruct (Z.eqb_spec aid 0).
    + apply list_elem_of_In, in_map_iff in H as ([key g] & <- & H). apply list_elem_of_In, elem_of_map_to_list in H. exists (PHeap key). cbn. by rewrite H.
  - intros [[| n | key | key | j |] Hp]; cbn in Hp; [done | | | | |].
    + left. destruct (rb_chunks b !! n) as [[e |] |] eqn:Hn; try done. injection Hp as <-.
      apply list_elem_of_In, in_map_iff. exists e. split; [done |]. apply list_elem_of_In, list_elem_of_omap. exists (Some e).
      split; [by eapply list_elem_of_lookup_2 | done].
    + right. left. destruct (rb_retired b !! key) as [g |] eqn:Hk; [| done]. injection Hp as <-.
      apply list_elem_of_In, in_map_iff. exists (key, g). split; [done |]. by apply list_elem_of_In, elem_of_map_to_list.
    + do 4 right. destruct (rb_heap b !! key) as [g |] eqn:Hk; [| done]. injection Hp as <-.
      apply list_elem_of_In, in_map_iff. exists (key, g). split; [done |]. by apply list_elem_of_In, elem_of_map_to_list.
    + destruct (decide (j ∈ rb_pending b)); [| done]. injection Hp as <-. by right; right; left.
    + destruct (Z.eqb_spec aid 0); [done |]. injection Hp as <-. by do 3 right; left.
Qed.

(** With nothing pending, everything is deregistered, and once. *)
Lemma cleanup_ok k (r : RioRegistry) : bufs_inv k (rr_bufs r) (ra_buffer_id (rr_addrs r)) [] -> addr_ok (rr_addrs r) [] -> kpending k = [] ->
  let '(k', r') := cleanup_deregister k r in
  bufs_inv k' (rr_bufs r') (ra_buffer_id (rr_addrs r')) [] /\ addr_ok (rr_addrs r') [] /\ kpending k' = [] /\ live k' = ∅ /\
  rr_ctxs r' = rr_ctxs r /\ ra_buffer_id (rr_addrs r') = 0.
Proof.
  set (aid := ra_buffer_id (rr_addrs r)). intros [Hs Hb Hids Hu] Ha Hp. unfold cleanup_deregister.
  set (s5 := fold_left deregister_once (heap_ids (rr_bufs r)) _).
  assert (E : s5 = fold_left deregister_once (all_ids (rr_bufs r) aid) (k, ∅)) by (unfold s5, all_ids; by rewrite !fold_left_app).
  assert (Hall : forall i, i ∈ live k <-> i <> 0 /\ i ∈ all_ids (rr_bufs r) aid).
  { intros i. rewrite (io_live _ _ Hids i). split.
    - intros [p Hpi]. assert (Hi : i <> 0) by (intros ->; by apply (io_nonzero _ _ Hids p)). split; [done |]. apply all_ids_at; [done |]. by exists p.
    - intros [Hi Hin]. by apply all_ids_at. }
  destruct (deregister_once_ok (all_ids (rr_bufs r) aid) (live k) k ∅ Hs Hp) as (S1 & S2 & S3 & S4 & S5 & S6).
  - set_solver.
  - set_solver.
  - intros i Hi. destruct (decide (i = 0)) as [| Hz]; [by left | right]. by apply Hall.
  - rewrite Hall. by intros [? _].
  - rewrite E. clearbody s5. assert (Hlive : live (fold_left deregister_once (all_ids (rr_bufs r) aid) (k, ∅)).1 = ∅).
    { rewrite S4. apply set_eq. intros i. rewrite elem_of_difference, Hall. split; [| set_solver]. intros [[Hi Hin] Hn]. by destruct Hn; apply S6. }
    cbn [rr_bufs rr_addrs rr_ctxs]. split_and!; try done.
    + split; [done | | | by intros q i; rewrite S2; intros ?%elem_of_nil].
      * destruct Hb as [H1 H2 H3 H4 H5 H6]. split; cbn; [| | | done | done |].
        -- by intros l ?%elem_of_nil.
        -- intros l g _. unfold lease_reg, place_of, is_current, chunk_at. destruct l; cbn; by rewrite ?lookup_empty.
        -- intros key g. by rewrite lookup_empty.
        -- constructor.
      * split.
        -- intros i. rewrite Hlive. split; [set_solver |]. intros [[| n | key | key | j |] Hq]; cbn in Hq; rewrite ?lookup_empty in Hq; done.
        -- intros [| n | key | key | j |] q i Hq; cbn in Hq; rewrite ?lookup_empty in Hq; done.
        -- intros [| n | key | key | j |] Hq; cbn in Hq; rewrite ?lookup_empty in Hq; done.
    + destruct Ha as [H1 H2 H3 H4]. split; cbn; try done.
      * by rewrite length_replicate.
      * by rewrite app_nil_r, H1.
      * intros i Hi. by rewrite lookup_replicate_2 by by rewrite H1.
Qed.

(** *** Address buffers *)

Lemma ensure_addr_ok k b a (L : list nat) Ls : bufs_inv k b (ra_buffer_id a) Ls -> addr_ok a L ->
  let '(k', a', r) := ensure_addr_buffer_registered k a in
  bufs_inv k' b (ra_buffer_id a') Ls /\ addr_ok a' L /\ kpending k' = kpending k /\ (ra_buffer_id a <> 0 -> ra_buffer_id a' = ra_buffer_id a) /\
  ra_free a' = ra_free a /\ length (ra_slots a') = length (ra_slots a) /\ (forall i, r = Ok i -> ra_buffer_id a' = i /\ i <> 0).
Proof.
  intros Hi Ha. unfold ensure_addr_buffer_registered, is_invalid. destruct (Z.eqb_spec (ra_buffer_id a) 0) as [Hz | Hz]; cbn [negb].
  2: { split_and!; try done. by intros i [= <-]. }
  unfold checked, U32. destruct (Z.leb_spec 0 (Z.of_nat (length (ra_slots a)) * SIZE_STORAGE)); [| done].
  destruct (Z.ltb_spec (Z.of_nat (length (ra_slots a)) * SIZE_STORAGE) (2 ^ 32)) as [Hfit |]; [| done]. cbn [andb].
  pose proof (register_law k (ra_base a) (Z.of_nat (length (ra_slots a)) * SIZE_STORAGE) (bi_sound _ _ _ _ Hi)) as Hr.
  destruct (register_buffer k _ _) as [k1 [i | er]].
  - destruct Hr as (A & B & Hi1 & Hi2 & C). destruct Hi as [Hs Hb Hids Hu]. cbn. split_and!; try done.
    + split; [done | done | | intros q j; rewrite B; intros Hq Hj; destruct (Hu q j Hq Hj) as [| [_ ?]]; [by left | done]].
      eapply (ids_add k k1 (id_at b (ra_buffer_id a)) _ PAddr i); try done; [by rewrite Hz |].
      intros [| n | key | key | j |]; cbn [id_at reg_at]; try by rewrite (decide_False (P := _ = PAddr)).
      rewrite decide_True by done. by destruct (Z.eqb_spec i 0).
    + by destruct Ha as [H1 H2 H3 H4]; split.
    + by intros j [= <-].
  - destruct Hr as (A & B & C). split_and!; try done. by apply (same_tables_inv k k1 b).
Qed.

Lemma slot_offset_ok slot : Z.of_nat slot * SIZE_STORAGE < 2 ^ 32 -> addr_slot_offset slot = Ok (Z.of_nat slot * SIZE_STORAGE).
Proof.
  unfold addr_slot_offset, checked, USIZE_BITS, U32, SIZE_STORAGE. intros Hfit.
  destruct (Z.leb_spec 0 (Z.of_nat slot * 128)) as [Hz |]; [| lia]. destruct (Z.ltb_spec (Z.of_nat slot * 128) (2 ^ 64)); [| lia]. cbn [andb].
  apply Z.leb_le in Hz. rewrite Hz. by destruct (Z.ltb_spec (Z.of_nat slot * 128) (2 ^ 32)); [| lia].
Qed.

Lemma allocate_addr_ok k b a (L : list nat) Ls : bufs_inv k b (ra_buffer_id a) Ls -> addr_ok a L ->
  exists k' a' r, allocate_addr_slot k a = Ret (k', a', r) /\
  bufs_inv k' b (ra_buffer_id a') Ls /\ kpending k' = kpending k /\ (ra_buffer_id a <> 0 -> ra_buffer_id a' = ra_buffer_id a) /\
  match r with
  | Ok res => addr_ok a' (ar_slot res :: L) /\ bu_id (ar_buf res) = ra_buffer_id a' /\ ra_buffer_id a' <> 0
  | Err _ => addr_ok a' L
  end.
Proof.
  intros Hi Ha. pose proof (ensure_addr_ok k b a L Ls Hi Ha) as He. unfold allocate_addr_slot.
  destruct (ensure_addr_buffer_registered k a) as [[k1 a1] [i | e]]; destruct He as (I1 & A1 & P1 & B1 & F1 & S1 & R1).
  2: { eexists _, _, _. split; [done |]. done. }
  destruct (R1 i eq_refl) as [Hid Hnz]. destruct (ra_free a1) as [| slot free] eqn:Hf.
  { eexists _, _, _. split; [done |]. done. }
  pose proof A1 as [L1 L2 L3 L4]. pose proof (addr_nodup _ _ A1) as Hnd. rewrite Hf in *.
  assert (Hin : slot ∈ slot :: free ++ L) by by left. rewrite app_comm_cons, L2 in Hin. apply elem_of_seq in Hin.
  rewrite vec_set_in_range by lia. rewrite bind_ret, Nat2Z.id. rewrite Hid in *. specialize (L4 Hnz).
  rewrite slot_offset_ok by (unfold SIZE_STORAGE in *; lia).
  eexists _, _, _. split; [done |]. cbn. split_and!; try by rewrite ?Hid.
  apply NoDup_cons in Hnd as [Hn1 Hnd]. rewrite elem_of_app in Hn1.
  split; cbn; [by rewrite length_insert | by rewrite <- L2, (Permutation_middle free L slot) | | done].
  intros j Hj. destruct (decide (j = slot)) as [-> | Hne].
  - rewrite list_lookup_insert_eq by lia. by rewrite bool_decide_eq_true_2 by by left.
  - rewrite list_lookup_insert_ne, L3 by done. f_equal. apply bool_decide_ext. rewrite elem_of_cons. naive_solver.
Qed.

(** A peer's address that the caller can read. *)
Definition pointer_ok (addr : Pointer) (addr_len : Z) : Prop :=
  match addr with Some bytes => addr_len <= Z.of_nat (length bytes) | None => True end.

Lemma validate_returns addr addr_len : pointer_ok addr addr_len ->
  exists r, validate_send_addr addr addr_len = Ret r /\ forall n, r = Ok n -> 0 <= addr_len.
Proof.
  destruct addr as [bytes |]; cbn; [| by eexists]. intros Hp. unfold SIZE_SOCKADDR.
  destruct (Z.ltb_spec addr_len 0); [by eexists |]. destruct (Z.ltb_spec addr_len 16); [by eexists |].
  unfold read_memory. destruct (Z.ltb_spec (Z.of_nat (length bytes)) 2); [lia |]. rewrite bind_ret. eexists. split; [done |]. lia.
Qed.

Lemma prepare_send_addr_ok k b a (L : list nat) Ls addr addr_len : bufs_inv k b (ra_buffer_id a) Ls -> addr_ok a L -> pointer_ok addr addr_len ->
  exists k' a' r, prepare_send_addr k a addr addr_len = Ret (k', a', r) /\
  bufs_inv k' b (ra_buffer_id a') Ls /\ kpending k' = kpending k /\ (ra_buffer_id a <> 0 -> ra_buffer_id a' = ra_buffer_id a) /\
  match r with
  | Ok res => addr_ok a' (ar_slot res :: L) /\ bu_id (ar_buf res) = ra_buffer_id a' /\ ra_buffer_id a' <> 0
  | Err _ => addr_ok a' L
  end.
Proof.
  intros Hi Ha Hp. destruct (validate_returns addr addr_len Hp) as (v & Ev & Hv). unfold prepare_send_addr. rewrite Ev, bind_ret.
  destruct v as [n | e]; [| eexists _, _, _; by split].
  destruct (allocate_addr_ok k b a L Ls Hi Ha) as (k1 & a1 & r1 & -> & I1 & P1 & B1 & R1). rewrite bind_ret.
  destruct r1 as [res | e]; [| eexists _, _, _; by split]. destruct R1 as (A1 & R2 & R3).
  pose proof (addr_owned _ _ (ar_slot res) A1 ltac:(by left)) as Hlt.
  destruct (vec_get_in_range (ra_slots a1) (Z.of_nat (ar_slot res))) as (old & -> & _); [lia |]. rewrite bind_ret.
  unfold read_memory. destruct (Z.ltb_spec (Z.of_nat (length (default [] addr))) (Z.min addr_len n)) as [Hbad |].
  - exfalso. destruct addr as [bytes |]; cbn in *; [lia | done].
  - rewrite bind_ret. eexists _, _, _. split; [done |]. cbn. split_and!; try done. by apply set_addr_slot_ok.
Qed.

Lemma prepare_recv_addr_ok k b a (L : list nat) Ls : bufs_inv k b (ra_buffer_id a) Ls -> addr_ok a L ->
  exists k' a' r, prepare_recv_addr k a = Ret (k', a', r) /\
  bufs_inv k' b (ra_buffer_id a') Ls /\ kpending k' = kpending k /\ (ra_buffer_id a <> 0 -> ra_buffer_id a' = ra_buffer_id a) /\
  match r with
  | Ok res => addr_ok a' (ar_slot res :: L) /\ bu_id (ar_buf res) = ra_buffer_id a' /\ ra_buffer_id a' <> 0
  | Err _ => addr_ok a' L
  end.
Proof.
  intros Hi Ha. unfold prepare_recv_addr.
  destruct (allocate_addr_ok k b a L Ls Hi Ha) as (k1 & a1 & r1 & -> & I1 & P1 & B1 & R1). rewrite bind_ret.
  destruct r1 as [res | e]; [| eexists _, _, _; by split]. destruct R1 as (A1 & R2 & R3).
  pose proof (addr_owned _ _ (ar_slot res) A1 ltac:(by left)) as Hlt.
  destruct (vec_get_in_range (ra_slots a1) (Z.of_nat (ar_slot res))) as (old & -> & _); [lia |]. rewrite bind_ret.
  eexists _, _, _. split; [done |]. split_and!; try done. by apply set_addr_slot_ok.
Qed.
End owned.
