(* ===== verification/RioSafety.v ===== *)
(** * veloq-driver-iocp: what the RIO backend guarantees

    The invariant of the backend ([rio_inv]): the requests that the kernel has are
    among those of the contexts, and these hold exactly the leases, address slots
    and counts of sockets that are held.  It is kept by submissions, whether they
    succeed or are rolled back, by completions, and by the drain. *)

From stdpp Require Import list gmap.
From S2P Require Import Prelude Units SlotMap Token SlotState Anomaly SlotTable Completion Registry Flow RegistryInv CompletionSpec DriverSteps DriverSafety.
From S2P Require Import Handle UringNet RioRegistry RioState RioOwn.

(** ** The invariant *)

Definition sockets_of (key : SocketKey) (S : list SocketKey) : Z := Z.of_nat (length (filter (fun key' => key' = key) S)).

(** [S] are the sockets of the requests, and [ext] counts the operations that
    hold a socket without RIO (an accept or a connect). *)
Definition sockets_ok (m : gmap SocketKey SocketRuntimeState) (ext : SocketKey -> Z) (S : list SocketKey) : Prop :=
  forall key, so_inflight (default socket_state_default (m !! key)) = sockets_of key S + ext key /\ 0 <= ext key.

(** What the kernel has of a request. *)
Definition kernel_request (q : Z * RioOpRequestInit) : KernelRequest :=
  mkKReq q.1 (dg_data_id (in_diagnostics q.2) :: match in_addr_slot q.2 with Some _ => [dg_addr_id (in_diagnostics q.2)] | None => [] end).

(** A request names the lease of its buffer; [aid] is the buffer of addresses. *)
Definition init_ok (aid : Z) (init : RioOpRequestInit) : Prop :=
  (exists l, in_lease init = Some l /\ lease_id l = dg_data_id (in_diagnostics init)) /\
  (is_Some (in_addr_slot init) -> dg_addr_id (in_diagnostics init) = aid /\ aid <> 0) /\
  0 <= tk_index (in_token init).

Notation addr_id r := (ra_buffer_id (rr_addrs r)).
Definition held (r : RioRegistry) (lost : list RioOpRequestInit) : list RioOpRequestInit := (requests (rr_ctxs r)).*2 ++ lost.

(** [lost] are requests whose context was taken and whose resources were not
    given back; [todo] are requests that the kernel finished and that wait in
    the batch that was dequeued. *)
Record core_inv {K : Type} `{RioLaws K} {Peak : RioPeak} (k : K) (r : RioRegistry) (m : gmap SocketKey SocketRuntimeState) (n : Z)
    (ext : SocketKey -> Z) (lost : list RioOpRequestInit) (todo : list KernelRequest) : Prop := {
  ci_ctx : ctx_ok (rr_ctxs r);
  ci_bufs : bufs_inv k (rr_bufs r) (addr_id r) (omap in_lease (held r lost));
  ci_addr : addr_ok (rr_addrs r) (omap in_addr_slot (held r lost));
  ci_init : Forall (init_ok (addr_id r)) (held r lost);
  ci_pending : kpending k ++ todo ⊆+ kernel_request <$> requests (rr_ctxs r);
  ci_count : n = Z.of_nat (length (held r lost));
  ci_sockets : sockets_ok m ext (in_socket <$> held r lost)
}.

(** *** Counting sockets *)

Lemma sockets_of_cons key key' S : sockets_of key (key' :: S) = sockets_of key S + if decide (key' = key) then 1 else 0.
Proof.
  unfold sockets_of. destruct (decide (key' = key)) as [He | Hne];
    [rewrite filter_cons_True by done | rewrite filter_cons_False by done]; cbn [length]; lia.
Qed.
Lemma sockets_of_nonneg key S : 0 <= sockets_of key S.
Proof. unfold sockets_of. lia. Qed.
Lemma sockets_of_perm key S S' : S ≡ₚ S' -> sockets_of key S = sockets_of key S'.
Proof. intros Hp. unfold sockets_of. by rewrite Hp. Qed.
Lemma sockets_ok_perm m ext S S' : S ≡ₚ S' -> sockets_ok m ext S -> sockets_ok m ext S'.
Proof. intros Hp Hs key. unfold sockets_of. rewrite <- Hp. apply Hs. Qed.

Lemma sockets_ok_insert m ext S S' key st : sockets_ok m ext S ->
  so_inflight st = sockets_of key S' + ext key -> (forall key', key' <> key -> sockets_of key' S' = sockets_of key' S) ->
  sockets_ok (<[key := st]> m) ext S'.
Proof.
  intros Hs Hst Hne key'. destruct (Hs key') as [H1 H2]. split; [| done]. destruct (decide (key' = key)) as [-> | Hd].
  - by rewrite lookup_insert_eq.
  - rewrite lookup_insert_ne by done. by rewrite H1, Hne.
Qed.

(** Releasing a token that is held. *)
Lemma release_token_ok m ext key S : sockets_ok m ext (key :: S) ->
  exists m', release_socket_inflight_token_from m key = (m', Ok tt) /\ sockets_ok m' ext S /\
    forall key', is_Some (m !! key') -> is_Some (m' !! key').
Proof.
  intros Hs. destruct (Hs key) as [Hk He]. rewrite sockets_of_cons, decide_True in Hk by done. pose proof (sockets_of_nonneg key S).
  unfold release_socket_inflight_token_from. destruct (m !! key) as [st |] eqn:Hm; cbn in Hk; [| lia].
  destruct (Z.eqb_spec (so_inflight st) 0); [lia |]. eexists. split; [done |].
  split; [| intros key' Hk'; apply lookup_insert_is_Some'; by right].
  apply (sockets_ok_insert m ext (key :: S)); [done | cbn; lia |].
  intros key' Hne. rewrite sockets_of_cons, decide_False by done. lia.
Qed.

Section core.
Context {K : Type} `{Laws : RioLaws K} {Peak : RioPeak}.
Implicit Types (k : K) (r : RioRegistry) (ext : SocketKey -> Z) (lost : list RioOpRequestInit) (todo : list KernelRequest).

Lemma kernel_requests_use k aid (R : list (Z * RioOpRequestInit)) todo : Forall (init_ok aid) R.*2 ->
  kpending k ++ todo ⊆+ kernel_request <$> R -> in_use_ok k aid (omap in_lease R.*2).
Proof.
  intros Hf Hp q i Hq Hi. assert (Hin : q ∈ kernel_request <$> R).
  { eapply elem_of_submseteq; [| exact Hp]. apply elem_of_app. by left. }
  apply list_elem_of_fmap in Hin as ([raw init] & -> & Hin).
  assert (Hin2 : init ∈ R.*2) by (apply list_elem_of_fmap; by exists (raw, init)).
  rewrite Forall_forall in Hf. destruct (Hf _ Hin2) as ((l & Hl & Hid) & Ha & _). cbn in Hi.
  apply elem_of_cons in Hi as [-> | Hi].
  - left. exists l. split; [| done]. apply list_elem_of_omap. by exists init.
  - right. destruct (in_addr_slot init) as [sl |]; [| by apply elem_of_nil in Hi].
    apply list_elem_of_singleton in Hi as ->. by apply Ha.
Qed.

Lemma in_use_weaken k aid L L' : L ⊆ L' -> in_use_ok k aid L -> in_use_ok k aid L'.
Proof. intros Hs Hu q i Hq Hi. destruct (Hu q i Hq Hi) as [(l & Hl & He) | ?]; [left; exists l; split; [by apply Hs | done] | by right]. Qed.

(** What the kernel uses is leased by what is left of the contexts. *)
Lemma core_use k r m n ext lost todo : core_inv k r m n ext lost todo -> in_use_ok k (addr_id r) (omap in_lease (requests (rr_ctxs r)).*2).
Proof.
  intros [H1 H2 H3 H4 H5 H6 H7]. eapply kernel_requests_use; [| exact H5]. unfold held in H4. by apply Forall_app in H4 as [? _].
Qed.

(** A completion of the kernel takes its context, exactly once. *)
Lemma core_take k r m n ext lost todo q : core_inv k r m n ext lost (q :: todo) ->
  exists x init, decode_request_context_checked (rr_ctxs r) (kr_context q) = (x, CtxValid init) /\
    core_inv k (rr_set_ctxs r x) m n ext (init :: lost) todo /\ requests (rr_ctxs r) ≡ₚ (kr_context q, init) :: requests x.
Proof.
  intros Hc. pose proof Hc as [H1 H2 H3 H4 H5 H6 H7].
  assert (Hin : q ∈ kernel_request <$> requests (rr_ctxs r)).
  { eapply elem_of_submseteq; [| exact H5]. apply elem_of_app. right. by left. }
  apply list_elem_of_fmap in Hin as ([raw init] & -> & Hin). cbn [kr_context kernel_request fst] in *.
  destruct (decode_request _ raw init H1 Hin) as (x & Hd & Hx & Hp). exists x, init. split; [done |]. split; [| done].
  assert (Hh : held r lost ≡ₚ held (rr_set_ctxs r x) (init :: lost)).
  { unfold held. cbn. rewrite Hp. cbn. apply Permutation_middle. }
  split; cbn [rr_set_ctxs rr_ctxs rr_bufs rr_addrs]; try done.
  - eapply bufs_inv_perm; [| exact H2]. by rewrite Hh.
  - eapply addr_perm_ok; [| exact H3]. by rewrite Hh.
  - by rewrite <- Hh.
  - rewrite Hp in H5. cbn [fmap list_fmap] in H5. rewrite <- Permutation_middle in H5. by eapply (submseteq_app_inv_l _ _ [_]) in H5.
  - by rewrite <- Hh.
  - eapply sockets_ok_perm; [| exact H7]. by rewrite Hh.
Qed.

Lemma held_cons r init lost : held r (init :: lost) ≡ₚ init :: held r lost.
Proof. unfold held. symmetry. apply Permutation_middle. Qed.

Lemma omap_cons_option {A B} (f : A -> option B) x l : omap f (x :: l) = option_list (f x) ++ omap f l.
Proof. cbn. by destruct (f x). Qed.
Lemma slot_list_option o : slot_list o = option_list o.
Proof. by destruct o. Qed.

(** The resources of a request whose context was taken, one at a time. *)
Lemma core_split k r m n ext init lost todo : core_inv k r m n ext (init :: lost) todo ->
  exists l, in_lease init = Some l /\
    bufs_inv k (rr_bufs r) (addr_id r) (l :: omap in_lease (held r lost)) /\ in_use_ok k (addr_id r) (omap in_lease (held r lost)) /\
    addr_ok (rr_addrs r) (slot_list (in_addr_slot init) ++ omap in_addr_slot (held r lost)) /\
    Forall (init_ok (addr_id r)) (held r lost) /\ n = Z.of_nat (length (held r lost)) + 1 /\
    sockets_ok m ext (in_socket init :: (in_socket <$> held r lost)).
Proof.
  intros Hc. pose proof Hc as [H1 H2 H3 H4 H5 H6 H7]. pose proof (held_cons r init lost) as Hp.
  rewrite Hp in H4. apply Forall_cons in H4 as [((l & Hl & Hid) & Ha) H4]. exists l. split; [done |]. split_and!.
  - eapply bufs_inv_perm; [| exact H2]. rewrite Hp, omap_cons_option, Hl. done.
  - eapply in_use_weaken; [| by eapply core_use]. unfold held. rewrite omap_app. intros x Hx. apply elem_of_app. by left.
  - eapply addr_perm_ok; [| exact H3]. rewrite slot_list_option, Hp. by rewrite omap_cons_option.
  - done.
  - rewrite H6, Hp. cbn [length]. lia.
  - eapply sockets_ok_perm; [| exact H7]. rewrite Hp. done.
Qed.

Context `{!RioActors} `{!IocpPayloads}.

(** What a completion gives back. *)
Lemma core_finish k r m n c ext init lost todo : core_inv k r m n ext (init :: lost) todo ->
  exists h, finish_release (mkRioHooks k n m r c) (effect_from_init init) = (h, Ok tt) /\
    core_inv (hk_kernel h) (hk_registry h) (hk_sockets h) (hk_outstanding h) ext lost todo /\
    kpending (hk_kernel h) = kpending k /\ hk_completed h = c + 1 /\ rr_ctxs (hk_registry h) = rr_ctxs r /\
    rb_generation (rr_bufs (hk_registry h)) = rb_generation (rr_bufs r) /\ hk_outstanding h = n - 1 /\
    forall key, is_Some (m !! key) -> is_Some (hk_sockets h !! key).
Proof.
  intros Hc. destruct (core_split _ _ _ _ _ _ _ _ Hc) as (l & Hl & Hb & Hu & Ha & Hi & Hn & Hs).
  unfold finish_release, effect_from_init. cbn [hk_registry hk_kernel hk_sockets hk_outstanding hk_completed re_addr_slot re_lease re_socket].
  destruct (lease_release_ok _ _ _ _ _ Hb Hu) as (k' & b' & E & Hb' & Hp & Hg). rewrite Hl. cbn [rr_set_addrs rr_bufs]. rewrite E.
  destruct (release_token_ok _ _ _ _ Hs) as (m' & -> & Hs' & Hd). eexists. split; [done |]. cbn.
  destruct (Z.ltb_spec 0 n); [| lia]. split_and!; try done.
  - destruct Hc as [C1 C2 C3 C4 C5 C6 C7]. split; cbn; try done.
    + by rewrite free_addr_buffer.
    + by apply free_addr_option_ok.
    + by rewrite free_addr_buffer.
    + by rewrite Hp.
    + unfold held in *. cbn in *. lia.
Qed.
End core.

(** ** Completions *)

Section hooks.
Context {K : Type} `{!RioTable K} `{!RioActors} `{!IocpPayloads}.
Notation Cell := (SlotCell (Spec := IocpSlotSpec)).
Notation Outcome := (CompletionHookOutcome RioBackendEffect).
Notation Hooks := (RioHooks (K := K)).
Implicit Types (c : Cell) (h : RioHooks (K := K)) (ops : OpRegistry (Spec := IocpSlotSpec)).

(** *** The hooks use their slots as the views allow *)

Lemma rio_take_edit c c1 c2 : slot_edit c c1 -> (take_completion_data (take_op c1).1).1 = c2 -> slot_edit c c2.
Proof.
  intros He <-. etrans; [exact He |]. eapply rtc_l; [apply m_take_op |]. eapply rtc_l; [apply m_take_data |]. apply rtc_refl.
Qed.
Lemma rio_cleanup_edit c c1 f : slot_edit c c1 -> slot_edit c (iocp_cleanup_with c1 f).1.
Proof.
  intros He. etrans; [exact He |]. unfold iocp_cleanup_with.
  match goal with |- context [with_op_mut c1 ?f] => pose proof (m_op c1 f) as Hm; destruct (with_op_mut c1 f) as [c2 g] end.
  eapply rtc_l; [exact Hm |]. apply rtc_refl.
Qed.

Definition outcome_effect (o : Outcome) : RioBackendEffect :=
  match o with HookUser _ _ _ _ e | HookCleanup _ e | HookAnomaly _ _ e | HookControlHandled e | HookIgnore e => e end.
Definition effect_is (eff : RioBackendEffect) (x : result Outcome IocpReport) : Prop :=
  match x with Ok o => outcome_effect o = eff | Err _ => True end.

Lemma rio_waiting_edit a c ing : 0 <= tk_index (in_token (ig_init ing)) ->
  slot_edit c (complete_rio_waiting_slot a c ing).1 /\ hook_result_ok (complete_rio_waiting_slot a c ing).2 /\
  effect_is (effect_from_init (ig_init ing)) (complete_rio_waiting_slot a c ing).2.
Proof.
  intros Ht. unfold complete_rio_waiting_slot. destruct (negb _); [split_and!; [apply rtc_refl | done | done] |].
  match goal with |- context [with_op_mut c ?f] => pose proof (m_op c f) as Hm; destruct (with_op_mut c f) as [c1 r]; cbn [fst] in Hm end.
  match goal with |- context [iocp_cleanup_with (complete_waiting_slot c1) ?f] =>
    pose proof (rio_cleanup_edit c (complete_waiting_slot c1) f) as Hc; destruct (iocp_cleanup_with (complete_waiting_slot c1) f) as [c2 cl]; cbn [fst] in Hc end.
  destruct (take_op c2) as [c3 op] eqn:E3. destruct (take_completion_data c3) as [c4 [pl de]] eqn:E4.
  assert (He : slot_edit c c4).
  { eapply (rio_take_edit c c2); [apply Hc; eapply rtc_l; [exact Hm | apply rtc_refl] | by rewrite E3; cbn [fst]; rewrite E4]. }
  by destruct pl.
Qed.

Lemma rio_orphaned_edit c ing :
  slot_edit c (complete_rio_orphaned_slot c ing).1 /\ outcome_effect (complete_rio_orphaned_slot c ing).2 = effect_from_init (ig_init ing).
Proof.
  unfold complete_rio_orphaned_slot.
  match goal with |- context [iocp_cleanup_with (complete_orphaned_slot c) ?f] =>
    pose proof (rio_cleanup_edit c (complete_orphaned_slot c) f) as Hc; destruct (iocp_cleanup_with (complete_orphaned_slot c) f) as [c2 cl]; cbn [fst] in Hc end.
  destruct (take_op c2) as [c3 op] eqn:E3. destruct (take_completion_data c3) as [c4 [pl de]] eqn:E4. cbn. split; [| done].
  etrans; [eapply (rio_take_edit c c2); [apply Hc, rtc_refl | by rewrite E3; cbn [fst]; rewrite E4] |].
  eapply rtc_l; [apply m_platform | apply rtc_refl].
Qed.

Lemma rio_source_ok ing : 0 <= tk_index (in_token (ig_init ing)) -> source_ok (H := RioHooks (K := K)) (FromBackend ing).
Proof.
  intros Ht h e He. split_and!; intros; cbn.
  - pose proof (rio_waiting_edit (rr_addrs (hk_registry h)) c ing Ht) as (A & B & _).
    by destruct (complete_rio_waiting_slot _ c ing) as [c' r].
  - pose proof (rio_orphaned_edit c ing) as [A _]. split; [by destruct (complete_rio_orphaned_slot c ing) |].
    unfold complete_rio_orphaned_slot. destruct (iocp_cleanup_with _ _) as [c2 cl]. destruct (take_op c2) as [c3 op].
    by destruct (take_completion_data c3) as [c4 [pl de]].
  - done.
Qed.

(** *** The flow touches the hooks only to give back the resources *)

Lemma record_state (s s' : OpRegistry * Hooks) p o : record_user_completion s p = Ret (s', o) -> s'.2 = s.2.
Proof.
  unfold record_user_completion. intros Hr. apply bind_Ret_inv in Hr as ([t x] & _ & Hr). destruct x; by injection Hr as <- _.
Qed.
Lemma finalize_state (s s' : OpRegistry * Hooks) t x : finalize_checked s t = Ret (s', x) -> s'.2 = s.2.
Proof.
  unfold finalize_checked. intros Hr. apply bind_Ret_inv in Hr as ([r o] & _ & Hr). destruct o; by injection Hr as <- _.
Qed.
(** The state of the hooks after an outcome. *)
Definition released (eff : RioBackendEffect) h h' {A : Type} (x : result A IocpReport) : Prop :=
  h' = (finish_release h eff).1 /\ forall e, (finish_release h eff).2 = Err e -> x = Err e.

Lemma and_then_inv {A B} (m : outcome ((OpRegistry * Hooks) * result A IocpReport)) (f : OpRegistry * Hooks -> A -> outcome ((OpRegistry * Hooks) * result B IocpReport)) s' x :
  and_then m f = Ret (s', x) -> (exists e, m = Ret (s', Err e) /\ x = Err e) \/ (exists s a, m = Ret (s, Ok a) /\ f s a = Ret (s', x)).
Proof.
  unfold and_then. intros Hr. apply bind_Ret_inv in Hr as ([s r] & Hm & Hr). destruct r as [a | e].
  - right. by exists s, a.
  - left. injection Hr as <- <-. by exists e.
Qed.

Lemma lift_inv {A} r (p : Hooks * result A IocpReport) s x : lift_hook (Spec := IocpSlotSpec) r p = Ret (s, x) -> s = (r, p.1) /\ x = p.2.
Proof. unfold lift_hook. by intros [= <- <-]. Qed.

Lemma lift_guarding_inv {A} r g (p : Hooks * result A IocpReport) s x :
  lift_hook_guarding (Spec := IocpSlotSpec) r g p = Ret (s, x) -> s.2 = p.1 /\ x = p.2.
Proof. unfold lift_hook_guarding. by intros [= <- <-]. Qed.

Lemma finish_released (s s' : OpRegistry * Hooks) o f x :
  finish_hook_outcome s o f = Ret (s', x) -> released (outcome_effect o) s.2 s'.2 x.
Proof.
  unfold released. destruct o as [e pl de cl eff | cl eff | k a eff | eff | eff]; cbn [finish_hook_outcome outcome_effect]; intros Hr;
    apply and_then_inv in Hr as [(er & Hl & ->) | (s1 & u & Hl & Hr)];
    first [apply lift_inv in Hl as [-> Hx] | apply lift_guarding_inv in Hl as [Hs1 Hx]]; cbn [fst snd] in *;
    change (finish_backend_effect ?h ?e) with (finish_release h e) in *; unfold update_table in *; cbn [fst snd] in *.
  - split; [done |]. intros e' He. congruence.
  - apply bind_Ret_inv in Hr as ([s2 rc] & Hrec & Hr). apply record_state in Hrec. cbn in Hrec.
    apply and_then_inv in Hr as [(er & Hf & ->) | (s3 & u3 & Hf & Hr)]; apply finalize_state in Hf.
    + split; [congruence |]. intros e' He. congruence.
    + injection Hr as <- <-. split; [congruence |]. intros e' He. congruence.
  - split; [done |]. intros e' He. congruence.
  - apply and_then_inv in Hr as [(er & Hf & ->) | (s3 & u3 & Hf & Hr)].
    + assert (Hs : s'.2 = (finish_release s.2 eff).1) by by destruct f as [[e' | e'] |]; [apply finalize_state in Hf | apply finalize_state in Hf |].
      split; [done |]. intros e' He. congruence.
    + injection Hr as <- <-. assert (Hs : s3.2 = (finish_release s.2 eff).1).
      { destruct f as [[e' | e'] |]; [by apply finalize_state in Hf | by apply finalize_state in Hf |]. by injection Hf as <-. }
      split; [done |]. intros e' He. congruence.
  - split; [done |]. intros e' He. congruence.
  - injection Hr as <- <-. split; [done |]. intros e' He. congruence.
  - split; [done |]. intros e' He. congruence.
  - injection Hr as <- <-. split; [done |]. intros e' He. congruence.
  - split; [done |]. intros e' He. congruence.
  - injection Hr as <- <-. split; [done |]. intros e' He. congruence.
Qed.

(** An accepted completion is either refused, with the hooks as they were, or
    gives back what its request held. *)
Definition accepted_state (eff : RioBackendEffect) h h' {A : Type} (x : result A IocpReport) : Prop :=
  (h' = h /\ exists e, x = Err e) \/ released eff h h' x.

Lemma with_hook_released (s s' : OpRegistry * Hooks) c o f eff x : effect_is eff o ->
  with_hook_slot s (s.2, c, o) f = Ret (s', x) -> accepted_state eff s.2 s'.2 x.
Proof.
  intros He Hr. unfold with_hook_slot in Hr. apply bind_Ret_inv in Hr as (r & _ & Hr). destruct o as [o | e].
  - right. cbn in He. subst eff. by apply finish_released in Hr.
  - left. injection Hr as <- <-. split; [done | by eexists].
Qed.

Lemma accept_released ops h ing s' x : 0 <= tk_index (in_token (ig_init ing)) ->
  accept_completion (ops, h) (IngressBackend ing) = Ret (s', x) -> accepted_state (effect_from_init (ig_init ing)) h s'.2 x.
Proof.
  intros Ht Hr. cbn [accept_completion] in Hr. apply and_then_inv in Hr as [(e & Hl & _) | (s1 & act & Hl & Hr)].
  { apply lift_inv in Hl as [_ Hl]. done. }
  apply lift_inv in Hl as [-> Hl]. injection Hl as ->. cbn [fst snd] in Hr. unfold accept_user_event in Hr. cbn [fst snd] in Hr.
  destruct (checked_slot_view ops _) as [v | e].
  2: { left. injection Hr as <- <-. split; [done | by eexists]. }
  apply bind_Ret_inv in Hr as (routed & _ & Hr).
  assert (Hcor : forall k, and_then (lift_hook ops (complete_corrupt h (event_from_parts COMP_BACKEND_RIO (in_token (ig_init ing)) (raw_res (ig_result ing)) 0) k (FromBackend ing)))
      (fun s1 o => finish_hook_outcome s1 o None) = Ret (s', x) -> accepted_state (effect_from_init (ig_init ing)) h s'.2 x).
  { intros k Hk. apply and_then_inv in Hk as [(e & Hl & _) | (s1 & o & Hl & Hk)]; apply lift_inv in Hl as [-> Hl]; [done |].
    injection Hl as ->. apply finish_released in Hk. by right. }
  destruct routed as [[c | c | k | k | k] | e]; try by apply (Hcor k).
  - pose proof (rio_waiting_edit (rr_addrs (hk_registry h)) c ing Ht) as (_ & _ & He). cbn [complete_waiting rio_hooks rio_complete_waiting] in Hr.
    destruct (complete_rio_waiting_slot _ c ing) as [c' r]. by eapply (with_hook_released (ops, h)) in Hr.
  - pose proof (rio_orphaned_edit c ing) as [_ He]. cbn [complete_orphaned rio_hooks rio_complete_orphaned] in Hr.
    destruct (complete_rio_orphaned_slot c ing) as [c' o]. by eapply (with_hook_released (ops, h)) in Hr.
  - left. injection Hr as <- <-. split; [done | by eexists].
Qed.

Lemma accept_returns ops h ing : reg_inv ops -> 0 <= tk_index (in_token (ig_init ing)) ->
  exists ops' h' x, accept_completion (ops, h) (IngressBackend ing) = Ret ((ops', h'), x) /\ reg_inv ops' /\
    accepted_state (effect_from_init (ig_init ing)) h h' x.
Proof.
  intros Hops Ht.
  assert (Hc : flow_call (accept_completion (ops, h) (IngressBackend ing))).
  { cbn [accept_completion]. unfold and_then, lift_hook. by apply (flow_source (Hooks := rio_hooks) (ops, h) (event_from_parts COMP_BACKEND_RIO (in_token (ig_init ing)) (raw_res (ig_result ing)) 0) (FromBackend ing) (rio_source_ok ing Ht)). }
  destruct Hc as ([ops' h'] & x & Hr & Hi). exists ops', h', x. split_and!; [done | done |].
  by apply accept_released in Hr.
Qed.
End hooks.

Section completions.
Context {K : Type} `{Laws : RioLaws K} `{!RioActors} `{!IocpPayloads} {Peak : RioPeak}.
Notation Hooks := (RioHooks (K := K)).
Notation RioState := (RioState IocpUserPayload).
Implicit Types (k : K) (h : Hooks) (ops : OpRegistry (Spec := IocpSlotSpec)) (s : RioState) (lost : list RioOpRequestInit) (ext : SocketKey -> Z).

Definition hooks_inv h ext lost todo : Prop := core_inv (hk_kernel h) (hk_registry h) (hk_sockets h) (hk_outstanding h) ext lost todo.

(** What the completions change besides what they give back. *)
Definition hooks_step h h' : Prop :=
  kpending (hk_kernel h') = kpending (hk_kernel h) /\
  rb_generation (rr_bufs (hk_registry h')) = rb_generation (rr_bufs (hk_registry h)) /\
  hk_outstanding h' <= hk_outstanding h /\
  forall key, is_Some (hk_sockets h !! key) -> is_Some (hk_sockets h' !! key).
Definition hooks_total h : Z := hk_outstanding h + hk_completed h.

Lemma hooks_step_refl h : hooks_step h h.
Proof. by split_and!; [| | lia |]. Qed.
Lemma hooks_step_trans h1 h2 h3 : hooks_step h1 h2 -> hooks_step h2 h3 -> hooks_step h1 h3.
Proof. intros (A & B & C & D) (A' & B' & C' & D'). split_and!; [congruence | congruence | lia | auto]. Qed.

Lemma core_todo k r m n ext lost todo : core_inv k r m n ext lost todo -> core_inv k r m n ext lost [].
Proof.
  intros [C1 C2 C3 C4 C5 C6 C7]. split; try done. rewrite app_nil_r. etrans; [| exact C5]. apply submseteq_inserts_r. done.
Qed.

Lemma accept_result_ok ops h res q ext lost todo : reg_inv ops -> hooks_inv h ext lost (q :: todo) -> rs_context res = kr_context q ->
  exists ops' h' x lost', accept_result ops h res = Ret (ops', h', x) /\ reg_inv ops' /\ hooks_inv h' ext lost' todo /\ hooks_step h h' /\
    (x = Ok tt -> lost' = lost /\ hooks_total h' = hooks_total h).
Proof.
  intros Hops Hc Hq. destruct (core_take _ _ _ _ _ _ _ _ Hc) as (x & init & Hd & Hc' & _).
  unfold accept_result. rewrite Hq, Hd. set (h1 := set_hook_registry h _).
  assert (Ht : 0 <= tk_index (in_token init)).
  { pose proof (ci_init _ _ _ _ _ _ _ Hc') as Hi. rewrite held_cons in Hi. apply Forall_cons in Hi as [(_ & _ & ?) _]. done. }
  destruct (accept_returns ops h1 (mkIngress init res) Hops Ht) as (ops' & h' & y & -> & Hops' & Hst). rewrite bind_ret.
  destruct Hst as [(-> & e & ->) | [-> He]].
  - eexists ops', h1, _, (init :: lost). split; [done |]. split; [done |]. split; [exact Hc' |]. split; [split_and!; (done || (cbn; lia)) | done].
  - destruct (core_finish _ _ _ _ (hk_completed h) _ _ _ _ Hc') as (h2 & E & Hc2 & P1 & P2 & P3 & P4 & P5 & P6).
    change (mkRioHooks (hk_kernel h) (hk_outstanding h) (hk_sockets h) (rr_set_ctxs (hk_registry h) x) (hk_completed h)) with h1 in E.
    cbn [ig_init]. rewrite E. cbn [fst]. eexists ops', h2, _, lost. split; [done |]. split; [done |]. split; [exact Hc2 |]. split; [split_and!; (done || (cbn; lia)) |]. intros _. split; [done |]. unfold hooks_total. lia.
Qed.

Lemma accept_results_ok ops h l fin ext lost : reg_inv ops -> hooks_inv h ext lost fin -> map kr_context fin = map rs_context l ->
  exists ops' h' x lost', accept_results ops h l = Ret (ops', h', x) /\ reg_inv ops' /\ hooks_inv h' ext lost' [] /\ hooks_step h h' /\
    (x = Ok tt -> lost' = lost /\ hooks_total h' = hooks_total h).
Proof.
  revert ops h fin lost. induction l as [| res l IH]; intros ops h fin lost Hops Hc Hm.
  { destruct fin; [| done]. cbn. eexists _, _, _, lost. split; [done |]. split_and!; [done | done | apply hooks_step_refl | done]. }
  destruct fin as [| q fin]; [done |]. injection Hm as Hq Hm. cbn [accept_results].
  destruct (accept_result_ok ops h res q ext lost fin Hops Hc ltac:(done)) as (ops1 & h1 & x1 & lost1 & -> & O1 & C1 & S1 & T1). rewrite bind_ret.
  destruct x1 as [[] | e].
  - destruct (T1 eq_refl) as [-> T]. destruct (IH ops1 h1 fin lost O1 C1 Hm) as (ops2 & h2 & x2 & lost2 & -> & O2 & C2 & S2 & T2).
    eexists _, _, _, lost2. split; [done |]. split_and!; [done | done | by eapply hooks_step_trans |]. intros Hx. destruct (T2 Hx) as [? ?]. split; [done | congruence].
  - eexists _, _, _, lost1. split; [done |]. split_and!; [done | by eapply core_todo | done | done].
Qed.

Definition set_hook_kernel h k : Hooks := mkRioHooks k (hk_outstanding h) (hk_sockets h) (hk_registry h) (hk_completed h).

Lemma rio_dequeue_ok k s n : sound k ->
  let '(k', d) := rio_dequeue k s n in
  sound k' /\ live k' = live k /\ now k <= now k' /\
  match d with
  | Results l => (length l <= n)%nat /\ exists fin, map kr_context fin = map rs_context l /\ kpending k ≡ₚ fin ++ kpending k'
  | CorruptCq => kpending k' = kpending k
  end.
Proof.
  intros Hs. unfold rio_dequeue. destruct (kn_dispatch _).
  - pose proof (law_dequeue k (kn_cq (ro_kernel s)) n Hs) as Hl. by destruct (fn_dequeue _ _ _).
  - split_and!; [done | done | lia | cbn; lia |]. by exists [].
Qed.

(** Requests that were taken from the queue wait for their completion. *)
Lemma core_dequeue k k' r m n ext lost fin : core_inv k r m n ext lost [] -> sound k' -> live k' = live k -> kpending k ≡ₚ fin ++ kpending k' ->
  core_inv k' r m n ext lost fin.
Proof.
  intros [C1 C2 C3 C4 C5 C6 C7] Hs Hl Hp. split; try done.
  - destruct C2 as [B1 B2 B3 B4]. split; [done | done | by eapply ids_ext |]. intros q i Hq. apply B4. rewrite Hp. apply elem_of_app. by right.
  - rewrite app_nil_r in C5. rewrite Hp in C5. by rewrite (Permutation_app_comm (kpending k')).
Qed.

Lemma dequeue_loop_ok fuel s ops h found ext lost : (length (kpending (hk_kernel h)) < fuel)%nat -> reg_inv ops -> hooks_inv h ext lost [] ->
  exists ops' h' x lost', dequeue_loop fuel s ops h found = Ret (ops', h', x) /\ reg_inv ops' /\ hooks_inv h' ext lost' [] /\
    rb_generation (rr_bufs (hk_registry h')) = rb_generation (rr_bufs (hk_registry h)) /\ hk_outstanding h' <= hk_outstanding h /\
    (forall key, is_Some (hk_sockets h !! key) -> is_Some (hk_sockets h' !! key)) /\
    (forall b, x = Ok b -> lost' = lost /\ hooks_total h' = hooks_total h).
Proof.
  revert ops h found lost. induction fuel as [| fuel IH]; intros ops h found lost Hf Hops Hc; [lia |]. cbn [dequeue_loop].
  pose proof (rio_dequeue_ok (hk_kernel h) s MAX_RIO_RESULTS (bi_sound _ _ _ _ (ci_bufs _ _ _ _ _ _ _ Hc))) as Hd.
  destruct (rio_dequeue (hk_kernel h) s MAX_RIO_RESULTS) as [k' d]. destruct Hd as (D1 & D2 & _ & D3).
  change (mkRioHooks k' (hk_outstanding h) (hk_sockets h) (hk_registry h) (hk_completed h)) with (set_hook_kernel h k').
  destruct d as [l |].
  2: { eexists _, _, _, lost. split; [done |]. split_and!; try done. apply (core_dequeue (hk_kernel h) k' _ _ _ _ _ []); [exact Hc | done | done | by rewrite D3]. }
  destruct D3 as (Hn & fin & Hm & Hp).
  assert (Hc1 : hooks_inv (set_hook_kernel h k') ext lost fin) by (eapply core_dequeue; [exact Hc | done | done | done]).
  destruct l as [| res l].
  { destruct fin; [| done]. eexists _, _, _, lost. split; [done |]. by split_and!. }
  destruct (accept_results_ok ops (set_hook_kernel h k') (res :: l) fin ext lost Hops Hc1 Hm) as (ops1 & h1 & x1 & lost1 & E & O1 & C1 & (S1 & S2 & S0 & S3) & T1).
  rewrite E, bind_ret. destruct x1 as [[] | e].
  2: { eexists _, _, _, lost1. split; [done |]. by split_and!. }
  destruct (T1 eq_refl) as [-> T]. destruct (_ <? _)%nat.
  { eexists _, _, _, lost. split; [done |]. by split_and!. }
  destruct (IH ops1 h1 true lost) as (ops2 & h2 & x2 & lost2 & -> & O2 & C2 & G2 & N2 & K2 & T2); [| done | done |].
  - rewrite S1. cbn. destruct fin; [done |]. apply Permutation_length in Hp. rewrite length_app in Hp. cbn in Hp. lia.
  - eexists _, _, _, lost2. split; [done |]. split_and!; [done | done | by rewrite G2 | cbn in *; lia | by intros key Hk; apply K2, S3 |].
    intros b Hb. destruct (T2 b Hb) as [? ?]. split; [done | by transitivity (hooks_total h1)].
Qed.

(** *** The state *)

Definition actors_ok s : Prop := forall key ak, ro_by_handle s !! key = Some ak -> is_Some (ro_sockets s !! key).

Record rio_inv k s ext lost : Prop := {
  ri_core : core_inv k (ro_registry s) (ro_sockets s) (ro_outstanding s) ext lost [];
  ri_actors : actors_ok s
}.

(** Calls that leave buffers and requests alone. *)
Lemma core_kernel k k' r m n ext lost : core_inv k r m n ext lost [] -> sound k' /\ live k' = live k /\ kpending k' = kpending k ->
  core_inv k' r m n ext lost [].
Proof. intros Hc (A & B & C). apply (core_dequeue k k' _ _ _ _ _ []); [exact Hc | done | done | by rewrite C]. Qed.

Lemma rearm_ok k s : sound k -> sound (rearm_notify k s).1 /\ live (rearm_notify k s).1 = live k /\ kpending (rearm_notify k s).1 = kpending k.
Proof. intros Hs. unfold rearm_notify. destruct (kn_dispatch _); [| done]. by apply law_notify. Qed.

Lemma core_flush k r m n ext lost : core_inv k r m n ext lost [] ->
  let '(k', b) := flush_deregs k (rr_bufs r) in core_inv k' (rr_set_bufs r b) m n ext lost [] /\ rb_generation b = rb_generation (rr_bufs r).
Proof.
  intros [C1 C2 C3 C4 C5 C6 C7]. pose proof (flush_deregs_ok _ _ _ _ C2) as Hf. destruct (flush_deregs _ _) as [k' b].
  destruct Hf as (F1 & F2 & F3 & F4). split; [| done]. split; try done. by rewrite F2.
Qed.

Lemma rio_process_ok fuel k s ops ext lost : (length (kpending k) < fuel)%nat -> rio_inv k s ext lost -> reg_inv ops ->
  exists k' s' ops' r lost', process_completions fuel k s ops = Ret (k', s', ops', r) /\ rio_inv k' s' ext lost' /\ reg_inv ops' /\
    rb_generation (rr_bufs (ro_registry s')) = rb_generation (rr_bufs (ro_registry s)) /\ ro_outstanding s' <= ro_outstanding s /\
    match r with Ok n => lost' = lost /\ ro_outstanding s' = ro_outstanding s - n | Err _ => True end.
Proof.
  intros Hf [Hc Ha] Hops. unfold process_completions. destruct (kn_dispatch (ro_kernel s)) eqn:Hd; cbn [negb].
  2: { eexists _, _, _, _, lost. split; [done |]. split_and!; [done | done | done | lia | done | lia]. }
  destruct (dequeue_loop_ok fuel s ops (hooks_of_state k s) false ext lost Hf Hops Hc) as (ops1 & h1 & x1 & lost1 & -> & O1 & C1 & G1 & M1 & K1 & T1). cbn in M1.
  rewrite bind_ret.
  assert (Hi1 : rio_inv (hk_kernel h1) (state_of_hooks s h1) ext lost1).
  { split; [exact C1 |]. intros key ak Hk. apply K1. by apply (Ha key ak). }
  destruct x1 as [found | e]; [| by eexists _, _, _, _, lost1].
  destruct (T1 found eq_refl) as [-> T]. unfold hooks_total in T. cbn in T.
  set (s1 := if found then _ else _).
  assert (Hs1 : rio_inv (hk_kernel h1) s1 ext lost /\ ro_registry s1 = hk_registry h1 /\ ro_outstanding s1 = hk_outstanding h1).
  { unfold s1. destruct Hi1 as [I1 I2]. destruct found; (split; [by split | done]). }
  clearbody s1. destruct Hs1 as ([Hc1 Ha1] & R1 & N1).
  assert (Harm : exists k2 s2 x2, (if negb (bool_decide (ro_by_handle s1 = ∅)) && negb (ro_armed s1)
      then match rearm_notify (hk_kernel h1) s1 with (k, Ok _) => (k, ro_set_armed s1 true, Ok tt) | (k, Err e) => (k, s1, Err (iocp_report (RioErr e))) end
      else (hk_kernel h1, s1, Ok tt)) = (k2, s2, x2) /\ rio_inv k2 s2 ext lost /\ ro_registry s2 = hk_registry h1 /\ ro_outstanding s2 = hk_outstanding h1).
  { destruct (_ && _).
    - pose proof (rearm_ok (hk_kernel h1) s1 (bi_sound _ _ _ _ (ci_bufs _ _ _ _ _ _ _ Hc1))) as Hr.
      destruct (rearm_notify _ s1) as [k2 [u | e]]; eexists _, _, _; (split; [done |]); (split; [| done]); (split; [eapply core_kernel; [exact Hc1 | exact Hr] | done]).
    - eexists _, _, _. split; [done |]. split; [by split | done]. }
  destruct Harm as (k2 & s2 & x2 & E2 & [Hc2 Ha2] & R2 & N2). rewrite E2. destruct x2 as [[] | e].
  2: { eexists _, _, _, _, lost. split; [done |]. split_and!; [by split | done | by rewrite R2 | lia | done]. }
  destruct (ro_outstanding s2 =? 0).
  - pose proof (core_flush _ _ _ _ _ _ Hc2) as Hfl. destruct (flush_deregs k2 _) as [k3 b3]. destruct Hfl as [Hc3 G3].
    eexists _, _, _, _, lost. split; [done |]. split_and!; [by split | done | cbn; by rewrite G3, R2 | cbn; lia | done | cbn; lia].
  - eexists _, _, _, _, lost. split; [done |]. split_and!; [by split | done | by rewrite R2 | lia | done | lia].
Qed.

(** ** Submission *)

Section submission.
Variables (plan : RioSubmitPlan) (chunk_info : Z -> option (Z * Z)) (region : FixedBuf -> RegionInfo).
Variable submit : K -> RioState -> RioPreparedRequest -> outcome (K * RioResult unit).
(** What was held before: the requests, the requests of the kernel, their count. *)
Variables (ext : SocketKey -> Z) (lost : list RioOpRequestInit) (R : list (Z * RioOpRequestInit)) (pend : list KernelRequest) (n : Z) (gen : Z).
Let I := R.*2 ++ lost.
Implicit Types (t : RioSubmitTxn).
Notation World := (World (K := K) (P := IocpUserPayload)).

Definition prepared_ok b (d : RioPreparedBuffer) : Prop :=
  exists l, pb_lease d = Some l /\ lease_id l = bu_id (pb_buf d) /\ lease_ok l /\ is_Some (lease_reg b l).

(** What a transaction has acquired so far. *)
Definition txn_leases t : list RioBufferLeaseToken :=
  if tx_acquired t then match tx_data t with Some d => option_list (pb_lease d) | None => [] end else [].
Definition txn_init t (raw : Z) (init : RioOpRequestInit) : Prop :=
  exists rq d key, tx_rq t = Some rq /\ tx_data t = Some d /\ tx_socket t = Some key /\
    in_token init = pl_token plan /\ in_socket init = key /\ key = pl_handle plan /\ in_lease init = pb_lease d /\
    in_addr_slot init = ar_slot <$> tx_addr t /\ in_diagnostics init = rio_diagnostics rq (pb_buf d) (tx_addr t).
Definition txn_request t (new : list (Z * RioOpRequestInit)) : Prop :=
  match tx_request t with
  | Some q =>
      exists ctx init d, pr_context q = Some ctx /\ id_ok ctx /\ new = [(context_raw_of ctx, init)] /\ txn_init t (context_raw_of ctx) init /\
        tx_data t = Some d /\ pr_data q = d /\ pr_addr q = tx_addr t
  | None => new = []
  end.

Record txn_inv k s t : Prop := {
  tv_ctx : ctx_ok (rr_ctxs (ro_registry s));
  tv_bufs : bufs_inv k (rr_bufs (ro_registry s)) (addr_id (ro_registry s)) (txn_leases t ++ omap in_lease I);
  tv_use : in_use_ok k (addr_id (ro_registry s)) (omap in_lease I);
  tv_addr : addr_ok (rr_addrs (ro_registry s)) (slot_list (ar_slot <$> tx_addr t) ++ omap in_addr_slot I);
  tv_init : Forall (init_ok (addr_id (ro_registry s))) I;
  tv_requests : exists new, requests (rr_ctxs (ro_registry s)) ≡ₚ new ++ R /\ txn_request t new;
  tv_sockets : sockets_ok (ro_sockets s) ext (option_list (tx_socket t) ++ (in_socket <$> I));
  tv_actors : actors_ok s;
  tv_pending : kpending k = pend;
  tv_outstanding : ro_outstanding s = n;
  tv_data : forall d, tx_data t = Some d -> prepared_ok (rr_bufs (ro_registry s)) d;
  tv_address : forall a, tx_addr t = Some a -> bu_id (ar_buf a) = addr_id (ro_registry s) /\ addr_id (ro_registry s) <> 0;
  tv_submitted : tx_submitted t = false;
  tv_generation : rb_generation (rr_bufs (ro_registry s)) <= gen + 1
}.

(** A stage returns; its failure leaves what can be rolled back, and its success
    satisfies [Q]. *)
Definition txn_at (w : World) : Prop := txn_inv w.1.1 w.1.2 w.2.
Definition stage_ok (P Q : World -> Prop) (m : Stage (K := K) (P := IocpUserPayload)) : Prop :=
  forall w, P w -> exists w' r, m w = Ret (w', r) /\ match r with Ok _ => Q w' | Err _ => txn_at w' end.

Lemma stage_then P Q T m1 m2 : stage_ok P Q m1 -> stage_ok Q T m2 -> stage_ok P T (then_stage m1 m2).
Proof.
  intros H1 H2 w Hw. destruct (H1 w Hw) as (w1 & [[] | e] & E & Hq); unfold then_stage; rewrite E, bind_ret.
  - by apply H2.
  - by eexists _, _.
Qed.

Lemma check_ok : stage_ok (fun w => txn_at w /\ w.2 = txn_new) (fun w => txn_at w /\ w.2 = txn_new) (check_socket_accepting plan).
Proof.
  intros [[k s] t] [Hw Ht]. unfold check_socket_accepting. destruct (ro_closed s); [by eexists _, _ |].
  destruct (_ !! _); [| by eexists _, _]. destruct (bool_decide _); by eexists _, _.
Qed.

Lemma create_rq_ok k r handle env : sound k ->
  let k' := (create_rq k r handle env).1 in sound k' /\ live k' = live k /\ kpending k' = kpending k.
Proof. intros Hs. apply (law_create_rq k (mkRqConfig (as_handle handle) (rr_rq_depth r) (rr_rq_depth r) (en_cq env)) Hs). Qed.

(** Nothing of a transaction depends on the actors. *)
Lemma txn_actor k k' s s' t : txn_inv k s t -> sound k' /\ live k' = live k /\ kpending k' = kpending k ->
  ro_registry s' = ro_registry s -> ro_outstanding s' = ro_outstanding s -> actors_ok s' -> sockets_ok (ro_sockets s') ext (option_list (tx_socket t) ++ (in_socket <$> I)) ->
  txn_inv k' s' t.
Proof.
  intros [T1 T2 T3 T4 T5 T6 T7 T8 T9 T10 T11 T12 T13 T14] (A & B & C) Hr Ho Ha Hs. split; rewrite ?Hr, ?Ho; try done.
  - by apply (same_tables_inv k k' (rr_bufs (ro_registry s))).
  - by apply (in_use_same k).
  - by rewrite C.
Qed.

Lemma actor_inserted s key ak actors : actors_ok s ->
  let s1 := ro_set_actors s actors (<[key := ak]> (ro_by_handle s)) in
  let s2 := ro_set_sockets s1 (<[key := socket_runtime s1 key]> (ro_sockets s1)) in
  actors_ok s2 /\ is_Some (ro_sockets s2 !! key) /\ forall S, sockets_ok (ro_sockets s) ext S -> sockets_ok (ro_sockets s2) ext S.
Proof.
  intros Ha s1 s2. unfold s2, s1, socket_runtime. cbn. split_and!.
  - intros key' ak'. cbn. destruct (decide (key' = key)) as [-> | Hne]; [rewrite !lookup_insert_eq; by eexists |].
    rewrite !lookup_insert_ne by done. apply Ha.
  - rewrite lookup_insert_eq. by eexists.
  - intros S Hs. apply (sockets_ok_insert _ ext S); [done | apply (proj1 (Hs key)) | done].
Qed.

Lemma ensure_actor_ok k s t env : txn_inv k s t ->
  let '(k', s', r) := ensure_actor k s (pl_handle plan) env in
  txn_inv k' s' t /\ ro_registry s' = ro_registry s /\ forall rq, r = Ok rq -> is_Some (ro_sockets s' !! pl_handle plan).
Proof.
  intros Ht. unfold ensure_actor. destruct (ro_closed s); [done |].
  destruct (ro_by_handle s !! pl_handle plan) as [ak |] eqn:Hb.
  { split; [done |]. split; [done |]. intros rq _. by apply (tv_actors _ _ _ Ht (pl_handle plan) ak). }
  pose proof (create_rq_ok k (ro_registry s) (pl_handle plan) env (bi_sound _ _ _ _ (tv_bufs _ _ _ Ht))) as Hk. cbn zeta in Hk.
  destruct (create_rq _ _ _ _) as [k1 [rq | e]]; cbn [fst] in Hk.
  2: { split; [| by split]. eapply txn_actor; [exact Ht | exact Hk | done | done | apply Ht | apply Ht]. }
  destruct (sm_insert (ro_actors s) rq) as [actors ak].
  destruct (actor_inserted s (pl_handle plan) ak actors (tv_actors _ _ _ Ht)) as (A1 & A2 & A3).
  set (s2 := ro_set_sockets _ _) in *.
  assert (H2 : txn_inv k1 s2 t) by (eapply txn_actor; [exact Ht | exact Hk | done | done | exact A1 | apply A3, Ht]).
  assert (R2 : ro_registry s2 = ro_registry s) by done. clearbody s2.
  destruct (_ && _); [| done].
  pose proof (rearm_ok k1 s2 (bi_sound _ _ _ _ (tv_bufs _ _ _ H2))) as Hr. destruct (rearm_notify k1 s2) as [k3 [u | e]]; cbn [fst] in Hr.
  - split; [| by split]. eapply txn_actor; [exact H2 | exact Hr | done | done | apply H2 | apply H2].
  - split; [| by split]. eapply txn_actor; [exact H2 | exact Hr | done | done | apply H2 | apply H2].
Qed.

Hypotheses (Hgen : gen < U64_MAX) (Hregion : 0 <= ri_id (region (pl_buffer plan))) (HR : Z.of_nat (length R) < rio_peak)
  (Hn : n = Z.of_nat (length I)) (Hn1 : n + 1 < 2 ^ 64) (Hpend : pend ⊆+ kernel_request <$> R) (Htoken : 0 <= tk_index (pl_token plan))
  (Hpointer : match pl_address plan with AddrSendTo addr len => pointer_ok addr len | _ => True end).

(** The transaction after the stages. *)
Definition at_actor (w : World) : Prop :=
  exists rq, w.2 = set_rq txn_new (Some rq) /\ txn_at w /\ is_Some (ro_sockets w.1.2 !! pl_handle plan) /\ rb_generation (rr_bufs (ro_registry w.1.2)) <= gen.
Definition at_socket (w : World) : Prop :=
  exists rq, w.2 = set_socket (set_rq txn_new (Some rq)) (Some (pl_handle plan)) /\ txn_at w /\ rb_generation (rr_bufs (ro_registry w.1.2)) <= gen.
Definition at_buffer (w : World) : Prop :=
  exists rq d, w.2 = set_data (set_socket (set_rq txn_new (Some rq)) (Some (pl_handle plan))) (Some d) /\ txn_at w.
Definition at_address (w : World) : Prop :=
  exists rq d a, w.2 = set_addr (set_data (set_socket (set_rq txn_new (Some rq)) (Some (pl_handle plan))) (Some d)) a /\ txn_at w /\
    (pl_address plan = AddrNone <-> a = None).

Lemma actor_stage_ok : stage_ok (fun w => (txn_at w /\ rb_generation (rr_bufs (ro_registry w.1.2)) <= gen) /\ w.2 = txn_new) at_actor (ensure_actor_stage plan chunk_info region).
Proof.
  intros [[k s] t] [[Hw Hg] Ht]. cbn in Ht. subst t. unfold ensure_actor_stage. destruct (kn_dispatch _); cbn [negb]; [| by eexists _, _].
  pose proof (ensure_actor_ok k s txn_new (rio_env s chunk_info region) Hw) as He.
  destruct (ensure_actor k s _ _) as [[k1 s1] [rq | e]]; destruct He as (H1 & H2 & H3); eexists _, _; (split; [done |]); [| done].
  exists rq. split_and!; [done | | by apply (H3 rq) | cbn; by rewrite H2]. destruct H1 as [T1 T2 T3 T4 T5 T6 T7 T8 T9 T10 T11 T12 T13 T14]. by split.
Qed.

Lemma socket_stage_ok : stage_ok at_actor at_socket (acquire_socket plan).
Proof.
  intros [[k s] t] (rq & Ht & Hw & [st Hst] & Hg). cbn in Ht, Hst, Hg. subst t. unfold acquire_socket, try_acquire_socket_inflight_token.
  destruct (ro_closed s); [by eexists _, _ |].
  assert (Hst' : ro_sockets s !! (pl_handle plan : SocketKey) = Some st) by exact Hst. rewrite Hst'. destruct (bool_decide _); [by eexists _, _ |].
  destruct (checked U32 _) as [m |] eqn:Hm; [| by eexists _, _]. unfold checked in Hm. destruct (_ && _); [| done]. injection Hm as <-.
  eexists _, _. split; [done |]. exists rq. split_and!; [done | | done].
  destruct Hw as [T1 T2 T3 T4 T5 T6 T7 T8 T9 T10 T11 T12 T13 T14]. split; try done; cbn in *.
  - apply (sockets_ok_insert _ ext (in_socket <$> I)); [done | cbn | intros key' Hne; by rewrite sockets_of_cons, decide_False, Z.add_0_r by done].
    destruct (T7 (pl_handle plan)) as [Hc _]. rewrite Hst' in Hc. cbn in Hc. rewrite sockets_of_cons, decide_True by done. lia.
  - intros key ak Hk. destruct (T8 key ak Hk). apply lookup_insert_is_Some'. right. by eexists.
Qed.

Lemma buffer_stage_ok : stage_ok at_socket at_buffer (prepare_buffer plan chunk_info region).
Proof.
  intros [[k s] t] (rq & Ht & Hw & Hg). cbn in Ht, Hg. subst t. unfold prepare_buffer.
  destruct (data_len _ _ _) as [len | e]; [| by eexists _, _]. destruct (kn_dispatch _); cbn [negb]; [| by eexists _, _].
  destruct Hw as [T1 T2 T3 T4 T5 T6 T7 T8 T9 T10 T11 T12 T13 T14]. cbn in *.
  pose proof (prepare_submission_ok k _ _ _ (pl_buffer plan) (pl_buffer_offset plan) len (rio_env s chunk_info region) T2 Hregion ltac:(lia)) as Hp.
  destruct (prepare_submission _ _ _ _ _ _) as [[k1 b1] [d | e]]; destruct Hp as (P1 & P2 & P3 & P4); eexists _, _; (split; [done |]).
  - exists rq, d. split; [done |]. split; try done; cbn.
    + by apply (in_use_same k).
    + by rewrite P2.
    + intros d' [= <-]. destruct (P4 d eq_refl) as (l & g & E1 & E2 & E3 & E4). exists l. split_and!; [done .. | by eexists].
    + lia.
  - split; try done; cbn; [by apply (in_use_same k) | by rewrite P2 | lia].
Qed.

Lemma init_ok_aid aid aid' init : (aid <> 0 -> aid' = aid) -> init_ok aid init -> init_ok aid' init.
Proof. intros Ha (H1 & H2 & H3). split_and!; [done | | done]. intros Hs. destruct (H2 Hs) as [H4 H5]. rewrite Ha by done. done. Qed.

(** Reserving an address slot, or failing to. *)
Lemma txn_reserve k s t k1 a1 (res : option RioAddrReservation) : txn_inv k s t -> tx_addr t = None -> tx_request t = None ->
  bufs_inv k1 (rr_bufs (ro_registry s)) (ra_buffer_id a1) (txn_leases t ++ omap in_lease I) -> kpending k1 = kpending k ->
  (addr_id (ro_registry s) <> 0 -> ra_buffer_id a1 = addr_id (ro_registry s)) ->
  match res with
  | Some x => addr_ok a1 (ar_slot x :: omap in_addr_slot I) /\ bu_id (ar_buf x) = ra_buffer_id a1 /\ ra_buffer_id a1 <> 0
  | None => addr_ok a1 (omap in_addr_slot I)
  end ->
  txn_inv k1 (ro_set_addrs s a1) (set_addr t res).
Proof.
  intros [T1 T2 T3 T4 T5 T6 T7 T8 T9 T10 T11 T12 T13 T14] Hno Hnr Hb Hp Ha Hres. split; try done; cbn.
  - intros q i Hq Hi. rewrite Hp in Hq. destruct (T3 q i Hq Hi) as [? | [-> Hz]]; [by left | right]. rewrite Ha by done. done.
  - destruct res as [x |]; cbn; [by destruct Hres | done].
  - eapply Forall_impl; [exact T5 |]. intros init. by apply init_ok_aid.
  - destruct T6 as (new & E1 & E2). exists new. split; [done |]. unfold txn_request in *. cbn. by rewrite Hnr in *.
  - by rewrite Hp.
  - intros a [= ->]. by destruct Hres as (_ & ? & ?).
Qed.

Lemma txn_no_addr t : tx_addr t = None -> set_addr t None = t.
Proof. intros Ha. destruct t. cbn in *. by subst. Qed.

Lemma address_stage_ok : stage_ok at_buffer at_address (prepare_address plan).
Proof.
  intros [[k s] t] (rq & d & Ht & Hw). cbn in Ht. set (t0 := set_data _ _) in Ht. subst t. unfold prepare_address.
  destruct (kn_dispatch _); cbn [negb]; [| by eexists _, _]. unfold prepare_submit_address.
  pose proof (tv_bufs _ _ _ Hw) as Hb. pose proof (tv_addr _ _ _ Hw) as Ha. cbn in Hb, Ha.
  destruct (pl_address plan) as [| addr len | [|]] eqn:Hpa.
  - rewrite bind_ret. eexists _, _. split; [done |]. exists rq, d, None. split_and!; [done | by rewrite txn_no_addr | by rewrite Hpa].
  - destruct (prepare_send_addr_ok k _ _ _ _ addr len Hb Ha Hpointer) as (k1 & a1 & r1 & E & B1 & P1 & I1 & R1).
    rewrite E, !bind_ret. destruct r1 as [x | e]; eexists _, _; (split; [done |]).
    + exists rq, d, (Some x). split_and!; [done | by apply (txn_reserve k s t0 k1 a1 (Some x)) | by rewrite Hpa].
    + rewrite <- (txn_no_addr t0) by done. by apply (txn_reserve k s t0 k1 a1 None).
  - destruct (prepare_recv_addr_ok k _ _ _ _ Hb Ha) as (k1 & a1 & r1 & E & B1 & P1 & I1 & R1).
    rewrite E, !bind_ret. destruct r1 as [x | e]; eexists _, _; (split; [done |]).
    + eexists rq, d, (Some _). split_and!; [done | by apply (txn_reserve k s t0 k1 a1 (Some _)) | by rewrite Hpa].
    + rewrite <- (txn_no_addr t0) by done. by apply (txn_reserve k s t0 k1 a1 None).
  - rewrite bind_ret. by eexists _, _.
Qed.

(** The context is written, and the request is built. *)
Definition at_request (w : World) : Prop :=
  txn_at w /\ exists q, tx_request w.2 = Some q /\ (pl_address plan = AddrNone <-> pr_addr q = None).

Lemma encode_stage_ok : stage_ok at_address at_request (encode_context plan).
Proof.
  intros [[k s] t] (rq & d & a & Ht & Hw & Ha). cbn in Ht. subst t. unfold encode_context, next_request_id. cbn [tx_rq tx_socket tx_data set_addr set_data set_socket set_rq txn_new tx_addr].
  set (id := if _ =? 0 then 1 else _). set (init := mkInit _ _ _ _ _ _ _).
  pose proof Hw as [T1 T2 T3 T4 T5 T6 T7 T8 T9 T10 T11 T12 T13 T14]. cbn in *. destruct T6 as (new & E1 & ->). cbn [app] in E1.
  destruct (alloc_request (rr_ctxs (ro_registry s)) init T1) as (x & ctx & E & X1 & X2 & X3); [by rewrite E1 |].
  rewrite E, bind_ret. eexists _, _. split; [done |]. split.
  - split; try done; cbn; try (intros ? [= <-]; by auto).
    exists [(context_raw_of ctx, init)]. split; [by rewrite X3, E1 |]. cbn. exists ctx, init, d. split_and!; try done.
    exists rq, d, (pl_handle plan). by split_and!.
  - eexists. split; [done |]. done.
Qed.

Definition at_lease (w : World) : Prop := at_request w /\ tx_acquired w.2 = true.

Lemma prepared_place b aid d : prepared_ok b d -> id_at b aid <$> (place_of b <$> pb_lease d) = Some (Some (bu_id (pb_buf d))).
Proof. intros (l & -> & <- & _ & [g Hg]). cbn. by rewrite (lease_reg_id b aid l g). Qed.

Lemma lease_stage_ok : stage_ok (fun w => at_request w /\ tx_acquired w.2 = false) at_lease acquire_buffer_ref.
Proof.
  intros [[k s] t] [[Hw (q & Hq & Ha)] Hacq]. unfold acquire_buffer_ref. cbn in Hq, Hacq. rewrite Hacq, Hq.
  pose proof Hw as [T1 T2 T3 T4 T5 T6 T7 T8 T9 T10 T11 T12 T13 T14]. cbn [fst snd] in *.
  destruct T6 as (new & E1 & E2). pose proof E2 as E2'. unfold txn_request in E2. rewrite Hq in E2.
  destruct E2 as (ctx & init & d & Q1 & Q2 & -> & Q4 & Q5 & Q6 & Q7). rewrite Q6.
  destruct (T11 d Q5) as (l & L1 & L2 & L3 & [g L4]). rewrite L1.
  assert (El : txn_leases t = []) by (unfold txn_leases; by rewrite Hacq). rewrite El in T2. cbn [app] in T2.
  destruct (acquire_ok _ _ l g (bi_bufs _ _ _ _ T2) L3 L4) as [(b1 & E & B1 & B3 & B2) | (e & E)]; rewrite E.
  2: { eexists _, _. split; [done |]. change (txn_at (k, ro_set_bufs s (rr_bufs (ro_registry s)), t)). destruct s as [? []]. exact Hw. }
  eexists _, _. split; [done |]. split; [| done]. split; [| by exists q].
  assert (El1 : txn_leases (set_acquired t true) = [l]) by (unfold txn_leases; cbn; by rewrite Q5, L1).
  split; try done; cbn [fst snd ro_set_bufs ro_set_registry ro_registry rr_set_bufs rr_bufs rr_addrs].
  - rewrite El1. cbn [app]. split; [apply T2 | done | | ].
    + eapply ids_ext; [done | | apply T2]. intros p. apply B2.
    + eapply in_use_weaken; [| exact T3]. set_solver.
  - by exists [(context_raw_of ctx, init)].
  - intros d' Hd'. cbn in Hd'. rewrite Q5 in Hd'. injection Hd' as <-. exists l. split_and!; try done. by apply (bo_held _ _ B1 l ltac:(by left)).
  - by rewrite B3.
Qed.

(** What the kernel has of a prepared request. *)
Definition prepared_buffers (q : RioPreparedRequest) : list Z :=
  bu_id (pb_buf (pr_data q)) :: match pr_addr q with Some a => [bu_id (ar_buf a)] | None => [] end.

(** What the closure of a submission does with a prepared request. *)
Definition submits (addr_free : bool) (submit : K -> RioState -> RioPreparedRequest -> outcome (K * RioResult unit)) : Prop :=
  forall k s q ctx, sound k -> pr_context q = Some ctx -> (forall i, i ∈ prepared_buffers q -> i ∈ live k) -> (addr_free = true <-> pr_addr q = None) ->
  exists k' r, submit k s q = Ret (k', r) /\ sound k' /\ live k' = live k /\
    kpending k' = match r with Ok _ => mkKReq (context_raw_of ctx) (prepared_buffers q) :: kpending k | Err _ => kpending k end.

Hypothesis Hsubmit : submits (match pl_address plan with AddrNone => true | _ => false end) submit.

(** The kernel has the request. *)
Definition new_request k s (raw : Z) (init : RioOpRequestInit) : Prop :=
  requests (rr_ctxs (ro_registry s)) ≡ₚ (raw, init) :: R /\ kpending k = kernel_request (raw, init) :: pend /\
  in_token init = pl_token plan /\ in_socket init = pl_handle plan.
Definition at_kernel (w : World) : Prop :=
  exists q ctx init, tx_request w.2 = Some q /\ pr_context q = Some ctx /\ id_ok ctx /\
    core_inv w.1.1 (ro_registry w.1.2) (ro_sockets w.1.2) (n + 1) ext lost [] /\ actors_ok w.1.2 /\ ro_outstanding w.1.2 = n /\
    new_request w.1.1 w.1.2 (context_raw_of ctx) init /\ rb_generation (rr_bufs (ro_registry w.1.2)) <= gen + 1.

(** With the lease acquired, the request owns what it names. *)
Lemma lease_core k s t q : txn_inv k s t -> tx_request t = Some q -> tx_acquired t = true ->
  exists ctx init, pr_context q = Some ctx /\ id_ok ctx /\ requests (rr_ctxs (ro_registry s)) ≡ₚ (context_raw_of ctx, init) :: R /\
    in_token init = pl_token plan /\ in_socket init = pl_handle plan /\ kernel_request (context_raw_of ctx, init) = mkKReq (context_raw_of ctx) (prepared_buffers q) /\
    (forall i, i ∈ prepared_buffers q -> i ∈ live k) /\
    core_inv k (ro_registry s) (ro_sockets s) (n + 1) ext lost [].
Proof.
  intros [T1 T2 T3 T4 T5 T6 T7 T8 T9 T10 T11 T12 T13 T14] Hq Hacq. destruct T6 as (new & E1 & E2). unfold txn_request in E2. rewrite Hq in E2.
  destruct E2 as (ctx & init & d & Q1 & Q2 & -> & (rq & d' & key & I1 & I2 & I3 & I4 & I5 & I6 & I7 & I8 & I9) & Q5 & <- & Q7).
  rewrite Q5 in I2. injection I2 as <-. subst key. destruct (T11 _ Q5) as (l & L1 & L2 & L3 & L4).
  assert (Hl : txn_leases t = [l]) by (unfold txn_leases; by rewrite Hacq, Q5, L1). rewrite Hl in T2.
  assert (Hheld : held (ro_registry s) lost ≡ₚ init :: I) by (unfold held; rewrite E1; done).
  assert (Hk : kernel_request (context_raw_of ctx, init) = mkKReq (context_raw_of ctx) (prepared_buffers q)).
  { unfold kernel_request, prepared_buffers. cbn. rewrite I8, I9, Q7. by destruct (tx_addr t). }
  exists ctx, init. split_and!; try done.
  - intros i Hi. apply (io_live _ _ (bi_ids _ _ _ _ T2)). unfold prepared_buffers in Hi. apply elem_of_cons in Hi as [-> | Hi].
    + destruct L4 as [g Hg]. exists (place_of (rr_bufs (ro_registry s)) l). rewrite <- L2. by eapply lease_reg_id.
    + rewrite Q7 in Hi. destruct (tx_addr t) as [a |] eqn:Hta; [| by apply elem_of_nil in Hi]. apply list_elem_of_singleton in Hi as ->.
      destruct (T12 a eq_refl) as [-> Hz]. exists PAddr. unfold id_at. by destruct (Z.eqb_spec (addr_id (ro_registry s)) 0).
  - split; [done | | | | | |].
    + eapply bufs_inv_perm; [| exact T2]. rewrite Hheld, omap_cons_option, I7, L1. done.
    + eapply addr_perm_ok; [| exact T4]. rewrite Hheld, slot_list_option, <- I8. by rewrite omap_cons_option.
    + rewrite Hheld. constructor; [| done]. split_and!; [| | by rewrite I4].
      * exists l. by rewrite I7, I9, L1, L2.
      * intros Hs. rewrite I8 in Hs. rewrite I9. destruct (tx_addr t) as [a |]; [| by destruct Hs]. cbn. by apply T12.
    + rewrite app_nil_r, T9, E1. cbn. by apply submseteq_cons.
    + rewrite Hheld. cbn [length]. lia.
    + eapply sockets_ok_perm; [| exact T7]. by rewrite Hheld, I3.
Qed.

Lemma kernel_stage_ok : stage_ok at_lease at_kernel (fun '(k, s, t) =>
  match tx_request t with
  | None => stop k s t Internal
  | Some request => r ← submit k s request; match r with (k, Ok _) => pass k s t | (k, Err e) => stop k s t e end
  end).
Proof.
  intros [[k s] t] [[Hw (q & Hq & Ha)] Hacq]. cbn in Hq, Ha, Hacq. rewrite Hq. unfold txn_at in Hw. cbn in Hw.
  destruct (lease_core k s t q Hw Hq Hacq) as (ctx & init & Q1 & Q2 & Q3 & Q4 & Q5 & Q6 & Q7 & Hc).
  destruct (Hsubmit k s q ctx (bi_sound _ _ _ _ (tv_bufs _ _ _ Hw)) Q1 Q7) as (k1 & r & E & S1 & S2 & S3).
  { rewrite <- Ha. by destruct (pl_address plan). }
  rewrite E, bind_ret. destruct r as [u | e]; (eexists _, _; split; [done |]).
  - exists q, ctx, init. cbn [fst snd]. split_and!; try done; [| apply Hw | apply Hw | | apply Hw].
    + destruct Hc as [C1 C2 C3 C4 C5 C6 C7]. assert (Hpp : kpending k1 ++ [] ⊆+ kernel_request <$> requests (rr_ctxs (ro_registry s))).
      { rewrite app_nil_r, S3, (tv_pending _ _ _ Hw), Q3. cbn [fmap list_fmap]. rewrite Q6. by apply submseteq_skip. }
      split; try done. destruct C2 as [B1 B2 B3 B4]. split; [done | done | by eapply ids_ext |].
      eapply in_use_weaken; [| eapply (kernel_requests_use k1 _ _ []); [| exact Hpp]].
      * unfold held. rewrite omap_app. intros y Hy. apply elem_of_app. by left.
      * unfold held in C4. by apply Forall_app in C4 as [? _].
    + split_and!; try done. by rewrite S3, (tv_pending _ _ _ Hw), Q6.
  - unfold txn_at. cbn [fst snd]. by eapply txn_actor; [exact Hw | | | | apply Hw | apply Hw].
Qed.

Definition committed (w : World) : Prop :=
  tx_submitted w.2 = true /\ rio_inv w.1.1 w.1.2 ext lost /\ (exists raw init, new_request w.1.1 w.1.2 raw init) /\
  rb_generation (rr_bufs (ro_registry w.1.2)) <= gen + 1.

Lemma commit_stage_ok : stage_ok at_kernel committed commit.
Proof.
  intros [[k s] t] (q & ctx & init & Hq & Hctx & Hid & Hc & Ha & Ho & Hr & Hg). cbn [fst snd] in *. unfold commit. rewrite Hq, Hctx. cbn [expect]. rewrite bind_ret.
  destruct (context_raw_nonzero ctx Hid) as [Hz _]. destruct (Z.eqb_spec (context_raw_of ctx) 0); [done |].
  rewrite arith_ok by (unfold USIZE_BITS; lia). rewrite bind_ret. eexists _, _. split; [done |].
  split_and!; [done | | by exists (context_raw_of ctx), init | done]. cbn [fst snd]. split; [| done]. cbn. by rewrite Ho.
Qed.

(** *** Rolling back *)

Lemma rollback_lease k s t : txn_inv k s t ->
  exists k1 b1 q, rollback_buffer_ref (k, s, t) = (k1, ro_set_bufs s b1, set_acquired t q) /\
    bufs_inv k1 b1 (addr_id (ro_registry s)) (omap in_lease I) /\ kpending k1 = kpending k /\ rb_generation b1 = rb_generation (rr_bufs (ro_registry s)).
Proof.
  intros [T1 T2 T3 T4 T5 T6 T7 T8 T9 T10 T11 T12 T13 T14]. unfold rollback_buffer_ref, txn_leases in *.
  assert (Hid : (k, s, t) = (k, ro_set_bufs s (rr_bufs (ro_registry s)), set_acquired t (tx_acquired t))) by by destruct s as [? []], t.
  destruct (tx_acquired t) eqn:Hacq; cbn [negb].
  2: { eexists _, _, _. split; [exact Hid |]. by split_and!. }
  destruct (tx_data t) as [d |] eqn:Hd.
  2: { eexists _, _, _. split; [exact Hid |]. by split_and!. }
  destruct (T11 d eq_refl) as (l & Hl & _). rewrite Hl in *. cbn [option_list app] in T2.
  destruct (kn_dispatch _).
  - destruct (lease_release_ok _ _ _ _ _ T2 T3) as (k1 & b1 & -> & B1 & P1 & G1). by eexists _, _, _.
  - destruct (release_deferred_ok _ _ _ _ _ T2 T3) as (b1 & -> & B1 & G1). by eexists _, _, _.
Qed.

Lemma rollback_ctx k s t : txn_inv k s t ->
  exists x, (match tx_request t with
    | Some (mkRequest rq (Some c) data addr) => (take_request_context_init (rr_ctxs (ro_registry s)) c).1
    | _ => rr_ctxs (ro_registry s) end) = x /\ ctx_ok x /\ requests x ≡ₚ R.
Proof.
  intros [T1 T2 T3 T4 T5 (new & E1 & E2) T7 T8 T9 T10 T11 T12 T13 T14]. eexists. split; [done |]. unfold txn_request in E2.
  destruct (tx_request t) as [[rq c data addr] |]; [| subst new; by split].
  destruct E2 as (ctx & init & d & Hc & Hid & -> & _). cbn in Hc. subst c.
  destruct (take_request (rr_ctxs (ro_registry s)) ctx init T1 Hid) as (x & -> & X1 & X2); [rewrite E1; by left |].
  split; [done |]. cbn. rewrite E1 in X2. cbn in X2. by apply (inj (cons (context_raw_of ctx, init))) in X2.
Qed.

(** Everything of a transaction that was not submitted is undone. *)
Lemma rollback_ok w : txn_at w ->
  exists k' s' t', drop_txn w = (k', s', t') /\ rio_inv k' s' ext lost /\ requests (rr_ctxs (ro_registry s')) ≡ₚ R /\ kpending k' = pend /\
    rb_generation (rr_bufs (ro_registry s')) <= gen + 1.
Proof.
  destruct w as [[k s] t]. unfold txn_at. cbn [fst snd]. intros Ht. unfold drop_txn. cbn [snd]. rewrite (tv_submitted _ _ _ Ht).
  destruct (rollback_lease k s t Ht) as (k1 & b1 & acq & -> & B1 & P1 & G1). destruct (rollback_ctx k s t Ht) as (x & Hx & X1 & X2).
  assert (E : exists q, rollback_context (k1, ro_set_bufs s b1, set_acquired t acq) = (k1, ro_set_ctxs (ro_set_bufs s b1) x, set_request (set_acquired t acq) q)).
  { unfold rollback_context. cbn [tx_request set_acquired]. destruct (tx_request t) as [[rq [c |] data addr] |] eqn:Hq.
    - cbn [ro_set_bufs ro_set_registry ro_registry rr_set_bufs rr_ctxs]. destruct (take_request_context_init _ c) as [x' o]. cbn in Hx. subst x'. by eexists.
    - subst x. exists (Some (mkRequest rq None data addr)). destruct s as [? []], t; cbn in *. by subst.
    - subst x. exists None. destruct s as [? []], t; cbn in *. by subst. }
  destruct E as [q ->]. unfold rollback_address. cbn [set_request set_acquired tx_addr].
  pose proof (free_addr_option_ok _ _ _ (tv_addr _ _ _ Ht)) as Ha.
  pose proof Ht as [T1 T2 T3 T4 T5 T6 T7 T8 T9 T10 T11 T12 T13 T14].
  assert (Hcore : forall m, sockets_ok m ext (in_socket <$> I) -> core_inv k1
      (rr_set_addrs (rr_set_ctxs (rr_set_bufs (ro_registry s) b1) x) (free_addr_slot (rr_addrs (ro_registry s)) (ar_slot <$> tx_addr t))) m n ext lost []).
  { intros m Hm. assert (Hh : forall r, rr_ctxs r = x -> held r lost ≡ₚ I) by (intros r <-; unfold held; by rewrite X2).
    split; cbn [rr_set_addrs rr_set_ctxs rr_set_bufs rr_ctxs rr_bufs rr_addrs]; rewrite ?free_addr_buffer.
    - done.
    - eapply bufs_inv_perm; [| exact B1]. by rewrite Hh.
    - eapply addr_perm_ok; [| exact Ha]. by rewrite Hh.
    - by rewrite Hh.
    - by rewrite app_nil_r, P1, T9, X2.
    - by rewrite Hh.
    - eapply sockets_ok_perm; [| exact Hm]. by rewrite Hh. }
  unfold rollback_socket. cbn [tx_socket set_addr set_request set_acquired]. destruct (tx_socket t) as [key |] eqn:Hk; cbn [option_list app] in T7.
  - destruct (release_token_ok _ _ _ _ T7) as (m & Em & Hm & Hdom). unfold release_socket_inflight_token. cbn. rewrite Em. cbn.
    eexists _, _, _. split; [done |]. split_and!; [split | done | by rewrite P1 | cbn; lia].
    + cbn. rewrite T10. by apply Hcore.
    + intros key' ak Hak. apply Hdom. by apply (T8 key' ak).
  - eexists _, _, _. split; [done |]. split_and!; [split | done | by rewrite P1 | cbn; lia].
    + cbn. rewrite T10. by apply Hcore.
    + done.
Qed.

(** ** A submission is a transaction *)

Lemma stages_ok : stage_ok (fun w => (txn_at w /\ rb_generation (rr_bufs (ro_registry w.1.2)) <= gen) /\ w.2 = txn_new) committed (submit_stages plan chunk_info region submit).
Proof.
  unfold submit_stages. apply (stage_then _ (fun w => (txn_at w /\ rb_generation (rr_bufs (ro_registry w.1.2)) <= gen) /\ w.2 = txn_new)).
  { intros w [[Hw Hg] Ht]. destruct (check_ok w (conj Hw Ht)) as (w' & r & E & Hr). exists w', r. split; [exact E |].
    destruct r as [u |]; [| done]. unfold check_socket_accepting in E. destruct w as [[k s] t]. cbn in Hg, Ht. 
    assert (Ew : w' = (k, s, t)) by (repeat case_match; unfold pass, stop in E; congruence). subst w'. exact (conj (conj Hw Hg) Ht). }
  eapply stage_then; [apply actor_stage_ok |]. eapply stage_then; [apply socket_stage_ok |]. eapply stage_then; [apply buffer_stage_ok |].
  eapply stage_then; [apply address_stage_ok |]. eapply stage_then; [apply encode_stage_ok |].
  eapply stage_then; [| apply commit_stage_ok]. unfold submit_kernel. eapply stage_then; [| apply kernel_stage_ok].
  intros w Hw. destruct (tx_acquired w.2) eqn:Hacq; [| by apply lease_stage_ok].
  destruct w as [[k s] t]. cbn in Hacq. unfold acquire_buffer_ref. rewrite Hacq. by eexists _, _.
Qed.

Lemma submit_rio_ok k s : rio_inv k s ext lost -> requests (rr_ctxs (ro_registry s)) = R -> kpending k = pend -> ro_outstanding s = n ->
  rb_generation (rr_bufs (ro_registry s)) <= gen ->
  exists k' s' r, submit_rio plan chunk_info region submit k s = Ret (k', s', r) /\ rio_inv k' s' ext lost /\
    rb_generation (rr_bufs (ro_registry s')) <= gen + 1 /\
    match r with
    | Ok _ => exists raw init, new_request k' s' raw init
    | Err _ => requests (rr_ctxs (ro_registry s')) ≡ₚ R /\ kpending k' = pend
    end.
Proof.
  intros [Hc Ha] HRs Hp Ho Hg. unfold submit_rio. destruct (stages_ok (k, s, txn_new)) as (w & r & E & Hr).
  { split; [| done]. split; [| exact Hg]. destruct Hc as [C1 C2 C3 C4 C5 C6 C7]. unfold held in *. rewrite HRs in *.
    split; cbn; try done; [| exists []; by rewrite HRs | lia]. eapply in_use_weaken; [| eapply kernel_requests_use; [| exact C5]].
    - unfold I. rewrite omap_app. intros y Hy. apply elem_of_app. by left.
    - by apply Forall_app in C4 as [? _]. }
  rewrite E, bind_ret. destruct r as [[] | e].
  - destruct w as [[k1 s1] t1], Hr as (H1 & H2 & H3 & H4). unfold drop_txn. cbn [fst snd] in *. rewrite H1. exists k1, s1, (Ok tt). by split_and!.
  - destruct (rollback_ok w Hr) as (k1 & s1 & t1 & -> & I1 & R1 & P1 & G1). exists k1, s1, (Err e). by split_and!.
Qed.
End submission.

(** ** Shutdown *)

(** The drain gives back what a request held, and defers the deregistrations. *)
Lemma drain_result_ok k s ext lost q todo res : core_inv k (ro_registry s) (ro_sockets s) (ro_outstanding s) ext lost (q :: todo) ->
  rs_context res = kr_context q ->
  exists s', handle_drain_result s res = (s', Ok tt) /\
    core_inv k (ro_registry s') (ro_sockets s') (ro_outstanding s') ext lost todo /\ ro_kernel s' = ro_kernel s /\ ro_by_handle s' = ro_by_handle s.
Proof.
  intros Hc Hq. destruct (core_take _ _ _ _ _ _ _ _ Hc) as (x & init & Hd & Hc' & _). unfold handle_drain_result. rewrite Hq, Hd.
  destruct (core_split _ _ _ _ _ _ _ _ Hc') as (l & Hl & Hb & Hu & Ha & Hi & Hn & Hs). rewrite Hl.
  destruct (release_deferred_ok _ _ _ _ _ Hb Hu) as (b & E & B1 & _). destruct (release_token_ok _ _ _ _ Hs) as (m & Em & Hm & _).
  cbn [ro_set_ctxs ro_set_addrs ro_set_registry ro_registry rr_set_ctxs rr_set_addrs rr_bufs ro_sockets ro_set_bufs rr_set_bufs ro_set_sockets ro_outstanding] in *.
  rewrite E, Em. match goal with |- context [0 <? ?y] => replace (0 <? y) with true by (symmetry; apply Z.ltb_lt; cbn; lia) end.
  eexists. split; [done |]. split; [| done]. destruct Hc' as [C1 C2 C3 C4 C5 C6 C7]. split; cbn; try done.
  - by rewrite free_addr_buffer.
  - by apply free_addr_option_ok.
  - by rewrite free_addr_buffer.
  - unfold held in *. cbn in *. lia.
Qed.

Lemma drain_batch_ok k l fin ext lost : forall s, core_inv k (ro_registry s) (ro_sockets s) (ro_outstanding s) ext lost fin ->
  map kr_context fin = map rs_context l ->
  exists s', drain_batch s l = (s', Ok tt) /\ core_inv k (ro_registry s') (ro_sockets s') (ro_outstanding s') ext lost [] /\
    ro_kernel s' = ro_kernel s /\ ro_by_handle s' = ro_by_handle s.
Proof.
  revert fin. induction l as [| res l IH]; intros fin s Hc Hm; (destruct fin as [| q fin]; [| try done]; try done).
  { by exists s. }
  injection Hm as Hq Hm. cbn [drain_batch].
  destruct (drain_result_ok k s ext lost q fin res Hc ltac:(done)) as (s1 & -> & C1 & K1 & B1).
  destruct (IH fin s1 C1 Hm) as (s2 & -> & C2 & K2 & B2). exists s2. split_and!; [done | done | congruence | congruence].
Qed.

(** Why the drain gave up: its time was over, or the completion queue was corrupt. *)
Definition drain_gave_up k (start timeout : Z) : Prop :=
  timeout <= saturating_sub (now k) start \/
  exists k0 (s0 : RioState), rio_dequeue k0 s0 MAX_RIO_RESULTS = (k, CorruptCq).

(** The drain returns: every batch takes requests from the kernel, every eleventh
    empty round sleeps, and the time is bounded. *)
Lemma rio_drain_ok fuel k s start timeout yields ext lost (slack : Z) :
  core_inv k (ro_registry s) (ro_sockets s) (ro_outstanding s) ext lost [] -> (yields <= 10)%nat -> 0 < timeout -> 0 <= slack ->
  start + timeout - now k <= 1000000 * slack ->
  Z.of_nat fuel = slack + 11 * Z.of_nat (length (kpending k)) + (10 - Z.of_nat yields) + 1 ->
  exists k' s' r, drain_loop fuel k s start timeout yields = Ret (k', s', r) /\
    core_inv k' (ro_registry s') (ro_sockets s') (ro_outstanding s') ext lost [] /\ ro_kernel s' = ro_kernel s /\ ro_by_handle s' = ro_by_handle s /\
    match r with Ok _ => ro_outstanding s' <= 0 | Err _ => 0 < ro_outstanding s' /\ drain_gave_up k' start timeout end.
Proof.
  revert k s yields slack. induction fuel as [| fuel IH]; intros k s yields slack Hc Hy Ht Hs Hb Hf; [lia |]. cbn [drain_loop].
  destruct (Z.leb_spec (ro_outstanding s) 0) as [Ho | Ho]; [by eexists _, _, _ |].
  unfold saturating_sub. destruct (Z.leb_spec timeout (Z.max 0 (now k - start))) as [Hto | Hto].
  { eexists _, _, _. do 4 (split; [done |]). split; [done | by left]. }
  pose proof (bi_sound _ _ _ _ (ci_bufs _ _ _ _ _ _ _ Hc)) as Hsd. pose proof (rio_dequeue_ok k s MAX_RIO_RESULTS Hsd) as Hd.
  destruct (rio_dequeue k s MAX_RIO_RESULTS) as [k1 d] eqn:Edq. destruct Hd as (D1 & D2 & D4 & D3). destruct d as [l |].
  2: { assert (Hc1 : core_inv k1 (ro_registry s) (ro_sockets s) (ro_outstanding s) ext lost []) by by eapply core_kernel.
       eexists _, _, _. do 4 (split; [done |]). split; [done | right; by exists k, s]. }
  destruct D3 as (_ & fin & Hm & Hp). assert (Hc1 : core_inv k1 (ro_registry s) (ro_sockets s) (ro_outstanding s) ext lost fin) by by eapply core_dequeue.
  pose proof (Permutation_length Hp) as Hlen. rewrite length_app in Hlen. destruct l as [| res l].
  - destruct fin; [| done]. cbn in Hlen. unfold snooze. destruct (Nat.ltb_spec yields 10) as [Hy' | Hy'].
    + destruct (law_yield k1 D1) as (Y1 & Y2 & Y3 & Y4). apply (IH _ s (S yields) slack); [by eapply core_kernel | lia | done | done | lia | rewrite Y3; lia].
    + destruct (law_sleep k1 1 D1) as (Y1 & Y2 & Y3 & Y4). apply (IH _ s yields (slack - 1)); [by eapply core_kernel | lia | done | lia | lia | rewrite Y3; lia].
  - destruct fin as [| q fin]; [done |]. destruct (drain_batch_ok k1 (res :: l) (q :: fin) ext lost s Hc1 Hm) as (s1 & E & C1 & K1 & B1). rewrite E.
    cbn in Hlen. destruct (IH k1 s1 0%nat (Z.of_nat fuel - 11 * Z.of_nat (length (kpending k1)) - 11)) as (k' & s' & r & E2 & C2 & K2 & B2 & R2); [done | lia | done | lia | lia | lia |].
    exists k', s', r. split_and!; [done | done | congruence | congruence | done].
Qed.

Lemma sockets_ok_default m ext S key st : sockets_ok m ext S -> m !! key = Some st -> so_inflight st = sockets_of key S + ext key.
Proof. intros Hs Hm. destruct (Hs key) as [E _]. by rewrite Hm in E. Qed.

(** With nothing outstanding nothing is held. *)
Lemma core_empty k r m n ext lost : core_inv k r m n ext lost [] -> n <= 0 -> held r lost = [] /\ requests (rr_ctxs r) = [] /\ lost = [] /\ kpending k = [].
Proof.
  intros [C1 C2 C3 C4 C5 C6 C7] Hn. assert (Hh : held r lost = []) by (apply length_zero_iff_nil; lia).
  unfold held in Hh. apply app_nil in Hh as [Hr Hl]. assert (Hreq : requests (rr_ctxs r) = []) by by apply fmap_nil_inv in Hr.
  split_and!; try done; [unfold held; by rewrite Hr, Hl |]. rewrite Hreq, app_nil_r in C5. by apply submseteq_nil_r in C5.
Qed.

Lemma stop_accepting_ok k s ext lost todo : core_inv k (ro_registry s) (ro_sockets s) (ro_outstanding s) ext lost todo ->
  let s' := stop_accepting_new_submissions s in
  core_inv k (ro_registry s') (ro_sockets s') (ro_outstanding s') ext lost todo /\ ro_kernel s' = ro_kernel s /\ ro_by_handle s' = ∅.
Proof.
  intros [C1 C2 C3 C4 C5 C6 C7]. split; [| done]. split; try done. intros key. destruct (C7 key) as [E He]. split; [| done].
  transitivity (so_inflight (default socket_state_default (ro_sockets s !! key))); [| exact E]. cbn. rewrite lookup_fmap. by destruct (ro_sockets s !! key).
Qed.

(** Without other operations the state can be finalized when nothing is
    outstanding: everything is deregistered. *)
Lemma rio_finalize_ok k s : core_inv k (ro_registry s) (ro_sockets s) (ro_outstanding s) (fun _ => 0) [] [] -> ro_outstanding s <= 0 ->
  kn_dispatch (ro_kernel s) = true ->
  exists k' s', finalize_cleanup k s = Ret (k', s') /\ sound k' /\ live k' = ∅ /\ kpending k' = [] /\
    core_inv k' (ro_registry s') (ro_sockets s') (ro_outstanding s') (fun _ => 0) [] [] /\ ro_outstanding s' <= 0 /\ kn_dispatch (ro_kernel s') = true.
Proof.
  intros Hc Hn Hd. destruct (core_empty _ _ _ _ _ _ Hc Hn) as (Hh & Hr & _ & Hp).
  destruct (stop_accepting_ok _ _ _ _ _ Hc) as (Hc1 & K1 & _). cbn zeta in Hc1. unfold finalize_cleanup.
  set (s1 := stop_accepting_new_submissions s) in *. assert (Hreg : ro_registry s1 = ro_registry s) by done.
  assert (Ho : ro_outstanding s1 = 0) by (pose proof (ci_count _ _ _ _ _ _ _ Hc1) as E; rewrite Hreg, Hh in E; exact E).
  rewrite Ho, Z.eqb_refl. unfold forget_runtime_after_drain. rewrite Ho, Z.eqb_refl. cbn [assert]. rewrite bind_ret.
  rewrite bool_decide_eq_true_2.
  2: { intros key st Hst. rewrite (sockets_ok_default _ _ _ _ _ (ci_sockets _ _ _ _ _ _ _ Hc1) Hst), Hreg, Hh. done. }
  cbn [assert]. rewrite !bind_ret. clearbody s1. cbn [ro_kernel ro_set_sockets ro_set_actors ro_registry]. rewrite K1, Hd.
  destruct Hc1 as [C1 C2 C3 C4 C5 C6 C7]. rewrite Hreg, Hh in *. cbn in C2, C3.
  pose proof (cleanup_ok k (ro_registry s) C2 C3 Hp) as Hcl. destruct (cleanup_deregister k (ro_registry s)) as [k1 r1].
  destruct Hcl as (B1 & A1 & P1 & L1 & X1 & I1). unfold kernel_close. cbn [ro_kernel ro_set_registry ro_set_sockets ro_set_actors]. rewrite K1, Hd.
  assert (Hcore : forall k2 r2, r2 = r1 -> sound k2 -> live k2 = live k1 -> kpending k2 = [] ->
    core_inv k2 r2 (∅ : gmap SocketKey SocketRuntimeState) (ro_outstanding s1) (fun _ => 0) [] []).
  { intros k2 r2 -> S2 L2 P2. assert (Hh1 : held r1 [] = []) by (unfold held; by rewrite X1, Hr). split; rewrite ?Hh1; try done.
    - by rewrite X1.
    - apply (same_tables_inv k1 k2 (rr_bufs r1)); try done. by rewrite P2.
    - rewrite P2. apply submseteq_nil_l. }
  destruct (negb _) eqn:Hcq.
  - unfold close_cq. destruct (is_invalid _); cbn [negb] in Hcq; [done |].
    destruct (law_close_cq k1 (kn_cq (ro_kernel s)) (bi_sound _ _ _ _ B1) P1) as (S2 & L2 & P2).
    eexists _, _. split; [done |]. cbn. split_and!; [done | by rewrite L2 | done | by apply Hcore | lia | done].
  - eexists _, _. split; [done |]. cbn. split_and!; [apply B1 | done | done | apply Hcore; [done | apply B1 | done | done] | lia | by rewrite K1].
Qed.

Definition drain_fuel k : nat := Z.to_nat 5011 + 11 * length (kpending k).

(** Dropping the backend returns.  Either nothing is registered any more and the
    kernel has no request, or the state is leaked with the memory that the kernel
    works on. *)
Lemma drop_ok k s lost : rio_inv k s (fun _ => 0) lost -> kn_dispatch (ro_kernel s) = true -> kn_cq (ro_kernel s) <> INVALID ->
  exists k' s' d, drop_rio_state (drain_fuel k) k s = Ret (k', s', d) /\ sound k' /\
    match d with
    | Finalized => live k' = ∅ /\ kpending k' = []
    | Leaked => core_inv k' (ro_registry s') (ro_sockets s') (ro_outstanding s') (fun _ => 0) lost [] /\ 0 < ro_outstanding s' /\
        drain_gave_up k' (now k) RIO_REAPER_DRAIN_TIMEOUT
    end.
Proof.
  intros [Hc _] Hd Hcq. destruct (stop_accepting_ok _ _ _ _ _ Hc) as (Hc1 & K1 & _). unfold drop_rio_state. cbn zeta in Hc1.
  set (s1 := stop_accepting_new_submissions s) in *. clearbody s1.
  destruct (Z.eqb_spec (ro_outstanding s1) 0) as [Ho | Ho].
  - destruct (core_empty _ _ _ _ _ _ Hc1) as (_ & _ & -> & _); [lia |].
    destruct (rio_finalize_ok k s1 Hc1) as (k2 & s2 & -> & S2 & L2 & P2 & _); [lia | by rewrite K1 |]. rewrite bind_ret. by eexists _, _, _.
  - unfold is_invalid. rewrite K1. destruct (Z.eqb_spec (kn_cq (ro_kernel s)) 0); [done |]. cbn [negb]. unfold deferred_run, drain_outstanding.
    destruct (stop_accepting_ok k (ro_set_armed s1 true) _ lost [] Hc1) as (Hc2 & K2 & _). cbn zeta in Hc2.
    set (s2 := stop_accepting_new_submissions _) in *. clearbody s2.
    destruct (rio_drain_ok (drain_fuel k) k s2 (now k) RIO_REAPER_DRAIN_TIMEOUT 0 _ lost 5000 Hc2) as (k3 & s3 & r & -> & C3 & K3 & _ & R3);
      [lia | done | done | unfold RIO_REAPER_DRAIN_TIMEOUT; lia | unfold drain_fuel; lia |].
    rewrite bind_ret. destruct r as [u | e].
    + destruct (core_empty _ _ _ _ _ _ C3 R3) as (_ & _ & -> & _).
      destruct (rio_finalize_ok k3 s3 C3 R3) as (k4 & s4 & -> & S4 & L4 & P4 & C4 & O4 & D4); [by rewrite K3, K2; cbn; rewrite K1 |]. rewrite bind_ret.
      destruct (rio_finalize_ok k4 s4 C4 O4 D4) as (k5 & s5 & -> & S5 & L5 & P5 & _). rewrite bind_ret. by eexists _, _, _.
    + destruct R3 as [O3 G3]. destruct (Z.ltb_spec 0 (ro_outstanding s3)); [| lia]. eexists _, _, _. split; [done |]. split; [apply C3 | done].
Qed.
End completions.

(** ** The four operations *)

(** A submission, with the arguments of [try_submit_recv] and the others. *)
Inductive RioSubmission : Type :=
  | SubmitRecv (handle : IocpHandle) (token : OpToken) (buf : FixedBuf) (buf_offset : Z)
  | SubmitSend (handle : IocpHandle) (token : OpToken) (buf : FixedBuf) (buf_offset : Z)
  | SubmitSendTo (handle : IocpHandle) (token : OpToken) (buf : FixedBuf) (buf_offset : Z) (addr : Pointer) (addr_len : Z)
  | SubmitRecvFrom (handle : IocpHandle) (token : OpToken) (buf : FixedBuf) (buf_offset : Z) (addr : bool).
Definition submission_token (q : RioSubmission) : OpToken :=
  match q with SubmitRecv _ t _ _ | SubmitSend _ t _ _ | SubmitSendTo _ t _ _ _ _ | SubmitRecvFrom _ t _ _ _ => t end.
Definition submission_handle (q : RioSubmission) : IocpHandle :=
  match q with SubmitRecv h _ _ _ | SubmitSend h _ _ _ | SubmitSendTo h _ _ _ _ _ | SubmitRecvFrom h _ _ _ _ => h end.
(** An address can be read as far as its length says. *)
Definition submission_ok (q : RioSubmission) : Prop :=
  0 <= tk_index (submission_token q) /\ match q with SubmitSendTo _ _ _ _ addr len => pointer_ok addr len | _ => True end.

Section operations.
Context {K : Type} `{Laws : RioLaws K} `{!RioActors} `{!IocpPayloads} {Peak : RioPeak}.
Notation RioState := (RioState IocpUserPayload).
Variables (chunk_info : Z -> option (Z * Z)) (region : FixedBuf -> RegionInfo).
Implicit Types (k : K) (s : RioState) (ops : OpRegistry (Spec := IocpSlotSpec)).

Definition submission k s (q : RioSubmission) : outcome (K * RioState * RioResult unit) :=
  match q with
  | SubmitRecv h t buf off => try_submit_recv chunk_info region k s h t buf off
  | SubmitSend h t buf off => try_submit_send chunk_info region k s h t buf off
  | SubmitSendTo h t buf off addr len => try_submit_send_to chunk_info region k s h t buf off addr len
  | SubmitRecvFrom h t buf off addr => try_submit_recv_from chunk_info region k s h t buf off addr
  end.

(** The closures pass the prepared request to the kernel. *)
Lemma submits_plain (fn : K -> Z -> RioBuf -> Z -> K * bool) :
  (forall k rq buf ctx, sound k -> bu_id buf ∈ live k -> let (k', ok) := fn k rq buf ctx in
    sound k' /\ live k' = live k /\ kpending k' = if ok : bool then mkKReq ctx [bu_id buf] :: kpending k else kpending k) ->
  submits true (submit_call (fun k rq q ctx => non_false (fn k rq (pb_buf (pr_data q)) ctx) Datapath) (P := IocpUserPayload)).
Proof.
  intros Hfn k s q ctx Hs Hctx Hlive [Ha _]. unfold submit_call. rewrite Hctx. cbn [expect]. rewrite bind_ret.
  destruct (kn_dispatch _); cbn [negb]; [| by eexists _, _].
  pose proof (Hfn k (pr_rq q) (pb_buf (pr_data q)) (context_raw_of ctx) Hs (Hlive _ ltac:(by left))) as Hl. unfold non_false.
  destruct (fn _ _ _ _) as [k' ok]. destruct Hl as (A & B & C). eexists _, _. split; [done |]. split_and!; [done | done |].
  cbn. unfold prepared_buffers. rewrite Ha by done. by destruct ok.
Qed.

Lemma submits_address (fn : K -> Z -> RioBuf -> RioBuf -> Z -> K * bool) :
  (forall k rq data addr ctx, sound k -> bu_id data ∈ live k -> bu_id addr ∈ live k -> let (k', ok) := fn k rq data addr ctx in
    sound k' /\ live k' = live k /\ kpending k' = if ok : bool then mkKReq ctx [bu_id data; bu_id addr] :: kpending k else kpending k) ->
  submits false (with_addr (fun k rq data addr ctx => non_false (fn k rq data addr ctx) Datapath) (P := IocpUserPayload)).
Proof.
  intros Hfn k s q ctx Hs Hctx Hlive [_ Ha]. unfold with_addr. destruct (pr_addr q) as [a |] eqn:Hpa; [| by discriminate Ha].
  unfold submit_call. rewrite Hctx. cbn [expect]. rewrite bind_ret. destruct (kn_dispatch _); cbn [negb]; [| by eexists _, _].
  unfold prepared_buffers in *. rewrite Hpa in *.
  pose proof (Hfn k (pr_rq q) (pb_buf (pr_data q)) (ar_buf a) (context_raw_of ctx) Hs (Hlive _ ltac:(by left)) (Hlive _ ltac:(right; by left))) as Hl.
  unfold non_false. destruct (fn _ _ _ _ _) as [k' ok]. destruct Hl as (A & B & C). eexists _, _. split; [done |]. split_and!; [done | done |]. by destruct ok.
Qed.

(** A submission succeeds as a whole or leaves no trace. *)
Lemma submission_keeps ext lost k s q : rio_inv k s ext lost -> submission_ok q -> (forall buf, 0 <= ri_id (region buf)) ->
  rb_generation (rr_bufs (ro_registry s)) < U64_MAX -> ro_outstanding s < rio_peak ->
  exists k' s' r, submission k s q = Ret (k', s', r) /\ rio_inv k' s' ext lost /\
    rb_generation (rr_bufs (ro_registry s')) <= rb_generation (rr_bufs (ro_registry s)) + 1 /\
    match r with
    | Ok _ => exists raw init, requests (rr_ctxs (ro_registry s')) ≡ₚ (raw, init) :: requests (rr_ctxs (ro_registry s)) /\
        kpending k' = kernel_request (raw, init) :: kpending k /\ in_token init = submission_token q /\ in_socket init = submission_handle q
    | Err _ => requests (rr_ctxs (ro_registry s')) ≡ₚ requests (rr_ctxs (ro_registry s)) /\ kpending k' = kpending k
    end.
Proof.
  intros Hi [Ht Hp] Hreg Hg Ho. pose proof rio_peak_ok. pose proof (ri_core _ _ _ _ Hi) as Hc. pose proof (ci_count _ _ _ _ _ _ _ Hc) as Hn.
  pose proof (ci_pending _ _ _ _ _ _ _ Hc) as Hpe. rewrite app_nil_r in Hpe.
  assert (Hlen : Z.of_nat (length (requests (rr_ctxs (ro_registry s)))) <= ro_outstanding s) by (rewrite Hn; unfold held; rewrite length_app, length_fmap; lia).
  assert (Hall : forall plan submit, pl_token plan = submission_token q -> pl_handle plan = submission_handle q ->
    match pl_address plan with AddrSendTo addr len => pointer_ok addr len | _ => True end ->
    submits (match pl_address plan with AddrNone => true | _ => false end) submit ->
    exists k' s' r, submit_rio plan chunk_info region submit k s = Ret (k', s', r) /\ rio_inv k' s' ext lost /\
      rb_generation (rr_bufs (ro_registry s')) <= rb_generation (rr_bufs (ro_registry s)) + 1 /\
      match r with
      | Ok _ => exists raw init, new_request plan (requests (rr_ctxs (ro_registry s))) (kpending k) k' s' raw init
      | Err _ => requests (rr_ctxs (ro_registry s')) ≡ₚ requests (rr_ctxs (ro_registry s)) /\ kpending k' = kpending k
      end).
  { intros plan submit Et Eh Hptr Hsub.
    apply (submit_rio_ok plan chunk_info region submit ext lost (requests (rr_ctxs (ro_registry s))) (kpending k) (ro_outstanding s)
      (rb_generation (rr_bufs (ro_registry s)))); try done; [lia | lia | by rewrite Et]. }
  unfold new_request in Hall.
  destruct q as [h t buf off | h t buf off | h t buf off addr len | h t buf off addr]; cbn [submission submission_token submission_handle] in *.
  - destruct (Hall (mkPlan h t RioRecv SubRecv buf off AddrNone NotSupported) kernel_receive) as (k' & s' & r & E & I' & G & R); try done; [by apply (submits_plain fn_receive law_receive) |].
    exists k', s', r. by split_and!.
  - destruct (Hall (mkPlan h t RioSend SubSend buf off AddrNone NotSupported) kernel_send) as (k' & s' & r & E & I' & G & R); try done; [by apply (submits_plain fn_send law_send) |].
    exists k', s', r. by split_and!.
  - destruct (Hall (mkPlan h t RioSendTo SubSend buf off (AddrSendTo addr len) Internal) kernel_send_ex) as (k' & s' & r & E & I' & G & R); try done; [by apply (submits_address fn_send_ex law_send_ex) |].
    exists k', s', r. by split_and!.
  - destruct (Hall (mkPlan h t RioRecvFrom SubRecv buf off (AddrRecvFrom addr) Internal) kernel_receive_ex) as (k' & s' & r & E & I' & G & R); try done; [by apply (submits_address fn_receive_ex law_receive_ex) |].
    exists k', s', r. by split_and!.
Qed.

(** ** Histories *)

(** Windows, the backend, the slots of the driver, and the sockets that accepts
    and connects hold. *)
Record RioWorld : Type := mkWorld { wd_kernel : K; wd_state : RioState; wd_ops : OpRegistry (Spec := IocpSlotSpec); wd_tokens : list SocketKey }.
Implicit Types (w : RioWorld).

(** The driver and its futures change the slots: [CallSlots] has any table that
    the slot types allow. *)
Inductive RioCall : Type :=
  | CallSubmit (q : RioSubmission)
  | CallProcess
  | CallSlots (ops : OpRegistry (Spec := IocpSlotSpec))
  | CallMark (key : SocketKey)
  | CallClose (key : SocketKey)
  | CallDeferred (key : SocketKey)
  | CallHold (key : SocketKey)
  | CallUnhold (i : nat)
  | CallChunk (id : Z) (mem : Z * Z).
Definition rio_call_ok (c : RioCall) : Prop :=
  match c with CallSubmit q => submission_ok q | CallSlots ops => reg_inv ops | CallChunk id _ => 0 <= id | _ => True end.

Definition rio_call (fuel : nat) w (c : RioCall) : outcome RioWorld :=
  let '(mkWorld k s ops toks) := w in
  match c with
  | CallSubmit q => '(k, s, _) ← submission k s q; Ret (mkWorld k s ops toks)
  | CallProcess => '(k, s, ops, _) ← process_completions fuel k s ops; Ret (mkWorld k s ops toks)
  | CallSlots ops => Ret (mkWorld k s ops toks)
  | CallMark key => Ret (mkWorld k (mark_socket_registered s key) ops toks)
  | CallClose key => '(s, _) ← close_socket s key; Ret (mkWorld k s ops toks)
  | CallDeferred key => '(s, _) ← drain_deferred_socket s key; Ret (mkWorld k s ops toks)
  | CallHold key =>
      match ro_sockets s !! key with
      | None => Ret w
      | Some _ => '(s, r) ← try_acquire_socket_inflight_token s key; Ret (mkWorld k s ops (match r with Ok key => key :: toks | Err _ => toks end))
      end
  | CallUnhold i =>
      match toks !! i with
      | Some key => Ret (mkWorld k (release_socket_inflight_token s key).1 ops (delete i toks))
      | None => Ret w
      end
  | CallChunk id mem => let '(k, s, _) := rio_register_chunk k s id mem in Ret (mkWorld k s ops toks)
  end.
Fixpoint rio_calls (fuel : nat) w (cs : list RioCall) : outcome RioWorld :=
  match cs with
  | [] => Ret w
  | c :: cs => w ← rio_call fuel w c; rio_calls fuel w cs
  end.

(** Fewer than [rio_peak] requests are outstanding whenever a request is submitted. *)
Definition has_room w (c : RioCall) : bool :=
  match c with CallSubmit _ => ro_outstanding (wd_state w) <? rio_peak | _ => true end.
Fixpoint rio_bounded (fuel : nat) w (cs : list RioCall) : bool :=
  match cs with
  | [] => true
  | c :: cs => has_room w c && match rio_call fuel w c with Ret w => rio_bounded fuel w cs | Fault _ => true end
  end.

(** After [n] calls. *)
Definition tokens_of (toks : list SocketKey) : SocketKey -> Z := fun key => sockets_of key toks.
Definition world_inv (n : nat) w : Prop :=
  (exists lost, rio_inv (wd_kernel w) (wd_state w) (tokens_of (wd_tokens w)) lost) /\ reg_inv (wd_ops w) /\
  rb_generation (rr_bufs (ro_registry (wd_state w))) <= Z.of_nat n /\ ro_outstanding (wd_state w) <= rio_peak.

Lemma sockets_ok_ext m ext ext' S S' : (forall key, sockets_of key S' + ext' key = sockets_of key S + ext key) -> (forall key, 0 <= ext' key) ->
  sockets_ok m ext S -> sockets_ok m ext' S'.
Proof. intros He Hn Hs key. split; [| done]. rewrite He. apply Hs. Qed.

(** A change of the sockets alone. *)
Lemma rio_sockets k s ext ext' lost m : rio_inv k s ext lost -> sockets_ok m ext' (in_socket <$> held (ro_registry s) lost) ->
  (forall key ak, ro_by_handle s !! key = Some ak -> is_Some (m !! key)) -> rio_inv k (ro_set_sockets s m) ext' lost.
Proof. intros [[C1 C2 C3 C4 C5 C6 C7] Ha] Hm Hk. split; [by split | done]. Qed.

Lemma mark_ok k s ext lost key : rio_inv k s ext lost -> rio_inv k (mark_socket_registered s key) ext lost.
Proof.
  intros Hi. pose proof (ci_sockets _ _ _ _ _ _ _ (ri_core _ _ _ _ Hi)) as Hs. apply (rio_sockets _ _ ext); [done | |].
  - apply (sockets_ok_insert _ ext _ _ key _ Hs); [apply (proj1 (Hs key)) | done].
  - intros key' ak Hk. apply lookup_insert_is_Some'. right. by apply (ri_actors _ _ _ _ Hi key' ak).
Qed.

(** A socket that is closed with nothing in flight is forgotten. *)
Lemma forget_ok k s ext lost key st : rio_inv k s ext lost -> ro_sockets s !! key = Some st -> is_ready st = true ->
  exists s', forget_socket_runtime (shutdown_actor s key) key = Ret s' /\ rio_inv k s' ext lost /\ ro_registry s' = ro_registry s /\ ro_outstanding s' = ro_outstanding s.
Proof.
  intros [Hc Ha] Hst Hr. pose proof (ci_sockets _ _ _ _ _ _ _ Hc) as Hs.
  assert (Hz : so_inflight st = 0) by (unfold is_ready in Hr; apply andb_true_iff in Hr as [_ Hr]; by apply Z.eqb_eq).
  assert (E : ro_sockets (shutdown_actor s key) = ro_sockets s /\ ro_registry (shutdown_actor s key) = ro_registry s /\
    ro_outstanding (shutdown_actor s key) = ro_outstanding s /\ ro_by_handle (shutdown_actor s key) = delete key (ro_by_handle s)).
  { unfold shutdown_actor. destruct (ro_by_handle s !! key) eqn:Hk; [done |]. split_and!; try done. by rewrite delete_id. }
  destruct E as (E1 & E2 & E3 & E4). unfold forget_socket_runtime. rewrite E1, Hst, Hr. cbn [assert]. rewrite bind_ret.
  eexists. split; [done |]. cbn. rewrite E2, E3. split; [| done]. split; cbn; rewrite ?E2, ?E3.
  - destruct Hc as [C1 C2 C3 C4 C5 C6 C7]. split; try done. intros key'. destruct (Hs key') as [E He]. split; [| done]. rewrite <- E, ?E1.
    destruct (decide (key' = key)) as [-> | Hne]; [| by rewrite lookup_delete_ne].
    rewrite lookup_delete_eq, Hst. cbn. by rewrite Hz.
  - intros key' ak. cbn. rewrite E4, ?E1. intros Hk. apply lookup_delete_Some in Hk as [Hne Hk].
    rewrite lookup_delete_ne by done. by apply (Ha key' ak).
Qed.

Lemma close_ok k s ext lost key : rio_inv k s ext lost ->
  exists s' x, close_socket s key = Ret (s', x) /\ rio_inv k s' ext lost /\ ro_registry s' = ro_registry s /\ ro_outstanding s' = ro_outstanding s.
Proof.
  intros Hi. unfold close_socket, begin_socket_cleanup. set (st := socket_runtime s key). set (s1 := ro_set_sockets _ _).
  assert (Hi1 : rio_inv k s1 ext lost).
  { pose proof (ci_sockets _ _ _ _ _ _ _ (ri_core _ _ _ _ Hi)) as Hs. apply (rio_sockets _ _ ext); [done | |].
    - apply (sockets_ok_insert _ ext _ _ key _ Hs); [apply (proj1 (Hs key)) | done].
    - intros key' ak Hk. apply lookup_insert_is_Some'. right. by apply (ri_actors _ _ _ _ Hi key' ak). }
  destruct (Z.eqb_spec (so_inflight st) 0) as [Hz | Hz]; [| by eexists _, _].
  destruct (forget_ok k s1 ext lost key (mkSocketState SockClosing (so_inflight st)) Hi1) as (s2 & -> & I2 & R2 & O2).
  - cbn. by rewrite lookup_insert_eq.
  - unfold is_ready. cbn. rewrite Hz. done.
  - rewrite bind_ret. by eexists _, _.
Qed.

Lemma deferred_ok k s ext lost key : rio_inv k s ext lost ->
  exists s' x, drain_deferred_socket s key = Ret (s', x) /\ rio_inv k s' ext lost /\ ro_registry s' = ro_registry s /\ ro_outstanding s' = ro_outstanding s.
Proof.
  intros Hi. unfold drain_deferred_socket, socket_ready_for_cleanup. destruct (ro_sockets s !! key) as [st |] eqn:Hst; [| by eexists _, _].
  destruct (is_ready st) eqn:Hr; [| by eexists _, _].
  destruct (forget_ok k s ext lost key st Hi Hst Hr) as (s2 & -> & I2 & R2 & O2). rewrite bind_ret. by eexists _, _.
Qed.

Lemma hold_ok k s toks lost key st : rio_inv k s (tokens_of toks) lost -> ro_sockets s !! key = Some st ->
  exists s' r, try_acquire_socket_inflight_token s key = Ret (s', r) /\ ro_registry s' = ro_registry s /\ ro_outstanding s' = ro_outstanding s /\
    rio_inv k s' (tokens_of (match r with Ok key => key :: toks | Err _ => toks end)) lost.
Proof.
  intros Hi Hst. unfold try_acquire_socket_inflight_token. rewrite Hst. destruct (ro_closed s); [by eexists _, _ |].
  destruct (bool_decide _); [by eexists _, _ |]. destruct (checked U32 _) as [n |] eqn:Hn; [| by eexists _, _].
  unfold checked in Hn. destruct (_ && _); [| done]. injection Hn as <-. eexists _, _. split_and!; [done .. |].
  pose proof (ci_sockets _ _ _ _ _ _ _ (ri_core _ _ _ _ Hi)) as Hs. apply (rio_sockets _ _ (tokens_of toks)); [done | |].
  - intros key'. unfold tokens_of. rewrite sockets_of_cons. split; [| pose proof (sockets_of_nonneg key' toks); case_decide; lia].
    destruct (Hs key') as [E _]. unfold tokens_of in E. destruct (decide (key = key')) as [<- | Hne].
    + rewrite lookup_insert_eq. rewrite Hst in E. cbn in *. lia.
    + rewrite lookup_insert_ne by done. lia.
  - intros key' ak Hk. apply lookup_insert_is_Some'. right. by apply (ri_actors _ _ _ _ Hi key' ak).
Qed.

Lemma unhold_ok k s toks lost i key : rio_inv k s (tokens_of toks) lost -> toks !! i = Some key ->
  let s' := (release_socket_inflight_token s key).1 in
  rio_inv k s' (tokens_of (delete i toks)) lost /\ ro_registry s' = ro_registry s /\ ro_outstanding s' = ro_outstanding s.
Proof.
  intros Hi Hk. pose proof (ci_sockets _ _ _ _ _ _ _ (ri_core _ _ _ _ Hi)) as Hs.
  assert (Hp : toks ≡ₚ key :: delete i toks) by by apply delete_Permutation.
  assert (Hcount : forall key', sockets_of key' toks = sockets_of key' (delete i toks) + if decide (key = key') then 1 else 0).
  { intros key'. rewrite <- sockets_of_cons. by apply sockets_of_perm. }
  assert (Hs2 : sockets_ok (ro_sockets s) (tokens_of (delete i toks)) (key :: (in_socket <$> held (ro_registry s) lost))).
  { eapply sockets_ok_ext; [| | exact Hs]; intros key'; unfold tokens_of; [rewrite sockets_of_cons, (Hcount key'); lia | apply sockets_of_nonneg]. }
  destruct (release_token_ok _ _ _ _ Hs2) as (m & Em & Hm & Hdom). unfold release_socket_inflight_token. rewrite Em. cbn. split; [| done].
  apply (rio_sockets _ _ (tokens_of toks)); [done | done |]. intros key' ak Hk'. apply Hdom. by apply (ri_actors _ _ _ _ Hi key' ak).
Qed.

Lemma rio_chunk_ok k s ext lost id mem : rio_inv k s ext lost -> 0 <= id -> rb_generation (rr_bufs (ro_registry s)) < U64_MAX ->
  let '(k', s', _) := rio_register_chunk k s id mem in
  rio_inv k' s' ext lost /\ rb_generation (rr_bufs (ro_registry s')) <= rb_generation (rr_bufs (ro_registry s)) + 1 /\ ro_outstanding s' = ro_outstanding s.
Proof.
  intros [[C1 C2 C3 C4 C5 C6 C7] Ha] Hid Hg. unfold rio_register_chunk. destruct (kn_dispatch _); cbn [negb]; [| split_and!; [by split | lia | done]].
  pose proof (rio_register_chunk_ok k _ _ _ id mem C2 Hid Hg) as Hr. destruct (register_chunk _ _ _ _) as [[k1 b1] r]. destruct Hr as (B1 & P1 & G1 & _).
  split_and!; [| done | done]. split; [| done]. split; try done. cbn. by rewrite P1.
Qed.

Lemma rio_call_keeps fuel n w c : world_inv n w -> rio_call_ok c -> has_room w c = true -> (forall buf, 0 <= ri_id (region buf)) ->
  rio_peak < Z.of_nat fuel -> Z.of_nat n < U64_MAX ->
  exists w', rio_call fuel w c = Ret w' /\ world_inv (S n) w'.
Proof.
  destruct w as [k s ops toks]. unfold world_inv. cbn [wd_kernel wd_state wd_ops wd_tokens].
  intros ((lost & Hi) & Hops & Hg & Ho) Hc Hroom Hreg Hf Hn. pose proof (ri_core _ _ _ _ Hi) as Hcore.
  assert (Hstep : forall s', rio_inv k s' (tokens_of toks) lost -> ro_registry s' = ro_registry s -> ro_outstanding s' = ro_outstanding s ->
    world_inv (S n) (mkWorld k s' ops toks)).
  { intros s' I1 R1 O1. split_and!; [by exists lost | done | cbn; rewrite R1; lia | cbn; lia]. }
  unfold world_inv in Hstep. cbn [wd_kernel wd_state wd_ops wd_tokens] in Hstep.
  destruct c as [q | | ops' | key | key | key | key | i | id mem]; cbn [rio_call rio_call_ok] in *.
  - destruct (submission_keeps _ lost k s q Hi Hc Hreg) as (k1 & s1 & r & -> & I1 & G1 & R1); [lia | by apply Z.ltb_lt |]. rewrite bind_ret. apply Z.ltb_lt in Hroom. cbn [wd_state] in Hroom.
    eexists. split; [done |]. cbn. split_and!; [by exists lost | done | lia |].
    rewrite (ci_count _ _ _ _ _ _ _ (ri_core _ _ _ _ I1)). rewrite (ci_count _ _ _ _ _ _ _ Hcore) in Ho, Hroom.
    unfold held in *. rewrite length_app, length_fmap in *. destruct r as [u | e].
    + destruct R1 as (raw & init & R1 & _). apply Permutation_length in R1. cbn in R1. lia.
    + destruct R1 as [R1 _]. apply Permutation_length in R1. lia.
  - pose proof (ci_pending _ _ _ _ _ _ _ Hcore) as Hp. apply submseteq_length in Hp. rewrite app_nil_r, length_fmap in Hp.
    pose proof (ci_count _ _ _ _ _ _ _ Hcore) as Hcnt. unfold held in Hcnt. rewrite length_app, length_fmap in Hcnt.
    destruct (rio_process_ok fuel k s ops _ lost ltac:(lia) Hi Hops) as (k1 & s1 & ops1 & r & lost1 & -> & I1 & O1 & G1 & M1 & _). rewrite bind_ret.
    eexists. split; [done |]. cbn. split_and!; [by exists lost1 | done | lia | lia].
  - eexists. split; [done |]. cbn. split_and!; [by exists lost | done | lia | lia].
  - eexists. split; [done |]. apply Hstep; [by apply mark_ok | done | done].
  - destruct (close_ok _ _ _ _ key Hi) as (s1 & x & -> & I1 & R1 & O1). rewrite bind_ret. eexists. split; [done |]. by apply Hstep.
  - destruct (deferred_ok _ _ _ _ key Hi) as (s1 & x & -> & I1 & R1 & O1). rewrite bind_ret. eexists. split; [done |]. by apply Hstep.
  - destruct (ro_sockets s !! key) as [st |] eqn:Hst; [| eexists; split; [done |]; by apply Hstep].
    destruct (hold_ok _ _ _ _ key st Hi Hst) as (s1 & r & -> & R1 & O1 & I1). rewrite bind_ret. eexists. split; [done |]. cbn.
    split_and!; [by exists lost | done | rewrite R1; lia | lia].
  - destruct (toks !! i) as [key |] eqn:Hk; [| eexists; split; [done |]; by apply Hstep].
    destruct (unhold_ok _ _ _ _ i key Hi Hk) as (I1 & R1 & O1). eexists. split; [done |]. cbn [wd_kernel wd_state wd_ops wd_tokens].
    split_and!; [by exists lost | done | rewrite R1; lia | lia].
  - pose proof (rio_chunk_ok k s _ lost id mem Hi Hc ltac:(lia)) as Hr. destruct (rio_register_chunk k s id mem) as [[k1 s1] r].
    destruct Hr as (I1 & G1 & O1). eexists. split; [done |]. cbn. split_and!; [by exists lost | done | lia | lia].
Qed.

Lemma rio_calls_keep fuel cs : forall n w, world_inv n w -> Forall rio_call_ok cs -> rio_bounded fuel w cs = true ->
  (forall buf, 0 <= ri_id (region buf)) -> rio_peak < Z.of_nat fuel -> Z.of_nat (n + length cs) < U64_MAX -> exists w', rio_calls fuel w cs = Ret w' /\ world_inv (n + length cs) w'.
Proof.
  induction cs as [| c cs IH]; intros n w Hw Hcs Hb Hreg Hf Hn; cbn [rio_calls rio_bounded length] in *.
  { exists w. by rewrite Nat.add_0_r. }
  apply Forall_cons in Hcs as [Hc Hcs]. apply andb_true_iff in Hb as [Hroom Hb].
  destruct (rio_call_keeps fuel n w c Hw Hc Hroom Hreg) as (w1 & E & W1); [lia | lia |]. rewrite E in *. rewrite bind_ret.
  destruct (IH (S n) w1 W1 Hcs Hb Hreg) as (w2 & -> & W2); [lia | lia |]. exists w2. split; [done |]. by rewrite <- Nat.add_succ_comm.
Qed.

(** The backend starts with nothing. *)
Definition rio_world (k : K) (ops : OpRegistry (Spec := IocpSlotSpec)) (cq addr_base entries : Z) : RioWorld :=
  mkWorld k (rio_state_new cq addr_base entries) ops [].

Lemma start_inv k cq base entries : sound k -> live k = ∅ -> kpending k = [] -> rio_inv k (rio_state_new cq base entries) (tokens_of []) [].
Proof.
  intros Hs Hl Hp. split; [| intros key ak; cbn; by rewrite lookup_empty]. split; cbn.
  - apply ctx_ok_new.
  - split; [done | apply bufs_ok_new | | by intros q i; rewrite Hp; intros ?%elem_of_nil]. split.
    + intros i. rewrite Hl. split; [set_solver |]. by intros [[| n | key | key | j |] Hq].
    + by intros [| n | key | key | j |].
    + by intros [| n | key | key | j |].
  - apply addr_new_ok.
  - constructor.
  - rewrite Hp. apply submseteq_nil_l.
  - done.
  - intros key. by rewrite lookup_empty.
Qed.
Lemma start_ok k ops cq base entries : sound k -> live k = ∅ -> kpending k = [] -> reg_inv ops -> world_inv 0 (rio_world k ops cq base entries).
Proof. intros Hs Hl Hp Hops. split_and!; [| done | done | apply rio_peak_ok]. exists []. by apply start_inv. Qed.
End operations.

(** What the invariant says of a request of the kernel. *)
Section facts.
Context {K : Type} `{Laws : RioLaws K} `{!IocpPayloads} `{!RioActors} {Peak : RioPeak}.
Notation RioState := (RioState IocpUserPayload).
Implicit Types (k : K) (s : RioState) (lost : list RioOpRequestInit) (ext : SocketKey -> Z).

Lemma core_request k r m n ext lost : core_inv k r m n ext lost [] -> forall q, q ∈ kpending k ->
  exists init l g, (kr_context q, init) ∈ requests (rr_ctxs r) /\ in_lease init = Some l /\ lease_reg (rr_bufs r) l = Some g /\ 0 < bg_refs g /\
    bg_id g ∈ kr_buffers q /\ forall i, i ∈ kr_buffers q -> i ∈ live k.
Proof.
  intros Hc q Hq. pose proof Hc as [C1 C2 C3 C4 C5 C6 C7]. rewrite app_nil_r in C5.
  assert (Hin : q ∈ kernel_request <$> requests (rr_ctxs r)) by by eapply elem_of_submseteq.
  apply list_elem_of_fmap in Hin as ([raw init] & -> & Hin).
  assert (Hh : init ∈ held r lost) by (unfold held; apply elem_of_app; left; apply list_elem_of_fmap; by exists (raw, init)).
  rewrite Forall_forall in C4. destruct (C4 _ Hh) as ((l & Hl & Hid) & Ha & _).
  assert (HlL : l ∈ omap in_lease (held r lost)) by (apply list_elem_of_omap; by exists init).
  destruct (bo_held _ _ (bi_bufs _ _ _ _ C2) l HlL) as [Hok [g Hg]]. destruct (lease_reg_at _ _ _ Hg) as [_ Hgi].
  exists init, l, g. split_and!; try done.
  - rewrite (bo_refs _ _ (bi_bufs _ _ _ _ C2) l g Hok Hg). pose proof (leases_of_nonneg l (omap in_lease (held r lost))).
    destruct (decide (leases_of l (omap in_lease (held r lost)) = 0)) as [Hz |]; [| lia]. by apply leases_of_none in Hz.
  - rewrite Hgi, Hid. cbn. by left.
  - intros i Hi. apply (io_live _ _ (bi_ids _ _ _ _ C2)). cbn in Hi. apply elem_of_cons in Hi as [-> | Hi].
    + exists (place_of (rr_bufs r) l). rewrite <- Hid. by eapply lease_reg_id.
    + destruct (in_addr_slot init) as [sl |]; [| by apply elem_of_nil in Hi]. apply list_elem_of_singleton in Hi as ->.
      destruct Ha as [-> Hz]; [by eexists |]. exists PAddr. unfold id_at. by destruct (Z.eqb_spec (addr_id r) 0).
Qed.

Lemma core_counted k r m n ext lost : core_inv k r m n ext lost [] -> Z.of_nat (length (kpending k)) <= n.
Proof.
  intros [C1 C2 C3 C4 C5 C6 C7]. apply submseteq_length in C5. rewrite app_nil_r, length_fmap in C5. rewrite C6.
  unfold held. rewrite length_app, length_fmap. lia.
Qed.

(** The tables are determined by the requests. *)
Lemma core_added k k' s s' ext lost q : rio_inv k s ext lost -> rio_inv k' s' ext lost ->
  requests (rr_ctxs (ro_registry s')) ≡ₚ q :: requests (rr_ctxs (ro_registry s)) -> ro_outstanding s' = ro_outstanding s + 1.
Proof.
  intros [Hc _] [Hc' _] Hp. rewrite (ci_count _ _ _ _ _ _ _ Hc), (ci_count _ _ _ _ _ _ _ Hc'). unfold held. rewrite Hp. cbn [fmap list_fmap app length].
  rewrite !length_app. lia.
Qed.

Lemma core_unchanged k k' s s' ext lost : rio_inv k s ext lost -> rio_inv k' s' ext lost ->
  requests (rr_ctxs (ro_registry s')) ≡ₚ requests (rr_ctxs (ro_registry s)) ->
  ro_outstanding s' = ro_outstanding s /\ (forall key, so_inflight (socket_runtime s' key) = so_inflight (socket_runtime s key)) /\
  forall l g g', lease_ok l -> lease_reg (rr_bufs (ro_registry s)) l = Some g -> lease_reg (rr_bufs (ro_registry s')) l = Some g' -> bg_refs g' = bg_refs g.
Proof.
  intros [Hc _] [Hc' _] Hp. assert (Hh : held (ro_registry s') lost ≡ₚ held (ro_registry s) lost) by (unfold held; by rewrite Hp). split_and!.
  - rewrite (ci_count _ _ _ _ _ _ _ Hc), (ci_count _ _ _ _ _ _ _ Hc'). by rewrite Hh.
  - intros key. unfold socket_runtime. rewrite (proj1 (ci_sockets _ _ _ _ _ _ _ Hc key)), (proj1 (ci_sockets _ _ _ _ _ _ _ Hc' key)).
    f_equal. apply sockets_of_perm. by rewrite Hh.
  - intros l g g' Hl Hg Hg'. rewrite (bo_refs _ _ (bi_bufs _ _ _ _ (ci_bufs _ _ _ _ _ _ _ Hc)) l g Hl Hg),
      (bo_refs _ _ (bi_bufs _ _ _ _ (ci_bufs _ _ _ _ _ _ _ Hc')) l g' Hl Hg'). apply leases_of_perm. by rewrite Hh.
Qed.
End facts.
