(* ===== verification/RioDemo.v ===== *)
(** * veloq-driver-iocp: the theorems of the RIO backend, and a small Windows

    In every history of calls the kernel works on registered, leased buffers; a
    submission is a transaction; completions give back what their requests held;
    and dropping the backend returns with everything deregistered, or leaks what
    the kernel still uses.  A small kernel that has all the laws shows that the
    theorems apply. *)

From stdpp Require Import list gmap.
From S2P Require Import Prelude Units SlotMap Token SlotState Anomaly SlotTable Completion Registry Flow RegistryInv CompletionSpec DriverSteps DriverSafety.
From S2P Require Import Handle UringNet RioRegistry RioState RioOwn RioSafety.

(** ** The theorems *)

Section theorems.
Context {K : Type} `{Laws : RioLaws K} `{!RioActors} `{!IocpPayloads} {Peak : RioPeak}.
Notation RioState := (RioState IocpUserPayload).
Variables (chunk_info : Z -> option (Z * Z)) (region : FixedBuf -> RegionInfo).
Implicit Types (k : K) (s : RioState) (ops : OpRegistry (Spec := IocpSlotSpec)) (lost : list RioOpRequestInit).

(** C15 A history of the RIO backend that starts with nothing registered is a list
    of calls: submissions of the four operations, completions, registrations of
    chunks, sockets that are registered and closed, other operations that hold
    sockets.  Take any bound of at most 2^24 such that fewer requests than that are
    outstanding whenever one is submitted (a context has 24 bits for its index,
    and the code panics beyond them), and fewer than 2^64 - 1 calls (generations of
    registrations).  Then no call panics, and Windows is used as it has to be
    ([sound]): no buffer is deregistered while a request uses it or twice.
    Whatever the kernel works on belongs to a request whose context is kept and
    whose lease keeps the buffer registered; the requests of the kernel are
    counted; and the table of contexts never has more slots than the bound, since
    every completion gives its slot back. *)
Theorem rio_buffers_safe (fuel : nat) k ops (cq addr_base entries : Z) (calls : list RioCall)
    (Hs : sound k) (Hl : live k = ∅) (Hp : kpending k = []) (Hops : reg_inv ops) (Hregion : forall buf, 0 <= ri_id (region buf))
    (Hcalls : Forall rio_call_ok calls) (Hroom : rio_bounded chunk_info region fuel (rio_world k ops cq addr_base entries) calls = true)
    (Hn : Z.of_nat (length calls) < U64_MAX) (Hf : rio_peak < Z.of_nat fuel) :
  exists w, rio_calls chunk_info region fuel (rio_world k ops cq addr_base entries) calls = Ret w /\
    sound (wd_kernel w) /\
    (forall q, q ∈ kpending (wd_kernel w) -> exists init l g,
       (kr_context q, init) ∈ requests (rr_ctxs (ro_registry (wd_state w))) /\ in_lease init = Some l /\
       lease_reg (rr_bufs (ro_registry (wd_state w))) l = Some g /\ 0 < bg_refs g /\ bg_id g ∈ kr_buffers q /\
       forall i, i ∈ kr_buffers q -> i ∈ live (wd_kernel w)) /\
    Z.of_nat (length (kpending (wd_kernel w))) <= ro_outstanding (wd_state w) /\
    Z.of_nat (length (cx_slots (rr_ctxs (ro_registry (wd_state w))))) <= rio_peak.
Proof.
  destruct (rio_calls_keep chunk_info region fuel calls 0 _ (start_ok k ops cq addr_base entries Hs Hl Hp Hops) Hcalls Hroom Hregion Hf Hn)
    as (w & E & ((lost & Hi) & _)).
  exists w. split; [exact E |]. pose proof (ri_core _ _ _ _ Hi) as Hc. split; [apply Hc | split; [| split]].
  - intros q Hq. by eapply core_request.
  - by eapply core_counted.
  - apply (ctx_len _ (ci_ctx _ _ _ _ _ _ _ Hc)).
Qed.

(** C16 A submission returns.  If it succeeds, exactly one request was added, to
    the contexts and to the kernel, for the token and the socket that it was
    given; if it fails, at whatever stage, everything is as before: the
    requests, what the kernel has, the count, the operations in flight on every
    socket and the leases of every registration. *)
Theorem rio_submission_atomic k s ext lost (q : RioSubmission) (Hi : rio_inv k s ext lost) (Hq : submission_ok q)
    (Hregion : forall buf, 0 <= ri_id (region buf)) (Hg : rb_generation (rr_bufs (ro_registry s)) < U64_MAX) (Ho : ro_outstanding s < rio_peak) :
  exists k' s' r, submission chunk_info region k s q = Ret (k', s', r) /\ rio_inv k' s' ext lost /\
    match r with
    | Ok _ => exists raw init, requests (rr_ctxs (ro_registry s')) ≡ₚ (raw, init) :: requests (rr_ctxs (ro_registry s)) /\
        kpending k' = kernel_request (raw, init) :: kpending k /\ in_token init = submission_token q /\ in_socket init = submission_handle q /\
        ro_outstanding s' = ro_outstanding s + 1
    | Err _ => requests (rr_ctxs (ro_registry s')) ≡ₚ requests (rr_ctxs (ro_registry s)) /\ kpending k' = kpending k /\
        ro_outstanding s' = ro_outstanding s /\
        (forall key, so_inflight (socket_runtime s' key) = so_inflight (socket_runtime s key)) /\
        forall l g g', lease_ok l -> lease_reg (rr_bufs (ro_registry s)) l = Some g -> lease_reg (rr_bufs (ro_registry s')) l = Some g' ->
          bg_refs g' = bg_refs g
    end.
Proof.
  destruct (submission_keeps chunk_info region ext lost k s q Hi Hq Hregion Hg Ho) as (k' & s' & r & E & Hi' & _ & Hr).
  exists k', s', r. split; [done |]. split; [done |]. destruct r as [u | e].
  - destruct Hr as (raw & init & R1 & R2 & R3 & R4). exists raw, init. split_and!; try done.
    by apply (core_added k k' s s' ext lost (raw, init)).
  - destruct Hr as [R1 R2]. split; [done |]. split; [done |]. by apply (core_unchanged k k' s s' ext lost).
Qed.

(** C17 Processing completions returns, and keeps every invariant of the backend
    and of the slots.  If it succeeds with [n], then [n] requests have given back
    their context, address slot, lease and place in the count of their socket,
    and nothing else was given back. *)
Theorem rio_process_settles (fuel : nat) k s ops ext lost (Hf : (length (kpending k) < fuel)%nat) (Hi : rio_inv k s ext lost) (Hops : reg_inv ops) :
  exists k' s' ops' r lost', process_completions fuel k s ops = Ret (k', s', ops', r) /\ rio_inv k' s' ext lost' /\ reg_inv ops' /\
    match r with
    | Ok n => lost' = lost /\ ro_outstanding s' = ro_outstanding s - n /\
        Z.of_nat (length (requests (rr_ctxs (ro_registry s')))) = Z.of_nat (length (requests (rr_ctxs (ro_registry s)))) - n
    | Err _ => ro_outstanding s' <= ro_outstanding s
    end.
Proof.
  destruct (rio_process_ok fuel k s ops ext lost Hf Hi Hops) as (k' & s' & ops' & r & lost' & E & Hi' & Ho' & _ & Hm & Hr).
  exists k', s', ops', r, lost'. split; [done |]. split; [done |]. split; [done |]. destruct r as [n | e]; [| done].
  destruct Hr as [-> Hr]. split_and!; [done | done |].
  pose proof (ci_count _ _ _ _ _ _ _ (ri_core _ _ _ _ Hi)) as H1. pose proof (ci_count _ _ _ _ _ _ _ (ri_core _ _ _ _ Hi')) as H2.
  unfold held in *. rewrite length_app, length_fmap in *. lia.
Qed.

(** C18 Dropping a backend that no accept and no connect uses, whose extension
    functions are loaded and whose completion queue is valid, returns.  Either
    everything is deregistered, once, and the kernel has no request; or requests
    are still outstanding and the state is leaked, with all the memory that the
    kernel uses registered.  It is leaked only when the five seconds of
    [RIO_REAPER_DRAIN_TIMEOUT] have passed on the clock since the drop began, or
    the last call that dequeues completions found the queue corrupt. *)
Theorem rio_drop_returns k s lost (Hi : rio_inv k s (fun _ => 0) lost) (Hd : kn_dispatch (ro_kernel s) = true)
    (Hcq : kn_cq (ro_kernel s) <> INVALID) :
  exists k' s' d, drop_rio_state (drain_fuel k) k s = Ret (k', s', d) /\ sound k' /\
    match d with
    | Finalized => live k' = ∅ /\ kpending k' = []
    | Leaked => 0 < ro_outstanding s' /\ drain_gave_up k' (now k) RIO_REAPER_DRAIN_TIMEOUT /\ forall q i, q ∈ kpending k' -> i ∈ kr_buffers q -> i ∈ live k'
    end.
Proof.
  destruct (drop_ok k s lost Hi Hd Hcq) as (k' & s' & d & E & Hs & Hr). exists k', s', d. split; [done |]. split; [done |].
  destruct d; [done |]. destruct Hr as (Hc & Ho & Hg). split; [done |]. split; [done |]. intros q i Hq Hin.
  destruct (core_request _ _ _ _ _ _ Hc q Hq) as (_ & _ & _ & _ & _ & _ & _ & _ & Hlive). by apply Hlive.
Qed.

(** But an accept or a connect that holds its socket makes the drop panic. *)
Theorem rio_drop_panics (fuel : nat) k s ext lost (key : SocketKey) (Hi : rio_inv k s ext lost) (Ho : ro_outstanding s = 0) (Hk : 0 < ext key) :
  drop_rio_state fuel k s = Fault AssertFailed.
Proof.
  destruct (stop_accepting_ok _ _ _ _ _ (ri_core _ _ _ _ Hi)) as (Hc & K1 & _). unfold drop_rio_state. cbn zeta in Hc.
  set (s1 := stop_accepting_new_submissions s) in *. assert (O1 : ro_outstanding s1 = 0) by done. clearbody s1.
  rewrite O1, Z.eqb_refl. unfold finalize_cleanup. destruct (stop_accepting_ok _ _ _ _ _ Hc) as (Hc2 & _ & _). cbn zeta in Hc2.
  set (s2 := stop_accepting_new_submissions s1) in *. assert (O2 : ro_outstanding s2 = 0) by done. clearbody s2.
  rewrite O2, Z.eqb_refl. unfold forget_runtime_after_drain. rewrite O2, Z.eqb_refl. cbn [assert]. rewrite bind_ret.
  rewrite bool_decide_eq_false_2; [done |]. intros Hall.
  destruct (ci_sockets _ _ _ _ _ _ _ Hc2 key) as [E _]. pose proof (sockets_of_nonneg key (in_socket <$> held (ro_registry s2) lost)).
  destruct (ro_sockets s2 !! key) as [st |] eqn:Hst; cbn in E; [| lia]. specialize (Hall key st Hst). cbn in Hall. lia.
Qed.
End theorems.

(** ** A small Windows

    It hands out numbers for buffers, keeps the requests until they are
    dequeued, and remembers a misuse ([dr_ok]).  [dr_refuse]: requests are
    refused. *)

Record DemoRio : Type := mkDemoRio {
  dr_ok : bool; dr_live : list Z; dr_next : Z; dr_pending : list KernelRequest; dr_refuse : bool; dr_clock : Z
}.
Definition dr_use (x : DemoRio) (ids : list Z) (ctx : Z) : DemoRio * bool :=
  let ok := dr_ok x && forallb (fun i => bool_decide (i ∈ dr_live x)) ids in
  if dr_refuse x then (mkDemoRio ok (dr_live x) (dr_next x) (dr_pending x) true (dr_clock x), false)
  else (mkDemoRio ok (dr_live x) (dr_next x) (mkKReq ctx ids :: dr_pending x) false (dr_clock x), true).
Definition dr_wait (x : DemoRio) (ns : Z) : DemoRio := mkDemoRio (dr_ok x) (dr_live x) (dr_next x) (dr_pending x) (dr_refuse x) (dr_clock x + ns).

#[global] Instance demo_table : RioTable DemoRio := {
  fn_create_rq x _ := (x, 1);
  fn_register_buffer x _ len :=
    if len =? 0 then (x, 0)
    else (mkDemoRio (dr_ok x) (dr_next x :: dr_live x) (dr_next x + 1) (dr_pending x) (dr_refuse x) (dr_clock x), dr_next x);
  fn_deregister_buffer x id :=
    mkDemoRio (dr_ok x && bool_decide (id ∈ dr_live x) && forallb (fun r => negb (bool_decide (id ∈ kr_buffers r))) (dr_pending x))
      (filter (fun i => i <> id) (dr_live x)) (dr_next x) (dr_pending x) (dr_refuse x) (dr_clock x);
  fn_dequeue x _ n :=
    (mkDemoRio (dr_ok x) (dr_live x) (dr_next x) (drop n (dr_pending x)) (dr_refuse x) (dr_clock x),
     Results (map (fun r => mkRioCompletion (kr_context r) 0 16) (take n (dr_pending x))));
  fn_notify x _ := (x, true);
  fn_close_cq x _ := mkDemoRio (dr_ok x && bool_decide (length (dr_pending x) = 0%nat)) (dr_live x) (dr_next x) (dr_pending x) (dr_refuse x) (dr_clock x);
  fn_receive x _ buf ctx := dr_use x [bu_id buf] ctx;
  fn_send x _ buf ctx := dr_use x [bu_id buf] ctx;
  fn_send_ex x _ data addr ctx := dr_use x [bu_id data; bu_id addr] ctx;
  fn_receive_ex x _ data addr ctx := dr_use x [bu_id data; bu_id addr] ctx;
  fn_yield x := dr_wait x 100;
  fn_sleep x ms := dr_wait x (ms * 1000000);
  now := dr_clock
}.

Definition dr_sound (x : DemoRio) : Prop := dr_ok x = true /\ 0 < dr_next x /\ Forall (fun i => i < dr_next x) (dr_live x).

Lemma dr_use_law x ids ctx : dr_sound x -> (forall i, i ∈ ids -> i ∈ dr_live x) -> let (x', ok) := dr_use x ids ctx in
  dr_sound x' /\ dr_live x' = dr_live x /\ dr_pending x' = if ok : bool then mkKReq ctx ids :: dr_pending x else dr_pending x.
Proof.
  intros (H1 & H2 & H3) Hids. unfold dr_use. rewrite H1. assert (E : forallb (fun i => bool_decide (i ∈ dr_live x)) ids = true).
  { apply forallb_forall. intros i Hi. apply bool_decide_eq_true_2, Hids. by apply list_elem_of_In. }
  rewrite E. by destruct (dr_refuse x).
Qed.

#[global] Instance rio_demo_laws : RioLaws DemoRio.
Proof.
  refine {| sound := dr_sound; live := fun x => list_to_set (dr_live x); kpending := dr_pending |}; cbn.
  - done.
  - done.
  - intros x Hs. split_and!; (done || lia).
  - intros x ms Hs. split_and!; (done || lia).
  - intros x ptr len (H1 & H2 & H3). destruct (len =? 0); [done |]. split_and!; [| done |].
    + split_and!; [done | cbn; lia |]. cbn. constructor; [lia |]. eapply Forall_impl; [exact H3 |]. intros i Hi. cbn in *. lia.
    + destruct (Z.eqb_spec (dr_next x) 0); [lia |]. split; [| done]. intros Hin. apply elem_of_list_to_set in Hin.
      rewrite Forall_forall in H3. specialize (H3 _ Hin). lia.
  - intros x id (H1 & H2 & H3) Hid Hr. apply elem_of_list_to_set in Hid. split_and!; [split_and! | | done]; cbn.
    + rewrite H1, bool_decide_eq_true_2 by done. cbn. apply forallb_forall. intros r Hin. apply negb_true_iff, bool_decide_eq_false_2.
      apply Hr. by apply list_elem_of_In.
    + done.
    + apply Forall_forall. intros i Hi. apply list_elem_of_filter in Hi as [_ Hi]. rewrite Forall_forall in H3. by apply H3.
    + apply set_eq. intros i. rewrite elem_of_difference, !elem_of_list_to_set, list_elem_of_filter, elem_of_singleton. tauto.
  - intros x rq buf ctx Hs Hb. pose proof (dr_use_law x [bu_id buf] ctx Hs) as Hl. destruct (dr_use _ _ _) as [x' ok].
    destruct Hl as (A & -> & C); [| done]. intros i ->%list_elem_of_singleton. by apply elem_of_list_to_set in Hb.
  - intros x rq buf ctx Hs Hb. pose proof (dr_use_law x [bu_id buf] ctx Hs) as Hl. destruct (dr_use _ _ _) as [x' ok].
    destruct Hl as (A & -> & C); [| done]. intros i ->%list_elem_of_singleton. by apply elem_of_list_to_set in Hb.
  - intros x rq data addr ctx Hs Hb Ha. pose proof (dr_use_law x [bu_id data; bu_id addr] ctx Hs) as Hl. destruct (dr_use _ _ _) as [x' ok].
    destruct Hl as (A & -> & C); [| done]. apply elem_of_list_to_set in Hb, Ha. intros i [-> | ->%list_elem_of_singleton]%elem_of_cons; done.
  - intros x rq data addr ctx Hs Hb Ha. pose proof (dr_use_law x [bu_id data; bu_id addr] ctx Hs) as Hl. destruct (dr_use _ _ _) as [x' ok].
    destruct Hl as (A & -> & C); [| done]. apply elem_of_list_to_set in Hb, Ha. intros i [-> | ->%list_elem_of_singleton]%elem_of_cons; done.
  - intros x cq n Hs. split_and!; [done | done | lia | |].
    + rewrite length_map, length_take. lia.
    + exists (take n (dr_pending x)). split; [by rewrite map_map | by rewrite take_drop].
  - intros x cq (H1 & H2 & H3) Hp. unfold dr_sound. cbn. rewrite H1, Hp. done.
Defined.

#[global] Instance demo_actors : RioActors := {| ActorKey := nat; ActorMap := CounterMap Z |}.
#[global] Instance rio_demo_payloads : IocpPayloads := {|
  IocpOpPayload := Z; IocpUserPayload := Z; recv_from_addr := fun _ => None; IocpCleanup := unit; iocp_cleanup_result := fun _ => Ok tt; TimerTask := unit
|}.

(** *** A history: chunk 0 is registered, and four requests on two sockets *)

Definition demo_kernel (refuse : bool) : DemoRio := mkDemoRio true [] 1 [] refuse 0.
Definition demo_chunks (id : Z) : option (Z * Z) := Some (65536 * (id + 1), 65536).
(** Buffers at small addresses are slots of chunk 0. *)
Definition demo_region (buf : FixedBuf) : RegionInfo :=
  if fb_ptr buf <? 1000000 then mkRegion SlotBased 0 (fb_ptr buf - 65536) 0 else mkRegion Heap 0 0 7.
Definition slot_buf : FixedBuf := mkBuf 69632 0 0 100 4096.
Definition heap_buf : FixedBuf := mkBuf 2000000 0 0 200 8192.
Definition peer_bytes : list Z := [2; 0; 31; 144; 127; 0; 0; 1; 0; 0; 0; 0; 0; 0; 0; 0].
Definition sock (n : Z) : SocketKey := HSocket n 1.
Definition demo_calls : list RioCall :=
  [CallMark (sock 5); CallMark (sock 6); CallChunk 0 (65536, 65536);
   CallSubmit (SubmitRecv (sock 5) (mkToken 0 1) slot_buf 0); CallSubmit (SubmitSend (sock 5) (mkToken 1 1) heap_buf 0);
   CallSubmit (SubmitSendTo (sock 6) (mkToken 2 1) heap_buf 10 (Some peer_bytes) 16); CallSubmit (SubmitRecvFrom (sock 6) (mkToken 3 1) slot_buf 0 true);
   CallSubmit (SubmitSend (sock 6) (mkToken 4 1) slot_buf 200)].

Lemma demo_region_ok buf : 0 <= ri_id (demo_region buf).
Proof. unfold demo_region. by destruct (_ <? _). Qed.
Lemma demo_sound refuse : sound (demo_kernel refuse).
Proof. by split_and!. Qed.
Lemma demo_calls_ok : Forall rio_call_ok demo_calls.
Proof. repeat constructor; cbn; done || lia. Qed.

(** What a world shows: whether Windows was misused, the numbers that are
    registered, the requests, the count, and the sockets in flight. *)
Definition world_view (w : RioWorld (K := DemoRio)) : bool * list Z * nat * Z * list Z :=
  let s := wd_state w in
  (dr_ok (wd_kernel w), dr_live (wd_kernel w), length (dr_pending (wd_kernel w)), ro_outstanding s,
   map (fun key => so_inflight (socket_runtime s key)) [sock 5; sock 6]).
Definition run_demo (refuse : bool) (cs : list RioCall) : outcome (bool * list Z * nat * Z * list Z) :=
  ops ← registry_new (Spec := IocpSlotSpec) 2;
  w ← rio_calls demo_chunks demo_region 100 (rio_world (demo_kernel refuse) ops 9 4096 64) cs;
  Ret (world_view w).

(** Three buffers are registered: the chunk, the heap buffer, the addresses.  The
    last submission starts behind its data and fails. *)
Example demo_submits : run_demo false demo_calls = Ret (true, [3; 2; 1], 4%nat, 4, [2; 2]).
Proof. vm_compute. reflexivity. Qed.
(** A kernel that refuses leaves only registrations. *)
Example demo_refuses : run_demo true demo_calls = Ret (true, [3; 2; 1], 0%nat, 0, [0; 0]).
Proof. vm_compute. reflexivity. Qed.
(** The completions give everything back. *)
Example demo_processes : run_demo false (demo_calls ++ [CallProcess]) = Ret (true, [3; 2; 1], 0%nat, 0, [0; 0]).
Proof. vm_compute. reflexivity. Qed.

(** *** The theorems on this history *)

(** Fewer than five requests are outstanding whenever one is submitted. *)
#[local] Instance demo_peak : RioPeak.
Proof. refine (mkPeak 5 _). lia. Defined.
Definition demo_bounded : outcome bool :=
  ops ← registry_new (Spec := IocpSlotSpec) 2;
  Ret (rio_bounded demo_chunks demo_region 100 (rio_world (demo_kernel false) ops 9 4096 64) demo_calls).
Lemma demo_room ops : registry_new (Spec := IocpSlotSpec) 2 = Ret ops ->
  rio_bounded demo_chunks demo_region 100 (rio_world (demo_kernel false) ops 9 4096 64) demo_calls = true.
Proof.
  intros E. assert (H : demo_bounded = Ret true) by (vm_compute; reflexivity). unfold demo_bounded in H. rewrite E, bind_ret in H.
  exact (f_equal (fun o : outcome bool => match o with Ret b => b | Fault _ => false end) H).
Qed.

Lemma rio_buffers_safe_witness : exists ops w, registry_new (Spec := IocpSlotSpec) 2 = Ret ops /\
  rio_calls demo_chunks demo_region 100 (rio_world (demo_kernel false) ops 9 4096 64) demo_calls = Ret w /\
  dr_ok (wd_kernel w) = true /\ forall q i, q ∈ kpending (wd_kernel w) -> i ∈ kr_buffers q -> i ∈ live (wd_kernel w).
Proof.
  destruct (new_inv (Spec := IocpSlotSpec) 2 ltac:(done)) as (ops & Eops & Hops). exists ops.
  destruct (rio_buffers_safe demo_chunks demo_region 100 (demo_kernel false) ops 9 4096 64 demo_calls (demo_sound false) eq_refl eq_refl Hops
    demo_region_ok demo_calls_ok (demo_room ops Eops) ltac:(done) ltac:(cbn; lia)) as (w & E & [Hs _] & Hq & _).
  exists w. split; [exact Eops |]. split; [exact E |]. split; [exact Hs |]. intros q i Hin Hi. destruct (Hq q Hin) as (_ & _ & _ & _ & _ & _ & _ & _ & Hlive). by apply Hlive.
Defined.

Lemma rio_demo_start refuse ops : reg_inv ops ->
  rio_inv (demo_kernel refuse) (rio_state_new (P := IocpUserPayload) 9 4096 64) (tokens_of []) [].
Proof. intros Hops. by apply start_inv; [apply demo_sound | ..]. Qed.

(** A receive is accepted by one kernel, and refused by another. *)
Definition demo_receive (refuse : bool) :=
  submission demo_chunks demo_region (demo_kernel refuse) (rio_state_new (P := IocpUserPayload) 9 4096 64) (SubmitRecv (sock 5) (mkToken 0 1) heap_buf 0).
Definition receive_accepted (refuse : bool) : bool := match demo_receive refuse with Ret (_, _, Ok _) => true | _ => false end.

Lemma rio_submission_atomic_witness :
  (exists k' s', demo_receive false = Ret (k', s', Ok tt) /\ ro_outstanding s' = 1 /\ length (kpending k') = 1%nat) /\
  (exists k' s' e, demo_receive true = Ret (k', s', Err e) /\ ro_outstanding s' = 0 /\ kpending k' = []).
Proof.
  destruct (new_inv (Spec := IocpSlotSpec) 2 ltac:(done)) as (ops & _ & Hops).
  assert (A : receive_accepted false = true) by (vm_compute; reflexivity).
  assert (B : receive_accepted true = false) by (vm_compute; reflexivity). split.
  - destruct (rio_submission_atomic demo_chunks demo_region (demo_kernel false) _ _ [] (SubmitRecv (sock 5) (mkToken 0 1) heap_buf 0) (rio_demo_start false ops Hops))
      as (k' & s' & r & E & _ & Hr); [split; done | exact demo_region_ok | done | done |].
    unfold receive_accepted, demo_receive in A. rewrite E in A. destruct r as [[] | e]; [| done].
    destruct Hr as (raw & init & _ & Hp & _ & _ & Ho). exists k', s'. split_and!; [exact E | exact Ho | by rewrite Hp].
  - destruct (rio_submission_atomic demo_chunks demo_region (demo_kernel true) _ _ [] (SubmitRecv (sock 5) (mkToken 0 1) heap_buf 0) (rio_demo_start true ops Hops))
      as (k' & s' & r & E & _ & Hr); [split; done | exact demo_region_ok | done | done |].
    unfold receive_accepted, demo_receive in B. rewrite E in B. destruct r as [[] | e]; [done |].
    destruct Hr as (_ & Hp & Ho & _). by exists k', s', e.
Defined.

(** The world after the history. *)
Lemma demo_world : exists ops w, registry_new (Spec := IocpSlotSpec) 2 = Ret ops /\
  rio_calls demo_chunks demo_region 100 (rio_world (demo_kernel false) ops 9 4096 64) demo_calls = Ret w /\ world_inv 8 w.
Proof.
  destruct (new_inv (Spec := IocpSlotSpec) 2 ltac:(done)) as (ops & Eops & Hops). exists ops.
  destruct (rio_calls_keep demo_chunks demo_region 100 demo_calls 0 _ (start_ok (demo_kernel false) ops 9 4096 64 (demo_sound false) eq_refl eq_refl Hops)
    demo_calls_ok (demo_room ops Eops) demo_region_ok ltac:(cbn; lia) ltac:(done)) as (w & E & W). exists w. split; [exact Eops |]. split; [exact E | exact W].
Qed.

Lemma rio_process_settles_witness : exists ops w k' s' ops' r, registry_new (Spec := IocpSlotSpec) 2 = Ret ops /\
  rio_calls demo_chunks demo_region 100 (rio_world (demo_kernel false) ops 9 4096 64) demo_calls = Ret w /\
  process_completions 100 (wd_kernel w) (wd_state w) (wd_ops w) = Ret (k', s', ops', r) /\ reg_inv ops' /\
  forall n, r = Ok n -> ro_outstanding s' = ro_outstanding (wd_state w) - n.
Proof.
  destruct demo_world as (ops & w & Eops & E & ((lost & Hi) & Hops & _ & Ho)). exists ops, w.
  pose proof (core_counted _ _ _ _ _ _ (ri_core _ _ _ _ Hi)) as Hc.
  change rio_peak with 5 in Ho. destruct (rio_process_settles 100 (wd_kernel w) (wd_state w) (wd_ops w) _ lost ltac:(lia) Hi Hops) as (k' & s' & ops' & r & lost' & Ep & _ & Hops' & Hr).
  exists k', s', ops', r. split; [exact Eops |]. split; [exact E |]. split; [exact Ep |]. split; [exact Hops' |]. intros n ->. apply Hr.
Defined.

Definition drop_view (cs : list RioCall) : outcome bool :=
  ops ← registry_new (Spec := IocpSlotSpec) 2;
  w ← rio_calls demo_chunks demo_region 100 (rio_world (demo_kernel false) ops 9 4096 64) cs;
  Ret (kn_dispatch (ro_kernel (wd_state w)) && bool_decide (kn_cq (ro_kernel (wd_state w)) = 9) && bool_decide (wd_tokens w = [])).

Lemma rio_drop_returns_witness : exists ops w k' s' d, registry_new (Spec := IocpSlotSpec) 2 = Ret ops /\
  rio_calls demo_chunks demo_region 100 (rio_world (demo_kernel false) ops 9 4096 64) demo_calls = Ret w /\
  drop_rio_state (drain_fuel (wd_kernel w)) (wd_kernel w) (wd_state w) = Ret (k', s', d) /\ dr_ok k' = true /\
  (d = Finalized -> live k' = ∅ /\ kpending k' = []).
Proof.
  destruct demo_world as (ops & w & Eops & E & ((lost & Hi) & _)). exists ops, w.
  assert (V : drop_view demo_calls = Ret true) by (vm_compute; reflexivity). unfold drop_view in V. rewrite Eops, bind_ret, E, bind_ret in V.
  injection V as V. apply andb_true_iff in V as [V Ht]. apply andb_true_iff in V as [Hd Hcq].
  apply bool_decide_eq_true in Ht, Hcq. rewrite Ht in Hi.
  destruct (rio_drop_returns (wd_kernel w) (wd_state w) lost Hi Hd ltac:(intros Hz; discriminate (eq_trans (eq_sym Hcq) Hz))) as (k' & s' & d & Ed & [Hs _] & Hr).
  exists k', s', d. split; [exact Eops |]. split; [exact E |]. split; [exact Ed |]. split; [exact Hs |]. intros ->. exact Hr.
Defined.

(** What the drop of the history does: the four requests are drained, and the
    three buffers are deregistered. *)
Definition run_drop (cs : list RioCall) : outcome (bool * list Z * nat * bool) :=
  ops ← registry_new (Spec := IocpSlotSpec) 2;
  w ← rio_calls demo_chunks demo_region 100 (rio_world (demo_kernel false) ops 9 4096 64) cs;
  '(k, s, d) ← drop_rio_state 100 (wd_kernel w) (wd_state w);
  Ret (dr_ok k, dr_live k, length (dr_pending k), match d with Finalized => true | Leaked => false end).
Example demo_drops : run_drop demo_calls = Ret (true, [], 0%nat, true).
Proof. vm_compute. reflexivity. Qed.
(** A connect that holds socket 5 makes it panic. *)
Example demo_drop_panics : run_drop (demo_calls ++ [CallHold (sock 5); CallProcess]) = Fault AssertFailed.
Proof. vm_compute. reflexivity. Qed.
