(* ===== verification/ChannelCommon.v ===== *)
(** * veloq-local [common.rs]: what the single-threaded channels share

    Capacities, errors, and the registration of a waker.  A waker is the task
    it wakes; a wake-up is recorded in the list of tasks woken by a call. *)

From S2P Require Import Prelude.

Definition TaskWaker : Type := Z.

Inductive ChannelCapacity : Type := Unbounded | Bounded (size : Z).

Inductive SendError (T : Type) : Type := SendClosed (t : T) | SendFull (t : T).
Arguments SendClosed {T} t.
Arguments SendFull {T} t.

Inductive TryRecvError : Type := RecvEmpty | RecvClosed.

(** [std::task::Poll] *)
Inductive Poll (T : Type) : Type := PollReady (t : T) | PollPending.
Arguments PollReady {T} t.
Arguments PollPending {T}.

Definition will_wake (a b : TaskWaker) : bool := a =? b.

Definition update_waker (waker_slot : option TaskWaker) (new_waker : TaskWaker) : option TaskWaker :=
  match waker_slot with
  | Some w => if will_wake w new_waker then waker_slot else Some new_waker
  | None => Some new_waker
  end.

Lemma update_waker_eq s w : update_waker s w = Some w.
Proof. unfold update_waker, will_wake. destruct s as [x |]; [| done]. by destruct (Z.eqb_spec x w) as [-> |]. Qed.

(** [if let Some(waker) = waker { waker.wake() }] *)
Definition woken_by (w : option TaskWaker) : list TaskWaker :=
  match w with Some w => [w] | None => [] end.
