(* ===== verification/Spsc.v ===== *)
(** * veloq-local [spsc.rs]: the single-producer single-consumer channel

    A ring buffer in raw memory, indexed by two counters that wrap around, with
    one waker on either side.  A memory cell is [Some] value or uninitialised;
    reading moves the value out, and reading an uninitialised cell is undefined
    behaviour ([UninitRead]).  Items have a size; for items of size zero the
    code allocates no buffer. *)

From S2P Require Import Prelude ChannelCommon.

Section spsc.
Context {T : Type} (size_of : Z).

Definition ISIZE_MAX : Z := 2 ^ 63 - 1.

(** [Layout::array::<T>(n).unwrap()] and [alloc]; the allocation succeeds. *)
Definition layout_array (n : Z) : outcome unit :=
  if n * size_of <=? ISIZE_MAX then Ret tt else Fault ExpectFailed.
Definition alloc_array (n : Z) : outcome (list (option T)) :=
  _ ← layout_array n; Ret (replicate (Z.to_nat n) None).

Record SpscInner : Type := mkSpsc {
  sp_buffer : list (option T);
  sp_capacity : Z;
  sp_mask : Z;
  sp_head : Z;
  sp_tail : Z;
  sp_closed : bool;
  sp_producer_waker : option TaskWaker;
  sp_consumer_waker : option TaskWaker;
  sp_bounded : bool
}.
Implicit Types s : SpscInner.

Definition spsc_new (capacity : ChannelCapacity) : outcome SpscInner :=
  '(cap, is_bounded) ←
    match capacity with
    | Unbounded => Ret (8, false)
    | Bounded size =>
        let size := Z.max size 1 in
        cap ← arith USIZE_BITS (next_power_of_two size);
        Ret (cap, true)
    end;
  ptr ← alloc_array cap;
  Ret (mkSpsc ptr cap (cap - 1) 0 0 false None None is_bounded).

Definition spsc_len s : Z := wrapping_sub USIZE_BITS (sp_tail s) (sp_head s).
Definition spsc_is_empty s : bool := sp_head s =? sp_tail s.
Definition spsc_is_full s : bool := spsc_len s =? sp_capacity s.

Definition set_ring s (buf : list (option T)) (head tail : Z) : SpscInner :=
  mkSpsc buf (sp_capacity s) (sp_mask s) head tail (sp_closed s) (sp_producer_waker s)
    (sp_consumer_waker s) (sp_bounded s).

(** [ptr::write] and [ptr::read] through the buffer pointer. *)
Definition cell_write (buf : list (option T)) (offset : Z) (item : T) : outcome (list (option T)) :=
  if (0 <=? offset) && (offset <? Z.of_nat (length buf)) then Ret (<[Z.to_nat offset := Some item]> buf)
  else Fault InvalidPointer.
Definition cell_read (buf : list (option T)) (offset : Z) : outcome (list (option T) * T) :=
  match buf !! Z.to_nat offset with
  | Some (Some x) => Ret (<[Z.to_nat offset := None]> buf, x)
  | Some None => Fault UninitRead
  | None => Fault InvalidPointer
  end.

(** [ptr::copy_nonoverlapping] *)
Definition copy_cells (src : list (option T)) (off : Z) (dst : list (option T)) (doff count : Z)
    : outcome (list (option T)) :=
  if (Z.of_nat (length src) <? off + count) || (Z.of_nat (length dst) <? doff + count) then Fault InvalidPointer
  else Ret (take (Z.to_nat doff) dst ++ take (Z.to_nat count) (drop (Z.to_nat off) src) ++
            drop (Z.to_nat (doff + count)) dst).

Definition spsc_grow s : outcome SpscInner :=
  let old_cap := sp_capacity s in
  new_cap ← arith USIZE_BITS (old_cap * 2);
  new_ptr ← alloc_array new_cap;
  let count := spsc_len s in
  let head_idx := Z.land (sp_head s) (sp_mask s) in
  let tail_idx := Z.land (sp_tail s) (sp_mask s) in
  new_ptr ←
    (if head_idx <? tail_idx then copy_cells (sp_buffer s) head_idx new_ptr 0 count
     else
       first_part ← arith USIZE_BITS (old_cap - head_idx);
       new_ptr ← copy_cells (sp_buffer s) head_idx new_ptr 0 first_part;
       second_part ← arith USIZE_BITS (count - first_part);
       copy_cells (sp_buffer s) 0 new_ptr first_part second_part);
  let s := mkSpsc new_ptr new_cap (new_cap - 1) 0 (sp_tail s) (sp_closed s) (sp_producer_waker s)
             (sp_consumer_waker s) (sp_bounded s) in
  (* the head is already zero here *)
  Ret (set_ring s (sp_buffer s) (sp_head s) (spsc_len s)).

Definition spsc_push s (item : T) : outcome (SpscInner * result unit T) :=
  let write s :=
    let offset := Z.land (sp_tail s) (sp_mask s) in
    buf ← cell_write (sp_buffer s) offset item;
    Ret (set_ring s buf (sp_head s) (wrapping_add USIZE_BITS (sp_tail s) 1), Ok tt) in
  if spsc_is_full s then
    if sp_bounded s then Ret (s, Err item) else s ← spsc_grow s; write s
  else write s.

Definition spsc_pop s : outcome (SpscInner * option T) :=
  if spsc_is_empty s then Ret (s, None) else
  let offset := Z.land (sp_head s) (sp_mask s) in
  '(buf, item) ← cell_read (sp_buffer s) offset;
  Ret (set_ring s buf (wrapping_add USIZE_BITS (sp_head s) 1) (sp_tail s), Some item).

(** [Drop for StateInner]: the remaining elements are popped and dropped. *)
Fixpoint spsc_drain (fuel : nat) s : outcome (SpscInner * list T) :=
  '(s, o) ← spsc_pop s;
  match o with
  | None => Ret (s, [])
  | Some x =>
      match fuel with
      | O => Fault OutOfFuel
      | S fuel => '(s, l) ← spsc_drain fuel s; Ret (s, x :: l)
      end
  end.
Definition spsc_drop s : outcome (list T) :=
  '(_, l) ← spsc_drain (Z.to_nat (spsc_len s)) s; Ret l.

Definition set_closed s : SpscInner :=
  mkSpsc (sp_buffer s) (sp_capacity s) (sp_mask s) (sp_head s) (sp_tail s) true (sp_producer_waker s)
    (sp_consumer_waker s) (sp_bounded s).
Definition set_producer s (w : option TaskWaker) : SpscInner :=
  mkSpsc (sp_buffer s) (sp_capacity s) (sp_mask s) (sp_head s) (sp_tail s) (sp_closed s) w
    (sp_consumer_waker s) (sp_bounded s).
Definition set_consumer s (w : option TaskWaker) : SpscInner :=
  mkSpsc (sp_buffer s) (sp_capacity s) (sp_mask s) (sp_head s) (sp_tail s) (sp_closed s)
    (sp_producer_waker s) w (sp_bounded s).

(** ** The two ends; each call returns the tasks it wakes *)

Definition spsc_sender_drop s : SpscInner * list TaskWaker :=
  let s := set_closed s in (set_consumer s None, woken_by (sp_consumer_waker s)).
Definition spsc_receiver_drop s : SpscInner * list TaskWaker :=
  let s := set_closed s in (set_producer s None, woken_by (sp_producer_waker s)).

Definition spsc_try_send s (item : T) : outcome (SpscInner * result unit (SendError T) * list TaskWaker) :=
  if sp_closed s then Ret (s, Err (SendClosed item), []) else
  '(s, r) ← spsc_push s item;
  match r with
  | Err item => Ret (s, Err (SendFull item), [])
  | Ok _ => Ret (set_consumer s None, Ok tt, woken_by (sp_consumer_waker s))
  end.

(** [SendFuture::poll]; the future keeps its item while it is pending. *)
Definition spsc_send_poll s (fut : option T) (cx : TaskWaker)
    : outcome (SpscInner * option T * Poll (result unit (SendError T)) * list TaskWaker) :=
  if sp_closed s then item ← expect fut; Ret (s, None, PollReady (Err (SendClosed item)), []) else
  item ← expect fut;
  '(s, r) ← spsc_push s item;
  match r with
  | Ok _ => Ret (set_consumer s None, None, PollReady (Ok tt), woken_by (sp_consumer_waker s))
  | Err item => Ret (set_producer s (update_waker (sp_producer_waker s) cx), Some item, PollPending, [])
  end.

Definition spsc_try_recv s : outcome (SpscInner * result T TryRecvError * list TaskWaker) :=
  '(s, o) ← spsc_pop s;
  match o with
  | Some item => Ret (set_producer s None, Ok item, woken_by (sp_producer_waker s))
  | None => if sp_closed s then Ret (s, Err RecvClosed, []) else Ret (s, Err RecvEmpty, [])
  end.

(** [RecvFuture::poll] and the streams' [poll_next]. *)
Definition spsc_recv_poll s (cx : TaskWaker) : outcome (SpscInner * Poll (option T) * list TaskWaker) :=
  '(s, o) ← spsc_pop s;
  match o with
  | Some item => Ret (set_producer s None, PollReady (Some item), woken_by (sp_producer_waker s))
  | None =>
      if sp_closed s then Ret (s, PollReady None, [])
      else Ret (set_consumer s (update_waker (sp_consumer_waker s) cx), PollPending, [])
  end.
End spsc.
Arguments SpscInner T : clear implicits.


(** ** The ring holds a sequence *)

Section ring.
Context {T : Type} (size_of : Z).
Implicit Types (s : SpscInner T) (q : list T).

Record ring_ok s q : Prop := {
  rk_cap : exists k, 0 <= k <= 62 /\ sp_capacity s = 2 ^ k;
  rk_mask : sp_mask s = sp_capacity s - 1;
  rk_buffer : Z.of_nat (length (sp_buffer s)) = sp_capacity s;
  rk_head : 0 <= sp_head s < 2 ^ 64;
  rk_tail : sp_tail s = (sp_head s + Z.of_nat (length q)) mod 2 ^ 64;
  rk_room : Z.of_nat (length q) <= sp_capacity s;
  rk_cells : forall i x, q !! i = Some x ->
    sp_buffer s !! Z.to_nat ((sp_head s + Z.of_nat i) mod sp_capacity s) = Some (Some x)
}.

Lemma cap_bounds s q : ring_ok s q -> 0 < sp_capacity s < 2 ^ 64.
Proof.
  intros H. destruct (rk_cap _ _ H) as (k & Hk & ->). split; [apply pow2_pos; lia |].
  apply Z.pow_lt_mono_r; lia.
Qed.

(** Masking a counter that wraps is reducing it modulo the capacity. *)
Lemma mod_cap s q x : ring_ok s q -> (x mod 2 ^ 64) mod sp_capacity s = x mod sp_capacity s.
Proof.
  intros H. destruct (rk_cap _ _ H) as (k & Hk & ->). apply Z.mod_mod_divide. exists (2 ^ (64 - k)).
  rewrite <- Z.pow_add_r by lia. f_equal. lia.
Qed.

Lemma mask_index s q x : ring_ok s q -> Z.land x (sp_mask s) = x mod sp_capacity s.
Proof.
  intros H. destruct (rk_cap _ _ H) as (k & Hk & Hc). rewrite (rk_mask _ _ H), Hc. apply land_mask. lia.
Qed.

Lemma tail_index s q : ring_ok s q ->
  sp_tail s mod sp_capacity s = (sp_head s + Z.of_nat (length q)) mod sp_capacity s.
Proof. intros H. rewrite (rk_tail _ _ H). by apply (mod_cap s q). Qed.

Lemma index_range s q x : ring_ok s q -> 0 <= x mod sp_capacity s < Z.of_nat (length (sp_buffer s)).
Proof. intros H. rewrite (rk_buffer _ _ H). apply Z.mod_pos_bound, (cap_bounds _ _ H). Qed.

Lemma ring_len s q : ring_ok s q -> spsc_len s = Z.of_nat (length q).
Proof.
  intros H. unfold spsc_len, wrapping_sub, wrap, USIZE_BITS. rewrite (rk_tail _ _ H).
  rewrite Zminus_mod_idemp_l. replace (_ + _ - _) with (Z.of_nat (length q)) by lia.
  apply Z.mod_small. pose proof (rk_room _ _ H). pose proof (cap_bounds _ _ H). lia.
Qed.

Lemma ring_empty s q : ring_ok s q -> spsc_is_empty s = match q with [] => true | _ => false end.
Proof.
  intros H. pose proof (ring_len _ _ H) as Hl. pose proof (rk_head _ _ H). unfold spsc_is_empty.
  unfold spsc_len, wrapping_sub, wrap, USIZE_BITS in Hl. destruct q as [| x q].
  - rewrite (rk_tail _ _ H). cbn. rewrite Z.add_0_r, Z.mod_small by done. apply Z.eqb_refl.
  - apply Z.eqb_neq. intros E. rewrite E, Z.sub_diag in Hl. by vm_compute in Hl.
Qed.

Lemma ring_full s q : ring_ok s q -> spsc_is_full s = (Z.of_nat (length q) =? sp_capacity s).
Proof. intros H. unfold spsc_is_full. by rewrite (ring_len _ _ H). Qed.

Lemma wrap_succ x n : (x mod 2 ^ 64 + n) mod 2 ^ 64 = (x + n) mod 2 ^ 64.
Proof. apply Zplus_mod_idemp_l. Qed.

(** Two positions of the sequence are different cells. *)
Lemma cells_differ c h i j : 0 < c -> 0 <= i < c -> 0 <= j < c -> i <> j ->
  (h + i) mod c <> (h + j) mod c.
Proof.
  intros Hc Hi Hj Hne E. apply Hne. destruct (Z.lt_trichotomy i j) as [Hl | [-> | Hl]]; [| done |].
  - apply (f_equal (fun z => (z - (h + i)) mod c)) in E. rewrite !Zminus_mod_idemp_l in E.
    replace (h + i - (h + i)) with 0 in E by lia. replace (h + j - (h + i)) with (j - i) in E by lia.
    rewrite Z.mod_0_l, Z.mod_small in E by lia. lia.
  - apply (f_equal (fun z => (z - (h + j)) mod c)) in E. rewrite !Zminus_mod_idemp_l in E.
    replace (h + j - (h + j)) with 0 in E by lia. replace (h + i - (h + j)) with (i - j) in E by lia.
    rewrite Z.mod_0_l, Z.mod_small in E by lia. lia.
Qed.

(** The write at the tail. *)
Definition pushed s (x : T) : SpscInner T :=
  set_ring s (<[Z.to_nat (sp_tail s mod sp_capacity s) := Some x]> (sp_buffer s)) (sp_head s)
    (wrapping_add USIZE_BITS (sp_tail s) 1).

Lemma pushed_ok s q x : ring_ok s q -> Z.of_nat (length q) < sp_capacity s -> ring_ok (pushed s x) (q ++ [x]).
Proof.
  intros H Hroom. pose proof (cap_bounds _ _ H) as Hc.
  pose proof (tail_index _ _ H) as Hti.
  split; cbn [pushed set_ring sp_capacity sp_mask sp_buffer sp_head sp_tail]; rewrite ?length_insert, ?length_app; cbn [length].
  - apply (rk_cap _ _ H).
  - apply (rk_mask _ _ H).
  - apply (rk_buffer _ _ H).
  - apply (rk_head _ _ H).
  - unfold wrapping_add, wrap, USIZE_BITS. rewrite (rk_tail _ _ H), wrap_succ. f_equal. lia.
  - lia.
  - intros i y Hy. pose proof (index_range s q (sp_tail s) H) as Hr.
    apply lookup_app_Some in Hy as [Hy | [Hge Hy]].
    + pose proof (lookup_lt_Some _ _ _ Hy) as Hlt. rewrite list_lookup_insert_ne; [by apply (rk_cells _ _ H) |].
      pose proof (index_range s q (sp_head s + Z.of_nat i) H).
      intros E. apply Z2Nat.inj in E; [| lia | lia]. rewrite Hti in E.
      apply (cells_differ (sp_capacity s) (sp_head s) (Z.of_nat (length q)) (Z.of_nat i)) in E; lia || done.
    + apply list_lookup_singleton_Some in Hy as [Hi <-]. replace i with (length q) by lia. rewrite <- Hti.
      apply list_lookup_insert_eq. lia.
Qed.

Lemma push_room s q x : ring_ok s q -> Z.of_nat (length q) < sp_capacity s ->
  spsc_push size_of s x = Ret (pushed s x, Ok tt).
Proof.
  intros H Hroom. unfold spsc_push. rewrite (ring_full _ _ H), (proj2 (Z.eqb_neq _ _)) by lia.
  rewrite (mask_index _ _ _ H). unfold cell_write. pose proof (index_range s q (sp_tail s) H).
  rewrite (proj2 (Z.leb_le _ _)), (proj2 (Z.ltb_lt _ _)) by lia. done.
Qed.

Lemma push_full s q x : ring_ok s q -> Z.of_nat (length q) = sp_capacity s -> sp_bounded s = true ->
  spsc_push size_of s x = Ret (s, Err x).
Proof. intros H Hf Hb. unfold spsc_push. by rewrite (ring_full _ _ H), (proj2 (Z.eqb_eq _ _) Hf), Hb. Qed.

Lemma pop_nil s : ring_ok s [] -> spsc_pop s = Ret (s, None).
Proof. intros H. unfold spsc_pop. by rewrite (ring_empty _ _ H). Qed.

(** The read at the head. *)
Definition popped s : SpscInner T :=
  set_ring s (<[Z.to_nat (sp_head s mod sp_capacity s) := None]> (sp_buffer s))
    (wrapping_add USIZE_BITS (sp_head s) 1) (sp_tail s).

Lemma pop_cons s x q : ring_ok s (x :: q) -> spsc_pop s = Ret (popped s, Some x) /\ ring_ok (popped s) q.
Proof.
  intros H. pose proof (cap_bounds _ _ H) as Hc. pose proof (rk_room _ _ H) as Hroom. cbn [length] in Hroom.
  pose proof (rk_cells _ _ H 0%nat x eq_refl) as Hx. rewrite Z.add_0_r in Hx. split.
  - unfold spsc_pop, cell_read. rewrite (ring_empty _ _ H), (mask_index _ _ _ H), Hx. done.
  - assert (Hh : forall n, (wrapping_add USIZE_BITS (sp_head s) 1 + n) mod sp_capacity s =
                           (sp_head s + (1 + n)) mod sp_capacity s).
    { intros n. unfold wrapping_add, wrap, USIZE_BITS. rewrite <- (mod_cap s _ _ H), wrap_succ, (mod_cap s _ _ H). f_equal. lia. }
    split; cbn [popped set_ring sp_capacity sp_mask sp_buffer sp_head sp_tail]; rewrite ?length_insert.
    + apply (rk_cap _ _ H).
    + apply (rk_mask _ _ H).
    + apply (rk_buffer _ _ H).
    + apply Z.mod_pos_bound. unfold USIZE_BITS. lia.
    + rewrite (rk_tail _ _ H). unfold wrapping_add, wrap, USIZE_BITS. rewrite wrap_succ. f_equal. cbn [length]. lia.
    + lia.
    + intros i y Hy. pose proof (lookup_lt_Some _ _ _ Hy) as Hlt. rewrite Hh, list_lookup_insert_ne.
      * replace (1 + Z.of_nat i) with (Z.of_nat (S i)) by lia. by apply (rk_cells _ _ H (S i)).
      * pose proof (index_range s _ (sp_head s) H). pose proof (index_range s _ (sp_head s + (1 + Z.of_nat i)) H).
        intros E. apply Z2Nat.inj in E; [| lia | lia]. rewrite <- (Z.add_0_r (sp_head s)) in E at 1.
        apply (cells_differ (sp_capacity s) (sp_head s) 0 (1 + Z.of_nat i)) in E; lia || done.
Qed.

(** Closing and wakers leave the ring alone. *)
Lemma ring_flags s q c pw cw : ring_ok s q ->
  ring_ok (mkSpsc (sp_buffer s) (sp_capacity s) (sp_mask s) (sp_head s) (sp_tail s) c pw cw (sp_bounded s)) q.
Proof. intros []. by split. Qed.

(** ** Growing *)

(** What [grow] makes of a full ring: the items move to the front, in order;
    the tail is the old tail. *)
Definition grown s q : SpscInner T :=
  mkSpsc ((Some <$> q) ++ replicate (length q) None) (sp_capacity s * 2) (sp_capacity s * 2 - 1) 0 (sp_tail s)
    (sp_closed s) (sp_producer_waker s) (sp_consumer_waker s) (sp_bounded s).

Lemma rotated_cells s q : ring_ok s q -> Z.of_nat (length q) = sp_capacity s ->
  let h := Z.to_nat (sp_head s mod sp_capacity s) in
  drop h (sp_buffer s) ++ take h (sp_buffer s) = Some <$> q.
Proof.
  intros H Hf h. pose proof (cap_bounds _ _ H) as Hc. pose proof (index_range s q (sp_head s) H) as Hr.
  pose proof (rk_buffer _ _ H) as Hb.
  apply list_eq_same_length with (n := length q); [by rewrite length_fmap | rewrite length_app, length_drop, length_take; lia |].
  intros i x y Hi Hx Hy. rewrite list_lookup_fmap in Hy. apply fmap_Some in Hy as (z & Hz & ->).
  pose proof (rk_cells _ _ H i z Hz) as Hcell.
  assert (Hmod : (sp_head s + Z.of_nat i) mod sp_capacity s =
    if decide (i < length (sp_buffer s) - h)%nat then sp_head s mod sp_capacity s + Z.of_nat i
    else sp_head s mod sp_capacity s + Z.of_nat i - sp_capacity s).
  { rewrite <- Zplus_mod_idemp_l. case_decide; [apply Z.mod_small; lia |].
    rewrite <- (Z.mod_add _ (-1)) by lia. rewrite Z.mod_small by lia. lia. }
  rewrite Hmod in Hcell. destruct (decide (i < length (sp_buffer s) - h)%nat) as [Hlt | Hge].
  - rewrite lookup_app_l in Hx by (rewrite length_drop; lia). rewrite lookup_drop in Hx.
    replace (h + i)%nat with (Z.to_nat (sp_head s mod sp_capacity s + Z.of_nat i)) in Hx by lia. congruence.
  - rewrite lookup_app_r in Hx by (rewrite length_drop; lia). rewrite length_drop in Hx.
    rewrite lookup_take_lt in Hx by lia.
    replace (i - (length (sp_buffer s) - h))%nat
      with (Z.to_nat (sp_head s mod sp_capacity s + Z.of_nat i - sp_capacity s)) in Hx by lia. congruence.
Qed.

Lemma copy_cells_ok (src dst : list (option T)) off doff n : 0 <= off -> 0 <= doff -> 0 <= n ->
  off + n <= Z.of_nat (length src) -> doff + n <= Z.of_nat (length dst) ->
  copy_cells src off dst doff n =
    Ret (take (Z.to_nat doff) dst ++ take (Z.to_nat n) (drop (Z.to_nat off) src) ++ drop (Z.to_nat (doff + n)) dst).
Proof.
  intros. unfold copy_cells. rewrite (proj2 (Z.ltb_ge _ _)), (proj2 (Z.ltb_ge _ _)) by lia. done.
Qed.

Lemma grow_ok s q : ring_ok s q -> Z.of_nat (length q) = sp_capacity s ->
  sp_capacity s * 2 * size_of <= ISIZE_MAX -> spsc_grow size_of s = Ret (grown s q).
Proof.
  intros H Hf Hsz. pose proof (cap_bounds _ _ H) as Hc. pose proof (rk_buffer _ _ H) as Hb.
  pose proof (index_range s q (sp_head s) H) as Hr. destruct (rk_cap _ _ H) as (k & Hk & Hk2).
  assert (H62 : sp_capacity s <= 2 ^ 62) by (rewrite Hk2; apply Z.pow_le_mono_r; lia).
  unfold spsc_grow. rewrite (arith_ok _ (sp_capacity s * 2)), bind_ret by (unfold USIZE_BITS; lia).
  unfold alloc_array, layout_array. rewrite (proj2 (Z.leb_le _ _) Hsz), !bind_ret.
  rewrite (ring_len _ _ H), !(mask_index _ _ _ H), (tail_index _ _ H), Hf.
  rewrite <- (Zplus_mod_idemp_r (sp_capacity s)), Z.mod_same, Z.add_0_r, Z.ltb_irrefl by lia.
  set (h := sp_head s mod sp_capacity s) in *.
  rewrite arith_ok, bind_ret by (unfold USIZE_BITS; lia).
  rewrite copy_cells_ok, bind_ret by (rewrite ?length_replicate; lia).
  rewrite arith_ok, bind_ret by (unfold USIZE_BITS; lia).
  rewrite copy_cells_ok by (rewrite ?length_app, ?length_take, ?length_drop, ?length_replicate; lia).
  rewrite bind_ret. unfold set_ring, grown, spsc_len.
  cbn [sp_buffer sp_head sp_tail sp_capacity sp_mask sp_closed sp_producer_waker sp_consumer_waker sp_bounded].
  assert (Ht : wrapping_sub USIZE_BITS (sp_tail s) 0 = sp_tail s).
  { unfold wrapping_sub, wrap, USIZE_BITS. rewrite Z.sub_0_r, (rk_tail _ _ H). by rewrite Z.mod_mod. }
  rewrite Ht, <- (rotated_cells s q H Hf). fold h. f_equal. f_equal.
  change (Z.to_nat 0) with 0%nat. rewrite take_0, drop_0, app_nil_l.
  rewrite (take_ge (drop (Z.to_nat h) (sp_buffer s))) by (rewrite length_drop; lia).
  rewrite take_app_length' by (rewrite length_drop; lia). rewrite <- app_assoc. f_equal. f_equal.
  - f_equal. lia.
  - rewrite drop_app_ge by (rewrite length_drop; lia). rewrite length_drop, drop_drop, drop_replicate.
    f_equal. lia.
Qed.

Lemma grown_ok s q : ring_ok s q -> Z.of_nat (length q) = sp_capacity s -> 0 < size_of ->
  sp_capacity s * 2 * size_of <= ISIZE_MAX -> sp_head s = 0 -> ring_ok (grown s q) q.
Proof.
  intros H Hf Hpos Hsz Hh. pose proof (cap_bounds _ _ H) as Hc. destruct (rk_cap _ _ H) as (k & Hk & Hk2).
  assert (Hk61 : k <= 61).
  { apply Z.nlt_ge. intros Hlt. assert (2 ^ 62 <= 2 ^ k) by (apply Z.pow_le_mono_r; lia).
    unfold ISIZE_MAX in Hsz. nia. }
  split; cbn [grown sp_capacity sp_mask sp_buffer sp_head sp_tail].
  - exists (k + 1). split; [lia |]. rewrite Hk2, Z.pow_add_r by lia. done.
  - done.
  - rewrite length_app, length_fmap, length_replicate. lia.
  - lia.
  - rewrite (rk_tail _ _ H), Hh. done.
  - lia.
  - intros i x Hi. pose proof (lookup_lt_Some _ _ _ Hi) as Hlt. rewrite Z.add_0_l, Z.mod_small by lia.
    rewrite Nat2Z.id, lookup_app_l by (rewrite length_fmap; lia). by rewrite list_lookup_fmap, Hi.
Qed.
End ring.

(** ** The channel is a queue *)

Section refine.
Context {T : Type} (size_of : Z).
Implicit Types (s : SpscInner T) (q : list T).

(** Calls of the two ends, and what they answer. *)
Inductive spsc_op : Type :=
  | SpTrySend (x : T)
  | SpSendPoll (x : T) (cx : TaskWaker)
  | SpTryRecv
  | SpRecvPoll (cx : TaskWaker)
  | SpDropSender
  | SpDropReceiver.

Inductive spsc_reply : Type :=
  | RepSend (r : result unit (SendError T))
  | RepSendPoll (kept : option T) (r : Poll (result unit (SendError T)))
  | RepRecv (r : result T TryRecvError)
  | RepRecvPoll (r : Poll (option T))
  | RepDropped.

Definition spsc_exec s (op : spsc_op) : outcome (SpscInner T * (spsc_reply * list TaskWaker)) :=
  match op with
  | SpTrySend x => '(s, r, w) ← spsc_try_send size_of s x; Ret (s, (RepSend r, w))
  | SpSendPoll x cx => '(s, kept, r, w) ← spsc_send_poll size_of s (Some x) cx; Ret (s, (RepSendPoll kept r, w))
  | SpTryRecv => '(s, r, w) ← spsc_try_recv s; Ret (s, (RepRecv r, w))
  | SpRecvPoll cx => '(s, r, w) ← spsc_recv_poll s cx; Ret (s, (RepRecvPoll r, w))
  | SpDropSender => let (s, w) := spsc_sender_drop s in Ret (s, (RepDropped, w))
  | SpDropReceiver => let (s, w) := spsc_receiver_drop s in Ret (s, (RepDropped, w))
  end.

Fixpoint spsc_run s (ops : list spsc_op) : outcome (SpscInner T * list (spsc_reply * list TaskWaker)) :=
  match ops with
  | [] => Ret (s, [])
  | op :: ops => '(s, a) ← spsc_exec s op; '(s, l) ← spsc_run s ops; Ret (s, a :: l)
  end.

(** The specification: a queue of at most [cap] items, closed or open, and who
    waits on either side. *)
Record queue_spec : Type := mkQueue {
  qs_items : list T;
  qs_closed : bool;
  qs_producer : option TaskWaker;
  qs_consumer : option TaskWaker
}.

Definition queue_step (cap : Z) (c : queue_spec) (op : spsc_op) : queue_spec * (spsc_reply * list TaskWaker) :=
  let '(mkQueue q closed pw cw) := c in
  let full := Z.of_nat (length q) =? cap in
  match op with
  | SpTrySend x =>
      if closed then (c, (RepSend (Err (SendClosed x)), []))
      else if full then (c, (RepSend (Err (SendFull x)), []))
      else (mkQueue (q ++ [x]) closed pw None, (RepSend (Ok tt), woken_by cw))
  | SpSendPoll x cx =>
      if closed then (c, (RepSendPoll None (PollReady (Err (SendClosed x))), []))
      else if full then (mkQueue q closed (Some cx) cw, (RepSendPoll (Some x) PollPending, []))
      else (mkQueue (q ++ [x]) closed pw None, (RepSendPoll None (PollReady (Ok tt)), woken_by cw))
  | SpTryRecv =>
      match q with
      | x :: q => (mkQueue q closed None cw, (RepRecv (Ok x), woken_by pw))
      | [] => (c, (RepRecv (Err (if closed then RecvClosed else RecvEmpty)), []))
      end
  | SpRecvPoll cx =>
      match q with
      | x :: q => (mkQueue q closed None cw, (RepRecvPoll (PollReady (Some x)), woken_by pw))
      | [] => if closed then (c, (RepRecvPoll (PollReady None), []))
              else (mkQueue q closed pw (Some cx), (RepRecvPoll PollPending, []))
      end
  | SpDropSender => (mkQueue q true pw None, (RepDropped, woken_by cw))
  | SpDropReceiver => (mkQueue q true None cw, (RepDropped, woken_by pw))
  end.

Fixpoint queue_run (cap : Z) (c : queue_spec) (ops : list spsc_op)
    : queue_spec * list (spsc_reply * list TaskWaker) :=
  match ops with
  | [] => (c, [])
  | op :: ops =>
      let (c, a) := queue_step cap c op in
      let (c, l) := queue_run cap c ops in (c, a :: l)
  end.

Definition queue_new : queue_spec := mkQueue [] false None None.

Definition spsc_rel (cap : Z) s (c : queue_spec) : Prop :=
  ring_ok s (qs_items c) /\ sp_closed s = qs_closed c /\ sp_producer_waker s = qs_producer c /\
  sp_consumer_waker s = qs_consumer c /\ sp_bounded s = true /\ sp_capacity s = cap.

Lemma exec_refines cap s c op : spsc_rel cap s c ->
  exists s', spsc_exec s op = Ret (s', (queue_step cap c op).2) /\ spsc_rel cap s' (queue_step cap c op).1.
Proof.
  intros (H & Hcl & Hpw & Hcw & Hb & Hcap). destruct c as [q closed pw cw]. cbn [qs_items qs_closed qs_producer qs_consumer] in *.
  subst closed pw cw cap. pose proof (rk_room _ _ H) as Hroom.
  assert (Hrel : forall s' q' c' pw' cw', ring_ok s' q' -> sp_bounded s' = true -> sp_capacity s' = sp_capacity s ->
    spsc_rel (sp_capacity s) (mkSpsc (sp_buffer s') (sp_capacity s') (sp_mask s') (sp_head s') (sp_tail s') c' pw' cw' (sp_bounded s'))
      (mkQueue q' c' pw' cw')) by (intros; split_and!; try done; by apply ring_flags).
  assert (Hid : spsc_rel (sp_capacity s) s (mkQueue q (sp_closed s) (sp_producer_waker s) (sp_consumer_waker s)))
    by (by split_and!).
  destruct op as [x | x cx | | cx | |]; cbn [spsc_exec queue_step].
  - unfold spsc_try_send. destruct (sp_closed s) eqn:Hc; [rewrite bind_ret; eauto |].
    destruct (Z.eqb_spec (Z.of_nat (length q)) (sp_capacity s)) as [Hf | Hf].
    + rewrite (push_full size_of _ _ _ H Hf Hb), !bind_ret. eauto.
    + rewrite (push_room size_of _ _ _ H) by lia. rewrite !bind_ret. eexists. split; [done |].
      rewrite <- Hc. apply (Hrel (pushed s x)); [apply pushed_ok; [done | lia] | done | done].
  - unfold spsc_send_poll. destruct (sp_closed s) eqn:Hc; [cbn [expect]; rewrite !bind_ret; eauto |].
    cbn [expect]. rewrite bind_ret.
    destruct (Z.eqb_spec (Z.of_nat (length q)) (sp_capacity s)) as [Hf | Hf].
    + rewrite (push_full size_of _ _ _ H Hf Hb), !bind_ret, update_waker_eq. eexists. split; [done |].
      rewrite <- Hc. by apply (Hrel s).
    + rewrite (push_room size_of _ _ _ H) by lia. rewrite !bind_ret. eexists. split; [done |].
      rewrite <- Hc. apply (Hrel (pushed s x)); [apply pushed_ok; [done | lia] | done | done].
  - unfold spsc_try_recv. destruct q as [| x q].
    + rewrite (pop_nil _ H), bind_ret. destruct (sp_closed s); rewrite bind_ret; eauto.
    + destruct (pop_cons _ _ _ H) as [-> Hp]. rewrite !bind_ret. eexists. split; [done |].
      by apply (Hrel (popped s)).
  - unfold spsc_recv_poll. destruct q as [| x q].
    + rewrite (pop_nil _ H), bind_ret. destruct (sp_closed s) eqn:Hc; rewrite bind_ret; [eauto |].
      rewrite update_waker_eq. eexists. split; [done |]. rewrite <- Hc. by apply (Hrel s).
    + destruct (pop_cons _ _ _ H) as [-> Hp]. rewrite !bind_ret. eexists. split; [done |].
      by apply (Hrel (popped s)).
  - eexists. split; [done |]. by apply (Hrel s).
  - eexists. split; [done |]. by apply (Hrel s).
Qed.

Lemma run_refines cap ops : forall s c, spsc_rel cap s c ->
  exists s', spsc_run s ops = Ret (s', (queue_run cap c ops).2) /\ spsc_rel cap s' (queue_run cap c ops).1.
Proof.
  induction ops as [| op ops IH]; intros s c Hr; [by exists s |].
  destruct (exec_refines cap s c op Hr) as (s1 & He & H1). cbn [spsc_run queue_run]. rewrite He, bind_ret.
  destruct (queue_step cap c op) as [c1 a]. cbn [fst snd] in *.
  destruct (IH s1 c1 H1) as (s2 & -> & H2). rewrite bind_ret. destruct (queue_run cap c1 ops) as [c2 l].
  cbn [fst snd] in *. eauto.
Qed.

(** In the specification nobody waits in vain. *)
Definition queue_inv (cap : Z) (c : queue_spec) : Prop :=
  Z.of_nat (length (qs_items c)) <= cap /\
  (qs_closed c = false ->
   (qs_consumer c <> None -> qs_items c = []) /\
   (qs_producer c <> None -> Z.of_nat (length (qs_items c)) = cap)).

Lemma queue_step_inv cap c op : 0 < cap -> queue_inv cap c -> queue_inv cap (queue_step cap c op).1.
Proof.
  intros Hcap [Hlen Hw]. destruct c as [q closed pw cw]. unfold queue_inv in *.
  cbn [qs_items qs_closed qs_producer qs_consumer] in *.
  destruct op as [x | x cx | | cx | |]; cbn [queue_step].
  1, 2: destruct closed; [by split |]; destruct (Z.eqb_spec (Z.of_nat (length q)) cap) as [Hf | Hf]; cbn;
    [tauto | rewrite ?length_app; cbn; split; [lia |]; intros _; split; [done |]; intros Hp; apply Hw in Hp; [lia | done]].
  1, 2: destruct q as [| x q]; cbn in *.
  - by split.
  - split; [lia |]. intros Hc. split; [| done]. intros Hx. apply Hw in Hx; done.
  - destruct closed; cbn; [by split |]. split; [lia |]. intros _. split; [done |]. intros Hp. by apply Hw in Hp.
  - split; [lia |]. intros Hc. split; [| done]. intros Hx. apply Hw in Hx; done.
  - by split.
  - by split.
Qed.

Lemma queue_run_inv cap ops : forall c, 0 < cap -> queue_inv cap c -> queue_inv cap (queue_run cap c ops).1.
Proof.
  induction ops as [| op ops IH]; intros c Hc Hi; [done |]. cbn [queue_run].
  pose proof (queue_step_inv cap c op Hc Hi) as H1. destruct (queue_step cap c op) as [c1 a]. cbn [fst] in H1.
  specialize (IH c1 Hc H1). by destruct (queue_run cap c1 ops).
Qed.

(** The ring has room for at least the requested number of items, and a power
    of two of them. *)
Definition spsc_capacity (size : Z) : Z := next_power_of_two (Z.max size 1).

Lemma spsc_capacity_pow size : exists k, 0 <= k /\ spsc_capacity size = 2 ^ k.
Proof.
  unfold spsc_capacity, next_power_of_two. destruct (Z.leb_spec (Z.max size 1) 1); [by exists 0 |].
  exists (Z.log2_up (Z.max size 1)). split; [apply Z.log2_up_nonneg | done].
Qed.

Lemma new_rel size : 0 < size_of -> spsc_capacity size * size_of <= ISIZE_MAX ->
  exists s, spsc_new size_of (Bounded size) = Ret s /\ spsc_rel (spsc_capacity size) s queue_new.
Proof.
  intros Hs Hsz. destruct (spsc_capacity_pow size) as (k & Hk & Hc). fold (spsc_capacity size).
  assert (Hpos : 0 < 2 ^ k) by (apply pow2_pos; lia).
  assert (Hk62 : k <= 62).
  { apply Z.nlt_ge. intros Hlt. assert (2 ^ 63 <= 2 ^ k) by (apply Z.pow_le_mono_r; lia).
    unfold ISIZE_MAX in Hsz. rewrite Hc in Hsz. nia. }
  assert (2 ^ k <= 2 ^ 62) by (apply Z.pow_le_mono_r; lia).
  unfold spsc_new. fold (spsc_capacity size). rewrite arith_ok, !bind_ret by (unfold USIZE_BITS; rewrite Hc; lia).
  unfold alloc_array, layout_array. rewrite (proj2 (Z.leb_le _ _) Hsz), !bind_ret. eexists. split; [done |].
  split_and!; try done. split; cbn [sp_capacity sp_mask sp_buffer sp_head sp_tail qs_items queue_new length];
    rewrite ?length_replicate, ?Hc; try done; try lia.
  - by exists k.
Qed.

(** C33 The bounded channel refines a queue: for any size whose buffer can be
    allocated, and any calls of sender and receiver, creation and all calls
    return, without touching memory that holds no item; answers and woken
    tasks are those of a first-in first-out queue that holds up to the size
    rounded up to a power of two, refuses items when full or closed (handing them
    back), and delivers what it holds even after closing; and while the channel is open, a
    receiver is registered as waiting only if there is nothing to receive, a sender only
    if there is no room. *)
Theorem spsc_refines_queue (size : Z) (ops : list spsc_op)
    (Hs : 0 < size_of) (Hsize : 0 <= size) (Hsz : spsc_capacity size * size_of <= ISIZE_MAX) :
  size <= spsc_capacity size /\
  exists s s', spsc_new size_of (Bounded size) = Ret s /\
    spsc_run s ops = Ret (s', (queue_run (spsc_capacity size) queue_new ops).2) /\
    ring_ok s' (qs_items (queue_run (spsc_capacity size) queue_new ops).1) /\
    (sp_closed s' = false ->
       (sp_consumer_waker s' <> None -> spsc_len s' = 0) /\
       (sp_producer_waker s' <> None -> spsc_is_full s' = true)).
Proof.
  destruct (new_rel size Hs Hsz) as (s & Hn & Hr).
  destruct (run_refines _ ops s queue_new Hr) as (s' & He & Hr'). split.
  { unfold spsc_capacity, next_power_of_two. destruct (Z.leb_spec (Z.max size 1) 1); [lia |].
    pose proof (Z.log2_up_spec (Z.max size 1)). lia. }
  exists s, s'. split; [done |]. split; [done |].
  assert (Hpos : 0 < spsc_capacity size).
  { destruct (spsc_capacity_pow size) as (k & Hk & ->). by apply pow2_pos. }
  assert (Hi : queue_inv (spsc_capacity size) (queue_run (spsc_capacity size) queue_new ops).1).
  { apply queue_run_inv; [done |]. split; [cbn; lia | done]. }
  destruct Hr' as (H & Hcl & Hpw & Hcw & _ & Hcap). split; [done |]. destruct Hi as [_ Hw].
  rewrite Hcl, Hpw, Hcw, (ring_len _ _ H), (ring_full _ _ H), Hcap, Z.eqb_eq.
  intros Hc. destruct (Hw Hc) as [H1 H2]. split; [| done]. intros Hx. by rewrite (H1 Hx).
Qed.

(** The unbounded channel takes every item, but keeps its sequence only when
    the ring is not full, or was never received from: pushing onto a full ring
    grows it and keeps the old tail counter, so that with the head counter not
    zero the ring no longer holds the items it was given, and its length is
    wrong by the number of items received before. *)
Theorem spsc_push_unbounded s q (x : T) (Hs : 0 < size_of) (Hq : ring_ok s q) (Hb : sp_bounded s = false)
    (Hsz : sp_capacity s * 2 * size_of <= ISIZE_MAX) :
  exists s', spsc_push size_of s x = Ret (s', Ok tt) /\
    (ring_ok s' (q ++ [x]) <-> Z.of_nat (length q) < sp_capacity s \/ sp_head s = 0) /\
    (Z.of_nat (length q) = sp_capacity s ->
     spsc_len s' = (sp_head s + Z.of_nat (length q) + 1) mod 2 ^ 64).
Proof.
  pose proof (rk_room _ _ Hq) as Hroom. pose proof (cap_bounds _ _ Hq) as Hc. pose proof (rk_head _ _ Hq) as Hh.
  destruct (decide (Z.of_nat (length q) < sp_capacity s)) as [Hlt | Hge].
  { exists (pushed s x). split; [by apply (push_room size_of _ q) |]. split; [| lia].
    split; [by left | intros _; by apply pushed_ok]. }
  assert (Hf : Z.of_nat (length q) = sp_capacity s) by lia.
  pose proof (grow_ok size_of s q Hq Hf Hsz) as Hg. destruct (rk_cap _ _ Hq) as (k & Hk & Hk2).
  assert (H62 : sp_capacity s <= 2 ^ 62) by (rewrite Hk2; apply Z.pow_le_mono_r; lia).
  assert (Hti : Z.land (sp_tail s) (sp_capacity s * 2 - 1) = sp_tail s mod (sp_capacity s * 2)).
  { rewrite Hk2. replace (2 ^ k * 2) with (2 ^ (k + 1)) by (rewrite Z.pow_add_r by lia; lia). apply land_mask. lia. }
  assert (Hr : 0 <= sp_tail s mod (sp_capacity s * 2) < sp_capacity s * 2) by (apply Z.mod_pos_bound; lia).
  exists (pushed (grown s q) x).
  assert (He : spsc_push size_of s x = Ret (pushed (grown s q) x, Ok tt)).
  { unfold spsc_push. rewrite (ring_full _ _ Hq), (proj2 (Z.eqb_eq _ _) Hf), Hb, Hg, bind_ret.
    cbn [grown sp_tail sp_mask sp_buffer]. unfold cell_write.
    rewrite Hti, length_app, length_fmap, length_replicate.
    rewrite (proj2 (Z.leb_le _ _)), (proj2 (Z.ltb_lt _ _)) by lia. done. }
  assert (Hl : spsc_len (pushed (grown s q) x) = (sp_head s + Z.of_nat (length q) + 1) mod 2 ^ 64).
  { unfold spsc_len, pushed, set_ring, grown, wrapping_sub, wrapping_add, wrap, USIZE_BITS. cbn.
    rewrite Z.sub_0_r, Z.mod_mod, (rk_tail _ _ Hq) by done. apply wrap_succ. }
  split; [done |]. split; [| done]. split.
  - intros Hok. right. pose proof (ring_len _ _ Hok) as Hlen. rewrite Hl, length_app in Hlen. cbn in Hlen.
    destruct (decide (sp_head s + Z.of_nat (length q) + 1 < 2 ^ 64)).
    + rewrite Z.mod_small in Hlen by lia. lia.
    + rewrite <- (Z.mod_add _ (-1)), Z.mod_small in Hlen by lia. lia.
  - intros [Hlt | H0]; [lia |]. apply pushed_ok; [by apply (grown_ok size_of) | cbn; lia].
Qed.
End refine.

(** ** Concrete channels *)

Definition demo_ops : list (spsc_op (T := Z)) :=
  [SpRecvPoll 1; SpTrySend 10; SpTrySend 11; SpTrySend 12; SpTrySend 13; SpSendPoll 14 2; SpTryRecv; SpDropSender;
   SpTryRecv; SpTryRecv; SpTryRecv; SpTryRecv].

Lemma spsc_refines_queue_witness :
  exists s, spsc_new 8 (Bounded 3) = Ret s /\
    ('(_, l) ← spsc_run 8 s demo_ops; Ret l) =
      Ret [(RepRecvPoll PollPending, []); (RepSend (Ok tt), [1]); (RepSend (Ok tt), []); (RepSend (Ok tt), []);
           (RepSend (Ok tt), []); (RepSendPoll (Some 14) PollPending, []); (RepRecv (Ok 10), [2]); (RepDropped, []);
           (RepRecv (Ok 11), []); (RepRecv (Ok 12), []); (RepRecv (Ok 13), []); (RepRecv (Err RecvClosed), [])].
Proof.
  destruct (spsc_refines_queue 8 3 demo_ops) as (_ & s & s' & Hn & Hr & _); [lia | lia | by vm_compute |].
  exists s. split; [exact Hn |]. rewrite Hr. vm_compute. reflexivity.
Defined.

Definition full_ring : SpscInner Z :=
  mkSpsc [Some 9; Some 2; Some 3; Some 4; Some 5; Some 6; Some 7; Some 8] 8 7 1 9 false None None false.

Lemma full_ring_ok : ring_ok full_ring [2; 3; 4; 5; 6; 7; 8; 9].
Proof.
  split; try by vm_compute.
  - exists 3. split; [lia | done].
  - intros i x Hi. do 8 (destruct i as [| i]; [injection Hi as <-; reflexivity |]). done.
Qed.

Lemma spsc_push_unbounded_witness :
  exists s', spsc_push 8 full_ring 10 = Ret (s', Ok tt) /\ spsc_len s' = 10.
Proof.
  destruct (spsc_push_unbounded 8 full_ring _ 10 ltac:(lia) full_ring_ok eq_refl ltac:(by vm_compute)) as (s' & He & _ & Hl).
  exists s'. split; [exact He |]. rewrite Hl; reflexivity.
Defined.

(** One item sent and received, then nine more sent: the receiver gets
    eight of them and then reads a cell that was never written. *)
Theorem spsc_reads_uninitialised :
  (s ← spsc_new 8 Unbounded;
   spsc_run 8 s ([SpTrySend 1; SpTryRecv] ++ map SpTrySend [2; 3; 4; 5; 6; 7; 8; 9; 10] ++ replicate 9 SpTryRecv)) =
    Fault UninitRead.
Proof. vm_compute. reflexivity. Qed.
