(* ===== verification/Oneshot.v ===== *)
(** * veloq-local [oneshot.rs]: the one-shot channel

    One value from a sender, which is consumed by sending, to a receiver that
    polls or tries.  The owned ends share the state through [Rc] and call the
    borrowed ends; the count of references is kept with the state. *)

From S2P Require Import Prelude ChannelCommon.

Section oneshot.
Context {T : Type}.

Record OneshotState : Type := mkOneshot {
  on_value : option T;
  on_waker : option TaskWaker;
  on_tx_closed : bool;
  on_rx_closed : bool
}.
Implicit Types s : OneshotState.

Definition oneshot_new : OneshotState := mkOneshot None None false false.

(** [Drop for Sender]: a receiver that waits for nothing is woken. *)
Definition oneshot_sender_drop s : OneshotState * list TaskWaker :=
  match on_value s with
  | None => (mkOneshot None None true (on_rx_closed s), woken_by (on_waker s))
  | Some v => (mkOneshot (Some v) (on_waker s) true (on_rx_closed s), [])
  end.

(** [Sender::send]; it consumes the sender, which is dropped at its end. *)
Definition oneshot_send s (t : T) : OneshotState * result unit T * list TaskWaker :=
  if on_rx_closed s then let (s, w) := oneshot_sender_drop s in (s, Err t, w)
  else
    let waker := on_waker s in
    let s := mkOneshot (Some t) None (on_tx_closed s) (on_rx_closed s) in
    let (s, w) := oneshot_sender_drop s in
    (s, Ok tt, woken_by waker ++ w).

Definition oneshot_is_closed s : bool := on_rx_closed s.

(** [Receiver::poll]; [RecvError] has one value. *)
Definition oneshot_poll s (cx : TaskWaker) : OneshotState * Poll (result T unit) :=
  match on_value s with
  | Some v => (mkOneshot None (on_waker s) (on_tx_closed s) (on_rx_closed s), PollReady (Ok v))
  | None =>
      if on_tx_closed s then (s, PollReady (Err tt))
      else (mkOneshot None (update_waker (on_waker s) cx) (on_tx_closed s) (on_rx_closed s), PollPending)
  end.

Definition oneshot_try_recv s : OneshotState * result T TryRecvError :=
  match on_value s with
  | Some v => (mkOneshot None (on_waker s) (on_tx_closed s) (on_rx_closed s), Ok v)
  | None => (s, Err (if on_tx_closed s then RecvClosed else RecvEmpty))
  end.

Definition oneshot_close s : OneshotState := mkOneshot (on_value s) (on_waker s) (on_tx_closed s) true.
Definition oneshot_receiver_drop s : OneshotState := oneshot_close s.

(** ** Owned ends: the shared state with its reference count *)

Record Owned : Type := mkOwned { ow_state : OneshotState; ow_refs : Z }.

Definition owned_channel : Owned := mkOwned oneshot_new 2.

(** [Rc::drop]: the state is dropped with the last reference. *)
Definition rc_drop (o : Owned) : Owned := mkOwned (ow_state o) (ow_refs o - 1).

Definition owned_send (o : Owned) (t : T) : Owned * result unit T * list TaskWaker :=
  let '(s, r, w) := oneshot_send (ow_state o) t in (rc_drop (mkOwned s (ow_refs o)), r, w).
Definition owned_sender_drop (o : Owned) : Owned * list TaskWaker :=
  let (s, w) := oneshot_sender_drop (ow_state o) in (rc_drop (mkOwned s (ow_refs o)), w).
Definition owned_try_recv (o : Owned) : Owned * result T TryRecvError :=
  let (s, r) := oneshot_try_recv (ow_state o) in (mkOwned s (ow_refs o), r).
Definition owned_poll (o : Owned) (cx : TaskWaker) : Owned * Poll (result T unit) :=
  let (s, r) := oneshot_poll (ow_state o) cx in (mkOwned s (ow_refs o), r).
Definition owned_close (o : Owned) : Owned := mkOwned (oneshot_close (ow_state o)) (ow_refs o).
Definition owned_receiver_drop (o : Owned) : Owned :=
  rc_drop (mkOwned (oneshot_receiver_drop (ow_state o)) (ow_refs o)).

(** ** The contract *)

(** What a receiver does while it exists. *)
Inductive rx_op : Type := RxPoll (cx : TaskWaker) | RxTry | RxClose.

(** The answer: a value, nothing yet, or nothing any more. *)
Inductive rx_reply : Type := GotValue (v : T) | GotNothing | GotClosed | NoReply.

Definition rx_exec (o : Owned) (op : rx_op) : Owned * rx_reply :=
  match op with
  | RxPoll cx =>
      let (o, r) := owned_poll o cx in
      (o, match r with PollPending => GotNothing | PollReady (Ok v) => GotValue v | PollReady (Err _) => GotClosed end)
  | RxTry =>
      let (o, r) := owned_try_recv o in
      (o, match r with Ok v => GotValue v | Err RecvEmpty => GotNothing | Err RecvClosed => GotClosed end)
  | RxClose => (owned_close o, NoReply)
  end.

Fixpoint rx_run (o : Owned) (ops : list rx_op) : Owned * list rx_reply :=
  match ops with
  | [] => (o, [])
  | op :: ops => let (o, a) := rx_exec o op in let (o, l) := rx_run o ops in (o, a :: l)
  end.

(** The one thing a sender does. *)
Inductive tx_act : Type := TxSend (t : T) | TxDrop.

Definition tx_exec (o : Owned) (a : tx_act) : Owned * option (result unit T) * list TaskWaker :=
  match a with
  | TxSend t => let '(o, r, w) := owned_send o t in (o, Some r, w)
  | TxDrop => let (o, w) := owned_sender_drop o in (o, None, w)
  end.

(** Specification: answers before the sender acted, and after it left [v]. *)
Definition early_reply (op : rx_op) : rx_reply := match op with RxClose => NoReply | _ => GotNothing end.

Fixpoint late_replies (v : option T) (ops : list rx_op) : list rx_reply :=
  match ops with
  | [] => []
  | RxClose :: ops => NoReply :: late_replies v ops
  | _ :: ops => (match v with Some x => GotValue x | None => GotClosed end) :: late_replies None ops
  end.

Definition has_closed (ops : list rx_op) : bool := existsb (fun op => match op with RxClose => true | _ => false end) ops.
Definition last_poll (ops : list rx_op) : option TaskWaker :=
  fold_left (fun w op => match op with RxPoll cx => Some cx | _ => w end) ops None.

Lemma early_run ops : forall w c n,
  rx_run (mkOwned (mkOneshot None w false c) n) ops =
    (mkOwned (mkOneshot None (fold_left (fun w op => match op with RxPoll cx => Some cx | _ => w end) ops w) false
                (c || has_closed ops)) n, early_reply <$> ops).
Proof.
  induction ops as [| op ops IH]; intros w c n; [by rewrite orb_false_r |].
  destruct op as [cx | |]; cbn [rx_run rx_exec].
  - unfold owned_poll, oneshot_poll. cbn [ow_state on_value on_tx_closed on_waker on_rx_closed ow_refs].
    rewrite update_waker_eq, IH. done.
  - unfold owned_try_recv, oneshot_try_recv. cbn [ow_state on_value on_tx_closed on_waker on_rx_closed ow_refs]. by rewrite IH.
  - unfold owned_close, oneshot_close. cbn [ow_state on_value on_tx_closed on_waker on_rx_closed ow_refs]. rewrite IH. cbn.
    by destruct c.
Qed.

Lemma late_run ops : forall v w c n,
  exists v' c', rx_run (mkOwned (mkOneshot v w true c) n) ops = (mkOwned (mkOneshot v' w true c') n, late_replies v ops).
Proof.
  induction ops as [| op ops IH]; intros v w c n; [by eexists _, _ |].
  destruct op as [cx | |]; cbn [rx_run rx_exec late_replies].
  - unfold owned_poll, oneshot_poll. cbn [ow_state on_value on_tx_closed on_waker on_rx_closed ow_refs].
    destruct v as [v |]; destruct (IH None w c n) as (v' & c' & ->); by eexists _, _.
  - unfold owned_try_recv, oneshot_try_recv. cbn [ow_state on_value on_tx_closed on_waker on_rx_closed ow_refs].
    destruct v as [v |]; destruct (IH None w c n) as (v' & c' & ->); by eexists _, _.
  - unfold owned_close, oneshot_close. cbn [ow_state on_value on_tx_closed on_waker on_rx_closed ow_refs].
    destruct (IH v w true n) as (v' & c' & ->). by eexists _, _.
Qed.

(** The one-shot channel keeps its contract in every history: until the
    sender acts the receiver is told that there is nothing yet; sending
    succeeds exactly when the receiver did not close before, and otherwise
    hands the value back; sending or dropping wakes exactly the task that
    polled last, if any; afterwards the first attempt to receive gets the value that was sent,
    every other attempt (and every attempt when nothing was sent) is told that
    the channel is closed; and the shared state has one reference left, which
    the receiver's drop releases. *)
Theorem oneshot_contract (before after : list rx_op) (act : tx_act) :
  let sent := match act with TxSend t => if has_closed before then None else Some t | TxDrop => None end in
  exists o1 o2 o3,
    rx_run owned_channel before = (o1, early_reply <$> before) /\
    tx_exec o1 act =
      (o2, match act with
           | TxSend t => Some (if has_closed before then Err t else Ok tt)
           | TxDrop => None
           end, woken_by (last_poll before)) /\
    rx_run o2 after = (o3, late_replies sent after) /\
    ow_refs o3 = 1 /\ ow_refs (owned_receiver_drop o3) = 0.
Proof.
  intros sent. unfold owned_channel, oneshot_new. rewrite early_run. cbn [orb].
  fold (last_poll before). eexists _. set (o2 := mkOwned (mkOneshot sent None true (has_closed before)) 1).
  destruct (late_run after sent None (has_closed before) 1) as (v' & c' & Hlate).
  exists o2, (mkOwned (mkOneshot v' None true c') 1). split; [done |]. split; [| by split_and!].
  destruct act as [t |]; cbn [tx_exec].
  - unfold owned_send, oneshot_send. cbn [ow_state on_rx_closed].
    unfold o2, sent. destruct (has_closed before); cbn; [done |]. by rewrite app_nil_r.
  - done.
Qed.
End oneshot.
Arguments OneshotState T : clear implicits.
