(* ===== verification/Mpmc.v ===== *)
(** * veloq-local [mpmc.rs] and [mpsc.rs]: the channels with waiting queues

    A queue of items and two queues of waiting futures.  The waiting queues are
    intrusive lists; what [IntrusiveList] proves of them (an operation on the
    list is the operation on the sequence of its nodes) is used here: a queue is
    the sequence of the identities of its nodes, a node is linked when it is in
    one of them, and its waker cell is an entry of a map.  [mpsc.rs] is the same
    code but for three functions, which are at the end. *)

From stdpp Require Import gmap sets.
From S2P Require Import Prelude ChannelCommon.

Section mpmc.
Context {T : Type}.

Record ChanInner : Type := mkChan {
  cn_capacity : ChannelCapacity;
  cn_channel : list T;
  cn_tx_count : Z;
  cn_rx_count : Z;
  cn_closed : bool;
  cn_recv_waiters : list Z;
  cn_send_waiters : list Z;
  cn_wakers : gmap Z TaskWaker
}.
Implicit Types s : ChanInner.

Definition chan_new (capacity : ChannelCapacity) : ChanInner :=
  mkChan capacity [] 1 1 false [] [] ∅.

(** [State::split] *)
Definition chan_split s : ChanInner :=
  mkChan (cn_capacity s) (cn_channel s) 1 1 false (cn_recv_waiters s) (cn_send_waiters s) (cn_wakers s).

Definition set_channel s (q : list T) : ChanInner :=
  mkChan (cn_capacity s) q (cn_tx_count s) (cn_rx_count s) (cn_closed s) (cn_recv_waiters s)
    (cn_send_waiters s) (cn_wakers s).
Definition set_recv s (l : list Z) (m : gmap Z TaskWaker) : ChanInner :=
  mkChan (cn_capacity s) (cn_channel s) (cn_tx_count s) (cn_rx_count s) (cn_closed s) l (cn_send_waiters s) m.
Definition set_send s (l : list Z) (m : gmap Z TaskWaker) : ChanInner :=
  mkChan (cn_capacity s) (cn_channel s) (cn_tx_count s) (cn_rx_count s) (cn_closed s) (cn_recv_waiters s) l m.
Definition set_counts s (tx rx : Z) (closed : bool) : ChanInner :=
  mkChan (cn_capacity s) (cn_channel s) tx rx closed (cn_recv_waiters s) (cn_send_waiters s) (cn_wakers s).

(** ** [StateInner] *)

Definition chan_is_full s : bool :=
  match cn_capacity s with
  | Unbounded => false
  | Bounded x => x <=? Z.of_nat (length (cn_channel s))
  end.

Definition chan_push s (item : T) : outcome (ChanInner * result (option TaskWaker) (SendError T)) :=
  if cn_closed s then Ret (s, Err (SendClosed item))
  else if chan_is_full s then Ret (s, Err (SendFull item))
  else
    let s := set_channel s (cn_channel s ++ [item]) in
    match cn_recv_waiters s with
    | [] => Ret (s, Ok None)
    | n :: l =>
        w ← expect (cn_wakers s !! n);
        Ret (set_recv s l (delete n (cn_wakers s)), Ok (Some w))
    end.

Inductive PollResult (R : Type) : Type := ChanPending | ChanReady (r : R).
Arguments ChanPending {R}.
Arguments ChanReady {R} r.

Definition wait_for_room s : ChanInner * PollResult unit :=
  (s, if cn_closed s || negb (chan_is_full s) then ChanReady tt else ChanPending).

Definition recv_one s : ChanInner * PollResult (option (T * option TaskWaker)) :=
  match cn_channel s with
  | item :: q =>
      let s := set_channel s q in
      match cn_send_waiters s with
      | [] => (s, ChanReady (Some (item, None)))
      | n :: l => (set_send s l (delete n (cn_wakers s)), ChanReady (Some (item, cn_wakers s !! n)))
      end
  | [] =>
      (s, if (0 <? cn_tx_count s) && negb (cn_closed s) then ChanPending else ChanReady None)
  end.

(** ** Waiting futures *)

(** [SenderAction] and [ReceiverAction]. *)
Inductive WaiterAction : Type := SenderAction | ReceiverAction.

Definition get_list (a : WaiterAction) s : list Z :=
  match a with SenderAction => cn_send_waiters s | ReceiverAction => cn_recv_waiters s end.
Definition set_list (a : WaiterAction) s (l : list Z) (m : gmap Z TaskWaker) : ChanInner :=
  match a with SenderAction => set_send s l m | ReceiverAction => set_recv s l m end.

(** [node.link.is_linked()] *)
Definition is_linked s (node : Z) : bool := bool_decide (node ∈ cn_send_waiters s ++ cn_recv_waiters s).

Definition register_into_waiting_queue (a : WaiterAction) s (node : Z) : ChanInner :=
  if is_linked s node then s else set_list a s (get_list a s ++ [node]) (cn_wakers s).

Definition remove_from_the_waiting_queue (a : WaiterAction) s (node : Z) : ChanInner :=
  if negb (is_linked s node) then s else set_list a s (filter (.≠ node) (get_list a s)) (cn_wakers s).

(** [Waiter::poll]; [poll_fn] also returns the tasks it wakes. *)
Definition waiter_poll {R : Type} (a : WaiterAction) s (node : Z) (cx : TaskWaker)
    (poll_fn : ChanInner -> ChanInner * PollResult R * list TaskWaker)
    : ChanInner * Poll R * list TaskWaker :=
  let '(s, result, w) := poll_fn s in
  match result with
  | ChanPending =>
      let m := partial_alter (fun slot => update_waker slot cx) node (cn_wakers s) in
      let s := set_list a s (get_list a s) m in
      let s := if negb (is_linked s node) then register_into_waiting_queue a s node else s in
      (s, PollPending, w)
  | ChanReady r => (remove_from_the_waiting_queue a s node, PollReady r, w)
  end.

(** [Drop for Waiter], and of the streams, which test the link inside; the node and its waker go. *)
Definition waiter_drop (a : WaiterAction) s (node : Z) : ChanInner :=
  let s := if is_linked s node then remove_from_the_waiting_queue a s node else s in
  set_list a s (get_list a s) (delete node (cn_wakers s)).

(** ** Sender *)

Definition sender_clone s : outcome ChanInner :=
  tx ← arith USIZE_BITS (cn_tx_count s + 1); Ret (set_counts s tx (cn_rx_count s) (cn_closed s)).

Definition chan_try_send s (item : T) : outcome (ChanInner * result unit (SendError T) * list TaskWaker) :=
  '(s, r) ← chan_push s item;
  match r with
  | Ok w => Ret (s, Ok tt, woken_by w)
  | Err e => Ret (s, Err e, [])
  end.

(** One poll of the future of [Sender::send], which waits for room with a
    [Waiter] and then tries to send. *)
Definition send_poll s (node : Z) (item : T) (cx : TaskWaker)
    : outcome (ChanInner * Poll (result unit (SendError T)) * list TaskWaker) :=
  let '(s, p, w) := waiter_poll SenderAction s node cx (fun s => (wait_for_room s, [])) in
  match p with
  | PollPending => Ret (s, PollPending, w)
  | PollReady _ =>
      let s := waiter_drop SenderAction s node in
      '(s, r, w') ← chan_try_send s item;
      Ret (s, PollReady r, w ++ w')
  end.

Definition chan_len s : Z := Z.of_nat (length (cn_channel s)).
Definition chan_is_empty s : bool := chan_len s =? 0.

(** [wake_up_all]: every node of the queue is unlinked and woken, in order. *)
Fixpoint wake_nodes (l : list Z) (m : gmap Z TaskWaker) : gmap Z TaskWaker * list TaskWaker :=
  match l with
  | [] => (m, [])
  | n :: l => let (m', w) := wake_nodes l (delete n m) in (m', woken_by (m !! n) ++ w)
  end.

Definition wake_up_all (a : WaiterAction) s : ChanInner * list TaskWaker :=
  let (m, w) := wake_nodes (get_list a s) (cn_wakers s) in (set_list a s [] m, w).

Definition sender_drop s : outcome (ChanInner * list TaskWaker) :=
  tx ← arith USIZE_BITS (cn_tx_count s - 1);
  let s := set_counts s tx (cn_rx_count s) (cn_closed s) in
  if tx =? 0 then
    let (s, w1) := wake_up_all SenderAction s in
    let (s, w2) := wake_up_all ReceiverAction s in
    Ret (s, w1 ++ w2)
  else Ret (s, []).

(** ** Receiver *)

Definition receiver_clone s : outcome ChanInner :=
  rx ← arith USIZE_BITS (cn_rx_count s + 1); Ret (set_counts s (cn_tx_count s) rx (cn_closed s)).

Definition receiver_drop s : outcome (ChanInner * list TaskWaker) :=
  rx ← arith USIZE_BITS (cn_rx_count s - 1);
  let s := set_counts s (cn_tx_count s) rx (cn_closed s) in
  if rx =? 0 then
    let s := set_counts s (cn_tx_count s) rx true in
    let (s, w1) := wake_up_all ReceiverAction s in
    let (s, w2) := wake_up_all SenderAction s in
    Ret (s, w1 ++ w2)
  else Ret (s, []).

Definition chan_try_recv s : ChanInner * result T TryRecvError * list TaskWaker :=
  let (s, r) := recv_one s in
  match r with
  | ChanPending => (s, Err RecvEmpty, [])
  | ChanReady (Some (item, w)) => (s, Ok item, woken_by w)
  | ChanReady None => (s, Err RecvClosed, [])
  end.

(** [Receiver::recv_one]: the poll function of [recv]. *)
Definition receiver_recv_one s : ChanInner * PollResult (option T) * list TaskWaker :=
  let (s, r) := recv_one s in
  match r with
  | ChanPending => (s, ChanPending, [])
  | ChanReady (Some (item, w)) => (s, ChanReady (Some item), woken_by w)
  | ChanReady None => (s, ChanReady None, [])
  end.

Definition recv_poll s (node : Z) (cx : TaskWaker) : ChanInner * Poll (option T) * list TaskWaker :=
  waiter_poll ReceiverAction s node cx receiver_recv_one.

(** [ChannelStream::poll_next]: the waiting code again, but the sender is woken
    after the node has left its queue. *)
Definition stream_poll_next s (node : Z) (cx : TaskWaker) : ChanInner * Poll (option T) * list TaskWaker :=
  let (s, result) := recv_one s in
  match result with
  | ChanPending =>
      let m := partial_alter (fun slot => update_waker slot cx) node (cn_wakers s) in
      let s := set_list ReceiverAction s (get_list ReceiverAction s) m in
      let s := if negb (is_linked s node) then register_into_waiting_queue ReceiverAction s node else s in
      (s, PollPending, [])
  | ChanReady r =>
      let s := remove_from_the_waiting_queue ReceiverAction s node in
      match r with
      | Some (ret, mw) => (s, PollReady (Some ret), woken_by mw)
      | None => (s, PollReady None, [])
      end
  end.

Lemma stream_poll_is_recv_poll s (node : Z) (cx : TaskWaker) : stream_poll_next s node cx = recv_poll s node cx.
Proof.
  unfold stream_poll_next, recv_poll, waiter_poll, receiver_recv_one.
  by destruct (recv_one s) as [s' [| [[x w] |]]].
Qed.

(** ** [mpsc.rs]: one receiver *)

Definition mpsc_recv_one s : ChanInner * PollResult (option (T * option TaskWaker)) :=
  match cn_channel s with
  | item :: q =>
      let s := set_channel s q in
      match cn_send_waiters s with
      | [] => (s, ChanReady (Some (item, None)))
      | n :: l => (set_send s l (delete n (cn_wakers s)), ChanReady (Some (item, cn_wakers s !! n)))
      end
  | [] => (s, if 0 <? cn_tx_count s then ChanPending else ChanReady None)
  end.

(** Here a queued node without a waker is a panic. *)
Fixpoint mpsc_wake_nodes (l : list Z) (m : gmap Z TaskWaker) : outcome (gmap Z TaskWaker * list TaskWaker) :=
  match l with
  | [] => Ret (m, [])
  | n :: l => w ← expect (m !! n); '(m, ws) ← mpsc_wake_nodes l (delete n m); Ret (m, w :: ws)
  end.

Definition mpsc_wake_up_all (a : WaiterAction) s : outcome (ChanInner * list TaskWaker) :=
  '(m, w) ← mpsc_wake_nodes (get_list a s) (cn_wakers s); Ret (set_list a s [] m, w).

Definition mpsc_sender_drop s : outcome (ChanInner * list TaskWaker) :=
  tx ← arith USIZE_BITS (cn_tx_count s - 1);
  let s := set_counts s tx (cn_rx_count s) (cn_closed s) in
  if tx =? 0 then
    '(s, w1) ← mpsc_wake_up_all SenderAction s;
    '(s, w2) ← mpsc_wake_up_all ReceiverAction s;
    Ret (s, w1 ++ w2)
  else Ret (s, []).

Definition mpsc_receiver_drop s : outcome (ChanInner * list TaskWaker) :=
  let s := set_counts s (cn_tx_count s) (cn_rx_count s) true in
  '(s, w1) ← mpsc_wake_up_all ReceiverAction s;
  '(s, w2) ← mpsc_wake_up_all SenderAction s;
  Ret (s, w1 ++ w2).
End mpmc.
Arguments ChanInner T : clear implicits.
Arguments ChanPending {R}.
Arguments ChanReady {R} r.
