(* ===== verification/MpmcSafety.v ===== *)
(** * The channels with waiting queues: delivery and wake-ups

    The futures that use a channel, each with its node: a future is pending
    from a poll that returned [Pending] until it completes or is dropped.  A
    pending future whose node is in no queue has been woken and not polled
    since; dropping such a future is what the wake-up theorem excludes and the
    last theorem is about. *)

From stdpp Require Import gmap sets.
From S2P Require Import Prelude ChannelCommon Mpmc.

(** ** Sets of nodes *)

Lemma size_insert (n : Z) (X : gset Z) : n ∉ X -> Z.of_nat (size (X ∪ {[n]})) = Z.of_nat (size X) + 1.
Proof. intros Hn. rewrite size_union, size_singleton by set_solver. lia. Qed.

Lemma size_delete (n : Z) (X : gset Z) : n ∈ X -> Z.of_nat (size (X ∖ {[n]})) = Z.of_nat (size X) - 1.
Proof.
  intros Hn. rewrite size_difference by set_solver. rewrite size_singleton.
  assert (size ({[n]} : gset Z) <= size X)%nat by (apply subseteq_size; set_solver).
  rewrite size_singleton in *. lia.
Qed.

Lemma size_delete_le (n : Z) (X : gset Z) : Z.of_nat (size X) - 1 <= Z.of_nat (size (X ∖ {[n]})).
Proof.
  destruct (decide (n ∈ X)); [by rewrite size_delete by done; lia |].
  replace (X ∖ {[n]}) with X by set_solver. lia.
Qed.

Lemma nodes_size (l : list Z) (X : gset Z) : NoDup l -> (forall n, n ∈ l -> n ∈ X) ->
  Z.of_nat (length l) <= Z.of_nat (size X).
Proof.
  intros Hnd Hsub. rewrite <- (size_list_to_set (C := gset Z) l) by done.
  apply inj_le, subseteq_size. intros n Hn. apply Hsub. by apply elem_of_list_to_set in Hn.
Qed.

Lemma filter_absent (n : Z) (l : list Z) : n ∉ l -> filter (.≠ n) l = l.
Proof. intros Hn. apply filter_id, Forall_forall. intros x Hx ->. done. Qed.

Lemma filter_present (n : Z) (l : list Z) : NoDup l -> n ∈ l ->
  Z.of_nat (length (filter (.≠ n) l)) = Z.of_nat (length l) - 1.
Proof.
  induction l as [| m l IH]; [by intros _ ?%elem_of_nil |]. intros [Hm Hnd]%NoDup_cons [-> | Hin]%elem_of_cons.
  - rewrite filter_cons_False, filter_absent by naive_solver. cbn. lia.
  - rewrite filter_cons_True by (intros ->; done). cbn [length]. specialize (IH Hnd Hin). lia.
Qed.

(** ** Channel and futures *)

Section world.
Context {T : Type}.
Implicit Types (s : ChanInner T) (q : list T).

(** The channel, the nodes of its pending futures, and its history. *)
Record world : Type := mkWorld {
  wd_chan : ChanInner T;
  wd_tx : gset Z;
  wd_rx : gset Z;
  wd_accepted : list T;
  wd_delivered : list T
}.

Inductive chan_op : Type :=
  | OpTrySend (x : T)
  | OpSendPoll (n : Z) (x : T) (cx : TaskWaker)
  | OpSendDrop (n : Z)
  | OpTryRecv
  | OpRecvPoll (n : Z) (cx : TaskWaker)      (* [recv]; the future ends when ready *)
  | OpStreamPoll (n : Z) (cx : TaskWaker)    (* [poll_next]; the stream stays *)
  | OpRecvDrop (n : Z)
  | OpSenderClone
  | OpSenderDrop
  | OpReceiverClone
  | OpReceiverDrop.

(** What the code has when it makes the call: a node belongs to one future, and
    there is a handle to clone or drop. *)
Definition op_ok (w : world) (op : chan_op) : Prop :=
  match op with
  | OpTrySend _ | OpTryRecv => True
  | OpSendPoll n _ _ => n ∉ wd_rx w
  | OpRecvPoll n _ | OpStreamPoll n _ => n ∉ wd_tx w
  | OpSendDrop n => n ∈ wd_tx w
  | OpRecvDrop n => n ∈ wd_rx w
  | OpSenderClone => 0 < cn_tx_count (wd_chan w) < USIZE_MAX
  | OpReceiverClone => 0 < cn_rx_count (wd_chan w) < USIZE_MAX
  | OpSenderDrop => 0 < cn_tx_count (wd_chan w)
  | OpReceiverDrop => 0 < cn_rx_count (wd_chan w)
  end.

Definition sent_items {E : Type} (x : T) (r : result unit E) : list T :=
  match r with Ok _ => [x] | Err _ => [] end.
Definition received_items (r : option T) : list T := match r with Some x => [x] | None => [] end.

Definition chan_exec (w : world) (op : chan_op) : outcome (world * list TaskWaker) :=
  let '(mkWorld s tx rx acc del) := w in
  match op with
  | OpTrySend x => '(s, r, ws) ← chan_try_send s x; Ret (mkWorld s tx rx (acc ++ sent_items x r) del, ws)
  | OpSendPoll n x cx =>
      '(s, p, ws) ← send_poll s n x cx;
      match p with
      | PollPending => Ret (mkWorld s (tx ∪ {[n]}) rx acc del, ws)
      | PollReady r => Ret (mkWorld s (tx ∖ {[n]}) rx (acc ++ sent_items x r) del, ws)
      end
  | OpSendDrop n => Ret (mkWorld (waiter_drop SenderAction s n) (tx ∖ {[n]}) rx acc del, [])
  | OpTryRecv =>
      let '(s, r, ws) := chan_try_recv s in
      Ret (mkWorld s tx rx acc (del ++ match r with Ok x => [x] | Err _ => [] end), ws)
  | OpRecvPoll n cx =>
      let '(s, p, ws) := recv_poll s n cx in
      match p with
      | PollPending => Ret (mkWorld s tx (rx ∪ {[n]}) acc del, ws)
      | PollReady r =>
          Ret (mkWorld (waiter_drop ReceiverAction s n) tx (rx ∖ {[n]}) acc (del ++ received_items r), ws)
      end
  | OpStreamPoll n cx =>
      let '(s, p, ws) := stream_poll_next s n cx in
      match p with
      | PollPending => Ret (mkWorld s tx (rx ∪ {[n]}) acc del, ws)
      | PollReady r => Ret (mkWorld s tx (rx ∖ {[n]}) acc (del ++ received_items r), ws)
      end
  | OpRecvDrop n => Ret (mkWorld (waiter_drop ReceiverAction s n) tx (rx ∖ {[n]}) acc del, [])
  | OpSenderClone => s ← sender_clone s; Ret (mkWorld s tx rx acc del, [])
  | OpSenderDrop => '(s, ws) ← sender_drop s; Ret (mkWorld s tx rx acc del, ws)
  | OpReceiverClone => s ← receiver_clone s; Ret (mkWorld s tx rx acc del, [])
  | OpReceiverDrop => '(s, ws) ← receiver_drop s; Ret (mkWorld s tx rx acc del, ws)
  end.

(** ** The invariant *)

Record chan_inv (w : world) : Prop := {
  ci_nodup : NoDup (cn_send_waiters (wd_chan w) ++ cn_recv_waiters (wd_chan w));
  ci_send : forall n, n ∈ cn_send_waiters (wd_chan w) -> n ∈ wd_tx w;
  ci_recv : forall n, n ∈ cn_recv_waiters (wd_chan w) -> n ∈ wd_rx w;
  ci_disj : forall n, n ∈ wd_tx w -> n ∈ wd_rx w -> False;
  ci_wakers : forall n, n ∈ cn_send_waiters (wd_chan w) ++ cn_recv_waiters (wd_chan w) ->
    is_Some (cn_wakers (wd_chan w) !! n);
  ci_cap : forall x, cn_capacity (wd_chan w) = Bounded x -> Z.of_nat (length (cn_channel (wd_chan w))) <= x;
  ci_hist : wd_accepted w = wd_delivered w ++ cn_channel (wd_chan w);
  ci_closed : cn_closed (wd_chan w) = true ->
    cn_send_waiters (wd_chan w) = [] /\ cn_recv_waiters (wd_chan w) = [];
  ci_counts : 0 <= cn_tx_count (wd_chan w) <= USIZE_MAX /\ 0 <= cn_rx_count (wd_chan w) <= USIZE_MAX
}.

(** For every item there is a woken receiver, as long as one waits, and for
    every free place a woken sender. *)
Definition wake_inv (w : world) : Prop :=
  let s := wd_chan w in
  (cn_recv_waiters s <> [] ->
   Z.of_nat (length (cn_channel s)) + Z.of_nat (length (cn_recv_waiters s)) <= Z.of_nat (size (wd_rx w))) /\
  (forall x, cn_capacity s = Bounded x -> cn_send_waiters s <> [] ->
   x - Z.of_nat (length (cn_channel s)) + Z.of_nat (length (cn_send_waiters s)) <= Z.of_nat (size (wd_tx w))).

(** Dropping a future that was woken and not polled since. *)
Definition drops_woken (w : world) (op : chan_op) : Prop :=
  match op with
  | OpSendDrop n => n ∉ cn_send_waiters (wd_chan w)
  | OpRecvDrop n => n ∉ cn_recv_waiters (wd_chan w)
  | _ => False
  end.

(** ** The transitions of the channel *)

Definition pushed_chan s (x : T) : ChanInner T :=
  mkChan (cn_capacity s) (cn_channel s ++ [x]) (cn_tx_count s) (cn_rx_count s) (cn_closed s)
    (tail (cn_recv_waiters s)) (cn_send_waiters s)
    (match cn_recv_waiters s with n :: _ => delete n (cn_wakers s) | [] => cn_wakers s end).

Definition received_chan s q : ChanInner T :=
  mkChan (cn_capacity s) q (cn_tx_count s) (cn_rx_count s) (cn_closed s)
    (cn_recv_waiters s) (tail (cn_send_waiters s))
    (match cn_send_waiters s with n :: _ => delete n (cn_wakers s) | [] => cn_wakers s end).

Lemma try_send_cases s x :
  (forall n, n ∈ cn_send_waiters s ++ cn_recv_waiters s -> is_Some (cn_wakers s !! n)) ->
  exists s' r ws, chan_try_send s x = Ret (s', r, ws) /\
    ((cn_closed s = true /\ s' = s /\ r = Err (SendClosed x)) \/
     (cn_closed s = false /\ chan_is_full s = true /\ s' = s /\ r = Err (SendFull x)) \/
     (cn_closed s = false /\ chan_is_full s = false /\ s' = pushed_chan s x /\ r = Ok tt)).
Proof.
  intros Hw. unfold chan_try_send, chan_push.
  destruct (cn_closed s) eqn:Hc; [rewrite bind_ret; eexists _, _, _; split; [done |]; by left |].
  destruct (chan_is_full s) eqn:Hf; [rewrite bind_ret; eexists _, _, _; split; [done |]; right; by left |].
  cbn [set_channel cn_recv_waiters cn_wakers]. destruct (cn_recv_waiters s) as [| n l] eqn:Hl.
  - rewrite bind_ret. eexists _, _, _. split; [done |]. right. right. unfold pushed_chan. rewrite Hl.
    by destruct s; cbn in *; subst.
  - destruct (Hw n) as [w Hn]; [apply elem_of_app; right; by left |]. rewrite Hn. cbn [expect]. rewrite !bind_ret.
    eexists _, _, _. split; [done |]. right. right. unfold pushed_chan. rewrite Hl. by destruct s; cbn in *; subst.
Qed.

Lemma recv_one_cases s :
  (exists x q ow, cn_channel s = x :: q /\ recv_one s = (received_chan s q, ChanReady (Some (x, ow)))) \/
  (cn_channel s = [] /\ recv_one s =
     (s, if (0 <? cn_tx_count s) && negb (cn_closed s) then ChanPending else ChanReady None)).
Proof.
  destruct s as [cap [| x q] t r cl rw sw m]; [by right |]. left. unfold recv_one, received_chan. cbn.
  destruct sw as [| n l]; by eexists x, q, _.
Qed.

Lemma inv_push s tx rx acc del x : chan_inv (mkWorld s tx rx acc del) ->
  cn_closed s = false -> chan_is_full s = false ->
  chan_inv (mkWorld (pushed_chan s x) tx rx (acc ++ [x]) del).
Proof.
  intros [Hnd Hs Hr Hd Hw Hcap Hh Hc Hn] Hcl Hf. cbn in *.
  assert (Hsub : forall n, n ∈ tail (cn_recv_waiters s) -> n ∈ cn_recv_waiters s)
    by (destruct (cn_recv_waiters s); [done |]; intros n Hx; by right).
  split; cbn; try done.
  - destruct (cn_recv_waiters s) as [| n l]; [done |]. cbn. rewrite NoDup_app, NoDup_cons in *. set_solver.
  - intros n Hx. by apply Hr, Hsub.
  - intros n Hx. assert (Hx' : n ∈ cn_send_waiters s ++ cn_recv_waiters s).
    { apply elem_of_app in Hx as [? | ?]; apply elem_of_app; auto. }
    destruct (cn_recv_waiters s) as [| m l] eqn:Hl; [by apply Hw |].
    rewrite lookup_delete_ne; [by apply Hw |]. intros ->. cbn in Hx.
    rewrite NoDup_app, NoDup_cons in Hnd. set_solver.
  - intros y Hy. rewrite length_app. cbn. unfold chan_is_full in Hf. rewrite Hy in Hf. apply Z.leb_gt in Hf. lia.
  - by rewrite Hh, app_assoc.
  - by rewrite Hcl.
Qed.

Lemma inv_receive s tx rx acc del x q : chan_inv (mkWorld s tx rx acc del) -> cn_channel s = x :: q ->
  chan_inv (mkWorld (received_chan s q) tx rx acc (del ++ [x])).
Proof.
  intros [Hnd Hs Hr Hd Hw Hcap Hh Hc Hn] Hq. cbn in *.
  assert (Hsub : forall n, n ∈ tail (cn_send_waiters s) -> n ∈ cn_send_waiters s)
    by (destruct (cn_send_waiters s); [done |]; intros n Hx; by right).
  split; cbn; try done.
  - destruct (cn_send_waiters s) as [| n l]; [done |]. cbn in *. by apply NoDup_cons in Hnd as [_ ?].
  - intros n Hx. by apply Hs, Hsub.
  - intros n Hx. assert (Hx' : n ∈ cn_send_waiters s ++ cn_recv_waiters s).
    { apply elem_of_app in Hx as [? | ?]; apply elem_of_app; auto. }
    destruct (cn_send_waiters s) as [| m l] eqn:Hl; [by apply Hw |].
    rewrite lookup_delete_ne; [by apply Hw |]. intros ->. cbn in Hx, Hnd.
    by apply NoDup_cons in Hnd as [? ?].
  - intros y Hy. specialize (Hcap y Hy). rewrite Hq in Hcap. cbn in Hcap. lia.
  - rewrite Hh, Hq, <- app_assoc. done.
  - intros Hcl. destruct (Hc Hcl) as [-> ->]. done.
Qed.

(** A future leaves its queue. *)
Lemma inv_unqueue_tx s tx rx acc del n m : chan_inv (mkWorld s tx rx acc del) -> n ∉ cn_recv_waiters s ->
  (forall k, k <> n -> m !! k = cn_wakers s !! k) ->
  chan_inv (mkWorld (set_send s (filter (.≠ n) (cn_send_waiters s)) m) (tx ∖ {[n]}) rx acc del).
Proof.
  intros [Hnd Hs Hr Hd Hw Hcap Hh Hc Hn] Hnr Hm. cbn in *.
  assert (Hsub : forall k, k ∈ filter (.≠ n) (cn_send_waiters s) <-> k <> n /\ k ∈ cn_send_waiters s)
    by (intros k; by rewrite list_elem_of_filter).
  split; cbn; try done.
  - rewrite NoDup_app in *. destruct Hnd as (H1 & H2 & H3). split_and!; [by apply NoDup_filter | | done].
    intros k [_ Hk]%Hsub. by apply H2.
  - intros k [Hne Hk]%Hsub. apply elem_of_difference. split; [by apply Hs | by rewrite elem_of_singleton].
  - intros k Hk. apply elem_of_difference in Hk as [Hk _]. by apply Hd.
  - intros k Hk. rewrite Hm.
    + apply Hw. apply elem_of_app. apply elem_of_app in Hk as [[_ ?]%Hsub | ?]; auto.
    + intros ->. apply elem_of_app in Hk as [[? _]%Hsub | ?]; done.
  - intros Hcl. destruct (Hc Hcl) as [-> ->]. done.
Qed.

Lemma inv_unqueue_rx s tx rx acc del n m : chan_inv (mkWorld s tx rx acc del) -> n ∉ cn_send_waiters s ->
  (forall k, k <> n -> m !! k = cn_wakers s !! k) ->
  chan_inv (mkWorld (set_recv s (filter (.≠ n) (cn_recv_waiters s)) m) tx (rx ∖ {[n]}) acc del).
Proof.
  intros [Hnd Hs Hr Hd Hw Hcap Hh Hc Hn] Hnr Hm. cbn in *.
  assert (Hsub : forall k, k ∈ filter (.≠ n) (cn_recv_waiters s) <-> k <> n /\ k ∈ cn_recv_waiters s)
    by (intros k; by rewrite list_elem_of_filter).
  split; cbn; try done.
  - rewrite NoDup_app in *. destruct Hnd as (H1 & H2 & H3). split_and!; [done | | by apply NoDup_filter].
    intros k Hk [_ Hk']%Hsub. by apply (H2 k).
  - intros k [Hne Hk]%Hsub. apply elem_of_difference. split; [by apply Hr | by rewrite elem_of_singleton].
  - intros k Hk Hk'. apply elem_of_difference in Hk' as [Hk' _]. by apply (Hd k).
  - intros k Hk. rewrite Hm.
    + apply Hw. apply elem_of_app. apply elem_of_app in Hk as [? | [_ ?]%Hsub]; auto.
    + intros ->. apply elem_of_app in Hk as [? | [? _]%Hsub]; done.
  - intros Hcl. destruct (Hc Hcl) as [-> ->]. done.
Qed.

(** A future enters its queue, or stays there, with a waker. *)
Definition enqueue (l : list Z) (n : Z) : list Z := if bool_decide (n ∈ l) then l else l ++ [n].

Lemma elem_of_enqueue l n k : k ∈ enqueue l n <-> k ∈ l \/ k = n.
Proof.
  unfold enqueue. destruct (bool_decide_reflect (n ∈ l)) as [Hin | Hout].
  - split; [by left | by intros [? | ->]].
  - rewrite elem_of_app, list_elem_of_singleton. done.
Qed.

Lemma NoDup_enqueue l n : NoDup l -> NoDup (enqueue l n).
Proof.
  intros Hl. unfold enqueue. destruct (bool_decide_reflect (n ∈ l)) as [Hin | Hout]; [done |].
  apply NoDup_app. split_and!; [done | set_solver | apply NoDup_singleton].
Qed.

Lemma inv_queue_tx s tx rx acc del n cx : chan_inv (mkWorld s tx rx acc del) -> n ∉ rx -> cn_closed s = false ->
  chan_inv (mkWorld (set_send s (enqueue (cn_send_waiters s) n) (<[n := cx]> (cn_wakers s))) (tx ∪ {[n]}) rx acc del).
Proof.
  intros [Hnd Hs Hr Hd Hw Hcap Hh Hc Hn] Hnr Hcl. cbn in *. split; cbn; try done.
  - rewrite NoDup_app in *. destruct Hnd as (H1 & H2 & H3). split_and!; [by apply NoDup_enqueue | | done].
    intros k [Hk | ->]%elem_of_enqueue; [by apply H2 |]. intros Hx. by apply Hnr, Hr.
  - intros k [Hk | ->]%elem_of_enqueue; set_solver.
  - intros k Hk Hk'. apply elem_of_union in Hk as [Hk | ->%elem_of_singleton]; [by apply (Hd k) | done].
  - intros k Hk. destruct (decide (k = n)) as [-> | Hne]; [by rewrite lookup_insert_eq |].
    rewrite lookup_insert_ne by done. apply Hw. apply elem_of_app.
    apply elem_of_app in Hk as [[? | ?]%elem_of_enqueue | ?]; auto. done.
  - by rewrite Hcl.
Qed.

Lemma inv_queue_rx s tx rx acc del n cx : chan_inv (mkWorld s tx rx acc del) -> n ∉ tx -> cn_closed s = false ->
  chan_inv (mkWorld (set_recv s (enqueue (cn_recv_waiters s) n) (<[n := cx]> (cn_wakers s))) tx (rx ∪ {[n]}) acc del).
Proof.
  intros [Hnd Hs Hr Hd Hw Hcap Hh Hc Hn] Hnr Hcl. cbn in *. split; cbn; try done.
  - rewrite NoDup_app in *. destruct Hnd as (H1 & H2 & H3). split_and!; [done | | by apply NoDup_enqueue].
    intros k Hk [Hk' | ->]%elem_of_enqueue; [by apply (H2 k) |]. by apply Hnr, Hs.
  - intros k [Hk | ->]%elem_of_enqueue; set_solver.
  - intros k Hk Hk'. apply elem_of_union in Hk' as [Hk' | ->%elem_of_singleton]; [by apply (Hd k) | done].
  - intros k Hk. destruct (decide (k = n)) as [-> | Hne]; [by rewrite lookup_insert_eq |].
    rewrite lookup_insert_ne by done. apply Hw. apply elem_of_app.
    apply elem_of_app in Hk as [? | [? | ?]%elem_of_enqueue]; auto. done.
  - by rewrite Hcl.
Qed.

(** ** Wake-ups, with slack for the middle of a call *)

Definition wake_rx s (rx : gset Z) (a : Z) : Prop :=
  cn_recv_waiters s <> [] ->
  Z.of_nat (length (cn_channel s)) + Z.of_nat (length (cn_recv_waiters s)) <= Z.of_nat (size rx) + a.
Definition wake_tx s (tx : gset Z) (a : Z) : Prop :=
  forall x, cn_capacity s = Bounded x -> cn_send_waiters s <> [] ->
  x - Z.of_nat (length (cn_channel s)) + Z.of_nat (length (cn_send_waiters s)) <= Z.of_nat (size tx) + a.

Lemma wake_inv_slack w : wake_inv w <-> wake_rx (wd_chan w) (wd_rx w) 0 /\ wake_tx (wd_chan w) (wd_tx w) 0.
Proof.
  unfold wake_inv, wake_rx, wake_tx. rewrite !Z.add_0_r. split; intros [H1 H2]; (split; [done |]);
    intros x Hx Hn; specialize (H2 x Hx Hn); lia.
Qed.

Lemma wake_push s rx tx x : wake_rx s rx 0 -> wake_tx s tx 1 ->
  wake_rx (pushed_chan s x) rx 0 /\ wake_tx (pushed_chan s x) tx 0.
Proof.
  intros H1 H2. unfold wake_rx, wake_tx, pushed_chan in *. cbn. rewrite length_app. cbn. split.
  - destruct (cn_recv_waiters s) as [| n l]; [done |]. intros _. cbn in *. specialize (H1 ltac:(done)). lia.
  - intros y Hy Hn. specialize (H2 y Hy Hn). lia.
Qed.

Lemma wake_receive s rx tx x q : cn_channel s = x :: q -> wake_rx s rx 1 -> wake_tx s tx 0 ->
  wake_rx (received_chan s q) rx 0 /\ wake_tx (received_chan s q) tx 0.
Proof.
  intros Hq H1 H2. unfold wake_rx, wake_tx, received_chan in *. rewrite Hq in *. cbn in *. split.
  - intros Hn. specialize (H1 Hn). lia.
  - intros y Hy. specialize (H2 y Hy). destruct (cn_send_waiters s) as [| n l]; [done |]. intros _. cbn in *.
    specialize (H2 ltac:(done)). lia.
Qed.

(** A polled future that completes leaves queue and set: one step of slack, or
    none if it was still queued. *)
Lemma wake_leave_rx s rx n a m : NoDup (cn_recv_waiters s) -> (forall k, k ∈ cn_recv_waiters s -> k ∈ rx) ->
  wake_rx s rx a ->
  wake_rx (set_recv s (filter (.≠ n) (cn_recv_waiters s)) m) (rx ∖ {[n]})
    (if bool_decide (n ∈ cn_recv_waiters s) then a else a + 1).
Proof.
  intros Hnd Hsub H. unfold wake_rx in *. cbn.
  destruct (bool_decide_reflect (n ∈ cn_recv_waiters s)) as [Hin | Hout].
  - intros _. rewrite filter_present, size_delete by auto.
    assert (cn_recv_waiters s <> []) by (intros E; rewrite E in Hin; by apply elem_of_nil in Hin).
    specialize (H ltac:(done)). lia.
  - rewrite filter_absent by done. intros Hn. specialize (H Hn). pose proof (size_delete_le n rx). lia.
Qed.

Lemma wake_leave_tx s tx n a m : NoDup (cn_send_waiters s) -> (forall k, k ∈ cn_send_waiters s -> k ∈ tx) ->
  wake_tx s tx a ->
  wake_tx (set_send s (filter (.≠ n) (cn_send_waiters s)) m) (tx ∖ {[n]})
    (if bool_decide (n ∈ cn_send_waiters s) then a else a + 1).
Proof.
  intros Hnd Hsub H. unfold wake_tx in *. cbn. intros y Hy. specialize (H y Hy).
  destruct (bool_decide_reflect (n ∈ cn_send_waiters s)) as [Hin | Hout].
  - intros _. rewrite filter_present, size_delete by auto.
    assert (cn_send_waiters s <> []) by (intros E; rewrite E in Hin; by apply elem_of_nil in Hin).
    specialize (H ltac:(done)). lia.
  - rewrite filter_absent by done. intros Hn. specialize (H Hn). pose proof (size_delete_le n tx). lia.
Qed.

Lemma wake_mono_rx s rx a b : a <= b -> wake_rx s rx a -> wake_rx s rx b.
Proof. intros Hab H Hn. specialize (H Hn). lia. Qed.
Lemma wake_mono_tx s tx a b : a <= b -> wake_tx s tx a -> wake_tx s tx b.
Proof. intros Hab H x Hx Hn. specialize (H x Hx Hn). lia. Qed.

(** ** What polls and drops do to the queues *)

Definition other_list (a : WaiterAction) s : list Z :=
  match a with SenderAction => cn_recv_waiters s | ReceiverAction => cn_send_waiters s end.

Lemma linked_spec a s n : n ∉ other_list a s -> is_linked s n = bool_decide (n ∈ get_list a s).
Proof.
  intros Hn. unfold is_linked. apply bool_decide_ext. rewrite elem_of_app.
  destruct a; cbn in *; tauto.
Qed.

Lemma set_list_id a s : set_list a s (get_list a s) (cn_wakers s) = s.
Proof. by destruct a, s. Qed.

Lemma remove_spec a s n : n ∉ other_list a s ->
  remove_from_the_waiting_queue a s n = set_list a s (filter (.≠ n) (get_list a s)) (cn_wakers s).
Proof.
  intros Hn. unfold remove_from_the_waiting_queue. rewrite (linked_spec a) by done.
  destruct (bool_decide_reflect (n ∈ get_list a s)) as [Hin | Hout]; cbn [negb]; [done |].
  by rewrite filter_absent, set_list_id.
Qed.

Lemma drop_spec a s n : n ∉ other_list a s ->
  waiter_drop a s n = set_list a s (filter (.≠ n) (get_list a s)) (delete n (cn_wakers s)).
Proof.
  intros Hn. unfold waiter_drop. rewrite (linked_spec a) by done.
  destruct (bool_decide_reflect (n ∈ get_list a s)) as [Hin | Hout].
  - rewrite remove_spec by done. by destruct a.
  - by rewrite filter_absent.
Qed.

Lemma filter_twice (n : Z) (l : list Z) : filter (.≠ n) (filter (.≠ n) l) = filter (.≠ n) l.
Proof. apply filter_absent. rewrite list_elem_of_filter. tauto. Qed.

Lemma drop_removed a s n : n ∉ other_list a s ->
  waiter_drop a (remove_from_the_waiting_queue a s n) n =
    set_list a s (filter (.≠ n) (get_list a s)) (delete n (cn_wakers s)).
Proof.
  intros Hn. rewrite remove_spec by done. rewrite drop_spec by (by destruct a).
  destruct a; cbn; by rewrite filter_twice.
Qed.

Lemma waiter_pending {R} a s n cx (f : ChanInner T -> ChanInner T * PollResult R * list TaskWaker) s' w :
  f s = (s', ChanPending, w) -> n ∉ other_list a s' ->
  waiter_poll a s n cx f = (set_list a s' (enqueue (get_list a s') n) (<[n := cx]> (cn_wakers s')), PollPending, w).
Proof.
  intros Hf Hn. unfold waiter_poll. rewrite Hf.
  assert (Hm : partial_alter (fun slot => update_waker slot cx) n (cn_wakers s') = <[n := cx]> (cn_wakers s')).
  { apply map_eq. intros k. destruct (decide (k = n)) as [-> | Hne].
    - by rewrite lookup_partial_alter_eq, lookup_insert_eq, update_waker_eq.
    - by rewrite lookup_partial_alter_ne, lookup_insert_ne. }
  rewrite Hm. unfold register_into_waiting_queue. rewrite !(linked_spec a) by (by destruct a).
  unfold enqueue. destruct a; cbn; by destruct (bool_decide (n ∈ _)).
Qed.

(** ** Every call keeps the invariants *)

Definition step_ok (w : world) (op : chan_op) : Prop :=
  exists w' ws, chan_exec w op = Ret (w', ws) /\ chan_inv w' /\
    (wake_inv w -> ~ drops_woken w op -> wake_inv w') /\
    cn_capacity (wd_chan w') = cn_capacity (wd_chan w).

Lemma queue_nodup w : chan_inv w ->
  NoDup (cn_send_waiters (wd_chan w)) /\ NoDup (cn_recv_waiters (wd_chan w)).
Proof. intros [Hnd _ _ _ _ _ _ _ _]. apply NoDup_app in Hnd as (? & _ & ?). done. Qed.

Lemma try_send_ok w x : chan_inv w -> step_ok w (OpTrySend x).
Proof.
  intros Hi. destruct w as [s tx rx acc del]. pose proof Hi as [_ _ _ _ Hw _ _ _ _].
  destruct (try_send_cases s x Hw) as (s' & r & ws & He & Hcase). unfold step_ok. cbn [chan_exec].
  rewrite He, bind_ret. eexists _, _. split; [done |].
  destruct Hcase as [(_ & -> & ->) | [(_ & _ & -> & ->) | (Hc & Hf & -> & ->)]]; cbn [sent_items]; rewrite ?app_nil_r.
  - done.
  - done.
  - split_and!; [by apply inv_push | | done]. rewrite !wake_inv_slack. cbn. intros [H1 H2] _.
    apply wake_push; [done |]. eapply wake_mono_tx; [| done]. lia.
Qed.

Lemma send_poll_ok w n x cx : chan_inv w -> n ∉ wd_rx w -> step_ok w (OpSendPoll n x cx).
Proof.
  intros Hi Hn. destruct w as [s tx rx acc del]. cbn in Hn. pose proof Hi as [_ Hs Hr _ Hw Hcap _ Hc _]. cbn in Hs, Hr, Hw, Hcap, Hc.
  assert (Hnr : n ∉ cn_recv_waiters s) by (intros Hx; by apply Hn, Hr).
  destruct (queue_nodup _ Hi) as [Hnd _]. cbn in Hnd. unfold step_ok. cbn [chan_exec]. unfold send_poll.
  destruct (cn_closed s || negb (chan_is_full s)) eqn:Hroom.
  - assert (Hp : waiter_poll SenderAction s n cx (fun s => (wait_for_room s, [])) =
      (remove_from_the_waiting_queue SenderAction s n, PollReady tt, [])).
    { unfold waiter_poll, wait_for_room. by rewrite Hroom. }
    rewrite Hp, drop_removed by done. cbn [set_list get_list].
    set (s1 := set_send s (filter (.≠ n) (cn_send_waiters s)) (delete n (cn_wakers s))).
    assert (Hi1 : chan_inv (mkWorld s1 (tx ∖ {[n]}) rx acc del)).
    { apply inv_unqueue_tx; try done. intros k Hk. by rewrite lookup_delete_ne. }
    destruct (try_send_cases s1 x (ci_wakers _ Hi1)) as (s' & r & ws & He & Hcase). rewrite He, !bind_ret.
    eexists _, _. split; [done |].
    destruct Hcase as [(Hcl & -> & ->) | [(Hcl & Hf & -> & ->) | (Hcl & Hf & -> & ->)]]; cbn [sent_items]; rewrite ?app_nil_r.
    + split_and!; [done | | done]. intros _ _. destruct (Hc Hcl) as [E1 E2]. rewrite wake_inv_slack. unfold wake_rx, wake_tx. cbn.
      by rewrite E1, E2.
    + change (cn_closed s1) with (cn_closed s) in Hcl. change (chan_is_full s1) with (chan_is_full s) in Hf.
      by rewrite Hcl, Hf in Hroom.
    + split_and!; [by apply inv_push | | done]. rewrite !wake_inv_slack. cbn [wd_chan wd_rx wd_tx]. intros [H1 H2] _.
      apply wake_push; [exact H1 |]. pose proof (wake_leave_tx s tx n 0 (delete n (cn_wakers s)) Hnd Hs H2) as H3.
      eapply wake_mono_tx; [| exact H3]. destruct (bool_decide _); lia.
  - apply orb_false_iff in Hroom as [Hcl Hf]. apply negb_false_iff in Hf.
    rewrite (waiter_pending _ s n cx _ s []); [| unfold wait_for_room; by rewrite Hcl, Hf | done].
    cbn [set_list get_list]. rewrite bind_ret. eexists _, _. split; [done |].
    pose proof (inv_queue_tx _ _ _ _ _ n cx Hi Hn Hcl) as Hi'. split_and!; [done | | done].
    rewrite !wake_inv_slack. cbn [wd_chan wd_rx wd_tx]. intros [H1 H2] _. split; [exact H1 |].
    intros y Hy _. cbn in *. destruct (queue_nodup _ Hi') as [Hnd' _].
    pose proof (nodes_size _ _ Hnd' (ci_send _ Hi')) as Hsz. cbn in Hsz.
    unfold chan_is_full in Hf. rewrite Hy in Hf. apply Z.leb_le in Hf. lia.
Qed.

Lemma received_wake s rx tx x q n m : NoDup (cn_recv_waiters s) -> (forall k, k ∈ cn_recv_waiters s -> k ∈ rx) ->
  cn_channel s = x :: q -> wake_rx s rx 0 -> wake_tx s tx 0 ->
  wake_rx (set_recv (received_chan s q) (filter (.≠ n) (cn_recv_waiters s)) m) (rx ∖ {[n]}) 0 /\
  wake_tx (set_recv (received_chan s q) (filter (.≠ n) (cn_recv_waiters s)) m) tx 0.
Proof.
  intros Hnd Hsub Hq H1 H2.
  destruct (wake_receive s rx tx x q Hq) as [_ H4]; [eapply wake_mono_rx; [| done]; lia | done |].
  split; [| exact H4].
  assert (H3 : wake_rx (received_chan s q) rx (-1)).
  { intros Hn. specialize (H1 Hn). cbn. rewrite Hq in H1. cbn in H1. lia. }
  pose proof (wake_leave_rx (received_chan s q) rx n (-1) m Hnd Hsub H3) as H5.
  eapply wake_mono_rx; [| exact H5]. destruct (bool_decide _); lia.
Qed.

(** The two ways a receiver's poll ends. *)
Lemma recv_poll_cases s tx rx acc del n cx : chan_inv (mkWorld s tx rx acc del) -> n ∉ tx ->
  (exists s' ws, recv_poll s n cx = (s', PollPending, ws) /\ cn_capacity s' = cn_capacity s /\ chan_inv (mkWorld s' tx (rx ∪ {[n]}) acc del) /\
     (wake_inv (mkWorld s tx rx acc del) -> wake_inv (mkWorld s' tx (rx ∪ {[n]}) acc del))) \/
  (exists s0 r ws, recv_poll s n cx = (remove_from_the_waiting_queue ReceiverAction s0 n, PollReady r, ws) /\
     n ∉ cn_send_waiters s0 /\ cn_capacity s0 = cn_capacity s /\
     forall m, (forall k, k <> n -> m !! k = cn_wakers s0 !! k) ->
     let w' := mkWorld (set_recv s0 (filter (.≠ n) (cn_recv_waiters s0)) m) tx (rx ∖ {[n]}) acc (del ++ received_items r) in
     chan_inv w' /\ (wake_inv (mkWorld s tx rx acc del) -> wake_inv w')).
Proof.
  intros Hi Hn. pose proof Hi as [_ Hs Hr _ Hw Hcap _ Hc _]. cbn in Hs, Hr, Hw, Hcap, Hc.
  assert (Hnr : n ∉ cn_send_waiters s) by (intros Hx; by apply Hn, Hs).
  destruct (queue_nodup _ Hi) as [_ Hnd]. cbn in Hnd. unfold recv_poll.
  destruct (recv_one_cases s) as [(x & q & ow & Hq & He) | (Hq & He)].
  - right. exists (received_chan s q), (Some x), (woken_by ow).
    split; [unfold waiter_poll, receiver_recv_one; by rewrite He |].
    split; [cbn; intros Hx; apply Hnr; destruct (cn_send_waiters s); [done | by right] |]. split; [done |].
    intros m Hm. split.
    + apply (inv_unqueue_rx (received_chan s q) tx rx acc (del ++ [x]) n m); [by apply inv_receive | | done].
      cbn. intros Hx. apply Hnr. destruct (cn_send_waiters s); [done | by right].
    + rewrite !wake_inv_slack. cbn [wd_chan wd_rx wd_tx]. intros [H1 H2].
      by apply (received_wake s rx tx x q n m).
  - destruct ((0 <? cn_tx_count s) && negb (cn_closed s)) eqn:Hopen.
    + left. apply andb_true_iff in Hopen as [_ Hcl]. apply negb_true_iff in Hcl. eexists _, _.
      split; [apply waiter_pending with (s' := s); [unfold receiver_recv_one; by rewrite He | done] |].
      pose proof (inv_queue_rx _ _ _ _ _ n cx Hi Hn Hcl) as Hi'. split; [done |]. split; [done |].
      rewrite !wake_inv_slack. cbn [wd_chan wd_rx wd_tx set_list get_list]. intros [H1 H2]. split; [| exact H2].
      intros _. cbn. rewrite Hq. destruct (queue_nodup _ Hi') as [_ Hnd'].
      pose proof (nodes_size _ _ Hnd' (ci_recv _ Hi')) as Hsz. cbn in Hsz. cbn. lia.
    + right. exists s, None, []. split; [unfold waiter_poll, receiver_recv_one; by rewrite He |]. split; [done |]. split; [done |].
      intros m Hm. cbn [received_items]. rewrite app_nil_r.
      pose proof (inv_unqueue_rx s tx rx acc del n m Hi Hnr Hm) as Hi'. split; [exact Hi' |]. rewrite !wake_inv_slack. cbn [wd_chan wd_rx wd_tx]. intros [H1 H2].
      split; [| exact H2]. intros _. cbn. rewrite Hq. destruct (queue_nodup _ Hi') as [_ Hnd'].
      pose proof (nodes_size _ _ Hnd' (ci_recv _ Hi')) as Hsz. cbn in Hsz. cbn. lia.
Qed.

Lemma try_recv_ok w : chan_inv w -> step_ok w OpTryRecv.
Proof.
  intros Hi. destruct w as [s tx rx acc del]. unfold step_ok. cbn [chan_exec]. unfold chan_try_recv.
  destruct (recv_one_cases s) as [(x & q & ow & Hq & He) | (Hq & He)]; rewrite He.
  - eexists _, _. split; [done |]. split_and!; [by eapply inv_receive | | done].
    rewrite !wake_inv_slack. cbn [wd_chan wd_rx wd_tx]. intros [H1 H2] _.
    apply (wake_receive s rx tx x q Hq); [| done]. eapply wake_mono_rx; [| done]. lia.
  - destruct (_ && _); (eexists _, _; split; [done |]; rewrite app_nil_r; by split_and!).
Qed.

Lemma recv_poll_ok w n cx : chan_inv w -> n ∉ wd_tx w -> step_ok w (OpRecvPoll n cx) /\ step_ok w (OpStreamPoll n cx).
Proof.
  intros Hi Hn. destruct w as [s tx rx acc del]. cbn in Hn. unfold step_ok. cbn [chan_exec]. rewrite stream_poll_is_recv_poll.
  destruct (recv_poll_cases s tx rx acc del n cx Hi Hn) as
    [(s' & ws & He & Hcap & Hi' & Hw) | (s0 & r & ws & He & Hns & Hcap & Hrest)]; rewrite He.
  - split; (eexists _, _; split; [done |]; split_and!; [done | by auto | done]).
  - split.
    + rewrite drop_removed by done. cbn [set_list get_list].
      destruct (Hrest (delete n (cn_wakers s0))) as [Hi' Hw]; [intros k Hk; by rewrite lookup_delete_ne |].
      eexists _, _. split; [done |]. split_and!; [done | by auto | done].
    + rewrite remove_spec by done. cbn [set_list get_list].
      destruct (Hrest (cn_wakers s0)) as [Hi' Hw]; [done |].
      eexists _, _. split; [done |]. split_and!; [done | by auto | done].
Qed.

Lemma send_drop_ok w n : chan_inv w -> n ∈ wd_tx w -> step_ok w (OpSendDrop n).
Proof.
  intros Hi Hn. destruct w as [s tx rx acc del]. cbn in Hn. pose proof Hi as [_ Hs Hr Hd _ _ _ _ _]. cbn in Hs, Hr, Hd.
  assert (Hnr : n ∉ cn_recv_waiters s) by (intros Hx; by apply (Hd n), Hr).
  destruct (queue_nodup _ Hi) as [Hnd _]. cbn in Hnd. unfold step_ok. cbn [chan_exec].
  rewrite drop_spec by done. cbn [set_list get_list]. eexists _, _. split; [done |]. split_and!; [| | done].
  - apply inv_unqueue_tx; try done. intros k Hk. by rewrite lookup_delete_ne.
  - rewrite !wake_inv_slack. cbn [wd_chan wd_rx wd_tx drops_woken]. intros [H1 H2] Hq. split; [exact H1 |].
    pose proof (wake_leave_tx s tx n 0 (delete n (cn_wakers s)) Hnd Hs H2) as H3.
    rewrite bool_decide_eq_true_2 in H3; [exact H3 |]. destruct (decide (n ∈ cn_send_waiters s)); [done | tauto].
Qed.

Lemma recv_drop_ok w n : chan_inv w -> n ∈ wd_rx w -> step_ok w (OpRecvDrop n).
Proof.
  intros Hi Hn. destruct w as [s tx rx acc del]. cbn in Hn. pose proof Hi as [_ Hs Hr Hd _ _ _ _ _]. cbn in Hs, Hr, Hd.
  assert (Hnr : n ∉ cn_send_waiters s) by (intros Hx; apply (Hd n); [by apply Hs | done]).
  destruct (queue_nodup _ Hi) as [_ Hnd]. cbn in Hnd. unfold step_ok. cbn [chan_exec].
  rewrite drop_spec by done. cbn [set_list get_list]. eexists _, _. split; [done |]. split_and!; [| | done].
  - apply inv_unqueue_rx; try done. intros k Hk. by rewrite lookup_delete_ne.
  - rewrite !wake_inv_slack. cbn [wd_chan wd_rx wd_tx drops_woken]. intros [H1 H2] Hq. split; [| exact H2].
    pose proof (wake_leave_rx s rx n 0 (delete n (cn_wakers s)) Hnd Hr H1) as H3.
    rewrite bool_decide_eq_true_2 in H3; [exact H3 |]. destruct (decide (n ∈ cn_recv_waiters s)); [done | tauto].
Qed.

(** Counting handles, or closing with empty queues. *)
Lemma counts_inv s tx rx acc del t r (c : bool) m : chan_inv (mkWorld s tx rx acc del) ->
  0 <= t <= USIZE_MAX -> 0 <= r <= USIZE_MAX -> cn_closed s = c ->
  chan_inv (mkWorld (set_counts s t r c) tx rx acc del) /\
  (forall c', chan_inv (mkWorld (mkChan (cn_capacity s) (cn_channel s) t r c' [] [] m) tx rx acc del) /\
     wake_inv (mkWorld (mkChan (cn_capacity s) (cn_channel s) t r c' [] [] m) tx rx acc del)).
Proof.
  intros [Hnd Hs Hr Hd Hw Hcap Hh Hc Hn] Ht Hr' Hcl. cbn in *. subst c. split; [by split |]. intros c'. split.
  - split; cbn; try done; first [apply NoDup_nil_2 | by intros ? []%elem_of_nil].
  - by split.
Qed.

Lemma handles_ok w op : chan_inv w -> op_ok w op ->
  op = OpSenderClone \/ op = OpSenderDrop \/ op = OpReceiverClone \/ op = OpReceiverDrop -> step_ok w op.
Proof.
  intros Hi Hop Hor. destruct w as [s tx rx acc del]. pose proof (ci_counts _ Hi) as [Ht Hr]. cbn in Ht, Hr.
  unfold step_ok. destruct Hor as [-> | [-> | [-> | ->]]]; cbn [chan_exec op_ok wd_chan] in *.
  - unfold sender_clone. rewrite arith_ok, !bind_ret by (unfold USIZE_BITS, USIZE_MAX in *; lia).
    eexists _, _. split; [done |].
    destruct (counts_inv s tx rx acc del (cn_tx_count s + 1) (cn_rx_count s) (cn_closed s) ∅ Hi) as [H1 _]; [lia | lia | done |].
    split_and!; [done | by rewrite !wake_inv_slack | done].
  - unfold sender_drop. rewrite arith_ok, bind_ret by (unfold USIZE_BITS, USIZE_MAX in *; lia).
    destruct (Z.eqb_spec (cn_tx_count s - 1) 0) as [H0 | H0].
    + unfold wake_up_all. cbn [get_list set_counts cn_send_waiters cn_wakers].
      destruct (wake_nodes (cn_send_waiters s) (cn_wakers s)) as [m1 w1]. cbn [set_list set_send get_list cn_recv_waiters cn_wakers set_counts].
      destruct (wake_nodes (cn_recv_waiters s) m1) as [m2 w2]. rewrite bind_ret. eexists _, _. split; [done |].
      destruct (counts_inv s tx rx acc del (cn_tx_count s - 1) (cn_rx_count s) (cn_closed s) m2 Hi) as [_ H2]; [lia | lia | done |].
      destruct (H2 (cn_closed s)). by split_and!.
    + rewrite bind_ret. eexists _, _. split; [done |].
      destruct (counts_inv s tx rx acc del (cn_tx_count s - 1) (cn_rx_count s) (cn_closed s) ∅ Hi) as [H1 _]; [lia | lia | done |].
      split_and!; [done | by rewrite !wake_inv_slack | done].
  - unfold receiver_clone. rewrite arith_ok, !bind_ret by (unfold USIZE_BITS, USIZE_MAX in *; lia).
    eexists _, _. split; [done |].
    destruct (counts_inv s tx rx acc del (cn_tx_count s) (cn_rx_count s + 1) (cn_closed s) ∅ Hi) as [H1 _]; [lia | lia | done |].
    split_and!; [done | by rewrite !wake_inv_slack | done].
  - unfold receiver_drop. rewrite arith_ok, bind_ret by (unfold USIZE_BITS, USIZE_MAX in *; lia).
    destruct (Z.eqb_spec (cn_rx_count s - 1) 0) as [H0 | H0].
    + unfold wake_up_all. cbn [get_list set_counts cn_recv_waiters cn_wakers cn_tx_count cn_rx_count].
      destruct (wake_nodes (cn_recv_waiters s) (cn_wakers s)) as [m1 w1]. cbn [set_list set_recv get_list cn_send_waiters cn_wakers set_counts].
      destruct (wake_nodes (cn_send_waiters s) m1) as [m2 w2]. rewrite bind_ret. eexists _, _. split; [done |].
      destruct (counts_inv s tx rx acc del (cn_tx_count s) (cn_rx_count s - 1) (cn_closed s) m2 Hi) as [_ H2]; [lia | lia | done |].
      destruct (H2 true). by split_and!.
    + rewrite bind_ret. eexists _, _. split; [done |].
      destruct (counts_inv s tx rx acc del (cn_tx_count s) (cn_rx_count s - 1) (cn_closed s) ∅ Hi) as [H1 _]; [lia | lia | done |].
      split_and!; [done | by rewrite !wake_inv_slack | done].
Qed.

Lemma exec_ok w op : chan_inv w -> op_ok w op -> step_ok w op.
Proof.
  intros Hi Hop. destruct op; try (apply handles_ok; tauto).
  - by apply try_send_ok.
  - by apply send_poll_ok.
  - by apply send_drop_ok.
  - by apply try_recv_ok.
  - by apply recv_poll_ok.
  - by apply recv_poll_ok.
  - by apply recv_drop_ok.
Qed.

(** ** Histories *)

Definition world_new (capacity : ChannelCapacity) : world := mkWorld (chan_new capacity) ∅ ∅ [] [].

(** A history of calls, each with what the code has when it makes it; [gentle]
    histories drop no future between its wake-up and its next poll. *)
Inductive chan_reach (capacity : ChannelCapacity) (gentle : bool) : world -> Prop :=
  | cr_new : chan_reach capacity gentle (world_new capacity)
  | cr_step w op w' ws : chan_reach capacity gentle w -> op_ok w op ->
      (gentle = true -> ~ drops_woken w op) -> chan_exec w op = Ret (w', ws) -> chan_reach capacity gentle w'.

Lemma reach_inv capacity gentle w : (forall x, capacity = Bounded x -> 0 <= x) -> chan_reach capacity gentle w ->
  chan_inv w /\ (gentle = true -> wake_inv w) /\ cn_capacity (wd_chan w) = capacity.
Proof.
  intros Hcap. induction 1 as [| w op w' ws _ (Hi & Hwk & Hc) Hop Hgentle He].
  - split_and!; [| by intros _; split | done].
    split; cbn; try done; first [apply NoDup_nil_2 | by intros ? []%elem_of_nil | apply Hcap].
  - destruct (exec_ok w op Hi Hop) as (w1 & ws1 & He1 & Hi1 & Hw1 & Hc1). rewrite He in He1. injection He1 as <- <-.
    split_and!; [done | auto | congruence].
Qed.

(** C37 Items are delivered once and in order: in every history of a channel,
    every further call returns (a queued future always has its waker), what
    was accepted is what was delivered followed by what the channel holds, and
    a bounded channel never holds more than its size. *)
Theorem mpmc_delivers_in_order capacity w op (Hcap : forall x, capacity = Bounded x -> 0 <= x)
    (Hw : chan_reach capacity false w) (Hop : op_ok w op) :
  exists w' ws, chan_exec w op = Ret (w', ws) /\
    wd_accepted w' = wd_delivered w' ++ cn_channel (wd_chan w') /\
    (forall x, capacity = Bounded x -> chan_len (wd_chan w') <= x).
Proof.
  destruct (reach_inv _ _ _ Hcap Hw) as (Hi & _ & Hc).
  destruct (exec_ok w op Hi Hop) as (w' & ws & He & Hi' & _ & Hc'). exists w', ws. split_and!; [done | apply (ci_hist _ Hi') |].
  intros x Hx. apply (ci_cap _ Hi'). congruence.
Qed.



(** ** The single-receiver channel *)

Lemma mpsc_wake_nodes_eq l : forall (m : gmap Z TaskWaker), NoDup l -> (forall n, n ∈ l -> is_Some (m !! n)) ->
  mpsc_wake_nodes l m = Ret (wake_nodes l m).
Proof.
  induction l as [| n l IH]; intros m Hnd Hw; [done |]. apply NoDup_cons in Hnd as [Hn Hnd].
  cbn [mpsc_wake_nodes wake_nodes]. destruct (Hw n) as [w Hwn]; [by left |]. rewrite Hwn. cbn [expect]. rewrite bind_ret.
  rewrite IH; [| done | intros k Hk; rewrite lookup_delete_ne; [apply Hw; by right | by intros ->]].
  rewrite bind_ret. by destruct (wake_nodes l (delete n m)).
Qed.

Lemma wake_nodes_other l : forall (m : gmap Z TaskWaker) k, k ∉ l -> (wake_nodes l m).1 !! k = m !! k.
Proof.
  induction l as [| n l IH]; intros m k Hk; [done |]. cbn [wake_nodes]. rewrite not_elem_of_cons in Hk.
  specialize (IH (delete n m) k). destruct (wake_nodes l (delete n m)) as [m' w]. cbn in *.
  rewrite IH by tauto. apply lookup_delete_ne. intros ->. tauto.
Qed.

(** Waking both queues, in either order. *)
Lemma mpsc_wake_both a b s : a <> b -> NoDup (cn_send_waiters s ++ cn_recv_waiters s) ->
  (forall n, n ∈ cn_send_waiters s ++ cn_recv_waiters s -> is_Some (cn_wakers s !! n)) ->
  ('(s, w1) ← mpsc_wake_up_all a s; '(s, w2) ← mpsc_wake_up_all b s; Ret (s, w1 ++ w2)) =
    (let (s, w1) := wake_up_all a s in let (s, w2) := wake_up_all b s in Ret (s, w1 ++ w2)).
Proof.
  intros Hab Hnd Hw. apply NoDup_app in Hnd as (Hn1 & Hd & Hn2).
  assert (Hsome : forall c, NoDup (get_list c s) /\ forall n, n ∈ get_list c s -> is_Some (cn_wakers s !! n)).
  { intros []; (split; [done |]); intros n Hn; apply Hw, elem_of_app; auto. }
  unfold mpsc_wake_up_all, wake_up_all. destruct (Hsome a) as [Ha1 Ha2].
  rewrite (mpsc_wake_nodes_eq _ _ Ha1 Ha2), bind_ret.
  pose proof (fun k => wake_nodes_other (get_list a s) (cn_wakers s) k) as Hother.
  destruct (wake_nodes (get_list a s) (cn_wakers s)) as [m1 w1]. cbn [fst] in Hother. rewrite bind_ret.
  assert (Hb : get_list b (set_list a s [] m1) = get_list b s /\ cn_wakers (set_list a s [] m1) = m1)
    by (destruct a, b; done).
  destruct Hb as [-> ->]. destruct (Hsome b) as [Hb1 Hb2].
  rewrite mpsc_wake_nodes_eq, bind_ret; [by destruct (wake_nodes (get_list b s) m1) | done |].
  intros n Hn. rewrite Hother; [by apply Hb2 |]. intros Hx. destruct a, b; cbn in *; try done; by apply (Hd n).
Qed.

(** With one receiver, the single-receiver channel is the channel with a
    count of receivers: in every history, while it is open, receiving an item
    and dropping a sender are the same calls, and dropping the receiver closes
    the channel and wakes the same tasks in the same order; in particular the
    panics of the former for queued futures without a waker do not occur. *)
Theorem mpsc_matches_mpmc capacity gentle w (Hcap : forall x, capacity = Bounded x -> 0 <= x)
    (Hw : chan_reach capacity gentle w) (Hone : cn_rx_count (wd_chan w) = 1) (Hopen : cn_closed (wd_chan w) = false) :
  let s := wd_chan w in
  mpsc_recv_one s = recv_one s /\
  mpsc_sender_drop s = sender_drop s /\
  mpsc_receiver_drop s = ('(s', ws) ← receiver_drop s; Ret (set_counts s' (cn_tx_count s) 1 true, ws)).
Proof.
  destruct (reach_inv _ _ _ Hcap Hw) as ([Hnd _ _ _ Hwk _ _ _ _] & _ & _). cbn. set (s := wd_chan w) in *. split_and!.
  - unfold mpsc_recv_one, recv_one. rewrite Hopen. by rewrite andb_true_r.
  - unfold mpsc_sender_drop, sender_drop. destruct (arith USIZE_BITS (cn_tx_count s - 1)) as [tx | f]; [| done].
    rewrite !bind_ret. destruct (tx =? 0); [| done].
    by apply (mpsc_wake_both SenderAction ReceiverAction (set_counts s tx (cn_rx_count s) (cn_closed s))).
  - unfold mpsc_receiver_drop, receiver_drop. rewrite Hone.
    change (arith USIZE_BITS (1 - 1)) with (Ret 0). rewrite bind_ret. cbn [Z.eqb].
    etrans; [by apply (mpsc_wake_both ReceiverAction SenderAction (set_counts s (cn_tx_count s) 1 true)) |].
    unfold wake_up_all. cbn [get_list set_counts cn_recv_waiters cn_wakers].
    destruct (wake_nodes (cn_recv_waiters s) (cn_wakers s)) as [m1 w1]. cbn [set_list set_recv get_list cn_send_waiters cn_wakers set_counts].
    destruct (wake_nodes (cn_send_waiters s) m1) as [m2 w2]. done.
Qed.
End world.
Arguments world T : clear implicits.
Arguments chan_op T : clear implicits.

(** ** Concrete histories *)

Section histories.
Context {T : Type}.

#[local] Instance op_ok_dec (w : world T) op : Decision (op_ok w op).
Proof. destruct op; cbn; apply _. Defined.
#[local] Instance drops_woken_dec (w : world T) op : Decision (drops_woken w op).
Proof. destruct op; cbn; apply _. Defined.

(** The calls of a history, checked and run. *)
Fixpoint run_history (gentle : bool) (w : world T) (ops : list (chan_op T)) : option (world T * list TaskWaker) :=
  match ops with
  | [] => Some (w, [])
  | op :: ops =>
      if bool_decide (op_ok w op) && (negb gentle || negb (bool_decide (drops_woken w op))) then
        match chan_exec w op with
        | Ret (w, ws) =>
            match run_history gentle w ops with
            | Some (w, ws') => Some (w, ws ++ ws')
            | None => None
            end
        | Fault _ => None
        end
      else None
  end.

Lemma run_history_reach capacity gentle ops : forall w w' ws, chan_reach capacity gentle w ->
  run_history gentle w ops = Some (w', ws) -> chan_reach capacity gentle w'.
Proof.
  induction ops as [| op ops IH]; intros w w' ws Hr; cbn [run_history]; [by intros [= <- <-] |].
  destruct (bool_decide_reflect (op_ok w op)) as [Hop |]; [| done]. cbn [andb].
  destruct (bool_decide_reflect (drops_woken w op)) as [Hd | Hd]; destruct gentle; cbn [negb orb]; try done;
    destruct (chan_exec w op) as [[w1 ws1] |] eqn:He; try done;
    destruct (run_history _ w1 ops) as [[w2 ws2] |] eqn:Hrun; try done; intros [= <- <-];
    (eapply IH; [eapply cr_step; [exact Hr | exact Hop | done | exact He] | exact Hrun]).
Qed.
End histories.

Definition world_of (o : option (world Z * list TaskWaker)) : world Z :=
  match o with Some (w, _) => w | None => world_new Unbounded end.

(** Two receivers wait, one item is sent. *)
Definition two_wait : list (chan_op Z) := [OpRecvPoll 1 101; OpRecvPoll 2 102; OpTrySend 7].
Definition two_wait_world : world Z := world_of (run_history true (world_new (Bounded 3)) two_wait).

Lemma two_wait_run : exists ws, run_history true (world_new (Bounded 3)) two_wait = Some (two_wait_world, ws).
Proof. eexists. vm_compute. reflexivity. Qed.

Lemma two_wait_reach gentle : chan_reach (Bounded 3) gentle two_wait_world.
Proof.
  destruct gentle.
  - destruct two_wait_run as [ws Hr]. exact (run_history_reach _ _ _ _ _ _ (cr_new _ _) Hr).
  - assert (Hr : exists ws, run_history false (world_new (Bounded 3)) two_wait = Some (two_wait_world, ws))
      by (eexists; vm_compute; reflexivity).
    destruct Hr as [ws Hr]. exact (run_history_reach _ _ _ _ _ _ (cr_new _ _) Hr).
Qed.

Lemma bounded_three x : Bounded 3 = Bounded x -> 0 <= x.
Proof. intros [= <-]. lia. Qed.

Lemma mpmc_delivers_in_order_witness :
  exists w' ws, chan_exec two_wait_world OpTryRecv = Ret (w', ws) /\
    wd_accepted w' = wd_delivered w' ++ cn_channel (wd_chan w').
Proof.
  destruct (mpmc_delivers_in_order (Bounded 3) two_wait_world OpTryRecv bounded_three (two_wait_reach false) I)
    as (w' & ws & He & Hh & _).
  exists w', ws. split; [exact He | exact Hh].
Defined.


Lemma mpsc_matches_mpmc_witness :
  mpsc_sender_drop (wd_chan two_wait_world) = sender_drop (wd_chan two_wait_world).
Proof.
  apply (mpsc_matches_mpmc (Bounded 3) true two_wait_world bounded_three (two_wait_reach true));
    vm_compute; reflexivity.
Defined.

(** A wake-up is lost when the future it was for is dropped before it is
    polled again: two receivers wait, one item is sent and wakes the first,
    whose future is then dropped; the item stays in the channel while the
    second receiver waits in the queue, and no other pending receiver exists. *)
Theorem mpmc_cancelled_wakeup_lost :
  exists w, run_history false (world_new (Bounded 3)) (two_wait ++ [OpRecvDrop 1]) = Some (w, [101]) /\
    cn_channel (wd_chan w) = [7] /\ cn_recv_waiters (wd_chan w) = [2] /\ elements (wd_rx w) = [2].
Proof. eexists. split; [vm_compute; reflexivity |]. vm_compute. done. Qed.
