(* ===== verification/Interleave.v ===== *)
(** * Threads that interleave

    A component that threads share is a state, an action of a thread on it (one
    atomic access with the computation up to the next, or the start of a call),
    and what a thread may do.  This file has the states that interleavings
    reach, schedules, and invariants. *)

From stdpp Require Import list gmap.
From S2P Require Import Prelude.

Section interleave.
Context {S A : Type} (exec : S -> nat -> A -> outcome S) (allowed : S -> nat -> A -> Prop) (start : S).
Implicit Types (s : S) (t : nat) (a : A).

Inductive reach : S -> Prop :=
  | reach_start : reach start
  | reach_step s t a s' : reach s -> allowed s t a -> exec s t a = Ret s' -> reach s'.

(** A schedule: which thread acts next, and how. *)
Fixpoint run s (sched : list (nat * A)) : outcome S :=
  match sched with
  | [] => Ret s
  | (t, a) :: sched => s ← exec s t a; run s sched
  end.

Lemma reach_invariant (I : S -> Prop) : I start ->
  (forall s t a s', I s -> allowed s t a -> exec s t a = Ret s' -> I s') -> forall s, reach s -> I s.
Proof. intros H0 Hstep s. induction 1; [done |]. by eapply Hstep. Qed.

(** The actions of a schedule are allowed where they are taken. *)
Fixpoint sched_allowed `{forall s t a, Decision (allowed s t a)} s (sched : list (nat * A)) : bool :=
  match sched with
  | [] => true
  | (t, a) :: sched =>
      bool_decide (allowed s t a) && match exec s t a with Ret s => sched_allowed s sched | Fault _ => false end
  end.

Lemma run_reach `{forall s t a, Decision (allowed s t a)} sched : forall s s', reach s ->
  sched_allowed s sched = true -> run s sched = Ret s' -> reach s'.
Proof.
  induction sched as [| [t a] sched IH]; intros s s' Hs Ha He; [by injection He as <- |].
  cbn in Ha. apply andb_true_iff in Ha as [Ha Hr]. apply bool_decide_eq_true_1 in Ha. cbn [run] in He.
  destruct (exec s t a) as [s1 |] eqn:H1; [| done]. rewrite bind_ret in He. eapply IH; [| done | exact He]. by econstructor.
Qed.
End interleave.

(** Where threads stand. *)
Section threads.
Context {P : Type} (idle : P).
Implicit Types (m : gmap nat P) (t : nat).

Definition pc_at m t : P := default idle (m !! t).

Lemma pc_at_insert m t pc t' : pc_at (<[t := pc]> m) t' = if decide (t' = t) then pc else pc_at m t'.
Proof.
  unfold pc_at. destruct (decide (t' = t)) as [-> | Hne]; [by rewrite lookup_insert_eq | by rewrite lookup_insert_ne].
Qed.

Lemma pc_at_eq m t pc : pc_at (<[t := pc]> m) t = pc.
Proof. rewrite pc_at_insert. by rewrite decide_True. Qed.

Lemma pc_at_ne m t pc t' : t' <> t -> pc_at (<[t := pc]> m) t' = pc_at m t'.
Proof. intros Hne. rewrite pc_at_insert. by rewrite decide_False. Qed.
End threads.

(** [n] accesses of thread [t]. *)
Definition accesses {A : Type} (step : A) (t n : nat) : list (nat * A) := repeat (t, step) n.
