(* ===== verification/Wakers.v ===== *)
(** * veloq-waker: [AtomicWaker] and [MwsrWaker]

    A cell for one waker, shared between a task that registers and threads that
    wake.  The state is the tag of the vtable pointer.  Each atomic access is
    one step of [waker_exec], together with the computation up to the next
    access; threads interleave step by step.  The two types share all code but
    the entry of the registration loop ([register_dispatch],
    [mwsr_dispatch]).

    Ghost state: [wf_live] has the clones of wakers that were made and neither
    woken nor dropped; using up a waker that is not there is undefined
    behaviour.  [wf_woken] has the wakers woken since the last registration
    began, [wf_flag] is the condition the registering task waits for: it reads
    the flag after it registered, a producer sets it and wakes. *)

From stdpp Require Import list gmap.
From S2P Require Import Prelude Interleave.

(** ** [common.rs]: tagged pointers *)

Definition TAG_MASK : Z := 3.
Definition REGISTERED : Z := 1.
Definition WAKING : Z := 2.
Definition REGISTERING : Z := 3.

Definition tag_set (p tag : Z) : Z := Z.lor (Z.land p (bitnot USIZE_BITS TAG_MASK)) tag.
Definition tag_unset (p tag : Z) : Z := Z.land p (bitnot USIZE_BITS tag).
Definition tag_of (p : Z) : Z := Z.land p TAG_MASK.

Record Waker : Type := mkWaker { wk_vtable : Z; wk_data : Z }.

#[global] Instance Waker_eq_dec : EqDecision Waker.
Proof. solve_decision. Defined.

(** The list without one occurrence of [w]. *)
Fixpoint remove_one (w : Waker) (l : list Waker) : option (list Waker) :=
  match l with
  | [] => None
  | x :: l => if decide (x = w) then Some l else l ← remove_one w l; Some (x :: l)
  end.

(** An address of a vtable: its two low bits are zero. *)
Definition aligned (p : Z) : Prop := 0 <= p < 2 ^ 64 /\ tag_of p = 0.

(** The wakers of the executor: the address of the vtable of the cell itself,
    and [Waker::clone]. *)
Class WakerEnv : Type := {
  NOOP_PTR : Z;
  waker_clone : Waker -> Waker;
  noop_aligned : aligned NOOP_PTR;
  clone_aligned w : aligned (wk_vtable w) -> aligned (wk_vtable (waker_clone w));
  clone_not_noop w : wk_vtable w <> NOOP_PTR -> wk_vtable (waker_clone w) <> NOOP_PTR
}.

Section wakers.
Context `{Env : WakerEnv}.

Record WakerCell : Type := mkWCell {
  wc_vtable : Z;
  wc_data : Z;
  wc_cached_vtable : Z;
  wc_cached_data : Z
}.

Definition waker_cell_new : WakerCell := mkWCell NOOP_PTR 0 0 0.

Inductive WakerKind : Type := KindAtomic | KindMwsr.

(** Where a thread stands: before the access that is named. *)
Inductive waker_pc : Type :=
  | WkIdle
  | RgCacheVt (w : Waker)                          (* load [cached_vtable] *)
  | RgCacheData (w : Waker) (cached_vtable : Z)    (* load [cached_data] *)
  | RgFast (w : Waker)                             (* load [vtable], compare *)
  | RgLoad (w : Waker)                             (* load [vtable] *)
  | RgLock (w : Waker) (vtable : Z)                (* compare_exchange, nothing registered *)
  | RgRelock (w : Waker) (vtable : Z)              (* compare_exchange, a waker registered *)
  | RgOld (w : Waker) (clean registering : Z)      (* load [data] of the old waker *)
  | RgData (w owned : Waker) (registering : Z)     (* store [data] *)
  | RgPublish (w owned : Waker) (registering : Z)  (* compare_exchange to registered *)
  | RgDirectData (w owned : Waker)                 (* Mwsr: store [data] *)
  | RgDirectVt (w owned : Waker)                   (* Mwsr: store [vtable] *)
  | RgSaveVt (w : Waker)                           (* store [cached_vtable] *)
  | RgSaveData (w : Waker)                         (* store [cached_data] *)
  | RgFailVt (w owned : Waker)                     (* a wake came in between: store [vtable] *)
  | RgFailData (w owned : Waker)                   (* store [data] *)
  | RgFailCacheVt (w owned : Waker)                (* store [cached_vtable] *)
  | RgFailCacheData (w owned : Waker)              (* store [cached_data] *)
  | RgFailWake (w owned : Waker)                   (* wake the clone *)
  | RgReturned (w : Waker)                         (* registered; read the flag *)
  | RgPending (w : Waker)                          (* the task waits *)
  | TkLoad                                         (* load [vtable] *)
  | TkCas (vtable : Z)                             (* compare_exchange to waking *)
  | TkData (clean : Z)                             (* load [data] *)
  | TkClearData (taken : Waker)                    (* store [data] *)
  | TkClearVt (taken : Waker)                      (* store [vtable] *)
  | TkWake (taken : Waker).                        (* wake the waker *)

Record waker_config : Type := mkWConfig {
  wf_cell : WakerCell;
  wf_pcs : gmap nat waker_pc;
  wf_live : list Waker;
  wf_woken : list Waker;
  wf_flag : bool
}.
Implicit Types (c : waker_config) (t : nat) (w : Waker).

Definition wpc_of c t : waker_pc := pc_at WkIdle (wf_pcs c) t.

Definition at_pc c t (pc : waker_pc) : waker_config :=
  mkWConfig (wf_cell c) (<[t := pc]> (wf_pcs c)) (wf_live c) (wf_woken c) (wf_flag c).
Definition with_cell c (m : WakerCell) : waker_config :=
  mkWConfig m (wf_pcs c) (wf_live c) (wf_woken c) (wf_flag c).
Definition set_vtable c (v : Z) : waker_config :=
  let m := wf_cell c in with_cell c (mkWCell v (wc_data m) (wc_cached_vtable m) (wc_cached_data m)).
Definition set_wdata c (d : Z) : waker_config :=
  let m := wf_cell c in with_cell c (mkWCell (wc_vtable m) d (wc_cached_vtable m) (wc_cached_data m)).
Definition set_cached_vtable c (v : Z) : waker_config :=
  let m := wf_cell c in with_cell c (mkWCell (wc_vtable m) (wc_data m) v (wc_cached_data m)).
Definition set_cached_data c (d : Z) : waker_config :=
  let m := wf_cell c in with_cell c (mkWCell (wc_vtable m) (wc_data m) (wc_cached_vtable m) d).

(** A new clone; the use of a clone by dropping it, and by waking it. *)
Definition own_clone c (owned : Waker) : waker_config :=
  mkWConfig (wf_cell c) (wf_pcs c) (owned :: wf_live c) (wf_woken c) (wf_flag c).
Definition drop_waker c (owned : Waker) : outcome waker_config :=
  match remove_one owned (wf_live c) with
  | Some live => Ret (mkWConfig (wf_cell c) (wf_pcs c) live (wf_woken c) (wf_flag c))
  | None => Fault InvalidPointer
  end.
Definition wake_by_ref c w : waker_config :=
  mkWConfig (wf_cell c) (wf_pcs c) (wf_live c) (w :: wf_woken c) (wf_flag c).
Definition wake_waker c (owned : Waker) : outcome waker_config :=
  c ← drop_waker c owned; Ret (wake_by_ref c owned).

(** ** The loop of [register], entered with a value of [vtable] *)

(** [AtomicWaker::register] *)
Definition register_dispatch c t w (vtable : Z) : waker_config :=
  let tag := tag_of vtable in
  if tag =? WAKING then at_pc (wake_by_ref c w) t (RgReturned w)
  else if tag =? REGISTERING then at_pc c t (RgReturned w)
  else if (tag =? 0) && (vtable =? NOOP_PTR) then at_pc c t (RgLock w vtable)
  else if tag =? REGISTERED then at_pc c t (RgRelock w vtable)
  else at_pc c t (RgLoad w).

(** [MwsrWaker::register] *)
Definition mwsr_dispatch c t w (vtable : Z) : waker_config :=
  let tag := tag_of vtable in
  if tag =? WAKING then at_pc (wake_by_ref c w) t (RgReturned w)
  else if tag =? REGISTERING then at_pc c t (RgLoad w)
  else if (tag =? 0) && (vtable =? NOOP_PTR) then
    at_pc (own_clone c (waker_clone w)) t (RgDirectData w (waker_clone w))
  else if tag =? REGISTERED then at_pc c t (RgRelock w vtable)
  else at_pc c t (RgLoad w).

Definition dispatch (k : WakerKind) c t w (vtable : Z) : waker_config :=
  match k with KindAtomic => register_dispatch c t w vtable | KindMwsr => mwsr_dispatch c t w vtable end.

(** The loop of [take]. *)
Definition take_dispatch c t (vtable : Z) : waker_config :=
  let tag := tag_of vtable in
  if (tag =? REGISTERING) || (tag =? REGISTERED) then at_pc c t (TkCas vtable) else at_pc c t WkIdle.

(** ** One access of a thread *)

Definition register_step (k : WakerKind) c t (pc : waker_pc) : outcome waker_config :=
  let m := wf_cell c in
  match pc with
  | RgCacheVt w => Ret (at_pc c t (RgCacheData w (wc_cached_vtable m)))
  | RgCacheData w cached_vtable =>
      if (wk_vtable w =? cached_vtable) && (wk_data w =? wc_cached_data m)
      then Ret (at_pc c t (RgFast w)) else Ret (at_pc c t (RgLoad w))
  | RgFast w =>
      if wc_vtable m =? tag_set (wk_vtable w) REGISTERED
      then Ret (at_pc c t (RgReturned w)) else Ret (at_pc c t (RgLoad w))
  | RgLoad w => Ret (dispatch k c t w (wc_vtable m))
  | RgLock w vtable =>
      if wc_vtable m =? vtable then
        let registering := tag_set vtable REGISTERING in
        let owned := waker_clone w in
        Ret (at_pc (own_clone (set_vtable c registering) owned) t (RgData w owned registering))
      else Ret (dispatch k c t w (wc_vtable m))
  | RgRelock w vtable =>
      if wc_vtable m =? vtable then
        let registering := tag_set vtable REGISTERING in
        Ret (at_pc (set_vtable c registering) t (RgOld w (tag_unset vtable TAG_MASK) registering))
      else Ret (dispatch k c t w (wc_vtable m))
  | RgOld w clean registering =>
      c ← (if negb (clean =? NOOP_PTR) then drop_waker c (mkWaker clean (wc_data m)) else Ret c);
      let owned := waker_clone w in
      Ret (at_pc (own_clone c owned) t (RgData w owned registering))
  | RgData w owned registering => Ret (at_pc (set_wdata c (wk_data owned)) t (RgPublish w owned registering))
  | RgPublish w owned registering =>
      if wc_vtable m =? registering then
        Ret (at_pc (set_vtable c (tag_set (wk_vtable owned) REGISTERED)) t (RgSaveVt w))
      else _ ← assert (tag_of (wc_vtable m) =? WAKING); Ret (at_pc c t (RgFailVt w owned))
  | RgDirectData w owned => Ret (at_pc (set_wdata c (wk_data owned)) t (RgDirectVt w owned))
  | RgDirectVt w owned =>
      Ret (at_pc (set_vtable c (tag_set (wk_vtable owned) REGISTERED)) t (RgSaveVt w))
  | RgSaveVt w => Ret (at_pc (set_cached_vtable c (wk_vtable w)) t (RgSaveData w))
  | RgSaveData w => Ret (at_pc (set_cached_data c (wk_data w)) t (RgReturned w))
  | RgFailVt w owned => Ret (at_pc (set_vtable c NOOP_PTR) t (RgFailData w owned))
  | RgFailData w owned => Ret (at_pc (set_wdata c 0) t (RgFailCacheVt w owned))
  | RgFailCacheVt w owned => Ret (at_pc (set_cached_vtable c 0) t (RgFailCacheData w owned))
  | RgFailCacheData w owned => Ret (at_pc (set_cached_data c 0) t (RgFailWake w owned))
  | RgFailWake w owned => c ← wake_waker c owned; Ret (at_pc c t (RgReturned w))
  | RgReturned w => Ret (at_pc c t (if wf_flag c then WkIdle else RgPending w))
  | _ => Ret c
  end.

(** [wake], which calls [take]. *)
Definition wake_step c t (pc : waker_pc) : outcome waker_config :=
  let m := wf_cell c in
  match pc with
  | TkLoad => Ret (take_dispatch c t (wc_vtable m))
  | TkCas vtable =>
      if wc_vtable m =? vtable then
        let c := set_vtable c (tag_set vtable WAKING) in
        if tag_of vtable =? REGISTERING then Ret (at_pc c t WkIdle)
        else Ret (at_pc c t (TkData (tag_unset vtable TAG_MASK)))
      else Ret (take_dispatch c t (wc_vtable m))
  | TkData clean => Ret (at_pc c t (TkClearData (mkWaker clean (wc_data m))))
  | TkClearData taken => Ret (at_pc (set_wdata c 0) t (TkClearVt taken))
  | TkClearVt taken => Ret (at_pc (set_vtable c NOOP_PTR) t (TkWake taken))
  | TkWake taken => c ← wake_waker c taken; Ret (at_pc c t WkIdle)
  | _ => Ret c
  end.

Inductive waker_action : Type :=
  | ARegister (w : Waker)   (* call [register] *)
  | ASignal                 (* set the flag, then call [wake] *)
  | AWake                   (* call [wake] *)
  | AStep.                  (* the next access *)

Definition waker_exec (k : WakerKind) c t (a : waker_action) : outcome waker_config :=
  let pc := wpc_of c t in
  match a, pc with
  | ARegister w, (WkIdle | RgPending _) =>
      Ret (mkWConfig (wf_cell c) (<[t := RgCacheVt w]> (wf_pcs c)) (wf_live c) [] (wf_flag c))
  | ASignal, WkIdle => Ret (mkWConfig (wf_cell c) (<[t := TkLoad]> (wf_pcs c)) (wf_live c) (wf_woken c) true)
  | AWake, WkIdle => Ret (at_pc c t TkLoad)
  | AStep, (TkLoad | TkCas _ | TkData _ | TkClearData _ | TkClearVt _ | TkWake _) => wake_step c t pc
  | AStep, _ => register_step k c t pc
  | _, _ => Ret c
  end.

(** [Drop]: nobody else has the cell. *)
Definition waker_cell_drop c : outcome waker_config :=
  let m := wf_cell c in
  if tag_of (wc_vtable m) =? REGISTERED then
    let clean := tag_unset (wc_vtable m) TAG_MASK in
    if negb (clean =? NOOP_PTR) then drop_waker c (mkWaker clean (wc_data m)) else Ret c
  else Ret c.

Definition waker_start : waker_config := mkWConfig waker_cell_new ∅ [] [] false.

(** A waker handed to [register]: the vtable of the cell is private. *)
Definition waker_ok w : Prop := aligned (wk_vtable w) /\ wk_vtable w <> NOOP_PTR.

(** Thread 0 registers, any other thread wakes. *)
Definition action_ok t (a : waker_action) : Prop :=
  match a with
  | ARegister w => t = 0%nat /\ waker_ok w
  | ASignal | AWake => t <> 0%nat
  | AStep => True
  end.

Definition waker_reach (k : WakerKind) : waker_config -> Prop :=
  reach (waker_exec k) (fun _ => action_ok) waker_start.
Definition waker_run (k : WakerKind) : waker_config -> list (nat * waker_action) -> outcome waker_config :=
  run (waker_exec k).
End wakers.

(** ** The waker cells: safety and wake-ups

    The invariant of a cell that one task registers with and any number of
    threads wake.  A phase says who may write the cell: nobody, the registering
    task, or the thread that moved it to [WAKING]; every live clone is either in
    the slot or held by one thread; a task that waits is registered, or its
    waker was woken or is carried by a thread that will wake it. *)

(** *** Tags *)

Lemma mask_bits : Z.land (bitnot USIZE_BITS TAG_MASK) TAG_MASK = 0 /\
  Z.lor (bitnot USIZE_BITS TAG_MASK) TAG_MASK = Z.ones 64.
Proof. by vm_compute. Qed.

Lemma tag_small a : 0 <= a < 4 -> Z.land a TAG_MASK = a /\ Z.land a (bitnot USIZE_BITS TAG_MASK) = 0.
Proof. intros Ha. assert (a = 0 \/ a = 1 \/ a = 2 \/ a = 3) as [-> | [-> | [-> | ->]]] by lia; by vm_compute. Qed.

Lemma tag_of_set p a : 0 <= a < 4 -> tag_of (tag_set p a) = a.
Proof.
  intros Ha. unfold tag_of, tag_set. rewrite Z.land_lor_distr_l, <- Z.land_assoc.
  destruct mask_bits as [-> _]. destruct (tag_small a Ha) as [-> _]. by rewrite Z.land_0_r, Z.lor_0_l.
Qed.

Lemma tag_unset_set p a : 0 <= a < 4 -> tag_unset (tag_set p a) TAG_MASK = tag_unset p TAG_MASK.
Proof.
  intros Ha. unfold tag_unset, tag_set. rewrite Z.land_lor_distr_l, <- Z.land_assoc, Z.land_diag.
  destruct (tag_small a Ha) as [_ ->]. by rewrite Z.lor_0_r.
Qed.

Lemma tag_unset_aligned p : aligned p -> tag_unset p TAG_MASK = p.
Proof.
  intros [Hp Ht]. unfold tag_unset, tag_of in *. destruct mask_bits as [_ Hm].
  rewrite <- (Z.lor_0_r (Z.land p _)), <- Ht, <- Z.land_lor_distr_r, Hm, Z.land_ones by lia.
  apply Z.mod_small. lia.
Qed.

Lemma remove_one_in w l : w ∈ l -> exists l', remove_one w l = Some l' /\ l ≡ₚ w :: l'.
Proof.
  induction l as [| x l IH]; [by intros ?%elem_of_nil |]. cbn. intros Hin.
  destruct (decide (x = w)) as [-> | Hne]; [by eauto |].
  apply elem_of_cons in Hin as [-> | Hin]; [done |]. destruct (IH Hin) as (l' & -> & Hp).
  exists (x :: l'). split; [done |]. rewrite Hp. constructor.
Qed.

Section safety.
Context `{Env : WakerEnv}.
Implicit Types (c : waker_config) (t : nat) (w : Waker) (k : WakerKind).

(** *** The invariant *)

Inductive phase : Type := PhEmpty | PhFull | PhLocked | PhNotified | PhTaking (t : nat).

Definition phase_vtable (ph : phase) (v : Z) : Prop :=
  match ph with
  | PhEmpty => v = NOOP_PTR
  | PhFull => tag_of v = REGISTERED
  | PhLocked => tag_of v = REGISTERING
  | PhNotified | PhTaking _ => tag_of v = WAKING
  end.

(** The registering task is not inside its critical section. *)
Definition reg_free (ph : phase) : Prop :=
  match ph with PhEmpty | PhFull => True | PhTaking t => t <> 0%nat | PhLocked | PhNotified => False end.

(** It is. *)
Definition reg_locked c (ph : phase) (registering : Z) : Prop :=
  tag_of registering = REGISTERING /\ (ph = PhLocked /\ wc_vtable (wf_cell c) = registering \/ ph = PhNotified).

Definition slot c : Waker := mkWaker (tag_unset (wc_vtable (wf_cell c)) TAG_MASK) (wc_data (wf_cell c)).
Definition cached c : Waker := mkWaker (wc_cached_vtable (wf_cell c)) (wc_cached_data (wf_cell c)).

Definition reg_ok c (ph : phase) (pc : waker_pc) : Prop :=
  match pc with
  | WkIdle => reg_free ph
  | RgCacheVt w | RgLoad w | RgReturned w | RgPending w | RgSaveVt w => reg_free ph /\ waker_ok w
  | RgSaveData w => reg_free ph /\ waker_ok w /\ wc_cached_vtable (wf_cell c) = wk_vtable w
  | RgCacheData w cv => reg_free ph /\ waker_ok w /\ cv = wc_cached_vtable (wf_cell c)
  | RgFast w => reg_free ph /\ waker_ok w /\ cached c = w
  | RgLock w v => ph = PhEmpty /\ waker_ok w /\ v = NOOP_PTR
  | RgRelock w v =>
      reg_free ph /\ waker_ok w /\ tag_of v = REGISTERED /\ (ph = PhFull -> v = wc_vtable (wf_cell c))
  | RgOld w clean registering =>
      reg_locked c ph registering /\ waker_ok w /\ clean = tag_unset (wc_vtable (wf_cell c)) TAG_MASK
  | RgData w owned registering => reg_locked c ph registering /\ waker_ok w /\ owned = waker_clone w
  | RgPublish w owned registering =>
      reg_locked c ph registering /\ waker_ok w /\ owned = waker_clone w /\ wc_data (wf_cell c) = wk_data owned
  | RgDirectData w owned => ph = PhEmpty /\ waker_ok w /\ owned = waker_clone w
  | RgDirectVt w owned =>
      ph = PhEmpty /\ waker_ok w /\ owned = waker_clone w /\ wc_data (wf_cell c) = wk_data owned
  | RgFailVt w owned => ph = PhNotified /\ waker_ok w /\ owned = waker_clone w
  | RgFailData w owned | RgFailCacheVt w owned | RgFailCacheData w owned | RgFailWake w owned =>
      ph = PhEmpty /\ waker_ok w /\ owned = waker_clone w
  | _ => False
  end.

Definition take_ok c (ph : phase) t (pc : waker_pc) : Prop :=
  match pc with
  | WkIdle | TkLoad | TkWake _ => ph <> PhTaking t
  | TkCas v => ph <> PhTaking t /\ (tag_of v = REGISTERING \/ tag_of v = REGISTERED)
  | TkData clean => ph = PhTaking t /\ clean = tag_unset (wc_vtable (wf_cell c)) TAG_MASK
  | TkClearData _ | TkClearVt _ => ph = PhTaking t
  | _ => False
  end.

(** The clone a thread holds. *)
Definition held (pc : waker_pc) : option Waker :=
  match pc with
  | RgData _ o _ | RgPublish _ o _ | RgDirectData _ o | RgDirectVt _ o
  | RgFailVt _ o | RgFailData _ o | RgFailCacheVt _ o | RgFailCacheData _ o | RgFailWake _ o
  | TkClearData o | TkClearVt o | TkWake o => Some o
  | _ => None
  end.

(** The slot has a clone that nobody took yet. *)
Definition slot_used c (ph : phase) : bool :=
  match ph with
  | PhEmpty => false
  | PhFull => true
  | PhLocked | PhNotified => match wpc_of c 0 with RgOld _ _ _ => true | _ => false end
  | PhTaking t => match wpc_of c t with TkData _ => true | _ => false end
  end.

Definition slot_clones c (ph : phase) : list Waker := if slot_used c ph then [slot c] else [].
Definition others (t : nat) (m : gmap nat waker_pc) : list Waker := (map_to_list (omap held (delete t m))).*2.
Definition option_list {A : Type} (o : option A) : list A := match o with Some x => [x] | None => [] end.

(** Thread [t] will wake [x]. *)
Definition carries c t (x : Waker) : Prop :=
  match wpc_of c t with TkData _ => slot c = x | pc => held pc = Some x end.

Definition woken c w : Prop := w ∈ wf_woken c \/ waker_clone w ∈ wf_woken c.
Definition due c w : Prop := woken c w \/ exists t, t <> 0%nat /\ carries c t (waker_clone w).
Definition registered c (ph : phase) w : Prop := ph = PhFull /\ slot c = waker_clone w.

(** A call of [wake] that has not decided yet. *)
Definition undecided (pc : waker_pc) : Prop := match pc with TkLoad | TkCas _ => True | _ => False end.

Definition wait_ok c (ph : phase) (pc : waker_pc) : Prop :=
  match pc with
  | RgSaveVt w | RgSaveData w | RgReturned w => due c w \/ registered c ph w
  | RgPending w =>
      due c w \/ registered c ph w /\ (wf_flag c = false \/ exists t, t <> 0%nat /\ undecided (wpc_of c t))
  | _ => True
  end.

(** The cache has the waker that is registered, but while it is written. *)
Definition cache_ok c (ph : phase) (pc : waker_pc) : Prop :=
  match pc with
  | RgSaveVt w | RgSaveData w => ph = PhFull -> slot c = waker_clone w
  | _ => ph = PhFull -> slot c = waker_clone (cached c)
  end.

Record waker_inv c (ph : phase) : Prop := {
  wi_vtable : phase_vtable ph (wc_vtable (wf_cell c));
  wi_reg : reg_ok c ph (wpc_of c 0);
  wi_take : forall t, t <> 0%nat -> take_ok c ph t (wpc_of c t);
  wi_slot : slot_used c ph = true -> wk_vtable (slot c) <> NOOP_PTR;
  wi_ledger : forall t, wf_live c ≡ₚ slot_clones c ph ++ option_list (held (wpc_of c t)) ++ others t (wf_pcs c);
  wi_cache : cache_ok c ph (wpc_of c 0);
  wi_wait : wait_ok c ph (wpc_of c 0)
}.

(** *** Threads and their clones *)

Lemma wpc_move c c' t pc t' : wf_pcs c' = <[t := pc]> (wf_pcs c) ->
  wpc_of c' t' = if decide (t' = t) then pc else wpc_of c t'.
Proof.
  intros He. unfold wpc_of. rewrite He. apply pc_at_insert.
Qed.

Lemma holders_split c t :
  option_list (held (wpc_of c t)) ++ others t (wf_pcs c) ≡ₚ (map_to_list (omap held (wf_pcs c))).*2.
Proof.
  unfold others, wpc_of, pc_at. rewrite omap_delete. destruct (wf_pcs c !! t) as [pc |] eqn:Ht; cbn.
  - destruct (held pc) as [x |] eqn:Hh; cbn.
    + rewrite <- (map_to_list_delete (omap held (wf_pcs c)) t x) by (rewrite lookup_omap, Ht; done). done.
    + rewrite delete_id; [done |]. by rewrite lookup_omap, Ht.
  - rewrite delete_id; [done |]. by rewrite lookup_omap, Ht.
Qed.

Lemma ledger_any c l t t' :
  l ++ option_list (held (wpc_of c t)) ++ others t (wf_pcs c)
    ≡ₚ l ++ option_list (held (wpc_of c t')) ++ others t' (wf_pcs c).
Proof. by rewrite !holders_split. Qed.

Lemma others_move c c' t pc : wf_pcs c' = <[t := pc]> (wf_pcs c) -> others t (wf_pcs c') = others t (wf_pcs c).
Proof. intros ->. unfold others. by rewrite delete_insert_eq. Qed.

Definition not_taking (ph : phase) : Prop := match ph with PhTaking _ => False | _ => True end.
Definition same_slot c c' : Prop :=
  wc_vtable (wf_cell c') = wc_vtable (wf_cell c) /\ wc_data (wf_cell c') = wc_data (wf_cell c).

Lemma take_ok_moves c c' ph ph' t pc : take_ok c ph t pc ->
  (ph' = ph /\ same_slot c c') \/ (not_taking ph /\ not_taking ph') -> take_ok c' ph' t pc.
Proof.
  intros Ht [[-> [Hv _]] | [Hn Hn']].
  - destruct pc; cbn in *; try done. by rewrite Hv.
  - destruct pc; cbn in *; try done; destruct ph, ph'; naive_solver.
Qed.

Lemma slot_same c c' : same_slot c c' -> slot c' = slot c.
Proof. intros [Hv Hd]. unfold slot. by rewrite Hv, Hd. Qed.

(** A step of the registering task. *)
Lemma reg_moves c c' ph ph' pc' : waker_inv c ph -> wf_pcs c' = <[0%nat := pc']> (wf_pcs c) ->
  phase_vtable ph' (wc_vtable (wf_cell c')) -> reg_ok c' ph' pc' ->
  (ph' = ph /\ same_slot c c') \/ (not_taking ph /\ not_taking ph') ->
  (slot_used c' ph' = true -> wk_vtable (slot c') <> NOOP_PTR) ->
  wf_live c' ≡ₚ slot_clones c' ph' ++ option_list (held pc') ++ others 0 (wf_pcs c) ->
  cache_ok c' ph' pc' -> wait_ok c' ph' pc' -> waker_inv c' ph'.
Proof.
  intros Hi Hp Hv Hr Ht Hs Hl Hc Hw.
  assert (H0 : wpc_of c' 0 = pc') by (rewrite (wpc_move _ _ _ _ 0 Hp); by rewrite decide_True).
  split; rewrite ?H0; try done.
  - intros t Hne. rewrite (wpc_move _ _ _ _ t Hp), decide_False by done. eapply take_ok_moves; [| exact Ht]. by apply Hi.
  - intros t. rewrite (ledger_any c' _ t 0), H0, (others_move _ _ _ _ Hp). done.
Qed.

(** A step of a waking thread. *)
Lemma take_moves c c' ph ph' t pc' : waker_inv c ph -> t <> 0%nat -> wf_pcs c' = <[t := pc']> (wf_pcs c) ->
  phase_vtable ph' (wc_vtable (wf_cell c')) -> reg_ok c' ph' (wpc_of c 0) -> take_ok c' ph' t pc' ->
  (forall t', t' <> t -> t' <> 0%nat -> take_ok c' ph' t' (wpc_of c t')) ->
  (slot_used c' ph' = true -> wk_vtable (slot c') <> NOOP_PTR) ->
  wf_live c' ≡ₚ slot_clones c' ph' ++ option_list (held pc') ++ others t (wf_pcs c) ->
  cache_ok c' ph' (wpc_of c 0) -> wait_ok c' ph' (wpc_of c 0) -> waker_inv c' ph'.
Proof.
  intros Hi Hne Hp Hv Hr Ht Hot Hs Hl Hc Hw.
  assert (H0 : wpc_of c' 0 = wpc_of c 0) by (rewrite (wpc_move _ _ _ _ 0 Hp); by rewrite decide_False).
  assert (Hpt : wpc_of c' t = pc') by (rewrite (wpc_move _ _ _ _ t Hp); by rewrite decide_True).
  split; rewrite ?H0; try done.
  - intros t' Ht'. rewrite (wpc_move _ _ _ _ t' Hp). destruct (decide (t' = t)) as [-> |]; [done |]. by apply Hot.
  - intros t'. rewrite (ledger_any c' _ t' t), Hpt, (others_move _ _ _ _ Hp). done.
Qed.

(** *** The registering task *)

Definition is_old (pc : waker_pc) : bool := match pc with RgOld _ _ _ => true | _ => false end.

Lemma slot_used_reg c c' ph pc' : wf_pcs c' = <[0%nat := pc']> (wf_pcs c) -> ph <> PhTaking 0 ->
  is_old pc' = is_old (wpc_of c 0) -> slot_used c' ph = slot_used c ph.
Proof.
  intros Hp Hph Ho. destruct ph as [| | | | t]; cbn; try done; rewrite (wpc_move _ _ _ _ _ Hp).
  1, 2: rewrite decide_True by done; by destruct pc', (wpc_of c 0).
  by rewrite decide_False by congruence.
Qed.

Lemma reg_not_taking0 c ph pc : reg_ok c ph pc -> ph <> PhTaking 0.
Proof. destruct pc; cbn; unfold reg_locked; intros Hr ->; naive_solver. Qed.

(** Accesses that leave slot and clones alone. *)
Lemma reg_quiet c c' ph pc' : waker_inv c ph -> wf_pcs c' = <[0%nat := pc']> (wf_pcs c) ->
  same_slot c c' -> wf_live c' = wf_live c -> held pc' = held (wpc_of c 0) -> is_old pc' = is_old (wpc_of c 0) ->
  reg_ok c' ph pc' -> cache_ok c' ph pc' -> wait_ok c' ph pc' -> waker_inv c' ph.
Proof.
  intros Hi Hp Hs Hl Hh Ho Hr Hc Hw. pose proof (slot_used_reg c c' ph pc' Hp (reg_not_taking0 _ _ _ Hr) Ho) as Hu.
  eapply reg_moves; try done.
  - destruct Hs as [-> _]. by apply Hi.
  - by left.
  - rewrite Hu, (slot_same _ _ Hs). by apply Hi.
  - unfold slot_clones. rewrite Hu, (slot_same _ _ Hs), Hl, Hh. by apply (wi_ledger _ _ Hi 0).
Qed.

Lemma due_reg c c' pc' w : wf_pcs c' = <[0%nat := pc']> (wf_pcs c) -> same_slot c c' ->
  (forall x, x ∈ wf_woken c -> x ∈ wf_woken c') -> due c w -> due c' w.
Proof.
  intros Hp Hs Hw [[Hin | Hin] | (t & Ht & Hc)]; [left; left; auto | left; right; auto |].
  right. exists t. split; [done |]. unfold carries in *. rewrite (wpc_move _ _ _ _ _ Hp), decide_False by done.
  rewrite (slot_same _ _ Hs). done.
Qed.

Lemma registered_reg c c' ph w : same_slot c c' -> registered c ph w -> registered c' ph w.
Proof. intros Hs [-> Hr]. split; [done |]. by rewrite (slot_same _ _ Hs). Qed.

Ltac quiet Hi := eapply (reg_quiet _ _ _ _ Hi); [reflexivity | ..]; first [assumption | done | by split | congruence |
  match goal with H : wpc_of _ _ = _ |- _ => rewrite H; reflexivity end | idtac].

Lemma dispatch_inv k c ph w : waker_inv c ph -> reg_free ph -> waker_ok w ->
  held (wpc_of c 0) = None -> is_old (wpc_of c 0) = false ->
  (ph = PhFull -> slot c = waker_clone (cached c)) ->
  waker_inv (dispatch k c 0 w (wc_vtable (wf_cell c))) ph.
Proof.
  intros Hi Hf Hw Hh Ho Hc. pose proof (wi_vtable _ _ Hi) as Hv.
  destruct ph as [| | | | t]; cbn in Hv, Hf; try done.
  - assert (Ht : tag_of (wc_vtable (wf_cell c)) = 0) by (rewrite Hv; apply noop_aligned).
    destruct k; cbn [dispatch]; unfold register_dispatch, mwsr_dispatch; rewrite Ht, Hv, (Z.eqb_refl NOOP_PTR); cbn [Z.eqb andb REGISTERING WAKING].
    + by quiet Hi.
    + eapply (reg_moves _ _ _ PhEmpty _ Hi); [reflexivity | ..]; try done.
      * by left.
      * cbn. pose proof (wi_ledger _ _ Hi 0) as Hl. rewrite Hh in Hl. cbn in Hl. by rewrite Hl.
  - destruct k; cbn [dispatch]; unfold register_dispatch, mwsr_dispatch; rewrite Hv; cbn; by quiet Hi.
  - assert (Hd : dispatch k c 0 w (wc_vtable (wf_cell c)) = at_pc (wake_by_ref c w) 0 (RgReturned w)).
    { destruct k; cbn [dispatch]; unfold register_dispatch, mwsr_dispatch; by rewrite Hv. }
    rewrite Hd. quiet Hi. left. left. left. cbn. set_solver.
Qed.

Lemma drop_waker_in c x l : wf_live c ≡ₚ x :: l ->
  exists live, drop_waker c x = Ret (mkWConfig (wf_cell c) (wf_pcs c) live (wf_woken c) (wf_flag c)) /\ live ≡ₚ l.
Proof.
  intros Hl. destruct (remove_one_in x (wf_live c)) as (live & He & Hp); [rewrite Hl; set_solver |].
  exists live. unfold drop_waker. rewrite He. split; [done |]. rewrite Hl in Hp. symmetry. by apply Permutation_cons_inv in Hp.
Qed.

Lemma published_vtable w : waker_ok w -> tag_unset (tag_set (wk_vtable (waker_clone w)) REGISTERED) TAG_MASK = wk_vtable (waker_clone w).
Proof. intros [Ha _]. rewrite tag_unset_set by (unfold REGISTERED; lia). by apply tag_unset_aligned, clone_aligned. Qed.

(** Publishing the clone that was stored. *)
Lemma publish_inv c ph w : waker_inv c ph -> waker_ok w -> not_taking ph ->
  held (wpc_of c 0) = Some (waker_clone w) -> slot_used c ph = false -> wc_data (wf_cell c) = wk_data (waker_clone w) ->
  waker_inv (at_pc (set_vtable c (tag_set (wk_vtable (waker_clone w)) REGISTERED)) 0 (RgSaveVt w)) PhFull.
Proof.
  intros Hi Hw Hn Hh Hu Hd.
  assert (Hs : slot (at_pc (set_vtable c (tag_set (wk_vtable (waker_clone w)) REGISTERED)) 0 (RgSaveVt w)) = waker_clone w).
  { unfold slot. cbn. rewrite published_vtable, Hd by done. by destruct (waker_clone w). }
  eapply (reg_moves _ _ _ _ _ Hi); [reflexivity | ..]; try done.
  - cbn. by rewrite tag_of_set.
  - by right.
  - intros _. rewrite Hs. apply clone_not_noop, Hw.
  - pose proof (wi_ledger _ _ Hi 0) as Hl. unfold slot_clones in Hl. rewrite Hh, Hu in Hl. cbn in Hl.
    unfold slot_clones. rewrite Hs. cbn. done.
  - intros _. exact Hs.
  - by right.
Qed.

Lemma unused_locked c ph registering : reg_locked c ph registering -> is_old (wpc_of c 0) = false -> slot_used c ph = false.
Proof. intros [_ [[-> _] | ->]] Ho; cbn; by destruct (wpc_of c 0). Qed.

Lemma locked_not_taking c ph registering : reg_locked c ph registering -> not_taking ph.
Proof. by intros [_ [[-> _] | ->]]. Qed.

Definition register_safe k c : Prop :=
  exists c' ph', register_step k c 0 (wpc_of c 0) = Ret c' /\ waker_inv c' ph'.

(** The read-only entry of a registration. *)
Lemma register_entry k c ph : waker_inv c ph ->
  match wpc_of c 0 with
  | RgCacheVt _ | RgCacheData _ _ | RgFast _ | RgLoad _ | RgReturned _ => True
  | _ => False
  end -> register_safe k c.
Proof.
  intros Hi Hpc. pose proof (wi_reg _ _ Hi) as Hr. pose proof (wi_cache _ _ Hi) as Hc. pose proof (wi_wait _ _ Hi) as Hw.
  unfold register_safe. destruct (wpc_of c 0) as [] eqn:Hp; try done; cbn in *.
  - eexists _, ph. split; [done |]. quiet Hi. naive_solver.
  - destruct Hr as (Hf & Hok & ->). destruct (_ && _) eqn:He; (eexists _, ph; split; [done |]; quiet Hi).
    cbn. split_and!; try done. apply andb_true_iff in He as [H1 H2]. apply Z.eqb_eq in H1, H2.
    unfold cached. cbn. destruct w; cbn in *. by subst.
  - destruct Hr as (Hf & Hok & Hca). destruct (Z.eqb_spec (wc_vtable (wf_cell c)) (tag_set (wk_vtable w) REGISTERED)) as [He | He];
      (eexists _, ph; split; [done |]; quiet Hi).
    right. assert (ph = PhFull) as ->.
    { pose proof (wi_vtable _ _ Hi) as Hv. rewrite He in Hv. destruct ph; cbn in Hv, Hf; try done.
      - pose proof noop_aligned as [_ Hna]. by rewrite <- Hv, tag_of_set in Hna.
      - by rewrite tag_of_set in Hv. }
    split; [done |]. rewrite <- Hca. by apply Hc.
  - eexists _, ph. split; [done |]. apply dispatch_inv; rewrite ?Hp; naive_solver.
  - eexists _, ph. split; [done |]. destruct (wf_flag c) eqn:Hfl; quiet Hi; [naive_solver |]. cbn.
    destruct Hw as [Hw | Hw]; [left; by eapply due_reg | right; split; [by eapply registered_reg | by left]].
Qed.

Lemma ledger_reg c ph pc : waker_inv c ph -> wpc_of c 0 = pc ->
  wf_live c ≡ₚ slot_clones c ph ++ option_list (held pc) ++ others 0 (wf_pcs c).
Proof. intros Hi <-. apply (wi_ledger _ _ Hi 0). Qed.

(** Taking the lock of the cell. *)
Lemma register_lock k c ph : waker_inv c ph ->
  match wpc_of c 0 with RgLock _ _ | RgRelock _ _ => True | _ => False end -> register_safe k c.
Proof.
  intros Hi Hpc. pose proof (wi_reg _ _ Hi) as Hr. pose proof (wi_cache _ _ Hi) as Hc. pose proof (wi_vtable _ _ Hi) as Hv.
  unfold register_safe. destruct (wpc_of c 0) as [] eqn:Hp; try done; cbn in *; pose proof (ledger_reg _ _ _ Hi Hp) as Hl.
  - destruct Hr as (-> & Hok & ->). cbn in Hv. rewrite Hv, Z.eqb_refl. eexists _, PhLocked. split; [done |].
    eapply (reg_moves _ _ _ _ _ Hi); [reflexivity | ..]; try done.
    + cbn. by rewrite tag_of_set.
    + split; [split; [by rewrite tag_of_set | by left] | done].
    + by right.
    + cbn. unfold wpc_of. cbn. by rewrite pc_at_eq.
    + unfold slot_clones. cbn. unfold wpc_of. cbn. rewrite pc_at_eq. cbn. cbn in Hl. by rewrite Hl.
  - destruct Hr as (Hf & Hok & Ht & _). destruct (Z.eqb_spec (wc_vtable (wf_cell c)) vtable) as [<- | He].
    2: { eexists _, ph. split; [done |]. apply dispatch_inv; rewrite ?Hp; naive_solver. }
    assert (ph = PhFull) as ->.
    { destruct ph; cbn in Hv, Hf; try done; [| by rewrite Hv in Ht]. pose proof noop_aligned as [_ Hna]. by rewrite Hv, Hna in Ht. }
    assert (Hun : tag_unset (tag_set (wc_vtable (wf_cell c)) REGISTERING) TAG_MASK = tag_unset (wc_vtable (wf_cell c)) TAG_MASK)
      by (by rewrite tag_unset_set).
    eexists _, PhLocked. split; [done |]. eapply (reg_moves _ _ _ _ _ Hi); [reflexivity | ..]; try done.
    + cbn. by rewrite tag_of_set.
    + cbn. rewrite Hun. split; [split; [by rewrite tag_of_set | by left] | done].
    + by right.
    + intros _. cbn. rewrite Hun. by apply (wi_slot _ _ Hi).
    + unfold slot_clones. cbn. unfold wpc_of, slot. cbn. rewrite pc_at_eq, Hun. cbn. exact Hl.
Qed.

(** Inside the lock. *)
Lemma register_locked k c ph : waker_inv c ph ->
  match wpc_of c 0 with RgOld _ _ _ | RgData _ _ _ | RgPublish _ _ _ => True | _ => False end -> register_safe k c.
Proof.
  intros Hi Hpc. pose proof (wi_reg _ _ Hi) as Hr. pose proof (wi_vtable _ _ Hi) as Hv.
  unfold register_safe. destruct (wpc_of c 0) as [] eqn:Hp; try done; cbn in *; pose proof (ledger_reg _ _ _ Hi Hp) as Hl;
    destruct Hr as (Hlk & Hok & Hr).
  - subst clean. pose proof (locked_not_taking _ _ _ Hlk) as Hn.
    assert (Hu : slot_used c ph = true) by (destruct Hlk as [_ [[-> _] | ->]]; cbn; by rewrite Hp).
    pose proof (wi_slot _ _ Hi Hu) as Hsv. cbn in Hsv. rewrite (proj2 (Z.eqb_neq _ _) Hsv).
    unfold slot_clones in Hl. rewrite Hu in Hl. cbn [app option_list held] in Hl.
    destruct (drop_waker_in c (slot c) _ Hl) as (live & He & Hlv). cbn [negb]. unfold slot in He. rewrite He, bind_ret.
    eexists _, ph. split; [done |].
    assert (Hu' : slot_used (at_pc (own_clone (mkWConfig (wf_cell c) (wf_pcs c) live (wf_woken c) (wf_flag c)) (waker_clone w))
      0 (RgData w (waker_clone w) registering)) ph = false).
    { destruct Hlk as [_ [[-> _] | ->]]; cbn; unfold wpc_of; cbn; by rewrite pc_at_eq. }
    eapply (reg_moves _ _ _ _ _ Hi); [reflexivity | ..]; try done.
    + by left.
    + unfold slot_clones. rewrite Hu'. cbn. by rewrite Hlv.
    + intros ->. by destruct Hlk as [_ [[? _] | ?]].
  - subst owned. eexists _, ph. split; [done |]. pose proof (locked_not_taking _ _ _ Hlk) as Hn.
    assert (Hu : slot_used c ph = false) by (eapply unused_locked; [done | by rewrite Hp]).
    assert (Hu' : slot_used (at_pc (set_wdata c (wk_data (waker_clone w))) 0 (RgPublish w (waker_clone w) registering)) ph = false)
      by (destruct Hlk as [_ [[-> _] | ->]]; cbn; unfold wpc_of; cbn; by rewrite pc_at_eq).
    eapply (reg_moves _ _ _ _ _ Hi); [reflexivity | ..]; try done.
    + by right.
    + by rewrite Hu'.
    + unfold slot_clones in *. rewrite Hu' in *. rewrite Hu in Hl. exact Hl.
    + intros ->. by destruct Hlk as [_ [[? _] | ?]].
  - destruct Hr as [-> Hd]. pose proof (locked_not_taking _ _ _ Hlk) as Hn.
    assert (Hu : slot_used c ph = false) by (eapply unused_locked; [done | by rewrite Hp]).
    destruct (Z.eqb_spec (wc_vtable (wf_cell c)) registering) as [He | He].
    + eexists _, PhFull. split; [done |]. apply (publish_inv c ph); try done. by rewrite Hp.
    + destruct Hlk as [Htr [[_ ?] | ->]]; [done |]. cbn in Hv. rewrite Hv. cbn. eexists _, PhNotified. split; [done |].
      quiet Hi.
Qed.

(** Publishing without the lock, and the cache. *)
Lemma register_publish k c ph : waker_inv c ph ->
  match wpc_of c 0 with RgDirectData _ _ | RgDirectVt _ _ | RgSaveVt _ | RgSaveData _ => True | _ => False end ->
  register_safe k c.
Proof.
  intros Hi Hpc. pose proof (wi_reg _ _ Hi) as Hr. pose proof (wi_cache _ _ Hi) as Hc. pose proof (wi_wait _ _ Hi) as Hw.
  unfold register_safe. destruct (wpc_of c 0) as [] eqn:Hp; try done; cbn in *; pose proof (ledger_reg _ _ _ Hi Hp) as Hl.
  - destruct Hr as (-> & Hok & ->). eexists _, PhEmpty. split; [done |].
    eapply (reg_moves _ _ _ _ _ Hi); [reflexivity | ..]; try done; [by apply (wi_vtable _ _ Hi) | by right].
  - destruct Hr as (-> & Hok & -> & Hd). eexists _, PhFull. split; [done |].
    apply (publish_inv c PhEmpty); try done. by rewrite Hp.
  - destruct Hr as (Hf & Hok). eexists _, ph. split; [done |]. quiet Hi.
    destruct Hw as [Hw | Hw]; [left; by eapply due_reg | right; by eapply registered_reg].
  - destruct Hr as (Hf & Hok & Hcv). eexists _, ph. split; [done |]. quiet Hi.
    + cbn. intros He. rewrite (slot_same c) by done. rewrite (Hc He). unfold cached. cbn. rewrite Hcv. by destruct w.
    + destruct Hw as [Hw | Hw]; [left; by eapply due_reg | right; by eapply registered_reg].
Qed.

(** A wake-up came in between. *)
Lemma register_failed k c ph : waker_inv c ph ->
  match wpc_of c 0 with
  | RgFailVt _ _ | RgFailData _ _ | RgFailCacheVt _ _ | RgFailCacheData _ _ | RgFailWake _ _ => True
  | _ => False
  end -> register_safe k c.
Proof.
  intros Hi Hpc. pose proof (wi_reg _ _ Hi) as Hr.
  unfold register_safe. destruct (wpc_of c 0) as [] eqn:Hp; try done; cbn in *; pose proof (ledger_reg _ _ _ Hi Hp) as Hl;
    destruct Hr as (-> & Hok & ->).
  - eexists _, PhEmpty. split; [done |]. eapply (reg_moves _ _ _ _ _ Hi); [reflexivity | ..]; try done; [by right |].
    unfold slot_clones in Hl. cbn in Hl. rewrite Hp in Hl. exact Hl.
  - eexists _, PhEmpty. split; [done |].
    eapply (reg_moves _ _ _ _ _ Hi); [reflexivity | ..]; try done; [by apply (wi_vtable _ _ Hi) | by right].
  - eexists _, PhEmpty. split; [done |]. quiet Hi.
  - eexists _, PhEmpty. split; [done |]. quiet Hi.
  - unfold wake_waker. destruct (drop_waker_in c (waker_clone w) _ Hl) as (live & -> & Hlv). rewrite !bind_ret.
    eexists _, PhEmpty. split; [done |].
    eapply (reg_moves _ _ _ _ _ Hi); [reflexivity | ..]; try done; [by apply (wi_vtable _ _ Hi) | by left |].
    left. left. right. cbn. set_solver.
Qed.

Lemma register_step_inv k c ph : waker_inv c ph -> register_safe k c.
Proof.
  intros Hi. destruct (wpc_of c 0) as [] eqn:Hp;
    first [eapply register_entry; [exact Hi | by rewrite Hp] | eapply register_lock; [exact Hi | by rewrite Hp]
      | eapply register_locked; [exact Hi | by rewrite Hp] | eapply register_publish; [exact Hi | by rewrite Hp]
      | eapply register_failed; [exact Hi | by rewrite Hp] | exists c, ph; rewrite Hp; done].
Qed.

(** *** The waking threads *)

Lemma reg_ok_free c c' ph ph' pc : reg_ok c ph pc -> reg_free ph -> reg_free ph' -> ph' <> PhFull -> (ph = PhEmpty -> ph' = PhEmpty) ->
  wc_cached_vtable (wf_cell c') = wc_cached_vtable (wf_cell c) -> wc_cached_data (wf_cell c') = wc_cached_data (wf_cell c) ->
  (ph = PhEmpty -> same_slot c c') -> reg_ok c' ph' pc.
Proof.
  intros Hr Hf Hf' Hnf He Hv Hd Hs. unfold same_slot in Hs.
  destruct pc; cbn in *; unfold cached, reg_locked in *; rewrite ?Hv, ?Hd; try naive_solver;
    destruct Hr as (-> & Hw & -> & Hx); destruct (Hs eq_refl) as [_ ->]; auto.
Qed.

Lemma reg_ok_cell c c' ph pc : wf_cell c' = wf_cell c -> reg_ok c ph pc -> reg_ok c' ph pc.
Proof. intros He. destruct pc; cbn; unfold reg_locked, cached; by rewrite ?He. Qed.

Lemma take_ok_cell c c' ph t pc : wf_cell c' = wf_cell c -> take_ok c ph t pc -> take_ok c' ph t pc.
Proof. intros He. destruct pc; cbn; by rewrite ?He. Qed.

Lemma cache_ok_moves c c' ph ph' pc : cache_ok c ph pc -> (ph' = PhFull -> ph = PhFull /\ wf_cell c' = wf_cell c) ->
  cache_ok c' ph' pc.
Proof.
  intros Hc Hf. assert (forall (P : Prop), (ph = PhFull -> P) -> ph' = PhFull -> P) as HP by (intros P HP H; apply HP, Hf, H).
  destruct pc; cbn in *; unfold slot, cached in *; intros H; destruct (Hf H) as [H1 ->]; by apply Hc.
Qed.

Definition is_take_data (pc : waker_pc) : bool := match pc with TkData _ => true | _ => false end.

Lemma due_take c c' t pc' w : wf_pcs c' = <[t := pc']> (wf_pcs c) ->
  (forall x, x ∈ wf_woken c -> x ∈ wf_woken c') ->
  (forall x, carries c t x -> carries c' t x \/ x ∈ wf_woken c') ->
  (same_slot c c' \/ forall t', t' <> t -> t' <> 0%nat -> is_take_data (wpc_of c t') = false) -> due c w -> due c' w.
Proof.
  intros Hp Hw Hct Hs [[Hin | Hin] | (t' & Ht' & Hc)]; [left; left; auto | left; right; auto |].
  destruct (decide (t' = t)) as [-> | Hne].
  - destruct (Hct _ Hc) as [Hc' | Hin]; [right; by exists t | left; by right].
  - right. exists t'. split; [done |]. unfold carries in *. rewrite (wpc_move _ _ _ _ _ Hp), decide_False by done.
    destruct Hs as [Hs | Hs]; [by rewrite (slot_same _ _ Hs) |]. specialize (Hs t' Hne Ht'). by destruct (wpc_of c t').
Qed.

(** The waiting task, after a step of a waking thread. *)
Lemma wait_moves c c' ph ph' t pc' pc : wait_ok c ph pc -> t <> 0%nat -> wf_pcs c' = <[t := pc']> (wf_pcs c) ->
  (forall w, due c w -> due c' w) -> (forall w, registered c ph w -> due c' w \/ registered c' ph' w) ->
  (ph' = PhFull -> undecided pc' \/ wf_flag c' = wf_flag c /\ ~ undecided (wpc_of c t)) -> wait_ok c' ph' pc.
Proof.
  intros Hw Ht Hp Hd Hr Hu. destruct pc; try done; cbn in *; try (destruct Hw as [Hw | Hw]; [left; by auto | by apply Hr]).
  destruct Hw as [Hw | [Hw Hf]]; [by left; auto |]. destruct (Hr _ Hw) as [? | Hr']; [by left |]. right. split; [done |].
  destruct (Hu (proj1 Hr')) as [Hu' | [Hfl Hnu]].
  - right. exists t. split; [done |]. by rewrite (wpc_move _ _ _ _ _ Hp), decide_True.
  - rewrite Hfl. destruct Hf as [Hf | (t' & Ht' & Hu')]; [by left |]. right. exists t'. split; [done |].
    rewrite (wpc_move _ _ _ _ _ Hp). destruct (decide (t' = t)) as [-> |]; done.
Qed.

(** Steps that leave cell and clones alone. *)
Lemma take_quiet c c' ph t pc' : waker_inv c ph -> t <> 0%nat -> wf_pcs c' = <[t := pc']> (wf_pcs c) ->
  wf_cell c' = wf_cell c -> wf_live c' = wf_live c -> wf_woken c' = wf_woken c -> held pc' = held (wpc_of c t) ->
  is_take_data pc' = false -> is_take_data (wpc_of c t) = false ->
  take_ok c' ph t pc' ->
  (ph = PhFull -> undecided pc' \/ wf_flag c' = wf_flag c /\ ~ undecided (wpc_of c t)) -> waker_inv c' ph.
Proof.
  intros Hi Ht Hp Hc Hl Hw Hh Hd Hd' Hok Hu. assert (Hs : same_slot c c') by (split; by rewrite Hc).
  assert (Hsu : slot_used c' ph = slot_used c ph).
  { destruct ph as [| | | | u]; cbn; try done; rewrite (wpc_move _ _ _ _ _ Hp); [by rewrite decide_False.. |].
    destruct (decide (u = t)) as [-> |]; [| done]. by destruct pc', (wpc_of c t). }
  assert (Hdue : forall w, due c w -> due c' w).
  { intros w. eapply due_take; [exact Hp | by rewrite Hw | | by left]. intros x Hx. left. unfold carries in *.
    rewrite (wpc_move _ _ _ _ _ Hp), decide_True by done. rewrite (slot_same _ _ Hs).
    destruct pc', (wpc_of c t); cbn in *; congruence. }
  eapply (take_moves c c' ph ph t pc' Hi Ht Hp).
  - rewrite Hc. by apply Hi.
  - eapply reg_ok_cell; [exact Hc |]. by apply Hi.
  - done.
  - intros t' Hne Ht'. eapply take_ok_cell; [exact Hc |]. by apply Hi.
  - rewrite Hsu, (slot_same _ _ Hs). by apply Hi.
  - unfold slot_clones. rewrite Hsu, (slot_same _ _ Hs), Hl, Hh. by apply (wi_ledger _ _ Hi t).
  - eapply cache_ok_moves; [by apply Hi |]. by rewrite Hc.
  - eapply wait_moves; [by apply Hi | done.. | |]; [| exact Hu]. intros w [-> Hr]. right. split; [done |].
    by rewrite (slot_same _ _ Hs).
Qed.

Lemma take_dispatch_inv c ph t : waker_inv c ph -> t <> 0%nat -> undecided (wpc_of c t) ->
  waker_inv (take_dispatch c t (wc_vtable (wf_cell c))) ph.
Proof.
  intros Hi Ht Hu. pose proof (wi_take _ _ Hi t Ht) as Hok. pose proof (wi_vtable _ _ Hi) as Hv.
  assert (Hnt : ph <> PhTaking t) by (destruct (wpc_of c t); cbn in Hu, Hok; naive_solver).
  assert (Hhd : held (wpc_of c t) = None /\ is_take_data (wpc_of c t) = false) by (by destruct (wpc_of c t)).
  destruct Hhd as [Hh Hd]. unfold take_dispatch. destruct (_ || _) eqn:He.
  - eapply (take_quiet _ _ _ _ _ Hi Ht); [reflexivity | ..]; try done; [| by left].
    split; [done |]. apply orb_true_iff in He as [He | He]; apply Z.eqb_eq in He; auto.
  - eapply (take_quiet _ _ _ _ _ Hi Ht); [reflexivity | ..]; try done.
    intros ->. cbn in Hv. by rewrite Hv in He.
Qed.

Lemma not_taking_data c ph t' : waker_inv c ph -> t' <> 0%nat -> ph <> PhTaking t' -> is_take_data (wpc_of c t') = false.
Proof. intros Hi Ht Hn. pose proof (wi_take _ _ Hi t' Ht) as H. destruct (wpc_of c t'); cbn in *; naive_solver. Qed.

(** The decision to wake. *)
Lemma take_cas_inv c ph t v : waker_inv c ph -> t <> 0%nat -> wpc_of c t = TkCas v ->
  exists c' ph', wake_step c t (TkCas v) = Ret c' /\ waker_inv c' ph'.
Proof.
  intros Hi Ht Hp. pose proof (wi_take _ _ Hi t Ht) as Hok. pose proof (wi_vtable _ _ Hi) as Hv. pose proof (wi_reg _ _ Hi) as Hr.
  rewrite Hp in Hok. cbn in Hok |- *. destruct Hok as [Hnt Htag].
  destruct (Z.eqb_spec (wc_vtable (wf_cell c)) v) as [<- | Hne].
  2: { eexists _, ph. split; [done |]. apply take_dispatch_inv; [done | done | by rewrite Hp]. }
  assert (Hun : tag_unset (tag_set (wc_vtable (wf_cell c)) WAKING) TAG_MASK = tag_unset (wc_vtable (wf_cell c)) TAG_MASK)
    by (by rewrite tag_unset_set).
  pose proof (wi_ledger _ _ Hi t) as Hl. rewrite Hp in Hl. cbn [held option_list app] in Hl.
  destruct Htag as [Htag | Htag]; rewrite Htag; cbn [Z.eqb REGISTERED REGISTERING Pos.eqb].
  - assert (ph = PhLocked) as ->.
    { destruct ph; cbn in Hv; try done; try by rewrite Htag in Hv. pose proof noop_aligned as [_ Hna]. by rewrite Hv, Hna in Htag. }
    eexists _, PhNotified. split; [done |]. eapply (take_moves _ _ _ PhNotified _ _ Hi Ht); [reflexivity | ..]; try done.
    + cbn. by rewrite tag_of_set.
    + destruct (wpc_of c 0); cbn in *; unfold reg_locked in *; rewrite ?Hun; naive_solver.
    + intros t' _ Ht'. eapply take_ok_moves; [by apply Hi | by right].
    + cbn. unfold wpc_of. cbn. rewrite pc_at_ne by done. rewrite Hun. by apply (wi_slot _ _ Hi).
    + unfold slot_clones, slot in *. cbn in *. rewrite Hun. unfold wpc_of in *. cbn in *. by rewrite pc_at_ne.
    + eapply cache_ok_moves; [by apply Hi | done].
    + destruct (wpc_of c 0); cbn in Hr |- *; done || (by destruct Hr).
  - assert (ph = PhFull) as ->.
    { destruct ph; cbn in Hv; try done; try by rewrite Htag in Hv. pose proof noop_aligned as [_ Hna]. by rewrite Hv, Hna in Htag. }
    eexists _, (PhTaking t). split; [done |].
    set (c' := at_pc _ t _).
    assert (Hs : slot c' = slot c) by (unfold slot; cbn; by rewrite Hun).
    assert (Hpt : wpc_of c' t = TkData (tag_unset (wc_vtable (wf_cell c)) TAG_MASK)) by (unfold wpc_of; cbn; by rewrite pc_at_eq).
    eapply (take_moves _ c' _ (PhTaking t) t _ Hi Ht); [reflexivity | ..]; try done.
    + cbn. by rewrite tag_of_set.
    + by eapply reg_ok_free.
    + intros t' Hne Ht'. pose proof (wi_take _ _ Hi t' Ht') as H. destruct (wpc_of c t'); cbn in *; naive_solver.
    + rewrite Hs. intros _. by apply (wi_slot _ _ Hi).
    + unfold slot_clones. cbn [slot_used]. rewrite Hpt, Hs. exact Hl.
    + eapply cache_ok_moves; [by apply Hi | done].
    + eapply wait_moves; [by apply Hi | done | reflexivity | | | done].
      * intros w. eapply due_take; [reflexivity | done | |].
        -- unfold carries. rewrite Hp. done.
        -- right. intros t' _ Ht'. by eapply not_taking_data.
      * intros w [_ Hreg]. left. right. exists t. split; [done |]. unfold carries. rewrite Hpt, Hs. done.
Qed.

(** The steps of the thread that owns the cell. *)
Lemma taking_moves c c' t pc' ph' : waker_inv c (PhTaking t) -> t <> 0%nat -> wf_pcs c' = <[t := pc']> (wf_pcs c) ->
  wc_cached_vtable (wf_cell c') = wc_cached_vtable (wf_cell c) -> wc_cached_data (wf_cell c') = wc_cached_data (wf_cell c) ->
  ph' = PhEmpty \/ ph' = PhTaking t -> phase_vtable ph' (wc_vtable (wf_cell c')) -> take_ok c' ph' t pc' ->
  slot_used c' ph' = false -> wf_live c' = wf_live c -> wf_woken c' = wf_woken c ->
  (exists x, held pc' = Some x /\ forall y, carries c t y <-> y = x) -> is_take_data pc' = false ->
  waker_inv c' ph'.
Proof.
  intros Hi Ht Hp Hcv Hcd Hph Hv Hok Hu Hl Hw (x & Hh & Hcar) Hnd.
  pose proof (wi_reg _ _ Hi) as Hr.
  assert (Hf' : reg_free ph') by (destruct Hph as [-> | ->]; done).
  eapply (take_moves c c' _ ph' t pc' Hi Ht Hp); try done.
  - by eapply reg_ok_free; [| | | by destruct Hph as [-> | ->] | ..].
  - intros t' Hne Ht'. pose proof (wi_take _ _ Hi t' Ht') as H.
    destruct Hph as [-> | ->], (wpc_of c t'); cbn in *; naive_solver.
  - by rewrite Hu.
  - unfold slot_clones. rewrite Hu, Hl, Hh. pose proof (wi_ledger _ _ Hi t) as Hlg.
    assert (carries c t x) as Hx by (by apply Hcar). rewrite Hlg. unfold slot_clones, slot_used. unfold carries in Hx.
    destruct (wpc_of c t); cbn in *; congruence || (injection Hx as ->; done) || (rewrite Hx; done).
  - eapply cache_ok_moves; [by apply Hi |]. intros ->. by destruct Hph.
  - eapply wait_moves; [by apply Hi | exact Ht | exact Hp | | |].
    + intros w. eapply due_take; [exact Hp | by rewrite Hw | |].
      * intros y Hy. apply Hcar in Hy as ->. left. unfold carries. rewrite (wpc_move _ _ _ _ _ Hp), decide_True by done.
        by destruct pc'.
      * right. intros t' Hne Ht'. eapply not_taking_data; [exact Hi | done | congruence].
    + by intros w [? _].
    + intros ->. by destruct Hph.
Qed.

Lemma wake_step_inv c ph t : waker_inv c ph -> t <> 0%nat ->
  exists c' ph', wake_step c t (wpc_of c t) = Ret c' /\ waker_inv c' ph'.
Proof.
  intros Hi Ht. pose proof (wi_take _ _ Hi t Ht) as Hok. destruct (wpc_of c t) as [] eqn:Hp; cbn in Hok; try done.
  - by exists c, ph.
  - eexists _, ph. split; [done |]. apply take_dispatch_inv; [done.. | by rewrite Hp].
  - by eapply take_cas_inv.
  - destruct Hok as [-> ->]. eexists _, (PhTaking t). split; [done |].
    eapply (taking_moves _ _ _ _ _ Hi Ht); [reflexivity | ..]; try done.
    + by right.
    + by apply (wi_vtable _ _ Hi).
    + cbn. unfold wpc_of. cbn. by rewrite pc_at_eq.
    + exists (slot c). split; [done |]. intros y. unfold carries. rewrite Hp. split; congruence.
  - subst ph. eexists _, (PhTaking t). split; [done |].
    eapply (taking_moves _ _ _ _ _ Hi Ht); [reflexivity | ..]; try done.
    + by right.
    + by apply (wi_vtable _ _ Hi).
    + cbn. unfold wpc_of. cbn. by rewrite pc_at_eq.
    + exists taken. split; [done |]. intros y. unfold carries. rewrite Hp. cbn. split; congruence.
  - subst ph. eexists _, PhEmpty. split; [done |].
    eapply (taking_moves _ _ _ _ _ Hi Ht); [reflexivity | ..]; try done.
    + by left.
    + exists taken. split; [done |]. intros y. unfold carries. rewrite Hp. cbn. split; congruence.
  - cbn. unfold wake_waker. pose proof (wi_ledger _ _ Hi t) as Hl. rewrite Hp in Hl. cbn in Hl.
    rewrite Permutation_app_comm in Hl. cbn in Hl.
    destruct (drop_waker_in c taken _ Hl) as (live & -> & Hlv). rewrite !bind_ret. eexists _, ph. split; [done |].
    set (c' := at_pc _ t _).
    assert (Hsu : slot_used c' ph = slot_used c ph).
    { destruct ph as [| | | | u]; cbn; try done; unfold wpc_of; cbn; rewrite pc_at_ne; congruence. }
    eapply (take_moves c c' ph ph t _ Hi Ht); [reflexivity | ..]; try done.
    + by apply (wi_vtable _ _ Hi).
    + by eapply reg_ok_cell, (wi_reg _ _ Hi).
    + intros t' _ Ht'. by eapply take_ok_cell, (wi_take _ _ Hi).
    + rewrite Hsu. by apply (wi_slot _ _ Hi).
    + unfold slot_clones in *. rewrite Hsu. cbn. rewrite Hlv. by rewrite Permutation_app_comm.
    + by eapply cache_ok_moves; [apply Hi |].
    + eapply wait_moves; [by apply Hi | done | reflexivity | ..].
      * intros w. eapply due_take; [reflexivity | cbn; set_solver | | by left].
        intros x. unfold carries. rewrite Hp. cbn. intros [= ->]. right. set_solver.
      * intros w Hr. by right.
      * intros _. right. by rewrite Hp; split; [| intros []].
Qed.

(** *** Every action *)

Lemma waker_start_inv : waker_inv waker_start PhEmpty.
Proof.
  assert (Hp : forall t, wpc_of waker_start t = WkIdle) by done. split; try done.
  - intros t _. by rewrite Hp.
  - by rewrite Hp.
Qed.

Lemma waker_exec_inv k c ph t a : waker_inv c ph -> action_ok t a ->
  exists c' ph', waker_exec k c t a = Ret c' /\ waker_inv c' ph'.
Proof.
  intros Hi Ha. destruct a as [w | | |]; cbn in Ha.
  - destruct Ha as [-> Hw]. pose proof (wi_reg _ _ Hi) as Hr. pose proof (wi_cache _ _ Hi) as Hc.
    unfold waker_exec. destruct (wpc_of c 0) as [] eqn:Hp; try (by exists c, ph); cbn in Hr;
      (eexists _, ph; split; [done |]; quiet Hi; naive_solver).
  - unfold waker_exec. destruct (wpc_of c t) as [] eqn:Hp; try (by exists c, ph).
    eexists _, ph. split; [done |]. pose proof (wi_take _ _ Hi t Ha) as Hok. rewrite Hp in Hok.
    eapply (take_quiet _ _ _ _ _ Hi Ha); [reflexivity | ..]; rewrite ?Hp; try done. by left.
  - unfold waker_exec. destruct (wpc_of c t) as [] eqn:Hp; try (by exists c, ph).
    eexists _, ph. split; [done |]. pose proof (wi_take _ _ Hi t Ha) as Hok. rewrite Hp in Hok.
    eapply (take_quiet _ _ _ _ _ Hi Ha); [reflexivity | ..]; rewrite ?Hp; try done. by left.
  - destruct (decide (t = 0%nat)) as [-> | Hne].
    + destruct (register_step_inv k c ph Hi) as (c' & ph' & He & Hi'). exists c', ph'. split; [| done].
      pose proof (wi_reg _ _ Hi) as Hr. unfold waker_exec. destruct (wpc_of c 0); done.
    + destruct (wake_step_inv c ph t Hi Hne) as (c' & ph' & He & Hi'). exists c', ph'. split; [| done].
      pose proof (wi_take _ _ Hi t Hne) as Hok. unfold waker_exec. destruct (wpc_of c t); done.
Qed.

Lemma waker_reach_inv k c : waker_reach k c -> exists ph, waker_inv c ph.
Proof.
  apply (reach_invariant _ _ _ (fun c => exists ph, waker_inv c ph)); [exists PhEmpty; apply waker_start_inv |]. intros c1 t a c2 [ph Hi] Ha He.
  destruct (waker_exec_inv k c1 ph t a Hi Ha) as (c3 & ph' & He' & Hi'). rewrite He in He'. injection He' as <-. by exists ph'.
Qed.

(** A thread outside of every call. *)
Definition at_rest (pc : waker_pc) : Prop := match pc with WkIdle | RgPending _ => True | _ => False end.

Lemma others_rest c t : (forall t', at_rest (wpc_of c t')) -> others t (wf_pcs c) = [].
Proof.
  intros Hr. unfold others. replace (omap held (delete t (wf_pcs c))) with (∅ : gmap nat Waker); [by rewrite map_to_list_empty |].
  apply map_eq. intros i. rewrite lookup_empty, lookup_omap. destruct (decide (i = t)) as [-> | Hne]; [by rewrite lookup_delete_eq |].
  rewrite lookup_delete_ne by done. specialize (Hr i). unfold wpc_of, pc_at in Hr. destruct (wf_pcs c !! i) as [[] |]; done.
Qed.

(** C23 The waker cells are memory safe with one registering task and any number
    of waking threads, in every interleaving of their accesses: a waker that is
    rebuilt from the cell to be woken or dropped is always a clone that is still
    alive, the debug assertion of the registration holds, and when all calls have
    ended and the cell is dropped, no clone is left over. *)
Theorem waker_cell_safe k c t a (Hc : waker_reach k c) (Ha : action_ok t a) :
  (exists c', waker_exec k c t a = Ret c') /\
  ((forall t', at_rest (wpc_of c t')) -> exists c', waker_cell_drop c = Ret c' /\ wf_live c' = []).
Proof.
  destruct (waker_reach_inv k c Hc) as [ph Hi]. split.
  { destruct (waker_exec_inv k c ph t a Hi Ha) as (c' & _ & He & _). by exists c'. }
  intros Hr. pose proof (wi_ledger _ _ Hi 0) as Hl. rewrite (others_rest c 0 Hr) in Hl.
  pose proof (wi_vtable _ _ Hi) as Hv. pose proof (wi_reg _ _ Hi) as Hreg.
  assert (held (wpc_of c 0) = None) as Hh by (specialize (Hr 0%nat); by destruct (wpc_of c 0)).
  rewrite Hh in Hl. unfold waker_cell_drop. destruct ph as [| | | | u].
  - cbn in Hv. rewrite Hv. destruct noop_aligned as [_ ->]. cbn. exists c. split; [done |]. by apply Permutation_nil_r.
  - cbn in Hv. rewrite Hv. cbn [Z.eqb REGISTERED Pos.eqb]. pose proof (wi_slot _ _ Hi eq_refl) as Hs. cbn in Hs.
    rewrite (proj2 (Z.eqb_neq _ _) Hs). cbn [negb]. destruct (drop_waker_in c (slot c) [] Hl) as (live & He & Hlv).
    unfold slot in He. rewrite He. eexists. split; [done |]. by apply Permutation_nil_r.
  - specialize (Hr 0%nat). destruct (wpc_of c 0); cbn in *; try done; by destruct Hreg.
  - specialize (Hr 0%nat). destruct (wpc_of c 0); cbn in *; try done; by destruct Hreg.
  - assert (u <> 0%nat) as Hu by (specialize (Hr 0%nat); destruct (wpc_of c 0); cbn in *; try done; by destruct Hreg).
    pose proof (wi_take _ _ Hi u Hu) as Hok. specialize (Hr u). by destruct (wpc_of c u).
Qed.

(** C24 No wake-up is lost: in every interleaving, when a task registered its
    waker and then found its condition unset, and the condition was set since
    and all calls of [wake] have returned, then the task's waker was woken after
    the registration began. *)
Theorem waker_no_lost_wakeup k c w (Hc : waker_reach k c) (Hw : wpc_of c 0 = RgPending w)
    (Hf : wf_flag c = true) (Hr : forall t, t <> 0%nat -> wpc_of c t = WkIdle) :
  w ∈ wf_woken c \/ waker_clone w ∈ wf_woken c.
Proof.
  destruct (waker_reach_inv k c Hc) as [ph Hi]. pose proof (wi_wait _ _ Hi) as Hwt. rewrite Hw in Hwt. cbn in Hwt.
  destruct Hwt as [[Hwk | (t & Ht & Hca)] | [_ [Hfl | (t & Ht & Hu)]]]; [exact Hwk | | congruence |].
  - unfold carries in Hca. by rewrite (Hr t Ht) in Hca.
  - by rewrite (Hr t Ht) in Hu.
Qed.

(** *** Registration is wait-free *)

(** The accesses a registration still has to make, at most. *)
Definition rank (pc : waker_pc) : Z :=
  match pc with
  | RgCacheVt _ => 14 | RgCacheData _ _ => 13 | RgFast _ => 12 | RgLoad _ => 11
  | RgRelock _ _ => 10 | RgLock _ _ | RgOld _ _ _ => 9 | RgData _ _ _ => 8 | RgPublish _ _ _ => 7
  | RgDirectData _ _ => 5 | RgDirectVt _ _ => 4 | RgSaveVt _ => 3 | RgSaveData _ => 2
  | RgFailVt _ _ => 6 | RgFailData _ _ => 5 | RgFailCacheVt _ _ => 4 | RgFailCacheData _ _ => 3 | RgFailWake _ _ => 2
  | RgReturned _ => 1
  | _ => 0
  end.

Lemma wpc_at_pc c t pc : wpc_of (at_pc c t pc) t = pc.
Proof. rewrite (wpc_move c _ t pc t) by done. by rewrite decide_True. Qed.

(** With the cell in a phase where nobody holds the lock, the loop is entered once. *)
Lemma dispatch_rank k c ph w : waker_inv c ph -> reg_free ph ->
  rank (wpc_of (dispatch k c 0 w (wc_vtable (wf_cell c))) 0) <= match ph with PhFull => 10 | _ => 9 end.
Proof.
  intros Hi Hf. pose proof (wi_vtable _ _ Hi) as Hv. destruct ph as [| | | | u]; cbn in Hv, Hf; try done.
  - rewrite Hv. destruct noop_aligned as [_ Hn]. destruct k; cbn [dispatch]; unfold register_dispatch, mwsr_dispatch;
      rewrite Hn, (Z.eqb_refl NOOP_PTR); cbn [Z.eqb andb WAKING REGISTERING]; by rewrite wpc_at_pc.
  - destruct k; cbn [dispatch]; unfold register_dispatch, mwsr_dispatch; rewrite Hv;
      cbn [Z.eqb andb WAKING REGISTERING REGISTERED Pos.eqb]; by rewrite wpc_at_pc.
  - destruct k; cbn [dispatch]; unfold register_dispatch, mwsr_dispatch; rewrite Hv;
      cbn [Z.eqb andb WAKING REGISTERING REGISTERED Pos.eqb]; by rewrite wpc_at_pc.
Qed.

Lemma register_rank k c ph c' : waker_inv c ph -> register_step k c 0 (wpc_of c 0) = Ret c' ->
  rank (wpc_of c' 0) <= Z.max 0 (rank (wpc_of c 0) - 1).
Proof.
  intros Hi He. pose proof (wi_reg _ _ Hi) as Hr. pose proof (wi_vtable _ _ Hi) as Hv.
  destruct (wpc_of c 0) as [] eqn:Hp; cbn in He, Hr; try done;
    try (injection He as <-; rewrite ?Hp; rewrite ?wpc_at_pc; done).
  - destruct (_ && _); injection He as <-; by rewrite wpc_at_pc.
  - destruct (_ =? _); injection He as <-; by rewrite wpc_at_pc.
  - injection He as <-. pose proof (dispatch_rank k c ph w Hi (proj1 Hr)). destruct ph; cbn; lia.
  - destruct Hr as (-> & _ & ->). cbn in Hv. rewrite Hv, Z.eqb_refl in He. injection He as <-. by rewrite wpc_at_pc.
  - destruct Hr as (Hf & _ & _ & Hfull). destruct (Z.eqb_spec (wc_vtable (wf_cell c)) vtable) as [Heq | Hne];
      injection He as <-; [by rewrite wpc_at_pc |].
    pose proof (dispatch_rank k c ph w Hi Hf) as Hd. destruct ph; try (cbn; lia). by rewrite Hfull in Hne.
  - destruct (negb _); [destruct (drop_waker c _); [| done] |]; injection He as <-; by rewrite wpc_at_pc.
  - destruct (_ =? _); [injection He as <-; by rewrite wpc_at_pc |]. destruct (assert _); [| done].
    injection He as <-. by rewrite wpc_at_pc.
  - unfold wake_waker in He. destruct (drop_waker c owned); [| done]. injection He as <-. by rewrite wpc_at_pc.
  - injection He as <-. rewrite wpc_at_pc. by destruct (wf_flag c).
Qed.

Lemma wpc_at_other c t pc : t <> 0%nat -> wpc_of (at_pc c t pc) 0 = wpc_of c 0.
Proof. intros Ht. rewrite (wpc_move c _ t pc 0) by done. by rewrite decide_False. Qed.

Lemma exec_other k c ph t a c' : waker_inv c ph -> t <> 0%nat -> waker_exec k c t a = Ret c' ->
  action_ok t a -> wpc_of c' 0 = wpc_of c 0.
Proof.
  intros Hi Ht He Ha. pose proof (wi_take _ _ Hi t Ht) as Hok. unfold waker_exec in He.
  assert (Hd : forall v, wpc_of (take_dispatch c t v) 0 = wpc_of c 0)
    by (intros v; unfold take_dispatch; destruct (_ || _); by apply wpc_at_other).
  destruct a, (wpc_of c t); cbn in He, Hok, Ha; try done; try (by destruct Ha); try (by injection He as <-);
    try (injection He as <-; by rewrite wpc_at_other).
  - injection He as <-. unfold wpc_of. cbn. by rewrite pc_at_ne.
  - destruct (_ =? _); [destruct (_ =? _) |]; injection He as <-; [by rewrite wpc_at_other.. | apply Hd].
  - unfold wake_waker, drop_waker in He. destruct (remove_one taken (wf_live c)); [| done]. injection He as <-.
    by rewrite wpc_at_other.
Qed.

(** What the threads do while a registration runs. *)
Definition sched_ok (p : nat * waker_action) : Prop := action_ok p.1 p.2 /\ forall w, p.2 <> ARegister w.
Definition own_steps (sched : list (nat * waker_action)) : Z :=
  Z.of_nat (length (filter (fun p => p.1 = 0%nat) sched)).

Lemma run_rank k sched : forall c ph, waker_inv c ph -> Forall sched_ok sched ->
  exists c', waker_run k c sched = Ret c' /\ rank (wpc_of c' 0) <= Z.max 0 (rank (wpc_of c 0) - own_steps sched).
Proof.
  induction sched as [| [t a] sched IH]; intros c ph Hi Hs.
  { exists c. split; [done |]. unfold own_steps. cbn. lia. }
  apply Forall_cons in Hs as [[Ha Hn] Hs]. cbn in Ha, Hn.
  destruct (waker_exec_inv k c ph t a Hi Ha) as (c1 & ph1 & He & Hi1). destruct (IH c1 ph1 Hi1 Hs) as (c' & Hrun & Hrank).
  exists c'. cbn [waker_run run]. rewrite He, bind_ret. split; [done |]. unfold own_steps in *.
  destruct (decide (t = 0%nat)) as [-> | Hne].
  - rewrite filter_cons_True by done. cbn [length].
    assert (Hr : rank (wpc_of c1 0) <= Z.max 0 (rank (wpc_of c 0) - 1)); [| lia].
    destruct a; cbn in Ha; [by destruct (Hn w) | done.. |].
    eapply (register_rank k c ph); [exact Hi |]. pose proof (wi_reg _ _ Hi) as Hreg. unfold waker_exec in He.
    by destruct (wpc_of c 0).
  - rewrite filter_cons_False by done. rewrite <- (exec_other k c ph t a c1 Hi Hne He); [lia | done].
Qed.

Lemma rank_rest c ph : waker_inv c ph -> rank (wpc_of c 0) <= 0 -> at_rest (wpc_of c 0).
Proof. intros Hi Hr. pose proof (wi_reg _ _ Hi) as H. destruct (wpc_of c 0); cbn in *; try done; lia. Qed.

Lemma waker_run_inv k sched : forall c ph c', waker_inv c ph -> Forall sched_ok sched -> waker_run k c sched = Ret c' ->
  exists ph', waker_inv c' ph'.
Proof.
  induction sched as [| [t a] sched IH]; intros c ph c' Hi Hs He.
  { injection He as <-. by exists ph. }
  apply Forall_cons in Hs as [[Ha _] Hs]. destruct (waker_exec_inv k c ph t a Hi Ha) as (c1 & ph1 & He1 & Hi1).
  cbn [waker_run run] in He. rewrite He1, bind_ret in He. by eapply IH.
Qed.

(** Registration is wait-free: a call of [register] ends within fourteen
    accesses of its own thread, whatever the waking threads do in between; it
    never loops on their interference. *)
Theorem register_wait_free k c sched (Hc : waker_reach k c) (Hs : Forall sched_ok sched) (Hn : 14 <= own_steps sched) :
  exists c', waker_run k c sched = Ret c' /\ at_rest (wpc_of c' 0).
Proof.
  destruct (waker_reach_inv k c Hc) as [ph Hi]. destruct (run_rank k sched c ph Hi Hs) as (c' & He & Hr).
  exists c'. split; [done |]. destruct (waker_run_inv k sched c ph c' Hi Hs He) as [ph' Hi']. apply (rank_rest c' ph' Hi').
  assert (rank (wpc_of c 0) <= 14) by (destruct (wpc_of c 0); cbn; lia). lia.
Qed.
End safety.

(** *** Concrete runs *)

(** Wakers whose clones share the pointers, as those of reference counted tasks. *)
#[local] Instance demo_env : WakerEnv.
Proof.
  refine {| NOOP_PTR := 4096; waker_clone := fun w => w |}; [| done | done]. by vm_compute.
Defined.

Definition demo_waker (n : Z) : Waker := mkWaker 8192 n.

#[local] Instance action_ok_dec t a : Decision (action_ok t a).
Proof. destruct a; cbn; unfold waker_ok, aligned; apply _. Defined.

(** A registration that waits, and a producer that signals. *)
Definition demo_sched : list (nat * waker_action) :=
  (0%nat, ARegister (demo_waker 7)) :: accesses AStep 0 9 ++ [(1%nat, ASignal)] ++ accesses AStep 1 6.
Definition demo_waiting : waker_config :=
  match waker_run KindAtomic waker_start demo_sched with Ret c => c | Fault _ => waker_start end.

Lemma demo_waiting_reach : waker_reach KindAtomic demo_waiting.
Proof.
  apply (run_reach (waker_exec KindAtomic) (fun _ => action_ok) waker_start demo_sched waker_start);
    [constructor | by vm_compute | by vm_compute].
Qed.

Lemma waker_cell_safe_witness : waker_reach KindAtomic demo_waiting /\ action_ok 1 AWake /\
  exists c', waker_exec KindAtomic demo_waiting 1 AWake = Ret c'.
Proof.
  assert (H : action_ok 1 AWake) by done. split; [exact demo_waiting_reach |]. split; [exact H |].
  exact (proj1 (waker_cell_safe KindAtomic demo_waiting 1 AWake demo_waiting_reach H)).
Defined.

Lemma waker_no_lost_wakeup_witness :
  demo_waker 7 ∈ wf_woken demo_waiting \/ waker_clone (demo_waker 7) ∈ wf_woken demo_waiting.
Proof.
  apply (waker_no_lost_wakeup KindAtomic demo_waiting (demo_waker 7)).
  - exact demo_waiting_reach.
  - by vm_compute.
  - by vm_compute.
  - assert (Hp : wf_pcs demo_waiting = <[1%nat := WkIdle]> {[0%nat := RgPending (demo_waker 7)]}) by (by vm_compute).
    intros t Ht. unfold wpc_of, pc_at. rewrite Hp. destruct (decide (t = 1%nat)) as [-> | Hne]; [by rewrite lookup_insert_eq |].
    by rewrite lookup_insert_ne, lookup_singleton_ne by done.
Defined.

Lemma register_wait_free_witness : exists c',
  waker_run KindAtomic demo_waiting (accesses AStep 0 14) = Ret c' /\ at_rest (wpc_of c' 0).
Proof.
  apply (register_wait_free KindAtomic demo_waiting (accesses AStep 0 14)).
  - exact demo_waiting_reach.
  - apply Forall_forall. intros p Hp%list_elem_of_In%repeat_spec. by subst p.
  - by vm_compute.
Defined.

(** Two tasks that register with an [AtomicWaker] at the same time, which its
    documentation calls safe, can corrupt it: the one whose registration a
    concurrent [wake] interrupted releases the cell before it clears the data
    pointer, and clears the pointer the other has just published.  The next
    [wake] then uses a waker that nobody made. *)
Theorem concurrent_register_unsound :
  let sched := [(0%nat, ARegister (demo_waker 7))] ++ accesses AStep 0 5 ++ [(2%nat, AWake)] ++ accesses AStep 2 2 ++
    accesses AStep 0 2 ++ [(1%nat, ARegister (demo_waker 9))] ++ accesses AStep 1 8 ++ accesses AStep 0 1 ++
    [(3%nat, AWake)] ++ accesses AStep 3 5 in
  exists c, waker_run KindAtomic waker_start sched = Ret c /\
    wpc_of c 3 = TkWake (mkWaker 8192 0) /\ wf_live c = [demo_waker 9; demo_waker 7] /\
    waker_exec KindAtomic c 3 AStep = Fault InvalidPointer.
Proof. eexists. split; [by vm_compute |]. by vm_compute. Qed.
