(* ===== verification/AsyncMutex.v ===== *)
(** * veloq-sync [mutex.rs]: the asynchronous mutex

    The state word, the queue of waiting futures behind a spin lock, and the
    accesses of each call as steps of [mutex_exec].  A thread runs one future at
    a time and its node is the thread's number.  The queue is read and written
    only under the spin lock, so that what a call does to the queue and the
    release of the lock are one step; where the state word is accessed under
    the lock the steps are separate.  The waker of a node is one cell, whose
    contract is in [Wakers]: [mx_wakers] has the nodes with a waker,
    [mx_woken] the tasks woken so far. *)

From stdpp Require Import list gmap sets.
From S2P Require Import Prelude Interleave.

Definition UNLOCKED : Z := 0.
Definition LOCKED : Z := 1.
Definition CONTENDED : Z := 2.

(** Where a thread stands; [queued] is the field of its future. *)
Inductive mutex_pc : Type :=
  | MxIdle
  | MxFuture (queued : bool)                   (* a future that is not being polled *)
  | MxGuard                                    (* holds a guard *)
  | PlLoad (queued : bool)                     (* poll: load the state *)
  | PlCas (queued : bool)                      (* compare_exchange to take the lock *)
  | PlSpin (state : Z) (rest : nat)            (* the bounded spinning *)
  | PlSpinEnd (state : Z)                      (* load after it *)
  | PlMark (queued : bool)                     (* compare_exchange LOCKED to CONTENDED *)
  | PlEnqLock                                  (* lock the queue *)
  | PlEnqLoad                                  (* load the state, queue locked *)
  | PlEnqRetry                                 (* unlock the queue, start again *)
  | PlEnqPush                                  (* register, push, unlock, pending *)
  | PlCheck                                    (* queued: still linked? *)
  | PlRegister                                 (* still linked: register, pending *)
  | PlWoken                                    (* not linked: register, start again *)
  | PlClean                                    (* acquired while queued: leave the queue *)
  | PlDemote (empty : bool)                    (* store LOCKED when the queue is empty, unlock *)
  | DrCas                                      (* drop of a guard: compare_exchange *)
  | DrStore                                    (* store UNLOCKED *)
  | DrWake                                     (* pop a waiter, wake it *)
  | FdRemove.                                  (* drop of a queued future *)

Record AsyncMutex : Type := mkMutex {
  mx_state : Z;
  mx_waiters : list nat;
  mx_spin : option nat;
  mx_wakers : gset nat;
  mx_woken : list nat;
  mx_pcs : gmap nat mutex_pc
}.
Implicit Types (c : AsyncMutex) (t : nat).

Definition mutex_new : AsyncMutex := mkMutex UNLOCKED [] None ∅ [] ∅.

Definition mpc_of c t : mutex_pc := pc_at MxIdle (mx_pcs c) t.

Definition mx_at c t (pc : mutex_pc) : AsyncMutex :=
  mkMutex (mx_state c) (mx_waiters c) (mx_spin c) (mx_wakers c) (mx_woken c) (<[t := pc]> (mx_pcs c)).
Definition mx_set_state c (v : Z) : AsyncMutex :=
  mkMutex v (mx_waiters c) (mx_spin c) (mx_wakers c) (mx_woken c) (mx_pcs c).
Definition mx_set_waiters c (l : list nat) : AsyncMutex :=
  mkMutex (mx_state c) l (mx_spin c) (mx_wakers c) (mx_woken c) (mx_pcs c).
Definition mx_set_spin c (o : option nat) : AsyncMutex :=
  mkMutex (mx_state c) (mx_waiters c) o (mx_wakers c) (mx_woken c) (mx_pcs c).
Definition mx_register c t : AsyncMutex :=
  mkMutex (mx_state c) (mx_waiters c) (mx_spin c) ({[t]} ∪ mx_wakers c) (mx_woken c) (mx_pcs c).
(** [node.waker.wake()] *)
Definition mx_wake c (n : nat) : AsyncMutex :=
  if bool_decide (n ∈ mx_wakers c)
  then mkMutex (mx_state c) (mx_waiters c) (mx_spin c) (mx_wakers c ∖ {[n]}) (n :: mx_woken c) (mx_pcs c)
  else c.

(** A step that needs the spin lock waits while another thread has it. *)
Definition with_spin c (k : outcome AsyncMutex) : outcome AsyncMutex :=
  match mx_spin c with Some _ => Ret c | None => k end.

(** [LinkedList::push_back] panics on a linked node. *)
Definition mx_push c t : outcome AsyncMutex :=
  if bool_decide (t ∈ mx_waiters c) then Fault AssertFailed else Ret (mx_set_waiters c (mx_waiters c ++ [t])).
(** The node leaves the queue if it is linked. *)
Definition mx_unlink c t : AsyncMutex := mx_set_waiters c (filter (.≠ t) (mx_waiters c)).

(** ** [MutexLockFuture::poll] *)

Definition SPIN_LIMIT : nat := 100.

(** Part 3 of the loop. *)
Definition enqueue_pc (queued : bool) : mutex_pc := if queued then PlCheck else PlEnqLock.
(** Part 2: a lock that is seen [LOCKED] is marked first. *)
Definition mark_pc (queued : bool) (state : Z) : mutex_pc :=
  if state =? LOCKED then PlMark queued else enqueue_pc queued.

Definition poll_step c t (pc : mutex_pc) : outcome AsyncMutex :=
  match pc with
  | PlLoad queued =>
      let state := mx_state c in
      if state =? UNLOCKED then Ret (mx_at c t (PlCas queued))
      else if queued then Ret (mx_at c t (mark_pc true state))
      else Ret (mx_at c t (PlSpin state SPIN_LIMIT))
  | PlCas queued =>
      if mx_state c =? UNLOCKED then
        let c := mx_set_state c (if queued then CONTENDED else LOCKED) in
        Ret (mx_at c t (if queued then PlClean else MxGuard))
      else Ret (mx_at c t (PlLoad queued))
  | PlSpin state (S rest) =>
      if mx_state c =? UNLOCKED then Ret (mx_at c t (PlSpinEnd state)) else Ret (mx_at c t (PlSpin state rest))
  | PlSpin state O => Ret (mx_at c t (PlSpinEnd state))
  | PlSpinEnd state =>
      if mx_state c =? UNLOCKED then Ret (mx_at c t (PlLoad false)) else Ret (mx_at c t (mark_pc false state))
  | PlMark queued =>
      if mx_state c =? LOCKED then Ret (mx_at (mx_set_state c CONTENDED) t (enqueue_pc queued))
      else Ret (mx_at c t (PlLoad queued))
  | PlEnqLock => with_spin c (Ret (mx_at (mx_set_spin c (Some t)) t PlEnqLoad))
  | PlEnqLoad => Ret (mx_at c t (if mx_state c =? UNLOCKED then PlEnqRetry else PlEnqPush))
  | PlEnqRetry => Ret (mx_at (mx_set_spin c None) t (PlLoad false))
  | PlEnqPush =>
      c ← mx_push (mx_register c t) t; Ret (mx_at (mx_set_spin c None) t (MxFuture true))
  | PlCheck =>
      with_spin c (Ret (mx_at c t (if bool_decide (t ∈ mx_waiters c) then PlRegister else PlWoken)))
  | PlRegister => Ret (mx_at (mx_register c t) t (MxFuture true))
  | PlWoken => Ret (mx_at (mx_register c t) t (PlLoad false))
  | PlClean =>
      with_spin c (let c := mx_unlink c t in
        Ret (mx_at (mx_set_spin c (Some t)) t (PlDemote (bool_decide (mx_waiters c = [])))))
  | PlDemote empty =>
      let c := if empty then mx_set_state c LOCKED else c in
      Ret (mx_at (mx_set_spin c None) t MxGuard)
  | _ => Ret c
  end.

(** ** Drop of a guard and of a future *)

Definition drop_step c t (pc : mutex_pc) : outcome AsyncMutex :=
  match pc with
  | DrCas =>
      if mx_state c =? LOCKED then Ret (mx_at (mx_set_state c UNLOCKED) t MxIdle) else Ret (mx_at c t DrStore)
  | DrStore => Ret (mx_at (mx_set_state c UNLOCKED) t DrWake)
  | DrWake =>
      with_spin c (match mx_waiters c with
                   | [] => Ret (mx_at c t MxIdle)
                   | n :: l => Ret (mx_at (mx_wake (mx_set_waiters c l) n) t MxIdle)
                   end)
  | FdRemove => with_spin c (Ret (mx_at (mx_unlink c t) t MxIdle))
  | _ => Ret c
  end.

Definition mutex_try_lock c t : AsyncMutex :=
  if mx_state c =? UNLOCKED then mx_at (mx_set_state c LOCKED) t MxGuard else c.

Inductive mutex_action : Type :=
  | MxTryLock
  | MxLock          (* [lock()]: a new future *)
  | MxPoll
  | MxDropFuture
  | MxUnlock        (* drop of the guard *)
  | MxStep.

(** A call that does not fit where the thread stands leaves all as it is. *)
Definition mutex_exec c t (a : mutex_action) : outcome AsyncMutex :=
  match a, mpc_of c t with
  | MxTryLock, MxIdle => Ret (mutex_try_lock c t)
  | MxLock, MxIdle => Ret (mx_at c t (MxFuture false))
  | MxPoll, MxFuture queued => Ret (mx_at c t (PlLoad queued))
  | MxDropFuture, MxFuture queued => Ret (mx_at c t (if queued then FdRemove else MxIdle))
  | MxUnlock, MxGuard => Ret (mx_at c t DrCas)
  | MxStep, (DrCas | DrStore | DrWake | FdRemove) => drop_step c t (mpc_of c t)
  | MxStep, pc => poll_step c t pc
  | _, _ => Ret c
  end.

Definition mutex_reach : AsyncMutex -> Prop := reach mutex_exec (fun _ _ _ => True) mutex_new.

(** ** The invariant *)

(** The thread has the lock. *)
Definition owns (pc : mutex_pc) : bool :=
  match pc with MxGuard | PlClean | PlDemote _ | DrCas | DrStore => true | _ => false end.
(** The thread has the spin lock. *)
Definition spins (pc : mutex_pc) : bool :=
  match pc with PlEnqLoad | PlEnqRetry | PlEnqPush | PlDemote _ => true | _ => false end.
(** The future of the thread may be in the queue. *)
Definition may_be_linked (pc : mutex_pc) : bool :=
  match pc with
  | MxFuture q | PlLoad q | PlCas q | PlMark q => q
  | PlCheck | PlRegister | PlClean | FdRemove => true
  | _ => false
  end.

Record mutex_inv c : Prop := {
  mi_state : mx_state c = UNLOCKED \/ mx_state c = LOCKED \/ mx_state c = CONTENDED;
  mi_owner : forall t, owns (mpc_of c t) = true -> mx_state c <> UNLOCKED /\ forall t', owns (mpc_of c t') = true -> t' = t;
  mi_held : mx_state c <> UNLOCKED -> exists t, owns (mpc_of c t) = true;
  mi_spin : forall t, spins (mpc_of c t) = true <-> mx_spin c = Some t;
  mi_nodup : NoDup (mx_waiters c);
  mi_linked : forall t, t ∈ mx_waiters c -> may_be_linked (mpc_of c t) = true
}.

(** What a step of thread [t] to [pc'] has to give. *)
Lemma mutex_moves c c' t pc' : mutex_inv c -> mx_pcs c' = <[t := pc']> (mx_pcs c) ->
  (mx_state c' = UNLOCKED \/ mx_state c' = LOCKED \/ mx_state c' = CONTENDED) ->
  (owns pc' = true -> mx_state c' <> UNLOCKED /\ (owns (mpc_of c t) = true \/ mx_state c = UNLOCKED)) ->
  (owns pc' = false -> if owns (mpc_of c t) then mx_state c' = UNLOCKED else (mx_state c' = UNLOCKED <-> mx_state c = UNLOCKED)) ->
  (if spins pc' then mx_spin c' = Some t /\ (mx_spin c = None \/ mx_spin c = Some t)
   else mx_spin c' = (if spins (mpc_of c t) then None else mx_spin c)) ->
  NoDup (mx_waiters c') ->
  (forall t', t' ∈ mx_waiters c' -> if decide (t' = t) then may_be_linked pc' = true else t' ∈ mx_waiters c) ->
  mutex_inv c'.
Proof.
  intros Hi Hp Hst Ho1 Ho2 Hsp Hnd Hln.
  assert (Hpc : forall t', mpc_of c' t' = if decide (t' = t) then pc' else mpc_of c t').
  { intros t'. unfold mpc_of. rewrite Hp. apply pc_at_insert. }
  pose proof (mi_spin c Hi) as Hspin.
  split; try done.
  - intros t1 H1. rewrite Hpc in H1. destruct (decide (t1 = t)) as [-> | Hne1].
    + destruct (Ho1 H1) as [Hs Hor]. split; [done |]. intros t2 H2. rewrite Hpc in H2.
      destruct (decide (t2 = t)) as [-> | Hne2]; [done |].
      destruct (mi_owner c Hi t2 H2) as [Hs2 Hu]. destruct Hor as [Hor | Hor]; [symmetry; by apply Hu | done].
    + destruct (mi_owner c Hi t1 H1) as [Hs1 Hu]. assert (Hnt : owns (mpc_of c t) = false).
      { destruct (owns (mpc_of c t)) eqn:E; [by apply Hu in E |]. done. }
      destruct (owns pc') eqn:E'.
      * destruct (Ho1 eq_refl) as [_ [Hx | Hx]]; congruence.
      * specialize (Ho2 eq_refl). rewrite Hnt in Ho2. split; [tauto |]. intros t2 H2. rewrite Hpc in H2.
        destruct (decide (t2 = t)) as [-> |]; [congruence |]. by apply Hu.
  - intros Hs. destruct (owns pc') eqn:E'.
    + exists t. rewrite Hpc. by rewrite decide_True.
    + specialize (Ho2 eq_refl). destruct (owns (mpc_of c t)) eqn:Et; [done |].
      destruct (mi_held c Hi) as (t1 & H1); [tauto |]. exists t1. rewrite Hpc.
      destruct (decide (t1 = t)) as [-> |]; [congruence | done].
  - intros t1. rewrite Hpc. destruct (decide (t1 = t)) as [-> | Hne].
    + destruct (spins pc'); [tauto |]. rewrite Hsp. specialize (Hspin t). destruct (spins (mpc_of c t)); [done |]. naive_solver.
    + rewrite Hspin. destruct (spins pc').
      * destruct Hsp as [-> [-> | ->]]; split; congruence.
      * rewrite Hsp. specialize (Hspin t). destruct (spins (mpc_of c t)) eqn:E; [| done].
        assert (mx_spin c = Some t) as -> by tauto. split; congruence.
  - intros t1 H1. specialize (Hln t1 H1). rewrite Hpc. destruct (decide (t1 = t)); [done |]. by apply Hi.
Qed.

Lemma waiters_keep c t pc (l : list nat) : (forall t', t' ∈ l -> t' ∈ mx_waiters c) ->
  (t ∈ l -> may_be_linked pc = true) ->
  forall t', t' ∈ l -> if decide (t' = t) then may_be_linked pc = true else t' ∈ mx_waiters c.
Proof. intros Hl Ht t' Hin. destruct (decide (t' = t)) as [-> |]; auto. Qed.

(** Steps that leave state word, queue and spin lock alone. *)
Lemma mutex_quiet c c' t pc' : mutex_inv c -> mx_pcs c' = <[t := pc']> (mx_pcs c) ->
  mx_state c' = mx_state c -> mx_waiters c' = mx_waiters c -> mx_spin c' = mx_spin c ->
  owns pc' = owns (mpc_of c t) -> spins pc' = spins (mpc_of c t) ->
  (may_be_linked (mpc_of c t) = true -> t ∈ mx_waiters c -> may_be_linked pc' = true) -> mutex_inv c'.
Proof.
  intros Hi Hp Hs Hw Hsp Ho Hn Hl. pose proof (mi_spin c Hi t) as Hst.
  eapply (mutex_moves c c' t pc' Hi Hp); rewrite ?Hs, ?Hw, ?Hsp, ?Ho, ?Hn.
  - apply Hi.
  - intros H. split; [by eapply mi_owner | by left].
  - intros H. rewrite H. done.
  - destruct (spins (mpc_of c t)); [| done]. split; [tauto | right; tauto].
  - apply Hi.
  - apply waiters_keep; [done |]. intros Hin. apply Hl; [by apply Hi | done].
Qed.

Ltac mx_quiet Hi Hp := eapply (mutex_quiet _ _ _ _ Hi); [reflexivity | reflexivity | reflexivity | reflexivity | ..];
  rewrite ?Hp; cbn; try done.

Lemma not_linked c t : mutex_inv c -> may_be_linked (mpc_of c t) = false -> t ∉ mx_waiters c.
Proof. intros Hi Hl Hin. apply (mi_linked c Hi) in Hin. congruence. Qed.

Lemma enqueue_pc_quiet q : owns (enqueue_pc q) = false /\ spins (enqueue_pc q) = false /\ may_be_linked (enqueue_pc q) = q.
Proof. by destruct q. Qed.

Lemma mark_pc_quiet q s : owns (mark_pc q s) = false /\ spins (mark_pc q s) = false /\ may_be_linked (mark_pc q s) = q.
Proof. unfold mark_pc. destruct (s =? LOCKED); [done |]. apply enqueue_pc_quiet. Qed.

(** Taking the lock. *)
Lemma mutex_acquire c t pc' v : mutex_inv c -> mx_state c = UNLOCKED -> v = LOCKED \/ v = CONTENDED ->
  owns pc' = true -> spins pc' = false -> spins (mpc_of c t) = false ->
  (may_be_linked (mpc_of c t) = true -> may_be_linked pc' = true) -> mutex_inv (mx_at (mx_set_state c v) t pc').
Proof.
  intros Hi Hs Hv Ho Hsp Hsp' Hl. eapply (mutex_moves c _ t pc' Hi); [reflexivity | ..]; cbn.
  - tauto.
  - intros _. split; [by destruct Hv as [-> | ->] | by right].
  - congruence.
  - by rewrite Hsp, Hsp'.
  - apply Hi.
  - apply waiters_keep; [done |]. intros Hin. by apply Hl, Hi.
Qed.

(** Releasing it. *)
Lemma mutex_release c t pc' : mutex_inv c -> owns (mpc_of c t) = true -> owns pc' = false ->
  spins pc' = false -> spins (mpc_of c t) = false -> may_be_linked (mpc_of c t) = false ->
  mutex_inv (mx_at (mx_set_state c UNLOCKED) t pc').
Proof.
  intros Hi Ho Ho' Hsp Hsp' Hl. eapply (mutex_moves c _ t pc' Hi); [reflexivity | ..]; cbn.
  - tauto.
  - congruence.
  - by rewrite Ho.
  - by rewrite Hsp, Hsp'.
  - apply Hi.
  - apply waiters_keep; [done |]. intros Hin. by apply not_linked in Hin.
Qed.

(** Steps on the queue and the spin lock, by a thread that keeps or does not
    have the lock. *)
Lemma mutex_queue c c' t pc' : mutex_inv c -> mx_pcs c' = <[t := pc']> (mx_pcs c) -> mx_state c' = mx_state c ->
  owns pc' = owns (mpc_of c t) ->
  (if spins pc' then mx_spin c' = Some t /\ mx_spin c = None
   else mx_spin c' = (if spins (mpc_of c t) then None else mx_spin c)) ->
  NoDup (mx_waiters c') ->
  (forall t', t' ∈ mx_waiters c' -> if decide (t' = t) then may_be_linked pc' = true else t' ∈ mx_waiters c) -> mutex_inv c'.
Proof.
  intros Hi Hp Hs Ho Hsp Hnd Hl. eapply (mutex_moves c c' t pc' Hi Hp); rewrite ?Hs, ?Ho; try done.
  - apply Hi.
  - intros H. split; [by eapply mi_owner | by left].
  - intros ->. done.
  - destruct (spins pc'); [| done]. split; [tauto | left; tauto].
Qed.

Lemma wake_keeps c n : mx_state (mx_wake c n) = mx_state c /\ mx_waiters (mx_wake c n) = mx_waiters c /\
  mx_spin (mx_wake c n) = mx_spin c /\ mx_pcs (mx_wake c n) = mx_pcs c.
Proof. unfold mx_wake. by destruct (bool_decide _). Qed.

Lemma unlink_in c t t' : t' ∈ mx_waiters (mx_unlink c t) <-> t' <> t /\ t' ∈ mx_waiters c.
Proof. cbn. by rewrite list_elem_of_filter. Qed.

Definition mutex_safe (o : outcome AsyncMutex) : Prop := exists c', o = Ret c' /\ mutex_inv c'.

(** The part of a poll before the queue. *)
Lemma poll_state_inv c t : mutex_inv c ->
  match mpc_of c t with PlLoad _ | PlCas _ | PlSpin _ _ | PlSpinEnd _ | PlMark _ => True | _ => False end ->
  mutex_safe (poll_step c t (mpc_of c t)).
Proof.
  intros Hi Hpc. unfold mutex_safe. destruct (mpc_of c t) as [] eqn:Hp; try done; cbn [poll_step].
  - destruct (_ =? _); [| destruct queued]; (eexists; split; [done |]; mx_quiet Hi Hp); apply mark_pc_quiet || idtac.
    intros _ _. apply (mark_pc_quiet true).
  - destruct (Z.eqb_spec (mx_state c) UNLOCKED) as [Hs | Hs]; (eexists; split; [done |]); [| mx_quiet Hi Hp].
    apply mutex_acquire; rewrite ?Hp; try done; destruct queued; try done; auto.
  - destruct rest as [| rest]; [| destruct (_ =? _)]; (eexists; split; [done |]; mx_quiet Hi Hp).
  - destruct (_ =? _); (eexists; split; [done |]; mx_quiet Hi Hp); try apply mark_pc_quiet.
  - destruct (enqueue_pc_quiet queued) as (He1 & He2 & He3).
    destruct (Z.eqb_spec (mx_state c) LOCKED) as [Hs | Hs]; (eexists; split; [done |]); [| mx_quiet Hi Hp].
    eapply (mutex_moves c _ t _ Hi); [reflexivity | ..]; rewrite ?Hp, ?He1, ?He2, ?Hs; cbn; try done.
    + tauto.
    + apply Hi.
    + apply waiters_keep; [done |]. rewrite He3. intros Hin%(mi_linked c Hi). by rewrite Hp in Hin.
Qed.

(** The part of a poll that uses the queue. *)
Lemma poll_queue_inv c t : mutex_inv c ->
  match mpc_of c t with
  | PlEnqLock | PlEnqLoad | PlEnqRetry | PlEnqPush | PlCheck | PlRegister | PlWoken | PlClean | PlDemote _ => True
  | _ => False
  end -> mutex_safe (poll_step c t (mpc_of c t)).
Proof.
  intros Hi Hpc. unfold mutex_safe. pose proof (mi_nodup c Hi) as Hnd. pose proof (mi_spin c Hi t) as Hsp.
  destruct (mpc_of c t) as [] eqn:Hp; try done; cbn [poll_step]; cbn in Hsp; unfold with_spin.
  - destruct (mx_spin c) eqn:Es; [by eexists |]. eexists. split; [done |].
    eapply (mutex_queue c _ t _ Hi); [reflexivity | ..]; rewrite ?Hp; cbn; try done.
    apply (waiters_keep c t PlEnqLoad); [done |]. intros Hin%(not_linked c t Hi); [done | by rewrite Hp].
  - eexists. split; [done |]. mx_quiet Hi Hp; by destruct (_ =? _).
  - eexists. split; [done |]. eapply (mutex_queue c _ t _ Hi); [reflexivity | ..]; rewrite ?Hp; cbn; try done.
    apply (waiters_keep c t (PlLoad false)); [done |]. intros Hin%(not_linked c t Hi); [done | by rewrite Hp].
  - assert (Hn : t ∉ mx_waiters c) by (apply (not_linked c t Hi); by rewrite Hp).
    unfold mx_push. cbn [mx_waiters mx_register]. rewrite bool_decide_eq_false_2 by done. rewrite bind_ret. eexists. split; [done |].
    eapply (mutex_queue c _ t _ Hi); [reflexivity | ..]; rewrite ?Hp; cbn; try done.
    + apply NoDup_app. split_and!; [done | set_solver | apply NoDup_singleton].
    + intros t' Hin. destruct (decide (t' = t)); [done |]. set_solver.
  - destruct (mx_spin c) eqn:Es; [by eexists |]. eexists. split; [done |]. mx_quiet Hi Hp; try by destruct (bool_decide _).
    intros _ Hin. by rewrite bool_decide_eq_true_2.
  - eexists. split; [done |]. mx_quiet Hi Hp.
  - eexists. split; [done |]. mx_quiet Hi Hp.
  - destruct (mx_spin c) eqn:Es; [by eexists |]. eexists. split; [done |].
    eapply (mutex_queue c _ t _ Hi); [reflexivity | ..]; rewrite ?Hp; cbn; try done.
    + by apply NoDup_filter.
    + intros t' Hin. apply (unlink_in c t t') in Hin as [Hne Hin]. by rewrite decide_False.
  - assert (Hn : t ∉ mx_waiters c) by (apply (not_linked c t Hi); by rewrite Hp).
    eexists. split; [done |]. destruct (mi_owner c Hi t) as [Hs _]; [by rewrite Hp |].
    destruct empty; (eapply (mutex_moves c _ t MxGuard Hi); [reflexivity | ..]; rewrite ?Hp; cbn; try done);
      try (by apply Hi); try (intros _; split; [done | by left]); try (apply (waiters_keep c t MxGuard); by intros).
    tauto.
Qed.

Lemma drop_step_inv c t : mutex_inv c ->
  match mpc_of c t with DrCas | DrStore | DrWake | FdRemove => True | _ => False end ->
  mutex_safe (drop_step c t (mpc_of c t)).
Proof.
  intros Hi Hpc. unfold mutex_safe. pose proof (mi_nodup c Hi) as Hnd.
  destruct (mpc_of c t) as [] eqn:Hp; try done; cbn [drop_step]; unfold with_spin.
  - destruct (_ =? _); (eexists; split; [done |]); [apply mutex_release; by rewrite ?Hp | mx_quiet Hi Hp].
  - eexists. split; [done |]. apply mutex_release; by rewrite ?Hp.
  - assert (Hn : t ∉ mx_waiters c) by (apply (not_linked c t Hi); by rewrite Hp).
    destruct (mx_spin c) eqn:Es; [by eexists |]. destruct (mx_waiters c) as [| n l] eqn:Ew; (eexists; split; [done |]).
    { mx_quiet Hi Hp. }
    destruct (wake_keeps (mx_set_waiters c l) n) as (Ws & Ww & Wp & Wm).
    eapply (mutex_queue c _ t MxIdle Hi); cbn; rewrite ?Ws, ?Ww, ?Wp, ?Wm, ?Hp; cbn; try done.
    + by apply NoDup_cons in Hnd as [_ Hnd].
    + rewrite Ew. intros t' Hin. destruct (decide (t' = t)) as [-> |]; set_solver.
  - destruct (mx_spin c) eqn:Es; [by eexists |]. eexists. split; [done |].
    eapply (mutex_queue c _ t _ Hi); [reflexivity | ..]; rewrite ?Hp; cbn; try done.
    + by apply NoDup_filter.
    + intros t' Hin. apply (unlink_in c t t') in Hin as [Hne Hin]. by rewrite decide_False.
Qed.

Lemma mutex_exec_inv c t a : mutex_inv c -> mutex_safe (mutex_exec c t a).
Proof.
  intros Hi. unfold mutex_exec, mutex_safe. destruct a.
  - destruct (mpc_of c t) eqn:Hp; try (by exists c). eexists. split; [done |]. unfold mutex_try_lock.
    destruct (Z.eqb_spec (mx_state c) UNLOCKED) as [Hs | Hs]; [| done]. apply mutex_acquire; rewrite ?Hp; try done. by left.
  - destruct (mpc_of c t) eqn:Hp; try (by exists c). eexists. split; [done |]. mx_quiet Hi Hp.
  - destruct (mpc_of c t) eqn:Hp; try (by exists c). eexists. split; [done |]. mx_quiet Hi Hp.
  - destruct (mpc_of c t) eqn:Hp; try (by exists c). eexists. split; [done |]. destruct queued; mx_quiet Hi Hp.
  - destruct (mpc_of c t) eqn:Hp; try (by exists c). eexists. split; [done |]. mx_quiet Hi Hp.
  - pose proof (poll_state_inv c t Hi) as H1. pose proof (poll_queue_inv c t Hi) as H2. pose proof (drop_step_inv c t Hi) as H3.
    destruct (mpc_of c t) eqn:Hp; try (by apply H1); try (by apply H2); try (by apply H3); by exists c.
Qed.

Lemma mutex_reach_inv c : mutex_reach c -> mutex_inv c.
Proof.
  apply (reach_invariant _ _ _ mutex_inv).
  - assert (Hp : forall t, mpc_of mutex_new t = MxIdle) by done.
    split; try done; [by left | by constructor | by intros t ?%elem_of_nil].
  - intros s t a s' Hi _ He. destruct (mutex_exec_inv s t a Hi) as (c' & He' & Hi'). rewrite He in He'. by injection He' as <-.
Qed.

(** C36 The asynchronous mutex excludes: in every interleaving of lock futures
    that are polled and dropped, guards and [try_lock], at most one thread has
    the lock, no call panics (a node is never pushed twice), and [try_lock]
    succeeds exactly when nobody has the lock. *)
Theorem mutex_excludes c t a (Hc : mutex_reach c) :
  (exists c', mutex_exec c t a = Ret c') /\
  (forall t1 t2, owns (mpc_of c t1) = true -> owns (mpc_of c t2) = true -> t1 = t2) /\
  (mpc_of c t = MxIdle ->
   mpc_of (mutex_try_lock c t) t = (if bool_decide (mx_state c = UNLOCKED) then MxGuard else MxIdle) /\
   (mx_state c = UNLOCKED <-> forall t', owns (mpc_of c t') = false)).
Proof.
  apply mutex_reach_inv in Hc as Hi. split_and!.
  - destruct (mutex_exec_inv c t a Hi) as (c' & He & _). by exists c'.
  - intros t1 t2 H1 H2. symmetry. by apply (mi_owner c Hi t1 H1).
  - intros Hp. split.
    + unfold mutex_try_lock. destruct (Z.eqb_spec (mx_state c) UNLOCKED) as [Hs | Hs].
      * rewrite bool_decide_eq_true_2 by done. unfold mpc_of. apply pc_at_eq.
      * by rewrite bool_decide_eq_false_2.
    + split.
      * intros Hs t'. destruct (owns (mpc_of c t')) eqn:E; [| done]. by destruct (mi_owner c Hi t' E).
      * intros Hn. destruct (decide (mx_state c = UNLOCKED)) as [| Hs]; [done |].
        destruct (mi_held c Hi Hs) as (t' & Ht'). by rewrite Hn in Ht'.
Qed.

(** ** Concrete runs *)

Definition sleep_sched : list (nat * mutex_action) :=
  (* thread 0 has the lock; the future of thread 1 sees it and marks it *)
  [(0%nat, MxTryLock); (1%nat, MxLock); (1%nat, MxPoll)] ++ accesses MxStep 1 104 ++
  (* thread 0 releases: the queue is still empty; thread 2 takes the lock *)
  [(0%nat, MxUnlock)] ++ accesses MxStep 0 3 ++ [(2%nat, MxTryLock)] ++
  (* thread 1 enqueues; thread 2 releases on the fast path *)
  accesses MxStep 1 3 ++ [(2%nat, MxUnlock)] ++ accesses MxStep 2 1.

Definition sleep_config : AsyncMutex := match run mutex_exec mutex_new sleep_sched with Ret c => c | Fault _ => mutex_new end.

Lemma sleep_reach : mutex_reach sleep_config.
Proof.
  apply (run_reach mutex_exec (fun _ _ _ => True) mutex_new sleep_sched mutex_new); [constructor | by vm_compute | by vm_compute].
Qed.

Lemma mutex_excludes_witness : exists c', mutex_exec sleep_config 2 MxTryLock = Ret c'.
Proof. exact (proj1 (mutex_excludes sleep_config 2 MxTryLock sleep_reach)). Defined.

(** A task can sleep although the lock is free: a future that marked the lock
    as contended enqueues itself after the lock was released and taken again,
    the new holder's state word is not marked, and its release takes the fast
    path that wakes nobody.  In the state below nobody has the lock and no call
    is in progress, the task is in the queue and was never woken. *)
Theorem mutex_sleeps_forever :
  mutex_reach sleep_config /\ mx_state sleep_config = UNLOCKED /\ mx_waiters sleep_config = [1%nat] /\
  mpc_of sleep_config 1 = MxFuture true /\ mx_woken sleep_config = [] /\
  forall t, t <> 1%nat -> mpc_of sleep_config t = MxIdle.
Proof.
  split_and!; [exact sleep_reach | by vm_compute.. |].
  assert (Hp : mx_pcs sleep_config = <[0%nat := MxIdle]> (<[1%nat := MxFuture true]> (<[2%nat := MxIdle]> ∅))) by (by vm_compute).
  intros t Ht. unfold mpc_of. rewrite Hp, !pc_at_insert. destruct (decide (t = 0%nat)); [done |].
  rewrite decide_False by done. by destruct (decide (t = 2%nat)).
Qed.
