(* ===== verification/RwLock.v ===== *)
(** * veloq-sync [rwlock.rs]: the asynchronous reader-writer lock

    The state word counts readers above two bits, the writer's and the one that
    tells of waiting futures.  As for the mutex, each access to the state word
    is a step, the queue is used under its spin lock, and a thread runs one
    future at a time. *)

From stdpp Require Import list gmap sets.
From S2P Require Import Prelude Interleave.

Definition WRITER_LOCKED : Z := Z.shiftl 1 0.
Definition RW_CONTENDED : Z := Z.shiftl 1 1.
Definition READER_UNIT : Z := Z.shiftl 1 2.
Definition READER_MASK : Z := bitnot USIZE_BITS (Z.lor WRITER_LOCKED RW_CONTENDED).

Inductive rw_kind : Type := KIND_READER | KIND_WRITER.

#[global] Instance rw_kind_eq_dec : EqDecision rw_kind.
Proof. solve_decision. Defined.

(** The fields of a future. *)
Record rw_future : Type := mkRwFuture { rf_kind : rw_kind; rf_queued : bool; rf_woken : bool }.

Definition has_priority (f : rw_future) : bool := rf_queued f || rf_woken f.

Inductive rw_pc : Type :=
  | RwIdle
  | RwFuture (f : rw_future)                    (* not being polled *)
  | RwRead                                      (* a read guard *)
  | RwWrite                                     (* a write guard *)
  | TrLoad                                      (* try_read: load *)
  | TrCas (state : Z)                           (* try_read: compare_exchange *)
  | RpLoad (f : rw_future) (spin : nat)         (* poll: load the state *)
  | RpCas (f : rw_future) (spin : nat) (state : Z)  (* compare_exchange *)
  | RpClean (k : rw_kind)                       (* acquired with priority: leave the queue *)
  | RpBits (k : rw_kind) (empty : bool)         (* set or clear the contended bit, wake the next reader, unlock *)
  | RpRegister (f : rw_future) (spin : nat)     (* register the waker *)
  | RpEnqLock (f : rw_future) (spin : nat)      (* lock the queue *)
  | RpEnqLoad (f : rw_future) (spin : nat)      (* load the state, queue locked *)
  | RpEnqRetry (f : rw_future) (spin : nat)     (* unlock, start again *)
  | RpEnqMark (f : rw_future)                   (* fetch_or of the contended bit *)
  | RpEnqPush (f : rw_future)                   (* push, unlock, pending *)
  | RpCheck (f : rw_future) (spin : nat)        (* still linked? *)
  | RdSub                                       (* drop of a read guard: fetch_sub *)
  | RdWake                                      (* pop a waiter, wake it *)
  | WdCas                                       (* drop of a write guard: compare_exchange *)
  | WdStore                                     (* store 0 *)
  | DgLoad                                      (* downgrade: load *)
  | DgCas (state : Z)                           (* downgrade: compare_exchange *)
  | DgWake                                      (* downgrade: wake the first waiter if it reads *)
  | RfRemove.                                   (* drop of a queued future *)

Record RwLock : Type := mkRw {
  rw_state : Z;
  rw_waiters : list nat;
  rw_kinds : gmap nat rw_kind;
  rw_spin : option nat;
  rw_wakers : gset nat;
  rw_woken : list nat;
  rw_pcs : gmap nat rw_pc
}.
Implicit Types (c : RwLock) (t : nat) (f : rw_future).

Definition rwlock_new : RwLock := mkRw 0 [] ∅ None ∅ [] ∅.

Definition rpc_of c t : rw_pc := pc_at RwIdle (rw_pcs c) t.
Definition rw_at c t (pc : rw_pc) : RwLock :=
  mkRw (rw_state c) (rw_waiters c) (rw_kinds c) (rw_spin c) (rw_wakers c) (rw_woken c) (<[t := pc]> (rw_pcs c)).
Definition rw_set_state c (v : Z) : RwLock :=
  mkRw v (rw_waiters c) (rw_kinds c) (rw_spin c) (rw_wakers c) (rw_woken c) (rw_pcs c).
Definition rw_set_waiters c (l : list nat) : RwLock :=
  mkRw (rw_state c) l (rw_kinds c) (rw_spin c) (rw_wakers c) (rw_woken c) (rw_pcs c).
Definition rw_set_kind c t (k : rw_kind) : RwLock :=
  mkRw (rw_state c) (rw_waiters c) (<[t := k]> (rw_kinds c)) (rw_spin c) (rw_wakers c) (rw_woken c) (rw_pcs c).
Definition rw_set_spin c (o : option nat) : RwLock :=
  mkRw (rw_state c) (rw_waiters c) (rw_kinds c) o (rw_wakers c) (rw_woken c) (rw_pcs c).
Definition rw_register c t : RwLock :=
  mkRw (rw_state c) (rw_waiters c) (rw_kinds c) (rw_spin c) ({[t]} ∪ rw_wakers c) (rw_woken c) (rw_pcs c).
Definition rw_wake c (n : nat) : RwLock :=
  if bool_decide (n ∈ rw_wakers c)
  then mkRw (rw_state c) (rw_waiters c) (rw_kinds c) (rw_spin c) (rw_wakers c ∖ {[n]}) (n :: rw_woken c) (rw_pcs c)
  else c.

Definition rw_with_spin c (k : outcome RwLock) : outcome RwLock :=
  match rw_spin c with Some _ => Ret c | None => k end.
Definition rw_push c t : outcome RwLock :=
  if bool_decide (t ∈ rw_waiters c) then Fault AssertFailed else Ret (rw_set_waiters c (rw_waiters c ++ [t])).
Definition rw_unlink c t : RwLock := rw_set_waiters c (filter (.≠ t) (rw_waiters c)).

(** [pop_front] and wake; wake the first waiter when it is a reader. *)
Definition rw_wake_front c : RwLock :=
  match rw_waiters c with [] => c | n :: l => rw_wake (rw_set_waiters c l) n end.
Definition rw_wake_reader c : RwLock :=
  match rw_waiters c with
  | n :: _ => if bool_decide (rw_kinds c !! n = Some KIND_READER) then rw_wake c n else c
  | [] => c
  end.

(** ** [try_read], entered with a value of the state *)

Definition try_read_dispatch c t (state : Z) : RwLock :=
  if negb (Z.land state WRITER_LOCKED =? 0) then rw_at c t RwIdle
  else if negb (Z.land state RW_CONTENDED =? 0) then rw_at c t RwIdle
  else if Z.land state READER_MASK =? READER_MASK then rw_at c t RwIdle
  else rw_at c t (TrCas state).

Definition try_write c t : RwLock :=
  if rw_state c =? 0 then rw_at (rw_set_state c WRITER_LOCKED) t RwWrite else c.

(** ** The polls *)

Definition RW_SPIN_LIMIT : nat := 100.

(** Whether a poll that sees [state] tries to acquire. *)
Definition can_acquire f (state : Z) : bool :=
  match rf_kind f with
  | KIND_READER =>
      (Z.land state WRITER_LOCKED =? 0) && (rf_queued f || rf_woken f || (Z.land state RW_CONTENDED =? 0))
  | KIND_WRITER =>
      if has_priority f then Z.land state (bitnot USIZE_BITS RW_CONTENDED) =? 0 else state =? 0
  end.

(** The state after it. *)
Definition acquire_target f (state : Z) : Z :=
  match rf_kind f with
  | KIND_READER => state + READER_UNIT
  | KIND_WRITER => Z.lor WRITER_LOCKED (Z.land state RW_CONTENDED)
  end.

Definition guard_pc (k : rw_kind) : rw_pc := match k with KIND_READER => RwRead | KIND_WRITER => RwWrite end.

(** Whether the double check under the lock finds that it can retry. *)
Definition can_retry c f (current : Z) : bool :=
  match rf_kind f with
  | KIND_READER => (Z.land current WRITER_LOCKED =? 0) && bool_decide (rw_waiters c = [])
  | KIND_WRITER => (Z.land current (Z.lor WRITER_LOCKED READER_MASK) =? 0) && bool_decide (rw_waiters c = [])
  end.

Definition rw_poll_step c t (pc : rw_pc) : outcome RwLock :=
  match pc with
  | RpLoad f spin =>
      let state := rw_state c in
      if can_acquire f state then
        match rf_kind f with
        | KIND_READER => if Z.land state READER_MASK =? READER_MASK then Fault ExplicitPanic
                         else Ret (rw_at c t (RpCas f spin state))
        | KIND_WRITER => Ret (rw_at c t (RpCas f spin state))
        end
      else if negb (rf_queued f) && (spin <? RW_SPIN_LIMIT)%nat then Ret (rw_at c t (RpLoad f (S spin)))
      else Ret (rw_at c t (RpRegister f spin))
  | RpCas f spin state =>
      if rw_state c =? state then
        let c := rw_set_state c (acquire_target f state) in
        Ret (rw_at c t (if has_priority f then RpClean (rf_kind f) else guard_pc (rf_kind f)))
      else Ret (rw_at c t (RpLoad f spin))
  | RpClean k =>
      rw_with_spin c (let c := rw_unlink c t in
        Ret (rw_at (rw_set_spin c (Some t)) t (RpBits k (bool_decide (rw_waiters c = [])))))
  | RpBits k empty =>
      let c := rw_set_state c (if empty then Z.land (rw_state c) (bitnot USIZE_BITS RW_CONTENDED)
                               else Z.lor (rw_state c) RW_CONTENDED) in
      let c := match k with KIND_READER => rw_wake_reader c | KIND_WRITER => c end in
      Ret (rw_at (rw_set_spin c None) t (guard_pc k))
  | RpRegister f spin =>
      Ret (rw_at (rw_register c t) t (if rf_queued f then RpCheck f spin else RpEnqLock f spin))
  | RpEnqLock f spin => rw_with_spin c (Ret (rw_at (rw_set_spin (rw_set_kind c t (rf_kind f)) (Some t)) t (RpEnqLoad f spin)))
  | RpEnqLoad f spin =>
      let current := rw_state c in
      if can_retry c f current then Ret (rw_at c t (RpEnqRetry f spin))
      else if Z.land current RW_CONTENDED =? 0 then Ret (rw_at c t (RpEnqMark f))
      else Ret (rw_at c t (RpEnqPush f))
  | RpEnqRetry f spin => Ret (rw_at (rw_set_spin c None) t (RpLoad f spin))
  | RpEnqMark f => Ret (rw_at (rw_set_state c (Z.lor (rw_state c) RW_CONTENDED)) t (RpEnqPush f))
  | RpEnqPush f =>
      c ← rw_push c t; Ret (rw_at (rw_set_spin c None) t (RwFuture (mkRwFuture (rf_kind f) true (rf_woken f))))
  | RpCheck f spin =>
      rw_with_spin c (Ret (rw_at c t (if bool_decide (t ∈ rw_waiters c) then RwFuture f
                                      else RpLoad (mkRwFuture (rf_kind f) false true) spin)))
  | _ => Ret c
  end.

(** ** [try_read], the drops and [downgrade] *)

Definition rw_drop_step c t (pc : rw_pc) : outcome RwLock :=
  match pc with
  | TrLoad => Ret (try_read_dispatch c t (rw_state c))
  | TrCas state =>
      if rw_state c =? state then Ret (rw_at (rw_set_state c (state + READER_UNIT)) t RwRead)
      else Ret (try_read_dispatch c t (rw_state c))
  | RdSub =>
      let prev := rw_state c in
      let c := rw_set_state c (wrapping_sub USIZE_BITS prev READER_UNIT) in
      Ret (rw_at c t (if (Z.land prev READER_MASK =? READER_UNIT) && negb (Z.land prev RW_CONTENDED =? 0)
                      then RdWake else RwIdle))
  | RdWake => rw_with_spin c (Ret (rw_at (rw_wake_front c) t RwIdle))
  | WdCas =>
      if rw_state c =? WRITER_LOCKED then Ret (rw_at (rw_set_state c 0) t RwIdle) else Ret (rw_at c t WdStore)
  | WdStore => Ret (rw_at (rw_set_state c 0) t RdWake)
  | DgLoad => Ret (rw_at c t (DgCas (rw_state c)))
  | DgCas state =>
      if rw_state c =? state then
        v ← arith USIZE_BITS (Z.land state (bitnot USIZE_BITS WRITER_LOCKED) + READER_UNIT);
        Ret (rw_at (rw_set_state c v) t DgWake)
      else Ret (rw_at c t (DgCas (rw_state c)))
  | DgWake => rw_with_spin c (Ret (rw_at (rw_wake_reader c) t RwRead))
  | RfRemove => rw_with_spin c (Ret (rw_at (rw_unlink c t) t RwIdle))
  | _ => Ret c
  end.

Inductive rw_action : Type :=
  | RwTryRead
  | RwTryWrite
  | RwNew (k : rw_kind)   (* [read()], [write()]: a new future *)
  | RwPoll
  | RwDropFuture
  | RwUnlock              (* drop of the guard *)
  | RwDowngrade
  | RwStep.

Definition rwlock_exec c t (a : rw_action) : outcome RwLock :=
  match a, rpc_of c t with
  | RwTryRead, RwIdle => Ret (rw_at c t TrLoad)
  | RwTryWrite, RwIdle => Ret (try_write c t)
  | RwNew k, RwIdle => Ret (rw_at c t (RwFuture (mkRwFuture k false false)))
  | RwPoll, RwFuture f => Ret (rw_at c t (RpLoad f 0))
  | RwDropFuture, RwFuture f => Ret (rw_at c t (if rf_queued f then RfRemove else RwIdle))
  | RwUnlock, RwRead => Ret (rw_at c t RdSub)
  | RwUnlock, RwWrite => Ret (rw_at c t WdCas)
  | RwDowngrade, RwWrite => Ret (rw_at c t DgLoad)
  | RwStep, (RpLoad _ _ | RpCas _ _ _ | RpClean _ | RpBits _ _ | RpRegister _ _ | RpEnqLock _ _ | RpEnqLoad _ _
            | RpEnqRetry _ _ | RpEnqMark _ | RpEnqPush _ | RpCheck _ _) => rw_poll_step c t (rpc_of c t)
  | RwStep, pc => rw_drop_step c t pc
  | _, _ => Ret c
  end.

Definition rwlock_reach : RwLock -> Prop := reach rwlock_exec (fun _ _ _ => True) rwlock_new.

(** ** The asynchronous reader-writer lock: exclusion, and a run that ends in sleep *)

(** *** The state word *)

(** [r] readers, the contended bit, a writer. *)
Definition word (r : Z) (b w : bool) : Z := 4 * r + 2 * Z.b2z b + Z.b2z w.

Lemma quad_div_mod x : x = 4 * (x / 4) + x mod 4.
Proof. apply Z.div_mod. lia. Qed.

Lemma quad_land r b q d : 0 <= b < 4 -> 0 <= d < 4 -> Z.land (4 * r + b) (4 * q + d) = 4 * Z.land r q + Z.land b d.
Proof.
  intros Hb Hd. rewrite (quad_div_mod (Z.land _ _)). f_equal.
  - f_equal. change 4 with (2 ^ 2). rewrite <- Z.shiftr_div_pow2, Z.shiftr_land, !Z.shiftr_div_pow2 by lia. change (2 ^ 2) with 4.
    f_equal; rewrite Z.add_comm, Z.mul_comm, Z.div_add, Z.div_small; lia.
  - change 4 with (2 ^ 2). rewrite <- Z.land_ones by lia.
    replace (Z.land (Z.land (2 ^ 2 * r + b) (2 ^ 2 * q + d)) (Z.ones 2))
      with (Z.land (Z.land (2 ^ 2 * r + b) (Z.ones 2)) (Z.land (2 ^ 2 * q + d) (Z.ones 2))).
    + rewrite !Z.land_ones by lia. change (2 ^ 2) with 4.
      f_equal; rewrite Z.add_comm, Z.mul_comm, Z.mod_add, Z.mod_small; lia.
    + apply Z.bits_inj. intros i. rewrite !Z.land_spec. by destruct (Z.testbit (Z.ones 2) i); rewrite ?andb_true_r, ?andb_false_r.
Qed.

Lemma quad_lor r b d : 0 <= b < 4 -> 0 <= d < 4 -> Z.lor (4 * r + b) d = 4 * r + Z.lor b d.
Proof.
  intros Hb Hd.
  assert (Hq : forall x, 0 <= x < 4 -> 4 * r + x = Z.lor (Z.shiftl r 2) x).
  { intros x Hx. pose proof (quad_land r 0 0 x ltac:(lia) Hx) as Hl. cbn in Hl. rewrite Z.land_0_r, Z.add_0_r in Hl.
    replace (Z.shiftl r 2) with (4 * r) by (rewrite Z.shiftl_mul_pow2; lia).
    by rewrite <- Z.lxor_lor, <- Z.add_nocarry_lxor. }
  assert (0 <= Z.lor b d < 4).
  { assert (b = 0 \/ b = 1 \/ b = 2 \/ b = 3) as [-> | [-> | [-> | ->]]] by lia;
      assert (d = 0 \/ d = 1 \/ d = 2 \/ d = 3) as [-> | [-> | [-> | ->]]] by lia; by vm_compute. }
  rewrite !Hq by lia. by rewrite Z.lor_assoc.
Qed.

Section word.
Context (r : Z) (Hr : 0 <= r < 2 ^ 62).

Lemma land_readers : Z.land r (2 ^ 62 - 1) = r.
Proof. change (2 ^ 62 - 1) with (Z.ones 62). rewrite Z.land_ones by lia. apply Z.mod_small. lia. Qed.

Lemma word_quad b w : word r b w = 4 * r + (2 * Z.b2z b + Z.b2z w).
Proof. unfold word. lia. Qed.

Ltac word_land q d := rewrite word_quad; match goal with |- Z.land _ ?m = _ => change m with (4 * q + d) end;
  rewrite quad_land by (repeat match goal with b : bool |- _ => destruct b end; cbn; lia); rewrite ?Z.land_0_r, ?land_readers.

Lemma word_writer b w : Z.land (word r b w) WRITER_LOCKED = Z.b2z w.
Proof. word_land 0 1. by destruct b, w. Qed.
Lemma word_contended b w : Z.land (word r b w) RW_CONTENDED = 2 * Z.b2z b.
Proof. word_land 0 2. by destruct b, w. Qed.
Lemma word_readers b w : Z.land (word r b w) READER_MASK = 4 * r.
Proof. word_land (2 ^ 62 - 1) 0. lia. Qed.
Lemma word_uncontend b w : Z.land (word r b w) (bitnot USIZE_BITS RW_CONTENDED) = word r false w.
Proof. rewrite (word_quad false). word_land (2 ^ 62 - 1) 1. by destruct b, w. Qed.
Lemma word_unwrite b w : Z.land (word r b w) (bitnot USIZE_BITS WRITER_LOCKED) = word r b false.
Proof. rewrite (word_quad b false). word_land (2 ^ 62 - 1) 2. by destruct b, w. Qed.
Lemma word_contend b w : Z.lor (word r b w) RW_CONTENDED = word r true w.
Proof.
  rewrite !word_quad. change RW_CONTENDED with 2. rewrite quad_lor by (destruct b, w; cbn; lia). by destruct b, w.
Qed.
Lemma word_range b w : 0 <= word r b w < 2 ^ 64.
Proof. unfold word. destruct b, w; cbn; lia. Qed.
End word.

(** *** The invariant *)

Implicit Types (R : gset nat) (wo : option nat).

Definition reads (pc : rw_pc) : bool :=
  match pc with RwRead | RdSub | RpClean KIND_READER | RpBits KIND_READER _ | DgWake => true | _ => false end.
Definition writes (pc : rw_pc) : bool :=
  match pc with
  | RwWrite | WdCas | WdStore | RpClean KIND_WRITER | RpBits KIND_WRITER _ | DgLoad | DgCas _ => true
  | _ => false
  end.
Definition rw_spins (pc : rw_pc) : bool :=
  match pc with RpBits _ _ | RpEnqLoad _ _ | RpEnqRetry _ _ | RpEnqMark _ | RpEnqPush _ => true | _ => false end.
Definition rw_may_be_linked (pc : rw_pc) : bool :=
  match pc with
  | RwFuture f | RpLoad f _ | RpCas f _ _ | RpRegister f _ => rf_queued f
  | RpClean _ | RpCheck _ _ | RfRemove => true
  | _ => false
  end.

Definition is_some {A : Type} (o : option A) : bool := match o with Some _ => true | None => false end.

(** The values a compare_exchange expects: a state in which it may acquire. *)
Definition pc_sound (pc : rw_pc) : Prop :=
  match pc with
  | RpCas f _ state => can_acquire f state = true /\ (rf_kind f = KIND_READER -> Z.land state READER_MASK <> READER_MASK)
  | TrCas state => Z.land state WRITER_LOCKED = 0 /\ Z.land state READER_MASK <> READER_MASK
  | RpCheck f _ => rf_queued f = true
  | _ => True
  end.

(** [R] has the readers, [wo] is the writer. *)
Record rw_inv c R wo : Prop := {
  ri_reads : forall t, reads (rpc_of c t) = true <-> t ∈ R;
  ri_writes : forall t, writes (rpc_of c t) = true <-> wo = Some t;
  ri_word : exists b, rw_state c = word (Z.of_nat (size R)) b (is_some wo);
  ri_range : Z.of_nat (size R) < 2 ^ 62;
  ri_excl : is_some wo = true -> R = ∅;
  ri_spin : forall t, rw_spins (rpc_of c t) = true <-> rw_spin c = Some t;
  ri_nodup : NoDup (rw_waiters c);
  ri_linked : forall t, t ∈ rw_waiters c -> rw_may_be_linked (rpc_of c t) = true;
  ri_sound : forall t, pc_sound (rpc_of c t)
}.

(** What a step of thread [t] to [pc'] has to give. *)
Lemma rw_moves c c' t pc' R wo R' wo' : rw_inv c R wo -> rw_pcs c' = <[t := pc']> (rw_pcs c) ->
  (forall t', t' <> t -> (t' ∈ R' <-> t' ∈ R)) -> (t ∈ R' <-> reads pc' = true) ->
  (forall t', t' <> t -> (wo' = Some t' <-> wo = Some t')) -> (wo' = Some t <-> writes pc' = true) ->
  (exists b, rw_state c' = word (Z.of_nat (size R')) b (is_some wo')) -> Z.of_nat (size R') < 2 ^ 62 ->
  (is_some wo' = true -> R' = ∅) ->
  (if rw_spins pc' then rw_spin c' = Some t /\ (rw_spin c = None \/ rw_spin c = Some t)
   else rw_spin c' = (if rw_spins (rpc_of c t) then None else rw_spin c)) ->
  NoDup (rw_waiters c') ->
  (forall t', t' ∈ rw_waiters c' -> if decide (t' = t) then rw_may_be_linked pc' = true else t' ∈ rw_waiters c) ->
  pc_sound pc' -> rw_inv c' R' wo'.
Proof.
  intros Hi Hp HR Hr HW Hw Hst Hrg Hex Hsp Hnd Hln Hso.
  assert (Hpc : forall t', rpc_of c' t' = if decide (t' = t) then pc' else rpc_of c t').
  { intros t'. unfold rpc_of. rewrite Hp. apply pc_at_insert. }
  pose proof (ri_spin _ _ _ Hi) as Hspin.
  split; try done.
  - intros t1. rewrite Hpc. destruct (decide (t1 = t)) as [-> |]; [by rewrite Hr |]. rewrite HR by done. apply Hi.
  - intros t1. rewrite Hpc. destruct (decide (t1 = t)) as [-> |]; [by rewrite Hw |]. rewrite HW by done. apply Hi.
  - intros t1. rewrite Hpc. destruct (decide (t1 = t)) as [-> | Hne].
    + destruct (rw_spins pc'); [tauto |]. rewrite Hsp. specialize (Hspin t). destruct (rw_spins (rpc_of c t)); [done |]. naive_solver.
    + rewrite Hspin. destruct (rw_spins pc').
      * destruct Hsp as [-> [-> | ->]]; split; congruence.
      * rewrite Hsp. specialize (Hspin t). destruct (rw_spins (rpc_of c t)) eqn:E; [| done].
        assert (rw_spin c = Some t) as -> by tauto. split; congruence.
  - intros t1 H1. specialize (Hln t1 H1). rewrite Hpc. destruct (decide (t1 = t)); [done |]. by apply (ri_linked _ _ _ Hi).
  - intros t1. rewrite Hpc. destruct (decide (t1 = t)); [done |]. apply (ri_sound _ _ _ Hi).
Qed.

(** Steps that change nobody's hold on the lock; the contended bit may change. *)
Lemma rw_keeps c c' t pc' R wo : rw_inv c R wo -> rw_pcs c' = <[t := pc']> (rw_pcs c) ->
  (exists b, rw_state c' = word (Z.of_nat (size R)) b (is_some wo)) ->
  reads pc' = reads (rpc_of c t) -> writes pc' = writes (rpc_of c t) ->
  (if rw_spins pc' then rw_spin c' = Some t /\ (rw_spin c = None \/ rw_spin c = Some t)
   else rw_spin c' = (if rw_spins (rpc_of c t) then None else rw_spin c)) ->
  NoDup (rw_waiters c') ->
  (forall t', t' ∈ rw_waiters c' -> if decide (t' = t) then rw_may_be_linked pc' = true else t' ∈ rw_waiters c) ->
  pc_sound pc' -> rw_inv c' R wo.
Proof.
  intros Hi Hp Hst Hr Hw Hsp Hnd Hln Hso. eapply (rw_moves c c' t pc' R wo R wo Hi Hp); try done.
  - rewrite Hr. by rewrite (ri_reads _ _ _ Hi).
  - rewrite Hw. by rewrite (ri_writes _ _ _ Hi).
  - apply Hi.
  - apply Hi.
Qed.

(** Steps that leave word, queue and spin lock alone. *)
Lemma rw_quiet c c' t pc' R wo : rw_inv c R wo -> rw_pcs c' = <[t := pc']> (rw_pcs c) ->
  rw_state c' = rw_state c -> rw_waiters c' = rw_waiters c -> rw_spin c' = rw_spin c ->
  reads pc' = reads (rpc_of c t) -> writes pc' = writes (rpc_of c t) -> rw_spins pc' = rw_spins (rpc_of c t) ->
  (rw_may_be_linked (rpc_of c t) = true -> t ∈ rw_waiters c -> rw_may_be_linked pc' = true) ->
  pc_sound pc' -> rw_inv c' R wo.
Proof.
  intros Hi Hp Hs Hwt Hsp Hr Hw Hn Hl Hso. pose proof (ri_spin _ _ _ Hi t) as Hst.
  eapply (rw_keeps c c' t pc' R wo Hi Hp); rewrite ?Hs, ?Hwt, ?Hsp, ?Hr, ?Hw, ?Hn; try done.
  - apply Hi.
  - destruct (rw_spins (rpc_of c t)); [| done]. split; [tauto | right; tauto].
  - apply Hi.
  - intros t' Hin. destruct (decide (t' = t)) as [-> |]; [| done]. apply Hl; [by apply (ri_linked _ _ _ Hi) | done].
Qed.

Ltac rw_quiet_by Hi Hp := eapply (rw_quiet _ _ _ _ _ _ Hi); [reflexivity | reflexivity | reflexivity | reflexivity | ..];
  rewrite ?Hp; cbn; try done.

Lemma size_range R : 0 <= Z.of_nat (size R).
Proof. lia. Qed.

Lemma no_hold c R wo t : rw_inv c R wo -> reads (rpc_of c t) = false -> t ∉ R.
Proof. intros Hi Hr Hin. apply (ri_reads _ _ _ Hi) in Hin. congruence. Qed.

Lemma no_writer wo : is_some wo = false -> wo = None.
Proof. by destruct wo. Qed.

Lemma rw_linked_keep c t pc : (t ∈ rw_waiters c -> rw_may_be_linked pc = true) ->
  forall t', t' ∈ rw_waiters c -> if decide (t' = t) then rw_may_be_linked pc = true else t' ∈ rw_waiters c.
Proof. intros Ht t' Hin. destruct (decide (t' = t)) as [-> |]; auto. Qed.

Lemma acquire_read c R wo t pc' : rw_inv c R wo -> reads pc' = true -> writes pc' = false -> rw_spins pc' = false ->
  pc_sound pc' -> reads (rpc_of c t) = false -> writes (rpc_of c t) = false -> rw_spins (rpc_of c t) = false ->
  (t ∈ rw_waiters c -> rw_may_be_linked pc' = true) ->
  Z.land (rw_state c) WRITER_LOCKED = 0 -> Z.land (rw_state c) READER_MASK <> READER_MASK ->
  exists R' wo', rw_inv (rw_at (rw_set_state c (rw_state c + READER_UNIT)) t pc') R' wo'.
Proof.
  intros Hi Hr Hw Hs Hso Hr' Hw' Hs' Hl Hwr Hmax. destruct (ri_word _ _ _ Hi) as [b Hb]. pose proof (ri_range _ _ _ Hi) as Hrg.
  rewrite Hb in Hwr, Hmax. rewrite word_writer in Hwr by lia. rewrite word_readers in Hmax by lia.
  assert (Hwo : wo = None) by (destruct wo; [done |]; done). subst wo.
  pose proof (no_hold _ _ _ _ Hi Hr') as Hn.
  assert (Hsz : Z.of_nat (size ({[t]} ∪ R)) = Z.of_nat (size R) + 1) by (rewrite size_union, size_singleton by set_solver; lia).
  exists ({[t]} ∪ R), None. eapply (rw_moves c _ t pc' R None _ _ Hi); [reflexivity | ..]; try done.
  - set_solver.
  - rewrite Hr. set_solver.
  - by rewrite Hw.
  - exists b. cbn [rw_state rw_at rw_set_state is_some]. rewrite Hb, Hsz. unfold word. change READER_UNIT with 4. cbn [is_some]. lia.
  - rewrite Hsz. change READER_MASK with (4 * (2 ^ 62 - 1)) in Hmax. lia.
  - by rewrite Hs, Hs'.
  - apply Hi.
  - by apply (rw_linked_keep c t pc').
Qed.

(** A word without readers and writer. *)
Lemma word_free c R wo b : rw_inv c R wo -> rw_state c = word (Z.of_nat (size R)) b (is_some wo) ->
  Z.land (rw_state c) (bitnot USIZE_BITS RW_CONTENDED) = 0 -> R = ∅ /\ wo = None.
Proof.
  intros Hi Hb Hz. pose proof (ri_range _ _ _ Hi) as Hrg. rewrite Hb in Hz. rewrite word_uncontend in Hz by lia. unfold word in Hz.
  assert (size R = 0%nat /\ is_some wo = false) as [Hs Hw] by (destruct wo; cbn in *; split; (lia || done)).
  split; [by apply size_empty_inv, leibniz_equiv in Hs | by apply no_writer].
Qed.

Lemma acquire_write c R wo t pc' : rw_inv c R wo -> reads pc' = false -> writes pc' = true -> rw_spins pc' = false ->
  pc_sound pc' -> reads (rpc_of c t) = false -> rw_spins (rpc_of c t) = false ->
  (t ∈ rw_waiters c -> rw_may_be_linked pc' = true) ->
  Z.land (rw_state c) (bitnot USIZE_BITS RW_CONTENDED) = 0 ->
  exists R' wo', rw_inv (rw_at (rw_set_state c (Z.lor WRITER_LOCKED (Z.land (rw_state c) RW_CONTENDED))) t pc') R' wo'.
Proof.
  intros Hi Hr Hw Hs Hso Hr' Hs' Hl Hz. destruct (ri_word _ _ _ Hi) as [b Hb].
  destruct (word_free _ _ _ _ Hi Hb Hz) as [-> ->].
  exists ∅, (Some t). eapply (rw_moves c _ t pc' ∅ None _ _ Hi); [reflexivity | ..]; try done.
  - rewrite Hr. set_solver.
  - intros t' Hne. split; [congruence | done].
  - exists b. cbn [rw_state rw_at rw_set_state is_some]. rewrite Hb, word_contended by (rewrite size_empty; lia). rewrite size_empty. by destruct b.
  - by rewrite Hs, Hs'.
  - apply Hi.
  - by apply (rw_linked_keep c t pc').
Qed.

Lemma release_write c R wo t pc' : rw_inv c R wo -> reads pc' = false -> writes pc' = false -> rw_spins pc' = false ->
  pc_sound pc' -> writes (rpc_of c t) = true -> rw_spins (rpc_of c t) = false ->
  (t ∈ rw_waiters c -> rw_may_be_linked pc' = true) ->
  exists R' wo', rw_inv (rw_at (rw_set_state c 0) t pc') R' wo'.
Proof.
  intros Hi Hr Hw Hs Hso Hw' Hs' Hl. apply (ri_writes _ _ _ Hi) in Hw' as Hwo. subst wo.
  pose proof (ri_excl _ _ _ Hi eq_refl) as ->.
  exists ∅, None. eapply (rw_moves c _ t pc' ∅ (Some t) _ _ Hi); [reflexivity | ..]; try done.
  - rewrite Hr. set_solver.
  - intros t' Hne. split; [done | congruence].
  - by rewrite Hw.
  - exists false. cbn. by rewrite size_empty.
  - by rewrite Hs, Hs'.
  - apply Hi.
  - by apply (rw_linked_keep c t pc').
Qed.

Lemma release_read c R wo t pc' : rw_inv c R wo -> reads pc' = false -> writes pc' = false -> rw_spins pc' = false ->
  pc_sound pc' -> reads (rpc_of c t) = true -> rw_spins (rpc_of c t) = false ->
  (t ∈ rw_waiters c -> rw_may_be_linked pc' = true) ->
  exists R' wo', rw_inv (rw_at (rw_set_state c (wrapping_sub USIZE_BITS (rw_state c) READER_UNIT)) t pc') R' wo'.
Proof.
  intros Hi Hr Hw Hs Hso Hr' Hs' Hl. apply (ri_reads _ _ _ Hi) in Hr' as Hin. destruct (ri_word _ _ _ Hi) as [b Hb].
  pose proof (ri_range _ _ _ Hi) as Hrg.
  assert (wo = None) as -> by (destruct wo; [| done]; rewrite (ri_excl _ _ _ Hi eq_refl) in Hin; set_solver).
  assert (Hsz : Z.of_nat (size R) = Z.of_nat (size (R ∖ {[t]})) + 1).
  { rewrite (union_difference_L {[t]} R) at 1 by set_solver. rewrite size_union, size_singleton by set_solver. lia. }
  exists (R ∖ {[t]}), None. eapply (rw_moves c _ t pc' R None _ _ Hi); [reflexivity | ..]; try done.
  - set_solver.
  - rewrite Hr. set_solver.
  - by rewrite Hw.
  - exists b. cbn [rw_state rw_at rw_set_state is_some]. rewrite Hb, Hsz. unfold wrapping_sub, wrap, word. change READER_UNIT with 4. cbn [is_some Z.b2z].
    rewrite Z.mod_small; [lia |]. change (2 ^ USIZE_BITS) with (2 ^ 64). destruct b; cbn; lia.
  - lia.
  - by rewrite Hs, Hs'.
  - apply Hi.
  - by apply (rw_linked_keep c t pc').
Qed.

(** *** Every step *)

Definition rw_safe (o : outcome RwLock) : Prop := exists c', o = Ret c' /\ exists R wo, rw_inv c' R wo.

Lemma wake_keeps_rw c n : rw_state (rw_wake c n) = rw_state c /\ rw_waiters (rw_wake c n) = rw_waiters c /\
  rw_spin (rw_wake c n) = rw_spin c /\ rw_pcs (rw_wake c n) = rw_pcs c.
Proof. unfold rw_wake. by destruct (bool_decide _). Qed.

Lemma wake_reader_keeps c : rw_state (rw_wake_reader c) = rw_state c /\ rw_waiters (rw_wake_reader c) = rw_waiters c /\
  rw_spin (rw_wake_reader c) = rw_spin c /\ rw_pcs (rw_wake_reader c) = rw_pcs c.
Proof.
  assert (rw_wake_reader c = c \/ exists n, rw_wake_reader c = rw_wake c n) as [-> | [n ->]]; [| done | apply wake_keeps_rw].
  unfold rw_wake_reader. destruct (rw_waiters c) as [| n l]; [by left |]. destruct (bool_decide _); [right; by exists n | by left].
Qed.

Lemma rw_not_linked c R wo t : rw_inv c R wo -> rw_may_be_linked (rpc_of c t) = false -> t ∉ rw_waiters c.
Proof. intros Hi Hl Hin. apply (ri_linked _ _ _ Hi) in Hin. congruence. Qed.

Lemma linked_queued c R wo t : rw_inv c R wo -> t ∈ rw_waiters c -> rw_may_be_linked (rpc_of c t) = true.
Proof. intros Hi. apply Hi. Qed.

Lemma rw_load_inv c R wo t f n : rw_inv c R wo -> rpc_of c t = RpLoad f n ->
  rw_safe (rw_poll_step c t (RpLoad f n)) \/
  rw_poll_step c t (RpLoad f n) = Fault ExplicitPanic /\ Z.of_nat (size R) = 2 ^ 62 - 1.
Proof.
  intros Hi Hp. cbn [rw_poll_step]. destruct (can_acquire f (rw_state c)) eqn:Hc.
  - destruct (rf_kind f) eqn:Hk.
    + destruct (Z.eqb_spec (Z.land (rw_state c) READER_MASK) READER_MASK) as [Hm | Hm].
      * right. split; [done |]. destruct (ri_word _ _ _ Hi) as [b Hb]. pose proof (ri_range _ _ _ Hi).
        rewrite Hb, word_readers in Hm by lia. change READER_MASK with (4 * (2 ^ 62 - 1)) in Hm. lia.
      * left. eexists. split; [done |]. exists R, wo. rw_quiet_by Hi Hp.
    + left. eexists. split; [done |]. exists R, wo. rw_quiet_by Hi Hp. by rewrite Hk.
  - left. destruct (_ && _); (eexists; split; [done |]; exists R, wo; rw_quiet_by Hi Hp).
Qed.

Lemma rw_cas_inv c R wo t f n st : rw_inv c R wo -> rpc_of c t = RpCas f n st -> rw_safe (rw_poll_step c t (RpCas f n st)).
Proof.
  intros Hi Hp. pose proof (ri_sound _ _ _ Hi t) as Hso. rewrite Hp in Hso. destruct Hso as [Hc Hm]. cbn [rw_poll_step].
  destruct (Z.eqb_spec (rw_state c) st) as [<- | Hne]; (eexists; split; [done |]).
  2: { exists R, wo. rw_quiet_by Hi Hp. }
  assert (Hl : t ∈ rw_waiters c -> rw_may_be_linked (if has_priority f then RpClean (rf_kind f) else guard_pc (rf_kind f)) = true).
  { intros Hin%(linked_queued _ _ _ _ Hi). rewrite Hp in Hin. cbn in Hin. unfold has_priority. by rewrite Hin. }
  unfold acquire_target, can_acquire in *. destruct (rf_kind f).
  - apply andb_true_iff in Hc as [Hc _]. apply Z.eqb_eq in Hc.
    apply (acquire_read c R wo t _ Hi); rewrite ?Hp; try done; try (by destruct (has_priority f)). by apply Hm.
  - apply (acquire_write c R wo t _ Hi); rewrite ?Hp; try done; try (by destruct (has_priority f)).
    destruct (has_priority f); [by apply Z.eqb_eq in Hc |]. apply Z.eqb_eq in Hc as ->. done.
Qed.

Lemma rw_queue_inv c R wo t : rw_inv c R wo ->
  match rpc_of c t with
  | RpClean _ | RpBits _ _ | RpRegister _ _ | RpEnqLock _ _ | RpEnqLoad _ _ | RpEnqRetry _ _ | RpEnqMark _ | RpEnqPush _
  | RpCheck _ _ => True
  | _ => False
  end -> rw_safe (rw_poll_step c t (rpc_of c t)).
Proof.
  intros Hi Hpc. pose proof (ri_nodup _ _ _ Hi) as Hnd. pose proof (ri_word _ _ _ Hi) as Hw. pose proof (ri_range _ _ _ Hi) as Hrg.
  pose proof (ri_spin _ _ _ Hi t) as Hsp. pose proof (ri_sound _ _ _ Hi t) as Hso.
  pose proof (fun Hf => rw_not_linked c R wo t Hi Hf) as Hn.
  destruct (rpc_of c t) as [] eqn:Hp; try done; cbn [rw_poll_step]; cbn in Hsp; unfold rw_with_spin.
  - destruct (rw_spin c) eqn:Es; [by exists c; eauto |]. eexists. split; [done |]. exists R, wo.
    eapply (rw_keeps c _ t _ R wo Hi); [reflexivity | ..]; rewrite ?Hp; cbn; try done; try (by destruct k).
    + rewrite Es. auto.
    + by apply NoDup_filter.
    + intros t' Hin. apply list_elem_of_filter in Hin as [Hne Hin]. by rewrite decide_False.
  - destruct Hw as [b Hb]. eexists. split; [done |]. exists R, wo.
    assert (Hst : exists b', (if empty then Z.land (rw_state c) (bitnot USIZE_BITS RW_CONTENDED) else Z.lor (rw_state c) RW_CONTENDED)
      = word (Z.of_nat (size R)) b' (is_some wo)).
    { rewrite Hb. destruct empty; [exists false; apply word_uncontend; lia | exists true; apply word_contend; lia]. }
    set (c1 := rw_set_state c _). destruct (wake_reader_keeps c1) as (Ks & Kw & Kp & Km).
    destruct k; (eapply (rw_keeps c _ t _ R wo Hi); cbn; rewrite ?Ks, ?Kw, ?Kp, ?Km, ?Hp; cbn; try done;
      apply (rw_linked_keep c t RwRead); intros Hin; by apply Hn in Hin).
  - eexists. split; [done |]. exists R, wo. destruct (rf_queued f) eqn:Hq; rw_quiet_by Hi Hp; by rewrite Hq.
  - destruct (rw_spin c) eqn:Es; [by exists c; eauto |]. eexists. split; [done |]. exists R, wo.
    eapply (rw_keeps c _ t _ R wo Hi); [reflexivity | ..]; rewrite ?Hp; cbn; try done; [by rewrite Es; auto |].
    apply (rw_linked_keep c t RwIdle). intros Hin. by apply Hn in Hin.
  - destruct (can_retry _ _ _); [| destruct (_ =? _)]; (eexists; split; [done |]; exists R, wo; rw_quiet_by Hi Hp).
  - eexists. split; [done |]. exists R, wo.
    eapply (rw_keeps c _ t _ R wo Hi); [reflexivity | ..]; rewrite ?Hp; cbn; try done.
    apply (rw_linked_keep c t (RpLoad f spin)). intros Hin. by apply Hn in Hin.
  - destruct Hw as [b Hb]. eexists. split; [done |]. exists R, wo.
    eapply (rw_keeps c _ t _ R wo Hi); [reflexivity | ..]; rewrite ?Hp; cbn; try done.
    + exists true. rewrite Hb. apply word_contend.
    + split; [tauto | right; tauto].
    + apply (rw_linked_keep c t RwIdle). intros Hin. by apply Hn in Hin.
  - unfold rw_push. rewrite bool_decide_eq_false_2 by (by apply Hn). rewrite bind_ret. eexists. split; [done |]. exists R, wo.
    eapply (rw_keeps c _ t _ R wo Hi); [reflexivity | ..]; rewrite ?Hp; cbn; try done.
    + apply NoDup_app. specialize (Hn eq_refl). split_and!; [done | set_solver | apply NoDup_singleton].
    + intros t' Hin. destruct (decide (t' = t)); [done |]. set_solver.
  - destruct (rw_spin c) eqn:Es; [by exists c; eauto |]. eexists. split; [done |]. exists R, wo.
    destruct (bool_decide_reflect (t ∈ rw_waiters c)); rw_quiet_by Hi Hp.
Qed.

Lemma rw_drop_inv c R wo t : rw_inv c R wo ->
  match rpc_of c t with
  | TrLoad | TrCas _ | RdSub | RdWake | WdCas | WdStore | DgLoad | DgCas _ | DgWake | RfRemove => True
  | _ => False
  end -> rw_safe (rw_drop_step c t (rpc_of c t)).
Proof.
  intros Hi Hpc. pose proof (ri_nodup _ _ _ Hi) as Hnd. pose proof (ri_range _ _ _ Hi) as Hrg.
  pose proof (ri_sound _ _ _ Hi t) as Hso. pose proof (fun Hf => rw_not_linked c R wo t Hi Hf) as Hn.
  assert (Htr : reads (rpc_of c t) = false -> writes (rpc_of c t) = false -> rw_spins (rpc_of c t) = false ->
    rw_may_be_linked (rpc_of c t) = false -> exists R' wo', rw_inv (try_read_dispatch c t (rw_state c)) R' wo').
  { intros H1 H2 H3 H4. exists R, wo. unfold try_read_dispatch. destruct (Z.eqb_spec (Z.land (rw_state c) WRITER_LOCKED) 0);
      cbn [negb]; [destruct (_ =? 0); cbn [negb]; [destruct (Z.eqb_spec (Z.land (rw_state c) READER_MASK) READER_MASK) |] |];
      (eapply (rw_quiet _ _ _ _ _ _ Hi); [reflexivity | reflexivity | reflexivity | reflexivity | ..]; rewrite ?H1, ?H2, ?H3, ?H4; done). }
  destruct (rpc_of c t) as [] eqn:Hp; try done; cbn [rw_drop_step]; unfold rw_with_spin.
  - eexists. split; [done |]. by apply Htr.
  - destruct (Z.eqb_spec (rw_state c) state) as [<- | Hne]; (eexists; split; [done |]); [| by apply Htr].
    destruct Hso as [Hw Hm]. apply (acquire_read c R wo t _ Hi); rewrite ?Hp; try done. intros Hin. by apply Hn in Hin.
  - eexists. split; [done |]. apply (release_read c R wo t _ Hi); rewrite ?Hp; try done; try (by destruct (_ && _)).
    intros Hin. by apply Hn in Hin.
  - destruct (rw_spin c) eqn:Es; [by exists c; eauto |]. eexists. split; [done |]. exists R, wo.
    unfold rw_wake_front. specialize (Hn eq_refl). destruct (rw_waiters c) as [| n l] eqn:Ew.
    { rw_quiet_by Hi Hp. }
    destruct (wake_keeps_rw (rw_set_waiters c l) n) as (Ks & Kw & Kp & Km).
    eapply (rw_keeps c _ t RwIdle R wo Hi); cbn; rewrite ?Ks, ?Kw, ?Kp, ?Km, ?Hp; cbn; try done.
    + apply Hi.
    + by apply NoDup_cons in Hnd as [_ Hnd].
    + rewrite Ew. intros t' Hin. destruct (decide (t' = t)) as [-> |]; set_solver.
  - destruct (_ =? _); (eexists; split; [done |]); [| exists R, wo; rw_quiet_by Hi Hp].
    apply (release_write c R wo t _ Hi); rewrite ?Hp; try done. intros Hin. by apply Hn in Hin.
  - eexists. split; [done |]. apply (release_write c R wo t _ Hi); rewrite ?Hp; try done. intros Hin. by apply Hn in Hin.
  - eexists. split; [done |]. exists R, wo. rw_quiet_by Hi Hp.
  - destruct (Z.eqb_spec (rw_state c) state) as [<- | Hne].
    2: { eexists. split; [done |]. exists R, wo. rw_quiet_by Hi Hp. }
    assert (wo = Some t) as -> by (apply (ri_writes _ _ _ Hi); by rewrite Hp).
    pose proof (ri_excl _ _ _ Hi eq_refl) as ->. destruct (ri_word _ _ _ Hi) as [b Hb]. rewrite size_empty in Hb.
    rewrite Hb, word_unwrite by lia. unfold arith, checked.
    replace ((0 <=? word (Z.of_nat 0) b false + READER_UNIT) && (word (Z.of_nat 0) b false + READER_UNIT <? 2 ^ USIZE_BITS)) with true
      by (by destruct b). rewrite bind_ret. eexists. split; [done |]. exists {[t]}, None.
    eapply (rw_moves c _ t DgWake ∅ (Some t) {[t]} None Hi); [reflexivity | ..]; rewrite ?Hp; try done.
    + set_solver.
    + set_solver.
    + intros t' Hne. split; [done | congruence].
    + exists b. cbn. rewrite size_singleton. by destruct b.
    + rewrite size_singleton. lia.
    + apply (rw_linked_keep c t DgWake). intros Hin. by apply Hn in Hin.
  - destruct (rw_spin c) eqn:Es; [by exists c; eauto |]. eexists. split; [done |]. exists R, wo.
    destruct (wake_reader_keeps c) as (Ks & Kw & Kp & Km).
    eapply (rw_quiet c _ t RwRead R wo Hi); cbn; rewrite ?Ks, ?Kw, ?Kp, ?Km, ?Hp; done.
  - destruct (rw_spin c) eqn:Es; [by exists c; eauto |]. eexists. split; [done |]. exists R, wo.
    eapply (rw_keeps c _ t _ R wo Hi); [reflexivity | ..]; rewrite ?Hp; cbn; try done.
    + apply Hi.
    + by apply NoDup_filter.
    + intros t' Hin. apply list_elem_of_filter in Hin as [Hne Hin]. by rewrite decide_False.
Qed.

Lemma rwlock_exec_inv c R wo t a : rw_inv c R wo ->
  rw_safe (rwlock_exec c t a) \/ rwlock_exec c t a = Fault ExplicitPanic /\ Z.of_nat (size R) = 2 ^ 62 - 1.
Proof.
  intros Hi. assert (Hs : rw_safe (Ret c)) by (exists c; eauto). unfold rwlock_exec. destruct a.
  - left. destruct (rpc_of c t) eqn:Hp; try done. eexists. split; [done |]. exists R, wo. rw_quiet_by Hi Hp.
  - left. destruct (rpc_of c t) eqn:Hp; try done. eexists. split; [done |]. unfold try_write.
    destruct (Z.eqb_spec (rw_state c) 0) as [Hz | Hz]; [| by eauto].
    replace WRITER_LOCKED with (Z.lor WRITER_LOCKED (Z.land (rw_state c) RW_CONTENDED)) by (by rewrite Hz).
    apply (acquire_write c R wo t _ Hi); rewrite ?Hp; try done; [| by rewrite Hz].
    intros Hin%(linked_queued _ _ _ _ Hi). by rewrite Hp in Hin.
  - left. destruct (rpc_of c t) eqn:Hp; try done. eexists. split; [done |]. exists R, wo. rw_quiet_by Hi Hp.
  - left. destruct (rpc_of c t) eqn:Hp; try done. eexists. split; [done |]. exists R, wo. rw_quiet_by Hi Hp.
  - left. destruct (rpc_of c t) eqn:Hp; try done. eexists. split; [done |]. exists R, wo.
    destruct (rf_queued f) eqn:Hq; rw_quiet_by Hi Hp. by rewrite Hq.
  - left. destruct (rpc_of c t) eqn:Hp; try done; (eexists; split; [done |]; exists R, wo; rw_quiet_by Hi Hp).
  - left. destruct (rpc_of c t) eqn:Hp; try done. eexists. split; [done |]. exists R, wo. rw_quiet_by Hi Hp.
  - pose proof (rw_queue_inv c R wo t Hi) as H2. pose proof (rw_drop_inv c R wo t Hi) as H3.
    destruct (rpc_of c t) eqn:Hp; try (left; exact Hs); try (left; by apply H2); try (left; by apply H3).
    + by apply (rw_load_inv c R wo t).
    + left. by apply (rw_cas_inv c R wo t).
Qed.

Lemma rwlock_reach_inv c : rwlock_reach c -> exists R wo, rw_inv c R wo.
Proof.
  apply (reach_invariant _ _ _ (fun c => exists R wo, rw_inv c R wo)).
  - exists ∅, None. assert (Hp : forall t, rpc_of rwlock_new t = RwIdle) by done. split; try done.
    + by exists false.
    + constructor.
    + by intros t ?%elem_of_nil.
  - intros s t a s' (R & wo & Hi) _ He. destruct (rwlock_exec_inv s R wo t a Hi) as [(c' & He' & Hi') | [He' _]].
    + rewrite He in He'. by injection He' as <-.
    + by rewrite He in He'.
Qed.

(** C35 The reader-writer lock excludes: in every interleaving of read and write
    futures, [try_read], [try_write], downgrades and drops there is at most one
    writer and never a writer together with a reader; the state word counts the
    readers and the writer exactly, so that it never wraps; and no call panics
    but by the reader overflow check, with 2^62 - 1 readers. *)
Theorem rwlock_excludes c t a (Hc : rwlock_reach c) :
  ((exists c', rwlock_exec c t a = Ret c') \/
   rwlock_exec c t a = Fault ExplicitPanic /\ Z.land (rw_state c) READER_MASK = READER_MASK) /\
  (forall t1 t2, writes (rpc_of c t1) = true -> writes (rpc_of c t2) = true -> t1 = t2) /\
  (forall t1 t2, writes (rpc_of c t1) = true -> reads (rpc_of c t2) = false) /\
  exists (R : gset nat) (b : bool), (forall t', t' ∈ R <-> reads (rpc_of c t') = true) /\
    Z.of_nat (size R) < 2 ^ 62 /\
    rw_state c = 4 * Z.of_nat (size R) + (if b then RW_CONTENDED else 0) + Z.land (rw_state c) WRITER_LOCKED /\
    (Z.land (rw_state c) WRITER_LOCKED = 0 <-> forall t', writes (rpc_of c t') = false).
Proof.
  apply rwlock_reach_inv in Hc as (R & wo & Hi). destruct (ri_word _ _ _ Hi) as [b Hb]. pose proof (ri_range _ _ _ Hi) as Hrg.
  split_and!.
  - destruct (rwlock_exec_inv c R wo t a Hi) as [(c' & He & _) | [He Hs]]; [left; by exists c' | right]. split; [done |].
    rewrite Hb, word_readers by lia. change READER_MASK with (4 * (2 ^ 62 - 1)). lia.
  - intros t1 t2 H1%(ri_writes _ _ _ Hi) H2%(ri_writes _ _ _ Hi). congruence.
  - intros t1 t2 H1%(ri_writes _ _ _ Hi). destruct (reads (rpc_of c t2)) eqn:E; [| done].
    apply (ri_reads _ _ _ Hi) in E. subst wo. rewrite (ri_excl _ _ _ Hi eq_refl) in E. set_solver.
  - exists R, b. split_and!; [intros t'; symmetry; apply Hi | done | |].
    + rewrite Hb at 2. rewrite word_writer by lia. rewrite Hb. unfold word. change RW_CONTENDED with 2. by destruct b, wo; cbn; lia.
    + rewrite Hb, word_writer by lia. split.
      * intros Hz t'. destruct (writes (rpc_of c t')) eqn:E; [| done]. apply (ri_writes _ _ _ Hi) in E. by subst wo.
      * intros Hn. destruct wo as [t' |]; [| done]. assert (writes (rpc_of c t') = true) as E by (by apply (ri_writes _ _ _ Hi)).
        by rewrite Hn in E.
Qed.

(** *** Concrete runs *)

(** Thread 0 writes; the read future of thread 1 spins, locks the queue and sees
    the writer; the writer leaves on its fast path; the future then marks the
    lock and enqueues itself.  Thread 2 tries to read. *)
Definition rw_sleep_sched : list (nat * rw_action) :=
  [(0%nat, RwTryWrite); (1%nat, RwNew KIND_READER); (1%nat, RwPoll)] ++ accesses RwStep 1 104 ++
  [(0%nat, RwUnlock)] ++ accesses RwStep 0 1 ++ accesses RwStep 1 2.

Definition rw_sleep_config : RwLock := match run rwlock_exec rwlock_new rw_sleep_sched with Ret c => c | Fault _ => rwlock_new end.

Lemma rw_sleep_reach : rwlock_reach rw_sleep_config.
Proof.
  apply (run_reach rwlock_exec (fun _ _ _ => True) rwlock_new rw_sleep_sched rwlock_new); [constructor | by vm_compute | by vm_compute].
Qed.

Definition rw_written : RwLock := try_write rwlock_new 0.

Lemma rw_written_reach : rwlock_reach rw_written.
Proof. apply (run_reach rwlock_exec (fun _ _ _ => True) rwlock_new [(0%nat, RwTryWrite)] rwlock_new); [constructor | by vm_compute..]. Qed.

Lemma rwlock_excludes_witness : writes (rpc_of rw_written 0) = true /\ reads (rpc_of rw_written 1) = false.
Proof.
  assert (Hw : writes (rpc_of rw_written 0) = true) by (by vm_compute). split; [exact Hw |].
  destruct (rwlock_excludes rw_written 0 RwUnlock rw_written_reach) as (_ & _ & Hr & _). exact (Hr 0%nat 1%nat Hw).
Defined.

(** An executor polls a future that is new or was woken. *)
Definition polled_when_woken c t (a : rw_action) : Prop :=
  match a, rpc_of c t with
  | RwPoll, RwFuture f => rf_queued f = false \/ t ∈ rw_woken c
  | _, _ => True
  end.

(** Where threads are when nobody can acquire. *)
Definition dead_pc (pc : rw_pc) : Prop :=
  match pc with
  | RwIdle | TrLoad | RfRemove => True
  | RwFuture f => rf_woken f = false
  | RpLoad f _ | RpRegister f _ | RpEnqLock f _ | RpEnqLoad f _ | RpEnqRetry f _ | RpEnqMark f | RpEnqPush f =>
      has_priority f = false
  | _ => False
  end.

Definition dead c : Prop := rw_state c = RW_CONTENDED /\ rw_woken c = [] /\ forall t, dead_pc (rpc_of c t).

Lemma dead_moves c c' t pc' : dead c -> rw_pcs c' = <[t := pc']> (rw_pcs c) -> rw_state c' = RW_CONTENDED ->
  rw_woken c' = [] -> dead_pc pc' -> dead c'.
Proof.
  intros (_ & _ & Hd) Hp Hs Hw Hd'. split_and!; [done.. |]. intros t'. unfold rpc_of. rewrite Hp, pc_at_insert.
  destruct (decide (t' = t)); [done | apply Hd].
Qed.

Lemma dead_no_acquire f : has_priority f = false -> can_acquire f RW_CONTENDED = false.
Proof. intros Hp. unfold can_acquire, has_priority in *. rewrite Hp. by destruct (rf_kind f). Qed.

Ltac dead_by Hd := eapply (dead_moves _ _ _ _ Hd); [reflexivity | ..]; try done.

Lemma dead_step c t a c' : dead c -> polled_when_woken c t a -> rwlock_exec c t a = Ret c' -> dead c'.
Proof.
  intros Hd Ha He. pose proof Hd as (Hs & Hw & Hpc). specialize (Hpc t).
  unfold rwlock_exec, polled_when_woken in *. rewrite Hw in Ha.
  destruct a, (rpc_of c t) as [] eqn:Hp; cbn in Hpc; try done; cbn -[can_acquire can_retry] in He; unfold try_write in He;
    rewrite ?Hs in He; try (injection He as <-; done);
    try (injection He as <-; by dead_by Hd).
  - destruct Ha as [Hq | Hin]; [| by apply elem_of_nil in Hin]. injection He as <-. dead_by Hd.
    cbn. unfold has_priority. by rewrite Hq, Hpc.
  - injection He as <-. dead_by Hd. by destruct (rf_queued f).
  - rewrite dead_no_acquire in He by done. destruct (_ && _) in He; injection He as <-; by dead_by Hd.
  - assert (rf_queued f = false) as Hq by (unfold has_priority in Hpc; by destruct (rf_queued f)). rewrite Hq in He.
    injection He as <-. by dead_by Hd.
  - unfold rw_with_spin in He. destruct (rw_spin c); injection He as <-; [done |]. by dead_by Hd.
  - destruct (can_retry _ _ _); injection He as <-; by dead_by Hd.
  - unfold rw_push in He. destruct (bool_decide _); [done |]. rewrite bind_ret in He. injection He as <-.
    dead_by Hd. unfold has_priority in Hpc. cbn. by destruct (rf_queued f).
  - unfold rw_with_spin in He. destruct (rw_spin c); injection He as <-; [done |]. by dead_by Hd.
Qed.

(** The lock can die: a reader that found the lock written enqueues itself
    after the writer left on the path that does not look at the queue, and leaves
    a state word that is marked as contended though nobody holds the lock.  From
    then on nobody acquires it again, by any number of calls of any threads, as
    long as futures are polled when they are new or were woken; nobody is woken
    any more. *)
Theorem rwlock_dies :
  rwlock_reach rw_sleep_config /\
  forall c t, reach rwlock_exec polled_when_woken rw_sleep_config c ->
    reads (rpc_of c t) = false /\ writes (rpc_of c t) = false /\ rw_woken c = [].
Proof.
  split; [exact rw_sleep_reach |]. intros c t Hc.
  assert (dead c) as (_ & Hw & Hd).
  { revert c Hc. apply (reach_invariant _ _ _ dead); [| intros s u a s'; apply dead_step].
    split_and!; [by vm_compute.. |].
    assert (Hp : rw_pcs rw_sleep_config = <[0%nat := RwIdle]> (<[1%nat := RwFuture (mkRwFuture KIND_READER true false)]> ∅))
      by (by vm_compute).
    intros u. unfold rpc_of. rewrite Hp, !pc_at_insert. destruct (decide (u = 0%nat)); [done |].
    by destruct (decide (u = 1%nat)). }
  specialize (Hd t). split_and!; [| | done]; by destruct (rpc_of c t).
Qed.
