(* ===== verification/SyncMpmc.v ===== *)
(** * veloq-sync [mpmc.rs]: the multi-threaded channel

    A queue of items and two queues of waiting futures, each behind its own spin
    lock with an atomic count next to it.  Every access to the item queue, a
    count, a flag, a link or a spin lock is one step of [sync_exec].  A thread
    runs one future at a time; its node is the thread's number and its waker one
    cell ([sc_wakers]).  The item queue is the one of [shim.rs] that the crate
    defines itself (a locked [VecDeque]); [sc_cap] is [None] for the unbounded
    flavor, whose send side has no waiters.  A future that ends closed removes its
    node once more when it is dropped; that removal of an unlinked node is left
    out. *)

From stdpp Require Import list gmap sets.
From S2P Require Import Prelude Interleave.

Section sync_mpmc.
Context {T : Type}.

(** A queue of waiters with its spin lock and its count. *)
Record WaitQueue : Type := mkWq { wq_nodes : list nat; wq_spin : option nat; wq_count : Z }.

Definition wq_new : WaitQueue := mkWq [] None 0.

(** The two sides of the channel. *)
Inductive side : Type := SendSide | RecvSide.

(** What a call returns. *)
Inductive sync_reply : Type :=
  | SentOk (m : T)            (* the item that was sent is history *)
  | SendIsFull (m : T)
  | SendIsClosed (m : T)
  | Received (m : T)
  | RecvIsEmpty
  | RecvDisconnected.

(** Where a thread stands.  [queued] is the field of its future. *)
Inductive sync_pc : Type :=
  | ScIdle
  | ScDone (r : sync_reply)                        (* a call has returned *)
  | ScSendFut (m : T) (queued : bool)              (* a send future, not being polled *)
  | ScRecvFut (queued : bool)                      (* a receive future, not being polled *)
  (* notify_recv_one, release: wake one waiter of the side, then return *)
  | NtLoad (sd : side) (r : sync_reply)            (* load the count *)
  | NtPop (sd : side) (r : sync_reply)             (* lock, pop_front *)
  | NtSub (sd : side) (n : nat) (r : sync_reply)   (* fetch_sub, wake, unlock *)
  (* remove_send_wait, remove_recv_waiter *)
  | RmLock (sd : side) (k : sync_pc)               (* lock, unlink *)
  | RmSub (sd : side) (k : sync_pc)                (* fetch_sub, unlock *)
  (* try_send *)
  | TsClosed (m : T)                               (* load is_closed *)
  | TsPush (m : T)                                 (* push *)
  (* SendFuture::poll *)
  | SpPush (m : T) (queued : bool)
  | SpClosed (m : T) (queued : bool)
  | SpLinked (m : T)                               (* queued: load the link *)
  | SpRegister (m : T) (queued : bool)             (* register_send_wait: register *)
  | SpLock (m : T) (queued : bool)                 (* lock *)
  | SpFull (m : T) (queued : bool)                 (* is_full, locked *)
  | SpEnq (m : T)                                  (* push_back unless linked *)
  | SpCount (m : T)                                (* fetch_add, unlock *)
  | SpWait (m : T)                                 (* still linked: register *)
  (* try_recv *)
  | TrPop
  | TrClosed
  | TrPop2
  (* RecvFuture::poll *)
  | RcPop (queued : bool)
  | RcClosed (queued : bool)
  | RcPop2 (queued : bool)
  | RcRegister (queued : bool)
  | RcLinked                                       (* queued: load the link *)
  | RcEnq                                          (* lock, push_back unless linked *)
  | RcCount                                        (* fetch_add, unlock *)
  (* the handles *)
  | DsSub                                          (* drop of a sender: fetch_sub *)
  | DsSwap                                         (* close: swap is_closed *)
  | DsWake                                         (* lock, pop and wake all, unlock *)
  | DrSub                                          (* drop of a receiver: fetch_sub *)
  | DrLoad                                         (* load receiver_count *)
  | DrSwap                                         (* close_recv: swap is_closed *)
  | DrPop                                          (* lock, pop and wake all *)
  | DrStore.                                       (* store the count, unlock *)

Record SyncChannel : Type := mkSync {
  sc_cap : option Z;
  sc_queue : list T;
  sc_send : WaitQueue;
  sc_recv : WaitQueue;
  sc_closed : bool;
  sc_senders : Z;
  sc_receivers : Z;
  sc_wakers : gset nat;
  sc_woken : list nat;
  sc_pcs : gmap nat sync_pc;
  sc_replies : list (nat * sync_reply)   (* history: what calls returned, and to which thread *)
}.
Implicit Types (c : SyncChannel) (t : nat) (m : T) (sd : side) (w : WaitQueue).

(** [State::new], and [bounded], [unbounded]. *)
Definition sync_new (cap : option Z) : SyncChannel :=
  mkSync cap [] wq_new wq_new false 1 1 ∅ [] ∅ [].
Definition sync_bounded (capacity : Z) : outcome SyncChannel :=
  _ ← assert (0 <? capacity); Ret (sync_new (Some capacity)).

Definition spc_of c t : sync_pc := pc_at ScIdle (sc_pcs c) t.

Definition sc_at c t (pc : sync_pc) : SyncChannel :=
  mkSync (sc_cap c) (sc_queue c) (sc_send c) (sc_recv c) (sc_closed c) (sc_senders c) (sc_receivers c)
    (sc_wakers c) (sc_woken c) (<[t := pc]> (sc_pcs c)) (sc_replies c).
Definition set_items c (q : list T) : SyncChannel :=
  mkSync (sc_cap c) q (sc_send c) (sc_recv c) (sc_closed c) (sc_senders c) (sc_receivers c)
    (sc_wakers c) (sc_woken c) (sc_pcs c) (sc_replies c).
Definition record_reply c t (r : sync_reply) : SyncChannel :=
  mkSync (sc_cap c) (sc_queue c) (sc_send c) (sc_recv c) (sc_closed c) (sc_senders c) (sc_receivers c)
    (sc_wakers c) (sc_woken c) (sc_pcs c) (sc_replies c ++ [(t, r)]).
Definition set_wq c sd w : SyncChannel :=
  match sd with
  | SendSide => mkSync (sc_cap c) (sc_queue c) w (sc_recv c) (sc_closed c) (sc_senders c) (sc_receivers c)
                  (sc_wakers c) (sc_woken c) (sc_pcs c) (sc_replies c)
  | RecvSide => mkSync (sc_cap c) (sc_queue c) (sc_send c) w (sc_closed c) (sc_senders c) (sc_receivers c)
                  (sc_wakers c) (sc_woken c) (sc_pcs c) (sc_replies c)
  end.
Definition wq_of c sd : WaitQueue := match sd with SendSide => sc_send c | RecvSide => sc_recv c end.
Definition set_handles c (closed : bool) (senders receivers : Z) : SyncChannel :=
  mkSync (sc_cap c) (sc_queue c) (sc_send c) (sc_recv c) closed senders receivers
    (sc_wakers c) (sc_woken c) (sc_pcs c) (sc_replies c).
Definition set_sc_wakers c (ws : gset nat) (woken : list nat) : SyncChannel :=
  mkSync (sc_cap c) (sc_queue c) (sc_send c) (sc_recv c) (sc_closed c) (sc_senders c) (sc_receivers c)
    ws woken (sc_pcs c) (sc_replies c).

(** ** The item queue *)

Definition queue_full c : bool :=
  match sc_cap c with None => false | Some cap => cap <=? Z.of_nat (length (sc_queue c)) end.
Definition queue_push c m : SyncChannel * result unit T :=
  if queue_full c then (c, Err m) else (set_items c (sc_queue c ++ [m]), Ok tt).
Definition queue_pop c : SyncChannel * option T :=
  match sc_queue c with
  | [] => (c, None)
  | m :: q => (set_items c q, Some m)
  end.

(** ** Wakers and waiting queues *)

Definition sc_register c t : SyncChannel := set_sc_wakers c ({[t]} ∪ sc_wakers c) (sc_woken c).
Definition sc_wake c (n : nat) : SyncChannel :=
  if bool_decide (n ∈ sc_wakers c) then set_sc_wakers c (sc_wakers c ∖ {[n]}) (n :: sc_woken c) else c.
Fixpoint wake_each c (l : list nat) : SyncChannel :=
  match l with [] => c | n :: l => wake_each (sc_wake c n) l end.

Definition wq_set_nodes w (l : list nat) : WaitQueue := mkWq l (wq_spin w) (wq_count w).
Definition wq_set_spin w (o : option nat) : WaitQueue := mkWq (wq_nodes w) o (wq_count w).
Definition wq_set_count w (n : Z) : WaitQueue := mkWq (wq_nodes w) (wq_spin w) n.

(** Taking the spin lock of a side; the step waits while it is taken. *)
Definition lock_wq c sd t (k : SyncChannel -> outcome SyncChannel) : outcome SyncChannel :=
  match wq_spin (wq_of c sd) with
  | Some _ => Ret c
  | None => k (set_wq c sd (wq_set_spin (wq_of c sd) (Some t)))
  end.
Definition unlock_wq c sd : SyncChannel := set_wq c sd (wq_set_spin (wq_of c sd) None).
Definition add_count c sd (d : Z) : SyncChannel :=
  set_wq c sd (wq_set_count (wq_of c sd) (wrapping_add USIZE_BITS (wq_count (wq_of c sd)) d)).
Definition set_nodes c sd (l : list nat) : SyncChannel := set_wq c sd (wq_set_nodes (wq_of c sd) l).
Definition linked c sd t : bool := bool_decide (t ∈ wq_nodes (wq_of c sd)).
(** [LinkedList::push_back] panics on a linked node. *)
Definition push_node c sd t : outcome SyncChannel :=
  if bool_decide (t ∈ wq_nodes (sc_send c) ++ wq_nodes (sc_recv c)) then Fault AssertFailed
  else Ret (set_nodes c sd (wq_nodes (wq_of c sd) ++ [t])).

(** [notify_recv_one] (the receivers) and [Bounded::release] (the senders);
    [Unbounded::release] does nothing. *)
Definition notify_pc c sd (r : sync_reply) : sync_pc :=
  match sd, sc_cap c with SendSide, None => ScDone r | _, _ => NtLoad sd r end.

Definition notify_step c t (pc : sync_pc) : outcome SyncChannel :=
  match pc with
  | NtLoad sd r => Ret (sc_at c t (if 0 <? wq_count (wq_of c sd) then NtPop sd r else ScDone r))
  | NtPop sd r =>
      lock_wq c sd t (fun c =>
        match wq_nodes (wq_of c sd) with
        | [] => Ret (sc_at (unlock_wq c sd) t (ScDone r))
        | n :: l => Ret (sc_at (set_nodes c sd l) t (NtSub sd n r))
        end)
  | NtSub sd n r => Ret (sc_at (unlock_wq (sc_wake (add_count c sd (-1)) n) sd) t (ScDone r))
  | RmLock sd k =>
      lock_wq c sd t (fun c =>
        if linked c sd t then Ret (sc_at (set_nodes c sd (filter (.≠ t) (wq_nodes (wq_of c sd)))) t (RmSub sd k))
        else Ret (sc_at (unlock_wq c sd) t k))
  | RmSub sd k => Ret (sc_at (unlock_wq (add_count c sd (-1)) sd) t k)
  | _ => Ret c
  end.

(** A future leaves the queue of its side before it goes on. *)
Definition leave sd (queued : bool) (k : sync_pc) : sync_pc := if queued then RmLock sd k else k.

(** ** Sending *)

Definition send_step c t (pc : sync_pc) : outcome SyncChannel :=
  match pc with
  | TsClosed m => Ret (sc_at c t (if sc_closed c then ScDone (SendIsClosed m) else TsPush m))
  | TsPush m =>
      let (c, r) := queue_push c m in
      Ret (sc_at c t (match r with Ok _ => notify_pc c RecvSide (SentOk m) | Err m => ScDone (SendIsFull m) end))
  | SpPush m queued =>
      let (c, r) := queue_push c m in
      Ret (sc_at c t (match r with
                      | Ok _ => leave SendSide queued (notify_pc c RecvSide (SentOk m))
                      | Err m => SpClosed m queued
                      end))
  | SpClosed m queued =>
      if sc_closed c then Ret (sc_at c t (leave SendSide queued (ScDone (SendIsClosed m))))
      else if queued then Ret (sc_at c t (SpLinked m))
      else match sc_cap c with
           | None => Ret (sc_at c t (SpPush m false))
           | Some _ => Ret (sc_at c t (SpRegister m false))
           end
  | SpLinked m => Ret (sc_at c t (if linked c SendSide t then SpWait m else SpRegister m true))
  | SpRegister m queued => Ret (sc_at (sc_register c t) t (SpLock m queued))
  | SpLock m queued => lock_wq c SendSide t (fun c => Ret (sc_at c t (SpFull m queued)))
  | SpFull m queued =>
      if queue_full c then
        if linked c SendSide t then Ret (sc_at (unlock_wq c SendSide) t (ScSendFut m true))
        else Ret (sc_at c t (SpEnq m))
      else Ret (sc_at (unlock_wq c SendSide) t (SpPush m queued))
  | SpEnq m => c ← push_node c SendSide t; Ret (sc_at c t (SpCount m))
  | SpCount m => Ret (sc_at (unlock_wq (add_count c SendSide 1) SendSide) t (ScSendFut m true))
  | SpWait m => Ret (sc_at (sc_register c t) t (ScSendFut m true))
  | _ => Ret c
  end.

(** ** Receiving *)

Definition recv_step c t (pc : sync_pc) : outcome SyncChannel :=
  match pc with
  | TrPop =>
      let (c, r) := queue_pop c in
      Ret (sc_at c t (match r with Some m => notify_pc c SendSide (Received m) | None => TrClosed end))
  | TrClosed => Ret (sc_at c t (if sc_closed c then TrPop2 else ScDone RecvIsEmpty))
  | TrPop2 =>
      let (c, r) := queue_pop c in
      Ret (sc_at c t (match r with Some m => notify_pc c SendSide (Received m) | None => ScDone RecvDisconnected end))
  | RcPop queued =>
      let (c, r) := queue_pop c in
      Ret (sc_at c t (match r with
                      | Some m => leave RecvSide queued (notify_pc c SendSide (Received m))
                      | None => RcClosed queued
                      end))
  | RcClosed queued => Ret (sc_at c t (if sc_closed c then RcPop2 queued else RcRegister queued))
  | RcPop2 queued =>
      let (c, r) := queue_pop c in
      Ret (sc_at c t (match r with
                      | Some m => leave RecvSide queued (notify_pc c SendSide (Received m))
                      | None => leave RecvSide queued (ScDone RecvDisconnected)
                      end))
  | RcRegister queued => Ret (sc_at (sc_register c t) t (if queued then RcLinked else RcEnq))
  | RcLinked => Ret (sc_at c t (if linked c RecvSide t then ScRecvFut true else RcEnq))
  | RcEnq =>
      lock_wq c RecvSide t (fun c =>
        if linked c RecvSide t then Ret (sc_at (unlock_wq c RecvSide) t (RcPop true))
        else c ← push_node c RecvSide t; Ret (sc_at c t RcCount))
  | RcCount => Ret (sc_at (unlock_wq (add_count c RecvSide 1) RecvSide) t (RcPop true))
  | _ => Ret c
  end.

(** ** The handles *)

Definition handle_step c t (pc : sync_pc) : outcome SyncChannel :=
  match pc with
  | DsSub =>
      let prev := sc_senders c in
      let c := set_handles c (sc_closed c) (wrapping_sub USIZE_BITS prev 1) (sc_receivers c) in
      Ret (sc_at c t (if prev =? 1 then DsSwap else ScIdle))
  | DsSwap =>
      let prev := sc_closed c in
      Ret (sc_at (set_handles c true (sc_senders c) (sc_receivers c)) t (if prev then ScIdle else DsWake))
  | DsWake =>
      lock_wq c RecvSide t (fun c =>
        Ret (sc_at (unlock_wq (set_nodes (wake_each c (wq_nodes (sc_recv c))) RecvSide []) RecvSide) t ScIdle))
  | DrSub =>
      Ret (sc_at (set_handles c (sc_closed c) (sc_senders c) (wrapping_sub USIZE_BITS (sc_receivers c) 1)) t DrLoad)
  | DrLoad => Ret (sc_at c t (if sc_receivers c =? 0 then DrSwap else ScIdle))
  | DrSwap =>
      let prev := sc_closed c in
      Ret (sc_at (set_handles c true (sc_senders c) (sc_receivers c)) t
        (if prev then ScIdle else match sc_cap c with None => ScIdle | Some _ => DrPop end))
  | DrPop =>
      lock_wq c SendSide t (fun c =>
        Ret (sc_at (set_nodes (wake_each c (wq_nodes (sc_send c))) SendSide []) t DrStore))
  | DrStore => Ret (sc_at (unlock_wq (set_wq c SendSide (wq_set_count (sc_send c) 0)) SendSide) t ScIdle)
  | _ => Ret c
  end.

Inductive sync_action : Type :=
  | ScTrySend (m : T)
  | ScSend (m : T)      (* the future of [send], after its first [try_send] found the queue full *)
  | ScTryRecv
  | ScRecv              (* the future of [recv], likewise *)
  | ScPoll
  | ScDropFut
  | ScCloneSender
  | ScDropSender
  | ScCloneReceiver
  | ScDropReceiver
  | ScNext              (* take the result of a call *)
  | ScStep.

Definition is_handle_pc (pc : sync_pc) : bool :=
  match pc with DsSub | DsSwap | DsWake | DrSub | DrLoad | DrSwap | DrPop | DrStore => true | _ => false end.
Definition is_notify_pc (pc : sync_pc) : bool :=
  match pc with NtLoad _ _ | NtPop _ _ | NtSub _ _ _ | RmLock _ _ | RmSub _ _ => true | _ => false end.
Definition is_recv_pc (pc : sync_pc) : bool :=
  match pc with
  | TrPop | TrClosed | TrPop2 | RcPop _ | RcClosed _ | RcPop2 _ | RcRegister _ | RcLinked | RcEnq | RcCount => true
  | _ => false
  end.

Definition sync_step c t : outcome SyncChannel :=
  let pc := spc_of c t in
  if is_handle_pc pc then handle_step c t pc
  else if is_notify_pc pc then notify_step c t pc
  else if is_recv_pc pc then recv_step c t pc
  else send_step c t pc.

Definition sync_exec c t (a : sync_action) : outcome SyncChannel :=
  match a, spc_of c t with
  | ScTrySend m, ScIdle => Ret (sc_at c t (TsClosed m))
  | ScSend m, ScIdle => Ret (sc_at c t (ScSendFut m false))
  | ScTryRecv, ScIdle => Ret (sc_at c t TrPop)
  | ScRecv, ScIdle => Ret (sc_at c t (ScRecvFut false))
  | ScPoll, ScSendFut m queued => Ret (sc_at c t (SpPush m queued))
  | ScPoll, ScRecvFut queued => Ret (sc_at c t (RcPop queued))
  | ScDropFut, ScSendFut m queued => Ret (sc_at c t (leave SendSide queued ScIdle))
  | ScDropFut, ScRecvFut queued => Ret (sc_at c t (leave RecvSide queued ScIdle))
  | ScCloneSender, ScIdle =>
      Ret (set_handles c (sc_closed c) (wrapping_add USIZE_BITS (sc_senders c) 1) (sc_receivers c))
  | ScDropSender, ScIdle => Ret (sc_at c t DsSub)
  | ScCloneReceiver, ScIdle =>
      Ret (set_handles c (sc_closed c) (sc_senders c) (wrapping_add USIZE_BITS (sc_receivers c) 1))
  | ScDropReceiver, ScIdle => Ret (sc_at c t DrSub)
  | ScNext, ScDone r => Ret (sc_at (record_reply c t r) t ScIdle)
  | ScStep, _ => sync_step c t
  | _, _ => Ret c
  end.

Definition sync_reach (cap : option Z) : SyncChannel -> Prop := reach sync_exec (fun _ _ _ => True) (sync_new cap).
End sync_mpmc.
Arguments SyncChannel T : clear implicits.
Arguments sync_pc T : clear implicits.
Arguments sync_action T : clear implicits.

(** ** The multi-threaded channel: safety, and runs that end in sleep *)

Section safety.
Context {T : Type}.
Implicit Types (c : SyncChannel T) (t : nat) (m : T) (sd : side) (pc : sync_pc T).

#[local] Instance side_eq_dec : EqDecision side.
Proof. solve_decision. Defined.

(** The thread has the spin lock of the side. *)
Definition holds sd pc : bool :=
  match sd, pc with
  | _, NtSub sd' _ _ | _, RmSub sd' _ => bool_decide (sd = sd')
  | SendSide, (SpFull _ _ | SpEnq _ | SpCount _ | DrStore) => true
  | RecvSide, RcCount => true
  | _, _ => false
  end.

(** The thread has a future of the side that takes the spin lock before it ends:
    its node may be in the queue or in the hands of a notifier. *)
Definition alive sd pc : bool :=
  match sd, pc with
  | _, RmLock sd' _ => bool_decide (sd = sd')
  | SendSide, (ScSendFut _ q | SpPush _ q | SpClosed _ q | SpRegister _ q | SpLock _ q | SpFull _ q) => q
  | SendSide, (SpLinked _ | SpCount _ | SpWait _) => true
  | RecvSide, (ScRecvFut q | RcPop q | RcClosed q | RcPop2 q | RcRegister q) => q
  | RecvSide, (RcLinked | RcEnq | RcCount) => true
  | _, _ => false
  end.

(** What follows after a future left its queue. *)
Definition after_leave pc : Prop := match pc with ScIdle | ScDone _ | NtLoad _ _ => True | _ => False end.
Definition sync_wf pc : Prop := match pc with RmLock _ k | RmSub _ k => after_leave k | _ => True end.

Definition items_ok c : Prop := forall k, sc_cap c = Some k -> Z.of_nat (length (sc_queue c)) <= k.

Definition nodes c sd : list nat := wq_nodes (wq_of c sd).
Definition spin c sd : option nat := wq_spin (wq_of c sd).

Record sync_inv c : Prop := {
  si_spin : forall sd t, holds sd (spc_of c t) = true <-> spin c sd = Some t;
  si_nodup : forall sd, NoDup (nodes c sd);
  si_link : forall sd t, t ∈ nodes c sd -> alive sd (spc_of c t) = true;
  si_sub : forall t sd n r, spc_of c t = NtSub sd n r -> alive sd (spc_of c n) = true;
  si_wf : forall t, sync_wf (spc_of c t);
  si_items : items_ok c
}.

(** What a step of thread [t] to [pc'] has to give. *)
Lemma sync_moves c c' t pc' : sync_inv c -> sc_pcs c' = <[t := pc']> (sc_pcs c) ->
  (forall sd, if holds sd pc' then spin c' sd = Some t /\ (spin c sd = None \/ spin c sd = Some t)
              else spin c' sd = (if holds sd (spc_of c t) then None else spin c sd)) ->
  (forall sd, NoDup (nodes c' sd)) ->
  (forall sd t', t' ∈ nodes c' sd -> if decide (t' = t) then alive sd pc' = true else t' ∈ nodes c sd) ->
  (forall sd, alive sd (spc_of c t) = true -> alive sd pc' = true \/ spin c sd = None \/ spin c sd = Some t) ->
  (forall sd n r, pc' = NtSub sd n r -> n <> t /\ alive sd (spc_of c n) = true) ->
  sync_wf pc' -> items_ok c' -> sync_inv c'.
Proof.
  intros Hi Hp Hsp Hnd Hln Hex Hsub Hwf Hit.
  assert (Hpc : forall t', spc_of c' t' = if decide (t' = t) then pc' else spc_of c t').
  { intros t'. unfold spc_of. rewrite Hp. apply pc_at_insert. }
  split; try done.
  - intros sd t1. rewrite Hpc. specialize (Hsp sd). pose proof (si_spin c Hi sd t) as Hst.
    destruct (decide (t1 = t)) as [-> | Hne].
    + destruct (holds sd pc'); [tauto |]. rewrite Hsp. destruct (holds sd (spc_of c t)); [done |]. rewrite <- Hst. done.
    + rewrite (si_spin c Hi). destruct (holds sd pc').
      * destruct Hsp as [-> [-> | ->]]; split; congruence.
      * rewrite Hsp. destruct (holds sd (spc_of c t)); [| done]. assert (spin c sd = Some t) as -> by tauto. split; congruence.
  - intros sd t1 H1. specialize (Hln sd t1 H1). rewrite Hpc. destruct (decide (t1 = t)); [done |]. by apply (si_link c Hi).
  - intros t1 sd n r. rewrite !Hpc. destruct (decide (t1 = t)) as [-> | Hne].
    + intros He. destruct (Hsub _ _ _ He) as [Hnt Ha]. by rewrite decide_False.
    + intros He. pose proof (si_sub c Hi _ _ _ _ He) as Ha. destruct (decide (n = t)) as [-> |]; [| done].
      assert (spin c sd = Some t1) as Hs1 by (apply (si_spin c Hi); rewrite He; cbn; by destruct sd).
      destruct (Hex sd Ha) as [? | [? | ?]]; [done | congruence | congruence].
  - intros t1. rewrite Hpc. destruct (decide (t1 = t)); [done |]. apply (si_wf c Hi).
Qed.

Lemma nodes_keep c t sd pc : (t ∈ nodes c sd -> alive sd pc = true) ->
  forall t', t' ∈ nodes c sd -> if decide (t' = t) then alive sd pc = true else t' ∈ nodes c sd.
Proof. intros Ht t' Hin. destruct (decide (t' = t)) as [-> |]; auto. Qed.

Definition same_queues c c' : Prop := sc_send c' = sc_send c /\ sc_recv c' = sc_recv c.

Lemma same_wq c c' sd : same_queues c c' -> wq_of c' sd = wq_of c sd.
Proof. intros [Hs Hr]. by destruct sd. Qed.

(** Steps that leave the waiting queues alone. *)
Lemma sync_quiet c c' t pc' : sync_inv c -> sc_pcs c' = <[t := pc']> (sc_pcs c) -> same_queues c c' -> items_ok c' ->
  (forall sd, holds sd pc' = holds sd (spc_of c t)) ->
  (forall sd, alive sd (spc_of c t) = true -> alive sd pc' = true) ->
  (forall sd n r, pc' <> NtSub sd n r) -> sync_wf pc' -> sync_inv c'.
Proof.
  intros Hi Hp Hq Hit Hh Ha Hn Hwf. assert (Hw : forall sd, wq_of c' sd = wq_of c sd) by (intros sd; by apply same_wq).
  eapply (sync_moves c c' t pc' Hi Hp); try done.
  - intros sd. unfold spin. rewrite Hh, Hw. pose proof (si_spin c Hi sd t) as Hst. unfold spin in Hst.
    destruct (holds sd (spc_of c t)); [| done]. split; [tauto | right; tauto].
  - intros sd. unfold nodes. rewrite Hw. apply Hi.
  - intros sd t' Hin. unfold nodes in Hin. rewrite Hw in Hin. destruct (decide (t' = t)) as [-> |]; [| done].
    by apply Ha, (si_link c Hi).
  - intros sd Hal. left. by apply Ha.
  - intros sd n r ->. by destruct (Hn sd n r).
Qed.

Lemma push_items c m : items_ok c -> items_ok (queue_push c m).1 /\ same_queues c (queue_push c m).1 /\
  sc_pcs (queue_push c m).1 = sc_pcs c /\ sc_cap (queue_push c m).1 = sc_cap c.
Proof.
  intros Hc. unfold queue_push. destruct (queue_full c) eqn:Hf; [by repeat split |]. split_and!; try done.
  intros k Hk. cbn in *. unfold queue_full in Hf. rewrite Hk in Hf. apply Z.leb_gt in Hf. rewrite length_app. cbn. lia.
Qed.

Lemma pop_items c : items_ok c -> items_ok (queue_pop c).1 /\ same_queues c (queue_pop c).1 /\
  sc_pcs (queue_pop c).1 = sc_pcs c /\ sc_cap (queue_pop c).1 = sc_cap c.
Proof.
  intros Hc. unfold queue_pop. destruct (sc_queue c) as [| m q] eqn:Hq; [by split_and! |].
  split_and!; try done. intros k Hk. specialize (Hc k Hk). rewrite Hq in Hc. cbn in *. lia.
Qed.

Lemma notify_pc_spec c sd r : after_leave (notify_pc c sd r) /\ (forall sd', holds sd' (notify_pc c sd r) = false) /\
  (forall sd', alive sd' (notify_pc c sd r) = false) /\ sync_wf (notify_pc c sd r) /\
  (forall sd' n r', notify_pc c sd r <> NtSub sd' n r').
Proof. unfold notify_pc. destruct sd, (sc_cap c); split_and!; try done; by intros []. Qed.

Lemma after_leave_quiet pc : after_leave pc ->
  (forall sd, holds sd pc = false) /\ (forall sd, alive sd pc = false) /\ sync_wf pc /\ (forall sd n r, pc <> NtSub sd n r).
Proof. destruct pc; try done; intros _; split_and!; try done; by intros []. Qed.

(** Leaving the queue of a side, or going on. *)
Lemma leave_spec sd (q : bool) pc : after_leave pc -> (forall sd', holds sd' (leave sd q pc) = false) /\
  (forall sd', alive sd' (leave sd q pc) = if q then bool_decide (sd' = sd) else false) /\
  sync_wf (leave sd q pc) /\ (forall sd' n r, leave sd q pc <> NtSub sd' n r).
Proof.
  intros Ha. destruct (after_leave_quiet pc Ha) as (H1 & H2 & H3 & H4). destruct q; cbn; [| by split_and!].
  split_and!; try done; intros []; done.
Qed.

Definition sync_safe (o : outcome (SyncChannel T)) : Prop := exists c', o = Ret c' /\ sync_inv c'.

Ltac sides := intros []; cbn; first [done | congruence | idtac].
Ltac quiet Hi Hp := eapply (sync_quiet _ _ _ _ Hi); [reflexivity | by split | apply (si_items _ Hi) | rewrite Hp; sides
  | rewrite Hp; sides | by intros [] | try done].

(** Steps with an access to the item queue. *)
Lemma queue_quiet c c1 t pc' : sync_inv c -> items_ok c1 -> same_queues c c1 -> sc_pcs c1 = sc_pcs c ->
  (forall sd, holds sd pc' = holds sd (spc_of c t)) ->
  (forall sd, alive sd (spc_of c t) = true -> alive sd pc' = true) ->
  (forall sd n r, pc' <> NtSub sd n r) -> sync_wf pc' -> sync_inv (sc_at c1 t pc').
Proof.
  intros Hi Hit Hq Hpcs Hh Ha Hn Hwf. eapply (sync_quiet c _ t pc' Hi); try done. cbn. by rewrite Hpcs.
Qed.

Lemma set_wq_of c sd w sd' : wq_of (set_wq c sd w) sd' = if decide (sd' = sd) then w else wq_of c sd'.
Proof. by destruct sd, sd'. Qed.

Lemma set_wq_rest c sd w : sc_pcs (set_wq c sd w) = sc_pcs c /\ (items_ok c -> items_ok (set_wq c sd w)).
Proof. by destruct sd. Qed.

(** Steps that change the waiting queue of one side. *)
Lemma wq_moves c c' t pc' sd w : sync_inv c -> sc_pcs c' = <[t := pc']> (sc_pcs c) -> items_ok c' ->
  (forall sd', wq_of c' sd' = if decide (sd' = sd) then w else wq_of c sd') ->
  (if holds sd pc' then wq_spin w = Some t /\ (spin c sd = None \/ spin c sd = Some t)
   else wq_spin w = (if holds sd (spc_of c t) then None else spin c sd)) ->
  (forall sd', sd' <> sd -> holds sd' pc' = holds sd' (spc_of c t)) ->
  NoDup (wq_nodes w) ->
  (forall t', t' ∈ wq_nodes w -> if decide (t' = t) then alive sd pc' = true else t' ∈ nodes c sd) ->
  (alive sd (spc_of c t) = true -> alive sd pc' = true \/ spin c sd = None \/ spin c sd = Some t) ->
  (forall sd', sd' <> sd -> alive sd' (spc_of c t) = true -> alive sd' pc' = true) ->
  (forall sd n r, pc' = NtSub sd n r -> n <> t /\ alive sd (spc_of c n) = true) ->
  sync_wf pc' -> sync_inv c'.
Proof.
  intros Hi Hp Hit Hw Hs Hs' Hnd Hl He He' Hsub Hwf. eapply (sync_moves c c' t pc' Hi Hp); try done.
  - intros sd'. assert (spin c' sd' = if decide (sd' = sd) then wq_spin w else spin c sd') as ->.
    { unfold spin. rewrite Hw. by destruct (decide (sd' = sd)). }
    destruct (decide (sd' = sd)) as [-> | Hne]; [exact Hs |].
    rewrite (Hs' sd' Hne). pose proof (si_spin c Hi sd' t) as Hst.
    destruct (holds sd' (spc_of c t)); [| done]. split; [tauto | right; tauto].
  - intros sd'. unfold nodes. rewrite Hw. destruct (decide (sd' = sd)); [done | apply Hi].
  - intros sd' t' Hin. unfold nodes in Hin. rewrite Hw in Hin. destruct (decide (sd' = sd)) as [-> | Hne]; [by apply Hl |].
    destruct (decide (t' = t)) as [-> |]; [| done]. apply He'; [done |]. by apply (si_link c Hi).
  - intros sd' Ha. destruct (decide (sd' = sd)) as [-> | Hne]; [by apply He | left; by apply He'].
Qed.

Lemma side_ne sd sd' : sd' <> sd -> sd = SendSide /\ sd' = RecvSide \/ sd = RecvSide /\ sd' = SendSide.
Proof. destruct sd, sd'; naive_solver. Qed.

Lemma not_alive c sd t : sync_inv c -> alive sd (spc_of c t) = false -> t ∉ nodes c sd.
Proof. intros Hi Ha Hin. apply (si_link c Hi) in Hin. congruence. Qed.

Lemma push_node_new c sd t : t ∉ nodes c SendSide -> t ∉ nodes c RecvSide ->
  push_node c sd t = Ret (set_nodes c sd (nodes c sd ++ [t])).
Proof. intros H1 H2. unfold push_node. rewrite bool_decide_eq_false_2; [done |]. unfold nodes in *. cbn in *. set_solver. Qed.

Lemma NoDup_snoc (l : list nat) t : NoDup l -> t ∉ l -> NoDup (l ++ [t]).
Proof. intros Hnd Hn. apply NoDup_app. split_and!; [done | set_solver | apply NoDup_singleton]. Qed.

Lemma in_snoc c sd pc t : alive sd pc = true -> forall t', t' ∈ nodes c sd ++ [t] ->
  if decide (t' = t) then alive sd pc = true else t' ∈ nodes c sd.
Proof. intros Ha t' Hin. destruct (decide (t' = t)); [done | set_solver]. Qed.

(** *** Sending *)

Lemma send_queue_inv c t : sync_inv c ->
  match spc_of c t with TsClosed _ | TsPush _ | SpPush _ _ | SpClosed _ _ | SpLinked _ | SpRegister _ _ | SpWait _ => True | _ => False end ->
  sync_safe (send_step c t (spc_of c t)).
Proof.
  intros Hi Hpc. unfold sync_safe. destruct (spc_of c t) as [] eqn:Hp; try done; cbn [send_step].
  - eexists. split; [done |]. destruct (sc_closed c); quiet Hi Hp.
  - destruct (push_items c m (si_items c Hi)) as (Hit & Hq & Hpcs & _). destruct (queue_push c m) as [c1 r]. cbn in *.
    eexists. split; [done |]. destruct (notify_pc_spec c1 RecvSide (SentOk m)) as (_ & N1 & N2 & N3 & N4).
    destruct r; (eapply (queue_quiet c c1 t _ Hi); try done; rewrite Hp); [intros sd; by rewrite N1; destruct sd | by intros [] ..].
  - destruct (push_items c m (si_items c Hi)) as (Hit & Hq & Hpcs & _). destruct (queue_push c m) as [c1 r]. cbn in *.
    eexists. split; [done |]. destruct (notify_pc_spec c1 RecvSide (SentOk m)) as (N0 & _).
    destruct (leave_spec SendSide queued _ N0) as (L1 & L2 & L3 & L4).
    destruct r; (eapply (queue_quiet c c1 t _ Hi); try done; rewrite Hp);
      [intros sd; by rewrite L1; destruct sd | intros sd; rewrite L2; by destruct sd, queued | by intros [] ..].
  - destruct (sc_closed c).
    + eexists. split; [done |]. destruct (leave_spec SendSide queued (ScDone (SendIsClosed m)) I) as (L1 & L2 & L3 & L4).
      eapply (queue_quiet c c t _ Hi); try done; [apply Hi | ..]; rewrite Hp;
        [intros sd; by rewrite L1; destruct sd | intros sd; rewrite L2; by destruct sd, queued].
    + destruct queued; [| destruct (sc_cap c)]; (eexists; split; [done |]; quiet Hi Hp).
  - eexists. split; [done |]. destruct (linked _ _ _); quiet Hi Hp.
  - eexists. split; [done |]. quiet Hi Hp.
  - eexists. split; [done |]. quiet Hi Hp.
Qed.

Lemma send_lock_inv c t : sync_inv c ->
  match spc_of c t with SpLock _ _ | SpFull _ _ | SpEnq _ | SpCount _ => True | _ => False end ->
  sync_safe (send_step c t (spc_of c t)).
Proof.
  intros Hi Hpc. unfold sync_safe. pose proof (si_spin c Hi SendSide t) as Hsp. pose proof (si_nodup c Hi SendSide) as Hnd.
  pose proof (si_items c Hi) as Hit. pose proof (fun sd Hf => not_alive c sd t Hi Hf) as Hna.
  destruct (spc_of c t) as [] eqn:Hp; try done; cbn [send_step]; cbn in Hsp.
  - unfold lock_wq. destruct (wq_spin (wq_of c SendSide)) eqn:Es; [by exists c |]. eexists. split; [done |].
    eapply (wq_moves c _ t _ SendSide _ Hi); [reflexivity | exact Hit | by intros [] | ..]; rewrite ?Hp; try done; try (by intros []).
    + by split; [| left].
    + intros t' Hin. destruct (decide (t' = t)) as [-> |]; [| done]. pose proof (si_link c Hi SendSide t Hin) as H. by rewrite Hp in H.
    + by left.
  - pose proof (si_link c Hi SendSide t) as Hal. rewrite Hp in Hal. cbn in Hal.
    destruct (queue_full c); [destruct (linked c SendSide t) eqn:El |]; (eexists; split; [done |]).
    + eapply (wq_moves c _ t _ SendSide _ Hi); [reflexivity | exact Hit | by intros [] | ..]; rewrite ?Hp; try done; try (by intros []).
      * by apply (nodes_keep c t SendSide (ScSendFut m true)).
      * by left.
    + eapply (wq_moves c _ t _ SendSide (sc_send c) Hi); [reflexivity | exact Hit | by intros [] | ..]; rewrite ?Hp; try done; try (by intros []).
      * split; [tauto | right; tauto].
      * intros t' Hin. destruct (decide (t' = t)) as [-> |]; [| done]. unfold linked in El. by rewrite bool_decide_eq_true_2 in El.
      * intros _. right; right; tauto.
    + eapply (wq_moves c _ t _ SendSide _ Hi); [reflexivity | exact Hit | by intros [] | ..]; rewrite ?Hp; try done; try (by intros []).
      * by apply (nodes_keep c t SendSide (SpPush m queued)).
      * by left.
  - pose proof (Hna SendSide) as H1. pose proof (Hna RecvSide) as H2.
    rewrite push_node_new by auto. rewrite bind_ret. eexists. split; [done |].
    eapply (wq_moves c _ t _ SendSide _ Hi); [reflexivity | exact Hit | by intros [] | ..]; rewrite ?Hp; try done; try (by intros []).
    + split; [tauto | right; tauto].
    + apply NoDup_snoc; [done | by apply H1].
    + by apply (in_snoc c SendSide (SpCount m)).
  - eexists. split; [done |].
    eapply (wq_moves c _ t _ SendSide _ Hi); [reflexivity | exact Hit | by intros [] | ..]; rewrite ?Hp; try done; try (by intros []).
    + by apply (nodes_keep c t SendSide (ScSendFut m true)).
    + by left.
Qed.
(** *** Receiving *)

Lemma queue_leave c c1 t sd (q : bool) k : sync_inv c -> items_ok c1 -> same_queues c c1 -> sc_pcs c1 = sc_pcs c ->
  after_leave k -> (forall sd', holds sd' (spc_of c t) = false) ->
  (forall sd', alive sd' (spc_of c t) = true -> sd' = sd /\ q = true) -> sync_inv (sc_at c1 t (leave sd q k)).
Proof.
  intros Hi Hit Hq Hpcs Hk Hh Ha. destruct (leave_spec sd q k Hk) as (L1 & L2 & L3 & L4).
  eapply (queue_quiet c c1 t _ Hi); try done.
  - intros sd'. by rewrite L1, Hh.
  - intros sd' H. destruct (Ha sd' H) as [-> ->]. rewrite L2. by apply bool_decide_eq_true_2.
Qed.

Ltac from Hp := rewrite Hp; intros []; cbn; intros; first [done | by split].

Lemma recv_queue_inv c t : sync_inv c ->
  match spc_of c t with TrPop | TrClosed | TrPop2 | RcPop _ | RcClosed _ | RcPop2 _ | RcRegister _ | RcLinked => True | _ => False end ->
  sync_safe (recv_step c t (spc_of c t)).
Proof.
  intros Hi Hpc. unfold sync_safe. destruct (pop_items c (si_items c Hi)) as (Hit & Hq & Hpcs & _).
  destruct (spc_of c t) as [] eqn:Hp; try done; cbn [recv_step].
  - destruct (queue_pop c) as [c1 [m |]]; cbn [fst] in *; (eexists; split; [done |]).
    + apply (queue_leave c c1 t SendSide false (notify_pc c1 SendSide (Received m)) Hi); try done; [apply notify_pc_spec | from Hp ..].
    + eapply (queue_quiet c c1 t _ Hi); try done; rewrite Hp; by intros [].
  - eexists. split; [done |]. destruct (sc_closed c); quiet Hi Hp.
  - destruct (queue_pop c) as [c1 [m |]]; cbn [fst] in *; (eexists; split; [done |]);
      [apply (queue_leave c c1 t SendSide false (notify_pc c1 SendSide (Received m)) Hi) | apply (queue_leave c c1 t SendSide false (ScDone RecvDisconnected) Hi)];
      try done; [apply notify_pc_spec | from Hp ..].
  - destruct (queue_pop c) as [c1 [m |]]; cbn [fst] in *; (eexists; split; [done |]).
    + apply (queue_leave c c1 t RecvSide queued _ Hi); try done; [apply notify_pc_spec | from Hp ..].
    + eapply (queue_quiet c c1 t _ Hi); try done; rewrite Hp; by intros [].
  - eexists. split; [done |]. destruct (sc_closed c); quiet Hi Hp.
  - destruct (queue_pop c) as [c1 [m |]]; cbn [fst] in *; (eexists; split; [done |]);
      apply (queue_leave c c1 t RecvSide queued _ Hi); try done; [apply notify_pc_spec | from Hp ..].
  - eexists. split; [done |]. destruct queued; quiet Hi Hp.
  - eexists. split; [done |]. destruct (linked _ _ _); quiet Hi Hp.
Qed.
Ltac wq Hi Hit sd w Hp := eapply (wq_moves _ _ _ _ sd w Hi);
  [reflexivity | exact Hit | by intros [] | ..]; rewrite ?Hp; try done; try (by intros []).

Lemma recv_lock_inv c t : sync_inv c -> match spc_of c t with RcEnq | RcCount => True | _ => False end ->
  sync_safe (recv_step c t (spc_of c t)).
Proof.
  intros Hi Hpc. unfold sync_safe. pose proof (si_spin c Hi RecvSide t) as Hsp. pose proof (si_nodup c Hi RecvSide) as Hnd.
  pose proof (si_items c Hi) as Hit. pose proof (not_alive c SendSide t Hi) as Hna.
  destruct (spc_of c t) as [] eqn:Hp; try done; cbn [recv_step]; cbn in Hsp.
  - unfold lock_wq. destruct (wq_spin (wq_of c RecvSide)) eqn:Es; [by exists c |]. destruct (linked _ _ _) eqn:El.
    + eexists. split; [done |]. wq Hi Hit RecvSide (wq_set_spin (sc_recv c) None) Hp; [by apply (nodes_keep c t RecvSide (RcPop true)) | by left].
    + apply bool_decide_eq_false in El. rewrite push_node_new by (done || by apply Hna). rewrite bind_ret. eexists. split; [done |].
      wq Hi Hit RecvSide (wq_set_nodes (wq_set_spin (sc_recv c) (Some t)) (wq_nodes (sc_recv c) ++ [t])) Hp.
      * by split; [| left].
      * by apply NoDup_snoc.
      * by apply (in_snoc c RecvSide RcCount).
      * by left.
  - eexists. split; [done |].
    wq Hi Hit RecvSide (wq_set_spin (wq_set_count (sc_recv c) (wrapping_add USIZE_BITS (wq_count (sc_recv c)) 1)) None) Hp;
      [by apply (nodes_keep c t RecvSide (RcPop true)) | by left].
Qed.

(** *** Waking and leaving *)

Definition same_but_wakers c c' : Prop :=
  same_queues c c' /\ sc_pcs c' = sc_pcs c /\ (items_ok c -> items_ok c').

Lemma sc_wake_same c n : same_but_wakers c (sc_wake c n).
Proof. unfold sc_wake. by destruct (bool_decide _). Qed.

Lemma wake_each_same l : forall c, same_but_wakers c (wake_each c l).
Proof.
  induction l as [| n l IH]; intros c; cbn; [done |].
  destruct (IH (sc_wake c n)) as ([Hs Hr] & Hp & Hit), (sc_wake_same c n) as ([Hs' Hr'] & Hp' & Hit').
  split; [split; congruence | split; [congruence | auto]].
Qed.

Lemma notify_inv c t : sync_inv c ->
  match spc_of c t with NtLoad _ _ | NtPop _ _ | NtSub _ _ _ => True | _ => False end ->
  sync_safe (notify_step c t (spc_of c t)).
Proof.
  intros Hi Hpc. unfold sync_safe. pose proof (si_items c Hi) as Hit.
  destruct (spc_of c t) as [] eqn:Hp; try done; cbn [notify_step].
  - eexists. split; [done |]. destruct (0 <? _); quiet Hi Hp.
  - pose proof (si_nodup c Hi sd) as Hnd. pose proof (si_link c Hi sd) as Hln.
    assert (Ht : t ∉ nodes c sd) by (apply (not_alive c sd t Hi); rewrite Hp; by destruct sd).
    unfold lock_wq. destruct (wq_spin (wq_of c sd)) eqn:Es; [by exists c |].
    assert (Hw : nodes (set_wq c sd (wq_set_spin (wq_of c sd) (Some t))) sd = nodes c sd) by by destruct sd.
    unfold nodes in Hw at 1. rewrite Hw. destruct (nodes c sd) as [| n l] eqn:En; (eexists; split; [done |]).
    + eapply (wq_moves c _ t _ sd (wq_set_spin (wq_of c sd) None) Hi);
        [by destruct sd | by destruct sd | by destruct sd; intros [] | ..]; rewrite ?Hp; try done; try (by intros []).
      * by destruct sd.
      * cbn. fold (nodes c sd). rewrite En. constructor.
      * cbn. fold (nodes c sd). rewrite En. intros t' H. by apply elem_of_nil in H.
      * by right; left.
    + assert (Hn : n <> t) by (intros ->; apply Ht; left).
      eapply (wq_moves c _ t _ sd (wq_set_nodes (wq_set_spin (wq_of c sd) (Some t)) l) Hi);
        [by destruct sd | by destruct sd | by destruct sd; intros [] | ..]; rewrite ?Hp; try done; try (by intros []).
      * destruct sd; cbn; by split; [| left].
      * destruct sd; intros []; done.
      * by apply NoDup_cons in Hnd as [? ?].
      * cbn. intros t' H. destruct (decide (t' = t)) as [-> |]; [| rewrite En; set_solver].
        by destruct Ht; right.
      * by right; left.
      * intros sd' n' r' [= <- <- <-]. split; [done |]. apply Hln. set_solver.
  - destruct (sc_wake_same (add_count c sd (-1)) n) as (Hq & Hpcs & Hwi).
    pose proof (si_spin c Hi sd t) as Hsp. rewrite Hp in Hsp.
    eexists. split; [done |].
    eapply (wq_moves c _ t (ScDone r) sd (wq_set_spin (wq_of (add_count c sd (-1)) sd) None) Hi); rewrite ?Hp; try done; try (by intros []).
    + cbn. destruct sd; cbn in *; by rewrite Hpcs.
    + destruct sd; apply Hwi; done.
    + intros sd'. pose proof (same_wq _ _ sd' Hq) as Hw'. destruct sd, sd'; cbn in *; by rewrite ?Hw'.
    + destruct sd; done.
    + by destruct sd, sd'.
    + pose proof (si_nodup c Hi sd). by destruct sd.
    + assert (Ht : t ∉ nodes c sd) by (apply (not_alive c sd t Hi); rewrite Hp; by destruct sd).
      intros t' H. assert (t' ∈ nodes c sd) by by destruct sd. by destruct (decide (t' = t)) as [-> |].
    + by destruct sd.
Qed.

Lemma sync_remove_inv c t : sync_inv c -> match spc_of c t with RmLock _ _ | RmSub _ _ => True | _ => False end ->
  sync_safe (notify_step c t (spc_of c t)).
Proof.
  intros Hi Hpc. unfold sync_safe. pose proof (si_items c Hi) as Hit. pose proof (si_wf c Hi t) as Hwf.
  destruct (spc_of c t) as [| | | | | | | sd k | sd k | | | | | | | | | | | | | | | | | | | | | | | | | | | | |] eqn:Hp; try done; cbn [notify_step]; cbn in Hwf;
    destruct (after_leave_quiet k Hwf) as (K1 & K2 & K3 & K4).
  - pose proof (si_nodup c Hi sd) as Hnd. unfold lock_wq. destruct (wq_spin (wq_of c sd)) eqn:Es; [by exists c |].
    assert (Hw : nodes (set_wq c sd (wq_set_spin (wq_of c sd) (Some t))) sd = nodes c sd) by by destruct sd.
    unfold linked. unfold nodes in Hw at 1. rewrite Hw. case_bool_decide as Hl; (eexists; split; [done |]).
    + eapply (wq_moves c _ t (RmSub sd k) sd (wq_set_nodes (wq_set_spin (wq_of c sd) (Some t)) (filter (.≠ t) (nodes c sd))) Hi);
        [by destruct sd | by destruct sd | by destruct sd; intros [] | ..]; rewrite ?Hp; try done.
      * destruct sd; cbn; by split; [| left].
      * destruct sd; intros []; done.
      * by apply NoDup_filter.
      * cbn. intros t' H. apply list_elem_of_filter in H as [Hne H]. by rewrite decide_False.
      * by right; left.
      * intros sd' Hne. by destruct sd, sd'.
    + eapply (wq_moves c _ t k sd (wq_set_spin (wq_of c sd) None) Hi);
        [by destruct sd | by destruct sd | by destruct sd; intros [] | ..]; rewrite ?Hp, ?K1; try done.
      * by destruct sd.
      * intros sd' Hne. rewrite K1. by destruct sd, sd'.
      * cbn. intros t' H. destruct (decide (t' = t)) as [-> |]; done.
      * by right; left.
      * intros sd' Hne. by destruct sd, sd'.
      * intros sd' n r ->. by destruct (K4 sd' n r).
  - eexists. split; [done |]. pose proof (si_spin c Hi sd t) as Hsp. pose proof (si_nodup c Hi sd) as Hnd.
    assert (Ht : t ∉ nodes c sd) by (apply (not_alive c sd t Hi); rewrite Hp; by destruct sd).
    eapply (wq_moves c _ t k sd (wq_set_spin (wq_of (add_count c sd (-1)) sd) None) Hi);
      [by destruct sd | by destruct sd | by destruct sd; intros [] | ..]; rewrite ?Hp, ?K1; try done.
    + by destruct sd.
    + intros sd' Hne. rewrite K1. by destruct sd, sd'.
    + by destruct sd.
    + intros t' H. assert (t' ∈ nodes c sd) by by destruct sd. by destruct (decide (t' = t)) as [-> |].
    + by destruct sd.
    + intros sd' Hne. by destruct sd, sd'.
    + intros sd' n r ->. by destruct (K4 sd' n r).
Qed.
(** *** The handles *)

Lemma wake_all_moves c t sd pc' o : sync_inv c -> holds sd (spc_of c t) = false ->
  (if holds sd pc' then o = Some t else o = None) ->
  (forall sd', sd' <> sd -> holds sd' pc' = holds sd' (spc_of c t)) ->
  spin c sd = None ->
  (forall sd', alive sd' (spc_of c t) = false) -> (forall sd' n r, pc' <> NtSub sd' n r) -> sync_wf pc' ->
  sync_inv (sc_at (set_wq (wake_each (set_wq c sd (wq_set_spin (wq_of c sd) (Some t))) (nodes c sd)) sd
                     (mkWq [] o (wq_count (wq_of c sd)))) t pc').
Proof.
  intros Hi Hh Ho Hs' Hn Ha Hsub Hwf. set (c0 := set_wq c sd _).
  destruct (wake_each_same (nodes c sd) c0) as (Hq & Hpcs & Hit).
  assert (Hw : forall sd', sd' <> sd -> wq_of (wake_each c0 (nodes c sd)) sd' = wq_of c sd').
  { intros sd' Hne. rewrite (same_wq _ _ sd' Hq). unfold c0. rewrite set_wq_of. by rewrite decide_False. }
  eapply (wq_moves c _ t pc' sd (mkWq [] o (wq_count (wq_of c sd))) Hi); try done.
  - destruct sd; cbn in *; by rewrite Hpcs.
  - assert (items_ok (wake_each c0 (nodes c sd))) by (apply Hit; destruct sd; apply (si_items c Hi)). by destruct sd.
  - intros sd'. change (wq_of (set_wq (wake_each c0 (nodes c sd)) sd (mkWq [] o (wq_count (wq_of c sd)))) sd' =
      if decide (sd' = sd) then mkWq [] o (wq_count (wq_of c sd)) else wq_of c sd').
    rewrite set_wq_of. destruct (decide (sd' = sd)); [done | by apply Hw].
  - cbn. rewrite Hh. destruct (holds sd pc'); [split; [done | by left] | congruence].
  - constructor.
  - cbn. intros t' H. by apply elem_of_nil in H.
  - rewrite Ha. done.
  - intros sd' _. by rewrite Ha.
  - intros sd' n r ->. by destruct (Hsub sd' n r).
Qed.

Lemma handle_inv c t : sync_inv c -> is_handle_pc (spc_of c t) = true -> sync_safe (handle_step c t (spc_of c t)).
Proof.
  intros Hi Hpc. unfold sync_safe. pose proof (si_items c Hi) as Hit.
  destruct (spc_of c t) as [] eqn:Hp; try done; cbn [handle_step].
  - eexists. split; [done |]. destruct (sc_senders c =? 1); quiet Hi Hp.
  - eexists. split; [done |]. destruct (sc_closed c); quiet Hi Hp.
  - unfold lock_wq. destruct (wq_spin (wq_of c RecvSide)) eqn:Es; [by exists c |]. eexists. split; [done |].
    pose proof (wake_all_moves c t RecvSide ScIdle None Hi) as Hm. rewrite Hp in Hm.
    destruct (wake_each_same (nodes c RecvSide) (set_wq c RecvSide (wq_set_spin (wq_of c RecvSide) (Some t)))) as ([Hq1 Hq2] & _).
    cbn in Hq1, Hq2, Hm |- *. unfold nodes in *. cbn in *. rewrite Hq2. cbn. apply Hm; try done; by intros [].
  - eexists. split; [done |]. quiet Hi Hp.
  - eexists. split; [done |]. destruct (sc_receivers c =? 0); quiet Hi Hp.
  - eexists. split; [done |]. destruct (sc_closed c); [| destruct (sc_cap c)]; quiet Hi Hp.
  - unfold lock_wq. destruct (wq_spin (wq_of c SendSide)) eqn:Es; [by exists c |]. eexists. split; [done |].
    pose proof (wake_all_moves c t SendSide DrStore (Some t) Hi) as Hm. rewrite Hp in Hm.
    destruct (wake_each_same (nodes c SendSide) (set_wq c SendSide (wq_set_spin (wq_of c SendSide) (Some t)))) as ([Hq1 Hq2] & _).
    cbn in Hq1, Hq2, Hm |- *. unfold nodes in *. cbn in *. rewrite Hq1. cbn. apply Hm; try done; by intros [].
  - eexists. split; [done |]. pose proof (si_spin c Hi SendSide t) as Hsp. pose proof (si_nodup c Hi SendSide) as Hnd.
    assert (Ht : t ∉ nodes c SendSide) by (apply (not_alive c SendSide t Hi); by rewrite Hp).
    wq Hi Hit SendSide (mkWq (wq_nodes (sc_send c)) None 0) Hp.
    intros t' H. by destruct (decide (t' = t)) as [-> |].
Qed.
(** *** All steps *)

Lemma sync_step_inv c t : sync_inv c -> sync_safe (sync_step c t).
Proof.
  intros Hi. pose proof (handle_inv c t Hi) as H1. pose proof (notify_inv c t Hi) as H2. pose proof (sync_remove_inv c t Hi) as H3.
  pose proof (recv_queue_inv c t Hi) as H4. pose proof (recv_lock_inv c t Hi) as H5.
  pose proof (send_queue_inv c t Hi) as H6. pose proof (send_lock_inv c t Hi) as H7. unfold sync_step.
  destruct (spc_of c t); cbn [is_handle_pc is_notify_pc is_recv_pc];
    first [by apply H1 | by apply H2 | by apply H3 | by apply H4 | by apply H5 | by apply H6 | by apply H7 | by exists c].
Qed.

Lemma handles_inv c b s r : sync_inv c -> sync_inv (set_handles c b s r).
Proof. intros [H1 H2 H3 H4 H5 H6]. split; try done. Qed.

Lemma sync_exec_inv c t a : sync_inv c -> sync_safe (sync_exec c t a).
Proof.
  intros Hi. pose proof (si_items c Hi) as Hit. destruct a; cbn; try (by apply sync_step_inv); unfold sync_safe;
    destruct (spc_of c t) as [] eqn:Hp; try (by exists c);
    try (eexists; split; [done |]; by apply handles_inv); try (eexists; split; [done |]; quiet Hi Hp).
  - eexists. split; [done |]. apply (queue_leave c c t SendSide queued ScIdle Hi); try done; from Hp.
  - eexists. split; [done |]. apply (queue_leave c c t RecvSide queued ScIdle Hi); try done; from Hp.
Qed.

Lemma sync_new_pc cap t : spc_of (T := T) (sync_new cap) t = ScIdle.
Proof. unfold spc_of, pc_at. cbn. by rewrite lookup_empty. Qed.

Lemma sync_new_inv cap : (forall k, cap = Some k -> 0 <= k) -> sync_inv (sync_new cap).
Proof.
  intros Hk. split; try done.
  - intros [] t; by rewrite sync_new_pc.
  - intros []; constructor.
  - intros [] t H; by apply elem_of_nil in H.
Qed.

Lemma set_wq_cap c sd w : sc_cap (set_wq c sd w) = sc_cap c.
Proof. by destruct sd. Qed.

Lemma wake_each_cap l : forall c, sc_cap (wake_each c l) = sc_cap c.
Proof. induction l as [| n l IH]; intros c; cbn; [done |]. rewrite IH. unfold sc_wake. by case_match. Qed.

Lemma sc_wake_cap c n : sc_cap (sc_wake c n) = sc_cap c.
Proof. unfold sc_wake. by case_match. Qed.

#[local] Hint Rewrite set_wq_cap wake_each_cap sc_wake_cap : sync_cap.

Lemma sync_exec_cap c t a c' : sync_exec c t a = Ret c' -> sc_cap c' = sc_cap c.
Proof.
  intros He. destruct a; cbn in He; try (destruct (spc_of c t); by simplify_eq).
  unfold sync_step, handle_step, notify_step, recv_step, send_step, lock_wq, push_node, queue_push, queue_pop, assert in He.
  destruct (spc_of c t); cbn in He; repeat (case_match; cbn in He; try discriminate He);
    repeat match goal with H : (_, _) = (_, _) |- _ => injection H as <- <- end;
    injection He as <-; unfold unlock_wq, set_nodes, add_count; cbn; autorewrite with sync_cap; first [done | by simplify_eq].
Qed.

Lemma sync_reach_inv cap c : (forall k, cap = Some k -> 0 <= k) -> sync_reach cap c -> sync_inv c /\ sc_cap c = cap.
Proof.
  intros Hk. apply (reach_invariant _ _ _ (fun c => sync_inv c /\ sc_cap c = cap)); [by split; [apply sync_new_inv |] |].
  intros c0 t a c' [Hi Hc] _ He. destruct (sync_exec_inv c0 t a Hi) as (c1 & He1 & Hi1).
  split; [congruence | by rewrite (sync_exec_cap c0 t a c' He)].
Qed.

(** *** What the calls returned

    Items enter the queue in the order of the pushes and leave it in the order of
    the pops.  A thread's pushes are the items whose send returned [Ok], and its
    pops the items that its calls returned; the reply of a call in progress is
    fixed at its last access to the item queue. *)

Fixpoint pending_reply pc : option (sync_reply (T := T)) :=
  match pc with
  | ScDone r | NtLoad _ r | NtPop _ r | NtSub _ _ r => Some r
  | RmLock _ k | RmSub _ k => pending_reply k
  | _ => None
  end.

Definition sent_item (r : sync_reply) : option T := match r with SentOk m => Some m | _ => None end.
Definition received_item (r : sync_reply) : option T := match r with Received m => Some m | _ => None end.

(** The entries of one thread. *)
Definition of_thread {A : Type} t (l : list (nat * A)) : list A := (filter (fun p => p.1 = t) l).*2.
#[local] Arguments of_thread : simpl never.

(** What the calls of thread [t] returned, and the one in progress will return. *)
Definition returns c t : list (sync_reply (T := T)) :=
  of_thread t (sc_replies c) ++ option_list (pending_reply (spc_of c t)).

Record history_inv c (pushes pops : list (nat * T)) : Prop := {
  hi_queue : pushes.*2 = pops.*2 ++ sc_queue c;
  hi_sent : forall t, of_thread t pushes = omap sent_item (returns c t);
  hi_received : forall t, of_thread t pops = omap received_item (returns c t)
}.

Lemma of_thread_app {A : Type} t (l k : list (nat * A)) : of_thread t (l ++ k) = of_thread t l ++ of_thread t k.
Proof. unfold of_thread. by rewrite filter_app, fmap_app. Qed.

Lemma of_thread_own {A : Type} t t' (l : list A) : of_thread t' (pair t <$> l) = if decide (t' = t) then l else [].
Proof.
  unfold of_thread. induction l as [| x l IH]; [by destruct (decide _) |]. rewrite fmap_cons.
  rewrite filter_cons. cbn [fst]. destruct (decide (t = t')) as [<- | Hne].
  - rewrite fmap_cons, IH. by rewrite !decide_True.
  - rewrite IH. by rewrite !decide_False.
Qed.

Lemma history_same c c' pushes pops : history_inv c pushes pops -> sc_queue c' = sc_queue c ->
  (forall t, returns c' t = returns c t) -> history_inv c' pushes pops.
Proof. intros [H1 H2 H3] Hq Hr. split; [by rewrite Hq | intros t; by rewrite Hr ..]. Qed.

Lemma history_quiet c c0 t pc' pushes pops : history_inv c pushes pops -> sc_pcs c0 = sc_pcs c -> sc_queue c0 = sc_queue c ->
  sc_replies c0 = sc_replies c -> pending_reply pc' = pending_reply (spc_of c t) -> history_inv (sc_at c0 t pc') pushes pops.
Proof.
  intros Hi Hp Hq Hr Hd. eapply (history_same c); [done | done |]. intros t'. unfold returns, spc_of. cbn. rewrite Hr, Hp, pc_at_insert.
  destruct (decide (t' = t)) as [-> |]; [by rewrite Hd | done].
Qed.

(** The last access of a call to the item queue fixes its reply. *)
Lemma history_fix c c0 t pc' o pushes pops : history_inv c pushes pops -> sc_pcs c0 = sc_pcs c -> sc_replies c0 = sc_replies c ->
  pending_reply (spc_of c t) = None -> pending_reply pc' = o ->
  sc_queue c ++ option_list (o ≫= sent_item) = option_list (o ≫= received_item) ++ sc_queue c0 ->
  history_inv (sc_at c0 t pc') (pushes ++ (pair t <$> option_list (o ≫= sent_item)))
    (pops ++ (pair t <$> option_list (o ≫= received_item))).
Proof.
  intros [H1 H2 H3] Hp Hr Hn Ho Hq. set (a := option_list (o ≫= sent_item)) in *. set (b := option_list (o ≫= received_item)) in *.
  assert (Hret : forall t', returns (sc_at c0 t pc') t' = returns c t' ++ (if decide (t' = t) then option_list o else [])).
  { intros t'. unfold returns, spc_of in *. cbn. rewrite Hr, Hp, pc_at_insert.
    destruct (decide (t' = t)) as [-> |]; [| by rewrite app_nil_r]. by rewrite Hn, Ho, app_nil_r. }
  assert (Hsnd : forall l : list T, (pair t <$> l).*2 = l).
  { intros l. rewrite <- list_fmap_compose. apply list_fmap_id. }
  split.
  - rewrite !fmap_app, !Hsnd, H1, <- !app_assoc. by rewrite Hq.
  - intros t'. rewrite of_thread_app, of_thread_own, Hret, H2, omap_app. f_equal. unfold a. by destruct (decide _), o as [[] |].
  - intros t'. rewrite of_thread_app, of_thread_own, Hret, H3, omap_app. f_equal. unfold b. by destruct (decide _), o as [[] |].
Qed.

Lemma history_next c t r pushes pops : history_inv c pushes pops -> spc_of c t = ScDone r ->
  history_inv (sc_at (record_reply c t r) t ScIdle) pushes pops.
Proof.
  intros Hi Hp. eapply (history_same c); [done | done |]. intros t'. unfold returns, spc_of in *. cbn. rewrite pc_at_insert, of_thread_app.
  pose proof (of_thread_own t t' [r]) as Ho. cbn in Ho. rewrite Ho.
  destruct (decide (t' = t)) as [-> | Hne]; [by rewrite Hp, app_nil_r | by rewrite app_nil_r].
Qed.

Lemma pending_notify c sd r : pending_reply (notify_pc c sd r) = Some r.
Proof. unfold notify_pc. by destruct sd, (sc_cap c). Qed.

Lemma pending_leave sd (q : bool) pc : pending_reply (leave sd q pc) = pending_reply pc.
Proof. by destruct q. Qed.

Definition history_safe c c' : Prop := forall pushes pops, history_inv c pushes pops -> exists pushes' pops', history_inv c' pushes' pops'.

Ltac same_reply Hp := intros pushes pops Hy; exists pushes, pops;
  apply (history_quiet _ _ _ _ _ _ Hy); rewrite ?Hp, ?pending_leave, ?pending_notify; try done.
Ltac fixes_reply Hp := intros pushes pops Hy; eexists _, _;
  eapply (history_fix _ _ _ _ _ _ _ Hy); [.. | reflexivity |]; rewrite ?Hp, ?pending_leave, ?pending_notify; try done;
  cbn; rewrite ?app_nil_r; try done; try match goal with H : sc_queue _ = _ :: _ |- _ => rewrite H; destruct (sc_cap _); cbn; by rewrite app_nil_r end.

Lemma send_history c t c' : is_handle_pc (spc_of c t) = false -> is_notify_pc (spc_of c t) = false -> is_recv_pc (spc_of c t) = false ->
  send_step c t (spc_of c t) = Ret c' -> history_safe c c'.
Proof.
  intros _ _ _ He. destruct (spc_of c t) as [] eqn:Hp; cbn [send_step] in He; unfold lock_wq, push_node, queue_push in He;
    repeat case_match; repeat match goal with H : (_, _) = (_, _) |- _ => injection H as <- <- end;
    cbn in He; try discriminate He; simplify_eq; first [by intros pushes pops Hy; exists pushes, pops | by same_reply Hp | by fixes_reply Hp].
Qed.

Lemma recv_history c t c' : is_recv_pc (spc_of c t) = true -> recv_step c t (spc_of c t) = Ret c' -> history_safe c c'.
Proof.
  intros _ He. destruct (spc_of c t) as [] eqn:Hp; cbn [recv_step] in He; unfold lock_wq, push_node, queue_pop in He;
    repeat case_match; repeat match goal with H : (_, _) = (_, _) |- _ => injection H as <- <- end;
    cbn -[notify_pc] in He; try discriminate He; simplify_eq; first [by intros pushes pops Hy; exists pushes, pops | by same_reply Hp | by fixes_reply Hp].
Qed.

Lemma set_wq_same c sd w : sc_pcs (set_wq c sd w) = sc_pcs c /\ sc_queue (set_wq c sd w) = sc_queue c /\ sc_replies (set_wq c sd w) = sc_replies c.
Proof. by destruct sd. Qed.

Lemma wake_each_rest l : forall c, sc_pcs (wake_each c l) = sc_pcs c /\ sc_queue (wake_each c l) = sc_queue c /\ sc_replies (wake_each c l) = sc_replies c.
Proof. induction l as [| n l IH]; intros c; cbn; [done |]. destruct (IH (sc_wake c n)) as (-> & -> & ->). unfold sc_wake. by case_match. Qed.

Lemma notify_history c t c' : is_notify_pc (spc_of c t) = true -> notify_step c t (spc_of c t) = Ret c' -> history_safe c c'.
Proof.
  intros _ He. destruct (spc_of c t) as [] eqn:Hp; cbn [notify_step] in He; unfold lock_wq in He;
    repeat case_match; try discriminate He; simplify_eq; first [by intros pushes pops Hy; exists pushes, pops | same_reply Hp];
    unfold unlock_wq, set_nodes, add_count, sc_wake; repeat case_match; by destruct sd.
Qed.

Lemma handle_history c t c' : is_handle_pc (spc_of c t) = true -> handle_step c t (spc_of c t) = Ret c' -> history_safe c c'.
Proof.
  intros _ He. destruct (spc_of c t) as [] eqn:Hp; cbn [handle_step] in He; unfold lock_wq in He;
    repeat case_match; try discriminate He; simplify_eq; first [by intros pushes pops Hy; exists pushes, pops | same_reply Hp];
    cbn; match goal with |- context [wake_each ?c ?l] => destruct (wake_each_rest l c) as (E1 & E2 & E3) end; first [by rewrite E1 | by rewrite E2 | by rewrite E3].
Qed.

Lemma sync_exec_history c t a c' : sync_exec c t a = Ret c' -> history_safe c c'.
Proof.
  intros He. destruct a; cbn in He;
    try (destruct (spc_of c t) as [] eqn:Hp; simplify_eq; first [by intros pushes pops Hy; exists pushes, pops | by same_reply Hp
      | intros pushes pops Hy; exists pushes, pops; by apply history_next | by intros pushes pops [H1 H2 H3]; exists pushes, pops]).
  unfold sync_step in He. destruct (is_handle_pc _) eqn:E1; [by eapply handle_history |].
  destruct (is_notify_pc _) eqn:E2; [by eapply notify_history |]. destruct (is_recv_pc _) eqn:E3; [by eapply recv_history |].
  by eapply send_history.
Qed.

Lemma sync_reach_history cap c : sync_reach cap c -> exists pushes pops, history_inv c pushes pops.
Proof.
  apply (reach_invariant _ _ _ (fun c => exists pushes pops, history_inv c pushes pops)).
  - exists [], []. split; [done | intros t; unfold returns; by rewrite sync_new_pc ..].
  - intros c0 t a c' (pushes & pops & Hy) _ He. by eapply (sync_exec_history c0 t a c' He).
Qed.

(** C32 The multi-threaded channel in every interleaving.  No step panics.  The
    items that sends accepted and the items that receives gave are those of two
    sequences: what was pushed is what was popped followed by what is queued, in
    that order; the items of a thread in the first are exactly those whose send
    returned [Ok] in that thread, and its items in the second exactly what its
    receives returned, in the order of its calls (with the call in progress, once
    its last access to the item queue is done).  So no item is lost, invented,
    duplicated or reordered, whatever a call answers.  A bounded queue never holds
    more than its capacity, at most one thread holds each spin lock, and every node
    in a waiting queue, and the node a notifier has popped and is about to wake, is
    of a thread whose future is still alive and has yet to take the lock. *)
Theorem sync_channel_safe cap c t a (Hcap : forall k, cap = Some k -> 0 <= k) (Hc : sync_reach cap c) :
  (exists c', sync_exec c t a = Ret c') /\
  (exists pushes pops : list (nat * T), pushes.*2 = pops.*2 ++ sc_queue c /\
     (forall t, of_thread t pushes = omap sent_item (returns c t)) /\
     (forall t, of_thread t pops = omap received_item (returns c t))) /\
  (forall k, cap = Some k -> Z.of_nat (length (sc_queue c)) <= k) /\
  (forall sd t1 t2, holds sd (spc_of c t1) = true -> holds sd (spc_of c t2) = true -> t1 = t2) /\
  (forall sd n, n ∈ wq_nodes (wq_of c sd) -> alive sd (spc_of c n) = true) /\
  (forall sd t1 n r, spc_of c t1 = NtSub sd n r -> alive sd (spc_of c n) = true).
Proof.
  destruct (sync_reach_inv cap c Hcap Hc) as [Hi <-]. pose proof (si_items c Hi) as Hl. split_and!; try done.
  - destruct (sync_exec_inv c t a Hi) as (c' & He & _). by exists c'.
  - destruct (sync_reach_history _ c Hc) as (pushes & pops & [H1 H2 H3]). by exists pushes, pops.
  - intros sd t1 t2 H1%(si_spin c Hi) H2%(si_spin c Hi). congruence.
  - apply (si_link c Hi).
  - intros sd t1 n r. apply (si_sub c Hi).
Qed.
End safety.

(** *** Concrete runs *)

(** A bounded channel of one slot, which is taken; the future of thread 0 has
    found the queue full and is about to enqueue itself. *)
Definition about_to_sleep : list (nat * sync_action Z) :=
  [(0%nat, ScTrySend 7)] ++ accesses ScStep 0 3 ++ [(0%nat, ScNext); (0%nat, ScSend 8); (0%nat, ScPoll)] ++ accesses ScStep 0 2.

Definition run_from (cap : option Z) (sched : list (nat * sync_action Z)) : SyncChannel Z :=
  match run sync_exec (sync_new cap) sched with Ret c => c | Fault _ => sync_new cap end.

(** Thread 1 takes the item, sees no waiter, and goes to sleep for the next. *)
Definition item_sched : list (nat * sync_action Z) :=
  about_to_sleep ++ accesses ScStep 0 3 ++ [(1%nat, ScTryRecv)] ++ accesses ScStep 1 2 ++ [(1%nat, ScNext)] ++
  accesses ScStep 0 2 ++ [(1%nat, ScRecv); (1%nat, ScPoll)] ++ accesses ScStep 1 9.

(** Thread 1 drops the last receiver. *)
Definition close_sched : list (nat * sync_action Z) :=
  about_to_sleep ++ [(1%nat, ScDropReceiver)] ++ accesses ScStep 1 5 ++ accesses ScStep 0 5.

Lemma sched_reach cap sched : sched_allowed sync_exec (fun _ _ _ => True) (sync_new cap) sched = true ->
  run sync_exec (sync_new cap) sched = Ret (run_from cap sched) -> sync_reach cap (run_from cap sched).
Proof. apply run_reach. constructor. Qed.

Lemma item_reach : sync_reach (Some 1) (run_from (Some 1) item_sched).
Proof. apply sched_reach; by vm_compute. Qed.

Lemma close_reach : sync_reach (Some 1) (run_from (Some 1) close_sched).
Proof. apply sched_reach; by vm_compute. Qed.

Lemma sync_channel_safe_witness :
  let c := run_from (Some 1) item_sched in
  returns c 1 = [Received 7] /\ (exists pops : list (nat * Z), of_thread 1 pops = [7] /\ of_thread 0 pops = []) /\
  wq_nodes (sc_send c) = [0%nat] /\ alive SendSide (spc_of c 0) = true.
Proof.
  assert (Hk : forall k, Some 1 = Some k -> 0 <= k) by (intros k [= <-]; lia).
  destruct (sync_channel_safe (Some 1) _ 0 ScStep Hk item_reach) as (_ & (pushes & pops & _ & _ & Hr) & _ & _ & Hn & _).
  assert (H1 : returns (run_from (Some 1) item_sched) 1 = [Received 7]) by (by vm_compute).
  assert (H0 : returns (run_from (Some 1) item_sched) 0 = [SentOk 7]) by (by vm_compute).
  split; [done |]. split; [exists pops; split; [by rewrite (Hr 1%nat), H1 | by rewrite (Hr 0%nat), H0] |].
  split; [by vm_compute |]. apply (Hn SendSide 0%nat).
  assert (wq_nodes (wq_of (run_from (Some 1) item_sched) SendSide) = [0%nat]) as -> by (by vm_compute). by left.
Defined.

(** Senders of a bounded channel can sleep for ever: [register_send_wait]
    checks that the queue is full before the count of waiters says that someone
    waits, so a receiver that takes the item in between wakes nobody, and both
    sides sleep on an empty channel; and a future that read [is_closed] before
    the last receiver went enqueues itself afterwards, where nobody is left to
    wake it.  No call is in progress in these states and nobody was woken. *)
Theorem sync_send_sleeps :
  (let c := run_from (Some 1) item_sched in
   sync_reach (Some 1) c /\ sc_queue c = [] /\ sc_closed c = false /\ sc_woken c = [] /\
   spc_of c 0 = ScSendFut 8 true /\ spc_of c 1 = ScRecvFut true) /\
  (let c := run_from (Some 1) close_sched in
   sync_reach (Some 1) c /\ sc_closed c = true /\ sc_receivers c = 0 /\ sc_woken c = [] /\
   spc_of c 0 = ScSendFut 8 true /\ spc_of c 1 = ScIdle).
Proof. split; (split; [first [exact item_reach | exact close_reach] |]); split_and!; by vm_compute. Qed.
