(* ===== verification/SyncOneshot.v ===== *)
(** * veloq-sync [oneshot.rs]: the one-shot channel between threads

    The state word, the cell of the value, the wakers of both sides, and the
    accesses of each call as steps of [os_exec]; an access to the cell is a step
    of its own.  A thread holds one handle.  The waker of a side is one cell,
    whose contract is in [Wakers]: [os_tx_cell] and [os_rx_cell] say whether
    a waker is registered, [os_tx_woken] and [os_rx_woken] whether the task was
    woken since it last polled.  A [compare_exchange_weak] that fails without
    reason tries the same again; it is left out.  The owned handles keep the state
    alive with an [Arc] and make the same accesses. *)

From stdpp Require Import list gmap.
From S2P Require Import Prelude Interleave.

Definition VALUE_SENT : Z := 2.
Definition CLOSED : Z := 4.

(** ** [StateVal] *)

Definition is_complete (state : Z) : bool := Z.land state VALUE_SENT =? VALUE_SENT.
Definition is_closed (state : Z) : bool := Z.land state CLOSED =? CLOSED.

Section oneshot.
Context {T : Type}.

Inductive RecvReply : Type := GotValue (m : T) | GotClosed.

(** What a sender's [complete] is part of. *)
Inductive tx_call : Type := InSend | InDrop.

Inductive os_pc : Type :=
  | OsIdle
  | TxRest (pending : bool)          (* a sender; its last poll of [closed] was pending *)
  | TxWrite (m : T)                  (* send: write the cell *)
  | TxLoad (k : tx_call)             (* set_complete: load *)
  | TxCas (k : tx_call) (state : Z)  (* set_complete: compare_exchange *)
  | TxWake (k : tx_call)             (* wake the receiver *)
  | TxTake                           (* send, closed: take the value back *)
  | TxDrop                           (* drop: load *)
  | TcLoad | TcRegister | TcCheck    (* poll_closed: load, register, load *)
  | RxRest (pending : bool)          (* a receiver; its last poll was pending *)
  | RxDone (r : RecvReply)           (* a receiver that is terminated *)
  | RxClose | RxCloseWake            (* close: fetch_or, wake *)
  | RxDropOr                         (* drop: fetch_or *)
  | RxDropWake (complete : bool)     (* wake the sender *)
  | RxDropTake                       (* drop the value *)
  | TrLoad                           (* try_recv: load *)
  | RxTake                           (* take the value *)
  | RpLoad | RpRegister | RpCheck    (* poll: load, register, load *)
  | EmLoad | EmPeek.                 (* is_empty: load, look at the cell *)

(** [os_written], [os_received], [os_returned] and [os_dropped] are the history
    of the values. *)
Record Oneshot : Type := mkOneshot {
  os_state : Z;
  os_value : option T;
  os_tx_cell : bool;
  os_rx_cell : bool;
  os_tx_woken : bool;
  os_rx_woken : bool;
  os_pcs : gmap nat os_pc;
  os_written : list T;
  os_received : list T;
  os_returned : list T;
  os_dropped : list T
}.
Implicit Types (c : Oneshot) (t : nat) (m : T) (k : tx_call).

Definition opc_of c t : os_pc := pc_at OsIdle (os_pcs c) t.

Definition os_at c t (pc : os_pc) : Oneshot :=
  mkOneshot (os_state c) (os_value c) (os_tx_cell c) (os_rx_cell c) (os_tx_woken c) (os_rx_woken c) (<[t := pc]> (os_pcs c))
    (os_written c) (os_received c) (os_returned c) (os_dropped c).
Definition os_set_state c (v : Z) : Oneshot :=
  mkOneshot v (os_value c) (os_tx_cell c) (os_rx_cell c) (os_tx_woken c) (os_rx_woken c) (os_pcs c)
    (os_written c) (os_received c) (os_returned c) (os_dropped c).
Definition os_set_tx c (cell woken : bool) : Oneshot :=
  mkOneshot (os_state c) (os_value c) cell (os_rx_cell c) woken (os_rx_woken c) (os_pcs c)
    (os_written c) (os_received c) (os_returned c) (os_dropped c).
Definition os_set_rx c (cell woken : bool) : Oneshot :=
  mkOneshot (os_state c) (os_value c) (os_tx_cell c) cell (os_tx_woken c) woken (os_pcs c)
    (os_written c) (os_received c) (os_returned c) (os_dropped c).
Definition os_set_value c (v : option T) (written received returned dropped : list T) : Oneshot :=
  mkOneshot (os_state c) v (os_tx_cell c) (os_rx_cell c) (os_tx_woken c) (os_rx_woken c) (os_pcs c) written received returned dropped.

(** [State::new], and [split] into handles of threads 0 and 1. *)
Definition os_new : Oneshot := mkOneshot 0 None false false false false ∅ [] [] [] [].
Definition os_split c (tx rx : nat) : Oneshot := os_at (os_at c tx (TxRest false)) rx (RxRest false).
Definition os_channel : Oneshot := os_split os_new 0 1.

(** ** The wakers *)

Definition wake_tx c : Oneshot := if os_tx_cell c then os_set_tx c false true else c.
Definition wake_rx c : Oneshot := if os_rx_cell c then os_set_rx c false true else c.

(** ** The cell *)

(** Writing drops what was there. *)
Definition write_value c m : Oneshot :=
  os_set_value c (Some m) (m :: os_written c) (os_received c) (os_returned c) (option_list (os_value c) ++ os_dropped c).
(** [consume_value] for a receiver, the sender, and to drop. *)
Definition take_received c : Oneshot :=
  os_set_value c None (os_written c) (option_list (os_value c) ++ os_received c) (os_returned c) (os_dropped c).
Definition take_returned c : Oneshot :=
  os_set_value c None (os_written c) (os_received c) (option_list (os_value c) ++ os_returned c) (os_dropped c).
Definition take_dropped c : Oneshot :=
  os_set_value c None (os_written c) (os_received c) (os_returned c) (option_list (os_value c) ++ os_dropped c).

(** ** The sender *)

(** After [complete]: a send drops the sender, a drop is over. *)
Definition tx_after k : os_pc := match k with InSend => TxDrop | InDrop => OsIdle end.
(** [set_complete] saw the channel closed. *)
Definition tx_refused k : os_pc := match k with InSend => TxTake | InDrop => OsIdle end.
Definition set_complete_from k (state : Z) : os_pc := if is_closed state then tx_refused k else TxCas k state.

Definition tx_step c t (pc : os_pc) : outcome Oneshot :=
  match pc with
  | TxWrite m => Ret (os_at (write_value c m) t (TxLoad InSend))
  | TxLoad k => Ret (os_at c t (set_complete_from k (os_state c)))
  | TxCas k state =>
      if os_state c =? state then Ret (os_at (os_set_state c (Z.lor state VALUE_SENT)) t (TxWake k))
      else Ret (os_at c t (set_complete_from k (os_state c)))
  | TxWake k => Ret (os_at (wake_rx c) t (tx_after k))
  | TxTake =>
      match os_value c with
      | Some _ => Ret (os_at (take_returned c) t TxDrop)
      | None => Fault ExpectFailed
      end
  | TxDrop => Ret (os_at c t (if is_complete (os_state c) then OsIdle else TxLoad InDrop))
  | TcLoad => Ret (os_at c t (if is_closed (os_state c) then TxRest false else TcRegister))
  | TcRegister => Ret (os_at (os_set_tx c true false) t TcCheck)
  | TcCheck => Ret (os_at c t (TxRest (negb (is_closed (os_state c)))))
  | _ => Ret c
  end.

(** ** The receiver *)

Definition rx_step c t (pc : os_pc) : outcome Oneshot :=
  match pc with
  | RxClose => Ret (os_at (os_set_state c (Z.lor (os_state c) CLOSED)) t RxCloseWake)
  | RxCloseWake => Ret (os_at (wake_tx c) t (RxRest false))
  | RxDropOr => Ret (os_at (os_set_state c (Z.lor (os_state c) CLOSED)) t (RxDropWake (is_complete (os_state c))))
  | RxDropWake complete => Ret (os_at (wake_tx c) t (if complete then RxDropTake else OsIdle))
  | RxDropTake => Ret (os_at (take_dropped c) t OsIdle)
  | TrLoad =>
      Ret (os_at c t (if is_complete (os_state c) then RxTake else if is_closed (os_state c) then RxDone GotClosed else RxRest false))
  | RxTake => Ret (os_at (take_received c) t (RxDone (match os_value c with Some m => GotValue m | None => GotClosed end)))
  | RpLoad =>
      Ret (os_at c t (if is_complete (os_state c) then RxTake else if is_closed (os_state c) then RxDone GotClosed else RpRegister))
  | RpRegister => Ret (os_at (os_set_rx c true false) t RpCheck)
  | RpCheck =>
      Ret (os_at c t (if is_complete (os_state c) then RxTake else if is_closed (os_state c) then RxDone GotClosed else RxRest true))
  | EmLoad => Ret (os_at c t (if is_complete (os_state c) then EmPeek else RxRest false))
  | EmPeek => Ret (os_at c t (RxRest false))
  | _ => Ret c
  end.

(** ** Calls *)

Inductive os_action : Type :=
  | OsSend (m : T)
  | OsPollClosed
  | OsClose
  | OsTryRecv
  | OsPoll
  | OsIsEmpty
  | OsDrop
  | OsDropState        (* nobody holds a handle any more *)
  | OsStep.

(** A call that does not fit where the thread stands leaves all as it is;
    polling a terminated receiver panics. *)
Definition os_exec c t (a : os_action) : outcome Oneshot :=
  match a, opc_of c t with
  | OsSend m, TxRest _ => Ret (os_at c t (TxWrite m))
  | OsPollClosed, TxRest _ => Ret (os_at c t TcLoad)
  | OsDrop, TxRest _ => Ret (os_at c t TxDrop)
  | OsClose, RxRest _ => Ret (os_at c t RxClose)
  | OsTryRecv, RxRest _ => Ret (os_at c t TrLoad)
  | OsPoll, RxRest _ => Ret (os_at c t RpLoad)
  | OsPoll, RxDone _ => Fault ExpectFailed
  | OsIsEmpty, RxRest _ => Ret (os_at c t EmLoad)
  | OsDrop, RxRest _ => Ret (os_at c t RxDropOr)
  | OsDrop, RxDone _ => Ret (os_at c t OsIdle)
  | OsDropState, OsIdle => Ret (take_dropped c)
  | OsStep, (TxWrite _ | TxLoad _ | TxCas _ _ | TxWake _ | TxTake | TxDrop | TcLoad | TcRegister | TcCheck) => tx_step c t (opc_of c t)
  | OsStep, pc => rx_step c t pc
  | _, _ => Ret c
  end.

(** The state is dropped when no handle refers to it; a receiver is not polled
    again after it terminated. *)
Definition is_idle (pc : os_pc) : bool := match pc with OsIdle => true | _ => false end.
Definition os_allowed c t (a : os_action) : Prop :=
  match a with
  | OsDropState => map_Forall (fun _ pc => is_idle pc = true) (os_pcs c)
  | OsPoll => match opc_of c t with RxDone _ => False | _ => True end
  | _ => True
  end.
Definition os_reach : Oneshot -> Prop := reach os_exec os_allowed os_channel.
End oneshot.
Arguments RecvReply : clear implicits.
Arguments os_pc : clear implicits.
Arguments Oneshot : clear implicits.
Arguments os_action : clear implicits.

(** ** The one-shot channel between threads: what holds in every interleaving

    Two facts, one for where the sender stands and one for where the receiver
    stands, are kept by their own steps and by those of the other side; from them
    follow that the cell is never accessed from both sides, where the value is,
    that no wake-up is lost, and that the calls end. *)

Section safety.
Context {T : Type}.
Notation Oneshot := (Oneshot T).
Notation os_pc := (os_pc T).
Implicit Types (c : Oneshot) (t : nat) (m : T) (pc : os_pc).

(** *** The word *)

Definition word_ok (s : Z) : Prop := s = 0 \/ s = 2 \/ s = 4 \/ s = 6.

Ltac words H := destruct H as [-> | [-> | [-> | ->]]]; vm_compute; intuition congruence.
Lemma word_sent s : word_ok s ->
  is_complete (Z.lor s VALUE_SENT) = true /\ is_closed (Z.lor s VALUE_SENT) = is_closed s /\ word_ok (Z.lor s VALUE_SENT).
Proof. intros Hs. words Hs. Qed.
Lemma word_closed s : word_ok s ->
  is_closed (Z.lor s CLOSED) = true /\ is_complete (Z.lor s CLOSED) = is_complete s /\ word_ok (Z.lor s CLOSED).
Proof. intros Hs. words Hs. Qed.
Lemma word_zero s : word_ok s -> is_complete s = false -> is_closed s = false -> s = 0.
Proof. intros Hs. words Hs. Qed.

(** *** The facts *)

Definition done_bit c : bool := is_complete (os_state c).
Definition shut_bit c : bool := is_closed (os_state c).

(** Nothing was sent; a value waits in the cell; it was given back. *)
Definition unsent c : Prop := os_value c = None /\ os_written c = [] /\ os_returned c = [].
Definition waiting c : Prop := exists m, os_value c = Some m /\ os_written c = [m] /\ os_returned c = [].
Definition given_back c : Prop := os_value c = None /\ shut_bit c = true /\ exists m, os_written c = [m] /\ os_returned c = [m].
Definition sent c : Prop := done_bit c = true /\ os_returned c = [] /\ exists m, os_written c = [m].

Definition tx_fact c pc : Prop :=
  match pc with
  | TxRest _ | TxWrite _ | TcLoad | TcRegister | TcCheck => done_bit c = false /\ unsent c
  | TxLoad InSend => done_bit c = false /\ waiting c
  | TxCas InSend state => done_bit c = false /\ waiting c /\ state = 0
  | TxTake => done_bit c = false /\ shut_bit c = true /\ waiting c
  | TxWake InSend => sent c
  | TxDrop => sent c \/ (done_bit c = false /\ (unsent c \/ given_back c))
  | TxLoad InDrop => done_bit c = false /\ (unsent c \/ given_back c)
  | TxCas InDrop state => done_bit c = false /\ (unsent c \/ given_back c) /\ state = 0
  | TxWake InDrop => done_bit c = true /\ unsent c
  | OsIdle => sent c \/ (done_bit c = true /\ unsent c) \/ (done_bit c = false /\ shut_bit c = true /\ (unsent c \/ given_back c))
  | _ => False
  end.

Definition fresh_rx c : Prop := os_received c = [] /\ os_dropped c = [].
Definition taken c : Prop := done_bit c = true -> os_value c = None.

Definition rx_fact c pc : Prop :=
  match pc with
  | RxRest _ | RxClose | RxCloseWake | TrLoad | RpLoad | RpRegister | RpCheck | EmLoad | RxDropOr => fresh_rx c
  | RxTake | EmPeek => done_bit c = true /\ fresh_rx c
  | RxDropWake complete => shut_bit c = true /\ done_bit c = complete /\ fresh_rx c
  | RxDropTake => shut_bit c = true /\ done_bit c = true /\ fresh_rx c
  | RxDone (GotValue m) => done_bit c = true /\ os_value c = None /\ os_received c = [m] /\ os_dropped c = []
  | RxDone GotClosed => (shut_bit c = true \/ done_bit c = true) /\ taken c /\ fresh_rx c /\
      (shut_bit c = true \/ (os_written c = [] /\ os_value c = None))
  | OsIdle => (shut_bit c = true \/ done_bit c = true) /\ taken c
  | _ => False
  end.

Definition conserved c : Prop :=
  os_written c ≡ₚ option_list (os_value c) ++ os_received c ++ os_returned c ++ os_dropped c.

(** The threads that are waking the other side. *)
Definition waking_rx pc : bool := match pc with TxWake _ => true | _ => false end.
Definition waking_tx pc : bool := match pc with RxCloseWake | RxDropWake _ => true | _ => false end.
(** A receiver, a sender, that sleeps. *)
Definition listens_rx pc : bool := match pc with RxRest pending => pending | _ => false end.
Definition listens_tx pc : bool := match pc with TxRest pending => pending | _ => false end.

Record os_inv c : Prop := {
  oi_word : word_ok (os_state c);
  oi_tx : tx_fact c (opc_of c 0);
  oi_rx : rx_fact c (opc_of c 1);
  oi_others : forall t, (2 <= t)%nat -> opc_of c t = OsIdle;
  oi_conserved : conserved c;
  oi_rx_wake : os_rx_cell c = true -> done_bit c = true -> listens_rx (opc_of c 1) = true -> waking_rx (opc_of c 0) = true;
  oi_tx_wake : os_tx_cell c = true -> shut_bit c = true -> listens_tx (opc_of c 0) = true -> waking_tx (opc_of c 1) = true;
  oi_rx_pending : opc_of c 1 = RxRest true \/ opc_of c 1 = RpCheck -> os_rx_cell c = true \/ os_rx_woken c = true;
  oi_tx_pending : opc_of c 0 = TxRest true \/ opc_of c 0 = TcCheck -> os_tx_cell c = true \/ os_tx_woken c = true
}.

(** *** The facts of one side while the other moves *)

Lemma tx_fact_stable c c' pc : done_bit c' = done_bit c -> (shut_bit c = true -> shut_bit c' = true) ->
  os_written c' = os_written c -> os_returned c' = os_returned c ->
  os_value c' = os_value c \/ (done_bit c = true /\ os_value c' = None) -> tx_fact c pc -> tx_fact c' pc.
Proof.
  intros Hd Hs Hw Hr Hv. unfold tx_fact, unsent, waiting, given_back, sent. rewrite Hd, Hw, Hr.
  destruct (done_bit c) eqn:Ed.
  - assert (Hn : os_value c = None -> os_value c' = None) by (destruct Hv as [-> | [_ ->]]; done). clear Hv.
    destruct pc as [| | |[]|[]|[]| | | | | | | | | | | | | | | | | | |]; intuition congruence.
  - destruct Hv as [-> | [? _]]; [| done]. destruct pc as [| | |[]|[]|[]| | | | | | | | | | | | | | | | | | |]; try naive_solver.
Qed.

Lemma rx_fact_stable c c' pc : shut_bit c' = shut_bit c -> (shut_bit c = true -> done_bit c' = done_bit c) ->
  (done_bit c = true -> done_bit c' = true /\ os_value c' = os_value c /\ os_written c' = os_written c) ->
  os_received c' = os_received c -> os_dropped c' = os_dropped c -> rx_fact c pc -> rx_fact c' pc.
Proof.
  intros Hs Hd Hk Hr Hp. unfold rx_fact, fresh_rx, taken. rewrite Hs, Hr, Hp.
  destruct (done_bit c) eqn:Ed.
  - destruct (Hk eq_refl) as (-> & -> & ->). done.
  - destruct (shut_bit c) eqn:Es; [rewrite (Hd eq_refl) | clear Hd]; clear Hk;
      destruct pc; try done; try (match goal with r : RecvReply _ |- _ => destruct r end); intuition congruence.
Qed.

Lemma opc_moved c c' t pc' : os_pcs c' = <[t := pc']> (os_pcs c) -> forall t', opc_of c' t' = if decide (t' = t) then pc' else opc_of c t'.
Proof. intros Hp t'. unfold opc_of. rewrite Hp. apply pc_at_insert. Qed.

(** A step of the sender. *)
Lemma tx_moves c c' pc' : os_inv c -> os_pcs c' = <[0%nat := pc']> (os_pcs c) -> word_ok (os_state c') -> tx_fact c' pc' ->
  shut_bit c' = shut_bit c -> (shut_bit c = true -> done_bit c' = done_bit c) ->
  (done_bit c = true -> done_bit c' = true /\ os_value c' = os_value c /\ os_written c' = os_written c) ->
  os_received c' = os_received c -> os_dropped c' = os_dropped c -> conserved c' ->
  (waking_rx pc' = true \/ os_rx_cell c' = false \/ (os_rx_cell c' = os_rx_cell c /\ done_bit c' = done_bit c /\ waking_rx (opc_of c 0) = false)) ->
  (os_rx_cell c' = os_rx_cell c /\ os_rx_woken c' = os_rx_woken c \/ os_rx_woken c' = true) ->
  (listens_tx pc' = true -> os_tx_cell c' = os_tx_cell c /\ (listens_tx (opc_of c 0) = true \/ shut_bit c = false)) ->
  (pc' = TxRest true \/ pc' = TcCheck -> os_tx_cell c' = true \/ os_tx_woken c' = true) -> os_inv c'.
Proof.
  intros Hi Hp Hw Htx Hs Hd Hk Hr Hx Hc Hwk Hrx Hl Hpend. pose proof (opc_moved c c' 0 pc' Hp) as Hpc.
  assert (H0 : opc_of c' 0 = pc') by (by rewrite Hpc). assert (H1 : opc_of c' 1 = opc_of c 1) by (by rewrite Hpc).
  destruct Hi as [_ _ Irx Io _ Iw1 Iw2 Ip1 Ip2]. split; rewrite ?H0, ?H1; try done.
  - eapply rx_fact_stable; [exact Hs | exact Hd | exact Hk | done | done | exact Irx].
  - intros t Ht. rewrite Hpc. rewrite decide_False by lia. by apply Io.
  - intros Hcell Hdone Hli. destruct Hwk as [Hwk | [Hwk | (E1 & E2 & E3)]]; [done | congruence |].
    rewrite E1 in Hcell. rewrite E2 in Hdone. rewrite (Iw1 Hcell Hdone Hli) in E3. done.
  - intros Hcell Hsh Hli. rewrite Hs in Hsh. destruct (Hl Hli) as [E [E' | E']]; [| congruence]. rewrite E in Hcell. by apply Iw2.
  - intros Hq. destruct Hrx as [[-> ->] | ->]; [by apply Ip1 | by right].
Qed.

(** A step of the receiver. *)
Lemma rx_moves c c' pc' : os_inv c -> os_pcs c' = <[1%nat := pc']> (os_pcs c) -> word_ok (os_state c') -> rx_fact c' pc' ->
  done_bit c' = done_bit c -> (shut_bit c = true -> shut_bit c' = true) ->
  os_written c' = os_written c -> os_returned c' = os_returned c ->
  os_value c' = os_value c \/ (done_bit c = true /\ os_value c' = None) -> conserved c' ->
  (waking_tx pc' = true \/ os_tx_cell c' = false \/ (os_tx_cell c' = os_tx_cell c /\ shut_bit c' = shut_bit c /\ waking_tx (opc_of c 1) = false)) ->
  (os_tx_cell c' = os_tx_cell c /\ os_tx_woken c' = os_tx_woken c \/ os_tx_woken c' = true) ->
  (listens_rx pc' = true -> os_rx_cell c' = os_rx_cell c /\ (listens_rx (opc_of c 1) = true \/ done_bit c = false)) ->
  (pc' = RxRest true \/ pc' = RpCheck -> os_rx_cell c' = true \/ os_rx_woken c' = true) -> os_inv c'.
Proof.
  intros Hi Hp Hw Hrx Hd Hs Hwr Hr Hv Hc Hwk Htx Hl Hpend. pose proof (opc_moved c c' 1 pc' Hp) as Hpc.
  assert (H0 : opc_of c' 0 = opc_of c 0) by (by rewrite Hpc). assert (H1 : opc_of c' 1 = pc') by (by rewrite Hpc).
  destruct Hi as [_ Itx _ Io _ Iw1 Iw2 Ip1 Ip2]. split; rewrite ?H0, ?H1; try done.
  - eapply tx_fact_stable; [exact Hd | exact Hs | done | done | exact Hv | exact Itx].
  - intros t Ht. rewrite Hpc. rewrite decide_False by lia. by apply Io.
  - intros Hcell Hdone Hli. rewrite Hd in Hdone. destruct (Hl Hli) as [E [E' | E']]; [| congruence]. rewrite E in Hcell. by apply Iw1.
  - intros Hcell Hsh Hli. destruct Hwk as [Hwk | [Hwk | (E1 & E2 & E3)]]; [done | congruence |].
    rewrite E1 in Hcell. rewrite E2 in Hsh. rewrite (Iw2 Hcell Hsh Hli) in E3. done.
  - intros Hq. destruct Htx as [[-> ->] | ->]; [by apply Ip2 | by right].
Qed.

(** *** Every step keeps the invariant *)

Definition os_good (o : outcome Oneshot) : Prop := exists c', o = Ret c' /\ os_inv c'.

Lemma set_state_bits c v : done_bit (os_set_state c v) = is_complete v /\ shut_bit (os_set_state c v) = is_closed v.
Proof. done. Qed.

(** What is left of a step that changes neither the word, nor the cell, nor a waker. *)
Lemma tx_quiet c pc' : os_inv c -> tx_fact c pc' -> waking_rx (opc_of c 0) = false ->
  (listens_tx pc' = true -> listens_tx (opc_of c 0) = true \/ shut_bit c = false) ->
  (pc' = TxRest true \/ pc' = TcCheck -> os_tx_cell c = true \/ os_tx_woken c = true) -> os_inv (os_at c 0 pc').
Proof.
  intros Hi Hf Hw Hl Hp. eapply (tx_moves c _ pc' Hi); try done; try apply Hi; try (by left).
  - right. right. done.
  - intros Hx. split; [done | by apply Hl].
Qed.
Lemma rx_quiet c pc' : os_inv c -> rx_fact c pc' -> waking_tx (opc_of c 1) = false ->
  (listens_rx pc' = true -> listens_rx (opc_of c 1) = true \/ done_bit c = false) ->
  (pc' = RxRest true \/ pc' = RpCheck -> os_rx_cell c = true \/ os_rx_woken c = true) -> os_inv (os_at c 1 pc').
Proof.
  intros Hi Hf Hw Hl Hp. eapply (rx_moves c _ pc' Hi); try done; try apply Hi; try (by left).
  - right. right. done.
  - intros Hx. split; [done | by apply Hl].
Qed.

Lemma set_complete_fact c k : os_inv c -> done_bit c = false -> match k with InSend => waiting c | InDrop => unsent c \/ given_back c end ->
  tx_fact c (set_complete_from k (os_state c)).
Proof.
  intros Hi Hd Hk. unfold set_complete_from. destruct (is_closed (os_state c)) eqn:Hs; destruct k; cbn.
  - done.
  - right. right. done.
  - split_and!; [done | done |]. by apply word_zero; [apply Hi | ..].
  - split_and!; [done | done |]. by apply word_zero; [apply Hi | ..].
Qed.

(** After a load of the word: towards the exchange, or the refusal. *)
Lemma tx_loaded c k : os_inv c -> done_bit c = false -> match k with InSend => waiting c | InDrop => unsent c \/ given_back c end ->
  waking_rx (opc_of c 0) = false -> os_inv (os_at c 0 (set_complete_from k (os_state c))).
Proof.
  intros Hi Hd Hk Hw. apply tx_quiet; [done | by apply set_complete_fact | done | |];
    unfold set_complete_from; destruct (is_closed _), k; cbn; try done; naive_solver.
Qed.

Lemma tx_write_inv c m : os_inv c -> opc_of c 0 = TxWrite m -> os_good (tx_step c 0 (TxWrite m)).
Proof.
  intros Hi Hp. eexists. split; [done |]. pose proof (oi_tx c Hi) as Hf. rewrite Hp in Hf. destruct Hf as (Hd & Hv & Hw & Hr).
  pose proof (oi_conserved c Hi) as Hc. unfold conserved in Hc. rewrite Hv, Hw, Hr in Hc. cbn in Hc.
  eapply (tx_moves c _ (TxLoad InSend) Hi); [reflexivity | ..]; cbn; rewrite ?Hp, ?Hv, ?Hw, ?Hr; try done.
  - apply Hi.
  - split; [done |]. exists m. cbn. rewrite Hw, Hr. done.
  - intros Hx. congruence.
  - unfold conserved. cbn. rewrite Hv, Hw, Hr. cbn. by apply perm_skip.
  - right. right. done.
  - by left.
  - naive_solver.
Qed.

Lemma tx_cas_inv c k s : os_inv c -> opc_of c 0 = TxCas k s -> os_good (tx_step c 0 (TxCas k s)).
Proof.
  intros Hi Hp. pose proof (oi_tx c Hi) as Hf. rewrite Hp in Hf.
  assert (Hk : done_bit c = false /\ match k with InSend => waiting c | InDrop => unsent c \/ given_back c end /\ s = 0) by by destruct k.
  clear Hf. destruct Hk as (Hd & Hk & ->). cbn [tx_step]. destruct (Z.eqb_spec (os_state c) 0) as [Hz | Hz]; (eexists; split; [done |]).
  2: { apply tx_loaded; [done | done | done | by rewrite Hp]. }
  assert (Hs : shut_bit c = false) by (unfold shut_bit; by rewrite Hz).
  eapply (tx_moves c _ (TxWake k) Hi); [reflexivity | ..]; cbn; rewrite ?Hp; try done.
  - right. by left.
  - destruct k; cbn; [destruct Hk as (m & Hv & Hw & Hr); split_and!; try done; by exists m |].
    destruct Hk as [Hk | (_ & Hk & _)]; [done | congruence].
  - intros Hx. congruence.
  - apply Hi.
  - by left.
  - by left.
  - naive_solver.
Qed.

Lemma wake_rx_cases c : os_rx_cell (wake_rx c) = false /\
  (os_rx_cell c = true /\ wake_rx c = os_set_rx c false true \/ os_rx_cell c = false /\ wake_rx c = c).
Proof. unfold wake_rx. destruct (os_rx_cell c) eqn:E; auto. Qed.
Lemma wake_tx_cases c : os_tx_cell (wake_tx c) = false /\
  (os_tx_cell c = true /\ wake_tx c = os_set_tx c false true \/ os_tx_cell c = false /\ wake_tx c = c).
Proof. unfold wake_tx. destruct (os_tx_cell c) eqn:E; auto. Qed.

Lemma tx_wake_inv c k : os_inv c -> opc_of c 0 = TxWake k -> os_good (tx_step c 0 (TxWake k)).
Proof.
  intros Hi Hp. pose proof (oi_tx c Hi) as Hf. rewrite Hp in Hf. eexists. split; [done |].
  assert (Hf' : tx_fact c (tx_after k)) by (destruct k; cbn; [by left | right; left; exact Hf]).
  assert (Hk : listens_tx (tx_after k) = false /\ tx_after k <> @TxRest T true /\ tx_after k <> @TcCheck T) by by destruct k.
  destruct Hk as (Hk1 & Hk2 & Hk3). destruct (wake_rx_cases c) as (Hc & [[E ->] | [E ->]]).
  - eapply (tx_moves c _ (tx_after k) Hi); try done; try apply Hi; cbn; rewrite ?Hk1; try done.
    + right. by left.
    + by right.
    + naive_solver.
  - eapply (tx_moves c _ (tx_after k) Hi); try done; try apply Hi; cbn; rewrite ?Hk1; try done.
    + right. by left.
    + by left.
    + naive_solver.
Qed.

Lemma tx_take_inv c : os_inv c -> opc_of c 0 = TxTake -> os_good (tx_step c 0 TxTake).
Proof.
  intros Hi Hp. pose proof (oi_tx c Hi) as Hf. rewrite Hp in Hf. destruct Hf as (Hd & Hs & m & Hv & Hw & Hr). cbn [tx_step]. rewrite Hv.
  eexists. split; [done |]. pose proof (oi_conserved c Hi) as Hc. unfold conserved in Hc. rewrite Hv, Hr in Hc. cbn in Hc.
  eapply (tx_moves c _ TxDrop Hi); try done; try apply Hi; cbn; try done.
  - right. split; [done |]. right. split; [done |]. split; [done |]. exists m. cbn. by rewrite Hv, Hr.
  - intros Hx. congruence.
  - unfold conserved. cbn. rewrite Hv, Hr. cbn. rewrite Hc. by rewrite Permutation_middle.
  - right. right. by rewrite Hp.
  - by left.
  - naive_solver.
Qed.

Lemma tx_step_inv c : os_inv c ->
  match opc_of c 0 with TxWrite _ | TxLoad _ | TxCas _ _ | TxWake _ | TxTake | TxDrop | TcLoad | TcRegister | TcCheck => True | _ => False end ->
  os_good (tx_step c 0 (opc_of c 0)).
Proof.
  intros Hi Hpc. pose proof (oi_tx c Hi) as Hf. destruct (opc_of c 0) as [] eqn:Hp; try done.
  - by apply tx_write_inv.
  - eexists. split; [done |]. apply tx_loaded; [done | | | by rewrite Hp]; by destruct k, Hf.
  - by apply tx_cas_inv.
  - by apply tx_wake_inv.
  - by apply tx_take_inv.
  - eexists. split; [done |]. fold (done_bit c). destruct (done_bit c) eqn:Hd.
    + apply tx_quiet; rewrite ?Hp; try done; [| naive_solver]. cbn in *. rewrite Hd in *. naive_solver.
    + apply tx_quiet; rewrite ?Hp; try done; [| naive_solver]. cbn in *. split; [done |]. destruct Hf as [[Hf _] | [_ Hf]]; [congruence | done].
  - eexists. split; [done |]. destruct (is_closed (os_state c)) eqn:Hs; apply tx_quiet; rewrite ?Hp; try done; naive_solver.
  - eexists. split; [done |]. eapply (tx_moves c _ TcCheck Hi); try done; try apply Hi; cbn; try done.
    + right. right. by rewrite Hp.
    + by left.
    + by left.
  - eexists. split; [done |]. apply tx_quiet; rewrite ?Hp; try done.
    + cbn. intros Hs%negb_true_iff. by right.
    + intros _. apply (oi_tx_pending c Hi). by right.
Qed.

(** Setting the closed bit. *)
Lemma rx_shut_inv c pc' : os_inv c -> rx_fact (os_set_state c (Z.lor (os_state c) CLOSED)) pc' -> waking_tx pc' = true ->
  listens_rx pc' = false -> pc' <> RpCheck -> os_inv (os_at (os_set_state c (Z.lor (os_state c) CLOSED)) 1 pc').
Proof.
  intros Hi Hf Hw Hl Hn. destruct (word_closed (os_state c) (oi_word c Hi)) as (H1 & H2 & H3).
  eapply (rx_moves c _ pc' Hi); try done; try apply Hi; cbn; try (by left); try congruence.
  intros [-> | ->]; done.
Qed.

Lemma rx_wake_inv c pc' : os_inv c -> rx_fact c pc' -> listens_rx pc' = false -> pc' <> RpCheck -> os_inv (os_at (wake_tx c) 1 pc').
Proof.
  intros Hi Hf Hl Hn. destruct (wake_tx_cases c) as (Hc & [[E ->] | [E ->]]).
  - eapply (rx_moves c _ pc' Hi); try done; try apply Hi; cbn; rewrite ?Hl; try done; [by left | right; by left | by right |].
    intros [-> | ->]; done.
  - eapply (rx_moves c _ pc' Hi); try done; try apply Hi; cbn; rewrite ?Hl; try done; [by left | right; by left | by left |].
    intros [-> | ->]; done.
Qed.

Lemma value_of_done c : os_inv c -> done_bit c = true -> fresh_rx c ->
  (exists m, os_value c = Some m /\ os_written c = [m] /\ os_returned c = []) \/ (os_value c = None /\ os_written c = [] /\ os_returned c = []).
Proof.
  intros Hi Hd [Hr Hx]. pose proof (oi_tx c Hi) as Hf. pose proof (oi_conserved c Hi) as Hc. unfold conserved in Hc. rewrite Hr, Hx in Hc. cbn in Hc.
  assert (Hcase : sent c \/ unsent c). { unfold tx_fact in Hf. destruct (opc_of c 0) as [| | |[]|[]|[]| | | | | | | | | | | | | | | | | | |]; intuition congruence. }
  destruct Hcase as [(_ & Hret & m & Hw) | (Hv & Hw & Hret)]; [left | by right]. rewrite Hw, Hret in Hc. rewrite !app_nil_r in Hc.
  destruct (os_value c) as [v |]; [| by apply Permutation_sym, Permutation_nil in Hc]. cbn in Hc.
  apply Permutation_singleton_inj in Hc as ->. by exists v.
Qed.

Lemma rx_take_inv c : os_inv c -> opc_of c 1 = RxTake -> os_good (rx_step c 1 RxTake).
Proof.
  intros Hi Hp. pose proof (oi_rx c Hi) as Hf. rewrite Hp in Hf. destruct Hf as (Hd & Hr & Hx). eexists. split; [done |].
  pose proof (oi_conserved c Hi) as Hc. unfold conserved in Hc.
  eapply (rx_moves c _ _ Hi); try done; try apply Hi; cbn; try (by left).
  - destruct (value_of_done c Hi Hd) as [(m & Hv & Hw & Hret) | (Hv & Hw & Hret)]; [done | ..]; cbn; rewrite Hv; cbn; rewrite ?Hv, ?Hr; cbn; [by split_and! |].
    split_and!; [by right | done | split; [cbn; by rewrite Hv, Hr | done] | by right].
  - by right.
  - unfold conserved. cbn. rewrite Hc, <- (app_assoc (option_list _)). done.
  - right. right. by rewrite Hp.
  - naive_solver.
Qed.

Lemma rx_drop_inv c : os_inv c -> opc_of c 1 = RxDropTake -> os_good (rx_step c 1 RxDropTake).
Proof.
  intros Hi Hp. pose proof (oi_rx c Hi) as Hf. rewrite Hp in Hf. destruct Hf as (Hs & Hd & Hr & Hx). eexists. split; [done |].
  pose proof (oi_conserved c Hi) as Hc. unfold conserved in Hc.
  eapply (rx_moves c _ _ Hi); try done; try apply Hi; cbn; try (by left).
  - split; [by left | done].
  - by right.
  - unfold conserved. cbn. rewrite Hc. rewrite !(Permutation_app_swap_app (option_list _)). done.
  - right. right. by rewrite Hp.
  - naive_solver.
Qed.

(** What a load of the word makes of the receiver. *)
Lemma rx_loaded c pc' : os_inv c -> fresh_rx c -> waking_tx (opc_of c 1) = false -> rx_fact c pc' ->
  (pc' = RxRest true -> os_rx_cell c = true \/ os_rx_woken c = true) ->
  pc' <> RpCheck ->
  os_inv (os_at c 1 (if is_complete (os_state c) then RxTake else if is_closed (os_state c) then RxDone GotClosed else pc')).
Proof.
  intros Hi Hr Hw Hf Hp Hn. fold (done_bit c) (shut_bit c). destruct (done_bit c) eqn:Hd; [| destruct (shut_bit c) eqn:Hs];
    apply rx_quiet; try done; try naive_solver.
  cbn. unfold taken. rewrite Hs, Hd. split_and!; try done; by left.
Qed.

Lemma rx_step_inv c : os_inv c -> os_good (rx_step c 1 (opc_of c 1)).
Proof.
  intros Hi. pose proof (oi_rx c Hi) as Hf. destruct (opc_of c 1) as [] eqn:Hp; try (by exists c).
  - eexists. split; [done |]. by apply rx_shut_inv.
  - eexists. split; [done |]. by apply rx_wake_inv.
  - eexists. split; [done |]. apply rx_shut_inv; try done. destruct (word_closed (os_state c) (oi_word c Hi)) as (H1 & H2 & _).
    by split_and!.
  - eexists. split; [done |]. destruct Hf as (Hs & Hd & Hr). destruct complete; apply rx_wake_inv; try done.
    cbn. unfold taken. rewrite Hd. split; [by left | done].
  - by apply rx_drop_inv.
  - eexists. split; [done |]. apply rx_loaded; try done. by rewrite Hp.
  - by apply rx_take_inv.
  - eexists. split; [done |]. apply rx_loaded; try done. by rewrite Hp.
  - eexists. split; [done |]. eapply (rx_moves c _ RpCheck Hi); try done; try apply Hi; cbn; try (by left); try done.
    right. right. by rewrite Hp.
  - eexists. split; [done |]. apply rx_loaded; try done; [by rewrite Hp |].
    intros _. apply (oi_rx_pending c Hi). by right.
  - eexists. split; [done |]. fold (done_bit c). destruct (done_bit c) eqn:Hd; apply rx_quiet; rewrite ?Hp; try done; naive_solver.
  - eexists. split; [done |]. apply rx_quiet; rewrite ?Hp; try done; [by destruct Hf | naive_solver].
Qed.

Lemma idle_empty c : os_inv c -> opc_of c 0 = OsIdle -> opc_of c 1 = OsIdle -> os_value c = None.
Proof.
  intros Hi H0 H1. pose proof (oi_tx c Hi) as Ht. pose proof (oi_rx c Hi) as Hr. rewrite H0 in Ht. rewrite H1 in Hr. destruct Hr as [_ Hr].
  destruct Ht as [(Hd & _) | [(Hd & _) | (_ & _ & [(Hv & _) | (Hv & _)])]]; [by apply Hr | by apply Hr | done | done].
Qed.

Lemma all_idle c : map_Forall (fun _ pc => is_idle pc = true) (os_pcs c) -> forall t, opc_of c t = OsIdle.
Proof.
  intros Ha t. unfold opc_of, pc_at. destruct (os_pcs c !! t) as [pc |] eqn:E; [| done]. apply Ha in E. cbn in *. by destruct pc.
Qed.

Lemma drop_state_inv c : os_inv c -> (forall t, opc_of c t = OsIdle) -> take_dropped c = c.
Proof. intros Hi Ha. pose proof (idle_empty c Hi (Ha 0%nat) (Ha 1%nat)) as Hv. unfold take_dropped, os_set_value. destruct c; cbn in *. by subst. Qed.

Lemma tx_exec_inv c a : os_inv c -> os_allowed c 0 a -> a <> OsDropState -> os_good (os_exec c 0 a).
Proof.
  intros Hi Ha Hn. pose proof (oi_tx c Hi) as Hf. pose proof (tx_step_inv c Hi) as Hs. unfold os_exec.
  destruct (opc_of c 0) as [] eqn:Hp; try done; destruct a; try done; try (by exists c); try (by apply Hs);
    (eexists; split; [done |]; apply tx_quiet; rewrite ?Hp; try done; naive_solver).
Qed.

Lemma rx_exec_inv c a : os_inv c -> os_allowed c 1 a -> a <> OsDropState -> os_good (os_exec c 1 a).
Proof.
  intros Hi Ha Hn. pose proof (oi_rx c Hi) as Hf. pose proof (rx_step_inv c Hi) as Hs. unfold os_exec. unfold os_allowed in Ha.
  destruct (opc_of c 1) as [] eqn:Hp; try done; destruct a; try done; try (by exists c); try (by apply Hs);
    (eexists; split; [done |]; apply rx_quiet; rewrite ?Hp; try done; try naive_solver).
  destruct r; unfold rx_fact, taken, fresh_rx in *; naive_solver.
Qed.

Lemma os_exec_inv c t a : os_inv c -> os_allowed c t a -> os_good (os_exec c t a).
Proof.
  intros Hi Ha. assert (Hd : a = OsDropState \/ a <> OsDropState) by (destruct a; auto; by right). destruct Hd as [-> | Hn].
  { cbn in Ha. pose proof (all_idle c Ha) as Hall. unfold os_exec. rewrite Hall. rewrite (drop_state_inv c Hi Hall). by exists c. }
  destruct t as [| [| t]]; [by apply tx_exec_inv | by apply rx_exec_inv |].
  unfold os_exec. rewrite (oi_others c Hi (S (S t))) by lia. destruct a; try done; by exists c.
Qed.

Lemma os_channel_inv : os_inv (os_channel (T := T)).
Proof.
  assert (H0 : opc_of (os_channel (T := T)) 0 = TxRest false) by done. assert (H1 : opc_of (os_channel (T := T)) 1 = RxRest false) by done.
  split; rewrite ?H0, ?H1; try done; try (by intros [|]).
  - by left.
  - intros t Ht. unfold opc_of, os_channel, os_split. cbn. rewrite !pc_at_ne by lia. done.
  - by apply Permutation_refl.
Qed.

Lemma os_reach_inv c : os_reach c -> os_inv c.
Proof.
  apply (reach_invariant _ _ _ os_inv); [exact os_channel_inv |]. intros s t a s' Hi Ha He.
  destruct (os_exec_inv s t a Hi Ha) as (c' & He' & Hi'). rewrite He in He'. by injection He' as <-.
Qed.

(** *** The theorems *)

(** The next step of the thread accesses the cell. *)
Definition touches pc : bool :=
  match pc with TxWrite _ | TxTake | RxTake | RxDropTake | EmPeek => true | _ => false end.

(** C30 The one-shot channel between threads is safe in every interleaving: no
    call panics (a refused send always finds its value to give back), the two
    sides never access the cell of the value at the same time, the one value that
    is written is in exactly one place (the cell, the receiver, the sender again,
    or dropped), and when both handles are gone the cell is empty. *)
Theorem oneshot_threads_safe c t (a : os_action T) (Hc : os_reach c) (Ha : os_allowed c t a) :
  (exists c', os_exec c t a = Ret c') /\
  (forall t1 t2, touches (opc_of c t1) = true -> touches (opc_of c t2) = true -> t1 = t2) /\
  os_written c ≡ₚ option_list (os_value c) ++ os_received c ++ os_returned c ++ os_dropped c /\ (length (os_written c) <= 1)%nat /\
  (opc_of c 0 = OsIdle -> opc_of c 1 = OsIdle -> os_value c = None).
Proof.
  apply os_reach_inv in Hc as Hi. pose proof (oi_tx c Hi) as Ht. pose proof (oi_rx c Hi) as Hr. split_and!.
  - destruct (os_exec_inv c t a Hi Ha) as (c' & He & _). by exists c'.
  - assert (Hx : touches (opc_of c 0) = true -> touches (opc_of c 1) = true -> False).
    { destruct (opc_of c 0); try done; destruct (opc_of c 1); try done; intros _ _; cbn in Ht, Hr; intuition congruence. }
    intros [| [| t1]] [| [| t2]] H1 H2; try done; try (by destruct Hx);
      [rewrite (oi_others c Hi (S (S t2))) in H2 by lia | rewrite (oi_others c Hi (S (S t2))) in H2 by lia
      | rewrite (oi_others c Hi (S (S t1))) in H1 by lia .. ]; done.
  - apply Hi.
  - assert (Hw : os_written c = [] \/ exists m, os_written c = [m]).
    { unfold tx_fact, waiting, unsent, given_back, sent in Ht. destruct (opc_of c 0) as [| | |[]|[]|[]| | | | | | | | | | | | | | | | | | |]; naive_solver. }
    destruct Hw as [-> | [m ->]]; cbn; lia.
  - by apply idle_empty.
Qed.

(** A completed channel. *)
Lemma tx_done c : os_inv c -> done_bit c = true -> os_returned c = [] /\ (os_written c = [] \/ exists m, os_written c = [m]).
Proof.
  intros Hi Hd. pose proof (oi_tx c Hi) as Ht. unfold tx_fact, waiting, unsent, given_back, sent in Ht.
  destruct (opc_of c 0) as [| | |[]|[]|[]| | | | | | | | | | | | | | | | | | |]; intuition congruence.
Qed.

Lemma returned_facts c : os_inv c -> os_returned c <> [] -> shut_bit c = true /\ os_returned c = os_written c /\ os_received c = [].
Proof.
  intros Hi Hn. pose proof (oi_tx c Hi) as Ht. pose proof (oi_conserved c Hi) as Hc. unfold conserved in Hc.
  assert (Hg : given_back c). { unfold tx_fact, waiting, unsent, sent in Ht. destruct (opc_of c 0) as [| | |[]|[]|[]| | | | | | | | | | | | | | | | | | |]; firstorder congruence. }
  destruct Hg as (Hv & Hs & m & Hw & Hr). rewrite Hv, Hw, Hr in Hc. cbn in Hc. split; [done |]. split; [congruence |].
  destruct (os_received c) as [| x l] eqn:E; [done |]. apply Permutation_length in Hc. rewrite length_app in Hc. cbn in Hc. lia.
Qed.

(** The poll of a receiver whose sender is gone. *)
Lemma poll_ends c pending : os_inv c -> opc_of c 0 = OsIdle -> opc_of c 1 = RxRest pending ->
  exists n c' r, run os_exec c ((1%nat, OsPoll) :: accesses OsStep 1 n) = Ret c' /\ opc_of c' 1 = RxDone r /\
    (forall m, os_written c = [m] -> os_returned c = [] -> r = GotValue m).
Proof.
  intros Hi H0 H1. pose proof (oi_tx c Hi) as Ht. rewrite H0 in Ht. pose proof (oi_rx c Hi) as Hr. rewrite H1 in Hr.
  assert (E1 : os_exec c 1 OsPoll = Ret (os_at c 1 RpLoad)) by (unfold os_exec; by rewrite H1).
  set (c1 := os_at c 1 RpLoad) in *. assert (P1 : opc_of c1 1 = RpLoad) by apply pc_at_eq.
  destruct (done_bit c) eqn:Hd.
  - assert (E2 : os_exec c1 1 OsStep = Ret (os_at c1 1 RxTake)).
    { unfold os_exec. rewrite P1. cbn [rx_step]. change (is_complete (os_state c1)) with (done_bit c). by rewrite Hd. }
    set (c2 := os_at c1 1 RxTake) in *. assert (P2 : opc_of c2 1 = RxTake) by apply pc_at_eq.
    assert (E3 : os_exec c2 1 OsStep = Ret (os_at (take_received c2) 1 (RxDone match os_value c with Some m => GotValue m | None => GotClosed end)))
      by (unfold os_exec; by rewrite P2).
    eexists 2%nat, _, _. split; [cbn [run accesses repeat]; rewrite E1, bind_ret, E2, bind_ret, E3, bind_ret; reflexivity |].
    split; [apply pc_at_eq |]. intros m Hw Hret.
    destruct (value_of_done c Hi Hd Hr) as [(m' & -> & Hw' & _) | (_ & Hw' & _)]; congruence.
  - assert (Hs : shut_bit c = true). { destruct Ht as [[Ht _] | [[Ht _] | (_ & Ht & _)]]; congruence. }
    assert (E2 : os_exec c1 1 OsStep = Ret (os_at c1 1 (RxDone GotClosed))).
    { unfold os_exec. rewrite P1. cbn [rx_step]. change (is_complete (os_state c1)) with (done_bit c).
      change (is_closed (os_state c1)) with (shut_bit c). by rewrite Hd, Hs. }
    eexists 1%nat, _, _. split; [cbn [run accesses repeat]; rewrite E1, bind_ret, E2, bind_ret; reflexivity |].
    split; [apply pc_at_eq |]. intros m Hw Hret.
    destruct Ht as [[Ht _] | [[Ht _] | (_ & _ & [(_ & Ht & _) | (_ & _ & m' & _ & Ht)])]]; congruence.
Qed.

(** C31 What the one-shot channel between threads delivers.  A receiver that got
    a value got the one that was sent, and the sender did not get it back; a
    receiver that got nothing had closed the channel, or nothing was sent.  A send
    is refused only after a close.  When the sender is gone, the next poll ends,
    with the value if one was sent. *)
Theorem oneshot_threads_deliver c (Hc : os_reach c) :
  (forall m, opc_of c 1 = RxDone (GotValue m) -> os_written c = [m] /\ os_received c = [m] /\ os_returned c = []) /\
  (opc_of c 1 = RxDone GotClosed -> os_received c = [] /\ (shut_bit c = true \/ os_written c = [])) /\
  (os_returned c <> [] -> shut_bit c = true /\ os_returned c = os_written c /\ os_received c = []) /\
  (opc_of c 0 = OsIdle -> forall pending, opc_of c 1 = RxRest pending ->
     exists n c' r, run os_exec c ((1%nat, OsPoll) :: accesses OsStep 1 n) = Ret c' /\ opc_of c' 1 = RxDone r /\
       (forall m, os_written c = [m] -> os_returned c = [] -> r = GotValue m)).
Proof.
  apply os_reach_inv in Hc as Hi. pose proof (oi_tx c Hi) as Ht. pose proof (oi_rx c Hi) as Hr. pose proof (oi_conserved c Hi) as Hcons.
  unfold conserved in Hcons. split_and!.
  - intros m Hp. rewrite Hp in Hr. destruct Hr as (Hd & Hv & Hrec & Hdr). rewrite Hv, Hrec, Hdr in Hcons. cbn in Hcons. rewrite app_nil_r in Hcons.
    pose proof (tx_done c Hi Hd) as [Hret Hw]. rewrite Hret in Hcons. destruct Hw as [Hw | [m' Hw]]; rewrite Hw in Hcons.
    + by apply Permutation_nil in Hcons.
    + apply Permutation_singleton_inj in Hcons as ->. done.
  - intros Hp. rewrite Hp in Hr. destruct Hr as (_ & _ & [Hr _] & Hs). split; [done |]. destruct Hs as [Hs | [Hs _]]; [by left | by right].
  - intros Hn. apply (returned_facts c Hi Hn).
  - intros H0 pending H1. by apply (poll_ends c pending).
Qed.

(** No wake-up of the one-shot channel between threads is lost: a receiver
    that sleeps is woken once the channel is complete, a sender that waits for
    the close once it is closed, as soon as the other side has finished the call
    that did it; so neither sleeps next to a side that is gone. *)
Theorem oneshot_threads_wake c (Hc : os_reach c) :
  (opc_of c 1 = RxRest true -> done_bit c = true -> waking_rx (opc_of c 0) = false -> os_rx_woken c = true) /\
  (opc_of c 0 = TxRest true -> shut_bit c = true -> waking_tx (opc_of c 1) = false -> os_tx_woken c = true) /\
  (opc_of c 1 = RxRest true -> opc_of c 0 = OsIdle -> shut_bit c = true \/ os_rx_woken c = true) /\
  (opc_of c 0 = TxRest true -> opc_of c 1 = OsIdle -> os_tx_woken c = true).
Proof.
  apply os_reach_inv in Hc as Hi. pose proof (oi_tx c Hi) as Ht. pose proof (oi_rx c Hi) as Hr.
  assert (Hrx : opc_of c 1 = RxRest true -> done_bit c = true -> waking_rx (opc_of c 0) = false -> os_rx_woken c = true).
  { intros H1 Hd Hw. destruct (oi_rx_pending c Hi) as [Hcell |]; [by left | | done].
    rewrite (oi_rx_wake c Hi) in Hw; [done | done | done | by rewrite H1]. }
  assert (Htx : opc_of c 0 = TxRest true -> shut_bit c = true -> waking_tx (opc_of c 1) = false -> os_tx_woken c = true).
  { intros H0 Hs Hw. destruct (oi_tx_pending c Hi) as [Hcell |]; [by left | | done].
    rewrite (oi_tx_wake c Hi) in Hw; [done | done | done | by rewrite H0]. }
  split_and!; [done | done | |].
  - intros H1 H0. rewrite H0 in Ht. destruct Ht as [[Hd _] | [[Hd _] | (_ & Hs & _)]]; [right | right | by left]; apply Hrx; try done; by rewrite H0.
  - intros H0 H1. rewrite H0 in Ht. rewrite H1 in Hr. apply Htx; [done | | by rewrite H1]. destruct Hr as [[Hs | Hd] _]; [done |].
    destruct Ht as [Ht _]. congruence.
Qed.

(** Steps left of the call that a thread is in. *)
Definition steps_left pc : nat :=
  match pc with
  | TxWrite _ => 8 | TxLoad InSend => 7 | TxCas InSend _ => 6 | TxTake => 5 | TxWake InSend => 5 | TxDrop => 4
  | TxLoad InDrop => 3 | TxCas InDrop _ => 2 | TxWake InDrop => 1
  | TcLoad => 3 | TcRegister => 2 | TcCheck => 1
  | RxClose => 2 | RxCloseWake => 1 | RxDropOr => 3 | RxDropWake _ => 2 | RxDropTake => 1
  | TrLoad => 2 | RxTake => 1 | RpLoad => 4 | RpRegister => 3 | RpCheck => 2 | EmLoad => 2 | EmPeek => 1
  | OsIdle | TxRest _ | RxRest _ | RxDone _ => 0
  end.

Lemma tx_step_left c c' : os_inv c -> (0 < steps_left (opc_of c 0))%nat -> os_exec c 0 OsStep = Ret c' ->
  exists c1 pc', c' = os_at c1 0 pc' /\ os_pcs c1 = os_pcs c /\ (steps_left pc' < steps_left (opc_of c 0))%nat.
Proof.
  intros Hi Hin He. pose proof (oi_tx c Hi) as Ht. unfold os_exec in He.
  assert (Hs : forall k s, s = 0 -> done_bit c = false -> os_state c <> s -> set_complete_from (T := T) k (os_state c) = tx_refused k).
  { intros k s -> Hd Hne. unfold set_complete_from. destruct (is_closed (os_state c)) eqn:E; [done |]. exfalso. apply Hne.
    by apply word_zero; [apply Hi | ..]. }
  assert (Hw : os_pcs (wake_rx c) = os_pcs c) by (destruct (wake_rx_cases c) as (_ & [[_ ->] | [_ ->]]); done).
  destruct (opc_of c 0) as [| | | k | k s | k | | | | | | | | | | | | | | | | | | | ]; try done; cbn in Hin; try lia; cbn [tx_step] in He;
    try (injection He as <-; eexists _, _; split; [reflexivity | split; [done |]]; cbn; try lia).
  - unfold set_complete_from, tx_refused. destruct (is_closed _), k; cbn; lia.
  - assert (Hd : done_bit c = false /\ s = 0) by (destruct k; cbn in Ht; tauto). destruct Hd as [Hd ->].
    destruct (Z.eqb_spec (os_state c) 0) as [Hz | Hz]; injection He as <-; eexists _, _; (split; [reflexivity | split; [done |]]).
    + destruct k; cbn; lia.
    + rewrite (Hs k 0) by done. destruct k; cbn; lia.
  - destruct k; cbn; lia.
  - destruct (os_value c); [| done]. injection He as <-. eexists _, _. split; [reflexivity |]. split; [done |]. cbn. lia.
  - destruct (is_complete _); cbn; lia.
  - destruct (is_closed _); cbn; lia.
Qed.

Lemma rx_step_left c c' : os_inv c -> (0 < steps_left (opc_of c 1))%nat -> os_exec c 1 OsStep = Ret c' ->
  exists c1 pc', c' = os_at c1 1 pc' /\ os_pcs c1 = os_pcs c /\ (steps_left pc' < steps_left (opc_of c 1))%nat.
Proof.
  intros Hi Hin He. pose proof (oi_rx c Hi) as Hr. unfold os_exec in He.
  assert (Hw : os_pcs (wake_tx c) = os_pcs c) by (destruct (wake_tx_cases c) as (_ & [[_ ->] | [_ ->]]); done).
  destruct (opc_of c 1) eqn:Hp; try done; cbn in Hin; try lia; cbn [rx_step] in He; injection He as <-;
    eexists _, _; (split; [reflexivity | split; [done |]]); repeat (case_match || idtac); cbn; lia.
Qed.

(** The calls of the one-shot channel between threads are wait-free: every
    step of a thread brings its call nearer to its end, whatever the other side
    does, and a call ends within eight of its own steps. *)
Theorem oneshot_threads_wait_free c t (Hc : os_reach c) (Hin : (0 < steps_left (opc_of c t))%nat) :
  (steps_left (opc_of c t) <= 8)%nat /\
  exists c', os_exec c t OsStep = Ret c' /\ (steps_left (opc_of c' t) < steps_left (opc_of c t))%nat /\
    forall t', t' <> t -> opc_of c' t' = opc_of c t'.
Proof.
  apply os_reach_inv in Hc as Hi. split; [by destruct (opc_of c t) as [| | |[]|[]|[]| | | | | | | | | | | | | | | | | | |]; cbn; lia |].
  destruct (os_exec_inv c t OsStep Hi I) as (c' & He & Hi'). exists c'. split; [done |].
  assert (Hmove : exists c1 pc', c' = os_at c1 t pc' /\ os_pcs c1 = os_pcs c /\ (steps_left pc' < steps_left (opc_of c t))%nat).
  { destruct t as [| [| t]]; [by eapply tx_step_left | by eapply rx_step_left |]. rewrite (oi_others c Hi) in Hin by lia. cbn in Hin. lia. }
  destruct Hmove as (c1 & pc' & -> & Hp & Hlt). split.
  - replace (opc_of (os_at c1 t pc') t) with pc'; [done |]. symmetry. apply pc_at_eq.
  - intros t' Hne. unfold opc_of. cbn. rewrite Hp. by apply pc_at_ne.
Qed.
End safety.

(** *** Concrete runs *)

(** The receiver polls and sleeps; the sender sends and is gone. *)
Definition sent_sched : list (nat * os_action Z) :=
  [(1%nat, OsPoll)] ++ accesses OsStep 1 3 ++ [(0%nat, OsSend 7)] ++ accesses OsStep 0 5.
Definition sent_config : Oneshot Z := match run os_exec os_channel sent_sched with Ret c => c | Fault _ => os_channel end.

#[local] Instance os_allowed_dec (c : Oneshot Z) t a : Decision (os_allowed c t a).
Proof. destruct a; cbn; try apply _. destruct (opc_of c t); apply _. Defined.

Lemma sent_reach : os_reach sent_config.
Proof. eapply (run_reach os_exec os_allowed os_channel sent_sched os_channel); [constructor | by vm_compute | by vm_compute]. Qed.

Lemma oneshot_threads_safe_witness : exists c', os_exec sent_config 1 OsPoll = Ret c'.
Proof. refine (proj1 (oneshot_threads_safe sent_config 1 OsPoll sent_reach _)). vm_compute. exact I. Defined.

Lemma oneshot_threads_deliver_witness : exists n c', 
  run os_exec sent_config ((1%nat, OsPoll) :: accesses OsStep 1 n) = Ret c' /\ opc_of c' 1 = RxDone (GotValue 7).
Proof.
  destruct (oneshot_threads_deliver sent_config sent_reach) as (_ & _ & _ & H).
  assert (H0 : opc_of sent_config 0 = OsIdle) by (vm_compute; reflexivity).
  assert (H1 : opc_of sent_config 1 = RxRest true) by (vm_compute; reflexivity).
  destruct (H H0 true H1) as (n & c' & r & He & Hp & Hr). exists n, c'. split; [exact He |]. rewrite Hp. f_equal.
  apply Hr; vm_compute; reflexivity.
Defined.

Lemma oneshot_threads_wake_witness : os_rx_woken sent_config = true.
Proof. apply (proj1 (oneshot_threads_wake sent_config sent_reach)); vm_compute; reflexivity. Defined.

Lemma oneshot_threads_wait_free_witness : exists c', 
  os_exec (match os_exec sent_config 1 OsPoll with Ret c => c | Fault _ => sent_config end) 1 OsStep = Ret c'.
Proof.
  assert (Hr : os_reach (match os_exec sent_config 1 OsPoll with Ret c => c | Fault _ => sent_config end)).
  { eapply (reach_step _ _ _ sent_config 1 OsPoll); [exact sent_reach | vm_compute; exact I | vm_compute; reflexivity]. }
  destruct (oneshot_threads_wait_free _ 1 Hr) as (_ & c' & He & _); [vm_compute; lia |]. exists c'. exact He.
Defined.

Definition twice_config : Oneshot Z :=
  match run os_exec (os_split os_channel 2 3) [(0%nat, OsSend 1); (2%nat, OsSend 2)] with Ret c => c | Fault _ => os_channel end.

(** [State::split] takes the state by shared reference and can be called twice:
    then two senders exist, and two threads write the cell at the same time
    without a lock, from safe code. *)
Theorem oneshot_split_twice_races :
  reach os_exec (fun _ _ _ => True) (os_split os_channel 2 3) twice_config /\
  opc_of twice_config 0 = TxWrite 1 /\ opc_of twice_config 2 = TxWrite 2 /\
  touches (opc_of twice_config 0) = true /\ touches (opc_of twice_config 2) = true.
Proof.
  split; [| by vm_compute].
  eapply (run_reach _ (fun _ _ _ => True) _ [(0%nat, OsSend 1); (2%nat, OsSend 2)] (os_split os_channel 2 3)); [constructor | by vm_compute | by vm_compute].
Qed.
