(* ===== verification/Task.v ===== *)
(** * veloq-runtime [task/header.rs], [task.rs], [task/nodes.rs]: a task between threads

    One send task with everything that touches it: the run queues that hold
    references to it, wakers, the workers that poll it, the join handle and the
    scope that owns its memory.  Every access to an atomic of the header, of the
    wake token or of the node is one step of [task_exec].  Once the memory of
    the task is gone, a step that reads the header or the node is an invalid
    access.  What the future does when it is polled is an action of the
    environment ([TkReturn]).  The queues, which belong to the runtime, appear
    as the number of references they hold ([ts_entries]); the worker a
    reference is sent to does not matter here. *)

From stdpp Require Import list gmap sets.
From S2P Require Import Prelude Interleave.

(** ** Bits of the state word, and of the wake token *)

Definition STATE_COMPLETED : Z := 1.
Definition STATE_QUEUED : Z := 2.
Definition STATE_READY : Z := 4.
Definition STATE_CANCELLED : Z := 8.
Definition STATE_POLLING : Z := 16.
Definition STATE_WOKEN : Z := 32.
Definition STATE_PINNED : Z := 64.
Definition STATE_SCOPE_OBLIGATED : Z := 128.
Definition STATE_SCOPE_ACKED : Z := 256.
Definition WAKE_TOKEN_ALIVE : Z := 1.
Definition WAKE_TOKEN_ACTIVE_UNIT : Z := 2.

Definition STATUS_RUNNING : Z := 0.
Definition STATUS_DONE : Z := 1.
Definition STATUS_EMPTY : Z := 2.

Definition has (word flag : Z) : bool := negb (Z.land word flag =? 0).
Definition without (word flag : Z) : Z := Z.land word (bitnot USIZE_BITS flag).

Section task.
Context {T : Type}.

Inductive TaskError : Type := TaskPanic | TaskCancelled.

(** What one call of the future's [poll] does. *)
Inductive poll_result : Type :=
  | RtReady (v : T)
  | RtPending
  | RtPanic             (* a panic with some payload *)
  | RtPanicCancelled.   (* a panic with [TaskError::Cancelled] *)

(** What awaiting the join handle gives. *)
Inductive JoinOutcome : Type :=
  | JoinOk (v : T)
  | JoinTaskErr (e : TaskError)
  | JoinRuntimeErr.     (* [TaskResultUnavailable] *)

(** A call of [enqueue_send] or [enqueue_pinned], inside a wake guard or not. *)
Record enqueue_mode : Type := mkMode { em_guarded : bool; em_pinned : bool }.

(** Where a thread stands. *)
Inductive task_pc : Type :=
  | TIdle
  (* TaskWakeToken::wake_impl *)
  | WkLoad | WkCas (state : Z) | WkAlive | WkHeader | WkDrop
  (* enqueue_self, enqueue_send, enqueue_pinned, try_mark_queued *)
  | EqPinned | EqCompleted (m : enqueue_mode) | EqAcked (m : enqueue_mode)
  | EqLoad (m : enqueue_mode) | EqCas (m : enqueue_mode) (state : Z) | EqRef (m : enqueue_mode) | EqPush (m : enqueue_mode)
  (* enqueue_pinned with a full queue: clear_queued *)
  | EqUnclear (m : enqueue_mode) | EqUnref (m : enqueue_mode)
  (* poll_send_task: clear_queued *)
  | DqClear | DqSub
  (* poll_raw, try_enter_poll *)
  | PlBind | PlEnter | PlWoken (state : Z) | PlGrab (state : Z)
  (* poll_task_internal; [after] says that the future has returned Pending *)
  | PlCancel (after : bool) | PlScope (after : bool) | PlPoll | PlInside | PlExit | PlExitCas (state : Z)
  (* TaskFinalizer::complete, finalize *)
  | FnResult (r : result T TaskError) | FnFuture | FnMark | FnLock | FnDrain | FnSub | FnExit (ack : bool)
  (* acknowledge_completion *)
  | AckOr (guarded : bool) | AckScope (guarded : bool) | AckSettle (guarded : bool)
  (* JoinHandle::poll, register_completion *)
  | JnCompleted (new_waker : bool) | JnTake | RgCompleted | RgLock | RgCheck | RgPush
  (* JoinHandle::drop, remove_waker *)
  | JdCompleted | JdCheck | JdLock
  (* JoinHandle::cancel *)
  | CnOr
  (* drop of the header: deactivate_and_wait *)
  | FrAnd | FrWait.

Record TaskHeader : Type := mkHeader { th_state : Z; th_refs : Z; th_lock : option nat; th_node : bool }.
Record TaskWakeToken : Type := mkToken { wt_state : Z; wt_header : bool }.
Record TaskNode : Type := mkNode { tn_status : Z; tn_future : bool; tn_result : option (result T TaskError) }.
(** The join handle: whether its waker node was allocated, what it gave, whether it was woken. *)
Record JoinHandle : Type := mkHandle { jh_node : bool; jh_outcome : option JoinOutcome; jh_woken : bool }.

Record TaskSys : Type := mkTask {
  ts_header : TaskHeader;
  ts_token : TaskWakeToken;
  ts_node : TaskNode;
  ts_handle : option JoinHandle;
  ts_boxed : bool;          (* the node is in the arena and the handle reclaims it *)
  ts_live : bool;           (* the memory of the task *)
  ts_entries : nat;         (* references in the run queues *)
  ts_scope_cancelled : bool;
  ts_shutdown : bool;       (* of the runtime *)
  ts_settled : nat;         (* calls of [task_done] on the scope *)
  ts_notified : bool;       (* history: spawned, or one of its wakers woken, since the last poll began *)
  ts_results : list (result T TaskError);   (* history *)
  ts_pcs : gmap nat task_pc
}.
Implicit Types (c : TaskSys) (t : nat) (pc : task_pc).

Definition tpc_of c t : task_pc := pc_at TIdle (ts_pcs c) t.

(** ** Updates *)

Definition tk_at c t pc : TaskSys :=
  mkTask (ts_header c) (ts_token c) (ts_node c) (ts_handle c) (ts_boxed c) (ts_live c) (ts_entries c)
    (ts_scope_cancelled c) (ts_shutdown c) (ts_settled c) (ts_notified c) (ts_results c) (<[t := pc]> (ts_pcs c)).
Definition set_header c (h : TaskHeader) : TaskSys :=
  mkTask h (ts_token c) (ts_node c) (ts_handle c) (ts_boxed c) (ts_live c) (ts_entries c)
    (ts_scope_cancelled c) (ts_shutdown c) (ts_settled c) (ts_notified c) (ts_results c) (ts_pcs c).
Definition set_token c (w : TaskWakeToken) (live : bool) : TaskSys :=
  mkTask (ts_header c) w (ts_node c) (ts_handle c) (ts_boxed c) live (ts_entries c)
    (ts_scope_cancelled c) (ts_shutdown c) (ts_settled c) (ts_notified c) (ts_results c) (ts_pcs c).
Definition set_node c (n : TaskNode) (results : list (result T TaskError)) : TaskSys :=
  mkTask (ts_header c) (ts_token c) n (ts_handle c) (ts_boxed c) (ts_live c) (ts_entries c)
    (ts_scope_cancelled c) (ts_shutdown c) (ts_settled c) (ts_notified c) results (ts_pcs c).
Definition set_handle c (o : option JoinHandle) : TaskSys :=
  mkTask (ts_header c) (ts_token c) (ts_node c) o (ts_boxed c) (ts_live c) (ts_entries c)
    (ts_scope_cancelled c) (ts_shutdown c) (ts_settled c) (ts_notified c) (ts_results c) (ts_pcs c).
Definition set_entries c (n : nat) : TaskSys :=
  mkTask (ts_header c) (ts_token c) (ts_node c) (ts_handle c) (ts_boxed c) (ts_live c) n
    (ts_scope_cancelled c) (ts_shutdown c) (ts_settled c) (ts_notified c) (ts_results c) (ts_pcs c).
Definition set_scope c (cancelled shutdown : bool) (settled : nat) : TaskSys :=
  mkTask (ts_header c) (ts_token c) (ts_node c) (ts_handle c) (ts_boxed c) (ts_live c) (ts_entries c)
    cancelled shutdown settled (ts_notified c) (ts_results c) (ts_pcs c).
Definition set_notified c (b : bool) : TaskSys :=
  mkTask (ts_header c) (ts_token c) (ts_node c) (ts_handle c) (ts_boxed c) (ts_live c) (ts_entries c)
    (ts_scope_cancelled c) (ts_shutdown c) (ts_settled c) b (ts_results c) (ts_pcs c).

Definition word c : Z := th_state (ts_header c).
Definition set_word c (w : Z) : TaskSys :=
  set_header c (mkHeader w (th_refs (ts_header c)) (th_lock (ts_header c)) (th_node (ts_header c))).
Definition set_refs c (n : Z) : TaskSys :=
  set_header c (mkHeader (word c) n (th_lock (ts_header c)) (th_node (ts_header c))).
Definition set_lock c (o : option nat) (node : bool) : TaskSys :=
  set_header c (mkHeader (word c) (th_refs (ts_header c)) o node).
Definition set_token_word c (w : Z) : TaskSys := set_token c (mkToken w (wt_header (ts_token c))) (ts_live c).

(** A task that was spawned: [GenericTaskNode::new], [initialize], [set_pinned]
    for a pinned task and [handoff_to] are done, thread 0, which has the scope
    and the join handle, is about to enqueue it. *)
Definition task_spawned (boxed pinned : bool) : TaskSys :=
  mkTask (mkHeader (Z.lor (if pinned then STATE_PINNED else 0) STATE_SCOPE_OBLIGATED) 1 None false)
    (mkToken WAKE_TOKEN_ALIVE false) (mkNode STATUS_RUNNING true None) (Some (mkHandle false None false))
    boxed true 0 false false 0 true [] {[0%nat := EqCompleted (mkMode false pinned)]}.

(** ** Waking *)

(** [try_acquire], once it knows the state. *)
Definition acquire_dispatch c t (state : Z) : TaskSys :=
  tk_at c t (if Z.land state WAKE_TOKEN_ALIVE =? 0 then TIdle else WkCas state).

Definition after_guard (guarded : bool) : task_pc := if guarded then WkDrop else TIdle.
Definition after_enqueue (m : enqueue_mode) : task_pc := after_guard (em_guarded m).

Definition task_wake_step c t pc : outcome TaskSys :=
  match pc with
  | WkLoad => Ret (acquire_dispatch c t (wt_state (ts_token c)))
  | WkCas state =>
      if wt_state (ts_token c) =? state then
        new ← arith U32 (state + WAKE_TOKEN_ACTIVE_UNIT); Ret (tk_at (set_token_word c new) t WkAlive)
      else Ret (acquire_dispatch c t (wt_state (ts_token c)))
  | WkAlive => Ret (tk_at c t (if Z.land (wt_state (ts_token c)) WAKE_TOKEN_ALIVE =? 0 then WkDrop else WkHeader))
  | WkHeader => Ret (tk_at c t (if wt_header (ts_token c) then EqPinned else WkDrop))
  | WkDrop => Ret (tk_at (set_token_word c (wrapping_sub U32 (wt_state (ts_token c)) WAKE_TOKEN_ACTIVE_UNIT)) t TIdle)
  | _ => Ret c
  end.

Definition task_enqueue_step c t pc : outcome TaskSys :=
  match pc with
  | EqPinned => Ret (tk_at c t (EqCompleted (mkMode true (has (word c) STATE_PINNED))))
  | EqCompleted m =>
      Ret (tk_at c t (if has (word c) STATE_COMPLETED then if em_pinned m then EqAcked m else after_enqueue m else EqLoad m))
  | EqAcked m =>
      (* [AlreadySettled], [NeedsCallerSettle] *)
      Ret (tk_at c t (if has (word c) STATE_SCOPE_ACKED then after_enqueue m else AckOr (em_guarded m)))
  | EqLoad m =>
      if has (word c) STATE_QUEUED || has (word c) STATE_COMPLETED then Ret (tk_at c t (after_enqueue m))
      else Ret (tk_at c t (EqCas m (word c)))
  | EqCas m state =>
      if word c =? state then Ret (tk_at (set_word c (Z.lor state STATE_QUEUED)) t (EqRef m))
      else Ret (tk_at c t (EqLoad m))
  | EqRef m => Ret (tk_at (set_refs c (wrapping_add USIZE_BITS (th_refs (ts_header c)) 1)) t (EqPush m))
  | EqPush m => Ret (tk_at (set_entries c (S (ts_entries c))) t (after_enqueue m))
  | EqUnclear m =>
      Ret (tk_at (set_word c (without (word c) STATE_QUEUED)) t
        (if has (word c) STATE_QUEUED then EqUnref m else after_enqueue m))
  | EqUnref m =>
      let prev := th_refs (ts_header c) in
      Ret (tk_at (set_refs c (wrapping_sub USIZE_BITS prev 1)) t (if prev =? 1 then AckOr (em_guarded m) else after_enqueue m))
  | _ => Ret c
  end.

(** ** Polling *)

(** [try_enter_poll], once it knows the state. *)
Definition enter_dispatch (state : Z) : task_pc :=
  if has state STATE_COMPLETED then TIdle
  else if has state STATE_POLLING then PlWoken state
  else PlGrab state.

(** The state that [exit_poll_to_pending] stores. *)
Definition exit_word (state : Z) : Z :=
  let new_state := without state STATE_POLLING in
  if has state STATE_WOKEN then Z.lor (without new_state STATE_WOKEN) STATE_POLLING else new_state.

Definition task_poll_step c t pc : outcome TaskSys :=
  match pc with
  | DqClear =>
      Ret (tk_at (set_word c (without (word c) STATE_QUEUED)) t (if has (word c) STATE_QUEUED then DqSub else PlBind))
  | DqSub =>
      let prev := th_refs (ts_header c) in
      Ret (tk_at (set_refs c (wrapping_sub USIZE_BITS prev 1)) t (if prev =? 1 then AckOr false else PlBind))
  | PlBind => Ret (tk_at (set_token c (mkToken (wt_state (ts_token c)) true) (ts_live c)) t PlEnter)
  | PlEnter => Ret (tk_at c t (enter_dispatch (word c)))
  | PlWoken state =>
      if word c =? state then Ret (tk_at (set_word c (Z.lor state STATE_WOKEN)) t TIdle)
      else Ret (tk_at c t (enter_dispatch (word c)))
  | PlGrab state =>
      if word c =? state then Ret (tk_at (set_word c (Z.lor state STATE_POLLING)) t (PlCancel false))
      else Ret (tk_at c t (enter_dispatch (word c)))
  | PlCancel after =>
      Ret (tk_at c t (if has (word c) STATE_CANCELLED then FnResult (Err TaskCancelled) else PlScope after))
  | PlScope after =>
      Ret (tk_at c t (if ts_scope_cancelled c then FnResult (Err TaskCancelled) else if after then PlExit else PlPoll))
  | PlPoll =>
      if (tn_status (ts_node c) =? STATUS_RUNNING) && tn_future (ts_node c)
      then Ret (tk_at (set_notified c false) t PlInside)
      else Ret (tk_at c t (PlCancel true))
  | PlExit => Ret (tk_at c t (PlExitCas (word c)))
  | PlExitCas state =>
      if word c =? state
      then Ret (tk_at (set_word c (exit_word state)) t (if has state STATE_WOKEN then PlCancel false else TIdle))
      else Ret (tk_at c t (PlExitCas (word c)))
  | _ => Ret c
  end.

(** The future returns to [poll_task_internal]. *)
Definition poll_returns c t (r : poll_result) : TaskSys :=
  match r with
  | RtReady v => tk_at c t (FnResult (Ok v))
  | RtPending => tk_at c t (PlCancel true)
  | RtPanic => tk_at (set_scope c true (ts_shutdown c) (ts_settled c)) t (FnResult (Err TaskPanic))
  | RtPanicCancelled => tk_at c t (FnResult (Err TaskCancelled))
  end.

(** ** Completing *)

(** Taking the lock of the waker list; the step waits while it is taken. *)
Definition lock_wakers c t (k : TaskSys) : outcome TaskSys :=
  match th_lock (ts_header c) with Some _ => Ret c | None => Ret k end.

(** The handle is woken when its node leaves the list. *)
Definition handle_woken c : TaskSys :=
  set_handle c (match ts_handle c with Some h => Some (mkHandle (jh_node h) (jh_outcome h) true) | None => None end).
Definition wake_handle c : TaskSys := if th_node (ts_header c) then handle_woken c else c.

Definition task_finish_step c t pc : outcome TaskSys :=
  match pc with
  | FnResult r => Ret (tk_at (set_node c (mkNode STATUS_DONE (tn_future (ts_node c)) (Some r)) (ts_results c ++ [r])) t FnFuture)
  | FnFuture => Ret (tk_at (set_node c (mkNode (tn_status (ts_node c)) false (tn_result (ts_node c))) (ts_results c)) t FnMark)
  | FnMark =>
      Ret (tk_at (set_word c (Z.lor (word c) (Z.lor STATE_READY STATE_COMPLETED))) t
        (if has (word c) STATE_COMPLETED then FnSub else FnLock))
  | FnLock => lock_wakers c t (tk_at (set_lock c (Some t) (th_node (ts_header c))) t FnDrain)
  | FnDrain => Ret (tk_at (set_lock (wake_handle c) None false) t FnSub)
  | FnSub =>
      let prev := th_refs (ts_header c) in
      Ret (tk_at (set_refs c (wrapping_sub USIZE_BITS prev 1)) t (FnExit (prev =? 1)))
  | FnExit ack => Ret (tk_at (set_word c (without (word c) STATE_POLLING)) t (if ack then AckOr false else TIdle))
  | AckOr g =>
      _ ← assert (negb (has (word c) STATE_SCOPE_ACKED));
      _ ← assert (has (word c) STATE_SCOPE_OBLIGATED);
      Ret (tk_at (set_word c (Z.lor (word c) STATE_SCOPE_ACKED)) t (AckScope g))
  | AckScope g => Ret (tk_at c t (AckSettle g))
  | AckSettle g => Ret (tk_at (set_scope c (ts_scope_cancelled c) (ts_shutdown c) (S (ts_settled c))) t (after_guard g))
  | _ => Ret c
  end.

(** ** Joining, and the end of the memory *)

Definition handle_gives c (o : JoinOutcome) : TaskSys :=
  set_handle c (match ts_handle c with Some h => Some (mkHandle (jh_node h) (Some o) (jh_woken h)) | None => None end).
Definition handle_node c : TaskSys :=
  set_handle c (match ts_handle c with Some h => Some (mkHandle true (jh_outcome h) (jh_woken h)) | None => None end).

Definition join_outcome (r : result T TaskError) : JoinOutcome :=
  match r with Ok v => JoinOk v | Err e => JoinTaskErr e end.

Definition task_join_step c t pc : outcome TaskSys :=
  match pc with
  | JnCompleted new_waker =>
      if has (word c) STATE_COMPLETED then Ret (tk_at c t JnTake)
      else match ts_handle c with
           | Some h => Ret (tk_at (handle_node c) t (if jh_node h && negb new_waker then TIdle else RgCompleted))
           | None => Ret (tk_at c t TIdle)
           end
  | JnTake =>
      match (if tn_status (ts_node c) =? STATUS_DONE then tn_result (ts_node c) else None) with
      | Some r =>
          let c := set_node c (mkNode STATUS_EMPTY (tn_future (ts_node c)) None) (ts_results c) in
          Ret (tk_at (handle_gives c (join_outcome r)) t (if ts_boxed c then FrAnd else TIdle))
      | None => Ret (tk_at (handle_gives c JoinRuntimeErr) t TIdle)
      end
  | RgCompleted =>
      if has (word c) STATE_COMPLETED then Ret (tk_at (handle_woken c) t TIdle) else Ret (tk_at c t RgLock)
  | RgLock => lock_wakers c t (tk_at (set_lock c (Some t) (th_node (ts_header c))) t RgCheck)
  | RgCheck =>
      if has (word c) STATE_COMPLETED then Ret (tk_at (handle_woken (set_lock c None (th_node (ts_header c)))) t TIdle)
      else Ret (tk_at c t RgPush)
  (* [push_back] panics on a node that is linked *)
  | RgPush => _ ← assert (negb (th_node (ts_header c))); Ret (tk_at (set_lock c None true) t TIdle)
  | JdCompleted => Ret (tk_at c t (if has (word c) STATE_COMPLETED then TIdle else JdCheck))
  | JdCheck => Ret (tk_at c t (if has (word c) STATE_COMPLETED then TIdle else JdLock))
  | JdLock => lock_wakers c t (tk_at (set_lock c None false) t TIdle)
  | CnOr => Ret (tk_at (set_word c (Z.lor (word c) STATE_CANCELLED)) t TIdle)
  | FrAnd => Ret (tk_at (set_token_word c (Z.land (wt_state (ts_token c)) (bitnot U32 WAKE_TOKEN_ALIVE))) t FrWait)
  | FrWait =>
      if wt_state (ts_token c) =? 0 then Ret (tk_at (set_token c (mkToken 0 false) false) t TIdle) else Ret c
  | _ => Ret c
  end.

(** ** Steps and actions *)

(** The step reads the header or the node. *)
Definition touches pc : bool :=
  match pc with
  | TIdle | WkLoad | WkCas _ | WkAlive | WkHeader | WkDrop | EqPush _ | PlInside | AckSettle _ => false
  | _ => true
  end.

Definition is_wake_pc pc : bool :=
  match pc with WkLoad | WkCas _ | WkAlive | WkHeader | WkDrop => true | _ => false end.
Definition is_enqueue_pc pc : bool :=
  match pc with
  | EqPinned | EqCompleted _ | EqAcked _ | EqLoad _ | EqCas _ _ | EqRef _ | EqPush _ | EqUnclear _ | EqUnref _ => true
  | _ => false
  end.
Definition is_finish_pc pc : bool :=
  match pc with
  | FnResult _ | FnFuture | FnMark | FnLock | FnDrain | FnSub | FnExit _ | AckOr _ | AckScope _ | AckSettle _ => true
  | _ => false
  end.
Definition is_join_pc pc : bool :=
  match pc with
  | JnCompleted _ | JnTake | RgCompleted | RgLock | RgCheck | RgPush | JdCompleted | JdCheck | JdLock | CnOr | FrAnd | FrWait => true
  | _ => false
  end.

Definition task_step c t : outcome TaskSys :=
  let pc := tpc_of c t in
  if touches pc && negb (ts_live c) then Fault InvalidPointer
  else if is_wake_pc pc then task_wake_step c t pc
  else if is_enqueue_pc pc then task_enqueue_step c t pc
  else if is_finish_pc pc then task_finish_step c t pc
  else if is_join_pc pc then task_join_step c t pc
  else task_poll_step c t pc.

Inductive task_action : Type :=
  | TkStep
  | TkWake                     (* a waker of the task is woken *)
  | TkFull                     (* the queue of pinned tasks is full *)
  | TkPop                      (* a worker takes a reference from a queue *)
  | TkReturn (r : poll_result) (* the future returns *)
  | TkCancelScope
  | TkShutdown
  | TkJoin (new_waker : bool)  (* the join handle is polled, with another waker than its node has *)
  | TkCancel                   (* JoinHandle::cancel *)
  | TkDropHandle
  | TkDropScope                (* [wait_all] has returned, the memory of the tasks goes *)
  | TkAbandonScope.            (* the future that waits for the scope is dropped *)

(** What the thread of the scope and the handle does.  A poll of the handle first
    drives the worker until the scope is done or the runtime shuts down. *)
Definition owner_exec c (a : task_action) : outcome TaskSys :=
  match a, ts_handle c with
  | TkJoin new_waker, Some h =>
      match jh_outcome h with
      | None => if (ts_settled c =? 0)%nat && negb (ts_shutdown c) then Ret c else Ret (tk_at c 0 (JnCompleted new_waker))
      | Some _ => Ret c
      end
  | TkCancel, Some _ => Ret (tk_at c 0 CnOr)
  | TkDropHandle, Some h => Ret (tk_at (set_handle c None) 0 (if jh_node h then JdCompleted else TIdle))
  | TkDropScope, None =>
      if ts_live c && (negb (ts_settled c =? 0)%nat || ts_shutdown c) then Ret (tk_at c 0 FrAnd) else Ret c
  | TkAbandonScope, None =>
      if ts_live c then Ret (tk_at (set_scope c true (ts_shutdown c) (ts_settled c)) 0 FrAnd) else Ret c
  | _, _ => Ret c
  end.

Definition task_exec c t (a : task_action) : outcome TaskSys :=
  match a, tpc_of c t with
  | TkStep, _ => task_step c t
  | TkWake, TIdle => Ret (if wt_header (ts_token c) || negb (ts_live c) then set_notified (tk_at c t WkLoad) true else c)
  | TkFull, EqPush m => Ret (if em_pinned m then tk_at c t (EqUnclear m) else c)
  | TkPop, TIdle =>
      match ts_entries c with O => Ret c | S n => Ret (tk_at (set_entries c n) t DqClear) end
  | TkReturn r, PlInside => Ret (poll_returns c t r)
  | TkCancelScope, TIdle => Ret (set_scope c true (ts_shutdown c) (ts_settled c))
  | TkShutdown, TIdle => Ret (set_scope c (ts_scope_cancelled c) true (ts_settled c))
  | _, TIdle => if (t =? 0)%nat then owner_exec c a else Ret c
  | _, _ => Ret c
  end.

(** Far more threads than a process can have. *)
Definition MAX_THREADS : Z := 2 ^ 30.

Definition task_allowed c t (a : task_action) : Prop := Z.of_nat t < MAX_THREADS.

Definition task_reach (boxed pinned : bool) : TaskSys -> Prop :=
  reach task_exec task_allowed (task_spawned boxed pinned).
End task.
Arguments TaskSys T : clear implicits.
Arguments task_pc T : clear implicits.
Arguments task_action T : clear implicits.
Arguments poll_result T : clear implicits.
