(* ===== verification/TaskSafety.v ===== *)
(** * A task between threads: one poll at a time, one result *)

From stdpp Require Import list gmap sets.
From S2P Require Import Prelude Interleave Task.

(** ** Flags of a word *)

Lemma has_lor w f g : has (Z.lor w f) g = has w g || has f g.
Proof.
  unfold has. rewrite Z.land_comm, Z.land_lor_distr_r, !(Z.land_comm g).
  destruct (Z.eqb_spec (Z.land w g) 0) as [Hw | Hw], (Z.eqb_spec (Z.land f g) 0) as [Hf | Hf];
    destruct (Z.eqb_spec (Z.lor (Z.land w g) (Z.land f g)) 0) as [Hl | Hl]; cbn; try done.
  - by rewrite Hw, Hf in Hl.
  - by apply Z.lor_eq_0_iff in Hl as [_ ?].
  - by apply Z.lor_eq_0_iff in Hl as [? _].
  - by apply Z.lor_eq_0_iff in Hl as [? _].
Qed.

Lemma has_without w f g : has (without w f) g = has w (Z.land (bitnot USIZE_BITS f) g).
Proof. unfold has, without. by rewrite Z.land_assoc. Qed.

Lemma has_0 w : has w 0 = false.
Proof. unfold has. by rewrite Z.land_0_r. Qed.

(** Reads the flags of a stored word off the word it was made from. *)
Ltac is_flag f := match f with
  | STATE_COMPLETED => idtac | STATE_QUEUED => idtac | STATE_READY => idtac | STATE_CANCELLED => idtac | STATE_POLLING => idtac
  | STATE_WOKEN => idtac | STATE_PINNED => idtac | STATE_SCOPE_OBLIGATED => idtac | STATE_SCOPE_ACKED => idtac
  end.
Ltac flag_consts :=
  repeat match goal with
  | |- context [Z.land (bitnot USIZE_BITS ?f) ?g] =>
      let v := eval vm_compute in (Z.land (bitnot USIZE_BITS f) g) in
      first [unify v g; change (Z.land (bitnot USIZE_BITS f) g) with g | change (Z.land (bitnot USIZE_BITS f) g) with v]
  | |- context [has ?f ?g] => is_flag f; is_flag g; let v := eval vm_compute in (has f g) in change (has f g) with v
  end.
Ltac flags := rewrite ?has_lor, ?has_without; flag_consts; rewrite ?has_0, ?orb_false_r, ?orb_true_r.

(** The state a compare_exchange found, and what follows a call in a guard or not. *)
Ltac cas_eq := repeat match goal with H : (word _ =? _) = true |- _ => apply Z.eqb_eq in H; subst end.
Ltac modes := unfold after_enqueue, after_guard; repeat match goal with |- context [if em_guarded ?m then _ else _] => destruct (em_guarded m) end.

Section safety.
Context {T : Type}.
Implicit Types (c : TaskSys T) (t : nat) (pc : task_pc T).

(** ** How far the task has come *)

(** Nobody polls; thread [t] is in the loop around the future; has stored the
    result; has marked the task as completed; the task is complete. *)
Inductive phase : Type := PhIdle | PhRun (t : nat) | PhResult (t : nat) | PhMarked (t : nat) | PhDone.
Implicit Types (ph : phase).

Definition phase_of pc t : option phase :=
  match pc with
  | PlCancel _ | PlScope _ | PlPoll | PlInside | PlExit | PlExitCas _ | FnResult _ => Some (PhRun t)
  | FnFuture | FnMark => Some (PhResult t)
  | FnLock | FnDrain | FnSub | FnExit _ => Some (PhMarked t)
  | _ => None
  end.
Definition phase_thread ph : option nat :=
  match ph with PhRun t | PhResult t | PhMarked t => Some t | _ => None end.
Definition phase_polls ph : bool := match ph with PhRun _ | PhResult _ | PhMarked _ => true | _ => false end.
Definition phase_completed ph : bool := match ph with PhMarked _ | PhDone => true | _ => false end.

(** The node, the results so far and what the handle gave. *)
Definition outcome_of c : option (option (JoinOutcome (T := T))) := jh_outcome <$> ts_handle c.
Definition body_ok c ph : Prop :=
  match ph with
  | PhIdle | PhRun _ => ts_node c = mkNode STATUS_RUNNING true None /\ ts_results c = [] /\
      (forall o, outcome_of c <> Some (Some o))
  | _ => exists r, ts_results c = [r] /\
      (tn_status (ts_node c) = STATUS_DONE /\ tn_result (ts_node c) = Some r \/
       tn_status (ts_node c) = STATUS_EMPTY /\ outcome_of c <> Some None) /\
      (forall o, outcome_of c = Some (Some o) -> o = join_outcome r)
  end.

(** What a thread has learnt. *)
Definition poll_sound c t pc : Prop :=
  match pc with
  | PlGrab s => has s STATE_COMPLETED = false /\ has s STATE_POLLING = false
  | PlWoken s => has s STATE_COMPLETED = false /\ has s STATE_POLLING = true
  | JnCompleted _ => t = 0%nat /\ outcome_of c = Some None
  | JnTake => t = 0%nat /\ has (word c) STATE_COMPLETED = true /\ outcome_of c = Some None
  | _ => True
  end.

Record poll_inv c ph : Prop := {
  pi_phase : forall t p, phase_of (tpc_of c t) t = Some p -> ph = p;
  pi_thread : forall t, phase_thread ph = Some t -> phase_of (tpc_of c t) t = Some ph;
  pi_polling : has (word c) STATE_POLLING = phase_polls ph;
  pi_completed : has (word c) STATE_COMPLETED = phase_completed ph;
  pi_body : body_ok c ph;
  pi_sound : forall t, poll_sound c t (tpc_of c t)
}.

Lemma tpc_move c c' t pc' : ts_pcs c' = <[t := pc']> (ts_pcs c) ->
  forall t', tpc_of c' t' = if decide (t' = t) then pc' else tpc_of c t'.
Proof. intros Hp t'. unfold tpc_of. rewrite Hp. apply pc_at_insert. Qed.

(** What other threads have learnt stays true. *)
Definition sound_keeps c c' t : Prop :=
  (has (word c) STATE_COMPLETED = true -> has (word c') STATE_COMPLETED = true) /\
  (outcome_of c' = outcome_of c \/ t = 0%nat).

Lemma sound_others c c' t t' : sound_keeps c c' t -> t' <> t -> poll_sound c t' (tpc_of c t') -> poll_sound c' t' (tpc_of c t').
Proof.
  intros [Hc Hh] Hne. destruct (tpc_of c t'); try done; cbn.
  - intros [-> Hx]. by destruct Hh as [-> | ->].
  - intros (-> & Hx & Hy). destruct Hh as [-> | ->]; [auto | done].
Qed.

(** Steps that do not change how far the task is. *)
Lemma poll_quiet c c' t pc' ph : poll_inv c ph -> ts_pcs c' = <[t := pc']> (ts_pcs c) ->
  phase_of pc' t = phase_of (tpc_of c t) t ->
  has (word c') STATE_POLLING = has (word c) STATE_POLLING -> has (word c') STATE_COMPLETED = has (word c) STATE_COMPLETED ->
  (outcome_of c' = outcome_of c \/ t = 0%nat) -> (body_ok c ph -> body_ok c' ph) -> poll_sound c' t pc' -> poll_inv c' ph.
Proof.
  intros Hi Hp Hph Hb1 Hb2 Hh Hbody Hs. pose proof (tpc_move c c' t pc' Hp) as Hpc. split; try done.
  - intros t' p. rewrite Hpc. destruct (decide (t' = t)) as [-> | Hne]; [rewrite Hph |]; apply (pi_phase c ph Hi).
  - intros t' Ht'. rewrite Hpc. destruct (decide (t' = t)) as [-> | Hne]; [rewrite Hph |]; by apply (pi_thread c ph Hi).
  - rewrite Hb1. apply Hi.
  - rewrite Hb2. apply Hi.
  - apply Hbody, Hi.
  - intros t'. rewrite Hpc. destruct (decide (t' = t)) as [-> | Hne]; [done |].
    apply (sound_others c c' t t'); [| done | apply Hi]. split; [congruence | done].
Qed.

(** Thread [t] takes the task from [ph] to [ph']. *)
Lemma poll_change c c' t pc' ph ph' : poll_inv c ph -> ts_pcs c' = <[t := pc']> (ts_pcs c) ->
  (phase_thread ph = None \/ phase_thread ph = Some t) ->
  phase_of pc' t = (if phase_polls ph' then Some ph' else None) -> (phase_thread ph' = None \/ phase_thread ph' = Some t) ->
  has (word c') STATE_POLLING = phase_polls ph' -> has (word c') STATE_COMPLETED = phase_completed ph' ->
  (phase_completed ph = true -> phase_completed ph' = true) ->
  outcome_of c' = outcome_of c -> body_ok c' ph' -> poll_sound c' t pc' -> poll_inv c' ph'.
Proof.
  intros Hi Hp Ho Hph Ho' Hb1 Hb2 Hmono Hh Hbody Hs. pose proof (tpc_move c c' t pc' Hp) as Hpc.
  assert (Hoth : forall t', t' <> t -> phase_of (tpc_of c t') t' = None).
  { intros t' Hne. destruct (phase_of (tpc_of c t') t') as [p |] eqn:E; [| done].
    pose proof (pi_phase c ph Hi t' p E) as ->. assert (phase_thread p = Some t') by (destruct (tpc_of c t'); cbn in E; by simplify_eq).
    destruct Ho; congruence. }
  split; try done.
  - intros t' p. rewrite Hpc. destruct (decide (t' = t)) as [-> | Hne]; [| by rewrite Hoth].
    rewrite Hph. destruct (phase_polls ph'); congruence.
  - intros t' Ht'. rewrite Hpc. destruct (decide (t' = t)) as [-> | Hne]; [| destruct Ho'; congruence].
    rewrite Hph. by destruct ph'.
  - intros t'. rewrite Hpc. destruct (decide (t' = t)) as [-> | Hne]; [done |].
    apply (sound_others c c' t t'); [| done | apply Hi]. split; [| by left].
    rewrite Hb2, (pi_completed c ph Hi). done.
Qed.

Lemma wake_handle_same c : ts_node (wake_handle c) = ts_node c /\ ts_results (wake_handle c) = ts_results c /\
  outcome_of (wake_handle c) = outcome_of c /\ word (wake_handle c) = word c /\ ts_pcs (wake_handle c) = ts_pcs c.
Proof. unfold wake_handle, handle_woken, outcome_of. destruct (th_node _); [| done]. by destruct (ts_handle c) eqn:E. Qed.

Lemma handle_woken_same c : outcome_of (handle_woken c) = outcome_of c.
Proof. unfold handle_woken, outcome_of. cbn. by destruct (ts_handle c). Qed.

Lemma body_same c c' ph : ts_node c' = ts_node c -> ts_results c' = ts_results c -> outcome_of c' = outcome_of c ->
  body_ok c ph -> body_ok c' ph.
Proof. intros H1 H2 H3. by destruct ph; cbn; rewrite H1, H2, H3. Qed.

Lemma body_gone c c' ph : ts_node c' = ts_node c -> ts_results c' = ts_results c -> outcome_of c' = None ->
  body_ok c ph -> body_ok c' ph.
Proof. intros H1 H2 H3. destruct ph; cbn; rewrite H1, H2, H3; naive_solver. Qed.

Definition poll_safe (o : outcome (TaskSys T)) : Prop := forall c', o = Ret c' -> exists ph, poll_inv c' ph.

(** A quiet step is solved by computing. *)
Ltac quiet_step Hi Hp ph := eapply (poll_quiet _ _ _ _ ph Hi);
  [reflexivity | rewrite Hp | | | by left | by intros ? |]; try done;
  first [by modes | unfold word; cbn; by flags | idtac].

Lemma enqueue_poll c t ph : poll_inv c ph -> is_enqueue_pc (tpc_of c t) = true -> poll_safe (task_enqueue_step c t (tpc_of c t)).
Proof.
  intros Hi Hpc c' He. exists ph.
  destruct (tpc_of c t) as [] eqn:Hp; try done; cbn [task_enqueue_step] in He; try (destruct (word c =? state) eqn:Ew);
    repeat case_match; injection He as <-; cas_eq; quiet_step Hi Hp ph.
Qed.

Lemma wake_poll c t ph : poll_inv c ph -> is_wake_pc (tpc_of c t) = true -> poll_safe (task_wake_step c t (tpc_of c t)).
Proof.
  intros Hi Hpc c' He. exists ph.
  destruct (tpc_of c t) as [] eqn:Hp; try done; cbn [task_wake_step] in He; unfold acquire_dispatch in He;
    repeat case_match; inv_ret; quiet_step Hi Hp ph.
Qed.

(** The compare_exchange of [try_enter_poll] finds the task idle. *)
Lemma idle_word c ph : poll_inv c ph -> has (word c) STATE_POLLING = false -> has (word c) STATE_COMPLETED = false -> ph = PhIdle.
Proof. intros Hi H1 H2. rewrite (pi_polling c ph Hi) in H1. rewrite (pi_completed c ph Hi) in H2. by destruct ph. Qed.

Lemma enter_sound c t s : poll_sound c t (enter_dispatch (T := T) s) /\ phase_of (enter_dispatch (T := T) s) t = None.
Proof. unfold enter_dispatch. destruct (has s STATE_COMPLETED) eqn:E1; [done |]. destruct (has s STATE_POLLING) eqn:E2; done. Qed.

Lemma phase_run c t ph p : poll_inv c ph -> phase_of (tpc_of c t) t = Some p -> ph = p.
Proof. intros Hi. apply (pi_phase c ph Hi). Qed.

Lemma poll_poll c t ph : poll_inv c ph ->
  match tpc_of c t with DqClear | DqSub | PlBind | PlEnter | PlWoken _ | PlGrab _ | PlCancel _ | PlScope _ | PlPoll | PlInside | PlExit | PlExitCas _ => True | _ => False end ->
  poll_safe (task_poll_step c t (tpc_of c t)).
Proof.
  intros Hi Hpc c' He. pose proof (pi_sound c ph Hi t) as Hs. pose proof (phase_run c t ph) as Hph.
  destruct (tpc_of c t) as [] eqn:Hp; try done; cbn [task_poll_step] in He.
  1-4: exists ph; repeat case_match; injection He as <-; quiet_step Hi Hp ph; by apply enter_sound.
  - exists ph. destruct (word c =? state) eqn:Ew; injection He as <-; cas_eq; quiet_step Hi Hp ph; by apply enter_sound.
  - destruct (word c =? state) eqn:Ew; injection He as <-; cas_eq.
    + destruct Hs as [H1 H2]. pose proof (idle_word c ph Hi H2 H1) as ->. exists (PhRun t).
      eapply (poll_change c _ t _ PhIdle (PhRun t) Hi); try done; [by left | by right | ..]; unfold word; cbn; flags; try done.
      apply Hi.
    + exists ph. quiet_step Hi Hp ph; by apply enter_sound.
  - exists ph. repeat case_match; injection He as <-; quiet_step Hi Hp ph.
  - exists ph. repeat case_match; injection He as <-; quiet_step Hi Hp ph.
  - exists ph. repeat case_match; injection He as <-; quiet_step Hi Hp ph.
  - exists ph. by injection He as <-.
  - exists ph. injection He as <-; quiet_step Hi Hp ph.
  - destruct (word c =? state) eqn:Ew; [destruct (has state STATE_WOKEN) eqn:Ewk |]; injection He as <-; cas_eq.
    + exists ph. eapply (poll_quiet _ _ _ (PlCancel false) ph Hi); [reflexivity | by rewrite Hp | | | by left | done | done];
        unfold word, exit_word; cbn; fold (word c); rewrite Ewk; flags; [| done].
      rewrite (pi_polling c ph Hi). by rewrite (Hph _ Hi eq_refl).
    + pose proof (Hph _ Hi eq_refl) as ->. exists PhIdle.
      eapply (poll_change c _ t _ (PhRun t) PhIdle Hi); try done; [by right | by left | ..];
        unfold word, exit_word; cbn; fold (word c); rewrite ?Ewk; flags; try done; apply Hi.
    + exists ph. quiet_step Hi Hp ph.
Qed.

Lemma finish_poll c t ph : poll_inv c ph -> is_finish_pc (tpc_of c t) = true -> poll_safe (task_finish_step c t (tpc_of c t)).
Proof.
  intros Hi Hpc c' He. pose proof (phase_run c t ph) as Hph. pose proof (pi_body c ph Hi) as Hb.
  destruct (tpc_of c t) as [] eqn:Hp; try done; cbn [task_finish_step] in He.
  - pose proof (Hph _ Hi eq_refl) as ->. injection He as <-. destruct Hb as (Hn & Hr & Ho). exists (PhResult t).
    eapply (poll_change c _ t _ (PhRun t) (PhResult t) Hi); try done; [by right | by right | apply Hi | apply Hi |].
    cbn. exists r. rewrite Hr. split_and!; [done | by left |]. intros o H. by destruct (Ho o).
  - exists ph. injection He as <-. pose proof (Hph _ Hi eq_refl) as ->. quiet_step Hi Hp (PhResult t).
  - pose proof (Hph _ Hi eq_refl) as ->. rewrite (pi_completed c _ Hi) in He. injection He as <-. exists (PhMarked t).
    eapply (poll_change c _ t _ (PhResult t) (PhMarked t) Hi); try done; [by right | by right | ..]; unfold word; cbn; rewrite !has_lor; flag_consts; rewrite ?orb_true_r, ?orb_false_r; try done.
    apply Hi.
  - exists ph. unfold lock_wakers in He. case_match; injection He as <-; [done |]. quiet_step Hi Hp ph.
  - exists ph. injection He as <-. pose proof (Hph _ Hi eq_refl) as ->. 
    destruct (wake_handle_same c) as (H1 & H2 & H3 & H4 & H5).
    eapply (poll_quiet _ _ _ FnSub (PhMarked t) Hi); [cbn; by rewrite H5 | by rewrite Hp | ..]; try done.
    + change (has (word (wake_handle c)) STATE_POLLING = has (word c) STATE_POLLING). by rewrite H4.
    + change (has (word (wake_handle c)) STATE_COMPLETED = has (word c) STATE_COMPLETED). by rewrite H4.
    + by left.
    + by apply body_same.
  - exists ph. injection He as <-. quiet_step Hi Hp ph.
  - pose proof (Hph _ Hi eq_refl) as ->. injection He as <-. exists PhDone.
    eapply (poll_change c _ t _ (PhMarked t) PhDone Hi); try done; [by right | by destruct ack | by left | | |]; unfold word; cbn; flags; try done; [apply Hi | by destruct ack].
  - exists ph. inv_ret. quiet_step Hi Hp ph.
  - exists ph. inv_ret. quiet_step Hi Hp ph.
  - exists ph. inv_ret. quiet_step Hi Hp ph; by destruct guarded.
Qed.

Lemma join_poll c t ph : poll_inv c ph -> is_join_pc (tpc_of c t) = true -> poll_safe (task_join_step c t (tpc_of c t)).
Proof.
  intros Hi Hpc c' He. pose proof (pi_body c ph Hi) as Hb. pose proof (pi_sound c ph Hi t) as Hs. exists ph.
  destruct (tpc_of c t) as [] eqn:Hp; try done; cbn [task_join_step] in He; unfold lock_wakers in He.
  - destruct Hs as [-> Ho]. destruct (has (word c) STATE_COMPLETED) eqn:Ec; [injection He as <-; quiet_step Hi Hp ph |].
    unfold outcome_of in Ho. destruct (ts_handle c) as [h |] eqn:Eh; [| done]. injection He as <-.
    assert (Ho' : outcome_of (tk_at (handle_node c) 0 (if jh_node h && negb new_waker then TIdle else RgCompleted)) = outcome_of c).
    { unfold outcome_of, handle_node. cbn. by rewrite Eh. }
    eapply (poll_quiet _ _ _ _ ph Hi); [reflexivity | rewrite Hp; by destruct (jh_node h && _) | done | done | by right | | by destruct (jh_node h && _)].
    by apply body_same.
  - destruct Hs as (-> & Hc & Ho). rewrite (pi_completed c ph Hi) in Hc. 
    assert (exists r, ts_results c = [r] /\ tn_status (ts_node c) = STATUS_DONE /\ tn_result (ts_node c) = Some r) as (r & Hr & Hst & Hres).
    { destruct ph; try done; destruct Hb as (r & Hr & [[H1 H2] | [H1 H2]] & _); eauto; done. }
    rewrite Hst, Hres in He. injection He as <-. unfold outcome_of in Ho. destruct (ts_handle c) as [h |] eqn:Eh; [| done].
    eapply (poll_quiet _ _ _ _ ph Hi); [reflexivity | rewrite Hp; by destruct (ts_boxed c) | done | done | by right | | by destruct (ts_boxed c)].
    intros _. assert (Hbody : exists r0, [r] = [r0] /\
      (STATUS_EMPTY = STATUS_DONE /\ None = Some r0 \/ STATUS_EMPTY = STATUS_EMPTY /\ Some (Some (join_outcome r)) <> Some None) /\
      (forall o, Some (Some (join_outcome r)) = Some (Some o) -> o = join_outcome r0)).
    { exists r. split_and!; [done | by right | congruence]. }
    destruct ph; try done; cbn; unfold outcome_of; cbn; rewrite Eh, Hr; exact Hbody.
  - case_match; injection He as <-; [| quiet_step Hi Hp ph].
    eapply (poll_quiet _ _ _ _ ph Hi); [reflexivity | by rewrite Hp | done | done | | | done]; [left | apply body_same; try done]; apply handle_woken_same.
  - case_match; injection He as <-; [done | quiet_step Hi Hp ph].
  - case_match; injection He as <-; [| quiet_step Hi Hp ph].
    eapply (poll_quiet _ _ _ _ ph Hi); [reflexivity | by rewrite Hp | done | done | | | done]; [left | apply body_same; try done];
      apply (handle_woken_same (set_lock c None (th_node (ts_header c)))).
  - inv_ret. quiet_step Hi Hp ph.
  - injection He as <-. case_match; quiet_step Hi Hp ph.
  - injection He as <-. case_match; quiet_step Hi Hp ph.
  - case_match; injection He as <-; [done | quiet_step Hi Hp ph].
  - injection He as <-. quiet_step Hi Hp ph.
  - injection He as <-. quiet_step Hi Hp ph.
  - case_match; injection He as <-; [quiet_step Hi Hp ph | done].
Qed.

Lemma task_step_poll c t ph : poll_inv c ph -> poll_safe (task_step c t).
Proof.
  intros Hi c' He. pose proof (enqueue_poll c t ph Hi) as H1. pose proof (wake_poll c t ph Hi) as H2.
  pose proof (poll_poll c t ph Hi) as H3. pose proof (finish_poll c t ph Hi) as H4. pose proof (join_poll c t ph Hi) as H5.
  unfold task_step in He. destruct (touches _ && _); [done |].
  destruct (tpc_of c t); cbn [is_wake_pc is_enqueue_pc is_finish_pc is_join_pc] in He;
    first [by eapply H1 | by eapply H2 | by eapply H3 | by eapply H4 | by eapply H5 | injection He as <-; by exists ph].
Qed.

Lemma owner_poll c a ph : poll_inv c ph -> tpc_of c 0 = TIdle -> poll_safe (owner_exec c a).
Proof.
  intros Hi Hp c' He. exists ph. unfold owner_exec in He.
  destruct a; try (injection He as <-; done); destruct (ts_handle c) as [h |] eqn:Eh; try (injection He as <-; done).
  - destruct (jh_outcome h) eqn:Eo; [by injection He as <- |]. destruct (_ && _); injection He as <-; [done |].
    quiet_step Hi Hp ph. split; [done |]. unfold outcome_of. cbn. by rewrite Eh, <- Eo.
  - injection He as <-. quiet_step Hi Hp ph.
  - injection He as <-. eapply (poll_quiet _ _ _ _ ph Hi); [reflexivity | rewrite Hp; by destruct (jh_node h) | done | done | by right | | by destruct (jh_node h)].
    by apply body_gone.
  - destruct (_ && _); injection He as <-; [| done]. quiet_step Hi Hp ph.
  - destruct (ts_live c); injection He as <-; [| done]. quiet_step Hi Hp ph.
Qed.

Lemma same_poll c c' ph : ts_pcs c' = ts_pcs c -> ts_header c' = ts_header c -> ts_node c' = ts_node c -> ts_results c' = ts_results c ->
  ts_handle c' = ts_handle c -> poll_inv c ph -> poll_inv c' ph.
Proof.
  intros H1 H2 H3 H4 H5 [I1 I2 I3 I4 I5 I6].
  assert (Hpc : forall t, tpc_of c' t = tpc_of c t) by (intros t; unfold tpc_of; by rewrite H1).
  assert (Ho : outcome_of c' = outcome_of c) by (unfold outcome_of; by rewrite H5).
  assert (Hw : word c' = word c) by (unfold word; by rewrite H2).
  split; rewrite ?Hw; try done.
  - intros t p. rewrite Hpc. apply I1.
  - intros t. rewrite Hpc. apply I2.
  - by apply (body_same c c' ph).
  - intros t. rewrite Hpc. specialize (I6 t). destruct (tpc_of c t); cbn; rewrite ?Hw, ?Ho; apply I6.
Qed.

Lemma task_exec_poll c t a ph : poll_inv c ph -> poll_safe (task_exec c t a).
Proof.
  intros Hi c' He.
  destruct (tpc_of c t) as [] eqn:Hp; destruct a; unfold task_exec in He; rewrite ?Hp in He;
    try (by eapply (task_step_poll c t ph Hi)); try (injection He as <-; by exists ph);
    try (destruct (t =? 0)%nat eqn:Et; [apply Nat.eqb_eq in Et; subst t; by eapply (owner_poll c _ ph Hi Hp) | injection He as <-; by exists ph]).
  - injection He as <-. exists ph. case_match; [| done]. quiet_step Hi Hp ph.
  - exists ph. case_match; injection He as <-; [done |]. quiet_step Hi Hp ph.
  - exists ph. injection He as <-. by apply (same_poll c).
  - exists ph. injection He as <-. by apply (same_poll c).
  - exists ph. injection He as <-. case_match; [| done]. quiet_step Hi Hp ph.
  - exists ph. injection He as <-. destruct r; quiet_step Hi Hp ph.
Qed.

Lemma spawned_pc boxed pinned t : tpc_of (T := T) (task_spawned boxed pinned) t =
  if decide (t = 0%nat) then EqCompleted (mkMode false pinned) else TIdle.
Proof. unfold tpc_of, pc_at. cbn. destruct (decide (t = 0%nat)) as [-> |]; [by rewrite lookup_singleton_eq | by rewrite lookup_singleton_ne]. Qed.

Lemma spawned_poll boxed pinned : poll_inv (task_spawned boxed pinned) PhIdle.
Proof.
  split; try (by destruct pinned).
  - intros t p. rewrite spawned_pc. by destruct (decide _).
  - intros t. rewrite spawned_pc. by destruct (decide _).
Qed.

Lemma reach_poll boxed pinned c : task_reach boxed pinned c -> exists ph, poll_inv c ph.
Proof.
  intros Hr. apply (reach_invariant _ _ _ (fun c => exists ph, poll_inv c ph)) in Hr; [done | eexists; apply spawned_poll |].
  intros c0 t a c' [ph Hi] _ He. by eapply (task_exec_poll c0 t a ph Hi).
Qed.

(** The thread is between entering the task's poll loop and leaving it. *)
Definition polls pc : bool := match phase_of pc 0 with Some _ => true | None => false end.

Lemma polls_phase pc t : polls pc = true -> exists p, phase_of pc t = Some p /\ phase_thread p = Some t.
Proof. destruct pc; try done; intros _; eexists; split; done. Qed.

(** C8 A task is polled by one thread at a time, whatever wakers, workers, the
    handle and the scope do in between; while the future runs the task is not
    complete and has no result; it gets one result at most; and the handle gives
    exactly that result. *)
Theorem task_polled_exclusively boxed pinned c (Hc : task_reach boxed pinned c) :
  (forall t1 t2, polls (tpc_of c t1) = true -> polls (tpc_of c t2) = true -> t1 = t2) /\
  (forall t, tpc_of c t = PlInside -> has (word c) STATE_COMPLETED = false /\ ts_results c = [] /\
     ts_node c = mkNode STATUS_RUNNING true None) /\
  (length (ts_results c) <= 1)%nat /\
  (forall h o, ts_handle c = Some h -> jh_outcome h = Some o -> exists r, ts_results c = [r] /\ o = join_outcome r).
Proof.
  destruct (reach_poll _ _ _ Hc) as [ph Hi]. pose proof (pi_body c ph Hi) as Hb. split_and!.
  - intros t1 t2 (p1 & H1 & E1)%(polls_phase _ t1) (p2 & H2 & E2)%(polls_phase _ t2).
    apply (pi_phase c ph Hi) in H1 as ->. apply (pi_phase c _ Hi) in H2 as ->. congruence.
  - intros t Ht. assert (ph = PhRun t) as -> by (apply (pi_phase c ph Hi t); by rewrite Ht).
    split; [apply Hi | by destruct Hb as (? & ? & _)].
  - destruct ph; [destruct Hb as (_ & -> & _) | destruct Hb as (_ & -> & _) | destruct Hb as (r & -> & _) ..]; cbn; lia.
  - intros h o Hh Ho. assert (Hx : outcome_of c = Some (Some o)) by (unfold outcome_of; by rewrite Hh; cbn; rewrite Ho).
    destruct ph; [destruct Hb as (_ & _ & Hn); by destruct (Hn o) | destruct Hb as (_ & _ & Hn); by destruct (Hn o) |
      destruct Hb as (r & Hr & _ & He); exists r; auto ..].
Qed.
End safety.

(** ** Runs *)

Definition steps (t n : nat) : list (nat * task_action Z) := accesses TkStep t n.

(** Thread 0 enqueues the new task; thread [t] takes it and starts to poll it. *)
Definition spawn_run : list (nat * task_action Z) := steps 0 5.
Definition poll_run (t : nat) : list (nat * task_action Z) := (t, TkPop) :: steps t 8.
(** The future returns in thread [t], which completes and acknowledges the task. *)
Definition ready_run (t : nat) : list (nat * task_action Z) := (t, TkReturn (RtReady 5)) :: steps t 10.
(** Thread [t] wakes the task, which is not queued. *)
Definition wake_run (t : nat) : list (nat * task_action Z) := (t, TkWake) :: steps t 11.
(** The owner takes the result, drops the handle and leaves the scope. *)
Definition leave_run : list (nat * task_action Z) :=
  [(0%nat, TkJoin false)] ++ steps 0 2 ++ [(0%nat, TkDropHandle); (0%nat, TkDropScope)] ++ steps 0 2.

#[global] Instance task_allowed_dec {T} (c : TaskSys T) t a : Decision (task_allowed c t a).
Proof. unfold task_allowed. solve_decision. Defined.

Definition task_after (boxed pinned : bool) (sched : list (nat * task_action Z)) : TaskSys Z :=
  match run task_exec (task_spawned boxed pinned) sched with Ret c => c | Fault _ => task_spawned boxed pinned end.

Lemma task_after_reach boxed pinned sched : sched_allowed task_exec task_allowed (task_spawned boxed pinned) sched = true ->
  task_reach boxed pinned (task_after boxed pinned sched).
Proof.
  intros Ha. unfold task_after. destruct (run _ _ _) as [c |] eqn:E; [| constructor]. by eapply run_reach; [constructor | exact Ha | exact E].
Qed.

Lemma tpc_all {T} (c : TaskSys T) (P : task_pc T -> bool) : P TIdle = true ->
  bool_decide (map_Forall (fun _ pc => P pc = true) (ts_pcs c)) = true -> forall t, P (tpc_of c t) = true.
Proof.
  intros H0 Hall t. apply bool_decide_eq_true_1 in Hall. unfold tpc_of, pc_at. destruct (ts_pcs c !! t) eqn:E; [by eapply Hall | done].
Qed.

Lemma task_polled_exclusively_witness :
  let c := task_after false false (spawn_run ++ poll_run 1) in
  tpc_of c 1 = PlInside /\ ts_results c = [] /\ forall t, polls (tpc_of c t) = true -> t = 1%nat.
Proof.
  assert (Hr : task_reach false false (task_after false false (spawn_run ++ poll_run 1))) by (apply task_after_reach; by vm_compute).
  assert (Hp : tpc_of (task_after false false (spawn_run ++ poll_run 1)) 1 = PlInside) by (by vm_compute).
  destruct (task_polled_exclusively _ _ _ Hr) as (H1 & H2 & _). split_and!; [done | by apply (H2 1%nat) |].
  intros t Ht. apply H1; [done | by rewrite Hp].
Defined.
