(* ===== verification/TaskQueue.v ===== *)
(** * A task between threads: queue references, wake guards, no lost wake-up *)

From stdpp Require Import list gmap sets.
From S2P Require Import Prelude Interleave Task TaskSafety.

Section queue.
Context {T : Type}.
Implicit Types (c : TaskSys T) (t : nat) (pc : task_pc T).

(** ** References

    The queued bit belongs to one reference, which is in a queue or in the hands
    of the thread that puts it there or takes it out.  The reference count is
    one for the task until it finishes, one for that reference (from the
    [fetch_add] on) and one for each thread that has cleared the bit and has not
    subtracted yet. *)

Definition queue_holder pc : bool := match pc with EqRef _ | EqPush _ | DqClear | EqUnclear _ => true | _ => false end.
Definition uncounted pc : bool := match pc with EqRef _ => true | _ => false end.
Definition releasing pc : bool := match pc with DqSub | EqUnref _ => true | _ => false end.
Definition before_sub pc : bool := polls pc && match pc with FnExit _ => false | _ => true end.

Definition counted c (qo : option (option nat)) : bool :=
  match qo with None => false | Some None => true | Some (Some t) => negb (uncounted (tpc_of c t)) end.

Definition cas_sound pc : Prop :=
  match pc with EqCas _ s => has s STATE_QUEUED = false /\ has s STATE_COMPLETED = false | _ => True end.

Record queue_inv c (qo : option (option nat)) (D : gset nat) (base : bool) : Prop := {
  qi_entries : ts_entries c = (match qo with Some None => 1 | _ => 0 end)%nat;
  qi_bit : has (word c) STATE_QUEUED = match qo with Some _ => true | None => false end;
  qi_holder : forall t, queue_holder (tpc_of c t) = true <-> qo = Some (Some t);
  qi_releasing : forall t, t ∈ D <-> releasing (tpc_of c t) = true;
  qi_refs : th_refs (ts_header c) = Z.b2z base + Z.b2z (counted c qo) + Z.of_nat (size D);
  qi_base : forall t, before_sub (tpc_of c t) = true -> base = true;
  qi_live_base : has (word c) STATE_COMPLETED = false -> base = true;
  qi_small : forall t, tpc_of c t <> TIdle -> Z.of_nat t < MAX_THREADS;
  qi_sound : forall t, cas_sound (tpc_of c t)
}.

Lemma size_below (D : gset nat) (n : nat) : (forall t, t ∈ D -> (t < n)%nat) -> (size D <= n)%nat.
Proof.
  intros Hd. assert (D ⊆ list_to_set (seq 0 n)) as Hs.
  { intros t Ht. apply elem_of_list_to_set, elem_of_seq. specialize (Hd t Ht). lia. }
  apply subseteq_size in Hs. rewrite size_list_to_set in Hs by apply NoDup_seq. by rewrite length_seq in Hs.
Qed.

Lemma releasing_few c qo D base : queue_inv c qo D base -> Z.of_nat (size D) <= MAX_THREADS.
Proof.
  intros Hi. assert (size D <= Z.to_nat MAX_THREADS)%nat; [| unfold MAX_THREADS in *; lia].
  apply size_below. intros t Ht. apply (qi_releasing _ _ _ _ Hi) in Ht.
  assert (Z.of_nat t < MAX_THREADS) by (apply (qi_small _ _ _ _ Hi); by intros E; rewrite E in Ht). lia.
Qed.

(** What a step of thread [t] to [pc'] has to give. *)
Lemma queue_moves c c' t pc' qo D base qo' D' base' : queue_inv c qo D base -> ts_pcs c' = <[t := pc']> (ts_pcs c) ->
  Z.of_nat t < MAX_THREADS -> ts_entries c' = (match qo' with Some None => 1 | _ => 0 end)%nat ->
  has (word c') STATE_QUEUED = (match qo' with Some _ => true | None => false end) ->
  (queue_holder pc' = true <-> qo' = Some (Some t)) -> (forall t', t' <> t -> qo' = Some (Some t') <-> qo = Some (Some t')) ->
  (t ∈ D' <-> releasing pc' = true) -> (forall t', t' <> t -> t' ∈ D' <-> t' ∈ D) ->
  th_refs (ts_header c') = Z.b2z base' + Z.b2z (counted c' qo') + Z.of_nat (size D') ->
  (before_sub pc' = true -> base' = true) -> (base' = base \/ forall t', t' <> t -> before_sub (tpc_of c t') = false) ->
  (has (word c') STATE_COMPLETED = false -> base' = true) -> cas_sound pc' -> queue_inv c' qo' D' base'.
Proof.
  intros Hi Hp Ht He Hb Hh Hh' Hd Hd' Hr Hbs Hbase Hlb Hs. pose proof (tpc_move c c' t pc' Hp) as Hpc. split; try done.
  - intros t'. rewrite Hpc. destruct (decide (t' = t)) as [-> | Hne]; [done |]. by rewrite Hh', (qi_holder _ _ _ _ Hi).
  - intros t'. rewrite Hpc. destruct (decide (t' = t)) as [-> | Hne]; [done |]. by rewrite Hd', (qi_releasing _ _ _ _ Hi).
  - intros t'. rewrite Hpc. destruct (decide (t' = t)) as [-> | Hne]; [done |]. intros Hx.
    destruct Hbase as [-> | Hn]; [by apply (qi_base _ _ _ _ Hi t') | by rewrite Hn in Hx].
  - intros t'. rewrite Hpc. destruct (decide (t' = t)) as [-> | Hne]; [done |]. apply Hi.
  - intros t'. rewrite Hpc. destruct (decide (t' = t)) as [-> | Hne]; [done |]. apply Hi.
Qed.

Lemma counted_move c c' t pc' qo : ts_pcs c' = <[t := pc']> (ts_pcs c) -> uncounted pc' = uncounted (tpc_of c t) ->
  counted c' qo = counted c qo.
Proof.
  intros Hp Hu. destruct qo as [[t' |] |]; try done. cbn. rewrite (tpc_move c c' t pc' Hp).
  destruct (decide (t' = t)) as [-> |]; [by rewrite Hu | done].
Qed.

(** Steps that leave the references alone. *)
Lemma tqueue_quiet c c' t pc' qo D base : queue_inv c qo D base -> ts_pcs c' = <[t := pc']> (ts_pcs c) ->
  Z.of_nat t < MAX_THREADS -> ts_entries c' = ts_entries c -> th_refs (ts_header c') = th_refs (ts_header c) ->
  has (word c') STATE_QUEUED = has (word c) STATE_QUEUED ->
  (has (word c') STATE_COMPLETED = false -> has (word c) STATE_COMPLETED = false) ->
  queue_holder pc' = queue_holder (tpc_of c t) -> uncounted pc' = uncounted (tpc_of c t) -> releasing pc' = releasing (tpc_of c t) ->
  (before_sub pc' = true -> before_sub (tpc_of c t) = true \/ has (word c) STATE_COMPLETED = false) -> cas_sound pc' ->
  queue_inv c' qo D base.
Proof.
  intros Hi Hp Ht He Hr Hq Hc Hh Hu Hrl Hbs Hs. eapply (queue_moves c c' t pc' qo D base qo D base Hi Hp Ht); try done.
  - rewrite He. apply Hi.
  - rewrite Hq. apply Hi.
  - rewrite Hh. apply Hi.
  - rewrite Hrl. apply Hi.
  - rewrite Hr, (counted_move c c' t pc' qo Hp Hu). apply Hi.
  - intros Hx. destruct (Hbs Hx) as [Hy | Hy]; [by apply (qi_base _ _ _ _ Hi t) | by apply (qi_live_base _ _ _ _ Hi)].
  - by left.
  - intros Hx. apply (qi_live_base _ _ _ _ Hi), Hc, Hx.
Qed.

Lemma refs_range c qo D base : queue_inv c qo D base -> 0 <= th_refs (ts_header c) < 2 ^ 33.
Proof.
  intros Hi. rewrite (qi_refs _ _ _ _ Hi). pose proof (releasing_few c qo D base Hi). unfold MAX_THREADS in *.
  destruct base, (counted c qo); cbn; lia.
Qed.

Lemma wrap_refs x : 0 <= x < 2 ^ 34 -> wrap USIZE_BITS x = x.
Proof. intros. apply wrap_small. change (2 ^ USIZE_BITS) with (2 ^ 64). lia. Qed.

Lemma holder_unique c qo D base t : queue_inv c qo D base -> queue_holder (tpc_of c t) = true -> qo = Some (Some t).
Proof. intros Hi. apply Hi. Qed.

(** The thread with the reference clears the queued bit. *)
Lemma queue_clear c t pc' qo D base : queue_inv c qo D base -> Z.of_nat t < MAX_THREADS ->
  queue_holder (tpc_of c t) = true -> uncounted (tpc_of c t) = false -> releasing pc' = true ->
  queue_holder pc' = false -> before_sub pc' = false -> cas_sound pc' ->
  queue_inv (tk_at (set_word c (without (word c) STATE_QUEUED)) t pc') None ({[t]} ∪ D) base.
Proof.
  intros Hi Ht Hh Hu Hr Hh' Hb Hs. pose proof (holder_unique _ _ _ _ t Hi Hh) as ->.
  assert (Hnd : t ∉ D). { intros Hd. apply (qi_releasing _ _ _ _ Hi) in Hd. by destruct (tpc_of c t). }
  eapply (queue_moves c _ t pc' _ D base None _ base Hi); try done.
  - apply (qi_entries _ _ _ _ Hi).
  - unfold word; cbn; by flags.
  - by rewrite Hh'.
  - intros t' Hne. split; congruence.
  - rewrite Hr. set_solver.
  - intros t' Hne. set_solver.
  - cbn. rewrite (qi_refs _ _ _ _ Hi), size_union by set_solver. rewrite size_singleton. cbn. rewrite Hu. cbn. lia.
  - by rewrite Hb.
  - by left.
  - intros Hx. apply (qi_live_base _ _ _ _ Hi). revert Hx. unfold word; cbn; by flags.
Qed.

(** The thread subtracts the reference it cleared. *)
Lemma queue_release c t pc' qo D base : queue_inv c qo D base -> Z.of_nat t < MAX_THREADS ->
  releasing (tpc_of c t) = true -> releasing pc' = false -> queue_holder pc' = false -> before_sub pc' = false -> cas_sound pc' ->
  queue_inv (tk_at (set_refs c (wrapping_sub USIZE_BITS (th_refs (ts_header c)) 1)) t pc') qo (D ∖ {[t]}) base.
Proof.
  intros Hi Ht Hr Hr' Hh' Hb Hs. assert (Hd : t ∈ D) by (by apply (qi_releasing _ _ _ _ Hi)).
  assert (Hu : forall pc, releasing pc = true -> uncounted pc = false) by (by intros []).
  assert (Hh : queue_holder (tpc_of c t) = false) by (by destruct (tpc_of c t)).
  assert (Hsz : size D = S (size (D ∖ {[t]}))).
  { rewrite (union_difference_L {[t]} D) at 1 by set_solver. rewrite size_union by set_solver. by rewrite size_singleton. }
  pose proof (refs_range _ _ _ _ Hi) as Hrg.
  eapply (queue_moves c _ t pc' qo D base qo _ base Hi); try done; [apply Hi | apply Hi | .. | by left | apply (qi_live_base _ _ _ _ Hi)].
  - rewrite Hh'. split; [done |]. intros Hx. apply (qi_holder _ _ _ _ Hi) in Hx. congruence.
  - rewrite Hr'. set_solver.
  - intros t' Hne. set_solver.
  - rewrite (counted_move c (tk_at (set_refs c (wrapping_sub USIZE_BITS (th_refs (ts_header c)) 1)) t pc') t pc' qo)
      by first [done | rewrite (Hu _ Hr); by destruct pc'].
    change (wrapping_sub USIZE_BITS (th_refs (ts_header c)) 1 = Z.b2z base + Z.b2z (counted c qo) + Z.of_nat (size (D ∖ {[t]}))).
    unfold wrapping_sub. pose proof (qi_refs _ _ _ _ Hi) as Hrf. rewrite wrap_refs by (destruct base, (counted c qo); cbn [Z.b2z] in *; lia). lia.
  - by rewrite Hb.
Qed.

Definition queue_safe (o : outcome (TaskSys T)) : Prop := forall c', o = Ret c' -> exists qo D base, queue_inv c' qo D base.

Ltac quiet_queue Hi Hp Ht := eapply (tqueue_quiet _ _ _ _ _ _ _ Hi);
  [reflexivity | exact Ht | reflexivity | reflexivity | | | rewrite Hp .. |]; try done;
  first [by modes | by (unfold word; cbn; flags) | by (intros Hx; unfold word in *; cbn in *; revert Hx; flags; tauto) | by intros _; left | idtac].

Lemma enqueue_queue c t qo D base : queue_inv c qo D base -> Z.of_nat t < MAX_THREADS ->
  is_enqueue_pc (tpc_of c t) = true -> queue_safe (task_enqueue_step c t (tpc_of c t)).
Proof.
  intros Hi Ht Hpc c' He. pose proof (qi_sound _ _ _ _ Hi t) as Hs. pose proof (holder_unique c qo D base t Hi) as Hq.
  pose proof (refs_range _ _ _ _ Hi) as Hrg.
  destruct (tpc_of c t) as [] eqn:Hp; try done; cbn [task_enqueue_step] in He; cbn [queue_holder] in Hq.
  - exists qo, D, base. injection He as <-. quiet_queue Hi Hp Ht.
  - exists qo, D, base. repeat case_match; injection He as <-; quiet_queue Hi Hp Ht.
  - exists qo, D, base. repeat case_match; injection He as <-; quiet_queue Hi Hp Ht.
  - exists qo, D, base. destruct (_ || _) eqn:Eor; injection He as <-; quiet_queue Hi Hp Ht. by apply orb_false_iff in Eor.
  - destruct (word c =? state) eqn:Ew; injection He as <-; cas_eq; [| exists qo, D, base; quiet_queue Hi Hp Ht].
    destruct Hs as [Hs1 Hs2]. pose proof (qi_bit _ _ _ _ Hi) as Hb. rewrite Hs1 in Hb. destruct qo; [done |].
    exists (Some (Some t)), D, base.
    eapply (queue_moves c _ t _ None D base (Some (Some t)) D base Hi); try done.
    + apply Hi.
    + unfold word; cbn; by flags.
    + intros t' Hne. split; congruence.
    + rewrite (qi_releasing _ _ _ _ Hi), Hp. done.
    + cbn. rewrite (qi_refs _ _ _ _ Hi). unfold tpc_of. cbn. rewrite pc_at_eq. cbn. lia.
    + by left.
    + intros _. by apply (qi_live_base _ _ _ _ Hi).
  - injection He as <-. specialize (Hq eq_refl) as ->. exists (Some (Some t)), D, base.
    eapply (queue_moves c _ t _ _ D base (Some (Some t)) D base Hi); try done.
    + apply (qi_entries _ _ _ _ Hi).
    + apply (qi_bit _ _ _ _ Hi).
    + rewrite (qi_releasing _ _ _ _ Hi), Hp. done.
    + cbn. unfold tpc_of. cbn. rewrite pc_at_eq. cbn. unfold wrapping_add. rewrite wrap_refs by lia.
      rewrite (qi_refs _ _ _ _ Hi). cbn. rewrite Hp. cbn. lia.
    + by left.
    + apply (qi_live_base _ _ _ _ Hi).
  - injection He as <-. specialize (Hq eq_refl) as ->. exists (Some None), D, base.
    eapply (queue_moves c _ t _ _ D base (Some None) D base Hi); try done.
    + cbn. by rewrite (qi_entries _ _ _ _ Hi).
    + apply (qi_bit _ _ _ _ Hi).
    + by modes.
    + intros t' Hne. split; congruence.
    + rewrite (qi_releasing _ _ _ _ Hi), Hp. by modes.
    + cbn. rewrite (qi_refs _ _ _ _ Hi). cbn. rewrite Hp. cbn. lia.
    + by modes.
    + by left.
    + apply (qi_live_base _ _ _ _ Hi).
    + by modes.
  - rewrite (qi_bit _ _ _ _ Hi), (Hq eq_refl) in He. injection He as <-. exists None, ({[t]} ∪ D), base.
    apply (queue_clear c t _ qo); rewrite ?Hp; done.
  - injection He as <-. exists qo, (D ∖ {[t]}), base. apply (queue_release c t _ qo D); rewrite ?Hp; try done; case_match; by modes.
Qed.

Lemma wake_queue c t qo D base : queue_inv c qo D base -> Z.of_nat t < MAX_THREADS ->
  is_wake_pc (tpc_of c t) = true -> queue_safe (task_wake_step c t (tpc_of c t)).
Proof.
  intros Hi Ht Hpc c' He. exists qo, D, base.
  destruct (tpc_of c t) as [] eqn:Hp; try done; cbn [task_wake_step] in He; unfold acquire_dispatch in He;
    repeat case_match; inv_ret; quiet_queue Hi Hp Ht.
Qed.

Lemma poll_queue c t qo D base : queue_inv c qo D base -> Z.of_nat t < MAX_THREADS ->
  match tpc_of c t with DqClear | DqSub | PlBind | PlEnter | PlWoken _ | PlGrab _ | PlCancel _ | PlScope _ | PlPoll | PlInside | PlExit | PlExitCas _ => True | _ => False end ->
  poll_sound c t (tpc_of c t) -> queue_safe (task_poll_step c t (tpc_of c t)).
Proof.
  intros Hi Ht Hpc Hs c' He. pose proof (holder_unique c qo D base t Hi) as Hq.
  destruct (tpc_of c t) as [] eqn:Hp; try done; cbn [task_poll_step] in He; cbn [queue_holder] in Hq.
  - rewrite (qi_bit _ _ _ _ Hi), (Hq eq_refl) in He. injection He as <-. exists None, ({[t]} ∪ D), base.
    apply (queue_clear c t _ qo); rewrite ?Hp; done.
  - injection He as <-. exists qo, (D ∖ {[t]}), base. apply (queue_release c t _ qo D); rewrite ?Hp; try done; by case_match.
  - exists qo, D, base. injection He as <-. quiet_queue Hi Hp Ht.
  - exists qo, D, base. injection He as <-. unfold enter_dispatch. repeat case_match; quiet_queue Hi Hp Ht.
  - exists qo, D, base. unfold enter_dispatch in He. repeat case_match; injection He as <-; cas_eq; quiet_queue Hi Hp Ht.
  - exists qo, D, base. unfold enter_dispatch in He. destruct (word c =? state) eqn:Ew.
    + injection He as <-. cas_eq. destruct Hs as [Hs1 Hs2]. quiet_queue Hi Hp Ht.
    + repeat case_match; injection He as <-; quiet_queue Hi Hp Ht.
  - exists qo, D, base. repeat case_match; injection He as <-; quiet_queue Hi Hp Ht.
  - exists qo, D, base. repeat case_match; injection He as <-; quiet_queue Hi Hp Ht.
  - exists qo, D, base. repeat case_match; injection He as <-; quiet_queue Hi Hp Ht.
  - exists qo, D, base. by injection He as <-.
  - exists qo, D, base. injection He as <-. quiet_queue Hi Hp Ht.
  - exists qo, D, base. unfold exit_word in He. destruct (word c =? state) eqn:Ew; [destruct (has state STATE_WOKEN) eqn:Ewk |]; injection He as <-; cas_eq;
      quiet_queue Hi Hp Ht.
Qed.

Lemma finish_queue c t qo D base ph : queue_inv c qo D base -> poll_inv c ph -> Z.of_nat t < MAX_THREADS ->
  is_finish_pc (tpc_of c t) = true -> queue_safe (task_finish_step c t (tpc_of c t)).
Proof.
  intros Hi Hpi Ht Hpc c' He. unfold lock_wakers in *.
  destruct (tpc_of c t) as [] eqn:Hp; try done; cbn [task_finish_step] in He; unfold lock_wakers in He.
  1-4: exists qo, D, base; repeat case_match; injection He as <-; try done; quiet_queue Hi Hp Ht.
  - exists qo, D, base. injection He as <-. unfold wake_handle. case_match; quiet_queue Hi Hp Ht.
  - injection He as <-. exists qo, D, false.
    assert (Hph : ph = PhMarked t) by (apply (pi_phase c ph Hpi t); by rewrite Hp). subst ph.
    assert (Hb : base = true) by (apply (qi_base _ _ _ _ Hi t); by rewrite Hp). subst base.
    pose proof (refs_range _ _ _ _ Hi) as Hrg.
    eapply (queue_moves c _ t _ qo D true qo D false Hi); try done; [apply Hi | apply Hi | .. | |].
    + cbn. rewrite <- (qi_holder _ _ _ _ Hi), Hp. done.
    + rewrite (qi_releasing _ _ _ _ Hi), Hp. done.
    + pose proof (qi_refs _ _ _ _ Hi) as Hrf.
      rewrite (counted_move c (tk_at (set_refs c (wrapping_sub USIZE_BITS (th_refs (ts_header c)) 1)) t (FnExit (th_refs (ts_header c) =? 1))) t _ qo eq_refl) by by rewrite Hp.
      change (wrapping_sub USIZE_BITS (th_refs (ts_header c)) 1 = Z.b2z false + Z.b2z (counted c qo) + Z.of_nat (size D)).
      unfold wrapping_sub. rewrite wrap_refs by (destruct (counted c qo); cbn [Z.b2z] in *; lia). cbn [Z.b2z] in *. lia.
    + right. intros t' Hne. destruct (before_sub (tpc_of c t')) eqn:Hb; [| done]. exfalso.
      apply andb_true_iff in Hb as [Hb _]. apply (polls_phase _ t') in Hb as (p & Hpp & Hth).
      apply (pi_phase c _ Hpi) in Hpp as <-. cbn in Hth. congruence.
    + intros Hx. change (has (word c) STATE_COMPLETED = false) in Hx. by rewrite (pi_completed c _ Hpi) in Hx.
  - exists qo, D, base. injection He as <-. quiet_queue Hi Hp Ht; by case_match.
  - exists qo, D, base. inv_ret. quiet_queue Hi Hp Ht.
  - exists qo, D, base. inv_ret. quiet_queue Hi Hp Ht.
  - exists qo, D, base. inv_ret. quiet_queue Hi Hp Ht; by destruct guarded.
Qed.

Lemma join_queue c t qo D base : queue_inv c qo D base -> Z.of_nat t < MAX_THREADS ->
  is_join_pc (tpc_of c t) = true -> queue_safe (task_join_step c t (tpc_of c t)).
Proof.
  intros Hi Ht Hpc c' He. exists qo, D, base.
  destruct (tpc_of c t) as [] eqn:Hp; try done; cbn [task_join_step] in He; unfold lock_wakers, handle_gives, handle_node in He;
    repeat case_match; inv_ret; try done; quiet_queue Hi Hp Ht.
Qed.

Lemma same_queue c c' qo D base : ts_pcs c' = ts_pcs c -> ts_header c' = ts_header c -> ts_entries c' = ts_entries c ->
  queue_inv c qo D base -> queue_inv c' qo D base.
Proof.
  intros H1 H2 H3 [I1 I2 I3 I4 I5 I6 I7 I8 I9].
  assert (Hpc : forall t, tpc_of c' t = tpc_of c t) by (intros t; unfold tpc_of; by rewrite H1).
  assert (Hw : word c' = word c) by (unfold word; by rewrite H2).
  split; rewrite ?Hw, ?H2, ?H3; try done; try (intros t; rewrite Hpc; first [apply I3 | apply I4 | apply I6 | apply I8 | apply I9]).
  rewrite I5. destruct qo as [[t |] |]; try done. cbn. by rewrite Hpc.
Qed.

Lemma owner_queue c a qo D base : queue_inv c qo D base -> tpc_of c 0 = TIdle -> queue_safe (owner_exec c a).
Proof.
  intros Hi Hp c' He. exists qo, D, base. unfold owner_exec in He. assert (Ht : Z.of_nat 0 < MAX_THREADS) by done.
  destruct a; repeat case_match; injection He as <-; try done; quiet_queue Hi Hp Ht.
Qed.

Lemma task_exec_queue c t a qo D base ph : queue_inv c qo D base -> poll_inv c ph -> Z.of_nat t < MAX_THREADS ->
  queue_safe (task_exec c t a).
Proof.
  intros Hi Hpi Ht c' He.
  destruct (tpc_of c t) as [] eqn:Hp; destruct a; unfold task_exec in He; rewrite ?Hp in He;
    try (injection He as <-; by exists qo, D, base);
    try (destruct (t =? 0)%nat eqn:Et; [apply Nat.eqb_eq in Et; subst t; by eapply (owner_queue c _ qo D base Hi Hp) | injection He as <-; by exists qo, D, base]);
    try (unfold task_step in He; destruct (touches _ && _); [done |]; rewrite Hp in He; cbn [is_wake_pc is_enqueue_pc is_finish_pc is_join_pc] in He; rewrite <- Hp in He;
      first [eapply (enqueue_queue c t qo D base Hi Ht); [by rewrite Hp | exact He]
           | eapply (wake_queue c t qo D base Hi Ht); [by rewrite Hp | exact He]
           | eapply (finish_queue c t qo D base ph Hi Hpi Ht); [by rewrite Hp | exact He]
           | eapply (join_queue c t qo D base Hi Ht); [by rewrite Hp | exact He]
           | eapply (poll_queue c t qo D base Hi Ht); [by rewrite Hp | apply (pi_sound c ph Hpi) | exact He]
           | rewrite Hp in He; injection He as <-; by exists qo, D, base]).
  - exists qo, D, base. injection He as <-. case_match; [| done]. quiet_queue Hi Hp Ht.
  - pose proof (qi_entries _ _ _ _ Hi) as Hen. destruct qo as [[t' |] |]; rewrite Hen in He; injection He as <-; try (by eexists _, _, _).
    exists (Some (Some t)), D, base. eapply (queue_moves c _ t _ (Some None) D base (Some (Some t)) D base Hi); try done.
    + apply (qi_bit _ _ _ _ Hi).
    + intros t' Hne. split; congruence.
    + rewrite (qi_releasing _ _ _ _ Hi), Hp. done.
    + cbn. rewrite (qi_refs _ _ _ _ Hi). unfold tpc_of. cbn. rewrite pc_at_eq. cbn. lia.
    + by left.
    + apply (qi_live_base _ _ _ _ Hi).
  - exists qo, D, base. injection He as <-. by apply (same_queue c).
  - exists qo, D, base. injection He as <-. by apply (same_queue c).
  - exists qo, D, base. injection He as <-. case_match; [| done]. quiet_queue Hi Hp Ht.
  - exists qo, D, base. injection He as <-. destruct r; quiet_queue Hi Hp Ht.
Qed.

Lemma spawned_queue boxed pinned : queue_inv (task_spawned (T := T) boxed pinned) None ∅ true.
Proof.
  split; try done; try (by destruct pinned).
  - intros t. rewrite spawned_pc. by destruct (decide _).
  - intros t. rewrite spawned_pc. destruct (decide _); cbn; set_solver.
  - intros t. rewrite spawned_pc. destruct (decide _) as [-> |]; done.
  - intros t. rewrite spawned_pc. by destruct (decide _).
Qed.

Definition task_inv c : Prop := exists ph qo D base, poll_inv c ph /\ queue_inv c qo D base.

Lemma task_reach_inv boxed pinned c : task_reach boxed pinned c -> task_inv c.
Proof.
  intros Hr. apply (reach_invariant _ _ _ task_inv) in Hr; [done | by eexists _, _, _, _; split; [apply spawned_poll | apply spawned_queue] |].
  intros c0 t a c' (ph & qo & D & base & Hpi & Hqi) Ht He. destruct (task_exec_poll c0 t a ph Hpi c' He) as [ph' Hpi'].
  destruct (task_exec_queue c0 t a qo D base ph Hqi Hpi Ht c' He) as (qo' & D' & base' & Hqi'). by exists ph', qo', D', base'.
Qed.

(** A thread that subtracts the last reference: the task is complete. *)
Lemma last_reference c t qo D base : queue_inv c qo D base -> releasing (tpc_of c t) = true -> th_refs (ts_header c) = 1 ->
  base = false /\ counted c qo = false /\ D = {[t]} /\ has (word c) STATE_COMPLETED = true.
Proof.
  intros Hi Hr H1. assert (Hd : t ∈ D) by (by apply (qi_releasing _ _ _ _ Hi)).
  rewrite (qi_refs _ _ _ _ Hi) in H1. assert (Hsz : (1 <= size D)%nat).
  { rewrite <- (size_singleton (C := gset nat) t). apply subseteq_size. set_solver. }
  assert (base = false /\ counted c qo = false /\ size D = 1%nat) as (-> & -> & Hs1).
  { destruct base, (counted c qo); cbn [Z.b2z] in *; split_and!; try done; lia. }
  split_and!; [done | done | |].
  - apply size_1_elem_of in Hs1 as [t' Hs1]. set_solver.
  - destruct (has (word c) STATE_COMPLETED) eqn:E; [done |]. by apply (qi_live_base _ _ _ _ Hi) in E.
Qed.
End queue.
