(* ===== verification/TaskWake.v ===== *)
(** * A task between threads: wake-ups and the memory of the task *)

From stdpp Require Import list gmap sets.
From S2P Require Import Prelude Interleave Task TaskSafety TaskQueue.

Section wake.
Context {T : Type}.
Implicit Types (c : TaskSys T) (t : nat) (pc : task_pc T).

(** ** The wake token keeps the memory

    A thread inside a wake has a guard, which counts in the token's word; the
    header goes away only once the word is zero. *)

Definition guarded pc : bool :=
  match pc with
  | WkAlive | WkHeader | WkDrop | EqPinned => true
  | EqCompleted m | EqAcked m | EqLoad m | EqCas m _ | EqRef m | EqPush m | EqUnclear m | EqUnref m => em_guarded m
  | AckOr g | AckScope g | AckSettle g => g
  | _ => false
  end.

Definition token_sound pc : Prop := match pc with WkCas s => Z.land s WAKE_TOKEN_ALIVE <> 0 | _ => True end.

(** Inside a wake, before the header is known to be there. *)
Definition waking pc : bool := match pc with WkLoad | WkCas _ | WkAlive | WkHeader => true | _ => false end.

Record token_inv c (G : gset nat) : Prop := {
  ki_guard : forall t, t ∈ G <-> guarded (tpc_of c t) = true;
  ki_word : exists b : bool, wt_state (ts_token c) = 2 * Z.of_nat (size G) + Z.b2z b;
  ki_range : wt_state (ts_token c) < 2 ^ 32;
  ki_dead : ts_live c = false -> wt_state (ts_token c) = 0;
  ki_sound : forall t, token_sound (tpc_of c t);
  ki_freed : Z.odd (wt_state (ts_token c)) = false -> ts_live c = false \/ exists t, tpc_of c t = FrWait;
  ki_header : forall t, waking (tpc_of c t) = true -> wt_header (ts_token c) = true \/ ts_live c = false
}.

(** What a step of thread [t] to [pc'] has to give. *)
Lemma token_moves c c' t pc' G G' : token_inv c G -> ts_pcs c' = <[t := pc']> (ts_pcs c) ->
  (t ∈ G' <-> guarded pc' = true) -> (forall t', t' <> t -> t' ∈ G' <-> t' ∈ G) ->
  (exists b : bool, wt_state (ts_token c') = 2 * Z.of_nat (size G') + Z.b2z b) -> wt_state (ts_token c') < 2 ^ 32 ->
  (ts_live c' = false -> wt_state (ts_token c') = 0) -> token_sound pc' ->
  (Z.odd (wt_state (ts_token c')) = false ->
     ts_live c' = false \/ pc' = FrWait \/ Z.odd (wt_state (ts_token c)) = false /\ tpc_of c t <> FrWait) ->
  (ts_live c = false -> ts_live c' = false) ->
  (wt_header (ts_token c) = true -> wt_header (ts_token c') = true \/ ts_live c' = false) ->
  (waking pc' = true -> wt_header (ts_token c') = true \/ ts_live c' = false) -> token_inv c' G'.
Proof.
  intros Hi Hp Hg Hg' Hw Hr Hd Hs Ho Hl Hh Hk. pose proof (tpc_move c c' t pc' Hp) as Hpc. split; try done.
  - intros t'. rewrite Hpc. destruct (decide (t' = t)) as [-> | Hne]; [done |]. by rewrite Hg', (ki_guard c G Hi).
  - intros t'. rewrite Hpc. destruct (decide (t' = t)) as [-> | Hne]; [done |]. apply Hi.
  - intros Hx. destruct (Ho Hx) as [? | [-> | [Hy Hn]]]; [by left | right; exists t; rewrite Hpc; by rewrite decide_True |].
    destruct (ki_freed c G Hi Hy) as [? | [t' Ht']]; [left; auto |]. right. exists t'. rewrite Hpc. rewrite decide_False; [done |]. by intros ->.
  - intros t'. rewrite Hpc. destruct (decide (t' = t)) as [-> | Hne]; [done |]. intros Hx.
    destruct (ki_header c G Hi t' Hx); auto.
Qed.

Lemma token_quiet c c' t pc' G : token_inv c G -> ts_pcs c' = <[t := pc']> (ts_pcs c) ->
  wt_state (ts_token c') = wt_state (ts_token c) -> ts_live c' = ts_live c -> guarded pc' = guarded (tpc_of c t) ->
  token_sound pc' -> (wt_header (ts_token c) = true -> wt_header (ts_token c') = true) -> tpc_of c t <> FrWait ->
  (waking pc' = true -> waking (tpc_of c t) = true) -> token_inv c' G.
Proof.
  intros Hi Hp Hw Hl Hg Hs Hh Hn Hk. eapply (token_moves c c' t pc' G G Hi Hp); rewrite ?Hw, ?Hl; try done; try apply Hi; try tauto.
  - rewrite Hg. apply Hi.
  - intros Hx. destruct (ki_header c G Hi t); auto.
Qed.

Definition token_safe (o : outcome (TaskSys T)) : Prop := forall c', o = Ret c' -> exists G, token_inv c' G.

Ltac kquiet Hi Hp := eapply (token_quiet _ _ _ _ _ Hi); [reflexivity | reflexivity | reflexivity | rewrite Hp; try done | try done | try done | by rewrite Hp | rewrite Hp; try done].

Lemma dispatch_token c t G state : token_inv c G -> guarded (tpc_of c t) = false -> waking (tpc_of c t) = true ->
  token_inv (acquire_dispatch c t state) G.
Proof.
  intros Hi Hg Hk. unfold acquire_dispatch. destruct (Z.eqb_spec (Z.land state WAKE_TOKEN_ALIVE) 0) as [E | E];
    (eapply (token_quiet _ _ _ _ _ Hi); [reflexivity | reflexivity | reflexivity | by rewrite Hg | done | done | by intros E'; rewrite E' in Hk | done]).
Qed.

Lemma low_bit_clear n (b : bool) : 0 <= n -> 2 * n + Z.b2z b < 2 ^ 32 -> Z.land (2 * n + Z.b2z b) (bitnot U32 WAKE_TOKEN_ALIVE) = 2 * n.
Proof.
  intros Hn Hlt. apply Z.bits_inj'. intros j Hj. rewrite Z.land_spec. unfold bitnot. change (2 ^ U32 - 1) with (Z.ones 32).
  change (Z.lxor WAKE_TOKEN_ALIVE (Z.ones 32)) with (2 * Z.ones 31).
  destruct (decide (j = 0)) as [-> | Hj0].
  - rewrite !Z.testbit_even_0. by rewrite andb_false_r.
  - replace j with (Z.succ (j - 1)) by lia. rewrite !Z.testbit_even_succ by lia.
    assert (Z.testbit (2 * n + Z.b2z b) (Z.succ (j - 1)) = Z.testbit n (j - 1)) as ->.
    { destruct b; cbn [Z.b2z]; [apply Z.testbit_odd_succ | rewrite Z.add_0_r; apply Z.testbit_even_succ]; lia. }
    destruct (Z.ltb_spec (j - 1) 31) as [Hs | Hs].
    + by rewrite Z.ones_spec_low, andb_true_r by lia.
    + rewrite (testbit_range n 31) by (destruct b; cbn [Z.b2z] in *; lia). done.
Qed.

Lemma odd_bit n (b : bool) : Z.odd (2 * n + Z.b2z b) = b.
Proof. rewrite Z.add_comm, Z.odd_add_mul_2. by destruct b. Qed.

Lemma alive_odd x : (Z.land x WAKE_TOKEN_ALIVE =? 0) = negb (Z.odd x).
Proof. change WAKE_TOKEN_ALIVE with (Z.ones 1). rewrite (Z.land_ones x 1) by lia. change (2 ^ 1) with 2. rewrite Zmod_odd. by destruct (Z.odd x). Qed.

Lemma wake_token c t G : token_inv c G -> is_wake_pc (tpc_of c t) = true -> token_safe (task_wake_step c t (tpc_of c t)).
Proof.
  intros Hi Hpc c' He. pose proof (ki_sound c G Hi t) as Hs. destruct (ki_word c G Hi) as [b Hw].
  destruct (tpc_of c t) as [] eqn:Hp; try done; cbn [task_wake_step] in He.
  - injection He as <-. exists G. apply dispatch_token; [done | by rewrite Hp ..].
  - destruct (wt_state (ts_token c) =? state) eqn:Ew; [| injection He as <-; exists G; apply dispatch_token; [done | by rewrite Hp ..]].
    apply Z.eqb_eq in Ew. subst state. unfold arith, checked in He. destruct (_ && _) eqn:Er; [| done]. inv_ret.
    apply andb_true_iff in Er as [_ Er%Z.ltb_lt]. exists ({[t]} ∪ G).
    assert (Hg : t ∉ G). { intros Hx. apply (ki_guard c G Hi) in Hx. by rewrite Hp in Hx. }
    eapply (token_moves _ _ _ _ _ _ Hi); [reflexivity | set_solver | set_solver | | done | | done | | done | by left |].
    + exists b. cbn. rewrite Hw, size_union, size_singleton by set_solver. unfold WAKE_TOKEN_ACTIVE_UNIT. lia.
    + intros Hl. cbn in Hl. apply (ki_dead c G Hi) in Hl. cbn in Hs. by rewrite Hl in Hs.
    + intros Ho. right; right. rewrite Hp. split; [| done]. cbn in Ho. unfold WAKE_TOKEN_ACTIVE_UNIT in Ho.
      by rewrite Z.odd_add, xorb_false_r in Ho.
    + intros _. apply (ki_header c G Hi t). by rewrite Hp.
  - injection He as <-. exists G. case_match; kquiet Hi Hp.
  - injection He as <-. exists G. case_match; kquiet Hi Hp.
  - injection He as <-. exists (G ∖ {[t]}). assert (Hg : t ∈ G) by (apply (ki_guard c G Hi); by rewrite Hp).
    assert (Hsz : size G = S (size (G ∖ {[t]}))).
    { rewrite (union_difference_L {[t]} G) at 1 by set_solver. rewrite size_union by set_solver. by rewrite size_singleton. }
    assert (Hsub : wrapping_sub U32 (wt_state (ts_token c)) WAKE_TOKEN_ACTIVE_UNIT = 2 * Z.of_nat (size (G ∖ {[t]})) + Z.b2z b).
    { unfold wrapping_sub. pose proof (ki_range c G Hi). rewrite wrap_small; unfold U32, WAKE_TOKEN_ACTIVE_UNIT; destruct b; cbn [Z.b2z] in *; lia. }
    eapply (token_moves _ _ _ _ _ _ Hi); [reflexivity | set_solver | set_solver | | | | done | | done | by left | done]; cbn; rewrite ?Hsub.
    + by exists b.
    + pose proof (ki_range c G Hi). lia.
    + intros Hl. apply (ki_dead c G Hi) in Hl. destruct b; cbn [Z.b2z] in *; lia.
    + intros Ho. right; right. rewrite odd_bit in Ho. subst b. by rewrite Hw, odd_bit, Hp.
Qed.

Lemma enqueue_token c t G : token_inv c G -> is_enqueue_pc (tpc_of c t) = true -> token_safe (task_enqueue_step c t (tpc_of c t)).
Proof.
  intros Hi Hpc c' He. exists G.
  destruct (tpc_of c t) as [] eqn:Hp; try done; cbn [task_enqueue_step] in He;
    repeat case_match; injection He as <-; kquiet Hi Hp; unfold after_enqueue, after_guard; cbn;
    repeat match goal with |- context [em_guarded ?m] => destruct (em_guarded m) end; done.
Qed.

Lemma poll_token c t G : token_inv c G ->
  match tpc_of c t with DqClear | DqSub | PlBind | PlEnter | PlWoken _ | PlGrab _ | PlCancel _ | PlScope _ | PlPoll | PlInside | PlExit | PlExitCas _ => True | _ => False end ->
  token_safe (task_poll_step c t (tpc_of c t)).
Proof.
  intros Hi Hpc c' He. exists G.
  destruct (tpc_of c t) as [] eqn:Hp; try done; cbn [task_poll_step] in He; unfold enter_dispatch in He;
    repeat case_match; injection He as <-; try done; kquiet Hi Hp; repeat case_match; done.
Qed.

Lemma finish_token c t G : token_inv c G -> is_finish_pc (tpc_of c t) = true -> token_safe (task_finish_step c t (tpc_of c t)).
Proof.
  intros Hi Hpc c' He. exists G.
  destruct (tpc_of c t) as [] eqn:Hp; try done; cbn [task_finish_step] in He; unfold lock_wakers, wake_handle in He;
    repeat case_match; inv_ret; try done; kquiet Hi Hp; unfold after_guard; repeat case_match; done.
Qed.

Lemma join_token c t G : token_inv c G -> is_join_pc (tpc_of c t) = true -> token_safe (task_join_step c t (tpc_of c t)).
Proof.
  intros Hi Hpc c' He. exists G. destruct (ki_word c G Hi) as [b Hw]. pose proof (ki_range c G Hi) as Hrg.
  destruct (tpc_of c t) as [] eqn:Hp; try done; cbn [task_join_step] in He; unfold lock_wakers, handle_gives, handle_node in He.
  11: { injection He as <-.
    assert (Hcl : Z.land (wt_state (ts_token c)) (bitnot U32 WAKE_TOKEN_ALIVE) = 2 * Z.of_nat (size G)).
    { rewrite Hw. apply low_bit_clear; [lia |]. by rewrite <- Hw. }
    eapply (token_moves _ _ _ _ _ _ Hi); [reflexivity | by rewrite (ki_guard c G Hi), Hp | done | | | | done | by right; left | done | by left | done]; cbn [ts_token ts_live tk_at set_token_word set_token wt_state]; rewrite Hcl.
    - exists false. cbn [Z.b2z]. lia.
    - destruct b; cbn [Z.b2z] in *; lia.
    - intros Hl. apply (ki_dead c G Hi) in Hl. destruct b; cbn [Z.b2z] in *; lia. }
  11: { destruct (wt_state (ts_token c) =? 0) eqn:E; injection He as <-; [| done]. apply Z.eqb_eq in E.
    eapply (token_moves _ _ _ _ _ _ Hi); [reflexivity | by rewrite (ki_guard c G Hi), Hp | done | | done | done | done | by left | done | by right | done].
    exists b. cbn. by rewrite <- E. }
  all: repeat case_match; inv_ret; try done; kquiet Hi Hp; repeat case_match; done.
Qed.

Lemma same_token c c' G : ts_pcs c' = ts_pcs c -> ts_token c' = ts_token c -> ts_live c' = ts_live c -> token_inv c G -> token_inv c' G.
Proof.
  intros H1 H2 H3 [I1 I2 I3 I4 I5 I6 I7]. assert (Hpc : forall t, tpc_of c' t = tpc_of c t) by (intros t; unfold tpc_of; by rewrite H1).
  split; rewrite ?H2, ?H3; try done; try (intros t; rewrite Hpc; auto).
  - intros Ho. destruct (I6 Ho) as [? | [t Ht]]; [by left | right; exists t; by rewrite Hpc].
  - apply I7.
Qed.

Lemma owner_token c a G : token_inv c G -> tpc_of c 0 = TIdle -> token_safe (owner_exec c a).
Proof.
  intros Hi Hp c' He. exists G. unfold owner_exec in He.
  destruct a; repeat case_match; injection He as <-; try done; kquiet Hi Hp; repeat case_match; done.
Qed.

Lemma task_step_token c t G : token_inv c G -> token_safe (task_step c t).
Proof.
  intros Hi c' He. pose proof (enqueue_token c t G Hi) as H1. pose proof (wake_token c t G Hi) as H2.
  pose proof (poll_token c t G Hi) as H3. pose proof (finish_token c t G Hi) as H4.
  pose proof (join_token c t G Hi) as H5. unfold task_step in He. destruct (touches _ && _); [done |].
  destruct (tpc_of c t); cbn [is_wake_pc is_enqueue_pc is_finish_pc is_join_pc] in He;
    first [by eapply H1 | by eapply H2 | by eapply H3 | by eapply H4 | by eapply H5 | injection He as <-; by exists G].
Qed.

Lemma task_exec_token c t a G : token_inv c G -> token_safe (task_exec c t a).
Proof.
  intros Hi c' He.
  destruct (tpc_of c t) as [] eqn:Hp; destruct a; unfold task_exec in He; rewrite ?Hp in He;
    try (by eapply (task_step_token c t G Hi)); try (injection He as <-; by exists G);
    try (destruct (t =? 0)%nat eqn:Et; [apply Nat.eqb_eq in Et; subst t; by eapply (owner_token c _ G Hi Hp) | injection He as <-; by exists G]).
  - injection He as <-. exists G. destruct (wt_header (ts_token c) || negb (ts_live c)) eqn:Eh; [| done].
    eapply (token_moves c _ t WkLoad G G Hi); try done; try apply Hi; [by rewrite (ki_guard c G Hi), Hp | | by left |].
    + intros Ho. right; right. by rewrite Hp.
    + intros _. apply orb_true_iff in Eh as [Eh | Eh%negb_true_iff]; auto.
  - exists G. case_match; injection He as <-; [done |]. kquiet Hi Hp.
  - exists G. injection He as <-. by apply (same_token c).
  - exists G. injection He as <-. by apply (same_token c).
  - exists G. injection He as <-. case_match; [| done]. kquiet Hi Hp.
  - exists G. injection He as <-. destruct r; kquiet Hi Hp.
Qed.

Lemma spawned_token boxed pinned : token_inv (task_spawned (T := T) boxed pinned) ∅.
Proof.
  split; try done.
  - intros t. rewrite spawned_pc. destruct (decide _); set_solver.
  - by exists true.
  - intros t. rewrite spawned_pc. by destruct (decide _).
  - intros t. rewrite spawned_pc. by destruct (decide _).
Qed.

Lemma reach_token boxed pinned c : task_reach boxed pinned c -> exists G, token_inv c G.
Proof.
  intros Hr. apply (reach_invariant _ _ _ (fun c => exists G, token_inv c G)) in Hr; [done | eexists; apply spawned_token |].
  intros c0 t a c' [G Hi] _ He. by eapply (task_exec_token c0 t a G Hi).
Qed.

(** C34 The wake token: the memory of a task does not go away while a thread is
    between acquiring the guard of a wake and dropping it, wherever the scope and
    the other threads are; so no step of a wake reads memory that is gone, and
    once it is gone no wake acquires a guard. *)
Theorem task_memory_outlives_wakes boxed pinned c t (Hc : task_reach boxed pinned c) :
  (guarded (tpc_of c t) = true -> ts_live c = true) /\
  (is_wake_pc (tpc_of c t) = true \/ guarded (tpc_of c t) = true -> task_step c t <> Fault InvalidPointer) /\
  (ts_live c = false -> forall s, tpc_of c t = WkCas s -> task_step c t = Ret (tk_at c t TIdle)).
Proof.
  destruct (reach_token _ _ _ Hc) as [G Hi].
  assert (Hl : guarded (tpc_of c t) = true -> ts_live c = true).
  { intros Hg. destruct (ts_live c) eqn:E; [done |]. apply (ki_guard c G Hi) in Hg. destruct (ki_word c G Hi) as [b Hw].
    rewrite (ki_dead c G Hi E) in Hw. assert (size G = 0)%nat as Hs by (destruct b; cbn [Z.b2z] in *; lia).
    apply size_empty_inv in Hs. set_solver. }
  split_and!; [done | |].
  - intros Hg He. unfold task_step in He. destruct (touches (tpc_of c t) && negb (ts_live c)) eqn:E.
    + apply andb_true_iff in E as [E1 E2]. apply negb_true_iff in E2. destruct Hg as [Hg | Hg]; [by destruct (tpc_of c t) | by rewrite Hl in E2].
    + clear E. destruct (tpc_of c t); cbn [is_wake_pc is_enqueue_pc is_finish_pc is_join_pc] in *; destruct Hg; try done;
        cbn in He; unfold arith, assert in He; repeat case_match; done.
  - intros E s Hp. unfold task_step. rewrite Hp. cbn. rewrite (ki_dead c G Hi E).
    assert (s <> 0) by (intros ->; pose proof (ki_sound c G Hi t) as Hs; by rewrite Hp in Hs). destruct s; done.
Qed.
(** ** No wake-up is lost, for tasks that are not pinned *)

(** The thread is in a wake that has not marked the task yet, is about to poll
    the task or to complete it, or waits for the wakes to end before it frees it. *)
Definition delivers pc : bool :=
  match pc with
  | WkLoad | WkCas _ | WkAlive | WkHeader | EqPinned | EqCompleted _ | EqLoad _ | EqCas _ _ | FrWait => true
  | DqSub | PlBind | PlEnter | PlWoken _ | PlGrab _ | PlCancel false | PlScope false | PlPoll | FnResult _ | FnFuture | FnMark => true
  | _ => false
  end.

Definition plain pc : Prop :=
  match pc with
  | EqCompleted m | EqLoad m | EqCas m _ | EqRef m | EqPush m => em_pinned m = false
  | EqAcked _ | EqUnclear _ | EqUnref _ => False
  | AckOr g | AckScope g | AckSettle g => g = false
  | _ => True
  end.

Definition due c : Prop :=
  has (word c) STATE_COMPLETED = true \/ has (word c) STATE_QUEUED = true \/ has (word c) STATE_WOKEN = true \/
  ts_live c = false \/ exists t, delivers (tpc_of c t) = true.

(** The memory is gone, or another thread waits to free it. *)
Definition gone_for c t : Prop := ts_live c = false \/ exists t', t' <> t /\ tpc_of c t' = FrWait.

Record notify_inv c : Prop := {
  ni_due : ts_notified c = true -> due c;
  ni_woken : has (word c) STATE_WOKEN = true -> has (word c) STATE_POLLING = true \/ has (word c) STATE_COMPLETED = true;
  ni_unpinned : has (word c) STATE_PINNED = false;
  ni_plain : forall t, plain (tpc_of c t)
}.

(** What a step of thread [t] to [pc'] has to give. *)
Lemma notify_moves c c' t pc' : notify_inv c -> ts_pcs c' = <[t := pc']> (ts_pcs c) ->
  (ts_notified c' = true -> ts_notified c = true \/ due c') ->
  (has (word c) STATE_COMPLETED = true -> has (word c') STATE_COMPLETED = true) ->
  (has (word c) STATE_QUEUED = true -> has (word c') STATE_QUEUED = true \/ delivers pc' = true) ->
  (has (word c) STATE_WOKEN = true -> has (word c') STATE_WOKEN = true \/ delivers pc' = true) ->
  (delivers (tpc_of c t) = true -> delivers pc' = true \/ due c' \/ ts_notified c' = false) -> (ts_live c = false -> ts_live c' = false) ->
  (has (word c') STATE_WOKEN = true -> has (word c') STATE_POLLING = true \/ has (word c') STATE_COMPLETED = true) ->
  has (word c') STATE_PINNED = false -> plain pc' -> notify_inv c'.
Proof.
  intros Hi Hp Hn Hc Hq Hw Hd Hlv Hwk Hu Hpl. pose proof (tpc_move c c' t pc' Hp) as Hpc. split; try done.
  - intros Hx. destruct (Hn Hx) as [Hy | Hy]; [| done].
    assert (Hme : delivers pc' = true -> due c').
    { intros E. right; right; right; right. exists t. rewrite Hpc. by rewrite decide_True. }
    destruct (ni_due c Hi Hy) as [E | [E | [E | [E | [t' E]]]]].
    + left; auto.
    + destruct (Hq E); [right; left; done | auto].
    + destruct (Hw E); [right; right; left; done | auto].
    + right; right; right; left. auto.
    + destruct (decide (t' = t)) as [-> | Hne].
      * destruct (Hd E) as [F | [F | F]]; [auto | done | congruence].
      * right; right; right; right. exists t'. rewrite Hpc. by rewrite decide_False.
  - intros t'. rewrite Hpc. destruct (decide (t' = t)); [done | apply Hi].
Qed.

(** Steps that leave the word and the history alone. *)
Lemma notify_quiet c c' t pc' : notify_inv c -> ts_pcs c' = <[t := pc']> (ts_pcs c) -> word c' = word c ->
  ts_notified c' = ts_notified c ->
  (ts_live c = false -> ts_live c' = false) ->
  (delivers (tpc_of c t) = true -> delivers pc' = true \/ has (word c) STATE_COMPLETED = true \/ has (word c) STATE_QUEUED = true \/ gone_for c t) ->
  plain pc' -> notify_inv c'.
Proof.
  intros Hi Hp Hw Hn Hlv Hd Hpl. eapply (notify_moves c c' t pc' Hi Hp); rewrite ?Hw, ?Hn; try done; try tauto; try apply Hi.
  intros E. destruct (Hd E) as [F | [F | [F | F]]]; [by left | right; left; unfold due; rewrite Hw ..]; [by left | right; by left |].
  destruct F as [F | (t' & Hne & F)]; [right; right; right; left; auto |]. right; right; right; right. exists t'.
  rewrite (tpc_move c c' t pc' Hp), decide_False by done. by rewrite F.
Qed.

(** The task is being freed, as thread [t] sees it. *)
Lemma token_gone c G t : token_inv c G -> tpc_of c t <> FrWait -> Z.odd (wt_state (ts_token c)) = false -> gone_for c t.
Proof. intros Hi Hp Ho. destruct (ki_freed c G Hi Ho) as [? | [t' Ht]]; [by left | right; exists t'; split; [congruence | done]]. Qed.

Definition notify_safe (o : outcome (TaskSys T)) : Prop := forall c', o = Ret c' -> notify_inv c'.

Ltac nquiet Hi Hp := eapply (notify_quiet _ _ _ _ Hi); [reflexivity | reflexivity | reflexivity | try done | rewrite Hp; try done | try done];
  first [by modes | by intros _; left | by intros _; right; left | by intros _; right; right; left | idtac].
Ltac nmove Hi Hp := eapply (notify_moves _ _ _ _ Hi); [reflexivity | .. ]; rewrite ?Hp; unfold due, word; cbn; flags; try done; try tauto; try apply Hi.

Lemma enqueue_notify c t : notify_inv c -> is_enqueue_pc (tpc_of c t) = true -> notify_safe (task_enqueue_step c t (tpc_of c t)).
Proof.
  intros Hi Hpc c' He. pose proof (ni_plain c Hi t) as Hpl.
  destruct (tpc_of c t) as [] eqn:Hp; try done; cbn [task_enqueue_step] in He; cbn in Hpl; try rewrite Hpl in He.
  - injection He as <-. nquiet Hi Hp. cbn. apply (ni_unpinned c Hi).
  - case_match; injection He as <-; nquiet Hi Hp.
  - destruct (_ || _) eqn:Eor; injection He as <-; [| nquiet Hi Hp]. apply orb_true_iff in Eor.
    nquiet Hi Hp. intros _. right. destruct Eor as [E | E]; [right; by left | by left].
  - destruct (word c =? state) eqn:Ew; injection He as <-; cas_eq; [| nquiet Hi Hp]. nmove Hi Hp.
  - injection He as <-. nquiet Hi Hp.
  - injection He as <-. nquiet Hi Hp.
Qed.

Lemma wake_notify c t G : notify_inv c -> token_inv c G -> is_wake_pc (tpc_of c t) = true -> notify_safe (task_wake_step c t (tpc_of c t)).
Proof.
  intros Hi Hki Hpc c' He. pose proof (token_gone c G t Hki) as Hgone. pose proof (ki_header c G Hki t) as Hhd.
  destruct (tpc_of c t) as [] eqn:Hp; try done; cbn [task_wake_step] in He; unfold acquire_dispatch in He; rewrite ?alive_odd in He;
    repeat case_match; inv_ret; nquiet Hi Hp; intros _; right; right; right;
    first [apply Hgone; [done | by apply negb_true_iff] | left; destruct (Hhd eq_refl); congruence].
Qed.

Lemma poll_notify c t qo D base ph : notify_inv c -> queue_inv c qo D base -> poll_inv c ph ->
  match tpc_of c t with DqClear | DqSub | PlBind | PlEnter | PlWoken _ | PlGrab _ | PlCancel _ | PlScope _ | PlPoll | PlInside | PlExit | PlExitCas _ => True | _ => False end ->
  notify_safe (task_poll_step c t (tpc_of c t)).
Proof.
  intros Hi Hqi Hpi Hpc c' He. pose proof (pi_sound c ph Hpi t) as Hs.
  destruct (tpc_of c t) as [] eqn:Hp; try done; cbn [task_poll_step] in He.
  - injection He as <-. case_match; nmove Hi Hp.
  - injection He as <-. destruct (th_refs (ts_header c) =? 1) eqn:E; [| nquiet Hi Hp]. apply Z.eqb_eq in E.
    nquiet Hi Hp. intros _. right; left. by apply (last_reference c t qo D base); [| by rewrite Hp |].
  - injection He as <-. nquiet Hi Hp.
  - injection He as <-. unfold enter_dispatch. destruct (has (word c) STATE_COMPLETED) eqn:E; [| case_match]; nquiet Hi Hp.
  - destruct (word c =? state) eqn:Ew; injection He as <-; cas_eq.
    + destruct Hs as [Hs1 Hs2]. nmove Hi Hp.
    + unfold enter_dispatch. destruct (has (word c) STATE_COMPLETED) eqn:E; [| case_match]; nquiet Hi Hp.
  - destruct (word c =? state) eqn:Ew; injection He as <-; cas_eq.
    + nmove Hi Hp.
    + unfold enter_dispatch. destruct (has (word c) STATE_COMPLETED) eqn:E; [| case_match]; nquiet Hi Hp.
  - injection He as <-. destruct after, (has (word c) STATE_CANCELLED); nquiet Hi Hp.
  - injection He as <-. destruct after, (ts_scope_cancelled c); nquiet Hi Hp.
  - assert (ph = PhRun t) as -> by (apply (pi_phase c ph Hpi t); by rewrite Hp).
    destruct (pi_body c _ Hpi) as (Hn & _). rewrite Hn in He. cbn in He. injection He as <-.
    nmove Hi Hp.
  - by injection He as <-.
  - injection He as <-. nquiet Hi Hp.
  - destruct (word c =? state) eqn:Ew; [destruct (has state STATE_WOKEN) eqn:Ewk |]; injection He as <-; cas_eq.
    + eapply (notify_moves _ _ _ _ Hi); [reflexivity | .. ]; rewrite ?Hp; unfold due, word; cbn; unfold exit_word; fold (word c); rewrite ?Ewk; flags; try done; try tauto; try apply Hi.
    + eapply (notify_moves _ _ _ _ Hi); [reflexivity | .. ]; rewrite ?Hp; unfold due, word; cbn; unfold exit_word; fold (word c); rewrite ?Ewk; flags; try done; try tauto; try apply Hi.
      by rewrite Ewk.
    + nquiet Hi Hp.
Qed.

Lemma finish_notify c t ph : notify_inv c -> poll_inv c ph -> is_finish_pc (tpc_of c t) = true ->
  notify_safe (task_finish_step c t (tpc_of c t)).
Proof.
  intros Hi Hpi Hpc c' He. pose proof (ni_plain c Hi t) as Hpl. pose proof (phase_run c t ph) as Hph.
  destruct (tpc_of c t) as [] eqn:Hp; try done; cbn [task_finish_step] in He; cbn in Hpl; unfold lock_wakers in He.
  - injection He as <-. nquiet Hi Hp.
  - injection He as <-. nquiet Hi Hp.
  - injection He as <-. eapply (notify_moves _ _ _ _ Hi); [reflexivity | .. | by case_match]; rewrite ?Hp; unfold due, word; cbn; rewrite ?has_lor; flag_consts; rewrite ?orb_true_r, ?orb_false_r; try done; try tauto; apply Hi.
  - case_match; injection He as <-; [done | nquiet Hi Hp].
  - injection He as <-. unfold wake_handle. case_match; nquiet Hi Hp.
  - injection He as <-. nquiet Hi Hp.
  - injection He as <-. pose proof (Hph _ Hpi eq_refl) as ->. pose proof (pi_completed c _ Hpi) as Hc.
    eapply (notify_moves _ _ _ _ Hi); [reflexivity | .. | by destruct ack]; rewrite ?Hp; unfold due, word; cbn; flags; try done; try tauto; try apply Hi.
  - inv_ret. subst. nmove Hi Hp.
  - inv_ret. nquiet Hi Hp.
  - inv_ret. nquiet Hi Hp.
Qed.

Lemma join_notify c t : notify_inv c -> is_join_pc (tpc_of c t) = true -> notify_safe (task_join_step c t (tpc_of c t)).
Proof.
  intros Hi Hpc c' He.
  destruct (tpc_of c t) as [] eqn:Hp; try done; cbn [task_join_step] in He; unfold lock_wakers, handle_gives, handle_node in He;
    repeat case_match; inv_ret; try done; first [by nquiet Hi Hp | nmove Hi Hp].
Qed.

Lemma same_notify c c' : ts_pcs c' = ts_pcs c -> ts_header c' = ts_header c -> ts_notified c' = ts_notified c ->
  ts_live c' = ts_live c -> notify_inv c -> notify_inv c'.
Proof.
  intros H1 H2 H3 H4 [I1 I2 I3 I4].
  assert (Hpc : forall t, tpc_of c' t = tpc_of c t) by (intros t; unfold tpc_of; by rewrite H1).
  assert (Hw : word c' = word c) by (unfold word; by rewrite H2).
  split; unfold due; rewrite ?Hw, ?H3, ?H4; try done; [| intros t; by rewrite Hpc].
  intros Hn. destruct (I1 Hn) as [? | [? | [? | [? | [t ?]]]]]; [tauto.. |]. right; right; right; right. exists t. by rewrite Hpc.
Qed.

Lemma owner_notify c a : notify_inv c -> tpc_of c 0 = TIdle -> notify_safe (owner_exec c a).
Proof.
  intros Hi Hp c' He. unfold owner_exec in He.
  destruct a; repeat case_match; injection He as <-; try done; nquiet Hi Hp.
Qed.

Lemma task_step_notify c t G : notify_inv c -> token_inv c G -> task_inv c -> notify_safe (task_step c t).
Proof.
  intros Hi Hki (ph & qo & D & base & Hpi & Hqi) c' He. pose proof (enqueue_notify c t Hi) as H1. pose proof (wake_notify c t G Hi Hki) as H2.
  pose proof (poll_notify c t qo D base ph Hi Hqi Hpi) as H3. pose proof (finish_notify c t ph Hi Hpi) as H4.
  pose proof (join_notify c t Hi) as H5. unfold task_step in He. destruct (touches _ && _); [done |].
  destruct (tpc_of c t); cbn [is_wake_pc is_enqueue_pc is_finish_pc is_join_pc] in He;
    first [by eapply H1 | by eapply H2 | by eapply H3 | by eapply H4 | by eapply H5 | by injection He as <-].
Qed.

Lemma task_exec_notify c t a G : notify_inv c -> token_inv c G -> task_inv c -> notify_safe (task_exec c t a).
Proof.
  intros Hi Hki Hti c' He. pose proof (ni_plain c Hi t) as Hpl.
  destruct (tpc_of c t) as [] eqn:Hp; destruct a; unfold task_exec in He; rewrite ?Hp in He;
    try (by eapply (task_step_notify c t G Hi Hki Hti)); try (by injection He as <-);
    try (destruct (t =? 0)%nat eqn:Et; [apply Nat.eqb_eq in Et; subst t; by eapply (owner_notify c _ Hi Hp) | by injection He as <-]).
  - injection He as <-. case_match; [| done].
    eapply (notify_moves c _ t WkLoad Hi); [reflexivity | rewrite ?Hp; first [done | by intros ?; left | by apply Hi | idtac] ..].
    intros _. right. right; right; right; right. exists t. unfold tpc_of. cbn. by rewrite pc_at_insert, decide_True.
  - case_match; injection He as <-; [done |]. nquiet Hi Hp.
  - injection He as <-. apply (same_notify c); done.
  - injection He as <-. apply (same_notify c); done.
  - cbn in Hpl. rewrite Hpl in He. by injection He as <-.
  - injection He as <-. destruct r; nquiet Hi Hp.
Qed.

Lemma spawned_notify boxed : notify_inv (task_spawned (T := T) boxed false).
Proof.
  split; try done; [intros _; right; right; right; right; exists 0%nat; by rewrite spawned_pc |].
  intros t. rewrite spawned_pc. by destruct (decide _).
Qed.

Lemma reach_notify boxed c : task_reach boxed false c -> notify_inv c.
Proof.
  intros Hr. assert (task_inv c /\ (exists G, token_inv c G) /\ notify_inv c) as (_ & _ & ?); [| done]. revert c Hr.
  apply (reach_invariant _ _ _ (fun c => task_inv c /\ (exists G, token_inv c G) /\ notify_inv c)).
  - split_and!; [apply (task_reach_inv boxed false), reach_start | eexists; apply spawned_token | apply spawned_notify].
  - intros c0 t a c' (Hti & [G Hki] & Hi) Ht He.
    split_and!; [| by eapply (task_exec_token c0 t a G Hki) | by eapply (task_exec_notify c0 t a G Hi Hki Hti)].
    destruct Hti as (ph & qo & D & base & Hpi & Hqi). destruct (task_exec_poll c0 t a ph Hpi c' He) as [ph' Hpi'].
    destruct (task_exec_queue c0 t a qo D base ph Hqi Hpi Ht c' He) as (qo' & D' & base' & Hqi'). by exists ph', qo', D', base'.
Qed.

(** C26 No wake-up of a task that is not pinned is lost.  When one of its wakers
    was woken since its last poll began (or it was not polled since it was
    spawned) and no call is in progress, the task is complete, or exactly one
    reference to it is in a run queue, or its future is running and the thread
    that runs it will poll it once more, or the scope has freed the task.  The
    wake counts from the moment the waker is called. *)
Theorem task_wakeup_not_lost boxed c (Hc : task_reach boxed false c) (Hn : ts_notified c = true)
  (Hq : forall t, tpc_of c t = TIdle \/ tpc_of c t = PlInside) :
  has (word c) STATE_COMPLETED = true \/ ts_entries c = 1%nat \/
  (has (word c) STATE_WOKEN = true /\ exists t, tpc_of c t = PlInside) \/ ts_live c = false.
Proof.
  pose proof (reach_notify boxed c Hc) as Hi. destruct (task_reach_inv boxed false c Hc) as (ph & qo & D & base & Hpi & Hqi).
  destruct (ni_due c Hi Hn) as [E | [E | [E | [E | [t E]]]]]; [by left | right; left | | tauto | by destruct (Hq t) as [F | F]; rewrite F in E].
  - rewrite (qi_entries _ _ _ _ Hqi). rewrite (qi_bit _ _ _ _ Hqi) in E. destruct qo as [[t |] |]; try done.
    assert (queue_holder (tpc_of c t) = true) as F by (by apply (qi_holder _ _ _ _ Hqi)). by destruct (Hq t) as [G | G]; rewrite G in F.
  - destruct (ni_woken c Hi E) as [F | F]; [| by left]. right; right; left. split; [done |].
    rewrite (pi_polling c ph Hpi) in F.
    assert (exists t, phase_thread ph = Some t) as [t Ht] by (destruct ph; try done; by eexists).
    exists t. pose proof (pi_thread c ph Hpi t Ht) as Hpt. destruct (Hq t) as [G | G]; [by rewrite G in Hpt | done].
Qed.
End wake.

(** Woken while its future runs; a worker that takes the reference leaves a mark. *)
Definition woken_run : list (nat * task_action Z) :=
  spawn_run ++ poll_run 1 ++ wake_run 2 ++ [(2%nat, TkPop)] ++ steps 2 5.

Lemma task_wakeup_not_lost_witness :
  let c := task_after false false woken_run in
  ts_notified c = true /\ ts_entries c = 0%nat /\ has (word c) STATE_WOKEN = true /\ exists t, tpc_of c t = PlInside.
Proof.
  assert (Hr : task_reach false false (task_after false false woken_run)) by (apply task_after_reach; by vm_compute).
  assert (Hn : ts_notified (task_after false false woken_run) = true) by (by vm_compute).
  assert (He : ts_entries (task_after false false woken_run) = 0%nat) by (by vm_compute).
  assert (Hc : has (word (task_after false false woken_run)) STATE_COMPLETED = false) by (by vm_compute).
  assert (Hq : forall t, tpc_of (task_after false false woken_run) t = TIdle \/ tpc_of (task_after false false woken_run) t = PlInside).
  { intros t. pose proof (tpc_all (task_after false false woken_run) (fun pc => match pc with TIdle | PlInside => true | _ => false end) eq_refl) as Ha.
    specialize (Ha ltac:(by vm_compute) t). destruct (tpc_of _ t); clear -Ha; first [discriminate Ha | left; reflexivity | right; reflexivity]. }
  pose proof (task_wakeup_not_lost false _ Hr Hn Hq) as Hx. rewrite Hc, He in Hx. cbv zeta.
  assert (Hl : ts_live (task_after false false woken_run) = true) by (by vm_compute). rewrite Hl in Hx.
  destruct Hx as [E | [E | [[Hw Hp] | E]]]; [discriminate E | discriminate E | | discriminate E]. exact (conj Hn (conj He (conj Hw Hp))).
Defined.

Lemma task_memory_outlives_wakes_witness :
  let c := task_after false false (spawn_run ++ poll_run 1 ++ [(2%nat, TkWake)] ++ steps 2 3) in
  tpc_of c 2 = WkHeader /\ ts_live c = true.
Proof.
  assert (Hr : task_reach false false (task_after false false (spawn_run ++ poll_run 1 ++ [(2%nat, TkWake)] ++ steps 2 3)))
    by (apply task_after_reach; by vm_compute).
  assert (Hp : tpc_of (task_after false false (spawn_run ++ poll_run 1 ++ [(2%nat, TkWake)] ++ steps 2 3)) 2 = WkHeader) by (by vm_compute).
  split; [exact Hp |]. apply (task_memory_outlives_wakes _ _ _ 2 Hr). by rewrite Hp.
Defined.
