(* ===== verification/TaskMemory.v ===== *)
(** * A task between threads: when its memory is safe, and when it is not *)

From stdpp Require Import list gmap sets.
From S2P Require Import Prelude Interleave Task TaskSafety TaskQueue TaskWake.

Section memory.
Context {T : Type}.
Implicit Types (c : TaskSys T) (t : nat) (pc : task_pc T).

(** ** The discipline

    A thread in one of these places uses the header although no reference that
    it holds keeps the task from being acknowledged: between setting the queued
    bit and counting it, between giving up the reference it took from a queue and
    entering the poll, and between giving up the task's own reference and
    leaving the poll. *)
Definition handing pc : bool :=
  match pc with EqRef _ | DqSub | PlBind | PlEnter | PlWoken _ | PlGrab _ | FnExit _ => true | _ => false end.

(** Nobody else runs while a thread is in such a place; the scope is waited for
    and the runtime stays up; the handle is not cancelled after it gave the result. *)
Definition calm_action c (a : task_action T) : bool :=
  match a with
  | TkShutdown | TkAbandonScope => false
  | TkCancel => match ts_handle c with Some h => match jh_outcome h with None => true | Some _ => false end | None => true end
  | _ => true
  end.

Definition calm c t (a : task_action T) : Prop :=
  Z.of_nat t < MAX_THREADS /\ calm_action c a = true /\
  map_Forall (fun t' pc => t' = t \/ handing pc = false) (ts_pcs c).

#[global] Instance calm_dec c t a : Decision (calm c t a).
Proof. unfold calm. solve_decision. Defined.

Definition calm_reach (boxed : bool) : TaskSys T -> Prop := reach task_exec calm (task_spawned boxed false).

Lemma calm_others c t a t' : calm c t a -> t' <> t -> handing (tpc_of c t') = false.
Proof.
  intros (_ & _ & Hc) Hne. unfold tpc_of, pc_at. destruct (ts_pcs c !! t') as [pc |] eqn:E; [| done].
  destruct (Hc t' pc E); done.
Qed.

Lemma calm_task boxed c : calm_reach boxed c -> task_reach boxed false c.
Proof.
  intros Hr. induction Hr as [| c t a c' Hr IH Ha He]; [constructor |].
  econstructor; [exact IH | | exact He]. destruct Ha as [? _]. done.
Qed.

(** ** The invariant *)

(** The task is not acknowledged yet; thread [t] is about to; it is settled. *)
Inductive ack_stage : Type := AkNot | AkThread (t : nat) | AkSettled.
Implicit Types (st : ack_stage).

Definition acking pc : bool := match pc with FnExit true | AckOr _ | AckScope _ | AckSettle _ => true | _ => false end.
Definition acked_pc pc : bool := match pc with AckScope _ | AckSettle _ => true | _ => false end.

(** Thread 0 is still in the call that enqueues the new task. *)
Definition spawning pc : bool :=
  match pc with EqCompleted m | EqAcked m | EqLoad m | EqCas m _ | EqRef m | EqPush m | EqUnclear m | EqUnref m => negb (em_guarded m) | _ => false end.

Definition acked_of c st : bool :=
  match st with AkNot => false | AkThread t => acked_pc (tpc_of c t) | AkSettled => true end.

(** Places that need the scope to be done, that need the task not to be
    acknowledged, and places that are not reached. *)
Definition stage_ok st pc : Prop :=
  match pc with
  | EqRef _ | DqSub | PlBind | PlEnter | PlWoken _ | PlGrab _ | FnExit false => st = AkNot
  | JnCompleted _ | JnTake | FrAnd | FrWait => st = AkSettled
  | RgCompleted | RgLock | RgCheck | RgPush | JdCompleted | JdCheck | JdLock => False
  | _ => True
  end.

Definition only_spawner c t : Prop :=
  t = 0%nat /\ wt_header (ts_token c) = false /\ ts_entries c = 0%nat /\ has (word c) STATE_COMPLETED = false /\
  ts_live c = true /\ forall t', t' <> t -> tpc_of c t' = TIdle.

Definition freeing pc : bool := match pc with FrAnd | FrWait => true | _ => false end.

Record mem_inv c st : Prop := {
  mi_refs : st = AkNot <-> th_refs (ts_header c) <> 0;
  mi_acking : forall t, acking (tpc_of c t) = true <-> st = AkThread t;
  mi_acked : has (word c) STATE_SCOPE_ACKED = acked_of c st;
  mi_settled : ts_settled c = (match st with AkSettled => 1 | _ => 0 end)%nat;
  mi_live : ts_live c = false -> st = AkSettled /\ outcome_of c <> Some None /\ forall t, is_join_pc (tpc_of c t) = false;
  mi_stage : forall t, stage_ok st (tpc_of c t);
  mi_spawn : forall t, spawning (tpc_of c t) = true -> only_spawner c t;
  mi_obligated : has (word c) STATE_SCOPE_OBLIGATED = true;
  mi_up : ts_shutdown c = false;
  mi_owner : forall t, is_join_pc (tpc_of c t) = true -> t = 0%nat;
  mi_node : forall h, ts_handle c = Some h -> jh_node h = false;
  mi_free : forall t, freeing (tpc_of c t) = true -> outcome_of c <> Some None
}.

(** What a step of thread [t] to [pc'] has to give. *)
Lemma mem_moves c c' t pc' st st' : mem_inv c st -> ts_pcs c' = <[t := pc']> (ts_pcs c) ->
  (forall t', t' <> t -> handing (tpc_of c t') = false) -> (forall t', t' <> t -> spawning (tpc_of c t') = false) ->
  (st' = AkNot <-> th_refs (ts_header c') <> 0) ->
  (acking pc' = true <-> st' = AkThread t) -> (forall t', t' <> t -> st' = AkThread t' <-> st = AkThread t') ->
  has (word c') STATE_SCOPE_ACKED = acked_of c' st' -> ts_settled c' = (match st' with AkSettled => 1 | _ => 0 end)%nat ->
  (st = AkSettled -> st' = AkSettled) ->
  (ts_live c' = false -> st' = AkSettled /\ outcome_of c' <> Some None /\ is_join_pc pc' = false /\ (ts_live c = false \/ t = 0%nat)) ->
  stage_ok st' pc' -> (spawning pc' = true -> only_spawner c' t) -> has (word c') STATE_SCOPE_OBLIGATED = true ->
  ts_shutdown c' = false -> (is_join_pc pc' = true -> t = 0%nat) -> (forall h, ts_handle c' = Some h -> jh_node h = false) ->
  (outcome_of c <> Some None -> outcome_of c' <> Some None) -> (freeing pc' = true -> outcome_of c' <> Some None) -> mem_inv c' st'.
Proof.
  intros Hi Hp Hcalm Hnsp Hr Ha Ha' Hk Hset Hmono Hl Hst Hsp Hob Hup Hown Hnode Hout Hfr. pose proof (tpc_move c c' t pc' Hp) as Hpc. split; try done.
  - intros t'. rewrite Hpc. destruct (decide (t' = t)) as [-> | Hne]; [done |]. by rewrite Ha', (mi_acking c st Hi).
  - intros Hd. destruct (Hl Hd) as (H1 & H2 & H3 & H4). split_and!; try done. intros t'. rewrite Hpc. destruct (decide (t' = t)) as [-> | Hne]; [done |].
    destruct H4 as [H4 | ->]; [by apply (mi_live c st Hi) |].
    destruct (is_join_pc (tpc_of c t')) eqn:E; [| done]. by apply (mi_owner c st Hi) in E.
  - intros t'. rewrite Hpc. destruct (decide (t' = t)) as [-> | Hne]; [done |].
    pose proof (mi_stage c st Hi t') as Hs. pose proof (Hcalm t' Hne) as Hh. destruct (tpc_of c t') as [] eqn:E; try done; cbn; by apply Hmono.
  - intros t'. rewrite Hpc. destruct (decide (t' = t)) as [-> | Hne]; [done |]. by rewrite Hnsp.
  - intros t'. rewrite Hpc. destruct (decide (t' = t)) as [-> | Hne]; [done |]. apply Hi.
  - intros t'. rewrite Hpc. destruct (decide (t' = t)) as [-> | Hne]; [done |]. intros Hf. apply Hout. by apply (mi_free c st Hi t').
Qed.

Lemma acked_move c c' t pc' st : ts_pcs c' = <[t := pc']> (ts_pcs c) -> acked_pc pc' = acked_pc (tpc_of c t) ->
  acked_of c' st = acked_of c st.
Proof.
  intros Hp Hu. destruct st as [| t' |]; try done. cbn. rewrite (tpc_move c c' t pc' Hp).
  destruct (decide (t' = t)) as [-> |]; [by rewrite Hu | done].
Qed.

(** Steps that leave references and acknowledgement alone. *)
Lemma mem_quiet c c' t pc' st : mem_inv c st -> ts_pcs c' = <[t := pc']> (ts_pcs c) ->
  (forall t', t' <> t -> handing (tpc_of c t') = false) -> (forall t', t' <> t -> spawning (tpc_of c t') = false) ->
  th_refs (ts_header c') = th_refs (ts_header c) -> has (word c') STATE_SCOPE_ACKED = has (word c) STATE_SCOPE_ACKED ->
  has (word c') STATE_SCOPE_OBLIGATED = has (word c) STATE_SCOPE_OBLIGATED ->
  ts_settled c' = ts_settled c -> ts_live c' = ts_live c -> ts_shutdown c' = ts_shutdown c ->
  (outcome_of c <> Some None -> outcome_of c' <> Some None) -> (forall h, ts_handle c' = Some h -> jh_node h = false) ->
  acking pc' = acking (tpc_of c t) -> acked_pc pc' = acked_pc (tpc_of c t) ->
  (is_join_pc pc' = true -> is_join_pc (tpc_of c t) = true \/ t = 0%nat /\ ts_live c = true) ->
  stage_ok st pc' -> (spawning pc' = true -> only_spawner c' t) -> (freeing pc' = true -> outcome_of c' <> Some None) -> mem_inv c' st.
Proof.
  intros Hi Hp Hcalm Hnsp Hr Hk Ho Hset Hl Hup Hout Hnode Ha Hap Hj Hst Hsp Hfr.
  eapply (mem_moves c c' t pc' st st Hi Hp Hcalm Hnsp); try done.
  - rewrite Hr. apply Hi.
  - rewrite Ha. apply Hi.
  - rewrite Hk, (acked_move c c' t pc' st Hp Hap). apply Hi.
  - rewrite Hset. apply Hi.
  - rewrite Hl. intros Hd. destruct (mi_live c st Hi Hd) as (H1 & H2 & H3). split_and!; auto.
    destruct (is_join_pc pc') eqn:E; [| done]. destruct (Hj eq_refl) as [Hx | [_ Hx]]; [by rewrite H3 in Hx | congruence].
  - rewrite Ho. apply Hi.
  - rewrite Hup. apply Hi.
  - intros Hx. destruct (Hj Hx) as [Hy | [-> _]]; [by apply (mi_owner c st Hi) | done].
Qed.

Definition mem_safe (o : outcome (TaskSys T)) : Prop := exists c' st, o = Ret c' /\ mem_inv c' st.

(** What the other invariants say, and that nobody else is in the way. *)
Record mem_context c t : Prop := {
  mc_poll : exists ph, poll_inv c ph;
  mc_queue : exists qo D base, queue_inv c qo D base;
  mc_notify : notify_inv c;
  mc_token : exists G, token_inv c G;
  mc_small : Z.of_nat t < MAX_THREADS;
  mc_calm : forall t', t' <> t -> handing (tpc_of c t') = false;
  mc_alone : forall t', t' <> t -> spawning (tpc_of c t') = false
}.

Ltac mquiet Hi Hm Hp := eapply (mem_quiet _ _ _ _ _ Hi);
  [reflexivity | exact (mc_calm _ _ Hm) | exact (mc_alone _ _ Hm) | reflexivity | | | reflexivity | reflexivity | reflexivity | done
  | exact (mi_node _ _ Hi) | rewrite Hp .. | | |]; try done; try (unfold word; cbn; flags; done).

(** A thread that touches the header: the memory is there. *)
Lemma touches_live c st t : mem_inv c st -> mem_context c t -> touches (tpc_of c t) = true -> ts_live c = true.
Proof.
  intros Hi Hm Ht. destruct (ts_live c) eqn:El; [done | exfalso]. destruct (mi_live c st Hi El) as (-> & Ho & Hj).
  destruct (mc_poll _ _ Hm) as [ph Hpi]. destruct (mc_queue _ _ Hm) as (qo & D & base & Hqi). destruct (mc_token _ _ Hm) as [G Hki].
  assert (Hr : th_refs (ts_header c) = 0).
  { destruct (decide (th_refs (ts_header c) = 0)) as [| Hn]; [done |]. by apply (mi_refs c _ Hi) in Hn. }
  rewrite (qi_refs _ _ _ _ Hqi) in Hr. assert (base = false /\ counted c qo = false /\ size D = 0%nat) as (-> & Hcnt & HD).
  { destruct base, (counted c qo); cbn [Z.b2z] in Hr; split_and!; try done; lia. }
  apply size_empty_inv in HD. pose proof (qi_base _ _ _ _ Hqi t) as Hb. pose proof (qi_holder _ _ _ _ Hqi t) as Hh.
  pose proof (qi_releasing _ _ _ _ Hqi t) as Hrl. pose proof (mi_stage c _ Hi t) as Hst. pose proof (mi_acking c _ Hi t) as Hack.
  pose proof (Hj t) as Hjt. pose proof (mi_spawn c _ Hi t) as Hsp.
  assert (Hg : guarded (tpc_of c t) = false).
  { destruct (guarded (tpc_of c t)) eqn:Eg; [| done]. apply (ki_guard c G Hki) in Eg. destruct (ki_word c G Hki) as [b Hw].
    rewrite (ki_dead c G Hki El) in Hw. assert (size G = 0)%nat as Hs by (destruct b; cbn [Z.b2z] in *; lia).
    apply size_empty_inv in Hs. set_solver. }
  assert (Hspl : spawning (tpc_of c t) = true -> False) by (intros Hx; destruct (Hsp Hx) as (_ & _ & _ & _ & Hy & _); congruence).
  destruct (tpc_of c t) as [] eqn:Hp; try done; cbn in *; try (by specialize (Hb eq_refl)); try (by rewrite Hg in Hspl; apply Hspl);
    try (by subst guarded; destruct Hack as [Hx _]; specialize (Hx eq_refl)).
  - destruct Hh as [Hh _]. rewrite (Hh eq_refl) in Hcnt. cbn in Hcnt. by rewrite Hp in Hcnt.
  - destruct ack; [by destruct Hack as [Hx _]; specialize (Hx eq_refl) | done].
Qed.

Lemma spawner_keep c c' t pc' : only_spawner c t -> ts_pcs c' = <[t := pc']> (ts_pcs c) ->
  wt_header (ts_token c') = wt_header (ts_token c) -> ts_entries c' = ts_entries c ->
  has (word c') STATE_COMPLETED = has (word c) STATE_COMPLETED -> ts_live c' = ts_live c -> only_spawner c' t.
Proof.
  intros (H1 & H2 & H3 & H4 & H5 & H6) Hp Ht He Hc Hl. unfold only_spawner. rewrite Ht, He, Hc, Hl. split_and!; try done.
  intros t' Hne. rewrite (tpc_move c c' t pc' Hp). rewrite decide_False by done. by apply H6.
Qed.

(** The task's own reference, or one in a queue, is there. *)
Lemma base_not c st qo D base : mem_inv c st -> queue_inv c qo D base -> base = true \/ counted c qo = true -> st = AkNot.
Proof.
  intros Hi Hqi Hb. apply (mi_refs c st Hi). rewrite (qi_refs _ _ _ _ Hqi).
  destruct Hb as [-> | ->]; [destruct (counted c qo) | destruct base]; cbn [Z.b2z]; lia.
Qed.

Ltac spawned Hi t Hp := intros Hspawn; eapply (spawner_keep _ _ t); [apply (mi_spawn _ _ Hi t); rewrite Hp; exact Hspawn | reflexivity ..].

Lemma enqueue_mem c st t : mem_inv c st -> mem_context c t -> is_enqueue_pc (tpc_of c t) = true ->
  mem_safe (task_enqueue_step c t (tpc_of c t)).
Proof.
  intros Hi Hm Hpc. destruct (mc_queue _ _ Hm) as (qo & D & base & Hqi). pose proof (ni_plain c (mc_notify _ _ Hm) t) as Hpl.
  pose proof (qi_sound _ _ _ _ Hqi t) as Hs.
  destruct (tpc_of c t) as [] eqn:Hp; try done; cbn [task_enqueue_step]; cbn in Hpl.
  - eexists _, st. split; [done |]. mquiet Hi Hm Hp.
  - rewrite Hpl. case_match; (eexists _, st; split; [done |]); mquiet Hi Hm Hp; try (by modes); spawned Hi t Hp.
  - case_match; (eexists _, st; split; [done |]); mquiet Hi Hm Hp; try (by modes); spawned Hi t Hp.
  - destruct (word c =? state) eqn:Ew; cas_eq; (eexists _, st; split; [done |]); mquiet Hi Hm Hp; try (by spawned Hi t Hp).
    + apply (base_not c st qo D base Hi Hqi). left. destruct Hs as [_ Hs]. by apply (qi_live_base _ _ _ _ Hqi).
    + intros Hspawn. eapply (spawner_keep c); [apply (mi_spawn c st Hi); by rewrite Hp | reflexivity.. | | reflexivity].
      unfold word; cbn; by flags.
  - pose proof (mi_stage c st Hi t) as Hst. rewrite Hp in Hst. cbn in Hst. subst st. pose proof (refs_range _ _ _ _ Hqi) as Hrg.
    eexists _, AkNot. split; [done |].
    eapply (mem_moves c _ t (EqPush m) AkNot AkNot Hi); try done; try (by apply Hm); try (by apply Hi).
    + cbn. unfold wrapping_add. rewrite wrap_refs by lia. split; [lia | done].
    + intros Hl. apply (mi_live c _ Hi) in Hl. by destruct Hl.
    + spawned Hi t Hp.
  - eexists _, st. split; [done |]. mquiet Hi Hm Hp; by modes.
Qed.

Lemma wake_mem c st t : mem_inv c st -> mem_context c t -> Z.of_nat t < MAX_THREADS -> is_wake_pc (tpc_of c t) = true ->
  mem_safe (task_wake_step c t (tpc_of c t)).
Proof.
  intros Hi Hm Ht Hpc. destruct (mc_token _ _ Hm) as [G Hki]. destruct (mc_queue _ _ Hm) as (qo & D & base & Hqi).
  destruct (tpc_of c t) as [] eqn:Hp; try done; cbn [task_wake_step]; unfold acquire_dispatch.
  - eexists _, st. split; [done |]. case_match; mquiet Hi Hm Hp.
  - destruct (wt_state (ts_token c) =? state) eqn:Ew; [| eexists _, st; split; [done |]; case_match; mquiet Hi Hm Hp].
    apply Z.eqb_eq in Ew. subst state. destruct (ki_word c G Hki) as [b Hw].
    assert (Hg : t ∉ G). { intros Hx. apply (ki_guard c G Hki) in Hx. by rewrite Hp in Hx. }
    assert (size ({[t]} ∪ G) <= Z.to_nat MAX_THREADS)%nat as Hsz.
    { apply size_below. intros t' Ht'. assert (Z.of_nat t' < MAX_THREADS); [| lia].
      apply elem_of_union in Ht' as [->%elem_of_singleton | Hx]; [done |]. apply (qi_small _ _ _ _ Hqi).
      intros E. apply (ki_guard c G Hki) in Hx. by rewrite E in Hx. }
    rewrite size_union, size_singleton in Hsz by set_solver. unfold MAX_THREADS in *.
    rewrite arith_ok by (rewrite Hw; unfold WAKE_TOKEN_ACTIVE_UNIT, U32; destruct b; cbn [Z.b2z]; lia). rewrite bind_ret.
    eexists _, st. split; [done |]. mquiet Hi Hm Hp.
  - eexists _, st. split; [done |]. case_match; mquiet Hi Hm Hp.
  - eexists _, st. split; [done |]. case_match; mquiet Hi Hm Hp.
  - eexists _, st. split; [done |]. mquiet Hi Hm Hp.
Qed.

(** Subtracting one reference. *)
Lemma sub_refs c qo D base st : queue_inv c qo D base -> mem_inv c st -> st = AkNot ->
  wrapping_sub USIZE_BITS (th_refs (ts_header c)) 1 = th_refs (ts_header c) - 1.
Proof.
  intros Hqi Hi Hst. apply (mi_refs c st Hi) in Hst. pose proof (refs_range _ _ _ _ Hqi). unfold wrapping_sub. apply wrap_refs. lia.
Qed.

Lemma give_up_mem c t pc' : mem_inv c AkNot -> mem_context c t ->
  acking pc' = (th_refs (ts_header c) =? 1) -> acked_pc pc' = false -> acking (tpc_of c t) = false ->
  stage_ok (if th_refs (ts_header c) =? 1 then AkThread t else AkNot) pc' -> spawning pc' = false -> is_join_pc pc' = false ->
  mem_inv (tk_at (set_refs c (wrapping_sub USIZE_BITS (th_refs (ts_header c)) 1)) t pc') (if th_refs (ts_header c) =? 1 then AkThread t else AkNot).
Proof.
  intros Hi Hm Ha Hap Ha0 Hst Hsp Hj. destruct (mc_queue _ _ Hm) as (qo & D & base & Hqi). pose proof (sub_refs c qo D base AkNot Hqi Hi eq_refl) as Hsub.
  assert (Hr0 : th_refs (ts_header c) <> 0) by by apply (mi_refs c AkNot Hi).
  eapply (mem_moves c _ t pc' AkNot _ Hi); try done; try (by apply Hm); try (by apply Hi); rewrite ?Hsp, ?Hj; try done.
  - cbn. rewrite Hsub. destruct (Z.eqb_spec (th_refs (ts_header c)) 1) as [E | E]; split; try done; lia.
  - rewrite Ha. destruct (th_refs (ts_header c) =? 1); split; congruence.
  - intros t' Hne. destruct (th_refs (ts_header c) =? 1); split; congruence.
  - pose proof (mi_acked c AkNot Hi) as Hk. cbn in Hk. destruct (th_refs (ts_header c) =? 1); [| done].
    cbn. unfold tpc_of. cbn. rewrite pc_at_eq. by rewrite Hap.
  - destruct (th_refs (ts_header c) =? 1); apply Hi.
  - intros Hl. apply (mi_live c _ Hi) in Hl. by destruct Hl.
  - by destruct pc'.
Qed.

Lemma poll_mem c st t : mem_inv c st -> mem_context c t ->
  match tpc_of c t with DqClear | DqSub | PlBind | PlEnter | PlWoken _ | PlGrab _ | PlCancel _ | PlScope _ | PlPoll | PlInside | PlExit | PlExitCas _ => True | _ => False end ->
  mem_safe (task_poll_step c t (tpc_of c t)).
Proof.
  intros Hi Hm Hpc. destruct (mc_queue _ _ Hm) as (qo & D & base & Hqi). pose proof (mi_stage c st Hi t) as Hst.
  pose proof (holder_unique c qo D base t Hqi) as Hq.
  destruct (tpc_of c t) as [] eqn:Hp; try done; cbn [task_poll_step]; cbn [queue_holder] in Hq; cbn in Hst; unfold enter_dispatch, exit_word.
  - rewrite (qi_bit _ _ _ _ Hqi), (Hq eq_refl). eexists _, st. split; [done |]. mquiet Hi Hm Hp.
    apply (base_not c st qo D base Hi Hqi). right. rewrite (Hq eq_refl). cbn. by rewrite Hp.
  - subst st. eexists _, _. split; [done |]. apply give_up_mem; rewrite ?Hp; try done; by destruct (th_refs (ts_header c) =? 1).
  - subst st. eexists _, AkNot. split; [done |]. mquiet Hi Hm Hp.
  - subst st. eexists _, AkNot. split; [done |]. repeat case_match; mquiet Hi Hm Hp.
  - subst st. destruct (word c =? state) eqn:Ew; cas_eq; (eexists _, AkNot; split; [done |]); repeat case_match; mquiet Hi Hm Hp.
  - subst st. destruct (word c =? state) eqn:Ew; cas_eq; (eexists _, AkNot; split; [done |]); repeat case_match; mquiet Hi Hm Hp.
  - eexists _, st. split; [done |]. case_match; mquiet Hi Hm Hp.
  - eexists _, st. split; [done |]. repeat case_match; mquiet Hi Hm Hp.
  - case_match; (eexists _, st; split; [done |]); mquiet Hi Hm Hp.
  - by exists c, st.
  - eexists _, st. split; [done |]. mquiet Hi Hm Hp.
  - destruct (word c =? state) eqn:Ew; cas_eq; (eexists _, st; split; [done |]); repeat case_match; mquiet Hi Hm Hp.
Qed.

Lemma finish_mem c st t : mem_inv c st -> mem_context c t -> is_finish_pc (tpc_of c t) = true ->
  mem_safe (task_finish_step c t (tpc_of c t)).
Proof.
  intros Hi Hm Hpc. destruct (mc_queue _ _ Hm) as (qo & D & base & Hqi). pose proof (mi_stage c st Hi t) as Hst.
  pose proof (ni_plain c (mc_notify _ _ Hm) t) as Hpl. pose proof (mi_acking c st Hi t) as Hack.
  destruct (tpc_of c t) as [] eqn:Hp; try done; cbn [task_finish_step]; cbn in Hst, Hpl, Hack; unfold lock_wakers.
  - eexists _, st. split; [done |]. mquiet Hi Hm Hp.
  - eexists _, st. split; [done |]. mquiet Hi Hm Hp.
  - eexists _, st. split; [done |]. case_match; mquiet Hi Hm Hp; unfold word; cbn; rewrite ?has_lor; flag_consts; by rewrite ?orb_false_r.
  - case_match; [by exists c, st |]. eexists _, st. split; [done |]. mquiet Hi Hm Hp.
  - eexists _, st. split; [done |]. destruct (wake_handle_same c) as (_ & _ & Ho & Hw & Hpcs).
    eapply (mem_quiet _ _ _ FnSub _ Hi); [cbn; by rewrite Hpcs | exact (mc_calm _ _ Hm) | exact (mc_alone _ _ Hm) | | | | | | | | | rewrite Hp .. | | |]; try done;
      unfold wake_handle; destruct (th_node (ts_header c)); try done; try apply (mi_node _ _ Hi).
    + unfold outcome_of. cbn. by destruct (ts_handle c).
    + cbn. destruct (ts_handle c) as [h |] eqn:Eh; [| done]. intros h' [= <-]. cbn. by apply (mi_node _ _ Hi).
  - assert (st = AkNot) as ->.
    { apply (base_not c st qo D base Hi Hqi). left. apply (qi_base _ _ _ _ Hqi t). by rewrite Hp. }
    eexists _, _. split; [done |]. apply give_up_mem; rewrite ?Hp; try done; by destruct (th_refs (ts_header c) =? 1).
  - eexists _, st. split; [done |]. destruct ack; mquiet Hi Hm Hp.
  - subst guarded. destruct Hack as [Hack _]. specialize (Hack eq_refl). subst st.
    assert (Hk : has (word c) STATE_SCOPE_ACKED = false) by (rewrite (mi_acked c _ Hi); cbn; by rewrite Hp).
    rewrite Hk, (mi_obligated c _ Hi). cbn [negb assert]. rewrite !bind_ret. eexists _, (AkThread t). split; [done |].
    eapply (mem_moves c _ t _ (AkThread t) (AkThread t) Hi); try done; try (by apply Hm); try (by apply Hi).
    + unfold word; cbn; flags. unfold tpc_of. cbn. by rewrite pc_at_eq.
    + intros Hl. apply (mi_live c _ Hi) in Hl. by destruct Hl.
    + unfold word; cbn; flags. apply Hi.
  - eexists _, st. split; [done |]. mquiet Hi Hm Hp.
  - subst guarded. destruct Hack as [Hack _]. specialize (Hack eq_refl). subst st. eexists _, AkSettled. split; [done |].
    eapply (mem_moves c _ t _ (AkThread t) AkSettled Hi); try done; try (by apply Hm); try (by apply Hi).
    + pose proof (mi_refs c _ Hi) as Hr. split; [done |]. intros Hx. apply Hr in Hx. done.
    + intros t' Hne. split; congruence.
    + pose proof (mi_acked c _ Hi) as Hk. cbn in Hk |- *. rewrite Hp in Hk. exact Hk.
    + cbn. by rewrite (mi_settled c _ Hi).
    + intros Hl. apply (mi_live c _ Hi) in Hl. by destruct Hl.
Qed.

(** What is acknowledged is complete. *)
Lemma settled_completed c st qo D base : mem_inv c st -> queue_inv c qo D base -> st <> AkNot -> has (word c) STATE_COMPLETED = true.
Proof.
  intros Hi Hqi Hst. destruct (has (word c) STATE_COMPLETED) eqn:E; [done |]. apply (qi_live_base _ _ _ _ Hqi) in E.
  destruct Hst. apply (base_not c st qo D base Hi Hqi). by left.
Qed.

Lemma join_mem c st t : mem_inv c st -> mem_context c t -> is_join_pc (tpc_of c t) = true -> mem_safe (task_join_step c t (tpc_of c t)).
Proof.
  intros Hi Hm Hpc. destruct (mc_queue _ _ Hm) as (qo & D & base & Hqi). destruct (mc_poll _ _ Hm) as [ph Hpi].
  pose proof (mi_stage c st Hi t) as Hst. pose proof (pi_sound c ph Hpi t) as Hs. pose proof (mi_free c st Hi t) as Hfr.
  pose proof (mi_owner c st Hi t) as Hown.
  destruct (tpc_of c t) as [] eqn:Hp; try done; cbn [task_join_step]; cbn in Hst, Hs.
  - subst st. rewrite (settled_completed c _ qo D base Hi Hqi) by done. eexists _, AkSettled. split; [done |]. mquiet Hi Hm Hp. auto.
  - subst st. destruct Hs as (-> & Hc & Ho). rewrite (pi_completed c ph Hpi) in Hc. pose proof (pi_body c ph Hpi) as Hb.
    assert (exists r, tn_status (ts_node c) = STATUS_DONE /\ tn_result (ts_node c) = Some r) as (r & Hd & Hr).
    { destruct ph; try done; destruct Hb as (r & Hr & [[H1 H2] | [H1 H2]] & _); eauto; done. }
    rewrite Hd, Hr. cbn [Z.eqb]. change (STATUS_DONE =? STATUS_DONE) with true. cbn [negb]. unfold outcome_of in Ho.
    destruct (ts_handle c) as [h |] eqn:Eh; [| done]. eexists _, AkSettled. split; [done |].
    assert (Hout : outcome_of (tk_at (handle_gives (set_node c (mkNode STATUS_EMPTY (tn_future (ts_node c)) None) (ts_results c)) (join_outcome r)) 0
      (if ts_boxed c then FrAnd else TIdle)) <> Some None) by (unfold outcome_of, handle_gives; cbn; by rewrite Eh).
    eapply (mem_quiet _ _ _ _ _ Hi); [reflexivity | exact (mc_calm _ _ Hm) | exact (mc_alone _ _ Hm) | reflexivity | reflexivity | reflexivity | reflexivity | reflexivity | reflexivity | | | rewrite Hp .. | | |]; try done;
      try (cbn [ts_boxed set_node]; by destruct (ts_boxed c)).
    + unfold handle_gives. cbn. rewrite Eh. intros h' [= <-]. exact (mi_node c _ Hi h Eh).
    + intros _. by left.
  - eexists _, st. split; [done |]. mquiet Hi Hm Hp.
  - eexists _, st. split; [done |]. mquiet Hi Hm Hp. by left.
  - destruct (wt_state (ts_token c) =? 0); [| by exists c, st]. subst st. eexists _, AkSettled. split; [done |].
    eapply (mem_moves c _ t TIdle AkSettled AkSettled Hi); try done; try (by apply Hm); try (by apply Hi).
    intros _. split_and!; try done; [by apply Hfr |]. right. by apply Hown.
Qed.

Lemma task_step_mem c st t : mem_inv c st -> mem_context c t -> mem_safe (task_step c t).
Proof.
  intros Hi Hm. pose proof (touches_live c st t Hi Hm) as Hl. pose proof (enqueue_mem c st t Hi Hm) as H1.
  pose proof (wake_mem c st t Hi Hm (mc_small _ _ Hm)) as H2. pose proof (poll_mem c st t Hi Hm) as H3.
  pose proof (finish_mem c st t Hi Hm) as H4. pose proof (join_mem c st t Hi Hm) as H5.
  unfold task_step. destruct (touches (tpc_of c t)) eqn:Et; [rewrite Hl by done |]; cbn [andb negb];
    destruct (tpc_of c t); cbn [is_wake_pc is_enqueue_pc is_finish_pc is_join_pc] in *;
    first [by apply H1 | by apply H2 | by apply H3 | by apply H4 | by apply H5 | by exists c, st].
Qed.

Lemma owner_mem c st a : mem_inv c st -> mem_context c 0 -> tpc_of c 0 = TIdle -> calm_action c a = true -> mem_safe (owner_exec c a).
Proof.
  intros Hi Hm Hp Ha. pose proof (mi_live c st Hi) as Hl.
  assert (Hset : (ts_settled c =? 0)%nat = false -> st = AkSettled) by (rewrite (mi_settled c st Hi); by destruct st).
  assert (Hlive : forall h, ts_handle c = Some h -> jh_outcome h = None -> ts_live c = true).
  { intros h Hh Ho. destruct (ts_live c); [done |]. destruct (Hl eq_refl) as (_ & Hx & _). destruct Hx. unfold outcome_of. rewrite Hh. cbn. by rewrite Ho. }
  unfold owner_exec. destruct a; try (by exists c, st); destruct (ts_handle c) as [h |] eqn:Eh; try (by exists c, st); cbn in Ha; rewrite ?Eh in Ha; try done.
  - destruct (jh_outcome h) eqn:Eo; [by exists c, st |]. rewrite (mi_up c st Hi). cbn [negb]. rewrite andb_true_r.
    destruct (ts_settled c =? 0)%nat; [by exists c, st |]. rewrite (Hset eq_refl) in Hi. eexists _, AkSettled. split; [done |]. mquiet Hi Hm Hp. right. eauto.
  - destruct (jh_outcome h) eqn:Eo; [done |]. eexists _, st. split; [done |]. mquiet Hi Hm Hp. right. eauto.
  - rewrite (mi_node c st Hi h Eh). eexists _, st. split; [done |].
    eapply (mem_quiet _ _ _ _ _ Hi); [reflexivity | exact (mc_calm _ _ Hm) | exact (mc_alone _ _ Hm) | reflexivity | reflexivity | reflexivity | reflexivity | reflexivity | reflexivity | | | rewrite Hp .. | | |]; done.
  - rewrite (mi_up c st Hi), orb_false_r. destruct (ts_live c) eqn:El; [| by exists c, st]. destruct (ts_settled c =? 0)%nat; [by exists c, st |].
    rewrite (Hset eq_refl) in Hi. eexists _, AkSettled. split; [done |]. mquiet Hi Hm Hp; [by right |].
    intros _. unfold outcome_of. cbn. by rewrite Eh.
Qed.

Lemma same_mem c b st : mem_inv c st -> mem_inv (set_scope c b (ts_shutdown c) (ts_settled c)) st.
Proof. intros [I1 I2 I3 I4 I5 I6 I7 I8 I9 I10 I11 I12]. by split. Qed.

(** While the new task is being enqueued, nobody else finds it. *)
Lemma spawning_exec c st t a : mem_inv c st -> t <> 0%nat -> spawning (tpc_of c 0) = true -> calm_action c a = true -> mem_safe (task_exec c t a).
Proof.
  intros Hi Hne Hsp Ha. destruct (mi_spawn c st Hi 0 Hsp) as (_ & Hh & He & _ & Hl & Hidle). specialize (Hidle t Hne).
  unfold task_exec. rewrite Hidle, Hh, Hl, He. apply Nat.eqb_neq in Hne. rewrite Hne.
  destruct a; try done; try (by exists c, st).
  - unfold task_step. rewrite Hidle. by exists c, st.
  - eexists _, st. split; [done |]. by apply same_mem.
Qed.

Lemma task_exec_mem c st t a : mem_inv c st -> task_inv c -> notify_inv c -> (exists G, token_inv c G) -> calm c t a -> mem_safe (task_exec c t a).
Proof.
  intros Hi (ph & qo & D & base & Hpi & Hqi) Hni Hki Hc. pose proof Hc as (Ht & Ha & _).
  destruct (decide (t <> 0%nat /\ spawning (tpc_of c 0) = true)) as [[Hne Hsp] | Hn]; [by apply (spawning_exec c st) |].
  assert (Hm : mem_context c t).
  { split; eauto; [by intros t'; apply (calm_others c t a) |]. intros t' Hne. destruct (spawning (tpc_of c t')) eqn:E; [| done].
    destruct (mi_spawn c st Hi t' E) as (-> & _). destruct Hn. done. }
  pose proof (task_step_mem c st t Hi Hm) as Hstep.
  destruct (tpc_of c t) as [] eqn:Hp; destruct a; unfold task_exec; rewrite ?Hp; try exact Hstep; try (by exists c, st);
    try (destruct (t =? 0)%nat eqn:Et; [apply Nat.eqb_eq in Et; subst t; by apply (owner_mem c st) | by exists c, st]).
  - destruct (wt_header (ts_token c) || negb (ts_live c)); [| by exists c, st]. eexists _, st. split; [done |]. mquiet Hi Hm Hp.
  - destruct (ts_entries c); [by exists c, st |]. eexists _, st. split; [done |]. mquiet Hi Hm Hp.
  - eexists _, st. split; [done |]. by apply same_mem.
  - pose proof (ni_plain c Hni t) as Hpl. rewrite Hp in Hpl. cbn in Hpl. rewrite Hpl. by exists c, st.
  - eexists _, st. split; [done |]. destruct r; mquiet Hi Hm Hp.
Qed.

Lemma spawned_mem boxed : mem_inv (task_spawned boxed false) AkNot.
Proof.
  split; try done; try (intros t; rewrite spawned_pc; by destruct (decide _)).
  - intros t. rewrite spawned_pc. destruct (decide _) as [-> | Hne]; [| done]. intros _. unfold only_spawner. split_and!; try done.
    intros t' Ht'. rewrite spawned_pc. by rewrite decide_False.
  - intros h [= <-]. done.
Qed.

Lemma reach_mem boxed c : calm_reach boxed c -> exists st, mem_inv c st.
Proof.
  intros Hr. induction Hr as [| c t a c' Hr [st Hi] Ha He]; [eexists; apply spawned_mem |].
  pose proof (calm_task _ _ Hr) as Hx. destruct (task_exec_mem c st t a Hi) as (c1 & st' & He' & Hi'); try done.
  - by eapply task_reach_inv.
  - by eapply reach_notify.
  - by eapply reach_token.
  - rewrite He in He'. injection He' as <-. by exists st'.
Qed.

(** C25 A task that is not pinned, while the hand-overs are atomic.  The
    conditions are those of [calm]: nobody else acts between setting the queued
    bit and counting the reference, between giving up a reference and entering
    the poll, or between the last decrement and leaving the poll; the runtime is
    not shut down before the task is settled and the future that waits for the
    scope is not dropped; the handle is not cancelled after it gave the result;
    there are fewer than 2^30 threads.  Then every action of every thread
    succeeds: no step reads memory that is gone and nothing is acknowledged
    twice.  The scope is told at most once, and then the task is complete, has
    its result and no queue holds it; its memory goes only after that.  (A poll of
    the handle drives the worker until the scope is done, so under these
    conditions it never registers its waker.) *)
Theorem task_sound_when_handoffs_atomic boxed c (Hc : calm_reach boxed c) :
  (forall t a, calm c t a -> exists c', task_exec c t a = Ret c') /\
  (ts_settled c <= 1)%nat /\
  (ts_settled c = 1%nat -> has (word c) STATE_COMPLETED = true /\ ts_entries c = 0%nat /\ exists r, ts_results c = [r]) /\
  (ts_live c = false -> ts_settled c = 1%nat /\ forall h, ts_handle c = Some h -> jh_outcome h <> None).
Proof.
  destruct (reach_mem _ _ Hc) as [st Hi]. pose proof (calm_task _ _ Hc) as Hr. destruct (task_reach_inv _ _ _ Hr) as (ph & qo & D & base & Hpi & Hqi).
  pose proof (mi_settled c st Hi) as Hset. split_and!.
  - intros t a Ha. destruct (task_exec_mem c st t a Hi) as (c' & _ & He & _); eauto; [by eapply task_reach_inv | by eapply reach_notify | by eapply reach_token].
  - rewrite Hset. destruct st; lia.
  - intros H1. assert (Hst : st <> AkNot) by (intros ->; rewrite Hset in H1; done).
    assert (Hcomp := settled_completed c st qo D base Hi Hqi Hst). split_and!; [done | |].
    + assert (Hz : th_refs (ts_header c) = 0) by (destruct (decide (th_refs (ts_header c) = 0)) as [| Hn]; [done | by apply (mi_refs c st Hi) in Hn]).
      rewrite (qi_refs _ _ _ _ Hqi) in Hz. rewrite (qi_entries _ _ _ _ Hqi). destruct qo as [[?|]|]; try done.
      cbn [counted Z.b2z] in Hz. destruct base; cbn [Z.b2z] in Hz; lia.
    + rewrite (pi_completed c ph Hpi) in Hcomp. pose proof (pi_body c ph Hpi) as Hb. destruct ph; try done; destruct Hb as (r & Hb & _); eauto.
  - intros Hl. destruct (mi_live c st Hi Hl) as (-> & Ho & _). split; [done |]. intros h Hh Hn. apply Ho. unfold outcome_of. rewrite Hh. cbn. by rewrite Hn.
Qed.
End memory.

(** A whole life: spawned, polled, woken while it is polled, polled again, joined, freed. *)
Definition calm_run : list (nat * task_action Z) :=
  spawn_run ++ poll_run 1 ++ wake_run 2 ++ [(1%nat, TkReturn RtPending)] ++ steps 1 4 ++ poll_run 3 ++ ready_run 3 ++ leave_run.

Lemma task_sound_when_handoffs_atomic_witness :
  let c := task_after false false calm_run in
  ts_live c = false /\ ts_settled c = 1%nat /\ ts_entries c = 0%nat /\ has (word c) STATE_COMPLETED = true.
Proof.
  assert (Hr : calm_reach false (task_after false false calm_run)).
  { eapply (run_reach task_exec calm _ calm_run); [constructor | by vm_compute | by vm_compute]. }
  assert (Hl : ts_live (task_after false false calm_run) = false) by (by vm_compute).
  destruct (task_sound_when_handoffs_atomic _ _ Hr) as (_ & _ & H1 & H2). destruct (H2 Hl) as [Hs _]. destruct (H1 Hs) as (Hc & He & _). by split_and!.
Defined.

(** ** When they are not atomic *)

Definition faults (boxed pinned : bool) (sched : list (nat * task_action Z)) : option fault :=
  match run task_exec (task_spawned boxed pinned) sched with Ret _ => None | Fault f => Some f end.

(** A wake stops between setting the queued bit and counting it; the poller completes. *)
Definition wake_uncounted_run : list (nat * task_action Z) :=
  spawn_run ++ poll_run 1 ++ [(2%nat, TkWake)] ++ steps 2 8 ++ ready_run 1 ++ steps 2 3.
(** A worker that gave up its reference has not entered the poll; another one completes. *)
Definition poll_uncounted_run : list (nat * task_action Z) :=
  spawn_run ++ [(1%nat, TkPop)] ++ steps 1 3 ++ wake_run 2 ++ poll_run 2 ++ ready_run 2 ++ leave_run ++ steps 1 1.
(** The poller gave up the task's reference and has not left the poll; a worker acknowledges. *)
Definition exit_uncounted_run : list (nat * task_action Z) :=
  spawn_run ++ poll_run 1 ++ wake_run 2 ++ [(1%nat, TkReturn (RtReady 5))] ++ steps 1 6 ++
  [(2%nat, TkPop)] ++ steps 2 5 ++ leave_run ++ steps 1 1.
(** [JoinHandle::cancel] once the handle of a boxed task has given its result. *)
Definition cancel_after_result_run : list (nat * task_action Z) :=
  spawn_run ++ poll_run 1 ++ ready_run 1 ++ [(0%nat, TkJoin false)] ++ steps 0 4 ++ [(0%nat, TkCancel)] ++ steps 0 1.
(** The future that waits for the scope is dropped while the task is queued. *)
Definition abandoned_run : list (nat * task_action Z) :=
  spawn_run ++ [(0%nat, TkDropHandle); (0%nat, TkAbandonScope)] ++ steps 0 2 ++ [(1%nat, TkPop)] ++ steps 1 1.
(** A pinned task is woken between its completion and its last decrement. *)
Definition pinned_settled_run : list (nat * task_action Z) :=
  spawn_run ++ poll_run 1 ++ [(1%nat, TkReturn (RtReady 5))] ++ steps 1 3 ++ [(2%nat, TkWake)] ++ steps 2 9 ++ steps 1 5.

(** The runtime shuts down; the handle is polled, and polled again with another waker. *)
Definition rejoined_run : list (nat * task_action Z) :=
  spawn_run ++ [(0%nat, TkShutdown); (0%nat, TkJoin false)] ++ steps 0 5 ++ [(0%nat, TkJoin true)] ++ steps 0 5.

(** Without that discipline, which nothing enforces, the task breaks.  A wake
    that stops between setting the queued bit and counting its reference
    ([try_mark_queued]) while the task completes leaves a settled task in a
    queue: a worker acknowledges it twice, or reads it after the scope freed it.
    A worker between [clear_queued] and [try_enter_poll], and one between the
    decrement and [exit_poll] in [finalize], read a task that was freed.  So does
    [JoinHandle::cancel] on a boxed task whose result was taken, and a worker
    once the future of the scope was dropped.  And a wake of a pinned task that
    is complete, but not acknowledged, acknowledges it before its poller does.
    And a handle that is polled with another waker while its node is in the list
    of the header links the node again, and [push_back] panics. *)
Theorem task_memory_unsound :
  faults false false (wake_uncounted_run ++ [(3%nat, TkPop)] ++ steps 3 3) = Some AssertFailed /\
  faults false false (wake_uncounted_run ++ leave_run ++ [(3%nat, TkPop)] ++ steps 3 1) = Some InvalidPointer /\
  faults false false poll_uncounted_run = Some InvalidPointer /\
  faults false false exit_uncounted_run = Some InvalidPointer /\
  faults true false cancel_after_result_run = Some InvalidPointer /\
  (forall boxed, faults boxed false abandoned_run = Some InvalidPointer) /\
  faults false true pinned_settled_run = Some AssertFailed /\
  faults false false rejoined_run = Some AssertFailed.
Proof. split_and!; try (intros []); by vm_compute. Qed.
